(* ===== verification/_CoqProject ===== *)
-Q . S2P
Prelude.v
Registry.v
Render.v
Read.v
Reader.v
Numbers.v
Decode.v
Projection.v
Budget.v
Lane.v
Hash.v
RecordView.v
Slot.v
LedgerWord.v
LedgerCore.v
LedgerProps.v
LedgerStore.v
LedgerTruth.v
LedgerRecovery.v
Evidence.v
MissionState.v
Journal.v
Contract.v
Mission.v
Replay.v
ReplaySample.v
ReplayInv.v
ReplayProps.v
ReplaySafety.v
Utf8.v
PagePolicy.v
PageTree.v
PageScan.v
PageParse.v
PageRules.v
PageLex.v
PageSound.v
PageComplete.v
PageCheck.v
PageFacts.v
PageVerdict.v
AuthBase.v
AuthText.v
HaltCell.v
AuthGrants.v
AuthHalt.v
AuthRuns.v
AuthRunsInv.v
AuthRunsProps.v
AuthCommit.v
AuthCommitInv.v
AuthCommitProps.v
AuthCommitSafety.v
AuthCommitBinding.v
AuthCommitCalls.v
KernelMerkle.v
KernelAudit.v
KernelAuditProps.v
KernelPolicy.v
KernelConsent.v
KernelConsentProps.v
KernelFuel.v
KernelGates.v
