(* ===== verification/Prelude.v ===== *)
(** * Nexus: what its governing code promises

    A verification library for the parts of the repository that decide what
    may happen and what is known to have happened: the typed-decision core,
    the ledger protocol, Mother's missions, the inert page check, the
    authority, and the audit, policy, consent, fuel and kill gates of the
    kernel.

    ** The program

    Mother, the system's assistant, acts only through governed operations.

    [crates/nexus-typed-decision] puts a closed question to a small language
    model and turns the reply into a decision. A code-owned registry of
    question sets ([ident.rs], [registry.rs]) is rendered into a system text,
    a response schema and correction sentences ([render.rs]); a projection of
    the page or note under assessment is encoded and framed
    ([projection.rs]); a preflight check fits both attempts into a byte budget
    and refuses sensitive spellings ([budget.rs]); the reply is read by a
    strict parser and exact arithmetic ([decode.rs]); the answers are read
    under each question's policy ([read.rs]) and composed into what the
    Sentinel, the Verifier and the notes screen may do ([lane.rs]); what is
    recorded is a display view ([record.rs]) and hashes of everything the
    question depended on ([hash.rs]); and a slot admits one assessed item at
    most as often as it was approved ([slot.rs]).

    [crates/nexus-governed-control/src/ledger/protocol.rs] is the store
    protocol of the evidence ledger. A core behind a lock runs every storage
    operation under a guard that publishes exactly once, on return and on
    unwind alike, into one shared 64-bit word; tickets used on any thread
    count the results their owners have not yet taken over; three cells U, C
    and X hold what is uncertain, what must be corrected and what must be
    explained; and a worker recovers the store through a barrier.

    [mother] runs missions. A mission moves by one transition table
    ([state.rs]); each step is a record of a hash-chained journal
    ([journal.rs]) made of closed codes ([evidence.rs]); at a start the
    coordinator rebuilds every mission by replaying the journal
    ([coordinator.rs]), and refuses one that its own rules could not have
    written. [kernel/src/inert_page] checks the page a mission builds: bytes,
    characters and tags of the whole input, a strict parse into a typed tree,
    the canonical serialization, the facts the Owner approved, and a verdict
    that binds them.

    [crates/nexus-governed-control/src/authority] is what every governed
    effect passes through: runs and the doors agents work behind ([run.rs]),
    grants ([policy.rs]), the halt cell and the session word
    ([file_session.rs], [host_session.rs]), halt records ([halt.rs]) and the
    action commitment, prepared, approved, authorized, started and ended under
    one lock, with its binding and its publication class ([commitment.rs]).

    [kernel/src] keeps a hash-chained audit trail with Merkle-rooted archives
    ([audit]), evaluates policies ([policy_engine]) and autonomy levels
    ([autonomy.rs]), asks for approvals ([consent.rs]), counts fuel
    ([fuel_hardening.rs]) and closes subsystems ([kill_gates.rs]); each of
    these writes to the audit trail.

    ** The library

    Enums and structs keep the source's constructors and fields; an enum
    whose constructors clash with another's is a Module with its type [t].

    - [Prelude]: [Result] with its [let?] notation, record update, strings as
      lists of Unicode scalars and their UTF-8 bytes, machine-width arithmetic
      with its wrap-around or checks written out, big-endian bytes, the shared
      list lemmas and tactics.
    - Typed decision: [Registry] ([ident.rs], [registry.rs]), [Render], [Read]
      (the answer data of [decode.rs], and [read.rs]), [Reader] (the parser of
      [decode.rs]), [Numbers] ([fixed_point], [normalize]), [Decode] (the rest
      of [decode.rs]), [Projection], [Budget], [Lane], [Hash], [RecordView]
      ([record.rs]), [Slot].
    - Ledger: [LedgerWord] (the word, the compare-and-exchange loop, the
      view, the tickets), [LedgerCore] (state, guard and operations; a body
      returns or unwinds; the storage verbs are the classes [Txn], [Reads],
      [AckTxn], [CellTxn] and [BarrierRun], one per trait, over any storage
      state, and any call of a verb may unwind), [LedgerProps] (a program
      logic for bodies and the store's invariant), [LedgerStore] (core, word
      and tickets under any interleaving), [LedgerTruth] (outcomes against a
      log of the verbs issued), [LedgerRecovery].
    - Missions: [Evidence] (the closed codes; the class [Closed] is what a
      registry of codes promises the journal), [MissionState] ([state.rs]),
      [Journal], [Contract] (contract data and Mother's own refusals),
      [Mission] (the record of a mission and its steps), [Replay] ([replay]
      and [inspect_history_lines]), [ReplaySample] (a whole journal to
      evaluate), [ReplayInv], [ReplayProps] and [ReplaySafety] (what an
      accepted journal says).
    - Inert page: [Utf8], [PagePolicy] (the declared rules and their hash),
      [PageTree] (the tree and its writer, with a recursive reference),
      [PageScan] (S1, S2), [PageParse] (S3), [PageRules] (the rules as
      predicates), [PageLex], [PageSound], [PageComplete], [PageCheck] (the
      whole check), [PageFacts], [PageVerdict].
    - Authority: [AuthBase] (ids, effects, errors, evidence records and the
      class [EvidenceSink]), [AuthText] (what the Owner is shown), [HaltCell]
      (the halt word, the session word, file sessions), [AuthGrants],
      [AuthHalt], [AuthRuns] with [AuthRunsInv] and [AuthRunsProps],
      [AuthCommit] with [AuthCommitInv] (what each hold of the lock does),
      [AuthCommitProps] (holds as steps of a system with a history),
      [AuthCommitSafety], [AuthCommitBinding] and [AuthCommitCalls]. A call
      that holds its lock several times is a definition per hold, composed
      over whatever other threads do in between; [AuthCommitCalls] shows that
      each such call is a run of those steps.
    - Kernel: [KernelMerkle], [KernelAudit] with [KernelAuditProps],
      [KernelPolicy], [KernelConsent] with [KernelConsentProps], [KernelFuel],
      [KernelGates]. The last four write through the class [AuditWriter],
      which the audit trail implements; the trail's archive, its batch sink
      and the queue's file are the classes [ArchiveFiles], [BlockBatchSink]
      and [QueueFiles].

    ** What the theorems show

    - The decoder accepts exactly the replies of a grammar given on its own
      ([document]), with exactly the set's keys and answers; every well-formed
      answer printed in any order decodes to itself; a decision always carries
      one well-formed answer per question, read by its policy. The parser
      always ends and its language is unambiguous. Probabilities are exact,
      only approved outcomes are eligible, and nothing sent is forged or too
      large. The slot's every history is a prefix of a fixed scenario.
    - The ledger word's counts are exact for any interleaving; the published
      view shows the core's phase, session, latch and cells; the store's
      invariant holds in every reachable state; results never claim more than
      the storage's answers support; uncertain attempts are never forgotten;
      on a storage that answers, the worker's own operations recover the store
      in at most four.
    - A journal verifies exactly when it is a chain the coordinator writes.
      Every accepted journal describes well-formed missions: work is consented
      to, the phases are one fixed line, effects start and settle once and in
      order, model calls stay within their budgets, a done page was received
      and verified, and after an unclean start a mission starts no work until
      it is resumed, but that one already explaining may end as done.
    - The page check accepts exactly the canonical bytes of the trees that
      meet the rules, always ends, and a refusal names the first code noted at
      its least offset, the parse's failure or the first byte that is not
      canonical; the facts check is its reference; a verdict passes exactly for an accepted
      page on which the facts hold.
    - Whatever the interleaving, a commitment's effect starts at most once
      and covered, a commitment only moves forward, every end is owed one
      record and its leases, and the publication class is what the guard
      reported. The registry's calls make only those steps, and what they
      answer is so. A stop holds until it is lifted by its number; an ended
      run never acts again.
    - Whatever is appended and archived, the audit chain verifies and nothing
      is lost, except by a failed archival, whose loss is stated. Merkle
      proofs verify exactly for a segment's events. Policies evaluate to a
      reference that does not depend on the order of loading. An operation is
      let through only with the approvals of its tier, spent once; a denial is
      final; an acknowledged decision is read back from the file. Fuel is
      conserved, a spend is accepted exactly within the budget and the trail is
      given exactly its record, its new alerts and its refusal. A closed
      gate opens only by an operator at tier 3.
    - Hashes bind what they cover: where two records have one hash they are
      equal, or inputs named by the statement are distinct with one digest.

    ** Bounds and fuel

    [Reader.parse] starts with fuel [2 * length text + 1], proved to suffice
    for every text. The loops of [PageParse] start with one more than the
    length of the text left, proved to suffice ([PageSound]).
    [LedgerWord.exchange] has fuel for the number of attempts, since the loop
    of the source ends only when the word is stable across two attempts; what
    it publishes is proved whenever it ends, and that it ends under that
    condition. [KernelMerkle.climb_levels] has as many levels as leaves and
    the escalation of [KernelGates] five steps, both proved enough. Every
    other function is total by structural recursion. Integers are [Z] with
    the source's width checks, wrap-around and saturation written out; a
    panic of the source (overflow in a checked build, a slice off a character
    boundary, a poisoned lock) is [None].

    ** What is not modelled

    SHA-256, hexadecimal and JSON crates, grapheme clusters, clocks, random
    ids, files and their compression, and the dialogs' answers are parameters.
    Atomic operations are sequentially consistent in the source, and steps of
    a shared word are atomic here. Within one hold of the commitments lock the
    other registries are read in one state; a panic of the lease table or of
    the evidence sink is not modelled. [Debug] implementations, test hooks and
    accessors that only return a field are left out.

    Of [nexus-governed-control]: the facade that composes the registries, the
    native dialogs, credential leases, the rest of the host session, the
    broker and the file, browser, egress and connector modules, which are
    I/O, the evidence store and the ledger's shell. Of [mother]: the live
    coordinator around the mission steps, its ports and lanes, and the
    contract's validation. Of [kernel]: loading policy files, and the
    supervisor, the cognitive loop, coding runs and actuators, which compose
    the modelled guards with model providers, processes and sockets.
    [persistence] (SQLite), [crypto] (wrappers of cryptographic crates), the
    verifier sandbox (seccomp and namespaces) and the tools are left out
    whole. *)

From stdpp Require Export prelude strings gmap sorting list.

(** ** Notation scope and the error monad *)

(** Rust's [Result<T, E>]. *)
Inductive result (T E : Type) : Type :=
| Ok (t : T)
| Err (e : E).
Arguments Ok {_ _} _.
Arguments Err {_ _} _.

#[export] Instance result_eq_dec `{EqDecision T, EqDecision E} :
  EqDecision (result T E).
Proof. solve_decision. Defined.

#[global] Arguments Nat.leb : simpl never.
#[global] Arguments Nat.ltb : simpl never.

Declare Scope nexus_scope.
Delimit Scope nexus_scope with nx.

(** The [?] operator: continue on [Ok], return the error on [Err]. *)
Definition and_then {T U E} (r : result T E) (k : T → result U E) : result U E :=
  match r with Ok t => k t | Err e => Err e end.

Notation "'let?' x ':=' r 'in' k" := (and_then r (λ x, k))
  (at level 10, x pattern, r at level 100, k at level 200)
  : nexus_scope.

(** [Option::ok_or]. *)
Definition ok_or {T E} (o : option T) (e : E) : result T E :=
  match o with Some t => Ok t | None => Err e end.

(** [Result::map_err] and [Result::map]. *)
Definition map_err {T E F} (f : E → F) (r : result T E) : result T F :=
  match r with Ok t => Ok t | Err e => Err (f e) end.
Definition map_ok {T U E} (f : T → U) (r : result T E) : result U E :=
  match r with Ok t => Ok (f t) | Err e => Err e end.

Lemma and_then_ok {T U E} (r : result T E) (k : T → result U E) u :
  and_then r k = Ok u ↔ ∃ t, r = Ok t ∧ k t = Ok u.
Proof. destruct r; simpl; naive_solver. Qed.

Lemma map_err_ok {T E F} (f : E → F) (r : result T E) t :
  map_err f r = Ok t ↔ r = Ok t.
Proof. destruct r; simpl; naive_solver. Qed.

Lemma map_ok_ok {T U E} (f : T → U) (r : result T E) u :
  map_ok f r = Ok u ↔ ∃ t, r = Ok t ∧ u = f t.
Proof. destruct r; simpl; naive_solver. Qed.

Lemma ok_or_ok {T E} (o : option T) (e : E) t : ok_or o e = Ok t ↔ o = Some t.
Proof. destruct o; naive_solver. Qed.

(** ** Record update: [r <| field := v |>] *)

Class Update {R T : Type} (proj : R → T) := update : T → R → R.

(** The update of a field, read off the record rebuilt from its projections. *)
Ltac replace_field t field v :=
  lazymatch eval pattern field in t with
  | ?g _ => let b := eval cbv beta in (g v) in exact b
  end.

(** The updates of a record from [eta], which rebuilds it from its projections. *)
Ltac update_with eta :=
  lazymatch goal with
  | |- @Update ?R ?T ?proj =>
      exact (λ (v : T) (r : R),
        ltac:(let t := eval red in (eta r) in replace_field t (proj r) v))
  end.

Notation "r <| proj := v |>" := (update (proj := proj) v r)
  (at level 12, left associativity, format "r  <| proj  :=  v |>") : nexus_scope.

(** A constant expression with a compile-time [assert!]: the constant exists
    only if the assertion evaluates to true. *)
Definition const_eval {A} (o : option A) : bool_decide (is_Some o) = true → A :=
  match o return bool_decide (is_Some o) = true → A with
  | Some a => λ _, a
  | None => λ H, False_rect A (Bool.diff_false_true H)
  end.

(** ** Strings, characters and bytes

    A Rust [str] is a sequence of Unicode scalar values; [as_bytes] is its
    UTF-8 encoding. Characters and bytes are kept as [Z]. *)
Abbreviation str := (list Z).
Abbreviation bytes := (list Z).

(** An ASCII literal. *)
Fixpoint lit (s : String.string) : str :=
  match s with
  | EmptyString => []
  | String c s => Z.of_N (Ascii.N_of_ascii c) :: lit s
  end.

(** An ASCII literal in which a backtick (character 96) stands for a double
    quote (character 34): no text of the program holds a backtick. *)
Definition js (s : String.string) : str :=
  (λ c, if bool_decide (c = 96%Z) then 34%Z else c) <$> lit s.

Local Open Scope Z_scope.

(** UTF-8. *)
Definition utf8_char (c : Z) : bytes :=
  if c <? 128 then [c]
  else if c <? 2048 then [192 + c / 64; 128 + c mod 64]
  else if c <? 65536 then [224 + c / 4096; 128 + (c / 64) mod 64; 128 + c mod 64]
  else [240 + c / 262144; 128 + (c / 4096) mod 64; 128 + (c / 64) mod 64; 128 + c mod 64].
Definition as_bytes (s : str) : bytes := s ≫= utf8_char.

(** [str::len]: the number of UTF-8 bytes. *)
Definition str_len (s : str) : Z := Z.of_nat (length (as_bytes s)).

Definition is_ascii (s : str) : Prop := Forall (λ c, 0 ≤ c < 128) s.

Lemma as_bytes_app s1 s2 : as_bytes (s1 ++ s2) = as_bytes s1 ++ as_bytes s2.
Proof. apply bind_app. Qed.

Lemma as_bytes_ascii s : is_ascii s → as_bytes s = s.
Proof.
  induction 1 as [|c s Hc _ IH]; [done|].
  change (utf8_char c ++ as_bytes s = c :: s). rewrite IH. unfold utf8_char.
  destruct (Z.ltb_spec c 128); [done | lia].
Qed.

Lemma str_len_app s1 s2 : str_len (s1 ++ s2) = str_len s1 + str_len s2.
Proof. unfold str_len. rewrite as_bytes_app, length_app. lia. Qed.

Lemma str_len_nonneg s : 0 ≤ str_len s.
Proof. unfold str_len. lia. Qed.

(** A Unicode scalar value, and a string of them. *)
Definition is_scalar (c : Z) : Prop := 0 ≤ c < 1114112.
Definition is_text_str (s : str) : Prop := Forall is_scalar s.

(** UTF-8 is self-delimiting, so a string is determined by its bytes. *)
Lemma utf8_char_inj c1 c2 r1 r2 :
  is_scalar c1 → is_scalar c2 → utf8_char c1 ++ r1 = utf8_char c2 ++ r2 → c1 = c2 ∧ r1 = r2.
Proof.
  unfold is_scalar, utf8_char. intros H1 H2.
  destruct (Z.ltb_spec c1 128), (Z.ltb_spec c2 128), (Z.ltb_spec c1 2048), (Z.ltb_spec c2 2048),
    (Z.ltb_spec c1 65536), (Z.ltb_spec c2 65536); try lia; cbn [app]; intros E;
    injection E; intros; split; try done; Z.to_euclidean_division_equations; lia.
Qed.

Lemma as_bytes_inj s1 s2 : is_text_str s1 → is_text_str s2 → as_bytes s1 = as_bytes s2 → s1 = s2.
Proof.
  assert (Hcons : ∀ c s, as_bytes (c :: s) = utf8_char c ++ as_bytes s) by done.
  assert (Hne : ∀ c r, utf8_char c ++ r ≠ [])
    by (intros c r; unfold utf8_char; repeat case_match; done).
  intros H1. revert s2. induction H1 as [|c1 s1 Hc1 _ IH]; intros s2 H2 E.
  - destruct H2 as [|c2 s2]; [done|]. rewrite Hcons in E. by apply symmetry, Hne in E.
  - destruct H2 as [|c2 s2 Hc2 H2]; rewrite !Hcons in E; [by apply Hne in E|].
    apply utf8_char_inj in E as [-> E]; [|done..]. by rewrite (IH s2).
Qed.

(** Character classes used by several components. *)
Definition is_ascii_lowercase (b : Z) : bool := (97 <=? b) && (b <=? 122).
Definition is_ascii_uppercase (b : Z) : bool := (65 <=? b) && (b <=? 90).
Definition is_ascii_digit (b : Z) : bool := (48 <=? b) && (b <=? 57).
Definition is_ascii_alphanumeric (b : Z) : bool :=
  is_ascii_lowercase b || is_ascii_uppercase b || is_ascii_digit b.
Definition is_ascii_hexdigit (b : Z) : bool :=
  is_ascii_digit b || ((97 <=? b) && (b <=? 102)) || ((65 <=? b) && (b <=? 70)).

(** ** Machine integers *)
Definition u16_max : Z := 65535.
Definition u32_max : Z := 4294967295.
Definition u64_max : Z := 18446744073709551615.

Definition saturating_add (max a b : Z) : Z := Z.min max (a + b).
Definition checked_add (max a b : Z) : option Z :=
  if a + b <=? max then Some (a + b) else None.
Definition checked_sub (a b : Z) : option Z :=
  if b <=? a then Some (a - b) else None.

Lemma high_bits w n i : 0 ≤ w < 2 ^ n → n ≤ i → Z.testbit w i = false.
Proof.
  intros Hw Hi. destruct (Z.lt_ge_cases n 0); [rewrite Z.pow_neg_r in Hw by lia; lia|].
  rewrite <- (Z.mod_small w (2 ^ n)) by done. by apply Z.mod_pow2_bits_high; lia.
Qed.

Lemma bits_bound n w :
  0 ≤ n → 0 ≤ w → (∀ i, n ≤ i → Z.testbit w i = false) → 0 ≤ w < 2 ^ n.
Proof.
  intros Hn Hw Hb. split; [done|].
  assert (E : w mod 2 ^ n = w).
  { apply Z.bits_inj'. intros i Hi. destruct (Z.lt_ge_cases i n).
    - by rewrite Z.mod_pow2_bits_low by lia.
    - rewrite Z.mod_pow2_bits_high by lia. by rewrite Hb. }
  rewrite <- E. apply Z.mod_pos_bound, Z.pow_pos_nonneg; lia.
Qed.

(** Bit operations on numbers split at bit [n]. *)
Lemma split_testbit n a x i :
  0 ≤ n → 0 ≤ x < 2 ^ n → 0 ≤ i →
  Z.testbit (a * 2 ^ n + x) i = if i <? n then Z.testbit x i else Z.testbit a (i - n).
Proof.
  intros Hn Hx Hi.
  assert (E : a * 2 ^ n + x = Z.lor (Z.shiftl a n) x).
  { rewrite <- (Z.shiftl_mul_pow2 a n) by lia. apply Z.add_nocarry_lor.
    apply Z.bits_inj'. intros j Hj. rewrite Z.land_spec, Z.bits_0, Z.shiftl_spec by lia.
    destruct (Z.lt_ge_cases j n); [by rewrite Z.testbit_neg_r by lia|].
    by rewrite (high_bits x n) by lia; rewrite andb_false_r. }
  rewrite E, Z.lor_spec, Z.shiftl_spec by lia. destruct (Z.ltb_spec i n).
  - by rewrite (Z.testbit_neg_r a) by lia.
  - by rewrite (high_bits x n) by lia; rewrite orb_false_r.
Qed.

Lemma lor_bound n x y : 0 ≤ n → 0 ≤ x < 2 ^ n → 0 ≤ y < 2 ^ n → 0 ≤ Z.lor x y < 2 ^ n.
Proof.
  intros Hn Hx Hy. apply bits_bound; [lia|apply Z.lor_nonneg; lia|].
  intros i Hi. by rewrite Z.lor_spec, (high_bits x n), (high_bits y n) by lia.
Qed.
Lemma land_bound n x y : 0 ≤ n → 0 ≤ x < 2 ^ n → 0 ≤ Z.land x y < 2 ^ n.
Proof.
  intros Hn Hx. apply bits_bound; [lia|apply Z.land_nonneg; lia|].
  intros i Hi. by rewrite Z.land_spec, (high_bits x n) by lia.
Qed.

Lemma split_lor n a x b y :
  0 ≤ n → 0 ≤ x < 2 ^ n → 0 ≤ y < 2 ^ n →
  Z.lor (a * 2 ^ n + x) (b * 2 ^ n + y) = Z.lor a b * 2 ^ n + Z.lor x y.
Proof.
  intros Hn Hx Hy. apply Z.bits_inj'. intros i Hi. pose proof (lor_bound n x y Hn Hx Hy).
  rewrite Z.lor_spec, !split_testbit by (done || lia). by destruct (i <? n); rewrite Z.lor_spec.
Qed.
Lemma split_land n a x b y :
  0 ≤ n → 0 ≤ x < 2 ^ n → 0 ≤ y < 2 ^ n →
  Z.land (a * 2 ^ n + x) (b * 2 ^ n + y) = Z.land a b * 2 ^ n + Z.land x y.
Proof.
  intros Hn Hx Hy. apply Z.bits_inj'. intros i Hi. pose proof (land_bound n x y Hn Hx).
  rewrite Z.land_spec, !split_testbit by (done || lia). by destruct (i <? n); rewrite Z.land_spec.
Qed.

(** The [n]-byte big-endian encoding ([to_be_bytes]). *)
Fixpoint to_be_bytes (n : nat) (v : Z) : bytes :=
  match n with
  | O => []
  | S m => (v / 256 ^ Z.of_nat m) mod 256 :: to_be_bytes m v
  end.

Lemma length_to_be_bytes n v : length (to_be_bytes n v) = n.
Proof. induction n; simpl; congruence. Qed.

Lemma to_be_bytes_inj n v w :
  0 ≤ v < 256 ^ Z.of_nat n → 0 ≤ w < 256 ^ Z.of_nat n →
  to_be_bytes n v = to_be_bytes n w → v = w.
Proof.
  intros Hv Hw H.
  assert (Hmod : v mod 256 ^ Z.of_nat n = w mod 256 ^ Z.of_nat n);
    [|rewrite !Z.mod_small in Hmod by lia; done].
  clear Hv Hw. revert H. induction n as [|m IH]; intros H.
  - change (256 ^ Z.of_nat 0) with 1. by rewrite !Z.mod_1_r.
  - simpl in H. injection H as H1 H2. apply IH in H2.
    assert (Hp : 0 < 256 ^ Z.of_nat m) by (apply Z.pow_pos_nonneg; lia).
    rewrite Nat2Z.inj_succ, Z.pow_succ_r by lia.
    rewrite (Z.mul_comm 256), !Z.rem_mul_r by lia. by rewrite H1, H2.
Qed.

(** ** Lists *)

(** Sum of a list of integers ([Iterator::sum]). *)
Definition sum_Z (l : list Z) : Z := foldr Z.add 0 l.

(** [Iterator::max] with a default for the empty iterator. *)
Definition max_or (d : Z) (l : list Z) : Z :=
  match l with [] => d | x :: l => foldl Z.max x l end.

(** [Iterator::position]. *)
Fixpoint position {A} (p : A → bool) (l : list A) : option nat :=
  match l with
  | [] => None
  | x :: l => if p x then Some 0%nat else S <$> position p l
  end.

(** [slice::join] on strings. *)
Fixpoint join (sep : str) (items : list str) : str :=
  match items with
  | [] => []
  | [x] => x
  | x :: rest => x ++ sep ++ join sep rest
  end.

(** [str::contains] and [slice::windows]: [pat] occurs in [s]. *)
Fixpoint contains (s pat : str) : bool :=
  bool_decide (pat `prefix_of` s) ||
  match s with [] => false | _ :: s' => contains s' pat end.

Lemma sum_Z_app l1 l2 : sum_Z (l1 ++ l2) = sum_Z l1 + sum_Z l2.
Proof. unfold sum_Z. induction l1; simpl; lia. Qed.

Lemma sum_Z_cons x l : sum_Z (x :: l) = x + sum_Z l.
Proof. done. Qed.

Lemma sum_Z_nonneg l : Forall (λ x, 0 ≤ x) l → 0 ≤ sum_Z l.
Proof. unfold sum_Z. induction 1; simpl; lia. Qed.

Lemma sum_Z_elem l x : Forall (λ x, 0 ≤ x) l → x ∈ l → x ≤ sum_Z l.
Proof.
  intros Hl Hx. apply list_elem_of_split in Hx as (l1 & l2 & ->).
  apply Forall_app in Hl as [H1 H2]. apply Forall_cons in H2 as [_ H2].
  rewrite sum_Z_app, sum_Z_cons.
  pose proof (sum_Z_nonneg _ H1). pose proof (sum_Z_nonneg _ H2). lia.
Qed.

Lemma sum_Z_perm l1 l2 : l1 ≡ₚ l2 → sum_Z l1 = sum_Z l2.
Proof. unfold sum_Z. induction 1; simpl; lia. Qed.

Lemma sum_Z_nth l : sum_Z ((λ j, nth j l 0) <$> seq 0 (length l)) = sum_Z l.
Proof.
  f_equal. apply list_eq. intros i. rewrite list_lookup_fmap.
  destruct (decide (i < length l)%nat) as [Hi|Hi].
  - rewrite lookup_seq_lt by done. simpl. symmetry.
    destruct (lookup_lt_is_Some_2 l i Hi) as [x Hx]. rewrite Hx.
    by rewrite (nth_lookup_Some _ _ _ _ Hx).
  - rewrite lookup_seq_ge by lia. simpl. symmetry. apply lookup_ge_None. lia.
Qed.

Lemma foldl_max_spec x l :
  x ≤ foldl Z.max x l ∧ (∀ y, y ∈ l → y ≤ foldl Z.max x l) ∧
  (foldl Z.max x l = x ∨ foldl Z.max x l ∈ l).
Proof.
  revert x; induction l as [|y l IH]; intros x; simpl; [set_solver by lia|].
  destruct (IH (Z.max x y)) as (H1 & H2 & H3).
  split; [lia|]. split.
  - intros z [->|Hz]%elem_of_cons; [lia | auto].
  - destruct H3 as [H3|H3]; [|set_solver].
    destruct (Z.max_spec x y) as [[_ Hm]|[_ Hm]]; rewrite Hm in H3 |- *; set_solver.
Qed.

Lemma max_or_ge d l x : x ∈ l → x ≤ max_or d l.
Proof.
  destruct l as [|y l]; [set_solver|]. simpl.
  destruct (foldl_max_spec y l) as (H1 & H2 & _).
  intros [->|Hx]%elem_of_cons; auto.
Qed.

Lemma max_or_in d l : l ≠ [] → max_or d l ∈ l.
Proof.
  destruct l as [|y l]; [done|]. intros _. simpl.
  destruct (foldl_max_spec y l) as (_ & _ & [H|H]); set_solver.
Qed.

(** A key of an association list without repeated keys has one value. *)
Lemma NoDup_fmap_fst_inj {A B} (l : list (A * B)) k x y :
  NoDup l.*1 → (k, x) ∈ l → (k, y) ∈ l → x = y.
Proof.
  intros Hn [i Hi]%list_elem_of_lookup [j Hj]%list_elem_of_lookup.
  assert (i = j) as ->; [|by simplify_eq].
  eapply (NoDup_lookup l.*1); [done|by rewrite list_lookup_fmap, Hi|by rewrite list_lookup_fmap, Hj].
Qed.

Section Position.
Context {A : Type} (p : A → bool).
Implicit Types (l : list A) (i j : nat).

Lemma position_Some l i :
  position p l = Some i ↔
  (∃ x, l !! i = Some x ∧ p x = true) ∧
  (∀ j x, (j < i)%nat → l !! j = Some x → p x = false).
Proof.
  revert i. induction l as [|y l IH]; intros i; simpl.
  { split; [done|]. intros [(x & Hx & _) _]. done. }
  destruct (p y) eqn:Hy.
  - split.
    + intros [= <-]. split; [by exists y|]. intros j x Hj. lia.
    + intros [(x & Hx & Hpx) Hmin]. destruct i as [|i]; [done|].
      specialize (Hmin 0%nat y ltac:(lia) eq_refl). congruence.
  - rewrite fmap_Some. split.
    + intros (k & Hk & ->). apply IH in Hk as [(x & Hx & Hpx) Hmin].
      split; [by exists x|]. intros [|j] z Hj Hz; simplify_eq/=; [done|].
      eapply (Hmin j); [lia|done].
    + intros [(x & Hx & Hpx) Hmin]. destruct i as [|k]; [simplify_eq/=; congruence|].
      exists k. split; [|done]. apply IH. split; [by exists x|].
      intros j z Hj Hz. apply (Hmin (S j) z); [lia|done].
Qed.

Lemma position_None l : position p l = None ↔ ∀ x, x ∈ l → p x = false.
Proof.
  induction l as [|y l IH]; simpl; [set_solver|].
  destruct (p y) eqn:Hy; [|rewrite fmap_None, IH; set_solver].
  split; [done|]. intros H. specialize (H y ltac:(set_solver)). congruence.
Qed.
End Position.

Lemma contains_spec s pat :
  contains s pat = true ↔ ∃ a b, s = a ++ pat ++ b.
Proof.
  induction s as [|c s IH]; simpl.
  - rewrite orb_false_r, bool_decide_eq_true. split.
    + intros [k Hk]. exists [], k. done.
    + intros (a & b & H). destruct a; simplify_eq/=. by exists b.
  - rewrite orb_true_iff, bool_decide_eq_true, IH. split.
    + intros [[k Hk]|(a & b & ->)]; [by exists [], k|by exists (c :: a), b].
    + intros ([|d a] & b & H); simplify_eq/=; [left; by exists b|].
      right. by exists a, b.
Qed.

(** ** Self-delimiting encodings *)

(** An encoder whose output determines the value and where it ends. *)
Definition delimited {A} (ok : A → Prop) (f : A → list Z) : Prop :=
  ∀ x y r1 r2, ok x → ok y → f x ++ r1 = f y ++ r2 → x = y ∧ r1 = r2.

Lemma delimited_list {A} (ok : A → Prop) (f : A → list Z) l1 l2 r1 r2 :
  delimited ok f → length l1 = length l2 → Forall ok l1 → Forall ok l2 →
  (l1 ≫= f) ++ r1 = (l2 ≫= f) ++ r2 → l1 = l2 ∧ r1 = r2.
Proof.
  intros Hf Hl H1. revert l2 Hl. induction H1 as [|x l1 Hx H1 IH]; intros l2 Hl H2 E.
  - by destruct l2.
  - destruct H2 as [|y l2 Hy H2]; [done|]. rewrite !bind_cons, <- !app_assoc in E.
    apply Hf in E as [-> E]; [|done..]. apply IH in E as [-> ->]; [done| |done].
    simpl in Hl. lia.
Qed.

(** ** Automation *)

Create HintDb nexus.
#[export] Hint Resolve str_len_nonneg : nexus.
Create Rewrite HintDb nexus_rw.
#[export] Hint Rewrite @length_app @length_map @length_fmap : nexus_rw.


(** Case analysis on the conditions of an executable definition: every
    [match] or [if] in the goal or a hypothesis, with its equation. *)
Ltac case_all :=
  repeat (case_match; simplify_eq/=).

(** Turns the boolean tests of the code into propositions. *)
Ltac breflect :=
  repeat match goal with
  | H : _ && _ = true |- _ => apply andb_true_iff in H as [? ?]
  | H : _ || _ = false |- _ => apply orb_false_iff in H as [? ?]
  | H : negb _ = true |- _ => apply negb_true_iff in H
  | H : negb _ = false |- _ => apply negb_false_iff in H
  | H : bool_decide _ = true |- _ => apply bool_decide_eq_true_1 in H
  | H : bool_decide _ = false |- _ => apply bool_decide_eq_false_1 in H
  | H : (_ <? _) = true |- _ => apply Z.ltb_lt in H
  | H : (_ <? _) = false |- _ => apply Z.ltb_ge in H
  | H : (_ <=? _) = true |- _ => apply Z.leb_le in H
  | H : (_ <=? _) = false |- _ => apply Z.leb_gt in H
  | H : (_ =? _) = true |- _ => apply Z.eqb_eq in H
  | H : (_ =? _) = false |- _ => apply Z.eqb_neq in H
  | H : (_ <? _)%nat = true |- _ => apply Nat.ltb_lt in H
  | H : (_ <? _)%nat = false |- _ => apply Nat.ltb_ge in H
  | H : (_ <=? _)%nat = true |- _ => apply Nat.leb_le in H
  | H : (_ <=? _)%nat = false |- _ => apply Nat.leb_gt in H
  end.

(** Inverts a chain of [let?] that ended in [Ok]. *)
Ltac invert_ok :=
  repeat match goal with
  | H : and_then _ _ = Ok _ |- _ =>
      let t := fresh "t" in let H1 := fresh H in
      apply and_then_ok in H as (t & H1 & H)
  | H : map_err _ _ = Ok _ |- _ => apply map_err_ok in H
  | H : map_ok _ _ = Ok _ |- _ =>
      let t := fresh "t" in let H1 := fresh H in
      apply map_ok_ok in H as (t & H1 & H)
  | H : ok_or _ _ = Ok _ |- _ => apply ok_or_ok in H
  | H : Ok _ = Ok _ |- _ => injection H as H
  | H : Err _ = Ok _ |- _ => discriminate H
  | H : Ok _ = Err _ |- _ => discriminate H
  end.

(** Associates concatenations to the right. *)
Ltac norm_app := repeat (progress (rewrite <- ?app_assoc; cbn [app])).

(** Arithmetic on the lengths of concatenations. *)
Ltac len_lia :=
  repeat (progress (autorewrite with nexus_rw in *; simpl in *)); lia.

Ltac destruct_ex :=
  match goal with H : ∃ _, _ |- _ => destruct H as [? H] end.
Tactic Notation "destruct_ex?" := repeat destruct_ex.

(** Closes conjunctions of equivalences between closed equations. *)
Ltac crush_iff :=
  split_and?; split; intros; destruct_and?; destruct_ex?; destruct_and?; simplify_eq;
  by split_and?.
