(* ===== verification/Read.v ===== *)
(** * Decoded answers, readings and verdicts

    The answer data of [decode.rs] ([Attempt], [Top], [Distribution],
    [Answer]) and [read.rs]: what one decoded answer reads as under its
    question's policy, and the verdict of a reading under the polarity. *)

From S2P Require Import Prelude Registry.

Local Open Scope Z_scope.

(** ** Answers ([decode.rs]) *)

Inductive Attempt := First | Second.
#[export] Instance Attempt_eq_dec : EqDecision Attempt.
Proof. solve_decision. Defined.
Definition Attempt_count (a : Attempt) : Z :=
  match a with First => 1 | Second => 2 end.

Inductive Top := TopLabel (l : Label) | Tie.
#[export] Instance Top_eq_dec : EqDecision Top.
Proof. solve_decision. Defined.
Definition Top_code (t : Top) : str :=
  match t with TopLabel l => Label_as_str l | Tie => lit "tie" end.

Record Distribution := MkDistribution {
  entries : list (Label * Ppm);
  d_renormalized : bool;
}.
#[export] Instance Distribution_eq_dec : EqDecision Distribution.
Proof. solve_decision. Defined.

Definition entry_ppm (e : Label * Ppm) : Z := Ppm_get e.2.

(** [Distribution::max_ppm], with [unwrap_or(0)]. *)
Definition max_ppm (d : Distribution) : Z := max_or 0 (entry_ppm <$> entries d).

(** [Distribution::top]: the first two entries at the maximum. *)
Definition top (d : Distribution) : Top :=
  match filter (λ e, entry_ppm e = max_ppm d) (entries d) with
  | [(label, _)] => TopLabel label
  | _ => Tie
  end.

(** [Distribution::sum_from]. The [u32] sum cannot overflow: see
    [sum_from_bounds]. *)
Definition sum_from (d : Distribution) (from : nat) : Z :=
  sum_Z (entry_ppm <$> drop from (entries d)).

Inductive Answer :=
| ANoul (p : Ppm)
| AChoice (d : Distribution)
| AScore (d : Distribution).
#[export] Instance Answer_eq_dec : EqDecision Answer.
Proof. solve_decision. Defined.

(** [Answer::expected]. *)
Definition expected (a : Answer) : option Z :=
  match a with
  | AScore d => Some (sum_Z (imap (λ i e, Z.of_nat i * entry_ppm e) (entries d)))
  | ANoul _ | AChoice _ => None
  end.

(** ** Readings ([read.rs]) *)

Abbreviation Verdict := OptionDisposition.

Definition Reading_code (r : Reading) : str :=
  match r with
  | Yes => lit "yes"
  | No => lit "no"
  | Unsettled => lit "unsettled"
  | Selected _ => lit "selected"
  end.

(** The closure [noul] of [read]. *)
Definition read_noul (policy : ReadPolicy) (p : Z) : Reading :=
  if Ppm_get (yes_above policy) <? p then Yes
  else if p <? Ppm_get (no_below policy) then No
  else Unsettled.

Definition read (q : Question) (a : Answer) : Reading :=
  let policy := q_read q in
  match q_kind q, a with
  | Noul _, ANoul p => read_noul policy (Ppm_get p)
  | Score _ at_least _, AScore d => read_noul policy (sum_from d (Z.to_nat at_least))
  | Choice _, AChoice d =>
      match top d with
      | TopLabel label =>
          if Ppm_get (yes_above policy) <? max_ppm d then Selected label else Unsettled
      | Tie => Unsettled
      end
  | _, _ => Unsettled
  end.

Definition verdict (q : Question) (r : Reading) : Verdict :=
  match q_kind q with
  | Noul polarity | Score _ _ polarity =>
      match polarity, r with
      | Risk, No | Positive, Yes => ODClear
      | _, _ => ODRestrict
      end
  | Choice options =>
      match r with
      | Selected label =>
          match List.find (λ o, bool_decide (o.1 = label)) options with
          | Some (_, disposition) => disposition
          | None => ODRestrict
          end
      | _ => ODRestrict
      end
  end.

(** ** Distributions *)

(** A vector over exactly [labels], of values in range, that sums to one
    million: what [Distribution] promises. *)
Record dist_ok (labels : list Label) (d : Distribution) : Prop := {
  dist_labels : (entries d).*1 = labels;
  dist_range : Forall (λ e, 0 ≤ entry_ppm e ≤ Ppm_MAX) (entries d);
  dist_sum : sum_Z (entry_ppm <$> entries d) = Ppm_MAX;
}.

Section Distributions.
Context (labels : list Label) (d : Distribution) (Hd : dist_ok labels d).

Lemma entries_nonneg : Forall (λ x, 0 ≤ x) (entry_ppm <$> entries d).
Proof.
  apply Forall_fmap. eapply Forall_impl; [apply (dist_range _ _ Hd)|]. simpl; lia.
Qed.

Lemma sum_from_bounds k : 0 ≤ sum_from d k ≤ Ppm_MAX.
Proof.
  pose proof entries_nonneg as Hn. pose proof (dist_sum _ _ Hd) as Hs.
  rewrite <- (take_drop k (entries d)), fmap_app, sum_Z_app in Hs.
  rewrite <- (take_drop k (entries d)), fmap_app in Hn.
  apply Forall_app in Hn as [H1 H2]. unfold sum_from.
  pose proof (sum_Z_nonneg _ H1). pose proof (sum_Z_nonneg _ H2). lia.
Qed.

Lemma max_ppm_bounds : 0 ≤ max_ppm d ≤ Ppm_MAX.
Proof.
  unfold max_ppm. destruct (decide ((entry_ppm <$> entries d) = [])) as [->|Hne];
    [unfold Ppm_MAX; simpl; lia|].
  apply max_or_in with (d := 0) in Hne. apply list_elem_of_fmap in Hne as (e & -> & He).
  pose proof (dist_range _ _ Hd) as Hr. rewrite Forall_forall in Hr. auto.
Qed.

(** Two different entries together have at most the whole probability. *)
Lemma two_entries_lt i j e1 e2 :
  (i < j)%nat → entries d !! i = Some e1 → entries d !! j = Some e2 →
  entry_ppm e1 + entry_ppm e2 ≤ Ppm_MAX.
Proof.
  intros Hlt H1 H2. rewrite <- (dist_sum _ _ Hd).
  pose proof entries_nonneg as Hn.
  apply list_elem_of_split_length in H1 as (l1 & l2 & Hl & Hi). rewrite Hl in *.
  rewrite fmap_app, fmap_cons, Forall_app, Forall_cons in Hn.
  destruct Hn as (N1 & N2 & N3).
  rewrite fmap_app, fmap_cons, sum_Z_app, sum_Z_cons.
  rewrite lookup_app_r in H2 by lia.
  replace (j - length l1)%nat with (S (j - S (length l1))) in H2 by lia.
  pose proof (sum_Z_nonneg _ N1).
  assert (He2 : entry_ppm e2 ∈ entry_ppm <$> l2)
    by (apply list_elem_of_fmap_2; by eapply list_elem_of_lookup_2).
  pose proof (sum_Z_elem _ _ N3 He2). lia.
Qed.

Lemma two_entries i j e1 e2 :
  i ≠ j → entries d !! i = Some e1 → entries d !! j = Some e2 →
  entry_ppm e1 + entry_ppm e2 ≤ Ppm_MAX.
Proof.
  intros Hij H1 H2. destruct (decide (i < j)%nat); [by eapply two_entries_lt|].
  rewrite Z.add_comm. eapply (two_entries_lt j i); eauto; lia.
Qed.
End Distributions.

(** [top] names a label only if it is the strict maximum. *)
Lemma top_label_inv d l :
  top d = TopLabel l →
  ∃ p, (l, p) ∈ entries d ∧ Ppm_get p = max_ppm d ∧
       ∀ e, e ∈ entries d → e ≠ (l, p) → entry_ppm e < max_ppm d.
Proof.
  unfold top. intros H.
  destruct (filter _ (entries d)) as [|[l' p] [|]] eqn:E; simplify_eq.
  assert (Hin : (l, p) ∈ filter (λ e, entry_ppm e = max_ppm d) (entries d))
    by (rewrite E; set_solver).
  apply list_elem_of_filter in Hin as [Hm Hin].
  exists p. split_and!; [done|done|].
  intros e He Hne.
  assert (entry_ppm e ≤ max_ppm d) by (apply max_or_ge, list_elem_of_fmap_2, He).
  destruct (decide (entry_ppm e = max_ppm d)) as [Heq|]; [|lia].
  assert (e ∈ filter (λ e, entry_ppm e = max_ppm d) (entries d))
    by (by apply list_elem_of_filter).
  rewrite E in *. set_solver.
Qed.

(** ** Properties of readings *)

(** Thresholds: a Noul (or a Score's cumulative probability) reads Yes
    exactly above [yes_above], No exactly below [no_below], and a value equal to
    either threshold is Unsettled. Under a valid policy Yes and No exclude
    each other. *)
Theorem read_thresholds q p :
  is_noul (q_kind q) = true →
  (read q (ANoul p) = Yes ↔ Ppm_get (yes_above (q_read q)) < Ppm_get p) ∧
  (ReadPolicy_is_valid (Ppm_get (no_below (q_read q))) (Ppm_get (yes_above (q_read q))) = true →
   (read q (ANoul p) = No ↔ Ppm_get p < Ppm_get (no_below (q_read q))) ∧
   (read q (ANoul p) = Unsettled ↔
      Ppm_get (no_below (q_read q)) ≤ Ppm_get p ≤ Ppm_get (yes_above (q_read q)))).
Proof.
  intros Hk. unfold read. destruct (q_kind q); try done. unfold read_noul, ReadPolicy_is_valid.
  split; [|intros Hv; breflect]; repeat case_match; breflect; split_and?; split; intros;
    try done; lia.
Qed.
Lemma read_thresholds_witness :
  is_noul (q_kind instructs_ai) = true ∧
  (read instructs_ai (ANoul (MkPpm 700000)) = Yes ↔ 700000 < 700000).
Proof. split; [reflexivity|]. apply (read_thresholds instructs_ai (MkPpm 700000) eq_refl). Defined.

(** A Choice selects at most one option: under a policy [validate]
    admits, a selected label is an entry with more than half of the
    probability, and every other entry has less than half. *)
Theorem choice_selects_majority q opts d l :
  q_kind q = Choice opts → question_rules q → dist_ok (opts.*1) d →
  read q (AChoice d) = Selected l →
  l ∈ opts.*1 ∧
  ∃ p, (l, p) ∈ entries d ∧ CHOICE_MIN_YES_ABOVE < Ppm_get p ∧
    ∀ e, e ∈ entries d → e.1 ≠ l → entry_ppm e < CHOICE_MIN_YES_ABOVE.
Proof.
  intros Hk Hq Hd Hr. unfold read in Hr. rewrite Hk in Hr.
  destruct (top d) as [l'|] eqn:Et; [|done]. case_match eqn:Hy; [|done]. simplify_eq. breflect.
  apply top_label_inv in Et as (p & Hin & Hp & _).
  pose proof (qr_choice_policy _ Hq) as Hc. rewrite Hk in Hc. specialize (Hc eq_refl).
  split; [rewrite <- (dist_labels _ _ Hd); by apply (list_elem_of_fmap_2 fst) in Hin|].
  exists p. split_and!; [done|lia|]. intros e He Hne.
  apply list_elem_of_lookup_1 in He as [i Hi], Hin as [j Hj].
  assert (i ≠ j) by (intros ->; simplify_eq; done).
  pose proof (two_entries _ _ Hd i j e _ ltac:(done) Hi Hj) as Hs.
  change (entry_ppm (l, p)) with (Ppm_get p) in Hs.
  unfold CHOICE_MIN_YES_ABOVE, Ppm_MAX in *. lia.
Qed.

Definition choice_demo : Question :=
  MkQuestion (MkQuestionId (lit "tone"))
    (Choice [(MkLabel (lit "calm"), ODClear); (MkLabel (lit "angry"), ODRestrict)])
    (lit "Tone?") (lit "calm") (lit "angry") V1_READ.
Definition dist_demo : Distribution :=
  MkDistribution [(MkLabel (lit "calm"), MkPpm 800000); (MkLabel (lit "angry"), MkPpm 200000)] false.

Lemma choice_selects_majority_witness :
  read choice_demo (AChoice dist_demo) = Selected (MkLabel (lit "calm")) ∧
  MkLabel (lit "calm") ∈ [MkLabel (lit "calm"); MkLabel (lit "angry")].
Proof.
  split; [reflexivity|].
  refine (proj1 (choice_selects_majority choice_demo _ dist_demo (MkLabel (lit "calm")) eq_refl _ _ eq_refl)).
  - apply validate_question_spec. reflexivity.
  - split; [reflexivity| |reflexivity]. repeat constructor; vm_compute; congruence.
Defined.

(** Only the safe answer clears: a Risk question clears exactly on No, a
    Positive one exactly on Yes, and a Choice exactly on a selected option
    registered as Clear; so no unsettled reading ever clears. *)
Theorem verdict_clear q r :
  verdict q r = ODClear ↔
  match q_kind q with
  | Noul Risk | Score _ _ Risk => r = No
  | Noul Positive | Score _ _ Positive => r = Yes
  | Choice options =>
      ∃ l, r = Selected l ∧
        List.find (λ o, bool_decide (o.1 = l)) options = Some (l, ODClear)
  end.
Proof.
  unfold verdict.
  destruct (q_kind q) as [[]|opts|? ? []]; destruct r as [| | |l]; try crush_iff.
  destruct (List.find _ opts) as [[l' d]|] eqn:E.
  - apply find_some in E as E'. destruct E' as [_ E']. simpl in E'. breflect. subst l'.
    split; [intros ->; eauto|]. intros (l' & [= <-] & E''). rewrite E in E''. congruence.
  - split; [done|]. intros (l' & [= <-] & E''). congruence.
Qed.
