(* ===== verification/Reader.v ===== *)
(** * The strict reader's first pass

    The parser of [crates/nexus-typed-decision/src/decode.rs] ([Node],
    [parse], [Parser]). The cursor [Parser { text, at }] is kept as the text
    still to be read, [text[at..]]; [peek] is its head, [at += n] drops [n]
    bytes, and [at == text.len()] is the empty list. A raw slice
    [text[start..at]] is the list of bytes read since [start].

    The parser's three loops recurse through each other, so they take fuel;
    [None] is "out of fuel" and never happens from [parse]
    ([parse_total]). The language is also stated as a grammar, and the parser
    accepts exactly the grammar ([parse_grammar]). *)

From S2P Require Import Prelude Registry Render.

Local Open Scope Z_scope.

(** ** Data *)

Inductive Node :=
| NObject (members : list (bytes * Node))
| NStr (raw : bytes)
| NWord (raw : bytes)
| NArray.

Definition MAX_DEPTH : nat := 2.

Definition is_word (c : Z) : bool :=
  is_ascii_alphanumeric c || (c =? 43) || (c =? 45) || (c =? 46) || (c =? 95).

(** JSON whitespace: space, tab, newline, carriage return. *)
Definition is_ws (c : Z) : bool := (c =? 32) || (c =? 9) || (c =? 10) || (c =? 13).

(** The one-character escapes: quote, backslash, slash, b, f, n, r, t. *)
Definition is_simple_escape (c : Z) : bool :=
  (c =? 34) || (c =? 92) || (c =? 47) || (c =? 98) || (c =? 102) || (c =? 110)
  || (c =? 114) || (c =? 116).

(** A step of the parser: out of fuel, an error code, or a value and the
    text still to be read. *)
Definition parsed (T : Type) : Type := option (result (T * bytes) DecodeCode).
Definition pok {T} (t : T) (rest : bytes) : parsed T := Some (Ok (t, rest)).
Definition perr {T} (e : DecodeCode) : parsed T := Some (Err e).
Definition pbind {T U} (p : parsed T) (k : T → bytes → parsed U) : parsed U :=
  match p with
  | None => None
  | Some (Err e) => Some (Err e)
  | Some (Ok (t, rest)) => k t rest
  end.
Declare Scope parser_scope.
Notation "'let!' ( x , r ) ':=' p 'in' k" := (pbind p (λ x r, k))
  (at level 10, x name, r name, p at level 100, k at level 200) : parser_scope.
Local Open Scope parser_scope.

(** ** The parser *)

Definition peek (s : bytes) : option Z := head s.

Fixpoint skip_ws (s : bytes) : bytes :=
  match s with
  | c :: t => if is_ws c then skip_ws t else s
  | [] => []
  end.

(** The loop of [value] over word characters. *)
Fixpoint span_word (s : bytes) : bytes * bytes :=
  match s with
  | c :: t => if is_word c then let '(w, r) := span_word t in (c :: w, r) else ([], s)
  | [] => ([], [])
  end.

Definition cons_raw (pre : bytes) (p : parsed bytes) : parsed bytes :=
  let! (raw, rest) := p in pok (pre ++ raw) rest.

(** [string], after the opening quote. *)
Fixpoint string_body (s : bytes) : parsed bytes :=
  match s with
  | [] => perr NotOneObject
  | c :: t =>
      if c =? 34 then pok [] t
      else if c =? 92 then
        match t with
        | e :: t1 =>
            if is_simple_escape e then cons_raw [c; e] (string_body t1)
            else if e =? 117 then
              match t1 with
              | h1 :: h2 :: h3 :: h4 :: t2 =>
                  if is_ascii_hexdigit h1 && is_ascii_hexdigit h2
                     && is_ascii_hexdigit h3 && is_ascii_hexdigit h4
                  then cons_raw [c; e; h1; h2; h3; h4] (string_body t2)
                  else perr NotOneObject
              | _ => perr NotOneObject
              end
            else perr NotOneObject
        | [] => perr NotOneObject
        end
      else if c <? 32 then perr NotOneObject
      else cons_raw [c] (string_body t)
  end.

(** [string], at the opening quote. *)
Definition string (s : bytes) : parsed bytes := string_body (tail s).

(** [close]: [false] continues, [true] closes. *)
Definition close (end_ : Z) (s : bytes) : parsed bool :=
  match skip_ws s with
  | c :: t =>
      if c =? 44 then pok false t
      else if c =? end_ then pok true t
      else perr NotOneObject
  | [] => perr NotOneObject
  end.

(** [object], at the opening brace, with its loop as a parameter. *)
Definition object_with (loop : bytes → parsed (list (bytes * Node))) (s : bytes)
    : parsed (list (bytes * Node)) :=
  let s := skip_ws (tail s) in
  if bool_decide (peek s = Some 125) then pok [] (tail s) else loop s.

(** [array], at the opening bracket, with its loop as a parameter. *)
Definition array_with (loop : bytes → parsed unit) (s : bytes) : parsed unit :=
  let s := skip_ws (tail s) in
  if bool_decide (peek s = Some 93) then pok tt (tail s) else loop s.

(** [value] and the loops of [object] and [array]. *)
Fixpoint value (fuel depth : nat) (s : bytes) : parsed Node :=
  match fuel with
  | O => None
  | S f =>
      let s := skip_ws s in
      match peek s with
      | Some c =>
          if ((c =? 123) || (c =? 91)) && (MAX_DEPTH <=? depth)%nat then perr TooDeep
          else if c =? 123 then
            let! (ms, rest) := object_with (object_loop f (S depth) []) s in
            pok (NObject ms) rest
          else if c =? 91 then
            let! (u, rest) := array_with (array_loop f (S depth)) s in
            pok NArray rest
          else if c =? 34 then
            let! (raw, rest) := string s in pok (NStr raw) rest
          else if is_word c then
            let '(w, rest) := span_word s in pok (NWord w) rest
          else perr NotOneObject
      | None => perr NotOneObject
      end
  end
with object_loop (fuel depth : nat) (members : list (bytes * Node)) (s : bytes)
    : parsed (list (bytes * Node)) :=
  match fuel with
  | O => None
  | S f =>
      let s := skip_ws s in
      if negb (bool_decide (peek s = Some 34)) then perr NotOneObject
      else
        let! (key, s) := string s in
        if bool_decide (key ∈ members.*1) then perr DuplicateKey
        else
          let s := skip_ws s in
          if negb (bool_decide (peek s = Some 58)) then perr NotOneObject
          else
            let! (v, s) := value f depth (tail s) in
            let! (closed, s) := close 125 s in
            if closed then pok (members ++ [(key, v)]) s
            else object_loop f depth (members ++ [(key, v)]) s
  end
with array_loop (fuel depth : nat) (s : bytes) : parsed unit :=
  match fuel with
  | O => None
  | S f =>
      let! (v, s) := value f depth s in
      let! (closed, s) := close 93 s in
      if closed then pok tt s else array_loop f depth s
  end.

Definition object (fuel depth : nat) (s : bytes) : parsed (list (bytes * Node)) :=
  object_with (object_loop fuel depth []) s.

(** [parse], with fuel. *)
Definition parse_fuel (fuel : nat) (text : bytes)
    : option (result (list (bytes * Node)) DecodeCode) :=
  let s := skip_ws text in
  if negb (bool_decide (peek s = Some 123)) then Some (Err NotOneObject)
  else match object fuel 1 s with
  | None => None
  | Some (Err e) => Some (Err e)
  | Some (Ok (members, rest)) =>
      match skip_ws rest with
      | [] => Some (Ok members)
      | _ => Some (Err NotOneObject)
      end
  end.

(** The fuel [parse] needs: one more than twice the bytes to read. *)
Definition parse (text : bytes) : result (list (bytes * Node)) DecodeCode :=
  match parse_fuel (S (2 * length text)) text with
  | Some r => r
  | None => Err NotOneObject
  end.

(** ** The grammar *)

Definition ws (s : bytes) : Prop := Forall (λ c, is_ws c = true) s.

(** The raw content of a JSON string. *)
Inductive str_raw : bytes → Prop :=
| sr_nil : str_raw []
| sr_char c r : c ≠ 34 → c ≠ 92 → 32 ≤ c → str_raw r → str_raw (c :: r)
| sr_escape e r : is_simple_escape e = true → str_raw r → str_raw (92 :: e :: r)
| sr_unicode h1 h2 h3 h4 r :
    is_ascii_hexdigit h1 = true → is_ascii_hexdigit h2 = true →
    is_ascii_hexdigit h3 = true → is_ascii_hexdigit h4 = true →
    str_raw r → str_raw (92 :: 117 :: h1 :: h2 :: h3 :: h4 :: r).

(** [value_at d text node]: [text] is a value inside a container at depth
    [d]. [members_at] and [elements_at] include the closing bracket. *)
Inductive value_at : nat → bytes → Node → Prop :=
| va_str d w r : ws w → str_raw r → value_at d (w ++ 34 :: r ++ [34]) (NStr r)
| va_word d w x :
    ws w → x ≠ [] → Forall (λ c, is_word c = true) x → value_at d (w ++ x) (NWord x)
| va_object_empty d w w1 :
    (d < MAX_DEPTH)%nat → ws w → ws w1 → value_at d (w ++ 123 :: w1 ++ [125]) (NObject [])
| va_object d w body ms :
    (d < MAX_DEPTH)%nat → ws w → members_at (S d) body ms → NoDup ms.*1 →
    value_at d (w ++ 123 :: body) (NObject ms)
| va_array_empty d w w1 :
    (d < MAX_DEPTH)%nat → ws w → ws w1 → value_at d (w ++ 91 :: w1 ++ [93]) NArray
| va_array d w body :
    (d < MAX_DEPTH)%nat → ws w → elements_at (S d) body → value_at d (w ++ 91 :: body) NArray
with members_at : nat → bytes → list (bytes * Node) → Prop :=
| ma_last d w k w1 vt v w2 :
    ws w → str_raw k → ws w1 → value_at d vt v → ws w2 →
    members_at d (w ++ 34 :: k ++ 34 :: w1 ++ 58 :: vt ++ w2 ++ [125]) [(k, v)]
| ma_more d w k w1 vt v w2 rest ms :
    ws w → str_raw k → ws w1 → value_at d vt v → ws w2 → members_at d rest ms →
    members_at d (w ++ 34 :: k ++ 34 :: w1 ++ 58 :: vt ++ w2 ++ 44 :: rest) ((k, v) :: ms)
with elements_at : nat → bytes → Prop :=
| ea_last d vt v w : value_at d vt v → ws w → elements_at d (vt ++ w ++ [93])
| ea_more d vt v w rest :
    value_at d vt v → ws w → elements_at d rest → elements_at d (vt ++ w ++ 44 :: rest).

Scheme value_at_ind' := Induction for value_at Sort Prop
with members_at_ind' := Induction for members_at Sort Prop
with elements_at_ind' := Induction for elements_at Sort Prop.
Combined Scheme grammar_ind from value_at_ind', members_at_ind', elements_at_ind'.

(** Exactly one object between whitespace, whose members are at depth 1. *)
Inductive document : bytes → list (bytes * Node) → Prop :=
| doc_empty w w1 w2 : ws w → ws w1 → ws w2 → document (w ++ 123 :: w1 ++ 125 :: w2) []
| doc_members w body ms w2 :
    ws w → members_at 1 body ms → NoDup ms.*1 → ws w2 →
    document (w ++ 123 :: body ++ w2) ms.

(** ** Scanning lemmas *)

Definition no_ws_head (s : bytes) : Prop := ∀ c t, s = c :: t → is_ws c = false.
Definition no_word_head (s : bytes) : Prop := ∀ c t, s = c :: t → is_word c = false.

Lemma skip_ws_split s : ∃ w, ws w ∧ s = w ++ skip_ws s ∧ no_ws_head (skip_ws s).
Proof.
  induction s as [|c s (w & Hw & Hs & Hn)]; simpl.
  { exists []. split; [constructor|]. split; [done|]. by intros ? ? ?. }
  destruct (is_ws c) eqn:Hc.
  - exists (c :: w). split; [by constructor|]. split; [simpl; congruence|done].
  - exists []. split; [constructor|]. split; [done|]. intros ? ? [= <- <-]. done.
Qed.

Lemma skip_ws_id s : no_ws_head s → skip_ws s = s.
Proof. destruct s as [|c s]; [done|]. intros H. simpl. by rewrite (H c s eq_refl). Qed.

Lemma skip_ws_app w s : ws w → no_ws_head s → skip_ws (w ++ s) = s.
Proof.
  intros Hw Hs. induction Hw as [|c w Hc _ IH]; simpl; [by apply skip_ws_id|].
  by rewrite Hc.
Qed.

Lemma skip_ws_cons w c s : ws w → is_ws c = false → skip_ws (w ++ c :: s) = c :: s.
Proof. intros Hw Hc. apply skip_ws_app; [done|]. by intros ? ? [= <- <-]. Qed.

Lemma span_word_sound s w r :
  span_word s = (w, r) → s = w ++ r ∧ Forall (λ c, is_word c = true) w ∧ no_word_head r.
Proof.
  revert w r. induction s as [|c s IH]; simpl; intros w r H.
  { simplify_eq. split; [done|]. split; [constructor|]. by intros ? ? ?. }
  destruct (is_word c) eqn:Hc; simplify_eq.
  - destruct (span_word s) as [w' r'] eqn:E. simplify_eq.
    destruct (IH _ _ eq_refl) as (-> & Hw & Hr). split; [done|]. split; [by constructor|done].
  - split; [done|]. split; [constructor|]. by intros ? ? [= <- <-].
Qed.

Lemma span_word_complete w r :
  Forall (λ c, is_word c = true) w → no_word_head r → span_word (w ++ r) = (w, r).
Proof.
  intros Hw Hr. induction Hw as [|c w Hc _ IH]; simpl.
  - destruct r as [|c r]; [done|]. simpl. by rewrite (Hr c r eq_refl).
  - by rewrite Hc, IH.
Qed.

Lemma pbind_ok {T U} (p : parsed T) (k : T → bytes → parsed U) u r :
  pbind p k = Some (Ok (u, r)) ↔ ∃ t r', p = Some (Ok (t, r')) ∧ k t r' = Some (Ok (u, r)).
Proof. destruct p as [[[t r']|]|]; simpl; naive_solver. Qed.

Lemma string_body_complete raw rest :
  str_raw raw → string_body (raw ++ 34 :: rest) = pok raw rest.
Proof.
  induction 1 as [|c r H1 H2 H3 _ IH|e r He _ IH|h1 h2 h3 h4 r Hh1 Hh2 Hh3 Hh4 _ IH]; simpl;
    [done| | |].
  - rewrite (proj2 (Z.eqb_neq c 34)), (proj2 (Z.eqb_neq c 92)), (proj2 (Z.ltb_ge c 32)) by lia.
    by rewrite IH.
  - by rewrite He, IH.
  - rewrite Hh1, Hh2, Hh3, Hh4, IH. done.
Qed.

Lemma string_body_sound s raw rest :
  string_body s = pok raw rest → str_raw raw ∧ s = raw ++ 34 :: rest.
Proof.
  unfold pok. revert raw rest.
  induction s as [s IH] using (induction_ltof1 _ (@length Z)). unfold ltof in IH.
  intros raw rest. destruct s as [|c t]; simpl; [done|].
  assert (Hrec : ∀ pre t', (length t' < length (c :: t))%nat →
    cons_raw pre (string_body t') = Some (Ok (raw, rest)) →
    ∃ raw', raw = pre ++ raw' ∧ str_raw raw' ∧ t' = raw' ++ 34 :: rest).
  { intros pre t' Hlt H. unfold cons_raw in H. apply pbind_ok in H as (raw' & r' & H & H').
    unfold pok in H'. simplify_eq. apply IH in H as [Hr ->]; [|done]. by exists raw'. }
  destruct (c =? 34) eqn:E1; breflect.
  { unfold pok. intros; simplify_eq. by split; [constructor|]. }
  destruct (c =? 92) eqn:E2; breflect.
  - destruct t as [|e t1]; [done|]. subst c.
    destruct (is_simple_escape e) eqn:E3.
    + intros (raw' & -> & Hr & ->)%Hrec; [|simpl; lia]. split; [by constructor|done].
    + destruct (e =? 117) eqn:E4; [|done]. breflect. subst e.
      destruct t1 as [|h1 [|h2 [|h3 [|h4 t2]]]]; try done.
      case_match eqn:Eh; [|done]. breflect.
      intros (raw' & -> & Hr & ->)%Hrec; [|simpl; lia]. split; [by constructor|done].
  - destruct (c <? 32) eqn:E3; [done|]. breflect.
    intros (raw' & -> & Hr & ->)%Hrec; [|simpl; lia]. split; [by constructor|done].
Qed.

Lemma close_sound e s b rest :
  close e s = pok b rest →
  ∃ w, ws w ∧ s = w ++ (if b then e else 44) :: rest.
Proof.
  unfold close, pok. destruct (skip_ws_split s) as (w & Hw & Hs & _).
  destruct (skip_ws s) as [|c t]; [done|]. intros H.
  exists w. split; [done|]. unfold pok in H.
  destruct (c =? 44) eqn:E1; breflect; [simplify_eq; done|].
  destruct (c =? e) eqn:E2; breflect; [simplify_eq; done|done].
Qed.

Lemma close_complete (e : Z) w (b : bool) rest :
  ws w → e ≠ 44 → is_ws e = false → close e (w ++ (if b then e else 44) :: rest) = pok b rest.
Proof.
  intros Hw He Hn. unfold close. rewrite skip_ws_cons by (done || by destruct b).
  destruct b; simpl; [|done]. by rewrite (proj2 (Z.eqb_neq e 44)), Z.eqb_refl.
Qed.

(** ** Soundness: what the parser accepts is in the grammar *)

Lemma peek_cons s c : peek s = Some c ↔ ∃ t, s = c :: t.
Proof. unfold peek. rewrite head_Some. done. Qed.

(** Whitespace before a member list or a value belongs to it. *)
Lemma members_ws d w body ms : ws w → members_at d body ms → members_at d (w ++ body) ms.
Proof. intros Hw. destruct 1; rewrite app_assoc; constructor; try done; by apply Forall_app. Qed.

Lemma value_ws d w vt v : ws w → value_at d vt v → value_at d (w ++ vt) v.
Proof.
  intros Hw Hv. inversion Hv; subst; rewrite app_assoc; constructor; try done;
    by apply Forall_app.
Qed.

(** What one call of each loop guarantees on success. *)
Definition value_sound (fuel : nat) : Prop := ∀ d s n rest,
  value fuel d s = pok n rest → ∃ vt, s = vt ++ rest ∧ value_at d vt n.
Definition object_sound (fuel : nat) : Prop := ∀ d acc s ms rest,
  object_loop fuel d acc s = pok ms rest →
  ∃ body ms', s = body ++ rest ∧ ms = acc ++ ms' ∧ members_at d body ms' ∧
    (NoDup acc.*1 → NoDup ms.*1).
Definition array_sound (fuel : nat) : Prop := ∀ d s u rest,
  array_loop fuel d s = pok u rest → ∃ body, s = body ++ rest ∧ elements_at d body.

Lemma object_with_sound f d w s ms rest :
  object_sound f → (d < MAX_DEPTH)%nat → ws w →
  object_with (object_loop f (S d) []) (123 :: s) = pok ms rest →
  ∃ vt, w ++ 123 :: s = vt ++ rest ∧ value_at d vt (NObject ms).
Proof.
  intros IH Hd Hw. unfold object_with. simpl.
  destruct (skip_ws_split s) as (w1 & Hw1 & Hs & _). generalize dependent (skip_ws s). intros s1 Hs.
  case_bool_decide as Hp.
  - apply peek_cons in Hp as [t Ht]. rewrite Ht in *. simpl. unfold pok. intros [= <- <-].
    exists (w ++ 123 :: w1 ++ [125]). split; [|by constructor].
    rewrite Hs. by norm_app.
  - intros (body & ms' & Hb & -> & Hm & Hn)%IH.
    exists (w ++ 123 :: (w1 ++ body)). split.
    + rewrite Hs, Hb. by norm_app.
    + constructor; [done|done|by apply members_ws|apply Hn; constructor].
Qed.

Lemma array_with_sound f d w s u rest :
  array_sound f → (d < MAX_DEPTH)%nat → ws w →
  array_with (array_loop f (S d)) (91 :: s) = pok u rest →
  ∃ vt, w ++ 91 :: s = vt ++ rest ∧ value_at d vt NArray.
Proof.
  intros IH Hd Hw. unfold array_with. simpl.
  destruct (skip_ws_split s) as (w1 & Hw1 & Hs & _). generalize dependent (skip_ws s). intros s1 Hs.
  case_bool_decide as Hp.
  - apply peek_cons in Hp as [t Ht]. rewrite Ht in *. simpl. unfold pok. intros [= <- <-].
    exists (w ++ 91 :: w1 ++ [93]). split; [|by constructor].
    rewrite Hs. by norm_app.
  - intros (body & Hb & He)%IH.
    exists (w ++ 91 :: (w1 ++ body)). split.
    + rewrite Hs, Hb. by norm_app.
    + constructor; [done|done|].
      destruct He; rewrite app_assoc; econstructor; eauto using value_ws.
Qed.

Lemma value_step_sound f : object_sound f → array_sound f → value_sound (S f).
Proof.
  intros IHo IHa d s n rest. simpl.
  destruct (skip_ws_split s) as (w & Hw & Hs & _). generalize dependent (skip_ws s). intros s1 Hs.
  destruct (peek s1) as [c|] eqn:Hp; [|done]. apply peek_cons in Hp as [t Ht].
  subst s1 s.
  case_match eqn:Edeep; [done|].
  destruct (c =? 123) eqn:E1; breflect.
  { subst c. change ((MAX_DEPTH <=? d)%nat = false) in Edeep. breflect. intros (ms & r & H & Hk)%pbind_ok.
    unfold pok in Hk. simplify_eq. eapply object_with_sound; eauto. }
  destruct (c =? 91) eqn:E2; breflect.
  { subst c. change ((MAX_DEPTH <=? d)%nat = false) in Edeep. breflect. intros (u & r & H & Hk)%pbind_ok.
    unfold pok in Hk. simplify_eq. eapply array_with_sound; eauto. }
  destruct (c =? 34) eqn:E3; breflect.
  { subst c. intros (raw & r & H & Hk)%pbind_ok. unfold pok in Hk. simplify_eq.
    apply string_body_sound in H as [Hr Ht]. simpl in Ht. subst t. exists (w ++ 34 :: raw ++ [34]).
    split; [|by constructor]. by norm_app. }
  destruct (is_word c) eqn:E4; [|done].
  destruct (span_word (c :: t)) as [x r] eqn:Ex. unfold pok. intros [= <- <-].
  pose proof (span_word_sound _ _ _ Ex) as (Hx & Hwx & _).
  exists (w ++ x). split; [by rewrite Hx, app_assoc|]. constructor; [done| |done].
  intros ->. simpl in Ex. rewrite E4 in Ex. by destruct (span_word t).
Qed.

Lemma object_step_sound f : value_sound f → object_sound f → object_sound (S f).
Proof.
  intros IHv IHo d acc s ms rest. simpl.
  destruct (skip_ws_split s) as (w & Hw & Hs & _). generalize dependent (skip_ws s). intros s1 Hs.
  case_bool_decide as Hp; [|done]. apply peek_cons in Hp as [t Ht]. simpl.
  subst s1 s.
  intros (key & s2 & Hk & H)%pbind_ok. apply string_body_sound in Hk as [Hkey Hs2].
  simpl in Hs2. case_bool_decide as Hdup; [done|].
  destruct (skip_ws_split s2) as (w1 & Hw1 & Hs3 & _). revert H Hs3. generalize (skip_ws s2). intros s3 H Hs3.
  case_bool_decide as Hp; [|done]. apply peek_cons in Hp as [t3 Ht3]. simpl in H.
  rewrite Ht3 in Hs3, H. simpl in H.
  apply pbind_ok in H as (v & s4 & Hv & H). apply IHv in Hv as (vt & Hvt & Hv).
  apply pbind_ok in H as (closed & s5 & Hc & H). apply close_sound in Hc as (w2 & Hw2 & Hs5).
  assert (Hnd : NoDup acc.*1 → NoDup (acc ++ [(key, v)]).*1).
  { intros Ha. rewrite fmap_app. apply NoDup_app. split_and!; [done|set_solver|].
    apply NoDup_singleton. }
  destruct closed.
  - unfold pok in H. simplify_eq.
    exists (w ++ 34 :: key ++ 34 :: w1 ++ 58 :: vt ++ w2 ++ [125]), [(key, v)].
    split_and!; [|done|by constructor|done].
    by norm_app.
  - apply IHo in H as (body & ms' & -> & -> & Hm & Hn).
    exists (w ++ 34 :: key ++ 34 :: w1 ++ 58 :: vt ++ w2 ++ 44 :: body), ((key, v) :: ms').
    split_and!; [subst; by norm_app|by norm_app|by constructor|auto].
Qed.

Lemma array_step_sound f : value_sound f → array_sound f → array_sound (S f).
Proof.
  intros IHv IHa d s u rest. simpl.
  intros (v & s4 & Hv & H)%pbind_ok. apply IHv in Hv as (vt & -> & Hv).
  apply pbind_ok in H as (closed & s5 & Hc & H). apply close_sound in Hc as (w2 & Hw2 & ->).
  destruct closed.
  - unfold pok in H. simplify_eq. exists (vt ++ w2 ++ [93]). split; [|by econstructor].
    by norm_app.
  - apply IHa in H as (body & -> & He). exists (vt ++ w2 ++ 44 :: body).
    split; [|by econstructor]. by norm_app.
Qed.

Lemma parser_sound fuel : value_sound fuel ∧ object_sound fuel ∧ array_sound fuel.
Proof.
  induction fuel as [|f (IHv & IHo & IHa)]; [done|].
  split_and!; [by apply value_step_sound|by apply object_step_sound|by apply array_step_sound].
Qed.

(** ** Completeness: what the grammar admits is accepted *)

Lemma not_ws_facts : is_ws 123 = false ∧ is_ws 91 = false ∧ is_ws 34 = false ∧
  is_ws 125 = false ∧ is_ws 93 = false ∧ is_ws 58 = false ∧ is_ws 44 = false.
Proof. done. Qed.

Lemma ws_no_word_head w c s : ws w → is_word c = false → no_word_head (w ++ c :: s).
Proof.
  intros Hw Hc c' t H. destruct Hw as [|x w Hx _]; simplify_eq/=; [done|].
  unfold is_ws, is_word, is_ascii_alphanumeric, is_ascii_lowercase, is_ascii_uppercase,
    is_ascii_digit in *. lia.
Qed.

Lemma word_not_special c : is_word c = true →
  (c =? 123) = false ∧ (c =? 91) = false ∧ (c =? 34) = false ∧ is_ws c = false.
Proof.
  unfold is_ws, is_word, is_ascii_alphanumeric, is_ascii_lowercase, is_ascii_uppercase,
    is_ascii_digit. lia.
Qed.

Lemma no_ws_members d body ms rest : members_at d body ms →
  bool_decide (peek (skip_ws (body ++ rest)) = Some 125) = false.
Proof.
  intros H. apply bool_decide_eq_false_2. intros Hp.
  destruct H; rewrite <- app_assoc in Hp; simpl in Hp; rewrite skip_ws_cons in Hp by done; done.
Qed.

Lemma value_at_head d vt v : value_at d vt v → ∃ w c t, ws w ∧ vt = w ++ c :: t ∧
  is_ws c = false ∧ c ≠ 93.
Proof.
  destruct 1 as [d w r|d w x Hw Hx Hall|d w w1|d w b|d w w1|d w b];
    [..|]; try (eexists w, _, _; split_and!; [done|done|done|lia]).
  destruct Hall as [|c x Hc _]; [done|]. exists w, c, x.
  split_and!; [done|done|by apply word_not_special|]. intros ->. done.
Qed.

Lemma no_ws_elements d body rest : elements_at d body →
  bool_decide (peek (skip_ws (body ++ rest)) = Some 93) = false.
Proof.
  intros H. apply bool_decide_eq_false_2. intros Hp.
  destruct H as [d vt v w Hv|d vt v w r Hv]; apply value_at_head in Hv as (u & c & t & Hu & -> & Hc & Hn);
    rewrite <- !app_assoc in Hp; simpl in Hp; rewrite skip_ws_cons in Hp by done;
    unfold peek in Hp; simpl in Hp; congruence.
Qed.

Lemma skip_ws_members d body ms rest f acc : members_at d body ms →
  object_loop f d acc (skip_ws (body ++ rest)) = object_loop f d acc (body ++ rest).
Proof.
  intros H. destruct f as [|f]; [done|]. cbn [object_loop].
  destruct (skip_ws_split (body ++ rest)) as (w & _ & _ & Hn).
  by rewrite (skip_ws_id _ Hn).
Qed.

Lemma skip_ws_elements d body rest f : elements_at d body →
  array_loop f d (skip_ws (body ++ rest)) = array_loop f d (body ++ rest).
Proof.
  intros H. destruct f as [|[|f]]; [done|done|]. cbn [array_loop value].
  destruct (skip_ws_split (body ++ rest)) as (w & _ & _ & Hn).
  by rewrite (skip_ws_id _ Hn).
Qed.

Definition value_complete (d : nat) (vt : bytes) (v : Node) : Prop := ∀ fuel rest,
  (2 * length (vt ++ rest) < fuel)%nat → no_word_head rest →
  value fuel d (vt ++ rest) = pok v rest.
Definition members_complete (d : nat) (body : bytes) (ms : list (bytes * Node)) : Prop :=
  ∀ fuel acc rest, (2 * length (body ++ rest) < fuel)%nat → NoDup (acc ++ ms).*1 →
  object_loop fuel d acc (body ++ rest) = pok (acc ++ ms) rest.
Definition elements_complete (d : nat) (body : bytes) : Prop := ∀ fuel rest,
  (2 * length (body ++ rest) + 1 < fuel)%nat →
  array_loop fuel d (body ++ rest) = pok tt rest.

Local Ltac fuel_step fuel f := destruct fuel as [|f]; [lia|].

Lemma str_value_complete d w r : ws w → str_raw r →
  value_complete d (w ++ 34 :: r ++ [34]) (NStr r).
Proof.
  intros Hw Hr fuel rest Hf _. fuel_step fuel f. norm_app. cbn [value].
  rewrite skip_ws_cons by done. simpl. unfold string. simpl.
  by rewrite string_body_complete.
Qed.

Lemma word_value_complete d w x : ws w → x ≠ [] → Forall (λ c, is_word c = true) x →
  value_complete d (w ++ x) (NWord x).
Proof.
  intros Hw Hne Hx fuel rest Hf Hr. fuel_step fuel f.
  destruct x as [|c x]; [done|]. pose proof Hx as Hc. apply Forall_cons in Hc as [Hc _].
  destruct (word_not_special _ Hc) as (H1 & H2 & H3 & H4).
  norm_app. cbn [value]. rewrite skip_ws_cons by done. cbn [peek head].
  rewrite H1, H2, H3, Hc. cbn [orb andb].
  change (c :: x ++ rest) with ((c :: x) ++ rest). by rewrite span_word_complete.
Qed.

Lemma depth_test d b : (d < MAX_DEPTH)%nat → b && (MAX_DEPTH <=? d)%nat = false.
Proof. intros H. rewrite (proj2 (Nat.leb_gt _ _)) by done. by destruct b. Qed.

Lemma object_value_complete d w body ms : (d < MAX_DEPTH)%nat → ws w →
  members_at (S d) body ms → members_complete (S d) body ms → NoDup ms.*1 →
  value_complete d (w ++ 123 :: body) (NObject ms).
Proof.
  intros Hd Hw Hm IH Hn fuel rest Hf _. fuel_step fuel f. norm_app. cbn [value].
  rewrite skip_ws_cons by done. cbn [peek head]. rewrite depth_test by done.
  change (123 =? 123) with true. unfold object_with. cbn [tail].
  rewrite (no_ws_members _ _ _ rest Hm), (skip_ws_members _ _ _ _ _ _ Hm), IH; [done| |done].
  len_lia.
Qed.

Lemma array_value_complete d w body : (d < MAX_DEPTH)%nat → ws w →
  elements_at (S d) body → elements_complete (S d) body →
  value_complete d (w ++ 91 :: body) NArray.
Proof.
  intros Hd Hw Hm IH fuel rest Hf _. fuel_step fuel f. norm_app. cbn [value].
  rewrite skip_ws_cons by done. cbn [peek head]. rewrite depth_test by done.
  change (91 =? 123) with false. change (91 =? 91) with true. unfold array_with. cbn [tail].
  rewrite (no_ws_elements _ _ rest Hm), (skip_ws_elements _ _ _ _ Hm), IH; [done|].
  len_lia.
Qed.

Lemma empty_value_complete d w w1 : (d < MAX_DEPTH)%nat → ws w → ws w1 →
  value_complete d (w ++ 123 :: w1 ++ [125]) (NObject []) ∧
  value_complete d (w ++ 91 :: w1 ++ [93]) NArray.
Proof.
  intros Hd Hw Hw1. split; intros fuel rest Hf _; fuel_step fuel f; norm_app; cbn [value];
    rewrite skip_ws_cons by done; cbn [peek head]; rewrite depth_test by done.
  - change (123 =? 123) with true. unfold object_with. cbn [tail].
    by rewrite skip_ws_cons by done.
  - change (91 =? 123) with false. change (91 =? 91) with true. unfold array_with. cbn [tail].
    by rewrite skip_ws_cons by done.
Qed.

(** One member, up to its closing comma or brace. *)
Lemma member_step d w k w1 vt v w2 (b : bool) rest f acc :
  ws w → str_raw k → ws w1 → ws w2 → value_complete d vt v → k ∉ acc.*1 →
  (2 * length (vt ++ w2 ++ (if b then 125%Z else 44%Z) :: rest) < f)%nat →
  object_loop (S f) d acc
    (w ++ 34 :: k ++ 34 :: w1 ++ 58 :: vt ++ w2 ++ (if b then 125 else 44) :: rest) =
  if b then pok (acc ++ [(k, v)]) rest else object_loop f d (acc ++ [(k, v)]) rest.
Proof.
  intros Hw Hk Hw1 Hw2 Hv Hn Hf. cbn [object_loop].
  rewrite skip_ws_cons by done. rewrite bool_decide_eq_true_2 by done. cbn [negb].
  unfold string. cbn [tail]. rewrite string_body_complete by done. cbn [pbind].
  unfold pok at 1. cbn [pbind]. rewrite bool_decide_eq_false_2 by done.
  rewrite skip_ws_cons by done. rewrite bool_decide_eq_true_2 by done. cbn [negb tail].
  rewrite Hv; [|done|by apply ws_no_word_head; [|by destruct b]].
  unfold pok at 1. cbn [pbind]. rewrite close_complete by done.
  unfold pok at 1. cbn [pbind]. by destruct b.
Qed.

Lemma members_last_complete d w k w1 vt v w2 :
  ws w → str_raw k → ws w1 → value_complete d vt v → ws w2 →
  members_complete d (w ++ 34 :: k ++ 34 :: w1 ++ 58 :: vt ++ w2 ++ [125]) [(k, v)].
Proof.
  intros Hw Hk Hw1 Hv Hw2 fuel acc rest Hf Hn. fuel_step fuel f.
  rewrite fmap_app in Hn. apply NoDup_app in Hn as (_ & Hn & _).
  pose proof (member_step d w k w1 vt v w2 true rest f acc) as Hs. norm_app.
  rewrite Hs; try done; [set_solver|len_lia].
Qed.

Lemma members_more_complete d w k w1 vt v w2 body ms :
  ws w → str_raw k → ws w1 → value_complete d vt v → ws w2 → members_complete d body ms →
  members_complete d (w ++ 34 :: k ++ 34 :: w1 ++ 58 :: vt ++ w2 ++ 44 :: body) ((k, v) :: ms).
Proof.
  intros Hw Hk Hw1 Hv Hw2 IH fuel acc rest Hf Hn. fuel_step fuel f.
  pose proof Hn as Hn'. rewrite fmap_app in Hn'. apply NoDup_app in Hn' as (_ & Hn' & _).
  pose proof (member_step d w k w1 vt v w2 false (body ++ rest) f acc) as Hs. norm_app.
  rewrite Hs; try done; [|set_solver|len_lia].
  rewrite IH; [by rewrite <- app_assoc|len_lia|by rewrite <- app_assoc].
Qed.

Lemma element_step d vt v w (b : bool) rest f :
  value_complete d vt v → ws w →
  (2 * length (vt ++ w ++ (if b then 93%Z else 44%Z) :: rest) < f)%nat →
  array_loop (S f) d (vt ++ w ++ (if b then 93 else 44) :: rest) =
  if b then pok tt rest else array_loop f d rest.
Proof.
  intros Hv Hw Hf. cbn [array_loop].
  rewrite Hv; [|done|by apply ws_no_word_head; [|by destruct b]].
  unfold pok at 1. cbn [pbind]. rewrite close_complete by done.
  unfold pok at 1. cbn [pbind]. by destruct b.
Qed.

Lemma elements_last_complete d vt v w :
  value_complete d vt v → ws w → elements_complete d (vt ++ w ++ [93]).
Proof.
  intros Hv Hw fuel rest Hf. fuel_step fuel f.
  pose proof (element_step d vt v w true rest f) as Hs. norm_app.
  rewrite Hs; try done. len_lia.
Qed.

Lemma elements_more_complete d vt v w body :
  value_complete d vt v → ws w → elements_complete d body →
  elements_complete d (vt ++ w ++ 44 :: body).
Proof.
  intros Hv Hw IH fuel rest Hf. fuel_step fuel f.
  pose proof (element_step d vt v w false (body ++ rest) f) as Hs. norm_app.
  rewrite Hs; try done; [|len_lia]. apply IH. len_lia.
Qed.

Lemma grammar_complete :
  (∀ d vt v, value_at d vt v → value_complete d vt v) ∧
  (∀ d body ms, members_at d body ms → members_complete d body ms) ∧
  (∀ d body, elements_at d body → elements_complete d body).
Proof.
  apply grammar_ind; intros.
  - by apply str_value_complete.
  - by apply word_value_complete.
  - by apply empty_value_complete.
  - by apply object_value_complete.
  - by apply empty_value_complete.
  - by apply array_value_complete.
  - by apply members_last_complete.
  - by apply members_more_complete.
  - by eapply elements_last_complete.
  - by eapply elements_more_complete.
Qed.

(** ** Totality: the fuel is enough *)

Lemma value_consumes f d s n rest :
  value f d s = pok n rest → (length rest < length s)%nat.
Proof.
  intros (vt & -> & Hv)%(proj1 (parser_sound f)).
  apply value_at_head in Hv as (w & c & t & _ & -> & _). len_lia.
Qed.

Lemma string_body_total s : string_body s ≠ None.
Proof.
  induction s as [s IH] using (induction_ltof1 _ (@length Z)). unfold ltof in IH.
  destruct s as [|c t]; simpl; [done|].
  assert (Hrec : ∀ pre t', (length t' < length (c :: t))%nat →
    cons_raw pre (string_body t') ≠ None).
  { intros pre t' Hlt. specialize (IH t' Hlt). unfold cons_raw.
    destruct (string_body t') as [[[]|]|]; done. }
  repeat (case_match; try done); subst; apply Hrec; simpl; lia.
Qed.

Lemma skip_ws_length s : (length (skip_ws s) ≤ length s)%nat.
Proof. induction s as [|c s IH]; simpl; [done|]. case_match; simpl; lia. Qed.

Lemma close_shorter e s b rest : close e s = pok b rest → (length rest < length s)%nat.
Proof. intros (w & _ & ->)%close_sound. len_lia. Qed.

Lemma pbind_total {T U} (p : parsed T) (k : T → bytes → parsed U) :
  p ≠ None → (∀ t r, p = pok t r → k t r ≠ None) → pbind p k ≠ None.
Proof. destruct p as [[[t r]|]|]; simpl; intros H1 H2; [by apply H2|done|done]. Qed.

Lemma close_total e s : close e s ≠ None.
Proof. unfold close. repeat case_match; done. Qed.

Lemma parser_total fuel :
  (∀ d s, (2 * length s < fuel)%nat → value fuel d s ≠ None) ∧
  (∀ d acc s, (2 * length s < fuel)%nat → object_loop fuel d acc s ≠ None) ∧
  (∀ d s, (2 * length s + 1 < fuel)%nat → array_loop fuel d s ≠ None).
Proof.
  induction fuel as [|f (IHv & IHo & IHa)]; [split_and!; intros; lia|].
  split_and!.
  - intros d s Hf. simpl. pose proof (skip_ws_length s).
    destruct (skip_ws s) as [|c t]; simpl; [done|].
    pose proof (skip_ws_length t). simpl in *.
    case_match; [done|]. case_match.
    { apply pbind_total; [|done]. unfold object_with. simpl.
      case_match; [done|]. apply IHo. lia. }
    case_match.
    { apply pbind_total; [|done]. unfold array_with. simpl.
      case_match; [done|]. apply IHa. lia. }
    case_match; [apply pbind_total; [apply string_body_total|done]|].
    case_match; [|done]. by destruct (is_word c), (span_word t).
  - intros d acc s Hf. simpl. pose proof (skip_ws_length s).
    case_match; [done|]. apply pbind_total; [apply string_body_total|].
    intros key s2 [_ Hs2]%string_body_sound. case_match; [done|].
    pose proof (skip_ws_length s2). case_match; [done|].
    assert (length s2 < length (skip_ws s))%nat.
    { destruct (skip_ws s) as [|? ?]; simpl in *; [by destruct key|subst; len_lia]. }
    assert (length (tail (skip_ws s2)) ≤ length (skip_ws s2))%nat
      by (destruct (skip_ws s2); simpl; lia).
    apply pbind_total; [apply IHv; lia|]. intros v s4 Hv%value_consumes.
    apply pbind_total; [apply close_total|]. intros b s5 Hc%close_shorter.
    destruct b; [done|]. apply IHo. lia.
  - intros d s Hf. simpl. apply pbind_total; [apply IHv; lia|].
    intros v s4 Hv%value_consumes.
    apply pbind_total; [apply close_total|]. intros b s5 Hc%close_shorter.
    destruct b; [done|]. apply IHa. lia.
Qed.

(** The error codes of the first pass. *)
Definition reader_code (e : DecodeCode) : Prop :=
  e = NotOneObject ∨ e = DuplicateKey ∨ e = TooDeep.

Definition codes_ok {T} (p : parsed T) : Prop := ∀ e, p = Some (Err e) → reader_code e.

Lemma codes_perr {T} e : reader_code e → codes_ok (T:=T) (perr e).
Proof. intros H e' [= <-]. done. Qed.

Lemma codes_pbind {T U} (p : parsed T) (k : T → bytes → parsed U) :
  codes_ok p → (∀ t r, codes_ok (k t r)) → codes_ok (pbind p k).
Proof. destruct p as [[[t r]|]|]; simpl; intros H1 H2; [apply H2| |done].
  intros e' [= <-]. by apply H1. Qed.

Lemma codes_string_body s : codes_ok (string_body s).
Proof.
  induction s as [s IH] using (induction_ltof1 _ (@length Z)). unfold ltof in IH.
  destruct s as [|c t]; simpl; [apply codes_perr; by left|].
  assert (Hrec : ∀ pre t', (length t' < length (c :: t))%nat →
    codes_ok (cons_raw pre (string_body t'))).
  { intros pre t' Hlt. apply codes_pbind; [by apply IH|done]. }
  repeat (case_match; try done; try (apply codes_perr; by left));
    subst; apply Hrec; simpl; lia.
Qed.

Lemma codes_close e s : codes_ok (close e s).
Proof. unfold close. repeat case_match; try done; apply codes_perr; by left. Qed.

Lemma parser_codes fuel :
  (∀ d s, codes_ok (value fuel d s)) ∧ (∀ d acc s, codes_ok (object_loop fuel d acc s)) ∧
  (∀ d s, codes_ok (array_loop fuel d s)).
Proof.
  induction fuel as [|f (IHv & IHo & IHa)]; [done|].
  split_and!; [intros d s|intros d acc s|intros d s]; simpl; unfold object_with, array_with.
  - repeat case_match; try done; try (apply codes_perr; unfold reader_code; by auto);
      apply codes_pbind; try done; try apply codes_string_body; case_match; done.
  - repeat case_match; try done; try (apply codes_perr; unfold reader_code; by auto).
    apply codes_pbind; [apply codes_string_body|]. intros key r.
    repeat case_match; try done; try (apply codes_perr; unfold reader_code; by auto).
    apply codes_pbind; [done|]. intros v r'. apply codes_pbind; [apply codes_close|].
    intros b ?. by destruct b.
  - apply codes_pbind; [done|]. intros v r'. apply codes_pbind; [apply codes_close|].
    intros b ?. by destruct b.
Qed.

(** Termination: the fuel [parse] starts with is always enough, so the
    reader answers [Ok] or an error code for every input; its only codes are
    [not_one_object], [duplicate_key] and [too_deep]. *)
Theorem parse_total text :
  parse_fuel (S (2 * length text)) text = Some (parse text) ∧
  ∀ e, parse text = Err e → reader_code e.
Proof.
  assert (E : parse_fuel (S (2 * length text)) text ≠ None).
  { unfold parse_fuel. pose proof (skip_ws_length text).
    destruct (negb _) eqn:Ep; [done|]. unfold object, object_with.
    assert (length (tail (skip_ws text)) ≤ length (skip_ws text))%nat
      by (destruct (skip_ws text); simpl; lia).
    pose proof (skip_ws_length (tail (skip_ws text))).
    case_match eqn:Eo; [by repeat case_match|].
    exfalso. destruct (bool_decide _) in Eo; [done|]. revert Eo. apply parser_total. lia. }
  unfold parse. destruct (parse_fuel _ text) as [r|] eqn:E'; [|done].
  split; [done|]. intros e ->. revert E'. unfold parse_fuel, object, object_with.
  pose proof (proj1 (proj2 (parser_codes (S (2 * length text))))) as Hc.
  destruct (negb _); [intros [= <-]; by left|].
  destruct (if bool_decide _ then _ else _) as [[[ms rest]|e']|] eqn:Eo; [| |done].
  { destruct (skip_ws rest); intros [= <-]; by left. }
  intros [= ->]. destruct (bool_decide _) in Eo; [done|]. by eapply Hc.
Qed.

Lemma parse_spec text ms : parse text = Ok ms ↔ document text ms.
Proof.
  unfold parse. split.
  - destruct (parse_fuel _ text) as [r|] eqn:E; [|done]. intros ->. revert E.
    unfold parse_fuel, object, object_with.
    destruct (skip_ws_split text) as (w & Hw & Ht & _).
    case_bool_decide as Hp; cbn [negb]; [|done]. apply peek_cons in Hp as [t Hs].
    rewrite Hs in *. cbn [tail]. destruct (skip_ws_split t) as (w1 & Hw1 & Ht1 & _).
    case_bool_decide as Hp1.
    + apply peek_cons in Hp1 as [t1 Hs1]. rewrite Hs1 in *. simpl.
      destruct (skip_ws_split t1) as (w2 & Hw2 & Ht2 & _).
      destruct (skip_ws t1); [|done]. intros [= <-]. rewrite Ht, Ht1, Ht2, app_nil_r.
      by constructor.
    + destruct (object_loop _ _ _ _) as [[[ms' rest]|]|] eqn:El; [|done|done].
      destruct (skip_ws_split rest) as (w2 & Hw2 & Ht2 & _).
      destruct (skip_ws rest); [|done]. intros [= ->].
      apply (proj1 (proj2 (parser_sound _))) in El as (body & ms' & Hb & -> & Hm & Hn).
      rewrite Ht, Ht1, Hb, Ht2, app_nil_r, app_assoc. simpl.
      constructor; [done|by apply members_ws|apply Hn; constructor|done].
  - intros Hd. unfold parse_fuel, object, object_with.
    destruct Hd as [w w1 w2 Hw Hw1 Hw2|w body ms w2 Hw Hm Hn Hw2].
    + rewrite skip_ws_cons by done. simpl. rewrite skip_ws_cons by done. simpl.
      rewrite <- (app_nil_r w2), skip_ws_app by done. done.
    + rewrite skip_ws_cons by done. cbn [peek head tail].
      rewrite bool_decide_eq_true_2 by done. cbn [negb].
      rewrite (no_ws_members _ _ _ w2 Hm), (skip_ws_members _ _ _ _ _ _ Hm).
      rewrite (proj1 (proj2 grammar_complete) _ _ _ Hm) by (done || len_lia).
      unfold pok. rewrite <- (app_nil_r w2), skip_ws_app by done. done.
Qed.

(** C24. The reader accepts exactly its language: [parse] answers [Ok ms] if
    and only if the text is one object between JSON whitespace, at most two
    containers deep, with no key repeated in any object, and [ms] are its
    members in document order, strings and words as their raw bytes. The
    language is unambiguous, and every other text gets an error code. *)
Theorem parse_grammar text :
  (∀ ms, parse text = Ok ms ↔ document text ms) ∧
  (∀ ms ms', document text ms → document text ms' → ms = ms') ∧
  ((∃ e, parse text = Err e) ↔ ¬ ∃ ms, document text ms).
Proof.
  split_and!; [apply parse_spec| |].
  - intros ms ms' H1%parse_spec H2%parse_spec. congruence.
  - setoid_rewrite <- parse_spec. destruct (parse text) as [ms|e]; split.
    + by intros [? ?].
    + intros H. exfalso. eauto.
    + intros _ [? ?]. done.
    + eauto.
Qed.
