(* ===== verification/Numbers.v ===== *)
(** * Exact numbers: fixed-point probabilities and normalization

    [fixed_point] and [normalize] of
    [crates/nexus-typed-decision/src/decode.rs]: a plain decimal with at most
    six fraction digits becomes an exact [Ppm], and a vector within 50,000 ppm of
    one million is renormalized by largest remainder. *)

From S2P Require Import Prelude Registry Render Read.

Local Open Scope Z_scope.
Local Open Scope nexus_scope.

(** ** Fixed-point numbers *)

(** [split_once('.')]. *)
Fixpoint split_once_dot (w : bytes) : option (bytes * bytes) :=
  match w with
  | [] => None
  | c :: t =>
      if c =? 46 then Some ([], t)
      else match split_once_dot t with
      | Some (a, b) => Some (c :: a, b)
      | None => None
      end
  end.

Definition SCALES : list Z := [100000; 10000; 1000; 100; 10; 1].

(** The closure [digits]. *)
Definition all_digits (s : bytes) : bool :=
  negb (bool_decide (s = [])) && forallb is_ascii_digit s.

Definition fixed_point (word : bytes) : result Ppm DecodeCode :=
  let '(int, frac) :=
    match split_once_dot word with Some p => p | None => (word, lit "0") end in
  let canonical := bool_decide (int = lit "0") || negb (bool_decide (head int = Some 48)) in
  if negb (all_digits int && canonical && all_digits frac && (length frac <=? 6)%nat)
  then Err BadNumber
  else if bool_decide (int = lit "0") then
    Ok (MkPpm (sum_Z (zip_with (λ b scale, (b - 48) * scale) frac SCALES)))
  else if bool_decide (int = lit "1") && forallb (λ b, b =? 48) frac then
    Ok (MkPpm Ppm_MAX)
  else Err OutOfRange.

(** ** Normalization: [td-normalize-v1] *)

Definition ONE : Z := 1000000.

(** The sort key [(Reverse(scaled[i] % sum), i)]: larger remainders first,
    ties to the smaller index. *)
Definition order_le (rems : list Z) (i j : nat) : Prop :=
  nth j rems 0 < nth i rems 0 ∨ (nth i rems 0 = nth j rems 0 ∧ (i ≤ j)%nat).
#[export] Instance order_le_dec rems : RelDecision (order_le rems).
Proof. intros i j. unfold order_le. solve_decision. Defined.

(** The scaled quotients with the missing units handed out by remainder. *)
Definition renormalize (vals : list Z) (sum : Z) : list Z :=
  let scaled := (λ v, v * ONE) <$> vals in
  let out := (λ x, x / sum) <$> scaled in
  let short := ONE - sum_Z out in
  let order := merge_sort (order_le ((λ x, x mod sum) <$> scaled)) (seq 0 (length out)) in
  foldl (λ out i, alter (λ x, x + 1) i out) out (take (Z.to_nat short) order).

Definition normalize (labels : list Label) (values : list Ppm)
    : result Distribution DecodeCode :=
  let vals := Ppm_get <$> values in
  let sum := sum_Z vals in
  let renormalized := negb (sum =? ONE) in
  if renormalized && ((sum =? 0) || (50000 <? Z.abs (sum - ONE))) then Err BadSum
  else
    let ppm := if renormalized then renormalize vals sum else vals in
    Ok (MkDistribution (zip_with (λ l p, (l, MkPpm (Z.min p ONE))) labels ppm) renormalized).

(** ** Fixed-point: exact conversion *)

(** The integer a digit string denotes. *)
Definition dec_value (ds : bytes) : Z := foldl (λ a d, 10 * a + (d - 48)) 0 ds.

Definition is_digits (ds : bytes) : Prop := Forall (λ d, 48 ≤ d ≤ 57) ds.

(** The canonical six-digit decimal of a probability. *)
Definition digit (p k : Z) : Z := 48 + (p / k) mod 10.
Definition print_ppm (p : Z) : bytes :=
  if p =? Ppm_MAX then [49]
  else [48; 46] ++ (digit p <$> SCALES).

Lemma split_once_dot_spec w :
  match split_once_dot w with
  | Some (a, b) => w = a ++ 46 :: b ∧ 46 ∉ a
  | None => 46 ∉ w
  end.
Proof.
  induction w as [|c w IH]; simpl; [set_solver|].
  destruct (c =? 46) eqn:E; breflect; [subst; set_solver|].
  destruct (split_once_dot w) as [[a b]|]; [|set_solver].
  destruct IH as [-> H]. split; [done|set_solver].
Qed.

Lemma split_once_dot_app a b : 46 ∉ a → split_once_dot (a ++ 46 :: b) = Some (a, b).
Proof.
  induction a as [|c a IH]; simpl; intros H; [done|].
  rewrite (proj2 (Z.eqb_neq c 46)) by set_solver. by rewrite IH by set_solver.
Qed.

Lemma all_digits_spec s : all_digits s = true ↔ s ≠ [] ∧ is_digits s.
Proof.
  unfold all_digits, is_digits, is_ascii_digit.
  rewrite andb_true_iff, negb_true_iff, bool_decide_eq_false, forallb_forall, Forall_forall.
  apply and_iff_compat_l, forall_proper. intros c. rewrite <- list_elem_of_In.
  split; intros H Hc; specialize (H Hc); lia.
Qed.

(** A digit string of at most six digits, summed with its scales. *)
Lemma scaled_sum_value frac :
  (length frac ≤ 6)%nat →
  sum_Z (zip_with (λ b scale, (b - 48) * scale) frac SCALES) =
  dec_value frac * 10 ^ (6 - Z.of_nat (length frac)).
Proof.
  intros H. destruct frac as [|a [|b [|c [|d [|e [|f [|g]]]]]]]; try (simpl in H; lia);
    unfold dec_value; simpl; lia.
Qed.

Lemma dec_value_bound frac :
  is_digits frac → 0 ≤ dec_value frac < 10 ^ Z.of_nat (length frac).
Proof.
  intros H. induction frac as [|d frac IH] using rev_ind; [done|].
  apply Forall_app in H as [H1 H2]. apply Forall_cons in H2 as [H2 _].
  specialize (IH H1). unfold dec_value in *. rewrite foldl_app. simpl.
  rewrite length_app, Nat2Z.inj_add. simpl. rewrite Z.pow_add_r by lia. lia.
Qed.

(** The words [fixed_point] accepts, with the value each denotes. *)
Definition plain_decimal (w : bytes) (p : Z) : Prop :=
  ∃ int frac,
    (w = int ++ 46 :: frac ∨ (w = int ∧ frac = [48])) ∧
    is_digits frac ∧ (1 ≤ length frac ≤ 6)%nat ∧
    ((int = [48] ∧ p = dec_value frac * 10 ^ (6 - Z.of_nat (length frac))) ∨
     (int = [49] ∧ dec_value frac = 0 ∧ p = Ppm_MAX)).

Lemma dec_value_zero frac :
  is_digits frac → (forallb (λ b, b =? 48) frac = true ↔ dec_value frac = 0).
Proof.
  intros H. induction frac as [|d frac IH] using rev_ind; [done|].
  apply Forall_app in H as [H1 H2]. apply Forall_cons in H2 as [H2 _].
  pose proof (dec_value_bound _ H1). specialize (IH H1).
  unfold dec_value in *. rewrite foldl_app, forallb_app. simpl.
  rewrite andb_true_r, andb_true_iff, IH, Z.eqb_eq. lia.
Qed.

Definition decimal_parts (w : bytes) : bytes * bytes :=
  match split_once_dot w with Some p => p | None => (w, lit "0") end.

Lemma decimal_parts_spec w int frac :
  int = [48] ∨ int = [49] →
  (decimal_parts w = (int, frac) ↔ w = int ++ 46 :: frac ∨ (w = int ∧ frac = [48])).
Proof.
  intros Hint. assert (Hi : 46 ∉ int) by (destruct Hint as [-> | ->]; set_solver).
  unfold decimal_parts. pose proof (split_once_dot_spec w) as Hs. split.
  - destruct (split_once_dot w) as [[a b]|]; intros Heq; simplify_eq; [left; tauto|by right].
  - intros [->|[-> ->]].
    + by rewrite split_once_dot_app.
    + by destruct Hint as [-> | ->].
Qed.

Lemma fixed_point_parts w int frac :
  decimal_parts w = (int, frac) → int = [48] ∨ int = [49] →
  is_digits frac → (1 ≤ length frac ≤ 6)%nat →
  fixed_point w =
    if bool_decide (int = [48]) then
      Ok (MkPpm (dec_value frac * 10 ^ (6 - Z.of_nat (length frac))))
    else if dec_value frac =? 0 then Ok (MkPpm Ppm_MAX) else Err OutOfRange.
Proof.
  intros Hp Hint Hd Hl. unfold fixed_point. unfold decimal_parts in Hp. rewrite Hp.
  assert (Hf : all_digits frac = true) by (apply all_digits_spec; split; [by destruct frac; simpl in *; [lia|]|done]).
  rewrite Hf, (proj2 (Nat.leb_le _ _)) by lia. rewrite scaled_sum_value by lia.
  pose proof (dec_value_zero _ Hd) as Hz.
  destruct Hint as [-> | ->]; [done|]. simpl.
  destruct (forallb _ frac), (Z.eqb_spec (dec_value frac) 0); try done; naive_solver.
Qed.

Lemma fixed_point_ok_inv w p : fixed_point w = Ok p →
  ∃ int frac, decimal_parts w = (int, frac) ∧ (int = [48] ∨ int = [49]) ∧
    is_digits frac ∧ (1 ≤ length frac ≤ 6)%nat.
Proof.
  unfold fixed_point. fold (decimal_parts w). destruct (decimal_parts w) as [int frac].
  intros H. case_match eqn:E; [done|]. breflect.
  match goal with H : all_digits frac = true |- _ => apply all_digits_spec in H as [Hne Hd] end.
  exists int, frac. split; [done|].
  assert (1 ≤ length frac)%nat by (destruct frac; simpl; [done|lia]).
  case_bool_decide; [by auto|]. case_match eqn:E'; [|done]. breflect. auto.
Qed.

Lemma fixed_point_range w p : fixed_point w = Ok p → 0 ≤ Ppm_get p ≤ Ppm_MAX.
Proof.
  intros H. pose proof (fixed_point_ok_inv _ _ H) as (int & frac & Hp & Hint & Hd & Hl).
  rewrite (fixed_point_parts _ _ _ Hp Hint Hd Hl) in H. pose proof (dec_value_bound _ Hd) as Hb.
  case_bool_decide; [|destruct (_ =? 0); by simplify_eq]. simplify_eq. simpl.
  assert (Hpow : 10 ^ Z.of_nat (length frac) * 10 ^ (6 - Z.of_nat (length frac)) = Ppm_MAX).
  { rewrite <- Z.pow_add_r by lia. by replace (Z.of_nat (length frac) + _) with 6 by lia. }
  assert (0 < 10 ^ (6 - Z.of_nat (length frac))) by (apply Z.pow_pos_nonneg; lia). nia.
Qed.

(** Exactness: [fixed_point] accepts precisely [0], [1], [0.] followed
    by one to six digits and [1.] followed by one to six zeros, and its
    result is exactly a million times the decimal, never more than a
    million. *)
Theorem fixed_point_exact w p :
  (fixed_point w = Ok p ↔ plain_decimal w (Ppm_get p)) ∧
  (fixed_point w = Ok p → 0 ≤ Ppm_get p ≤ Ppm_MAX).
Proof.
  split; [split|apply fixed_point_range].
  - intros H. pose proof (fixed_point_ok_inv _ _ H) as (int & frac & Hp & Hint & Hd & Hl).
    rewrite (fixed_point_parts _ _ _ Hp Hint Hd Hl) in H.
    exists int, frac. split; [by apply decimal_parts_spec|]. split; [done|]. split; [done|].
    case_bool_decide; [left; by simplify_eq|]. right.
    destruct (Z.eqb_spec (dec_value frac) 0); simplify_eq. naive_solver.
  - intros (int & frac & Hw & Hd & Hl & Hv).
    assert (Hint : int = [48] ∨ int = [49]) by tauto.
    apply decimal_parts_spec in Hw; [|done].
    rewrite (fixed_point_parts _ _ _ Hw Hint Hd Hl). destruct p as [p]. simpl in *.
    destruct Hv as [[-> ->]|(-> & -> & ->)]; done.
Qed.

(** Printing a probability in its canonical form and reading it back. *)
Lemma fixed_point_print p : 0 ≤ p ≤ Ppm_MAX → fixed_point (print_ppm p) = Ok (MkPpm p).
Proof.
  intros Hp. unfold print_ppm. destruct (Z.eqb_spec p Ppm_MAX) as [->|Hne]; [done|].
  assert (Hd : is_digits (digit p <$> SCALES)).
  { unfold is_digits. apply Forall_fmap, Forall_forall. intros k _. unfold digit. simpl.
    pose proof (Z.mod_pos_bound (p / k) 10). lia. }
  rewrite (fixed_point_parts _ [48] (digit p <$> SCALES)); [|done|by left|done|simpl; lia].
  rewrite bool_decide_eq_true_2 by done. do 2 f_equal.
  unfold dec_value, digit, SCALES, Ppm_MAX in *. simpl.
  Z.div_mod_to_equations. lia.
Qed.

(** ** Normalization *)

(** Adding one at each of a list of distinct positions. *)
Definition bump (out : list Z) (idxs : list nat) : list Z :=
  foldl (λ out i, alter (λ x, x + 1) i out) out idxs.

Lemma bump_length idxs out : length (bump out idxs) = length out.
Proof.
  revert out. induction idxs as [|i idxs IH]; intros out; [done|].
  simpl. unfold bump in *. simpl. by rewrite IH, length_alter.
Qed.

Lemma bump_lookup idxs out i x :
  NoDup idxs → out !! i = Some x →
  bump out idxs !! i = Some (x + (if bool_decide (i ∈ idxs) then 1 else 0)).
Proof.
  revert out x. induction idxs as [|j idxs IH]; intros out x Hn Hx.
  { rewrite bool_decide_eq_false_2 by apply not_elem_of_nil. unfold bump. cbn [foldl].
    rewrite Hx. f_equal. lia. }
  apply NoDup_cons in Hn as [Hj Hn]. unfold bump in *. simpl.
  destruct (decide (i = j)) as [->|Hij].
  - erewrite IH; [|done|by rewrite list_lookup_alter_eq, Hx].
    rewrite bool_decide_eq_false_2 by done. rewrite bool_decide_eq_true_2 by set_solver.
    f_equal. lia.
  - erewrite IH; [|done|by rewrite list_lookup_alter_ne].
    assert (Hiff : i ∈ idxs ↔ i ∈ j :: idxs) by (rewrite elem_of_cons; tauto).
    by rewrite (bool_decide_ext _ _ Hiff).
Qed.

Lemma sum_alter out i : (i < length out)%nat →
  sum_Z (alter (λ x, x + 1) i out) = sum_Z out + 1.
Proof.
  revert i. induction out as [|x out IH]; intros [|i] Hi; simpl in Hi; [lia|lia| |].
  - change (alter (λ x, x + 1) 0%nat (x :: out)) with (x + 1 :: out).
    rewrite !sum_Z_cons. lia.
  - change (alter (λ x, x + 1) (S i) (x :: out)) with (x :: alter (λ x, x + 1) i out).
    rewrite !sum_Z_cons, IH by lia. lia.
Qed.

Lemma sum_bump idxs out : Forall (λ i, i < length out)%nat idxs →
  sum_Z (bump out idxs) = sum_Z out + Z.of_nat (length idxs).
Proof.
  revert out. induction idxs as [|i idxs IH]; intros out H; [simpl; lia|].
  apply Forall_cons in H as [Hi H]. unfold bump in *. simpl. rewrite IH.
  - rewrite sum_alter by done. lia.
  - by rewrite length_alter.
Qed.

Lemma sum_scaled (vals : list Z) (S : Z) : S ≠ 0 →
  S * sum_Z ((λ x, x / S) <$> ((λ v, v * ONE) <$> vals))
    + sum_Z ((λ x, x mod S) <$> ((λ v, v * ONE) <$> vals)) = ONE * sum_Z vals.
Proof.
  intros HS. induction vals as [|v vals IH]; [simpl; lia|].
  rewrite !fmap_cons, !sum_Z_cons. pose proof (Z.div_mod (v * ONE) S HS). lia.
Qed.

Lemma sum_bounded (k : Z) l : Forall (λ x, 0 ≤ x < k) l →
  0 ≤ sum_Z l ∧ (l ≠ [] → sum_Z l < k * Z.of_nat (length l)).
Proof.
  induction 1 as [|x l Hx Hl [IH1 IH2]]; [done|]. rewrite sum_Z_cons. split; [lia|].
  intros _. rewrite length_cons. destruct (decide (l = [])) as [->|Hne]; [simpl; lia|].
  specialize (IH2 Hne). lia.
Qed.

#[export] Instance order_le_total rems : Total (order_le rems).
Proof. intros i j. unfold order_le. lia. Qed.
#[export] Instance order_le_trans rems : Transitive (order_le rems).
Proof. intros i j k. unfold order_le. lia. Qed.

Section Renormalize.
Context (vals : list Z) (S : Z).
Context (Hvals : Forall (λ v, 0 ≤ v) vals) (HS : S = sum_Z vals) (Hpos : 0 < S).

Let rems := (λ x, x mod S) <$> ((λ v, v * ONE) <$> vals).
Let quots := (λ x, x / S) <$> ((λ v, v * ONE) <$> vals).
Let short := ONE - sum_Z quots.
Let order := merge_sort (order_le rems) (seq 0 (length quots)).
Let chosen := take (Z.to_nat short) order.

Lemma renormalize_bump : renormalize vals S = bump quots chosen.
Proof. done. Qed.

Lemma length_quots : length quots = length vals.
Proof. unfold quots. by rewrite !length_fmap. Qed.

Lemma rems_range : Forall (λ x, 0 ≤ x < S) rems.
Proof.
  unfold rems. apply Forall_fmap, Forall_forall. intros x _. simpl.
  by apply Z.mod_pos_bound.
Qed.

Lemma vals_nonempty : vals ≠ [].
Proof. intros ->. simpl in HS. lia. Qed.

(** The units still missing after flooring are exactly the remainders'
    sum over [S]: no underflow, and fewer than the entries. *)
Lemma short_bounds : 0 ≤ short ∧ S * short = sum_Z rems ∧
  short < Z.of_nat (length vals).
Proof.
  pose proof (sum_scaled vals S ltac:(lia)) as H. fold quots rems in H.
  rewrite <- HS in H.
  destruct (sum_bounded S rems rems_range) as [H1 H2].
  assert (Hl : length rems = length vals) by (unfold rems; by rewrite !length_fmap).
  specialize (H2 ltac:(intros E; apply vals_nonempty; rewrite E in Hl; by destruct vals)).
  assert (Hs : S * short = sum_Z rems) by (unfold short; lia).
  rewrite Hl in H2. split_and!; [nia|done|nia].
Qed.

Lemma order_perm : order ≡ₚ seq 0 (length vals).
Proof. unfold order. rewrite length_quots. apply merge_sort_Permutation. Qed.

Lemma chosen_ok : NoDup chosen ∧ Forall (λ i, i < length quots)%nat chosen ∧
  length chosen = Z.to_nat short.
Proof.
  assert (Hn : NoDup order) by (rewrite order_perm; apply NoDup_seq).
  unfold chosen. split_and!.
  - apply (sublist_NoDup _ order); [done|apply sublist_take].
  - apply Forall_take. rewrite length_quots. apply Forall_forall. intros i Hi.
    rewrite order_perm in Hi. apply elem_of_seq in Hi. lia.
  - rewrite length_take, (Permutation_length order_perm), length_seq.
    destruct short_bounds as (_ & _ & H). lia.
Qed.

Lemma renormalize_sum : sum_Z (renormalize vals S) = ONE.
Proof.
  rewrite renormalize_bump. destruct chosen_ok as (_ & H & Hl).
  rewrite sum_bump, Hl by done. destruct short_bounds as (H0 & _). unfold short in *. lia.
Qed.

Lemma renormalize_lookup i v : vals !! i = Some v →
  renormalize vals S !! i =
    Some (v * ONE / S + if bool_decide (i ∈ chosen) then 1 else 0).
Proof.
  intros Hi. rewrite renormalize_bump. apply bump_lookup; [apply chosen_ok|].
  unfold quots. by rewrite !list_lookup_fmap, Hi.
Qed.

Lemma renormalize_length : length (renormalize vals S) = length vals.
Proof. rewrite renormalize_bump, bump_length. apply length_quots. Qed.

(** Chosen positions precede the others in the order. *)
Lemma chosen_before i j : i ∈ chosen → j ∉ chosen → (j < length vals)%nat →
  order_le rems i j.
Proof.
  intros Hi Hj Hlt.
  assert (Hjo : j ∈ order) by (rewrite order_perm; apply elem_of_seq; lia).
  rewrite <- (take_drop (Z.to_nat short) order) in Hjo.
  apply elem_of_app in Hjo as [?|Hjd]; [done|].
  assert (Hs : StronglySorted (order_le rems) order) by (apply StronglySorted_merge_sort; apply _).
  rewrite <- (take_drop (Z.to_nat short) order) in Hs.
  eapply StronglySorted_app_1_elem_of; eauto.
Qed.

Let rem (j : nat) : Z := nth j rems 0.

Lemma rem_range j : 0 ≤ rem j < S.
Proof.
  unfold rem. destruct (nth_in_or_default j rems 0) as [H| ->]; [|lia].
  pose proof rems_range as Hr. rewrite Forall_forall in Hr.
  by apply list_elem_of_In, Hr in H.
Qed.

Lemma sum_rems_order : sum_Z rems = sum_Z (rem <$> order).
Proof.
  assert (Hl : length rems = length vals) by (unfold rems; by rewrite !length_fmap).
  rewrite (sum_Z_perm _ _ (fmap_Permutation rem _ _ order_perm)), <- Hl.
  symmetry. apply sum_Z_nth.
Qed.

(** A position chosen for an extra unit has a positive remainder:
    otherwise every remainder outside the chosen ones would be zero too,
    and the chosen ones could not add up to [S * short]. *)
Lemma chosen_positive i : i ∈ chosen → 0 < rem i.
Proof.
  intros Hi. pose proof (rem_range i).
  destruct (decide (rem i = 0)) as [Hz|]; [exfalso|lia].
  destruct short_bounds as (Hs0 & Hsum & _). destruct chosen_ok as (Hnd & _ & Hlen).
  assert (Hdrop : Forall (λ j, rem j = 0) (drop (Z.to_nat short) order)).
  { apply Forall_forall. intros j Hj.
    assert (Hs : StronglySorted (order_le rems) order)
      by (apply StronglySorted_merge_sort; apply _).
    rewrite <- (take_drop (Z.to_nat short) order) in Hs.
    pose proof (StronglySorted_app_1_elem_of _ _ _ _ _ Hs Hi Hj) as Ho.
    unfold order_le in Ho. pose proof (rem_range j). unfold rem in *. lia. }
  rewrite sum_rems_order, <- (take_drop (Z.to_nat short) order), fmap_app, sum_Z_app in Hsum.
  assert (H0 : sum_Z (rem <$> drop (Z.to_nat short) order) = 0).
  { clear -Hdrop. induction Hdrop as [|j l Hj _ IH]; [done|].
    rewrite fmap_cons, sum_Z_cons. lia. }
  fold chosen in Hsum. apply elem_of_Permutation in Hi as [rest Hp].
  rewrite (sum_Z_perm _ _ (fmap_Permutation rem _ _ Hp)), fmap_cons, sum_Z_cons in Hsum.
  assert (Hr : Forall (λ x, 0 ≤ x < S) (rem <$> rest)).
  { apply Forall_fmap, Forall_forall. intros j _. apply rem_range. }
  apply sum_bounded in Hr as [Hr1 Hr2]. rewrite length_fmap in Hr2.
  apply Permutation_length in Hp. rewrite Hlen in Hp. simpl in Hp.
  destruct rest as [|j rest]; [simpl in *; nia|].
  specialize (Hr2 ltac:(done)). simpl in *. nia.
Qed.

(** Each renormalized value is less than one unit from the exact quotient. *)
Lemma renormalize_close i v p : vals !! i = Some v →
  renormalize vals S !! i = Some p → Z.abs (p * S - v * ONE) < S.
Proof.
  intros Hi. rewrite (renormalize_lookup _ _ Hi). intros [= <-].
  assert (Hrem : rem i = (v * ONE) mod S).
  { unfold rem, rems. apply nth_lookup_Some. by rewrite !list_lookup_fmap, Hi. }
  pose proof (Z.div_mod (v * ONE) S ltac:(lia)). pose proof (rem_range i).
  case_bool_decide as Hc; [apply chosen_positive in Hc|]; lia.
Qed.
End Renormalize.

(** ** The distribution [normalize] produces *)

(** Values as [probability] produces them. *)
Definition values_ok (values : list Ppm) : Prop :=
  Forall (λ p, 0 ≤ Ppm_get p ≤ Ppm_MAX) values.

Lemma values_nonneg values : values_ok values → Forall (λ v, 0 ≤ v) (Ppm_get <$> values).
Proof. intros H. apply Forall_fmap. eapply Forall_impl; [exact H|]. simpl; lia. Qed.

Lemma entries_of_ppm (labels : list Label) (ppm : list Z) :
  length labels = length ppm → Forall (λ x, 0 ≤ x) ppm → sum_Z ppm = ONE →
  (zip_with (λ l p, (l, MkPpm (Z.min p ONE))) labels ppm).*1 = labels ∧
  entry_ppm <$> zip_with (λ l p, (l, MkPpm (Z.min p ONE))) labels ppm = ppm ∧
  Forall (λ x, 0 ≤ x ≤ ONE) ppm.
Proof.
  intros Hl Hn Hs.
  assert (Hb : Forall (λ x, 0 ≤ x ≤ ONE) ppm).
  { apply Forall_forall. intros x Hx. rewrite <- Hs. split; [|by apply sum_Z_elem].
    rewrite Forall_forall in Hn. auto. }
  clear Hs Hn. split_and!; [..|done].
  - revert ppm Hl Hb. induction labels as [|l labels IH]; intros [|p ppm] Hl Hb; simplify_eq/=;
      [done|]. apply Forall_cons in Hb as [? ?]. by rewrite IH.
  - revert labels Hl. induction Hb as [|p ppm Hp _ IH]; intros [|l labels] Hl; simplify_eq/=;
      [done|]. rewrite IH by done. unfold entry_ppm. simpl. f_equal. lia.
Qed.

Lemma normalize_ppm values :
  values_ok values → 0 < sum_Z (Ppm_get <$> values) →
  let vals := Ppm_get <$> values in
  let ppm := if negb (sum_Z vals =? ONE) then renormalize vals (sum_Z vals) else vals in
  length ppm = length values ∧ Forall (λ x, 0 ≤ x) ppm ∧ sum_Z ppm = ONE ∧
  ∀ i v p, vals !! i = Some v → ppm !! i = Some p →
    Z.abs (p * sum_Z vals - v * ONE) < sum_Z vals.
Proof.
  intros Hv Hpos vals ppm. apply values_nonneg in Hv. fold vals in Hv, Hpos.
  unfold ppm. destruct (Z.eqb_spec (sum_Z vals) ONE) as [E|E]; simpl.
  - rewrite E. split_and!; [unfold vals; by rewrite length_fmap|done|done|].
    intros i v p Hi Hp. simplify_eq. rewrite Z.sub_diag. unfold ONE. lia.
  - split_and!.
    + rewrite renormalize_length. unfold vals. by rewrite length_fmap.
    + apply Forall_forall. intros x [i Hi]%list_elem_of_lookup.
      assert (i < length vals)%nat as [v Hvi]%lookup_lt_is_Some.
      { rewrite <- (renormalize_length vals (sum_Z vals)). by eapply lookup_lt_Some. }
      erewrite renormalize_lookup in Hi; [|done..]. simplify_eq.
      rewrite Forall_forall in Hv.
      assert (0 ≤ v) by (apply Hv; by eapply list_elem_of_lookup_2).
      assert (0 ≤ v * ONE / sum_Z vals) by (apply Z.div_pos; unfold ONE; lia).
      case_bool_decide; lia.
    + by apply renormalize_sum.
    + intros i v p. by apply renormalize_close.
Qed.

Lemma normalize_result labels values :
  length labels = length values → values_ok values →
  let S := sum_Z (Ppm_get <$> values) in
  match normalize labels values with
  | Ok d =>
      Z.abs (S - ONE) ≤ 50000 ∧ dist_ok labels d ∧
      (d_renormalized d = true ↔ S ≠ ONE) ∧
      (S = ONE → entry_ppm <$> entries d = Ppm_get <$> values) ∧
      (∀ i v e, values !! i = Some v → entries d !! i = Some e →
         Z.abs (entry_ppm e * S - Ppm_get v * ONE) < S)
  | Err e => e = BadSum ∧ Z.abs (S - ONE) > 50000
  end.
Proof.
  intros Hl Hv S. unfold normalize. fold S.
  destruct (negb (S =? ONE) && _) eqn:E.
  { split; [done|]. unfold ONE in *. lia. }
  assert (Htol : Z.abs (S - ONE) ≤ 50000) by (unfold ONE in *; lia). clear E.
  assert (Hpos : 0 < S) by (unfold ONE in *; lia).
  destruct (normalize_ppm values Hv Hpos) as (P1 & P2 & P3 & P4). fold S in P1, P2, P3, P4.
  set (ppm := if negb (S =? ONE) then _ else _) in *.
  destruct (entries_of_ppm labels ppm) as (E1 & E2 & E3); [congruence|done|done|].
  simpl. split_and!; [done| |destruct (Z.eqb_spec S ONE); naive_solver| |].
  - split; simpl; [done| |by rewrite E2].
    by rewrite <- E2, Forall_fmap in E3.
  - intros HS. rewrite E2. unfold ppm. by rewrite (proj2 (Z.eqb_eq _ _) HS).
  - intros i v e Hi He. apply P4 with i; [by rewrite list_lookup_fmap, Hi|].
    by rewrite <- E2, list_lookup_fmap, He.
Qed.

Lemma normalize_dist_ok labels values d :
  length labels = length values → values_ok values →
  normalize labels values = Ok d → dist_ok labels d.
Proof.
  intros Hl Hv H. pose proof (normalize_result labels values Hl Hv) as Hr.
  rewrite H in Hr. apply Hr.
Qed.

(** Normalization is exact: [normalize] accepts a vector exactly when
    its sum is within 50,000 ppm of one million, and refuses any other with
    [bad_sum]. Its result then covers exactly the labels in order and sums to
    exactly one million; an already exact vector is kept unchanged; a
    renormalized value is less than one ppm from the exact quotient
    [p * 10^6 / S]. *)
Theorem normalize_exact labels values :
  length labels = length values → values_ok values →
  let S := sum_Z (Ppm_get <$> values) in
  ((∃ d, normalize labels values = Ok d) ↔ Z.abs (S - ONE) ≤ 50000) ∧
  (∀ e, normalize labels values = Err e → e = BadSum) ∧
  (∀ d, normalize labels values = Ok d →
     dist_ok labels d ∧ (d_renormalized d = true ↔ S ≠ ONE) ∧
     (S = ONE → entry_ppm <$> entries d = Ppm_get <$> values) ∧
     (∀ i v e, values !! i = Some v → entries d !! i = Some e →
        Z.abs (entry_ppm e * S - Ppm_get v * ONE) < S)).
Proof.
  intros Hl Hv S. pose proof (normalize_result labels values Hl Hv) as Hr. fold S in Hr.
  destruct (normalize labels values) as [d|e].
  - destruct Hr as (H1 & H2). split_and!; [|done|by intros ? [= <-]].
    split; [done|by exists d].
  - destruct Hr as (-> & H2). split_and!; [|by intros ? [= <-]|done].
    split; [by intros [? ?]|lia].
Qed.

Lemma normalize_exact_witness :
  normalize [MkLabel (lit "a"); MkLabel (lit "b"); MkLabel (lit "c")]
            [MkPpm 330000; MkPpm 330000; MkPpm 330000] =
  Ok (MkDistribution [(MkLabel (lit "a"), MkPpm 333334); (MkLabel (lit "b"), MkPpm 333333);
                      (MkLabel (lit "c"), MkPpm 333333)] true) ∧
  dist_ok [MkLabel (lit "a"); MkLabel (lit "b"); MkLabel (lit "c")]
    (MkDistribution [(MkLabel (lit "a"), MkPpm 333334); (MkLabel (lit "b"), MkPpm 333333);
                     (MkLabel (lit "c"), MkPpm 333333)] true).
Proof.
  split; [vm_compute; reflexivity|].
  refine (proj1 (proj2 (proj2 (normalize_exact
    [MkLabel (lit "a"); MkLabel (lit "b"); MkLabel (lit "c")]
    [MkPpm 330000; MkPpm 330000; MkPpm 330000] eq_refl _)) _ _)).
  - repeat constructor; vm_compute; congruence.
  - vm_compute. reflexivity.
Defined.

(** Largest remainder: when an entry got an extra unit and another did
    not, its remainder is larger, or equal with an earlier registry label. *)
Theorem normalize_largest_remainder vals i j vi vj :
  let S := sum_Z vals in
  let rem v := (v * ONE) mod S in
  Forall (λ v, 0 ≤ v) vals → 0 < S →
  vals !! i = Some vi → vals !! j = Some vj →
  renormalize vals S !! i = Some (vi * ONE / S + 1) →
  renormalize vals S !! j = Some (vj * ONE / S) →
  0 < rem vi ∧ (rem vj < rem vi ∨ (rem vj = rem vi ∧ (i < j)%nat)).
Proof.
  intros S rem Hn Hpos Hi Hj Ri Rj.
  erewrite renormalize_lookup in Ri, Rj; [|done..].
  case_bool_decide as Ci; simplify_eq; [|lia]. case_bool_decide as Cj; simplify_eq; [lia|].
  pose proof (chosen_positive vals S Hn eq_refl Hpos _ Ci) as Hp. cbv beta zeta in Hp.
  pose proof (chosen_before vals S _ _ Ci Cj (lookup_lt_Some _ _ _ Hj)) as Hb.
  assert (Hr : ∀ k v, vals !! k = Some v →
    nth k ((λ x, x mod S) <$> ((λ v, v * ONE) <$> vals)) 0 = rem v).
  { intros k v Hk. apply nth_lookup_Some. by rewrite !list_lookup_fmap, Hk. }
  unfold order_le in Hb. rewrite (Hr i vi Hi) in Hb, Hp. rewrite (Hr j vj Hj) in Hb.
  split; [done|]. destruct (decide (i = j)) as [->|]; [done|lia].
Qed.

Lemma normalize_largest_remainder_witness :
  renormalize [500000; 300001; 150002] 950003 = [526314; 315790; 157896] ∧
  0 < (300001 * ONE) mod 950003.
Proof.
  split; [vm_compute; reflexivity|].
  refine (proj1 (normalize_largest_remainder [500000; 300001; 150002] 1 0 300001 500000
    _ _ eq_refl eq_refl _ _)); [repeat constructor; lia|vm_compute; reflexivity|..].
  all: vm_compute; reflexivity.
Defined.
