(* ===== verification/Decode.v ===== *)
(** * The strict reader's second pass and the decision

    The rest of [crates/nexus-typed-decision/src/decode.rs]: [members],
    [answer], [probability], [read_reply] and [decode]. *)

From S2P Require Import Prelude Registry Render Read Reader Numbers.

Local Open Scope Z_scope.
Local Open Scope nexus_scope.

(** ** Probabilities *)

Definition probability (node : Node) : result Ppm DecodeCode :=
  match node with
  | NWord word =>
      if bool_decide (word = lit "true") || bool_decide (word = lit "false")
         || bool_decide (word = lit "null")
      then Err WrongType
      else fixed_point word
  | NObject _ | NArray => Err WrongType
  | NStr _ => Err BadNumber
  end.

(** ** Matching members to the registry *)

Definition has_backslash (key : bytes) : bool := bool_decide (92 ∈ key).

Section Members.
Context {T : Type} (names : list bytes) (value_of : nat → Node → result T DecodeCode).

Fixpoint members_loop (slots : list (option T)) (nodes : list (bytes * Node))
    : result (list (option T)) DecodeCode :=
  match nodes with
  | [] => Ok slots
  | (key, node) :: nodes =>
      if has_backslash key || negb (is_ident_bytes key) then Err UnknownKey
      else
        let? i := ok_or (position (λ n, bool_decide (n = key)) names) UnknownKey in
        match slots !! i with
        | Some (Some _) => Err DuplicateKey
        | _ =>
            let? v := value_of i node in
            members_loop (<[i := Some v]> slots) nodes
        end
  end.

Definition members (nodes : list (bytes * Node)) : result (list T) DecodeCode :=
  let? slots := members_loop ((λ _, None) <$> names) nodes in
  ok_or (mapM id slots) MissingKey.
End Members.

(** The bytes a question id or a label is compared by. *)
Definition id_bytes (q : QuestionId) : bytes := as_bytes (QuestionId_as_str q).
Definition label_bytes (l : Label) : bytes := as_bytes (Label_as_str l).

(** The discrete vector: everything on the chosen label. *)
Definition one_hot (n chosen : nat) : list Ppm :=
  (λ i, MkPpm (if bool_decide (i = chosen) then Ppm_MAX else 0)) <$> seq 0 n.

Definition answer (q : Question) (mode : AnswerMode) (node : Node)
    : result Answer DecodeCode :=
  match q_kind q with
  | Noul _ =>
      match mode, node with
      | Probabilities, node => map_ok ANoul (probability node)
      | Discrete, NWord word =>
          if bool_decide (word = lit "0") then Ok (ANoul (MkPpm 0))
          else if bool_decide (word = lit "1") then Ok (ANoul (MkPpm Ppm_MAX))
          else Err WrongType
      | Discrete, _ => Err WrongType
      end
  | kind =>
      let labels := Kind_labels kind in
      let names := label_bytes <$> labels in
      let? values :=
        match mode, node with
        | Probabilities, NObject nodes => members names (λ _ n, probability n) nodes
        | Discrete, NStr raw =>
            let? chosen := ok_or (position (λ n, bool_decide (n = raw)) names) WrongType in
            Ok (one_hot (length names) chosen)
        | _, _ => Err WrongType
        end in
      let? dist := normalize labels values in
      Ok (match kind with Choice _ => AChoice dist | _ => AScore dist end)
  end.

(** ** The decision *)

Definition MAX_REPLY_BYTES : Z := 8192.

Inductive ReplyError := TooLarge | DecodeErr (code : DecodeCode).
#[export] Instance ReplyError_eq_dec : EqDecision ReplyError.
Proof. solve_decision. Defined.

Record Decision := MkDecision {
  dec_set : StaticSet;
  dec_binding : bytes;
  dec_attempt : Attempt;
  dec_renormalized : bool;
  dec_answers : list (QuestionId * Answer);
  dec_readings : list (QuestionId * Reading);
}.

Definition dec_mode (d : Decision) : AnswerMode := set_mode (static_set (dec_set d)).

Definition read_reply (set : QuestionSet) (reply : str)
    : result (list (QuestionId * Answer)) DecodeCode :=
  let? nodes := parse (as_bytes reply) in
  let questions := set_questions set in
  let names := (λ q, id_bytes (q_id q)) <$> questions in
  let? answers :=
    members names
      (λ i node, match questions !! i with
                 | Some q => answer q (set_mode set) node
                 | None => Err UnknownKey
                 end) nodes in
  Ok (zip (q_id <$> questions) answers).

Definition answer_renormalized (a : Answer) : bool :=
  match a with AChoice d | AScore d => d_renormalized d | ANoul _ => false end.

Definition decode (set : StaticSet) (reply : str) (binding : bytes) (attempt : Attempt)
    : result Decision ReplyError :=
  if MAX_REPLY_BYTES <? str_len reply then Err TooLarge
  else
    let? answers := map_err DecodeErr (read_reply (static_set set) reply) in
    let readings :=
      zip_with (λ q (p : QuestionId * Answer), (p.1, read q p.2))
        (set_questions (static_set set)) answers in
    let renormalized := existsb (λ p : QuestionId * Answer, answer_renormalized p.2) answers in
    Ok (MkDecision set binding attempt renormalized answers readings).

Example decode_doc_example :
  match decode INJ_1 (js "{`instructs_ai`:0.1}") [] First with
  | Ok d => (dec_readings d).*2 = [No]
  | Err _ => False
  end.
Proof. vm_compute. reflexivity. Qed.

Example decode_errors :
  decode INJ_1 (js "{`instructs_ai`:2}") [] First = Err (DecodeErr OutOfRange) ∧
  decode INJ_1 (js "{`instructs_ai`:1e0}") [] First = Err (DecodeErr BadNumber) ∧
  decode INJ_1 (js "{`instructs_ai`:{`a`:{}}}") [] First = Err (DecodeErr TooDeep) ∧
  decode INJ_1 (js "{}") [] First = Err (DecodeErr MissingKey) ∧
  decode INJ_1 (js "{`x`:0,`x`:0}") [] First = Err (DecodeErr DuplicateKey).
Proof. vm_compute. done. Qed.

(** ** [members] fills every registered slot exactly once *)

Section MembersSpec.
Context {T : Type} (names : list bytes) (value_of : nat → Node → result T DecodeCode).
Context (Hnames : NoDup names).
Context (Hident : Forall (λ n, is_ident_bytes n = true) names).

Abbreviation loop := (members_loop names value_of).
Implicit Types slots : list (option T).

Lemma position_name i key :
  position (λ n, bool_decide (n = key)) names = Some i ↔ names !! i = Some key.
Proof.
  rewrite position_Some. split.
  - intros [(x & Hx & E) _]. breflect. by subst.
  - intros Hi. split; [exists key; split; [done|by apply bool_decide_eq_true_2]|].
    intros j x Hj Hx. apply bool_decide_eq_false_2. intros ->.
    pose proof (NoDup_lookup _ _ _ _ Hnames Hi Hx). lia.
Qed.

Lemma key_allowed key : key ∈ names → has_backslash key || negb (is_ident_bytes key) = false.
Proof.
  intros Hk. rewrite Forall_forall in Hident. specialize (Hident _ Hk).
  rewrite Hident, orb_false_r. unfold has_backslash. apply bool_decide_eq_false_2.
  apply is_ident_bytes_spec in Hident as (b0 & rest & -> & H0 & _ & Hr).
  rewrite elem_of_cons. intros [H|H]; [lia|].
  rewrite Forall_forall in Hr. apply Hr in H. lia.
Qed.

(** What the loop did, slot by slot. *)
Lemma loop_sound nodes slots slots' :
  length slots = length names → loop slots nodes = Ok slots' →
  length slots' = length names ∧
  (∀ key, key ∈ nodes.*1 → ∃ i, names !! i = Some key ∧ slots !! i = Some None) ∧
  NoDup nodes.*1 ∧
  (∀ i key node, names !! i = Some key → (key, node) ∈ nodes →
     ∃ v, value_of i node = Ok v ∧ slots' !! i = Some (Some v)) ∧
  (∀ i key, names !! i = Some key → key ∉ nodes.*1 → slots' !! i = slots !! i).
Proof.
  revert slots. induction nodes as [|[key node] nodes IH]; intros slots Hl H; simpl in H.
  { simplify_eq. split_and!; try done; [set_solver|constructor|set_solver]. }
  case_match; [done|]. apply and_then_ok in H as (i & Hi%ok_or_ok%position_name & H).
  assert (Hsl : is_Some (slots !! i)).
  { apply lookup_lt_is_Some. rewrite Hl. by eapply lookup_lt_Some. }
  destruct (slots !! i) as [[?|]|] eqn:Es; [done| |by destruct Hsl].
  apply and_then_ok in H as (v & Hv & H).
  apply IH in H as (L & K & N & V & U); [|by rewrite length_insert].
  assert (Hnk : key ∉ nodes.*1).
  { intros Hk. apply K in Hk as (i' & Hi' & Hs').
    assert (i' = i) as -> by (eapply (NoDup_lookup names); eauto).
    rewrite list_lookup_insert_eq in Hs' by (rewrite Hl; by eapply lookup_lt_Some). done. }
  assert (Hi_len : (i < length slots)%nat) by (rewrite Hl; by eapply lookup_lt_Some).
  split_and!; [done| |by constructor| |].
  - intros k. rewrite fmap_cons, elem_of_cons. intros [->|Hk]; [by exists i|].
    apply K in Hk as (i' & Hi' & Hs'). exists i'. split; [done|].
    destruct (decide (i' = i)) as [->|]; [by rewrite list_lookup_insert_eq in Hs'|].
    by rewrite list_lookup_insert_ne in Hs'.
  - intros i' k n Hi'. rewrite elem_of_cons. intros [[= -> ->]|Hin]; [|by eapply V].
    assert (i' = i) as -> by (eapply (NoDup_lookup names); eauto).
    exists v. split; [done|]. rewrite (U i key Hi Hnk). by apply list_lookup_insert_eq.
  - intros i' k Hi' Hk. rewrite fmap_cons, elem_of_cons in Hk.
    rewrite (U i' k Hi') by tauto. apply list_lookup_insert_ne. intros ->. naive_solver.
Qed.

Lemma loop_complete nodes slots :
  length slots = length names → NoDup nodes.*1 →
  (∀ key node, (key, node) ∈ nodes → ∃ i v, names !! i = Some key ∧
     slots !! i = Some None ∧ value_of i node = Ok v) →
  ∃ slots', loop slots nodes = Ok slots'.
Proof.
  revert slots. induction nodes as [|[key node] nodes IH]; intros slots Hl Hn H; simpl.
  { by eexists. }
  rewrite fmap_cons in Hn. apply NoDup_cons in Hn as [Hk Hn].
  destruct (H key node ltac:(set_solver)) as (i & v & Hi & Hs & Hv).
  rewrite key_allowed by (by eapply list_elem_of_lookup_2).
  rewrite (proj2 (position_name i key) Hi). simpl. rewrite Hs, Hv. simpl.
  apply IH; [by rewrite length_insert|done|].
  intros k n Hin. destruct (H k n ltac:(set_solver)) as (i' & v' & Hi' & Hs' & Hv').
  exists i', v'. split_and!; [done| |done].
  rewrite list_lookup_insert_ne; [done|]. intros ->. simplify_eq.
  apply Hk. by apply (list_elem_of_fmap_2 fst) in Hin.
Qed.

(** The members are accepted exactly when their keys are the registered
    names, each once and in any order, and every value is accepted. *)
Lemma members_spec nodes vs :
  members names value_of nodes = Ok vs ↔
  nodes.*1 ≡ₚ names ∧ length vs = length names ∧
  ∀ i name, names !! i = Some name →
    ∃ node v, (name, node) ∈ nodes ∧ value_of i node = Ok v ∧ vs !! i = Some v.
Proof.
  assert (Hnone : ∀ i key, names !! i = Some key →
    ((λ _ : bytes, @None T) <$> names) !! i = Some None)
    by (intros i key Hi; by rewrite list_lookup_fmap, Hi).
  unfold members. rewrite and_then_ok. split.
  - intros (slots & Hloop & Hm). apply ok_or_ok, mapM_Some in Hm.
    apply loop_sound in Hloop as (L & K & N & V & U); [|by rewrite length_fmap].
    assert (Hperm : nodes.*1 ≡ₚ names).
    { apply NoDup_Permutation; [done|done|]. intros key. split.
      - intros (i & Hi & _)%K. by eapply list_elem_of_lookup_2.
      - intros [i Hi]%list_elem_of_lookup. destruct (decide (key ∈ nodes.*1)); [done|].
        exfalso. pose proof (U i key Hi ltac:(done)) as Hu. rewrite (Hnone _ _ Hi) in Hu.
        eapply Forall2_lookup_l in Hm as (v & _ & E); [|done]. done. }
    split_and!; [done|by rewrite <- (Forall2_length _ _ _ Hm)|].
    intros i name Hi.
    assert (Hin : name ∈ nodes.*1) by (rewrite Hperm; by eapply list_elem_of_lookup_2).
    apply list_elem_of_fmap in Hin as ([? node] & -> & Hin). simpl in *.
    destruct (V i _ node Hi Hin) as (v & Hv & Hs). exists node, v.
    split_and!; [done|done|].
    eapply Forall2_lookup_l in Hm as (v' & Hv' & E); [|exact Hs]. unfold id in E. congruence.
  - intros (Hperm & Hlen & Hval).
    assert (Hnd : NoDup nodes.*1) by (by rewrite Hperm).
    destruct (loop_complete nodes ((λ _, None) <$> names)) as [slots Hloop];
      [by rewrite length_fmap|done| |].
    { intros key node Hin.
      assert (Hk : key ∈ names)
        by (rewrite <- Hperm; by apply (list_elem_of_fmap_2 fst) in Hin).
      apply list_elem_of_lookup in Hk as [i Hi]. destruct (Hval i key Hi) as (n & v & Hn & Hv & _).
      exists i, v. split_and!; [done|by eapply Hnone|].
      by rewrite (NoDup_fmap_fst_inj nodes key node n Hnd Hin Hn). }
    exists slots. split; [done|].
    apply loop_sound in Hloop as (L & _ & _ & V & _); [|by rewrite length_fmap].
    apply ok_or_ok, mapM_Some, Forall2_same_length_lookup. split; [congruence|].
    intros i o v Ho Hv. destruct (lookup_lt_is_Some_2 names i) as [name Hi];
      [rewrite <- L; by eapply lookup_lt_Some|].
    destruct (Hval i name Hi) as (n & v' & Hn & Hv' & Hvs).
    destruct (V i name n Hi Hn) as (v'' & Hv'' & Hs). unfold id. congruence.
Qed.
End MembersSpec.

(** ** Answers *)

(** What a decoded answer promises for its question. *)
Definition answer_ok (q : Question) (a : Answer) : Prop :=
  match q_kind q, a with
  | Noul _, ANoul p => 0 ≤ Ppm_get p ≤ Ppm_MAX
  | Choice opts, AChoice d => dist_ok opts.*1 d
  | Score levels _ _, AScore d => dist_ok levels d
  | _, _ => False
  end.

Lemma probability_range node p : probability node = Ok p → 0 ≤ Ppm_get p ≤ Ppm_MAX.
Proof. destruct node; simpl; try done. case_match; [done|]. apply fixed_point_range. Qed.

Lemma one_hot_ok n chosen : length (one_hot n chosen) = n ∧ values_ok (one_hot n chosen).
Proof.
  unfold one_hot. split; [by rewrite length_fmap, length_seq|].
  apply Forall_fmap, Forall_forall. intros i _. simpl. unfold Ppm_MAX. case_bool_decide; lia.
Qed.

(** The labels of a valid question, as bytes, are distinct identifiers. *)
Lemma label_bytes_ok q set :
  registry_rules set → q ∈ set_questions set → is_noul (q_kind q) = false →
  NoDup (label_bytes <$> Kind_labels (q_kind q)) ∧
  Forall (λ n, is_ident_bytes n = true) (label_bytes <$> Kind_labels (q_kind q)).
Proof.
  intros Hr Hq Hk. split.
  - assert (Hn : NoDup (Kind_labels (q_kind q))).
    { pose proof (qr_labels _ (rr_questions _ Hr _ Hq)) as Hl.
      destruct (q_kind q); [done|naive_solver|naive_solver]. }
    apply NoDup_fmap_2_strong; [|done]. intros [x] [y] Hx Hy E.
    apply (rr_labels _ Hr q) in Hx as Hx', Hy as Hy'; [|done..].
    unfold label_bytes in E. simpl in *.
    rewrite !as_bytes_ascii in E by auto with nexus. congruence.
  - apply Forall_fmap, Forall_forall. intros l Hl. simpl.
    apply is_ident_bytes_spec. by apply (rr_labels _ Hr q).
Qed.

Lemma probabilities_ok names nodes values :
  NoDup names → Forall (λ n, is_ident_bytes n = true) names →
  members names (λ _ n, probability n) nodes = Ok values →
  length values = length names ∧ values_ok values.
Proof.
  intros Hn Hi (_ & Hl & Hv)%members_spec; [|done..]. split; [done|].
  apply Forall_forall. intros v [i Hvi]%list_elem_of_lookup.
  destruct (lookup_lt_is_Some_2 names i) as [name Hname];
    [rewrite <- Hl; by eapply lookup_lt_Some|].
  destruct (Hv i name Hname) as (node & v' & _ & Hp & Hv'). simplify_eq.
  by eapply probability_range.
Qed.

Lemma answer_sound set q node a :
  registry_rules set → q ∈ set_questions set →
  answer q (set_mode set) node = Ok a → answer_ok q a.
Proof.
  intros Hr Hq. unfold answer, answer_ok.
  destruct (is_noul (q_kind q)) eqn:Ek.
  { destruct (q_kind q); try done. destruct (set_mode set).
    - intros (p & Hp & ->)%map_ok_ok. by eapply probability_range.
    - destruct node; try done. repeat case_bool_decide; intros; simplify_eq;
        simpl; unfold Ppm_MAX; lia. }
  destruct (label_bytes_ok q set Hr Hq Ek) as [Hn Hi].
  set (names := label_bytes <$> Kind_labels (q_kind q)) in *.
  assert (Hvals : ∀ values,
    match set_mode set, node with
    | Probabilities, NObject nodes => members names (λ _ n, probability n) nodes
    | Discrete, NStr raw =>
        let? chosen := ok_or (position (λ n, bool_decide (n = raw)) names) WrongType in
        Ok (one_hot (length names) chosen)
    | _, _ => Err WrongType
    end = Ok values →
    length (Kind_labels (q_kind q)) = length values ∧ values_ok values).
  { assert (Hlen : length names = length (Kind_labels (q_kind q)))
      by (unfold names; by rewrite length_fmap).
    intros values H. destruct (set_mode set), node; try done.
    - apply probabilities_ok in H as [? ?]; [|done..]. split; [congruence|done].
    - apply and_then_ok in H as (c & _ & [= <-]). rewrite <- Hlen.
      destruct (one_hot_ok (length names) c). split; [congruence|done]. }
  destruct (q_kind q) as [|opts|levels al pol] eqn:E; [done| |];
    intros (values & Hval & H)%and_then_ok; apply and_then_ok in H as (dist & Hd & [= <-]);
    apply Hvals in Hval as [Hl Hv]; by eapply normalize_dist_ok.
Qed.

(** ** The decision *)

Section DecodeSpec.
Context (set : QuestionSet) (Hset : registry_rules set).

Let names := (λ q, id_bytes (q_id q)) <$> set_questions set.

Lemma names_ok : NoDup names ∧ Forall (λ n, is_ident_bytes n = true) names.
Proof.
  split.
  - assert (E : names = id_bytes <$> set_keys set)
      by (unfold names, set_keys; by rewrite <- list_fmap_compose).
    rewrite E. apply NoDup_fmap_2_strong; [|apply (rr_distinct _ Hset)].
    unfold set_keys. intros [x] [y] (q1 & E1 & Hq1)%list_elem_of_fmap
      (q2 & E2 & Hq2)%list_elem_of_fmap Eb.
    apply (rr_question_ids _ Hset) in Hq1, Hq2. rewrite <- E1 in Hq1. rewrite <- E2 in Hq2.
    unfold id_bytes in Eb. simpl in *.
    rewrite !as_bytes_ascii in Eb by auto with nexus. congruence.
  - unfold names. apply Forall_fmap, Forall_forall. intros q Hq. simpl.
    apply is_ident_bytes_spec. by apply (rr_question_ids _ Hset).
Qed.

(** The answers of a document, question by question. *)
Definition document_answers (ms : list (bytes * Node)) (ans : list Answer) : Prop :=
  length ans = length (set_questions set) ∧
  ∀ i q, set_questions set !! i = Some q → ∃ node a,
    (id_bytes (q_id q), node) ∈ ms ∧ answer q (set_mode set) node = Ok a ∧
    ans !! i = Some a.

Lemma read_reply_spec reply answers :
  read_reply set reply = Ok answers ↔
  ∃ ms ans, document (as_bytes reply) ms ∧ ms.*1 ≡ₚ names ∧ document_answers ms ans ∧
    answers = zip (set_keys set) ans.
Proof.
  destruct names_ok as [Hn Hi].
  assert (Hlen : length names = length (set_questions set))
    by (unfold names; by rewrite length_fmap).
  assert (Hm : ∀ ms ans,
    members names (λ i node, match set_questions set !! i with
                             | Some q => answer q (set_mode set) node
                             | None => Err UnknownKey end) ms = Ok ans ↔
    ms.*1 ≡ₚ names ∧ document_answers ms ans).
  { intros ms ans. rewrite members_spec by done. unfold document_answers. rewrite Hlen.
    apply and_iff_compat_l, and_iff_compat_l. split.
    - intros H i q Hq. destruct (H i (id_bytes (q_id q))) as (node & a & ? & Ha & ?);
        [unfold names; by rewrite list_lookup_fmap, Hq|]. rewrite Hq in Ha. eauto.
    - intros H i name Hname. unfold names in Hname. rewrite list_lookup_fmap in Hname.
      destruct (set_questions set !! i) as [q|] eqn:Hq; simplify_eq/=.
      destruct (H i q Hq) as (node & a & ? & Ha & ?). eauto. }
  unfold read_reply. fold names. rewrite and_then_ok. setoid_rewrite and_then_ok.
  setoid_rewrite parse_spec. setoid_rewrite Hm. split.
  - intros (ms & Hd & ans & (Hp & Ha) & [= <-]). eauto 10.
  - intros (ms & ans & Hd & Hp & Ha & ->). exists ms. split; [done|].
    exists ans. split; done.
Qed.
End DecodeSpec.


(** C2. Acceptance: a reply is accepted exactly when it is at most 8192
    bytes, is a document of the grammar, its keys are the question ids of the
    set (each once, in any order), and every value is an accepted answer to
    its question; the decision then holds those answers in registry order. *)
Theorem decode_accepts_iff set reply binding attempt answers :
  registry_rules (static_set set) →
  (∃ d, decode set reply binding attempt = Ok d ∧ dec_answers d = answers) ↔
  str_len reply ≤ MAX_REPLY_BYTES ∧
  ∃ ms ans, document (as_bytes reply) ms ∧
    ms.*1 ≡ₚ (λ q, id_bytes (q_id q)) <$> set_questions (static_set set) ∧
    document_answers (static_set set) ms ans ∧
    answers = zip (set_keys (static_set set)) ans.
Proof.
  intros Hr. unfold decode. rewrite <- read_reply_spec by done. split.
  - intros (d & H & <-). case_match; [done|]. breflect. invert_ok. by subst.
  - intros [Hl H]. rewrite (proj2 (Z.ltb_ge _ _) Hl), H. simpl. by eexists.
Qed.

(** A registered set satisfies the registry rules. *)
Lemma registered_rules : registry_rules (static_set INJ_1) ∧
  registry_rules (static_set VER_1) ∧ registry_rules (static_set SEN_1).
Proof. split_and!; apply validate_ok; vm_compute; reflexivity. Qed.

Lemma decode_accepts_iff_witness :
  str_len (js "{`instructs_ai`:0.1}") ≤ MAX_REPLY_BYTES ∧
  ∃ ms ans, document (as_bytes (js "{`instructs_ai`:0.1}")) ms ∧
    ms.*1 ≡ₚ (λ q, id_bytes (q_id q)) <$> set_questions (static_set INJ_1) ∧
    document_answers (static_set INJ_1) ms ans ∧
    [(MkQuestionId (lit "instructs_ai"), ANoul (MkPpm 100000))] =
    zip (set_keys (static_set INJ_1)) ans.
Proof.
  apply (proj1 (decode_accepts_iff INJ_1 (js "{`instructs_ai`:0.1}") [] First
    [(MkQuestionId (lit "instructs_ai"), ANoul (MkPpm 100000))] (proj1 registered_rules))).
  eexists. split; vm_compute; reflexivity.
Defined.

(** What a successful decoding promises. *)
Lemma decode_ok_inv set reply binding attempt d :
  registry_rules (static_set set) →
  decode set reply binding attempt = Ok d →
  let questions := set_questions (static_set set) in
  dec_set d = set ∧ dec_binding d = binding ∧ dec_attempt d = attempt ∧
  (dec_answers d).*1 = set_keys (static_set set) ∧
  Forall2 (λ q p, answer_ok q p.2) questions (dec_answers d) ∧
  dec_readings d = zip_with (λ q p, (q_id q, read q p.2)) questions (dec_answers d) ∧
  (dec_renormalized d = true ↔ ∃ p, p ∈ dec_answers d ∧ answer_renormalized p.2 = true).
Proof.
  intros Hr H questions. unfold decode in H. case_match; [done|]. invert_ok. subst d.
  apply read_reply_spec in H1 as (ms & ans & _ & _ & (Hl & Ha) & ->); [|done]. cbn -[read].
  assert (Hlen : length (set_keys (static_set set)) = length ans)
    by (unfold set_keys; by rewrite length_fmap).
  split_and!; try done.
  - apply fst_zip. lia.
  - apply Forall2_same_length_lookup. split; [by rewrite length_zip, <- Hlen, Nat.min_id; unfold set_keys; rewrite length_fmap|].
    intros i q [k a] Hq Hp. apply lookup_zip_Some in Hp as [_ Hp].
    destruct (Ha i q Hq) as (node & a' & _ & Hans & Hi). simplify_eq/=.
    eapply answer_sound; [done| |done]. by eapply list_elem_of_lookup_2.
  - fold questions. unfold set_keys, questions in *. clear -Hl. revert ans Hl.
    induction (set_questions (static_set set)) as [|q qs IH]; intros [|a ans] Hl;
      simplify_eq/=; [done|]. by rewrite IH.
  - rewrite existsb_exists. split; intros (p & Hp & Hx); exists p; split; try done;
      by apply list_elem_of_In.
Qed.

(** The decision invariant: a decision carries the set, the binding and
    the attempt it was decoded for; one answer per question in registry
    order, each well formed for the question's kind (in range, or a vector
    over exactly its labels that sums to one million); every reading is the
    question's policy applied to its answer; and the renormalized flag says
    whether any vector was rescaled. *)
Theorem decode_invariant set reply binding attempt d :
  registry_rules (static_set set) →
  decode set reply binding attempt = Ok d →
  let questions := set_questions (static_set set) in
  dec_set d = set ∧ dec_binding d = binding ∧ dec_attempt d = attempt ∧
  (dec_answers d).*1 = set_keys (static_set set) ∧
  Forall2 (λ q p, answer_ok q p.2) questions (dec_answers d) ∧
  dec_readings d = zip_with (λ q p, (q_id q, read q p.2)) questions (dec_answers d) ∧
  (dec_renormalized d = true ↔ ∃ p, p ∈ dec_answers d ∧ answer_renormalized p.2 = true).
Proof. apply decode_ok_inv. Qed.

Lemma decode_invariant_witness :
  (dec_answers (MkDecision INJ_1 [7] Second false
     [(MkQuestionId (lit "instructs_ai"), ANoul (MkPpm 100000))]
     [(MkQuestionId (lit "instructs_ai"), No)])).*1 = set_keys (static_set INJ_1).
Proof.
  refine (proj1 (proj2 (proj2 (proj2 (decode_invariant INJ_1 (js "{`instructs_ai`:0.1}") [7]
    Second _ (proj1 registered_rules) _))))).
  vm_compute. reflexivity.
Defined.

(** ** Printing a reply *)

(** The canonical spelling of answers as one JSON object. *)
Definition print_member (m : bytes * bytes) : bytes := 34 :: m.1 ++ 34 :: 58 :: m.2.
Definition print_object (ms : list (bytes * bytes)) : bytes :=
  123 :: join [44] (print_member <$> ms) ++ [125].
Definition print_entries (d : Distribution) : list (bytes * bytes) :=
  (λ e, (label_bytes e.1, print_ppm (entry_ppm e))) <$> entries d.
Definition print_answer (a : Answer) : bytes :=
  match a with
  | ANoul p => print_ppm (Ppm_get p)
  | AChoice d | AScore d => print_object (print_entries d)
  end.
Definition print_reply (answers : list (QuestionId * Answer)) : bytes :=
  print_object ((λ p, (id_bytes p.1, print_answer p.2)) <$> answers).

(** The node the parser builds for a printed answer. *)
Definition node_entries (d : Distribution) : list (bytes * Node) :=
  (λ e, (label_bytes e.1, NWord (print_ppm (entry_ppm e)))) <$> entries d.
Definition answer_node (a : Answer) : Node :=
  match a with
  | ANoul p => NWord (print_ppm (Ppm_get p))
  | AChoice d | AScore d => NObject (node_entries d)
  end.

Lemma print_ppm_word p : 0 ≤ p ≤ Ppm_MAX →
  print_ppm p ≠ [] ∧ Forall (λ c, is_word c = true) (print_ppm p) ∧
  Forall (λ c, 48 ≤ c ≤ 57 ∨ c = 46) (print_ppm p).
Proof.
  intros Hp. assert (Hd : Forall (λ c, 48 ≤ c ≤ 57 ∨ c = 46) (print_ppm p)).
  { unfold print_ppm, digit. case_match; [repeat constructor; lia|].
    constructor; [lia|]. constructor; [lia|]. apply Forall_fmap, Forall_forall.
    intros k _. simpl. left. pose proof (Z.mod_pos_bound (p / k) 10). lia. }
  split_and!; [unfold print_ppm; by case_match| |done].
  eapply Forall_impl; [done|]. intros c. simpl. unfold is_word, is_ascii_alphanumeric, is_ascii_digit.
  intros [H| ->]; [|done]. rewrite (proj2 (Z.leb_le 48 c)), (proj2 (Z.leb_le c 57)) by lia.
  simpl. by rewrite !orb_true_r.
Qed.

Lemma value_at_word d x : x ≠ [] → Forall (λ c, is_word c = true) x → value_at d x (NWord x).
Proof. intros. by apply (va_word d []); [constructor|..]. Qed.

Lemma ident_str_raw k : is_ident_bytes k = true → str_raw k.
Proof.
  intros (b0 & rest & -> & H0 & _ & Hr)%is_ident_bytes_spec.
  constructor; [lia..|]. induction Hr; constructor; [lia..|done].
Qed.

Lemma members_at_print d ms ns :
  ms ≠ [] →
  Forall2 (λ m n, m.1 = n.1 ∧ is_ident_bytes n.1 = true ∧ value_at d m.2 n.2) ms ns →
  members_at d (join [44] (print_member <$> ms) ++ [125]) ns.
Proof.
  intros Hne H. induction H as [|[k vt] [? v] ms ns (E & Hk & Hv) H IH]; [done|].
  simpl in *. subst k. apply ident_str_raw in Hk.
  destruct H as [|m n ms ns Hmn H].
  - simpl. unfold print_member. norm_app.
    by apply (ma_last d [] _ [] vt v []); try constructor.
  - rewrite !fmap_cons in IH |- *. specialize (IH ltac:(done)).
    change (join [44] (?a :: ?b :: ?l)) with (a ++ 44 :: join [44] (b :: l)).
    remember (join [44] (print_member m :: (print_member <$> ms))) as tl eqn:Etl. clear Etl.
    unfold print_member. norm_app.
    by apply (ma_more d [] _ [] vt v []); try constructor.
Qed.

Lemma entries_print (labels : list Label) d :
  dist_ok labels d → Forall (λ n, is_ident_bytes n = true) (label_bytes <$> labels) →
  Forall2 (λ m n, m.1 = n.1 ∧ is_ident_bytes n.1 = true ∧ value_at 2 m.2 n.2)
    (print_entries d) (node_entries d).
Proof.
  intros [Hl Hr _] Hi. unfold print_entries, node_entries.
  apply Forall2_fmap, Forall_Forall2_diag, Forall_forall. intros e He. simpl.
  rewrite <- Hl, <- list_fmap_compose in Hi. rewrite Forall_fmap, Forall_forall in Hi.
  rewrite Forall_forall in Hr. apply Hr in He as Hp. apply print_ppm_word in Hp as (? & ? & _).
  split_and!; [done|by apply Hi|by apply value_at_word].
Qed.

Lemma node_entries_keys labels d : dist_ok labels d → (node_entries d).*1 = label_bytes <$> labels.
Proof.
  intros [Hl _ _]. unfold node_entries. rewrite <- Hl, <- !list_fmap_compose. done.
Qed.

Lemma entries_value labels d w :
  dist_ok labels d → labels ≠ [] → NoDup (label_bytes <$> labels) →
  Forall (λ n, is_ident_bytes n = true) (label_bytes <$> labels) →
  w = print_object (print_entries d) → value_at 1 w (NObject (node_entries d)).
Proof.
  intros Hd Hne Hn Hi ->. apply (va_object 1 []); [unfold MAX_DEPTH; lia|constructor| |].
  - apply members_at_print; [|by eapply entries_print].
    unfold print_entries. destruct Hd as [Hl _ _]. destruct (entries d); [by subst|done].
  - by erewrite node_entries_keys.
Qed.

Lemma word_probability p : 0 ≤ Ppm_get p ≤ Ppm_MAX →
  probability (NWord (print_ppm (Ppm_get p))) = Ok p.
Proof.
  intros Hp. destruct p as [p]. simpl in *.
  destruct (print_ppm_word p Hp) as (_ & _ & Hc).
  repeat case_bool_decide; simpl; try (by apply fixed_point_print);
    match goal with E : print_ppm _ = _ |- _ => rewrite E in Hc; vm_compute in Hc end;
    inversion Hc; naive_solver lia.
Qed.

(** Reading back the entries of an exact vector. *)
Lemma probabilities_print labels d :
  dist_ok labels d → NoDup (label_bytes <$> labels) →
  Forall (λ n, is_ident_bytes n = true) (label_bytes <$> labels) →
  members (label_bytes <$> labels) (λ _ n, probability n) (node_entries d) =
  Ok (entries d).*2.
Proof.
  intros Hd Hn Hi. apply members_spec; [done..|]. pose proof Hd as [Hl Hr _].
  split_and!; [by erewrite node_entries_keys|by rewrite <- Hl, !length_fmap|].
  intros i name Hname. rewrite <- Hl, <- list_fmap_compose, list_lookup_fmap in Hname.
  destruct (entries d !! i) as [e|] eqn:He; simplify_eq/=.
  exists (NWord (print_ppm (entry_ppm e))), e.2. split_and!.
  - unfold node_entries. apply list_elem_of_fmap. exists e. split; [done|].
    by eapply list_elem_of_lookup_2.
  - rewrite Forall_forall in Hr. specialize (Hr e (list_elem_of_lookup_2 _ _ _ He)).
    by apply word_probability.
  - by rewrite list_lookup_fmap, He.
Qed.

Lemma normalize_print labels d :
  dist_ok labels d → d_renormalized d = false → normalize labels (entries d).*2 = Ok d.
Proof.
  intros Hd Hf. pose proof Hd as [Hl Hr Hs].
  assert (E : Ppm_get <$> (entries d).*2 = entry_ppm <$> entries d)
    by (by rewrite <- list_fmap_compose).
  assert (Hv : values_ok (entries d).*2) by (by apply Forall_fmap).
  pose proof (normalize_result labels (entries d).*2 ltac:(by rewrite <- Hl, !length_fmap) Hv) as H.
  rewrite E, Hs in H. destruct (normalize labels _) as [d'|e]; [|vm_compute in H; naive_solver].
  destruct H as (_ & Hd' & Hren & Hsame & _). specialize (Hsame eq_refl).
  destruct d as [es f], d' as [es' f']. simpl in *. subst f.
  assert (f' = false) as -> by (destruct f'; [exfalso; by apply Hren|done]).
  do 2 f_equal. pose proof (dist_labels _ _ Hd') as Hl'. simpl in Hl'. rewrite <- Hl in Hl'.
  clear -Hsame Hl'. revert es' Hsame Hl'.
  induction es as [|[l [p]] es IH]; intros [|[l' [p']] es'] Hp Hl; simplify_eq/=; [done|].
  f_equal; [by unfold entry_ppm in *; simplify_eq/=|by apply IH].
Qed.

#[local] Arguments probability : simpl never.

Section Print.
Context (set : QuestionSet) (Hset : registry_rules set) (Hmode : set_mode set = Probabilities).
Context (q : Question) (Hq : q ∈ set_questions set).
Context (a : Answer) (Ha : answer_ok q a) (Hr : answer_renormalized a = false).

Lemma labels_nonempty : is_noul (q_kind q) = false → Kind_labels (q_kind q) ≠ [].
Proof.
  pose proof (qr_labels _ (rr_questions _ Hset _ Hq)) as Hl.
  destruct (q_kind q) as [|opts|levels al pol]; [done| |]; simpl in *; intros _ E;
    destruct Hl as [Hl _]; rewrite E in Hl; simpl in Hl; lia.
Qed.

(** The printed answer is read back as the answer, by the parser's grammar
    and by [answer]. *)
Lemma answer_print :
  value_at 1 (print_answer a) (answer_node a) ∧
  answer q (set_mode set) (answer_node a) = Ok a.
Proof.
  pose proof (label_bytes_ok q set Hset Hq) as Hlb. pose proof labels_nonempty as Hne.
  rewrite Hmode. unfold answer_ok in Ha. unfold answer.
  destruct (q_kind q) as [pol|opts|levels al pol], a as [p|d|d]; try done; simpl in *.
  - split; [|by rewrite word_probability].
    apply print_ppm_word in Ha as (? & ? & _). by apply value_at_word.
  - destruct Hlb as [Hn Hi]; [done|].
    split; [by eapply entries_value; eauto|].
    rewrite probabilities_print by done. simpl. by rewrite normalize_print.
  - destruct Hlb as [Hn Hi]; [done|].
    split; [by eapply entries_value; eauto|].
    rewrite probabilities_print by done. simpl. by rewrite normalize_print.
Qed.
End Print.

Lemma join_ascii ss : Forall is_ascii ss → is_ascii (join [44] ss).
Proof.
  induction 1 as [|x ss Hx Hss IH]; [constructor|].
  destruct ss as [|y ss]; [done|].
  change (is_ascii (x ++ 44 :: join [44] (y :: ss))).
  apply Forall_app. split; [done|]. constructor; [lia|done].
Qed.

Lemma print_object_ascii ms :
  Forall (λ m, is_ascii m.1 ∧ is_ascii m.2) ms → is_ascii (print_object ms).
Proof.
  intros H. unfold print_object, is_ascii. constructor; [lia|].
  apply Forall_app. split; [|repeat constructor; lia]. apply join_ascii, Forall_fmap.
  eapply Forall_impl; [done|]. intros [k v] [Hk Hv]. unfold print_member. simpl in *.
  constructor; [lia|]. apply Forall_app. split; [done|]. do 2 (constructor; [lia|]). done.
Qed.

Lemma print_ppm_ascii p : 0 ≤ p ≤ Ppm_MAX → is_ascii (print_ppm p).
Proof.
  intros (_ & _ & H)%print_ppm_word. eapply Forall_impl; [done|]. simpl. lia.
Qed.

Lemma print_entries_ascii labels d :
  dist_ok labels d → Forall (λ n, is_ident_bytes n = true) (label_bytes <$> labels) →
  is_ascii (print_object (print_entries d)).
Proof.
  intros [Hl Hr _] Hi. apply print_object_ascii, Forall_fmap, Forall_forall. intros e He. simpl.
  rewrite <- Hl, <- list_fmap_compose in Hi. rewrite Forall_fmap, Forall_forall in Hi.
  rewrite Forall_forall in Hr.
  split; [by apply is_ident_bytes_ascii, Hi|by apply print_ppm_ascii, Hr].
Qed.

Lemma print_answer_ascii set q a :
  registry_rules set → q ∈ set_questions set → answer_ok q a → is_ascii (print_answer a).
Proof.
  intros Hr Hq Ha. pose proof (label_bytes_ok q set Hr Hq) as Hlb. unfold answer_ok in Ha.
  destruct (q_kind q), a; try done; simpl in *;
    [by apply print_ppm_ascii|by eapply print_entries_ascii; [|apply Hlb]..].
Qed.

Section PrintReply.
Context (set : QuestionSet) (Hset : registry_rules set) (Hmode : set_mode set = Probabilities).
Context (answers : list Answer).
Context (Hans : Forall2 (λ q a, answer_ok q a ∧ answer_renormalized a = false)
                  (set_questions set) answers).
Context (printed : list (QuestionId * Answer)) (Hperm : printed ≡ₚ zip (set_keys set) answers).

Lemma keys_answers_length : length (set_keys set) = length answers.
Proof. unfold set_keys. rewrite length_fmap. by eapply Forall2_length. Qed.

Lemma printed_question k a : (k, a) ∈ printed →
  ∃ q, q ∈ set_questions set ∧ k = q_id q ∧ answer_ok q a ∧ answer_renormalized a = false.
Proof.
  rewrite Hperm. intros [i [Hk Hi]%lookup_zip_Some]%list_elem_of_lookup.
  unfold set_keys in Hk. apply list_lookup_fmap_Some in Hk as (q & -> & Hq).
  eapply Forall2_lookup_lr in Hans as [? ?]; [|done..].
  exists q. split; [by eapply list_elem_of_lookup_2|done].
Qed.

Lemma id_ident q : q ∈ set_questions set → is_ident_bytes (id_bytes (q_id q)) = true.
Proof. intros Hq. by apply is_ident_bytes_spec, (rr_question_ids _ Hset). Qed.

Lemma print_reply_ascii : is_ascii (print_reply printed).
Proof.
  apply print_object_ascii, Forall_fmap, Forall_forall. intros [k a] Hin. simpl.
  apply printed_question in Hin as (q & Hq & -> & Ha & _).
  split; [by apply is_ident_bytes_ascii, id_ident|by eapply print_answer_ascii].
Qed.

Lemma printed_nonempty : printed ≠ [].
Proof.
  intros E. rewrite E in Hperm. apply Permutation_nil in Hperm.
  pose proof (rr_nonempty _ Hset) as Hne. pose proof keys_answers_length as Hl.
  unfold set_keys in *. destruct (set_questions set), answers; done.
Qed.

Let nodes := (λ p : QuestionId * Answer, (id_bytes p.1, answer_node p.2)) <$> printed.

Lemma nodes_keys : nodes.*1 ≡ₚ (λ q, id_bytes (q_id q)) <$> set_questions set.
Proof.
  unfold nodes. rewrite <- list_fmap_compose, Hperm.
  assert (E : fst ∘ (λ p : QuestionId * Answer, (id_bytes p.1, answer_node p.2)) = id_bytes ∘ fst)
    by done.
  rewrite E, list_fmap_compose, fst_zip by (rewrite keys_answers_length; lia).
  unfold set_keys. by rewrite <- list_fmap_compose.
Qed.

Lemma print_reply_document : document (print_reply printed) nodes.
Proof.
  unfold print_reply, print_object.
  rewrite <- (app_nil_r (join _ _ ++ _)). rewrite <- app_assoc, (app_assoc _ [125] []).
  apply (doc_members [] _ nodes []); [constructor| | |constructor].
  - apply members_at_print.
    + pose proof printed_nonempty as Hne. by destruct printed.
    + unfold nodes. apply Forall2_fmap, Forall_Forall2_diag, Forall_forall.
      intros [k a] (q & Hq & -> & Ha & Hren)%printed_question. simpl.
      split_and!; [done|by apply id_ident|]. by eapply answer_print.
  - rewrite nodes_keys. by apply names_ok.
Qed.

Lemma read_reply_print : read_reply set (print_reply printed) = Ok (zip (set_keys set) answers).
Proof.
  apply read_reply_spec; [done|]. exists nodes, answers.
  rewrite as_bytes_ascii by apply print_reply_ascii.
  split_and!; [apply print_reply_document|apply nodes_keys| |done].
  split; [symmetry; by eapply Forall2_length|].
  intros i q Hq. eapply Forall2_lookup_l in Hans as (a & Hi & Ha & Hren); [|done].
  exists (answer_node a), a. split_and!; [| |done].
  - unfold nodes. apply list_elem_of_fmap. exists (q_id q, a). split; [done|].
    rewrite Hperm. apply list_elem_of_lookup. exists i. apply lookup_zip_Some.
    split; [|done]. unfold set_keys. by rewrite list_lookup_fmap, Hq.
  - eapply answer_print; try done. by eapply list_elem_of_lookup_2.
Qed.
End PrintReply.

(** C19. Round trip: for a set in probability mode, any well-formed answers
    printed in canonical form, in any order of the members, decode to exactly
    those answers in registry order, without renormalization, read by each
    question's policy. *)
Theorem decode_roundtrip set binding attempt answers printed :
  registry_rules (static_set set) →
  set_mode (static_set set) = Probabilities →
  Forall2 (λ q a, answer_ok q a ∧ answer_renormalized a = false)
    (set_questions (static_set set)) answers →
  printed ≡ₚ zip (set_keys (static_set set)) answers →
  Z.of_nat (length (print_reply printed)) ≤ MAX_REPLY_BYTES →
  decode set (print_reply printed) binding attempt =
  Ok (MkDecision set binding attempt false (zip (set_keys (static_set set)) answers)
        (zip_with (λ q a, (q_id q, read q a)) (set_questions (static_set set)) answers)).
Proof.
  intros Hr Hm Ha Hp Hl. unfold decode, str_len.
  rewrite as_bytes_ascii by (by eapply print_reply_ascii).
  rewrite (proj2 (Z.ltb_ge _ _) Hl). erewrite read_reply_print by done.
  cbn [map_err and_then]. f_equal. f_equal.
  - unfold set_keys. clear -Ha. induction Ha as [|q a qs as' [_ H] _ IH]; [done|].
    simpl. rewrite H. exact IH.
  - unfold set_keys. clear -Ha. induction Ha as [|q a qs as' _ _ IH]; [done|].
    simpl. f_equal. exact IH.
Qed.

Lemma decode_roundtrip_witness :
  let answers := [ANoul (MkPpm 0); ANoul (MkPpm 1000000); ANoul (MkPpm 123456)] in
  decode VER_1 (print_reply (reverse (zip (set_keys (static_set VER_1)) answers))) [1] First =
  Ok (MkDecision VER_1 [1] First false (zip (set_keys (static_set VER_1)) answers)
        (zip_with (λ q a, (q_id q, read q a)) (set_questions (static_set VER_1)) answers)).
Proof.
  intros answers. apply decode_roundtrip.
  - apply registered_rules.
  - reflexivity.
  - repeat constructor; vm_compute; congruence.
  - apply reverse_Permutation.
  - vm_compute. congruence.
Defined.
