(* ===== verification/Projection.v ===== *)
(** * Projections, the character profile, the inventory and the frame

    [crates/nexus-typed-decision/src/projection.rs]: the two projections, the
    canonical JSON encoding with [td-escape-v1] inside every string literal,
    the frame [td-frame-v1], the character profile [td-chars-v1] and the
    inventory of sensitive spellings. *)

From S2P Require Import Prelude Registry Render.

Local Open Scope Z_scope.
Local Open Scope nexus_scope.

(** ** Data *)

Record Facts := MkFacts { f_name : str; f_hours : list str; f_phone : str }.

Inductive Element := H1 | H2 | H3 | P | Li | Address.

Definition Element_code (e : Element) : str :=
  match e with
  | H1 => lit "h1" | H2 => lit "h2" | H3 => lit "h3"
  | P => lit "p" | Li => lit "li" | Address => lit "address"
  end.

Record PageTextV1 := MkPageTextV1 {
  p_facts : Facts;
  p_title : str;
  p_text : list (Element * str);
}.

Inductive NoteSource := OwnerNote.

Definition NoteSource_code (s : NoteSource) : str :=
  match s with OwnerNote => lit "owner_note" end.

Record UntrustedTextV1 := MkUntrustedTextV1 { u_source : NoteSource; u_text : str }.

Inductive Projection :=
| PageText (p : PageTextV1)
| UntrustedText (u : UntrustedTextV1).

Definition Projection_id (p : Projection) : ProjectionId :=
  match p with
  | PageText _ => PageTextV1Id
  | UntrustedText _ => UntrustedTextV1Id
  end.

Definition strings (p : Projection) : list str :=
  match p with
  | PageText (MkPageTextV1 (MkFacts name hours phone) title text) =>
      [name; phone; title] ++ hours ++ text.*2
  | UntrustedText (MkUntrustedTextV1 _ text) => [text]
  end.

Definition allows_line_breaks (p : Projection) : bool :=
  match p with UntrustedText _ => true | PageText _ => false end.

Definition source_text_bytes (p : Projection) : Z :=
  match p with
  | PageText p => str_len (p_title p) + sum_Z ((λ b, str_len b.2) <$> p_text p)
  | UntrustedText u => str_len (u_text u)
  end.

(** ** Encoding *)

Definition BACKSLASH : Z := 92.

(** [format!("u{n:04x}")] for a control character. *)
Definition hex_digit (n : Z) : Z := if n <? 10 then 48 + n else 87 + n.
Definition hex4 (n : Z) : str :=
  [117; hex_digit ((n / 4096) mod 16); hex_digit ((n / 256) mod 16);
   hex_digit ((n / 16) mod 16); hex_digit (n mod 16)].

(** What [put_str] appends for one character. *)
Definition escape_char (c : Z) : str :=
  if (c =? 34) || (c =? 92) then [BACKSLASH; c]
  else if c =? 60 then BACKSLASH :: lit "u003c"
  else if c =? 62 then BACKSLASH :: lit "u003e"
  else if c <? 32 then
    BACKSLASH ::
    (if c =? 8 then lit "b"
     else if c =? 9 then lit "t"
     else if c =? 10 then lit "n"
     else if c =? 12 then lit "f"
     else if c =? 13 then lit "r"
     else hex4 c)
  else [c].
Definition escape (s : str) : str := s ≫= escape_char.
Definition put_str (s : str) : str := [34] ++ escape s ++ [34].

(** A loop that pushes a comma before every item but the first. *)
Definition comma_separated (items : list str) : str := join (lit ",") items.

Definition encode_block (b : Element * str) : str :=
  lit "[" ++ put_str (Element_code b.1) ++ lit "," ++ put_str b.2 ++ lit "]".

Definition encode (p : Projection) : str :=
  js "{`projection`:" ++ put_str (ProjectionId_id (Projection_id p)) ++
  match p with
  | PageText p =>
      js ",`complete`:true,`facts`:{`name`:" ++ put_str (f_name (p_facts p)) ++
      js ",`hours`:[" ++ comma_separated (put_str <$> f_hours (p_facts p)) ++
      js "],`phone`:" ++ put_str (f_phone (p_facts p)) ++
      js "},`title`:" ++ put_str (p_title p) ++
      js ",`text`:[" ++ comma_separated (encode_block <$> p_text p) ++ js "]}"
  | UntrustedText u =>
      js ",`source`:" ++ put_str (NoteSource_code (u_source u)) ++
      js ",`complete`:true,`text`:" ++ put_str (u_text u) ++ js "}"
  end.

(** ** The character profile, the frame and the inventory *)

Definition in_range (lo hi c : Z) : bool := (lo <=? c) && (c <=? hi).

Definition in_profile (c : Z) (line_breaks : bool) : bool :=
  in_range 0x20 0x7e c || in_range 0xa1 0xac c || in_range 0xae 0xff c
  || in_range 0x100 0x17f c || in_range 0x2012 0x2014 c || in_range 0x2018 0x201f c
  || (c =? 0x2022) || (c =? 0x2026) || (c =? 0x20ac) || (c =? 0x2122)
  || (line_breaks && ((c =? 10) || (c =? 9))).

Definition frame (encoded : str) : str :=
  lit "<document>" ++ newline ++ encoded ++ newline ++ lit "</document>".

Record Inventory := MkInventory { spellings : list str }.

(** [Inventory::new]: [None] is a failed [assert!]. *)
Definition Inventory_new (ss : list str) : option Inventory :=
  if bool_decide (ss = []) then None
  else if forallb (λ s : str, negb (bool_decide (s = []))) ss then Some (MkInventory ss)
  else None.

Definition occurs_in (inv : Inventory) (text : str) : bool :=
  existsb (contains text) (spellings inv).

Lemma occurs_in_spec inv text :
  occurs_in inv text = false ↔ ∀ s, s ∈ spellings inv → ∀ a b, text ≠ a ++ s ++ b.
Proof.
  unfold occurs_in. rewrite <- not_true_iff_false, existsb_exists. split.
  - intros H s Hs a b ->. apply H. exists s. split; [by apply list_elem_of_In|].
    apply contains_spec. by exists a, b.
  - intros H (s & Hs%list_elem_of_In & (a & b & ->)%contains_spec). by apply (H s Hs a b).
Qed.

(** ** Reading the encoding back *)



Definition projection_ok (p : Projection) : Prop := Forall is_text_str (strings p).

(** The value of a hexadecimal digit. *)
Definition hex_value (d : Z) : option Z :=
  if in_range 48 57 d then Some (d - 48)
  else if in_range 97 102 d then Some (d - 87)
  else if in_range 65 70 d then Some (d - 55)
  else None.

(** A JSON string literal's content, read by the JSON rules up to the closing
    quote: the text and what follows the quote. *)
Fixpoint unescape (s : str) : option (str * str) :=
  match s with
  | [] => None
  | c :: s1 =>
      if c =? 34 then Some ([], s1)
      else if c =? 92 then
        match s1 with
        | [] => None
        | e :: s2 =>
            if e =? 117 then
              match s2 with
              | h1 :: h2 :: h3 :: h4 :: rest =>
                  v1 ← hex_value h1; v2 ← hex_value h2; v3 ← hex_value h3; v4 ← hex_value h4;
                  '(t, r) ← unescape rest;
                  Some (4096 * v1 + 256 * v2 + 16 * v3 + v4 :: t, r)
              | _ => None
              end
            else
              v ← (if e =? 98 then Some 8 else if e =? 116 then Some 9
                   else if e =? 110 then Some 10 else if e =? 102 then Some 12
                   else if e =? 114 then Some 13
                   else if (e =? 34) || (e =? 92) || (e =? 47) then Some e else None);
              '(t, r) ← unescape s2;
              Some (v :: t, r)
        end
      else if c <? 32 then None
      else '(t, r) ← unescape s1; Some (c :: t, r)
  end.

Lemma hex_value_digit n : 0 ≤ n < 16 → hex_value (hex_digit n) = Some n.
Proof.
  intros Hn. unfold hex_value, hex_digit, in_range.
  destruct (Z.ltb_spec n 10).
  - rewrite (proj2 (Z.leb_le 48 (48 + n))), (proj2 (Z.leb_le (48 + n) 57)) by lia.
    simpl. f_equal. lia.
  - rewrite (proj2 (Z.leb_gt (87 + n) 57)) by lia. rewrite andb_false_r.
    rewrite (proj2 (Z.leb_le 97 (87 + n))), (proj2 (Z.leb_le (87 + n) 102)) by lia.
    simpl. f_equal. lia.
Qed.

(** One escaped character is read back, whatever follows. *)
Lemma unescape_char c t r rest :
  is_scalar c → unescape rest = Some (t, r) → unescape (escape_char c ++ rest) = Some (c :: t, r).
Proof.
  intros Hc Hr. unfold escape_char, BACKSLASH.
  destruct (Z.eqb_spec c 34) as [->|]; [simpl; by rewrite Hr|].
  destruct (Z.eqb_spec c 92) as [->|]; [simpl; by rewrite Hr|]. simpl.
  destruct (Z.eqb_spec c 60) as [->|]; [simpl; by rewrite Hr|].
  destruct (Z.eqb_spec c 62) as [->|]; [simpl; by rewrite Hr|].
  destruct (Z.ltb_spec c 32) as [Hlt|].
  - unfold is_scalar in Hc.
    repeat (case_match; [breflect; subst; simpl; by rewrite Hr|]).
    unfold hex4. cbn [app unescape Z.eqb Pos.eqb].
    pose proof (Z.div_mod c 16). pose proof (Z.mod_pos_bound c 16).
    assert (Hq : c / 16 = 0 ∨ c / 16 = 1) by lia.
    rewrite (Z.div_small c 4096), (Z.div_small c 256), !Z.mod_0_l by lia.
    rewrite (Z.mod_small (c / 16)) by lia.
    rewrite !hex_value_digit by lia. simpl. rewrite Hr. simpl. do 3 f_equal. lia.
  - simpl. rewrite (proj2 (Z.eqb_neq c 34)), (proj2 (Z.eqb_neq c 92)) by done.
    rewrite (proj2 (Z.ltb_ge c 32)) by done. by rewrite Hr.
Qed.

Lemma unescape_escape s rest :
  is_text_str s → unescape (escape s ++ 34 :: rest) = Some (s, rest).
Proof.
  induction 1 as [|c s Hc _ IH]; [done|].
  change (escape (c :: s)) with (escape_char c ++ escape s). rewrite <- app_assoc.
  by apply unescape_char.
Qed.

(** A literal is self-delimiting. *)
Lemma put_str_inj s1 s2 r1 r2 :
  is_text_str s1 → is_text_str s2 → put_str s1 ++ r1 = put_str s2 ++ r2 → s1 = s2 ∧ r1 = r2.
Proof.
  intros H1 H2 E. unfold put_str in E. rewrite <- !app_assoc in E. simpl in E.
  injection E as E. pose proof (unescape_escape s1 r1 H1) as U1.
  rewrite E, (unescape_escape s2 r2 H2) in U1. by simplify_eq.
Qed.

(** ** No angle bracket leaves a literal *)

Definition no_angle (s : str) : Prop := 60 ∉ s ∧ 62 ∉ s.

Lemma no_angle_app s1 s2 : no_angle (s1 ++ s2) ↔ no_angle s1 ∧ no_angle s2.
Proof. unfold no_angle. rewrite !elem_of_app. tauto. Qed.

Lemma no_angle_closed s : bool_decide (no_angle s) = true → no_angle s.
Proof. by intros ?%bool_decide_eq_true_1. Qed.

Lemma hex_digit_no_angle n : 0 ≤ n < 16 → hex_digit n ≠ 60 ∧ hex_digit n ≠ 62.
Proof. unfold hex_digit. intros. case_match; breflect; lia. Qed.

Lemma escape_char_no_angle c : no_angle (escape_char c).
Proof.
  unfold escape_char, BACKSLASH.
  destruct (Z.eqb_spec c 34) as [->|]; [by apply no_angle_closed|].
  destruct (Z.eqb_spec c 92) as [->|]; [by apply no_angle_closed|]. simpl.
  destruct (Z.eqb_spec c 60) as [->|]; [by apply no_angle_closed|].
  destruct (Z.eqb_spec c 62) as [->|]; [by apply no_angle_closed|].
  destruct (c <? 32).
  - repeat (case_match; [by apply no_angle_closed|]). unfold hex4, no_angle. rewrite !elem_of_cons.
    assert (Hd : ∀ m, hex_digit (m mod 16) ≠ 60 ∧ hex_digit (m mod 16) ≠ 62)
      by (intros m; apply hex_digit_no_angle, Z.mod_pos_bound; lia).
    pose proof (Hd (c / 4096)). pose proof (Hd (c / 256)). pose proof (Hd (c / 16)).
    pose proof (Hd c).
    split; intros Hin; repeat (destruct Hin as [Hin|Hin]; [lia|]); by apply elem_of_nil in Hin.
  - unfold no_angle. rewrite !elem_of_cons, !elem_of_nil. naive_solver.
Qed.

Lemma put_str_no_angle s : no_angle (put_str s).
Proof.
  unfold put_str. rewrite !no_angle_app. split_and!; try (apply no_angle_closed; done).
  induction s as [|c s IH]; [apply no_angle_closed; done|].
  change (escape (c :: s)) with (escape_char c ++ escape s).
  rewrite no_angle_app. split; [apply escape_char_no_angle|done].
Qed.

Lemma join_no_angle items : Forall no_angle items → no_angle (comma_separated items).
Proof.
  induction 1 as [|x items Hx Hi IH]; [apply no_angle_closed; done|].
  destruct items as [|y items]; [done|].
  change (no_angle (x ++ lit "," ++ comma_separated (y :: items))).
  rewrite !no_angle_app. split_and!; [done|apply no_angle_closed; done|done].
Qed.

(** Splits a concatenation into literals, string literals and lists. *)
Ltac no_angle_solve :=
  repeat match goal with
  | |- no_angle (_ ++ _) => apply no_angle_app; split
  | |- no_angle (put_str _) => apply put_str_no_angle
  | |- no_angle (comma_separated _) => apply join_no_angle, Forall_fmap, Forall_forall; intros ? _; simpl
  | |- no_angle (lit _) => by apply no_angle_closed
  | |- no_angle (js _) => by apply no_angle_closed
  end.

Lemma encode_block_no_angle b : no_angle (encode_block b).
Proof. unfold encode_block. no_angle_solve. Qed.

Lemma encode_no_angle p : no_angle (encode p).
Proof.
  destruct p as [p|u]; unfold encode; no_angle_solve. apply encode_block_no_angle.
Qed.

(** A comma-separated list of self-delimiting items, closed by a bracket that
    starts no item, is self-delimiting. *)
Section CommaSeparated.
Context {A : Type} (ok : A → Prop) (f : A → str).
Context (f_inj : ∀ x y r1 r2, ok x → ok y → f x ++ r1 = f y ++ r2 → x = y ∧ r1 = r2).
Context (f_head : ∀ x, ∃ h t, f x = h :: t ∧ h ≠ 93).

Lemma comma_tail x l r :
  comma_separated (f <$> x :: l) ++ 93 :: r =
  f x ++ match l with [] => 93 :: r | _ => 44 :: comma_separated (f <$> l) ++ 93 :: r end.
Proof.
  destruct l as [|y l]; [done|]. rewrite !fmap_cons.
  change (comma_separated (f x :: f y :: (f <$> l)))
    with (f x ++ 44 :: comma_separated (f y :: (f <$> l))).
  by rewrite <- app_assoc.
Qed.

Lemma comma_separated_inj l1 l2 r1 r2 :
  Forall ok l1 → Forall ok l2 →
  comma_separated (f <$> l1) ++ 93 :: r1 = comma_separated (f <$> l2) ++ 93 :: r2 →
  l1 = l2 ∧ r1 = r2.
Proof.
  intros H1. revert l2. induction H1 as [|x l1 Hx H1 IH]; intros l2 H2 E.
  - destruct H2 as [|y l2 Hy H2]; [simpl in E; by simplify_eq|]. rewrite comma_tail in E.
    destruct (f_head y) as (h & t & Ey & Hh). rewrite Ey in E. simpl in E. by simplify_eq.
  - destruct H2 as [|y l2 Hy H2]; rewrite !comma_tail in E.
    + destruct (f_head x) as (h & t & Ex & Hh). rewrite Ex in E. simpl in E. by simplify_eq.
    + apply f_inj in E as [-> E]; [|done..].
      destruct l1 as [|x1 l1], l2 as [|y2 l2]; [by simplify_eq|discriminate E..|].
      injection E as E. apply (IH (y2 :: l2)) in E as [? ?]; [by simplify_eq|done].
Qed.
End CommaSeparated.

Lemma put_str_head s : ∃ h t, put_str s = h :: t ∧ h ≠ 93.
Proof. by eexists 34, _. Qed.

Lemma closed_str s : bool_decide (is_text_str s) = true → is_text_str s.
Proof. by intros ?%bool_decide_eq_true_1. Qed.

Lemma Element_code_str e : is_text_str (Element_code e).
Proof. destruct e; by apply closed_str. Qed.

Lemma encode_block_inj b1 b2 r1 r2 :
  is_text_str b1.2 → is_text_str b2.2 → encode_block b1 ++ r1 = encode_block b2 ++ r2 → b1 = b2 ∧ r1 = r2.
Proof.
  intros H1 H2 E. unfold encode_block in E. rewrite <- !app_assoc in E. apply app_inv_head in E.
  apply put_str_inj in E as [Ec E]; [|apply Element_code_str..].
  apply app_inv_head, put_str_inj in E as [Et E]; [|done..]. apply app_inv_head in E.
  destruct b1 as [e1 t1], b2 as [e2 t2]. simpl in *.
  destruct e1, e2; (discriminate Ec || by subst).
Qed.

Lemma page_strings f title text :
  projection_ok (PageText (MkPageTextV1 f title text)) →
  is_text_str (f_name f) ∧ Forall is_text_str (f_hours f) ∧ is_text_str (f_phone f) ∧ is_text_str title ∧
  Forall (λ b, is_text_str b.2) text.
Proof.
  unfold projection_ok. destruct f as [n h ph]. simpl. rewrite !Forall_cons, Forall_app, Forall_fmap.
  intros (? & ? & ? & ? & ?). by split_and!.
Qed.

(** Where the two occurrences of [x] in a list can be. *)
Lemma split_at_two {A} (x : A) m n a b :
  x ∉ m → x ∉ n → x :: m ++ x :: n = a ++ x :: b →
  (a = [] ∧ b = m ++ x :: n) ∨ (a = x :: m ∧ b = n).
Proof.
  intros Hm Hn E. destruct a as [|y a]; [left; by injection E as E|].
  injection E as E1 E2. subst y. right.
  assert (Ha : ∀ m a, x ∉ m → m ++ x :: n = a ++ x :: b → a = m ∧ b = n); [|by apply Ha in E2 as [-> ->]].
  clear -Hn. induction m as [|z m IH]; intros [|y a] Hm E; injection E.
  - done.
  - intros En _. exfalso. apply Hn. rewrite En. apply elem_of_app. right. by left.
  - intros _ Ez. exfalso. apply Hm. subst z. by left.
  - intros Er ->. apply not_elem_of_cons in Hm as [_ Hm]. by destruct (IH a Hm Er) as [-> ->].
Qed.

(** The frame cannot be forged: the encoded projection holds no angle
    bracket whatever its strings are, so in the framed user text the opening
    tag occurs only at the start and the closing tag only at the end. *)
Theorem frame_delimits p :
  no_angle (encode p) ∧
  (∀ a b, frame (encode p) = a ++ lit "<document>" ++ b → a = []) ∧
  (∀ a b, frame (encode p) = a ++ lit "</document>" ++ b → b = []).
Proof.
  pose proof (encode_no_angle p) as [H1 H2]. split; [done|].
  set (m := lit "document>" ++ newline ++ encode p ++ newline).
  assert (Hm : 60 ∉ m).
  { unfold m. rewrite !not_elem_of_app. split_and!; try done; apply (bool_decide_eq_true_1 _); done. }
  assert (Hn : 60 ∉ lit "/document>") by (apply (bool_decide_eq_true_1 _); done).
  assert (E : frame (encode p) = 60 :: m ++ 60 :: lit "/document>").
  { unfold frame, m. rewrite <- !app_assoc. reflexivity. }
  rewrite E. split; intros a b H.
  - apply (split_at_two 60) in H as [[-> _]|[_ H]]; [done|discriminate H|done|done].
  - apply (split_at_two 60) in H as [[_ H]|[_ H]]; [discriminate H| |done|done].
    by apply (app_inv_head (lit "/document>") b []) in H.
Qed.

(** The encoding is unambiguous: two projections with the same encoded
    bytes are the same projection, block by block and fact by fact, and every
    literal reads back by the JSON rules as the string it was made from. *)
Theorem encode_injective p1 p2 :
  projection_ok p1 → projection_ok p2 → encode p1 = encode p2 →
  p1 = p2 ∧ ∀ s rest, s ∈ strings p1 → unescape (tail (put_str s) ++ rest) = Some (s, rest).
Proof.
  intros H1 H2 E. split.
  2: { intros s rest Hs. unfold put_str. simpl. rewrite <- app_assoc. apply unescape_escape.
       unfold projection_ok in H1. rewrite Forall_forall in H1. by apply H1. }
  unfold encode in E. apply app_inv_head in E.
  apply put_str_inj in E as [Eid E]; [|destruct p1; by apply closed_str|destruct p2; by apply closed_str].
  destruct p1 as [[f1 ti1 te1]|[[] t1]], p2 as [[f2 ti2 te2]|[[] t2]]; try discriminate Eid; clear Eid.
  - apply page_strings in H1 as (N1 & O1 & P1 & T1 & X1).
    apply page_strings in H2 as (N2 & O2 & P2 & T2 & X2).
    cbn [p_facts p_title p_text] in E.
    apply app_inv_head, put_str_inj in E as [En E]; [|done..]. apply app_inv_head in E.
    change (js "],`phone`:") with (93 :: js ",`phone`:") in E. cbn [app] in E.
    apply (comma_separated_inj is_text_str put_str) in E as [Eh E];
      [|intros; by eapply put_str_inj|apply put_str_head|done..].
    apply app_inv_head, put_str_inj in E as [Ep E]; [|done..].
    apply app_inv_head, put_str_inj in E as [Et E]; [|done..]. apply app_inv_head in E.
    change (js "]}") with (93 :: js "}") in E.
    apply (comma_separated_inj (λ b, is_text_str b.2) encode_block) in E as [Ex _];
      [|intros; by eapply encode_block_inj|intros x; by eexists 91, _|done..].
    destruct f1, f2. by simplify_eq/=.
  - unfold projection_ok in *. simpl in H1, H2. rewrite Forall_singleton in H1, H2.
    cbn [u_text u_source] in E.
    apply app_inv_head, put_str_inj in E as [_ E]; [|by apply closed_str..].
    apply app_inv_head, put_str_inj in E as [Et _]; [by subst|done..].
Qed.

Definition demo_page : Projection :=
  PageText (MkPageTextV1 (MkFacts (lit "Cafe") [lit "9-5"; js "10`-4"] (lit "555"))
                         (lit "A <b> title") [(H1, lit "x"); (P, lit "</document>")]).

Lemma encode_injective_witness :
  demo_page = demo_page ∧
  ∀ s rest, s ∈ strings demo_page → unescape (tail (put_str s) ++ rest) = Some (s, rest).
Proof.
  refine (encode_injective demo_page demo_page _ _ eq_refl);
    apply (bool_decide_eq_true_1 _); vm_compute; reflexivity.
Defined.
