(* ===== verification/Budget.v ===== *)
(** * Preflight and the byte budget

    [crates/nexus-typed-decision/src/budget.rs]: [prepare] checks one set and
    projection before anything is sent, and builds the request only when both
    attempts fit the bound. *)

From S2P Require Import Prelude Registry Render Projection.

Local Open Scope Z_scope.
Local Open Scope nexus_scope.

Definition MAX_CONTENT_BYTES : Z := 3936.

(** [usize::MAX] on the 64-bit targets the program is built for. *)
Definition usize_max : Z := u64_max.

Record Coverage := MkCoverage {
  cov_source_text_bytes : Z;
  cov_sent_text_bytes : Z;
  cov_omitted_text_bytes : Z;
  cov_user_bytes : Z;
  cov_needed_bytes : Z;
  cov_complete : bool;
}.

Record Prepared := MkPrepared {
  prep_set : StaticSet;
  prep_system : str;
  prep_user : str;
  prep_schema : str;
  prep_coverage : Coverage;
}.

Definition attempt2 (system : str) (code : DecodeCode) : str :=
  system ++ newline ++ newline ++ correction_sentence code.

Definition prep_correction_system (p : Prepared) (code : DecodeCode) : str :=
  attempt2 (prep_system p) code.
Definition attempt1_bytes (p : Prepared) : Z := str_len (prep_system p) + str_len (prep_user p).
Definition attempt2_max_bytes (p : Prepared) : Z := cov_needed_bytes (prep_coverage p).

Inductive Refusal :=
| ProjectionMismatch | Unrenderable | CharNotAllowed | UnsafeDelimiter
| CoverageInsufficient (coverage : Coverage) (readings : list (QuestionId * Reading))
| RequestTooLarge.

Definition Refusal_code (r : Refusal) : str :=
  match r with
  | ProjectionMismatch => lit "projection_mismatch"
  | Unrenderable => lit "unrenderable"
  | CharNotAllowed => lit "char_not_allowed"
  | UnsafeDelimiter => lit "unsafe_delimiter"
  | CoverageInsufficient _ _ => lit "coverage_insufficient"
  | RequestTooLarge => lit "request_too_large"
  end.
Definition Refusal_outcome (r : Refusal) : str := lit "refused:" ++ Refusal_code r.

(** The texts of the second attempt, one per decoder code. *)
Definition corrections (system : str) : list str := attempt2 system <$> DecodeCode_ALL.

(** The closure [fits]. *)
Definition fits (user system : str) : bool :=
  str_len system + str_len user <=? MAX_CONTENT_BYTES.

Definition prepare (set : StaticSet) (projection : Projection) (inventory : Inventory)
    : result Prepared Refusal :=
  let qs := static_set set in
  if negb (bool_decide (set_projection qs = Projection_id projection))
  then Err ProjectionMismatch
  else
    let? system := map_err (λ _, Unrenderable) (render_system qs) in
    let line_breaks := allows_line_breaks projection in
    if negb (forallb (forallb (λ c, in_profile c line_breaks)) (strings projection))
    then Err CharNotAllowed
    else if existsb (occurs_in inventory) (strings projection) then Err UnsafeDelimiter
    else
      let user := frame (encode projection) in
      if occurs_in inventory user || occurs_in inventory system
         || existsb (occurs_in inventory) (corrections system)
      then Err UnsafeDelimiter
      else
        let longest := max_or usize_max (str_len <$> corrections system) in
        let source := source_text_bytes projection in
        let needed := saturating_add usize_max longest (str_len user) in
        if MAX_CONTENT_BYTES <? needed then
          Err (CoverageInsufficient
                 (MkCoverage source 0 source (str_len user) needed false)
                 ((λ id, (id, Unsettled)) <$> set_keys qs))
        else if negb (fits user system) || negb (forallb (fits user) (corrections system))
        then Err RequestTooLarge
        else Ok (MkPrepared set system user (render_schema qs)
                   (MkCoverage source source 0 (str_len user) needed true)).

(** ** The checks, as a specification *)

(** No sensitive spelling occurs in [text]. *)
Definition clean (inv : Inventory) (text : str) : Prop :=
  ∀ s, s ∈ spellings inv → ∀ a b, text ≠ a ++ s ++ b.

Definition in_profile_all (p : Projection) : Prop :=
  ∀ s c, s ∈ strings p → c ∈ s → in_profile c (allows_line_breaks p) = true.

(** The bytes of attempt 2 with its longest correction. *)
Definition needed_bytes (system user : str) : Z :=
  max_or usize_max (str_len <$> corrections system) + str_len user.

(** The checks of the preflight that come before the bound. *)
Record request_ok (set : QuestionSet) (p : Projection) (inv : Inventory) (system : str) : Prop := {
  ro_projection : set_projection set = Projection_id p;
  ro_system : render_system set = Ok system;
  ro_profile : in_profile_all p;
  ro_strings : ∀ s, s ∈ strings p → clean inv s;
  ro_user : clean inv (frame (encode p));
  ro_clean : clean inv system;
  ro_corrections : ∀ code, clean inv (attempt2 system code);
}.

Lemma corrections_elem system c : c ∈ corrections system ↔ ∃ code, c = attempt2 system code.
Proof.
  unfold corrections. rewrite list_elem_of_fmap. split; [naive_solver|].
  intros [code ->]. exists code. split; [done|]. destruct code; set_solver.
Qed.

Lemma attempt2_len system code : str_len system ≤ str_len (attempt2 system code).
Proof.
  unfold attempt2. rewrite str_len_app. pose proof (str_len_nonneg (newline ++ newline ++ correction_sentence code)). lia.
Qed.

Lemma needed_spec system user code :
  str_len (attempt2 system code) + str_len user ≤ needed_bytes system user.
Proof.
  unfold needed_bytes. apply Z.add_le_mono_r, max_or_ge, list_elem_of_fmap_2.
  apply corrections_elem. by exists code.
Qed.

Lemma needed_attained system user :
  ∃ code, needed_bytes system user = str_len (attempt2 system code) + str_len user.
Proof.
  assert (Hne : str_len <$> corrections system ≠ []) by (intros H; discriminate H).
  pose proof (max_or_in usize_max _ Hne) as Hm.
  apply list_elem_of_fmap in Hm as (c & E & [code ->]%corrections_elem).
  exists code. unfold needed_bytes. by rewrite E.
Qed.

Lemma existsb_false {A} (f : A → bool) l : existsb f l = false ↔ ∀ x, x ∈ l → f x = false.
Proof.
  rewrite <- not_true_iff_false, existsb_exists. split.
  - intros H x Hx. destruct (f x) eqn:E; [|done]. exfalso. apply H. exists x.
    by rewrite <- list_elem_of_In.
  - intros H (x & Hx%list_elem_of_In & E). rewrite (H x Hx) in E. done.
Qed.

Lemma forallb_spec {A} (f : A → bool) l : forallb f l = true ↔ ∀ x, x ∈ l → f x = true.
Proof. rewrite forallb_forall. by setoid_rewrite list_elem_of_In. Qed.

Lemma profile_spec p :
  forallb (forallb (λ c, in_profile c (allows_line_breaks p))) (strings p) = true ↔
  in_profile_all p.
Proof.
  rewrite forallb_spec. setoid_rewrite forallb_spec. unfold in_profile_all. naive_solver.
Qed.

Lemma strings_clean inv l :
  existsb (occurs_in inv) l = false ↔ ∀ s, s ∈ l → clean inv s.
Proof. rewrite existsb_false. by setoid_rewrite occurs_in_spec. Qed.

(** What each outcome of the preflight says. *)
Definition outcome_means (set : StaticSet) (p : Projection) (inv : Inventory)
    (r : result Prepared Refusal) : Prop :=
  let qs := static_set set in
  let user := frame (encode p) in
  match r with
  | Ok prep =>
      request_ok qs p inv (prep_system prep) ∧
      needed_bytes (prep_system prep) user ≤ MAX_CONTENT_BYTES ∧
      prep = MkPrepared set (prep_system prep) user (render_schema qs)
               (MkCoverage (source_text_bytes p) (source_text_bytes p) 0 (str_len user)
                  (needed_bytes (prep_system prep) user) true)
  | Err ProjectionMismatch => set_projection qs ≠ Projection_id p
  | Err Unrenderable =>
      set_projection qs = Projection_id p ∧ ∃ e, render_system qs = Err e
  | Err CharNotAllowed =>
      set_projection qs = Projection_id p ∧ (∃ system, render_system qs = Ok system) ∧
      ¬ in_profile_all p
  | Err UnsafeDelimiter =>
      set_projection qs = Projection_id p ∧ in_profile_all p ∧
      ∃ system text, render_system qs = Ok system ∧
        text ∈ strings p ++ [user; system] ++ corrections system ∧ ¬ clean inv text
  | Err (CoverageInsufficient cov readings) =>
      ∃ system, request_ok qs p inv system ∧ MAX_CONTENT_BYTES < needed_bytes system user ∧
        cov = MkCoverage (source_text_bytes p) 0 (source_text_bytes p) (str_len user)
                (Z.min usize_max (needed_bytes system user)) false ∧
        readings = (λ id, (id, Unsettled)) <$> set_keys qs
  | Err RequestTooLarge => False
  end.

Lemma occurs_unclean inv text : occurs_in inv text = true → ¬ clean inv text.
Proof. intros H Hc. apply occurs_in_spec in Hc. congruence. Qed.

Lemma strings_unclean inv l :
  existsb (occurs_in inv) l = true → ∃ s, s ∈ l ∧ ¬ clean inv s.
Proof.
  intros (s & Hs%list_elem_of_In & H)%existsb_exists. exists s. split; [done|].
  by apply occurs_unclean.
Qed.

(** Once the longest attempt fits, every attempt does: the second guard of
    the code is never taken. *)
Lemma fits_all user system :
  needed_bytes system user ≤ MAX_CONTENT_BYTES →
  negb (fits user system) || negb (forallb (fits user) (corrections system)) = false.
Proof.
  intros Hb. apply orb_false_iff. rewrite !negb_false_iff, forallb_spec.
  assert (Hc : ∀ code, str_len (attempt2 system code) + str_len user ≤ MAX_CONTENT_BYTES)
    by (intros code; pose proof (needed_spec system user code); lia).
  unfold fits. split.
  - pose proof (Hc BadSum). pose proof (attempt2_len system BadSum). lia.
  - intros c (code & ->)%corrections_elem. specialize (Hc code). lia.
Qed.

Lemma prepare_cases set p inv : outcome_means set p inv (prepare set p inv).
Proof.
  unfold prepare. case_bool_decide as Hp; cbn [negb]; [|done].
  destruct (render_system (static_set set)) as [system|e] eqn:Hs; cbn [and_then map_err]; [|simpl; by eauto].
  destruct (forallb _ (strings p)) eqn:Hprof; cbn [negb].
  2: { split_and!; [done|by eexists|]. intros H%profile_spec. congruence. }
  apply profile_spec in Hprof.
  destruct (existsb _ (strings p)) eqn:Hstr.
  { apply strings_unclean in Hstr as (s & Hin & Hs'). split_and!; [done|done|].
    exists system, s. split_and!; [done|set_solver|done]. }
  destruct (occurs_in inv (frame (encode p))) eqn:Hu; cbn [orb].
  { apply occurs_unclean in Hu. split_and!; [done..|]. eexists system, _.
    split_and!; [done| |done]. set_solver. }
  destruct (occurs_in inv system) eqn:Hsys; cbn [orb].
  { apply occurs_unclean in Hsys. split_and!; [done..|]. eexists system, _.
    split_and!; [done| |done]. set_solver. }
  destruct (existsb _ (corrections system)) eqn:Hc.
  { apply strings_unclean in Hc as (s & Hin & Hs'). split_and!; [done|done|].
    exists system, s. split_and!; [done| |done]. set_solver. }
  assert (Hro : request_ok (static_set set) p inv system).
  { split; try done; [by apply strings_clean|exact (proj1 (occurs_in_spec _ _) Hu)
    |exact (proj1 (occurs_in_spec _ _) Hsys)|].
    intros code. apply (proj1 (strings_clean inv _) Hc), corrections_elem. by eexists. }
  unfold saturating_add. fold (needed_bytes system (frame (encode p))).
  destruct (Z.ltb_spec MAX_CONTENT_BYTES (Z.min usize_max (needed_bytes system (frame (encode p))))).
  { exists system. split_and!; [done|unfold MAX_CONTENT_BYTES in *; lia|done|done]. }
  assert (Hn : needed_bytes system (frame (encode p)) ≤ MAX_CONTENT_BYTES)
    by (unfold MAX_CONTENT_BYTES, usize_max, u64_max in *; lia).
  rewrite fits_all by done. cbn [outcome_means prep_system]. split_and!; [done..|].
  rewrite Z.min_r; [done|unfold MAX_CONTENT_BYTES, usize_max, u64_max in *; lia].
Qed.

(** Preflight is exact: a request is prepared exactly when the set's
    projection is the one given, the set has a system text, every character
    is in the profile, no sensitive spelling occurs in any admitted string,
    in the framed user text or in any system text of either attempt, and the
    second attempt with its longest correction fits 3,936 bytes. *)
Theorem prepare_ok_iff set p inv :
  (∃ prep, prepare set p inv = Ok prep) ↔
  ∃ system, request_ok (static_set set) p inv system ∧
    needed_bytes system (frame (encode p)) ≤ MAX_CONTENT_BYTES.
Proof.
  pose proof (prepare_cases set p inv) as H. split.
  - intros [prep E]. rewrite E in H. destruct H as (? & ? & _). by eexists.
  - intros (system & [R1 R2 R3 R4 R5 R6 R7] & Hn).
    destruct (prepare set p inv) as [prep|[]]; cbn [outcome_means] in H; [by eexists|..].
    + done.
    + destruct H as [_ [e He]]. congruence.
    + tauto.
    + destruct H as (_ & _ & sys & text & Hs & Hin & Hun). rewrite R2 in Hs. simplify_eq.
      exfalso. apply Hun. rewrite !elem_of_app, !elem_of_cons, elem_of_nil in Hin.
      destruct Hin as [Hin|[[-> | [-> | []]]|Hin]]; auto.
      apply corrections_elem in Hin as [code ->]. auto.
    + destruct H as (sys & [] & Hlt & _). rewrite R2 in *. simplify_eq. lia.
    + done.
Qed.

(** The prepared request: both attempts fit the bound, the second for
    every decoder code; the user text is the framed encoding of the complete
    projection; no sensitive spelling occurs in anything that is sent; and
    the coverage is complete, with [needed_bytes] the size of the largest
    request of the two attempts. *)
Theorem prepare_bound set p inv prep :
  prepare set p inv = Ok prep →
  prep_set prep = set ∧ prep_user prep = frame (encode p) ∧
  prep_schema prep = render_schema (static_set set) ∧
  attempt1_bytes prep ≤ attempt2_max_bytes prep ≤ MAX_CONTENT_BYTES ∧
  (∀ code, str_len (prep_correction_system prep code) + str_len (prep_user prep)
             ≤ attempt2_max_bytes prep) ∧
  (∃ code, attempt2_max_bytes prep =
     str_len (prep_correction_system prep code) + str_len (prep_user prep)) ∧
  (∀ code text, text ∈ [prep_user prep; prep_system prep; prep_correction_system prep code] →
     clean inv text) ∧
  cov_complete (prep_coverage prep) = true ∧
  cov_sent_text_bytes (prep_coverage prep) = source_text_bytes p.
Proof.
  intros E. pose proof (prepare_cases set p inv) as H. rewrite E in H.
  destruct H as ([] & Hn & Hp).
  destruct prep as [set' system user schema cov]. simpl in Hp. injection Hp as -> -> -> ->.
  unfold attempt1_bytes, attempt2_max_bytes, prep_correction_system in *. simpl in *.
  split_and!; try done.
  - pose proof (needed_spec system (frame (encode p)) BadSum).
    pose proof (attempt2_len system BadSum). lia.
  - intros code. apply needed_spec.
  - apply needed_attained.
  - intros code text. rewrite !elem_of_cons, elem_of_nil. intros [-> |[-> |[-> |[]]]]; auto.
Qed.

(** Refusals: each refusal names the first failing check in the code's
    order; an insufficient coverage reads every question of the set as
    unsettled and sends nothing; and [request_too_large] is never returned. *)
Theorem prepare_refusal set p inv r :
  prepare set p inv = Err r → outcome_means set p inv (Err r) ∧ r ≠ RequestTooLarge.
Proof.
  intros E. pose proof (prepare_cases set p inv) as H. rewrite E in H. split; [done|].
  by intros ->.
Qed.

Definition demo_inventory : Inventory := MkInventory [lit "<start_of_turn>"].
Definition demo_note : Projection :=
  UntrustedText (MkUntrustedTextV1 OwnerNote (lit "Open <b>late</b> on Friday.")).
Definition demo_prepared : option Prepared :=
  match prepare INJ_1 demo_note demo_inventory with Ok prep => Some prep | Err _ => None end.

Lemma prepare_bound_witness :
  ∃ prep, demo_prepared = Some prep ∧ attempt1_bytes prep ≤ attempt2_max_bytes prep ≤ MAX_CONTENT_BYTES.
Proof.
  destruct (prepare INJ_1 demo_note demo_inventory) as [prep|e] eqn:E.
  - exists prep. split; [unfold demo_prepared; by rewrite E|].
    exact (proj1 (proj2 (proj2 (proj2 (prepare_bound INJ_1 demo_note demo_inventory prep E))))).
  - vm_compute in E. discriminate E.
Defined.

Lemma prepare_refusal_witness :
  outcome_means SEN_1 demo_note demo_inventory (Err ProjectionMismatch) ∧
  ProjectionMismatch ≠ RequestTooLarge.
Proof.
  apply (prepare_refusal SEN_1 demo_note demo_inventory ProjectionMismatch).
  vm_compute. reflexivity.
Defined.

(** The exact sizes of the registered sets: the system text, the second
    attempt's longest system text, the schema, and the room left for the
    framed user message. *)
Example registered_sizes :
  (λ set, match render_system (static_set set) with
          | Ok system => (str_len system, needed_bytes system [],
                          str_len (render_schema (static_set set)),
                          MAX_CONTENT_BYTES - needed_bytes system [])
          | Err _ => (0, 0, 0, 0)
          end) <$> REGISTRY = [(2208, 2390, 286, 1546); (1646, 1828, 210, 2108);
                               (1167, 1349, 122, 2587)].
Proof. vm_compute. reflexivity. Qed.
