(* ===== verification/Lane.v ===== *)
(** * The lane composition tables

    [crates/nexus-typed-decision/src/lane.rs]: the failure and reason codes,
    [compose], and the results of the Sentinel, the Verifier and the notes
    screen as pure functions of a deterministic check and the advice. *)

From S2P Require Import Prelude Registry Render Read Reader Numbers Decode Projection Budget.

Local Open Scope Z_scope.
Local Open Scope nexus_scope.

Module TransportCode.
Inductive t :=
| NotLocal | InvalidAddress | InvalidModelName | CloudName | CloudEnabled | NotInstalled
| DigestMismatch | RuntimeMismatch | Remote | ConfigMismatch | Unavailable | Timeout
| RequestTooLarge | ResponseTooLarge | Malformed | Truncated | ToolCalls | ThinkingLeaked
| EmptyContent | OverBudget | Stopped | Cancelled | Late.
#[global] Instance t_eq_dec : EqDecision t.
Proof. solve_decision. Defined.

Definition ALL : list t :=
  [NotLocal; InvalidAddress; InvalidModelName; CloudName; CloudEnabled; NotInstalled;
   DigestMismatch; RuntimeMismatch; Remote; ConfigMismatch; Unavailable; Timeout;
   RequestTooLarge; ResponseTooLarge; Malformed; Truncated; ToolCalls; ThinkingLeaked;
   EmptyContent; OverBudget; Stopped; Cancelled; Late].

Definition code (c : t) : str :=
  match c with
  | NotLocal => lit "not_local"
  | InvalidAddress => lit "invalid_address"
  | InvalidModelName => lit "invalid_model_name"
  | CloudName => lit "cloud_name"
  | CloudEnabled => lit "cloud_enabled"
  | NotInstalled => lit "not_installed"
  | DigestMismatch => lit "digest_mismatch"
  | RuntimeMismatch => lit "runtime_mismatch"
  | Remote => lit "remote"
  | ConfigMismatch => lit "config_mismatch"
  | Unavailable => lit "unavailable"
  | Timeout => lit "timeout"
  | RequestTooLarge => lit "request_too_large"
  | ResponseTooLarge => lit "response_too_large"
  | Malformed => lit "malformed"
  | Truncated => lit "truncated"
  | ToolCalls => lit "tool_calls"
  | ThinkingLeaked => lit "thinking_leaked"
  | EmptyContent => lit "empty_content"
  | OverBudget => lit "over_budget"
  | Stopped => lit "stopped"
  | Cancelled => lit "cancelled"
  | Late => lit "late"
  end.
End TransportCode.

Module PreflightCode.
Inductive t :=
| ProjectionMismatch | Unrenderable | CharNotAllowed | UnsafeDelimiter | RequestTooLarge.
#[global] Instance t_eq_dec : EqDecision t.
Proof. solve_decision. Defined.

Definition ALL : list t :=
  [ProjectionMismatch; Unrenderable; CharNotAllowed; UnsafeDelimiter; RequestTooLarge].

Definition code (c : t) : str :=
  match c with
  | ProjectionMismatch => lit "projection_mismatch"
  | Unrenderable => lit "unrenderable"
  | CharNotAllowed => lit "char_not_allowed"
  | UnsafeDelimiter => lit "unsafe_delimiter"
  | RequestTooLarge => lit "request_too_large"
  end.
End PreflightCode.

Module Failure.
Inductive t :=
| Refused (code : PreflightCode.t)
| CoverageInsufficient
| Transport (code : TransportCode.t)
| ReplyTooLarge | Malformed | Stopped | Cancelled | Timeout | Late | Stale | Unrecorded | Missing.
#[global] Instance t_eq_dec : EqDecision t.
Proof. solve_decision. Defined.

Definition code (f : t) : str :=
  match f with
  | Refused code => lit "refused:" ++ PreflightCode.code code
  | CoverageInsufficient => lit "coverage_insufficient"
  | Transport code => lit "transport:" ++ TransportCode.code code
  | ReplyTooLarge => lit "reply_too_large"
  | Malformed => lit "malformed"
  | Stopped => lit "stopped"
  | Cancelled => lit "cancelled"
  | Timeout => lit "timeout"
  | Late => lit "late"
  | Stale => lit "stale"
  | Unrecorded => lit "unrecorded"
  | Missing => lit "missing"
  end.

Definition from_refusal (r : Refusal) : t :=
  match r with
  | ProjectionMismatch => Refused PreflightCode.ProjectionMismatch
  | Unrenderable => Refused PreflightCode.Unrenderable
  | CharNotAllowed => Refused PreflightCode.CharNotAllowed
  | UnsafeDelimiter => Refused PreflightCode.UnsafeDelimiter
  | Budget.CoverageInsufficient _ _ => CoverageInsufficient
  | RequestTooLarge => Refused PreflightCode.RequestTooLarge
  end.
End Failure.

Module Reason.
Inductive t :=
| Question (id : QuestionId)
| Td (f : Failure.t)
| AdviceDisagrees | AdviceUnsettled
| AdviceUnavailable (f : Failure.t)
| FormatVariant | Deterministic | CheckError | NotesInstructsAi | NotesUnsettled
| NotesUnavailable (f : Failure.t).
#[global] Instance t_eq_dec : EqDecision t.
Proof. solve_decision. Defined.

Definition code (r : t) : str :=
  match r with
  | Question id => QuestionId_as_str id
  | Td f => lit "td_" ++ Failure.code f
  | AdviceDisagrees => lit "advice_disagrees"
  | AdviceUnsettled => lit "advice_unsettled"
  | AdviceUnavailable f => lit "advice_unavailable:" ++ Failure.code f
  | FormatVariant => lit "format_variant"
  | Deterministic => lit "deterministic"
  | CheckError => lit "check_error"
  | NotesInstructsAi => lit "notes_screen:instructs_ai"
  | NotesUnsettled => lit "notes_screen:unsettled"
  | NotesUnavailable f => lit "notes_screen:unavailable:" ++ Failure.code f
  end.
End Reason.

Module Disposition.
Inductive t := Clear | NeedsOwner (r : Reason.t) | Restrict (r : Reason.t).
#[global] Instance t_eq_dec : EqDecision t.
Proof. solve_decision. Defined.

Definition eligible (d : t) : bool := match d with Clear => true | _ => false end.
Definition rank (d : t) : Z :=
  match d with Clear => 0 | NeedsOwner _ => 1 | Restrict _ => 2 end.
Definition reason (d : t) : option Reason.t :=
  match d with Clear => None | NeedsOwner r | Restrict r => Some r end.
End Disposition.

Inductive Check := Pass | Fail_ | Error_.
#[export] Instance Check_eq_dec : EqDecision Check.
Proof. solve_decision. Defined.

Inductive Advice := Decided (d : Decision) | Failed (f : Failure.t).

Definition compose (decision : Decision) : Disposition.t :=
  let questions := set_questions (static_set (dec_set decision)) in
  let verdicts :=
    zip_with (λ q (p : QuestionId * Reading), verdict q p.2) questions (dec_readings decision) in
  match position (λ v, negb (bool_decide (v = ODClear))) verdicts with
  | None => Disposition.Clear
  | Some first =>
      match questions !! first with
      | Some q =>
          let reason := Reason.Question (q_id q) in
          if bool_decide (ODRestrict ∈ verdicts)
          then Disposition.Restrict reason
          else Disposition.NeedsOwner reason
      | None => Disposition.Restrict Reason.CheckError (* never: [first] indexes [questions] *)
      end
  end.

Definition required (advice : option Advice) (set : StaticSet) : result Decision Failure.t :=
  match advice with
  | Some (Decided decision) =>
      if ptr_eq (dec_set decision) set then Ok decision else Err Failure.Missing
  | None => Err Failure.Missing
  | Some (Failed failure) => Err failure
  end.

Module Sentinel.
Inductive Result := S1aRefusal (c : Check) | Clear | Halt (r : Reason.t).
Definition eligible (r : Result) : bool := match r with Clear => true | _ => false end.

Definition sentinel (s1a : Check) (advice : option Advice) : Result :=
  if negb (bool_decide (s1a = Pass)) then S1aRefusal s1a
  else
    match map_ok compose (required advice SEN_1) with
    | Ok Disposition.Clear => Clear
    | Ok (Disposition.NeedsOwner reason | Disposition.Restrict reason) => Halt reason
    | Err failure => Halt (Reason.Td failure)
    end.
End Sentinel.

Record VerifierResult := MkVerifierResult {
  vr_facts : list Disposition.t;
  vr_overall : Disposition.t;
}.
Definition vr_eligible (r : VerifierResult) : bool := Disposition.eligible (vr_overall r).

Definition fact (d : Check) (a : result Reading Failure.t) : Disposition.t :=
  match d, a with
  | Error_, _ => Disposition.Restrict Reason.CheckError
  | Fail_, Ok Yes => Disposition.NeedsOwner Reason.FormatVariant
  | Fail_, _ => Disposition.Restrict Reason.Deterministic
  | Pass, Ok Yes => Disposition.Clear
  | Pass, Ok No => Disposition.Restrict Reason.AdviceDisagrees
  | Pass, Ok _ => Disposition.Restrict Reason.AdviceUnsettled
  | Pass, Err failure => Disposition.Restrict (Reason.AdviceUnavailable failure)
  end.

(** The readings of the three facts, or [None] where the code would index
    past the readings of the decision (a panic). *)
Definition verifier_advice (advice : option Advice) : option (list (result Reading Failure.t)) :=
  match required advice VER_1 with
  | Ok decision => mapM (λ i, (λ p, Ok p.2) <$> dec_readings decision !! i) [0%nat; 1%nat; 2%nat]
  | Err Failure.CoverageInsufficient => Some (replicate 3 (Ok Unsettled))
  | Err failure => Some (replicate 3 (Err failure))
  end.

Definition verifier (d : Check * Check * Check) (advice : option Advice)
    : option VerifierResult :=
  a ← verifier_advice advice;
  let '(d0, d1, d2) := d in
  let facts := zip_with fact [d0; d1; d2] a in
  let worst := max_or 2 (Disposition.rank <$> facts) in
  let overall :=
    default (Disposition.Restrict Reason.CheckError)
      (List.find (λ f, Disposition.rank f =? worst) facts) in
  Some (MkVerifierResult facts overall).

Definition notes_screen (advice : option Advice) : option Disposition.t :=
  match required advice INJ_1 with
  | Ok decision =>
      '(_, reading) ← dec_readings decision !! 0%nat;
      q ← set_questions (static_set INJ_1) !! 0%nat;
      Some match verdict q reading, reading with
           | ODClear, _ => Disposition.Clear
           | _, Yes => Disposition.NeedsOwner Reason.NotesInstructsAi
           | _, _ => Disposition.NeedsOwner Reason.NotesUnsettled
           end
  | Err Failure.CoverageInsufficient => Some (Disposition.NeedsOwner Reason.NotesUnsettled)
  | Err failure => Some (Disposition.NeedsOwner (Reason.NotesUnavailable failure))
  end.

(** ** Composition *)

Section Compose.
Context (d : Decision).
Let questions := set_questions (static_set (dec_set d)).
Let verdicts := zip_with (λ q (p : QuestionId * Reading), verdict q p.2) questions (dec_readings d).

Lemma verdicts_lookup i v : verdicts !! i = Some v →
  ∃ q r, questions !! i = Some q ∧ dec_readings d !! i = Some r ∧ v = verdict q r.2.
Proof. unfold verdicts. rewrite lookup_zip_with_Some. naive_solver. Qed.

Lemma compose_clear :
  compose d = Disposition.Clear ↔ Forall (λ v, v = ODClear) verdicts.
Proof.
  unfold compose. fold questions verdicts.
  destruct (position _ verdicts) as [i|] eqn:Hp.
  - apply position_Some in Hp as [(v & Hv & Hne) _]. breflect.
    destruct (verdicts_lookup i v Hv) as (q & r & Hq & _). rewrite Hq.
    split; [by case_bool_decide|]. intros Hall. rewrite Forall_forall in Hall.
    exfalso. by apply Hne, Hall, (list_elem_of_lookup_2 _ i).
  - split; [|done]. intros _. apply Forall_forall. intros v Hv.
    pose proof (proj1 (position_None _ _) Hp v Hv) as E. simpl in E. by breflect.
Qed.

(** The reason is the first question that is not clear; the result is a
    restriction exactly when some question restricts. *)
Lemma compose_reason r :
  Disposition.reason (compose d) = Some r →
  ∃ i q v, questions !! i = Some q ∧ verdicts !! i = Some v ∧ v ≠ ODClear ∧
    r = Reason.Question (q_id q) ∧ (∀ j w, (j < i)%nat → verdicts !! j = Some w → w = ODClear) ∧
    (compose d = Disposition.Restrict r ↔ ODRestrict ∈ verdicts).
Proof.
  unfold compose. fold questions verdicts.
  destruct (position _ verdicts) as [i|] eqn:Hp; [|done].
  apply position_Some in Hp as [(v & Hv & Hne) Hmin]. breflect.
  destruct (verdicts_lookup i v Hv) as (q & p & Hq & _). rewrite Hq.
  intros Hr. exists i, q, v.
  assert (r = Reason.Question (q_id q)) as -> by (case_bool_decide; by simplify_eq/=).
  split_and!; try done.
  - intros j w Hj Hw. specialize (Hmin j w Hj Hw). simpl in Hmin. by breflect.
  - case_bool_decide; naive_solver.
Qed.
End Compose.

(** Composition: a decision composes to Clear exactly when every question
    of its set is clear; otherwise its reason is the first question that is
    not clear, and it restricts exactly when some question restricts (it
    needs the owner otherwise). *)
Theorem compose_spec d :
  let questions := set_questions (static_set (dec_set d)) in
  let verdicts :=
    zip_with (λ q (p : QuestionId * Reading), verdict q p.2) questions (dec_readings d) in
  match compose d with
  | Disposition.Clear => Forall (λ v, v = ODClear) verdicts
  | Disposition.NeedsOwner r | Disposition.Restrict r =>
      ∃ i q v, questions !! i = Some q ∧ verdicts !! i = Some v ∧ v ≠ ODClear ∧
        r = Reason.Question (q_id q) ∧
        (∀ j w, (j < i)%nat → verdicts !! j = Some w → w = ODClear) ∧
        (compose d = Disposition.Restrict r ↔ ODRestrict ∈ verdicts)
  end.
Proof.
  intros questions verdicts. pose proof (compose_clear d) as Hc.
  pose proof (compose_reason d) as Hr.
  destruct (compose d) as [|r|r]; [by apply Hc|by apply Hr..].
Qed.

(** ** Decisions of the registered sets *)

(** A decision that [decode] produced for a registered set. *)
Definition decoded (d : Decision) : Prop :=
  ∃ set reply binding attempt, set ∈ REGISTRY ∧ decode set reply binding attempt = Ok d.

(** Advice whose decision, if any, was decoded. *)
Definition advice_ok (advice : option Advice) : Prop :=
  ∀ d, advice = Some (Decided d) → decoded d.

Lemma registry_rules_of set : set ∈ REGISTRY → registry_rules (static_set set).
Proof.
  destruct registered_rules as (? & ? & ?). unfold REGISTRY.
  rewrite !elem_of_cons, elem_of_nil. intros [->|[->|[->|[]]]]; done.
Qed.

Lemma registry_ptr_eq s1 s2 : s1 ∈ REGISTRY → s2 ∈ REGISTRY → ptr_eq s1 s2 = true → s1 = s2.
Proof.
  unfold REGISTRY. rewrite !elem_of_cons, !elem_of_nil.
  intros [->|[->|[->|[]]]] [->|[->|[->|[]]]]; done.
Qed.

Lemma decoded_facts d : decoded d →
  let questions := set_questions (static_set (dec_set d)) in
  dec_set d ∈ REGISTRY ∧
  Forall2 (λ q p, answer_ok q p.2) questions (dec_answers d) ∧
  dec_readings d = zip_with (λ q p, (q_id q, read q p.2)) questions (dec_answers d).
Proof.
  intros (set & reply & b & a & Hset & Hd).
  pose proof (decode_ok_inv _ _ _ _ _ (registry_rules_of set Hset) Hd)
    as (-> & _ & _ & _ & Ha & Hr & _). done.
Qed.

Lemma required_ok advice set d : set ∈ REGISTRY → advice_ok advice →
  required advice set = Ok d ↔ advice = Some (Decided d) ∧ dec_set d = set.
Proof.
  intros Hset Hok. unfold required. destruct advice as [[d'|f]|]; [|naive_solver..].
  specialize (Hok d' eq_refl). destruct (decoded_facts d' Hok) as [Hin _].
  destruct (ptr_eq (dec_set d') set) eqn:E.
  - apply registry_ptr_eq in E; [|done..]. naive_solver.
  - split; [done|]. intros [[= ->] <-]. unfold ptr_eq in E. by rewrite Z.eqb_refl in E.
Qed.

(** The answer to a Noul question is one probability. *)
Lemma noul_answer q pol p : q_kind q = Noul pol → answer_ok q p → ∃ x, p = ANoul x.
Proof. unfold answer_ok. intros ->. destruct p; [eauto|done..]. Qed.

(** What the registered questions read: the thresholds of the first version. *)
Lemma read_v1 q pol x : q_kind q = Noul pol → q_read q = V1_READ →
  read q (ANoul x) =
  if 700000 <? Ppm_get x then Yes else if Ppm_get x <? 300000 then No else Unsettled.
Proof. intros Hk Hr. unfold read. rewrite Hk, Hr. unfold read_noul. done. Qed.

(** A Noul set: every question is a Noul read with the first version's
    thresholds. *)
Definition noul_set (set : QuestionSet) : bool :=
  forallb (λ q, is_noul (q_kind q) && bool_decide (q_read q = V1_READ)) (set_questions set).

(** The probability that makes a Noul question clear. *)
Definition clear_ppm (q : Question) (p : Z) : bool :=
  match q_kind q with
  | Noul Risk => p <? 300000
  | Noul Positive => 700000 <? p
  | _ => false
  end.

Lemma verdict_clear_ppm q x :
  is_noul (q_kind q) = true → q_read q = V1_READ →
  verdict q (read q (ANoul x)) = ODClear ↔ clear_ppm q (Ppm_get x) = true.
Proof.
  intros Hk Hr. destruct (q_kind q) as [pol| |] eqn:E; try done. clear Hk.
  rewrite (read_v1 q pol) by done. unfold verdict, clear_ppm. rewrite E.
  destruct pol, (Z.ltb_spec 700000 (Ppm_get x)), (Z.ltb_spec (Ppm_get x) 300000);
    first [done|lia].
Qed.

(** The probabilities a decision of a Noul set holds. *)
Definition ppms (d : Decision) : list Z :=
  (λ p : QuestionId * Answer, match p.2 with ANoul x => Ppm_get x | _ => 0 end) <$> dec_answers d.

Lemma compose_ppms d :
  decoded d → noul_set (static_set (dec_set d)) = true →
  compose d = Disposition.Clear ↔
  Forall2 (λ q p, clear_ppm q p = true) (set_questions (static_set (dec_set d))) (ppms d).
Proof.
  intros Hd Hn. apply decoded_facts in Hd as (_ & Ha & Hr).
  rewrite compose_clear, Hr. unfold ppms, noul_set in *. clear Hr.
  induction Ha as [|q [k a] qs as' Hq _ IH]; [split; constructor|].
  cbn [forallb] in Hn. breflect.
  destruct (q_kind q) as [pol| |] eqn:Ek; try done.
  destruct (noul_answer q pol a Ek Hq) as [x ->].
  cbn [zip_with]. rewrite fmap_cons, Forall_cons, Forall2_cons, (IH ltac:(done)). simpl.
  by rewrite verdict_clear_ppm by (by rewrite ?Ek).
Qed.

Lemma sentinel_clear s1a advice :
  Sentinel.sentinel s1a advice = Sentinel.Clear ↔
  s1a = Pass ∧ ∃ d, required advice SEN_1 = Ok d ∧ compose d = Disposition.Clear.
Proof.
  unfold Sentinel.sentinel. case_bool_decide as Hs; simpl; [|by split; [|intros [? _]]].
  destruct (required advice SEN_1) as [d|f]; simpl; [|by split; [|intros (_ & ? & ? & _)]].
  split.
  - intros H. split; [done|]. exists d. split; [done|]. by destruct (compose d).
  - intros (_ & d' & [= <-] & ->). done.
Qed.

(** The Sentinel passes a page exactly when the deterministic check
    passed and the advice is a decision of [sen_1] itself whose three risk
    questions are below 30% and whose consistency question is above 70%;
    every failure, every other set and every unsettled answer halts it. *)
Theorem sentinel_eligible_iff s1a advice :
  advice_ok advice →
  Sentinel.eligible (Sentinel.sentinel s1a advice) = true ↔
  s1a = Pass ∧ ∃ d, advice = Some (Decided d) ∧ dec_set d = SEN_1 ∧
    ∃ hours contact addressed consistent,
      ppms d = [hours; contact; addressed; consistent] ∧
      hours < 300000 ∧ contact < 300000 ∧ addressed < 300000 ∧ 700000 < consistent.
Proof.
  intros Hok.
  assert (He : Sentinel.eligible (Sentinel.sentinel s1a advice) = true ↔
    Sentinel.sentinel s1a advice = Sentinel.Clear) by (destruct (Sentinel.sentinel _ _); done).
  rewrite He, sentinel_clear.
  setoid_rewrite (required_ok advice SEN_1); [|by left|done].
  apply and_iff_compat_l. apply exist_proper. intros d.
  split.
  - intros ((-> & Hset) & Hc). split_and!; [done..|].
    apply compose_ppms in Hc; [|by apply Hok|by rewrite Hset]. rewrite Hset in Hc.
    do 4 (apply Forall2_cons_inv_l in Hc as (? & ? & ? & Hc & ->)).
    apply Forall2_nil_inv_l in Hc as ->. unfold clear_ppm in *. simpl in *. breflect. eauto 10.
  - intros (-> & Hset & h & c & a & f & Hp & H1 & H2 & H3 & H4). split_and!; [done..|].
    apply compose_ppms; [by apply Hok|by rewrite Hset|]. rewrite Hset, Hp.
    repeat constructor; by apply Z.ltb_lt.
Qed.

(** A decision for the witnesses: a reply to the given registered set. *)
Definition decision_of (set : StaticSet) (reply : str) : option Decision :=
  match decode set reply [] First with Ok d => Some d | Err _ => None end.

Lemma decision_of_ok set reply :
  set ∈ REGISTRY → advice_ok (Decided <$> decision_of set reply).
Proof.
  intros Hs d Hd. exists set, reply, [], First. split; [done|]. unfold decision_of in Hd.
  destruct (decode set reply [] First); by simplify_eq/=.
Qed.

Definition sen_reply : str :=
  js "{`facts_consistent`:0.9,`hours_conflict`:0.1,`other_contact`:0,`addressed_to_ai`:0.299999}".

Lemma sentinel_eligible_iff_witness :
  Pass = Pass ∧ ∃ d, Decided <$> decision_of SEN_1 sen_reply = Some (Decided d) ∧
    dec_set d = SEN_1 ∧
    ∃ hours contact addressed consistent,
      ppms d = [hours; contact; addressed; consistent] ∧
      hours < 300000 ∧ contact < 300000 ∧ addressed < 300000 ∧ 700000 < consistent.
Proof.
  apply (proj1 (sentinel_eligible_iff Pass (Decided <$> decision_of SEN_1 sen_reply)
    (decision_of_ok SEN_1 sen_reply ltac:(by left)))).
  vm_compute. reflexivity.
Defined.

(** ** The Verifier *)

Lemma fact_clear c a : fact c a = Disposition.Clear ↔ c = Pass ∧ a = Ok Yes.
Proof.
  split; [|by intros [-> ->]].
  destruct c, a as [[]|]; intros; (discriminate || by split).
Qed.

(** How restrictive the deterministic check alone is. *)
Definition check_rank (c : Check) : Z := match c with Pass => 0 | Fail_ => 1 | Error_ => 2 end.

Lemma fact_rank c a : check_rank c ≤ Disposition.rank (fact c a).
Proof. destruct c, a as [[]|]; simpl; lia. Qed.

Lemma rank_clear f : Disposition.rank f ≤ 0 ↔ f = Disposition.Clear.
Proof. destruct f; simpl; split; intros; first [done|lia|discriminate]. Qed.

(** The overall result is the first fact of the highest rank. *)
Lemma overall_spec (facts : list Disposition.t) :
  facts ≠ [] →
  let overall := default (Disposition.Restrict Reason.CheckError)
    (List.find (λ f, Disposition.rank f =? max_or 2 (Disposition.rank <$> facts)) facts) in
  overall ∈ facts ∧ ∀ f, f ∈ facts → Disposition.rank f ≤ Disposition.rank overall.
Proof.
  intros Hne overall.
  assert (Hin : max_or 2 (Disposition.rank <$> facts) ∈ Disposition.rank <$> facts)
    by (apply max_or_in; by destruct facts).
  unfold overall. destruct (List.find _ facts) as [f|] eqn:Hf.
  - apply List.find_some in Hf as [Hf%list_elem_of_In E]. breflect. split; [done|].
    intros g Hg. simpl. rewrite E. by apply max_or_ge, list_elem_of_fmap_2.
  - exfalso. apply list_elem_of_fmap in Hin as (g & E & Hg).
    apply list_elem_of_In in Hg. apply (List.find_none _ _ Hf) in Hg.
    rewrite <- E, Z.eqb_refl in Hg. done.
Qed.

(** The reading of a probability under the first version's thresholds. *)
Definition reading_v1 (p : Z) : Reading :=
  if 700000 <? p then Yes else if p <? 300000 then No else Unsettled.

Lemma noul_readings d :
  decoded d → noul_set (static_set (dec_set d)) = true →
  (dec_readings d).*2 = reading_v1 <$> ppms d ∧
  length (ppms d) = length (set_questions (static_set (dec_set d))).
Proof.
  intros Hd Hn. apply decoded_facts in Hd as (_ & Ha & Hr).
  rewrite Hr. unfold ppms, noul_set in *. clear Hr.
  induction Ha as [|q [k a] qs as' Hq _ IH]; [done|].
  cbn [forallb] in Hn. breflect. destruct IH as [IH1 IH2]; [done|].
  destruct (q_kind q) as [pol| |] eqn:Ek; try done.
  destruct (noul_answer q pol a Ek Hq) as [x ->].
  cbn [zip_with]. rewrite !fmap_cons. cbn [snd length]. rewrite IH1, IH2.
  by rewrite (read_v1 q pol) by done.
Qed.

(** Decided advice of [ver_1] has three readings, so the lookup never panics. *)
Lemma verifier_advice_spec advice : advice_ok advice →
  (∃ d p0 p1 p2, advice = Some (Decided d) ∧ dec_set d = VER_1 ∧ ppms d = [p0; p1; p2] ∧
     verifier_advice advice = Some (Ok <$> [reading_v1 p0; reading_v1 p1; reading_v1 p2])) ∨
  ((∀ d, advice = Some (Decided d) → dec_set d ≠ VER_1) ∧
   ∃ a, a ≠ Ok Yes ∧ verifier_advice advice = Some [a; a; a]).
Proof.
  intros Hok. pose proof (λ d, required_ok advice VER_1 d ltac:(right; by left) Hok) as Hreq.
  unfold verifier_advice. destruct (required advice VER_1) as [d|f].
  - left. destruct (proj1 (Hreq d) eq_refl) as [-> Hset].
    destruct (noul_readings d (Hok d eq_refl)) as [Hr Hl]; [by rewrite Hset|].
    rewrite Hset in Hl. destruct (ppms d) as [|p0 [|p1 [|p2 []]]] eqn:Hp; try discriminate Hl.
    destruct (dec_readings d) as [|[] [|[] [|[] []]]]; simplify_eq/=.
    by exists d, p0, p1, p2.
  - right. split.
    + intros d Hd Hset. specialize (Hreq d). naive_solver.
    + destruct f; eexists; (split; [|reflexivity]); done.
Qed.

Lemma reading_v1_yes p : (Ok (reading_v1 p) : result Reading Failure.t) = Ok Yes ↔ 700000 < p.
Proof.
  unfold reading_v1. repeat case_match; breflect; split; intros; first [done|lia|discriminate].
Qed.

(** The Verifier returns a result for any advice; each fact is at least
    as restrictive as its deterministic check, whatever the advice says; the
    overall result is the first of the most restrictive facts; and it is
    eligible exactly when all three checks pass and the advice is a decision
    of [ver_1] itself with all three probabilities above 70%. *)
Theorem verifier_restrictive d0 d1 d2 advice :
  advice_ok advice →
  ∃ f0 f1 f2 overall,
    verifier (d0, d1, d2) advice = Some (MkVerifierResult [f0; f1; f2] overall) ∧
    check_rank d0 ≤ Disposition.rank f0 ∧ check_rank d1 ≤ Disposition.rank f1 ∧
    check_rank d2 ≤ Disposition.rank f2 ∧
    overall ∈ [f0; f1; f2] ∧
    (∀ f, f ∈ [f0; f1; f2] → Disposition.rank f ≤ Disposition.rank overall) ∧
    (Disposition.eligible overall = true ↔
     d0 = Pass ∧ d1 = Pass ∧ d2 = Pass ∧
     ∃ d name hours phone, advice = Some (Decided d) ∧ dec_set d = VER_1 ∧
       ppms d = [name; hours; phone] ∧ 700000 < name ∧ 700000 < hours ∧ 700000 < phone).
Proof.
  intros Hok.
  assert (Hadv : ∃ a0 a1 a2, verifier_advice advice = Some [a0; a1; a2] ∧
    ((a0 = Ok Yes ∧ a1 = Ok Yes ∧ a2 = Ok Yes) ↔
     ∃ d name hours phone, advice = Some (Decided d) ∧ dec_set d = VER_1 ∧
       ppms d = [name; hours; phone] ∧ 700000 < name ∧ 700000 < hours ∧ 700000 < phone)).
  { destruct (verifier_advice_spec advice Hok) as
      [(d & p0 & p1 & p2 & -> & Hset & Hp & ->)|[Hno (a & Ha & ->)]]; do 3 eexists;
      (split; [reflexivity|]).
    - rewrite !reading_v1_yes. split; [intros; by exists d, p0, p1, p2|].
      intros (d' & n & h & ph & [= <-] & _ & Hp' & ?). rewrite Hp in Hp'. by injection Hp' as -> -> ->.
    - split; [by intros [? _]|]. intros (d & n & h & ph & Hd & Hset & _). by apply Hno in Hset. }
  destruct Hadv as (a0 & a1 & a2 & Ha & Hyes). unfold verifier. rewrite Ha. simpl.
  destruct (overall_spec [fact d0 a0; fact d1 a1; fact d2 a2]) as [Hin Hmax]; [done|].
  do 4 eexists. split; [reflexivity|]. split_and!; [apply fact_rank..|exact Hin|exact Hmax|].
  simpl in Hin, Hmax. set (o := default _ _) in *. rewrite <- Hyes.
  assert (He : Disposition.eligible o = true ↔ o = Disposition.Clear) by (by destruct o).
  rewrite He. split.
  - intros Ho. rewrite Ho in Hmax. simpl in Hmax.
    assert (H0 : fact d0 a0 = Disposition.Clear) by (apply rank_clear, Hmax; set_solver).
    assert (H1 : fact d1 a1 = Disposition.Clear) by (apply rank_clear, Hmax; set_solver).
    assert (H2 : fact d2 a2 = Disposition.Clear) by (apply rank_clear, Hmax; set_solver).
    apply fact_clear in H0 as [-> ->], H1 as [-> ->], H2 as [-> ->]. by split_and!.
  - intros (-> & -> & -> & -> & -> & ->). simpl in Hin. set_solver.
Qed.

Definition ver_reply : str := js "{`name_shown`:0.9,`hours_shown`:1,`phone_shown`:0.8}".

Lemma verifier_restrictive_witness :
  ∃ f0 f1 f2 overall,
    verifier (Pass, Fail_, Pass) (Decided <$> decision_of VER_1 ver_reply) =
      Some (MkVerifierResult [f0; f1; f2] overall) ∧
    check_rank Fail_ ≤ Disposition.rank f1.
Proof.
  destruct (verifier_restrictive Pass Fail_ Pass (Decided <$> decision_of VER_1 ver_reply)
    (decision_of_ok VER_1 ver_reply ltac:(right; by left)))
    as (f0 & f1 & f2 & o & E & _ & H & _).
  exists f0, f1, f2, o. split; [exact E|exact H].
Defined.

(** ** The notes screen *)

(** The notes screen returns a result for any advice and never refuses
    silently: it is Clear exactly when the advice is a decision of [inj_1]
    itself with a probability below 30%, and needs the owner otherwise. *)
Theorem notes_screen_spec advice :
  advice_ok advice →
  ∃ r, notes_screen advice = Some r ∧
    (∀ reason, r ≠ Disposition.Restrict reason) ∧
    (Disposition.eligible r = true ↔
     ∃ d p, advice = Some (Decided d) ∧ dec_set d = INJ_1 ∧ ppms d = [p] ∧ p < 300000).
Proof.
  intros Hok.
  pose proof (λ d, required_ok advice INJ_1 d ltac:(do 2 right; by left) Hok) as Hreq.
  unfold notes_screen. destruct (required advice INJ_1) as [d|f].
  - destruct (proj1 (Hreq d) eq_refl) as [-> Hset].
    destruct (noul_readings d (Hok d eq_refl)) as [Hr Hl]; [by rewrite Hset|].
    rewrite Hset in Hl. destruct (ppms d) as [|p []] eqn:Hp; try discriminate Hl.
    destruct (dec_readings d) as [|[k r] []]; simplify_eq/=.
    eexists. split; [reflexivity|].
    unfold verdict, reading_v1. simpl.
    assert (Hiff : (∃ d0 p0, Some (Decided d) = Some (Decided d0) ∧ dec_set d0 = INJ_1 ∧
      ppms d0 = [p0] ∧ p0 < 300000) ↔ p < 300000).
    { split; [|intros; by exists d, p]. intros (d' & p' & [= <-] & _ & Hp' & ?).
      rewrite Hp in Hp'. by injection Hp' as ->. }
    rewrite Hiff. split; [repeat case_match; done|].
    destruct (Z.ltb_spec 700000 p), (Z.ltb_spec p 300000); simpl; split; intros;
      first [done|lia].
  - assert (Hno : ¬ ∃ d p, advice = Some (Decided d) ∧ dec_set d = INJ_1 ∧ ppms d = [p] ∧
      p < 300000).
    { intros (d & p & Hd & Hset & _). discriminate (proj2 (Hreq d) (conj Hd Hset)). }
    destruct f; eexists; (split; [reflexivity|]); (split; [done|]); (split; [done|]);
      intros H; by destruct Hno.
Qed.

Lemma notes_screen_spec_witness :
  ∃ r, notes_screen (Decided <$> decision_of INJ_1 (js "{`instructs_ai`:0.2}")) = Some r ∧
    ∀ reason, r ≠ Disposition.Restrict reason.
Proof.
  destruct (notes_screen_spec (Decided <$> decision_of INJ_1 (js "{`instructs_ai`:0.2}"))
    (decision_of_ok INJ_1 _ ltac:(do 2 right; by left))) as (r & E & H & _).
  exists r. split; [exact E|exact H].
Defined.

(** ** Codes *)

Definition all_failures : list Failure.t :=
  (Failure.Refused <$> PreflightCode.ALL) ++ (Failure.Transport <$> TransportCode.ALL) ++
  [Failure.CoverageInsufficient; Failure.ReplyTooLarge; Failure.Malformed; Failure.Stopped;
   Failure.Cancelled; Failure.Timeout; Failure.Late; Failure.Stale; Failure.Unrecorded;
   Failure.Missing].

Definition registered_ids : list QuestionId :=
  REGISTRY ≫= (λ set, set_keys (static_set set)).

Definition all_reasons : list Reason.t :=
  (Reason.Question <$> registered_ids) ++ (Reason.Td <$> all_failures) ++
  (Reason.AdviceUnavailable <$> all_failures) ++ (Reason.NotesUnavailable <$> all_failures) ++
  [Reason.AdviceDisagrees; Reason.AdviceUnsettled; Reason.FormatVariant; Reason.Deterministic;
   Reason.CheckError; Reason.NotesInstructsAi; Reason.NotesUnsettled].

Lemma all_failures_complete f : f ∈ all_failures.
Proof. destruct f as [[]| |[]| | | | | | | | |]; apply (bool_decide_eq_true_1 _); vm_compute; done. Qed.

Lemma all_reasons_complete r :
  (∀ id, r = Reason.Question id → id ∈ registered_ids) → r ∈ all_reasons.
Proof.
  intros Hid. pose proof all_failures_complete as Hf. unfold all_reasons.
  rewrite !elem_of_app, !list_elem_of_fmap.
  destruct r as [id|f| | |f| | | | | |f]; eauto 7;
    do 4 right; apply (bool_decide_eq_true_1 _); vm_compute; done.
Qed.

Lemma NoDup_fmap_inj {A B} (f : A → B) l x y :
  NoDup (f <$> l) → x ∈ l → y ∈ l → f x = f y → x = y.
Proof.
  intros Hn [i Hi]%list_elem_of_lookup [j Hj]%list_elem_of_lookup E.
  assert (i = j) as ->; [|by simplify_eq].
  eapply (NoDup_lookup (f <$> l)); [done|by rewrite list_lookup_fmap, Hi|].
  by rewrite list_lookup_fmap, Hj, E.
Qed.

(** Codes identify outcomes: two failures, and two reasons about
    registered questions, with the same code string are equal; the code of a
    preflight refusal inside a failure is the refusal's own outcome, except
    for insufficient coverage, which has a failure of its own. *)
Theorem reason_codes_distinct :
  (∀ f1 f2, Failure.code f1 = Failure.code f2 → f1 = f2) ∧
  (∀ r1 r2,
     (∀ id, r1 = Reason.Question id ∨ r2 = Reason.Question id → id ∈ registered_ids) →
     Reason.code r1 = Reason.code r2 → r1 = r2) ∧
  (∀ refusal, Failure.code (Failure.from_refusal refusal) =
     match refusal with
     | Budget.CoverageInsufficient _ _ => Refusal_code refusal
     | _ => Refusal_outcome refusal
     end).
Proof.
  split_and!.
  - intros f1 f2. apply (NoDup_fmap_inj _ all_failures); [|apply all_failures_complete..].
    apply (bool_decide_eq_true_1 _). vm_compute. done.
  - intros r1 r2 Hid. apply (NoDup_fmap_inj _ all_reasons);
      [apply (bool_decide_eq_true_1 _); vm_compute; done|apply all_reasons_complete; auto..].
  - by intros [].
Qed.
