(* ===== verification/Hash.v ===== *)
(** * The registry and set hashes

    [crates/nexus-typed-decision/src/hash.rs]: what [set_hash] and
    [registry_hash] feed to SHA-256. The digest function itself is the [sha2]
    crate: a parameter here. *)

From S2P Require Import Prelude Registry Render.

Local Open Scope Z_scope.

Definition SET_DOMAIN : bytes := lit "nexus.typed_decision.set.v1".
Definition REGISTRY_DOMAIN : bytes := lit "nexus.typed_decision.registry.v1".

(** What [put] feeds to the digest for one field: its length as a big-endian
    [u64], then its bytes. *)
Definition put (b : bytes) : bytes := to_be_bytes 8 (Z.of_nat (length b)) ++ b.
Definition put_text (s : str) : bytes := put (as_bytes s).
(** [(n as u64).to_be_bytes()] as a field. *)
Definition put_u64 (n : nat) : bytes := put (to_be_bytes 8 (Z.of_nat n)).

Record RuleIds := MkRuleIds {
  rule_prompt : str;
  rule_decode : str;
  rule_normalize : str;
  rule_read : str;
  rule_escape : str;
  rule_frame : str;
  rule_chars : str;
}.

Definition RULES_V1 : RuleIds :=
  MkRuleIds (lit "td-prompt-v1") (lit "td-decode-v1") (lit "td-normalize-v1")
    (lit "td-read-v1") (lit "td-escape-v1") (lit "td-frame-v1") (lit "td-chars-v1").

Definition put_option (o : Label * OptionDisposition) : bytes :=
  put_text (Label_as_str o.1) ++ put_text (OptionDisposition_code o.2).

Definition put_kind (k : Kind) : bytes :=
  match k with
  | Noul polarity => put (lit "noul") ++ put_text (Polarity_code polarity)
  | Choice options =>
      put (lit "choice") ++ put_u64 (length options) ++ (options ≫= put_option)
  | Score levels at_least polarity =>
      put (lit "score") ++ put_u64 (length levels) ++
      (levels ≫= (λ l, put_text (Label_as_str l))) ++
      put (to_be_bytes 1 at_least) ++ put_text (Polarity_code polarity)
  end.

Definition put_question (q : Question) : bytes :=
  put_text (QuestionId_as_str (q_id q)) ++ put_kind (q_kind q) ++
  put_text (q_instructions q) ++ put_text (q_if_yes q) ++ put_text (q_if_no q) ++
  put (to_be_bytes 4 (Ppm_get (no_below (q_read q)))) ++
  put (to_be_bytes 4 (Ppm_get (yes_above (q_read q)))).

Definition put_phrases (phrases : list str) : bytes :=
  zip DecodeCode_ALL phrases ≫= (λ p, put_text (DecodeCode_code p.1) ++ put_text p.2).

Definition put_texts (t : Texts) : bytes :=
  ([preamble t; rule_noul_probabilities t; describe_page_text_v1 t;
    describe_untrusted_text_v1 t; shape_intro t; shape_ending t;
    correction_prefix t; correction_suffix t] ≫= put_text) ++
  put_phrases (phrases t).

Definition put_rules (r : RuleIds) : bytes :=
  [rule_prompt r; rule_decode r; rule_normalize r; rule_read r; rule_escape r;
   rule_frame r; rule_chars r] ≫= put_text.

(** The system text, or the marker of its absence. *)
Definition system_or_marker (set : QuestionSet) (texts : Texts) : str :=
  match render_system_with set texts with
  | Ok system => system
  | Err e => RenderError_to_string e
  end.

Definition set_preimage (set : QuestionSet) (texts : Texts) (rules : RuleIds) : bytes :=
  put SET_DOMAIN ++ put_text (SetId_as_str (set_id set)) ++
  put (to_be_bytes 2 (set_version set)) ++ put_text (Lane_code (set_lane set)) ++
  put_text (ProjectionId_id (set_projection set)) ++
  put (to_be_bytes 2 (ProjectionId_version (set_projection set))) ++
  put_text (AnswerMode_code (set_mode set)) ++
  put_u64 (length (set_questions set)) ++ (set_questions set ≫= put_question) ++
  put_text (system_or_marker set texts) ++ put_text (render_schema set) ++
  put_texts texts ++ put_rules rules.

Section Digest.
Context (sha256 : bytes → bytes).

Definition set_hash_with (set : QuestionSet) (texts : Texts) (rules : RuleIds) : bytes :=
  sha256 (set_preimage set texts rules).
Definition set_hash (set : QuestionSet) : bytes := set_hash_with set TEXTS_V1 RULES_V1.

Definition put_set (texts : Texts) (rules : RuleIds) (set : QuestionSet) : bytes :=
  put_text (SetId_as_str (set_id set)) ++ put (set_hash_with set texts rules).
Definition registry_preimage (sets : list QuestionSet) (texts : Texts) (rules : RuleIds)
    : bytes :=
  put REGISTRY_DOMAIN ++ put_u64 (length sets) ++ (sets ≫= put_set texts rules) ++
  put_rules rules.
Definition registry_hash_of (sets : list QuestionSet) (texts : Texts) (rules : RuleIds)
    : bytes :=
  sha256 (registry_preimage sets texts rules).
Definition registry_hash : bytes :=
  registry_hash_of (static_set <$> REGISTRY) TEXTS_V1 RULES_V1.
End Digest.

(** ** What the types guarantee *)

Definition u64_len (n : nat) : Prop := Z.of_nat n < 2 ^ 64.

(** A Rust string: scalar values, of a length a [usize] holds. *)
Definition rust_str (s : str) : Prop := is_text_str s ∧ u64_len (length (as_bytes s)).
Definition rust_u (bits : Z) (v : Z) : Prop := 0 ≤ v < 2 ^ bits.

Definition kind_typed (k : Kind) : Prop :=
  match k with
  | Noul _ => True
  | Choice options => u64_len (length options) ∧ Forall (λ o, rust_str (Label_as_str o.1)) options
  | Score levels at_least _ =>
      u64_len (length levels) ∧ Forall (λ l, rust_str (Label_as_str l)) levels ∧ rust_u 8 at_least
  end.

Record question_typed (q : Question) : Prop := {
  qt_id : rust_str (QuestionId_as_str (q_id q));
  qt_kind : kind_typed (q_kind q);
  qt_instructions : rust_str (q_instructions q);
  qt_if_yes : rust_str (q_if_yes q);
  qt_if_no : rust_str (q_if_no q);
  qt_no_below : rust_u 32 (Ppm_get (no_below (q_read q)));
  qt_yes_above : rust_u 32 (Ppm_get (yes_above (q_read q)));
}.

Record set_typed (set : QuestionSet) : Prop := {
  st_id : rust_str (SetId_as_str (set_id set));
  st_version : rust_u 16 (set_version set);
  st_count : u64_len (length (set_questions set));
  st_questions : Forall question_typed (set_questions set);
}.

Record texts_typed (t : Texts) : Prop := {
  tt_texts : Forall rust_str
    [preamble t; rule_noul_probabilities t; describe_page_text_v1 t;
     describe_untrusted_text_v1 t; shape_intro t; shape_ending t;
     correction_prefix t; correction_suffix t];
  tt_count : length (phrases t) = 9%nat;
  tt_phrases : Forall rust_str (phrases t);
}.

Definition rules_typed (r : RuleIds) : Prop :=
  Forall rust_str
    [rule_prompt r; rule_decode r; rule_normalize r; rule_read r; rule_escape r;
     rule_frame r; rule_chars r].

(** The rendered artifacts are Rust strings too. *)
Definition rendered_typed (set : QuestionSet) (texts : Texts) : Prop :=
  u64_len (length (as_bytes (system_or_marker set texts))) ∧
  u64_len (length (as_bytes (render_schema set))).

Record hash_input (set : QuestionSet) (texts : Texts) (rules : RuleIds) : Prop := {
  hi_set : set_typed set;
  hi_texts : texts_typed texts;
  hi_rules : rules_typed rules;
  hi_rendered : rendered_typed set texts;
}.

(** ** Every field is self-delimiting *)

Lemma put_delimited : delimited (λ b, u64_len (length b)) put.
Proof.
  intros x y r1 r2 Hx Hy E. unfold put in E. rewrite <- !app_assoc in E.
  apply app_inj_1 in E as [Hl E]; [|by rewrite !length_to_be_bytes].
  apply to_be_bytes_inj in Hl; [|unfold u64_len in *; simpl; lia..].
  apply app_inj_1 in E as [-> ->]; [done|lia].
Qed.

Lemma put_text_delimited : delimited rust_str put_text.
Proof.
  intros x y r1 r2 [Hx Lx] [Hy Ly] E. apply put_delimited in E as [E ->]; [|done..].
  by apply as_bytes_inj in E.
Qed.

(** A number as a field of [n] bytes. *)
Lemma put_be_delimited n : (n ≤ 8)%nat →
  delimited (rust_u (8 * Z.of_nat n)) (λ v, put (to_be_bytes n v)).
Proof.
  intros Hn x y r1 r2 Hx Hy E.
  apply put_delimited in E as [E ->]; [|by unfold u64_len; rewrite length_to_be_bytes; lia..].
  unfold rust_u in *. rewrite Z.pow_mul_r in Hx, Hy by lia.
  apply to_be_bytes_inj in E; [done|by change 256 with (2 ^ 8)..].
Qed.

Lemma put_u64_delimited : delimited u64_len put_u64.
Proof.
  intros x y r1 r2 Hx Hy E. apply (put_be_delimited 8) in E as [E ->]; [split; [lia|done]|lia|..];
    unfold u64_len, rust_u in *; simpl; lia.
Qed.

(** An enum by its code string. *)
Lemma put_code_delimited {A} (code : A → str) :
  (∀ x, rust_str (code x)) → (∀ x y, code x = code y → x = y) →
  delimited (λ _, True) (λ x, put_text (code x)).
Proof.
  intros Hs Hi x y r1 r2 _ _ E. apply put_text_delimited in E as [E ->]; [|done..].
  split; [by apply Hi|done].
Qed.

Lemma closed_rust_str s : bool_decide (rust_str s) = true → rust_str s.
Proof. by intros ?%bool_decide_eq_true_1. Qed.

Ltac enum_code :=
  apply put_code_delimited;
  [intros []; by apply closed_rust_str
  |intros [] []; first [done|intros E; vm_compute in E; discriminate E]].

Lemma put_polarity_delimited : delimited (λ _, True) (λ p, put_text (Polarity_code p)).
Proof. enum_code. Qed.
Lemma put_disposition_delimited : delimited (λ _, True) (λ p, put_text (OptionDisposition_code p)).
Proof. enum_code. Qed.
Lemma put_lane_delimited : delimited (λ _, True) (λ p, put_text (Lane_code p)).
Proof. enum_code. Qed.
Lemma put_projection_delimited : delimited (λ _, True) (λ p, put_text (ProjectionId_id p)).
Proof. enum_code. Qed.
Lemma put_mode_delimited : delimited (λ _, True) (λ p, put_text (AnswerMode_code p)).
Proof. enum_code. Qed.

(** Takes the next field off both sides of an equation of preimages. *)
Ltac next_field lem E :=
  rewrite <- ?app_assoc in E;
  let Ef := fresh "Ef" in
  apply lem in E as [Ef E]; [|by auto..].

Lemma put_option_delimited : delimited (λ o, rust_str (Label_as_str o.1)) put_option.
Proof.
  intros [[l1] d1] [[l2] d2] r1 r2 H1 H2 E. unfold put_option in E. cbn [fst snd Label_as_str] in *.
  next_field put_text_delimited E. next_field put_disposition_delimited E. by subst.
Qed.

Lemma put_label_delimited :
  delimited (λ l, rust_str (Label_as_str l)) (λ l, put_text (Label_as_str l)).
Proof.
  intros [l1] [l2] r1 r2 H1 H2 E. next_field put_text_delimited E. simpl in *. by subst.
Qed.

(** A counted list of self-delimiting items. *)
Lemma put_list_delimited {A} (ok : A → Prop) (f : A → bytes) l1 l2 r1 r2 :
  delimited ok f → u64_len (length l1) → u64_len (length l2) → Forall ok l1 → Forall ok l2 →
  put_u64 (length l1) ++ (l1 ≫= f) ++ r1 = put_u64 (length l2) ++ (l2 ≫= f) ++ r2 →
  l1 = l2 ∧ r1 = r2.
Proof.
  intros Hf L1 L2 H1 H2 E. next_field put_u64_delimited E. by eapply delimited_list.
Qed.

Lemma kind_tag_delimited x y (r1 r2 : bytes) :
  x ∈ [lit "noul"; lit "choice"; lit "score"] → y ∈ [lit "noul"; lit "choice"; lit "score"] →
  put x ++ r1 = put y ++ r2 → x = y ∧ r1 = r2.
Proof.
  assert (H : ∀ x, x ∈ [lit "noul"; lit "choice"; lit "score"] → u64_len (length x)).
  { intros z. rewrite !elem_of_cons, elem_of_nil. intros [->|[->|[->|[]]]]; done. }
  intros Hx Hy E. by apply put_delimited in E; [|apply H..].
Qed.

Lemma put_kind_delimited : delimited kind_typed put_kind.
Proof.
  intros k1 k2 r1 r2 H1 H2 E. unfold put_kind in E.
  destruct k1 as [p1|o1|v1 a1 p1], k2 as [p2|o2|v2 a2 p2]; rewrite <- !app_assoc in E;
    apply kind_tag_delimited in E as [Et E]; try (discriminate Et);
    try (apply (bool_decide_eq_true_1 _); done); simpl in H1, H2.
  - next_field put_polarity_delimited E. by subst.
  - apply (put_list_delimited _ _ _ _ _ _ put_option_delimited) in E as [-> ->]; naive_solver.
  - destruct H1 as (? & ? & ?), H2 as (? & ? & ?).
    apply (put_list_delimited _ _ _ _ _ _ put_label_delimited) in E as [-> E]; [|done..].
    apply (put_be_delimited 1) in E as [-> E]; [|lia|done..].
    next_field put_polarity_delimited E. by subst.
Qed.

Lemma put_question_delimited : delimited question_typed put_question.
Proof.
  intros [[i1] k1 a1 b1 c1 [[n1] [y1]]] [[i2] k2 a2 b2 c2 [[n2] [y2]]] r1 r2
    [H1 H2 H3 H4 H5 H6 H7] [J1 J2 J3 J4 J5 J6 J7] E.
  unfold put_question in E. simpl in H1, H2, H3, H4, H5, H6, H7, J1, J2, J3, J4, J5, J6, J7.
  cbn [q_id QuestionId_as_str q_kind q_instructions q_if_yes q_if_no q_read no_below yes_above Ppm_get] in E.
  next_field put_text_delimited E. next_field put_kind_delimited E.
  do 3 next_field put_text_delimited E.
  do 2 (rewrite <- ?app_assoc in E; apply (put_be_delimited 4) in E as [? E]; [|lia|done..]).
  by subst.
Qed.

Lemma put_phrases_delimited p1 p2 r1 r2 :
  length p1 = 9%nat → length p2 = 9%nat → Forall rust_str p1 → Forall rust_str p2 →
  put_phrases p1 ++ r1 = put_phrases p2 ++ r2 → p1 = p2 ∧ r1 = r2.
Proof.
  intros L1 L2 H1 H2 E. unfold put_phrases in E.
  assert (Hcode : ∀ c, rust_str (DecodeCode_code c)) by (intros []; by apply closed_rust_str).
  assert (Hok : ∀ p, Forall rust_str p →
    Forall (λ x : DecodeCode * str, rust_str x.2) (zip DecodeCode_ALL p)).
  { intros p Hp. apply Forall_forall. intros [c t] [i [_ Hi]%lookup_zip_Some]%list_elem_of_lookup.
    simpl. rewrite Forall_forall in Hp. by eapply Hp, list_elem_of_lookup_2. }
  eapply (delimited_list (λ x : DecodeCode * str, rust_str x.2)) in E as [E ->];
    [|intros [c1 t1] [c2 t2] s1 s2 K1 K2 E'; simpl in *|by rewrite !length_zip, L1, L2
     |by apply Hok..].
  - split; [|done].
    rewrite <- (snd_zip DecodeCode_ALL p1), <- (snd_zip DecodeCode_ALL p2) by (rewrite ?L1, ?L2; done).
    by rewrite E.
  - rewrite <- !app_assoc in E'. apply put_text_delimited in E' as [Ec E']; [|done..].
    apply put_text_delimited in E' as [-> ->]; [|done..]. split; [|done]. f_equal.
    destruct c1, c2; first [done|vm_compute in Ec; discriminate Ec].
Qed.

Lemma put_texts_delimited : delimited texts_typed put_texts.
Proof.
  intros t1 t2 r1 r2 [T1 C1 P1] [T2 C2 P2] E. unfold put_texts in E.
  rewrite <- !app_assoc in E.
  apply (delimited_list _ _ _ _ _ _ put_text_delimited) in E as [Et E]; [|done..].
  apply put_phrases_delimited in E as [Ep ->]; [|done..].
  destruct t1, t2. simpl in *. by simplify_eq.
Qed.

Lemma put_rules_delimited : delimited rules_typed put_rules.
Proof.
  intros t1 t2 r1 r2 H1 H2 E. unfold put_rules in E.
  apply (delimited_list _ _ _ _ _ _ put_text_delimited) in E as [Et ->]; [|done..].
  destruct t1, t2. simpl in *. by simplify_eq.
Qed.

Lemma set_preimage_inj set1 set2 texts1 texts2 rules1 rules2 :
  hash_input set1 texts1 rules1 → hash_input set2 texts2 rules2 →
  set_preimage set1 texts1 rules1 = set_preimage set2 texts2 rules2 →
  set1 = set2 ∧ texts1 = texts2 ∧ rules1 = rules2.
Proof.
  intros [[I1 V1 C1 Q1] T1 R1 [A1 B1]] [[I2 V2 C2 Q2] T2 R2 [A2 B2]] E.
  destruct set1 as [[i1] v1 l1 p1 m1 q1], set2 as [[i2] v2 l2 p2 m2 q2].
  unfold set_preimage in E.
  cbn [set_id set_version set_lane set_projection set_mode set_questions SetId_as_str] in *.
  apply app_inv_head in E. next_field put_text_delimited E.
  apply (put_be_delimited 2) in E as [? E]; [|lia|done..].
  next_field put_lane_delimited E. next_field put_projection_delimited E.
  apply (put_be_delimited 2) in E as [_ E]; [|lia|done..].
  next_field put_mode_delimited E.
  apply (put_list_delimited _ _ _ _ _ _ put_question_delimited) in E as [? E]; [|done..].
  apply put_delimited in E as [_ E]; [|done..]. apply put_delimited in E as [_ E]; [|done..].
  next_field put_texts_delimited E.
  rewrite <- (app_nil_r (put_rules rules1)), <- (app_nil_r (put_rules rules2)) in E.
  next_field put_rules_delimited E. by subst.
Qed.

(** Two inputs with one digest, and such a pair among the inputs of two computations. *)
Definition clash (sha256 : bytes → bytes) (x y : bytes) : Prop := x ≠ y ∧ sha256 x = sha256 y.
Definition clash_among (sha256 : bytes → bytes) (xs ys : list bytes) : Prop :=
  ∃ x y, x ∈ xs ∧ y ∈ ys ∧ clash sha256 x y.
Lemma clash_or_same sha256 x y : sha256 x = sha256 y → x = y ∨ clash sha256 x y.
Proof. intros E. destruct (decide (x = y)); [by left|by right]. Qed.
Lemma clash_among_mono sha256 xs ys xs' ys' :
  xs ⊆ xs' → ys ⊆ ys' → clash_among sha256 xs ys → clash_among sha256 xs' ys'.
Proof. intros Hx Hy (x & y & ? & ? & ?). exists x, y. set_solver. Qed.

(** The set hash covers everything: two sets, with their texts and rule
    identifiers, that hash to the same digest are equal in every field, or
    the digest function has a collision, which the two preimages exhibit. *)
Theorem set_hash_binds sha256 set1 set2 texts1 texts2 rules1 rules2 :
  hash_input set1 texts1 rules1 → hash_input set2 texts2 rules2 →
  set_hash_with sha256 set1 texts1 rules1 = set_hash_with sha256 set2 texts2 rules2 →
  (set1 = set2 ∧ texts1 = texts2 ∧ rules1 = rules2) ∨
  clash sha256 (set_preimage set1 texts1 rules1) (set_preimage set2 texts2 rules2).
Proof.
  intros H1 H2 [Ep|?]%clash_or_same; [left|by right]. by apply set_preimage_inj.
Qed.

Lemma put_set_delimited sha256 texts rules :
  (∀ b, length (sha256 b) = 32%nat) →
  ∀ set1 set2 r1 r2, hash_input set1 texts rules → hash_input set2 texts rules →
  put_set sha256 texts rules set1 ++ r1 = put_set sha256 texts rules set2 ++ r2 →
  set_hash_with sha256 set1 texts rules = set_hash_with sha256 set2 texts rules ∧ r1 = r2.
Proof.
  intros Hlen set1 set2 r1 r2 [[I1 _ _ _] _ _ _] [[I2 _ _ _] _ _ _] E.
  unfold put_set in E. next_field put_text_delimited E.
  by apply put_delimited in E; [|unfold u64_len, set_hash_with; rewrite Hlen..].
Qed.

(** What the set hashes of a registry digest. *)
Definition set_inputs (texts : Texts) (rules : RuleIds) (sets : list QuestionSet) : list bytes :=
  (λ s, set_preimage s texts rules) <$> sets.

Lemma sets_bind sha256 texts rules sets1 sets2 r1 r2 :
  (∀ b, length (sha256 b) = 32%nat) → length sets1 = length sets2 →
  Forall (λ s, hash_input s texts rules) sets1 → Forall (λ s, hash_input s texts rules) sets2 →
  (sets1 ≫= put_set sha256 texts rules) ++ r1 = (sets2 ≫= put_set sha256 texts rules) ++ r2 →
  sets1 = sets2 ∨ clash_among sha256 (set_inputs texts rules sets1) (set_inputs texts rules sets2).
Proof.
  intros Hlen Hl H1. revert sets2 Hl. induction H1 as [|s1 sets1 Hs1 _ IH]; intros sets2 Hl H2 E.
  - left. by destruct sets2.
  - destruct H2 as [|s2 sets2 Hs2 H2]; [done|]. rewrite !bind_cons, <- !app_assoc in E.
    apply put_set_delimited in E as [Eh E]; [|done..].
    apply IH in E as [->|Hcl]; [|right; eapply clash_among_mono, Hcl; set_solver|simpl in Hl; lia|done].
    apply clash_or_same in Eh as [Ep|Hcl]; [|right; eexists _, _; split_and!; [by left..|done]].
    apply set_preimage_inj in Ep as (-> & _ & _); [by left|done..].
Qed.

(** The registry hash covers every registered set: two registries with
    the same texts and rules and the same registry digest are the same list
    of sets, or the preimages of the registries or of two of their sets are
    distinct with one digest. *)
Theorem registry_hash_binds sha256 texts rules sets1 sets2 :
  (∀ b, length (sha256 b) = 32%nat) →
  u64_len (length sets1) → u64_len (length sets2) →
  Forall (λ s, hash_input s texts rules) sets1 → Forall (λ s, hash_input s texts rules) sets2 →
  registry_hash_of sha256 sets1 texts rules = registry_hash_of sha256 sets2 texts rules →
  sets1 = sets2 ∨
  clash_among sha256 (set_inputs texts rules sets1) (set_inputs texts rules sets2) ∨
  clash sha256 (registry_preimage sha256 sets1 texts rules) (registry_preimage sha256 sets2 texts rules).
Proof.
  intros Hlen L1 L2 H1 H2 [Ep|?]%clash_or_same; [|by do 2 right].
  unfold registry_preimage in Ep. apply app_inv_head in Ep.
  next_field put_u64_delimited Ep. eapply sets_bind in Ep as [?|?]; [by left|by right; left|done..].
Qed.

(** The registered sets are typed inputs. *)
Ltac typed_leaf := apply (bool_decide_eq_true_1 _); vm_compute; reflexivity.

Lemma question_typed_v1 q :
  rust_str (QuestionId_as_str (q_id q)) → is_noul (q_kind q) = true →
  rust_str (q_instructions q) → rust_str (q_if_yes q) → rust_str (q_if_no q) →
  q_read q = V1_READ → question_typed q.
Proof.
  intros ? Hk ? ? ? Hr. split; rewrite ?Hr; [done|by destruct (q_kind q)|done..|typed_leaf|typed_leaf].
Qed.

Lemma registered_hash_input set :
  set ∈ REGISTRY → hash_input (static_set set) TEXTS_V1 RULES_V1.
Proof.
  assert (Ht : texts_typed TEXTS_V1) by (split; typed_leaf).
  assert (Hr : rules_typed RULES_V1) by typed_leaf.
  unfold REGISTRY. rewrite !elem_of_cons, elem_of_nil.
  intros [->|[->|[->|[]]]]; (split; [|done|done|split; typed_leaf]);
    (split; [typed_leaf|typed_leaf|typed_leaf|]);
    repeat (constructor; [apply question_typed_v1; first [typed_leaf|done]|]); constructor.
Qed.

(** A stand-in digest for the witnesses: the first 32 bytes, padded. *)
Definition toy_digest (b : bytes) : bytes := take 32 (b ++ replicate 32 0).

Lemma toy_digest_length b : length (toy_digest b) = 32%nat.
Proof. unfold toy_digest. rewrite length_take, length_app, length_replicate. lia. Qed.

Lemma set_hash_binds_witness :
  (static_set INJ_1 = static_set INJ_1 ∧ TEXTS_V1 = TEXTS_V1 ∧ RULES_V1 = RULES_V1) ∨
  clash toy_digest (set_preimage (static_set INJ_1) TEXTS_V1 RULES_V1)
    (set_preimage (static_set INJ_1) TEXTS_V1 RULES_V1).
Proof.
  apply (set_hash_binds toy_digest (static_set INJ_1) (static_set INJ_1) TEXTS_V1 TEXTS_V1
    RULES_V1 RULES_V1).
  - apply registered_hash_input. do 2 right. by left.
  - apply registered_hash_input. do 2 right. by left.
  - reflexivity.
Defined.

Lemma registry_hash_binds_witness :
  let sets := [static_set SEN_1; static_set VER_1] in
  let inputs := set_inputs TEXTS_V1 RULES_V1 sets in
  let whole := registry_preimage toy_digest sets TEXTS_V1 RULES_V1 in
  sets = sets ∨ clash_among toy_digest inputs inputs ∨ clash toy_digest whole whole.
Proof.
  apply (registry_hash_binds toy_digest TEXTS_V1 RULES_V1
    [static_set SEN_1; static_set VER_1] [static_set SEN_1; static_set VER_1]).
  - apply toy_digest_length.
  - vm_compute. reflexivity.
  - vm_compute. reflexivity.
  - do 2 (constructor; [apply registered_hash_input; first [by left|right; by left]|]).
    constructor.
  - do 2 (constructor; [apply registered_hash_input; first [by left|right; by left]|]).
    constructor.
  - reflexivity.
Defined.
