(* ===== verification/RecordView.v ===== *)
(** * The display-only record view

    [crates/nexus-typed-decision/src/record.rs]: per-mille values rounded
    half-even from ppm, and the digest of a whole vector. SHA-256 is a
    parameter, as in [Hash]. *)

From S2P Require Import Prelude Registry Render Read Reader Numbers Decode Hash.

Local Open Scope Z_scope.
Local Open Scope nexus_scope.

Definition VECTOR_DOMAIN : bytes := lit "nexus.typed_decision.vector.v1".

Record AnswerView := MkAnswerView {
  av_question : QuestionId;
  av_polarity : option Polarity;
  av_reading : Reading;
  av_permille : Z;
  av_top : option Top;
  av_top_permille : option Z;
  av_vector_sha256 : option bytes;
}.

Record RecordView := MkRecordView {
  rv_set : SetId;
  rv_mode : AnswerMode;
  rv_attempt : Attempt;
  rv_renormalized : bool;
  rv_answers : list AnswerView;
}.
Definition rv_attempts (v : RecordView) : Z := Attempt_count (rv_attempt v).

(** [u16::try_from(..).unwrap_or(u16::MAX)] on the rounded quotient. *)
Definition permille (ppm : Z) : Z :=
  let q := ppm / 1000 in
  let r := ppm mod 1000 in
  let up := (500 <? r) || ((r =? 500) && (q mod 2 =? 1)) in
  let v := q + (if up then 1 else 0) in
  if v <=? u16_max then v else u16_max.

Definition put_entry (e : Label * Ppm) : bytes :=
  put_text (Label_as_str e.1) ++ put (to_be_bytes 4 (Ppm_get e.2)).

Definition vector_preimage (d : Distribution) : bytes :=
  put VECTOR_DOMAIN ++ put_u64 (length (entries d)) ++ (entries d ≫= put_entry).

Section View.
Context (sha256 : bytes → bytes).

Definition vector_sha256 (d : Distribution) : bytes := sha256 (vector_preimage d).

(** The probability that was read, and the vector it was read from. *)
Definition read_ppm (question : Question) (answer : Answer) : Z * option Distribution :=
  match answer with
  | ANoul p => (Ppm_get p, None)
  | AChoice d => (max_ppm d, Some d)
  | AScore d =>
      let at_least :=
        match q_kind question with
        | Score _ at_least _ => Z.to_nat at_least
        | Noul _ | Choice _ => 0%nat
        end in
      (sum_from d at_least, Some d)
  end.

Definition view (question : Question) (answer : Answer) (reading : Reading) : AnswerView :=
  let '(read_ppm, vector) := read_ppm question answer in
  {| av_question := q_id question;
     av_polarity := Question_polarity question;
     av_reading := reading;
     av_permille := permille read_ppm;
     av_top := top <$> vector;
     av_top_permille := (λ d, permille (max_ppm d)) <$> vector;
     av_vector_sha256 := vector_sha256 <$> vector |}.

Definition record_view (d : Decision) : RecordView :=
  {| rv_set := set_id (static_set (dec_set d));
     rv_mode := dec_mode d;
     rv_attempt := dec_attempt d;
     rv_renormalized := dec_renormalized d;
     rv_answers :=
       zip_with (λ qa r, view qa.1 qa.2 r)
         (zip (set_questions (static_set (dec_set d))) (dec_answers d).*2)
         (dec_readings d).*2 |}.
End View.

(** ** Rounding *)

(** Half-even rounding: a probability of 0 to 1,000,000 ppm is displayed
    as the nearest per-mille value from 0 to 1000, a tie goes to the even
    one, an exact per-mille is shown exactly, and the display is monotone. *)
Theorem permille_half_even p :
  0 ≤ p ≤ Ppm_MAX →
  0 ≤ permille p ≤ 1000 ∧
  2 * Z.abs (1000 * permille p - p) ≤ 1000 ∧
  (2 * Z.abs (1000 * permille p - p) = 1000 → permille p mod 2 = 0) ∧
  (∀ k, p = 1000 * k → permille p = k) ∧
  (∀ p', p ≤ p' ≤ Ppm_MAX → permille p ≤ permille p').
Proof.
  assert (Hsmall : ∀ x, 0 ≤ x ≤ Ppm_MAX →
    permille x = x / 1000 + (if (500 <? x mod 1000) || ((x mod 1000 =? 500) && ((x / 1000) mod 2 =? 1))
                             then 1 else 0)).
  { intros x Hx. unfold permille, Ppm_MAX, u16_max in *.
    rewrite (proj2 (Z.leb_le _ _)); [done|].
    assert (0 ≤ x / 1000 ≤ 1000) by (Z.to_euclidean_division_equations; lia). case_match; lia. }
  intros Hp. split_and!; try (intros k Hk); rewrite ?Hsmall by lia; unfold Ppm_MAX in *;
    repeat match goal with
    | |- context [500 <? ?a] => destruct (Z.ltb_spec 500 a)
    | |- context [?a =? 500] => destruct (Z.eqb_spec a 500)
    | |- context [?a =? 1] => destruct (Z.eqb_spec a 1)
    end; cbn [orb andb]; Z.to_euclidean_division_equations; lia.
Qed.

Lemma permille_half_even_witness : 0 ≤ permille 700500 ≤ 1000 ∧ permille 700500 = 700 ∧
  permille 701500 = 702.
Proof.
  split; [|split; reflexivity].
  apply (proj1 (permille_half_even 700500 ltac:(split; vm_compute; congruence))).
Defined.

(** ** The view of a decision *)

Lemma permille_range p : 0 ≤ p ≤ Ppm_MAX → 0 ≤ permille p ≤ 1000.
Proof.
  intros Hp. unfold permille, Ppm_MAX, u16_max in *.
  repeat match goal with
  | |- context [500 <? ?a] => destruct (Z.ltb_spec 500 a)
  | |- context [?a =? 500] => destruct (Z.eqb_spec a 500)
  | |- context [?a =? 1] => destruct (Z.eqb_spec a 1)
  end; cbn [orb andb]; case_match; Z.to_euclidean_division_equations; lia.
Qed.

(** What one displayed answer says of its question and answer. *)
Record view_ok (sha256 : bytes → bytes) (q : Question) (a : Answer) (v : AnswerView) : Prop := {
  vo_question : av_question v = q_id q;
  vo_reading : av_reading v = read q a;
  vo_permille : 0 ≤ av_permille v ≤ 1000;
  vo_vector :
    match a with
    | ANoul p => av_permille v = permille (Ppm_get p) ∧ av_top v = None ∧
        av_top_permille v = None ∧ av_vector_sha256 v = None
    | AChoice d => av_permille v = permille (max_ppm d) ∧ av_top v = Some (top d) ∧
        av_top_permille v = Some (permille (max_ppm d)) ∧
        av_vector_sha256 v = Some (sha256 (vector_preimage d))
    | AScore d => (∃ levels at_least pol, q_kind q = Score levels at_least pol ∧
                     av_permille v = permille (sum_from d (Z.to_nat at_least))) ∧
        av_top v = Some (top d) ∧ av_top_permille v = Some (permille (max_ppm d)) ∧
        av_vector_sha256 v = Some (sha256 (vector_preimage d))
    end;
}.

Lemma view_spec sha256 q a : answer_ok q a → view_ok sha256 q a (view sha256 q a (read q a)).
Proof.
  unfold answer_ok. intros Ha.
  destruct (q_kind q) as [pol|opts|levels al pol] eqn:Ek, a as [p|d|d]; try done;
    split; try done; cbn -[permille]; rewrite ?Ek; cbn -[permille].
  - by apply permille_range.
  - apply permille_range. by eapply max_ppm_bounds.
  - apply permille_range. by eapply sum_from_bounds.
  - split; [by eexists _, _, _|done].
Qed.

(** The record view shows the decision: the set, the mode and the attempt,
    and one entry per question in registry order, with the reading that was
    gated on, the per-mille value of the probability that was read (a Noul's,
    a Score's cumulative one, a Choice's top), and for a vector its top and
    the digest of the whole vector. *)
Theorem record_view_faithful sha256 set reply binding attempt d :
  registry_rules (static_set set) →
  decode set reply binding attempt = Ok d →
  let v := record_view sha256 d in
  rv_set v = set_id (static_set set) ∧ rv_mode v = set_mode (static_set set) ∧
  rv_attempts v = Attempt_count attempt ∧ rv_renormalized v = dec_renormalized d ∧
  Forall2 (λ qa av, view_ok sha256 qa.1 qa.2 av)
    (zip (set_questions (static_set set)) (dec_answers d).*2) (rv_answers v).
Proof.
  intros Hr Hd v.
  destruct (decode_ok_inv _ _ _ _ _ Hr Hd) as (Hs & _ & Hat & _ & Ha & Hrd & _).
  unfold v, record_view, rv_attempts, dec_mode. cbn [rv_set rv_mode rv_attempt rv_renormalized rv_answers].
  rewrite Hs, Hat, Hrd. split_and!; try done. clear -Ha.
  induction Ha as [|q [k a] qs as' Hq _ IH]; [constructor|].
  cbn -[view]. constructor; [by apply view_spec|exact IH].
Qed.

Lemma record_view_faithful_witness :
  ∃ d, decode VER_1 (js "{`name_shown`:0.7005,`hours_shown`:0,`phone_shown`:1}") [] Second = Ok d ∧
    av_permille <$> rv_answers (record_view toy_digest d) = [700; 0; 1000] ∧
    rv_attempts (record_view toy_digest d) = 2.
Proof.
  destruct (decode VER_1 (js "{`name_shown`:0.7005,`hours_shown`:0,`phone_shown`:1}") [] Second)
    as [d|e] eqn:E; [|vm_compute in E; discriminate E].
  exists d. split; [reflexivity|].
  pose proof (record_view_faithful toy_digest VER_1 _ [] Second d (proj1 (proj2 registered_rules)) E)
    as (_ & _ & H & _).
  split; [|exact H]. vm_compute in E. injection E as <-. vm_compute. reflexivity.
Defined.

(** ** The vector digest *)

Definition entries_typed (d : Distribution) : Prop :=
  u64_len (length (entries d)) ∧
  Forall (λ e, rust_str (Label_as_str e.1) ∧ rust_u 32 (Ppm_get e.2)) (entries d).

Lemma put_entry_delimited :
  delimited (λ e, rust_str (Label_as_str e.1) ∧ rust_u 32 (Ppm_get e.2)) put_entry.
Proof.
  intros [[l1] [p1]] [[l2] [p2]] r1 r2 [H1 J1] [H2 J2] E. unfold put_entry in E.
  cbn [fst snd Label_as_str Ppm_get] in *. next_field put_text_delimited E.
  apply (put_be_delimited 4) in E as [-> ->]; [|lia|done..]. by subst.
Qed.

(** The vector digest binds the vector: two vectors with the same digest
    have the same labels and exact ppm values in the same order, or their
    preimages are distinct with one digest. *)
Theorem vector_sha256_binds sha256 d1 d2 :
  entries_typed d1 → entries_typed d2 →
  vector_sha256 sha256 d1 = vector_sha256 sha256 d2 →
  entries d1 = entries d2 ∨ clash sha256 (vector_preimage d1) (vector_preimage d2).
Proof.
  intros [L1 H1] [L2 H2] [Ep|?]%clash_or_same; [|by right].
  left. unfold vector_preimage in Ep. apply app_inv_head in Ep.
  rewrite <- (app_nil_r (entries d1 ≫= _)), <- (app_nil_r (entries d2 ≫= _)) in Ep.
  by apply (put_list_delimited _ _ _ _ _ _ put_entry_delimited) in Ep as [-> _].
Qed.

Lemma vector_sha256_binds_witness :
  entries dist_demo = entries dist_demo ∨
  clash toy_digest (vector_preimage dist_demo) (vector_preimage dist_demo).
Proof.
  apply (vector_sha256_binds toy_digest dist_demo dist_demo).
  - split; [vm_compute; reflexivity|apply (bool_decide_eq_true_1 _); vm_compute; reflexivity].
  - split; [vm_compute; reflexivity|apply (bool_decide_eq_true_1 _); vm_compute; reflexivity].
  - reflexivity.
Defined.
