(* ===== verification/Slot.v ===== *)
(** * The assessment slot

    [crates/nexus-typed-decision/src/slot.rs]: a state machine with a private
    epoch, single-use tokens and an absorbing [Spent]. Operations are state
    passing functions; the tokens a caller holds, which the type system makes
    linear and unforgeable, are part of the configuration of the step
    relation below. *)

From S2P Require Import Prelude Registry Render Read Reader Numbers Decode Projection Budget Lane.

Local Open Scope Z_scope.

Inductive SlotKind := KSentinel | KVerifier | KNotes.
#[export] Instance SlotKind_eq_dec : EqDecision SlotKind.
Proof. solve_decision. Defined.

Inductive SpentReason :=
| Repeat | Restricted (r : Reason.t) | Invalidated | Stale | Unrecorded.
#[export] Instance SpentReason_eq_dec : EqDecision SpentReason.
Proof. solve_decision. Defined.

Inductive SlotState :=
| Unassessed
| Pending
| Settling
| SClear (binding : bytes)
| Spent (reason : SpentReason)
| AwaitingAck (assessment_epoch : Z) (binding : bytes) (reason : Reason.t)
| AckRecording (assessment_epoch : Z) (binding : bytes)
| SAcknowledged (assessment_epoch : Z) (binding : bytes)
| Consumed.
#[export] Instance SlotState_eq_dec : EqDecision SlotState.
Proof. solve_decision. Defined.

(** What an assessment settles as. *)
Inductive Outcome := OClear | ONeedsOwner (r : Reason.t).
#[export] Instance Outcome_eq_dec : EqDecision Outcome.
Proof. solve_decision. Defined.

Record AssessmentToken := MkAssessmentToken { at_epoch : Z; at_binding : bytes }.
Record SettleToken := MkSettleToken { st_epoch : Z; st_binding : bytes; st_outcome : Outcome }.
Record AckToken := MkAckToken { kt_epoch : Z; kt_binding : bytes }.

Inductive Begin := Started (t : AssessmentToken) | BRepeat | BAlreadySpent.
Inductive Installed := IClear | IAwaitingAck (assessment_epoch : Z).
Inductive RestrictedResult := RInstalled | RAlreadySpent.
Inductive Admission := AdmClear | AdmAcknowledged.
#[export] Instance Admission_eq_dec : EqDecision Admission.
Proof. solve_decision. Defined.
Inductive Refused := AlreadySpent | RSpent (reason : SpentReason).

Record Slot := MkSlot { slot_kind : SlotKind; slot_state : SlotState; slot_epoch : Z }.

Definition Slot_new (kind : SlotKind) : Slot := MkSlot kind Unassessed 0.

Definition is_spent (s : SlotState) : bool := match s with Spent _ => true | _ => false end.
Definition bump_epoch (e : Z) : Z := saturating_add u32_max e 1.

Definition spend (slot : Slot) (reason : SpentReason) : Slot * Refused :=
  if is_spent (slot_state slot) then (slot, AlreadySpent)
  else (MkSlot (slot_kind slot) (Spent reason) (bump_epoch (slot_epoch slot)), RSpent reason).

(** [return Err(self.spend(reason))]. *)
Definition refuse {T} (slot : Slot) (reason : SpentReason) : Slot * result T Refused :=
  let '(slot', r) := spend slot reason in (slot', Err r).

Definition set_state (slot : Slot) (state : SlotState) : Slot :=
  MkSlot (slot_kind slot) state (slot_epoch slot).

Definition begin (slot : Slot) (binding : bytes) : Slot * Begin :=
  match slot_state slot with
  | Unassessed =>
      let epoch := bump_epoch (slot_epoch slot) in
      (MkSlot (slot_kind slot) Pending epoch, Started (MkAssessmentToken epoch binding))
  | Spent _ => (slot, BAlreadySpent)
  | _ => (fst (spend slot Repeat), BRepeat)
  end.

Definition settle_begin (slot : Slot) (token : AssessmentToken) (outcome : Outcome) (live : bytes)
    : Slot * result SettleToken Refused :=
  if negb (at_epoch token =? slot_epoch slot)
     || negb (bool_decide (slot_state slot = Pending))
  then refuse slot Invalidated
  else
    match outcome, bool_decide (slot_kind slot = KNotes) with
    | ONeedsOwner reason, false => refuse slot (Restricted reason)
    | _, _ =>
        if negb (bool_decide (at_binding token = live)) then refuse slot Stale
        else (set_state slot Settling,
              Ok (MkSettleToken (at_epoch token) (at_binding token) outcome))
    end.

Definition settle_finish (slot : Slot) (token : SettleToken) (recorded : bool) (live : bytes)
    : Slot * result Installed Refused :=
  if negb (st_epoch token =? slot_epoch slot)
     || negb (bool_decide (slot_state slot = Settling))
  then refuse slot Invalidated
  else if negb recorded then refuse slot Unrecorded
  else if negb (bool_decide (st_binding token = live)) then refuse slot Stale
  else
    match st_outcome token with
    | OClear => (set_state slot (SClear (st_binding token)), Ok IClear)
    | ONeedsOwner reason =>
        if bool_decide (slot_kind slot = KNotes) then
          (set_state slot (AwaitingAck (st_epoch token) (st_binding token) reason),
           Ok (IAwaitingAck (st_epoch token)))
        else refuse slot (Restricted reason)
    end.

Definition restrict (slot : Slot) (reason : Reason.t) : Slot * RestrictedResult :=
  match spend slot (Restricted reason) with
  | (slot', RSpent _) => (slot', RInstalled)
  | (slot', AlreadySpent) => (slot', RAlreadySpent)
  end.

Definition ack_begin (slot : Slot) (displayed_epoch : Z) (live : bytes)
    : Slot * result AckToken Refused :=
  match slot_state slot with
  | AwaitingAck assessment_epoch binding _ =>
      if negb (bool_decide (slot_kind slot = KNotes))
         || negb (assessment_epoch =? slot_epoch slot)
         || negb (displayed_epoch =? assessment_epoch)
      then refuse slot Invalidated
      else if negb (bool_decide (binding = live)) then refuse slot Stale
      else (set_state slot (AckRecording assessment_epoch binding),
            Ok (MkAckToken assessment_epoch binding))
  | _ => refuse slot Invalidated
  end.

Definition ack_finish (slot : Slot) (token : AckToken) (recorded : bool) (live : bytes)
    : Slot * result unit Refused :=
  let recording := AckRecording (kt_epoch token) (kt_binding token) in
  if negb (kt_epoch token =? slot_epoch slot)
     || negb (bool_decide (slot_state slot = recording))
  then refuse slot Invalidated
  else if negb recorded then refuse slot Unrecorded
  else if negb (bool_decide (kt_binding token = live)) then refuse slot Stale
  else (set_state slot (SAcknowledged (kt_epoch token) (kt_binding token)), Ok tt).

Definition slot_admit (slot : Slot) (live : bytes) : Slot * result Admission Refused :=
  match slot_state slot with
  | SClear binding =>
      if negb (bool_decide (binding = live)) then refuse slot Stale
      else (slot, Ok AdmClear)
  | SAcknowledged assessment_epoch binding =>
      if negb (assessment_epoch =? slot_epoch slot) then refuse slot Invalidated
      else if negb (bool_decide (binding = live)) then refuse slot Stale
      else (set_state slot Consumed, Ok AdmAcknowledged)
  | _ => refuse slot Invalidated
  end.

(** ** The slot and its callers *)

(** What happened, in order: each entry is a step that succeeded. *)
Inductive event :=
| EBegin (binding : bytes)
| ESettle (o : Outcome) (live : bytes)
| EInstall (o : Outcome) (live : bytes)
| EAckBegin (live : bytes)
| EAck (live : bytes)
| EAdmit (a : Admission) (live : bytes).

(** The slot, the tokens in circulation and the history. *)
Record config := MkConfig {
  c_slot : Slot;
  c_at : list AssessmentToken;
  c_st : list SettleToken;
  c_kt : list AckToken;
  c_log : list event;
}.

Definition initial (kind : SlotKind) : config := MkConfig (Slot_new kind) [] [] [] [].

(** One call by any caller, with any arguments, in any order. A token is
    consumed by the call that takes it. *)
Inductive step : config → config → Prop :=
| step_begin c binding :
    step c
      match begin (c_slot c) binding with
      | (s, Started t) =>
          MkConfig s (t :: c_at c) (c_st c) (c_kt c) (c_log c ++ [EBegin binding])
      | (s, _) => MkConfig s (c_at c) (c_st c) (c_kt c) (c_log c)
      end
| step_settle_begin c l1 t l2 outcome live :
    c_at c = l1 ++ t :: l2 →
    step c
      match settle_begin (c_slot c) t outcome live with
      | (s, Ok t') =>
          MkConfig s (l1 ++ l2) (t' :: c_st c) (c_kt c) (c_log c ++ [ESettle outcome live])
      | (s, Err _) => MkConfig s (l1 ++ l2) (c_st c) (c_kt c) (c_log c)
      end
| step_settle_finish c l1 t l2 recorded live :
    c_st c = l1 ++ t :: l2 →
    step c
      match settle_finish (c_slot c) t recorded live with
      | (s, Ok _) =>
          MkConfig s (c_at c) (l1 ++ l2) (c_kt c) (c_log c ++ [EInstall (st_outcome t) live])
      | (s, Err _) => MkConfig s (c_at c) (l1 ++ l2) (c_kt c) (c_log c)
      end
| step_restrict c reason :
    step c (MkConfig (fst (restrict (c_slot c) reason)) (c_at c) (c_st c) (c_kt c) (c_log c))
| step_ack_begin c displayed live :
    step c
      match ack_begin (c_slot c) displayed live with
      | (s, Ok t) => MkConfig s (c_at c) (c_st c) (t :: c_kt c) (c_log c ++ [EAckBegin live])
      | (s, Err _) => MkConfig s (c_at c) (c_st c) (c_kt c) (c_log c)
      end
| step_ack_finish c l1 t l2 recorded live :
    c_kt c = l1 ++ t :: l2 →
    step c
      match ack_finish (c_slot c) t recorded live with
      | (s, Ok _) => MkConfig s (c_at c) (c_st c) (l1 ++ l2) (c_log c ++ [EAck live])
      | (s, Err _) => MkConfig s (c_at c) (c_st c) (l1 ++ l2) (c_log c)
      end
| step_admit c live :
    step c
      match slot_admit (c_slot c) live with
      | (s, Ok a) => MkConfig s (c_at c) (c_st c) (c_kt c) (c_log c ++ [EAdmit a live])
      | (s, Err _) => MkConfig s (c_at c) (c_st c) (c_kt c) (c_log c)
      end.

Definition reachable (kind : SlotKind) (c : config) : Prop := rtc step (initial kind) c.

(** ** The invariant *)

(** The two complete scenarios of a slot: an assessment that settles clear
    and is then admitted any number of times, or one that needs the owner, is
    acknowledged once and admitted once. Every step has the same binding. *)
Definition scenario (b : bytes) (o : Outcome) (n : nat) : list event :=
  [EBegin b; ESettle o b; EInstall o b] ++
  match o with
  | OClear => replicate n (EAdmit AdmClear b)
  | ONeedsOwner _ => [EAckBegin b; EAck b; EAdmit AdmAcknowledged b]
  end.

(** Only a notes slot can need the owner. *)
Definition outcome_allowed (kind : SlotKind) (o : Outcome) : Prop :=
  o = OClear ∨ kind = KNotes.

Definition history_ok (kind : SlotKind) (log : list event) : Prop :=
  ∃ b o n, log `prefix_of` scenario b o n ∧ outcome_allowed kind o.

Definition no_tokens (c : config) : Prop := c_at c = [] ∧ c_st c = [] ∧ c_kt c = [].

(** Every token in circulation was made before epoch [e]. *)
Definition tokens_before (e : Z) (c : config) : Prop :=
  Forall (λ t, at_epoch t < e) (c_at c) ∧ Forall (λ t, st_epoch t < e) (c_st c) ∧
  Forall (λ t, kt_epoch t < e) (c_kt c).

Definition state_inv (kind : SlotKind) (c : config) : Prop :=
  let e := slot_epoch (c_slot c) in
  let log := c_log c in
  match slot_state (c_slot c) with
  | Unassessed => e = 0 ∧ no_tokens c ∧ log = []
  | Pending => e = 1 ∧ ∃ b, c_at c = [MkAssessmentToken 1 b] ∧ c_st c = [] ∧ c_kt c = [] ∧
      log = [EBegin b]
  | Settling => e = 1 ∧ ∃ b o, c_at c = [] ∧ c_st c = [MkSettleToken 1 b o] ∧ c_kt c = [] ∧
      outcome_allowed kind o ∧ log = [EBegin b; ESettle o b]
  | SClear b => e = 1 ∧ no_tokens c ∧ ∃ n, log = scenario b OClear n
  | AwaitingAck a b r => e = 1 ∧ a = 1 ∧ kind = KNotes ∧ no_tokens c ∧
      log = [EBegin b; ESettle (ONeedsOwner r) b; EInstall (ONeedsOwner r) b]
  | AckRecording a b => e = 1 ∧ a = 1 ∧ kind = KNotes ∧ c_at c = [] ∧ c_st c = [] ∧
      c_kt c = [MkAckToken 1 b] ∧
      ∃ r, log = [EBegin b; ESettle (ONeedsOwner r) b; EInstall (ONeedsOwner r) b; EAckBegin b]
  | SAcknowledged a b => e = 1 ∧ a = 1 ∧ kind = KNotes ∧ no_tokens c ∧
      ∃ r, log = [EBegin b; ESettle (ONeedsOwner r) b; EInstall (ONeedsOwner r) b; EAckBegin b;
                  EAck b]
  | Consumed => e = 1 ∧ kind = KNotes ∧ no_tokens c ∧ ∃ b r, log = scenario b (ONeedsOwner r) 0
  | Spent _ => 1 ≤ e ≤ 2 ∧ tokens_before e c ∧ history_ok kind log
  end.

Definition inv (kind : SlotKind) (c : config) : Prop :=
  slot_kind (c_slot c) = kind ∧ state_inv kind c.

Lemma history_prefix kind b o n rest :
  outcome_allowed kind o → scenario b o n = rest ++ drop (length rest) (scenario b o n) →
  history_ok kind rest.
Proof. intros Ho E. exists b, o, n. split; [|done]. by eexists. Qed.

Lemma tokens_none e c : no_tokens c → tokens_before e c.
Proof. intros (Ha & Hs & Hk). unfold tokens_before. rewrite Ha, Hs, Hk. by split_and!. Qed.

(** What every state guarantees. *)
Lemma inv_facts kind c : inv kind c →
  history_ok kind (c_log c) ∧ 0 ≤ slot_epoch (c_slot c) ≤ 2 ∧
  (is_spent (slot_state (c_slot c)) = false →
   slot_epoch (c_slot c) ≤ 1 ∧ tokens_before (slot_epoch (c_slot c) + 1) c).
Proof.
  intros [_ H]. unfold state_inv in H.
  destruct (slot_state (c_slot c)) as [| | |b|r|a b r|a b|a b|]; simpl.
  - destruct H as (-> & Ht & ->). split_and!; [|lia|lia|intros _; split; [lia|by apply tokens_none]].
    by apply (history_prefix kind [] OClear 0); [left|].
  - destruct H as (-> & b & Ha & Hs & Hk & ->). unfold tokens_before. rewrite Ha, Hs, Hk.
    split_and!; [|lia|lia|intros _; split_and!; [lia|repeat constructor..]].
    by apply (history_prefix kind b OClear 0); [left|].
  - destruct H as (-> & b & o & Ha & Hs & Hk & Ho & ->). unfold tokens_before. rewrite Ha, Hs, Hk.
    split_and!; [|lia|lia|intros _; split_and!; [lia|repeat constructor..]].
    by apply (history_prefix kind b o 0).
  - destruct H as (-> & Ht & n & ->). split_and!; [|lia|lia|intros _; split; [lia|by apply tokens_none]].
    exists b, OClear, n. by split; [|left].
  - destruct H as (? & ? & ?). split_and!; [done|lia|lia|done].
  - destruct H as (-> & -> & -> & Ht & ->).
    split_and!; [|lia|lia|intros _; split; [lia|by apply tokens_none]].
    by apply (history_prefix KNotes b (ONeedsOwner r) 0); [right|].
  - destruct H as (-> & -> & -> & Ha & Hs & Hk & r & ->). unfold tokens_before. rewrite Ha, Hs, Hk.
    split_and!; [|lia|lia|intros _; split_and!; [lia|repeat constructor..]].
    by apply (history_prefix KNotes b (ONeedsOwner r) 0); [right|].
  - destruct H as (-> & -> & -> & Ht & r & ->).
    split_and!; [|lia|lia|intros _; split; [lia|by apply tokens_none]].
    by apply (history_prefix KNotes b (ONeedsOwner r) 0); [right|].
  - destruct H as (-> & -> & Ht & b & r & ->).
    split_and!; [|lia|lia|intros _; split; [lia|by apply tokens_none]].
    by apply (history_prefix KNotes b (ONeedsOwner r) 0); [right|].
Qed.

(** Spending a slot, with some tokens consumed, keeps the invariant. *)
Lemma inv_spend kind c reason at' st' kt' :
  inv kind c → at' ⊆ c_at c → st' ⊆ c_st c → kt' ⊆ c_kt c →
  inv kind (MkConfig (fst (spend (c_slot c) reason)) at' st' kt' (c_log c)).
Proof.
  intros Hinv Sa Ss Sk. pose proof (inv_facts kind c Hinv) as (Hh & He & Hns).
  assert (Hsub : ∀ e, tokens_before e c →
    tokens_before e (MkConfig (c_slot c) at' st' kt' (c_log c))).
  { intros e (? & ? & ?). unfold tokens_before in *. simpl.
    rewrite !Forall_forall in *. naive_solver. }
  destruct Hinv as [Hk Hs]. unfold spend.
  destruct (is_spent (slot_state (c_slot c))) eqn:Es; simpl.
  - split; [done|]. unfold state_inv in *. simpl.
    destruct (slot_state (c_slot c)); try done. destruct Hs as (? & ? & ?).
    split_and!; [lia|lia|by apply Hsub|done].
  - destruct (Hns eq_refl) as [He1 Ht]. split; [done|]. unfold state_inv, bump_epoch, saturating_add.
    simpl. rewrite Z.min_r by (unfold u32_max; lia). split_and!; [lia|lia|by apply Hsub|done].
Qed.

Lemma refuse_spend {T} slot reason :
  refuse slot reason = (fst (spend slot reason), Err (snd (spend slot reason)) : result T Refused).
Proof. unfold refuse. by destruct (spend slot reason). Qed.

Lemma initial_inv kind : inv kind (initial kind).
Proof. split; [done|]. by split_and!. Qed.

Lemma begin_inv kind c binding : inv kind c →
  inv kind match begin (c_slot c) binding with
           | (s, Started t) =>
               MkConfig s (t :: c_at c) (c_st c) (c_kt c) (c_log c ++ [EBegin binding])
           | (s, _) => MkConfig s (c_at c) (c_st c) (c_kt c) (c_log c)
           end.
Proof.
  intros Hinv. pose proof (inv_spend kind c Repeat _ _ _ Hinv (reflexivity _) (reflexivity _)
    (reflexivity _)) as Hsp.
  destruct Hinv as [Hk Hs]. unfold begin.
  destruct (slot_state (c_slot c)) eqn:E; try exact Hsp.
  - split; [done|]. unfold state_inv in *. rewrite E in Hs.
    destruct Hs as (-> & (Ha & Hst & Hkt) & ->). simpl. split; [done|].
    exists binding. rewrite Ha, Hst, Hkt. done.
  - split; [done|]. unfold state_inv in *. simpl. by rewrite E in *.
Qed.

Lemma settle_begin_inv kind c l1 t l2 outcome live : inv kind c → c_at c = l1 ++ t :: l2 →
  inv kind match settle_begin (c_slot c) t outcome live with
           | (s, Ok t') =>
               MkConfig s (l1 ++ l2) (t' :: c_st c) (c_kt c) (c_log c ++ [ESettle outcome live])
           | (s, Err _) => MkConfig s (l1 ++ l2) (c_st c) (c_kt c) (c_log c)
           end.
Proof.
  intros Hinv Hl.
  assert (Hsp : ∀ r, inv kind (MkConfig (fst (spend (c_slot c) r)) (l1 ++ l2) (c_st c) (c_kt c) (c_log c))).
  { intros r. apply inv_spend; [done|rewrite Hl; set_solver|done|done]. }
  destruct Hinv as [Hk Hs]. unfold settle_begin. rewrite !refuse_spend.
  destruct (negb _ || negb _) eqn:G; [apply Hsp|]. breflect.
  assert (Hgo : outcome_allowed kind outcome →
    inv kind (if negb (bool_decide (at_binding t = live))
              then MkConfig (fst (spend (c_slot c) Stale)) (l1 ++ l2) (c_st c) (c_kt c) (c_log c)
              else MkConfig (set_state (c_slot c) Settling) (l1 ++ l2)
                     (MkSettleToken (at_epoch t) (at_binding t) outcome :: c_st c) (c_kt c)
                     (c_log c ++ [ESettle outcome live]))).
  { intros Ho. case_bool_decide as Hb; [|apply Hsp]. split; [done|].
    unfold state_inv in *. match goal with H : slot_state _ = Pending |- _ => rewrite H in Hs end.
    destruct Hs as (He & b & Ha & Hst & Hkt & Hlog). rewrite Ha in Hl.
    destruct l1 as [|? [|? ?]]; simplify_eq/=. split; [done|].
    exists b, outcome. rewrite Hst, Hlog. by split_and!. }
  destruct outcome as [|reason]; [|destruct (decide (slot_kind (c_slot c) = KNotes)) as [Hn|Hn];
    [rewrite (bool_decide_true (slot_kind _ = _)) by done
    |rewrite (bool_decide_false (slot_kind _ = _)), refuse_spend by done; apply Hsp]].
  - specialize (Hgo ltac:(by left)). by destruct (negb _).
  - specialize (Hgo ltac:(right; congruence)). by destruct (negb _).
Qed.

Lemma settle_finish_inv kind c l1 t l2 recorded live : inv kind c → c_st c = l1 ++ t :: l2 →
  inv kind match settle_finish (c_slot c) t recorded live with
           | (s, Ok _) =>
               MkConfig s (c_at c) (l1 ++ l2) (c_kt c) (c_log c ++ [EInstall (st_outcome t) live])
           | (s, Err _) => MkConfig s (c_at c) (l1 ++ l2) (c_kt c) (c_log c)
           end.
Proof.
  intros Hinv Hl.
  assert (Hsp : ∀ r, inv kind (MkConfig (fst (spend (c_slot c) r)) (c_at c) (l1 ++ l2) (c_kt c) (c_log c))).
  { intros r. apply inv_spend; [done|done|rewrite Hl; set_solver|done]. }
  destruct Hinv as [Hk Hs]. unfold settle_finish. rewrite !refuse_spend.
  destruct (negb _ || negb _) eqn:G; [apply Hsp|]. breflect.
  destruct recorded; simpl; [|apply Hsp].
  case_bool_decide as Hb; simpl; [|apply Hsp].
  unfold state_inv in Hs. match goal with H : slot_state _ = Settling |- _ => rewrite H in Hs end.
  destruct Hs as (He & b & o & Ha & Hst & Hkt & Ho & Hlog). rewrite Hst in Hl.
  destruct l1 as [|? [|? ?]]; simplify_eq/=.
  destruct o as [|reason]; [|case_bool_decide as Hn; [|rewrite refuse_spend; apply Hsp]]; (split; [done|]);
    unfold state_inv, no_tokens; simpl; rewrite Ha, Hkt, Hlog.
  - split_and!; try done. by exists 0%nat.
  - by split_and!.
Qed.

Lemma ack_begin_inv kind c displayed live : inv kind c →
  inv kind match ack_begin (c_slot c) displayed live with
           | (s, Ok t) => MkConfig s (c_at c) (c_st c) (t :: c_kt c) (c_log c ++ [EAckBegin live])
           | (s, Err _) => MkConfig s (c_at c) (c_st c) (c_kt c) (c_log c)
           end.
Proof.
  intros Hinv. pose proof (λ r, inv_spend kind c r _ _ _ Hinv (reflexivity _) (reflexivity _)
    (reflexivity _)) as Hsp.
  destruct Hinv as [Hk Hs]. unfold ack_begin. rewrite !refuse_spend.
  destruct (slot_state (c_slot c)) as [| | | | |a b reason| | |] eqn:E; try apply Hsp.
  destruct (negb _ || negb _ || negb _); [apply Hsp|].
  case_bool_decide as Hb; simpl; [|apply Hsp]. subst live.
  unfold state_inv, no_tokens in Hs. rewrite E in Hs.
  destruct Hs as (He & -> & -> & (Ha & Hst & Hkt) & Hlog).
  split; [done|]. unfold state_inv. simpl. rewrite Ha, Hst, Hkt, Hlog. split_and!; try done.
  by exists reason.
Qed.

Lemma ack_finish_inv kind c l1 t l2 recorded live : inv kind c → c_kt c = l1 ++ t :: l2 →
  inv kind match ack_finish (c_slot c) t recorded live with
           | (s, Ok _) => MkConfig s (c_at c) (c_st c) (l1 ++ l2) (c_log c ++ [EAck live])
           | (s, Err _) => MkConfig s (c_at c) (c_st c) (l1 ++ l2) (c_log c)
           end.
Proof.
  intros Hinv Hl.
  assert (Hsp : ∀ r, inv kind (MkConfig (fst (spend (c_slot c) r)) (c_at c) (c_st c) (l1 ++ l2) (c_log c))).
  { intros r. apply inv_spend; [done|done|done|rewrite Hl; set_solver]. }
  destruct Hinv as [Hk Hs]. unfold ack_finish. rewrite !refuse_spend.
  destruct (negb _ || negb _) eqn:G; [apply Hsp|]. breflect.
  destruct recorded; simpl; [|apply Hsp].
  case_bool_decide as Hb; simpl; [|apply Hsp].
  unfold state_inv in Hs. match goal with H : slot_state _ = _ |- _ => rewrite H in Hs end.
  destruct Hs as (He & Ht & -> & Ha & Hst & Hkt & r & Hlog). rewrite Hkt in Hl.
  destruct l1 as [|? [|? ?]]; simplify_eq/=.
  split; [done|]. unfold state_inv, no_tokens. simpl. rewrite Ha, Hst, Hlog. split_and!; try done.
  by exists r.
Qed.

Lemma admit_inv kind c live : inv kind c →
  inv kind match slot_admit (c_slot c) live with
           | (s, Ok a) => MkConfig s (c_at c) (c_st c) (c_kt c) (c_log c ++ [EAdmit a live])
           | (s, Err _) => MkConfig s (c_at c) (c_st c) (c_kt c) (c_log c)
           end.
Proof.
  intros Hinv. pose proof (λ r, inv_spend kind c r _ _ _ Hinv (reflexivity _) (reflexivity _)
    (reflexivity _)) as Hsp.
  destruct Hinv as [Hk Hs]. unfold slot_admit. rewrite !refuse_spend.
  destruct (slot_state (c_slot c)) as [| | |b| | | |a b|] eqn:E; try apply Hsp.
  - case_bool_decide as Hb; simpl; [|apply Hsp]. subst live.
    split; [done|]. unfold state_inv, no_tokens in *. simpl. rewrite E in *.
    destruct Hs as (He & Ht & n & Hlog). split_and!; [done|apply Ht|apply Ht|apply Ht|].
    exists (S n). rewrite Hlog. unfold scenario. rewrite <- app_assoc, <- replicate_cons_app.
    done.
  - destruct (negb _); [apply Hsp|]. case_bool_decide as Hb; simpl; [|apply Hsp]. subst live.
    split; [done|]. unfold state_inv, no_tokens in *. rewrite E in Hs. simpl.
    destruct Hs as (He & -> & -> & (Ha & Hst & Hkt) & r & Hlog). rewrite Hlog.
    split_and!; try done. by exists b, r.
Qed.

Lemma step_inv kind c c' : inv kind c → step c c' → inv kind c'.
Proof.
  intros Hinv Hstep. destruct Hstep.
  - by apply begin_inv.
  - by apply settle_begin_inv.
  - by apply settle_finish_inv.
  - unfold restrict. pose proof (inv_spend kind c (Restricted reason) _ _ _ Hinv (reflexivity _)
      (reflexivity _) (reflexivity _)) as H. by destruct (spend _ _) as [s []].
  - by apply ack_begin_inv.
  - by apply ack_finish_inv.
  - by apply admit_inv.
Qed.

Lemma reachable_inv kind c : reachable kind c → inv kind c.
Proof.
  intros H. pose proof (initial_inv kind) as Hi. unfold reachable in H.
  induction H as [|c1 c2 c3 Hs _ IH]; [done|]. apply IH. by eapply step_inv.
Qed.

(** ** Properties *)

(** C17. One assessment per slot: whatever calls are made, in any order and
    with any arguments, the successful steps form a prefix of one of the two
    scenarios, all with one binding: begin, settle, install, then any number
    of clear admissions, or one acknowledgement and one admission, the latter
    only in a notes slot. The epoch never passes 2, and every token still in
    circulation once the slot is spent is out of date. *)
Theorem slot_history kind c :
  reachable kind c →
  (∃ b o n, c_log c `prefix_of` scenario b o n ∧ (o = OClear ∨ kind = KNotes)) ∧
  0 ≤ slot_epoch (c_slot c) ≤ 2 ∧
  (is_spent (slot_state (c_slot c)) = true → tokens_before (slot_epoch (c_slot c)) c).
Proof.
  intros H%reachable_inv. pose proof (inv_facts kind c H) as (Hh & He & _).
  split_and!; [exact Hh|lia|lia|]. destruct H as [_ H]. unfold state_inv in H.
  destruct (slot_state (c_slot c)); try done. intros _. apply H.
Qed.

(** A run of a notes slot up to an acknowledged admission. *)
Definition demo_reason : Reason.t := Reason.NotesInstructsAi.
Definition demo_run : config :=
  MkConfig (MkSlot KNotes Consumed 1) [] [] [] (scenario [7] (ONeedsOwner demo_reason) 0).

Lemma demo_run_reachable : reachable KNotes demo_run.
Proof.
  eapply rtc_l; [apply (step_begin _ [7])|].
  eapply rtc_l; [apply (step_settle_begin _ [] (MkAssessmentToken 1 [7]) [] (ONeedsOwner demo_reason) [7]);
    reflexivity|].
  eapply rtc_l; [apply (step_settle_finish _ [] (MkSettleToken 1 [7] (ONeedsOwner demo_reason)) [] true [7]);
    reflexivity|].
  eapply rtc_l; [apply (step_ack_begin _ 1 [7])|].
  eapply rtc_l; [apply (step_ack_finish _ [] (MkAckToken 1 [7]) [] true [7]); reflexivity|].
  eapply rtc_l; [apply (step_admit _ [7])|].
  apply rtc_refl.
Qed.

Lemma slot_history_witness :
  0 ≤ slot_epoch (c_slot demo_run) ≤ 2.
Proof. apply (proj1 (proj2 (slot_history KNotes demo_run demo_run_reachable))). Defined.

(** Admission means approval: when a reachable slot admits, the binding
    given is the one that was assessed, settled and recorded. A clear
    admission follows a clear assessment and leaves the slot as it is; an
    acknowledged one follows, in a notes slot, the owner's recorded
    acknowledgement of that assessment, and consumes it: no later call of any
    kind is admitted. *)
Theorem slot_admission kind c live s a :
  reachable kind c → slot_admit (c_slot c) live = (s, Ok a) →
  match a with
  | AdmClear => s = c_slot c ∧ ∃ n, c_log c = scenario live OClear n
  | AdmAcknowledged =>
      kind = KNotes ∧ slot_state s = Consumed ∧
      (∃ r, c_log c ++ [EAdmit AdmAcknowledged live] = scenario live (ONeedsOwner r) 0) ∧
      ∀ live', ∃ s' e, slot_admit s live' = (s', Err e)
  end.
Proof.
  intros [Hk Hs]%reachable_inv Hadm. unfold slot_admit in Hadm. rewrite !refuse_spend in Hadm.
  unfold state_inv in Hs.
  destruct (slot_state (c_slot c)) as [| | |b| | | |e b|] eqn:E; try done.
  - case_bool_decide; simplify_eq/=. split; [done|]. apply Hs.
  - destruct (negb _); [done|]. case_bool_decide; simplify_eq/=.
    destruct Hs as (_ & _ & Hn & _ & r & Hlog). split_and!; [done|done| |].
    + exists r. by rewrite Hlog.
    + intros live'. unfold slot_admit. simpl. eexists _, _. reflexivity.
Qed.

Lemma slot_admission_witness :
  MkSlot KVerifier (SClear [3]) 1 = MkSlot KVerifier (SClear [3]) 1 ∧
  ∃ n, scenario [3] OClear 0 = scenario [3] OClear n.
Proof.
  refine (slot_admission KVerifier
    (MkConfig (MkSlot KVerifier (SClear [3]) 1) [] [] [] (scenario [3] OClear 0)) [3]
    (MkSlot KVerifier (SClear [3]) 1) AdmClear _ eq_refl).
  eapply rtc_l; [apply (step_begin _ [3])|].
  eapply rtc_l; [apply (step_settle_begin _ [] (MkAssessmentToken 1 [3]) [] OClear [3]); reflexivity|].
  eapply rtc_l; [apply (step_settle_finish _ [] (MkSettleToken 1 [3] OClear) [] true [3]); reflexivity|].
  apply rtc_refl.
Defined.

(** [Spent] is absorbing: from a spent slot every call, with any token,
    record result or binding, leaves the slot and the history as they are. *)
Theorem spent_absorbing c c' reason :
  slot_state (c_slot c) = Spent reason → step c c' →
  c_slot c' = c_slot c ∧ c_log c' = c_log c.
Proof.
  intros Hs Hstep.
  assert (Hsp : ∀ r, spend (c_slot c) r = (c_slot c, AlreadySpent))
    by (intros r; unfold spend; by rewrite Hs).
  destruct Hstep;
    unfold begin, settle_begin, settle_finish, restrict, ack_begin, ack_finish, slot_admit;
    rewrite ?refuse_spend, ?Hs, ?Hsp; simpl; try done;
    by rewrite orb_true_r.
Qed.

Lemma spent_absorbing_witness :
  let spent := MkSlot KSentinel (Spent Repeat) 2 in
  c_slot (MkConfig spent [] [] [] [EBegin [1]]) = spent ∧
  c_log (MkConfig spent [] [] [] [EBegin [1]]) = [EBegin [1]].
Proof.
  apply (spent_absorbing
    (MkConfig (MkSlot KSentinel (Spent Repeat) 2) [] [] [] [EBegin [1]])
    (MkConfig (MkSlot KSentinel (Spent Repeat) 2) [] [] [] [EBegin [1]]) Repeat).
  - reflexivity.
  - exact (step_begin (MkConfig (MkSlot KSentinel (Spent Repeat) 2) [] [] [] [EBegin [1]]) [9]).
Defined.

(** Fail closed: every call that does not succeed leaves the slot spent,
    reports why, or that it was spent already, and a step with a token of
    another epoch never succeeds. *)
Theorem refused_steps_spend slot :
  (∀ t o live s e, settle_begin slot t o live = (s, Err e) → is_spent (slot_state s) = true) ∧
  (∀ t r live s e, settle_finish slot t r live = (s, Err e) → is_spent (slot_state s) = true) ∧
  (∀ d live s e, ack_begin slot d live = (s, Err e) → is_spent (slot_state s) = true) ∧
  (∀ t r live s e, ack_finish slot t r live = (s, Err e) → is_spent (slot_state s) = true) ∧
  (∀ live s e, slot_admit slot live = (s, Err e) → is_spent (slot_state s) = true) ∧
  (∀ r, is_spent (slot_state (fst (restrict slot r))) = true) ∧
  (∀ t o live s x, settle_begin slot t o live = (s, Ok x) → at_epoch t = slot_epoch slot) ∧
  (∀ t r live s x, settle_finish slot t r live = (s, Ok x) → st_epoch t = slot_epoch slot) ∧
  (∀ t r live s x, ack_finish slot t r live = (s, Ok x) → kt_epoch t = slot_epoch slot).
Proof.
  assert (Hsp : ∀ r, is_spent (slot_state (fst (spend slot r))) = true)
    by (intros r; unfold spend; by destruct (is_spent (slot_state slot)) eqn:?).
  assert (Href : ∀ T r s (x : result T Refused), refuse slot r = (s, x) →
    is_spent (slot_state s) = true ∧ ∀ t, x ≠ Ok t).
  { intros T r s x. rewrite refuse_spend. intros [= <- <-]. by split. }
  split_and!.
  1-5: unfold settle_begin, settle_finish, ack_begin, ack_finish, slot_admit; intros;
    repeat case_match; simplify_eq; by eapply Href.
  - intros r. unfold restrict. pose proof (Hsp (Restricted r)). by destruct (spend _ _) as [? []].
  - unfold settle_begin. intros t o live s x H.
    destruct (Z.eqb_spec (at_epoch t) (slot_epoch slot)); [done|].
    simpl in H. by apply Href in H as [_ H]; destruct (H x).
  - unfold settle_finish. intros t r live s x H.
    destruct (Z.eqb_spec (st_epoch t) (slot_epoch slot)); [done|].
    simpl in H. by apply Href in H as [_ H]; destruct (H x).
  - unfold ack_finish. intros t r live s x H.
    destruct (Z.eqb_spec (kt_epoch t) (slot_epoch slot)); [done|].
    simpl in H. by apply Href in H as [_ H]; destruct (H x).
Qed.
