(* ===== verification/LedgerWord.v ===== *)
(** * The ledger's published word and its tickets

    [crates/nexus-governed-control/src/ledger/protocol.rs], lines 102 to 404:
    the 64-bit word (flags, [live] and [unapplied] counts), the one
    compare-and-exchange loop, the health view and the ticket operations. *)

From S2P Require Import Prelude.

Local Open Scope Z_scope.

(** ** The word *)

Inductive Phase := Healthy | NeedBarrier | Resolving.
#[export] Instance Phase_eq_dec : EqDecision Phase.
Proof. solve_decision. Defined.

Inductive Session := Bootstrap | Open | Sealed.
#[export] Instance Session_eq_dec : EqDecision Session.
Proof. solve_decision. Defined.

Definition PHASE_NEED_BARRIER : Z := 0x1.
Definition PHASE_RESOLVING : Z := 0x2.
Definition PHASE_MASK : Z := 0x3.
Definition SESSION_OPEN : Z := 0x4.
Definition SESSION_SEALED : Z := 0x8.
Definition SESSION_MASK : Z := 0xC.
Definition LATCHED : Z := 0x10.
Definition U_OCCUPIED : Z := 0x20.
Definition C_OCCUPIED : Z := 0x40.
Definition X_OCCUPIED : Z := 0x80.
Definition HANDOVER_FAULT : Z := 0x100.
Definition FLAGS : Z := 0xFFFF.
Definition LIVE_SHIFT : Z := 16.
Definition UNAPPLIED_SHIFT : Z := 40.
Definition COUNT_MAX : Z := 0xFFFFFF.
Definition TICKET_LIMIT_MAX : Z := 0xFFFFFF.

(** 64-bit complement, and shift left with the bits past 64 dropped. *)
Definition not64 (x : Z) : Z := Z.lxor x u64_max.
Definition shl64 (x s : Z) : Z := Z.land (Z.shiftl x s) u64_max.

Definition field (word shift : Z) : Z := Z.land (Z.shiftr word shift) COUNT_MAX.

Definition with_field (word shift value : Z) : Z :=
  let mask := shl64 COUNT_MAX shift in
  Z.lor (Z.land word (not64 mask)) (Z.land (shl64 value shift) mask).

Definition count_step (word shift : Z) (up : bool) : Z :=
  let now := field word shift in
  let next :=
    if up
    then match checked_add u64_max now 1 with
         | Some next => if next <=? COUNT_MAX then Some next else None
         | None => None
         end
    else checked_sub now 1 in
  match next with
  | Some next => with_field word shift next
  | None => Z.lor word HANDOVER_FAULT
  end.

(** ** The compare-and-exchange loop

    [words k] is the value the shared word holds when the [k]-th exchange of
    the loop is attempted: other threads may change it between attempts. The
    result is the index of the exchange that succeeded and the value it
    published. *)
Fixpoint exchange_from (fuel k : nat) (words : nat → Z) (present : Z) (step : Z → Z)
    : option (nat * Z) :=
  match fuel with
  | O => None
  | S fuel =>
      let next := step present in
      if words k =? present then Some (k, next)
      else exchange_from fuel (S k) words (words k) step
  end.
Definition exchange (fuel : nat) (words : nat → Z) (guess : Z) (step : Z → Z)
    : option (nat * Z) := exchange_from fuel 0 words guess step.

(** ** The health view *)

Record HealthView := MkHealthView { hv_word : Z }.

Definition admits (v : HealthView) : bool :=
  (Z.land (hv_word v) FLAGS =? SESSION_OPEN) && (field (hv_word v) UNAPPLIED_SHIFT =? 0).

Definition hv_phase (v : HealthView) : Phase :=
  let p := Z.land (hv_word v) PHASE_MASK in
  if p =? 0 then Healthy else if p =? PHASE_NEED_BARRIER then NeedBarrier else Resolving.

Definition hv_session (v : HealthView) : Session :=
  let s := Z.land (hv_word v) SESSION_MASK in
  if s =? 0 then Bootstrap else if s =? SESSION_OPEN then Open else Sealed.

Definition hv_latched (v : HealthView) : bool := negb (Z.land (hv_word v) LATCHED =? 0).
Definition hv_handover_fault (v : HealthView) : bool :=
  negb (Z.land (hv_word v) HANDOVER_FAULT =? 0).
Definition hv_u_occupied (v : HealthView) : bool := negb (Z.land (hv_word v) U_OCCUPIED =? 0).
Definition hv_c_occupied (v : HealthView) : bool := negb (Z.land (hv_word v) C_OCCUPIED =? 0).
Definition hv_x_occupied (v : HealthView) : bool := negb (Z.land (hv_word v) X_OCCUPIED =? 0).
(** [u32::try_from] of a 24-bit field never saturates. *)
Definition hv_unapplied (v : HealthView) : Z := Z.min u32_max (field (hv_word v) UNAPPLIED_SHIFT).
Definition hv_live (v : HealthView) : Z := Z.min u32_max (field (hv_word v) LIVE_SHIFT).

(** ** Tickets *)

Inductive Persistence := NotWritten | Uncertain.
#[export] Instance Persistence_eq_dec : EqDecision Persistence.
Proof. solve_decision. Defined.

Record Counted := MkCounted { persistence : Persistence; conflict_member : option Z }.
#[export] Instance Counted_eq_dec : EqDecision Counted.
Proof. solve_decision. Defined.

Inductive TicketState := Armed | TCounted (c : Counted) | Settled.
#[export] Instance TicketState_eq_dec : EqDecision TicketState.
Proof. solve_decision. Defined.

(** A ticket names its ledger's one shared allocation by address. *)
Record Ticket := MkTicket { t_shared : Z; t_state : TicketState }.

Definition ticket_counted (t : Ticket) : option Counted :=
  match t_state t with TCounted c => Some c | Armed | Settled => None end.

(** The step of [arm]: the value published and whether a ticket was made. *)
Definition arm_step (limit word : Z) : Z * bool :=
  let live := field word LIVE_SHIFT in
  let armed := live <? limit in
  (if armed then with_field word LIVE_SHIFT (saturating_add u64_max live 1)
   else Z.lor word HANDOVER_FAULT, armed).

(** [confirm], [expire] and [drop], as the step each publishes. *)
Definition confirm_step (s : TicketState) (word : Z) : Z :=
  match s with
  | Armed => count_step word LIVE_SHIFT false
  | TCounted _ => count_step (count_step word UNAPPLIED_SHIFT false) LIVE_SHIFT false
  | Settled => word
  end.

Definition expired : Counted := MkCounted NotWritten None.
Definition expire_step (s : TicketState) (word : Z) : Z * TicketState :=
  match s with
  | Armed => (count_step word UNAPPLIED_SHIFT true, TCounted expired)
  | _ => (Z.lor word HANDOVER_FAULT, s)
  end.

Definition drop_step (s : TicketState) (word : Z) : Z :=
  match s with
  | Armed => count_step word LIVE_SHIFT false
  | TCounted _ => Z.lor word HANDOVER_FAULT
  | Settled => word
  end.

(** The step a store operation publishes: the flags of the core, the sticky
    fault and the counts carried over, and one more unapplied result when a
    ticket was counted. *)
Definition publish_step (flags : Z) (counted : bool) (word : Z) : Z :=
  let carried :=
    Z.lor (Z.lor (Z.land word (not64 FLAGS)) (Z.land word HANDOVER_FAULT)) flags in
  if counted then count_step carried UNAPPLIED_SHIFT true else carried.

(** ** Bits *)

Definition word_ok (w : Z) : Prop := 0 ≤ w < 2 ^ 64.

Lemma word_ok_bits w : 0 ≤ w → (∀ i, 64 ≤ i → Z.testbit w i = false) → word_ok w.
Proof. intros Hw Hb. apply bits_bound; [lia|done|done]. Qed.

(** The low [n] bits. *)
Lemma ones_bits n i : 0 ≤ n → 0 ≤ i → Z.testbit (2 ^ n - 1) i = (i <? n).
Proof.
  intros Hn Hi. replace (2 ^ n - 1) with (Z.ones n) by (rewrite Z.ones_equiv; lia).
  destruct (Z.ltb_spec i n); [by apply Z.ones_spec_low; lia|by apply Z.ones_spec_high; lia].
Qed.

Lemma land_ones_bits n w i : 0 ≤ n → 0 ≤ i →
  Z.testbit (Z.land w (2 ^ n - 1)) i = Z.testbit w i && (i <? n).
Proof. intros Hn Hi. by rewrite Z.land_spec, ones_bits. Qed.

Lemma field_bits w s i : 0 ≤ s → 0 ≤ i →
  Z.testbit (field w s) i = Z.testbit w (i + s) && (i <? 24).
Proof.
  intros Hs Hi. unfold field. change COUNT_MAX with (2 ^ 24 - 1).
  rewrite land_ones_bits, Z.shiftr_spec by lia. done.
Qed.

Lemma field_range w s : 0 ≤ field w s ≤ COUNT_MAX.
Proof.
  unfold field. change COUNT_MAX with (Z.ones 24). rewrite Z.land_ones by lia.
  pose proof (Z.mod_pos_bound (Z.shiftr w s) (2 ^ 24)). change (Z.ones 24) with (2 ^ 24 - 1). lia.
Qed.

(** The two count fields lie inside the word and above the flags. *)
Definition is_shift (s : Z) : Prop := s = LIVE_SHIFT ∨ s = UNAPPLIED_SHIFT.

Lemma with_field_bits w s v i :
  word_ok w → is_shift s → 0 ≤ v ≤ COUNT_MAX → 0 ≤ i →
  Z.testbit (with_field w s v) i =
  if (s <=? i) && (i <? s + 24) then Z.testbit v (i - s) else Z.testbit w i.
Proof.
  intros Hw Hs Hv Hi.
  assert (Hs' : 0 ≤ s ∧ s + 24 ≤ 64) by (destruct Hs as [-> | ->]; vm_compute; split; congruence).
  assert (Hmask : ∀ j, 0 ≤ j → Z.testbit (shl64 COUNT_MAX s) j = (s <=? j) && (j <? s + 24)).
  { intros j Hj. unfold shl64. change u64_max with (2 ^ 64 - 1). rewrite land_ones_bits by lia.
    rewrite Z.shiftl_spec by lia. change COUNT_MAX with (2 ^ 24 - 1).
    destruct (Z.leb_spec s j); [|rewrite Z.testbit_neg_r by lia; done].
    rewrite ones_bits by lia. destruct (Z.ltb_spec (j - s) 24), (Z.ltb_spec j (s + 24)),
      (Z.ltb_spec j 64); try done; lia. }
  unfold with_field. rewrite Z.lor_spec, !Z.land_spec, Hmask by done.
  unfold not64. rewrite Z.lxor_spec, Hmask by done. change u64_max with (2 ^ 64 - 1).
  rewrite ones_bits by lia. unfold shl64. change u64_max with (2 ^ 64 - 1).
  rewrite land_ones_bits, Z.shiftl_spec by lia.
  destruct (Z.leb_spec s i), (Z.ltb_spec i (s + 24)); simpl; try lia.
  - destruct (Z.ltb_spec i 64); [|lia]. by rewrite andb_false_r, !andb_true_r.
  - rewrite andb_false_r, orb_false_r. destruct (Z.ltb_spec i 64); [by rewrite andb_true_r|].
    by rewrite (high_bits w 64 i) by (try done; lia).
  - rewrite andb_false_r, orb_false_r. destruct (Z.ltb_spec i 64); [by rewrite andb_true_r|].
    by rewrite (high_bits w 64 i) by (try done; lia).
Qed.

Lemma with_field_nonneg w s v : word_ok w → 0 ≤ with_field w s v.
Proof.
  intros [Hw _]. unfold with_field. apply Z.lor_nonneg. split; apply Z.land_nonneg; [by left|].
  left. unfold shl64. apply Z.land_nonneg. by right.
Qed.

Lemma with_field_ok w s v : word_ok w → is_shift s → 0 ≤ v ≤ COUNT_MAX → word_ok (with_field w s v).
Proof.
  intros Hw Hs Hv. apply word_ok_bits; [by apply with_field_nonneg|].
  intros i Hi. rewrite with_field_bits by (done || lia).
  rewrite (high_bits w 64 i) by (try done; lia).
  destruct (Z.ltb_spec i (s + 24)); [|by rewrite andb_false_r].
  destruct Hs as [-> | ->]; unfold LIVE_SHIFT, UNAPPLIED_SHIFT in *; lia.
Qed.

(** Writing a field and reading it back, reading the other field, and the
    flags below both. *)
Lemma field_with_same w s v : word_ok w → is_shift s → 0 ≤ v ≤ COUNT_MAX →
  field (with_field w s v) s = v.
Proof.
  intros Hw Hs Hv. assert (0 ≤ s) by (destruct Hs as [-> | ->]; vm_compute; congruence).
  apply Z.bits_inj'. intros i Hi. rewrite field_bits, with_field_bits by (done || lia).
  replace (i + s - s) with i by lia.
  destruct (Z.leb_spec s (i + s)); [|lia].
  destruct (Z.ltb_spec (i + s) (s + 24)), (Z.ltb_spec i 24); simpl; try lia.
  - by rewrite andb_true_r.
  - rewrite andb_false_r. symmetry. apply (high_bits v 24); [|lia].
    unfold COUNT_MAX in Hv. change (2 ^ 24) with 16777216. lia.
Qed.

Lemma field_with_other w s s' v : word_ok w → is_shift s → is_shift s' → s ≠ s' →
  0 ≤ v ≤ COUNT_MAX → field (with_field w s v) s' = field w s'.
Proof.
  intros Hw Hs Hs' Hne Hv. assert (0 ≤ s') by (destruct Hs' as [-> | ->]; vm_compute; congruence).
  apply Z.bits_inj'. intros i Hi. rewrite !field_bits, with_field_bits by (done || lia).
  destruct (Z.ltb_spec i 24); [|by rewrite !andb_false_r].
  destruct (Z.leb_spec s (i + s')), (Z.ltb_spec (i + s') (s + 24)); try done. exfalso.
  destruct Hs as [-> | ->], Hs' as [-> | ->]; unfold LIVE_SHIFT, UNAPPLIED_SHIFT in *; lia.
Qed.

Lemma flags_with_field w s v : word_ok w → is_shift s → 0 ≤ v ≤ COUNT_MAX →
  Z.land (with_field w s v) FLAGS = Z.land w FLAGS.
Proof.
  intros Hw Hs Hv. change FLAGS with (2 ^ 16 - 1). apply Z.bits_inj'. intros i Hi.
  rewrite !land_ones_bits, with_field_bits by (done || lia).
  destruct (Z.ltb_spec i 16); [|by rewrite !andb_false_r].
  destruct (Z.leb_spec s i); [|done].
  destruct Hs as [-> | ->]; unfold LIVE_SHIFT, UNAPPLIED_SHIFT in *; lia.
Qed.

(** The fault bit lies among the flags, outside both counts. *)
Lemma fault_bits i : 0 ≤ i → Z.testbit HANDOVER_FAULT i = (i =? 8).
Proof.
  intros Hi. change HANDOVER_FAULT with (2 ^ 8). destruct (Z.eqb_spec i 8) as [->|]; [done|].
  by apply Z.pow2_bits_false.
Qed.

Lemma or_fault_ok w : word_ok w → word_ok (Z.lor w HANDOVER_FAULT).
Proof.
  intros Hw. apply word_ok_bits; [apply Z.lor_nonneg; split; [apply Hw|done]|].
  intros i Hi. rewrite Z.lor_spec, fault_bits, (high_bits w 64 i) by (try done; lia).
  destruct (Z.eqb_spec i 8); [lia|done].
Qed.

Lemma field_or_fault w s : is_shift s → field (Z.lor w HANDOVER_FAULT) s = field w s.
Proof.
  intros Hs. assert (16 ≤ s) by (destruct Hs as [-> | ->]; vm_compute; congruence).
  apply Z.bits_inj'. intros i Hi. rewrite !field_bits, Z.lor_spec, fault_bits by lia.
  destruct (Z.eqb_spec (i + s) 8); [lia|]. by rewrite orb_false_r.
Qed.

(** Whether the fault is set. *)
Definition faulted (w : Z) : bool := Z.testbit w 8.

Lemma faulted_or w : faulted (Z.lor w HANDOVER_FAULT) = true.
Proof. unfold faulted. rewrite Z.lor_spec. apply orb_true_r. Qed.

Lemma faulted_with_field w s v : word_ok w → is_shift s → 0 ≤ v ≤ COUNT_MAX →
  faulted (with_field w s v) = faulted w.
Proof.
  intros Hw Hs Hv. unfold faulted. rewrite with_field_bits by (done || lia).
  destruct Hs as [-> | ->]; done.
Qed.

Lemma faulted_view w : hv_handover_fault (MkHealthView w) = faulted w.
Proof.
  unfold hv_handover_fault, faulted. simpl.
  destruct (Z.testbit w 8) eqn:E; destruct (Z.eqb_spec (Z.land w HANDOVER_FAULT) 0) as [H|H]; try done.
  - assert (Hb : Z.testbit (Z.land w HANDOVER_FAULT) 8 = false) by (by rewrite H).
    rewrite Z.land_spec, E in Hb. done.
  - exfalso. apply H. apply Z.bits_inj'. intros i Hi. rewrite Z.land_spec, fault_bits, Z.bits_0 by done.
    destruct (Z.eqb_spec i 8) as [->|]; [by rewrite E|apply andb_false_r].
Qed.

(** One step of a count that neither overflows nor underflows. *)
Lemma count_up w s : word_ok w → is_shift s → field w s < COUNT_MAX →
  count_step w s true = with_field w s (field w s + 1).
Proof.
  intros Hw Hs Hlt. unfold count_step, checked_add.
  pose proof (field_range w s). unfold COUNT_MAX, u64_max in *.
  rewrite (proj2 (Z.leb_le (field w s + 1) 18446744073709551615)) by lia.
  by rewrite (proj2 (Z.leb_le (field w s + 1) 16777215)) by lia.
Qed.

Lemma count_down w s : 0 < field w s → count_step w s false = with_field w s (field w s - 1).
Proof.
  intros Hlt. unfold count_step, checked_sub. by rewrite (proj2 (Z.leb_le 1 (field w s))) by lia.
Qed.

(** Flags a core can publish: the low 16 bits without the fault. *)
Definition flags_ok (flags : Z) : Prop := 0 ≤ flags < 2 ^ 16 ∧ Z.testbit flags 8 = false.

Lemma carried_bits flags w i : word_ok w → flags_ok flags → 0 ≤ i →
  Z.testbit (publish_step flags false w) i =
  if i <? 16 then (if i =? 8 then Z.testbit w 8 else Z.testbit flags i) else Z.testbit w i.
Proof.
  intros Hw [Hf Hfault] Hi. unfold publish_step. cbn match.
  rewrite !Z.lor_spec, !Z.land_spec, fault_bits by done. unfold not64. rewrite Z.lxor_spec.
  change FLAGS with (2 ^ 16 - 1). change u64_max with (2 ^ 64 - 1). rewrite !ones_bits by lia.
  destruct (Z.ltb_spec i 16).
  - destruct (Z.ltb_spec i 64); [|lia]. simpl. rewrite andb_false_r. simpl.
    destruct (Z.eqb_spec i 8) as [->|]; [by rewrite Hfault, orb_false_r, andb_true_r|].
    by rewrite andb_false_r.
  - rewrite (high_bits flags 16 i) by (done || lia).
    destruct (Z.eqb_spec i 8); [lia|]. simpl. rewrite andb_false_r, !orb_false_r.
    destruct (Z.ltb_spec i 64); [by rewrite andb_true_r|].
    by rewrite (high_bits w 64 i) by (done || lia).
Qed.

Lemma carried_ok flags w : word_ok w → flags_ok flags → word_ok (publish_step flags false w).
Proof.
  intros Hw Hf. apply word_ok_bits.
  - unfold publish_step. rewrite !Z.lor_nonneg. destruct Hw, Hf as [[? ?] ?].
    split_and!; [apply Z.land_nonneg; by left|apply Z.land_nonneg; by left|done].
  - intros i Hi. rewrite carried_bits by (done || lia).
    destruct (Z.ltb_spec i 16); [lia|]. by apply (high_bits w 64).
Qed.

Lemma field_carried flags w s : word_ok w → flags_ok flags → is_shift s →
  field (publish_step flags false w) s = field w s.
Proof.
  intros Hw Hf Hs. assert (16 ≤ s) by (destruct Hs as [-> | ->]; vm_compute; congruence).
  apply Z.bits_inj'. intros i Hi. rewrite !field_bits, carried_bits by (done || lia).
  by destruct (Z.ltb_spec (i + s) 16); [lia|].
Qed.

Lemma faulted_carried flags w : word_ok w → flags_ok flags →
  faulted (publish_step flags false w) = faulted w.
Proof. intros Hw Hf. unfold faulted. by rewrite carried_bits by (done || lia). Qed.

Lemma flags_carried flags w : word_ok w → flags_ok flags →
  Z.land (publish_step flags false w) FLAGS = Z.lor flags (Z.land w HANDOVER_FAULT).
Proof.
  intros Hw Hf. change FLAGS with (2 ^ 16 - 1). apply Z.bits_inj'. intros i Hi.
  rewrite land_ones_bits, carried_bits, Z.lor_spec, Z.land_spec, fault_bits by (done || lia).
  destruct Hf as [Hf Hfault].
  destruct (Z.ltb_spec i 16).
  - rewrite andb_true_r. destruct (Z.eqb_spec i 8) as [->|].
    + by rewrite Hfault, andb_true_r.
    + by rewrite andb_false_r, orb_false_r.
  - rewrite andb_false_r. destruct (Z.eqb_spec i 8); [lia|].
    by rewrite (high_bits flags 16 i), andb_false_r by (done || lia).
Qed.

(** The exchange is one atomic step, whatever other threads do: when the
    loop returns, the value it published is the step applied to the value the
    word held at that very exchange; and it returns as soon as the word is
    the same at two successive attempts. *)
Theorem exchange_atomic fuel words guess step :
  (∀ k next, exchange fuel words guess step = Some (k, next) →
     (k < fuel)%nat ∧ next = step (words k)) ∧
  (∀ k, (S k < fuel)%nat → words k = words (S k) →
     ∃ k' next, exchange fuel words guess step = Some (k', next) ∧ (k' ≤ S k)%nat).
Proof.
  unfold exchange.
  assert (Hgen : ∀ fuel j present,
    (∀ k next, exchange_from fuel j words present step = Some (k, next) →
       (j ≤ k < j + fuel)%nat ∧ next = step (words k)) ∧
    (∀ k, (j ≤ k)%nat → (S k < j + fuel)%nat → words k = words (S k) →
       ∃ k' next, exchange_from fuel j words present step = Some (k', next) ∧ (k' ≤ S k)%nat)).
  { clear. induction fuel as [|fuel IH]; intros j present; simpl; [split; [done|lia]|].
    destruct (Z.eqb_spec (words j) present) as [E|E].
    - split; [intros k next [= <- <-]; split; [lia|by rewrite E]|].
      intros k Hk _ _. exists j, (step present). split; [done|lia].
    - destruct (IH (S j) (words j)) as [IH1 IH2]. split.
      + intros k next H. apply IH1 in H as [? ?]. split; [lia|done].
      + intros k Hk Hf Hw. destruct (decide (k = j)) as [->|].
        * destruct fuel as [|fuel]; [lia|]. simpl. rewrite Hw, Z.eqb_refl. by eexists _, _.
        * apply IH2; [lia|lia|done]. }
  destruct (Hgen fuel 0%nat guess) as [H1 H2]. split.
  - intros k next H. apply H1 in H as [? ?]. split; [lia|done].
  - intros k Hk Hw. apply H2; [lia|lia|done].
Qed.

(** ** Ticket accounting *)

(** The word, the tickets in circulation, and the number of counted tickets
    that were dropped without being confirmed. *)
Record world := MkWorld { w_word : Z; w_tickets : list TicketState; w_leaked : nat }.

Definition is_counted (s : TicketState) : bool := match s with TCounted _ => true | _ => false end.
Definition n_counted (l : list TicketState) : nat := length (filter (λ s, is_counted s = true) l).

(** One atomic step of a ticket, on any thread. *)
Inductive tstep (limit : Z) : world → world → Prop :=
| ts_arm w ts n :
    tstep limit (MkWorld w ts n)
      (MkWorld (fst (arm_step limit w)) (if snd (arm_step limit w) then Armed :: ts else ts) n)
| ts_confirm w l1 t l2 n :
    tstep limit (MkWorld w (l1 ++ t :: l2) n) (MkWorld (confirm_step t w) (l1 ++ l2) n)
| ts_expire w l1 t l2 n :
    tstep limit (MkWorld w (l1 ++ t :: l2) n)
      (MkWorld (fst (expire_step t w)) (l1 ++ snd (expire_step t w) :: l2) n)
| ts_drop w l1 t l2 n :
    tstep limit (MkWorld w (l1 ++ t :: l2) n)
      (MkWorld (drop_step t w) (l1 ++ l2) (if is_counted t then S n else n)).

(** One atomic step of any thread: a ticket operation, or the publication of
    a store operation, with or without a lent ticket. *)
Inductive wstep (limit : Z) : world → world → Prop :=
| ws_ticket w w' : tstep limit w w' → wstep limit w w'
| ws_publish w ts n flags :
    flags_ok flags →
    wstep limit (MkWorld w ts n) (MkWorld (publish_step flags false w) ts n)
| ws_publish_counted w l1 c l2 n flags :
    flags_ok flags →
    wstep limit (MkWorld w (l1 ++ Armed :: l2) n)
      (MkWorld (publish_step flags true w) (l1 ++ TCounted c :: l2) n).

Definition world_new : world := MkWorld 0 [] 0.
Definition world_reachable (limit : Z) (w : world) : Prop := rtc (wstep limit) world_new w.

(** The counts are exact: [live] is the tickets in circulation and those
    lost, [unapplied] the counted ones and those lost. *)
Record accounted (limit : Z) (w : world) : Prop := {
  ac_word : word_ok (w_word w);
  ac_live : field (w_word w) LIVE_SHIFT = Z.of_nat (length (w_tickets w) + w_leaked w);
  ac_unapplied : field (w_word w) UNAPPLIED_SHIFT = Z.of_nat (n_counted (w_tickets w) + w_leaked w);
  ac_limit : field (w_word w) LIVE_SHIFT ≤ limit;
  ac_settled : Settled ∉ w_tickets w;
  ac_leaked : (0 < w_leaked w)%nat → faulted (w_word w) = true;
}.

Lemma n_counted_split l1 t l2 :
  n_counted (l1 ++ t :: l2) = (n_counted (l1 ++ l2) + (if is_counted t then 1 else 0))%nat.
Proof.
  unfold n_counted. rewrite !filter_app, filter_cons, !length_app.
  destruct (is_counted t); simpl; lia.
Qed.

Lemma n_counted_armed l : n_counted (Armed :: l) = n_counted l.
Proof. done. Qed.

Lemma n_counted_le l : (n_counted l ≤ length l)%nat.
Proof. unfold n_counted. apply length_filter. Qed.

Lemma shifts : is_shift LIVE_SHIFT ∧ is_shift UNAPPLIED_SHIFT ∧ LIVE_SHIFT ≠ UNAPPLIED_SHIFT.
Proof. split_and!; [by left|by right|done]. Qed.

(** What a step does to the three parts of the word. *)
Record word_change (w w' : Z) (dl du : Z) (fault : bool) : Prop := {
  wc_ok : word_ok w';
  wc_live : field w' LIVE_SHIFT = field w LIVE_SHIFT + dl;
  wc_unapplied : field w' UNAPPLIED_SHIFT = field w UNAPPLIED_SHIFT + du;
  wc_fault : faulted w' = faulted w || fault;
}.

Lemma change_fault w : word_ok w → word_change w (Z.lor w HANDOVER_FAULT) 0 0 true.
Proof.
  intros Hw. destruct shifts as (S1 & S2 & _). split; [by apply or_fault_ok|..];
    rewrite ?field_or_fault, ?faulted_or, ?orb_true_r by done; lia || done.
Qed.

Lemma change_live w v : word_ok w → 0 ≤ v ≤ COUNT_MAX →
  word_change w (with_field w LIVE_SHIFT v) (v - field w LIVE_SHIFT) 0 false.
Proof.
  intros Hw Hv. destruct shifts as (S1 & S2 & S3). split; [by apply with_field_ok|..].
  - rewrite field_with_same by done. lia.
  - rewrite field_with_other by done. lia.
  - rewrite faulted_with_field by done. by rewrite orb_false_r.
Qed.

Lemma change_unapplied w v : word_ok w → 0 ≤ v ≤ COUNT_MAX →
  word_change w (with_field w UNAPPLIED_SHIFT v) 0 (v - field w UNAPPLIED_SHIFT) false.
Proof.
  intros Hw Hv. destruct shifts as (S1 & S2 & S3). split; [by apply with_field_ok|..].
  - rewrite field_with_other by done. lia.
  - rewrite field_with_same by done. lia.
  - rewrite faulted_with_field by done. by rewrite orb_false_r.
Qed.

Lemma change_publish w flags : word_ok w → flags_ok flags →
  word_change w (publish_step flags false w) 0 0 false.
Proof.
  intros Hw Hf. destruct shifts as (S1 & S2 & S3). split; [by apply carried_ok|..];
    rewrite ?field_carried, ?faulted_carried, ?orb_false_r by done; lia || done.
Qed.

(** The invariant from the changes of a step. *)
Lemma accounted_change limit w w' dl du f ts' n' :
  accounted limit w → word_change (w_word w) w' dl du f →
  field (w_word w) LIVE_SHIFT + dl = Z.of_nat (length ts' + n') →
  field (w_word w) UNAPPLIED_SHIFT + du = Z.of_nat (n_counted ts' + n') →
  field (w_word w) LIVE_SHIFT + dl ≤ limit → Settled ∉ ts' →
  ((0 < n')%nat → faulted (w_word w) || f = true) →
  accounted limit (MkWorld w' ts' n').
Proof.
  intros [] [] El Eu Hl Hs Hf. split; simpl; try done; try congruence.
  intros Hn. rewrite wc_fault0. auto.
Qed.

Lemma change_trans w w1 w2 dl1 du1 f1 dl2 du2 f2 :
  word_change w w1 dl1 du1 f1 → word_change w1 w2 dl2 du2 f2 →
  word_change w w2 (dl1 + dl2) (du1 + du2) (f1 || f2).
Proof.
  intros [A1 A2 A3 A4] [B1 B2 B3 B4]. split; [done|lia|lia|].
  by rewrite B4, A4, orb_assoc.
Qed.

Lemma change_live_down w : word_ok w → 0 < field w LIVE_SHIFT →
  word_change w (count_step w LIVE_SHIFT false) (-1) 0 false.
Proof.
  intros Hw Hl. rewrite count_down by done. pose proof (field_range w LIVE_SHIFT).
  replace (-1) with (field w LIVE_SHIFT - 1 - field w LIVE_SHIFT) by lia.
  apply change_live; [done|lia].
Qed.

Lemma change_unapplied_down w : word_ok w → 0 < field w UNAPPLIED_SHIFT →
  word_change w (count_step w UNAPPLIED_SHIFT false) 0 (-1) false.
Proof.
  intros Hw Hl. rewrite count_down by done. pose proof (field_range w UNAPPLIED_SHIFT).
  replace (-1) with (field w UNAPPLIED_SHIFT - 1 - field w UNAPPLIED_SHIFT) by lia.
  apply change_unapplied; [done|lia].
Qed.

Lemma change_unapplied_up w : word_ok w → field w UNAPPLIED_SHIFT < COUNT_MAX →
  word_change w (count_step w UNAPPLIED_SHIFT true) 0 1 false.
Proof.
  intros Hw Hl. rewrite count_up by (done || apply shifts).
  pose proof (field_range w UNAPPLIED_SHIFT).
  replace 1 with (field w UNAPPLIED_SHIFT + 1 - field w UNAPPLIED_SHIFT) at 2 by lia.
  apply change_unapplied; [done|lia].
Qed.

Lemma change_publish_counted w flags : word_ok w → flags_ok flags →
  field w UNAPPLIED_SHIFT < COUNT_MAX → word_change w (publish_step flags true w) 0 1 false.
Proof.
  intros Hw Hf Hu. pose proof (change_publish w flags Hw Hf) as Hc. destruct shifts as (_ & S2 & _).
  apply (change_trans w (publish_step flags false w) _ 0 0 false 0 1 false); [done|].
  apply change_unapplied_up; [apply Hc|]. by rewrite field_carried.
Qed.

Section Accounting.
Context (limit : Z) (Hlimit : 1 ≤ limit ≤ TICKET_LIMIT_MAX).

(** Closes the arithmetic of a step from the counts before it. *)
Ltac account :=
  repeat match goal with
  | H : accounted _ _ |- _ => destruct H; simpl in *
  end;
  rewrite ?n_counted_split, ?n_counted_armed, ?length_app in *; simpl in *; lia.

Lemma accounted_arm w ts n : accounted limit (MkWorld w ts n) →
  accounted limit (MkWorld (fst (arm_step limit w))
                           (if snd (arm_step limit w) then Armed :: ts else ts) n).
Proof.
  intros H. pose proof (ac_word _ _ H) as Hw. simpl in Hw. pose proof (field_range w LIVE_SHIFT).
  unfold arm_step. simpl. destruct (Z.ltb_spec (field w LIVE_SHIFT) limit).
  - unfold saturating_add, TICKET_LIMIT_MAX, COUNT_MAX, u64_max in *. rewrite Z.min_r by lia.
    eapply accounted_change; [done|apply change_live; [done|unfold COUNT_MAX; lia]|..];
      [account|account|simpl; lia| |].
    + apply not_elem_of_cons. split; [done|apply (ac_settled _ _ H)].
    + intros Hn. by rewrite (ac_leaked _ _ H).
  - eapply accounted_change;
      [done|by apply change_fault|account|account|account|apply (ac_settled _ _ H)|].
    intros _. apply orb_true_r.
Qed.

Lemma not_settled w l1 t l2 n : accounted limit (MkWorld w (l1 ++ t :: l2) n) →
  t ≠ Settled ∧ Settled ∉ l1 ++ l2.
Proof.
  intros H. pose proof (ac_settled _ _ H) as Hs. simpl in Hs.
  rewrite not_elem_of_app, not_elem_of_cons in Hs. rewrite not_elem_of_app. naive_solver.
Qed.

Lemma accounted_down w l1 l2 n : accounted limit (MkWorld w (l1 ++ Armed :: l2) n) →
  accounted limit (MkWorld (count_step w LIVE_SHIFT false) (l1 ++ l2) n).
Proof.
  intros H. destruct (not_settled _ _ _ _ _ H) as [_ Hs]. pose proof (ac_word _ _ H) as Hw.
  eapply accounted_change; [done|apply change_live_down; [done|account]|..];
    [account|account|account|done|].
  intros Hn. by rewrite (ac_leaked _ _ H).
Qed.

Lemma accounted_confirm w l1 t l2 n : accounted limit (MkWorld w (l1 ++ t :: l2) n) →
  accounted limit (MkWorld (confirm_step t w) (l1 ++ l2) n).
Proof.
  intros H. destruct (not_settled _ _ _ _ _ H) as [Hne Hs]. pose proof (ac_word _ _ H) as Hw.
  destruct t as [|c|]; [by apply accounted_down| |done]. simpl.
  assert (Hc : word_change w (count_step w UNAPPLIED_SHIFT false) 0 (-1) false)
    by (apply change_unapplied_down; [done|account]).
  eapply accounted_change; [done|eapply change_trans; [exact Hc|apply change_live_down]|..];
    [apply Hc|rewrite (wc_live _ _ _ _ _ Hc); account|account|account|account|done|].
  intros Hn. by rewrite (ac_leaked _ _ H).
Qed.

Lemma accounted_expire w l1 t l2 n : accounted limit (MkWorld w (l1 ++ t :: l2) n) →
  accounted limit (MkWorld (fst (expire_step t w)) (l1 ++ snd (expire_step t w) :: l2) n).
Proof.
  intros H. destruct (not_settled _ _ _ _ _ H) as [Hne Hs]. pose proof (ac_word _ _ H) as Hw.
  rewrite not_elem_of_app in Hs. pose proof (n_counted_le (l1 ++ l2)).
  destruct t as [|c|]; [| |done]; simpl.
  - eapply accounted_change; [done|apply change_unapplied_up; [done|]|..].
    + unfold COUNT_MAX, TICKET_LIMIT_MAX in *. account.
    + account.
    + account.
    + account.
    + rewrite not_elem_of_app, not_elem_of_cons. naive_solver.
    + intros Hn. by rewrite (ac_leaked _ _ H).
  - eapply accounted_change; [done|by apply change_fault|account|account|account| |].
    + rewrite not_elem_of_app, not_elem_of_cons. naive_solver.
    + intros _. apply orb_true_r.
Qed.

Lemma accounted_drop w l1 t l2 n : accounted limit (MkWorld w (l1 ++ t :: l2) n) →
  accounted limit (MkWorld (drop_step t w) (l1 ++ l2) (if is_counted t then S n else n)).
Proof.
  intros H. destruct (not_settled _ _ _ _ _ H) as [Hne Hs]. pose proof (ac_word _ _ H) as Hw.
  destruct t as [|c|]; [by apply accounted_down| |done]. simpl.
  eapply accounted_change; [done|by apply change_fault|account|account|account|done|].
  intros _. apply orb_true_r.
Qed.

Lemma accounted_publish_counted w l1 c l2 n flags : flags_ok flags →
  accounted limit (MkWorld w (l1 ++ Armed :: l2) n) →
  accounted limit (MkWorld (publish_step flags true w) (l1 ++ TCounted c :: l2) n).
Proof.
  intros Hf H. destruct (not_settled _ _ _ _ _ H) as [_ Hs]. pose proof (ac_word _ _ H) as Hw.
  rewrite not_elem_of_app in Hs. pose proof (n_counted_le (l1 ++ l2)).
  eapply accounted_change; [done|apply change_publish_counted; [done|done|]|..].
  - unfold COUNT_MAX, TICKET_LIMIT_MAX in *. account.
  - account.
  - account.
  - account.
  - rewrite not_elem_of_app, not_elem_of_cons. naive_solver.
  - intros Hn. by rewrite (ac_leaked _ _ H).
Qed.

Lemma accounted_step w w' : accounted limit w → wstep limit w w' → accounted limit w'.
Proof.
  intros H Hs. destruct Hs as [w w' Hs| |]; [destruct Hs| |].
  - by apply accounted_arm.
  - by apply accounted_confirm.
  - by apply accounted_expire.
  - by apply accounted_drop.
  - pose proof (ac_word _ _ H) as Hw.
    eapply accounted_change; [done|by apply change_publish|account|account|account|apply (ac_settled _ _ H)|].
    intros Hn. by rewrite (ac_leaked _ _ H).
  - by apply accounted_publish_counted.
Qed.

Lemma accounted_reachable w : world_reachable limit w → accounted limit w.
Proof.
  intros Hr. assert (Hi : accounted limit world_new).
  { split; simpl; [done|done|done|change (field 0 LIVE_SHIFT) with 0; lia|set_solver|lia]. }
  unfold world_reachable in Hr. induction Hr; eauto using accounted_step.
Qed.
End Accounting.

(** A count step keeps the word in range and never clears the fault. *)
Lemma count_step_ok w s up : word_ok w → is_shift s →
  word_ok (count_step w s up) ∧ (faulted w = true → faulted (count_step w s up) = true).
Proof.
  intros Hw Hs. pose proof (field_range w s) as Hr.
  assert (Hset : ∀ v, 0 ≤ v ≤ COUNT_MAX → word_ok (with_field w s v) ∧
    (faulted w = true → faulted (with_field w s v) = true)).
  { intros v Hv. split; [by apply with_field_ok|]. by rewrite faulted_with_field. }
  assert (Hor : word_ok (Z.lor w HANDOVER_FAULT) ∧
    (faulted w = true → faulted (Z.lor w HANDOVER_FAULT) = true))
    by (split; [by apply or_fault_ok|intros _; apply faulted_or]).
  unfold count_step, checked_add, checked_sub. destruct up.
  - destruct (_ <=? u64_max); [|done]. destruct (Z.leb_spec (field w s + 1) COUNT_MAX); [|done].
    apply Hset. lia.
  - destruct (Z.leb_spec 1 (field w s)); [|done]. apply Hset. lia.
Qed.

Lemma fault_sticky limit w w' : 1 ≤ limit ≤ TICKET_LIMIT_MAX → word_ok (w_word w) →
  wstep limit w w' → faulted (w_word w) = true → faulted (w_word w') = true.
Proof.
  intros Hl Hw Hs Hf. destruct shifts as (S1 & S2 & _).
  assert (Hc : ∀ s up, is_shift s → faulted (count_step (w_word w) s up) = true)
    by (intros s up Hs'; by apply count_step_ok).
  destruct Hs as [w w' Hs|w ts n flags Hfl|w l1 c l2 n flags Hfl];
    [destruct Hs as [w ts n|w l1 t l2 n|w l1 t l2 n|w l1 t l2 n]| |]; cbn [w_word] in *.
  - unfold arm_step. pose proof (field_range w LIVE_SHIFT). unfold TICKET_LIMIT_MAX, COUNT_MAX in *.
    destruct (Z.ltb_spec (field w LIVE_SHIFT) limit); simpl; [|apply faulted_or].
    rewrite faulted_with_field; [done|done|done|]. unfold saturating_add, u64_max, COUNT_MAX. lia.
  - destruct t; simpl; [by apply Hc| |done].
    apply count_step_ok; [by apply count_step_ok|done|by apply Hc].
  - destruct t; simpl; [by apply Hc|apply faulted_or..].
  - destruct t; simpl; [by apply Hc|apply faulted_or|done].
  - by rewrite faulted_carried.
  - unfold publish_step. apply count_step_ok; [by apply (carried_ok flags)|done|].
    by apply (eq_trans (faulted_carried flags w Hw Hfl)).
Qed.

(** Ticket accounting: for any interleaving of ticket operations and
    store publications on any threads, [live] is exactly the number of
    tickets in circulation and lost, [unapplied] the number of counted ones
    and lost, and the limit holds, so no count ever wraps. A counted ticket
    lost without confirmation leaves the handover fault set, which no step
    clears; and a view that admits has no counted result waiting and none
    ever lost. *)
Theorem ticket_accounting limit w :
  1 ≤ limit ≤ TICKET_LIMIT_MAX → world_reachable limit w →
  let v := MkHealthView (w_word w) in
  hv_live v = Z.of_nat (length (w_tickets w) + w_leaked w) ∧ hv_live v ≤ limit ∧
  hv_unapplied v = Z.of_nat (n_counted (w_tickets w) + w_leaked w) ∧
  ((0 < w_leaked w)%nat → hv_handover_fault v = true) ∧
  (∀ w', wstep limit w w' → hv_handover_fault v = true →
     hv_handover_fault (MkHealthView (w_word w')) = true) ∧
  (admits v = true → n_counted (w_tickets w) = 0%nat ∧ w_leaked w = 0%nat).
Proof.
  intros Hl Hr v. destruct (accounted_reachable limit Hl w Hr) as [Hw Hlive Hun Hlim _ Hleak].
  pose proof (field_range (w_word w) LIVE_SHIFT). pose proof (field_range (w_word w) UNAPPLIED_SHIFT).
  unfold hv_live, hv_unapplied, v, COUNT_MAX, u32_max in *. cbn [hv_word].
  split_and!; [lia|lia|lia|by rewrite faulted_view| |].
  - intros w' Hs. rewrite !faulted_view. by eapply fault_sticky.
  - unfold admits. cbn [hv_word]. intros Ha. breflect. lia.
Qed.

Lemma ticket_accounting_witness :
  hv_live (MkHealthView (w_word (MkWorld 0x10000010000 [TCounted expired] 0))) = 1 ∧
  hv_unapplied (MkHealthView 0x10000010000) = 1.
Proof.
  assert (Hr : world_reachable 5 (MkWorld 0x10000010000 [TCounted expired] 0)).
  { eapply rtc_l; [apply ws_ticket, ts_arm|].
    eapply rtc_l; [apply ws_ticket, (ts_expire _ _ [] Armed [])|].
    apply rtc_refl. }
  pose proof (ticket_accounting 5 _ ltac:(split; vm_compute; congruence) Hr) as (H1 & _ & H2 & _).
  split; [exact H1|exact H2].
Defined.

(** ** The flags under ticket steps *)

(** The flag bits of the word, the fault apart, are those of [flags]. *)
Definition shows (flags w : Z) : Prop :=
  ∀ i, 0 ≤ i < 16 → i ≠ 8 → Z.testbit w i = Z.testbit flags i.

Lemma shows_with_field flags w s v : word_ok w → is_shift s → 0 ≤ v ≤ COUNT_MAX →
  shows flags w → shows flags (with_field w s v).
Proof.
  intros Hw Hs Hv H i Hi Hne. rewrite with_field_bits by (done || lia).
  destruct (Z.leb_spec s i); [|by apply H].
  destruct Hs as [-> | ->]; unfold LIVE_SHIFT, UNAPPLIED_SHIFT in *; lia.
Qed.

Lemma shows_or_fault flags w : shows flags w → shows flags (Z.lor w HANDOVER_FAULT).
Proof.
  intros H i Hi Hne. rewrite Z.lor_spec, fault_bits by lia.
  destruct (Z.eqb_spec i 8); [lia|]. rewrite orb_false_r. by apply H.
Qed.

Lemma shows_count_step flags w s up : word_ok w → is_shift s →
  shows flags w → shows flags (count_step w s up).
Proof.
  intros Hw Hs H. pose proof (field_range w s) as Hr.
  unfold count_step, checked_add, checked_sub. destruct up.
  - destruct (_ <=? u64_max); [|by apply shows_or_fault].
    destruct (Z.leb_spec (field w s + 1) COUNT_MAX); [|by apply shows_or_fault].
    apply shows_with_field; try done. lia.
  - destruct (Z.leb_spec 1 (field w s)); [|by apply shows_or_fault].
    apply shows_with_field; try done. lia.
Qed.

Lemma shows_tstep limit flags w w' : 1 ≤ limit ≤ TICKET_LIMIT_MAX → word_ok (w_word w) →
  tstep limit w w' → shows flags (w_word w) → shows flags (w_word w').
Proof.
  intros Hl Hw Hs H. destruct shifts as (S1 & S2 & _).
  destruct Hs as [w ts n|w l1 t l2 n|w l1 t l2 n|w l1 t l2 n]; cbn [w_word] in *.
  - unfold arm_step. pose proof (field_range w LIVE_SHIFT). unfold TICKET_LIMIT_MAX, COUNT_MAX in *.
    destruct (Z.ltb_spec (field w LIVE_SHIFT) limit); simpl; [|by apply shows_or_fault].
    apply shows_with_field; try done. unfold saturating_add, u64_max, COUNT_MAX. lia.
  - destruct t; simpl; [by apply shows_count_step| |done].
    apply shows_count_step; [by apply count_step_ok|done|by apply shows_count_step].
  - destruct t; simpl; [by apply shows_count_step|by apply shows_or_fault..].
  - destruct t; simpl; [by apply shows_count_step|by apply shows_or_fault|done].
Qed.

Lemma shows_publish flags counted w : word_ok w → flags_ok flags →
  shows flags (publish_step flags counted w).
Proof.
  intros Hw Hf.
  assert (H : shows flags (publish_step flags false w)).
  { intros i Hi Hne. rewrite carried_bits by (done || lia).
    destruct (Z.ltb_spec i 16); [|lia]. by destruct (Z.eqb_spec i 8). }
  destruct counted; [|done].
  apply (shows_count_step flags (publish_step flags false w)); [by apply carried_ok|apply shifts|done].
Qed.
