(* ===== verification/LedgerCore.v ===== *)
(** * The ledger's protocol core

    [crates/nexus-governed-control/src/ledger/protocol.rs]: the store's state
    and every operation on it. An operation runs under a guard whose drop
    publishes once, on return and on unwind alike. The storage verbs are
    supplied by a shell that is not in the repository: they are type classes
    here, over any storage state, and any verb call may unwind. *)

From S2P Require Import Prelude LedgerWord.

Local Open Scope Z_scope.

Definition BATCH_MAX : nat := 256.
Abbreviation Seq := Z.

(** ** Records *)

Record RecordKey := MkRecordKey { rk_id : bytes; rk_digest : bytes }.
#[export] Instance RecordKey_eq_dec : EqDecision RecordKey.
Proof. solve_decision. Defined.
#[export] Program Instance RecordKey_countable : Countable RecordKey :=
  inj_countable' (λ k, (rk_id k, rk_digest k)) (λ p, MkRecordKey p.1 p.2) _.
Next Obligation. by intros []. Qed.

Inductive Role := Prepared | RStarted | End_.
#[export] Instance Role_eq_dec : EqDecision Role.
Proof. solve_decision. Defined.

Record Part := MkPart { part_commitment : bytes; part_role : Role }.
#[export] Instance Part_eq_dec : EqDecision Part.
Proof. solve_decision. Defined.

Record Member := MkMember { m_key : RecordKey; m_part : option Part }.
Record FactRecord := MkFactRecord { fact_member : Member }.
Record GatingRecord := MkGatingRecord { gating_member : Member }.
Record Limits := MkLimits { lim_tickets : Z; lim_refusals : Z }.

(** ** Causes *)

Record Row := MkRow { row_seq : Seq; row_digest : bytes }.
Record Holder := MkHolder { holder_id : bytes; holder_seq : Seq }.

Inductive Cause :=
| IdentityContent (id : bytes) (existing : Row) (offered : bytes)
| DuplicateRole (part : Part) (holder : Holder) (offered : RecordKey)
| MissingPrepared (part : Part) (offered : RecordKey).

(** ** What the verbs answer *)

Module Read.
Inductive t (T : Type) := Got (x : T) | Failed | Corrupt.
Arguments Got {_} _.
Arguments Failed {_}.
Arguments Corrupt {_}.
End Read.
Module Insert.
Inductive t := Inserted (s : Seq) | Constraint | Failed.
End Insert.
Module Commit.
Inductive t := Durable | Unknown.
End Commit.
Module Rollback.
Inductive t := Undone | Unknown.
End Rollback.

Record MemberFacts := MkMemberFacts {
  mf_row : option Row;
  mf_explained : option Seq;
  mf_corrected : option Seq;
  mf_holder : option Holder;
  mf_prepared : bool;
}.

Record SetFacts := MkSetFacts {
  sf_frontier : Seq;
  sf_head : Seq;
  sf_top : Seq;
  sf_count : Z;
  sf_digest : bytes;
}.

(** ** Results *)

Module Entry.
Inductive t := NotOpen | Latched | NotHealthy | CellsBusy | Malformed | Expired.
End Entry.
Inductive TicketFault := OtherLedger | NotArmed.
Inductive Known := KCause (c : Cause) | KExplained (s : Seq).

Module Reason.
Inductive t :=
| Entry (e : Entry.t)
| Conflict (member : Z) (known : Known)
| SessionClosed (member : Z)
| Corrected (seq : Seq)
| TableFull (member : Z)
| Constraint
| Storage.
End Reason.

Module FactOutcome.
Inductive t := Committed | NotApplied (counted : Counted) (reason : Reason.t)
| Rejected (fault : TicketFault).
End FactOutcome.
Module GatingOutcome.
Inductive t := Committed (s : Seq) | Refused (p : Persistence) (reason : Reason.t).
End GatingOutcome.
Module Lookup.
Inductive t := Present (s : Seq) | Absent | Conflict (k : Known) | Refused (e : Entry.t) | Failed.
End Lookup.
Module Explain.
Inductive t := Explained (s : Seq) | Pending | Busy | Unknown | Refused (e : Entry.t).
End Explain.

(** ** Acknowledgements, cells, the worker *)

Record Snapshot := MkSnapshot { snap_ledger : Z; snap_set : SetFacts; snap_nonce : bytes }.
Module SnapshotOutcome.
Inductive t := Taken (s : Snapshot) | Nothing | NotNow (e : Entry.t) | Failed.
End SnapshotOutcome.
Module AckRefusal.
Inductive t := OtherStore | NotNow (e : Entry.t) | Stale | Empty | Future | Set_.
End AckRefusal.
Module AckOutcome.
Inductive t := Committed (s : Seq) | Refused (r : AckRefusal.t) | NotApplied (p : Persistence).
End AckOutcome.

Record Worker := MkWorker { worker_ledger : Z }.

Inductive Cell := U | C | X.
#[export] Instance Cell_eq_dec : EqDecision Cell.
Proof. solve_decision. Defined.
Definition Cell_index (c : Cell) : nat := match c with U => 0 | C => 1 | X => 2 end.

Record CellToken := MkCellToken { tok_ledger : Z; tok_cell : Cell; tok_occupancy : Z }.

Inductive Stage := Built | StCommitted (s : Seq).
Inductive Exit := InCall | ReturnedUncertain | Unwound.
#[export] Instance Exit_eq_dec : EqDecision Exit.
Proof. solve_decision. Defined.

Module Occupant.
Inductive t :=
| Gating (record : GatingRecord) (exit : Exit)
| Acknowledgement (set : SetFacts) (nonce : bytes)
| Correction (about : RecordKey) (seq : Seq) (exit : Exit)
| Explanation (original : RecordKey) (cause : Cause).
End Occupant.

Module LatchCause.
Inductive t :=
| Constraint | TableFull | TicketFault | CellInvariant | Inconsistent | Corrupt | Overflow.
#[global] Instance t_eq_dec : EqDecision t.
Proof. solve_decision. Defined.
End LatchCause.

Module BarrierOutcome.
Inductive t := Passed | Failed | NotNeeded | OtherLedger.
End BarrierOutcome.
Module Resolve.
Inductive t :=
| Absent | Corrected (tok : CellToken) | Acknowledged (s : Seq) | ConflictPlaced (tok : CellToken)
| Retained | Inconsistent | Stale | Refused (e : Entry.t) | OtherLedger.
End Resolve.
Module CellAppend.
Inductive t :=
| Committed (s : Seq) | NotWritten | Uncertain | Stale | Refused (e : Entry.t) | OtherLedger.
End CellAppend.
Module Emptying.
Inductive t := Done | NotCommitted | Stale | OtherLedger.
End Emptying.

(** ** The verbs, as interfaces

    A verb takes the storage state and returns the new one with its answer,
    or no answer when the call unwinds. *)

Definition verb_result (σ T : Type) : Type := option T * σ.

Class Txn (σ : Type) := {
  txn_open : σ → verb_result σ (Read.t unit);
  txn_facts : Z → Member → σ → verb_result σ (Read.t MemberFacts);
  txn_insert : Z → Member → σ → verb_result σ Insert.t;
  txn_commit : σ → verb_result σ Commit.t;
  txn_rollback : σ → verb_result σ Rollback.t;
}.
Class Reads (σ : Type) := {
  rd_row : bytes → σ → verb_result σ (Read.t (option Row));
  rd_explained : RecordKey → σ → verb_result σ (Read.t (option Seq));
  rd_acknowledgement : SetFacts → bytes → σ → verb_result σ (Read.t (option Seq));
  rd_frontier : σ → verb_result σ (Read.t Seq);
}.
Class AckTxn (σ : Type) := {
  ack_survey : σ → verb_result σ (Read.t SetFacts);
  ack_open : σ → verb_result σ (Read.t unit);
  ack_recheck : Seq → Seq → σ → verb_result σ (Read.t SetFacts);
  ack_insert : Snapshot → σ → verb_result σ Insert.t;
  ack_commit : σ → verb_result σ Commit.t;
  ack_rollback : σ → verb_result σ Rollback.t;
}.
Class CellTxn (σ : Type) := {
  cell_open : σ → verb_result σ (Read.t unit);
  cell_present : Occupant.t → σ → verb_result σ (Read.t (option Seq));
  cell_insert : Occupant.t → σ → verb_result σ Insert.t;
  cell_commit : σ → verb_result σ Commit.t;
  cell_rollback : σ → verb_result σ Rollback.t;
}.
Class BarrierRun (σ : Type) := { barrier_run : σ → verb_result σ bool }.

(** ** The core *)

Record Core := MkCore {
  shared : Z;
  phase : Phase;
  session : Session;
  latch : option LatchCause.t;
  u : option (Z * Occupant.t);
  c : option (Z * Occupant.t);
  x : option (Z * Occupant.t * Stage);
  occupancies : list Z;
  refusals : gmap RecordKey Cause;
  refusal_limit : Z;
  frontier : Seq;
  worker_taken : bool;
}.

Definition set_phase (k : Core) (p : Phase) : Core :=
  MkCore (shared k) p (session k) (latch k) (u k) (c k) (x k) (occupancies k) (refusals k)
    (refusal_limit k) (frontier k) (worker_taken k).
Definition set_session (k : Core) (s : Session) : Core :=
  MkCore (shared k) (phase k) s (latch k) (u k) (c k) (x k) (occupancies k) (refusals k)
    (refusal_limit k) (frontier k) (worker_taken k).
Definition set_latch (k : Core) (l : option LatchCause.t) : Core :=
  MkCore (shared k) (phase k) (session k) l (u k) (c k) (x k) (occupancies k) (refusals k)
    (refusal_limit k) (frontier k) (worker_taken k).
Definition set_u (k : Core) (v : option (Z * Occupant.t)) : Core :=
  MkCore (shared k) (phase k) (session k) (latch k) v (c k) (x k) (occupancies k) (refusals k)
    (refusal_limit k) (frontier k) (worker_taken k).
Definition set_c (k : Core) (v : option (Z * Occupant.t)) : Core :=
  MkCore (shared k) (phase k) (session k) (latch k) (u k) v (x k) (occupancies k) (refusals k)
    (refusal_limit k) (frontier k) (worker_taken k).
Definition set_x (k : Core) (v : option (Z * Occupant.t * Stage)) : Core :=
  MkCore (shared k) (phase k) (session k) (latch k) (u k) (c k) v (occupancies k) (refusals k)
    (refusal_limit k) (frontier k) (worker_taken k).
Definition set_occupancies (k : Core) (v : list Z) : Core :=
  MkCore (shared k) (phase k) (session k) (latch k) (u k) (c k) (x k) v (refusals k)
    (refusal_limit k) (frontier k) (worker_taken k).
Definition set_refusals (k : Core) (v : gmap RecordKey Cause) : Core :=
  MkCore (shared k) (phase k) (session k) (latch k) (u k) (c k) (x k) (occupancies k) v
    (refusal_limit k) (frontier k) (worker_taken k).
Definition set_frontier (k : Core) (v : Seq) : Core :=
  MkCore (shared k) (phase k) (session k) (latch k) (u k) (c k) (x k) (occupancies k) (refusals k)
    (refusal_limit k) v (worker_taken k).
Definition set_worker_taken (k : Core) (v : bool) : Core :=
  MkCore (shared k) (phase k) (session k) (latch k) (u k) (c k) (x k) (occupancies k) (refusals k)
    (refusal_limit k) (frontier k) v.

Definition is_Some_b {A} (o : option A) : bool := match o with Some _ => true | None => false end.
Definition is_None_b {A} (o : option A) : bool := negb (is_Some_b o).

(** [Core::new] with the address of its one shared allocation; the ticket
    limit it puts there is [ticket_limit]. *)
Definition ticket_limit (limits : Limits) : Z :=
  Z.max 1 (Z.min (lim_tickets limits) TICKET_LIMIT_MAX).
Definition Core_new (address : Z) (limits : Limits) : Core :=
  {| shared := address; phase := Healthy; session := Bootstrap; latch := None;
     u := None; c := None; x := None; occupancies := [0; 0; 0]; refusals := ∅;
     refusal_limit := Z.max (lim_refusals limits) 1; frontier := 0; worker_taken := false |}.

Definition take_worker (k : Core) : Core * option Worker :=
  if worker_taken k then (k, None)
  else (set_worker_taken k true, Some (MkWorker (shared k))).

(** The flags of the word, from the core. *)
Definition bit (set : bool) (b : Z) : Z := if set then b else 0.
Definition flags (k : Core) : Z :=
  let phase := match phase k with
               | Healthy => 0 | NeedBarrier => PHASE_NEED_BARRIER | Resolving => PHASE_RESOLVING end in
  let session := match session k with
                 | Bootstrap => 0 | Open => SESSION_OPEN | Sealed => SESSION_SEALED end in
  Z.lor (Z.lor (Z.lor (Z.lor (Z.lor phase session) (bit (is_Some_b (latch k)) LATCHED))
    (bit (is_Some_b (u k)) U_OCCUPIED)) (bit (is_Some_b (c k)) C_OCCUPIED))
    (bit (is_Some_b (x k)) X_OCCUPIED).

Definition do_latch (k : Core) (cause : LatchCause.t) : Core :=
  if is_None_b (latch k) then set_latch k (Some cause) else k.

Definition token (k : Core) (cell : Cell) (occupancy : Z) : CellToken :=
  MkCellToken (shared k) cell occupancy.

Definition occupancy (k : Core) (cell : Cell) : option Z :=
  match cell with
  | U => fst <$> u k
  | C => fst <$> c k
  | X => (λ p, p.1.1) <$> x k
  end.

Definition names (k : Core) (tok : CellToken) (cell : Cell) : bool :=
  (tok_ledger tok =? shared k) && bool_decide (tok_cell tok = cell)
  && bool_decide (occupancy k cell = Some (tok_occupancy tok)).

Record Agenda := MkAgenda {
  ag_phase : Phase; ag_session : Session; ag_latch : option LatchCause.t;
  ag_u : option CellToken; ag_c : option CellToken; ag_x : option (CellToken * Stage);
  ag_frontier : Seq;
}.
Definition agenda (k : Core) : Agenda :=
  MkAgenda (phase k) (session k) (latch k)
    ((λ p, token k U p.1) <$> u k) ((λ p, token k C p.1) <$> c k)
    ((λ p, (token k X p.1.1, p.2)) <$> x k) (frontier k).

Definition next_occupancy (k : Core) (cell : Cell) : Core * option Z :=
  match occupancies k !! Cell_index cell ≫= (λ n, checked_add u64_max n 1) with
  | Some next => (set_occupancies k (<[Cell_index cell := next]> (occupancies k)), Some next)
  | None => (do_latch k LatchCause.Overflow, None)
  end.

Definition place (k : Core) (cell : Cell) (occupant : Occupant.t) : Core * bool :=
  match next_occupancy k cell with
  | (k, None) => (k, false)
  | (k, Some n) =>
      (match cell with
       | U => set_u k (Some (n, occupant))
       | C => set_c k (Some (n, occupant))
       | X => set_x k (Some (n, occupant, Built))
       end, true)
  end.

Definition explanation (k : Core) (original : RecordKey) (cause : Cause) : Core * bool :=
  place k X (Occupant.Explanation original cause).

Definition table_full (k : Core) : bool := refusal_limit k <=? Z.of_nat (size (refusals k)).

Definition known (k : Core) (key : RecordKey) (explained : option Seq) : option Known :=
  match refusals k !! key with
  | Some cause => Some (KCause cause)
  | None =>
      match x k with
      | Some (_, Occupant.Explanation original cause, stage) =>
          if bool_decide (original = key)
          then Some match stage with Built => KCause cause | StCommitted seq => KExplained seq end
          else KExplained <$> explained
      | _ => KExplained <$> explained
      end
  end.

(** ** Batches and classification *)

Definition member_index (index : nat) : Z := Z.min u16_max (Z.of_nat index).

(** The tests of the inner loop of [well_formed] on two different members. *)
Definition pair_ok (index other_index : nat) (member other : Member) : bool :=
  negb (bool_decide (rk_id (m_key other) = rk_id (m_key member))) &&
  match m_part member, m_part other with
  | Some part, Some other_part =>
      negb (bool_decide (part = other_part)) &&
      negb (bool_decide (part_commitment part = part_commitment other_part)
            && negb (bool_decide (part_role part = Prepared))
            && bool_decide (part_role other_part = Prepared)
            && (index <? other_index)%nat)
  | _, _ => true
  end.

Definition indexed {A} (l : list A) : list (nat * A) := zip (seq 0 (length l)) l.

Definition well_formed (batch : list FactRecord) : bool :=
  let members := fact_member <$> batch in
  negb (bool_decide (members = [])) && (length members <=? BATCH_MAX)%nat &&
  forallb (λ im : nat * Member,
    forallb (λ jo : nat * Member,
      (jo.1 =? im.1)%nat || pair_ok im.1 jo.1 im.2 jo.2) (indexed members)) (indexed members).

Definition constraint (member : Member) (facts : MemberFacts) (earlier : list Member)
    : option Cause :=
  match mf_row facts with
  | Some existing =>
      Some (IdentityContent (rk_id (m_key member)) existing (rk_digest (m_key member)))
  | None =>
      match m_part member with
      | None => None
      | Some part =>
          match mf_holder facts with
          | Some holder => Some (DuplicateRole part holder (m_key member))
          | None =>
              let prepared := Some (MkPart (part_commitment part) Prepared) in
              if negb (bool_decide (part_role part = Prepared)) && negb (mf_prepared facts)
                 && negb (existsb (λ m, bool_decide (m_part m = prepared)) earlier)
              then Some (MissingPrepared part (m_key member))
              else None
          end
      end
  end.

Module Verdict.
Inductive t :=
| Present (s : Seq) | Insert | Refused (reason : Reason.t) (conflict : option Z).
End Verdict.

(** Rows d and e of the classification: a member that breaks a constraint. *)
Definition classify_constraint (k : Core) (at_ : Z) (member : Member) (cause : Cause)
    (gating : bool) : Core * Verdict.t :=
  let conflict := Reason.Conflict at_ (KCause cause) in
  let fill k := if is_None_b (x k) then fst (explanation k (m_key member) cause) else k in
  if gating then (fill k, Verdict.Refused conflict (Some at_))
  else if table_full k
  then (do_latch k LatchCause.TableFull, Verdict.Refused (Reason.TableFull at_) (Some at_))
  else (fill (set_refusals k (<[m_key member := cause]> (refusals k))),
        Verdict.Refused conflict (Some at_)).

Definition classify (k : Core) (at_ : Z) (member : Member) (facts : MemberFacts)
    (earlier : list Member) (gating : bool) : Core * Verdict.t :=
  let rest :=
    match known k (m_key member) (mf_explained facts) with
    | Some kn => (k, Verdict.Refused (Reason.Conflict at_ kn) (Some at_))
    | None =>
        if bool_decide (session k = Sealed)
        then (k, Verdict.Refused (Reason.SessionClosed at_) None)
        else
          match constraint member facts earlier with
          | None => (k, Verdict.Insert)
          | Some cause => classify_constraint k at_ member cause gating
          end
    end in
  let by_row :=
    match mf_row facts with
    | Some row =>
        if bool_decide (row_digest row = rk_digest (m_key member))
        then (k, Verdict.Present (row_seq row)) else rest
    | None => rest
    end in
  if gating then
    match mf_corrected facts with
    | Some seq => (k, Verdict.Refused (Reason.Corrected seq) None)
    | None => by_row
    end
  else by_row.

(** ** The guard *)

Inductive Hold := HNothing | HGating | HAcknowledgement.
#[export] Instance Hold_eq_dec : EqDecision Hold.
Proof. solve_decision. Defined.

Record Publish := MkPublish {
  core : Core;
  guess : Z;
  ticket : option Ticket;
  count : option Counted;
  issued : bool;
  conflict : option Z;
  hold : Hold;
  keep : bool;
  done_ : bool;
}.

Definition Publish_new (k : Core) : Publish :=
  MkPublish k (flags k) None None false None HNothing false false.

Definition set_core (op : Publish) (k : Core) : Publish :=
  MkPublish k (guess op) (ticket op) (count op) (issued op) (conflict op) (hold op) (keep op) (done_ op).
Definition set_ticket (op : Publish) (t : Ticket) : Publish :=
  MkPublish (core op) (guess op) (Some t) (count op) (issued op) (conflict op) (hold op) (keep op) (done_ op).
Definition set_count (op : Publish) (v : Counted) : Publish :=
  MkPublish (core op) (guess op) (ticket op) (Some v) (issued op) (conflict op) (hold op) (keep op) (done_ op).
Definition set_issued (op : Publish) : Publish :=
  MkPublish (core op) (guess op) (ticket op) (count op) true (conflict op) (hold op) (keep op) (done_ op).
Definition set_conflict (op : Publish) (v : option Z) : Publish :=
  MkPublish (core op) (guess op) (ticket op) (count op) (issued op) v (hold op) (keep op) (done_ op).
Definition set_hold (op : Publish) (v : Hold) : Publish :=
  MkPublish (core op) (guess op) (ticket op) (count op) (issued op) (conflict op) v (keep op) (done_ op).
Definition set_keep (op : Publish) (v : bool) : Publish :=
  MkPublish (core op) (guess op) (ticket op) (count op) (issued op) (conflict op) (hold op) v (done_ op).
Definition set_done (op : Publish) (v : bool) : Publish :=
  MkPublish (core op) (guess op) (ticket op) (count op) (issued op) (conflict op) (hold op) (keep op) v.

(** The computation of an operation's body: it reads and writes the guard,
    calls verbs on the storage state, and ends with a value or unwinds. *)
Definition M (σ A : Type) : Type := Publish → σ → option A * Publish * σ.

#[export] Instance M_ret σ : MRet (M σ) := λ A a op s, (Some a, op, s).
#[export] Instance M_bind σ : MBind (M σ) := λ A B f m op s,
  match m op s with
  | (Some a, op', s') => f a op' s'
  | (None, op', s') => (None, op', s')
  end.

Definition verb {σ A} (f : σ → verb_result σ A) : M σ A :=
  λ op s, let '(r, s') := f s in (r, op, s').
Definition get_core {σ} : M σ Core := λ op s, (Some (core op), op, s).
Definition modify {σ} (f : Publish → Publish) : M σ unit := λ op s, (Some tt, f op, s).
Definition put_core {σ} (f : Core → Core) : M σ unit := modify (λ op, set_core op (f (core op))).
(** A core operation that also answers. *)
Definition on_core {σ A} (f : Core → Core * A) : M σ A :=
  λ op s, let '(k, a) := f (core op) in (Some a, set_core op k, s).

(** The decision to publish, with everything the exchange needs. *)
Record Published := MkPublished {
  pub_core : Core;
  pub_ticket : option Ticket;
  pub_flags : Z;
  pub_counted : bool;
}.

(** [Drop for Publish]: what it does to the core and the lent ticket, and the
    step it publishes. *)
Definition settle_unwound (op : Publish) : Publish :=
  if done_ op then op
  else
    let op := set_core op (set_phase (core op) NeedBarrier) in
    let op :=
      if is_Some_b (ticket op) && is_None_b (count op)
      then set_count op
             (MkCounted (if issued op && is_None_b (conflict op) then Uncertain else NotWritten)
                (conflict op))
      else op in
    set_keep op (issued op).

Definition settle_hold (op : Publish) : Core :=
  let k := core op in
  if bool_decide (hold op = HNothing) then k
  else if negb (keep op) then set_u k None
  else
    match u k with
    | Some (n, Occupant.Gating record _) =>
        set_u k (Some (n, Occupant.Gating record
                            (if done_ op then ReturnedUncertain else Unwound)))
    | _ => k
    end.

Definition drop_publish (op : Publish) : Published :=
  let op := settle_unwound op in
  let k := settle_hold op in
  {| pub_core := k;
     pub_ticket :=
       match ticket op, count op with
       | Some t, Some counted => Some (MkTicket (t_shared t) (TCounted counted))
       | t, _ => t
       end;
     pub_flags := flags k;
     pub_counted := is_Some_b (ticket op) && is_Some_b (count op) |}.

(** A whole store operation: the guard is created first, the body runs, and
    the guard is dropped, with [done_] set only if the body returned. *)
Definition run_op {σ A} (k : Core) (body : M σ A) (s : σ) : option A * Published * σ :=
  match body (Publish_new k) s with
  | (Some a, op, s') => (Some a, drop_publish (set_done op true), s')
  | (None, op, s') => (None, drop_publish op, s')
  end.

(** The word after an operation, from the word at its one exchange. *)
Definition published_word (p : Published) (word : Z) : Z :=
  publish_step (pub_flags p) (pub_counted p) word.

(** [Ticket::expire]: the word it publishes, the ticket and the outcome. *)
Definition Ticket_expire (t : Ticket) (word : Z) : Z * Ticket * FactOutcome.t :=
  (fst (expire_step (t_state t) word), MkTicket (t_shared t) (snd (expire_step (t_state t) word)),
   if bool_decide (t_state t = Armed)
   then FactOutcome.NotApplied expired (Reason.Entry Entry.Expired)
   else FactOutcome.Rejected NotArmed).

(** ** Operations *)

Section Operations.
Context {σ : Type}.

Definition failed : M σ unit := put_core (λ k, set_phase k NeedBarrier).
Definition latch_op (cause : LatchCause.t) : M σ unit := put_core (λ k, do_latch k cause).

Definition read_failed (corrupt : bool) : M σ unit :=
  failed ;; if corrupt then latch_op LatchCause.Corrupt else mret tt.

Definition rolled (answer : Rollback.t) : M σ Persistence :=
  match answer with
  | Rollback.Undone => mret NotWritten
  | Rollback.Unknown => failed ;; mret Uncertain
  end.

Definition not_applied (p : Persistence) (reason : Reason.t) : M σ FactOutcome.t :=
  λ op s,
    let counted := MkCounted p (conflict op) in
    (Some (FactOutcome.NotApplied counted reason), set_count op counted, s).

Definition is_corrupt {T} (r : Read.t T) : bool :=
  match r with Read.Corrupt => true | _ => false end.

(** *** Facts *)

Section Facts.
Context `{!Txn σ}.

(** [self.rolled(io.rollback())]. *)
Definition roll_back : M σ Persistence := a ← verb txn_rollback; rolled a.

(** Step 3: the outcome that ends the call, or which members to insert. *)
Fixpoint classify_members (index : nat) (earlier todo : list Member)
    : M σ (FactOutcome.t + list bool) :=
  match todo with
  | [] => mret (inr [])
  | member :: todo =>
      let at_ := member_index index in
      r ← verb (txn_facts at_ member);
      match r with
      | Read.Got facts =>
          v ← on_core (λ k, classify k at_ member facts earlier false);
          match v with
          | Verdict.Refused reason conflict =>
              modify (λ op, set_conflict op conflict) ;;
              roll_back ;;
              o ← not_applied NotWritten reason;
              mret (inl o)
          | _ =>
              rest ← classify_members (S index) (earlier ++ [member]) todo;
              mret match rest with
                   | inl o => inl o
                   | inr slots =>
                       inr (match v with Verdict.Insert => true | _ => false end :: slots)
                   end
          end
      | r =>
          read_failed (is_corrupt r) ;;
          roll_back ;;
          o ← not_applied NotWritten Reason.Storage;
          mret (inl o)
      end
  end.

(** Step 5: the outcome that ends the call, or nothing. *)
Fixpoint insert_members (index : nat) (todo : list (Member * bool))
    : M σ (option FactOutcome.t) :=
  match todo with
  | [] => mret None
  | (member, slot) :: todo =>
      if negb slot then insert_members (S index) todo
      else
        modify set_issued ;;
        r ← verb (txn_insert (member_index index) member);
        match r with
        | Insert.Inserted _ => insert_members (S index) todo
        | r =>
            reason ←
              (match r with
               | Insert.Constraint => latch_op LatchCause.Constraint ;; mret Reason.Constraint
               | _ => mret Reason.Storage
               end);
            failed ;;
            p ← roll_back;
            o ← not_applied p reason;
            mret (Some o)
        end
  end.

(** Steps 4 to 6. *)
Definition apply_facts (members : list Member) (slots : list bool) : M σ FactOutcome.t :=
  if negb (existsb id slots)
  then roll_back ;; mret FactOutcome.Committed
  else
    ended ← insert_members 0 (zip members slots);
    match ended with
    | Some o => mret o
    | None =>
        r ← verb txn_commit;
        match r with
        | Commit.Durable => mret FactOutcome.Committed
        | Commit.Unknown =>
            failed ;; roll_back ;; not_applied Uncertain Reason.Storage
        end
    end.

(** The entry rule. *)
Definition facts_entry (k : Core) (batch : list FactRecord) : option Entry.t :=
  if bool_decide (session k = Bootstrap) then Some Entry.NotOpen
  else if is_Some_b (latch k) then Some Entry.Latched
  else if negb (bool_decide (phase k = Healthy)) then Some Entry.NotHealthy
  else if negb (well_formed batch) then Some Entry.Malformed
  else None.

Definition ticket_fault (k : Core) (t : Ticket) : option TicketFault :=
  if negb (t_shared t =? shared k) then Some OtherLedger
  else if negb (bool_decide (t_state t = Armed)) then Some NotArmed
  else None.

Definition facts (t : Ticket) (batch : list FactRecord) : M σ FactOutcome.t :=
  k ← get_core;
  match ticket_fault k t with
  | Some fault => latch_op LatchCause.TicketFault ;; mret (FactOutcome.Rejected fault)
  | None =>
      modify (λ op, set_ticket op t) ;;
      match facts_entry k batch with
      | Some entry => not_applied NotWritten (Reason.Entry entry)
      | None =>
          r ← verb txn_open;
          match r with
          | Read.Got _ =>
              let members := fact_member <$> batch in
              classified ← classify_members 0 [] members;
              match classified with
              | inl o => mret o
              | inr slots => apply_facts members slots
              end
          | _ => failed ;; not_applied NotWritten Reason.Storage
          end
      end
  end.

Definition append_facts (k : Core) (t : Ticket) (batch : list FactRecord) (s : σ)
    : option FactOutcome.t * Published * σ := run_op k (facts t batch) s.

(** *** Gating records *)

Definition refused (p : Persistence) (reason : Reason.t) : M σ GatingOutcome.t :=
  mret (GatingOutcome.Refused p reason).
Definition gating_entry (e : Entry.t) : M σ GatingOutcome.t :=
  refused NotWritten (Reason.Entry e).

(** The insert and the commit, once the record is to be inserted. *)
Definition gating_insert (member : Member) : M σ GatingOutcome.t :=
  modify set_issued ;;
  r ← verb (txn_insert 0 member);
  match r with
  | Insert.Inserted seq =>
      r ← verb txn_commit;
      match r with
      | Commit.Durable => mret (GatingOutcome.Committed seq)
      | Commit.Unknown =>
          failed ;; roll_back ;;
          modify (λ op, set_keep op true) ;;
          refused Uncertain Reason.Storage
      end
  | r =>
      reason ←
        (match r with
         | Insert.Constraint => latch_op LatchCause.Constraint ;; mret Reason.Constraint
         | _ => mret Reason.Storage
         end);
      failed ;;
      p ← roll_back;
      modify (λ op, set_keep op (bool_decide (p = Uncertain))) ;;
      refused p reason
  end.

Definition gating_body (record : GatingRecord) : M σ GatingOutcome.t :=
  modify (λ op, set_hold op HGating) ;;
  r ← verb txn_open;
  match r with
  | Read.Got _ =>
      let member := gating_member record in
      r ← verb (txn_facts 0 member);
      match r with
      | Read.Got facts =>
          v ← on_core (λ k, classify k 0 member facts [] true);
          match v with
          | Verdict.Present seq => roll_back ;; mret (GatingOutcome.Committed seq)
          | Verdict.Refused reason _ => roll_back ;; refused NotWritten reason
          | Verdict.Insert => gating_insert member
          end
      | r => read_failed (is_corrupt r) ;; roll_back ;; refused NotWritten Reason.Storage
      end
  | _ => failed ;; refused NotWritten Reason.Storage
  end.

Definition gating (record : GatingRecord) : M σ GatingOutcome.t :=
  k ← get_core;
  if negb (bool_decide (session k = Open)) then gating_entry Entry.NotOpen
  else if is_Some_b (latch k) then gating_entry Entry.Latched
  else if negb (bool_decide (phase k = Healthy)) then gating_entry Entry.NotHealthy
  else if is_Some_b (c k) || is_Some_b (x k) then gating_entry Entry.CellsBusy
  else if is_Some_b (u k) then latch_op LatchCause.CellInvariant ;; gating_entry Entry.Latched
  else
    placed ← on_core (λ k, place k U (Occupant.Gating record InCall));
    if negb placed then gating_entry Entry.Latched else gating_body record.

Definition append_gating (k : Core) (record : GatingRecord) (s : σ)
    : option GatingOutcome.t * Published * σ := run_op k (gating record) s.
End Facts.

(** *** Lookup and explain *)

Section Reading.
Context `{!Reads σ}.

(** A conflict observation; it never fills X. *)
Definition lookup_conflict (key : RecordKey) (existing : Row) : M σ Lookup.t :=
  k ← get_core;
  match known k key None with
  | Some kn => mret (Lookup.Conflict kn)
  | None =>
      r ← verb (rd_explained key);
      match r with
      | Read.Got (Some seq) => mret (Lookup.Conflict (KExplained seq))
      | Read.Got None =>
          k ← get_core;
          if table_full k
          then latch_op LatchCause.TableFull ;; mret (Lookup.Refused Entry.Latched)
          else
            let cause := IdentityContent (rk_id key) existing (rk_digest key) in
            put_core (λ k, set_refusals k (<[key := cause]> (refusals k))) ;;
            mret (Lookup.Conflict (KCause cause))
      | Read.Failed => failed ;; mret Lookup.Failed
      | Read.Corrupt => latch_op LatchCause.Corrupt ;; mret (Lookup.Refused Entry.Latched)
      end
  end.

Definition lookup_ (key : RecordKey) : M σ Lookup.t :=
  k ← get_core;
  if negb (bool_decide (session k = Open)) then mret (Lookup.Refused Entry.NotOpen)
  else if is_Some_b (latch k) then mret (Lookup.Refused Entry.Latched)
  else if bool_decide (phase k = NeedBarrier) then mret (Lookup.Refused Entry.NotHealthy)
  else
    r ← verb (rd_row (rk_id key));
    match r with
    | Read.Got None => mret Lookup.Absent
    | Read.Got (Some row) =>
        if bool_decide (row_digest row = rk_digest key)
        then mret (Lookup.Present (row_seq row))
        else lookup_conflict key row
    | Read.Failed => failed ;; mret Lookup.Failed
    | Read.Corrupt => latch_op LatchCause.Corrupt ;; mret (Lookup.Refused Entry.Latched)
    end.

Definition explain_missing (key : RecordKey) : M σ Explain.t :=
  k ← get_core;
  match x k with
  | Some (_, Occupant.Explanation original _, _) =>
      mret (if bool_decide (original = key) then Explain.Pending else Explain.Busy)
  | Some _ => mret Explain.Busy
  | None =>
      match refusals k !! key with
      | Some cause =>
          placed ← on_core (λ k, explanation k key cause);
          mret (if (placed : bool) then Explain.Pending else Explain.Refused Entry.Latched)
      | None => mret Explain.Unknown
      end
  end.

Definition explain_ (key : RecordKey) : M σ Explain.t :=
  k ← get_core;
  if negb (bool_decide (session k = Open)) then mret (Explain.Refused Entry.NotOpen)
  else if is_Some_b (latch k) then mret (Explain.Refused Entry.Latched)
  else if negb (bool_decide (phase k = Healthy)) then mret Explain.Busy
  else
    r ← verb (rd_explained key);
    match r with
    | Read.Got (Some seq) =>
        put_core (λ k, set_refusals k (delete key (refusals k))) ;;
        mret (Explain.Explained seq)
    | Read.Got None => explain_missing key
    | r => read_failed (is_corrupt r) ;; mret Explain.Busy
    end.

(** *** Resolving U *)

Definition worker_belongs (k : Core) (w : Worker) : bool := worker_ledger w =? shared k.

(** The end of a resolution that answered: U emptied, the phase healthy. *)
Definition resolved (r : Resolve.t) : M σ Resolve.t :=
  put_core (λ k, set_phase (set_u k None) Healthy) ;; mret r.

(** The occupant of [cell] placed, and the token that names it. *)
Definition place_token (cell : Cell) (occupant : Occupant.t) : M σ (option CellToken) :=
  placed ← on_core (λ k, place k cell occupant);
  if negb placed then mret None
  else k ← get_core; mret (token k cell <$> occupancy k cell).

Definition resolve_gating (record : GatingRecord) (exit : Exit) : M σ Resolve.t :=
  let key := m_key (gating_member record) in
  r ← verb (rd_row (rk_id key));
  match r with
  | Read.Got None => resolved Resolve.Absent
  | Read.Got (Some row) =>
      if bool_decide (row_digest row = rk_digest key) then
        tok ← place_token C (Occupant.Correction key (row_seq row) exit);
        match tok with
        | Some tok => resolved (Resolve.Corrected tok)
        | None => mret (Resolve.Refused Entry.Latched)
        end
      else
        let cause := IdentityContent (rk_id key) row (rk_digest key) in
        tok ← place_token X (Occupant.Explanation key cause);
        match tok with
        | Some tok => resolved (Resolve.ConflictPlaced tok)
        | None => mret (Resolve.Refused Entry.Latched)
        end
  | Read.Failed => failed ;; mret Resolve.Retained
  | Read.Corrupt => latch_op LatchCause.Corrupt ;; mret (Resolve.Refused Entry.Latched)
  end.

Definition raise_frontier (top : Seq) : M σ unit :=
  put_core (λ k, if frontier k <? top then set_frontier k top else k).

Definition resolve_ack (set : SetFacts) (nonce : bytes) : M σ Resolve.t :=
  r ← verb (rd_acknowledgement set nonce);
  match r with
  | Read.Got None => resolved Resolve.Absent
  | Read.Got (Some _) =>
      r ← verb rd_frontier;
      match r with
      | Read.Got durable =>
          if sf_top set <=? durable
          then raise_frontier (sf_top set) ;; resolved (Resolve.Acknowledged (sf_top set))
          else latch_op LatchCause.Inconsistent ;; mret Resolve.Inconsistent
      | Read.Failed => failed ;; mret Resolve.Retained
      | Read.Corrupt => latch_op LatchCause.Corrupt ;; mret (Resolve.Refused Entry.Latched)
      end
  | Read.Failed => failed ;; mret Resolve.Retained
  | Read.Corrupt => latch_op LatchCause.Corrupt ;; mret (Resolve.Refused Entry.Latched)
  end.

Definition resolve_ (w : Worker) (tok : CellToken) : M σ Resolve.t :=
  k ← get_core;
  if negb (worker_belongs k w) then mret Resolve.OtherLedger
  else if negb (names k tok U) then mret Resolve.Stale
  else if negb (bool_decide (session k = Open)) then mret (Resolve.Refused Entry.NotOpen)
  else if is_Some_b (latch k) then mret (Resolve.Refused Entry.Latched)
  else if negb (bool_decide (phase k = Resolving)) then mret (Resolve.Refused Entry.NotHealthy)
  else
    let room := is_None_b (c k) && is_None_b (x k) in
    let broken := latch_op LatchCause.CellInvariant ;; mret (Resolve.Refused Entry.Latched) in
    match snd <$> u k with
    | Some (Occupant.Gating record exit) =>
        if room && negb (bool_decide (exit = InCall)) then resolve_gating record exit else broken
    | Some (Occupant.Acknowledgement set nonce) =>
        if room then resolve_ack set nonce else broken
    | _ => broken
    end.
End Reading.

(** *** Acknowledgements *)

Section Ack.
Context `{!AckTxn σ}.

Definition ack_roll_back : M σ Persistence := a ← verb ack_rollback; rolled a.

Definition snapshot_ (nonce : bytes) : M σ SnapshotOutcome.t :=
  k ← get_core;
  if negb (bool_decide (session k = Open)) then mret (SnapshotOutcome.NotNow Entry.NotOpen)
  else if is_Some_b (latch k) then mret (SnapshotOutcome.NotNow Entry.Latched)
  else if negb (bool_decide (phase k = Healthy)) then mret (SnapshotOutcome.NotNow Entry.NotHealthy)
  else
    r ← verb ack_survey;
    match r with
    | Read.Got set =>
        mret (if (sf_frontier set <? sf_top set) && (0 <? sf_count set)
              then SnapshotOutcome.Taken (MkSnapshot (shared k) set nonce)
              else SnapshotOutcome.Nothing)
    | r => read_failed (is_corrupt r) ;; mret SnapshotOutcome.Failed
    end.

(** Tests 2 to 5, against the set rechecked in the transaction. *)
Definition ack_refusal (set now : SetFacts) : option AckRefusal.t :=
  if negb (sf_frontier set =? sf_frontier now) then Some AckRefusal.Stale
  else if (sf_top set <=? sf_frontier set) || (sf_count set <? 1) then Some AckRefusal.Empty
  else if (sf_head set <? sf_top set) || (sf_head now <? sf_head set)
  then Some AckRefusal.Future
  else if negb (sf_count now =? sf_count set) || negb (bool_decide (sf_digest now = sf_digest set))
  then Some AckRefusal.Set_
  else None.

Definition ack_apply (snap : Snapshot) : M σ AckOutcome.t :=
  let set := snap_set snap in
  modify set_issued ;;
  r ← verb (ack_insert snap);
  match r with
  | Insert.Inserted _ =>
      r ← verb ack_commit;
      match r with
      | Commit.Durable =>
          put_core (λ k, if frontier k <? sf_top set then set_frontier k (sf_top set) else k) ;;
          mret (AckOutcome.Committed (sf_top set))
      | Commit.Unknown =>
          failed ;; ack_roll_back ;;
          modify (λ op, set_keep op true) ;;
          mret (AckOutcome.NotApplied Uncertain)
      end
  | r =>
      (match r with
       | Insert.Constraint => latch_op LatchCause.Constraint
       | _ => mret tt
       end) ;;
      failed ;;
      p ← ack_roll_back;
      modify (λ op, set_keep op (bool_decide (p = Uncertain))) ;;
      mret (AckOutcome.NotApplied p)
  end.

Definition ack_body (snap : Snapshot) : M σ AckOutcome.t :=
  let set := snap_set snap in
  modify (λ op, set_hold op HAcknowledgement) ;;
  r ← verb ack_open;
  match r with
  | Read.Got _ =>
      r ← verb (ack_recheck (sf_frontier set) (sf_top set));
      match r with
      | Read.Got now =>
          match ack_refusal set now with
          | Some refusal => ack_roll_back ;; mret (AckOutcome.Refused refusal)
          | None => ack_apply snap
          end
      | r =>
          read_failed (is_corrupt r) ;; ack_roll_back ;;
          mret (AckOutcome.NotApplied NotWritten)
      end
  | _ => failed ;; mret (AckOutcome.NotApplied NotWritten)
  end.

Definition acknowledgement (snap : Snapshot) : M σ AckOutcome.t :=
  let not_now e : M σ AckOutcome.t := mret (AckOutcome.Refused (AckRefusal.NotNow e)) in
  k ← get_core;
  if negb (snap_ledger snap =? shared k) then mret (AckOutcome.Refused AckRefusal.OtherStore)
  else if negb (bool_decide (session k = Open)) then not_now Entry.NotOpen
  else if is_Some_b (latch k) then not_now Entry.Latched
  else if negb (bool_decide (phase k = Healthy)) then not_now Entry.NotHealthy
  else if is_Some_b (c k) || is_Some_b (x k) then not_now Entry.CellsBusy
  else if is_Some_b (u k) then latch_op LatchCause.CellInvariant ;; not_now Entry.Latched
  else
    placed ← on_core (λ k, place k U
               (Occupant.Acknowledgement (snap_set snap) (snap_nonce snap)));
    if negb placed then not_now Entry.Latched else ack_body snap.
End Ack.

(** *** The barrier, the cells, the session *)

Definition barrier_ `{!BarrierRun σ} (w : Worker) : M σ BarrierOutcome.t :=
  k ← get_core;
  if negb (worker_belongs k w) then mret BarrierOutcome.OtherLedger
  else if negb (bool_decide (phase k = NeedBarrier)) then mret BarrierOutcome.NotNeeded
  else
    ran ← verb barrier_run;
    if negb ran then mret BarrierOutcome.Failed
    else
      put_core (λ k, set_phase k (if is_Some_b (u k) then Resolving else Healthy)) ;;
      mret BarrierOutcome.Passed.

(** C's occupant in the ledger: C emptied. X's: X marked committed, and the
    original's table entry removed. *)
Definition settle_cell (k : Core) (cell : Cell) (seq : Seq) : Core :=
  if bool_decide (cell = C) then set_c k None
  else
    match x k with
    | Some (n, occupant, _) =>
        let k := set_x k (Some (n, occupant, StCommitted seq)) in
        match occupant with
        | Occupant.Explanation original _ => set_refusals k (delete original (refusals k))
        | _ => k
        end
    | None => k
    end.

Section Cells.
Context `{!CellTxn σ}.

Definition cell_roll_back : M σ Persistence := a ← verb cell_rollback; rolled a.

Definition cell_apply (cell : Cell) (occupant : Occupant.t) : M σ CellAppend.t :=
  modify set_issued ;;
  r ← verb (cell_insert occupant);
  match r with
  | Insert.Inserted seq =>
      r ← verb cell_commit;
      match r with
      | Commit.Durable =>
          put_core (λ k, settle_cell k cell seq) ;; mret (CellAppend.Committed seq)
      | Commit.Unknown => failed ;; cell_roll_back ;; mret CellAppend.Uncertain
      end
  | r =>
      (match r with
       | Insert.Constraint => latch_op LatchCause.Constraint
       | _ => mret tt
       end) ;;
      failed ;;
      p ← cell_roll_back;
      mret match p with
           | NotWritten => CellAppend.NotWritten
           | Uncertain => CellAppend.Uncertain
           end
  end.

Definition cell_body (cell : Cell) (occupant : Occupant.t) : M σ CellAppend.t :=
  r ← verb cell_open;
  match r with
  | Read.Got _ =>
      r ← verb (cell_present occupant);
      match r with
      | Read.Got (Some seq) =>
          cell_roll_back ;;
          put_core (λ k, settle_cell k cell seq) ;;
          mret (CellAppend.Committed seq)
      | Read.Got None => cell_apply cell occupant
      | r => read_failed (is_corrupt r) ;; cell_roll_back ;; mret CellAppend.NotWritten
      end
  | _ => failed ;; mret CellAppend.NotWritten
  end.

Definition cell_ (w : Worker) (tok : CellToken) : M σ CellAppend.t :=
  k ← get_core;
  if negb (worker_belongs k w) then mret CellAppend.OtherLedger
  else if negb (names k tok C || names k tok X) then mret CellAppend.Stale
  else if negb (bool_decide (session k = Open)) then mret (CellAppend.Refused Entry.NotOpen)
  else if is_Some_b (latch k) then mret (CellAppend.Refused Entry.Latched)
  else if negb (bool_decide (phase k = Healthy)) then mret (CellAppend.Refused Entry.NotHealthy)
  else
    let broken := latch_op LatchCause.CellInvariant ;; mret (CellAppend.Refused Entry.Latched) in
    match tok_cell tok, c k, x k with
    | C, Some (_, occupant), _ => cell_body C occupant
    | X, _, Some (_, _, StCommitted seq) => mret (CellAppend.Committed seq)
    | X, _, Some (_, occupant, Built) => cell_body X occupant
    | _, _, _ => broken
    end.
End Cells.

Definition empty_ (w : Worker) (tok : CellToken) : M σ Emptying.t :=
  k ← get_core;
  if negb (worker_belongs k w) then mret Emptying.OtherLedger
  else if negb (names k tok X) then mret Emptying.Stale
  else
    match x k with
    | Some (_, _, StCommitted _) => put_core (λ k, set_x k None) ;; mret Emptying.Done
    | _ => mret Emptying.NotCommitted
    end.

Definition session_opened_ : M σ bool :=
  k ← get_core;
  let opened := bool_decide (session k = Bootstrap) in
  (if opened then put_core (λ k, set_session k Open) else mret tt) ;;
  mret opened.

Definition session_sealed_ : M σ bool :=
  k ← get_core;
  let sealed :=
    bool_decide (session k = Open) && bool_decide (phase k = Healthy) && is_None_b (latch k)
    && is_None_b (u k) && is_None_b (c k) && is_None_b (x k) in
  (if sealed then put_core (λ k, set_session k Sealed) else mret tt) ;;
  mret sealed.
End Operations.

(** *** The entry points *)

Section EntryPoints.
Context {σ : Type} `{!Reads σ} `{!AckTxn σ} `{!CellTxn σ} `{!BarrierRun σ}.

Definition lookup (k : Core) (key : RecordKey) (s : σ) := run_op k (lookup_ key) s.
Definition explain (k : Core) (key : RecordKey) (s : σ) := run_op k (explain_ key) s.
Definition snapshot (k : Core) (nonce : bytes) (s : σ) := run_op k (snapshot_ nonce) s.
Definition append_acknowledgement (k : Core) (snap : Snapshot) (s : σ) :=
  run_op k (acknowledgement snap) s.
Definition barrier (k : Core) (w : Worker) (s : σ) := run_op k (barrier_ w) s.
Definition resolve (k : Core) (w : Worker) (tok : CellToken) (s : σ) := run_op k (resolve_ w tok) s.
Definition append_cell (k : Core) (w : Worker) (tok : CellToken) (s : σ) := run_op k (cell_ w tok) s.
Definition empty (k : Core) (w : Worker) (tok : CellToken) (s : σ) := run_op k (empty_ w tok) s.
Definition session_opened (k : Core) (s : σ) := run_op k session_opened_ s.
Definition session_sealed (k : Core) (s : σ) := run_op k session_sealed_ s.
End EntryPoints.
