(* ===== verification/LedgerProps.v ===== *)
(** * Properties of the ledger's protocol core

    A small program logic for the guarded operations of [LedgerCore], in which
    a storage verb may give any answer or unwind, and the invariants of the
    store proved with it. *)

From S2P Require Import Prelude LedgerWord LedgerCore.

Local Open Scope Z_scope.

(** ** The logic *)

(** From a guard that satisfies [P], the body ends in [Q] if it returns, and
    in [E] if it unwinds, whatever the storage answers. *)
Definition triple {σ A} (P : Publish → Prop) (m : M σ A) (Q : A → Publish → Prop)
    (E : Publish → Prop) : Prop :=
  ∀ op s, P op →
    match m op s with
    | (Some a, op', _) => Q a op'
    | (None, op', _) => E op'
    end.

Section Logic.
Context {σ : Type}.
Implicit Types (P E : Publish → Prop).

Lemma triple_ret {A} (P E : Publish → Prop) (Q : A → Publish → Prop) (a : A) :
  (∀ op, P op → Q a op) → triple P (mret a : M σ A) Q E.
Proof. intros H op s HP. by apply H. Qed.

Lemma triple_bind {A B} P E (R : A → Publish → Prop) (Q : B → Publish → Prop)
    (m : M σ A) (f : A → M σ B) :
  triple P m R E → (∀ a, triple (R a) (f a) Q E) → triple P (m ≫= f) Q E.
Proof.
  intros Hm Hf op s HP. specialize (Hm op s HP). unfold mbind, M_bind.
  destruct (m op s) as [[[a|] op'] s']; [by apply Hf|done].
Qed.

Lemma triple_verb {A} P (f : σ → verb_result σ A) : triple P (verb f) (λ _, P) P.
Proof. intros op s HP. unfold verb. by destruct (f s) as [[a|] s']. Qed.

Lemma triple_get_core P E :
  triple P (get_core : M σ Core) (λ k op, P op ∧ core op = k) E.
Proof. intros op s HP. done. Qed.

Lemma triple_modify P E (Q : unit → Publish → Prop) (f : Publish → Publish) :
  (∀ op, P op → Q tt (f op)) → triple P (modify f : M σ unit) Q E.
Proof. intros H op s HP. by apply H. Qed.

Lemma triple_on_core {A} P E (Q : A → Publish → Prop) (f : Core → Core * A) :
  (∀ op, P op → Q (snd (f (core op))) (set_core op (fst (f (core op))))) →
  triple P (on_core f : M σ A) Q E.
Proof.
  intros H op s HP. unfold on_core. specialize (H op HP). by destruct (f (core op)).
Qed.

Lemma triple_pre {A} P P' E (Q : A → Publish → Prop) (m : M σ A) :
  (∀ op, P op → P' op) → triple P' m Q E → triple P m Q E.
Proof. intros H Hm op s HP. by apply Hm, H. Qed.

Lemma triple_post {A} P E (Q Q' : A → Publish → Prop) (m : M σ A) :
  (∀ a op, Q' a op → Q a op) → triple P m Q' E → triple P m Q E.
Proof.
  intros H Hm op s HP. specialize (Hm op s HP). destruct (m op s) as [[[a|] op'] s']; auto.
Qed.

Lemma triple_unwind {A} P E E' (Q : A → Publish → Prop) (m : M σ A) :
  (∀ op, E' op → E op) → triple P m Q E' → triple P m Q E.
Proof.
  intros H Hm op s HP. specialize (Hm op s HP). destruct (m op s) as [[[a|] op'] s']; auto.
Qed.
End Logic.

(** A property the body keeps at every step. *)
Definition preserves {σ A} (I : Publish → Prop) (m : M σ A) : Prop := triple I m (λ _, I) I.

Section Preserves.
Context {σ : Type} (I : Publish → Prop).

Lemma preserves_ret {A} (a : A) : preserves I (mret a : M σ A).
Proof. by apply triple_ret. Qed.
Lemma preserves_bind {A B} (m : M σ A) (f : A → M σ B) :
  preserves I m → (∀ a, preserves I (f a)) → preserves I (m ≫= f).
Proof. intros Hm Hf. by eapply triple_bind. Qed.
Lemma preserves_verb {A} (f : σ → verb_result σ A) : preserves I (verb f).
Proof. apply triple_verb. Qed.
Lemma preserves_get_core : preserves I (get_core : M σ Core).
Proof. intros op s HI. done. Qed.
Lemma preserves_modify (f : Publish → Publish) :
  (∀ op, I op → I (f op)) → preserves I (modify f : M σ unit).
Proof. intros H. by apply triple_modify. Qed.
Lemma preserves_put_core (f : Core → Core) :
  (∀ op, I op → I (set_core op (f (core op)))) → preserves I (put_core f : M σ unit).
Proof. intros H. by apply preserves_modify. Qed.
Lemma preserves_on_core {A} (f : Core → Core * A) :
  (∀ op, I op → I (set_core op (fst (f (core op))))) → preserves I (on_core f : M σ A).
Proof. intros H. by apply triple_on_core. Qed.
Lemma preserves_not_applied p reason :
  (∀ op v, I op → I (set_count op v)) → preserves I (not_applied p reason : M σ FactOutcome.t).
Proof. intros H op s HI. by apply H. Qed.
End Preserves.

(** Walks the structure of a body that keeps an invariant; the updates of the
    core and the guard are left. *)
Ltac preserve :=
  repeat match goal with
  | |- preserves _ (mret _) => apply preserves_ret
  | |- preserves _ (_ ≫= _) => apply preserves_bind; [|intros ?]
  | |- preserves _ (verb _) => apply preserves_verb
  | |- preserves _ get_core => apply preserves_get_core
  | |- preserves _ (put_core _) => apply preserves_put_core; intros ? ?
  | |- preserves _ (modify _) => apply preserves_modify; intros ? ?
  | |- preserves _ (on_core _) => apply preserves_on_core; intros ? ?
  | |- preserves _ (not_applied _ _) => apply preserves_not_applied; intros ? ? ?
  | |- preserves _ (if ?b then _ else _) => destruct b
  | |- preserves _ match ?r with _ => _ end => destruct r
  end.

(** The lemmas that keep an invariant through the shared steps of a body. *)
Create HintDb ledger.

(** ** What only moves forward *)

Definition session_le (a b : Session) : Prop :=
  match a, b with
  | Bootstrap, _ | Open, Open | Open, Sealed | Sealed, Sealed => True
  | _, _ => False
  end.

(** A cell's occupancy number is the one it had, or one the cell's counter had
    not reached. *)
Definition occ_fresh (k k' : Core) : Prop :=
  ∀ cell n, occupancy k' cell = Some n → occupancy k cell = Some n ∨
    ∃ m, occupancies k !! Cell_index cell = Some m ∧ m < n.

Definition occ_same (k k' : Core) : Prop :=
  ∀ cell, occupancy k' cell = None ∨ occupancy k' cell = occupancy k cell.

Lemma occ_same_fresh k k' : occ_same k k' → occ_fresh k k'.
Proof. intros H cell n Hn. destruct (H cell) as [E|E]; [congruence|left; congruence]. Qed.

Lemma occ_fresh_trans k1 k2 k3 : Forall2 Z.le (occupancies k1) (occupancies k2) →
  occ_fresh k1 k2 → occ_fresh k2 k3 → occ_fresh k1 k3.
Proof.
  intros Hle H12 H23 cell n Hn. destruct (H23 _ _ Hn) as [H2|(m2 & Hm2 & Hlt)]; [by apply H12|].
  right. destruct (Forall2_lookup_r _ _ _ _ _ Hle Hm2) as (m1 & Hm1 & Hm). exists m1. split; [done|lia].
Qed.

Ltac occ_same :=
  intros []; unfold occupancy; simpl;
  repeat match goal with H : u _ = _ |- _ => rewrite H | H : x _ = _ |- _ => rewrite H end;
  simpl; auto.

Record core_le (k k' : Core) : Prop := {
  cl_shared : shared k' = shared k;
  cl_limit : refusal_limit k' = refusal_limit k;
  cl_latch : ∀ l, latch k = Some l → latch k' = Some l;
  cl_session : session_le (session k) (session k');
  cl_frontier : frontier k ≤ frontier k';
  cl_occupancies : Forall2 Z.le (occupancies k) (occupancies k');
  cl_fresh : occ_fresh k k';
}.

#[export] Instance core_le_preorder : PreOrder core_le.
Proof.
  split.
  - intros k. split; try done; [by destruct (session k)|apply occ_same_fresh; occ_same].
  - intros k1 k2 k3 [A1 A2 A3 A4 A5 A6 A7] [B1 B2 B3 B4 B5 B6 B7].
    split; [congruence|congruence|auto| |lia| |].
    + by destruct (session k1), (session k2), (session k3).
    + by etrans.
    + by eapply occ_fresh_trans.
Qed.

(** An update that leaves the ordered fields as they are. *)
Lemma core_le_same k k' :
  shared k' = shared k → refusal_limit k' = refusal_limit k → latch k' = latch k →
  session k' = session k → frontier k' = frontier k → occupancies k' = occupancies k →
  occ_same k k' → core_le k k'.
Proof.
  intros E1 E2 E3 E4 E5 E6 E7. split; rewrite ?E1, ?E2, ?E3, ?E4, ?E5, ?E6; try done.
  - by destruct (session k).
  - by apply occ_same_fresh.
Qed.

Ltac le_same := by (apply core_le_same; [done..|occ_same]).

Lemma do_latch_le k l : core_le k (do_latch k l).
Proof.
  unfold do_latch. destruct (latch k) eqn:E; simpl; [reflexivity|].
  split; simpl; try done; [by rewrite E|by destruct (session k)|apply occ_same_fresh; occ_same].
Qed.

Lemma next_occupancy_le k cell : core_le k (fst (next_occupancy k cell)).
Proof.
  unfold next_occupancy. destruct (_ ≫= _) as [n|] eqn:E; simpl; [|apply do_latch_le].
  apply bind_Some in E as (m & Hm & Hn). unfold checked_add in Hn. case_match; simplify_eq.
  split; simpl; try done; [by destruct (session k)| |apply occ_same_fresh; occ_same].
  apply Forall2_same_length_lookup. split; [by rewrite length_insert|].
  intros i y z Hy Hz. destruct (decide (i = Cell_index cell)) as [->|Hi].
  - rewrite list_lookup_insert_eq in Hz by (by eapply lookup_lt_Some). simplify_eq. lia.
  - rewrite list_lookup_insert_ne in Hz by done. simplify_eq. lia.
Qed.

Lemma next_occupancy_fresh k cell k' n : next_occupancy k cell = (k', Some n) →
  ∃ m, occupancies k !! Cell_index cell = Some m ∧ m < n.
Proof.
  unfold next_occupancy. destruct (_ ≫= _) as [n'|] eqn:E; intros; simplify_eq.
  apply bind_Some in E as (m & Hm & Hn). unfold checked_add in Hn. case_match; simplify_eq.
  exists m. split; [done|lia].
Qed.

Lemma place_le k cell o : core_le k (fst (place k cell o)).
Proof.
  unfold place. pose proof (next_occupancy_le k cell) as H.
  destruct (next_occupancy k cell) as [k' [n|]] eqn:E; simpl in *; [|done].
  apply next_occupancy_fresh in E as (m & Hm & Hlt). destruct H as [A1 A2 A3 A4 A5 A6 A7].
  split; try (by destruct cell). intros cell' n' Hn'.
  destruct (decide (cell' = cell)) as [->|Hne].
  - right. exists m. split; [done|]. destruct cell; simpl in Hn'; simplify_eq; lia.
  - apply A7. by destruct cell, cell'.
Qed.

Lemma classify_constraint_le k a m cause g : core_le k (fst (classify_constraint k a m cause g)).
Proof.
  unfold classify_constraint.
  assert (Hfill : ∀ k, core_le k (if is_None_b (x k) then fst (explanation k (m_key m) cause) else k))
    by (intros k'; case_match; [apply place_le|reflexivity]).
  destruct g; simpl; [apply Hfill|]. case_match; simpl; [apply do_latch_le|].
  transitivity (set_refusals k (<[m_key m := cause]> (refusals k))); [le_same|].
  exact (Hfill (set_refusals k (<[m_key m := cause]> (refusals k)))).
Qed.

Lemma classify_le k a m f e g : core_le k (fst (classify k a m f e g)).
Proof.
  unfold classify. pose proof (λ cause, classify_constraint_le k a m cause g) as Hc.
  repeat case_match; simpl; try reflexivity; apply Hc.
Qed.

Lemma settle_cell_le k cell seq : core_le k (settle_cell k cell seq).
Proof. unfold settle_cell. repeat case_match; simpl; le_same. Qed.

Section Forward.
Context {σ : Type} (k0 : Core).

(** The guard's core is ahead of where the operation started. *)
Definition ahead (op : Publish) : Prop := core_le k0 (core op).

Lemma ahead_update op k : ahead op → core_le (core op) k → ahead (set_core op k).
Proof. unfold ahead. simpl. intros. by etrans. Qed.

Ltac forward :=
  preserve; try done;
  try (apply ahead_update; [done|]);
  first [le_same|apply do_latch_le|apply place_le|apply classify_le
        |apply settle_cell_le|idtac].

Lemma failed_ahead : preserves (σ:=σ) ahead failed.
Proof. unfold failed. forward. Qed.
Lemma latch_op_ahead l : preserves (σ:=σ) ahead (latch_op l).
Proof. unfold latch_op. forward. Qed.
Lemma read_failed_ahead b : preserves (σ:=σ) ahead (read_failed b).
Proof. unfold read_failed, failed, latch_op. forward. Qed.
Lemma rolled_ahead a : preserves (σ:=σ) ahead (rolled a).
Proof. unfold rolled, failed. destruct a; forward. Qed.

#[local] Hint Resolve failed_ahead latch_op_ahead read_failed_ahead rolled_ahead place_le
  settle_cell_le : ledger.

Lemma facts_ahead `{!Txn σ} t batch : preserves (σ:=σ) ahead (facts t batch).
Proof.
  assert (Hroll : preserves (σ:=σ) ahead roll_back) by (unfold roll_back; forward; eauto with ledger).
  assert (Hins : ∀ todo i, preserves (σ:=σ) ahead (insert_members i todo)).
  { induction todo as [|[m [|]] todo IH]; intros i; cbn [insert_members negb]; forward; eauto with ledger. }
  assert (Hcls : ∀ todo i e, preserves (σ:=σ) ahead (classify_members i e todo)).
  { induction todo as [|m todo IH]; intros i e; cbn [classify_members]; forward; eauto with ledger. }
  unfold facts, apply_facts. forward; eauto with ledger.
Qed.

Lemma gating_ahead `{!Txn σ} r : preserves (σ:=σ) ahead (gating r).
Proof.
  unfold gating, gating_body, gating_insert, gating_entry, refused, roll_back. forward; eauto with ledger.
Qed.

Lemma lookup_ahead `{!Reads σ} key : preserves (σ:=σ) ahead (lookup_ key).
Proof.
  unfold lookup_, lookup_conflict. forward; eauto with ledger.
Qed.

Lemma explain_ahead `{!Reads σ} key : preserves (σ:=σ) ahead (explain_ key).
Proof.
  unfold explain_, explain_missing. forward; eauto with ledger; apply place_le.
Qed.

Lemma raise_frontier_le k top : core_le k (if frontier k <? top then set_frontier k top else k).
Proof.
  destruct (Z.ltb_spec (frontier k) top); [|reflexivity].
  split; simpl; try done; [by destruct (session k)|lia|apply occ_same_fresh; occ_same].
Qed.

#[local] Hint Resolve raise_frontier_le : ledger.

Lemma resolve_ahead `{!Reads σ} w tok : preserves (σ:=σ) ahead (resolve_ w tok).
Proof.
  unfold resolve_, resolve_gating, resolve_ack, resolved, place_token, raise_frontier.
  forward; eauto with ledger.
Qed.

Lemma snapshot_ahead `{!AckTxn σ} nonce : preserves (σ:=σ) ahead (snapshot_ nonce).
Proof. unfold snapshot_. forward; eauto with ledger. Qed.

Lemma acknowledgement_ahead `{!AckTxn σ} snap : preserves (σ:=σ) ahead (acknowledgement snap).
Proof.
  unfold acknowledgement, ack_body, ack_apply, ack_roll_back. forward; eauto with ledger.
Qed.

Lemma barrier_ahead `{!BarrierRun σ} w : preserves (σ:=σ) ahead (barrier_ w).
Proof. unfold barrier_. forward. Qed.

Lemma cell_ahead `{!CellTxn σ} w tok : preserves (σ:=σ) ahead (cell_ w tok).
Proof.
  unfold cell_, cell_body, cell_apply, cell_roll_back. forward; eauto with ledger.
Qed.

Lemma empty_ahead w tok : preserves (σ:=σ) ahead (empty_ w tok).
Proof. unfold empty_. forward. Qed.

Lemma settle_unwound_le op : core_le (core op) (core (settle_unwound op)).
Proof.
  unfold settle_unwound. destruct (done_ op); [reflexivity|].
  destruct (is_Some_b _ && is_None_b _); simpl; le_same.
Qed.

Lemma settle_hold_le op : core_le (core op) (settle_hold op).
Proof.
  unfold settle_hold. case_bool_decide; [reflexivity|]. destruct (negb (keep op)); [le_same|].
  destruct (u (core op)) as [[n []]|] eqn:Hu; try reflexivity. le_same.
Qed.

Lemma drop_ahead op : ahead op → core_le k0 (pub_core (drop_publish op)).
Proof.
  unfold ahead. intros H. etrans; [done|]. etrans; [apply (settle_unwound_le op)|].
  apply (settle_hold_le (settle_unwound op)).
Qed.

Lemma run_op_ahead {A} (body : M σ A) s :
  preserves ahead body → core_le k0 (pub_core (snd (fst (run_op k0 body s)))).
Proof.
  intros Hb. unfold run_op. specialize (Hb (Publish_new k0) s).
  assert (Hi : ahead (Publish_new k0)) by (unfold ahead; simpl; reflexivity).
  specialize (Hb Hi). destruct (body _ s) as [[[a|] op] s']; simpl; by apply drop_ahead.
Qed.
End Forward.

(** ** The store's invariant *)

Definition occ_le (k : Core) (cell : Cell) (n : Z) : Prop :=
  ∃ m, occupancies k !! Cell_index cell = Some m ∧ n ≤ m.

(** What U holds between calls: an attempt whose call has ended. *)
Definition u_occupant (o : Occupant.t) : Prop :=
  match o with
  | Occupant.Gating _ exit => exit ≠ InCall
  | Occupant.Acknowledgement _ _ => True
  | _ => False
  end.
Definition c_occupant (o : Occupant.t) : Prop :=
  match o with Occupant.Correction _ _ exit => exit ≠ InCall | _ => False end.
Definition x_occupant (o : Occupant.t) : Prop :=
  match o with Occupant.Explanation _ _ => True | _ => False end.

Record cells_inv (k : Core) : Prop := {
  ci_occ : length (occupancies k) = 3%nat;
  ci_c : ∀ n o, c k = Some (n, o) → c_occupant o ∧ occ_le k C n;
  ci_x : ∀ n o st, x k = Some (n, o, st) → x_occupant o ∧ occ_le k X n;
  ci_table : Z.of_nat (size (refusals k)) ≤ refusal_limit k;
  ci_latch : latch k ≠ Some LatchCause.CellInvariant;
}.

Record core_inv (k : Core) : Prop := {
  inv_cells : cells_inv k;
  inv_u : ∀ n o, u k = Some (n, o) →
    u_occupant o ∧ occ_le k U n ∧ c k = None ∧ x k = None ∧ phase k ≠ Healthy;
  inv_resolving : phase k = Resolving → is_Some (u k);
}.

(** Updates that keep the cells as they are. *)
Lemma cells_inv_same k k' : cells_inv k →
  occupancies k' = occupancies k → c k' = c k → x k' = x k → refusals k' = refusals k →
  refusal_limit k' = refusal_limit k → latch k' = latch k → cells_inv k'.
Proof.
  intros [H1 H2 H3 H4 H5] E1 E2 E3 E4 E5 E6. unfold occ_le in *.
  split; unfold occ_le; rewrite ?E1, ?E2, ?E3, ?E4, ?E5, ?E6; done.
Qed.

Lemma cells_latch k l : cells_inv k → l ≠ LatchCause.CellInvariant → cells_inv (do_latch k l).
Proof.
  intros H Hl. unfold do_latch. destruct (latch k); simpl; [done|].
  destruct H as [H1 H2 H3 H4 H5]. split; simpl; try done. congruence.
Qed.

Lemma cells_refusals_insert k key cause : cells_inv k → table_full k = false →
  cells_inv (set_refusals k (<[key := cause]> (refusals k))).
Proof.
  intros [H1 H2 H3 H4 H5] Hf. unfold table_full in Hf. breflect. split; simpl; try done.
  rewrite map_size_insert. destruct (refusals k !! key); simpl; lia.
Qed.

Lemma cells_refusals_delete k key : cells_inv k →
  cells_inv (set_refusals k (delete key (refusals k))).
Proof.
  intros [H1 H2 H3 H4 H5]. split; simpl; try done.
  rewrite map_size_delete. destruct (refusals k !! key); simpl; lia.
Qed.

(** Placing an occupant: a fresh, larger occupancy number, or a latch. *)
Definition placed (k : Core) (cell : Cell) (n : Z) (o : Occupant.t) : Core :=
  let k := set_occupancies k (<[Cell_index cell := n]> (occupancies k)) in
  match cell with
  | U => set_u k (Some (n, o))
  | C => set_c k (Some (n, o))
  | X => set_x k (Some (n, o, Built))
  end.

#[local] Arguments placed : simpl never.

Lemma place_cases k cell o : length (occupancies k) = 3%nat →
  (∃ m, occupancies k !! Cell_index cell = Some m ∧
     place k cell o = (placed k cell (m + 1) o, true)) ∨
  place k cell o = (do_latch k LatchCause.Overflow, false).
Proof.
  intros Hl. unfold place, next_occupancy.
  destruct (lookup_lt_is_Some_2 (occupancies k) (Cell_index cell)) as [m Hm];
    [rewrite Hl; destruct cell; simpl; lia|].
  rewrite Hm. simpl. unfold checked_add. destruct (m + 1 <=? u64_max); simpl; [left|by right].
  exists m. split; [done|]. by destruct cell.
Qed.

Lemma occ_le_insert k cell cell' n m i :
  occupancies k !! Cell_index cell = Some m → m < n →
  occ_le k cell' i → occ_le (set_occupancies k (<[Cell_index cell := n]> (occupancies k))) cell' i.
Proof.
  intros Hm Hn (j & Hj & Hi). unfold occ_le. simpl.
  destruct (decide (Cell_index cell = Cell_index cell')) as [E|Hne].
  - rewrite <- E in *. exists n. split; [by rewrite list_lookup_insert_eq by (by eapply lookup_lt_Some)|].
    simplify_eq. lia.
  - exists j. by rewrite list_lookup_insert_ne.
Qed.

Lemma occ_le_fresh k cell n m : occupancies k !! Cell_index cell = Some m →
  occ_le (set_occupancies k (<[Cell_index cell := n]> (occupancies k))) cell n.
Proof.
  intros Hm. exists n. simpl. split; [by rewrite list_lookup_insert_eq by (by eapply lookup_lt_Some)|lia].
Qed.

(** What an occupant must be for the cell it is placed in, where that matters
    to the cells. *)
Definition cell_occupant (cell : Cell) (o : Occupant.t) : Prop :=
  match cell with U => True | C => c_occupant o | X => x_occupant o end.

Lemma cells_placed k cell m o : cells_inv k → occupancies k !! Cell_index cell = Some m →
  cell_occupant cell o → cells_inv (placed k cell (m + 1) o).
Proof.
  intros [H1 H2 H3 H4 H5] Hm Ho.
  assert (Hins : ∀ cell' i, occ_le k cell' i →
    occ_le (set_occupancies k (<[Cell_index cell := m + 1]> (occupancies k))) cell' i)
    by (intros cell' i; apply (occ_le_insert k cell cell' (m + 1) m i Hm); lia).
  pose proof (occ_le_fresh k cell (m + 1) m Hm) as Hfresh.
  unfold placed, occ_le in *. destruct cell; split; simpl in *; try done;
    try (rewrite length_insert; done);
    intros; simplify_eq; try done; naive_solver.
Qed.

Lemma cells_settle k cell seq : cells_inv k → cells_inv (settle_cell k cell seq).
Proof.
  intros H. unfold settle_cell. case_bool_decide.
  { destruct H as [H1 H2 H3 H4 H5]. by split. }
  destruct (x k) as [[[n o] st]|] eqn:E; [|done].
  assert (Hx : cells_inv (set_x k (Some (n, o, StCommitted seq)))).
  { destruct H as [H1 H2 H3 H4 H5]. split; simpl; try done.
    intros ? ? ? [= <- <- <-]. by eapply H3. }
  destruct o; try done. by apply cells_refusals_delete.
Qed.

(** ** The invariant during a call *)

(** U is empty, so a record may be explained in X. *)
Definition idle_core (k : Core) : Prop := cells_inv k ∧ u k = None ∧ phase k ≠ Resolving.
Definition idle (op : Publish) : Prop := idle_core (core op) ∧ hold op = HNothing.
Definition free (op : Publish) : Prop := core_inv (core op) ∧ hold op = HNothing.

Lemma idle_core_inv k : idle_core k → core_inv k.
Proof. intros (Hc & Hu & Hp). split; [done|by rewrite Hu|done]. Qed.

Lemma core_inv_idle k : core_inv k → u k = None → idle_core k.
Proof.
  intros [Hc Hu Hr] E. split_and!; [done|done|]. intros Hp. apply Hr in Hp as [? ?]. congruence.
Qed.

Lemma healthy_idle k : core_inv k → phase k = Healthy → idle_core k.
Proof.
  intros H Hp. apply core_inv_idle; [done|].
  destruct (u k) as [[n o]|] eqn:E; [|done].
  apply (inv_u _ H) in E as (_ & _ & _ & _ & Hne). congruence.
Qed.

Lemma idle_free op : idle op → free op.
Proof. intros [H Hh]. split; [by apply idle_core_inv|done]. Qed.

Lemma inv_need_barrier k : core_inv k → core_inv (set_phase k NeedBarrier).
Proof.
  intros [Hc Hu Hr]. split; simpl; [by eapply cells_inv_same| |done].
  intros n o E. by apply Hu in E as (? & ? & ? & ? & _).
Qed.

Lemma do_latch_fields k l :
  u (do_latch k l) = u k ∧ c (do_latch k l) = c k ∧ x (do_latch k l) = x k ∧
  phase (do_latch k l) = phase k ∧ occupancies (do_latch k l) = occupancies k.
Proof. unfold do_latch. by destruct (is_None_b (latch k)). Qed.

Lemma inv_latch k l : core_inv k → l ≠ LatchCause.CellInvariant → core_inv (do_latch k l).
Proof.
  intros [Hc Hu Hr] Hl. destruct (do_latch_fields k l) as (E1 & E2 & E3 & E4 & E5).
  split; [by apply cells_latch| |by rewrite E1, E4].
  intros n o. unfold occ_le. rewrite E1, E2, E3, E4, E5. apply Hu.
Qed.

Lemma inv_refusals k r : core_inv k → cells_inv (set_refusals k r) → core_inv (set_refusals k r).
Proof. intros [Hc Hu Hr] H. by split. Qed.

Lemma idle_need_barrier k : idle_core k → idle_core (set_phase k NeedBarrier).
Proof. intros (Hc & Hu & Hp). split_and!; [by eapply cells_inv_same|done|done]. Qed.

Lemma idle_latch k l : idle_core k → l ≠ LatchCause.CellInvariant → idle_core (do_latch k l).
Proof.
  intros (Hc & Hu & Hp) Hl. destruct (do_latch_fields k l) as (E1 & E2 & E3 & E4 & E5).
  split_and!; [by apply cells_latch|congruence|congruence].
Qed.

(** Explaining in X. *)
Lemma cells_explanation k key cause : cells_inv k → cells_inv (fst (explanation k key cause)).
Proof.
  intros H. unfold explanation.
  destruct (place_cases k X (Occupant.Explanation key cause) (ci_occ _ H)) as [(m & Hm & ->)| ->];
    simpl; [|by apply cells_latch]. by apply cells_placed.
Qed.

Lemma explanation_fields k key cause : length (occupancies k) = 3%nat →
  u (fst (explanation k key cause)) = u k ∧ phase (fst (explanation k key cause)) = phase k.
Proof.
  intros H. unfold explanation.
  destruct (place_cases k X (Occupant.Explanation key cause) H) as [(m & Hm & ->)| ->]; simpl; [done|].
  by destruct (do_latch_fields k LatchCause.Overflow) as (-> & _ & _ & -> & _).
Qed.

Lemma idle_explanation k key cause : idle_core k → idle_core (fst (explanation k key cause)).
Proof.
  intros (Hc & Hu & Hp). destruct (explanation_fields k key cause (ci_occ _ Hc)) as [E1 E2].
  split_and!; [by apply cells_explanation|congruence|congruence].
Qed.

Lemma idle_refusals_insert k key cause : idle_core k → table_full k = false →
  idle_core (set_refusals k (<[key := cause]> (refusals k))).
Proof. intros (Hc & Hu & Hp) Hf. split_and!; [by apply cells_refusals_insert|done|done]. Qed.

Lemma idle_classify_constraint k a m cause g : idle_core k →
  idle_core (fst (classify_constraint k a m cause g)).
Proof.
  intros H. unfold classify_constraint. destruct g; simpl; [case_match; [by apply idle_explanation|done]|].
  destruct (table_full k) eqn:Hf; simpl; [by apply idle_latch|].
  pose proof (idle_refusals_insert k (m_key m) cause H Hf).
  destruct (is_None_b (x k)); [by apply idle_explanation|done].
Qed.

Lemma idle_classify k a m f e g : idle_core k → idle_core (fst (classify k a m f e g)).
Proof.
  intros H. unfold classify. pose proof (λ cause, idle_classify_constraint k a m cause g H) as Hc.
  repeat case_match; simpl; try done; apply Hc.
Qed.

Section Facts.
Context {σ : Type} `{!Txn σ}.

Lemma failed_idle : preserves (σ:=σ) idle failed.
Proof.
  apply preserves_put_core. intros op [H Hh]. split; [by apply idle_need_barrier|done].
Qed.
Lemma latch_op_idle l : l ≠ LatchCause.CellInvariant → preserves (σ:=σ) idle (latch_op l).
Proof.
  intros Hl. apply preserves_put_core. intros op [H Hh]. split; [by apply idle_latch|done].
Qed.
Lemma read_failed_idle b : preserves (σ:=σ) idle (read_failed b).
Proof.
  unfold read_failed. apply preserves_bind; [apply failed_idle|intros _].
  destruct b; [by apply latch_op_idle|apply preserves_ret].
Qed.
Lemma rolled_idle a : preserves (σ:=σ) idle (rolled a).
Proof. unfold rolled. destruct a; preserve. apply failed_idle. Qed.
Lemma roll_back_idle : preserves (σ:=σ) idle roll_back.
Proof. unfold roll_back. preserve. apply rolled_idle. Qed.

Lemma insert_members_idle todo i : preserves (σ:=σ) idle (insert_members i todo).
Proof.
  revert i. induction todo as [|[m [|]] todo IH]; intros i; cbn [insert_members negb];
    preserve; try done; auto using roll_back_idle, failed_idle; by apply latch_op_idle.
Qed.

Lemma classify_members_idle todo i e : preserves (σ:=σ) idle (classify_members i e todo).
Proof.
  revert i e. induction todo as [|m todo IH]; intros i e; cbn [classify_members];
    preserve; try done; auto using roll_back_idle, read_failed_idle.
  destruct H as [H Hh]. split; [by apply idle_classify|done].
Qed.

Lemma facts_free t batch : triple (σ:=σ) free (facts t batch) (λ _, free) free.
Proof.
  unfold facts. eapply triple_bind; [apply triple_get_core|intros k].
  destruct (ticket_fault k t).
  { eapply triple_pre; [intros op [H _]; exact H|]. apply (preserves_bind free).
    - apply preserves_put_core. intros op [H Hh]. split; [by apply inv_latch|done].
    - intros _. apply preserves_ret. }
  apply (triple_bind _ _ (λ _ op, free op ∧ core op = k)).
  { apply triple_modify. intros op [H E]. done. }
  intros _. destruct (facts_entry k batch) as [entry|] eqn:He.
  { eapply triple_pre; [intros op [H _]; exact H|]. by apply preserves_not_applied. }
  apply (triple_pre _ idle).
  { intros op [[H Hh] E]. split; [|done]. apply healthy_idle; [done|]. rewrite E.
    unfold facts_entry in He. by repeat (case_match; try done); breflect. }
  eapply triple_post; [intros a op; apply idle_free|].
  eapply triple_unwind; [apply idle_free|].
  pose proof failed_idle. pose proof roll_back_idle. pose proof classify_members_idle.
  pose proof insert_members_idle.
  match goal with |- triple idle ?m _ _ => change (preserves idle m) end.
  unfold apply_facts. preserve; auto.
Qed.
End Facts.

(** ** A call that holds U *)

(** The occupant a call keeps in U while it runs. *)
Definition in_call (h : Hold) (o : Occupant.t) : Prop :=
  match h, o with
  | HGating, Occupant.Gating _ _ | HAcknowledgement, Occupant.Acknowledgement _ _ => True
  | _, _ => False
  end.

Record held (op : Publish) : Prop := {
  he_cells : cells_inv (core op);
  he_u : ∃ n o, u (core op) = Some (n, o) ∧ in_call (hold op) o ∧ occ_le (core op) U n;
  he_c : c (core op) = None;
  he_issued : issued op = true → x (core op) = None;
  he_keep : keep op = true → issued op = true ∧ phase (core op) = NeedBarrier;
  he_phase : phase (core op) ≠ Resolving;
}.

(** A held guard before, and after, its insert is issued. *)
Definition held_before (op : Publish) : Prop :=
  held op ∧ issued op = false ∧ keep op = false ∧ x (core op) = None.
Definition held_issued (op : Publish) : Prop :=
  held op ∧ issued op = true ∧ keep op = false.
Definition held_failed (op : Publish) : Prop :=
  held op ∧ issued op = true ∧ phase (core op) = NeedBarrier.

(** Updates of the core that keep a held guard held. *)
Lemma held_core op k : held op → cells_inv k → u k = u (core op) → c k = c (core op) →
  (∀ n, occ_le (core op) U n → occ_le k U n) → (x k = x (core op) ∨ issued op = false) →
  (phase k = phase (core op) ∨ phase k = NeedBarrier) → held (set_core op k).
Proof.
  intros [H1 (n & o & H2 & H2' & H2'') H3 H4 H5 H6] Hc Eu Ec Eo Ex Ep. split; simpl.
  - done.
  - exists n, o. rewrite Eu. auto.
  - congruence.
  - intros Hi. destruct Ex as [->|]; [auto|congruence].
  - intros Hk. destruct (H5 Hk) as [? ?]. split; [done|]. destruct Ep; congruence.
  - destruct Ep as [->|]; congruence.
Qed.

Lemma held_need_barrier op : held op → held (set_core op (set_phase (core op) NeedBarrier)).
Proof.
  intros H. apply held_core; simpl; auto. eapply cells_inv_same; [apply (he_cells _ H)|done..].
Qed.

Lemma held_latch op l : held op → l ≠ LatchCause.CellInvariant →
  held (set_core op (do_latch (core op) l)).
Proof.
  intros H Hl. destruct (do_latch_fields (core op) l) as (E1 & E2 & E3 & E4 & E5).
  apply held_core; auto; [by apply cells_latch; [apply (he_cells _ H)|]|].
  unfold occ_le. by rewrite E5.
Qed.

Section Held.
Context {σ : Type}.

Lemma failed_held_issued :
  triple (σ:=σ) held_issued failed (λ _ op, held_failed op ∧ keep op = false) held.
Proof.
  apply triple_modify. intros op (H & Hi & Hk).
  split; [split_and!; [by apply held_need_barrier|done|done]|done].
Qed.

Lemma latch_op_issued l : l ≠ LatchCause.CellInvariant →
  triple (σ:=σ) held_issued (latch_op l) (λ _, held_issued) held.
Proof.
  intros Hl. apply triple_modify. intros op (H & Hi & Hk). split_and!; [by apply held_latch|done|done].
Qed.

Lemma rolled_held_failed a :
  triple (σ:=σ) (λ op, held_failed op ∧ keep op = false) (rolled a)
    (λ _ op, held_failed op ∧ keep op = false) held.
Proof.
  destruct a; simpl; [by apply triple_ret|].
  eapply (triple_bind _ _ (λ _ op, held_failed op ∧ keep op = false)).
  - apply triple_modify. intros op ((H & Hi & Hp) & Hk).
    split; [split_and!; [by apply held_need_barrier|done|done]|done].
  - intros ?; cbv beta. by apply triple_ret.
Qed.

Lemma rolled_held a : triple (σ:=σ) held (rolled a) (λ _, held) held.
Proof.
  destruct a; simpl; [by apply triple_ret|].
  eapply (triple_bind _ _ (λ _, held)); [|intros ?; cbv beta; by apply triple_ret].
  apply triple_modify. intros op H. by apply held_need_barrier.
Qed.

Lemma read_failed_held b : triple (σ:=σ) held (read_failed b) (λ _, held) held.
Proof.
  unfold read_failed. eapply (triple_bind _ _ (λ _, held)).
  - apply triple_modify. intros op H. by apply held_need_barrier.
  - intros ?; cbv beta. destruct b; [|by apply triple_ret].
    apply triple_modify. intros op H. by apply held_latch.
Qed.

Lemma failed_held : triple (σ:=σ) held failed (λ _, held) held.
Proof. apply triple_modify. intros op H. by apply held_need_barrier. Qed.

Lemma keep_held b :
  triple (σ:=σ) (λ op, held_failed op ∧ keep op = false) (modify (λ op, set_keep op b))
    (λ _, held) held.
Proof.
  apply triple_modify. intros op ((H & Hi & Hp) & Hk). destruct H. by split.
Qed.

(** The verb with an issued insert. *)
Lemma triple_verb_held {A} P (f : σ → verb_result σ A) : (∀ op, P op → held op) →
  triple P (verb f) (λ _, P) held.
Proof. intros H. eapply triple_unwind; [exact H|]. apply triple_verb. Qed.
End Held.

(** Taking hold of U. *)
Lemma hold_u op cell_o h m : idle op → c (core op) = None → x (core op) = None →
  issued op = false → keep op = false → in_call h cell_o →
  occupancies (core op) !! Cell_index U = Some m →
  held_before (set_hold (set_core op (placed (core op) U (m + 1) cell_o)) h).
Proof.
  intros [(Hc & Hu & Hp) Hh] Ec Ex Hi Hk Ho Hm. split_and!; try done.
  split; simpl; try congruence.
  - by apply cells_placed.
  - exists (m + 1), cell_o. split_and!; [done|done|]. by apply (occ_le_fresh (core op) U (m + 1) m).
Qed.

Lemma held_explanation op key cause : held op → issued op = false →
  held (set_core op (fst (explanation (core op) key cause))).
Proof.
  intros H Hi. pose proof (he_cells _ H) as Hc. unfold explanation.
  destruct (place_cases (core op) X (Occupant.Explanation key cause) (ci_occ _ Hc))
    as [(m & Hm & ->)| ->]; simpl; [|by apply held_latch].
  apply held_core; auto; [by apply cells_placed|].
  intros n. apply (occ_le_insert (core op) X U (m + 1) m n Hm). lia.
Qed.

(** Classifying a gating record: only a conflict changes the core, by
    explaining it in X. *)
Lemma classify_gating k a m f e :
  let r := classify k a m f e true in
  (fst r = k ∨ (∃ cause, fst r = fst (explanation k (m_key m) cause)) ∧ snd r ≠ Verdict.Insert).
Proof.
  unfold classify, classify_constraint. repeat case_match; simpl; auto;
    right; (split; [by eexists|done]).
Qed.

Lemma classify_held op a m f e : held_before op →
  let r := classify (core op) a m f e true in
  held (set_core op (fst r)) ∧ (snd r = Verdict.Insert → held_before (set_core op (fst r))).
Proof.
  intros (H & Hi & Hk & Hx) r.
  assert (Hsame : fst r = core op → held_before (set_core op (fst r)))
    by (intros ->; by destruct op).
  destruct (classify_gating (core op) a m f e) as [E|[(cause & E) Hne]]; fold r in E |- *.
  - split; [by apply Hsame|auto].
  - split; [rewrite E; by apply held_explanation|]. intros Hr. done.
Qed.

Section Gating.
Context {σ : Type} `{!Txn σ}.

Lemma roll_back_held : triple (σ:=σ) held roll_back (λ _, held) held.
Proof. eapply triple_bind; [by apply triple_verb_held|intros a; apply rolled_held]. Qed.
Lemma roll_back_held_failed :
  triple (σ:=σ) (λ op, held_failed op ∧ keep op = false) roll_back
    (λ _ op, held_failed op ∧ keep op = false) held.
Proof.
  eapply triple_bind; [|intros a; apply rolled_held_failed].
  apply triple_verb_held. by intros op [(H & _ & _) _].
Qed.

(** A failed insert or commit: the phase, the rollback, and whether U is
    kept. *)
Lemma fail_and_keep {A} (keep_of : Persistence → bool) (a : Persistence → A) :
  triple (σ:=σ) held_issued
    (failed ;; p ← roll_back; modify (λ op, set_keep op (keep_of p)) ;; mret (a p))
    (λ _, held) held.
Proof.
  eapply triple_bind; [apply failed_held_issued|intros ?; cbv beta].
  eapply triple_bind; [apply roll_back_held_failed|intros p].
  eapply triple_bind; [apply keep_held|intros ?; cbv beta]. by apply triple_ret.
Qed.

Lemma gating_insert_held m : triple (σ:=σ) held_before (gating_insert m) (λ _, held) held.
Proof.
  unfold gating_insert, refused.
  apply (triple_bind _ _ (λ _, held_issued)).
  { apply triple_modify. intros op (H & Hi & Hk & Hx). split_and!; [|done|done].
    destruct H. split; simpl; auto. intros ?. simpl in *. congruence. }
  intros ?; cbv beta. eapply triple_bind; [apply triple_verb_held; by intros op (H & _)|intros r].
  assert (Hfail : ∀ reason, triple (σ:=σ) held_issued
    (failed ;; p ← roll_back; modify (λ op, set_keep op (bool_decide (p = Uncertain))) ;;
     mret (GatingOutcome.Refused p reason)) (λ _, held) held)
    by (intros reason; apply (fail_and_keep (λ p, bool_decide (p = Uncertain)))).
  destruct r as [seq| |].
  - eapply triple_bind; [apply triple_verb_held; by intros op (H & _)|intros r].
    destruct r; [apply triple_ret; by intros op (H & _)|].
    apply (fail_and_keep (λ _, true) (λ _, GatingOutcome.Refused Uncertain Reason.Storage)).
  - eapply triple_bind; [|intros reason; apply Hfail].
    apply (triple_bind _ _ (λ _, held_issued)); [by apply latch_op_issued|].
    intros ?; cbv beta. by apply triple_ret.
  - eapply triple_bind; [by apply (triple_ret _ _ (λ _, held_issued))|intros reason; apply Hfail].
Qed.

Lemma gating_body_held r :
  triple (σ:=σ) (λ op, held_before (set_hold op HGating)) (gating_body r) (λ _, held) held.
Proof.
  unfold gating_body. apply (triple_bind _ _ (λ _, held_before)); [by apply triple_modify|intros ?; cbv beta].
  eapply triple_bind; [apply triple_verb_held; by intros op (H & _)|intros o].
  assert (Hf : triple (σ:=σ) held_before
    (failed ;; refused NotWritten Reason.Storage) (λ _, held) held).
  { eapply triple_pre; [by intros op (H & _); exact H|].
    eapply triple_bind; [apply failed_held|intros ?; cbv beta]. by apply triple_ret. }
  destruct o; [|exact Hf|exact Hf]. cbv zeta.
  eapply triple_bind; [apply triple_verb_held; by intros op (H & _)|intros o].
  assert (Hr : ∀ b, triple (σ:=σ) held_before
    (read_failed b ;; roll_back ;; refused NotWritten Reason.Storage) (λ _, held) held).
  { intros b. eapply triple_pre; [by intros op (H & _); exact H|].
    eapply triple_bind; [apply read_failed_held|intros ?; cbv beta].
    eapply triple_bind; [apply roll_back_held|intros ?; cbv beta]. by apply triple_ret. }
  destruct o as [f| |]; [|apply Hr|apply Hr].
  apply (triple_bind _ _ (λ v op, held op ∧ (v = Verdict.Insert → held_before op))).
  { apply triple_on_core. intros op H. by apply classify_held. }
  assert (Hroll : ∀ o, triple (σ:=σ) held (roll_back ;; (mret o : M σ GatingOutcome.t))
    (λ _, held) held).
  { intros o. eapply triple_bind; [apply roll_back_held|intros ?; cbv beta]. by apply triple_ret. }
  intros v. destruct v.
  - eapply triple_pre; [|apply Hroll]. by intros op [H _].
  - eapply triple_pre; [|apply gating_insert_held]. intros op [_ H]. by apply H.
  - eapply triple_pre; [|apply Hroll]. by intros op [H _].
Qed.
End Gating.

(** ** Whole operations *)

Definition fresh (op : Publish) : Prop := free op ∧ issued op = false ∧ keep op = false.
Definition ended (op : Publish) : Prop := free op ∨ held op.

Lemma drop_free op : free op → core_inv (pub_core (drop_publish op)).
Proof.
  intros [H Hh]. unfold drop_publish, settle_unwound, settle_hold. simpl.
  destruct (done_ op); simpl; [by rewrite Hh|].
  destruct (is_Some_b (ticket op) && is_None_b (count op)); simpl; rewrite Hh; simpl;
    by apply inv_need_barrier.
Qed.

(** A held guard's U after the call: emptied, or kept with its exit. *)
Lemma settle_hold_inv op : held op → (keep op = true → x (core op) = None ∧ phase (core op) = NeedBarrier) →
  core_inv (settle_hold op).
Proof.
  intros [H1 (n & o & Hu & Ho & Hle) Hc Hi Hk Hp] Hkeep. unfold settle_hold.
  assert (Hne : hold op ≠ HNothing) by (intros E; rewrite E in Ho; by destruct o).
  rewrite bool_decide_false by done.
  destruct (keep op) eqn:Ek; simpl.
  - destruct (Hkeep eq_refl) as [Hx Hph]. rewrite Hu.
    destruct o as [rec e|set nonce| |]; try (destruct (hold op); done).
    + split; simpl.
      * by eapply cells_inv_same.
      * intros ? ? [= <- <-]. split_and!; [by case_match|done|done|done|congruence].
      * congruence.
    + split; [done| |congruence].
      intros ? ? E. rewrite Hu in E. simplify_eq. split_and!; [done|done|done|done|congruence].
  - apply idle_core_inv. split_and!; [by eapply cells_inv_same|done|done].
Qed.

Lemma drop_held op : held op → core_inv (pub_core (drop_publish op)).
Proof.
  intros H. unfold drop_publish. cbn [pub_core]. unfold settle_unwound.
  destruct (done_ op).
  - apply settle_hold_inv; [done|]. intros Hk. destruct H as [_ _ _ Hi Hkk _].
    destruct (Hkk Hk) as [? ?]. auto.
  - set (op1 := set_core op (set_phase (core op) NeedBarrier)).
    assert (H1 : held op1) by (by apply held_need_barrier).
    assert (Hfin : ∀ op2, core op2 = core op1 → hold op2 = hold op1 → issued op2 = issued op1 →
      core_inv (settle_hold (set_keep op2 (issued op2)))).
    { intros op2 E1 E2 E3. destruct H1 as [A1 A2 A3 A4 A5 A6].
      apply settle_hold_inv; [split|]; simpl; rewrite ?E1, ?E2, ?E3; auto. }
    destruct (is_Some_b (ticket op1) && is_None_b (count op1)); by apply Hfin.
Qed.

Lemma drop_ended op b : ended op → core_inv (pub_core (drop_publish (set_done op b))).
Proof.
  intros [[H Hh]|H]; [by apply drop_free|apply drop_held]. destruct H. by split.
Qed.

Lemma run_op_inv {σ A} k (body : M σ A) s :
  triple fresh body (λ _, ended) ended → core_inv k →
  core_inv (pub_core (snd (fst (run_op k body s)))).
Proof.
  intros Hb Hk. unfold run_op.
  assert (Hf : fresh (Publish_new k)) by (by split_and!; try split).
  specialize (Hb _ s Hf). destruct (body (Publish_new k) s) as [[[a|] op] s']; simpl.
  - by apply drop_ended.
  - pose proof (drop_ended op (done_ op) Hb) as H. by destruct op.
Qed.

(** A body that keeps the store's invariant at every step. *)
Lemma free_ended {σ A} (body : M σ A) : triple free body (λ _, free) free →
  triple fresh body (λ _, ended) ended.
Proof.
  intros H. eapply triple_pre; [by intros op (H' & _); exact H'|].
  eapply triple_post; [intros a op Hf; left; exact Hf|].
  eapply triple_unwind; [intros op Hf; left; exact Hf|]. done.
Qed.

(** The same, when the body first reads the core. *)
Lemma free_get_core {σ A} (f : Core → M σ A) :
  (∀ k, triple (λ op, free op ∧ core op = k) (f k) (λ _, free) free) →
  triple fresh (k ← get_core; f k) (λ _, ended) ended.
Proof.
  intros H. apply free_ended. eapply triple_bind; [apply triple_get_core|exact H].
Qed.

Lemma triple_free_ret {σ A} k (a : A) :
  triple (λ op, free op ∧ core op = k) (mret a : M σ A) (λ _, free) free.
Proof. apply triple_ret. by intros op [H _]. Qed.

(** Drops the knowledge of which core was read. *)
Lemma free_forget {σ A} k (m : M σ A) : preserves free m →
  triple (λ op, free op ∧ core op = k) m (λ _, free) free.
Proof. intros H. eapply triple_pre; [by intros op [Hf _]; exact Hf|]. done. Qed.

Section FreeUpdates.
Context {σ : Type}.
Lemma failed_free : preserves (σ:=σ) free failed.
Proof. apply preserves_put_core. intros op [H Hh]. split; [by apply inv_need_barrier|done]. Qed.
Lemma latch_op_free l : l ≠ LatchCause.CellInvariant → preserves (σ:=σ) free (latch_op l).
Proof. intros Hl. apply preserves_put_core. intros op [H Hh]. split; [by apply inv_latch|done]. Qed.
Lemma read_failed_free b : preserves (σ:=σ) free (read_failed b).
Proof.
  unfold read_failed. apply preserves_bind; [apply failed_free|intros _].
  destruct b; [by apply latch_op_free|apply preserves_ret].
Qed.
Lemma rolled_free a : preserves (σ:=σ) free (rolled a).
Proof. unfold rolled. destruct a; preserve. apply failed_free. Qed.
End FreeUpdates.

(** *** Gating and acknowledgements *)

(** The entry tests of a call that takes hold of U, then its body. *)
Lemma hold_ended {σ A} k (h : Hold) (o : Occupant.t) (refuse_ : A) (body : M σ A) :
  h ≠ HNothing → in_call h o →
  phase k = Healthy → c k = None → x k = None →
  triple (λ op, held_before (set_hold op h)) body (λ _, held) held →
  triple (λ op, fresh op ∧ core op = k)
    (placed ← on_core (λ k, place k U o); if negb placed then mret refuse_ else body)
    (λ _, ended) ended.
Proof.
  intros Hne Ho Hp Hc Hx Hb.
  apply (triple_bind _ _ (λ (b : bool) op, if b then held_before (set_hold op h) else free op)).
  - apply triple_on_core. intros op (((Hi & Hh) & Hiss & Hk) & E). subst k.
    pose proof (healthy_idle _ Hi Hp) as Hid.
    destruct (place_cases (core op) U o (ci_occ _ (inv_cells _ Hi))) as [(m & Hm & ->)| ->]; simpl.
    + by apply hold_u.
    + split; [by apply inv_latch|done].
  - intros [|]; simpl.
    + eapply triple_post; [|eapply triple_unwind; [|exact Hb]]; intros; by right.
    + apply triple_ret. intros op H. by left.
Qed.

Lemma fresh_ret {σ A} k (a : A) :
  triple (λ op, fresh op ∧ core op = k) (mret a : M σ A) (λ _, ended) ended.
Proof. apply triple_ret. intros op [(H & _) _]. by left. Qed.

(** U is never occupied when the store is healthy, so the test for a broken
    cell never fires. *)
Lemma unreachable_u {σ A} k (m : M σ A) Q E : phase k = Healthy → is_Some_b (u k) = true →
  triple (λ op, fresh op ∧ core op = k) m Q E.
Proof.
  intros Hp Hu op s [((Hi & _) & _) Ek]. exfalso. subst k.
  destruct (healthy_idle _ Hi Hp) as (_ & Hn & _). by rewrite Hn in Hu.
Qed.

Lemma gating_ended {σ} `{!Txn σ} r : triple (σ:=σ) fresh (gating r) (λ _, ended) ended.
Proof.
  unfold gating, gating_entry, refused. eapply triple_bind; [apply triple_get_core|intros k].
  case_bool_decide; [|apply fresh_ret]. cbn [negb].
  destruct (is_Some_b (latch k)); [apply fresh_ret|].
  case_bool_decide; [|apply fresh_ret]. cbn [negb].
  destruct (c k) as [?|] eqn:Hc; [apply fresh_ret|].
  destruct (x k) as [?|] eqn:Hx; [apply fresh_ret|]. cbn [is_Some_b orb].
  destruct (is_Some_b (u k)) eqn:Hu; [by apply unreachable_u|].
  by apply (hold_ended k HGating); [..|apply gating_body_held].
Qed.

Section AckProofs.
Context {σ : Type} `{!AckTxn σ}.

Lemma ack_roll_back_held : triple (σ:=σ) held ack_roll_back (λ _, held) held.
Proof. eapply triple_bind; [by apply triple_verb_held|intros a; apply rolled_held]. Qed.
Lemma ack_roll_back_failed :
  triple (σ:=σ) (λ op, held_failed op ∧ keep op = false) ack_roll_back
    (λ _ op, held_failed op ∧ keep op = false) held.
Proof.
  eapply triple_bind; [|intros a; apply rolled_held_failed].
  apply triple_verb_held. by intros op [(H & _ & _) _].
Qed.

Lemma ack_fail_and_keep (keep_of : Persistence → bool) (a : Persistence → AckOutcome.t) :
  triple (σ:=σ) held_issued
    (failed ;; p ← ack_roll_back; modify (λ op, set_keep op (keep_of p)) ;; mret (a p))
    (λ _, held) held.
Proof.
  eapply triple_bind; [apply failed_held_issued|intros ?; cbv beta].
  eapply triple_bind; [apply ack_roll_back_failed|intros p].
  eapply triple_bind; [apply keep_held|intros ?; cbv beta]. by apply triple_ret.
Qed.

Lemma ack_apply_held snap : triple (σ:=σ) held_before (ack_apply snap) (λ _, held) held.
Proof.
  unfold ack_apply. cbv zeta. apply (triple_bind _ _ (λ _, held_issued)).
  { apply triple_modify. intros op (H & Hi & Hk & Hx). split_and!; [|done|done].
    destruct H. split; simpl; auto. intros ?. simpl in *. congruence. }
  intros ?; cbv beta. eapply triple_bind; [apply triple_verb_held; by intros op (H & _)|intros r].
  destruct r as [seq| |].
  - eapply triple_bind; [apply triple_verb_held; by intros op (H & _)|intros r].
    destruct r; [|apply (ack_fail_and_keep (λ _, true) (λ _, AckOutcome.NotApplied Uncertain))].
    apply (triple_bind _ _ (λ _, held)); [|intros ?; by apply triple_ret].
    apply triple_modify. intros op (H & Hi & Hk). case_match.
    + apply held_core; auto. eapply cells_inv_same; [apply (he_cells _ H)|done..].
    + by destruct op.
  - eapply triple_bind; [by apply latch_op_issued|intros ?; cbv beta].
    apply (ack_fail_and_keep (λ p, bool_decide (p = Uncertain))).
  - eapply triple_bind; [by apply (triple_ret _ _ (λ _, held_issued))|intros ?; cbv beta].
    apply (ack_fail_and_keep (λ p, bool_decide (p = Uncertain))).
Qed.

Lemma ack_body_held snap :
  triple (σ:=σ) (λ op, held_before (set_hold op HAcknowledgement)) (ack_body snap)
    (λ _, held) held.
Proof.
  unfold ack_body. cbv zeta.
  apply (triple_bind _ _ (λ _, held_before)); [by apply triple_modify|intros ?; cbv beta].
  eapply triple_bind; [apply triple_verb_held; by intros op (H & _)|intros o].
  assert (Hf : triple (σ:=σ) held_before
    (failed ;; mret (AckOutcome.NotApplied NotWritten)) (λ _, held) held).
  { eapply triple_pre; [by intros op (H & _); exact H|].
    eapply triple_bind; [apply failed_held|intros ?; cbv beta]. by apply triple_ret. }
  destruct o; [|exact Hf|exact Hf].
  eapply triple_bind; [apply triple_verb_held; by intros op (H & _)|intros o].
  assert (Hr : ∀ b, triple (σ:=σ) held_before
    (read_failed b ;; ack_roll_back ;; mret (AckOutcome.NotApplied NotWritten)) (λ _, held) held).
  { intros b. eapply triple_pre; [by intros op (H & _); exact H|].
    eapply triple_bind; [apply read_failed_held|intros ?; cbv beta].
    eapply triple_bind; [apply ack_roll_back_held|intros ?; cbv beta]. by apply triple_ret. }
  destruct o as [now| |]; [|apply Hr|apply Hr].
  destruct (ack_refusal (snap_set snap) now); [|apply ack_apply_held].
  eapply triple_pre; [by intros op (H & _); exact H|].
  eapply triple_bind; [apply ack_roll_back_held|intros ?; cbv beta]. by apply triple_ret.
Qed.

Lemma acknowledgement_ended snap :
  triple (σ:=σ) fresh (acknowledgement snap) (λ _, ended) ended.
Proof.
  unfold acknowledgement. cbv zeta. eapply triple_bind; [apply triple_get_core|intros k].
  destruct (snap_ledger snap =? shared k); [|apply fresh_ret]. cbn [negb].
  case_bool_decide; [|apply fresh_ret]. cbn [negb].
  destruct (is_Some_b (latch k)); [apply fresh_ret|].
  case_bool_decide; [|apply fresh_ret]. cbn [negb].
  destruct (c k) as [?|] eqn:Hc; [apply fresh_ret|].
  destruct (x k) as [?|] eqn:Hx; [apply fresh_ret|]. cbn [is_Some_b orb].
  destruct (is_Some_b (u k)) eqn:Hu; [by apply unreachable_u|].
  by apply (hold_ended k HAcknowledgement); [..|apply ack_body_held].
Qed.

Lemma snapshot_ended nonce : triple (σ:=σ) fresh (snapshot_ nonce) (λ _, ended) ended.
Proof.
  unfold snapshot_. apply free_get_core. intros k. apply free_forget.
  pose proof (read_failed_free (σ:=σ)). preserve; auto.
Qed.
End AckProofs.

(** *** Reads, the barrier, the cells and the session *)

Lemma free_core op k : free op → core_inv k → free (set_core op k).
Proof. intros [_ Hh] H. by split. Qed.

Section ReadProofs.
Context {σ : Type} `{!Reads σ}.

Lemma lookup_conflict_free key row : preserves (σ:=σ) free (lookup_conflict key row).
Proof.
  unfold lookup_conflict. apply preserves_bind; [apply preserves_get_core|intros k].
  destruct (known k key None); [apply preserves_ret|].
  apply preserves_bind; [apply preserves_verb|intros r].
  destruct r as [[seq|]| |]; [apply preserves_ret| | |].
  - eapply triple_bind; [apply triple_get_core|intros k'].
    destruct (table_full k') eqn:Hfull.
    { apply free_forget. apply preserves_bind; [by apply latch_op_free|intros; apply preserves_ret]. }
    cbv zeta. apply (triple_bind _ _ (λ _, free)); [|intros ?; by apply triple_ret].
    apply triple_modify. intros op [[H Hh] <-]. split; [|done].
    apply inv_refusals; [done|]. apply cells_refusals_insert; [apply H|done].
  - apply preserves_bind; [apply failed_free|intros; apply preserves_ret].
  - apply preserves_bind; [by apply latch_op_free|intros; apply preserves_ret].
Qed.

Lemma lookup_ended key : triple (σ:=σ) fresh (lookup_ key) (λ _, ended) ended.
Proof.
  unfold lookup_. apply free_get_core. intros k. apply free_forget.
  preserve; auto using lookup_conflict_free, failed_free; by apply latch_op_free.
Qed.

Lemma explain_ended key : triple (σ:=σ) fresh (explain_ key) (λ _, ended) ended.
Proof.
  pose proof (read_failed_free (σ:=σ)) as Hr. unfold explain_. apply free_get_core. intros k.
  case_bool_decide; [|apply triple_free_ret]. cbn [negb].
  destruct (is_Some_b (latch k)); [apply triple_free_ret|].
  case_bool_decide as Hp; [|apply triple_free_ret]. cbn [negb].
  apply (triple_pre _ idle).
  { intros op [[Hi Hh] E]. split; [|done]. apply healthy_idle; [done|congruence]. }
  eapply triple_bind; [eapply triple_unwind; [apply idle_free|apply triple_verb]|intros o].
  destruct o as [[seq|]| |].
  - eapply triple_pre; [apply idle_free|]. apply (preserves_bind free); [|intros; apply preserves_ret].
    apply preserves_put_core. intros op Hop. apply free_core; [done|].
    apply inv_refusals; [apply Hop|]. apply cells_refusals_delete. apply Hop.
  - apply (triple_unwind _ _ idle); [apply idle_free|].
    eapply triple_post; [intros a op; apply idle_free|].
    unfold explain_missing. match goal with |- triple idle ?m _ _ => change (preserves idle m) end.
    preserve; try done.
    match goal with H : idle _ |- _ => destruct H as [Hid Hh] end.
    split; [by apply idle_explanation|done].
  - eapply triple_pre; [apply idle_free|]. apply (preserves_bind free); [apply Hr|].
    intros. apply preserves_ret.
  - eapply triple_pre; [apply idle_free|]. apply (preserves_bind free); [apply Hr|].
    intros. apply preserves_ret.
Qed.

(** Emptying U once the store knows what became of its occupant. *)
Lemma resolved_free r : triple (σ:=σ) (λ op, cells_inv (core op) ∧ hold op = HNothing)
  (resolved r) (λ _, free) free.
Proof.
  unfold resolved. apply (triple_bind _ _ (λ _, free)); [|intros ?; by apply triple_ret].
  apply triple_modify. intros op [H Hh]. split; [|done]. apply idle_core_inv.
  split_and!; [by eapply cells_inv_same|done|done].
Qed.

Lemma place_token_cells cell o : cell ≠ U → cell_occupant cell o →
  triple (σ:=σ) free (place_token cell o)
    (λ t op, match t with
             | Some _ => cells_inv (core op) ∧ hold op = HNothing
             | None => free op
             end) free.
Proof.
  intros Hcell Ho. unfold place_token.
  apply (triple_bind _ _ (λ (b : bool) op,
    if b then cells_inv (core op) ∧ hold op = HNothing ∧ is_Some (occupancy (core op) cell)
    else free op)).
  - apply triple_on_core. intros op [H Hh].
    destruct (place_cases (core op) cell o (ci_occ _ (inv_cells _ H))) as [(m & Hm & ->)| ->]; simpl.
    + split_and!; [by apply cells_placed; [apply H| |]|done|].
      by destruct cell; simpl; eexists.
    + split; [by apply inv_latch|done].
  - intros [|]; cbn [negb].
    + eapply triple_bind; [apply triple_get_core|intros k]. apply triple_ret.
      intros op [(H & Hh & [n Hn]) <-]. rewrite Hn. simpl. done.
    + by apply triple_ret.
Qed.

Lemma place_resolved cell o (f : CellToken → Resolve.t) e : cell ≠ U → cell_occupant cell o →
  triple (σ:=σ) free
    (tok ← place_token cell o;
     match tok with Some tok => resolved (f tok) | None => mret e end) (λ _, free) free.
Proof.
  intros Hcell Ho. eapply triple_bind; [by apply place_token_cells|intros tok].
  destruct tok; [apply resolved_free|by apply triple_ret].
Qed.

Lemma free_resolved r : triple (σ:=σ) free (resolved r) (λ _, free) free.
Proof. eapply triple_pre; [|apply resolved_free]. intros op [H Hh]. split; [apply H|done]. Qed.

Lemma resolve_gating_free record exit : exit ≠ InCall →
  triple (σ:=σ) free (resolve_gating record exit) (λ _, free) free.
Proof.
  intros He. unfold resolve_gating. cbv zeta.
  eapply triple_bind; [apply triple_verb|intros r].
  destruct r as [[row|]| |].
  - case_bool_decide.
    + apply (place_resolved C _ Resolve.Corrected); [done|done].
    + apply (place_resolved X _ Resolve.ConflictPlaced); [done|done].
  - apply free_resolved.
  - apply (preserves_bind free); [apply failed_free|intros; apply preserves_ret].
  - apply (preserves_bind free); [by apply latch_op_free|intros; apply preserves_ret].
Qed.

Lemma resolve_ack_free set nonce :
  triple (σ:=σ) free (resolve_ack set nonce) (λ _, free) free.
Proof.
  pose proof (failed_free (σ:=σ)) as Hf.
  assert (Hl : ∀ l, l ≠ LatchCause.CellInvariant → preserves (σ:=σ) free (latch_op l))
    by apply latch_op_free.
  assert (Hres : ∀ r, preserves (σ:=σ) free (resolved r)) by apply free_resolved.
  unfold resolve_ack. match goal with |- triple free ?m _ _ => change (preserves free m) end.
  unfold raise_frontier. preserve; auto.
  match goal with H : free ?o |- _ => rename o into op; rename H into Hop end.
  destruct (frontier (core op) <? sf_top set); [|by destruct op].
  apply free_core; [done|]. destruct Hop as [[Hc Hu Hr] _]. split; [by eapply cells_inv_same|done|done].
Qed.

Lemma resolve_ended w tok : triple (σ:=σ) fresh (resolve_ w tok) (λ _, ended) ended.
Proof.
  unfold resolve_. apply free_get_core. intros k.
  destruct (worker_belongs k w); [|apply triple_free_ret]. cbn [negb].
  destruct (names k tok U) eqn:Hn; [|apply triple_free_ret]. cbn [negb].
  case_bool_decide; [|apply triple_free_ret]. cbn [negb].
  destruct (is_Some_b (latch k)); [apply triple_free_ret|].
  case_bool_decide as Hp; [|apply triple_free_ret]. cbn [negb]. cbv zeta.
  unfold names, occupancy in Hn. breflect.
  destruct (u k) as [[n o]|] eqn:Hu; [|done]. cbn [fmap option_fmap option_map snd].
  intros op s [[Hi Hh] E]. subst k.
  destruct (inv_u _ Hi n o Hu) as (Ho & _ & Hc & Hx & _). rewrite Hc, Hx. cbn [is_None_b negb is_Some_b andb].
  destruct o as [record exit|set nonce| |]; try done.
  - rewrite bool_decide_false by done. cbn [negb]. apply resolve_gating_free; [done|by split].
  - apply resolve_ack_free. by split.
Qed.
End ReadProofs.

Lemma barrier_ended {σ} `{!BarrierRun σ} w : triple (σ:=σ) fresh (barrier_ w) (λ _, ended) ended.
Proof.
  unfold barrier_. apply free_get_core. intros k. apply free_forget. preserve; try done.
  match goal with H : free ?o |- _ => rename o into op; destruct H as [[Hc Hu Hr] Hh] end.
  split; [|done]. split; simpl.
  - by eapply cells_inv_same.
  - intros n o E. rewrite E. by apply Hu in E as (? & ? & ? & ? & _).
  - destruct (u (core op)); simpl; [by eexists|done].
Qed.

Lemma idle_settle k cell seq : idle_core k → idle_core (settle_cell k cell seq).
Proof.
  intros (Hc & Hu & Hp). split; [by apply cells_settle|].
  unfold settle_cell. repeat case_match; done.
Qed.

(** Closes the updates left by [preserve] for an idle guard. *)
Ltac idle_done :=
  first
    [ apply failed_idle | apply rolled_idle | apply read_failed_idle | by apply latch_op_idle
    | match goal with
      | H : idle _ |- idle _ => destruct H as [? ?]; split; [by apply idle_settle|done]
      end
    | done ].

Lemma cell_apply_idle {σ} `{!CellTxn σ} cell o : preserves (σ:=σ) idle (cell_apply cell o).
Proof.
  unfold cell_apply, cell_roll_back. apply preserves_bind; [by apply preserves_modify|].
  intros _. apply preserves_bind; [apply preserves_verb|intros r].
  destruct r; repeat (apply preserves_bind; [|intros ?]); preserve; idle_done.
Qed.

Lemma cell_body_idle {σ} `{!CellTxn σ} cell o : preserves (σ:=σ) idle (cell_body cell o).
Proof.
  pose proof (cell_apply_idle (σ:=σ) cell o) as Ha.
  unfold cell_body, cell_roll_back. apply preserves_bind; [apply preserves_verb|].
  intros r. destruct r.
  - apply preserves_bind; [apply preserves_verb|intros r]. destruct r as [[seq|]| |]; [|exact Ha|..];
      repeat (apply preserves_bind; [|intros ?]); preserve; idle_done.
  - apply preserves_bind; [idle_done|intros ?; apply preserves_ret].
  - apply preserves_bind; [idle_done|intros ?; apply preserves_ret].
Qed.

Lemma cell_ended {σ} `{!CellTxn σ} w tok : triple (σ:=σ) fresh (cell_ w tok) (λ _, ended) ended.
Proof.
  unfold cell_. apply free_get_core. intros k.
  destruct (worker_belongs k w); [|apply triple_free_ret]. cbn [negb].
  destruct (names k tok C || names k tok X) eqn:Hn; [|apply triple_free_ret]. cbn [negb].
  case_bool_decide; [|apply triple_free_ret]. cbn [negb].
  destruct (is_Some_b (latch k)); [apply triple_free_ret|].
  case_bool_decide as Hp; [|apply triple_free_ret]. cbn [negb]. cbv zeta.
  assert (Hgo : ∀ cell o, triple (σ:=σ) (λ op, free op ∧ core op = k) (cell_body cell o)
    (λ _, free) free).
  { intros cell o. apply (triple_pre _ idle).
    { intros op [[Hi Hh] E]. split; [|done]. apply healthy_idle; [done|congruence]. }
    eapply triple_post; [intros a op; apply idle_free|].
    eapply triple_unwind; [apply idle_free|]. apply cell_body_idle. }
  unfold names, occupancy in Hn. apply orb_true_iff in Hn as [Hn|Hn]; breflect.
  - replace (tok_cell tok) with C by done. destruct (c k) as [[n o]|]; [apply Hgo|done].
  - replace (tok_cell tok) with X by done. destruct (x k) as [[[n o] [|seq]]|]; [apply Hgo| |done].
    apply triple_free_ret.
Qed.

Lemma empty_ended {σ} w tok : triple (σ:=σ) fresh (empty_ w tok) (λ _, ended) ended.
Proof.
  unfold empty_. apply free_get_core. intros k. apply free_forget. preserve; try done.
  match goal with H : free ?o |- _ => rename o into op; destruct H as [[Hc Hu Hr] Hh] end.
  split; [|done]. split; simpl; [|intros n o' E; by apply Hu in E as (? & ? & ? & ? & ?)|done].
  destruct Hc. by split.
Qed.

Lemma session_opened_ended {σ} : triple (σ:=σ) fresh session_opened_ (λ _, ended) ended.
Proof.
  unfold session_opened_. apply free_get_core. intros k. apply free_forget. cbv zeta. preserve; try done.
  match goal with H : free ?o |- _ => rename o into op; destruct H as [[Hc Hu Hr] Hh] end.
  split; [|done]. split; simpl; [by eapply cells_inv_same|done|done].
Qed.

Lemma session_sealed_ended {σ} : triple (σ:=σ) fresh session_sealed_ (λ _, ended) ended.
Proof.
  unfold session_sealed_. apply free_get_core. intros k. apply free_forget. cbv zeta. preserve; try done.
  match goal with H : free ?o |- _ => rename o into op; destruct H as [[Hc Hu Hr] Hh] end.
  split; [|done]. split; simpl; [by eapply cells_inv_same|done|done].
Qed.

(** ** The store and its threads *)

(** One store operation, with any storage and any answers: the core before it
    and what its guard publishes. *)
Inductive store_op (k : Core) : Published → Prop :=
| so_facts σ `{!Txn σ} t batch (s : σ) : store_op k (snd (fst (append_facts k t batch s)))
| so_gating σ `{!Txn σ} r (s : σ) : store_op k (snd (fst (append_gating k r s)))
| so_lookup σ `{!Reads σ} key (s : σ) : store_op k (snd (fst (lookup k key s)))
| so_explain σ `{!Reads σ} key (s : σ) : store_op k (snd (fst (explain k key s)))
| so_snapshot σ `{!AckTxn σ} nonce (s : σ) : store_op k (snd (fst (snapshot k nonce s)))
| so_ack σ `{!AckTxn σ} snap (s : σ) : store_op k (snd (fst (append_acknowledgement k snap s)))
| so_barrier σ `{!BarrierRun σ} w (s : σ) : store_op k (snd (fst (barrier k w s)))
| so_resolve σ `{!Reads σ} w tok (s : σ) : store_op k (snd (fst (resolve k w tok s)))
| so_cell σ `{!CellTxn σ} w tok (s : σ) : store_op k (snd (fst (append_cell k w tok s)))
| so_empty w tok : store_op k (snd (fst (empty k w tok tt)))
| so_opened : store_op k (snd (fst (session_opened k tt)))
| so_sealed : store_op k (snd (fst (session_sealed k tt))).

Lemma store_op_inv k p : store_op k p → core_inv k → core_inv (pub_core p).
Proof.
  intros H Hi. destruct H; apply run_op_inv; try done.
  - apply free_ended, facts_free.
  - apply gating_ended.
  - apply lookup_ended.
  - apply explain_ended.
  - apply snapshot_ended.
  - apply acknowledgement_ended.
  - apply barrier_ended.
  - apply resolve_ended.
  - apply cell_ended.
  - apply empty_ended.
  - apply session_opened_ended.
  - apply session_sealed_ended.
Qed.

(** A body that reads the core first, from a guard ahead of it. *)
Lemma run_op_reads {σ A} k (f : Core → M σ A) (s : σ) :
  triple (λ op, core op = k) (f k) (λ _, ahead k) (ahead k) →
  core_le k (pub_core (snd (fst (run_op k (k' ← get_core; f k') s)))).
Proof.
  intros Hf. specialize (Hf (Publish_new k) s eq_refl). unfold run_op, mbind, M_bind, get_core.
  cbn [core Publish_new].
  destruct (f k (Publish_new k) s) as [[[a|] op] s']; cbn [fst snd]; by apply drop_ahead.
Qed.

Lemma put_session_ahead {σ A} k (b : bool) s (a : A) :
  (b = true → session_le (session k) s) →
  triple (σ:=σ) (λ op, core op = k)
    ((if b then put_core (λ k, set_session k s) else mret tt) ;; mret a) (λ _, ahead k) (ahead k).
Proof.
  intros Hs op st <-. destruct b.
  - split; simpl; try done; [by apply Hs|apply occ_same_fresh; occ_same].
  - change (core_le (core op) (core op)). reflexivity.
Qed.

Lemma session_opened_ahead k :
  core_le k (pub_core (snd (fst (session_opened (σ:=unit) k tt)))).
Proof.
  unfold session_opened, session_opened_. apply run_op_reads, put_session_ahead.
  intros Hb. apply bool_decide_eq_true in Hb. by rewrite Hb.
Qed.

Lemma session_sealed_ahead k :
  core_le k (pub_core (snd (fst (session_sealed (σ:=unit) k tt)))).
Proof.
  unfold session_sealed, session_sealed_. apply run_op_reads, put_session_ahead.
  intros Hb. rewrite !andb_true_iff, bool_decide_eq_true in Hb. destruct Hb as [[[[[Hb _] _] _] _] _].
  by rewrite Hb.
Qed.

Lemma store_op_ahead k p : store_op k p → core_le k (pub_core p).
Proof.
  intros H. destruct H; try apply session_opened_ahead; try apply session_sealed_ahead; apply run_op_ahead.
  - apply facts_ahead.
  - apply gating_ahead.
  - apply lookup_ahead.
  - apply explain_ahead.
  - apply snapshot_ahead.
  - apply acknowledgement_ahead.
  - apply barrier_ahead.
  - apply resolve_ahead.
  - apply cell_ahead.
  - apply empty_ahead.
Qed.

(** The core, the word and the tickets. A store operation publishes in one
    exchange at its end; between operations, and during them, other threads
    use their tickets. *)
Inductive sys_step (limit : Z) : Core * world → Core * world → Prop :=
| sy_ticket k w w' : tstep limit w w' → sys_step limit (k, w) (k, w')
| sy_worker k w : sys_step limit (k, w) (fst (take_worker k), w)
| sy_store k p w ts n :
    store_op k p → pub_counted p = false →
    sys_step limit (k, MkWorld w ts n) (pub_core p, MkWorld (published_word p w) ts n)
| sy_counted k p w l1 c l2 n :
    store_op k p → pub_counted p = true → ticket_counted <$> pub_ticket p = Some (Some c) →
    sys_step limit (k, MkWorld w (l1 ++ Armed :: l2) n)
      (pub_core p, MkWorld (published_word p w) (l1 ++ TCounted c :: l2) n).

Definition sys_reachable (address : Z) (limits : Limits) : Core * world → Prop :=
  rtc (sys_step (ticket_limit limits)) (Core_new address limits, world_new).

Lemma ticket_limit_range limits : 1 ≤ ticket_limit limits ≤ TICKET_LIMIT_MAX.
Proof. unfold ticket_limit, TICKET_LIMIT_MAX. lia. Qed.

Lemma core_new_inv address limits : core_inv (Core_new address limits).
Proof.
  apply idle_core_inv. split_and!; [|done|done].
  split; simpl; try done. rewrite map_size_empty. lia.
Qed.

Lemma flags_flags_ok k : flags_ok (flags k).
Proof.
  unfold flags_ok, flags.
  destruct (phase k), (session k), (is_Some_b (latch k)), (is_Some_b (u k)), (is_Some_b (c k)),
    (is_Some_b (x k)); vm_compute; by split_and!.
Qed.

Lemma run_op_flags {σ A} k (body : M σ A) (s : σ) :
  pub_flags (snd (fst (run_op k body s))) = flags (pub_core (snd (fst (run_op k body s)))).
Proof. unfold run_op. by destruct (body _ s) as [[[a|] op] s']. Qed.

Lemma store_op_flags k p : store_op k p → pub_flags p = flags (pub_core p).
Proof.
  intros H. destruct H; apply run_op_flags.
Qed.

Record sys_ok (limit : Z) (kw : Core * world) : Prop := {
  so_core : core_inv (fst kw);
  so_world : accounted limit (snd kw);
  so_shows : shows (flags (fst kw)) (w_word (snd kw));
}.

Lemma sys_step_ok limit kw kw' : 1 ≤ limit ≤ TICKET_LIMIT_MAX →
  sys_ok limit kw → sys_step limit kw kw' → sys_ok limit kw'.
Proof.
  intros Hl [Hc Hw Hs] Hstep.
  destruct Hstep as [k w w' Ht|k w|k p w ts n Hop Hcnt|k p w l1 c l2 n Hop Hcnt Htk]; simpl in *.
  - split; simpl; [done|by eapply accounted_step; [..|apply ws_ticket]|].
    eapply shows_tstep; [done|apply (ac_word _ _ Hw)|done|done].
  - unfold take_worker. destruct (worker_taken k); split; try done. simpl.
    destruct Hc as [Hc Hu Hr]. split; [by eapply cells_inv_same|done|done].
  - pose proof (store_op_flags _ _ Hop) as Hf. pose proof (flags_flags_ok (pub_core p)) as Hfo.
    unfold published_word. rewrite Hcnt, Hf.
    split; simpl; [by eapply store_op_inv| |].
    + eapply accounted_step; [done|exact Hw|]. by apply ws_publish.
    + exact (shows_publish _ false _ (ac_word _ _ Hw) Hfo).
  - pose proof (store_op_flags _ _ Hop) as Hf. pose proof (flags_flags_ok (pub_core p)) as Hfo.
    unfold published_word. rewrite Hcnt, Hf.
    split; simpl; [by eapply store_op_inv| |].
    + eapply accounted_step; [done|exact Hw|]. by apply ws_publish_counted.
    + exact (shows_publish _ true _ (ac_word _ _ Hw) Hfo).
Qed.

Lemma sys_reachable_ok address limits kw :
  sys_reachable address limits kw → sys_ok (ticket_limit limits) kw.
Proof.
  intros Hr. pose proof (ticket_limit_range limits) as Hl.
  assert (Hi : sys_ok (ticket_limit limits) (Core_new address limits, world_new)).
  { split; simpl; [apply core_new_inv|apply (accounted_reachable _ Hl); apply rtc_refl|].
    intros i Hi Hne. done. }
  unfold sys_reachable in Hr. induction Hr; eauto using sys_step_ok.
Qed.
