(* ===== verification/LedgerStore.v ===== *)
(** * The ledger's store: what its threads can rely on

    The claims about [ledger/protocol.rs] as a system: a core behind its lock,
    the shared word, and tickets used on any thread, for any storage and any
    interleaving. *)

From S2P Require Import Prelude LedgerWord LedgerCore LedgerProps.

Local Open Scope Z_scope.

(** ** Histories *)

(** Any number of steps of the store and its threads. *)
Definition history (limit : Z) : relation (Core * world) := rtc (sys_step limit).

Lemma sys_step_le limit kw kw' : sys_step limit kw kw' → core_le (fst kw) (fst kw').
Proof.
  intros []; simpl; [reflexivity| |by apply store_op_ahead..].
  unfold take_worker. destruct (worker_taken k); simpl; [reflexivity|le_same].
Qed.

Lemma sys_steps_le limit kw kw' : rtc (sys_step limit) kw kw' → core_le (fst kw) (fst kw').
Proof.
  induction 1 as [|kw1 kw2 kw3 H12 _ IH]; [reflexivity|].
  etrans; [by eapply sys_step_le|done].
Qed.

Lemma sys_reachable_le address limits kw :
  sys_reachable address limits kw → core_le (Core_new address limits) (fst kw).
Proof. apply (sys_steps_le _ (_, _)). Qed.

Lemma names_spec k tok cell : names k tok cell = true ↔
  tok_ledger tok = shared k ∧ tok_cell tok = cell ∧ occupancy k cell = Some (tok_occupancy tok).
Proof.
  unfold names. rewrite !andb_true_iff, Z.eqb_eq, !bool_decide_eq_true. tauto.
Qed.

Lemma inv_occupancy k cell n : core_inv k → occupancy k cell = Some n → occ_le k cell n.
Proof.
  intros [[_ Hc Hx _ _] Hu _]. destruct cell; simpl.
  - destruct (u k) as [[n' o]|] eqn:E; intros; simplify_eq/=. by apply (Hu _ _ eq_refl).
  - destruct (c k) as [[n' o]|] eqn:E; intros; simplify_eq/=. by apply (Hc _ _ eq_refl).
  - destruct (x k) as [[[n' o] st]|] eqn:E; intros; simplify_eq/=. by apply (Hx _ _ _ eq_refl).
Qed.

(** A number once below the counter is never given again. *)
Lemma occupancy_spent k k' k'' cell n :
  core_inv k → core_le k k' → core_le k' k'' → occupancy k cell = Some n →
  occupancy k' cell ≠ Some n → occupancy k'' cell ≠ Some n.
Proof.
  intros Hi Hle Hle' Hn Hn' Hn''. destruct (inv_occupancy _ _ _ Hi Hn) as (m & Hm & Hnm).
  destruct (cl_fresh _ _ Hle' _ _ Hn'') as [?|(m' & Hm' & Hlt)]; [done|].
  destruct (Forall2_lookup_l _ _ _ _ _ (cl_occupancies _ _ Hle) Hm) as (m2 & Hm2 & ?).
  simplify_eq. lia.
Qed.

(** ** What the word shows *)

Lemma shows_land flags w m : shows flags w → 0 ≤ m < 2 ^ 16 → Z.testbit m 8 = false →
  Z.land w m = Z.land flags m.
Proof.
  intros H Hm H8. apply Z.bits_inj'. intros i Hi. rewrite !Z.land_spec.
  destruct (decide (i = 8)) as [->|Hne]; [by rewrite H8, !andb_false_r|].
  destruct (decide (i < 16)) as [Hlt|Hge]; [by rewrite H by lia|].
  rewrite (high_bits m 16 i) by lia. by rewrite !andb_false_r.
Qed.

Record view_of (k : Core) (v : HealthView) : Prop := {
  vo_phase : hv_phase v = phase k;
  vo_session : hv_session v = session k;
  vo_latched : hv_latched v = is_Some_b (latch k);
  vo_u : hv_u_occupied v = is_Some_b (u k);
  vo_c : hv_c_occupied v = is_Some_b (c k);
  vo_x : hv_x_occupied v = is_Some_b (x k);
}.

Lemma shows_view k w : shows (flags k) w → view_of k (MkHealthView w).
Proof.
  intros H.
  split; unfold hv_phase, hv_session, hv_latched, hv_u_occupied, hv_c_occupied, hv_x_occupied;
    cbn [hv_word]; rewrite (shows_land (flags k) w) by (done || (split; vm_compute; congruence)); unfold flags;
    destruct (phase k), (session k), (is_Some_b (latch k)), (is_Some_b (u k)), (is_Some_b (c k)),
      (is_Some_b (x k)); vm_compute; done.
Qed.

(** A word whose flag bits are exactly an open session's. *)
Definition clear (k : Core) : Prop :=
  phase k = Healthy ∧ session k = Open ∧ latch k = None ∧ u k = None ∧ c k = None ∧ x k = None.

Lemma admits_flags k w : shows (flags k) w → word_ok w →
  (Z.land w FLAGS = SESSION_OPEN ↔ clear k ∧ faulted w = false).
Proof.
  intros H Hw. split.
  - intros E.
    assert (Hf : faulted w = false).
    { unfold faulted. assert (Hb : Z.testbit (Z.land w FLAGS) 8 = false) by by rewrite E.
      by rewrite Z.land_spec, andb_true_r in Hb. }
    split; [|done].
    assert (E' : Z.land (flags k) 0xFEFF = SESSION_OPEN).
    { rewrite <-(shows_land _ w) by (done || (split; vm_compute; congruence)).
      change 0xFEFF with (Z.land FLAGS 0xFEFF). by rewrite Z.land_assoc, E. }
    revert E'. unfold flags, clear.
    destruct (phase k), (session k), (latch k), (u k), (c k), (x k); vm_compute; try discriminate;
      intros _; by split_and!.
  - intros [(H1 & H2 & H3 & H4 & H5 & H6) Hf]. apply Z.bits_inj'. intros i Hi. rewrite Z.land_spec.
    destruct (decide (i = 8)) as [->|Hne].
    { unfold faulted in Hf. by rewrite Hf. }
    destruct (decide (i < 16)) as [Hlt|Hge].
    + rewrite H by lia. unfold flags. rewrite H1, H2, H3, H4, H5, H6. cbn [is_Some_b bit].
      change FLAGS with (2 ^ 16 - 1). rewrite ones_bits by lia.
      destruct (Z.ltb_spec i 16); [|lia]. by rewrite andb_true_r.
    + change FLAGS with (2 ^ 16 - 1). rewrite ones_bits by lia.
      destruct (Z.ltb_spec i 16); [lia|]. rewrite andb_false_r. symmetry.
      apply (high_bits _ 16); [split; vm_compute; congruence|lia].
Qed.

(** ** A small storage for the witnesses

    A storage whose transaction unwinds in [insert], and whose barrier runs. *)

Definition no_facts : MemberFacts := MkMemberFacts None None None None false.

Module ToyStorage.
#[local] Instance txn : Txn unit := {
  txn_open s := (Some (Read.Got tt), s);
  txn_facts _ _ s := (Some (Read.Got no_facts), s);
  txn_insert _ _ s := (None, s);
  txn_commit s := (Some Commit.Durable, s);
  txn_rollback s := (Some Rollback.Undone, s);
}.
#[local] Instance run : BarrierRun unit := { barrier_run s := (Some true, s) }.
#[local] Instance reads : Reads unit := {
  rd_row _ s := (Some (Read.Got (Some (MkRow 9 [7]))), s);
  rd_explained _ s := (Some (Read.Got None), s);
  rd_acknowledgement _ _ s := (Some (Read.Got None), s);
  rd_frontier s := (Some (Read.Got 0), s);
}.

Definition limits : Limits := MkLimits 4 4.
Definition record : GatingRecord := MkGatingRecord (MkMember (MkRecordKey [1] [7]) None).
Definition worker : Worker := MkWorker 1.
Definition tok : CellToken := MkCellToken 1 U 1.

Definition p1 : Published := snd (fst (session_opened (Core_new 1 limits) tt)).
Definition k1 : Core := pub_core p1.
Definition p2 : Published := snd (fst (append_gating k1 record tt)).
Definition k2 : Core := pub_core p2.
Definition p3 : Published := snd (fst (barrier k2 worker tt)).
Definition k3 : Core := pub_core p3.
Definition p4 : Published := snd (fst (resolve k3 worker tok tt)).
Definition k4 : Core := pub_core p4.

Definition w1 : Z := published_word p1 0.
Definition w2 : Z := published_word p2 w1.
Definition w3 : Z := published_word p3 w2.
Definition w4 : Z := published_word p4 w3.

Lemma step1 : sys_step 4 (Core_new 1 limits, world_new) (k1, MkWorld w1 [] 0).
Proof. apply (sy_store 4 _ p1 0); [apply so_opened|by vm_compute]. Qed.
Lemma step2 : sys_step 4 (k1, MkWorld w1 [] 0) (k2, MkWorld w2 [] 0).
Proof. apply (sy_store 4 _ p2 w1); [apply so_gating|by vm_compute]. Qed.
Lemma step3 : sys_step 4 (k2, MkWorld w2 [] 0) (k3, MkWorld w3 [] 0).
Proof. apply (sy_store 4 _ p3 w2); [apply so_barrier|by vm_compute]. Qed.
Lemma step4 : sys_step 4 (k3, MkWorld w3 [] 0) (k4, MkWorld w4 [] 0).
Proof. apply (sy_store 4 _ p4 w3); [apply so_resolve|by vm_compute]. Qed.

Lemma reach1 : sys_reachable 1 limits (k1, MkWorld w1 [] 0).
Proof. eapply rtc_l; [apply step1|apply rtc_refl]. Qed.
Lemma reach2 : sys_reachable 1 limits (k2, MkWorld w2 [] 0).
Proof. eapply rtc_l; [apply step1|]. apply rtc_once, step2. Qed.
Lemma reach3 : sys_reachable 1 limits (k3, MkWorld w3 [] 0).
Proof. eapply rtc_l; [apply step1|]. eapply rtc_l; [apply step2|]. apply rtc_once, step3. Qed.

(** The attempt that unwound is kept in U, the barrier leads to resolution,
    and the resolution places a correction in C. *)
Example recovery_run :
  u k2 = Some (1, Occupant.Gating record Unwound) ∧ phase k2 = NeedBarrier ∧
  phase k3 = Resolving ∧ u k4 = None ∧
  c k4 = Some (1, Occupant.Correction (MkRecordKey [1] [7]) 9 Unwound) ∧ phase k4 = Healthy.
Proof. by vm_compute. Qed.
End ToyStorage.

(** ** The claims *)

(** C3. The store's invariant, in every state reachable by any interleaving
    of store operations, over any storage answering or unwinding at any verb,
    and of ticket operations: the latch for a broken cell invariant is never
    raised; the refusal table stays within its limit; a resolving store has
    an attempt in U; an occupied U holds a gating or acknowledgement attempt
    whose call has ended, with C and X empty and the store not healthy; C
    holds only corrections and X only explanations. *)
Theorem store_invariant address limits k w :
  sys_reachable address limits (k, w) →
  latch k ≠ Some LatchCause.CellInvariant ∧
  Z.of_nat (size (refusals k)) ≤ Z.max (lim_refusals limits) 1 ∧
  (phase k = Resolving → is_Some (u k)) ∧
  (∀ n o, u k = Some (n, o) → u_occupant o ∧ c k = None ∧ x k = None ∧ phase k ≠ Healthy) ∧
  (∀ n o, c k = Some (n, o) → c_occupant o) ∧
  (∀ n o st, x k = Some (n, o, st) → x_occupant o).
Proof.
  intros Hr. destruct (so_core _ _ (sys_reachable_ok _ _ _ Hr)) as [[_ Hc Hx Ht Hl] Hu Hres].
  pose proof (cl_limit _ _ (sys_reachable_le _ _ _ Hr)) as Hlim. simpl in *.
  split_and!; [done|lia|done| | |].
  - intros n o Ho. destruct (Hu _ _ Ho) as (? & _ & ? & ? & ?). done.
  - intros n o Ho. by destruct (Hc _ _ Ho).
  - intros n o st Ho. by destruct (Hx _ _ _ Ho).
Qed.

Lemma store_invariant_witness :
  ∃ n o, u ToyStorage.k3 = Some (n, o) ∧ u_occupant o ∧ phase ToyStorage.k3 ≠ Healthy.
Proof.
  destruct (store_invariant 1 ToyStorage.limits ToyStorage.k3 (MkWorld ToyStorage.w3 [] 0) ToyStorage.reach3)
    as (_ & _ & _ & H & _).
  exists 1, (Occupant.Gating ToyStorage.record Unwound).
  destruct (H 1 (Occupant.Gating ToyStorage.record Unwound) ltac:(reflexivity)) as (H1 & _ & _ & H2).
  split_and!; [reflexivity|exact H1|exact H2].
Defined.

(** The store only moves forward: along any history a latch once raised
    keeps its cause, a session goes from bootstrap to open to sealed and never
    back, the acknowledged frontier never falls, and the cells' occupancy
    counters never fall. *)
Theorem store_forward limit k w k' w' :
  history limit (k, w) (k', w') →
  (∀ l, latch k = Some l → latch k' = Some l) ∧
  session_le (session k) (session k') ∧
  frontier k ≤ frontier k' ∧
  Forall2 Z.le (occupancies k) (occupancies k').
Proof. intros H. by destruct (sys_steps_le _ _ _ H). Qed.

Lemma store_forward_witness :
  session_le (session (Core_new 1 ToyStorage.limits)) (session ToyStorage.k3) ∧
  session ToyStorage.k3 = Open.
Proof.
  split; [|reflexivity].
  apply (store_forward 4 (Core_new 1 ToyStorage.limits) world_new ToyStorage.k3
           (MkWorld ToyStorage.w3 [] 0)).
  exact ToyStorage.reach3.
Defined.

Lemma reachable_admits address limits k w :
  sys_reachable address limits (k, w) →
  let v := MkHealthView (w_word w) in
  admits v = true ↔
    clear k ∧ hv_handover_fault v = false ∧ n_counted (w_tickets w) = 0%nat ∧ w_leaked w = 0%nat.
Proof.
  intros Hr v. destruct (sys_reachable_ok _ _ _ Hr) as [_ [Hw _ Hun _ _ Hleak] Hs]. simpl in *.
  unfold admits, v. rewrite faulted_view. cbn [hv_word].
  rewrite andb_true_iff, !Z.eqb_eq, (admits_flags k) by done. rewrite Hun. split.
  - intros [[Hc Hf] Hz]. split_and!; [done|done|lia|lia].
  - intros (Hc & Hf & Hn & Hl). split; [done|lia].
Qed.

(** C23. The health view is the core's: in every reachable state the phase,
    session, latch and cell bits of the published word are the core's, and the
    view admits new work if and only if the session is open, the phase
    healthy, nothing is latched, the three cells are empty, no handover fault
    was raised and no counted result is waiting for its owner or was lost. *)
Theorem published_view address limits k w :
  sys_reachable address limits (k, w) →
  let v := MkHealthView (w_word w) in
  view_of k v ∧
  (admits v = true ↔
     clear k ∧ hv_handover_fault v = false ∧
     n_counted (w_tickets w) = 0%nat ∧ w_leaked w = 0%nat).
Proof.
  intros Hr v. split; [apply shows_view, (so_shows _ _ (sys_reachable_ok _ _ _ Hr))|].
  by eapply reachable_admits.
Qed.

Lemma published_view_witness : admits (MkHealthView ToyStorage.w1) = true.
Proof.
  destruct (published_view 1 ToyStorage.limits ToyStorage.k1 (MkWorld ToyStorage.w1 [] 0)
              ToyStorage.reach1) as [_ [_ H]].
  apply H. vm_compute. by split_and!.
Defined.

(** An operation handed a token that names no occupant. *)
Lemma stale_resolve {σ} `{!Reads σ} k wk tok (s : σ) :
  worker_ledger wk = shared k → names k tok U = false →
  resolve k wk tok s = (Some Resolve.Stale, drop_publish (set_done (Publish_new k) true), s).
Proof.
  intros Hw Hn. unfold resolve, run_op, resolve_, mbind, M_bind, get_core, worker_belongs.
  cbn [core Publish_new]. by rewrite Hw, Z.eqb_refl, Hn.
Qed.
Lemma stale_cell {σ} `{!CellTxn σ} k wk tok (s : σ) :
  worker_ledger wk = shared k → names k tok C = false → names k tok X = false →
  append_cell k wk tok s = (Some CellAppend.Stale, drop_publish (set_done (Publish_new k) true), s).
Proof.
  intros Hw Hc Hx. unfold append_cell, run_op, cell_, mbind, M_bind, get_core, worker_belongs.
  cbn [core Publish_new]. by rewrite Hw, Z.eqb_refl, Hc, Hx.
Qed.
Lemma stale_empty {σ} k wk tok (s : σ) :
  worker_ledger wk = shared k → names k tok X = false →
  empty k wk tok s = (Some Emptying.Stale, drop_publish (set_done (Publish_new k) true), s).
Proof.
  intros Hw Hx. unfold empty, run_op, empty_, mbind, M_bind, get_core, worker_belongs.
  cbn [core Publish_new]. by rewrite Hw, Z.eqb_refl, Hx.
Qed.

Lemma names_other k tok cell cell' : tok_cell tok = cell → names k tok cell = false →
  names k tok cell' = false.
Proof.
  intros Hc Hn. destruct (names k tok cell') eqn:Hn'; [|done].
  pose proof (proj1 (names_spec _ _ _) Hn') as (_ & Hc' & _). congruence.
Qed.

(** A token never revives: once the occupant a token named has left its
    cell, no later state's occupant is named by it, whatever was placed in the
    cell since; every operation handed it answers [Stale], calls no storage
    verb and leaves the core as it was. *)
Theorem token_never_revives address limits tok cell kw1 kw2 k3 w3 :
  sys_reachable address limits kw1 →
  history (ticket_limit limits) kw1 kw2 →
  history (ticket_limit limits) kw2 (k3, w3) →
  names (fst kw1) tok cell = true → names (fst kw2) tok cell = false →
  (∀ cell', names k3 tok cell' = false) ∧
  (∀ wk, worker_ledger wk = shared k3 →
     (∀ σ `{!Reads σ} (s : σ), ∃ p,
        resolve k3 wk tok s = (Some Resolve.Stale, p, s) ∧ pub_core p = k3) ∧
     (∀ σ `{!CellTxn σ} (s : σ), ∃ p,
        append_cell k3 wk tok s = (Some CellAppend.Stale, p, s) ∧ pub_core p = k3) ∧
     (∃ p, empty k3 wk tok tt = (Some Emptying.Stale, p, tt) ∧ pub_core p = k3)).
Proof.
  intros Hr H12 H23 Hn1 Hn2.
  pose proof (sys_steps_le _ _ _ H12) as L12. pose proof (sys_steps_le _ _ _ H23) as L23. simpl in L23.
  apply names_spec in Hn1 as (Hl & Hc & Ho).
  assert (Ho2 : occupancy (fst kw2) cell ≠ Some (tok_occupancy tok)).
  { intros Ho2. apply not_true_iff_false in Hn2. apply Hn2, names_spec.
    rewrite (cl_shared _ _ L12). done. }
  assert (Hn3 : names k3 tok cell = false).
  { apply not_true_iff_false. intros (_ & _ & Ho3)%names_spec.
    by apply (occupancy_spent _ _ _ _ _ (so_core _ _ (sys_reachable_ok _ _ _ Hr)) L12 L23 Ho Ho2). }
  assert (Hall : ∀ cell', names k3 tok cell' = false) by (intros; by eapply names_other).
  split; [done|]. intros wk Hw. split_and!; intros;
    exists (drop_publish (set_done (Publish_new k3) true)); (split; [|done]).
  - by apply stale_resolve.
  - by apply stale_cell.
  - by apply (stale_empty (σ:=unit)).
Qed.

Lemma token_never_revives_witness : names ToyStorage.k4 ToyStorage.tok U = false.
Proof.
  apply (token_never_revives 1 ToyStorage.limits ToyStorage.tok U
    (ToyStorage.k3, MkWorld ToyStorage.w3 [] 0) (ToyStorage.k4, MkWorld ToyStorage.w4 [] 0)
    ToyStorage.k4 (MkWorld ToyStorage.w4 [] 0)).
  - exact ToyStorage.reach3.
  - exact (rtc_once _ _ ToyStorage.step4).
  - apply rtc_refl.
  - reflexivity.
  - reflexivity.
Defined.
