(* ===== verification/LedgerTruth.v ===== *)
(** * What an append tells its caller

    The outcomes of [append_facts] and [append_gating] of [ledger/protocol.rs] against the verbs it
    issued: a storage is wrapped so that every transaction verb is logged with
    its answer, and the claims relate the outcome, the lent ticket and the log,
    for any storage. *)

From S2P Require Import Prelude LedgerWord LedgerCore LedgerProps.

Local Open Scope Z_scope.

(** ** Weakest preconditions with the storage in view *)

Definition wp {σ A} (m : M σ A) (Q : A → Publish → σ → Prop) (E : Publish → σ → Prop)
    (op : Publish) (s : σ) : Prop :=
  match m op s with
  | (Some a, op', s') => Q a op' s'
  | (None, op', s') => E op' s'
  end.

Section Wp.
Context {σ : Type}.

Lemma wp_bind {A B} (m : M σ A) (f : A → M σ B) Q E op s :
  wp m (λ a op s, wp (f a) Q E op s) E op s → wp (m ≫= f) Q E op s.
Proof.
  unfold wp, mbind, M_bind. by destruct (m op s) as [[[a|] op'] s'].
Qed.

Lemma wp_mono {A} (m : M σ A) (Q Q' : A → Publish → σ → Prop) (E E' : Publish → σ → Prop) op s :
  wp m Q E op s → (∀ a op s, Q a op s → Q' a op s) → (∀ op s, E op s → E' op s) →
  wp m Q' E' op s.
Proof. unfold wp. intros H HQ HE. destruct (m op s) as [[[a|] op'] s']; auto. Qed.
End Wp.

(** ** Logged transactions *)

Inductive ev :=
| EvOpen (r : option (Read.t unit))
| EvFacts (m : Member) (r : option (Read.t MemberFacts))
| EvInsert (m : Member) (r : option Insert.t)
| EvCommit (r : option Commit.t)
| EvRollback (r : option Rollback.t).

Record logged (σ : Type) := MkLogged { lg_state : σ; lg_log : list ev }.
Arguments MkLogged {_} _ _.
Arguments lg_state {_} _.
Arguments lg_log {_} _.

Definition log_verb {σ T} (e : option T → ev) (f : σ → verb_result σ T) (s : logged σ)
    : verb_result (logged σ) T :=
  let '(r, st) := f (lg_state s) in (r, MkLogged st (lg_log s ++ [e r])).

#[export] Instance logged_txn σ `{!Txn σ} : Txn (logged σ) := {
  txn_open := log_verb EvOpen txn_open;
  txn_facts i m := log_verb (EvFacts m) (txn_facts i m);
  txn_insert i m := log_verb (EvInsert m) (txn_insert i m);
  txn_commit := log_verb EvCommit txn_commit;
  txn_rollback := log_verb EvRollback txn_rollback;
}.

Lemma wp_log_verb {σ T} (e : option T → ev) (f : σ → verb_result σ T) Q E op (s : logged σ) :
  (∀ r st, match r with
           | Some a => Q a op (MkLogged st (lg_log s ++ [e r]))
           | None => E op (MkLogged st (lg_log s ++ [e r]))
           end) →
  wp (verb (log_verb e f)) Q E op s.
Proof.
  intros H. unfold wp, verb, log_verb. destruct (f (lg_state s)) as [[a|] st].
  - exact (H (Some a) st).
  - exact (H None st).
Qed.

(** ** Reading a log *)

Definition is_insert (e : ev) : bool := match e with EvInsert _ _ => true | _ => false end.
Definition is_commit (e : ev) : bool := match e with EvCommit _ => true | _ => false end.
Definition has_insert (log : list ev) : bool := existsb is_insert log.
Definition has_commit (log : list ev) : bool := existsb is_commit log.

(** The ledger was read to hold the member's very row. *)
Definition present_in (log : list ev) (m : Member) : Prop :=
  ∃ facts row, EvFacts m (Some (Read.Got facts)) ∈ log ∧ mf_row facts = Some row ∧
    row_digest row = rk_digest (m_key m).
Definition inserted_in (log : list ev) (m : Member) : Prop :=
  ∃ seq, EvInsert m (Some (Insert.Inserted seq)) ∈ log.

Lemma has_insert_snoc log e : has_insert (log ++ [e]) = has_insert log || is_insert e.
Proof. unfold has_insert. rewrite existsb_app. simpl. by rewrite orb_false_r. Qed.
Lemma has_commit_snoc log e : has_commit (log ++ [e]) = has_commit log || is_commit e.
Proof. unfold has_commit. rewrite existsb_app. simpl. by rewrite orb_false_r. Qed.

Lemma present_mono log log' m : log `prefix_of` log' → present_in log m → present_in log' m.
Proof.
  intros [l ->] (f & row & Hin & Hr & Hd). exists f, row. split_and!; try done.
  apply elem_of_app. by left.
Qed.
Lemma inserted_mono log log' m : log `prefix_of` log' → inserted_in log m → inserted_in log' m.
Proof. intros [l ->] (seq & Hin). exists seq. apply elem_of_app. by left. Qed.

Lemma prefix_snoc {A} (l l' : list A) e : l `prefix_of` l' → l `prefix_of` l' ++ [e].
Proof. apply prefix_app_r. Qed.

(** ** The guard during a fact append *)

(** A lent ticket with no result yet; whether an insert was issued is what the
    log says, and no commit was. *)
Record lent (k0 : Core) (t : Ticket) (op : Publish) (log : list ev) : Prop := {
  ln_ticket : ticket op = Some t;
  ln_count : count op = None;
  ln_issued : issued op = has_insert log;
  ln_session : session (core op) = session k0;
}.

(** A result has been counted. *)
Record counted_as (t : Ticket) (c : Counted) (op : Publish) : Prop := {
  ca_ticket : ticket op = Some t;
  ca_count : count op = Some c;
}.

Lemma do_latch_session k l : session (do_latch k l) = session k.
Proof. unfold do_latch. by destruct (is_None_b (latch k)). Qed.

Lemma place_session k cell o : session (fst (place k cell o)) = session k.
Proof.
  unfold place, next_occupancy. destruct (_ ≫= _); simpl; [by destruct cell|apply do_latch_session].
Qed.

Lemma classify_session k a m f e g : session (fst (classify k a m f e g)) = session k.
Proof.
  assert (Hfill : ∀ k cause, session
    (if is_None_b (x k) then fst (explanation k (m_key m) cause) else k) = session k).
  { intros k' cause. destruct (is_None_b (x k')); [apply place_session|done]. }
  assert (Hc : ∀ cause, session (fst (classify_constraint k a m cause g)) = session k).
  { intros cause. unfold classify_constraint. destruct g; simpl; [apply Hfill|].
    destruct (table_full k); simpl; [apply do_latch_session|]. exact (Hfill (set_refusals k _) cause). }
  unfold classify. repeat case_match; simpl; try done; apply Hc.
Qed.

Lemma classify_sealed k a m f e : session k = Sealed →
  snd (classify k a m f e false) ≠ Verdict.Insert.
Proof.
  intros Hs. unfold classify, classify_constraint. rewrite Hs. repeat case_match; simpl; try done;
    by rewrite ?bool_decide_eq_false in *.
Qed.

Lemma classify_present k a m f e seq : snd (classify k a m f e false) = Verdict.Present seq →
  ∃ row, mf_row f = Some row ∧ row_digest row = rk_digest (m_key m).
Proof.
  unfold classify, classify_constraint. repeat case_match; simpl; try done;
    intros; simplify_eq; rewrite ?bool_decide_eq_true in *; eauto.
Qed.

(** The states a body step leads to, while a ticket is lent. *)
Lemma lent_core k0 t op log k : lent k0 t op log → session k = session (core op) →
  lent k0 t (set_core op k) log.
Proof. intros [H1 H2 H3 H4] Hs. split; simpl; try done. congruence. Qed.
Lemma lent_conflict k0 t op log v : lent k0 t op log → lent k0 t (set_conflict op v) log.
Proof. by intros []. Qed.
Lemma lent_read k0 t op log e : is_insert e = false → lent k0 t op log → lent k0 t op (log ++ [e]).
Proof. intros He [H1 H2 H3 H4]. split; try done. by rewrite has_insert_snoc, He, orb_false_r. Qed.
Lemma lent_insert k0 t op log m r : lent k0 t op log → lent k0 t (set_issued op) (log ++ [EvInsert m r]).
Proof. intros [H1 H2 H3 H4]. split; simpl; try done. by rewrite has_insert_snoc, orb_true_r. Qed.
Lemma lent_failed k0 t op log : lent k0 t op log →
  lent k0 t (set_core op (set_phase (core op) NeedBarrier)) log.
Proof. intros H. by apply lent_core. Qed.
Lemma lent_latch k0 t op log l : lent k0 t op log → lent k0 t (set_core op (do_latch (core op) l)) log.
Proof. intros H. apply lent_core; [done|]. apply do_latch_session. Qed.

Section FactsTruth.
Context {σ : Type} `{!Txn σ} (k0 : Core) (t : Ticket).
Notation lent := (lent k0 t).

Lemma wp_roll_back (Q : Persistence → Publish → logged σ → Prop) E op (s : logged σ) :
  (∀ st, Q NotWritten op (MkLogged st (lg_log s ++ [EvRollback (Some Rollback.Undone)]))) →
  (∀ st, Q Uncertain (set_core op (set_phase (core op) NeedBarrier))
           (MkLogged st (lg_log s ++ [EvRollback (Some Rollback.Unknown)]))) →
  (∀ st, E op (MkLogged st (lg_log s ++ [EvRollback None]))) →
  wp roll_back Q E op s.
Proof.
  intros H1 H2 H3. unfold roll_back. apply wp_bind, wp_log_verb.
  intros [[|]|] st; [apply H1|apply H2|apply H3].
Qed.

Lemma wp_not_applied p reason (Q : FactOutcome.t → Publish → logged σ → Prop) E op s :
  Q (FactOutcome.NotApplied (MkCounted p (conflict op)) reason)
    (set_count op (MkCounted p (conflict op))) s →
  wp (not_applied p reason) Q E op s.
Proof. done. Qed.

Definition quiet (log : list ev) : Prop := has_insert log = false ∧ has_commit log = false.

Lemma quiet_snoc log e : quiet log → is_insert e = false → is_commit e = false → quiet (log ++ [e]).
Proof.
  intros [H1 H2] He Hc. unfold quiet. by rewrite has_insert_snoc, has_commit_snoc, H1, H2, He, Hc.
Qed.

(** A call that ends with nothing issued. *)
Definition refused_quiet (o : FactOutcome.t) (op : Publish) (s : logged σ) : Prop :=
  ∃ c r, o = FactOutcome.NotApplied c r ∧ counted_as t c op ∧ persistence c = NotWritten ∧
    quiet (lg_log s).
Definition unwound_quiet (op : Publish) (s : logged σ) : Prop :=
  lent op (lg_log s) ∧ quiet (lg_log s).

(** Every refusal before the inserts: roll back, then count. *)
Lemma wp_refuse reason op (s : logged σ) : lent op (lg_log s) → quiet (lg_log s) →
  wp (roll_back ;; o ← not_applied NotWritten reason; mret (inl o))
    (λ r op' s', ∃ o, r = (inl o : FactOutcome.t + list bool) ∧ refused_quiet o op' s')
    unwound_quiet op s.
Proof.
  intros Hl Hq. apply wp_bind, wp_roll_back; intros st.
  - apply wp_bind, wp_not_applied. eexists. split; [done|].
    eexists _, _. split_and!; [done|split; [apply Hl|done]|done|by apply quiet_snoc].
  - apply wp_bind, wp_not_applied. eexists. split; [done|].
    eexists _, _. split_and!; [done|split; [apply Hl|done]|done|by apply quiet_snoc].
  - split; [by apply lent_read|by apply quiet_snoc].
Qed.

Definition classified (todo : list Member) (r : FactOutcome.t + list bool) (op : Publish)
    (log : list ev) (s : logged σ) : Prop :=
  match r with
  | inl o => refused_quiet o op s
  | inr slots =>
      lent op (lg_log s) ∧ quiet (lg_log s) ∧ conflict op = None ∧
      Forall2 (λ m slot, slot = false → present_in (lg_log s) m) todo slots ∧
      (session k0 = Sealed → Forall (λ b, b = false) slots) ∧
      log `prefix_of` lg_log s
  end.

Lemma wp_read_failed (b : bool) (Q : unit → Publish → logged σ → Prop) E op s :
  Q tt (set_core op (let k := set_phase (core op) NeedBarrier in
                     if b then do_latch k LatchCause.Corrupt else k)) s →
  wp (read_failed b) Q E op s.
Proof. by destruct b. Qed.

Lemma lent_read_failed op log (b : bool) : lent op log →
  lent (set_core op (let k := set_phase (core op) NeedBarrier in
                     if b then do_latch k LatchCause.Corrupt else k)) log.
Proof.
  intros H. apply lent_core; [done|]. destruct b; simpl; [by rewrite do_latch_session|done].
Qed.

(** One more classified member in front: present, or to be inserted. *)
Lemma classified_cons m facts todo slots (b : bool) op log (s : logged σ) :
  (b = false → ∃ row, mf_row facts = Some row ∧ row_digest row = rk_digest (m_key m)) →
  (session k0 = Sealed → b = false) →
  classified todo (inr slots) op (log ++ [EvFacts m (Some (Read.Got facts))]) s →
  classified (m :: todo) (inr (b :: slots)) op log s.
Proof.
  intros Hrow Hseal (A1 & A2 & A3 & A4 & A5 & A6).
  split_and!; try done.
  - constructor; [|done]. intros Hb. destruct (Hrow Hb) as (row & Hr & Hd).
    apply (present_mono _ _ _ A6). exists facts, row. split_and!; try done.
    apply elem_of_app. right. by apply list_elem_of_singleton.
  - intros Hs. constructor; [by apply Hseal|by apply A5].
  - etrans; [|exact A6]. by apply prefix_app_r.
Qed.

Lemma classify_members_wp todo : ∀ index earlier op (s : logged σ),
  lent op (lg_log s) → quiet (lg_log s) → conflict op = None →
  wp (classify_members index earlier todo)
    (λ r op' s', classified todo r op' (lg_log s) s') unwound_quiet op s.
Proof.
  induction todo as [|m todo IH]; intros index earlier op s Hl Hq Hc; cbn [classify_members].
  { repeat split; try done; by apply Hq || apply Hl. }
  apply wp_bind, wp_log_verb. intros r st.
  set (e := EvFacts m r). set (s1 := MkLogged st (lg_log s ++ [e])).
  assert (Hl1 : lent op (lg_log s1)) by by apply lent_read.
  assert (Hq1 : quiet (lg_log s1)) by by apply quiet_snoc.
  assert (Hread : ∀ b, wp (read_failed b ;; roll_back ;;
      o ← not_applied NotWritten Reason.Storage; mret (inl o))
      (λ r op' s', classified (m :: todo) r op' (lg_log s) s') unwound_quiet op s1).
  { intros b. apply wp_bind, wp_read_failed.
    eapply wp_mono; [apply wp_refuse; [by apply lent_read_failed|done]| |done].
    intros ? ? ? (o & -> & Ho). exact Ho. }
  destruct r as [[facts| |]|]; [|apply Hread..|done].
  apply wp_bind. unfold wp at 1, on_core.
  destruct (classify (core op) (member_index index) m facts earlier false) as [k v] eqn:Hcl.
  pose proof (classify_session (core op) (member_index index) m facts earlier false) as Hses.
  pose proof (classify_sealed (core op) (member_index index) m facts earlier) as Hseal.
  pose proof (λ seq, classify_present (core op) (member_index index) m facts earlier seq) as Hpres.
  rewrite Hcl in Hses, Hseal, Hpres. simpl in Hses, Hseal, Hpres.
  assert (Hl2 : lent (set_core op k) (lg_log s1)) by by apply lent_core.
  assert (Hgo : (∃ seq, v = Verdict.Present seq) ∨ v = Verdict.Insert →
     wp (rest ← classify_members (S index) (earlier ++ [m]) todo;
         mret match rest with
              | inl o => inl o
              | inr slots => inr (match v with Verdict.Insert => true | _ => false end :: slots)
              end)
       (λ r op' s', classified (m :: todo) r op' (lg_log s) s') unwound_quiet (set_core op k) s1).
  { intros Hv. apply wp_bind. eapply wp_mono; [by apply IH| |done].
    intros [o|slots] op' s' Hr; [done|]. apply (classified_cons m facts todo slots _ _ (lg_log s)); [..|done].
    - intros Hb. destruct v as [seq| |]; try done; [by eapply Hpres|by destruct Hv as [[??]|?]].
    - intros Hs. destruct v; try done. exfalso. apply Hseal; [|done].
      by rewrite (ln_session _ _ _ _ Hl). }
  destruct v as [seq| |reason cf].
  - apply Hgo. left. by exists seq.
  - apply Hgo. by right.
  - apply wp_bind. change (wp (roll_back ;; o ← not_applied NotWritten reason; mret (inl o))
      (λ r op' s', classified (m :: todo) r op' (lg_log s) s') unwound_quiet
      (set_conflict (set_core op k) cf) s1).
    eapply wp_mono; [apply wp_refuse; [by apply lent_conflict|done]| |done].
    intros ? ? ? (o & -> & Ho). exact Ho.
Qed.

(** *** The inserts *)

(** The last verb issued undid the transaction, or may not have. *)
Definition rollback_end (p : Persistence) (log : list ev) : Prop :=
  last log = Some (EvRollback (Some match p with
                                    | NotWritten => Rollback.Undone
                                    | Uncertain => Rollback.Unknown
                                    end)).

Definition inserts_ok (todo : list (Member * bool)) (r : option FactOutcome.t) (op : Publish)
    (log : list ev) (s : logged σ) : Prop :=
  match r with
  | None =>
      lent op (lg_log s) ∧ has_commit (lg_log s) = false ∧ conflict op = None ∧
      Forall (λ ms, ms.2 = true → inserted_in (lg_log s) ms.1) todo ∧
      has_insert (lg_log s) = has_insert log || existsb snd todo ∧
      log `prefix_of` lg_log s
  | Some o =>
      ∃ p reason, o = FactOutcome.NotApplied (MkCounted p None) reason ∧
        counted_as t (MkCounted p None) op ∧ has_insert (lg_log s) = true ∧
        has_commit (lg_log s) = false ∧ rollback_end p (lg_log s) ∧
        phase (core op) = NeedBarrier
  end.

Definition unwound_open (op : Publish) (s : logged σ) : Prop :=
  lent op (lg_log s) ∧ conflict op = None.

(** A failed insert: the phase, the rollback, the count. *)
Lemma wp_insert_failed reason op (s : logged σ) todo log :
  lent op (lg_log s) → conflict op = None → has_commit (lg_log s) = false →
  has_insert (lg_log s) = true →
  wp (failed ;; p ← roll_back; o ← not_applied p reason; mret (Some o))
    (λ r op' s', inserts_ok todo r op' log s') unwound_open op s.
Proof.
  intros Hl Hc Hcm Hi. apply wp_bind. cbn. apply wp_bind, wp_roll_back; intros st.
  - apply wp_bind, wp_not_applied. eexists NotWritten, _. simpl. rewrite Hc.
    split_and!; [done|split; [apply Hl|done]|by rewrite has_insert_snoc, Hi
      |by rewrite has_commit_snoc, Hcm|by unfold rollback_end; rewrite last_snoc|done].
  - apply wp_bind, wp_not_applied. eexists Uncertain, _. simpl. rewrite Hc.
    split_and!; [done|split; [apply Hl|done]|by rewrite has_insert_snoc, Hi
      |by rewrite has_commit_snoc, Hcm|by unfold rollback_end; rewrite last_snoc|done].
  - split; [|done]. apply lent_read; [done|]. by apply lent_failed.
Qed.

Lemma insert_members_wp todo : ∀ index op (s : logged σ),
  lent op (lg_log s) → conflict op = None → has_commit (lg_log s) = false →
  wp (insert_members index todo)
    (λ r op' s', inserts_ok todo r op' (lg_log s) s') unwound_open op s.
Proof.
  induction todo as [|[m [|]] todo IH]; intros index op s Hl Hc Hcm; cbn [insert_members negb].
  - split_and!; try done. by rewrite orb_false_r.
  - apply wp_bind. change (wp (r ← verb (txn_insert (member_index index) m); match r with
      | Insert.Inserted _ => insert_members (S index) todo
      | r => reason ← (match r with
                       | Insert.Constraint => latch_op LatchCause.Constraint ;; mret Reason.Constraint
                       | _ => mret Reason.Storage end);
             failed ;; p ← roll_back; o ← not_applied p reason; mret (Some o) end)
      (λ r op' s', inserts_ok ((m, true) :: todo) r op' (lg_log s) s') unwound_open
      (set_issued op) s).
    apply wp_bind, wp_log_verb. intros r st. set (s1 := MkLogged st (lg_log s ++ [EvInsert m r])).
    assert (Hl1 : lent (set_issued op) (lg_log s1)) by by apply lent_insert.
    assert (Hi1 : has_insert (lg_log s1) = true) by (simpl; by rewrite has_insert_snoc, orb_true_r).
    assert (Hc1 : has_commit (lg_log s1) = false) by (simpl; by rewrite has_commit_snoc, Hcm).
    destruct r as [[seq| |]|]; [| | |done].
    + eapply wp_mono; [by apply (IH (S index))| |done]. intros [o|] op' s'; [done|].
      intros (A1 & A2 & A3 & A4 & A5 & A6). split_and!; try done.
      * constructor; [|done]. intros _. exists seq. destruct A6 as [l ->].
        apply elem_of_app. left. apply elem_of_app. right. by apply list_elem_of_singleton.
      * rewrite A5, Hi1. simpl. by rewrite orb_true_r.
      * etrans; [|exact A6]. by apply prefix_app_r.
    + apply wp_bind. cbn. apply wp_insert_failed; try done. by apply lent_latch.
    + apply wp_bind. cbn. by apply wp_insert_failed.
  - eapply wp_mono; [by apply (IH (S index))| |done]. intros [o|] op' s'; [done|].
    intros (A1 & A2 & A3 & A4 & A5 & A6). split_and!; try done. by constructor.
Qed.

(** *** The whole append *)

(** What a counted result says is what the log says. *)
Definition truthful (c : Counted) (log : list ev) (k : Core) : Prop :=
  EvCommit (Some Commit.Durable) ∉ log ∧
  match persistence c with
  | NotWritten =>
      has_insert log = false ∨ (has_commit log = false ∧ rollback_end NotWritten log)
  | Uncertain => has_insert log = true ∧ phase k = NeedBarrier
  end ∧
  (is_Some (conflict_member c) → has_insert log = false).

Definition durable (log : list ev) (m : Member) : Prop :=
  present_in log m ∨
  (inserted_in log m ∧ last log = Some (EvCommit (Some Commit.Durable))).

Definition sealed_quiet (log : list ev) : Prop := session k0 = Sealed → has_insert log = false.

Definition facts_end (members : list Member) (o : FactOutcome.t) (op : Publish) (s : logged σ)
    : Prop :=
  let log := lg_log s in
  sealed_quiet log ∧
  match o with
  | FactOutcome.Committed =>
      ticket op = Some t ∧ count op = None ∧ Forall (durable log) members
  | FactOutcome.NotApplied c _ => counted_as t c op ∧ truthful c log (core op)
  | FactOutcome.Rejected _ => ticket op = None ∧ log = [] ∧ is_Some (latch (core op))
  end.
Definition facts_unwound (op : Publish) (s : logged σ) : Prop :=
  let log := lg_log s in
  lent op log ∧ sealed_quiet log ∧ (conflict op = None ∨ has_insert log = false).

Lemma no_commit_durable log : has_commit log = false → EvCommit (Some Commit.Durable) ∉ log.
Proof.
  intros H Hin. apply not_true_iff_false in H. apply H, existsb_exists.
  exists (EvCommit (Some Commit.Durable)). split; [by apply list_elem_of_In|done].
Qed.

Lemma refused_end members o op (s : logged σ) : refused_quiet o op s → facts_end members o op s.
Proof.
  intros (c & r & -> & Hc & Hp & Hi & Hcm). split; [by intros _|]. split; [done|].
  split_and!; [by apply no_commit_durable| |done]. rewrite Hp. by left.
Qed.

Lemma inserts_end members todo o op log (s : logged σ) : session k0 ≠ Sealed →
  inserts_ok todo (Some o) op log s → facts_end members o op s.
Proof.
  intros Hs (p & r & -> & Hc & Hi & Hcm & Hend & Hph). split; [by intros ?|]. split; [done|].
  split_and!; [by apply no_commit_durable| |by intros []]. simpl. destruct p; [by right|done].
Qed.

Lemma inserted_slots members slots log :
  Forall2 (λ m slot, slot = false → present_in log m) members slots →
  ∀ log', log `prefix_of` log' → last log' = Some (EvCommit (Some Commit.Durable)) →
  Forall (λ ms, ms.2 = true → inserted_in log' ms.1) (zip members slots) →
  Forall (durable log') members.
Proof.
  induction 1 as [|m slot members slots Hm _ IH]; intros log' Hpre Hlast Hz; constructor;
    inversion Hz; simplify_eq/=; eauto.
  destruct slot; [right; auto|left]. eapply present_mono; eauto.
Qed.

Lemma existsb_zip (members : list Member) (slots : list bool) :
  length members = length slots → existsb snd (zip members slots) = existsb id slots.
Proof.
  revert slots. induction members as [|m members IH]; intros [|b slots] H; simplify_eq/=; [done|].
  by rewrite IH.
Qed.

Lemma existsb_all_false slots : Forall (λ b, b = false) slots → existsb id slots = false.
Proof. induction 1 as [|b slots -> _ IH]; simpl; done. Qed.

(** The commit, once every insert was answered. *)
Lemma wp_commit members op (s : logged σ) : lent op (lg_log s) → conflict op = None →
  session k0 ≠ Sealed → has_commit (lg_log s) = false → has_insert (lg_log s) = true →
  (∀ log', lg_log s `prefix_of` log' → last log' = Some (EvCommit (Some Commit.Durable)) →
     Forall (durable log') members) →
  wp (r ← verb txn_commit;
      match r with
      | Commit.Durable => mret FactOutcome.Committed
      | Commit.Unknown => failed ;; roll_back ;; not_applied Uncertain Reason.Storage
      end) (facts_end members) facts_unwound op s.
Proof.
  intros Hl Hc Hs Hcm Hi Hd. apply wp_bind, wp_log_verb. intros r st.
  assert (Hnd : ∀ e, r ≠ Some Commit.Durable → e ≠ EvCommit (Some Commit.Durable) →
    EvCommit (Some Commit.Durable) ∉ (lg_log s ++ [EvCommit r]) ++ [e]).
  { intros e Hr He. rewrite !elem_of_app, !list_elem_of_singleton.
    pose proof (no_commit_durable _ Hcm). intros [[?|?]|?]; congruence. }
  destruct r as [[|]|].
  - split; [by intros ?|]. split_and!; [apply Hl..|]. apply Hd; [by apply prefix_app_r|].
    cbn [lg_log]. by rewrite last_snoc.
  - apply wp_bind. cbn. apply wp_bind, wp_roll_back; intros st'; simpl.
    + split; [by intros ?|]. split; [split; [apply Hl|done]|].
      split_and!; [by apply Hnd| |simpl; rewrite Hc; by intros []].
      simpl. split; [by rewrite !has_insert_snoc, Hi|done].
    + split; [by intros ?|]. split; [split; [apply Hl|done]|].
      split_and!; [by apply Hnd| |simpl; rewrite Hc; by intros []].
      simpl. split; [by rewrite !has_insert_snoc, Hi|done].
    + split; [do 2 (apply lent_read; [done|]); by apply lent_failed|]. split; [by intros ?|by left].
  - split; [by apply lent_read|]. split; [by intros ?|by left].
Qed.

Lemma apply_facts_wp members slots op (s : logged σ) log :
  classified members (inr slots) op log s →
  wp (apply_facts members slots) (facts_end members) facts_unwound op s.
Proof.
  intros (Hl & Hq & Hc & Hm & Hs & _). unfold apply_facts.
  destruct (existsb id slots) eqn:Hany; cbn [negb].
  - assert (Hns : session k0 ≠ Sealed).
    { intros Hse. by rewrite (existsb_all_false _ (Hs Hse)) in Hany. }
    apply wp_bind. eapply wp_mono; [apply insert_members_wp; [done|done|apply Hq]| |].
    + intros [o|] op' s' Hr; [by eapply inserts_end|].
      destruct Hr as (A1 & A2 & A3 & A4 & A5 & A6). apply wp_commit; try done.
      * rewrite A5, existsb_zip, Hany, orb_true_r; [done|]. by eapply Forall2_length.
      * intros log' Hpre Hlast. eapply inserted_slots; [exact Hm|by etrans|done|].
        eapply Forall_impl; [exact A4|]. intros ms Hms Hb. eapply inserted_mono; eauto.
    + intros op' s' [A1 A2]. split; [done|]. split; [by intros ?|by left].
  - assert (Hpres : ∀ log', lg_log s `prefix_of` log' → Forall (durable log') members).
    { intros log' Hpre. apply Forall_lookup. intros i m Hi.
      destruct (Forall2_lookup_l _ _ _ _ _ Hm Hi) as (b & Hb & Hp). left.
      apply (present_mono _ _ _ Hpre), Hp. destruct b; [|done].
      exfalso. apply not_true_iff_false in Hany. apply Hany, existsb_exists.
      exists true. split; [|done]. by eapply list_elem_of_In, list_elem_of_lookup_2. }
    destruct Hq as [Hq1 Hq2].
    apply wp_bind, wp_roll_back; intros st.
    + split; [intros _; simpl; by rewrite has_insert_snoc, Hq1|].
      split_and!; [apply Hl..|]. apply Hpres. by apply prefix_app_r.
    + split; [intros _; simpl; by rewrite has_insert_snoc, Hq1|].
      split_and!; [apply Hl..|]. apply Hpres. by apply prefix_app_r.
    + split; [by apply lent_read|]. split; [intros _|right]; simpl; by rewrite has_insert_snoc, Hq1.
Qed.
End FactsTruth.

Lemma facts_wp {σ} `{!Txn σ} k t batch (st : σ) :
  wp (facts t batch) (facts_end k t (fact_member <$> batch)) (facts_unwound k t)
    (Publish_new k) (MkLogged st []).
Proof.
  unfold facts. apply wp_bind. unfold wp at 1, get_core. cbn [core Publish_new].
  assert (Hl : lent k t (set_ticket (Publish_new k) t) []) by done.
  destruct (ticket_fault k t) as [f|].
  { apply wp_bind. split; [by intros ?|]. split_and!; try done. simpl. unfold do_latch.
    destruct (latch k) eqn:E; simpl; [by rewrite E|done]. }
  apply wp_bind. unfold wp at 1, modify.
  destruct (facts_entry k batch) as [e|].
  { apply refused_end. eexists _, _. by split_and!. }
  apply wp_bind, wp_log_verb. intros r st1.
  assert (Hl1 : lent k t (set_ticket (Publish_new k) t) ([] ++ [EvOpen r])) by done.
  assert (Hfail : wp (failed ;; not_applied NotWritten Reason.Storage)
    (facts_end k t (fact_member <$> batch)) (facts_unwound k t)
    (set_ticket (Publish_new k) t) (MkLogged st1 ([] ++ [EvOpen r]))).
  { apply wp_bind. apply refused_end. eexists _, _. by split_and!. }
  destruct r as [[[]| |]|]; [|exact Hfail..|].
  - apply wp_bind. eapply wp_mono; [by apply (classify_members_wp k t)| |].
    + intros [o|slots] op s Hr; [by apply refused_end|by eapply apply_facts_wp].
    + intros op s [A1 A2]. split; [done|]. split; [intros _|right]; apply A2.
  - split; [done|]. split; [by intros ?|by left].
Qed.

(** ** The claims *)

Definition counted_ticket (t : Ticket) (c : Counted) (p : Published) : Prop :=
  pub_counted p = true ∧ pub_ticket p = Some (MkTicket (t_shared t) (TCounted c)).

Lemma settle_hold_phase op : phase (settle_hold op) = phase (core op).
Proof.
  unfold settle_hold. case_bool_decide; [done|]. destruct (negb (keep op)); [done|].
  by destruct (u (core op)) as [[n []]|].
Qed.

Lemma settle_hold_latch op : latch (settle_hold op) = latch (core op).
Proof.
  unfold settle_hold. case_bool_decide; [done|]. destruct (negb (keep op)); [done|].
  by destruct (u (core op)) as [[n []]|].
Qed.

Lemma drop_counted t c op : done_ op = true → counted_as t c op →
  counted_ticket t c (drop_publish op) ∧ phase (pub_core (drop_publish op)) = phase (core op).
Proof.
  intros Hd [Ht Hc]. unfold drop_publish, settle_unwound. rewrite Hd. unfold counted_ticket. simpl.
  rewrite Ht, Hc, settle_hold_phase. done.
Qed.

(** What a fact append leaves: the parts of every claim below. *)
Definition append_facts_post (k : Core) (t : Ticket) (batch : list FactRecord)
    (out : option FactOutcome.t) (p : Published) (log : list ev) : Prop :=
  sealed_quiet k log ∧
  match out with
  | Some FactOutcome.Committed =>
      pub_ticket p = Some t ∧ pub_counted p = false ∧ Forall (durable log) (fact_member <$> batch)
  | Some (FactOutcome.NotApplied c _) => counted_ticket t c p ∧ truthful c log (pub_core p)
  | Some (FactOutcome.Rejected _) =>
      pub_ticket p = None ∧ pub_counted p = false ∧ log = [] ∧ is_Some (latch (pub_core p))
  | None =>
      phase (pub_core p) = NeedBarrier ∧
      ∃ c, counted_ticket t c p ∧ (persistence c = Uncertain ↔ has_insert log = true)
  end.

Lemma unwound_post k t op log : lent k t op log → (conflict op = None ∨ has_insert log = false) →
  done_ op = false → phase (pub_core (drop_publish op)) = NeedBarrier ∧
  ∃ c, counted_ticket t c (drop_publish op) ∧ (persistence c = Uncertain ↔ has_insert log = true).
Proof.
  intros [Ht Hc Hi _] Hcf Hd. unfold drop_publish, settle_unwound, counted_ticket. rewrite Hd. simpl.
  rewrite Ht, Hc. simpl. rewrite Ht, settle_hold_phase. split; [done|]. eexists. split; [done|]. simpl.
  rewrite Hi. destruct (has_insert log); [|by split]. destruct Hcf as [-> |?]; [by split|done].
Qed.

(** A body that never sets [done_]: only [run_op] does. *)
Lemma facts_not_done {σ} `{!Txn σ} t batch : preserves (σ:=σ) (λ op, done_ op = false) (facts t batch).
Proof.
  assert (Hroll : preserves (σ:=σ) (λ op, done_ op = false) roll_back).
  { unfold roll_back, rolled, failed. preserve; done. }
  assert (Hins : ∀ todo i, preserves (σ:=σ) (λ op, done_ op = false) (insert_members i todo)).
  { induction todo as [|[m [|]] todo IH]; intros i; cbn [insert_members negb];
      unfold latch_op, failed; preserve; auto. }
  assert (Hcls : ∀ todo i e, preserves (σ:=σ) (λ op, done_ op = false) (classify_members i e todo)).
  { induction todo as [|m todo IH]; intros i e; cbn [classify_members];
      unfold read_failed, latch_op, failed; preserve; auto. }
  unfold facts, apply_facts, latch_op, failed. preserve; auto.
Qed.

Lemma append_facts_spec {σ} `{!Txn σ} k t batch (st : σ) :
  let '(out, p, s') := append_facts k t batch (MkLogged st []) in
  append_facts_post k t batch out p (lg_log s').
Proof.
  pose proof (facts_wp k t batch st) as H.
  pose proof (facts_not_done t batch (Publish_new k) (MkLogged st []) eq_refl) as Hd.
  unfold append_facts, run_op. unfold wp in H.
  destruct (facts t batch (Publish_new k) (MkLogged st [])) as [[[o|] op] s'].
  - destruct H as [Hs H]. split; [done|]. destruct o as [|c r|f].
    + destruct H as (Ht & Hc & Hm). unfold drop_publish, settle_unwound. simpl. rewrite Ht, Hc. done.
    + destruct H as [[Ht Hc] Htr]. destruct (drop_counted t c (set_done op true)) as [H1 H2]; [done..|].
      split; [done|]. destruct Htr as (A1 & A2 & A3). split; [done|]. split; [|done]. by rewrite H2.
    + destruct H as (Ht & Hlog & Hl). unfold drop_publish, settle_unwound. simpl.
      by rewrite Ht, settle_hold_latch.
  - destruct H as (Hl & Hs & Hc). split; [done|]. by eapply unwound_post.
Qed.

(** ** Gating records *)

Lemma place_u k cell o : cell ≠ U → u (fst (place k cell o)) = u k.
Proof.
  intros Hc. unfold place, next_occupancy. destruct (_ ≫= _); simpl; [by destruct cell|].
  unfold do_latch. by destruct (is_None_b (latch k)).
Qed.
Lemma classify_u k a m f e : u (fst (classify k a m f e true)) = u k.
Proof.
  assert (Hc : ∀ cause, u (fst (classify_constraint k a m cause true)) = u k).
  { intros cause. unfold classify_constraint. cbn [fst]. destruct (is_None_b (x k)); [|done].
    by apply place_u. }
  unfold classify. repeat case_match; simpl; try done; apply Hc.
Qed.
Lemma classify_gating_present k a m f e seq : snd (classify k a m f e true) = Verdict.Present seq →
  ∃ row, mf_row f = Some row ∧ row_digest row = rk_digest (m_key m) ∧ row_seq row = seq.
Proof.
  unfold classify, classify_constraint. repeat case_match; simpl; try done;
    intros; simplify_eq; rewrite ?bool_decide_eq_true in *; eauto.
Qed.

Section GatingTruth.
Context {σ : Type} `{!Txn σ} (r : GatingRecord).

(** U holds this very record while its call runs; the guard knows whether an
    insert was issued. *)
Record gheld (op : Publish) (log : list ev) : Prop := {
  gh_hold : hold op = HGating;
  gh_u : ∃ n, u (core op) = Some (n, Occupant.Gating r InCall);
  gh_issued : issued op = has_insert log;
  gh_keep : keep op = false;
  gh_done : done_ op = false;
}.

Lemma gheld_core op log k : gheld op log → u k = u (core op) → gheld (set_core op k) log.
Proof. intros [H1 H2 H3 H4 H5] Hu. split; simpl; try done. by rewrite Hu. Qed.
Lemma gheld_read op log e : is_insert e = false → gheld op log → gheld op (log ++ [e]).
Proof. intros He [H1 H2 H3 H4 H5]. split; try done. by rewrite has_insert_snoc, He, orb_false_r. Qed.
Lemma gheld_insert op log m a : gheld op log → gheld (set_issued op) (log ++ [EvInsert m a]).
Proof. intros [H1 H2 H3 H4 H5]. split; simpl; try done. by rewrite has_insert_snoc, orb_true_r. Qed.

(** The sequence number a committed record is known to have. *)
Definition gating_durable (log : list ev) (seq : Seq) : Prop :=
  let m := gating_member r in
  (∃ facts row, EvFacts m (Some (Read.Got facts)) ∈ log ∧ mf_row facts = Some row ∧
     row_digest row = rk_digest (m_key m) ∧ row_seq row = seq) ∨
  (EvInsert m (Some (Insert.Inserted seq)) ∈ log ∧
   last log = Some (EvCommit (Some Commit.Durable))).

(** The end of a body that held U. *)
Definition gating_end (o : GatingOutcome.t) (op : Publish) (s : logged σ) : Prop :=
  let log := lg_log s in
  hold op = HGating ∧ (∃ n, u (core op) = Some (n, Occupant.Gating r InCall)) ∧
  match o with
  | GatingOutcome.Committed seq => keep op = false ∧ gating_durable log seq
  | GatingOutcome.Refused NotWritten _ =>
      keep op = false ∧ EvCommit (Some Commit.Durable) ∉ log ∧
      (has_insert log = false ∨ (has_commit log = false ∧ rollback_end NotWritten log))
  | GatingOutcome.Refused Uncertain _ =>
      keep op = true ∧ EvCommit (Some Commit.Durable) ∉ log ∧ has_insert log = true ∧
      phase (core op) = NeedBarrier
  end.
Definition gating_unwound (op : Publish) (s : logged σ) : Prop := gheld op (lg_log s).

(** A refusal before the insert. *)
Lemma wp_gating_refuse reason op (s : logged σ) : gheld op (lg_log s) → quiet (lg_log s) →
  wp (roll_back ;; refused NotWritten reason) gating_end gating_unwound op s.
Proof.
  intros Hg Hq. apply wp_bind, wp_roll_back; intros st.
  - do 2 (split; [apply Hg|]).
    destruct (quiet_snoc _ (EvRollback (Some Rollback.Undone)) Hq eq_refl eq_refl) as [H1 H2].
    split_and!; [apply Hg|by apply no_commit_durable|by left].
  - do 2 (split; [apply Hg|]).
    destruct (quiet_snoc _ (EvRollback (Some Rollback.Unknown)) Hq eq_refl eq_refl) as [H1 H2].
    split_and!; [apply Hg|by apply no_commit_durable|by left].
  - by apply gheld_read.
Qed.

(** The rollback after a failed insert; the attempt is kept if uncertain. *)
Lemma wp_gating_failed reason op (s : logged σ) : gheld op (lg_log s) →
  has_insert (lg_log s) = true → has_commit (lg_log s) = false →
  wp (failed ;; p ← roll_back;
      modify (λ op, set_keep op (bool_decide (p = Uncertain))) ;; refused p reason)
    gating_end gating_unwound op s.
Proof.
  intros Hg Hi Hc. apply wp_bind. cbn. apply wp_bind, wp_roll_back; intros st.
  - do 2 (split; [apply Hg|]). simpl.
    split_and!; [done|apply no_commit_durable; by rewrite has_commit_snoc, Hc|].
    right. split; [by rewrite has_commit_snoc, Hc|]. unfold rollback_end. by rewrite last_snoc.
  - do 2 (split; [apply Hg|]). simpl.
    split_and!; [done|apply no_commit_durable; by rewrite has_commit_snoc, Hc
      |by rewrite has_insert_snoc, Hi|done].
  - apply gheld_read; [done|]. by apply gheld_core.
Qed.

Lemma wp_gating_commit seq op (s : logged σ) : gheld op (lg_log s) →
  EvInsert (gating_member r) (Some (Insert.Inserted seq)) ∈ lg_log s →
  has_insert (lg_log s) = true → has_commit (lg_log s) = false →
  wp (a ← verb txn_commit;
      match a with
      | Commit.Durable => mret (GatingOutcome.Committed seq)
      | Commit.Unknown =>
          failed ;; roll_back ;; modify (λ op, set_keep op true) ;; refused Uncertain Reason.Storage
      end) gating_end gating_unwound op s.
Proof.
  intros Hg Hin Hi Hc. apply wp_bind, wp_log_verb. intros a st.
  assert (Hnd : ∀ e, a ≠ Some Commit.Durable → e ≠ EvCommit (Some Commit.Durable) →
    EvCommit (Some Commit.Durable) ∉ (lg_log s ++ [EvCommit a]) ++ [e]).
  { intros e Hr He. rewrite !elem_of_app, !list_elem_of_singleton.
    pose proof (no_commit_durable _ Hc). intros [[?|?]|?]; congruence. }
  destruct a as [[|]|].
  - do 2 (split; [apply Hg|]). split; [apply Hg|]. right. cbn [lg_log].
    split; [apply elem_of_app; by left|by rewrite last_snoc].
  - apply wp_bind. cbn. apply wp_bind, wp_roll_back; intros st'.
    + do 2 (split; [apply Hg|]). simpl.
      split_and!; [done|by apply Hnd|by rewrite !has_insert_snoc, Hi|done].
    + do 2 (split; [apply Hg|]). simpl.
      split_and!; [done|by apply Hnd|by rewrite !has_insert_snoc, Hi|done].
    + do 2 (apply gheld_read; [done|]). by apply gheld_core.
  - by apply gheld_read.
Qed.

Lemma gating_insert_wp op (s : logged σ) : gheld op (lg_log s) → quiet (lg_log s) →
  wp (gating_insert (gating_member r)) gating_end gating_unwound op s.
Proof.
  intros Hg [Hi Hc]. unfold gating_insert. apply wp_bind. unfold wp at 1, modify.
  apply wp_bind, wp_log_verb. intros a st.
  set (s1 := MkLogged st (lg_log s ++ [EvInsert (gating_member r) a])).
  assert (Hg1 : gheld (set_issued op) (lg_log s1)) by by apply gheld_insert.
  assert (Hi1 : has_insert (lg_log s1) = true) by (simpl; by rewrite has_insert_snoc, orb_true_r).
  assert (Hc1 : has_commit (lg_log s1) = false) by (simpl; by rewrite has_commit_snoc, Hc).
  destruct a as [[seq| |]|]; [| | |done].
  - apply wp_gating_commit; try done.
    apply elem_of_app. right. by apply list_elem_of_singleton.
  - apply wp_bind. cbn. apply wp_gating_failed; try done.
    apply gheld_core; [done|]. by apply do_latch_fields.
  - apply wp_bind. cbn. by apply wp_gating_failed.
Qed.

Lemma gating_body_wp op (st : σ) : gheld (set_hold op HGating) [] →
  wp (gating_body r) gating_end gating_unwound op (MkLogged st []).
Proof.
  intros Hg. unfold gating_body. apply wp_bind. unfold wp at 1, modify.
  apply wp_bind, wp_log_verb. intros a st1.
  assert (Hfail : wp (failed ;; refused NotWritten Reason.Storage) gating_end gating_unwound
    (set_hold op HGating) (MkLogged st1 ([] ++ [EvOpen a]))).
  { apply wp_bind. cbn. split; [done|]. split; [apply Hg|]. split; [apply Hg|].
    split; [by apply no_commit_durable|by left]. }
  destruct a as [[[]| |]|]; [|exact Hfail..|by apply (gheld_read _ [])].
  cbv zeta. apply wp_bind, wp_log_verb. intros a st2.
  set (s2 := MkLogged st2 (([] ++ [EvOpen (Some (Read.Got tt))]) ++ [EvFacts (gating_member r) a])).
  assert (Hg2 : gheld (set_hold op HGating) (lg_log s2)) by (do 2 (apply gheld_read; [done|]); done).
  assert (Hq2 : quiet (lg_log s2)) by done.
  assert (Hread : ∀ b, wp (read_failed b ;; roll_back ;; refused NotWritten Reason.Storage)
    gating_end gating_unwound (set_hold op HGating) s2).
  { intros b. apply wp_bind, wp_read_failed. apply wp_gating_refuse; [|done].
    apply gheld_core; [done|]. destruct b; simpl; [|done]. by apply (do_latch_fields (set_phase _ _)). }
  destruct a as [[facts| |]|]; [|apply Hread..|done].
  apply wp_bind. unfold wp at 1, on_core.
  pose proof (classify_u (core (set_hold op HGating)) 0 (gating_member r) facts []) as Hu.
  pose proof (λ seq, classify_gating_present (core (set_hold op HGating)) 0 (gating_member r) facts [] seq)
    as Hp.
  destruct (classify _ 0 _ facts [] true) as [k v]. simpl in Hu, Hp.
  assert (Hg3 : gheld (set_core (set_hold op HGating) k) (lg_log s2)) by by apply gheld_core.
  destruct v as [seq| |reason cf]; [|by apply gating_insert_wp|by apply wp_gating_refuse].
  destruct (Hp seq eq_refl) as (row & Hrow & Hd & Hseq).
  assert (Hdur : ∀ e, gating_durable (lg_log s2 ++ [e]) seq).
  { intros e. left. exists facts, row. split_and!; try done. apply elem_of_app. left.
    apply elem_of_app. right. by apply list_elem_of_singleton. }
  apply wp_bind, wp_roll_back; intros st3.
  - split; [done|]. split; [apply Hg3|]. split; [apply Hg3|apply Hdur].
  - split; [done|]. split; [apply Hg3|]. split; [apply Hg3|apply Hdur].
  - by apply gheld_read.
Qed.
End GatingTruth.

Definition append_gating_post (k : Core) (r : GatingRecord) (out : option GatingOutcome.t)
    (p : Published) (log : list ev) : Prop :=
  match out with
  | Some (GatingOutcome.Committed seq) => u (pub_core p) = None ∧ gating_durable r log seq
  | Some (GatingOutcome.Refused NotWritten _) =>
      u (pub_core p) = u k ∧ EvCommit (Some Commit.Durable) ∉ log ∧
      (has_insert log = false ∨ (has_commit log = false ∧ rollback_end NotWritten log))
  | Some (GatingOutcome.Refused Uncertain _) =>
      (∃ n, u (pub_core p) = Some (n, Occupant.Gating r ReturnedUncertain)) ∧
      phase (pub_core p) = NeedBarrier ∧ EvCommit (Some Commit.Durable) ∉ log ∧ has_insert log = true
  | None =>
      phase (pub_core p) = NeedBarrier ∧
      if has_insert log then ∃ n, u (pub_core p) = Some (n, Occupant.Gating r Unwound)
      else u (pub_core p) = None
  end.

(** From the end of a body that held U to what the guard's drop leaves. *)
Lemma gating_end_post {σ} k r o op (s : logged σ) : u k = None → gating_end r o op s →
  append_gating_post k r (Some o) (drop_publish (set_done op true)) (lg_log s).
Proof.
  intros Hk (Hh & (n & Hu) & Ho). unfold append_gating_post, drop_publish, settle_unwound, settle_hold.
  cbn [done_ set_done hold keep core pub_core]. rewrite Hh, Hu.
  destruct o as [seq|[|] reason]; simpl in *; destruct Ho as (Hkeep & Ho); rewrite Hkeep; simpl;
    rewrite ?Hk; try done.
  destruct Ho as (A1 & A2 & A3). split_and!; try done. by exists n.
Qed.

Lemma gating_unwound_post {σ} k r op (s : logged σ) : gating_unwound r op s →
  append_gating_post k r None (drop_publish op) (lg_log s).
Proof.
  intros [Hh (n & Hu) Hi Hk Hd]. unfold append_gating_post, drop_publish. cbn [pub_core].
  rewrite settle_hold_phase. unfold settle_hold, settle_unwound. rewrite Hd.
  destruct (is_Some_b _ && is_None_b _); simpl; rewrite Hh, Hi, Hu; simpl;
    (split; [done|]); destruct (has_insert (lg_log s)); simpl; rewrite ?Hd; by eauto.
Qed.

Lemma append_gating_refused k r (op : Publish) reason : hold op = HNothing → u (core op) = u k →
  append_gating_post k r (Some (GatingOutcome.Refused NotWritten reason))
    (drop_publish (set_done op true)) [].
Proof.
  intros Hh Hu. unfold append_gating_post, drop_publish, settle_unwound, settle_hold. simpl.
  rewrite Hh. simpl. split_and!; [done|by intros ?%not_elem_of_nil|by left].
Qed.

Lemma run_gating_post {σ} k r (body : M (logged σ) GatingOutcome.t) op0 (st : σ) : u k = None →
  wp body (gating_end r) (gating_unwound r) op0 (MkLogged st []) →
  let '(out, op, s') := body op0 (MkLogged st []) in
  append_gating_post k r out
    (match out with Some _ => drop_publish (set_done op true) | None => drop_publish op end) (lg_log s').
Proof.
  intros Hk H. unfold wp in H. destruct (body op0 (MkLogged st [])) as [[[o|] op] s'].
  - by apply gating_end_post.
  - by apply gating_unwound_post.
Qed.

Lemma append_gating_spec {σ} `{!Txn σ} k r (st : σ) :
  let '(out, p, s') := append_gating k r (MkLogged st []) in
  append_gating_post k r out p (lg_log s').
Proof.
  unfold append_gating, run_op, gating. unfold mbind at 1, M_bind at 1, get_core. cbn [core Publish_new].
  assert (Hrefuse : ∀ e : Entry.t, append_gating_post k r (Some (GatingOutcome.Refused NotWritten (Reason.Entry e)))
    (drop_publish (set_done (Publish_new k) true)) []) by (intros; by apply append_gating_refused).
  destruct (negb (bool_decide (session k = Open))); [apply Hrefuse|].
  destruct (is_Some_b (latch k)); [apply Hrefuse|].
  destruct (negb (bool_decide (phase k = Healthy))); [apply Hrefuse|].
  destruct (is_Some_b (c k) || is_Some_b (x k)); [apply Hrefuse|].
  destruct (u k) as [[n o]|] eqn:Hu; cbn [is_Some_b].
  { apply append_gating_refused; [done|]. simpl. by apply do_latch_fields. }
  unfold mbind, M_bind, on_core. cbn [core Publish_new].
  unfold place, next_occupancy. destruct (_ ≫= _) as [n|]; cbn [negb fst snd].
  - set (op0 := set_core (Publish_new k) _).
    assert (Hg : gheld r (set_hold op0 HGating) []) by (split; [done|by exists n|done..]).
    pose proof (run_gating_post k r (gating_body r) op0 st Hu (gating_body_wp r op0 st Hg)) as H.
    destruct (gating_body r op0 (MkLogged st [])) as [[[o|] op] s']; exact H.
  - apply append_gating_refused; [done|]. simpl. by apply do_latch_fields.
Qed.

(** ** The claims *)

(** A storage that keeps nothing and whose transactions commit. *)
Module CommitStorage.
#[local] Instance txn : Txn unit := {
  txn_open s := (Some (Read.Got tt), s);
  txn_facts _ _ s := (Some (Read.Got (MkMemberFacts None None None None false)), s);
  txn_insert _ _ s := (Some (Insert.Inserted 5), s);
  txn_commit s := (Some Commit.Durable, s);
  txn_rollback s := (Some Rollback.Undone, s);
}.

Definition session_core (s : Session) : Core := set_session (Core_new 1 (MkLimits 4 4)) s.
Definition t : Ticket := MkTicket 1 Armed.
Definition fact (id : bytes) : FactRecord := MkFactRecord (MkMember (MkRecordKey id [7]) None).
Definition batch : list FactRecord := [fact [1]; fact [2]].
Definition run (k : Core) : option FactOutcome.t * Published * logged unit :=
  append_facts k t batch (MkLogged tt []).
Definition result : Published := Eval vm_compute in snd (fst (run (session_core Open))).
Definition after : logged unit := Eval vm_compute in snd (run (session_core Open)).
Lemma committed :
  append_facts (session_core Open) t batch (MkLogged tt []) = (Some FactOutcome.Committed, result, after).
Proof. vm_compute. reflexivity. Qed.
End CommitStorage.

(** C14. A fact append tells the truth about what it may have written, for any
    storage and any ticket. [Committed] is answered only if every record of the
    batch is in the ledger: the storage reported its very row, or inserted it in
    this call's transaction and answered the commit, the last verb of the call,
    as durable; the ticket then comes back as it was. A batch not applied is
    counted, in the lent ticket and in the shared word alike; [NotWritten] is
    answered only if no insert was issued, or no commit was and the storage
    answered the rollback as undone; [Uncertain] only after an insert, with the
    store left needing its barrier; a conflict only before any insert; never
    after a durable commit. A call that unwinds counts its ticket, as
    [Uncertain] exactly if it had issued an insert. A refused ticket is not
    touched, no verb is called, and the fault is latched. *)
Theorem facts_result_truthful σ `{!Txn σ} k t batch (st : σ) :
  let '(out, p, s') := append_facts k t batch (MkLogged st []) in
  let log := lg_log s' in
  match out with
  | Some FactOutcome.Committed =>
      pub_ticket p = Some t ∧ pub_counted p = false ∧
      ∀ record, record ∈ batch →
        present_in log (fact_member record) ∨
        (inserted_in log (fact_member record) ∧ last log = Some (EvCommit (Some Commit.Durable)))
  | Some (FactOutcome.NotApplied c _) =>
      counted_ticket t c p ∧ EvCommit (Some Commit.Durable) ∉ log ∧
      match persistence c with
      | NotWritten => has_insert log = false ∨ (has_commit log = false ∧ rollback_end NotWritten log)
      | Uncertain => has_insert log = true ∧ phase (pub_core p) = NeedBarrier
      end ∧
      (is_Some (conflict_member c) → has_insert log = false)
  | Some (FactOutcome.Rejected _) =>
      pub_ticket p = None ∧ pub_counted p = false ∧ log = [] ∧ is_Some (latch (pub_core p))
  | None =>
      phase (pub_core p) = NeedBarrier ∧
      ∃ c, counted_ticket t c p ∧ (persistence c = Uncertain ↔ has_insert log = true)
  end.
Proof.
  pose proof (append_facts_spec k t batch st) as H.
  destruct (append_facts k t batch (MkLogged st [])) as [[[[|c r|f]|] p] s']; destruct H as [_ H];
    try done. destruct H as (H1 & H2 & Hd). split_and!; try done. intros record Hin.
  rewrite Forall_forall in Hd. apply (Hd (fact_member record)). by apply list_elem_of_fmap_2.
Qed.

(** A sealed session writes nothing more: a fact append in it issues no
    insert, whatever the storage says of the batch's records, and a gating
    append is refused before any verb. *)
Theorem sealed_inserts_nothing σ `{!Txn σ} k t batch r (st : σ) :
  session k = Sealed →
  has_insert (lg_log (snd (append_facts k t batch (MkLogged st [])))) = false ∧
  append_gating k r (MkLogged st []) =
    (Some (GatingOutcome.Refused NotWritten (Reason.Entry Entry.NotOpen)),
     drop_publish (set_done (Publish_new k) true), MkLogged st []).
Proof.
  intros Hs. split.
  - pose proof (append_facts_spec k t batch st) as H.
    destruct (append_facts k t batch (MkLogged st [])) as [[out p] s']. by apply H.
  - unfold append_gating, run_op, gating, mbind, M_bind, get_core. cbn [core Publish_new].
    by rewrite Hs.
Qed.

Lemma sealed_inserts_nothing_witness :
  fst (fst (CommitStorage.run (CommitStorage.session_core Sealed))) =
    Some (FactOutcome.NotApplied (MkCounted NotWritten None) (Reason.SessionClosed 0)) ∧
  has_insert (lg_log (snd (CommitStorage.run (CommitStorage.session_core Sealed)))) = false.
Proof.
  split; [vm_compute; reflexivity|].
  apply (sealed_inserts_nothing unit (CommitStorage.session_core Sealed) CommitStorage.t
    CommitStorage.batch (MkGatingRecord (MkMember (MkRecordKey [1] [7]) None)) tt).
  reflexivity.
Defined.

(** A gating append that may have written is never forgotten: answered
    [Uncertain], or unwound after its insert was issued, it leaves its very
    record in U with how the call ended, and the store needing its barrier; in
    every other case U is as it was. [Committed] carries the sequence number
    the storage gave, for its row or for this call's durably committed insert;
    [NotWritten] is answered only if no insert was issued, or no commit was
    and the rollback was answered as undone. *)
Theorem gating_never_forgotten σ `{!Txn σ} k r (st : σ) :
  let '(out, p, s') := append_gating k r (MkLogged st []) in
  let log := lg_log s' in
  match out with
  | Some (GatingOutcome.Committed seq) => u (pub_core p) = None ∧ gating_durable r log seq
  | Some (GatingOutcome.Refused NotWritten _) =>
      u (pub_core p) = u k ∧ EvCommit (Some Commit.Durable) ∉ log ∧
      (has_insert log = false ∨ (has_commit log = false ∧ rollback_end NotWritten log))
  | Some (GatingOutcome.Refused Uncertain _) =>
      (∃ n, u (pub_core p) = Some (n, Occupant.Gating r ReturnedUncertain)) ∧
      phase (pub_core p) = NeedBarrier ∧ EvCommit (Some Commit.Durable) ∉ log ∧ has_insert log = true
  | None =>
      phase (pub_core p) = NeedBarrier ∧
      if has_insert log then ∃ n, u (pub_core p) = Some (n, Occupant.Gating r Unwound)
      else u (pub_core p) = None
  end.
Proof. exact (append_gating_spec k r st). Qed.
