(* ===== verification/LedgerRecovery.v ===== *)
(** * The ledger's batches, acknowledgements and recovery

    Claims about single operations of [ledger/protocol.rs] ([well_formed],
    [append_acknowledgement]) and the liveness of its recovery: with a storage
    that answers, the worker's operations bring any store that is open and not
    latched back to admitting work. *)

From S2P Require Import Prelude LedgerWord LedgerCore LedgerProps LedgerStore LedgerTruth.

Local Open Scope Z_scope.

(** ** Well-formed batches *)

Lemma elem_of_indexed {A} (l : list A) i a : (i, a) ∈ indexed l ↔ l !! i = Some a.
Proof.
  unfold indexed. rewrite list_elem_of_lookup. split.
  - intros (j & Hj). rewrite lookup_zip_with in Hj.
    destruct (seq 0 (length l) !! j) as [j'|] eqn:E; simplify_eq/=.
    destruct (l !! j) eqn:E'; simplify_eq/=. apply lookup_seq in E as [-> _]. done.
  - intros Hi. exists i. rewrite lookup_zip_with.
    assert (Hlt : (i < length l)%nat) by by eapply lookup_lt_Some.
    rewrite lookup_seq_lt by done. simpl. by rewrite Hi.
Qed.

Lemma forallb_indexed {A} (f : nat * A → bool) (l : list A) :
  forallb f (indexed l) = true ↔ ∀ i a, l !! i = Some a → f (i, a) = true.
Proof.
  rewrite forallb_forall. split.
  - intros H i a Hi. apply H, list_elem_of_In. by apply elem_of_indexed.
  - intros H [i a] Hin. apply H, elem_of_indexed, list_elem_of_In, Hin.
Qed.

Definition batch_members (batch : list FactRecord) : list Member := fact_member <$> batch.

(** The order a batch must have: a prepared part before the later parts of
    its own commitment. *)
Record batch_ok (ms : list Member) : Prop := {
  bo_ids : ∀ i j a b, ms !! i = Some a → ms !! j = Some b →
    rk_id (m_key a) = rk_id (m_key b) → i = j;
  bo_parts : ∀ i j a b p, ms !! i = Some a → ms !! j = Some b →
    m_part a = Some p → m_part b = Some p → i = j;
  bo_order : ∀ i j a b pa pb, ms !! i = Some a → ms !! j = Some b →
    m_part a = Some pa → m_part b = Some pb → part_commitment pa = part_commitment pb →
    part_role pa ≠ Prepared → part_role pb = Prepared → (j < i)%nat;
}.

Lemma pair_ok_spec i j a b : pair_ok i j a b = true ↔
  rk_id (m_key b) ≠ rk_id (m_key a) ∧
  ∀ pa pb, m_part a = Some pa → m_part b = Some pb → pa ≠ pb ∧
    ¬ (part_commitment pa = part_commitment pb ∧ part_role pa ≠ Prepared ∧
       part_role pb = Prepared ∧ (i < j)%nat).
Proof.
  unfold pair_ok. rewrite andb_true_iff, negb_true_iff, bool_decide_eq_false.
  apply and_iff_compat_l. destruct (m_part a) as [pa|], (m_part b) as [pb|]; try (by split).
  rewrite andb_true_iff, !negb_true_iff, bool_decide_eq_false, !andb_false_iff, negb_false_iff,
    !bool_decide_eq_false, bool_decide_eq_true, Nat.ltb_ge.
  split.
  - intros [H1 H2] pa' pb' [= <-] [= <-]. split; [done|]. intros (A1 & A2 & A3 & A4).
    destruct H2 as [[[?|?]|?]|?]; [done..|lia].
  - intros H. destruct (H _ _ eq_refl eq_refl) as [H1 H2]. split; [done|].
    destruct (decide (part_commitment pa = part_commitment pb)); [|auto].
    destruct (decide (part_role pa = Prepared)); [auto|].
    destruct (decide (part_role pb = Prepared)); [|auto].
    right. destruct (decide (i < j)%nat); [|lia]. exfalso. by apply H2.
Qed.

Lemma pairs_ok_spec ms :
  (∀ i a j b, ms !! i = Some a → ms !! j = Some b → j ≠ i → pair_ok i j a b = true) ↔ batch_ok ms.
Proof.
  split.
  - intros H. split.
    + intros i j a b Ha Hb He. destruct (decide (j = i)) as [|Hne]; [done|].
      apply (H _ _ _ _ Ha Hb), pair_ok_spec in Hne as [Hid _]. congruence.
    + intros i j a b p Ha Hb Hpa Hpb. destruct (decide (j = i)) as [|Hne]; [done|].
      apply (H _ _ _ _ Ha Hb), pair_ok_spec in Hne as [_ Hp]. by destruct (Hp _ _ Hpa Hpb).
    + intros i j a b pa pb Ha Hb Hpa Hpb Hc Hra Hrb.
      destruct (decide (j = i)) as [->|Hne]; [congruence|].
      destruct (decide (i < j)%nat) as [Hlt|]; [|lia].
      apply (H _ _ _ _ Ha Hb), pair_ok_spec in Hne as [_ Hp]. destruct (Hp _ _ Hpa Hpb) as [_ Hn].
      exfalso. by apply Hn.
  - intros [H1 H2 H3] i a j b Ha Hb Hne. apply pair_ok_spec. split.
    + intros He. apply Hne. symmetry. by eapply H1.
    + intros pa pb Hpa Hpb. split.
      * intros <-. apply Hne. symmetry. by eapply H2.
      * intros (A1 & A2 & A3 & A4). specialize (H3 _ _ _ _ _ _ Ha Hb Hpa Hpb A1 A2 A3). lia.
Qed.

Lemma pairs_forallb ms :
  forallb (λ im : nat * Member, forallb (λ jo : nat * Member,
    (jo.1 =? im.1)%nat || pair_ok im.1 jo.1 im.2 jo.2) (indexed ms)) (indexed ms) = true ↔ batch_ok ms.
Proof.
  rewrite <-pairs_ok_spec, forallb_indexed. split.
  - intros H i a j b Ha Hb Hne. specialize (H i a Ha). rewrite forallb_indexed in H.
    specialize (H j b Hb). simpl in H. apply orb_true_iff in H as [H|H]; [|done].
    apply Nat.eqb_eq in H. done.
  - intros H i a Ha. rewrite forallb_indexed. intros j b Hb. simpl. apply orb_true_iff.
    destruct (decide (j = i)) as [|Hne]; [left; by apply Nat.eqb_eq|right; by apply H].
Qed.

(** A batch passes [well_formed] if and only if it is not empty, has at
    most [BATCH_MAX] records, no two records share an identity, no two carry
    the same part, and within a commitment the prepared part comes before
    every other. *)
Theorem well_formed_spec batch :
  well_formed batch = true ↔
  batch ≠ [] ∧ (length batch ≤ BATCH_MAX)%nat ∧ batch_ok (batch_members batch).
Proof.
  unfold well_formed. fold (batch_members batch).
  rewrite !andb_true_iff, negb_true_iff, bool_decide_eq_false, Nat.leb_le, pairs_forallb.
  assert (Hlen : length (batch_members batch) = length batch) by apply length_fmap.
  assert (Hnil : batch_members batch ≠ [] ↔ batch ≠ []) by (by destruct batch).
  rewrite Hlen, Hnil. tauto.
Qed.

(** ** Acknowledgements *)

Lemma wp_verb {σ A} (f : σ → verb_result σ A) Q E op s :
  (∀ r s', f s = (r, s') → match r with Some a => Q a op s' | None => E op s' end) →
  wp (verb f) Q E op s.
Proof. intros H. unfold wp, verb. specialize (H _ _ (surjective_pairing _)). by destruct (f s) as [[]]. Qed.

(** What the recheck must say for the acknowledgement to be written. *)
Record set_agrees (set now : SetFacts) : Prop := {
  sa_frontier : sf_frontier now = sf_frontier set;
  sa_nonempty : sf_frontier set < sf_top set ∧ 1 ≤ sf_count set;
  sa_head : sf_top set ≤ sf_head set ≤ sf_head now;
  sa_count : sf_count now = sf_count set;
  sa_digest : sf_digest now = sf_digest set;
}.

Lemma ack_refusal_none set now : ack_refusal set now = None → set_agrees set now.
Proof.
  unfold ack_refusal.
  destruct (Z.eqb_spec (sf_frontier set) (sf_frontier now)); simpl; [|done].
  destruct (Z.leb_spec (sf_top set) (sf_frontier set)), (Z.ltb_spec (sf_count set) 1); simpl; try done.
  destruct (Z.ltb_spec (sf_head set) (sf_top set)), (Z.ltb_spec (sf_head now) (sf_head set)); simpl; try done.
  destruct (Z.eqb_spec (sf_count now) (sf_count set)); simpl; [|done].
  case_bool_decide; simpl; [|done]. intros _. split; try done; lia.
Qed.

Section AckTruth.
Context {σ : Type} `{!AckTxn σ} (k0 : Core) (snap : Snapshot).
Let set := snap_set snap.

(** U holds this acknowledgement while its call runs. *)
Record aheld (op : Publish) : Prop := {
  ah_hold : hold op = HAcknowledgement;
  ah_u : ∃ n, u (core op) = Some (n, Occupant.Acknowledgement set (snap_nonce snap));
  ah_keep : keep op = false;
  ah_done : done_ op = false;
  ah_frontier : frontier (core op) = frontier k0;
}.

(** The set was found unchanged in the transaction, and its commit was
    answered as durable. *)
Definition acknowledged : Prop :=
  ∃ now s1 s2 s3 s4,
    ack_recheck (sf_frontier set) (sf_top set) s1 = (Some (Read.Got now), s2) ∧
    set_agrees set now ∧ ack_commit s3 = (Some Commit.Durable, s4).

Definition ack_end (o : AckOutcome.t) (op : Publish) (_ : σ) : Prop :=
  hold op = HAcknowledgement ∧
  (∃ n, u (core op) = Some (n, Occupant.Acknowledgement set (snap_nonce snap))) ∧
  match o with
  | AckOutcome.Committed top =>
      keep op = false ∧ top = sf_top set ∧ frontier (core op) = Z.max (frontier k0) top ∧ acknowledged
  | AckOutcome.Refused _ => keep op = false ∧ frontier (core op) = frontier k0
  | AckOutcome.NotApplied NotWritten => keep op = false ∧ frontier (core op) = frontier k0
  | AckOutcome.NotApplied Uncertain =>
      keep op = true ∧ frontier (core op) = frontier k0 ∧ phase (core op) = NeedBarrier
  end.
Definition ack_unwound (op : Publish) (_ : σ) : Prop := aheld op.

Lemma aheld_core op k : aheld op → u k = u (core op) → frontier k = frontier (core op) →
  aheld (set_core op k).
Proof. intros [H1 H2 H3 H4 H5] Hu Hf. split; simpl; try done; [by rewrite Hu|congruence]. Qed.
Lemma aheld_issued op : aheld op → aheld (set_issued op).
Proof. by intros []. Qed.
Lemma aheld_latch op l : aheld op → aheld (set_core op (do_latch (core op) l)).
Proof. intros H. apply aheld_core; [done|..]; unfold do_latch; by destruct (is_None_b _). Qed.
Lemma aheld_failed op : aheld op → aheld (set_core op (set_phase (core op) NeedBarrier)).
Proof. intros H. by apply aheld_core. Qed.

Lemma wp_ack_roll_back (Q : Persistence → Publish → σ → Prop) op s :
  aheld op →
  (∀ p op' s', aheld op' →
     core op' = core op ∨ core op' = set_phase (core op) NeedBarrier →
     (p = Uncertain → phase (core op') = NeedBarrier) → Q p op' s') →
  wp ack_roll_back Q ack_unwound op s.
Proof.
  intros Ha HQ. unfold ack_roll_back. apply wp_bind, wp_verb. intros [[|]|] s' _; [..|done].
  - apply HQ; auto. done.
  - apply HQ; [by apply aheld_failed|by right|done].
Qed.

Lemma ack_apply_wp now s1 s2 op s : aheld op →
  ack_recheck (sf_frontier set) (sf_top set) s1 = (Some (Read.Got now), s2) → set_agrees set now →
  wp (ack_apply snap) ack_end ack_unwound op s.
Proof.
  intros Ha Hre Hag. unfold ack_apply. apply wp_bind. unfold wp at 1, modify.
  assert (Ha1 : aheld (set_issued op)) by by apply aheld_issued.
  assert (Hfail : ∀ op s, aheld op → wp (failed ;; p ← ack_roll_back;
      modify (λ op, set_keep op (bool_decide (p = Uncertain))) ;; mret (AckOutcome.NotApplied p))
      ack_end ack_unwound op s).
  { clear. intros op s Ha. apply wp_bind. cbn. apply wp_bind, wp_ack_roll_back; [by apply aheld_failed|].
    intros p op' s' Ha' Hcore Hp. cbn. split; [apply Ha'|]. split; [apply Ha'|].
    destruct p; simpl; [split; [done|apply Ha']|split_and!; [done|apply Ha'|by apply Hp]]. }
  apply wp_bind, wp_verb. intros [[seq| |]|] s' _; [| | |done].
  - apply wp_bind, wp_verb. intros [[|]|] s'' Hcm; [| |done].
    + cbn. split; [apply Ha1|].
      destruct Ha1 as [_ Hu Hk _ Hf]. simpl in Hu, Hk, Hf. fold set.
      simpl. split; [destruct (frontier (core op) <? sf_top set); exact Hu|].
      split_and!; [done|done| |by exists now, s1, s2, s', s''].
      destruct (Z.ltb_spec (frontier (core op)) (sf_top set)); simpl; lia.
    + apply wp_bind. cbn. apply wp_bind, wp_ack_roll_back; [exact (aheld_failed _ Ha1)|].
      intros p op' s3 Ha' Hcore Hp. cbn. split; [apply Ha'|]. split; [apply Ha'|].
      split_and!; [done|apply Ha'|]. simpl. by destruct Hcore as [-> | ->].
  - apply wp_bind. cbn. apply Hfail. exact (aheld_latch _ _ Ha1).
  - apply wp_bind. cbn. by apply Hfail.
Qed.

Lemma ack_body_wp op s : aheld (set_hold op HAcknowledgement) →
  wp (ack_body snap) ack_end ack_unwound op s.
Proof.
  intros Ha. unfold ack_body. apply wp_bind. unfold wp at 1, modify.
  assert (Hfail : ∀ s', wp (failed ;; mret (AckOutcome.NotApplied NotWritten)) ack_end ack_unwound
    (set_hold op HAcknowledgement) s').
  { intros s'. cbn. split; [done|]. split; [apply Ha|]. split; [apply Ha|apply Ha]. }
  apply wp_bind, wp_verb. intros [[[]| |]|] s1 _; [|apply Hfail..|done].
  apply wp_bind, wp_verb. intros a s2 Hre.
  assert (Hread : ∀ b, wp (read_failed b ;; ack_roll_back ;; mret (AckOutcome.NotApplied NotWritten))
    ack_end ack_unwound (set_hold op HAcknowledgement) s2).
  { intros b. apply wp_bind. unfold wp at 1.
    assert (Hb : aheld (set_core (set_hold op HAcknowledgement)
      (let k := set_phase (core op) NeedBarrier in if b then do_latch k LatchCause.Corrupt else k))).
    { apply aheld_core; [done|..]; destruct b; simpl; unfold do_latch; first [done|by destruct (is_None_b _)]. }
    destruct b; cbn; (apply wp_bind, wp_ack_roll_back; [exact Hb|]);
      intros p op' s' Ha' _ _; cbn; split_and!; apply Ha'. }
  destruct a as [[now| |]|]; [|apply Hread..|done].
  fold set in Hre |- *. destruct (ack_refusal set now) as [ref|] eqn:Href.
  - apply wp_bind, wp_ack_roll_back; [done|]. intros p op' s' Ha' _ _. cbn. split_and!; apply Ha'.
  - eapply ack_apply_wp; [done|done|]. by apply ack_refusal_none.
Qed.
End AckTruth.

Definition append_ack_post {σ} `{!AckTxn σ} (k : Core) (snap : Snapshot) (out : option AckOutcome.t)
    (p : Published) : Prop :=
  let k' := pub_core p in
  match out with
  | Some (AckOutcome.Committed top) =>
      top = sf_top (snap_set snap) ∧ frontier k' = Z.max (frontier k) top ∧ u k' = None ∧
      acknowledged (σ:=σ) snap
  | Some (AckOutcome.Refused _) | Some (AckOutcome.NotApplied NotWritten) =>
      frontier k' = frontier k ∧ u k' = u k
  | Some (AckOutcome.NotApplied Uncertain) =>
      frontier k' = frontier k ∧ phase k' = NeedBarrier ∧
      ∃ n, u k' = Some (n, Occupant.Acknowledgement (snap_set snap) (snap_nonce snap))
  | None => frontier k' = frontier k ∧ phase k' = NeedBarrier
  end.

Lemma settle_hold_frontier op : frontier (settle_hold op) = frontier (core op).
Proof.
  unfold settle_hold. case_bool_decide; [done|]. destruct (negb (keep op)); [done|].
  by destruct (u (core op)) as [[n []]|].
Qed.

Lemma ack_end_post {σ} `{!AckTxn σ} k snap o op (s : σ) : u k = None → ack_end k snap o op s →
  append_ack_post (σ:=σ) k snap (Some o) (drop_publish (set_done op true)).
Proof.
  intros Hk (Hh & (n & Hu) & Ho). unfold append_ack_post, drop_publish, settle_unwound.
  cbn [done_ set_done pub_core]. rewrite settle_hold_frontier, settle_hold_phase.
  unfold settle_hold. simpl. rewrite Hh, Hu, Hk.
  destruct o as [top|ref|[|]]; simpl in *.
  - destruct Ho as (Hkeep & -> & Hf & Ha). by rewrite Hkeep.
  - destruct Ho as (Hkeep & Hf). by rewrite Hkeep.
  - destruct Ho as (Hkeep & Hf). by rewrite Hkeep.
  - destruct Ho as (Hkeep & Hf & Hp). rewrite Hkeep. split_and!; try done. by exists n.
Qed.

Lemma ack_unwound_post {σ} `{!AckTxn σ} k snap op (s : σ) : ack_unwound k snap op s →
  append_ack_post (σ:=σ) k snap None (drop_publish op).
Proof.
  intros [Hh _ _ Hd Hf]. unfold append_ack_post, drop_publish. cbn [pub_core].
  rewrite settle_hold_frontier, settle_hold_phase. unfold settle_unwound. rewrite Hd.
  by destruct (is_Some_b _ && is_None_b _).
Qed.

Lemma append_ack_refused {σ} `{!AckTxn σ} k snap (op : Publish) ref :
  hold op = HNothing → frontier (core op) = frontier k → u (core op) = u k →
  append_ack_post (σ:=σ) k snap (Some (AckOutcome.Refused ref)) (drop_publish (set_done op true)).
Proof.
  intros Hh Hf Hu. unfold append_ack_post, drop_publish, settle_unwound, settle_hold. simpl.
  by rewrite Hh.
Qed.

Lemma append_ack_spec {σ} `{!AckTxn σ} k snap (s : σ) :
  let '(out, p, _) := append_acknowledgement k snap s in append_ack_post (σ:=σ) k snap out p.
Proof.
  unfold append_acknowledgement, run_op, acknowledgement.
  unfold mbind at 1, M_bind at 1, get_core. cbn [core Publish_new].
  assert (Hrefuse : ∀ ref, append_ack_post (σ:=σ) k snap (Some (AckOutcome.Refused ref))
    (drop_publish (set_done (Publish_new k) true))) by (intros; by apply append_ack_refused).
  destruct (negb (snap_ledger snap =? shared k)); [apply Hrefuse|].
  destruct (negb (bool_decide (session k = Open))); [apply Hrefuse|].
  destruct (is_Some_b (latch k)); [apply Hrefuse|].
  destruct (negb (bool_decide (phase k = Healthy))); [apply Hrefuse|].
  destruct (is_Some_b (c k) || is_Some_b (x k)); [apply Hrefuse|].
  assert (Hlatch : ∀ l, frontier (do_latch k l) = frontier k ∧ u (do_latch k l) = u k).
  { intros l. unfold do_latch. by destruct (is_None_b (latch k)). }
  destruct (u k) as [[n o]|] eqn:Hu; cbn [is_Some_b].
  { apply append_ack_refused; [done|apply Hlatch|]. rewrite Hu. apply Hlatch. }
  unfold mbind, M_bind, on_core. cbn [core Publish_new].
  unfold place, next_occupancy. destruct (_ ≫= _) as [n|]; cbn [negb fst snd].
  - set (op0 := set_core (Publish_new k) _).
    assert (Hg : aheld k snap (set_hold op0 HAcknowledgement)) by (split; [done|by exists n|done..]).
    pose proof (ack_body_wp (σ:=σ) k snap op0 s Hg) as H. unfold wp in H.
    destruct (ack_body snap op0 s) as [[[o|] op] s']; [by eapply ack_end_post|by eapply ack_unwound_post].
  - apply append_ack_refused; [done|apply Hlatch|]. rewrite Hu. apply Hlatch.
Qed.

(** An acknowledgement moves the frontier only when it is durable: if
    [append_acknowledgement] answers [Committed], the set of its snapshot was
    rechecked unchanged inside the transaction (frontier, count and digest
    equal, not empty, nothing above the head), the commit was answered as
    durable, and the frontier is raised to the top of the set, never lowered.
    Otherwise the frontier is as it was; a refused or undone one leaves U as
    it was, an uncertain one leaves this very acknowledgement in U and the
    store needing its barrier, as an unwound one does the barrier. *)
Theorem acknowledgement_frontier σ `{!AckTxn σ} k snap (s : σ) :
  let '(out, p, _) := append_acknowledgement k snap s in
  let k' := pub_core p in
  match out with
  | Some (AckOutcome.Committed top) =>
      top = sf_top (snap_set snap) ∧ frontier k' = Z.max (frontier k) top ∧ u k' = None ∧
      acknowledged (σ:=σ) snap
  | Some (AckOutcome.Refused _) | Some (AckOutcome.NotApplied NotWritten) =>
      frontier k' = frontier k ∧ u k' = u k
  | Some (AckOutcome.NotApplied Uncertain) =>
      frontier k' = frontier k ∧ phase k' = NeedBarrier ∧
      ∃ n, u k' = Some (n, Occupant.Acknowledgement (snap_set snap) (snap_nonce snap))
  | None => frontier k' = frontier k ∧ phase k' = NeedBarrier
  end.
Proof. exact (append_ack_spec k snap s). Qed.

(** ** Recovery *)

(** A storage that answers. An acknowledgement found in the ledger has moved
    its durable frontier. *)
Record answering (σ : Type) `{!Reads σ} `{!CellTxn σ} `{!BarrierRun σ} : Prop := {
  an_run : ∀ s : σ, ∃ s', barrier_run s = (Some true, s');
  an_row : ∀ id (s : σ), ∃ row s', rd_row id s = (Some (Read.Got row), s');
  an_ack : ∀ set nonce (s : σ),
    (∃ s', rd_acknowledgement set nonce s = (Some (Read.Got None), s')) ∨
    (∃ seq s' durable s'', rd_acknowledgement set nonce s = (Some (Read.Got (Some seq)), s') ∧
       rd_frontier s' = (Some (Read.Got durable), s'') ∧ sf_top set ≤ durable);
  an_open : ∀ s : σ, ∃ s', cell_open s = (Some (Read.Got tt), s');
  an_present : ∀ o (s : σ), ∃ seq s', cell_present o s = (Some (Read.Got seq), s');
  an_insert : ∀ o (s : σ), ∃ seq s', cell_insert o s = (Some (Insert.Inserted seq), s');
  an_commit : ∀ s : σ, ∃ s', cell_commit s = (Some Commit.Durable, s');
  an_rollback : ∀ s : σ, ∃ s', cell_rollback s = (Some Rollback.Undone, s');
}.

(** The end of a body that returned and lent nothing. *)
Definition ends (R : Core → Prop) {σ A} (_ : A) (op : Publish) (_ : σ) : Prop :=
  hold op = HNothing ∧ ticket op = None ∧ R (core op).

Lemma run_op_ends {σ A} k (body : M σ A) (s : σ) R out p s' :
  wp body (ends R) (λ _ _, False) (Publish_new k) s → run_op k body s = (out, p, s') →
  R (pub_core p) ∧ pub_counted p = false.
Proof.
  unfold wp, run_op, ends. destruct (body (Publish_new k) s) as [[[a|] op] s1]; [|done].
  intros (Hh & Ht & HR) [= _ <- _]. unfold drop_publish, settle_unwound, settle_hold. simpl.
  by rewrite Hh, Ht.
Qed.

Lemma wp_answer {σ A} (f : σ → verb_result σ A) Q E op s a s' :
  f s = (Some a, s') → Q a op s' → wp (verb f) Q E op s.
Proof. intros Hf HQ. unfold wp, verb. by rewrite Hf. Qed.

Definition live (k : Core) : Prop := session k = Open ∧ latch k = None.

(** The occupancy counters have room for one more occupant. *)
Definition room (k : Core) : Prop := ∀ i m, occupancies k !! i = Some m → m < u64_max.

Lemma place_room k cell o : length (occupancies k) = 3%nat → room k →
  ∃ n k1, place k cell o = (match cell with
      | U => set_u k1 (Some (n, o)) | C => set_c k1 (Some (n, o)) | X => set_x k1 (Some (n, o, Built)) end, true) ∧
    ∃ l, k1 = set_occupancies k l.
Proof.
  intros Hlen Hr. unfold place, next_occupancy.
  destruct (occupancies k !! Cell_index cell) as [m|] eqn:Hm.
  - specialize (Hr _ _ Hm). simpl. unfold checked_add. destruct (Z.leb_spec (m + 1) u64_max); [|lia].
    eexists _, _. split; [reflexivity|by eexists].
  - apply lookup_ge_None in Hm. destruct cell; simpl in Hm; lia.
Qed.

(** The worker's operations a store still needs: a barrier, a resolution with what it
    may place, a correction, an explanation with its emptying. *)
Definition owed (k : Core) : nat :=
  (if decide (phase k = NeedBarrier) then 1 else 0) + (if u k then 3 else 0) + (if c k then 1 else 0) +
  match x k with Some (_, _, Built) => 2 | Some (_, _, StCommitted _) => 1 | None => 0 end.

(** The tickets are left alone. *)
Definition same_tickets (w w' : world) : Prop :=
  w_tickets w' = w_tickets w ∧ w_leaked w' = w_leaked w.

Section Recovery.
Context {σ : Type} `{!Reads σ} `{!CellTxn σ} `{!BarrierRun σ}.

(** One operation of the store's worker on this storage, handed the token of an occupant
    that is there, at whatever moment it is called. *)
Inductive worker_op (k : Core) (s : σ) : Published → σ → Prop :=
| wo_barrier out p s' :
    barrier k (MkWorker (shared k)) s = (out, p, s') → worker_op k s p s'
| wo_resolve n out p s' :
    occupancy k U = Some n → resolve k (MkWorker (shared k)) (token k U n) s = (out, p, s') → worker_op k s p s'
| wo_cell cell n out p s' :
    cell ≠ U → occupancy k cell = Some n →
    append_cell k (MkWorker (shared k)) (token k cell n) s = (out, p, s') → worker_op k s p s'
| wo_empty n out p :
    occupancy k X = Some n → empty k (MkWorker (shared k)) (token k X n) tt = (out, p, tt) → worker_op k s p s.
Inductive worker_step : Core * world * σ → Core * world * σ → Prop :=
| ws_op k word ts n s p s' :
    worker_op k s p s' →
    worker_step (k, MkWorld word ts n, s) (pub_core p, MkWorld (published_word p word) ts n, s').

Lemma worker_store_op k s p s' : worker_op k s p s' → store_op k p.
Proof.
  destruct 1 as [out p s' E|n out p s' _ E|cell n out p s' _ _ E|n out p _ E];
    match type of E with ?f = _ => replace p with (snd (fst f)) by by rewrite E end; constructor.
Qed.

Context (Hans : answering σ).

(** *** What each operation does when the storage answers *)

Lemma barrier_does k s out p s' : barrier k (MkWorker (shared k)) s = (out, p, s') →
  pub_counted p = false ∧
  pub_core p = if decide (phase k = NeedBarrier)
               then set_phase k (if is_Some_b (u k) then Resolving else Healthy) else k.
Proof.
  intros E. eapply (run_op_ends _ _ _ (λ k', k' = if decide (phase k = NeedBarrier)
               then set_phase k (if is_Some_b (u k) then Resolving else Healthy) else k)) in E as [HR Hc]; [done|].
  unfold barrier_. apply wp_bind. unfold wp at 1, get_core. cbn [core Publish_new].
  unfold worker_belongs. simpl. rewrite Z.eqb_refl. simpl.
  case_bool_decide as Hp; simpl; [rewrite decide_True by done|by rewrite decide_False].
  destruct (an_run _ Hans s) as (s1 & Hrun). by eapply wp_bind, wp_answer.
Qed.

(** A resolution that answered: U empty, the store healthy, at most one new occupant. *)
Record resolved_from (k k' : Core) : Prop := {
  rf_live : live k';
  rf_u : u k' = None;
  rf_owed : (owed k' ≤ 2)%nat;
}.

Lemma place_token_wp cell o (Q : option CellToken → Publish → σ → Prop) E op s :
  length (occupancies (core op)) = 3%nat → room (core op) → cell ≠ U →
  c (core op) = None → x (core op) = None → live (core op) →
  (∀ tok k', live k' → resolved_from (core op) (set_phase (set_u k' None) Healthy) → Q (Some tok) (set_core op k') s) →
  wp (place_token cell o) Q E op s.
Proof.
  intros Hlen Hr Hcell Hc Hx Hl HQ. unfold place_token. apply wp_bind. unfold wp at 1, on_core.
  destruct (place_room (core op) cell o Hlen Hr) as (n & k1 & -> & l & ->).
  destruct cell; [done|..]; cbn [negb]; apply wp_bind; unfold wp, get_core; simpl; apply HQ; try done;
    split; try done; unfold owed; simpl; rewrite ?Hc, ?Hx; simpl; lia.
Qed.

Lemma resolved_wp k0 r op (s : σ) : hold op = HNothing → ticket op = None →
  resolved_from k0 (set_phase (set_u (core op) None) Healthy) →
  wp (resolved r) (ends (resolved_from k0)) (λ _ _, False) op s.
Proof. done. Qed.
Lemma bare_resolved k k1 : c k1 = None → x k1 = None → live k1 → resolved_from k (set_phase (set_u k1 None) Healthy).
Proof. intros Hc Hx Hl. split; [done|done|]. unfold owed. simpl. rewrite Hc, Hx. simpl. lia. Qed.

Lemma resolve_body_wp k o s : core_inv k → live k → room k → c k = None → x k = None → u_occupant o →
  wp (match o with
      | Occupant.Gating record exit => resolve_gating record exit
      | Occupant.Acknowledgement set nonce => resolve_ack set nonce
      | _ => mret Resolve.Stale
      end) (ends (resolved_from k)) (λ _ _, False) (Publish_new k) s.
Proof.
  intros Hi Hl Hroom Hc Hx Ho. pose proof (ci_occ _ (inv_cells _ Hi)) as Hlen.
  assert (Hbare : ∀ k1, c k1 = None → x k1 = None → live k1 → resolved_from k (set_phase (set_u k1 None) Healthy))
    by (intros; by apply bare_resolved).
  destruct o as [rec exit|set nonce|about seq exit|orig cause]; try done.
  - unfold resolve_gating.
    destruct (an_row _ Hans (rk_id (m_key (gating_member rec))) s) as ([row|] & s1 & Hrow);
      (eapply wp_bind, wp_answer; [done|]); [|by apply resolved_wp, Hbare].
    cbv beta iota zeta. destruct (bool_decide (row_digest row = _)); apply wp_bind, place_token_wp; try done;
      intros tok k' Hl' Hr'; by apply resolved_wp.
  - unfold resolve_ack.
    destruct (an_ack _ Hans set nonce s) as [(s1 & Hack)|(seq & s1 & durable & s2 & Hack & Hfr & Hle)];
      (eapply wp_bind, wp_answer; [done|]); [by apply resolved_wp, Hbare|].
    eapply wp_bind, wp_answer; [done|]. cbv beta iota. destruct (Z.leb_spec (sf_top set) durable); [|lia].
    apply wp_bind. unfold wp at 1, raise_frontier, put_core, modify. apply resolved_wp; [done..|]. simpl.
    destruct (frontier k <? sf_top set); by apply Hbare.
Qed.

Lemma resolve_does k n s out p s' : core_inv k → live k → (is_Some (u k) → room k) → occupancy k U = Some n →
  resolve k (MkWorker (shared k)) (token k U n) s = (out, p, s') →
  pub_counted p = false ∧ if decide (phase k = Resolving) then resolved_from k (pub_core p) else pub_core p = k.
Proof.
  intros Hi Hl Hroom Hu E. destruct (decide (phase k = Resolving)) as [Hp|Hp];
    [eapply (run_op_ends _ _ _ (resolved_from k)) in E as [HR Hc]
    |eapply (run_op_ends _ _ _ (λ k', k' = k)) in E as [HR Hc]]; try done;
    unfold resolve_; apply wp_bind; unfold wp at 1, get_core; cbn [core Publish_new];
    unfold worker_belongs, names, token; cbn -[occupancy resolve_gating resolve_ack]; rewrite !Z.eqb_refl, Hu;
    rewrite (bool_decide_eq_true_2 (Some n = Some n)), (bool_decide_eq_true_2 (U = U)) by done; destruct Hl as [Hs Hl];
    rewrite Hs, Hl, (bool_decide_eq_true_2 (Open = Open)) by done;
    cbn -[occupancy resolve_gating resolve_ack]; [rewrite (bool_decide_eq_true_2 (phase k = _)) by done|by rewrite (bool_decide_eq_false_2 (phase k = _))].
  destruct (u k) as [[n' o]|] eqn:Eu; [|simpl in Hu; by rewrite Eu in Hu].
  destruct (inv_u _ Hi _ _ Eu) as (Ho & _ & Hcn & Hxn & _). rewrite Hcn, Hxn. cbn -[resolve_gating resolve_ack].
  pose proof (resolve_body_wp k o s Hi (conj Hs Hl) (Hroom ltac:(by eexists)) Hcn Hxn Ho) as Hwp.
  destruct o; try done. by rewrite (bool_decide_eq_false_2 (exit = InCall)).
Qed.

Lemma cell_body_wp k cell o s :
  wp (cell_body cell o) (ends (λ k', ∃ seq, k' = settle_cell k cell seq)) (λ _ _, False)
    (Publish_new k) s.
Proof.
  unfold cell_body. destruct (an_open _ Hans s) as (s1 & Ho).
  eapply wp_bind, wp_answer; [done|]. destruct (an_present _ Hans o s1) as ([seq|] & s2 & Hp);
    (eapply wp_bind, wp_answer; [done|]); cbv beta iota.
  - destruct (an_rollback _ Hans s2) as (s3 & Hr). unfold cell_roll_back.
    apply wp_bind. eapply wp_bind, wp_answer; [done|]. split_and!; try done. by exists seq.
  - unfold cell_apply. apply wp_bind. unfold wp at 1, modify.
    destruct (an_insert _ Hans o s2) as (seq & s3 & Hi). eapply wp_bind, wp_answer; [done|].
    destruct (an_commit _ Hans s3) as (s4 & Hcm). eapply wp_bind, wp_answer; [done|].
    split_and!; try done. by exists seq.
Qed.

Lemma cell_does k cell n s out p s' : live k → cell ≠ U → occupancy k cell = Some n →
  append_cell k (MkWorker (shared k)) (token k cell n) s = (out, p, s') →
  pub_counted p = false ∧
  (pub_core p = k ∧ (phase k = Healthy → cell = X ∧ ∃ n o seq, x k = Some (n, o, StCommitted seq)) ∨
   phase k = Healthy ∧ (cell = X → ∃ n o, x k = Some (n, o, Built)) ∧ ∃ seq, pub_core p = settle_cell k cell seq).
Proof.
  intros [Hs Hl] Hcell Ho E.
  eapply (run_op_ends _ _ _ (λ k', (k' = k ∧ (phase k = Healthy → cell = X ∧ ∃ n o seq, x k = Some (n, o, StCommitted seq)) ∨
    phase k = Healthy ∧ (cell = X → ∃ n o, x k = Some (n, o, Built)) ∧ ∃ seq, k' = settle_cell k cell seq))) in E
    as [HR Hc]; [done|].
  unfold cell_. apply wp_bind. unfold wp at 1, get_core. cbn [core Publish_new].
  assert (Hn : names k (token k cell n) C || names k (token k cell n) X = true).
  { apply orb_true_iff. destruct cell; [done|left|right]; by apply names_spec. }
  unfold worker_belongs. simpl worker_ledger. rewrite Z.eqb_refl, Hn, Hs, Hl, (bool_decide_eq_true_2 (Open = Open)) by done. cbn -[cell_body].
  case_bool_decide as Hp; cbn -[cell_body]; [|split_and!; [done..|left; by split]].
  destruct cell; [done|..]; simpl in Ho.
  - destruct (c k) as [[n' o]|]; [|done]. eapply wp_mono; [apply cell_body_wp| |done].
    intros a op s1 (? & ? & HR). split_and!; [done..|]. right. by split_and!.
  - destruct (x k) as [[[n' o] [|seq]]|] eqn:Ex; [| |done].
    + destruct (c k) as [[]|]; (eapply wp_mono; [apply cell_body_wp| |done]);
        intros a op s1 (? & ? & HR); (split_and!; [done..|]); right; split_and!; [done|by eauto|done|done|by eauto|done].
    + destruct (c k) as [[]|]; (split_and!; [done..|]); left; (split; [done|]); intros _; (split; [done|]); by eexists _, _, _.
Qed.

Lemma empty_does k n out p : occupancy k X = Some n →
  empty k (MkWorker (shared k)) (token k X n) tt = (out, p, tt) →
  pub_counted p = false ∧
  pub_core p = match x k with Some (_, _, StCommitted _) => set_x k None | _ => k end.
Proof.
  intros Ho E. eapply (run_op_ends _ _ _ (λ k', k' = match x k with Some (_, _, StCommitted _) => set_x k None | _ => k end)) in E
    as [HR Hc]; [done|].
  unfold empty_. apply wp_bind. unfold wp at 1, get_core. cbn [core Publish_new].
  unfold worker_belongs, names, token. simpl in *. rewrite !Z.eqb_refl, Ho. simpl.
  rewrite bool_decide_eq_true_2 by done. simpl. by destruct (x k) as [[[? ?] [|]]|].
Qed.

(** *** Progress *)

(** What a store under recovery keeps. *)
Record recovering (k : Core) : Prop := {
  rc_inv : core_inv k;
  rc_live : live k;
  rc_room : is_Some (u k) → room k;
}.

Lemma settle_cell_lowers k cell seq : cell ≠ U →
  is_Some (occupancy k cell) → (cell = X → ∃ n o, x k = Some (n, o, Built)) →
  let k' := settle_cell k cell seq in
  u k' = u k ∧ live k' = live k ∧ (owed k' < owed k)%nat.
Proof.
  intros Hcell [m Hocc] Hx. unfold settle_cell. destruct cell; [done|..]; simpl in *.
  - split_and!; [done..|]. unfold owed. simpl. destruct (c k); [|done]. lia.
  - destruct (Hx eq_refl) as (n & o & E). unfold live, owed. rewrite !E.
    destruct o; simpl; split_and!; try done; apply Nat.add_lt_mono_l; lia.
Qed.

Lemma worker_op_progress k s p s' : recovering k → worker_op k s p s' →
  pub_counted p = false ∧ recovering (pub_core p) ∧ (pub_core p = k ∨ (owed (pub_core p) < owed k)%nat).
Proof.
  intros [Hi Hl Hr] Hop. pose proof (store_op_inv _ _ (worker_store_op _ _ _ _ Hop) Hi) as Hi'.
  assert (Hsame : pub_core p = k → recovering (pub_core p)) by by intros ->.
  destruct Hop as [out p s' E|n out p s' Ho E|cell n out p s' Hcell Ho E|n out p Ho E].
  - apply barrier_does in E as [Hc Ek]. case_decide as Hp; [|by auto].
    split; [done|]. split; [split; [done|by rewrite Ek|]|right].
    + rewrite Ek. exact Hr.
    + rewrite Ek. unfold owed. rewrite Hp. simpl. destruct (is_Some_b (u k)); simpl; lia.
  - eapply resolve_does in E as [Hc Ek]; [|done..]. case_decide as Hp; [|by auto].
    destruct Ek as [Hl' Hu Hd]. split; [done|]. split; [split; [done|done|by rewrite Hu; intros []]|right].
    eapply Nat.le_lt_trans; [exact Hd|]. unfold owed. simpl in Ho. destruct (u k) as [[]|]; [|done]. simpl. lia.
  - eapply cell_does in E as [Hc [[Ek _]|(Hp & Hx & seq & Ek)]]; [by auto| |done..].
    destruct (settle_cell_lowers k cell seq Hcell ltac:(by eexists) Hx) as (Hu & Hl' & Hd). rewrite <- Ek in Hu, Hl', Hd.
    split; [done|]. split; [|by right]. split; [done|by rewrite Hl'|].
    rewrite Hu. destruct (u k) as [[n1 o1]|] eqn:Eu; [by destruct (inv_u _ Hi _ _ Eu) as (_ & _ & _ & _ & ?)|by intros []].
  - apply empty_does in E as [Hc Ek]; [|done]. destruct (x k) as [[[n' o] [|seq]]|] eqn:Ex; [by auto| |by auto].
    split; [done|]. split; [split; [done|by rewrite Ek|by rewrite Ek]|right]. rewrite Ek. unfold owed. simpl. rewrite Ex. lia.
Qed.

Lemma worker_op_enabled k s : recovering k →
  clear k ∨ ∃ p s', worker_op k s p s' ∧ (owed (pub_core p) < owed k)%nat.
Proof.
  intros Hrec. pose proof Hrec as [Hi Hl Hr].
  destruct (decide (phase k = NeedBarrier)) as [Hp|Hp].
  { right. destruct (barrier k (MkWorker (shared k)) s) as [[out p] s'] eqn:E. exists p, s'.
    split; [by eapply wo_barrier|]. apply barrier_does in E as [_ ->]. rewrite decide_True by done.
    unfold owed. rewrite Hp. simpl. destruct (is_Some_b (u k)); simpl; lia. }
  destruct (decide (phase k = Resolving)) as [Hp'|Hp'].
  { right. destruct (inv_resolving _ Hi Hp') as [[n o] Hu].
    destruct (resolve k (MkWorker (shared k)) (token k U n) s) as [[out p] s'] eqn:E. exists p, s'.
    assert (Ho : occupancy k U = Some n) by (simpl; by rewrite Hu). split; [by eapply wo_resolve|].
    eapply resolve_does in E as [_ Ek]; [|done..]. rewrite decide_True in Ek by done. destruct Ek as [_ _ Hd].
    unfold owed at 2. rewrite Hu. lia. }
  assert (Hh : phase k = Healthy) by by destruct (phase k).
  assert (Hu : u k = None) by (destruct (u k) as [[n o]|] eqn:Eu; [by destruct (inv_u _ Hi _ _ Eu) as (_ & _ & _ & _ & ?)|done]).
  assert (Hcellx : ∀ cell n, cell ≠ U → occupancy k cell = Some n → (cell = X → ∃ n o, x k = Some (n, o, Built)) →
    ∃ p s', worker_op k s p s' ∧ (owed (pub_core p) < owed k)%nat).
  { intros cell n Hcell Ho Hx. destruct (append_cell k (MkWorker (shared k)) (token k cell n) s) as [[out p] s'] eqn:E.
    exists p, s'. split; [by eapply wo_cell|]. eapply cell_does in E as [_ [[_ Hno]|(_ & _ & seq & ->)]]; [| |done..].
    - destruct (Hno Hh) as (-> & n1 & o1 & seq & E1). destruct (Hx eq_refl) as (? & ? & ?). congruence.
    - by apply settle_cell_lowers; [|by eexists|]. }
  destruct (x k) as [[[n o] [|seq]]|] eqn:Ex.
  - right. apply (Hcellx X n); [done|simpl; by rewrite Ex|by eauto].
  - right. destruct (empty k (MkWorker (shared k)) (token k X n) tt) as [[out p] []] eqn:E. exists p, s.
    assert (Ho : occupancy k X = Some n) by (simpl; by rewrite Ex).
    split; [by eapply wo_empty|]. apply empty_does in E as [_ ->]; [|done]. rewrite Ex. unfold owed. simpl. rewrite Ex. lia.
  - destruct (c k) as [[n o]|] eqn:Ec.
    + right. apply (Hcellx C n); [done|simpl; by rewrite Ec|done].
    + left. destruct Hl. by split_and!.
Qed.

(** *** Runs of the worker *)

Lemma worker_step_progress limit k w s k' w' s' : recovering k → worker_step (k, w, s) (k', w', s') →
  recovering k' ∧ same_tickets w w' ∧ sys_step limit (k, w) (k', w') ∧ (k' = k ∨ (owed k' < owed k)%nat).
Proof.
  intros Hrec Hs. inversion Hs; subst. edestruct worker_op_progress as (Hc & Hrec' & Ho); [done..|].
  split_and!; try done. apply sy_store; [|done]. by eapply worker_store_op.
Qed.
Lemma worker_steps_progress limit x y : rtc worker_step x y → recovering x.1.1 →
  recovering y.1.1 ∧ same_tickets x.1.2 y.1.2 ∧ history limit x.1 y.1.
Proof.
  induction 1 as [|[[k w] s] [[k1 w1] s1] z Hs _ IH]; intros Hrec; [by split_and!; [|split|apply rtc_refl]|].
  edestruct (worker_step_progress limit) as (Hrec1 & [E1 E2] & Hst & _); [done..|].
  destruct (IH Hrec1) as (? & [E3 E4] & ?). simpl in *. split_and!; [done| |by eapply rtc_l]. split; congruence.
Qed.

Lemma worker_clears n k w s : recovering k → (owed k ≤ n)%nat →
  ∃ m k' w' s', (m ≤ n)%nat ∧ nsteps worker_step m (k, w, s) (k', w', s') ∧ clear k'.
Proof.
  revert k w s. induction n as [n IH] using (well_founded_induction lt_wf). intros k [word ts l] s Hrec Hn.
  destruct (worker_op_enabled k s Hrec) as [Hc|(p & s' & Hop & Hlt)].
  { exists 0%nat, k, (MkWorld word ts l), s. split_and!; [lia|constructor|done..]. }
  destruct (worker_op_progress _ _ _ _ Hrec Hop) as (_ & Hrec' & _).
  destruct n as [|n]; [lia|].
  destruct (IH n ltac:(lia) (pub_core p) (MkWorld (published_word p word) ts l) s' Hrec' ltac:(lia))
    as (m & k' & w' & s2 & Hm & Hsteps & Hc).
  exists (S m), k', w', s2. split_and!; [lia| |done]. econstructor; [by apply ws_op|done].
Qed.

Lemma owed_bound k : core_inv k → (owed k ≤ 4)%nat.
Proof.
  intros Hi. unfold owed. destruct (u k) as [[n o]|] eqn:Eu.
  - destruct (inv_u _ Hi _ _ Eu) as (_ & _ & -> & -> & _). case_decide; simpl; lia.
  - case_decide; destruct (c k), (x k) as [[[] []]|]; simpl; lia.
Qed.
End Recovery.

(** A storage that answers, for the witness. *)
Module AnsweringStorage.
#[local] Instance reads : Reads unit := {
  rd_row _ s := (Some (Read.Got (Some (MkRow 9 [7]))), s);
  rd_explained _ s := (Some (Read.Got None), s);
  rd_acknowledgement _ _ s := (Some (Read.Got None), s);
  rd_frontier s := (Some (Read.Got 0), s);
}.
#[local] Instance cells : CellTxn unit := {
  cell_open s := (Some (Read.Got tt), s);
  cell_present _ s := (Some (Read.Got None), s);
  cell_insert _ s := (Some (Insert.Inserted 10), s);
  cell_commit s := (Some Commit.Durable, s);
  cell_rollback s := (Some Rollback.Undone, s);
}.
#[local] Instance run : BarrierRun unit := { barrier_run s := (Some true, s) }.

Lemma answers : answering unit.
Proof. split; intros; simpl; eauto. Qed.
End AnsweringStorage.

(** C21. Recovery completes. From every reachable state whose session is open and which
    is not latched, on a storage that answers and, where an attempt is in U, with room in
    the occupancy counters: whatever operations its worker calls, with no others in
    between, each leaves the core as it is or lowers what the store still owes (at most
    four operations); as long as the store is not clear (healthy, with the three cells
    empty) one of them lowers it; so at most four of them make the store clear. The
    tickets stay untouched meanwhile, and the view of the clear store admits new work if
    no counted ticket is waiting or was lost and no handover fault was raised. *)
Theorem recovery_completes σ `{!Reads σ} `{!CellTxn σ} `{!BarrierRun σ} address limits k w (s : σ) :
  answering σ → sys_reachable address limits (k, w) →
  session k = Open → latch k = None → (is_Some (u k) → room k) →
  (∀ k1 w1 s1, rtc worker_step (k, w, s) (k1, w1, s1) →
     same_tickets w w1 ∧
     (∀ k2 w2 s2, worker_step (k1, w1, s1) (k2, w2, s2) → k2 = k1 ∨ (owed k2 < owed k1)%nat) ∧
     (clear k1 ∨ ∃ k2 w2 s2, worker_step (k1, w1, s1) (k2, w2, s2) ∧ (owed k2 < owed k1)%nat)) ∧
  ∃ n k' w' s', (n ≤ 4)%nat ∧ nsteps worker_step n (k, w, s) (k', w', s') ∧ clear k' ∧
    (n_counted (w_tickets w) = 0%nat → w_leaked w = 0%nat →
     hv_handover_fault (MkHealthView (w_word w')) = false →
     admits (MkHealthView (w_word w')) = true).
Proof.
  intros Ha Hr Hs Hl Hroom. set (limit := ticket_limit limits).
  assert (Hrec : recovering k) by (split; [apply (so_core _ _ (sys_reachable_ok _ _ _ Hr))|done|done]).
  split.
  - intros k1 w1 s1 H1. destruct (worker_steps_progress Ha limit _ _ H1 Hrec) as (Hrec1 & Ht & _). simpl in *.
    split; [done|]. split.
    + intros k2 w2 s2 H2. by apply (worker_step_progress Ha limit _ _ _ _ _ _ Hrec1 H2).
    + destruct (worker_op_enabled Ha k1 s1 Hrec1) as [?|(p & s2 & Hop & Hlt)]; [by left|right].
      destruct w1 as [word ts l]. eexists _, _, _. split; [by apply ws_op|done].
  - destruct (worker_clears Ha 4 k w s Hrec (owed_bound k (rc_inv _ Hrec))) as (n & k' & w' & s' & Hn & Hsteps & Hc).
    exists n, k', w', s'. split_and!; try done. intros Hcnt Hleak Hf.
    assert (H1 : rtc worker_step (k, w, s) (k', w', s')) by (eapply rtc_nsteps_2; done).
    destruct (worker_steps_progress Ha limit _ _ H1 Hrec) as (_ & [Et El] & Hh). simpl in *.
    apply (reachable_admits address limits k'); [unfold sys_reachable, history in *; by etrans|]. by rewrite Et, El.
Qed.

Lemma recovery_completes_witness :
  owed ToyStorage.k2 = 4%nat ∧
  ∃ n k' w' s', (n ≤ 4)%nat ∧
    nsteps (@worker_step unit AnsweringStorage.reads AnsweringStorage.cells AnsweringStorage.run) n (ToyStorage.k2, MkWorld ToyStorage.w2 [] 0, tt) (k', w', s') ∧ clear k'.
Proof.
  split; [vm_compute; reflexivity|].
  destruct (recovery_completes unit 1 ToyStorage.limits ToyStorage.k2 (MkWorld ToyStorage.w2 [] 0) tt
    AnsweringStorage.answers ToyStorage.reach2) as [_ (n & k' & w' & s' & H1 & H2 & H3 & _)].
  - vm_compute. reflexivity.
  - vm_compute. reflexivity.
  - intros _ i m Hi. change (occupancies ToyStorage.k2) with [1; 0; 0] in Hi.
    destruct i as [|[|[|i]]]; simpl in Hi; [injection Hi as <-..|discriminate];
      vm_compute; reflexivity.
  - exists n, k', w', s'. split; [exact H1|]. split; [exact H2|exact H3].
Defined.
