(* ===== verification/Evidence.v ===== *)
(** * The closed codes of the mission records

    [mother/src/evidence.rs], with the enumerations it refers to
    ([mother/src/verifier.rs], [mother/src/lane.rs], [mother/src/contract.rs],
    [kernel/src/inert_page]). Mother's journal carries only codes of these
    registries: each is written through [as_str] and read back through [parse],
    and [Closed] is the promise that makes a journal line mean one thing. The
    file also holds how a File's settlement ends ([SettleCause::end]). *)

From S2P Require Import Prelude.

Local Open Scope Z_scope.
#[local] Arguments lit : simpl never.

(** The [codes!] macro's [parse]: the first value of the registry whose code
    is the text. *)
Definition parse_from {A} (all : list A) (code : A → str) (text : str) : option A :=
  List.find (λ v, bool_decide (code v = text)) all.

(** [str::strip_prefix]. *)
Fixpoint strip_prefix (p s : str) : option str :=
  match p, s with
  | [], _ => Some s
  | a :: p', b :: s' => if a =? b then strip_prefix p' s' else None
  | _ :: _, [] => None
  end.

(** [Display] of a [u8]. *)
Definition u8_decimal (n : Z) : str :=
  if n <? 10 then [48 + n]
  else if n <? 100 then [48 + n / 10; 48 + n mod 10]
  else [48 + n / 100; 48 + (n / 10) mod 10; 48 + n mod 10].

(** What a registry promises: [parse] reads exactly the codes of its values. *)
Class Closed {A} (as_str : A → str) (parse : str → option A) (every : list A) : Prop :=
  closed_parse : ∀ text v, parse text = Some v ↔ v ∈ every ∧ as_str v = text.

Lemma strip_prefix_Some p s r : strip_prefix p s = Some r ↔ s = p ++ r.
Proof.
  revert s. induction p as [|a p IH]; intros s; simpl; [naive_solver|].
  destruct s as [|b s]; [naive_solver|]. destruct (Z.eqb_spec a b) as [->|].
  - rewrite IH. naive_solver.
  - naive_solver.
Qed.

Lemma strip_prefix_app p r : strip_prefix p (p ++ r) = Some r.
Proof. by apply strip_prefix_Some. Qed.

Lemma parse_from_Some {A} (all : list A) (code : A → str) text v :
  parse_from all code text = Some v → v ∈ all ∧ code v = text.
Proof.
  intros H%find_some. rewrite <- list_elem_of_In in H.
  destruct H as [? ?%bool_decide_eq_true]. done.
Qed.

(** Equality of a registry's values is decided by their codes. *)
Lemma retract_inj {A B} (f : A → B) (g : B → option A) : (∀ v, g (f v) = Some v) → Inj (=) (=) f.
Proof. intros H x y E. pose proof (H x) as Hx. rewrite E, H in Hx. congruence. Qed.

(** The refusal codes of the inert page check ([kernel/src/inert_page/mod.rs]). *)
Module RefusalCode.
Inductive t :=
  | TooLarge | NotUtf8 | ByteOrderMark | CarriageReturn | NoFinalNewline | ControlChar
  | InvisibleChar | CharNotAllowed | ScriptElement | StyleElement | ElementNotAllowed
  | TagCase | EventHandler | StyleAttribute | UrlAttribute | AttributeNotAllowed | Comment
  | MarkupDeclaration | ProcessingInstruction | EntityNotAllowed | RemoteReference | CssUrl
  | CssImport | JavascriptScheme | DataScheme | PrologueMismatch | LangInvalid
  | TitleInvalid | CssMismatch | ContentModel | TagUnclosed | TagMisnested | VoidSyntax
  | AttributeSyntax | ClassNotAllowed | IdInvalid | IdDuplicate | EmptyElement
  | TextSpacing | DepthExceeded | TooManyElements | WordTooLong | TrailingContent
  | NotCanonical.

Definition CODES : list t :=
  [TooLarge; NotUtf8; ByteOrderMark; CarriageReturn; NoFinalNewline; ControlChar;
  InvisibleChar; CharNotAllowed; ScriptElement; StyleElement; ElementNotAllowed; TagCase;
  EventHandler; StyleAttribute; UrlAttribute; AttributeNotAllowed; Comment;
  MarkupDeclaration; ProcessingInstruction; EntityNotAllowed; RemoteReference; CssUrl;
  CssImport; JavascriptScheme; DataScheme; PrologueMismatch; LangInvalid; TitleInvalid;
  CssMismatch; ContentModel; TagUnclosed; TagMisnested; VoidSyntax; AttributeSyntax;
  ClassNotAllowed; IdInvalid; IdDuplicate; EmptyElement; TextSpacing; DepthExceeded;
  TooManyElements; WordTooLong; TrailingContent; NotCanonical].

Definition as_str (v : t) : str :=
  match v with
  | TooLarge => lit "too_large"
  | NotUtf8 => lit "not_utf8"
  | ByteOrderMark => lit "byte_order_mark"
  | CarriageReturn => lit "carriage_return"
  | NoFinalNewline => lit "no_final_newline"
  | ControlChar => lit "control_char"
  | InvisibleChar => lit "invisible_char"
  | CharNotAllowed => lit "char_not_allowed"
  | ScriptElement => lit "script_element"
  | StyleElement => lit "style_element"
  | ElementNotAllowed => lit "element_not_allowed"
  | TagCase => lit "tag_case"
  | EventHandler => lit "event_handler"
  | StyleAttribute => lit "style_attribute"
  | UrlAttribute => lit "url_attribute"
  | AttributeNotAllowed => lit "attribute_not_allowed"
  | Comment => lit "comment"
  | MarkupDeclaration => lit "markup_declaration"
  | ProcessingInstruction => lit "processing_instruction"
  | EntityNotAllowed => lit "entity_not_allowed"
  | RemoteReference => lit "remote_reference"
  | CssUrl => lit "css_url"
  | CssImport => lit "css_import"
  | JavascriptScheme => lit "javascript_scheme"
  | DataScheme => lit "data_scheme"
  | PrologueMismatch => lit "prologue_mismatch"
  | LangInvalid => lit "lang_invalid"
  | TitleInvalid => lit "title_invalid"
  | CssMismatch => lit "css_mismatch"
  | ContentModel => lit "content_model"
  | TagUnclosed => lit "tag_unclosed"
  | TagMisnested => lit "tag_misnested"
  | VoidSyntax => lit "void_syntax"
  | AttributeSyntax => lit "attribute_syntax"
  | ClassNotAllowed => lit "class_not_allowed"
  | IdInvalid => lit "id_invalid"
  | IdDuplicate => lit "id_duplicate"
  | EmptyElement => lit "empty_element"
  | TextSpacing => lit "text_spacing"
  | DepthExceeded => lit "depth_exceeded"
  | TooManyElements => lit "too_many_elements"
  | WordTooLong => lit "word_too_long"
  | TrailingContent => lit "trailing_content"
  | NotCanonical => lit "not_canonical"
  end.
End RefusalCode.

Lemma RefusalCode_roundtrip v : parse_from RefusalCode.CODES RefusalCode.as_str (RefusalCode.as_str v) = Some v.
Proof. by destruct v. Qed.
#[export] Instance RefusalCode_eq_dec : EqDecision RefusalCode.t :=
  @inj_eq_dec _ _ _ RefusalCode.as_str (retract_inj _ _ RefusalCode_roundtrip).

(** A lane's role ([lane.rs]); [parse] is [evidence::role]. *)
Module LaneRole.
Inductive t :=
  | ResearcherA | ResearcherB | Skeptic | Builder | Verifier | Sentinel.

Definition ALL : list t :=
  [ResearcherA; ResearcherB; Skeptic; Builder; Verifier; Sentinel].

Definition as_str (v : t) : str :=
  match v with
  | ResearcherA => lit "researcher_a"
  | ResearcherB => lit "researcher_b"
  | Skeptic => lit "skeptic"
  | Builder => lit "builder"
  | Verifier => lit "verifier"
  | Sentinel => lit "sentinel"
  end.
Definition parse : str → option t := parse_from ALL as_str.
End LaneRole.

Lemma LaneRole_roundtrip v : LaneRole.parse (LaneRole.as_str v) = Some v.
Proof. by destruct v. Qed.
#[export] Instance LaneRole_eq_dec : EqDecision LaneRole.t :=
  @inj_eq_dec _ _ _ LaneRole.as_str (retract_inj _ _ LaneRole_roundtrip).

(** A kind of effect on the world ([contract.rs]); [parse] is [evidence::effect_kind]. *)
Module EffectKind.
Inductive t :=
  | File | Network | Process | ModelTool | Spend.

Definition ALL : list t :=
  [File; Network; Process; ModelTool; Spend].

Definition as_str (v : t) : str :=
  match v with
  | File => lit "file"
  | Network => lit "network"
  | Process => lit "process"
  | ModelTool => lit "model_tool"
  | Spend => lit "spend"
  end.
Definition parse : str → option t := parse_from ALL as_str.
End EffectKind.

Lemma EffectKind_roundtrip v : EffectKind.parse (EffectKind.as_str v) = Some v.
Proof. by destruct v. Qed.
#[export] Instance EffectKind_eq_dec : EqDecision EffectKind.t :=
  @inj_eq_dec _ _ _ EffectKind.as_str (retract_inj _ _ EffectKind_roundtrip).

(** A broker or port class. *)
Module BrokerClass.
Inductive t :=
  | UnknownCommitment | UnknownRun | UnknownGrant | UnknownLease | WrongAgent | WrongRun
  | NotPending | NotAuthorized | Expired | Stale | GrantNotLive | NoCoveringGrant
  | RunCancelled | RunNotActive | EmergencyStopped | ResumeSuperseded | ApprovalRequired
  | ApprovalNotApplicable | ApprovalMismatch | Declined | TargetChanged | ParametersChanged
  | EvidenceUnavailable | Capacity | NotMember | Halted | Closed | InvalidAction
  | Unavailable | PortFenced | NoBrokerRoute | MissionCancelled | ActionNotHeld
  | ApprovalOutcomeUnknown | Failed | Cancelled | Revoked | NotAdmitted | NoConsent
  | AlreadyAdmitted | FileExists | ChangeTooLargeToShow | UnsupportedMountTopology
  | RecoveryRequired | FactsInvalid | FileTypeNotAllowed | PageNotInert | PageFactMissing
  | ModelNotRegistered | ModelIdentityMismatch | ModelNotLocal | ModelInvalidAddress
  | ModelInvalidModelName | ModelCloudName | ModelCloudEnabled | ModelNotInstalled
  | ModelDigestMismatch | ModelRuntimeMismatch | ModelRemote | ModelConfigMismatch
  | ModelUnavailable | ModelTimeout | ModelRequestTooLarge | ModelResponseTooLarge
  | ModelMalformed | ModelTruncated | ModelToolCalls | ModelThinkingLeaked
  | ModelEmptyContent | ModelOverBudget | ModelStopped | ModelCancelled | ModelLate
  | ModelUnsafeDelimiter | Unknown.

Definition ALL : list t :=
  [UnknownCommitment; UnknownRun; UnknownGrant; UnknownLease; WrongAgent; WrongRun;
  NotPending; NotAuthorized; Expired; Stale; GrantNotLive; NoCoveringGrant; RunCancelled;
  RunNotActive; EmergencyStopped; ResumeSuperseded; ApprovalRequired;
  ApprovalNotApplicable; ApprovalMismatch; Declined; TargetChanged; ParametersChanged;
  EvidenceUnavailable; Capacity; NotMember; Halted; Closed; InvalidAction; Unavailable;
  PortFenced; NoBrokerRoute; MissionCancelled; ActionNotHeld; ApprovalOutcomeUnknown;
  Failed; Cancelled; Revoked; NotAdmitted; NoConsent; AlreadyAdmitted; FileExists;
  ChangeTooLargeToShow; UnsupportedMountTopology; RecoveryRequired; FactsInvalid;
  FileTypeNotAllowed; PageNotInert; PageFactMissing; ModelNotRegistered;
  ModelIdentityMismatch; ModelNotLocal; ModelInvalidAddress; ModelInvalidModelName;
  ModelCloudName; ModelCloudEnabled; ModelNotInstalled; ModelDigestMismatch;
  ModelRuntimeMismatch; ModelRemote; ModelConfigMismatch; ModelUnavailable; ModelTimeout;
  ModelRequestTooLarge; ModelResponseTooLarge; ModelMalformed; ModelTruncated;
  ModelToolCalls; ModelThinkingLeaked; ModelEmptyContent; ModelOverBudget; ModelStopped;
  ModelCancelled; ModelLate; ModelUnsafeDelimiter; Unknown].

Definition code (v : t) : str :=
  match v with
  | UnknownCommitment => lit "unknown_commitment"
  | UnknownRun => lit "unknown_run"
  | UnknownGrant => lit "unknown_grant"
  | UnknownLease => lit "unknown_lease"
  | WrongAgent => lit "wrong_agent"
  | WrongRun => lit "wrong_run"
  | NotPending => lit "not_pending"
  | NotAuthorized => lit "not_authorized"
  | Expired => lit "expired"
  | Stale => lit "stale_policy_generation"
  | GrantNotLive => lit "grant_not_live"
  | NoCoveringGrant => lit "no_covering_grant"
  | RunCancelled => lit "run_cancelled"
  | RunNotActive => lit "run_not_active"
  | EmergencyStopped => lit "emergency_stopped"
  | ResumeSuperseded => lit "resume_superseded"
  | ApprovalRequired => lit "approval_required"
  | ApprovalNotApplicable => lit "approval_not_applicable"
  | ApprovalMismatch => lit "approval_mismatch"
  | Declined => lit "declined"
  | TargetChanged => lit "target_changed"
  | ParametersChanged => lit "parameters_changed"
  | EvidenceUnavailable => lit "evidence_unavailable"
  | Capacity => lit "capacity"
  | NotMember => lit "not_member"
  | Halted => lit "halted"
  | Closed => lit "closed"
  | InvalidAction => lit "invalid_action"
  | Unavailable => lit "unavailable"
  | PortFenced => lit "port_fenced"
  | NoBrokerRoute => lit "no_broker_route"
  | MissionCancelled => lit "mission_cancelled"
  | ActionNotHeld => lit "action_not_held"
  | ApprovalOutcomeUnknown => lit "approval_outcome_unknown"
  | Failed => lit "failed"
  | Cancelled => lit "cancelled"
  | Revoked => lit "revoked"
  | NotAdmitted => lit "not_admitted"
  | NoConsent => lit "no_consent"
  | AlreadyAdmitted => lit "already_admitted"
  | FileExists => lit "file_exists"
  | ChangeTooLargeToShow => lit "change_too_large_to_show"
  | UnsupportedMountTopology => lit "unsupported_mount_topology"
  | RecoveryRequired => lit "recovery_required"
  | FactsInvalid => lit "facts_invalid"
  | FileTypeNotAllowed => lit "file_type_not_allowed"
  | PageNotInert => lit "page_not_inert"
  | PageFactMissing => lit "page_fact_missing"
  | ModelNotRegistered => lit "model_not_registered"
  | ModelIdentityMismatch => lit "model_identity_mismatch"
  | ModelNotLocal => lit "model_not_local"
  | ModelInvalidAddress => lit "model_invalid_address"
  | ModelInvalidModelName => lit "model_invalid_model_name"
  | ModelCloudName => lit "model_cloud_name"
  | ModelCloudEnabled => lit "model_cloud_enabled"
  | ModelNotInstalled => lit "model_not_installed"
  | ModelDigestMismatch => lit "model_digest_mismatch"
  | ModelRuntimeMismatch => lit "model_runtime_mismatch"
  | ModelRemote => lit "model_remote"
  | ModelConfigMismatch => lit "model_config_mismatch"
  | ModelUnavailable => lit "model_unavailable"
  | ModelTimeout => lit "model_timeout"
  | ModelRequestTooLarge => lit "model_request_too_large"
  | ModelResponseTooLarge => lit "model_response_too_large"
  | ModelMalformed => lit "model_malformed"
  | ModelTruncated => lit "model_truncated"
  | ModelToolCalls => lit "model_tool_calls"
  | ModelThinkingLeaked => lit "model_thinking_leaked"
  | ModelEmptyContent => lit "model_empty_content"
  | ModelOverBudget => lit "model_over_budget"
  | ModelStopped => lit "model_stopped"
  | ModelCancelled => lit "model_cancelled"
  | ModelLate => lit "model_late"
  | ModelUnsafeDelimiter => lit "model_unsafe_delimiter"
  | Unknown => lit "unknown"
  end.
Definition parse : str → option t := parse_from ALL code.

(** What the broker said, as a value of the registry. *)
Definition of_ (text : str) : t := default Unknown (parse text).
End BrokerClass.

Lemma BrokerClass_roundtrip v : BrokerClass.parse (BrokerClass.code v) = Some v.
Proof. by destruct v. Qed.
#[export] Instance BrokerClass_eq_dec : EqDecision BrokerClass.t :=
  @inj_eq_dec _ _ _ BrokerClass.code (retract_inj _ _ BrokerClass_roundtrip).

(** Why a mission is held. *)
Module HeldReason.
Inductive t :=
  | UncleanShutdown.

Definition ALL : list t :=
  [UncleanShutdown].

Definition code (v : t) : str :=
  match v with
  | UncleanShutdown => lit "unclean_shutdown"
  end.
Definition parse : str → option t := parse_from ALL code.
End HeldReason.

Lemma HeldReason_roundtrip v : HeldReason.parse (HeldReason.code v) = Some v.
Proof. by destruct v. Qed.
#[export] Instance HeldReason_eq_dec : EqDecision HeldReason.t :=
  @inj_eq_dec _ _ _ HeldReason.code (retract_inj _ _ HeldReason_roundtrip).

(** What ended a Files publication's authority after the broker's final check. *)
Module PublicationCause.
Inductive t :=
  | EmergencyStop | Cancelled | Revoked | Expired | CommitmentExpired | WriteGrantRevoked
  | WriteGrantExpired | Unknown.

Definition ALL : list t :=
  [EmergencyStop; Cancelled; Revoked; Expired; CommitmentExpired; WriteGrantRevoked;
  WriteGrantExpired; Unknown].

Definition code (v : t) : str :=
  match v with
  | EmergencyStop => lit "emergency_stop"
  | Cancelled => lit "cancelled"
  | Revoked => lit "revoked"
  | Expired => lit "expired"
  | CommitmentExpired => lit "commitment_expired"
  | WriteGrantRevoked => lit "write_grant_revoked"
  | WriteGrantExpired => lit "write_grant_expired"
  | Unknown => lit "unknown"
  end.
Definition parse : str → option t := parse_from ALL code.

(** What the broker said, as a value of the registry. *)
Definition of_ (text : str) : t := default Unknown (parse text).
End PublicationCause.

Lemma PublicationCause_roundtrip v : PublicationCause.parse (PublicationCause.code v) = Some v.
Proof. by destruct v. Qed.
#[export] Instance PublicationCause_eq_dec : EqDecision PublicationCause.t :=
  @inj_eq_dec _ _ _ PublicationCause.code (retract_inj _ _ PublicationCause_roundtrip).
(** The page checks: the facts codes of [inert_page/facts.rs], and the checks
    and failure codes of [verifier.rs]. *)
Module FactCode.
Inductive t :=
| FactsInvalid
| PhoneFormat
| FactPhoneLike
| NameNotHeading
| NameNotTitle
| HoursLineMissing (index : Z)
| PhoneMissing
| ForeignNumber.

Definition CODES : list str :=
  [lit "facts_invalid"; lit "phone_format"; lit "fact_phone_like"; lit "name_not_heading";
   lit "name_not_title"; lit "hours_line_missing"; lit "phone_missing"; lit "foreign_number"].

Definition position (c : t) : nat :=
  match c with
  | FactsInvalid => 0
  | PhoneFormat => 1
  | FactPhoneLike => 2
  | NameNotHeading => 3
  | NameNotTitle => 4
  | HoursLineMissing _ => 5
  | PhoneMissing => 6
  | ForeignNumber => 7
  end.

Definition as_str (c : t) : str := nth (position c) CODES [].
End FactCode.

#[export] Instance FactCode_eq_dec : EqDecision FactCode.t.
Proof. solve_decision. Defined.

Module CheckId.
Inductive t := V0 | V1 | V2 | V3 | V4 | V5.

Definition ALL : list t := [V0; V1; V2; V3; V4; V5].

Definition as_str (i : t) : str :=
  match i with
  | V0 => lit "v0"
  | V1 => lit "v1"
  | V2 => lit "v2"
  | V3 => lit "v3"
  | V4 => lit "v4"
  | V5 => lit "v5"
  end.
End CheckId.

#[export] Instance CheckId_eq_dec : EqDecision CheckId.t.
Proof. solve_decision. Defined.

Module CheckCode.
Inductive t :=
| NoPublication
| PublishedMismatch
| PageNotInert (code : RefusalCode.t)
| PolicyChanged
| FactMissing (code : FactCode.t)
| NameNotVisible
| HoursLineNotVisible (index : Z)
| PhoneNotVisible
| ReaderUnsupported
| EmailNotSupported.

Definition to_string (c : t) : str :=
  match c with
  | NoPublication => lit "no_publication"
  | PublishedMismatch => lit "published_mismatch"
  | PageNotInert code => lit "page_not_inert:" ++ RefusalCode.as_str code
  | PolicyChanged => lit "policy_changed"
  | FactMissing (FactCode.HoursLineMissing index) =>
      lit "hours_line_missing:" ++ u8_decimal index
  | FactMissing code => FactCode.as_str code
  | NameNotVisible => lit "name_not_visible"
  | HoursLineNotVisible index => lit "hours_line_not_visible:" ++ u8_decimal index
  | PhoneNotVisible => lit "phone_not_visible"
  | ReaderUnsupported => lit "reader_unsupported"
  | EmailNotSupported => lit "email_not_supported"
  end.
End CheckCode.

#[export] Instance CheckCode_eq_dec : EqDecision CheckCode.t.
Proof. solve_decision. Defined.

(** [POLICY_V1.facts_hours_max_lines]. *)
Definition facts_hours_max_lines : Z := 7.

(** Every V0-V5 failure code, with its check: the closed registry. *)
Definition check_codes : list (CheckId.t * CheckCode.t) :=
  let hours := seqZ 0 facts_hours_max_lines in
  let fact code := (CheckId.V3, CheckCode.FactMissing code) in
  [(CheckId.V0, CheckCode.NoPublication); (CheckId.V1, CheckCode.PublishedMismatch)] ++
  ((λ code, (CheckId.V2, CheckCode.PageNotInert code)) <$> RefusalCode.CODES) ++
  [(CheckId.V2, CheckCode.PolicyChanged)] ++
  [fact FactCode.NameNotHeading; fact FactCode.NameNotTitle] ++
  ((λ index, fact (FactCode.HoursLineMissing index)) <$> hours) ++
  [fact FactCode.PhoneMissing; fact FactCode.ForeignNumber] ++
  [(CheckId.V4, CheckCode.NameNotVisible)] ++
  ((λ index, (CheckId.V4, CheckCode.HoursLineNotVisible index)) <$> hours) ++
  [(CheckId.V4, CheckCode.PhoneNotVisible); (CheckId.V4, CheckCode.ReaderUnsupported)] ++
  [(CheckId.V5, CheckCode.EmailNotSupported)].

(** Whether [id] may journal [code]. *)
Definition is_check_result (id : CheckId.t) (code : str) : bool :=
  bool_decide (code = lit "pass") || bool_decide (code = lit "not_run") ||
  match strip_prefix (lit "fail:") code with
  | Some code =>
      existsb (λ p, bool_decide (p.1 = id) && bool_decide (CheckCode.to_string p.2 = code))
        check_codes
  | None => false
  end.

Module VerifyCode.
Inductive t :=
| Identity
| Check (code : CheckCode.t).

Definition as_str (c : t) : str :=
  match c with
  | Identity => lit "verification_identity"
  | Check code => CheckCode.to_string code
  end.
End VerifyCode.

#[export] Instance VerifyCode_eq_dec : EqDecision VerifyCode.t.
Proof. solve_decision. Defined.

(** Why the Verifier failed a mission. *)
Module VerifyFailReason.
Inductive t :=
| VerifierFailed
| VerifierGaveNoVerdict
| Check (code : VerifyCode.t).

Definition as_str (r : t) : str :=
  match r with
  | VerifierFailed => lit "verifier_fail"
  | VerifierGaveNoVerdict => lit "verifier_gave_no_verdict"
  | Check code => lit "check:" ++ VerifyCode.as_str code
  end.

Definition every : list t :=
  [VerifierFailed; VerifierGaveNoVerdict; Check VerifyCode.Identity] ++
  ((λ p, Check (VerifyCode.Check p.2)) <$> check_codes).

Definition parse : str → option t := parse_from every as_str.
End VerifyFailReason.

#[export] Instance VerifyFailReason_eq_dec : EqDecision VerifyFailReason.t.
Proof. solve_decision. Defined.

(** Mother's own refusal of a lane's effect, before any port call. *)
Module MotherRefusal.
Inductive t :=
| ForbiddenEffect (kind : EffectKind.t)
| BudgetMoneyZero
| SpendNotSupported
| NoRequestedFolder
| FileRequestNotRelative
| FileNameInvalid
| FileNotText
| FileTooLarge
| FileTooManyLines
| FileFolderNotWorkspace.

#[global] Instance t_eq_dec : EqDecision t.
Proof. solve_decision. Defined.

Definition FILE_REFUSALS : list (t * str) :=
  [(FileNameInvalid, lit "file_name_invalid");
   (FileNotText, lit "file_not_text");
   (FileTooLarge, lit "file_too_large");
   (FileTooManyLines, lit "file_too_many_lines");
   (FileFolderNotWorkspace, lit "file_folder_not_workspace")].

Definition as_str (r : t) : str :=
  match r with
  | ForbiddenEffect kind => lit "forbidden_effect:" ++ EffectKind.as_str kind
  | BudgetMoneyZero => lit "budget_money_zero"
  | SpendNotSupported => lit "spend_not_supported"
  | NoRequestedFolder => lit "no_requested_folder"
  | FileRequestNotRelative => lit "file_request_not_relative"
  | file =>
      match List.find (λ p, bool_decide (p.1 = file)) FILE_REFUSALS with
      | Some (_, code) => code
      | None => []
      end
  end.

Definition parse (text : str) : option t :=
  match strip_prefix (lit "forbidden_effect:") text with
  | Some kind => ForbiddenEffect <$> EffectKind.parse kind
  | None =>
      if bool_decide (text = lit "budget_money_zero") then Some BudgetMoneyZero
      else if bool_decide (text = lit "spend_not_supported") then Some SpendNotSupported
      else if bool_decide (text = lit "no_requested_folder") then Some NoRequestedFolder
      else if bool_decide (text = lit "file_request_not_relative") then
        Some FileRequestNotRelative
      else fst <$> List.find (λ p, bool_decide (p.2 = text)) FILE_REFUSALS
  end.

Definition every : list t :=
  (ForbiddenEffect <$> EffectKind.ALL) ++
  [BudgetMoneyZero; SpendNotSupported; NoRequestedFolder; FileRequestNotRelative] ++
  FILE_REFUSALS.*1.
End MotherRefusal.

(** Why a mission was blocked. *)
Module BlockReason.
Inductive t :=
| WaitUnknown
| ApprovalNotClosed
| WaitedRestUnreadable
| BudgetTime
| BudgetModelCalls
| LaneIdentityChanged
| TooManyEffects
| JournalFailed
| AwaitingOwnerApproval
| EffectOutcomeUnknown
| PhaseInterrupted
| LaneHalt (role : LaneRole.t)
| Refused (refusal : MotherRefusal.t)
| BrokerRefused (class : BrokerClass.t)
| FilesConsentUnverifiable
| FilePublicationInterrupted (cause : PublicationCause.t)
| FilePublicationTimeBudget
| FilePublicationOwnerStop
| FilePublicationRecoveryRequired
| FilePublicationUncertain
| FilePublicationDoorHalted
| FilePublicationApprovalDeadline
| ModelNotPinned
| ModelIdentityChanged
| ModelAdmissionRefused
| ReceiptMissing.

#[global] Instance t_eq_dec : EqDecision t.
Proof. solve_decision. Defined.

Definition BLOCK_CODES : list (t * str) :=
  [(WaitUnknown, lit "wait_unknown");
   (ApprovalNotClosed, lit "approval_not_closed");
   (WaitedRestUnreadable, lit "waited_rest_unreadable");
   (BudgetTime, lit "budget_time");
   (BudgetModelCalls, lit "budget_model_calls");
   (LaneIdentityChanged, lit "lane_identity_changed");
   (TooManyEffects, lit "too_many_effects");
   (JournalFailed, lit "journal_failed");
   (AwaitingOwnerApproval, lit "awaiting_owner_approval");
   (EffectOutcomeUnknown, lit "effect_outcome_unknown");
   (PhaseInterrupted, lit "phase_interrupted");
   (FilesConsentUnverifiable, lit "files_consent_unverifiable");
   (FilePublicationTimeBudget, lit "file_publication_interrupted:time_budget");
   (FilePublicationOwnerStop, lit "file_publication_interrupted:owner_stop");
   (FilePublicationRecoveryRequired, lit "file_publication_recovery_required");
   (FilePublicationUncertain, lit "file_publication_uncertain");
   (FilePublicationDoorHalted, lit "file_publication_interrupted:door_halted");
   (FilePublicationApprovalDeadline, lit "file_publication_interrupted:approval_deadline");
   (ModelNotPinned, lit "model_not_pinned");
   (ModelIdentityChanged, lit "model_identity_changed");
   (ModelAdmissionRefused, lit "model_admission_refused");
   (ReceiptMissing, lit "receipt_missing")].

Definition as_str (r : t) : str :=
  match r with
  | LaneHalt role => lit "lane_halt:" ++ LaneRole.as_str role
  | Refused refusal => MotherRefusal.as_str refusal
  | BrokerRefused class => lit "broker_refused:" ++ BrokerClass.code class
  | FilePublicationInterrupted cause =>
      lit "file_publication_interrupted:" ++ PublicationCause.code cause
  | simple =>
      match List.find (λ p, bool_decide (p.1 = simple)) BLOCK_CODES with
      | Some (_, code) => code
      | None => []
      end
  end.

Definition parse (text : str) : option t :=
  match List.find (λ p, bool_decide (p.2 = text)) BLOCK_CODES with
  | Some found => Some found.1
  | None =>
      match strip_prefix (lit "lane_halt:") text with
      | Some r => LaneHalt <$> LaneRole.parse r
      | None =>
          match strip_prefix (lit "broker_refused:") text with
          | Some class => BrokerRefused <$> BrokerClass.parse class
          | None =>
              match strip_prefix (lit "file_publication_interrupted:") text with
              | Some cause => FilePublicationInterrupted <$> PublicationCause.parse cause
              | None => Refused <$> MotherRefusal.parse text
              end
          end
      end
  end.

Definition every : list t :=
  BLOCK_CODES.*1 ++ (LaneHalt <$> LaneRole.ALL) ++ (Refused <$> MotherRefusal.every) ++
  (BrokerRefused <$> BrokerClass.ALL) ++ (FilePublicationInterrupted <$> PublicationCause.ALL).
End BlockReason.

(** Why a mission was stopped. *)
Module StopReason.
Inductive t :=
| Owner
| EmergencyStop
| PrivateContentUnavailable
| DoorHalted
| Ended (reason : BlockReason.t).

Definition ALL : list t := [Owner; EmergencyStop; PrivateContentUnavailable; DoorHalted].

Definition code (r : t) : str :=
  match r with
  | Owner => lit "owner"
  | EmergencyStop => lit "emergency_stop"
  | PrivateContentUnavailable => lit "private_content_unavailable"
  | DoorHalted => lit "door_halted"
  | Ended _ => lit "ended"
  end.

Definition as_str (r : t) : str :=
  match r with
  | Ended reason => lit "ended:" ++ BlockReason.as_str reason
  | reason => code reason
  end.

Definition parse (text : str) : option t :=
  match strip_prefix (lit "ended:") text with
  | Some reason => Ended <$> BlockReason.parse reason
  | None => parse_from ALL code text
  end.

Definition every : list t := ALL ++ (Ended <$> BlockReason.every).
End StopReason.

#[export] Instance StopReason_eq_dec : EqDecision StopReason.t.
Proof. solve_decision. Defined.

(** What a File's settlement found. *)
Module SettlementOutcome.
Inductive t :=
| Published (recovery_required : bool) (interrupted : list PublicationCause.t)
| NotPublished
| Uncertain.
End SettlementOutcome.

#[export] Instance SettlementOutcome_eq_dec : EqDecision SettlementOutcome.t.
Proof. solve_decision. Defined.

(** The mission's end in a settlement's terminal line. *)
Module SettlementEnd.
Inductive t :=
| Block (reason : BlockReason.t)
| Stop (reason : StopReason.t).

Definition as_str (e : t) : str :=
  match e with
  | Block reason => BlockReason.as_str reason
  | Stop reason => StopReason.as_str reason
  end.
End SettlementEnd.

#[export] Instance SettlementEnd_eq_dec : EqDecision SettlementEnd.t.
Proof. solve_decision. Defined.

(** Why a File's settlement began, and how it ends given its outcome. *)
Module SettleCause.
Inductive t :=
| Stop (reason : StopReason.t)
| TimeBudget
| Ended (reason : BlockReason.t).

Definition as_str (c : t) : str :=
  match c with
  | Stop reason => lit "stop:" ++ StopReason.as_str reason
  | TimeBudget => lit "time_budget"
  | Ended reason => lit "ended:" ++ BlockReason.as_str reason
  end.

Definition parse (text : str) : option t :=
  if bool_decide (text = lit "time_budget") then Some TimeBudget
  else
    match strip_prefix (lit "stop:") text with
    | Some reason => Stop <$> StopReason.parse reason
    | None => reason ← strip_prefix (lit "ended:") text; Ended <$> BlockReason.parse reason
    end.

Definition every : list t :=
  (Stop <$> StopReason.every) ++ [TimeBudget] ++ (Ended <$> BlockReason.every).

Definition published_end (c : t) : BlockReason.t :=
  match c with
  | Stop StopReason.Owner => BlockReason.FilePublicationOwnerStop
  | Stop StopReason.EmergencyStop =>
      BlockReason.FilePublicationInterrupted PublicationCause.EmergencyStop
  | Stop StopReason.DoorHalted => BlockReason.FilePublicationDoorHalted
  | Stop StopReason.PrivateContentUnavailable =>
      BlockReason.FilePublicationInterrupted PublicationCause.Unknown
  | TimeBudget | Stop (StopReason.Ended BlockReason.BudgetTime) =>
      BlockReason.FilePublicationTimeBudget
  | Ended reason | Stop (StopReason.Ended reason) => reason
  end.

Definition end_ (c : t) (outcome : SettlementOutcome.t) : SettlementEnd.t :=
  match outcome with
  | SettlementOutcome.Uncertain => SettlementEnd.Block BlockReason.FilePublicationUncertain
  | SettlementOutcome.Published true _ =>
      SettlementEnd.Block BlockReason.FilePublicationRecoveryRequired
  | SettlementOutcome.Published false _ => SettlementEnd.Block (published_end c)
  | SettlementOutcome.NotPublished =>
      match c with
      | Stop reason => SettlementEnd.Stop reason
      | TimeBudget => SettlementEnd.Block BlockReason.BudgetTime
      | Ended reason => SettlementEnd.Block reason
      end
  end.
End SettleCause.

#[export] Instance SettleCause_eq_dec : EqDecision SettleCause.t.
Proof. solve_decision. Defined.

(** [SettlementOutcome]'s methods. *)
Definition conclusive (o : SettlementOutcome.t) : bool :=
  match o with SettlementOutcome.Uncertain => false | _ => true end.

Definition ordinary_end (o : SettlementOutcome.t) : option SettlementEnd.t :=
  match o with
  | SettlementOutcome.Uncertain =>
      Some (SettlementEnd.Block BlockReason.FilePublicationUncertain)
  | SettlementOutcome.Published true _ =>
      Some (SettlementEnd.Block BlockReason.FilePublicationRecoveryRequired)
  | SettlementOutcome.Published false interrupted =>
      (λ cause, SettlementEnd.Block (BlockReason.FilePublicationInterrupted cause)) <$>
        head interrupted
  | SettlementOutcome.NotPublished => None
  end.

Definition deadline_end (o : SettlementOutcome.t) : option SettlementEnd.t :=
  match o with
  | SettlementOutcome.Published false [] =>
      Some (SettlementEnd.Block BlockReason.FilePublicationApprovalDeadline)
  | other => ordinary_end other
  end.

(** Why a lane failed a mission, or why a page's proof could not be recorded. *)
Module FailReason.
Inductive t :=
| LaneFail (role : LaneRole.t)
| ReceiptMissing
| ReceiptPolicyMissing
| DeliverableInvalid.

#[global] Instance t_eq_dec : EqDecision t.
Proof. solve_decision. Defined.

Definition PROOF_FAILS : list (t * str) :=
  [(ReceiptMissing, lit "receipt_missing");
   (ReceiptPolicyMissing, lit "receipt_policy_missing");
   (DeliverableInvalid, lit "deliverable_invalid")].

Definition as_str (r : t) : str :=
  match r with
  | LaneFail role => lit "lane_fail:" ++ LaneRole.as_str role
  | proof =>
      match List.find (λ p, bool_decide (p.1 = proof)) PROOF_FAILS with
      | Some (_, code) => code
      | None => []
      end
  end.

Definition parse (text : str) : option t :=
  match List.find (λ p, bool_decide (p.2 = text)) PROOF_FAILS with
  | Some (reason, _) => Some reason
  | None => r ← strip_prefix (lit "lane_fail:") text; LaneFail <$> LaneRole.parse r
  end.

Definition every : list t := (LaneFail <$> LaneRole.ALL) ++ PROOF_FAILS.*1.
End FailReason.

(** Why a waited action will not run. *)
Module LapseReason.
Inductive t :=
| ApprovalExpired
| ApprovalLapsed (class : BrokerClass.t)
| Ended (reason : BlockReason.t).

Definition as_str (r : t) : str :=
  match r with
  | ApprovalExpired => lit "approval_expired"
  | ApprovalLapsed class => lit "approval_lapsed:" ++ BrokerClass.code class
  | Ended reason => BlockReason.as_str reason
  end.

Definition parse (text : str) : option t :=
  if bool_decide (text = lit "approval_expired") then Some ApprovalExpired
  else
    match strip_prefix (lit "approval_lapsed:") text with
    | Some class => ApprovalLapsed <$> BrokerClass.parse class
    | None => Ended <$> BlockReason.parse text
    end.

Definition every : list t :=
  [ApprovalExpired] ++ (ApprovalLapsed <$> BrokerClass.ALL) ++ (Ended <$> BlockReason.every).
End LapseReason.

#[export] Instance LapseReason_eq_dec : EqDecision LapseReason.t.
Proof. solve_decision. Defined.

(** Why a consent answer was not taken. *)
Module ConsentRefusedReason.
Inductive t :=
| MissionChanged
| AnotherRequest
| BrokerRefused (class : BrokerClass.t).

Definition as_str (r : t) : str :=
  match r with
  | MissionChanged => lit "mission_changed"
  | AnotherRequest => lit "another_request"
  | BrokerRefused class => lit "broker_refused:" ++ BrokerClass.code class
  end.

Definition parse (text : str) : option t :=
  if bool_decide (text = lit "mission_changed") then Some MissionChanged
  else if bool_decide (text = lit "another_request") then Some AnotherRequest
  else class ← strip_prefix (lit "broker_refused:") text;
       BrokerRefused <$> BrokerClass.parse class.

Definition every : list t :=
  [MissionChanged; AnotherRequest] ++ (BrokerRefused <$> BrokerClass.ALL).
End ConsentRefusedReason.

#[export] Instance ConsentRefusedReason_eq_dec : EqDecision ConsentRefusedReason.t.
Proof. solve_decision. Defined.

(** What the port said of a dispatched effect. *)
Module SettledOutcome.
Inductive t :=
| Done
| AwaitingApproval
| Refused (class : BrokerClass.t).

Definition as_str (o : t) : str :=
  match o with
  | Done => lit "done"
  | AwaitingApproval => lit "awaiting_approval"
  | Refused class => lit "refused:" ++ BrokerClass.code class
  end.

Definition parse (text : str) : option t :=
  if bool_decide (text = lit "done") then Some Done
  else if bool_decide (text = lit "awaiting_approval") then Some AwaitingApproval
  else class ← strip_prefix (lit "refused:") text; Refused <$> BrokerClass.parse class.

Definition every : list t := [Done; AwaitingApproval] ++ (Refused <$> BrokerClass.ALL).
End SettledOutcome.

#[export] Instance SettledOutcome_eq_dec : EqDecision SettledOutcome.t.
Proof. solve_decision. Defined.

(** ** The registries are closed *)

Lemma closed_intro {A} (as_str : A → str) parse every :
  (∀ text v, parse text = Some v → v ∈ every ∧ as_str v = text) →
  (∀ v, v ∈ every → parse (as_str v) = Some v) →
  Closed as_str parse every.
Proof. intros H1 H2 text v. split; [apply H1|]. intros [Hv <-]. by apply H2. Qed.

(** Over the whole registry the round trip is a computation. *)
Lemma roundtrip_by_computation {A} `{EqDecision A} (as_str : A → str) parse every :
  forallb (λ v, bool_decide (parse (as_str v) = Some v)) every = true →
  ∀ v, v ∈ every → parse (as_str v) = Some v.
Proof.
  rewrite forallb_forall. intros H v Hv. apply list_elem_of_In, H in Hv.
  by apply bool_decide_eq_true in Hv.
Qed.

Lemma find_pair_Some {A B} `{EqDecision B} (l : list (A * B)) (b : B) p :
  List.find (λ p, bool_decide (p.2 = b)) l = Some p → p ∈ l ∧ p.2 = b.
Proof.
  intros H%find_some. rewrite <- list_elem_of_In in H.
  destruct H as [? ?%bool_decide_eq_true]. done.
Qed.

(** Membership of a value of a finite registry, by evaluation. *)
Ltac by_membership :=
  match goal with |- ?x ∈ ?l => apply (bool_decide_eq_true_1 (x ∈ l)); vm_compute; reflexivity end.

Lemma LaneRole_every v : v ∈ LaneRole.ALL.
Proof. destruct v; by_membership. Qed.
Lemma EffectKind_every v : v ∈ EffectKind.ALL.
Proof. destruct v; by_membership. Qed.
Lemma BrokerClass_every v : v ∈ BrokerClass.ALL.
Proof. destruct v; by_membership. Qed.
Lemma PublicationCause_every v : v ∈ PublicationCause.ALL.
Proof. destruct v; by_membership. Qed.
Lemma MotherRefusal_every v : v ∈ MotherRefusal.every.
Proof. destruct v as [[]| | | | | | | | |]; by_membership. Qed.

Create HintDb codes.
#[export] Hint Resolve LaneRole_every EffectKind_every BrokerClass_every
  PublicationCause_every MotherRefusal_every : codes.

(** Membership of a value: a constant by evaluation; for one with a parameter
    some block of the registry holds the parameter. *)
Ltac in_registry every :=
  match goal with
  | |- ?x ∈ _ => is_constructor x; by_membership
  | _ => unfold every; rewrite ?elem_of_app, ?list_elem_of_fmap; eauto 12 with codes
  end.

Lemma BlockReason_every v : v ∈ BlockReason.every.
Proof. destruct v; in_registry BlockReason.every. Qed.
#[export] Hint Resolve BlockReason_every : codes.

Lemma StopReason_every v : v ∈ StopReason.every.
Proof. destruct v; in_registry StopReason.every. Qed.
#[export] Hint Resolve StopReason_every : codes.

Lemma SettleCause_every v : v ∈ SettleCause.every.
Proof. destruct v; in_registry SettleCause.every. Qed.

Lemma FailReason_every v : v ∈ FailReason.every.
Proof. destruct v as [[]| | |]; by_membership. Qed.

Lemma LapseReason_every v : v ∈ LapseReason.every.
Proof. destruct v; in_registry LapseReason.every. Qed.

Lemma ConsentRefusedReason_every v : v ∈ ConsentRefusedReason.every.
Proof. destruct v; in_registry ConsentRefusedReason.every. Qed.

Lemma SettledOutcome_every v : v ∈ SettledOutcome.every.
Proof. destruct v; in_registry SettledOutcome.every. Qed.

(** Inverts a [parse] that answered [Some]. *)
Ltac invert_parse :=
  repeat match goal with
  | H : match ?x with Some _ => _ | None => _ end = Some _ |- _ =>
      let E := fresh "E" in destruct x eqn:E
  | H : (if bool_decide (?x = ?y) then _ else _) = Some _ |- _ =>
      destruct (decide (x = y)); [rewrite bool_decide_eq_true_2 in H by done
                                 |rewrite bool_decide_eq_false_2 in H by done]
  | H : _ ≫= _ = Some _ |- _ => apply bind_Some in H as (? & ? & ?)
  | H : _ <$> _ = Some _ |- _ => apply fmap_Some in H as (? & ? & ?)
  | H : strip_prefix _ _ = Some _ |- _ => apply strip_prefix_Some in H
  | H : List.find _ _ = Some _ |- _ => apply find_pair_Some in H as [? ?]
  | H : parse_from _ _ _ = Some _ |- _ => apply parse_from_Some in H as [? ?]
  | H : Some _ = Some _ |- _ => injection H as H
  | H : None = Some _ |- _ => discriminate H
  end; subst.

(** The codes of the simple reasons are those of their table. *)
Lemma table_code {A} `{EqDecision A} (table : list (A * str)) (as_str : A → str) p :
  forallb (λ p, bool_decide (as_str p.1 = p.2)) table = true → p ∈ table → as_str p.1 = p.2.
Proof.
  rewrite forallb_forall. intros H Hp. apply list_elem_of_In, H in Hp.
  by apply bool_decide_eq_true in Hp.
Qed.

#[export] Instance LaneRole_closed : Closed LaneRole.as_str LaneRole.parse LaneRole.ALL.
Proof.
  apply closed_intro; [intros ?? ?; unfold LaneRole.parse in *; by invert_parse|].
  intros v _. apply LaneRole_roundtrip.
Qed.

#[export] Instance EffectKind_closed : Closed EffectKind.as_str EffectKind.parse EffectKind.ALL.
Proof.
  apply closed_intro; [intros ?? ?; unfold EffectKind.parse in *; by invert_parse|].
  intros v _. apply EffectKind_roundtrip.
Qed.

#[export] Instance BrokerClass_closed : Closed BrokerClass.code BrokerClass.parse BrokerClass.ALL.
Proof.
  apply closed_intro; [intros ?? ?; unfold BrokerClass.parse in *; by invert_parse|].
  intros v _. apply BrokerClass_roundtrip.
Qed.

#[export] Instance HeldReason_closed : Closed HeldReason.code HeldReason.parse HeldReason.ALL.
Proof.
  apply closed_intro; [intros ?? ?; unfold HeldReason.parse in *; by invert_parse|].
  intros v _. apply HeldReason_roundtrip.
Qed.

#[export] Instance PublicationCause_closed :
  Closed PublicationCause.code PublicationCause.parse PublicationCause.ALL.
Proof.
  apply closed_intro; [intros ?? ?; unfold PublicationCause.parse in *; by invert_parse|].
  intros v _. apply PublicationCause_roundtrip.
Qed.

#[export] Instance VerifyFailReason_closed :
  Closed VerifyFailReason.as_str VerifyFailReason.parse VerifyFailReason.every.
Proof.
  apply closed_intro; [intros ?? ?; unfold VerifyFailReason.parse in *; by invert_parse|].
  apply roundtrip_by_computation. by vm_compute.
Qed.

(** A parameter read by its own registry. *)
Lemma closed_code {A} (as_str : A → str) parse every `{!Closed as_str parse every} text v :
  parse text = Some v → as_str v = text.
Proof. intros H%closed_parse. by destruct H. Qed.

Ltac param_codes :=
  repeat match goal with
  | H : LaneRole.parse _ = Some _ |- _ =>
      apply (closed_code LaneRole.as_str _ LaneRole.ALL) in H
  | H : EffectKind.parse _ = Some _ |- _ =>
      apply (closed_code EffectKind.as_str _ EffectKind.ALL) in H
  | H : BrokerClass.parse _ = Some _ |- _ =>
      apply (closed_code BrokerClass.code _ BrokerClass.ALL) in H
  | H : PublicationCause.parse _ = Some _ |- _ =>
      apply (closed_code PublicationCause.code _ PublicationCause.ALL) in H
  end; subst.

#[export] Instance MotherRefusal_closed :
  Closed MotherRefusal.as_str MotherRefusal.parse MotherRefusal.every.
Proof.
  apply closed_intro; [|apply roundtrip_by_computation; by vm_compute].
  intros text v H. split; [apply MotherRefusal_every|].
  unfold MotherRefusal.parse in H. invert_parse; param_codes; [done..|].
  by apply (table_code MotherRefusal.FILE_REFUSALS).
Qed.

#[export] Instance BlockReason_closed :
  Closed BlockReason.as_str BlockReason.parse BlockReason.every.
Proof.
  apply closed_intro; [|apply roundtrip_by_computation; by vm_compute].
  intros text v H. split; [apply BlockReason_every|].
  unfold BlockReason.parse in H. invert_parse; param_codes; [|done..|].
  - by apply (table_code BlockReason.BLOCK_CODES).
  - by apply (closed_code MotherRefusal.as_str MotherRefusal.parse MotherRefusal.every text).
Qed.
Lemma BlockReason_code text v : BlockReason.parse text = Some v → BlockReason.as_str v = text.
Proof. apply (closed_code _ _ BlockReason.every). Qed.

#[export] Instance StopReason_closed :
  Closed StopReason.as_str StopReason.parse StopReason.every.
Proof.
  apply closed_intro; [|apply roundtrip_by_computation; by vm_compute].
  intros text v H. split; [apply StopReason_every|].
  unfold StopReason.parse in H. invert_parse.
  - unfold StopReason.as_str. f_equal. by apply BlockReason_code.
  - destruct v; [done..|]. unfold StopReason.ALL in *. set_solver.
Qed.

#[export] Instance SettleCause_closed :
  Closed SettleCause.as_str SettleCause.parse SettleCause.every.
Proof.
  apply closed_intro; [|apply roundtrip_by_computation; by vm_compute].
  intros text v H. split; [apply SettleCause_every|].
  unfold SettleCause.parse in H. invert_parse; [done| |].
  - unfold SettleCause.as_str. f_equal.
    by apply (closed_code _ StopReason.parse StopReason.every).
  - unfold SettleCause.as_str. f_equal. by apply BlockReason_code.
Qed.

#[export] Instance FailReason_closed :
  Closed FailReason.as_str FailReason.parse FailReason.every.
Proof.
  apply closed_intro; [|apply roundtrip_by_computation; by vm_compute].
  intros text v H. split; [apply FailReason_every|].
  unfold FailReason.parse in H. destruct (List.find _ _) as [[r c]|] eqn:E.
  - simplify_eq. apply find_pair_Some in E as [E Ec]. simpl in Ec. subst c.
    by apply (table_code FailReason.PROOF_FAILS FailReason.as_str) in E.
  - invert_parse. by param_codes.
Qed.

#[export] Instance LapseReason_closed :
  Closed LapseReason.as_str LapseReason.parse LapseReason.every.
Proof.
  apply closed_intro; [|apply roundtrip_by_computation; by vm_compute].
  intros text v H. split; [apply LapseReason_every|].
  unfold LapseReason.parse in H. invert_parse; param_codes; [done..|by apply BlockReason_code].
Qed.

#[export] Instance ConsentRefusedReason_closed :
  Closed ConsentRefusedReason.as_str ConsentRefusedReason.parse ConsentRefusedReason.every.
Proof.
  apply closed_intro; [|apply roundtrip_by_computation; by vm_compute].
  intros text v H. split; [apply ConsentRefusedReason_every|].
  unfold ConsentRefusedReason.parse in H. invert_parse; by param_codes.
Qed.

#[export] Instance SettledOutcome_closed :
  Closed SettledOutcome.as_str SettledOutcome.parse SettledOutcome.every.
Proof.
  apply closed_intro; [|apply roundtrip_by_computation; by vm_compute].
  intros text v H. split; [apply SettledOutcome_every|].
  unfold SettledOutcome.parse in H. invert_parse; by param_codes.
Qed.

(** Every journaled code is read back as the value it was written for, and
    nothing else is read as a code: for each of the registries, [parse] accepts
    exactly the codes of its values. Every value is in its registry (an hours
    index of a page check must be one of the seven lines). *)
Theorem registries_closed :
  Closed VerifyFailReason.as_str VerifyFailReason.parse VerifyFailReason.every ∧
  (Closed BlockReason.as_str BlockReason.parse BlockReason.every ∧
     ∀ v, v ∈ BlockReason.every) ∧
  (Closed StopReason.as_str StopReason.parse StopReason.every ∧ ∀ v, v ∈ StopReason.every) ∧
  (Closed SettleCause.as_str SettleCause.parse SettleCause.every ∧
     ∀ v, v ∈ SettleCause.every) ∧
  (Closed FailReason.as_str FailReason.parse FailReason.every ∧ ∀ v, v ∈ FailReason.every) ∧
  (Closed LapseReason.as_str LapseReason.parse LapseReason.every ∧
     ∀ v, v ∈ LapseReason.every) ∧
  (Closed ConsentRefusedReason.as_str ConsentRefusedReason.parse ConsentRefusedReason.every ∧
     ∀ v, v ∈ ConsentRefusedReason.every) ∧
  (Closed SettledOutcome.as_str SettledOutcome.parse SettledOutcome.every ∧
     ∀ v, v ∈ SettledOutcome.every) ∧
  (Closed MotherRefusal.as_str MotherRefusal.parse MotherRefusal.every ∧
     ∀ v, v ∈ MotherRefusal.every) ∧
  (Closed BrokerClass.code BrokerClass.parse BrokerClass.ALL ∧ ∀ v, v ∈ BrokerClass.ALL) ∧
  (Closed HeldReason.code HeldReason.parse HeldReason.ALL ∧ ∀ v, v ∈ HeldReason.ALL).
Proof.
  split_and!; try apply _; auto using BlockReason_every, StopReason_every, SettleCause_every,
    FailReason_every, LapseReason_every, ConsentRefusedReason_every, SettledOutcome_every,
    MotherRefusal_every, BrokerClass_every.
  intros []. by_membership.
Qed.
