(* ===== verification/MissionState.v ===== *)
(** * The mission state machine

    [mother/src/state.rs]: the thirteen states of a mission, the triggers that
    move it and the one transition table, used both live and when a journal is
    replayed; with the data a trigger refers to ([journal.rs], [effect.rs]). *)

From S2P Require Import Prelude Evidence.

Local Open Scope Z_scope.

(** A contract and a paused phase's rest, by reference. The 32-byte digests
    ([ContractHash], [ContentId]) are byte strings. *)
Abbreviation ContractHash := bytes (only parsing).
Abbreviation ContentId := bytes (only parsing).

Record ContractRef := MkContractRef {
  contract_hash : ContractHash;
  cr_content : ContentId;
  cr_bytes : Z;
}.

Record RestRef := MkRestRef {
  rr_content : ContentId;
  rr_count : Z;
  rr_bytes : Z;
}.

(** The broker's identity of an action that waits for the Owner. *)
Record PendingAction := MkPendingAction {
  pa_run : str;
  pa_commitment : str;
  pa_deadline_mono_ms : Z;
}.

#[export] Instance ContractRef_eq_dec : EqDecision ContractRef.
Proof. solve_decision. Defined.
#[export] Instance RestRef_eq_dec : EqDecision RestRef.
Proof. solve_decision. Defined.
#[export] Instance PendingAction_eq_dec : EqDecision PendingAction.
Proof. solve_decision. Defined.

(** ** States *)

Inductive MissionState :=
| Draft
| AwaitingConsent
| Approved
| Investigating
| Building
| Verifying
| Explaining
| Done
| Stopped
| Denied
| Failed
| Blocked
| AwaitingApproval.

#[export] Instance MissionState_eq_dec : EqDecision MissionState.
Proof. solve_decision. Defined.

Definition MissionState_ALL : list MissionState :=
  [Draft; AwaitingConsent; Approved; Investigating; Building; Verifying; Explaining; Done;
   Stopped; Denied; Failed; Blocked; AwaitingApproval].

Definition is_terminal (s : MissionState) : bool :=
  match s with Done | Stopped | Denied | Failed | Blocked => true | _ => false end.

Definition is_working (s : MissionState) : bool :=
  match s with Investigating | Building | Verifying | Explaining => true | _ => false end.

Definition state_as_str (s : MissionState) : str :=
  match s with
  | Draft => lit "draft"
  | AwaitingConsent => lit "awaiting_consent"
  | Approved => lit "approved"
  | Investigating => lit "investigating"
  | Building => lit "building"
  | Verifying => lit "verifying"
  | Explaining => lit "explaining"
  | Done => lit "done"
  | Stopped => lit "stopped"
  | Denied => lit "denied"
  | Failed => lit "failed"
  | Blocked => lit "blocked"
  | AwaitingApproval => lit "awaiting_approval"
  end.

Definition may_wait (s : MissionState) : bool :=
  match s with Investigating | Building | Verifying => true | _ => false end.

(** ** Triggers *)

Module Trigger.
Inductive t :=
| Revise (contract : ContractRef)
| Submit (hash : ContractHash)
| Consent (hash : ContractHash) (at_wall_ms : Z)
| Deny (hash : ContractHash)
| Start
| PhaseDone
| VerifyPass
| VerifyFail (reason : VerifyFailReason.t)
| Block (reason : BlockReason.t)
| Fail (reason : FailReason.t)
| Stop (reason : StopReason.t)
| AwaitApproval (effect : Z) (rest : RestRef) (roles_left : list LaneRole.t)
| ActionApproved (effect : Z) (phase : MissionState)
| ActionDenied (effect : Z)
| ApprovalLapsed (effect : Z) (reason : LapseReason.t)
| Settled (effect : Z) (action : option PendingAction) (outcome : SettlementOutcome.t)
    (end_ : SettlementEnd.t).

Definition name (t : t) : str :=
  match t with
  | Revise _ => lit "revise"
  | Submit _ => lit "submit"
  | Consent _ _ => lit "consent"
  | Deny _ => lit "deny"
  | Start => lit "start"
  | PhaseDone => lit "phase_done"
  | VerifyPass => lit "verify_pass"
  | VerifyFail _ => lit "verify_fail"
  | Block _ => lit "block"
  | Fail _ => lit "fail"
  | Stop _ => lit "stop"
  | AwaitApproval _ _ _ => lit "await_approval"
  | ActionApproved _ _ => lit "action_approved"
  | ActionDenied _ => lit "action_denied"
  | ApprovalLapsed _ _ => lit "approval_lapsed"
  | Settled _ _ _ _ => lit "settled"
  end.
End Trigger.

#[export] Instance Trigger_eq_dec : EqDecision Trigger.t.
Proof. solve_decision. Defined.

Record IllegalTransition := MkIllegalTransition {
  it_from : MissionState;
  it_trigger : str;
}.

(** The one transition table. *)
Definition transition_table (from : MissionState) (trigger : Trigger.t) : option MissionState :=
  match trigger, from with
  | Trigger.Revise _, (Draft | AwaitingConsent | Approved) => Some Draft
  | Trigger.Submit _, Draft => Some AwaitingConsent
  | Trigger.Consent _ _, AwaitingConsent => Some Approved
  | Trigger.Deny _, AwaitingConsent => Some Denied
  | Trigger.Start, Approved => Some Investigating
  | Trigger.PhaseDone, Investigating => Some Building
  | Trigger.PhaseDone, Building => Some Verifying
  | Trigger.PhaseDone, Explaining => Some Done
  | Trigger.VerifyPass, Verifying => Some Explaining
  | Trigger.VerifyFail _, Verifying => Some Failed
  | Trigger.Block _, Approved => Some Blocked
  | Trigger.Block _, s => if is_working s then Some Blocked else None
  | Trigger.Fail _, s => if is_working s then Some Failed else None
  | Trigger.Stop _, s => if negb (is_terminal s) then Some Stopped else None
  | Trigger.AwaitApproval _ _ _, s => if may_wait s then Some AwaitingApproval else None
  | Trigger.ActionApproved _ phase, AwaitingApproval =>
      if may_wait phase then Some phase else None
  | Trigger.ActionDenied _, AwaitingApproval => Some Denied
  | Trigger.ApprovalLapsed _ _, AwaitingApproval => Some Blocked
  | Trigger.Settled _ _ _ end_, s =>
      if bool_decide (s = AwaitingApproval) || may_wait s then
        Some (match end_ with SettlementEnd.Block _ => Blocked | SettlementEnd.Stop _ => Stopped end)
      else None
  | _, _ => None
  end.

Definition transition (from : MissionState) (trigger : Trigger.t)
    : result MissionState IllegalTransition :=
  ok_or (transition_table from trigger) (MkIllegalTransition from (Trigger.name trigger)).
