(* ===== verification/Journal.v ===== *)
(** * The mission journal

    [mother/src/journal.rs] and [evidence::check] of [mother/src/evidence.rs]:
    the records, the hash chain and [verify]. SHA-256, hexadecimal and the JSON
    form of a record come from crates ([sha2], [hex], [serde_json]); they are
    the operations of [Codec], and a theorem states what it relies on. *)

From S2P Require Import Prelude Hash Evidence MissionState.

Local Open Scope Z_scope.

Definition FORMAT : Z := 2.
Definition ENTRY_DOMAIN : bytes := lit "nexus-mother-journal-v2" ++ [10].
Definition GENESIS : str :=
  lit "0000000000000000000000000000000000000000000000000000000000000000".

(** A mission's identity is a number; [0] names session records. *)
Abbreviation MissionId := Z (only parsing).
Definition SESSION : MissionId := 0.

(** One call of a lane. *)
Record InvocationId := MkInvocationId {
  inv_mission : MissionId;
  inv_seq : Z;
}.
#[export] Instance InvocationId_eq_dec : EqDecision InvocationId.
Proof. solve_decision. Defined.

(** ** Events *)

Module Event.
Inductive t :=
| Drafted (contract : ContractRef)
| Transition (trigger : Trigger.t)
| ConsentRefused (reason : ConsentRefusedReason.t)
| LaneInvoked (invocation : InvocationId) (role : LaneRole.t) (identity_sha256 input_hash : str)
    (model_cap model_budget : Z)
| ModelCallCharged (invocation : InvocationId) (call : Z)
| LaneReturned (invocation : InvocationId) (output_hash : str)
| LaneOvertaken (invocation : InvocationId)
| EffectRefused (kind : EffectKind.t) (reason : MotherRefusal.t)
| EffectDispatched (effect : Z) (kind : EffectKind.t) (request_hash : str)
| EffectSettled (effect : Z) (outcome : SettledOutcome.t)
| ApprovalPending (effect : Z) (pending : PendingAction)
| ApprovalClosed (effect : Z)
| SessionOpened
| SessionClosed
| Held (reason : HeldReason.t)
| Resumed
| FileModeSelected
| SettlementStarted (effect : Z) (cause : SettleCause.t)
| DeliverableRetained (invocation : InvocationId) (effect : Z) (content : ContentId)
    (sha256 : str) (nbytes : Z)
| PublicationReceipt (effect : Z) (action : PendingAction) (sha256 : str) (nbytes : Z)
    (policy_hash : option str) (overtaken : bool)
| VerificationRecorded (invocation : InvocationId) (effect : Z) (report_digest : str)
    (checks : list (str * str)).
End Event.

#[export] Instance Event_eq_dec : EqDecision Event.t.
Proof. solve_decision. Defined.

Record Entry := MkEntry {
  e_format : Z;
  e_seq : Z;
  e_prev : str;
  e_mission : MissionId;
  e_event : Event.t;
  e_hash : str;
}.
#[export] Instance Entry_eq_dec : EqDecision Entry.
Proof. solve_decision. Defined.

(** ** Errors *)

Module V.
Inductive t :=
| NotEvidence
| SessionRecordNamesMission
| CloseOfNoSession
| CloseWithUnheldMission
| RecordAfterClose
| DraftedOutOfOrder
| TooManyMissions
| NeverDrafted
| RecordWhileHeld
| RecordBeforeHold
| IllegalTransition
| TransitionWhileUnsettled
| SubmitOtherHash
| ConsentOtherHash
| WorkWithoutConsent
| WaitNotAwaiting
| WaitNotWritten
| ApprovalOfOtherWait
| EndOfOtherWait
| ModelChargeOutOfPlace
| ModelBudgetMismatch
| LaneOutOfPlace
| LaneAnswerWithoutCall
| DispatchOutOfPlace
| SettledNotDispatched
| PendingOutOfPlace
| ClosureOfNoAction
| HoldOutOfPlace
| ResumeNotHeld
| SettlementOutOfPlace
| SettlementConflict
| ProofOutOfPlace
| ProofConflict.
End V.

Module IoKind.
Inductive t :=
| NotFound | PermissionDenied | AlreadyExists | InvalidInput | InvalidData | UnexpectedEof
| WriteZero | Interrupted | StorageFull | ReadOnlyFilesystem | Other.
End IoKind.

Module StoreFailure.
Inductive t :=
| Io (kind : IoKind.t)
| NotRegularFile
| LineHasNewline
| FailedEarlier
| PoisonFailed
| FailedDuringRecovery
| ChangedUnderCoordinator
| Injected.
End StoreFailure.

Module JournalError.
Inductive t :=
| Store (failure : StoreFailure.t)
| Malformed (line : Z)
| Legacy (line : Z)
| Tampered (line : Z)
| Inconsistent (line : Z) (code : V.t)
| Poisoned.
End JournalError.

(** ** What the crates do

    [from_value line] is [serde_json::from_str] into a [Value], of which only
    the [format] member is read; [from_line] reads an [Entry]. *)
Class Codec := {
  sha2 : bytes → bytes;
  hex_encode : bytes → str;
  hex_decode : str → option bytes;
  event_json : Event.t → bytes;
  entry_json : Entry → str;
  entry_from_str : str → option Entry;
  value_format : str → option (option Z);
  checks_json : list (str * str) → bytes;
}.

Section WithCodec.
Context {codec : Codec}.

(** [contract::sha256]: the domain, then each part with its length. *)
Definition sha256_input (domain : bytes) (parts : list bytes) : bytes := domain ++ (parts ≫= put).
Definition sha256 (domain : bytes) (parts : list bytes) : bytes := sha2 (sha256_input domain parts).

Definition entry_parts (prev : str) (format seq : Z) (mission : MissionId) (event : Event.t)
    : list bytes :=
  [as_bytes prev; [format]; to_be_bytes 8 seq; to_be_bytes 8 mission; event_json event].

Definition expected_hash (e : Entry) : str :=
  hex_encode (sha256 ENTRY_DOMAIN
    (entry_parts (e_prev e) (e_format e) (e_seq e) (e_mission e) (e_event e))).

Definition chained (seq : Z) (prev : str) (mission : MissionId) (event : Event.t) : Entry :=
  let entry := MkEntry FORMAT seq prev mission event [] in
  MkEntry FORMAT seq prev mission event (expected_hash entry).

Definition to_line (e : Entry) : str := entry_json e.

(** [verify], from entry number [index] with the previous hash [prev]. *)
Fixpoint verify_from (index : Z) (prev : str) (lines : list str)
    : result (list Entry) JournalError.t :=
  match lines with
  | [] => Ok []
  | line :: rest =>
      let number := index + 1 in
      match value_format line with
      | None => Err (JournalError.Malformed number)
      | Some format =>
          if negb (bool_decide (format = Some FORMAT)) then Err (JournalError.Legacy number)
          else
            match entry_from_str line with
            | None => Err (JournalError.Malformed number)
            | Some entry =>
                if negb (e_seq entry =? index) ||
                   negb (bool_decide (e_prev entry = prev)) ||
                   negb (bool_decide (e_hash entry = expected_hash entry)) ||
                   negb (bool_decide (to_line entry = line))
                then Err (JournalError.Tampered number)
                else map_ok (cons entry) (verify_from (index + 1) (e_hash entry) rest)
            end
      end
  end.

Definition verify (lines : list str) : result (list Entry) JournalError.t :=
  verify_from 0 GENESIS lines.

(** ** Only evidence is journaled ([evidence::check]) *)

Definition MAX_CONTENT_BYTES : Z := 1048576.

Definition is_lower_hex (b : Z) : bool := is_ascii_digit b || ((97 <=? b) && (b <=? 102)).

Definition is_digest (text : str) : bool :=
  (str_len text =? 64) && forallb is_lower_hex (as_bytes text).

Definition is_size (n : Z) : bool := n <=? MAX_CONTENT_BYTES.

(** The [opaque_id!] identities of the broker ([authority/ids.rs]). *)
Definition id_parse (prefix : str) (text : str) : option bytes :=
  hex_part ← strip_prefix (prefix ++ lit "-") text;
  if negb (str_len hex_part =? 32) then None else hex_decode hex_part.
Definition RunId_parse : str → option bytes := id_parse (lit "run").
Definition CommitmentId_parse : str → option bytes := id_parse (lit "cmt").

Definition action_ok (p : PendingAction) : bool :=
  bool_decide (is_Some (RunId_parse (pa_run p))) &&
  bool_decide (is_Some (CommitmentId_parse (pa_commitment p))).

(** [page_verifier::report_digest]. *)
Definition REPORT_DOMAIN : bytes := lit "nexus-m3/verification-report/1" ++ [0].
Definition report_digest (entries : list (str * str)) : str :=
  hex_encode (sha2 (REPORT_DOMAIN ++ checks_json entries)).

Definition check_trigger (trigger : Trigger.t) : bool :=
  match trigger with
  | Trigger.Revise contract => is_size (cr_bytes contract)
  | Trigger.AwaitApproval _ rest _ => is_size (rr_bytes rest)
  | Trigger.Settled _ action _ _ =>
      match action with None => true | Some pending => action_ok pending end
  | _ => true
  end.

Definition check (event : Event.t) : result unit V.t :=
  let ok :=
    match event with
    | Event.Drafted contract => is_size (cr_bytes contract)
    | Event.Transition trigger => check_trigger trigger
    | Event.LaneInvoked _ _ identity_sha256 input_hash _ _ =>
        is_digest identity_sha256 && is_digest input_hash
    | Event.LaneReturned _ output_hash => is_digest output_hash
    | Event.EffectDispatched _ _ request_hash => is_digest request_hash
    | Event.ApprovalPending _ pending => action_ok pending
    | Event.DeliverableRetained _ _ _ sha256 nbytes => is_digest sha256 && is_size nbytes
    | Event.PublicationReceipt _ action sha256 nbytes policy_hash _ =>
        is_digest sha256 &&
        match policy_hash with None => true | Some h => is_digest h end &&
        is_size nbytes && action_ok action
    | Event.VerificationRecorded _ _ digest checks =>
        bool_decide (length checks = length CheckId.ALL) &&
        forallb (λ '(id, (name, code)),
                   bool_decide (name = CheckId.as_str id) && is_check_result id code)
          (zip CheckId.ALL checks) &&
        bool_decide (digest = report_digest checks)
    | _ => true
    end in
  if ok then Ok tt else Err V.NotEvidence.
End WithCodec.

(** ** Stores ([JournalStore], [MemoryJournal]) *)

Record MemoryJournal := MkMemoryJournal {
  mj_lines : list str;
  mj_poisoned : bool;
  mj_fail_after : option nat;
}.

Definition mj_new : MemoryJournal := MkMemoryJournal [] false None.

Definition mj_load (j : MemoryJournal) : result (list str) JournalError.t :=
  if mj_poisoned j then Err JournalError.Poisoned else Ok (mj_lines j).

Definition mj_append (line : str) (j : MemoryJournal)
    : result unit JournalError.t * MemoryJournal :=
  match mj_fail_after j with
  | Some O => (Err (JournalError.Store StoreFailure.Injected), j)
  | Some (S n) =>
      (Ok tt, MkMemoryJournal (mj_lines j ++ [line]) (mj_poisoned j) (Some n))
  | None => (Ok tt, MkMemoryJournal (mj_lines j ++ [line]) (mj_poisoned j) None)
  end.

Definition mj_poison (j : MemoryJournal) : result unit JournalError.t * MemoryJournal :=
  (Ok tt, MkMemoryJournal (mj_lines j) true (mj_fail_after j)).

(** ** The chain *)

Section Chain.
Context {codec : Codec}.
Implicit Types (e : Entry) (es : list Entry) (lines : list str).

(** The journal the coordinator writes for a sequence of records: each entry
    is [chained] to the one before. *)
Fixpoint chain (seq : Z) (prev : str) (records : list (MissionId * Event.t)) : list Entry :=
  match records with
  | [] => []
  | (mission, event) :: rest =>
      let entry := chained seq prev mission event in
      entry :: chain (seq + 1) (e_hash entry) rest
  end.

Definition record_of (e : Entry) : MissionId * Event.t := (e_mission e, e_event e).

(** Each entry follows from the one before it. *)
Fixpoint follows (seq : Z) (prev : str) es : Prop :=
  match es with
  | [] => True
  | e :: rest =>
      e_format e = FORMAT ∧ e_seq e = seq ∧ e_prev e = prev ∧ e_hash e = expected_hash e ∧
      follows (seq + 1) (e_hash e) rest
  end.

Lemma chained_iff e seq prev :
  (e_format e = FORMAT ∧ e_seq e = seq ∧ e_prev e = prev ∧ e_hash e = expected_hash e) ↔
  e = chained seq prev (e_mission e) (e_event e).
Proof.
  destruct e as [f s p m ev h]. cbn [e_format e_seq e_prev e_hash e_mission e_event]. split.
  - intros (-> & -> & -> & ->). reflexivity.
  - intros [= -> -> -> ->]. done.
Qed.

Lemma follows_chain seq prev es :
  follows seq prev es ↔ es = chain seq prev (record_of <$> es).
Proof.
  revert seq prev. induction es as [|e es IH]; intros seq prev; [done|].
  cbn [follows fmap list_fmap chain record_of]. rewrite (IH (seq + 1)). split.
  - intros (? & ? & ? & ? & Hes). assert (He : e = chained seq prev (e_mission e) (e_event e))
      by by apply chained_iff. rewrite <- He. by f_equal.
  - intros H. assert (He : e = chained seq prev (e_mission e) (e_event e)) by congruence.
    rewrite <- He in H. apply chained_iff in He as (? & ? & ? & ?). split_and!; [done..|congruence].
Qed.

Lemma chain_follows seq prev records : follows seq prev (chain seq prev records).
Proof.
  revert seq prev. induction records as [|[m ev] rest IH]; intros seq prev; [done|].
  cbn [chain follows]. split_and!; [done..|apply IH].
Qed.

(** The reader of a line and the reader of its [format] member agree. *)
Definition format_agrees : Prop :=
  ∀ line e, entry_from_str line = Some e → value_format line = Some (Some (e_format e)).

Lemma verify_from_ok seq prev lines es :
  format_agrees → verify_from seq prev lines = Ok es →
  follows seq prev es ∧ lines = to_line <$> es.
Proof.
  intros Hf. revert seq prev es. induction lines as [|line lines IH]; intros seq prev es H.
  { simpl in H. by simplify_eq. }
  cbn [verify_from] in H. destruct (value_format line) as [f|] eqn:Ef; [|done].
  destruct (bool_decide (f = Some FORMAT)) eqn:Hform; [|done]. simpl in H.
  destruct (entry_from_str line) as [e|] eqn:Ee; [|done].
  destruct (_ || _) eqn:Hok; [done|]. breflect.
  apply map_ok_ok in H as (rest & Hrest & ->). apply IH in Hrest as [Hfol ->].
  apply Hf in Ee. rewrite Ef in Ee. cbn [follows fmap list_fmap]. by simplify_eq.
Qed.

Lemma verify_from_follows seq prev es :
  format_agrees → (∀ e, e ∈ es → entry_from_str (to_line e) = Some e) →
  follows seq prev es → verify_from seq prev (to_line <$> es) = Ok es.
Proof.
  intros Hf. revert seq prev. induction es as [|e es IH]; intros seq prev Hr Hfol; [done|].
  destruct Hfol as (Hform & Hseq & Hprev & Hhash & Hfol).
  cbn [fmap list_fmap verify_from].
  assert (He : entry_from_str (to_line e) = Some e) by (apply Hr; set_solver).
  rewrite (Hf _ _ He), He, Hform, Hseq, Hprev, <- Hhash, Z.eqb_refl.
  rewrite !bool_decide_eq_true_2 by done. simpl.
  rewrite IH; [done|set_solver|done].
Qed.

(** The hash the next entry of a journal must name. *)
Definition head_hash (prev : str) es : str := default prev (e_hash <$> last es).

Lemma head_hash_cons prev e es : head_hash prev (e :: es) = head_hash (e_hash e) es.
Proof. unfold head_hash. rewrite last_cons. by destruct (last es). Qed.

Lemma head_hash_snoc prev es e : head_hash prev (es ++ [e]) = e_hash e.
Proof. unfold head_hash. by rewrite last_snoc. Qed.

Lemma follows_app seq prev es1 es2 :
  follows seq prev (es1 ++ es2) ↔
  follows seq prev es1 ∧ follows (seq + Z.of_nat (length es1)) (head_hash prev es1) es2.
Proof.
  revert seq prev. induction es1 as [|e es1 IH]; intros seq prev; cbn [app follows].
  - simpl. rewrite Z.add_0_r. change (head_hash prev []) with prev. naive_solver.
  - rewrite IH, head_hash_cons. simpl length.
    replace (seq + 1 + Z.of_nat (length es1)) with (seq + Z.of_nat (S (length es1))) by lia.
    naive_solver.
Qed.

(** What the types of an entry's fields say ([u8], [u64] and strings). *)
Record entry_typed (e : Entry) : Prop := {
  et_format : 0 ≤ e_format e < 256;
  et_seq : 0 ≤ e_seq e < 2 ^ 64;
  et_mission : 0 ≤ e_mission e < 2 ^ 64;
  et_prev : rust_str (e_prev e);
  et_event : u64_len (length (event_json (e_event e)));
}.

Lemma entry_parts_inj e1 e2 :
  entry_typed e1 → entry_typed e2 →
  sha256_input ENTRY_DOMAIN
    (entry_parts (e_prev e1) (e_format e1) (e_seq e1) (e_mission e1) (e_event e1)) =
  sha256_input ENTRY_DOMAIN
    (entry_parts (e_prev e2) (e_format e2) (e_seq e2) (e_mission e2) (e_event e2)) →
  e_prev e1 = e_prev e2 ∧ e_format e1 = e_format e2 ∧ e_seq e1 = e_seq e2 ∧
  e_mission e1 = e_mission e2 ∧ event_json (e_event e1) = event_json (e_event e2).
Proof.
  intros [Hf1 Hs1 Hm1 Hp1 He1] [Hf2 Hs2 Hm2 Hp2 He2] E. unfold sha256_input in E.
  apply app_inv_head in E. unfold entry_parts in E. rewrite !bind_cons in E.
  apply put_text_delimited in E as [Hp E]; [|done..].
  assert (Hsmall : ∀ b : Z, u64_len (length [b])) by (intros; unfold u64_len; simpl; lia).
  assert (H8 : ∀ v, u64_len (length (to_be_bytes 8 v)))
    by (intros; unfold u64_len; rewrite length_to_be_bytes; lia).
  apply put_delimited in E as [[= Hf] E]; [|done..].
  apply put_delimited in E as [Hs%to_be_bytes_inj E]; [|done..].
  apply put_delimited in E as [Hm%to_be_bytes_inj E]; [|done..].
  apply put_delimited in E as [He _]; [|done..]. done.
Qed.

(** The hexadecimal form of a digest determines it. *)
Definition hex_faithful : Prop :=
  ∀ x y, hex_encode (sha2 x) = hex_encode (sha2 y) → sha2 x = sha2 y.

(** What the hash of an entry digests. *)
Definition entry_input (e : Entry) : bytes :=
  sha256_input ENTRY_DOMAIN
    (entry_parts (e_prev e) (e_format e) (e_seq e) (e_mission e) (e_event e)).

Lemma entry_hash_binds e1 e2 :
  entry_typed e1 → entry_typed e2 → hex_faithful →
  e_hash e1 = expected_hash e1 → e_hash e2 = expected_hash e2 → e_hash e1 = e_hash e2 →
  (e_prev e1 = e_prev e2 ∧ e_format e1 = e_format e2 ∧ e_seq e1 = e_seq e2 ∧
   e_mission e1 = e_mission e2 ∧ event_json (e_event e1) = event_json (e_event e2)) ∨
  clash sha2 (entry_input e1) (entry_input e2).
Proof.
  intros Ht1 Ht2 Hhex E1 E2 E. rewrite E1, E2 in E. apply Hhex in E.
  apply clash_or_same in E as [?|?]; [left|by right]. by apply entry_parts_inj.
Qed.

Lemma follows_binds es1 es2 :
  hex_faithful → Forall entry_typed es1 → Forall entry_typed es2 →
  (∀ e1 e2, e1 ∈ es1 → e2 ∈ es2 →
     event_json (e_event e1) = event_json (e_event e2) → e_event e1 = e_event e2) →
  follows 0 GENESIS es1 → follows 0 GENESIS es2 → es1 ≠ [] → es2 ≠ [] →
  head_hash GENESIS es1 = head_hash GENESIS es2 →
  es1 = es2 ∨ clash_among sha2 (entry_input <$> es1) (entry_input <$> es2).
Proof.
  intros Hhex. revert es2. induction es1 as [|e1 es1 IH] using rev_ind; [done|].
  intros es2 Ht1 Ht2 Hjson Hf1 Hf2 _ Hne Hh.
  destruct es2 as [|e2 es2 _] using rev_ind; [done|]. clear Hne.
  rewrite !head_hash_snoc in Hh.
  apply follows_app in Hf1 as [Hf1 Hl1], Hf2 as [Hf2 Hl2].
  rewrite Forall_app, Forall_singleton in Ht1, Ht2. destruct Ht1 as [Ht1 Ht1'], Ht2 as [Ht2 Ht2'].
  destruct Hl1 as (Hfm1 & Hs1 & Hp1 & Hh1 & _), Hl2 as (Hfm2 & Hs2 & Hp2 & Hh2 & _).
  destruct (entry_hash_binds e1 e2) as [(Hp & _ & Hs & Hm & Hev)|?]; [done..| |].
  2:{ right. exists (entry_input e1), (entry_input e2). set_solver. }
  apply Hjson in Hev; [|set_solver..].
  assert (He : e1 = e2) by (destruct e1, e2; simpl in *; congruence).
  assert (Hlen : length es1 = length es2) by (rewrite Hs1, Hs2 in Hs; lia).
  destruct (decide (es1 = [])) as [->|Hne1].
  { destruct es2; [left; by subst|done]. }
  assert (Hne2 : es2 ≠ []) by by destruct es2, es1.
  destruct (IH es2 Ht1 Ht2) as [->|Hcl]; [set_solver|done..|congruence|left; by subst|].
  right. eapply clash_among_mono, Hcl; set_solver.
Qed.

(** C18. [verify] accepts exactly the journals the coordinator writes: the lines of
    a chain of records from the genesis hash, each entry numbered, linked and
    hashed by [Entry::chained] and printed by [to_line]; and it returns those
    entries. *)
Theorem verify_iff lines es :
  format_agrees → (∀ e, e ∈ es → entry_from_str (to_line e) = Some e) →
  verify lines = Ok es ↔
  es = chain 0 GENESIS (record_of <$> es) ∧ lines = to_line <$> es.
Proof.
  intros Hf Hr. rewrite <- follows_chain. split; [by apply verify_from_ok|].
  intros [Hfol ->]. by apply verify_from_follows.
Qed.

(** What is wrong with a line that does not continue a journal whose next
    entry has number [seq] and previous hash [prev]. *)
Definition refused_line (seq : Z) (prev line : str) : option JournalError.t :=
  match value_format line, entry_from_str line with
  | None, _ => Some (JournalError.Malformed (seq + 1))
  | Some format, read =>
      if bool_decide (format ≠ Some FORMAT) then Some (JournalError.Legacy (seq + 1))
      else
        match read with
        | None => Some (JournalError.Malformed (seq + 1))
        | Some e =>
            if bool_decide (follows seq prev [e] ∧ to_line e = line) then None
            else Some (JournalError.Tampered (seq + 1))
        end
  end.

Lemma verify_from_cons seq prev line lines :
  format_agrees →
  match refused_line seq prev line with
  | Some err => verify_from seq prev (line :: lines) = Err err
  | None => ∃ e, to_line e = line ∧ ∀ lines,
      verify_from seq prev (line :: lines) =
      map_ok (cons e) (verify_from (seq + 1) (e_hash e) lines)
  end.
Proof.
  intros Hf. unfold refused_line. cbn [verify_from].
  destruct (value_format line) as [f|] eqn:Ef; [|done].
  destruct (decide (f = Some FORMAT)) as [->|Hne].
  2:{ by rewrite bool_decide_eq_true_2, bool_decide_eq_false_2 by done. }
  rewrite bool_decide_eq_false_2, bool_decide_eq_true_2 by naive_solver. simpl.
  destruct (entry_from_str line) as [e|] eqn:Ee; [|done].
  apply Hf in Ee. rewrite Ef in Ee. injection Ee as Ee.
  destruct (bool_decide (_ ∧ to_line e = line)) eqn:Hd; breflect; cbv match.
  - destruct Hd as [(_ & Hs & Hp & Hh & _) Hl]. exists e. split; [done|]. intros l.
    rewrite Hs, Z.eqb_refl, !bool_decide_eq_true_2 by done. done.
  - destruct (negb (e_seq e =? seq)) eqn:H1; [done|].
    destruct (bool_decide (e_prev e = prev)) eqn:H2; [|done].
    destruct (bool_decide (e_hash e = expected_hash e)) eqn:H3; [|done].
    destruct (bool_decide (to_line e = line)) eqn:H4; [|done].
    breflect. destruct Hd. by split_and!.
Qed.

Lemma verify_from_err seq prev lines err :
  format_agrees → verify_from seq prev lines = Err err →
  ∃ es line rest, lines = (to_line <$> es) ++ line :: rest ∧
    verify_from seq prev (to_line <$> es) = Ok es ∧
    refused_line (seq + Z.of_nat (length es)) (head_hash prev es) line = Some err.
Proof.
  intros Hf. revert seq prev. induction lines as [|line lines IH]; intros seq prev H; [done|].
  pose proof (verify_from_cons seq prev line lines Hf) as Hc.
  destruct (refused_line seq prev line) as [err'|] eqn:Er.
  - exists [], line, lines. rewrite Hc in H. simplify_eq. simpl. rewrite Z.add_0_r. done.
  - destruct Hc as (e & <- & Hc). rewrite Hc in H.
    destruct (verify_from (seq + 1) (e_hash e) lines) as [|err'] eqn:Hv; [done|].
    simpl in H. simplify_eq. apply IH in Hv as (es & line & rest & -> & Hok & Hr).
    exists (e :: es), line, rest. split_and!; [done| |].
    + cbn [fmap list_fmap]. by rewrite Hc, Hok.
    + rewrite head_hash_cons, <- Hr. f_equal. simpl length. lia.
Qed.

(** A refused journal: the error names the first line that does not continue
    the verified entries before it, and says what is wrong with that line: not
    JSON or not an entry ([Malformed]), of another format ([Legacy]), or an entry
    whose number, link, hash or canonical form is not the expected one
    ([Tampered]). *)
Theorem verify_error lines err :
  format_agrees → verify lines = Err err →
  ∃ es line rest, lines = (to_line <$> es) ++ line :: rest ∧ verify (to_line <$> es) = Ok es ∧
    refused_line (Z.of_nat (length es)) (head_hash GENESIS es) line = Some err.
Proof. intros Hf H. by apply verify_from_err in H. Qed.

(** Tamper evidence: two non-empty journals that verify and end in the same
    hash have the same lines, unless what is hashed for two of their entries is
    distinct with one digest. *)
Theorem journal_binds lines1 lines2 es1 es2 :
  format_agrees → hex_faithful →
  Forall entry_typed es1 → Forall entry_typed es2 →
  (∀ e1 e2, e1 ∈ es1 → e2 ∈ es2 →
     event_json (e_event e1) = event_json (e_event e2) → e_event e1 = e_event e2) →
  verify lines1 = Ok es1 → verify lines2 = Ok es2 → es1 ≠ [] → es2 ≠ [] →
  head_hash GENESIS es1 = head_hash GENESIS es2 →
  lines1 = lines2 ∨ clash_among sha2 (entry_input <$> es1) (entry_input <$> es2).
Proof.
  intros Hf Hhex Ht1 Ht2 Hjson H1 H2 Hn1 Hn2 Hh.
  apply verify_from_ok in H1 as [Hf1 ->], H2 as [Hf2 ->]; [|done..].
  destruct (follows_binds es1 es2) as [->|?]; [done..|by left|by right].
Qed.
End Chain.

(** ** Witnesses: a journal of three records, its lines one character each *)

Module Sample.
Definition records : list (MissionId * Event.t) :=
  [(SESSION, Event.SessionOpened); (1, Event.Drafted (MkContractRef [1] [2] 3));
   (SESSION, Event.SessionClosed)].

(** A codec with the identity for a digest, whose lines are the entries' numbers. *)
Definition codec_for (entries : list Entry) : Codec := {|
  sha2 := λ x, x;
  hex_encode := λ x, x;
  hex_decode := λ x, Some x;
  event_json := λ ev,
    match ev with
    | Event.SessionOpened => [1] | Event.SessionClosed => [2] | Event.Drafted _ => [3] | _ => [4]
    end;
  entry_json := λ e, [e_seq e];
  entry_from_str := λ line, match line with [n] => entries !! Z.to_nat n | _ => None end;
  value_format := λ line,
    match line with
    | [n] => if n =? 9 then Some None else Some <$> (e_format <$> entries !! Z.to_nat n)
    | _ => None
    end;
  checks_json := λ _, [];
|}.
Definition entries : list Entry :=
  Eval vm_compute in @chain (codec_for []) 0 GENESIS records.
Definition codec : Codec := codec_for entries.
Definition lines : list str := [[0]; [1]; [2]].

Lemma agrees : @format_agrees codec.
Proof.
  intros line e. destruct line as [|n [|]]; simpl; try done. intros H. rewrite H.
  destruct (Z.eqb_spec n 9) as [->|]; [|done]. by vm_compute in H.
Qed.

Lemma reads e : e ∈ entries → @entry_from_str codec (@to_line codec e) = Some e.
Proof.
  revert e. apply (Forall_forall (λ e, @entry_from_str codec (@to_line codec e) = Some e)).
  by repeat constructor.
Qed.

Lemma typed : Forall (@entry_typed codec) entries.
Proof. repeat constructor; try (vm_compute; done). Qed.

Lemma verified : @verify codec lines = Ok entries.
Proof. vm_compute. reflexivity. Qed.

Lemma json_inj e1 e2 :
  e1 ∈ entries → e2 ∈ entries →
  @event_json codec (e_event e1) = @event_json codec (e_event e2) → e_event e1 = e_event e2.
Proof.
  assert (H : Forall (λ e1, Forall (λ e2, @event_json codec (e_event e1) = @event_json codec (e_event e2) →
    e_event e1 = e_event e2) entries) entries) by (apply (bool_decide_unpack _); by vm_compute).
  rewrite Forall_forall in H. intros H1 H2. specialize (H _ H1). rewrite Forall_forall in H. by apply H.
Qed.
End Sample.

Lemma verify_iff_witness : @verify Sample.codec Sample.lines = Ok Sample.entries.
Proof.
  apply (@verify_iff Sample.codec Sample.lines Sample.entries Sample.agrees Sample.reads).
  split; reflexivity.
Defined.

Lemma verify_error_witness :
  @verify Sample.codec [[0]; [2]] = Err (JournalError.Tampered 2) ∧
  ∃ es line rest, [[0]; [2]] = (@to_line Sample.codec <$> es) ++ line :: rest ∧
    @verify Sample.codec (@to_line Sample.codec <$> es) = Ok es ∧
    @refused_line Sample.codec (Z.of_nat (length es)) (head_hash GENESIS es) line =
    Some (JournalError.Tampered 2).
Proof.
  assert (H : @verify Sample.codec [[0]; [2]] = Err (JournalError.Tampered 2)) by reflexivity.
  split; [exact H|]. apply (@verify_error Sample.codec _ _ Sample.agrees H).
Defined.

Lemma journal_binds_witness :
  head_hash GENESIS Sample.entries = head_hash GENESIS Sample.entries ∧
  (Sample.lines = Sample.lines ∨
   let inputs := @entry_input Sample.codec <$> Sample.entries in
   clash_among (@sha2 Sample.codec) inputs inputs).
Proof.
  split; [reflexivity|].
  apply (@journal_binds Sample.codec Sample.lines Sample.lines Sample.entries Sample.entries
    Sample.agrees (λ x y H, H) Sample.typed Sample.typed Sample.json_inj Sample.verified
    Sample.verified); [discriminate|discriminate|reflexivity].
Defined.
