(* ===== verification/Contract.v ===== *)
(** * The mission contract and Mother's own refusals

    The contract's data ([mother/src/contract.rs], [page_inputs.rs]), the effects
    a lane may ask for ([effect.rs], with the requests of
    [nexus-governed-control]) and the checks Mother makes before any effect
    reaches the port ([relative_request], [file_name_ok], [file_refuses],
    [mother_refuses] of [coordinator.rs]). *)

From S2P Require Import Prelude Evidence.

Local Open Scope Z_scope.

(** ** The contract *)

Record Budget := MkBudget {
  max_duration_ms : Z;
  max_model_calls : Z;
  max_money_minor : Z;
}.

Record Question := MkQuestion {
  question_id : str;
  question_text : str;
  question_answer : option str;
}.

Record PassCriterion := MkPassCriterion {
  criterion_id : str;
  criterion_text : str;
}.

Record ModelChoice := MkModelChoice {
  model_name : str;
  model_digest : str;
  model_identity : str;
}.

Record Note := MkNote {
  note_label : str;
  note_text : str;
}.

Record PageFacts := MkPageFacts {
  facts_name : str;
  facts_hours : list str;
  facts_phone : str;
}.

(** [forbidden_effects] is a [BTreeSet]; only membership is asked of it. *)
Record MissionContract := MkMissionContract {
  owner_words : str;
  restatement : str;
  requested_folder : option str;
  budget : Budget;
  forbidden_effects : list EffectKind.t;
  questions : list Question;
  pass_criteria : list PassCriterion;
  model : option ModelChoice;
  notes : list Note;
  deliverable : option str;
  page_facts : option PageFacts;
}.

(** ** Effects a lane may ask for *)

Record FileCreate := MkFileCreate {
  create_name : str;
  create_content : str;
}.

Record EgressIntent := MkEgressIntent {
  egress_method : str;
  egress_url : str;
  egress_headers : list (str * str);
  egress_body : option str;
}.

(** The free-form input of a tool or a connector operation is a JSON value of
    [serde_json], of which nothing is read here. *)
Record ToolIntent {Value : Type} := MkToolIntent {
  tool_tool : str;
  tool_input : Value;
}.
Arguments ToolIntent : clear implicits.

Record ConnectorIntent {Value : Type} := MkConnectorIntent {
  connector_operation : str;
  connector_input : Value;
}.
Arguments ConnectorIntent : clear implicits.

Module EffectRequest.
Inductive t {Value : Type} :=
| File (relative_path : str) (write : bool)
| CreateFile (create : FileCreate)
| Network (intent : EgressIntent)
| Process (intent : ToolIntent Value)
| ModelTool (intent : ConnectorIntent Value)
| Spend (amount_minor : Z) (purpose : str).
Arguments t : clear implicits.

Definition kind {Value} (e : t Value) : EffectKind.t :=
  match e with
  | File _ _ | CreateFile _ => EffectKind.File
  | Network _ => EffectKind.Network
  | Process _ => EffectKind.Process
  | ModelTool _ => EffectKind.ModelTool
  | Spend _ _ => EffectKind.Spend
  end.
End EffectRequest.

(** ** Plain text ([authority/evidence.rs]) *)

(** [char::is_control] (general category Cc) and [char::is_whitespace] (the
    White_Space property). *)
Definition is_control (c : Z) : bool := (c <=? 31) || ((127 <=? c) && (c <=? 159)).
Definition is_whitespace (c : Z) : bool :=
  ((9 <=? c) && (c <=? 13)) || (c =? 32) || (c =? 133) || (c =? 160) || (c =? 5760) ||
  ((8192 <=? c) && (c <=? 8202)) || (c =? 8232) || (c =? 8233) || (c =? 8239) ||
  (c =? 8287) || (c =? 12288).

(** The invisible formatting characters, as inclusive ranges. *)
Definition HIDDEN_RANGES : list (Z * Z) :=
  [(0xAD, 0xAD); (0x34F, 0x34F); (0x600, 0x605); (0x61C, 0x61C); (0x6DD, 0x6DD);
   (0x70F, 0x70F); (0x890, 0x891); (0x8E2, 0x8E2); (0x115F, 0x1160); (0x17B4, 0x17B5);
   (0x180B, 0x180F); (0x200B, 0x200F); (0x2028, 0x202E); (0x2060, 0x206F); (0x2800, 0x2800);
   (0x3164, 0x3164); (0xFE00, 0xFE0F); (0xFEFF, 0xFEFF); (0xFFA0, 0xFFA0); (0xFFF0, 0xFFFB);
   (0x110BD, 0x110BD); (0x110CD, 0x110CD); (0x13430, 0x1345F); (0x1BCA0, 0x1BCA3);
   (0x1D173, 0x1D17A); (0xE0000, 0xE0FFF)].

Definition shown (c : Z) : bool :=
  negb (is_control c) && ((c =? 32) || negb (is_whitespace c)) &&
  negb (existsb (λ r : Z * Z, (r.1 <=? c) && (c <=? r.2)) HIDDEN_RANGES).

Definition MAX_FIELD : nat := 256.
Definition is_plain (text : str) : bool :=
  (length text <=? MAX_FIELD)%nat && forallb shown text.

(** ** Mother's own refusals *)

(** [str::split] at the characters of [sep]. *)
Fixpoint split (sep : Z → bool) (s : str) : list str :=
  match s with
  | [] => [[]]
  | c :: s =>
      if sep c then [] :: split sep s
      else match split sep s with [] => [[c]] | part :: parts => (c :: part) :: parts end
  end.

(** ['/'] and ['\\']. *)
Definition is_separator (c : Z) : bool := (c =? 47) || (c =? 92).

Definition relative_request (path : str) : bool :=
  negb (bool_decide (path = [])) && is_plain path &&
  negb (match path with c :: _ => is_separator c | [] => false end) &&
  negb (existsb (λ c, c =? 58) path) &&
  forallb (λ part, negb (bool_decide (part = lit ".."))) (split is_separator path).

Definition MAX_NAME_CHARS : Z := 64.
Definition MAX_FILE_BYTES : Z := 8192.
Definition MAX_FILE_LINES : nat := 150.

Definition name_first (b : Z) : bool := is_ascii_alphanumeric b || (b =? 95) || (b =? 45).

Definition file_name_ok (name : str) : bool :=
  match as_bytes name with
  | [] => false
  | first :: rest =>
      (Z.of_nat (length (as_bytes name)) <=? MAX_NAME_CHARS) && name_first first &&
      forallb (λ b, name_first b || (b =? 46)) rest
  end.

(** [str::split_inclusive('\n')], of which only the count is used: a piece ends
    with each line feed, and what follows the last one is a piece unless empty. *)
Fixpoint split_inclusive (s : str) : list str :=
  match s with
  | [] => []
  | c :: s =>
      if c =? 10 then [c] :: split_inclusive s
      else match split_inclusive s with
           | [] => [[c]]
           | piece :: pieces => (c :: piece) :: pieces
           end
  end.

Definition file_refuses (contract : MissionContract) (create : FileCreate)
    (workspace : option str) : option MotherRefusal.t :=
  let content := create_content create in
  if negb (relative_request (create_name create)) then Some MotherRefusal.FileRequestNotRelative
  else if negb (file_name_ok (create_name create)) then Some MotherRefusal.FileNameInvalid
  else if existsb (λ c, c =? 0) content then Some MotherRefusal.FileNotText
  else if MAX_FILE_BYTES <? str_len content then Some MotherRefusal.FileTooLarge
  else if (MAX_FILE_LINES <? length (split_inclusive content))%nat then
    Some MotherRefusal.FileTooManyLines
  else if bool_decide (workspace = None) ||
          negb (bool_decide (requested_folder contract = workspace)) then
    Some MotherRefusal.FileFolderNotWorkspace
  else None.

Definition mother_refuses {Value} (contract : MissionContract) (effect : EffectRequest.t Value)
    (workspace : option str) : option MotherRefusal.t :=
  let kind := EffectRequest.kind effect in
  if bool_decide (kind ∈ forbidden_effects contract) then Some (MotherRefusal.ForbiddenEffect kind)
  else
    match effect with
    | EffectRequest.Spend _ _ =>
        if max_money_minor (budget contract) =? 0 then Some MotherRefusal.BudgetMoneyZero
        else Some MotherRefusal.SpendNotSupported
    | EffectRequest.File relative_path _ =>
        if bool_decide (requested_folder contract = None) then
          Some MotherRefusal.NoRequestedFolder
        else if negb (relative_request relative_path) then
          Some MotherRefusal.FileRequestNotRelative
        else None
    | EffectRequest.CreateFile create =>
        if bool_decide (requested_folder contract = None) then
          Some MotherRefusal.NoRequestedFolder
        else file_refuses contract create workspace
    | _ => None
    end.

(** ** What Mother lets through *)

(** The characters of a file name; a name does not start with a dot. *)
Definition name_char (c : Z) : bool := name_first c || (c =? 46).

Definition name_shape (name : str) : Prop :=
  ∃ first rest, name = first :: rest ∧ name_first first = true ∧
    Forall (λ c, name_char c = true) rest ∧ (length name ≤ 64)%nat.

Lemma name_char_bound c : name_char c = true → 45 ≤ c ≤ 122.
Proof.
  unfold name_char, name_first, is_ascii_alphanumeric, is_ascii_lowercase, is_ascii_uppercase,
    is_ascii_digit. intros H.
  repeat (apply orb_true_iff in H as [H|H]); breflect; lia.
Qed.

Lemma name_first_char c : name_first c = true → name_char c = true.
Proof. unfold name_char. intros ->. done. Qed.

(** A string whose bytes are name characters is its own UTF-8 encoding. *)
Lemma as_bytes_names s :
  Forall (λ b, name_char b = true) (as_bytes s) ↔ Forall (λ c, name_char c = true) s.
Proof.
  assert (Hcons : ∀ c s, as_bytes (c :: s) = utf8_char c ++ as_bytes s) by done.
  induction s as [|c s IH]; [done|]. rewrite Hcons, Forall_app, Forall_cons, IH.
  enough (Forall (λ b, name_char b = true) (utf8_char c) ↔ name_char c = true) by naive_solver.
  unfold utf8_char. destruct (Z.ltb_spec c 128); [by rewrite Forall_singleton|].
  split; [intros H2; exfalso|intros H2%name_char_bound; lia].
  destruct (c <? 2048), (c <? 65536); apply Forall_cons in H2 as [H2%name_char_bound _];
    Z.to_euclidean_division_equations; lia.
Qed.

Lemma as_bytes_name_ascii s : Forall (λ c, name_char c = true) s → as_bytes s = s.
Proof.
  intros H. apply as_bytes_ascii. eapply Forall_impl; [exact H|].
  intros c Hc%name_char_bound. simpl in *. lia.
Qed.

Lemma file_name_ok_iff name : file_name_ok name = true ↔ name_shape name.
Proof.
  unfold file_name_ok, name_shape. split.
  - intros H. destruct (as_bytes name) as [|first rest] eqn:E; [done|]. breflect.
    assert (Hall : Forall (λ c, name_char c = true) name).
    { apply as_bytes_names. rewrite E, Forall_cons. split; [by apply name_first_char|].
      apply Forall_forall. intros b Hb. rewrite forallb_forall in H0.
      apply H0. by apply list_elem_of_In. }
    rewrite (as_bytes_name_ascii _ Hall) in E. subst name.
    exists first, rest. apply Forall_cons in Hall as [_ ?].
    split_and!; [done..|]. unfold MAX_NAME_CHARS in *. simpl in *. lia.
  - intros (first & rest & -> & Hf & Hr & Hl).
    rewrite as_bytes_name_ascii by (apply Forall_cons; auto using name_first_char).
    rewrite Hf. unfold MAX_NAME_CHARS. replace (_ <=? 64) with true by (symmetry; apply Z.leb_le; lia).
    simpl. apply forallb_forall. intros b Hb%list_elem_of_In. by eapply Forall_forall in Hr.
Qed.

Lemma split_cons_nosep sep c s : sep c = false →
  ∃ part parts, split sep s = part :: parts ∧ split sep (c :: s) = (c :: part) :: parts.
Proof.
  intros Hc. simpl. rewrite Hc. destruct s as [|d s]; simpl; [by eexists _, _|].
  destruct (sep d); [by eexists _, _|]. destruct (split sep s); by eexists _, _.
Qed.

Lemma split_nosep sep s : Forall (λ c, sep c = false) s → split sep s = [s].
Proof.
  induction 1 as [|c s Hc _ IH]; [done|].
  destruct (split_cons_nosep sep c s Hc) as (part & parts & E & ->).
  rewrite IH in E. by simplify_eq.
Qed.

Lemma name_char_shown c : name_char c = true → shown c = true.
Proof.
  intros H%name_char_bound. unfold shown, is_control, is_whitespace.
  assert (Hr : existsb (λ r : Z * Z, (r.1 <=? c) && (c <=? r.2)) HIDDEN_RANGES = false).
  { apply not_true_is_false. rewrite existsb_exists. intros (r & Hr & Hc). breflect.
    unfold HIDDEN_RANGES in Hr. simpl in Hr. repeat destruct Hr as [<-|Hr]; simpl in *; lia. }
  rewrite Hr. repeat match goal with
    | |- context [?a <=? ?b] => destruct (Z.leb_spec a b); try lia
    | |- context [?a =? ?b] => destruct (Z.eqb_spec a b); try lia
    end; done.
Qed.

(** A name of the allowed characters is always a plain relative path. *)
Lemma name_relative name : name_shape name → relative_request name = true.
Proof.
  intros (first & rest & -> & Hf & Hr & Hl).
  assert (Hall : Forall (λ c, name_char c = true) (first :: rest))
    by (apply Forall_cons; auto using name_first_char).
  assert (Hnosep : Forall (λ c, is_separator c = false) (first :: rest)).
  { eapply Forall_impl; [exact Hall|]. intros c Hc. simpl in *. unfold is_separator.
    destruct (Z.eqb_spec c 47) as [->|]; [done|]. by destruct (Z.eqb_spec c 92) as [->|]. }
  unfold relative_request. rewrite (split_nosep _ _ Hnosep).
  rewrite bool_decide_eq_false_2 by done.
  apply Forall_cons in Hnosep as [-> _].
  assert (is_plain (first :: rest) = true) as ->.
  { unfold is_plain, MAX_FIELD. apply andb_true_iff. split; [apply Nat.leb_le; lia|].
    apply forallb_forall. intros c Hc%list_elem_of_In. eapply Forall_forall in Hall; [|done].
    by apply name_char_shown. }
  assert (existsb (λ c, c =? 58) (first :: rest) = false) as ->.
  { apply not_true_is_false. rewrite existsb_exists. intros (c & Hc%list_elem_of_In & ->%Z.eqb_eq).
    eapply Forall_forall in Hall; [|done]. done. }
  cbn [forallb negb andb]. rewrite andb_true_r, bool_decide_eq_false_2; [done|].
  change (lit "..") with [46; 46]. intros [= -> _]. done.
Qed.

Lemma forallb_Forall {A} (p : A → bool) l : forallb p l = true ↔ Forall (λ x, p x = true) l.
Proof. rewrite forallb_forall, Forall_forall. by setoid_rewrite list_elem_of_In. Qed.

Lemma existsb_notin (z : Z) l : existsb (λ c, c =? z) l = false ↔ z ∉ l.
Proof.
  rewrite <- not_true_iff_false, existsb_exists. setoid_rewrite Z.eqb_eq.
  setoid_rewrite <- list_elem_of_In. naive_solver.
Qed.

Lemma relative_request_iff path :
  relative_request path = true ↔
  path ≠ [] ∧ is_plain path = true ∧ (∀ c, head path = Some c → is_separator c = false) ∧
  58 ∉ path ∧ lit ".." ∉ split is_separator path.
Proof.
  unfold relative_request. rewrite !andb_true_iff, !negb_true_iff, bool_decide_eq_false,
    existsb_notin, forallb_Forall, Forall_forall.
  assert (H1 : (match path with c :: _ => is_separator c | [] => false end) = false ↔
    ∀ c, head path = Some c → is_separator c = false) by (destruct path; naive_solver).
  assert (H2 : (∀ x, x ∈ split is_separator path → negb (bool_decide (x = lit "..")) = true) ↔
    lit ".." ∉ split is_separator path).
  { setoid_rewrite negb_true_iff. setoid_rewrite bool_decide_eq_false. naive_solver. }
  rewrite H1, H2. naive_solver.
Qed.

Lemma file_refuses_none contract create workspace :
  file_refuses contract create workspace = None ↔
  name_shape (create_name create) ∧ 0 ∉ create_content create ∧
  str_len (create_content create) ≤ 8192 ∧
  (length (split_inclusive (create_content create)) ≤ 150)%nat ∧
  workspace ≠ None ∧ requested_folder contract = workspace.
Proof.
  unfold file_refuses. rewrite <- file_name_ok_iff.
  destruct (file_name_ok (create_name create)) eqn:Hn.
  2:{ destruct (relative_request _); naive_solver. }
  rewrite name_relative by by apply file_name_ok_iff. cbn [negb].
  rewrite <- existsb_notin. destruct (existsb _ _); [naive_solver|].
  unfold MAX_FILE_BYTES. destruct (Z.ltb_spec 8192 (str_len (create_content create)));
    [split; [done|naive_solver lia]|].
  unfold MAX_FILE_LINES. destruct (Nat.ltb_spec 150 (length (split_inclusive (create_content create))));
    [split; [done|naive_solver lia]|].
  destruct (decide (workspace = None)) as [->|Hw].
  { rewrite bool_decide_eq_true_2 by done. naive_solver. }
  rewrite (bool_decide_eq_false_2 _ Hw).
  destruct (decide (requested_folder contract = workspace)).
  - rewrite bool_decide_eq_true_2 by done. naive_solver.
  - rewrite bool_decide_eq_false_2 by done. naive_solver.
Qed.

(** Mother lets an effect through to the port exactly when its kind is not
    forbidden by the contract and: it spends nothing; a File request has a
    requested folder and a plain relative path that never goes up; a File create
    names one top-level file of at most 64 allowed characters, with text content
    of at most 8 KiB and 150 lines, in the workspace the Owner asked for. *)
Theorem mother_lets_through {Value} (contract : MissionContract) (effect : EffectRequest.t Value)
    (workspace : option str) :
  mother_refuses contract effect workspace = None ↔
  EffectRequest.kind effect ∉ forbidden_effects contract ∧
  match effect with
  | EffectRequest.Spend _ _ => False
  | EffectRequest.File path _ =>
      is_Some (requested_folder contract) ∧ path ≠ [] ∧ is_plain path = true ∧
      (∀ c, head path = Some c → is_separator c = false) ∧ 58 ∉ path ∧
      lit ".." ∉ split is_separator path
  | EffectRequest.CreateFile create =>
      ∃ folder, requested_folder contract = Some folder ∧ workspace = Some folder ∧
        name_shape (create_name create) ∧ 0 ∉ create_content create ∧
        str_len (create_content create) ≤ 8192 ∧
        (length (split_inclusive (create_content create)) ≤ 150)%nat
  | _ => True
  end.
Proof.
  unfold mother_refuses.
  destruct (decide (EffectRequest.kind effect ∈ forbidden_effects contract)) as [Hk|Hk].
  { rewrite bool_decide_eq_true_2 by done. naive_solver. }
  rewrite bool_decide_eq_false_2 by done.
  destruct effect as [path w|create|?|?|?|?]; [| |done..|by case_match; naive_solver].
  - destruct (requested_folder contract) as [folder|] eqn:Ef.
    + rewrite bool_decide_eq_false_2 by done. rewrite <- relative_request_iff.
      destruct (relative_request path); naive_solver.
    + rewrite bool_decide_eq_true_2 by done. split; [done|]. intros (_ & [? ?] & _). done.
  - destruct (requested_folder contract) as [folder|] eqn:Ef.
    + rewrite bool_decide_eq_false_2 by done. rewrite file_refuses_none, Ef. naive_solver.
    + rewrite bool_decide_eq_true_2 by done. naive_solver.
Qed.
