(* ===== verification/Mission.v ===== *)
(** * A mission

    The coordinator's record of one mission ([struct Mission] of
    [mother/src/coordinator.rs]) with its parts: the pending wait, the accounting
    of model calls ([coordinator/model_calls.rs]) and the proof of a page's
    publication ([coordinator/page_proof.rs]); and [Mission::apply], which takes
    a transition the table accepted. *)

From S2P Require Import Prelude Evidence MissionState Journal Contract.

Local Open Scope Z_scope.

(** ** The parts of a mission *)

(** What the Owner is asked ([authority/approval.rs]). *)
Record FactsView := MkFactsView {
  fv_name : str;
  fv_hours : list str;
  fv_phone : str;
}.

Record MissionConfirmation := MkMissionConfirmation {
  mc_contract_hash : str;
  mc_request : str;
  mc_summary : list str;
  mc_page_facts : option FactsView;
}.

Record MissionResumeConfirmation := MkMissionResumeConfirmation {
  mrc_mission : str;
  mrc_contract_hash : str;
  mrc_request : str;
  mrc_held_reason : str;
  mrc_summary : list str;
}.

(** An effect that waits for the Owner's approval, and what its phase had
    still to do. *)
Record Waiting {Value : Type} := MkWaiting {
  w_phase : MissionState;
  w_effect : Z;
  w_rest_ref : RestRef;
  w_rest : option (list (EffectRequest.t Value));
  w_roles_left : list LaneRole.t;
}.
Arguments Waiting : clear implicits.

(** The model calls of one lane invocation. *)
Record CallAccounting := MkCallAccounting {
  ca_invocation : InvocationId;
  ca_cap : Z;
  ca_budget : Z;
  ca_next : Z;
  ca_prepaid : bool;
}.

(** A live lane call. Its deny latch ([owner], [liveness]) is named by a number:
    it is memory of the broker's observers, never replayed. *)
Record LaneCalls := MkLaneCalls {
  lc_owner : nat;
  lc_invocation : InvocationId;
  lc_generation : Z;
  lc_in_flight : bool;
  lc_at_mono_ms : Z;
  lc_at_wall_ms : Z;
}.

(** The page Verifier's input ([page_verifier.rs]). *)
Record VerificationIdentity := MkVerificationIdentity {
  vi_candidate_sha256 : str;
  vi_candidate_bytes : Z;
  vi_facts_hash : str;
  vi_receipt_sha256 : str;
  vi_receipt_bytes : Z;
  vi_receipt_policy_hash : str;
  vi_receipt_overtaken : bool;
}.

Record VerificationInput := MkVerificationInput {
  vin_candidate : bytes;
  vin_facts : PageFacts;
  vin_identity : VerificationIdentity;
}.

(** A retained deliverable and a journaled receipt, by reference. *)
Record Retained := MkRetained {
  rt_invocation : InvocationId;
  rt_effect : Z;
  rt_content : ContentId;
  rt_sha256 : str;
  rt_bytes : Z;
}.

Record Recorded := MkRecorded {
  rc_effect : Z;
  rc_sha256 : str;
  rc_bytes : Z;
  rc_policy_hash : option str;
  rc_overtaken : bool;
}.

Record Proof_ := MkProof {
  p_returned : option InvocationId;
  p_retained : option Retained;
  p_receipt : option Recorded;
  p_invoked : option LaneRole.t;
  p_input : option VerificationInput;
  p_verified : option bool;
  p_checks : option (list (str * str));
  p_early : option PendingAction;
  p_unrecorded : bool;
}.

Definition Proof_default : Proof_ := MkProof None None None None None None None None false.

Definition proof_eta (p : Proof_) : Proof_ :=
  MkProof (p_returned p) (p_retained p) (p_receipt p) (p_invoked p) (p_input p) (p_verified p)
    (p_checks p) (p_early p) (p_unrecorded p).

(** ** The mission *)

#[projections(primitive)]
Record Mission {Value : Type} := MkMission {
  contract_ref : ContractRef;
  contract : option MissionContract;
  state : MissionState;
  consent : option ContractHash;
  generation : Z;
  busy : bool;
  approved_wall_ms : option Z;
  mono_ref : Z;
  spent_at_ref : Z;
  model_calls : Z;
  next_effect : Z;
  unsettled : option Z;
  dispatched_kind : option EffectKind.t;
  dispatched_in_phase : bool;
  pending_lane : option InvocationId;
  call_accounting : option CallAccounting;
  lane_calls : option LaneCalls;
  declared_model_budgets : list Z;
  prior_outputs : list str;
  reason : option str;
  asking : option MissionConfirmation;
  resume_asking : option MissionResumeConfirmation;
  waiting : option (Waiting Value);
  awaiting_settled : option Z;
  open_action : option (Z * PendingAction);
  held : option HeldReason.t;
  held_journaled : bool;
  must_hold : bool;
  file_mode : bool;
  consent_request : option str;
  unresolved_file : option Z;
  settlement : option (Z * SettleCause.t);
  acks : list PendingAction;
  terminal_uncertain : bool;
  terminal_record : option (Trigger.t * option Z);
  proof : Proof_;
}.
Arguments Mission : clear implicits.
Arguments MkMission {Value}.

Definition mission_eta {Value} (m : Mission Value) : Mission Value :=
  MkMission (contract_ref m) (contract m) (state m) (consent m) (generation m) (busy m)
    (approved_wall_ms m) (mono_ref m) (spent_at_ref m) (model_calls m) (next_effect m)
    (unsettled m) (dispatched_kind m) (dispatched_in_phase m) (pending_lane m)
    (call_accounting m) (lane_calls m) (declared_model_budgets m) (prior_outputs m)
    (reason m) (asking m) (resume_asking m) (waiting m) (awaiting_settled m)
    (open_action m) (held m) (held_journaled m) (must_hold m) (file_mode m)
    (consent_request m) (unresolved_file m) (settlement m) (acks m) (terminal_uncertain m)
    (terminal_record m) (proof m).

Ltac mission_update :=
  lazymatch goal with
  | |- @Update (Mission ?Value) ?T ?proj =>
      exact (λ (v : T) (m : Mission Value),
        ltac:(let t := eval cbv beta delta [mission_eta] in (mission_eta m) in
              replace_field t (proj m) v))
  end.
Ltac proof_update :=
  lazymatch goal with
  | |- @Update Proof_ ?T ?proj =>
      exact (λ (v : T) (p : Proof_),
        ltac:(let t := eval cbv beta delta [proof_eta] in (proof_eta p) in
              replace_field t (proj p) v))
  end.

#[export] Instance upd_p_returned : Update p_returned := ltac:(proof_update).
#[export] Instance upd_p_retained : Update p_retained := ltac:(proof_update).
#[export] Instance upd_p_receipt : Update p_receipt := ltac:(proof_update).
#[export] Instance upd_p_invoked : Update p_invoked := ltac:(proof_update).
#[export] Instance upd_p_input : Update p_input := ltac:(proof_update).
#[export] Instance upd_p_verified : Update p_verified := ltac:(proof_update).
#[export] Instance upd_p_checks : Update p_checks := ltac:(proof_update).
#[export] Instance upd_p_early : Update p_early := ltac:(proof_update).
#[export] Instance upd_p_unrecorded : Update p_unrecorded := ltac:(proof_update).

Section Updates.
Context {Value : Type}.
#[global] Instance upd_contract_ref : Update (@contract_ref Value) := ltac:(mission_update).
#[global] Instance upd_contract : Update (@contract Value) := ltac:(mission_update).
#[global] Instance upd_state : Update (@state Value) := ltac:(mission_update).
#[global] Instance upd_consent : Update (@consent Value) := ltac:(mission_update).
#[global] Instance upd_generation : Update (@generation Value) := ltac:(mission_update).
#[global] Instance upd_busy : Update (@busy Value) := ltac:(mission_update).
#[global] Instance upd_approved_wall_ms : Update (@approved_wall_ms Value) := ltac:(mission_update).
#[global] Instance upd_mono_ref : Update (@mono_ref Value) := ltac:(mission_update).
#[global] Instance upd_spent_at_ref : Update (@spent_at_ref Value) := ltac:(mission_update).
#[global] Instance upd_model_calls : Update (@model_calls Value) := ltac:(mission_update).
#[global] Instance upd_next_effect : Update (@next_effect Value) := ltac:(mission_update).
#[global] Instance upd_unsettled : Update (@unsettled Value) := ltac:(mission_update).
#[global] Instance upd_dispatched_kind : Update (@dispatched_kind Value) := ltac:(mission_update).
#[global] Instance upd_dispatched_in_phase : Update (@dispatched_in_phase Value) := ltac:(mission_update).
#[global] Instance upd_pending_lane : Update (@pending_lane Value) := ltac:(mission_update).
#[global] Instance upd_call_accounting : Update (@call_accounting Value) := ltac:(mission_update).
#[global] Instance upd_lane_calls : Update (@lane_calls Value) := ltac:(mission_update).
#[global] Instance upd_declared_model_budgets : Update (@declared_model_budgets Value) := ltac:(mission_update).
#[global] Instance upd_prior_outputs : Update (@prior_outputs Value) := ltac:(mission_update).
#[global] Instance upd_reason : Update (@reason Value) := ltac:(mission_update).
#[global] Instance upd_asking : Update (@asking Value) := ltac:(mission_update).
#[global] Instance upd_resume_asking : Update (@resume_asking Value) := ltac:(mission_update).
#[global] Instance upd_waiting : Update (@waiting Value) := ltac:(mission_update).
#[global] Instance upd_awaiting_settled : Update (@awaiting_settled Value) := ltac:(mission_update).
#[global] Instance upd_open_action : Update (@open_action Value) := ltac:(mission_update).
#[global] Instance upd_held : Update (@held Value) := ltac:(mission_update).
#[global] Instance upd_held_journaled : Update (@held_journaled Value) := ltac:(mission_update).
#[global] Instance upd_must_hold : Update (@must_hold Value) := ltac:(mission_update).
#[global] Instance upd_file_mode : Update (@file_mode Value) := ltac:(mission_update).
#[global] Instance upd_consent_request : Update (@consent_request Value) := ltac:(mission_update).
#[global] Instance upd_unresolved_file : Update (@unresolved_file Value) := ltac:(mission_update).
#[global] Instance upd_settlement : Update (@settlement Value) := ltac:(mission_update).
#[global] Instance upd_acks : Update (@acks Value) := ltac:(mission_update).
#[global] Instance upd_terminal_uncertain : Update (@terminal_uncertain Value) := ltac:(mission_update).
#[global] Instance upd_terminal_record : Update (@terminal_record Value) := ltac:(mission_update).
#[global] Instance upd_proof : Update (@proof Value) := ltac:(mission_update).
End Updates.

Local Open Scope nexus_scope.

Section MissionOps.
Context {Value : Type}.
Implicit Types m : Mission Value.

Definition Mission_new (contract_ref : ContractRef) (contract : option MissionContract)
    : Mission Value :=
  {| contract_ref := contract_ref; contract := contract; state := Draft; consent := None;
     generation := 0; busy := false; approved_wall_ms := None; mono_ref := 0;
     spent_at_ref := 0; model_calls := 0; next_effect := 0; unsettled := None;
     dispatched_kind := None; dispatched_in_phase := false; pending_lane := None;
     call_accounting := None; lane_calls := None; declared_model_budgets := [];
     prior_outputs := []; reason := None; asking := None; resume_asking := None;
     waiting := None; awaiting_settled := None; open_action := None; held := None;
     held_journaled := false; must_hold := false; file_mode := false; consent_request := None;
     unresolved_file := None; settlement := None; acks := []; terminal_uncertain := false;
     terminal_record := None; proof := Proof_default |}.

(** Ends the invocation; its pending settlement evidence, charged total and
    declared budgets stay. (The live call's latch is revoked as it is dropped.) *)
Definition invalidate_calls m : Mission Value :=
  m <| lane_calls := None |> <| call_accounting := None |>.

(** The waited File, if the mission waits on one that is not resolved. *)
Definition waited_file m : option Z :=
  w ← waiting m;
  if bool_decide (unresolved_file m = Some (w_effect w)) then Some (w_effect w) else None.

(** An approval, a denial or a lapse resolves the waited File: its journaled
    identity is owed an acknowledgement. *)
Definition resolve_waited (trigger : Trigger.t) m : Mission Value :=
  match waited_file m, trigger with
  | Some effect,
    (Trigger.ActionApproved _ _ | Trigger.ActionDenied _ | Trigger.ApprovalLapsed _ _) =>
      let owed :=
        match open_action m with
        | Some (e, pending) => if e =? effect then [pending] else []
        | None => []
        end in
      m <| acks := acks m ++ owed |> <| unresolved_file := None |>
  | _, _ => m
  end.

(** What the trigger itself changes. *)
Definition apply_trigger (trigger : Trigger.t) (mono_now : Z) m : Mission Value :=
  match trigger with
  | Trigger.Revise contract_ref' =>
      m <| contract_ref := contract_ref' |> <| contract := None |> <| consent := None |>
        <| approved_wall_ms := None |>
  | Trigger.Consent _ at_wall_ms =>
      m <| approved_wall_ms := Some at_wall_ms |> <| mono_ref := mono_now |>
        <| spent_at_ref := 0 |>
  | Trigger.VerifyFail r => m <| reason := Some (VerifyFailReason.as_str r) |>
  | Trigger.Block r => m <| reason := Some (BlockReason.as_str r) |>
  | Trigger.Fail r => m <| reason := Some (FailReason.as_str r) |>
  | Trigger.AwaitApproval effect rest roles_left =>
      m <| waiting := Some (MkWaiting Value (state m) effect rest None roles_left) |>
  | Trigger.ActionApproved _ _ => m <| waiting := None |>
  | Trigger.ApprovalLapsed _ r =>
      m <| waiting := None |> <| reason := Some (LapseReason.as_str r) |>
  | Trigger.ActionDenied _ => m <| waiting := None |>
  | Trigger.Settled _ action outcome end_ =>
      m <| waiting := None |> <| reason := Some (SettlementEnd.as_str end_) |>
        <| acks := acks m ++
             match action with
             | Some pending => if conclusive outcome then [pending] else []
             | None => []
             end |>
        <| unresolved_file := None |> <| unsettled := None |> <| pending_lane := None |>
        <| terminal_uncertain := negb (conclusive outcome) |>
  | _ => m
  end.

(** Take a transition the table accepted ([Mission::apply]). *)
Definition apply (trigger : Trigger.t) (to : MissionState) (mono_now : Z) m : Mission Value :=
  let dispatched := match trigger with Trigger.ActionApproved _ _ => true | _ => false end in
  let m := apply_trigger trigger mono_now (resolve_waited trigger (invalidate_calls m)) in
  let m := m <| state := to |> in
  let m := if is_terminal to then
             m <| held := None |> <| held_journaled := false |> <| must_hold := false |>
           else m in
  m <| generation := generation m + 1 |> <| dispatched_in_phase := dispatched |>
    <| asking := None |> <| resume_asking := None |> <| awaiting_settled := None |>.

Definition consented m : bool :=
  bool_decide (consent m = Some (contract_hash (contract_ref m))).

(** Time spent since consent: the larger of the wall and monotonic measures. *)
Definition saturating_sub (a b : Z) : Z := Z.max 0 (a - b).
Definition spent_ms (wall_ms monotonic_ms : Z) m : Z :=
  let wall := match approved_wall_ms m with Some at_ => saturating_sub wall_ms at_ | None => 0 end in
  let mono := saturating_add u64_max (spent_at_ref m) (saturating_sub monotonic_ms (mono_ref m)) in
  Z.max wall mono.

Definition out_of_time (wall_ms monotonic_ms : Z) m : bool :=
  match contract m with
  | Some c => max_duration_ms (budget c) <=? spent_ms wall_ms monotonic_ms m
  | None => true
  end.

(** ** The accounting of model calls ([model_calls.rs]) *)

Definition MAX_MODEL_CALLS : Z := 1000.

Definition reserved m (invocation : InvocationId) (cap budget : Z)
    : result (option CallAccounting) V.t :=
  if (cap =? 0) && (budget =? 0) then Ok None
  else if negb ((1 <=? cap) && (cap <=? 4)) ||
          negb ((1 <=? budget) && (budget <=? MAX_MODEL_CALLS)) ||
          match checked_add u32_max (model_calls m) cap with
          | None => true
          | Some n => budget <? n
          end
  then Err V.ModelChargeOutOfPlace
  else Ok (Some (MkCallAccounting invocation cap budget 1 true)).

Definition charge (a : CallAccounting) (invocation : InvocationId) (call total : Z)
    : result (CallAccounting * Z) V.t :=
  if negb (bool_decide (invocation = ca_invocation a)) || negb (call =? ca_next a) ||
     (ca_cap a <? call) || ((call =? 1) && negb (ca_prepaid a)) ||
     ((1 <? call) && (ca_budget a <=? total))
  then Err V.ModelChargeOutOfPlace
  else
    let prepaid := if call =? 1 then false else ca_prepaid a in
    let total := if call =? 1 then total else total + 1 in
    Ok (MkCallAccounting (ca_invocation a) (ca_cap a) (ca_budget a) (ca_next a + 1) prepaid, total).

(** ** The publication proof ([page_proof.rs]) *)

Definition receipt_effect (p : Proof_) : option Z := rc_effect <$> p_receipt p.

Definition recorded (event : Event.t) : option Recorded :=
  match event with
  | Event.PublicationReceipt effect _ sha256 nbytes policy_hash overtaken =>
      Some (MkRecorded effect sha256 nbytes policy_hash overtaken)
  | _ => None
  end.

(** A Settled line for an early receipt's effect that names another action. *)
Definition early_conflict m (effect : Z) (action : option PendingAction) : bool :=
  bool_decide (receipt_effect (proof m) = Some effect) &&
  match p_early (proof m) with Some e => negb (bool_decide (action = Some e)) | None => false end.

(** The settlement end replay expects for a page publication. *)
Definition settled_end m (effect : Z) (published : bool) : option SettlementEnd.t :=
  let retained := match p_retained (proof m) with Some r => rt_effect r =? effect | None => false end in
  if published && retained && negb (bool_decide (receipt_effect (proof m) = Some effect))
  then Some (SettlementEnd.Block BlockReason.ReceiptMissing)
  else None.

(** A page File approved (its ack owed) without a durable receipt. *)
Definition unproven m : bool :=
  match p_retained (proof m) with
  | Some r =>
      negb (bool_decide (receipt_effect (proof m) = Some (rt_effect r))) &&
      match open_action m with
      | Some (e, pending) => (e =? rt_effect r) && bool_decide (pending ∈ acks m)
      | None => false
      end
  | None => false
  end.

(** Whether [v] was built from this proof's retained page and receipt. *)
Definition bound (p : Proof_) (v : VerificationInput) : bool :=
  let i := vin_identity v in
  match p_retained p with
  | Some d => bool_decide (rt_sha256 d = vi_candidate_sha256 i) && (rt_bytes d =? vi_candidate_bytes i)
  | None => false
  end &&
  match p_receipt p with
  | Some r =>
      bool_decide (rc_sha256 r = vi_receipt_sha256 i) && (rc_bytes r =? vi_receipt_bytes i) &&
      bool_decide (rc_policy_hash r = Some (vi_receipt_policy_hash i)) &&
      bool_decide (rc_overtaken r = vi_receipt_overtaken i)
  | None => false
  end.
End MissionOps.
