(* ===== verification/Replay.v ===== *)
(** * Replaying a mission journal

    [replay], [inspect_history_lines] and [phase_roles] of
    [mother/src/coordinator.rs] and [page_proof::replay]: what a verified journal
    says of every mission, and which sequences of records are refused. *)

From S2P Require Import Prelude Evidence MissionState Journal Contract Mission.

Local Open Scope Z_scope.
Local Open Scope nexus_scope.

Definition MAX_MISSIONS : nat := 1024.
Definition MAX_EFFECTS_PER_CALL : Z := 16.

(** The lanes a working phase runs, in order. *)
Definition phase_roles (phase : MissionState) : list LaneRole.t :=
  match phase with
  | Investigating => [LaneRole.Sentinel; LaneRole.ResearcherA; LaneRole.ResearcherB; LaneRole.Skeptic]
  | Building => [LaneRole.Sentinel; LaneRole.Builder]
  | Verifying => [LaneRole.Sentinel; LaneRole.Verifier]
  | _ => []
  end.

(** Where replay is in the journal's sessions. *)
Module Session.
Inductive t := Never | Open | Closed.
End Session.
#[export] Instance Session_eq_dec : EqDecision Session.t.
Proof. solve_decision. Defined.

Section Replay.
Context {Value : Type}.
Implicit Types m : Mission Value.

(** What replay has rebuilt so far. *)
Record World := MkWorld {
  missions : gmap Z (Mission Value);
  next_mission : Z;
  session : Session.t;
}.

Definition world_init : World := MkWorld ∅ 1 Session.Never.

(** ** The publication proof ([page_proof::replay]) *)

Definition proof_retained (entry : Entry) (invocation : InvocationId) (effect : Z)
    (content : ContentId) (sha256 : str) (nbytes : Z) m : result (Mission Value) V.t :=
  if bool_decide (is_Some (p_retained (proof m))) then Err V.ProofConflict
  else if negb (bool_decide (state m = Building)) || bool_decide (is_Some (pending_lane m)) ||
          bool_decide (is_Some (unsettled m)) || bool_decide (is_Some (open_action m)) ||
          bool_decide (is_Some (settlement m)) || negb (effect =? next_effect m) ||
          negb (inv_mission invocation =? e_mission entry) ||
          negb (bool_decide (p_returned (proof m) = Some invocation))
  then Err V.ProofOutOfPlace
  else Ok (m <| proof := (proof m)
             <| p_retained := Some (MkRetained invocation effect content sha256 nbytes) |> |>).

Definition receipt_settling (effect : Z) (overtaken : bool) m : bool :=
  overtaken && bool_decide (unresolved_file m = Some effect) &&
  match settlement m with
  | Some (started, _) => started =? effect
  | None => match waiting m with Some w => w_effect w =? effect | None => false end
  end.

Definition proof_receipt (entry : Entry) (effect : Z) (action : PendingAction)
    (policy_hash : option str) (overtaken : bool) m : result (Mission Value) V.t :=
  if negb (match p_retained (proof m) with Some r => rt_effect r =? effect | None => false end)
  then Err V.ProofOutOfPlace
  else
    let settling := receipt_settling effect overtaken m in
    let linked :=
      match open_action m with
      | Some open => bool_decide (open = (effect, action))
      | None => settling && bool_decide (is_Some (settlement m))
      end in
    if bool_decide (is_Some (p_receipt (proof m))) || negb linked then Err V.ProofConflict
    else
      let clean :=
        bool_decide (is_Some policy_hash) && may_wait (state m) &&
        bool_decide (waiting m = None) && bool_decide (unresolved_file m = None) in
      if negb clean && negb settling then Err V.ProofOutOfPlace
      else
        let early := if bool_decide (open_action m = None) then Some action
                     else p_early (proof m) in
        Ok (m <| proof := (proof m) <| p_early := early |>
                 <| p_receipt := recorded (e_event entry) |> |>).

Definition all_pass (checks : list (str * str)) : bool :=
  forallb (λ c : str * str, bool_decide (c.2 = lit "pass")) checks.

Definition proof_verified (entry : Entry) (invocation : InvocationId) (effect : Z)
    (checks : list (str * str)) m : result (Mission Value) V.t :=
  if bool_decide (is_Some (p_verified (proof m))) then Err V.ProofConflict
  else
    let clean :=
      match p_receipt (proof m) with
      | Some r => (rc_effect r =? effect) && bool_decide (is_Some (rc_policy_hash r)) &&
                  negb (rc_overtaken r)
      | None => false
      end in
    if negb clean || negb (bool_decide (state m = Verifying)) ||
       bool_decide (is_Some (pending_lane m)) ||
       negb (inv_mission invocation =? e_mission entry) ||
       negb (bool_decide (p_returned (proof m) = Some invocation)) ||
       negb (bool_decide (p_invoked (proof m) = Some LaneRole.Verifier))
    then Err V.ProofOutOfPlace
    else
      Ok (m <| proof := (proof m) <| p_verified := Some (all_pass checks) |>
                 <| p_checks := Some checks |> |>).

Definition proof_replay (entry : Entry) m : result (Mission Value) V.t :=
  match e_event entry with
  | Event.DeliverableRetained invocation effect content sha256 nbytes =>
      proof_retained entry invocation effect content sha256 nbytes m
  | Event.PublicationReceipt effect action _ _ policy_hash overtaken =>
      proof_receipt entry effect action policy_hash overtaken m
  | Event.VerificationRecorded invocation effect _ checks =>
      proof_verified entry invocation effect checks m
  | _ => Ok m
  end.

(** ** Transitions *)

(** The settlement's end: the exact File, its first cause's end and the
    journaled identity. *)
Definition settled_guard (effect : Z) (action : option PendingAction)
    (outcome : SettlementOutcome.t) (end_ : SettlementEnd.t) m : result unit V.t :=
  let? expected :=
    match settlement m with
    | Some (started, cause) =>
        if started =? effect then Ok (Some (SettleCause.end_ cause outcome))
        else Err V.SettlementConflict
    | None =>
        if bool_decide (unresolved_file m = Some effect) &&
           match waiting m with Some w => w_effect w =? effect | None => false end
        then Ok (match ordinary_end outcome with Some e => Some e | None => deadline_end outcome end)
        else Err V.SettlementOutOfPlace
    end in
  let published := match outcome with SettlementOutcome.Published _ _ => true | _ => false end in
  let expected :=
    match settled_end m effect (published && bool_decide (is_Some action)) with
    | Some e => Some e
    | None => expected
    end in
  if negb (bool_decide (expected = Some end_)) then Err V.SettlementConflict
  else if match open_action m with
          | Some (open, pending) => (open =? effect) && negb (bool_decide (action = Some pending))
          | None => false
          end
  then Err V.SettlementConflict
  else if early_conflict m effect action then Err V.ProofConflict
  else Ok tt.

(** [roles_left] is a proper suffix of the phase's lanes. *)
Definition roles_left_ok (phase : MissionState) (roles_left : list LaneRole.t) : bool :=
  bool_decide (roles_left `suffix_of` phase_roles phase) &&
  (length roles_left <? length (phase_roles phase))%nat.

(** The conditions on one trigger, beyond the table. *)
Definition trigger_guard (trigger : Trigger.t) m : result unit V.t :=
  let hash := contract_hash (contract_ref m) in
  match trigger with
  | Trigger.Submit h => if bool_decide (h ≠ hash) then Err V.SubmitOtherHash else Ok tt
  | Trigger.Consent h _ | Trigger.Deny h =>
      if bool_decide (h ≠ hash) then Err V.ConsentOtherHash else Ok tt
  | Trigger.Start => if negb (consented m) then Err V.WorkWithoutConsent else Ok tt
  | Trigger.VerifyPass =>
      if bool_decide (is_Some (p_retained (proof m))) &&
         negb (bool_decide (p_verified (proof m) = Some true))
      then Err V.ProofOutOfPlace else Ok tt
  | Trigger.AwaitApproval effect rest roles_left =>
      if negb (bool_decide (awaiting_settled m = Some effect)) then Err V.WaitNotAwaiting
      else if (MAX_EFFECTS_PER_CALL <=? rr_count rest) || negb (roles_left_ok (state m) roles_left)
      then Err V.WaitNotWritten
      else Ok tt
  | Trigger.ActionApproved effect phase =>
      if match waiting m with
         | Some w => negb (w_effect w =? effect) || negb (bool_decide (w_phase w = phase))
         | None => true
         end
      then Err V.ApprovalOfOtherWait else Ok tt
  | Trigger.ActionDenied effect | Trigger.ApprovalLapsed effect _ =>
      if match waiting m with Some w => negb (w_effect w =? effect) | None => true end
      then Err V.EndOfOtherWait else Ok tt
  | Trigger.Settled effect action outcome end_ => settled_guard effect action outcome end_ m
  | _ => Ok tt
  end.

Definition ends_without_settlement (trigger : Trigger.t) : bool :=
  match trigger with
  | Trigger.Stop _ | Trigger.Block _ | Trigger.Fail _ | Trigger.VerifyFail _ => true
  | _ => false
  end.

Definition is_settled (trigger : Trigger.t) : bool :=
  match trigger with Trigger.Settled _ _ _ _ => true | _ => false end.

Definition while_unsettled (trigger : Trigger.t) : bool :=
  match trigger with
  | Trigger.Stop _ | Trigger.Settled _ _ _ _ | Trigger.Block BlockReason.EffectOutcomeUnknown => true
  | _ => false
  end.

(** The transition taken, its terminal record and, for a consent, the verified
    journal's record of the broker's approval. *)
Definition take_transition (seq : Z) (trigger : Trigger.t) (to : MissionState) m : Mission Value :=
  let m := apply trigger to 0 m in
  let m := if is_terminal to then m <| terminal_record := Some (trigger, Some seq) |> else m in
  match trigger with
  | Trigger.Consent hash _ => m <| consent := Some hash |>
  | _ => m
  end.

Definition replay_transition (entry : Entry) (trigger : Trigger.t) m : result (Mission Value) V.t :=
  let? to := map_err (λ _, V.IllegalTransition) (transition (state m) trigger) in
  if bool_decide (is_Some (unresolved_file m)) && ends_without_settlement trigger
  then Err V.SettlementConflict
  else if bool_decide (is_Some (settlement m)) && negb (is_settled trigger)
  then Err V.SettlementConflict
  else if bool_decide (is_Some (unsettled m)) && negb (while_unsettled trigger)
  then Err V.TransitionWhileUnsettled
  else
    let? _ := trigger_guard trigger m in
    Ok (take_transition (e_seq entry) trigger to m).

(** ** Lanes and effects *)

Definition replay_charged (invocation : InvocationId) (call : Z) m : result (Mission Value) V.t :=
  if negb (bool_decide (pending_lane m = Some invocation)) || negb (is_working (state m)) ||
     bool_decide (is_Some (settlement m))
  then Err V.ModelChargeOutOfPlace
  else
    let? accounting := ok_or (call_accounting m) V.ModelChargeOutOfPlace in
    let? (accounting, total) := charge accounting invocation call (model_calls m) in
    Ok (m <| call_accounting := Some accounting |> <| model_calls := total |>).

Definition replay_invoked (entry : Entry) (invocation : InvocationId) (role : LaneRole.t)
    (model_cap model_budget : Z) m : result (Mission Value) V.t :=
  if bool_decide (is_Some (settlement m)) then Err V.SettlementConflict
  else if negb (is_working (state m)) || bool_decide (state m = Explaining) ||
          bool_decide (is_Some (pending_lane m)) || bool_decide (is_Some (open_action m)) ||
          negb (inv_mission invocation =? e_mission entry) || negb (inv_seq invocation =? e_seq entry)
  then Err V.LaneOutOfPlace
  else
    let? accounting := reserved m invocation model_cap model_budget in
    let budgets := if 0 <? model_cap then declared_model_budgets m ++ [model_budget]
                   else declared_model_budgets m in
    let? calls := ok_or (checked_add u32_max (model_calls m) 1) V.ModelChargeOutOfPlace in
    Ok (m <| call_accounting := accounting |> <| declared_model_budgets := budgets |>
          <| pending_lane := Some invocation |>
          <| proof := (proof m) <| p_returned := None |> <| p_invoked := Some role |> |>
          <| model_calls := calls |> <| awaiting_settled := None |>).

Definition replay_returned (invocation : InvocationId) (output_hash : str) m
    : result (Mission Value) V.t :=
  if negb (bool_decide (pending_lane m = Some invocation)) then Err V.LaneAnswerWithoutCall
  else Ok (m <| pending_lane := None |> <| call_accounting := None |>
             <| prior_outputs := prior_outputs m ++ [output_hash] |>
             <| proof := (proof m) <| p_returned := Some invocation |> |>).

Definition replay_overtaken (invocation : InvocationId) m : result (Mission Value) V.t :=
  if negb (bool_decide (pending_lane m = Some invocation)) then Err V.LaneAnswerWithoutCall
  else Ok (m <| pending_lane := None |> <| call_accounting := None |>).

Definition replay_dispatched (effect : Z) (kind : EffectKind.t) m : result (Mission Value) V.t :=
  if negb (is_working (state m)) || negb (effect =? next_effect m) ||
     bool_decide (is_Some (unsettled m)) || bool_decide (is_Some (open_action m)) ||
     bool_decide (is_Some (settlement m))
  then Err V.DispatchOutOfPlace
  else
    let file := if file_mode m && bool_decide (kind = EffectKind.File) then Some effect
                else unresolved_file m in
    Ok (m <| next_effect := next_effect m + 1 |> <| unsettled := Some effect |>
          <| dispatched_kind := Some kind |> <| unresolved_file := file |>
          <| dispatched_in_phase := true |> <| awaiting_settled := None |>).

Definition replay_settled (effect : Z) (outcome : SettledOutcome.t) m : result (Mission Value) V.t :=
  if negb (bool_decide (unsettled m = Some effect)) then Err V.SettledNotDispatched
  else
    let m := m <| unsettled := None |> in
    Ok (if bool_decide (outcome = SettledOutcome.AwaitingApproval) then
          m <| awaiting_settled := Some effect |>
        else if bool_decide (unresolved_file m = Some effect) then m <| unresolved_file := None |>
        else m).

Definition replay_pending (effect : Z) (pending : PendingAction) m : result (Mission Value) V.t :=
  if negb (may_wait (state m)) || negb (bool_decide (awaiting_settled m = Some effect)) ||
     bool_decide (is_Some (open_action m)) || bool_decide (is_Some (settlement m))
  then Err V.PendingOutOfPlace
  else Ok (m <| open_action := Some (effect, pending) |>).

Definition replay_closed (effect : Z) m : result (Mission Value) V.t :=
  if file_mode m && (bool_decide (is_Some (unresolved_file m)) || terminal_uncertain m)
  then Err V.SettlementConflict
  else if negb (bool_decide (fst <$> open_action m = Some effect)) then Err V.ClosureOfNoAction
  else Ok (m <| open_action := None |>).

(** ** Settlements and holds *)

Definition replay_settlement (effect : Z) (cause : SettleCause.t) m : result (Mission Value) V.t :=
  if is_terminal (state m) || bool_decide (is_Some (settlement m)) then Err V.SettlementConflict
  else if negb (bool_decide (unresolved_file m = Some effect)) then Err V.SettlementOutOfPlace
  else Ok (m <| settlement := Some (effect, cause) |> <| generation := generation m + 1 |>).

Definition replay_held (r : HeldReason.t) m : result (Mission Value) V.t :=
  if is_terminal (state m) || bool_decide (is_Some (pending_lane m)) ||
     bool_decide (is_Some (unsettled m)) || dispatched_in_phase m ||
     bool_decide (is_Some (settlement m))
  then Err V.HoldOutOfPlace
  else Ok (m <| held := Some r |> <| held_journaled := true |> <| must_hold := false |>).

Definition replay_resumed m : result (Mission Value) V.t :=
  if bool_decide (held m = None) then Err V.ResumeNotHeld
  else if file_mode m || bool_decide (is_Some (settlement m)) then Err V.SettlementConflict
  else Ok (m <| held := None |> <| held_journaled := false |>).

Definition replay_file_mode m : result (Mission Value) V.t :=
  if file_mode m || negb (bool_decide (state m = Draft)) || negb (generation m =? 0)
  then Err V.SettlementConflict
  else Ok (m <| file_mode := true |>).

(** What may be journaled while the mission is held, and before its hold. *)
Definition while_held (event : Event.t) : bool :=
  match event with
  | Event.Transition (Trigger.Stop _ | Trigger.Settled _ _ _ _) => true
  | Event.ApprovalClosed _ | Event.Resumed | Event.SettlementStarted _ _ => true
  | _ => false
  end.

Definition before_hold (event : Event.t) m : bool :=
  match event with
  | Event.Held _ | Event.LaneOvertaken _ | Event.ApprovalClosed _ | Event.SettlementStarted _ _ => true
  | Event.Transition trigger =>
      match transition (state m) trigger with Ok to => is_terminal to | Err _ => false end
  | _ => false
  end.

(** One record of a drafted mission. *)
Definition replay_mission (entry : Entry) m : result (Mission Value) V.t :=
  let event := e_event entry in
  match event with
  | Event.FileModeSelected => replay_file_mode m
  | _ =>
      if bool_decide (is_Some (held m)) && negb (while_held event) then Err V.RecordWhileHeld
      else if must_hold m && negb (before_hold event m) then Err V.RecordBeforeHold
      else
        match event with
        | Event.Transition trigger => replay_transition entry trigger m
        | Event.ModelCallCharged invocation call => replay_charged invocation call m
        | Event.LaneInvoked invocation role _ _ model_cap model_budget =>
            replay_invoked entry invocation role model_cap model_budget m
        | Event.LaneReturned invocation output_hash => replay_returned invocation output_hash m
        | Event.LaneOvertaken invocation => replay_overtaken invocation m
        | Event.EffectDispatched effect kind _ => replay_dispatched effect kind m
        | Event.EffectSettled effect outcome => replay_settled effect outcome m
        | Event.ApprovalPending effect pending => replay_pending effect pending m
        | Event.ApprovalClosed effect => replay_closed effect m
        | Event.SettlementStarted effect cause => replay_settlement effect cause m
        | Event.Held r => replay_held r m
        | Event.Resumed => replay_resumed m
        | Event.DeliverableRetained _ _ _ _ _ | Event.PublicationReceipt _ _ _ _ _ _
        | Event.VerificationRecorded _ _ _ _ => proof_replay entry m
        | _ => Ok m
        end
  end.

(** ** The whole journal *)

Definition must_hold_now m : Mission Value :=
  if negb (is_terminal (state m)) && bool_decide (held m = None) then m <| must_hold := true |> else m.

(** A mission that forbids a clean close. *)
Definition blocks_close m : bool :=
  must_hold m ||
  (file_mode m && (negb (is_terminal (state m)) || bool_decide (is_Some (unresolved_file m)) ||
                   terminal_uncertain m)).

Definition replay_drafted (id : Z) (contract_ref : ContractRef) (w : World) : result World V.t :=
  if negb (id =? next_mission w) then Err V.DraftedOutOfOrder
  else if (MAX_MISSIONS <=? size (missions w))%nat then Err V.TooManyMissions
  else Ok (MkWorld (<[id := Mission_new contract_ref None]> (missions w)) (id + 1) (session w)).

Definition replay (w : World) (entry : Entry) : result World V.t :=
  let id := e_mission entry in
  match e_event entry with
  | Event.SessionOpened =>
      if negb (id =? SESSION) then Err V.SessionRecordNamesMission
      else
        let ms := invalidate_calls <$> missions w in
        let ms := if bool_decide (session w ≠ Session.Closed) then must_hold_now <$> ms else ms in
        Ok (MkWorld ms (next_mission w) Session.Open)
  | Event.SessionClosed =>
      if negb (id =? SESSION) then Err V.SessionRecordNamesMission
      else if bool_decide (session w ≠ Session.Open) then Err V.CloseOfNoSession
      else if bool_decide (map_Forall (λ _ m, blocks_close m = false) (missions w))
      then Ok (MkWorld (invalidate_calls <$> missions w) (next_mission w) Session.Closed)
      else Err V.CloseWithUnheldMission
  | event =>
      if bool_decide (session w = Session.Closed) then Err V.RecordAfterClose
      else
        match event with
        | Event.Drafted contract_ref => replay_drafted id contract_ref w
        | _ =>
            let? m := ok_or (missions w !! id) V.NeverDrafted in
            let? m := replay_mission entry m in
            Ok (MkWorld (<[id := m]> (missions w)) (next_mission w) (session w))
        end
  end.

Context {codec : Codec}.

Fixpoint replay_entries (index : Z) (w : World) (entries : list Entry) : result World JournalError.t :=
  match entries with
  | [] => Ok w
  | entry :: rest =>
      let? w := map_err (JournalError.Inconsistent (index + 1))
                  (let? _ := check (e_event entry) in replay w entry) in
      replay_entries (index + 1) w rest
  end.

(** ** The read-only account ([inspect_history_lines]) *)

Record HistoryMission := MkHistoryMission {
  hm_mission : Z;
  hm_state : MissionState;
  hm_terminal : option (Trigger.t * Z);
  hm_actions : list (Z * PendingAction);
}.

Record HistoryInspection := MkHistoryInspection {
  hi_records : nat;
  hi_session_end_recorded : bool;
  hi_missions : list (Z * MissionState);
  hi_unresolved : list Z;
  hi_prior_acknowledgement_unavailable : nat;
  hi_details : list HistoryMission;
}.

(** The items of a [BTreeMap], in key order. *)
Definition key_le {A} (a b : Z * A) : Prop := a.1 ≤ b.1.
#[local] Instance key_le_dec {A} : RelDecision (@key_le A).
Proof. intros a b. unfold key_le. apply _. Defined.
Definition in_order {A} (t : gmap Z A) : list (Z * A) := merge_sort key_le (map_to_list t).

Definition is_unresolved m : bool :=
  negb (is_terminal (state m)) || bool_decide (is_Some (unresolved_file m)) ||
  terminal_uncertain m || bool_decide (is_Some (unsettled m)) ||
  bool_decide (is_Some (open_action m)) || bool_decide (is_Some (pending_lane m)).

Definition mission_actions (id : Z) (entries : list Entry) : gmap Z PendingAction :=
  foldl (λ actions entry,
      if e_mission entry =? id then
        match e_event entry with
        | Event.ApprovalPending effect pending => <[effect := pending]> actions
        | Event.Transition (Trigger.Settled effect (Some action) _ _) => <[effect := action]> actions
        | _ => actions
        end
      else actions) ∅ entries.

Definition history_mission (entries : list Entry) (p : Z * Mission Value) : HistoryMission :=
  MkHistoryMission p.1 (state p.2)
    ('(trigger, seq) ← terminal_record p.2; seq ← seq; Some (trigger, seq))
    (in_order (mission_actions p.1 entries)).

Definition inspect_history_lines (lines : list str) : result HistoryInspection JournalError.t :=
  let? entries := verify lines in
  let? w := replay_entries 0 world_init entries in
  let ms := in_order (missions w) in
  Ok (MkHistoryInspection (length entries) (bool_decide (session w = Session.Closed))
        ((λ p, (p.1, state p.2)) <$> ms)
        ((filter (λ p, is_unresolved p.2 = true) ms).*1)
        (sum_list ((λ p, length (acks p.2)) <$> ms))
        (history_mission entries <$> ms)).
End Replay.

(** Which records are work, admitted by the session ([journal_work]). *)
Definition journal_work (event : Event.t) : bool :=
  match event with
  | Event.Drafted _ | Event.FileModeSelected | Event.ModelCallCharged _ _
  | Event.LaneInvoked _ _ _ _ _ _ | Event.LaneReturned _ _ | Event.EffectDispatched _ _ _
  | Event.EffectSettled _ _ | Event.ApprovalPending _ _ | Event.Resumed => true
  | Event.Transition trigger =>
      match trigger with
      | Trigger.Revise _ | Trigger.Submit _ | Trigger.Consent _ _ | Trigger.Start
      | Trigger.PhaseDone | Trigger.VerifyPass | Trigger.AwaitApproval _ _ _
      | Trigger.ActionApproved _ _ => true
      | _ => false
      end
  | _ => false
  end.
