(* ===== verification/ReplaySample.v ===== *)
(** * A sample journal

    A journal of three missions on which the replay theorems are applied: a page
    mission that is done, a mission interrupted by an unclean start and resumed,
    and a mission whose published File settles after the Owner's stop. *)

From S2P Require Import Prelude Evidence MissionState Journal Contract Mission Replay.

Local Open Scope Z_scope.

(** A codec with a constant digest. *)
Definition digest : str := replicate 64 48.
#[export] Instance codec : Codec := {|
  sha2 := λ _, replicate 32 0;
  hex_encode := λ _, digest;
  hex_decode := λ _, Some (replicate 16 0);
  event_json := λ _, [];
  entry_json := λ _, [];
  entry_from_str := λ _, None;
  value_format := λ _, None;
  checks_json := λ _, [];
|}.

Definition contract_1 := MkContractRef [1] [1] 10.
Definition action : PendingAction :=
  MkPendingAction (lit "run-00000000000000000000000000000000")
    (lit "cmt-00000000000000000000000000000000") 5000.
Definition passes : list (str * str) := (λ c, (CheckId.as_str c, lit "pass")) <$> CheckId.ALL.

Definition T (t : Trigger.t) : Event.t := Event.Transition t.
Definition invoke (mission seq : Z) (role : LaneRole.t) (cap budget : Z) : Event.t :=
  Event.LaneInvoked (MkInvocationId mission seq) role digest digest cap budget.

(** The page mission, from its draft to its page. *)
Definition page_records : list (MissionId * Event.t) :=
  [(0, Event.SessionOpened);
   (1, Event.Drafted contract_1); (1, Event.FileModeSelected);
   (1, T (Trigger.Submit [1])); (1, T (Trigger.Consent [1] 0)); (1, T Trigger.Start);
   (1, invoke 1 6 LaneRole.Sentinel 2 10);
   (1, Event.ModelCallCharged (MkInvocationId 1 6) 1);
   (1, Event.ModelCallCharged (MkInvocationId 1 6) 2);
   (1, Event.LaneReturned (MkInvocationId 1 6) digest);
   (1, T Trigger.PhaseDone);
   (1, invoke 1 11 LaneRole.Builder 0 0);
   (1, Event.LaneReturned (MkInvocationId 1 11) digest);
   (1, Event.DeliverableRetained (MkInvocationId 1 11) 0 [7] digest 100);
   (1, Event.EffectDispatched 0 EffectKind.File digest);
   (1, Event.EffectSettled 0 SettledOutcome.AwaitingApproval);
   (1, Event.ApprovalPending 0 action);
   (1, T (Trigger.AwaitApproval 0 (MkRestRef [8] 0 2) []));
   (1, T (Trigger.ActionApproved 0 Building));
   (1, Event.PublicationReceipt 0 action digest 100 (Some digest) false);
   (1, Event.ApprovalClosed 0);
   (1, T Trigger.PhaseDone);
   (1, invoke 1 22 LaneRole.Verifier 0 0);
   (1, Event.LaneReturned (MkInvocationId 1 22) digest);
   (1, Event.VerificationRecorded (MkInvocationId 1 22) 0 digest passes);
   (1, T Trigger.VerifyPass); (1, T Trigger.PhaseDone)].

(** A second mission at work, then an unclean start. *)
Definition work_records : list (MissionId * Event.t) :=
  [(2, Event.Drafted contract_1); (2, T (Trigger.Submit [1])); (2, T (Trigger.Consent [1] 5));
   (2, T Trigger.Start); (2, invoke 2 31 LaneRole.Sentinel 0 0)].
Definition reopen_record : MissionId * Event.t := (0, Event.SessionOpened).
Definition resume_records : list (MissionId * Event.t) :=
  [(2, Event.LaneOvertaken (MkInvocationId 2 31)); (2, Event.Held HeldReason.UncleanShutdown);
   (2, Event.Resumed); (2, invoke 2 36 LaneRole.Sentinel 0 0)].

(** A third mission whose File settles for the Owner's stop. *)
Definition settle_records : list (MissionId * Event.t) :=
  [(3, Event.Drafted contract_1); (3, Event.FileModeSelected); (3, T (Trigger.Submit [1]));
   (3, T (Trigger.Consent [1] 9)); (3, T Trigger.Start);
   (3, Event.EffectDispatched 0 EffectKind.File digest);
   (3, Event.SettlementStarted 0 (SettleCause.Stop StopReason.Owner));
   (3, T (Trigger.Settled 0 None SettlementOutcome.Uncertain
        (SettlementEnd.Block BlockReason.FilePublicationUncertain)))].

Definition at_work : list Entry :=
  Eval vm_compute in chain 0 GENESIS (page_records ++ work_records).
Definition records : list (MissionId * Event.t) :=
  page_records ++ work_records ++ reopen_record :: resume_records ++ settle_records.
Definition journal : list Entry := Eval vm_compute in chain 0 GENESIS records.
Definition reopened : Entry := Eval vm_compute in List.nth 32 journal (chained 0 GENESIS 0 Event.SessionOpened).
Definition resumed : list Entry := Eval vm_compute in drop 33 journal.

Definition world_of (es : list Entry) : World (Value := unit) :=
  match replay_entries 0 world_init es with Ok w => w | Err _ => world_init end.
Definition mission_of (id : Z) (w : World) : Mission unit :=
  default (Mission_new contract_1 None) (missions w !! id).

Definition world_at_work : World := Eval vm_compute in world_of at_work.
Definition world : World := Eval vm_compute in world_of journal.
Definition page_mission : Mission unit := Eval vm_compute in mission_of 1 world.
Definition work_mission : Mission unit := Eval vm_compute in mission_of 2 world_at_work.
Definition settled_mission : Mission unit := Eval vm_compute in mission_of 3 world.

Lemma at_work_replays : replay_entries 0 world_init at_work = Ok world_at_work.
Proof. vm_compute. reflexivity. Qed.
Lemma journal_replays : replay_entries 0 world_init journal = Ok world.
Proof. vm_compute. reflexivity. Qed.
Lemma continued_replays : replay_entries 0 world_init (at_work ++ reopened :: resumed) = Ok world.
Proof. vm_compute. reflexivity. Qed.
Lemma page_mission_in : missions world !! 1 = Some page_mission.
Proof. vm_compute. reflexivity. Qed.
Lemma page_mission_at_work : missions world_at_work !! 1 = Some page_mission.
Proof. vm_compute. reflexivity. Qed.
Lemma work_mission_in : missions world_at_work !! 2 = Some work_mission.
Proof. vm_compute. reflexivity. Qed.
Lemma settled_mission_in : missions world !! 3 = Some settled_mission.
Proof. vm_compute. reflexivity. Qed.
