(* ===== verification/ReplayInv.v ===== *)
(** * What a replayed journal guarantees

    Invariants and history theorems of [Replay.replay]: every mission a journal
    describes is well formed, follows the line of phases, works only under the
    consent to its current contract, dispatches each effect once and in order,
    stays within its declared model calls, ends once and for good, and passes a
    retained page only on its recorded checks. *)

From S2P Require Import Prelude Evidence MissionState Journal Contract Mission Replay.

Local Open Scope Z_scope.
Local Open Scope nexus_scope.
#[local] Arguments lit : simpl never.

(** ** The transition table *)

Lemma transition_ok from trigger to :
  transition from trigger = Ok to ↔ transition_table from trigger = Some to.
Proof. apply ok_or_ok. Qed.

(** No trigger moves a terminal mission. *)
Lemma terminal_absorbing from trigger to :
  transition from trigger = Ok to → is_terminal from = false.
Proof. rewrite transition_ok. by destruct trigger, from. Qed.

Section Fields.
Context {Value : Type}.
Implicit Types m : Mission Value.

Ltac fields :=
  intros; unfold take_transition, apply, resolve_waited;
  match goal with m : Mission Value |- _ =>
    change (waited_file (invalidate_calls m)) with (waited_file m); destruct (waited_file m) end;
  match goal with trigger : Trigger.t |- _ => destruct trigger end;
  match goal with to : MissionState |- _ => destruct (is_terminal to) end; reflexivity.

Lemma take_state seq trigger to m : state (take_transition seq trigger to m) = to.
Proof. fields. Qed.
Lemma take_contract_ref seq trigger to m :
  contract_ref (take_transition seq trigger to m) =
  match trigger with Trigger.Revise c => c | _ => contract_ref m end.
Proof. fields. Qed.
Lemma take_consent seq trigger to m :
  consent (take_transition seq trigger to m) =
  match trigger with
  | Trigger.Revise _ => None
  | Trigger.Consent h _ => Some h
  | _ => consent m
  end.
Proof. fields. Qed.
Lemma take_generation seq trigger to m :
  generation (take_transition seq trigger to m) = generation m + 1.
Proof. fields. Qed.
Lemma take_model_calls seq trigger to m :
  model_calls (take_transition seq trigger to m) = model_calls m.
Proof. fields. Qed.
Lemma take_next_effect seq trigger to m :
  next_effect (take_transition seq trigger to m) = next_effect m.
Proof. fields. Qed.
Lemma take_unsettled seq trigger to m :
  unsettled (take_transition seq trigger to m) =
  match trigger with Trigger.Settled _ _ _ _ => None | _ => unsettled m end.
Proof. fields. Qed.
Lemma take_pending_lane seq trigger to m :
  pending_lane (take_transition seq trigger to m) =
  match trigger with Trigger.Settled _ _ _ _ => None | _ => pending_lane m end.
Proof. fields. Qed.
Lemma take_call_accounting seq trigger to m :
  call_accounting (take_transition seq trigger to m) = None.
Proof. fields. Qed.
Lemma take_waiting seq trigger to m :
  waiting (take_transition seq trigger to m) =
  match trigger with
  | Trigger.AwaitApproval effect rest roles =>
      Some (MkWaiting Value (state m) effect rest None roles)
  | Trigger.ActionApproved _ _ | Trigger.ActionDenied _ | Trigger.ApprovalLapsed _ _
  | Trigger.Settled _ _ _ _ => None
  | _ => waiting m
  end.
Proof. fields. Qed.
Lemma take_awaiting_settled seq trigger to m :
  awaiting_settled (take_transition seq trigger to m) = None.
Proof. fields. Qed.
Lemma take_open_action seq trigger to m :
  open_action (take_transition seq trigger to m) = open_action m.
Proof. fields. Qed.
Lemma take_held seq trigger to m :
  held (take_transition seq trigger to m) = if is_terminal to then None else held m.
Proof. fields. Qed.
Lemma take_must_hold seq trigger to m :
  must_hold (take_transition seq trigger to m) = if is_terminal to then false else must_hold m.
Proof. fields. Qed.
Lemma take_file_mode seq trigger to m :
  file_mode (take_transition seq trigger to m) = file_mode m.
Proof. fields. Qed.
Lemma take_settlement seq trigger to m :
  settlement (take_transition seq trigger to m) = settlement m.
Proof. fields. Qed.
Lemma take_unresolved_file seq trigger to m :
  unresolved_file (take_transition seq trigger to m) =
  match trigger with
  | Trigger.Settled _ _ _ _ => None
  | Trigger.ActionApproved _ _ | Trigger.ActionDenied _ | Trigger.ApprovalLapsed _ _ =>
      match waited_file m with Some _ => None | None => unresolved_file m end
  | _ => unresolved_file m
  end.
Proof. fields. Qed.
Lemma take_terminal_uncertain seq trigger to m :
  terminal_uncertain (take_transition seq trigger to m) =
  match trigger with
  | Trigger.Settled _ _ outcome _ => negb (conclusive outcome)
  | _ => terminal_uncertain m
  end.
Proof. fields. Qed.
Lemma take_terminal_record seq trigger to m :
  terminal_record (take_transition seq trigger to m) =
  if is_terminal to then Some (trigger, Some seq) else terminal_record m.
Proof. fields. Qed.
Lemma take_proof seq trigger to m : proof (take_transition seq trigger to m) = proof m.
Proof. fields. Qed.
Lemma take_declared seq trigger to m :
  declared_model_budgets (take_transition seq trigger to m) = declared_model_budgets m.
Proof. fields. Qed.
Lemma take_prior_outputs seq trigger to m :
  prior_outputs (take_transition seq trigger to m) = prior_outputs m.
Proof. fields. Qed.
End Fields.

#[export] Hint Rewrite @take_state @take_contract_ref @take_consent @take_generation
  @take_model_calls @take_next_effect @take_unsettled @take_pending_lane
  @take_call_accounting @take_waiting @take_awaiting_settled @take_open_action @take_held
  @take_must_hold @take_file_mode @take_settlement @take_unresolved_file
  @take_terminal_uncertain @take_terminal_record @take_proof @take_declared
  @take_prior_outputs : mission.

(** ** Inverting one record *)

(** Splits the guards of a handler that answered [Ok]. *)
Ltac split_guards :=
  repeat match goal with
  | H : (if ?b then Err _ else _) = Ok _ |- _ =>
      let G := fresh "G" in destruct b eqn:G; [discriminate H|]
  | H : (if ?b then _ else Err _) = Ok _ |- _ =>
      let G := fresh "G" in destruct b eqn:G; [|discriminate H]
  | H : and_then _ _ = Ok _ |- _ => apply and_then_ok in H as (? & ? & H)
  | H : ok_or _ _ = Ok _ |- _ => apply ok_or_ok in H
  | H : map_err _ _ = Ok _ |- _ => apply map_err_ok in H
  | H : match ?p with (_, _) => _ end = Ok _ |- _ => destruct p
  | H : Ok _ = Ok _ |- _ => injection H as H
  | H : Err _ = Ok _ |- _ => discriminate H
  end.

(** One goal per kind of record, with the mission it leads to. *)
Ltac invert_record H :=
  let E := fresh "Event" in
  unfold replay_mission in H;
  match type of H with context [e_event ?entry] => destruct (e_event entry) eqn:E end;
  split_guards;
  unfold replay_transition, replay_charged, replay_invoked, replay_returned, replay_overtaken,
    replay_dispatched, replay_settled, replay_pending, replay_closed, replay_settlement,
    replay_held, replay_resumed, replay_file_mode, proof_replay in H;
  rewrite ?E in H; unfold proof_retained, proof_receipt, proof_verified in H;
  split_guards; subst.

(** Case analysis on the accepted transitions. *)
Ltac invert_transition :=
  match goal with
  | H : transition (state ?m) ?trigger = Ok ?to |- _ =>
      apply transition_ok in H;
      destruct trigger, (state m) eqn:?; try discriminate H; simpl in H;
      repeat match type of H with
      | (if ?b then _ else _) = Some _ => let G := fresh "G" in destruct b eqn:G; try discriminate H
      | Some (match ?e with SettlementEnd.Block _ => _ | SettlementEnd.Stop _ => _ end) = Some _ =>
          destruct e
      end; injection H as <-
  end.

(** A field a guard found empty is not set. *)
Ltac not_set :=
  match goal with
  | H : ¬ is_Some ?x, H' : ?x = Some _ |- _ => exfalso; apply H; rewrite H'; by eexists
  | H : ¬ is_Some (Some _) |- _ => exfalso; apply H; by eexists
  end.

(** The records other than transitions: each clause by its fields. *)
Ltac by_fields :=
  try solve
    [ repeat match goal with |- context [if ?b then _ else _] => destruct b eqn:? end;
      breflect; split; simpl; intros; destruct_or?; simplify_eq/=; eauto; try not_set; lia ].

(** Closes a clause of the invariant after a transition. *)
Ltac by_clauses :=
  split; autorewrite with mission; intros; simplify_eq/=;
  repeat match goal with E : state ?m = _ |- context [state ?m] => rewrite E end; eauto;
  try solve [exfalso; naive_solver].

Section Invariants.
Context {Value : Type}.
Implicit Types m : Mission Value.

(** A mission waits exactly in [AwaitingApproval]; what it waits on paused a
    phase that may wait. (A Stop keeps the wait's record.) *)
Record wait_ok m : Prop := {
  wo_waits : state m = AwaitingApproval → is_Some (waiting m);
  wo_phase : ∀ w, waiting m = Some w → may_wait (w_phase w) = true;
  wo_state : ∀ w, waiting m = Some w → state m = AwaitingApproval ∨ state m = Stopped;
}.

Lemma wait_ok_step entry m m' : wait_ok m → replay_mission entry m = Ok m' → wait_ok m'.
Proof. intros [H1 H2 H3] H. invert_record H; by_fields. invert_transition; by_clauses. Qed.

(** Past the Owner's yes a mission carries the consent to its current contract;
    before it, none. *)
Definition needs_consent (s : MissionState) : bool :=
  match s with
  | Approved | Investigating | Building | Verifying | Explaining | Done | AwaitingApproval => true
  | _ => false
  end.

Record consent_ok m : Prop := {
  co_given : needs_consent (state m) = true → consent m = Some (contract_hash (contract_ref m));
  co_none : state m = Draft ∨ state m = AwaitingConsent → consent m = None;
}.

Lemma consent_ok_step entry m m' : consent_ok m → replay_mission entry m = Ok m' → consent_ok m'.
Proof.
  intros [H1 H2] H. invert_record H; by_fields.
  match goal with H : trigger_guard _ _ = Ok _ |- _ => rename H into Hg end.
  invert_transition; split; autorewrite with mission; intros; destruct_or?; simplify_eq/=; eauto;
    split_guards; breflect; try (f_equal; by apply dec_stable).
Qed.

(** Effects are numbered from 0; an unsettled, awaited, open or waited one is
    the last dispatched. *)
Record effect_ok m : Prop := {
  eo_next : 0 ≤ next_effect m;
  eo_unsettled : ∀ e, unsettled m = Some e → next_effect m = e + 1;
  eo_awaiting : ∀ e, awaiting_settled m = Some e → next_effect m = e + 1;
  eo_open : ∀ e p, open_action m = Some (e, p) → next_effect m = e + 1;
  eo_waiting : ∀ w, waiting m = Some w → next_effect m = w_effect w + 1;
  eo_file : ∀ e, unresolved_file m = Some e → file_mode m = true ∧ 0 ≤ e < next_effect m;
  eo_settlement : ∀ e c, settlement m = Some (e, c) → file_mode m = true ∧ 0 ≤ e < next_effect m;
}.

Lemma effect_ok_step entry m m' :
  wait_ok m → effect_ok m → replay_mission entry m = Ok m' → effect_ok m'.
Proof.
  intros [W1 W2 W3] [H1 H2 H3 H4 H5 H6 H7] H. invert_record H; by_fields.
  - match goal with H : trigger_guard _ _ = Ok _ |- _ => rename H into Hg end.
    split; autorewrite with mission; [done|..|done]; intros; destruct trigger; simplify_eq/=;
      eauto; split_guards; breflect; eauto; by destruct (waited_file m); simplify_eq/=; eauto.
  - breflect. subst effect. split; simpl; intros; simplify_eq; try lia; try not_set.
    + destruct (W3 _ ltac:(done)) as [E|E]; by rewrite E in *.
    + destruct (file_mode m && bool_decide (kind = EffectKind.File)) eqn:Ef.
      * breflect. simplify_eq. split; [done|lia].
      * destruct (H6 e ltac:(done)). split; [done|lia].
  - split; simpl; eauto; intros; [edestruct H6|edestruct H7]; eauto.
Qed.

(** A mission that ended keeps the record of its end and is not held; a hold
    still to be journaled is of a mission not held. *)
Record end_ok m : Prop := {
  no_record : is_terminal (state m) = false → terminal_record m = None;
  no_hold : is_terminal (state m) = true → held m = None ∧ must_hold m = false;
  no_double : must_hold m = true → held m = None;
  no_settling : is_terminal (state m) = true →
    unresolved_file m = None ∨ (settlement m = None ∧ waiting m = None);
}.

Lemma end_ok_step entry m m' :
  wait_ok m → end_ok m → replay_mission entry m = Ok m' → end_ok m'.
Proof.
  intros [W1 W2 W3] [H1 H2 H3 H4] H. invert_record H; by_fields.
  - match goal with H : transition _ _ = Ok _ |- _ => pose proof (terminal_absorbing _ _ _ H) end.
    split; autorewrite with mission; intros Ht; [destruct (is_terminal x); eauto; congruence..|].
    assert (Hs : is_settled trigger = false → settlement m = None).
    { intros E. rewrite E, andb_true_r in G2. breflect. by apply eq_None_not_Some. }
    assert (Hu : ends_without_settlement trigger = true → unresolved_file m = None).
    { intros E. rewrite E, andb_true_r in G1. breflect. by apply eq_None_not_Some. }
    assert (Hw : state m ≠ AwaitingApproval → state m ≠ Stopped → waiting m = None).
    { intros. destruct (waiting m); [|done]. by destruct (W3 _ eq_refl). }
    clear G G0 G1 G2 G3. invert_transition; simplify_eq/=; eauto.
  - breflect. split; simpl; eauto. intros Ht. by destruct (state m).
  - breflect. split; simpl; eauto; intros; congruence.
  - split; simpl; eauto. intros Ht. split; [done|]. by destruct (H2 Ht).
  - breflect. split; simpl; eauto. intros Ht. congruence.
Qed.

(** The model calls of the mission fit its counter, and those of the running
    invocation fit the budget it declared. *)
Record accounting_ok (lane : option InvocationId) (calls : Z) (a : CallAccounting) : Prop := {
  ao_lane : lane = Some (ca_invocation a);
  ao_cap : 1 ≤ ca_cap a ≤ 4;
  ao_budget : 1 ≤ ca_budget a ≤ MAX_MODEL_CALLS;
  ao_next : 1 ≤ ca_next a ≤ ca_cap a + 1;
  ao_prepaid : ca_prepaid a = bool_decide (ca_next a = 1);
  ao_total : calls + ca_cap a - Z.max 1 (ca_next a - 1) ≤ ca_budget a;
}.

Record calls_ok m : Prop := {
  lo_calls : 0 ≤ model_calls m ≤ u32_max;
  lo_accounting : ∀ a, call_accounting m = Some a →
    accounting_ok (pending_lane m) (model_calls m) a;
}.

Lemma reserved_ok m invocation cap budget a :
  reserved m invocation cap budget = Ok (Some a) →
  a = MkCallAccounting invocation cap budget 1 true ∧ 1 ≤ cap ≤ 4 ∧
  1 ≤ budget ≤ MAX_MODEL_CALLS ∧ model_calls m + cap ≤ budget.
Proof.
  unfold reserved, checked_add. destruct (_ && _); [done|].
  destruct (model_calls m + cap <=? u32_max); [|by rewrite orb_true_r].
  destruct (_ || _) eqn:G; [done|]. intros. simplify_eq. breflect. done.
Qed.

Lemma checked_add_ok max a b n : checked_add max a b = Some n → n = a + b ∧ a + b ≤ max.
Proof. unfold checked_add. destruct (Z.leb_spec (a + b) max); naive_solver. Qed.

Lemma charge_ok a invocation call total a' total' :
  charge a invocation call total = Ok (a', total') →
  invocation = ca_invocation a ∧ call = ca_next a ∧ call ≤ ca_cap a ∧
  (call = 1 → ca_prepaid a = true) ∧ (1 < call → total < ca_budget a) ∧
  ca_invocation a' = ca_invocation a ∧ ca_cap a' = ca_cap a ∧ ca_budget a' = ca_budget a ∧
  ca_next a' = call + 1 ∧ ca_prepaid a' = (if call =? 1 then false else ca_prepaid a) ∧
  total' = (if call =? 1 then total else total + 1).
Proof.
  unfold charge. destruct (_ || _) eqn:G; [done|]. intros. simplify_eq.
  repeat (apply orb_false_iff in G as [G ?]). breflect. subst. simpl.
  split_and!; try done.
  - intros E. rewrite E in *. by destruct (ca_prepaid a).
  - intros Hc. destruct (1 <? ca_next a) eqn:Hn; breflect; simpl in *; breflect; lia.
Qed.

Lemma calls_ok_step entry m m' : calls_ok m → replay_mission entry m = Ok m' → calls_ok m'.
Proof.
  intros [H1 H2] H. invert_record H; by_fields.
  - split; autorewrite with mission; [done|]. done.
  - apply checked_add_ok in H3 as [-> Hc]. split; simpl; [lia|]. intros a ->.
    apply reserved_ok in H0 as (-> & ? & ? & ?). split; simpl; try done; lia.
  - match goal with
    | Ha : call_accounting m = Some ?a, Hc : charge ?a _ _ _ = Ok _ |- _ =>
        rename a into a0; destruct (H2 _ Ha) as [L1 L2 L3 L4 L5 L6]; apply charge_ok in Hc
          as (-> & -> & ? & ? & ? & E1 & E2 & E3 & E4 & E5 & ->)
    end.
    unfold MAX_MODEL_CALLS, u32_max in *.
    destruct (Z.eqb_spec (ca_next a0) 1); (split; simpl; [unfold u32_max; lia|]); intros a [= <-];
      split; rewrite ?E1, ?E2, ?E3, ?E4, ?E5; try done; try lia;
      by rewrite ?L5, ?bool_decide_eq_false_2 by lia.
Qed.

(** The publication proof: a receipt is of the retained page, the checks are
    recorded on a clean receipt, and a retained page is past verification only
    with its recorded checks all passed. *)
Record proof_ok m : Prop := {
  po_receipt : ∀ rc, p_receipt (proof m) = Some rc →
    ∃ r, p_retained (proof m) = Some r ∧ rc_effect rc = rt_effect r;
  po_verified : ∀ b, p_verified (proof m) = Some b →
    ∃ rc, p_receipt (proof m) = Some rc ∧ is_Some (rc_policy_hash rc) ∧ rc_overtaken rc = false;
  po_checks : p_verified (proof m) = all_pass <$> p_checks (proof m);
  po_page : state m = Explaining ∨ state m = Done →
    ∀ r, p_retained (proof m) = Some r → p_verified (proof m) = Some true;
}.

Lemma proof_ok_step entry m m' : proof_ok m → replay_mission entry m = Ok m' → proof_ok m'.
Proof.
  intros [H1 H2 H3 H4] H. invert_record H; by_fields.
  - match goal with H : trigger_guard _ _ = Ok _ |- _ => rename H into Hg end.
    split; autorewrite with mission; eauto. intros Hs r Hr. revert Hs.
    invert_transition; intros [?|?]; simplify_eq/=; eauto; split_guards; breflect; try naive_solver.
    rewrite Hr, bool_decide_eq_true_2 in G4 by by eexists. simpl in G4. by breflect.
  - breflect. split; simpl; eauto.
    + intros rc Hrc. destruct (H1 _ Hrc) as (r & Hr & _). not_set.
    + intros [Hs|Hs]; congruence.
  - apply negb_false_iff in G1. destruct (p_retained (proof m)) as [r|] eqn:Er; [|done]. breflect.
    rewrite Event. split; simpl; eauto.
    + intros rc [= <-]. exists r. by split.
    + intros b Hb. destruct (H2 _ Hb) as (rc & Hrc & _). not_set.
  - destruct (p_receipt (proof m)) as [rc|] eqn:Er; [|done]. breflect.
    split; simpl; eauto; [rewrite Er; eauto|by intros [?|?]; congruence].
Qed.

(** A settled File's mission ended as its first cause says, or for want of the
    receipt of its published page. *)
Definition settled_as (m : Mission Value) (cause : SettleCause.t)
    (action : option PendingAction) (outcome : SettlementOutcome.t) (end_ : SettlementEnd.t) : Prop :=
  end_ = SettleCause.end_ cause outcome ∨
  (end_ = SettlementEnd.Block BlockReason.ReceiptMissing ∧ is_Some action ∧
   (∃ r i, outcome = SettlementOutcome.Published r i) ∧ is_Some (p_retained (proof m))).

Definition settle_ok m : Prop :=
  ∀ e cause, settlement m = Some (e, cause) → is_terminal (state m) = true →
  ∃ action outcome end_ seq,
    terminal_record m = Some (Trigger.Settled e action outcome end_, Some seq) ∧
    settled_as m cause action outcome end_.

Lemma settled_guard_as m e cause effect action outcome end_ :
  settlement m = Some (e, cause) → settled_guard effect action outcome end_ m = Ok tt →
  e = effect ∧ settled_as m cause action outcome end_.
Proof.
  intros Hs H. unfold settled_guard in H. rewrite Hs in H. split_guards.
  breflect. subst. split; [done|].
  unfold settled_as, settled_end in *. destruct (_ && _) eqn:Eg; [right|left; by simplify_eq].
  breflect. simplify_eq. destruct (p_retained (proof m)); [|done].
  split_and!; [done..| |by eexists]. destruct outcome; [by eexists _, _|done..].
Qed.

Lemma settle_ok_step entry m m' : settle_ok m → replay_mission entry m = Ok m' → settle_ok m'.
Proof.
  unfold settle_ok. intros IH H. invert_record H;
    try (repeat match goal with |- context [if ?b then _ else _] => destruct b eqn:? end;
         simpl; eauto; fail).
  - intros e cause. autorewrite with mission. intros Hs Ht. rewrite Ht.
    rewrite Hs, bool_decide_eq_true_2 in G2 by by eexists. apply negb_false_iff in G2.
    destruct trigger; try done. destruct x0. cbn [trigger_guard] in *.
    eapply settled_guard_as in Hs as [-> Has]; [|done].
    eexists _, _, _, _. split; [done|]. unfold settled_as in *. by autorewrite with mission.
  - simpl. intros. breflect. congruence.
  - simpl. intros. breflect. not_set.
Qed.

(** Only a transition changes the state and what a transition decides. *)
Lemma other_record entry m m' :
  (∀ t, e_event entry ≠ Event.Transition t) → replay_mission entry m = Ok m' →
  state m' = state m ∧ waiting m' = waiting m ∧ consent m' = consent m ∧
  contract_ref m' = contract_ref m ∧ terminal_record m' = terminal_record m ∧
  reason m' = reason m ∧ acks m' = acks m ∧ terminal_uncertain m' = terminal_uncertain m.
Proof.
  intros Hne H. invert_record H; try (by destruct (Hne trigger));
    by repeat match goal with |- context [if ?b then _ else _] => destruct b end.
Qed.

Lemma transition_record entry trigger m m' :
  e_event entry = Event.Transition trigger → replay_mission entry m = Ok m' →
  ∃ to, transition (state m) trigger = Ok to ∧ trigger_guard trigger m = Ok tt ∧
    m' = take_transition (e_seq entry) trigger to m ∧
    (held m ≠ None → while_held (e_event entry) = true) ∧
    (must_hold m = true → is_terminal to = true) ∧
    (unresolved_file m ≠ None → ends_without_settlement trigger = false) ∧
    (settlement m ≠ None → is_settled trigger = true).
Proof.
  intros E H. invert_record H; simplify_eq. destruct x0. exists x. split_and!; try done.
  - intros Hh. destruct (held m); [|done]. simpl in *. by destruct trigger.
  - intros Hh. rewrite Hh in G0. simpl in G0. rewrite H0 in G0. by destruct (is_terminal x).
  - intros Hu. destruct (unresolved_file m); [|done]. done.
  - intros Hs. destruct (settlement m); [|done]. simpl in G2. by destruct (is_settled trigger).
Qed.

(** What holds of every mission a journal describes. *)
Record mission_ok m : Prop := {
  mo_wait : wait_ok m;
  mo_consent : consent_ok m;
  mo_effect : effect_ok m;
  mo_end : end_ok m;
  mo_calls : calls_ok m;
  mo_proof : proof_ok m;
  mo_settle : settle_ok m;
}.

Lemma mission_ok_step entry m m' : mission_ok m → replay_mission entry m = Ok m' → mission_ok m'.
Proof.
  intros [] H.
  split; eauto using wait_ok_step, consent_ok_step, effect_ok_step, end_ok_step, calls_ok_step,
    proof_ok_step, settle_ok_step.
Qed.

Lemma mission_ok_new c : mission_ok (Mission_new (Value := Value) c None).
Proof. split; try (split; simpl; try done; unfold u32_max; try lia; by intros [|]). done. Qed.

Lemma mission_ok_invalidate m : mission_ok m → mission_ok (invalidate_calls m).
Proof.
  intros [W C E D [L1 L2] P S]. split; [by destruct W|by destruct C|by destruct E|by destruct D| |
    by destruct P|exact S]. by split.
Qed.

Lemma mission_ok_must_hold m : mission_ok m → mission_ok (must_hold_now m).
Proof.
  unfold must_hold_now. destruct (_ && _) eqn:Eh; [|done]. breflect.
  intros [W C E [D1 D2 D3 D4] [L1 L2] P S].
  split; [by destruct W|by destruct C|by destruct E| |by split|by destruct P|exact S].
  split; simpl; eauto.
Qed.
End Invariants.
