(* ===== verification/ReplayProps.v ===== *)
(** * What a replayed journal guarantees

    History theorems of [Replay.replay]: how the records of a mission, in the
    order the journal holds them, determine what the mission may do. *)

From S2P Require Import Prelude Evidence MissionState Journal Contract Mission Replay ReplaySample ReplayInv.

Local Open Scope Z_scope.
Local Open Scope nexus_scope.
#[local] Arguments lit : simpl never.

Section History.
Context {Value : Type} {codec : Codec}.
Implicit Types (m : Mission Value) (w : World (Value := Value)) (es : list Entry) (e : Entry).

(** ** Journals and the worlds they lead to *)

Inductive reaches : list Entry → World (Value := Value) → Prop :=
| reaches_nil : reaches [] world_init
| reaches_snoc es e w w' :
    reaches es w → check (e_event e) = Ok tt → replay w e = Ok w' → reaches (es ++ [e]) w'.

Lemma replay_entries_reaches index w es w' es0 :
  reaches es0 w → replay_entries index w es = Ok w' → reaches (es0 ++ es) w'.
Proof.
  revert index w es0. induction es as [|e es IH]; intros index w es0 Hr H.
  { simpl in H. simplify_eq. by rewrite app_nil_r. }
  cbn [replay_entries] in H. split_guards. destruct x0.
  rewrite cons_middle, app_assoc. eapply IH; [|done]. by eapply reaches_snoc.
Qed.

Lemma replay_reaches es w : replay_entries 0 world_init es = Ok w → reaches es w.
Proof. apply (replay_entries_reaches 0 world_init es w []). constructor. Qed.

(** The records that are not of one drafted mission. *)
Definition is_world_record e : bool :=
  match e_event e with
  | Event.Drafted _ | Event.SessionOpened | Event.SessionClosed => true
  | _ => false
  end.

(** What one record does to the mission [id]. *)
Inductive mission_step (id : Z) (e : Entry) : option (Mission Value) → Mission Value → Prop :=
| step_draft c : e_mission e = id → e_event e = Event.Drafted c →
    mission_step id e None (Mission_new c None)
| step_own m m' : e_mission e = id → is_world_record e = false → replay_mission e m = Ok m' → mission_step id e (Some m) m'
| step_open m : e_mission e = SESSION → e_event e = Event.SessionOpened →
    mission_step id e (Some m) (invalidate_calls m)
| step_unclean m : e_mission e = SESSION → e_event e = Event.SessionOpened →
    mission_step id e (Some m) (must_hold_now (invalidate_calls m))
| step_close m : e_mission e = SESSION → e_event e = Event.SessionClosed → blocks_close m = false →
    mission_step id e (Some m) (invalidate_calls m)
| step_other m : e_mission e ≠ id → mission_step id e (Some m) m.

Lemma replay_other_event w e w' :
  replay w e = Ok w' → e_event e ≠ Event.SessionOpened → e_event e ≠ Event.SessionClosed →
  session w ≠ Session.Closed ∧ session w' = session w ∧
  ((∃ c, e_event e = Event.Drafted c ∧ e_mission e = next_mission w ∧
      (size (missions w) < MAX_MISSIONS)%nat ∧ next_mission w' = next_mission w + 1 ∧
      missions w' = <[e_mission e := Mission_new c None]> (missions w)) ∨
   (∃ m m', missions w !! e_mission e = Some m ∧ is_world_record e = false ∧ replay_mission e m = Ok m' ∧
      next_mission w' = next_mission w ∧ missions w' = <[e_mission e := m']> (missions w))).
Proof.
  intros H H1 H2. unfold replay in H.
  assert (Hx : (if bool_decide (session w = Session.Closed) then Err V.RecordAfterClose
    else match e_event e with
         | Event.Drafted c => replay_drafted (e_mission e) c w
         | _ => let? m := ok_or (missions w !! e_mission e) V.NeverDrafted in
                let? m := replay_mission e m in
                Ok (MkWorld (<[e_mission e := m]> (missions w)) (next_mission w) (session w))
         end) = Ok w') by (destruct (e_event e); done).
  clear H. split_guards. breflect. split; [done|]. unfold is_world_record.
  destruct (e_event e) eqn:Ee; try (split_guards; subst; split; [done|right; eexists _, _;
      split_and!; [eassumption|done|eassumption|reflexivity|reflexivity]]).
  unfold replay_drafted in Hx. split_guards. subst. breflect. split; [done|]. left.
  eexists. split_and!; [reflexivity|done|lia|simpl; lia|reflexivity].
Qed.

(** The missions of a world are numbered from 1 and well formed. *)
Record world_ok w : Prop := {
  wk_next : 1 ≤ next_mission w;
  wk_dom : ∀ id, is_Some (missions w !! id) ↔ 1 ≤ id < next_mission w;
  wk_size : (size (missions w) ≤ MAX_MISSIONS)%nat;
  wk_missions : map_Forall (λ _, mission_ok) (missions w);
}.

Lemma world_ok_fmap w f s :
  (∀ m, mission_ok m → mission_ok (f m)) → world_ok w →
  world_ok (MkWorld (f <$> missions w) (next_mission w) s).
Proof.
  intros Hf [H1 H2 H3 H4]. split; simpl; [done| |by rewrite map_size_fmap|].
  - intros id. rewrite lookup_fmap, fmap_is_Some. apply H2.
  - intros id m. rewrite lookup_fmap. intros (m0 & Hm & ->)%fmap_Some. eauto.
Qed.

Lemma world_ok_step w e w' : world_ok w → replay w e = Ok w' → world_ok w'.
Proof.
  intros Hw H. destruct (decide (e_event e = Event.SessionOpened)) as [E|E].
  { unfold replay in H. rewrite E in H. split_guards. subst.
    destruct (bool_decide (session w ≠ Session.Closed)).
    - rewrite <- map_fmap_compose. apply world_ok_fmap; [|done].
      intros m Hm. by apply mission_ok_must_hold, mission_ok_invalidate.
    - apply world_ok_fmap; auto using mission_ok_invalidate. }
  destruct (decide (e_event e = Event.SessionClosed)) as [E'|E'].
  { unfold replay in H. rewrite E' in H. split_guards. subst.
    apply world_ok_fmap; auto using mission_ok_invalidate. }
  destruct Hw as [H1 H2 H3 H4].
  destruct (replay_other_event _ _ _ H E E') as (_ & _ & [(c & _ & Hid & Hs & Hn & Hm)|(m & m' & Hl & _ & Hr & Hn & Hm)]).
  - assert (Hnone : missions w !! e_mission e = None).
    { apply eq_None_not_Some. rewrite H2. lia. }
    split; rewrite ?Hn, ?Hm; [lia| |rewrite map_size_insert_None by done; lia|].
    + intros id. destruct (decide (id = e_mission e)) as [->|Hne].
      * rewrite lookup_insert_eq. split; [lia|by eexists].
      * rewrite lookup_insert_ne, H2 by done. lia.
    + apply map_Forall_insert_2; [apply mission_ok_new|done].
  - split; rewrite ?Hn, ?Hm; [done| |rewrite map_size_insert_Some by done; done|].
    + intros id. destruct (decide (id = e_mission e)) as [->|Hne].
      * rewrite lookup_insert_eq. split; [intros _; apply H2; by eexists|by eexists].
      * rewrite lookup_insert_ne by done. apply H2.
    + apply map_Forall_insert_2; [|done]. eapply mission_ok_step; [|done]. by eapply H4.
Qed.

Lemma next_mission_mono w e w' : replay w e = Ok w' → next_mission w ≤ next_mission w'.
Proof.
  intros H. destruct (decide (e_event e = Event.SessionOpened)) as [E|E].
  { unfold replay in H. rewrite E in H. split_guards. by subst. }
  destruct (decide (e_event e = Event.SessionClosed)) as [E'|E'].
  { unfold replay in H. rewrite E' in H. split_guards. by subst. }
  destruct (replay_other_event _ _ _ H E E')
    as (_ & _ & [(? & _ & _ & _ & -> & _)|(? & ? & _ & _ & _ & -> & _)]); lia.
Qed.

Lemma reaches_ok es w : reaches es w → world_ok w.
Proof.
  induction 1; [|by eapply world_ok_step].
  split; simpl; [lia| |rewrite map_size_empty; unfold MAX_MISSIONS; lia|by apply map_Forall_empty].
  intros id. rewrite lookup_empty. split; [by intros [? ?]|lia].
Qed.

Lemma replay_mission_step w e w' id m' :
  world_ok w → replay w e = Ok w' → missions w' !! id = Some m' →
  mission_step id e (missions w !! id) m'.
Proof.
  intros Hw H Hm'. destruct (decide (e_event e = Event.SessionOpened)) as [E|E].
  { unfold replay in H. rewrite E in H. split_guards. subst. breflect. simpl in Hm'.
    destruct (bool_decide (session w ≠ Session.Closed)).
    - rewrite <- map_fmap_compose, lookup_fmap in Hm'.
      apply fmap_Some in Hm' as (m & -> & ->). by apply step_unclean.
    - rewrite lookup_fmap in Hm'. apply fmap_Some in Hm' as (m & -> & ->). by apply step_open. }
  destruct (decide (e_event e = Event.SessionClosed)) as [E'|E'].
  { unfold replay in H. rewrite E' in H. split_guards. subst. breflect. simpl in Hm'.
    rewrite lookup_fmap in Hm'. apply fmap_Some in Hm' as (m & Hm & ->). rewrite Hm.
    apply step_close; [done..|]. by eapply G1 in Hm. }
  destruct (replay_other_event _ _ _ H E E')
    as (_ & _ & [(c & Ec & Hid & Hs & Hn & Hm)|(m & m1 & Hl & Hdr & Hr & Hn & Hm)]);
    rewrite Hm in Hm'; destruct (decide (e_mission e = id)) as [<-|Hne].
  - rewrite lookup_insert_eq in Hm'. simplify_eq.
    replace (missions w !! e_mission e) with (@None (Mission Value)); [by apply step_draft|].
    symmetry. apply eq_None_not_Some. rewrite (wk_dom _ Hw). lia.
  - rewrite lookup_insert_ne in Hm' by done. rewrite Hm'. by apply step_other.
  - rewrite lookup_insert_eq in Hm'. simplify_eq. rewrite Hl. by apply step_own.
  - rewrite lookup_insert_ne in Hm' by done. rewrite Hm'. by apply step_other.
Qed.

(** ** The records of one mission *)

Definition own (id : Z) es : list Entry := filter (λ e, e_mission e = id) es.

Lemma own_snoc_eq id es e : e_mission e = id → own id (es ++ [e]) = own id es ++ [e].
Proof. intros H. unfold own. by rewrite filter_app, filter_cons_True. Qed.

Lemma own_snoc_ne id es e : e_mission e ≠ id → own id (es ++ [e]) = own id es.
Proof.
  intros H. unfold own. by rewrite filter_app, filter_cons_False, filter_nil, app_nil_r.
Qed.

(** A mission with no record has not been drafted, and conversely. *)
Lemma own_undrafted es w id : reaches es w → 1 ≤ id → missions w !! id = None → own id es = [].
Proof.
  intros Hr Hid. induction Hr as [|es e w w' Hr IH Hc Hs]; [done|]. intros Hn.
  pose proof (reaches_ok _ _ Hr) as Hw.
  assert (Hw' : world_ok w') by by eapply world_ok_step.
  destruct (decide (e_mission e = id)) as [<-|Hne].
  - destruct (decide (e_event e = Event.SessionOpened)) as [E|E].
    { unfold replay in Hs. rewrite E in Hs. split_guards. breflect. unfold SESSION in *. lia. }
    destruct (decide (e_event e = Event.SessionClosed)) as [E'|E'].
    { unfold replay in Hs. rewrite E' in Hs. split_guards. breflect. unfold SESSION in *. lia. }
    destruct (replay_other_event _ _ _ Hs E E')
      as (_ & _ & [(c & _ & _ & _ & _ & Hm)|(m & m1 & _ & _ & _ & _ & Hm)]);
      rewrite Hm, lookup_insert_eq in Hn; done.
  - rewrite own_snoc_ne by done. apply IH. apply eq_None_not_Some. intros [m Hm].
    pose proof (proj1 (wk_dom _ Hw id) (mk_is_Some _ _ Hm)) as Hd.
    assert (is_Some (missions w' !! id)) as [? ?]; [|congruence]. apply (wk_dom _ Hw').
    pose proof (next_mission_mono _ _ _ Hs). lia.
Qed.

(** Induction over the records of one mission. *)
Lemma history_ind (id : Z) (P : list Entry → Mission Value → Prop) :
  (∀ e c, e_mission e = id → e_event e = Event.Drafted c → check (e_event e) = Ok tt →
     P [e] (Mission_new c None)) →
  (∀ es e m m', mission_ok m → P es m → e_mission e = id → check (e_event e) = Ok tt →
     is_world_record e = false → replay_mission e m = Ok m' → P (es ++ [e]) m') →
  (∀ es m, mission_ok m → P es m → P es (invalidate_calls m)) →
  (∀ es m, mission_ok m → P es m → P es (must_hold_now m)) →
  ∀ es w m, reaches es w → missions w !! id = Some m → P (own id es) m.
Proof.
  intros Hd Ho Hi Hm es w m Hr. revert m. induction Hr as [|es e w w' Hr IH Hc Hs]; intros m' Hm'.
  { simpl in Hm'. by rewrite lookup_empty in Hm'. }
  pose proof (reaches_ok _ _ Hr) as Hw.
  assert (Hid : 1 ≤ id).
  { assert (Hw' : world_ok w') by by eapply world_ok_step.
    apply mk_is_Some, (wk_dom _ Hw' id) in Hm'. lia. }
  pose proof (replay_mission_step _ _ _ _ _ Hw Hs Hm') as Hstep.
  assert (Hok : ∀ m, missions w !! id = Some m → mission_ok m) by apply (wk_missions _ Hw).
  remember (missions w !! id) as o eqn:Eo. symmetry in Eo.
  destruct Hstep as [c Hi1 Hi2|m m1 Hi1 Hi3 Hi2|m Hi1 Hi2|m Hi1 Hi2|m Hi1 Hi2 _|m Hne].
  - rewrite own_snoc_eq, (own_undrafted _ _ _ Hr Hid Eo) by done. by apply Hd.
  - rewrite own_snoc_eq by done. eapply Ho; eauto.
  - rewrite own_snoc_ne by (unfold SESSION in *; lia). auto.
  - rewrite own_snoc_ne by (unfold SESSION in *; lia). auto using mission_ok_invalidate.
  - rewrite own_snoc_ne by (unfold SESSION in *; lia). auto.
  - rewrite own_snoc_ne by done. auto.
Qed.

(** ** Effects *)

Definition dispatched es : list Z :=
  omap (λ e, match e_event e with Event.EffectDispatched n _ _ => Some n | _ => None end) es.
Definition settled_effects es : list Z :=
  omap (λ e, match e_event e with Event.EffectSettled n _ => Some n | _ => None end) es.

(** The contribution of the last record to a history function. *)
Ltac last_record E := rewrite ?omap_app; simpl; rewrite ?E; simpl; rewrite ?app_nil_r.

Lemma seqZ_snoc n : 0 ≤ n → seqZ 0 (n + 1) = seqZ 0 n ++ [n].
Proof. intros. rewrite seqZ_app by lia. by rewrite Z.add_0_l. Qed.

Definition effects_inv es m : Prop :=
  dispatched es = seqZ 0 (next_effect m) ∧
  settled_effects es ++ option_list (unsettled m) `sublist_of` seqZ 0 (next_effect m).

Lemma effects_history es w id m :
  reaches es w → missions w !! id = Some m → effects_inv (own id es) m.
Proof.
  apply (history_ind id effects_inv); unfold effects_inv, dispatched, settled_effects.
  - intros e c _ E _. simpl. rewrite E. done.
  - intros es0 e m0 m' Hok [Hd Hs] _ _ _ H. pose proof (eo_next _ (mo_effect _ Hok)) as Hn.
    invert_record H; last_record Event; try done; try (repeat case_match; done).
    + autorewrite with mission. split; [done|]. destruct trigger; simpl; try done.
      rewrite app_nil_r. etrans; [|exact Hs]. by apply sublist_inserts_r.
    + breflect. subst effect. rewrite seqZ_snoc, Hd by done. split; [done|].
      destruct (unsettled m0) eqn:Eu; [not_set|]. simpl in Hs. rewrite app_nil_r in Hs.
      by apply sublist_app.
    + breflect. rewrite G1 in Hs. simpl in Hs.
      repeat match goal with |- context [if ?b then _ else _] => destruct b end; simpl;
        by rewrite app_nil_r.
  - done.
  - intros es0 m0 _. unfold must_hold_now. by destruct (_ && _).
Qed.

(** C22. Effects: the effects a mission dispatches are numbered 0, 1, 2, ... in the
    order of its records, each dispatched exactly once; and the ones settled are
    settled at most once each, in that order, the unsettled one (if any) coming
    after them all. *)
Theorem effects_once_in_order es w id m :
  replay_entries 0 world_init es = Ok w → missions w !! id = Some m →
  dispatched (own id es) = seqZ 0 (next_effect m) ∧
  settled_effects (own id es) ++ option_list (unsettled m) `sublist_of` dispatched (own id es).
Proof.
  intros Hr%replay_reaches Hm. destruct (effects_history _ _ _ _ Hr Hm) as [-> Hs]. done.
Qed.

(** ** The line of phases *)

(** The phase a mission is in; while it waits, the one that it paused. *)
Definition phase_of m : MissionState :=
  match state m, waiting m with
  | AwaitingApproval, Some w => w_phase w
  | s, _ => s
  end.

(** The steps of a mission since its contract was last drafted or revised. *)
Definition is_step (t : Trigger.t) : bool :=
  match t with
  | Trigger.Submit _ | Trigger.Consent _ _ | Trigger.Start | Trigger.PhaseDone
  | Trigger.VerifyPass => true
  | _ => false
  end.

Definition add_step (acc : list str) e : list str :=
  match e_event e with
  | Event.Transition (Trigger.Revise _) => []
  | Event.Transition t => if is_step t then acc ++ [Trigger.name t] else acc
  | _ => acc
  end.
Definition steps es : list str := foldl add_step [] es.

(** The only line there is, and how far along it each phase is. *)
Definition LINE : list str :=
  [lit "submit"; lit "consent"; lit "start"; lit "phase_done"; lit "phase_done";
   lit "verify_pass"; lit "phase_done"].

Definition progress (s : MissionState) : option nat :=
  match s with
  | Draft => Some 0%nat
  | AwaitingConsent => Some 1%nat
  | Approved => Some 2%nat
  | Investigating => Some 3%nat
  | Building => Some 4%nat
  | Verifying => Some 5%nat
  | Explaining => Some 6%nat
  | Done => Some 7%nat
  | _ => None
  end.

Definition on_line es m : Prop :=
  match progress (phase_of m) with
  | Some k => steps es = take k LINE
  | None => steps es `prefix_of` LINE
  end.

Lemma steps_snoc es e : steps (es ++ [e]) = add_step (steps es) e.
Proof. unfold steps. by rewrite foldl_app. Qed.

Lemma on_line_transition seq trigger to m acc :
  mission_ok m → transition (state m) trigger = Ok to → trigger_guard trigger m = Ok tt →
  match progress (phase_of m) with Some k => acc = take k LINE | None => acc `prefix_of` LINE end →
  match progress (phase_of (take_transition seq trigger to m)) with
  | Some k =>
      match trigger with
      | Trigger.Revise _ => []
      | t => if is_step t then acc ++ [Trigger.name t] else acc
      end = take k LINE
  | None =>
      match trigger with
      | Trigger.Revise _ => []
      | t => if is_step t then acc ++ [Trigger.name t] else acc
      end `prefix_of` LINE
  end.
Proof.
  intros Hok Ht Hg. destruct (mo_wait _ Hok) as [W1 W2 W3]. unfold phase_of. autorewrite with mission.
  invert_transition; simpl;
    try (intros ->; first [reflexivity | by eexists]);
    destruct (W1 eq_refl) as [w Hw]; pose proof (W2 _ Hw) as Hp; rewrite Hw; simpl in *;
    try (destruct (w_phase w); try done; simpl; intros ->; by eexists).
  cbn [trigger_guard] in Hg. rewrite Hw in Hg. split_guards. breflect. subst phase.
  by destruct (w_phase w).
Qed.

Lemma on_line_history es w id m :
  reaches es w → missions w !! id = Some m → on_line (own id es) m.
Proof.
  apply (history_ind id on_line).
  - intros e c _ E _. unfold on_line, steps. simpl. unfold add_step. by rewrite E.
  - intros es0 e m0 m' Hok IH _ _ _ H. unfold on_line in *. rewrite steps_snoc. unfold add_step.
    destruct (e_event e) as [|trigger| | | | | | | | | | | | | | | | | | |] eqn:E.
    2:{ destruct (transition_record _ _ _ _ E H) as (to & Ht & Hg & -> & _).
        by apply on_line_transition. }
    all: destruct (other_record _ _ _ ltac:(by rewrite E) H) as (Hs & Hw & _);
      unfold phase_of in *; by rewrite Hs, Hw.
  - done.
  - intros es0 m0 _. unfold must_hold_now. by destruct (_ && _).
Qed.

(** C15. Refinement of the line of phases: since its contract was last drafted or
    revised, the steps a mission has taken are an initial part of submit, consent,
    start, phase done, phase done, verify pass, phase done; in each phase (a wait
    counts for the phase it paused) exactly the steps up to that phase, so a Done
    mission took them all, in order. *)
Theorem phase_line es w id m :
  replay_entries 0 world_init es = Ok w → missions w !! id = Some m →
  match progress (phase_of m) with
  | Some k => steps (own id es) = take k LINE
  | None => steps (own id es) `prefix_of` LINE
  end.
Proof. intros Hr%replay_reaches. by apply on_line_history. Qed.

(** ** Consent *)

(** The contract the records name last. *)
Definition add_contract (acc : option ContractRef) e : option ContractRef :=
  match e_event e with
  | Event.Drafted c | Event.Transition (Trigger.Revise c) => Some c
  | _ => acc
  end.
Definition contract_of es : option ContractRef := foldl add_contract None es.

Definition is_revise e : bool :=
  match e_event e with Event.Transition (Trigger.Revise _) => true | _ => false end.

Definition consent_inv es m : Prop :=
  contract_of es = Some (contract_ref m) ∧
  ∀ h, consent m = Some h → ∃ pre ec post t,
    es = pre ++ ec :: post ∧ e_event ec = Event.Transition (Trigger.Consent h t) ∧
    contract_of pre = Some (contract_ref m) ∧ Forall (λ e, is_revise e = false) post.

Lemma consent_inv_snoc es m e :
  (∀ c, e_event e ≠ Event.Drafted c) → is_revise e = false →
  consent_inv es m → contract_of (es ++ [e]) = Some (contract_ref m) ∧
  ∀ h, consent m = Some h → ∃ pre ec post t,
    es ++ [e] = pre ++ ec :: post ∧ e_event ec = Event.Transition (Trigger.Consent h t) ∧
    contract_of pre = Some (contract_ref m) ∧ Forall (λ e, is_revise e = false) post.
Proof.
  intros Hd Hr [IH1 IH2]. split.
  - unfold contract_of in *. rewrite foldl_app, IH1. simpl. unfold add_contract, is_revise in *.
    destruct (e_event e) as [c|trigger| | | | | | | | | | | | | | | | | | |]; try done.
    + by destruct (Hd c).
    + by destruct trigger.
  - intros h Hh. destruct (IH2 h Hh) as (pre & ec & post & t & -> & ? & ? & ?).
    exists pre, ec, (post ++ [e]), t. rewrite <- app_assoc. split_and!; [done..|].
    by apply Forall_app; split; [done|]; apply Forall_singleton.
Qed.

Lemma consent_history es w id m :
  reaches es w → missions w !! id = Some m → consent_inv (own id es) m.
Proof.
  apply (history_ind id consent_inv).
  - intros e c _ E _. split; [|done]. unfold contract_of. simpl. unfold add_contract. by rewrite E.
  - intros es0 e m0 m' Hok IH _ _ Hdr H.
    assert (Hd : ∀ c, e_event e ≠ Event.Drafted c) by (intros c E; unfold is_world_record in Hdr; by rewrite E in Hdr).
    destruct (is_revise e) eqn:Er.
    { unfold is_revise in Er. destruct (e_event e) as [|[]| | | | | | | | | | | | | | | | | | |] eqn:E; try done.
      destruct (transition_record _ _ _ _ E H) as (to & _ & _ & -> & _). split; autorewrite with mission.
      - unfold contract_of. rewrite foldl_app. simpl. unfold add_contract at 1. by rewrite E.
      - done. }
    pose proof (consent_inv_snoc _ _ _ Hd Er IH) as [IH1 IH2]. unfold is_revise in Er.
    destruct (e_event e) as [|trigger| | | | | | | | | | | | | | | | | | |] eqn:E.
    2:{ destruct (transition_record _ _ _ _ E H) as (to & Ht & Hg & -> & _).
        split; autorewrite with mission; [by destruct trigger|].
        destruct trigger; try done. intros h [= ->]. exists es0, e, [], at_wall_ms.
        by split_and!; [..|apply IH|]. }
    all: destruct (other_record _ _ _ ltac:(by rewrite E) H) as (_ & _ & Hc & Hr & _);
      unfold consent_inv; by rewrite Hc, Hr.
  - done.
  - intros es0 m0 _. unfold must_hold_now. by destruct (_ && _).
Qed.

(** C4. No work without consent: a mission that is approved, at work, waiting or done
    was consented to by a record naming the hash of the contract its records named
    last before it, and its contract was not revised since. *)
Theorem work_is_consented es w id m :
  replay_entries 0 world_init es = Ok w → missions w !! id = Some m →
  needs_consent (state m) = true →
  ∃ pre ec post t c,
    own id es = pre ++ ec :: post ∧ contract_of pre = Some c ∧
    e_event ec = Event.Transition (Trigger.Consent (contract_hash c) t) ∧
    Forall (λ e, is_revise e = false) post.
Proof.
  intros Hr%replay_reaches Hm Hs. pose proof (reaches_ok _ _ Hr) as Hw.
  destruct (consent_history _ _ _ _ Hr Hm) as [_ Hc].
  pose proof (co_given _ (mo_consent _ (wk_missions _ Hw _ _ Hm)) Hs) as Hg.
  destruct (Hc _ Hg) as (pre & ec & post & t & ? & ? & ? & ?). by eexists pre, ec, post, t, _.
Qed.

(** C20. Typing of replay: every journal replay accepts describes at most 1024
    missions, numbered 1, 2, ... without a gap, and each is well formed: it waits
    exactly where it records a wait, carries the consent to its contract past the
    Owner's yes and none before, numbers its effects, keeps its call counters in
    their ranges and its publication proof in order, and ends with the record of
    its end. *)
Theorem replay_type es w : replay_entries 0 world_init es = Ok w → world_ok w.
Proof. intros Hr%replay_reaches. by eapply reaches_ok. Qed.
End History.

(** ** The theorems on the sample journal *)

Lemma effects_once_in_order_witness :
  dispatched (own 1 journal) = seqZ 0 (next_effect page_mission) ∧
  settled_effects (own 1 journal) ++ option_list (unsettled page_mission)
    `sublist_of` dispatched (own 1 journal).
Proof. exact (effects_once_in_order journal world 1 page_mission journal_replays page_mission_in). Defined.

Lemma phase_line_witness : steps (own 1 journal) = take 7 LINE.
Proof. exact (phase_line journal world 1 page_mission journal_replays page_mission_in). Defined.

Lemma work_is_consented_witness :
  ∃ pre ec post t c,
    own 1 journal = pre ++ ec :: post ∧ contract_of pre = Some c ∧
    e_event ec = Event.Transition (Trigger.Consent (contract_hash c) t) ∧
    Forall (λ e, is_revise e = false) post.
Proof.
  exact (work_is_consented journal world 1 page_mission journal_replays page_mission_in eq_refl).
Defined.

Lemma replay_type_witness : world_ok world.
Proof. exact (replay_type journal world journal_replays). Defined.
