(* ===== verification/ReplaySafety.v ===== *)
(** * What a replayed journal rules out

    Safety of [Replay.replay]: a mission that ended stays as it ended, a mission
    found unfinished by an unclean start does no work until the Owner resumes it,
    model calls stay within what their invocations declared, a page reaches the
    Owner only on its recorded checks, and a settlement ends as its first cause. *)

From S2P Require Import Prelude Evidence MissionState Journal Contract Mission Replay ReplaySample ReplayInv ReplayProps.

Local Open Scope Z_scope.
Local Open Scope nexus_scope.
#[local] Arguments lit : simpl never.

Section Safety.
Context {Value : Type} {codec : Codec}.
Implicit Types (m : Mission Value) (w : World (Value := Value)) (es : list Entry) (e : Entry).

(** ** What follows a point of the journal *)

Lemma replay_entries_app index w es1 es2 w' :
  replay_entries index w (es1 ++ es2) = Ok w' ↔
  ∃ w1, replay_entries index w es1 = Ok w1 ∧
        replay_entries (index + Z.of_nat (length es1)) w1 es2 = Ok w'.
Proof.
  revert index w. induction es1 as [|e es1 IH]; intros index w.
  { simpl. rewrite Z.add_0_r. split; [eauto|]. by intros (? & [= ->] & ?). }
  cbn [app replay_entries length]. rewrite and_then_ok. setoid_rewrite IH. setoid_rewrite and_then_ok.
  replace (index + Z.of_nat (S (length es1))) with (index + 1 + Z.of_nat (length es1)) by lia.
  naive_solver.
Qed.

(** A drafted mission stays, and steps through the records that follow. *)
Lemma suffix_ind (id : Z) (P : list Entry → Mission Value → Prop) es w m more w' index :
  (∀ es e m m', mission_ok m → P es m → mission_step id e (Some m) m' → P (es ++ [e]) m') →
  reaches es w → missions w !! id = Some m → P [] m →
  replay_entries index w more = Ok w' →
  ∃ m', missions w' !! id = Some m' ∧ P more m'.
Proof.
  intros Hstep Hr Hm HP H. change more with ([] ++ more). revert HP H.
  generalize (@nil Entry) as past. revert index es w m Hr Hm.
  induction more as [|e more IH]; intros index es w m Hr Hm past HP H.
  { rewrite app_nil_r in *. simpl in H. simplify_eq. eauto. }
  cbn [replay_entries] in H. split_guards. destruct x0.
  pose proof (reaches_ok _ _ Hr) as Hw. pose proof (reaches_snoc _ _ _ _ Hr ltac:(done) ltac:(done)) as Hr'.
  pose proof (reaches_ok _ _ Hr') as Hw'.
  assert (is_Some (missions x !! id)) as [m' Hm'].
  { apply (wk_dom _ Hw'). pose proof (proj1 (wk_dom _ Hw id) ltac:(by eexists)).
    pose proof (next_mission_mono _ _ _ ltac:(eassumption)). lia. }
  rewrite cons_middle, app_assoc. eapply IH; [exact Hr'|exact Hm'| |done].
  eapply Hstep; [by eapply (wk_missions _ Hw)|done|]. rewrite <- Hm. by eapply replay_mission_step.
Qed.

(** ** An end is final *)

(** The records a mission that ended may still have: the closing of what was
    under way, and refusals of what was still asked. *)
Definition after_end (event : Event.t) : bool :=
  match event with
  | Event.ConsentRefused _ | Event.EffectRefused _ _ | Event.LaneReturned _ _
  | Event.LaneOvertaken _ | Event.EffectSettled _ _ | Event.ApprovalClosed _ => true
  | _ => false
  end.

(** How a mission ended. *)
Definition same_end m m' : Prop :=
  state m' = state m ∧ terminal_record m' = terminal_record m ∧ reason m' = reason m ∧
  acks m' = acks m ∧ consent m' = consent m ∧ contract_ref m' = contract_ref m ∧
  next_effect m' = next_effect m ∧ model_calls m' = model_calls m ∧
  terminal_uncertain m' = terminal_uncertain m ∧ p_checks (proof m') = p_checks (proof m).

Lemma same_end_refl m : same_end m m.
Proof. by split_and!. Qed.
Lemma same_end_trans m1 m2 m3 : same_end m1 m2 → same_end m2 m3 → same_end m1 m3.
Proof. unfold same_end. intros. destruct_and?. split_and!; congruence. Qed.

Lemma terminal_phases s :
  is_terminal s = true → is_working s = false ∧ may_wait s = false ∧ s ≠ Draft.
Proof. by destruct s. Qed.

Lemma receipt_settling_ended effect overtaken m :
  end_ok m → is_terminal (state m) = true → receipt_settling effect overtaken m = false.
Proof.
  intros He Ht. unfold receipt_settling. destruct (no_settling _ He Ht) as [->|[-> ->]].
  - by rewrite bool_decide_eq_false_2, andb_false_r by done.
  - by rewrite andb_false_r.
Qed.

Lemma ended_record e m m' :
  mission_ok m → is_terminal (state m) = true → is_world_record e = false →
  replay_mission e m = Ok m' → same_end m m' ∧ after_end (e_event e) = true.
Proof.
  intros Hok Ht Hd H. destruct (terminal_phases _ Ht) as (Hw & Hy & Hdr).
  destruct (no_hold _ (mo_end _ Hok) Ht) as [Hh Hmh].
  pose proof (λ effect overtaken, receipt_settling_ended effect overtaken _ (mo_end _ Hok) Ht) as Hst.
  unfold is_world_record in Hd.
  invert_record H; rewrite ?Event in *; try done; rewrite ?Ht, ?Hw, ?Hy, ?Hh, ?Hmh in *; breflect;
    try done; try (split; [by apply same_end_refl|]; by auto).
  - match goal with H : transition _ _ = Ok _ |- _ => apply terminal_absorbing in H end. congruence.
  - split; [|done]. by repeat match goal with |- context [if ?b then _ else _] => destruct b end.
  - exfalso. by destruct (state m).
  - exfalso. rewrite Hst, !andb_false_r in *. done.
  - exfalso. by destruct (state m).
Qed.

Lemma must_hold_now_ended m : is_terminal (state m) = true → must_hold_now m = m.
Proof. intros Ht. unfold must_hold_now. by rewrite Ht. Qed.

Definition ended_inv id m0 es m : Prop :=
  is_terminal (state m) = true ∧ same_end m0 m ∧
  Forall (λ e, e_mission e = id → after_end (e_event e) = true ∨ id = SESSION) es.

Lemma ended_step id m0 es e m m' :
  mission_ok m → ended_inv id m0 es m → mission_step id e (Some m) m' →
  ended_inv id m0 (es ++ [e]) m'.
Proof.
  intros Hok (Ht & Hs & Hall) Hstep. unfold ended_inv. rewrite Forall_app, Forall_singleton.
  inversion Hstep; simplify_eq; rewrite ?must_hold_now_ended by done;
    try (split_and!; [done..|]; intros; auto; by destruct (_ : e_mission e ≠ e_mission e)).
  - edestruct ended_record as [Hse Ha]; [done..|]. split_and!; auto.
    + by destruct Hse as [-> _].
    + by eapply same_end_trans.
  - split_and!; [done..|]. intros; right; congruence.
  - split_and!; [done..|]. intros; right; congruence.
  - split_and!; [done..|]. intros; right; congruence.
Qed.

(** An end is final: once a mission's journal says how it ended, nothing that
    follows changes its state, the record and reason of its end, the
    acknowledgements it owes, its contract and consent, its effects or its model
    calls; the only records it may still have close what was under way or refuse
    what was still asked. *)
Theorem mission_final es more w w' id m :
  replay_entries 0 world_init es = Ok w → replay_entries 0 world_init (es ++ more) = Ok w' →
  missions w !! id = Some m → is_terminal (state m) = true →
  ∃ m', missions w' !! id = Some m' ∧ same_end m m' ∧
        Forall (λ e, after_end (e_event e) = true) (own id more).
Proof.
  intros Hr (w1 & Hr1 & Hmore)%replay_entries_app Hm Ht. rewrite Hr in Hr1. injection Hr1 as <-.
  pose proof (replay_reaches _ _ Hr) as Hre.
  assert (H0 : ended_inv id m [] m) by (split_and!; [done|apply same_end_refl|constructor]).
  destruct (suffix_ind id _ _ _ _ _ _ _ (ended_step id m) Hre Hm H0 Hmore)
    as (m' & Hm' & _ & Hs & Hall).
  exists m'. split_and!; [done..|]. apply Forall_forall.
  intros e [Hid Hin]%list_elem_of_filter. rewrite Forall_forall in Hall.
  destruct (Hall _ Hin Hid) as [?|E]; [done|].
  pose proof (proj1 (wk_dom _ (reaches_ok _ _ Hre) id) ltac:(by eexists)). unfold SESSION in E. lia.
Qed.

(** ** An unclean start is quiet *)

(** The records that start or continue work, every step of a mission's line among them. *)
Definition starts_work (event : Event.t) : bool :=
  match event with
  | Event.ModelCallCharged _ _ | Event.LaneInvoked _ _ _ _ _ _ | Event.EffectDispatched _ _ _
  | Event.ApprovalPending _ _ | Event.DeliverableRetained _ _ _ _ _
  | Event.VerificationRecorded _ _ _ _ => true
  | Event.Transition trigger =>
      match trigger with
      | Trigger.Revise _ | Trigger.Submit _ | Trigger.Consent _ _ | Trigger.Start | Trigger.PhaseDone
      | Trigger.VerifyPass | Trigger.AwaitApproval _ _ _ | Trigger.ActionApproved _ _ => true
      | _ => false
      end
  | _ => false
  end.

Definition resumes id e : Prop := e_mission e = id ∧ e_event e = Event.Resumed.

(** Held, about to be held, or ended. *)
Definition at_rest m : Prop :=
  is_terminal (state m) = true ∨ is_Some (held m) ∨ must_hold m = true.

(** The last step of the line: all its work done, the mission ends. *)
Definition closes e m : Prop := e_event e = Event.Transition Trigger.PhaseDone ∧ state m = Explaining.

Lemma rest_record e m m' :
  mission_ok m → at_rest m → is_world_record e = false → replay_mission e m = Ok m' →
  e_event e ≠ Event.Resumed →
  at_rest m' ∧ (is_terminal (state m') = true ∨ state m' = state m) ∧ (starts_work (e_event e) = true → closes e m).
Proof.
  intros Hok Hrest Hd H Hne. destruct (is_terminal (state m)) eqn:Ht.
  { destruct (ended_record _ _ _ Hok Ht Hd H) as [[Hs _] Ha]. rewrite Hs. split; [left; by rewrite Hs|].
    split; [by right|]. by destruct (e_event e). }
  destruct Hrest as [?|Hrest]; [congruence|]. unfold is_world_record in Hd. unfold closes.
  destruct (e_event e) as [|trigger| | | | | | | | | | | | | | | | | | |] eqn:E.
  2:{ destruct (transition_record _ _ _ _ E H) as (to & Htr & _ & -> & Hh & Hm & _).
      unfold at_rest. autorewrite with mission. rewrite E in Hh.
      assert (Hto : is_terminal to = true).
      { destruct Hrest as [[r Hr]|Hr]; [|by apply Hm]. rewrite Hr in Hh. specialize (Hh ltac:(done)).
        clear -Hh Htr. by invert_transition. }
      split; [by left|]. split; [by left|]. clear -Hto Htr. invert_transition; try done. by destruct phase. }
  all: destruct (other_record _ _ _ ltac:(by rewrite E) H) as [Hs _].
  all: unfold at_rest; rewrite Hs; clear Hs; invert_record H; simplify_eq; try done.
  all: try (destruct Hrest as [[r Hr]|Hr]; rewrite Hr in *; done).
  all: split; [right|by split; [right|]]; simpl; eauto.
Qed.
(** Until it is resumed the mission rests, ended or in the state [m0] it opened in. *)
Definition quiet_inv id m0 es m : Prop :=
  Exists (resumes id) es ∨ at_rest m ∧ (is_terminal (state m) = true ∨ state m = state m0).

Definition quiet_records id m0 es : Prop :=
  ∀ pre e post, es = pre ++ e :: post → e_mission e = id → starts_work (e_event e) = true →
  Exists (resumes id) pre ∨ closes e m0.

Lemma at_rest_invalidate m : at_rest m → at_rest (invalidate_calls m).
Proof. done. Qed.
Lemma at_rest_must_hold m : at_rest m → at_rest (must_hold_now m).
Proof. unfold must_hold_now. destruct (_ && _); [|done]. intros _. by right; right. Qed.

Lemma quiet_step id m0 es e m m' :
  1 ≤ id → mission_ok m → quiet_inv id m0 es m ∧ quiet_records id m0 es →
  mission_step id e (Some m) m' → quiet_inv id m0 (es ++ [e]) m' ∧ quiet_records id m0 (es ++ [e]).
Proof.
  intros Hid Hok [Hq Hrec] Hstep. split.
  - destruct Hq as [Hq|[Hrest Hst]]; [left; apply Exists_app; by left|].
    destruct (decide (e_event e = Event.Resumed)) as [E|E].
    { destruct (decide (e_mission e = id)) as [<-|Hne].
      - left. apply Exists_app. right. by constructor.
      - right. inversion Hstep; simplify_eq; try congruence. done. }
    right. inversion Hstep; simplify_eq; try done.
    + edestruct rest_record as (? & Hs & _); [done..|]. split; [done|].
      destruct Hs as [?|Hs]; [by left|]. by rewrite Hs.
    + split; [by apply at_rest_must_hold, at_rest_invalidate|]. unfold must_hold_now. by destruct (_ && _).
  - intros pre e' post Heq He' Hw.
    destruct post as [|x post _] using rev_ind.
    + apply app_inj_tail in Heq as [-> ->]. destruct Hq as [Hq|[Hrest Hst]]; [by left|right].
      inversion Hstep; simplify_eq;
        try (repeat match goal with H : e_event _ = _ |- _ => rewrite H in Hw end; done).
      edestruct (rest_record e' m m') as (_ & _ & Hn); [done..| |].
      { intros E. by rewrite E in Hw. }
      destruct (Hn Hw) as [? Hx]. split; [done|]. rewrite Hx in Hst. by destruct Hst.
    + rewrite app_comm_cons, app_assoc in Heq. apply app_inj_tail in Heq as [-> _].
      by eapply Hrec.
Qed.

(** C16. An unclean start is quiet: where a session opens and the one before was not
    closed, a mission that has not ended starts no further work - it invokes no
    lane, charges no model call, dispatches no effect, asks for no approval,
    retains and verifies no page and takes no step of its line - in any record up
    to one in which the Owner resumes it, with one exception: a mission the crash found
    already Explaining, its work all done, may take its last step, to Done. *)
Theorem unclean_start_quiet es opened more w w' id m :
  replay_entries 0 world_init es = Ok w → session w ≠ Session.Closed →
  e_event opened = Event.SessionOpened →
  replay_entries 0 world_init (es ++ opened :: more) = Ok w' →
  missions w !! id = Some m →
  ∀ pre e post, more = pre ++ e :: post → e_mission e = id → starts_work (e_event e) = true →
  (∃ r, r ∈ pre ∧ e_mission r = id ∧ e_event r = Event.Resumed) ∨
  (e_event e = Event.Transition Trigger.PhaseDone ∧ state m = Explaining).
Proof.
  intros Hr Hs Ho (w1 & Hr1 & Hmore)%replay_entries_app Hm. rewrite Hr in Hr1. injection Hr1 as <-.
  pose proof (replay_reaches _ _ Hr) as Hre. pose proof (reaches_ok _ _ Hre) as Hw.
  cbn [replay_entries] in Hmore. split_guards. destruct x0.
  assert (Hre' : reaches (es ++ [opened]) x) by by eapply reaches_snoc.
  match goal with H : replay w opened = Ok x |- _ => rename H into Hopen end.
  unfold replay in Hopen. rewrite Ho in Hopen. split_guards. rewrite bool_decide_eq_true_2 in Hopen by done.
  assert (Hm1 : missions x !! id = Some (must_hold_now (invalidate_calls m))).
  { subst x. simpl. by rewrite <- map_fmap_compose, lookup_fmap, Hm. }
  pose proof (proj1 (wk_dom _ Hw id) ltac:(by eexists)) as [Hid _].
  assert (Hq0 : quiet_inv id m [] (must_hold_now (invalidate_calls m)) ∧ quiet_records id m []).
  { split; [|by intros [|??] ???]. right. split; [|unfold must_hold_now; destruct (_ && _); by right].
    unfold must_hold_now, at_rest.
    destruct (_ && _) eqn:E; [by right; right|]. simpl in *. destruct (is_terminal (state m)); [by left|].
    simpl in E. breflect. right. left. by apply not_eq_None_Some. }
  destruct (suffix_ind id _ _ _ _ _ _ _ (λ es e m1 m', quiet_step id m es e m1 m' Hid) Hre' Hm1 Hq0 Hmore)
    as (m' & _ & _ & Hq).
  intros pre e post -> He Hst. destruct (Hq _ _ _ eq_refl He Hst) as [(r & ? & ? & ?)%Exists_exists|?]; [|by right].
  left. eauto.
Qed.
(** ** Model calls *)

(** Every invocation pays for its first call; a later call pays as it is charged. *)
Definition pays (event : Event.t) : Z :=
  match event with
  | Event.LaneInvoked _ _ _ _ _ _ => 1
  | Event.ModelCallCharged _ call => if call =? 1 then 0 else 1
  | _ => 0
  end.
Definition calls_made es : Z := foldr (λ e n, pays (e_event e) + n) 0 es.

(** The calls charged, by their numbers. *)
Definition charges es : list Z :=
  omap (λ e, match e_event e with Event.ModelCallCharged _ call => Some call | _ => None end) es.

Lemma calls_made_snoc es e : calls_made (es ++ [e]) = calls_made es + pays (e_event e).
Proof.
  unfold calls_made. induction es as [|e' es IH]; simpl in *; [lia|]. rewrite IH. lia.
Qed.

(** The invocation [inv] opened with [cap] and [budget], and what follows it
    charged its calls up to [n]. *)
Definition invoked_with es (inv : InvocationId) (cap budget n : Z) : Prop :=
  ∃ pre l post role i1 i2, es = pre ++ l :: post ∧
    e_event l = Event.LaneInvoked inv role i1 i2 cap budget ∧ charges post = seqZ 1 n.

Definition charged_ok es : Prop :=
  ∀ pre e post inv call, es = pre ++ e :: post → e_event e = Event.ModelCallCharged inv call →
  ∃ cap budget, invoked_with pre inv cap budget (call - 1) ∧ 1 ≤ call ≤ cap ∧ cap ≤ 4 ∧
    calls_made (pre ++ [e]) ≤ budget ∧ budget ≤ MAX_MODEL_CALLS.

Definition calls_inv es m : Prop :=
  model_calls m = calls_made es ∧ charged_ok es ∧
  ∀ a, call_accounting m = Some a →
    invoked_with es (ca_invocation a) (ca_cap a) (ca_budget a) (ca_next a - 1).

Lemma invoked_with_snoc es e inv cap budget n :
  (∀ i c, e_event e ≠ Event.ModelCallCharged i c) →
  invoked_with es inv cap budget n → invoked_with (es ++ [e]) inv cap budget n.
Proof.
  intros He (pre & l & post & role & i1 & i2 & -> & Hl & Hc).
  exists pre, l, (post ++ [e]), role, i1, i2. rewrite <- app_assoc. split_and!; [done..|].
  unfold charges in *. rewrite omap_app, Hc. simpl. destruct (e_event e) eqn:E; rewrite ?app_nil_r; try done.
  by destruct (He invocation call).
Qed.

Lemma charged_ok_snoc es e :
  (∀ i c, e_event e ≠ Event.ModelCallCharged i c) → charged_ok es → charged_ok (es ++ [e]).
Proof.
  intros He Hok pre e' post inv call Heq E'. destruct post as [|x post _] using rev_ind.
  - apply app_inj_tail in Heq as [-> ->]. by destruct (He inv call).
  - rewrite app_comm_cons, app_assoc in Heq. apply app_inj_tail in Heq as [-> _]. by eapply Hok.
Qed.

Lemma calls_charge es e m m' inv call :
  calls_ok m → calls_inv es m → e_event e = Event.ModelCallCharged inv call →
  replay_charged inv call m = Ok m' → calls_inv (es ++ [e]) m'.
Proof.
  intros Hok (Hc & Hch & Ha) E H. unfold replay_charged in H. split_guards. subst m'.
  match goal with
  | Ha' : call_accounting m = Some ?a, Hx : charge ?a _ _ _ = Ok _ |- _ =>
      rename a into a0; pose proof (Ha _ Ha') as Hinv;
      destruct (lo_accounting _ Hok _ Ha') as [L1 L2 L3 L4 L5 L6]; apply charge_ok in Hx
        as (-> & -> & ? & ? & ? & E1 & E2 & E3 & E4 & E5 & ->)
  end.
  assert (Hmade : calls_made (es ++ [e]) = if ca_next a0 =? 1 then model_calls m else model_calls m + 1).
  { rewrite calls_made_snoc, <- Hc, E. simpl. destruct (ca_next a0 =? 1); lia. }
  split_and!; simpl; [done| |].
  - intros pre e' post inv' call' Heq E'. destruct post as [|x post _] using rev_ind.
    + apply app_inj_tail in Heq as [<- <-]. rewrite E in E'. injection E' as <- <-.
      exists (ca_cap a0), (ca_budget a0). split_and!; [done|lia..| |lia]. rewrite Hmade.
      destruct (Z.eqb_spec (ca_next a0) 1); lia.
    + rewrite app_comm_cons, app_assoc in Heq. apply app_inj_tail in Heq as [-> _]. by eapply Hch.
  - intros a [= <-]. rewrite E1, E2, E3, E4.
    destruct Hinv as (pre & l & post & role & i1 & i2 & -> & Hl & Hp).
    exists pre, l, (post ++ [e]), role, i1, i2. rewrite <- app_assoc. split_and!; [done..|].
    unfold charges in *. rewrite omap_app, Hp. simpl. rewrite E.
    replace (ca_next a0 + 1 - 1) with (ca_next a0 - 1 + 1) by lia.
    rewrite seqZ_app by lia. by replace (1 + (ca_next a0 - 1)) with (ca_next a0) by lia.
Qed.

Lemma calls_invoke es e m m' inv role i1 i2 cap budget :
  calls_inv es m → e_event e = Event.LaneInvoked inv role i1 i2 cap budget →
  replay_invoked e inv role cap budget m = Ok m' → calls_inv (es ++ [e]) m'.
Proof.
  intros (Hc & Hch & Ha) E H. unfold replay_invoked in H. split_guards. subst m'.
  match goal with H : checked_add _ _ _ = Some _ |- _ => apply checked_add_ok in H as [-> _] end.
  split_and!; simpl.
  - rewrite calls_made_snoc, E, Hc. done.
  - apply charged_ok_snoc; [by rewrite E|done].
  - intros a ->.
    match goal with H : reserved _ _ _ _ = Ok _ |- _ => apply reserved_ok in H as (-> & _) end.
    exists es, e, [], role, i1, i2. done.
Qed.

Lemma calls_kept e m m' :
  replay_mission e m = Ok m' → pays (e_event e) = 0 →
  (∀ i c, e_event e ≠ Event.ModelCallCharged i c) →
  model_calls m' = model_calls m ∧
  (call_accounting m' = call_accounting m ∨ call_accounting m' = None).
Proof.
  intros H Hp Hc. invert_record H; autorewrite with mission; try done; simpl; auto.
  - by destruct (Hc invocation call).
  - repeat match goal with |- context [if ?b then _ else _] => destruct b end; auto.
Qed.

Lemma calls_history es w id m :
  reaches es w → missions w !! id = Some m → calls_inv (own id es) m.
Proof.
  apply (history_ind id calls_inv).
  - intros e c _ E _. split_and!; [by unfold calls_made; simpl; rewrite E| |done].
    apply (charged_ok_snoc []); [by rewrite E|by intros [] ].
  - intros es0 e m0 m' Hok IH _ _ _ H.
    destruct (e_event e) as [| | |inv role i1 i2 cap budget|inv call| | | | | | | | | | | | | | | |] eqn:E.
    4:{ eapply calls_invoke; [done..|]. unfold replay_mission in H. rewrite E in H. by split_guards. }
    4:{ eapply calls_charge; [by apply Hok|done..|]. unfold replay_mission in H. rewrite E in H. by split_guards. }
    all: destruct IH as (IH1 & IH2 & IH3);
      destruct (calls_kept _ _ _ H ltac:(by rewrite E) ltac:(by rewrite E)) as [Hc Ha];
      split_and!;
        [rewrite calls_made_snoc, E, <- IH1; simpl; lia
        |apply charged_ok_snoc; [by rewrite E|done]
        |intros a Ha'; apply invoked_with_snoc; [by rewrite E|]; apply IH3; destruct Ha; congruence].
  - intros es0 m0 _ (? & ? & ?). by split_and!.
  - intros es0 m0 _. unfold must_hold_now. by destruct (_ && _).
Qed.

(** C25. Bounds of the model calls: the calls a mission has been charged for are what
    its records pay for - one per invocation, one per later call - and every call
    charged belongs to the invocation before it: it is the next in that
    invocation's count 1, 2, ..., within the cap it declared, at most 4, and leaves
    the mission's total within the budget it declared, at most 1000. *)
Theorem model_calls_bounded es w id m :
  replay_entries 0 world_init es = Ok w → missions w !! id = Some m →
  model_calls m = calls_made (own id es) ∧
  ∀ pre e post inv call,
    own id es = pre ++ e :: post → e_event e = Event.ModelCallCharged inv call →
    ∃ cap budget, invoked_with pre inv cap budget (call - 1) ∧ 1 ≤ call ≤ cap ∧ cap ≤ 4 ∧
      calls_made (pre ++ [e]) ≤ budget ∧ budget ≤ 1000.
Proof. intros Hr%replay_reaches Hm. by destruct (calls_history _ _ _ _ Hr Hm) as (? & ? & _). Qed.

(** ** The publication proof *)

Definition proof_inv es m : Prop :=
  (∀ e, e ∈ es → ∀ i f c h n, e_event e = Event.DeliverableRetained i f c h n →
     p_retained (proof m) = Some (MkRetained i f c h n)) ∧
  (∀ r, p_retained (proof m) = Some r → ∃ e, e ∈ es ∧
     e_event e = Event.DeliverableRetained (rt_invocation r) (rt_effect r) (rt_content r)
       (rt_sha256 r) (rt_bytes r)) ∧
  (∀ rc, p_receipt (proof m) = Some rc → ∃ e action, e ∈ es ∧
     e_event e = Event.PublicationReceipt (rc_effect rc) action (rc_sha256 rc) (rc_bytes rc)
       (rc_policy_hash rc) (rc_overtaken rc)) ∧
  (∀ checks, p_checks (proof m) = Some checks → ∃ e inv effect digest, e ∈ es ∧
     e_event e = Event.VerificationRecorded inv effect digest checks ∧
     check (e_event e) = Ok tt ∧ ∃ rc, p_receipt (proof m) = Some rc ∧ rc_effect rc = effect).

Lemma proof_kept e m m' :
  replay_mission e m = Ok m' →
  match e_event e with
  | Event.DeliverableRetained _ _ _ _ _ | Event.PublicationReceipt _ _ _ _ _ _
  | Event.VerificationRecorded _ _ _ _ => true
  | _ => false
  end = false →
  p_retained (proof m') = p_retained (proof m) ∧ p_receipt (proof m') = p_receipt (proof m) ∧
  p_checks (proof m') = p_checks (proof m).
Proof.
  intros H Hk. invert_record H; autorewrite with mission; try done; simpl; auto.
  by repeat match goal with |- context [if ?b then _ else _] => destruct b end.
Qed.

(** [proof_inv] of the longer history, for the parts the last record left. *)
Lemma proof_inv_snoc es e m :
  proof_inv es m →
  (∀ e', e' ∈ es ++ [e] → e' ≠ e → ∀ i f c h n, e_event e' = Event.DeliverableRetained i f c h n →
     p_retained (proof m) = Some (MkRetained i f c h n)) ∧
  (∀ r, p_retained (proof m) = Some r → ∃ e', e' ∈ es ++ [e] ∧
     e_event e' = Event.DeliverableRetained (rt_invocation r) (rt_effect r) (rt_content r)
       (rt_sha256 r) (rt_bytes r)) ∧
  (∀ rc, p_receipt (proof m) = Some rc → ∃ e' action, e' ∈ es ++ [e] ∧
     e_event e' = Event.PublicationReceipt (rc_effect rc) action (rc_sha256 rc) (rc_bytes rc)
       (rc_policy_hash rc) (rc_overtaken rc)) ∧
  (∀ checks, p_checks (proof m) = Some checks → ∃ e' inv effect digest, e' ∈ es ++ [e] ∧
     e_event e' = Event.VerificationRecorded inv effect digest checks ∧
     check (e_event e') = Ok tt ∧ ∃ rc, p_receipt (proof m) = Some rc ∧ rc_effect rc = effect).
Proof.
  intros (I1 & I2 & I3 & I4). setoid_rewrite elem_of_app. split_and!.
  - intros e' [?| ->%list_elem_of_singleton]; [eauto|done].
  - intros r Hr. destruct (I2 _ Hr) as (e' & ? & ?). eauto.
  - intros r Hr. destruct (I3 _ Hr) as (e' & a & ? & ?). eauto.
  - intros r Hr. destruct (I4 _ Hr) as (e' & a & b & c & ? & ? & ? & ?). eauto 10.
Qed.

Lemma proof_history es w id m :
  reaches es w → missions w !! id = Some m → proof_inv (own id es) m.
Proof.
  apply (history_ind id proof_inv).
  - intros e c _ E _. split_and!; simpl; try done. intros e' ->%list_elem_of_singleton. congruence.
  - intros es0 e m0 m' Hok Hinv _ Hck _ H.
    destruct (proof_inv_snoc es0 e m0 Hinv) as (I1 & I2 & I3 & I4).
    assert (He : e ∈ es0 ++ [e]) by (apply elem_of_app; right; by apply list_elem_of_singleton).
    destruct (match e_event e with
      | Event.DeliverableRetained _ _ _ _ _ | Event.PublicationReceipt _ _ _ _ _ _
      | Event.VerificationRecorded _ _ _ _ => true | _ => false end) eqn:Ek.
    2:{ destruct (proof_kept _ _ _ H Ek) as (E1 & E2 & E3). unfold proof_inv. rewrite E1, E2, E3.
        split_and!; [|done..]. intros e' He' i f c h n E'. apply (I1 e' He') in E'; [done|].
        intros ->. by rewrite E' in Ek. }
    invert_record H; try discriminate Ek.
    + split_and!; [| |exact I3|exact I4]; [|intros r [= <-]; eauto].
      intros e' He' i f c h n E'. destruct (decide (e' = e)) as [->|Hne]; [simpl; congruence|].
      apply (I1 _ He' Hne) in E'. breflect. not_set.
    + split_and!; [|exact I2| |].
      * intros e' He' i f c h n E'. apply (I1 e' He') in E'; [done|]. intros ->. congruence.
      * rewrite Event. intros rc [= <-]. eauto.
      * intros checks Hch. destruct (I4 _ Hch) as (? & ? & ? & ? & ? & ? & ? & rc & Hrc & _).
        breflect. not_set.
    + split_and!; [|exact I2|exact I3|].
      * intros e' He' i f c h n E'. apply (I1 e' He') in E'; [done|]. intros ->. congruence.
      * intros c [= <-]. exists e. do 3 eexists. split_and!; [done|exact Event|by rewrite Event|].
        simpl. destruct (p_receipt (proof m0)) as [rc|]; [|done]. breflect. by exists rc.
  - done.
  - intros es0 m0 _. unfold must_hold_now. by destruct (_ && _).
Qed.

(** A recorded report all of whose results are passes is the six passes. *)
Lemma checks_pass inv effect digest checks :
  check (Event.VerificationRecorded inv effect digest checks) = Ok tt → all_pass checks = true →
  checks = (λ id, (CheckId.as_str id, lit "pass")) <$> CheckId.ALL.
Proof.
  unfold check. intros H Ha. split_guards. breflect.
  match goal with H : length checks = _ |- _ => rename H into Hl end.
  match goal with H : forallb _ _ = true |- _ => rename H into Hn end. clear - Ha Hl Hn.
  revert checks Ha Hl Hn. generalize CheckId.ALL as ids.
  induction ids as [|id ids IH]; intros [|[n c] checks]; try done. simpl.
  intros [Hc Ha]%andb_true_iff [= Hl] [Hn Hr]%andb_true_iff. breflect. simpl in *. subst.
  f_equal. by apply IH.
Qed.

(** The records prove the page of [effect]: its clean receipt (under a policy, not
    overtaken) and a verification of it in which each of the six checks passed. *)
Definition page_proved es (effect : Z) : Prop :=
  ∃ r action rsha rn policy v inv digest,
    r ∈ es ∧ e_event r = Event.PublicationReceipt effect action rsha rn (Some policy) false ∧
    v ∈ es ∧ e_event v = Event.VerificationRecorded inv effect digest
      ((λ c, (CheckId.as_str c, lit "pass")) <$> CheckId.ALL).

(** C13. A page reaches the Owner only when proved: where a mission retained a page and
    is explaining or done, its records hold the receipt of that page's effect, clean
    (under a policy, not overtaken), and a verification of that effect in which each
    of the six checks passed. *)
Theorem page_done_proved es w id m e i effect content sha n :
  replay_entries 0 world_init es = Ok w → missions w !! id = Some m →
  state m = Explaining ∨ state m = Done →
  e ∈ own id es → e_event e = Event.DeliverableRetained i effect content sha n →
  page_proved (own id es) effect.
Proof.
  intros Hr%replay_reaches Hm Hs He E.
  destruct (mo_proof _ (wk_missions _ (reaches_ok _ _ Hr) _ _ Hm)) as [P1 P2 P3 P4].
  destruct (proof_history _ _ _ _ Hr Hm) as (I1 & I2 & I3 & I4).
  pose proof (I1 _ He _ _ _ _ _ E) as Hret. pose proof (P4 Hs _ Hret) as Hv.
  destruct (P2 _ Hv) as (rc & Hrc & [policy Hp] & Ho).
  destruct (P1 _ Hrc) as (ret & Hret' & Heff). rewrite Hret in Hret'. injection Hret' as <-. simpl in Heff. destruct (I3 _ Hrc) as (er & action & Hin & Er).
  rewrite Hv in P3. symmetry in P3. apply fmap_Some in P3 as (checks & Hch & Hall).
  destruct (I4 _ Hch) as (v & inv & f & digest & Hinv & Ev & Hck & rc' & Hrc' & <-).
  assert (rc' = rc) as -> by congruence. rewrite Ev in Hck.
  apply checks_pass in Hck; [|done]. subst checks. rewrite Hp, Ho, Heff in Er.
  rewrite Heff in Ev. by eexists er, action, _, _, policy, v, inv, digest.
Qed.

(** ** Settlements *)

Lemma settlement_history es w id m :
  reaches es w → missions w !! id = Some m →
  ∀ e effect cause, e ∈ own id es → e_event e = Event.SettlementStarted effect cause →
  settlement m = Some (effect, cause).
Proof.
  apply (history_ind id (λ es m, ∀ e effect cause, e ∈ es →
    e_event e = Event.SettlementStarted effect cause → settlement m = Some (effect, cause))).
  - intros e c _ E _ e' effect cause ->%list_elem_of_singleton. congruence.
  - intros es0 e m0 m' _ IH _ _ _ H e' effect cause [Hin| ->%list_elem_of_singleton]%elem_of_app E.
    + specialize (IH _ _ _ Hin E). invert_record H; autorewrite with mission; try done.
      * by repeat match goal with |- context [if ?b then _ else _] => destruct b end.
      * breflect. not_set.
    + by invert_record H; simplify_eq.
  - done.
  - intros es0 m0 _. unfold must_hold_now. by destruct (_ && _).
Qed.

(** The mission ended by the record that settled [effect], as [cause] says. *)
Definition settled_for m (effect : Z) (cause : SettleCause.t) : Prop :=
  ∃ action outcome end_ seq,
    terminal_record m = Some (Trigger.Settled effect action outcome end_, Some seq) ∧
    settled_as m cause action outcome end_.

(** A settlement ends as its first cause: a mission with a settlement of a File
    started for a cause ends only by the record that settles that File, in the end
    the cause gives its outcome - or blocked for want of a receipt, where a page it
    retained was published with no record of it. *)
Theorem settlement_first_cause es w id m e effect cause :
  replay_entries 0 world_init es = Ok w → missions w !! id = Some m →
  e ∈ own id es → e_event e = Event.SettlementStarted effect cause →
  is_terminal (state m) = true →
  settled_for m effect cause.
Proof.
  intros Hr%replay_reaches Hm He E Ht. pose proof (settlement_history _ _ _ _ Hr Hm _ _ _ He E) as Hs.
  by apply (mo_settle _ (wk_missions _ (reaches_ok _ _ Hr) _ _ Hm)).
Qed.
End Safety.

(** ** The theorems on the sample journal *)

Lemma mission_final_witness :
  ∃ m', missions world !! 1 = Some m' ∧ same_end page_mission m' ∧
        Forall (λ e, after_end (e_event e) = true) (own 1 (reopened :: resumed)).
Proof.
  exact (mission_final at_work (reopened :: resumed) world_at_work world 1 page_mission
    at_work_replays continued_replays page_mission_at_work eq_refl).
Defined.

Lemma unclean_start_quiet_witness :
  ∃ r, r ∈ take 3 resumed ∧ e_mission r = 2 ∧ e_event r = Event.Resumed.
Proof.
  destruct (unclean_start_quiet at_work reopened resumed world_at_work world 2 work_mission
    at_work_replays ltac:(discriminate) eq_refl continued_replays work_mission_in
    (take 3 resumed) (List.nth 3 resumed reopened) (drop 4 resumed)) as [H|[H _]];
    [reflexivity|reflexivity|reflexivity|exact H|vm_compute in H; discriminate H].
Defined.

Lemma model_calls_bounded_witness :
  model_calls page_mission = calls_made (own 1 journal) ∧
  ∀ pre e post inv call,
    own 1 journal = pre ++ e :: post → e_event e = Event.ModelCallCharged inv call →
    ∃ cap budget, invoked_with pre inv cap budget (call - 1) ∧ 1 ≤ call ≤ cap ∧ cap ≤ 4 ∧
      calls_made (pre ++ [e]) ≤ budget ∧ budget ≤ 1000.
Proof. exact (model_calls_bounded journal world 1 page_mission journal_replays page_mission_in). Defined.

Lemma page_done_proved_witness : page_proved (own 1 journal) 0.
Proof.
  apply (page_done_proved journal world 1 page_mission (List.nth 13 journal reopened)
    (MkInvocationId 1 11) 0 [7] digest 100 journal_replays page_mission_in (or_intror eq_refl));
    [|reflexivity].
  apply list_elem_of_In. vm_compute. tauto.
Defined.

Lemma settlement_first_cause_witness :
  settled_for settled_mission 0 (SettleCause.Stop StopReason.Owner).
Proof.
  apply (settlement_first_cause journal world 3 settled_mission (List.nth 43 journal reopened) 0
    (SettleCause.Stop StopReason.Owner) journal_replays settled_mission_in);
    [|reflexivity|reflexivity].
  apply list_elem_of_In. vm_compute. tauto.
Defined.
