(* ===== verification/Utf8.v ===== *)
(** * UTF-8 decoding

    [slice::utf8_chunks] and [str::from_utf8] of the standard library: the
    characters of a byte string, and its invalid sequences (each the longest
    prefix of a character, at least one byte). *)

From Stdlib Require Import ZifyBool.
From S2P Require Import Prelude.

Local Open Scope Z_scope.

(** A Unicode scalar value. *)
Definition is_char (c : Z) : Prop := 0 ≤ c < 55296 ∨ 57344 ≤ c < 1114112.
Definition is_byte (b : Z) : Prop := 0 ≤ b < 256.

Inductive piece := PChar (c : Z) | PInvalid (len : nat).

Definition is_cont (b : Z) : bool := (128 <=? b) && (b <=? 191).

(** The second byte of a three- and of a four-byte character. *)
Definition second_of_3 (b0 b1 : Z) : bool :=
  ((b0 =? 224) && (160 <=? b1) && (b1 <=? 191)) ||
  ((225 <=? b0) && (b0 <=? 236) && is_cont b1) ||
  ((b0 =? 237) && (128 <=? b1) && (b1 <=? 159)) ||
  ((238 <=? b0) && (b0 <=? 239) && is_cont b1).
Definition second_of_4 (b0 b1 : Z) : bool :=
  ((b0 =? 240) && (144 <=? b1) && (b1 <=? 191)) ||
  ((241 <=? b0) && (b0 <=? 243) && is_cont b1) ||
  ((b0 =? 244) && (128 <=? b1) && (b1 <=? 143)).

Definition char2 (b0 b1 : Z) : Z := (b0 - 192) * 64 + (b1 - 128).
Definition char3 (b0 b1 b2 : Z) : Z := (b0 - 224) * 4096 + (b1 - 128) * 64 + (b2 - 128).
Definition char4 (b0 b1 b2 b3 : Z) : Z :=
  (b0 - 240) * 262144 + (b1 - 128) * 4096 + (b2 - 128) * 64 + (b3 - 128).

Definition is_first_of_2 (b0 : Z) : bool := (194 <=? b0) && (b0 <=? 223).
Definition is_first_of_3 (b0 : Z) : bool := (224 <=? b0) && (b0 <=? 239).
Definition is_first_of_4 (b0 : Z) : bool := (240 <=? b0) && (b0 <=? 244).

Fixpoint utf8_pieces (s : bytes) : list piece :=
  match s with
  | [] => []
  | b0 :: s1 =>
      if b0 <? 128 then PChar b0 :: utf8_pieces s1
      else if is_first_of_2 b0 then
        match s1 with
        | b1 :: s2 =>
            if is_cont b1 then PChar (char2 b0 b1) :: utf8_pieces s2
            else PInvalid 1 :: utf8_pieces s1
        | [] => [PInvalid 1]
        end
      else if is_first_of_3 b0 then
        match s1 with
        | b1 :: s2 =>
            if second_of_3 b0 b1 then
              match s2 with
              | b2 :: s3 =>
                  if is_cont b2 then PChar (char3 b0 b1 b2) :: utf8_pieces s3
                  else PInvalid 2 :: utf8_pieces s2
              | [] => [PInvalid 2]
              end
            else PInvalid 1 :: utf8_pieces s1
        | [] => [PInvalid 1]
        end
      else if is_first_of_4 b0 then
        match s1 with
        | b1 :: s2 =>
            if second_of_4 b0 b1 then
              match s2 with
              | b2 :: s3 =>
                  if is_cont b2 then
                    match s3 with
                    | b3 :: s4 =>
                        if is_cont b3 then PChar (char4 b0 b1 b2 b3) :: utf8_pieces s4
                        else PInvalid 3 :: utf8_pieces s3
                    | [] => [PInvalid 3]
                    end
                  else PInvalid 2 :: utf8_pieces s2
              | [] => [PInvalid 2]
              end
            else PInvalid 1 :: utf8_pieces s1
        | [] => [PInvalid 1]
        end
      else PInvalid 1 :: utf8_pieces s1
  end.

(** The chunks: a valid text, then the bytes of the invalid sequence after it
    (none after the last text). *)
Fixpoint chunks_of (l : list piece) : list (str * nat) :=
  match l with
  | [] => []
  | PChar c :: rest =>
      match chunks_of rest with
      | (v, k) :: cs => (c :: v, k) :: cs
      | [] => [([c], 0%nat)]
      end
  | PInvalid n :: rest => ([], n) :: chunks_of rest
  end.
Definition utf8_chunks (s : bytes) : list (str * nat) := chunks_of (utf8_pieces s).

Fixpoint valid_chars (l : list piece) : option str :=
  match l with
  | [] => Some []
  | PChar c :: l => cons c <$> valid_chars l
  | PInvalid _ :: _ => None
  end.
(** [str::from_utf8], and where the first invalid sequence starts. *)
Definition from_utf8 (s : bytes) : option str := valid_chars (utf8_pieces s).
Definition valid_up_to (s : bytes) : Z :=
  match utf8_chunks s with (v, _) :: _ => str_len v | [] => 0 end.

(** ** Decoding inverts encoding *)

(** Decides the tests on the bytes of one character. *)
Ltac byte_test :=
  repeat match goal with
  | |- context [if ?b then _ else _] =>
      first [replace b with true by byte_arith | replace b with false by byte_arith]
  end
with byte_arith :=
  unfold is_first_of_2, is_first_of_3, is_first_of_4, second_of_3, second_of_4, is_cont in *;
  Z.to_euclidean_division_equations; lia.

Lemma utf8_pieces_char c s : is_char c → utf8_pieces (utf8_char c ++ s) = PChar c :: utf8_pieces s.
Proof.
  intros Hc. unfold utf8_char, is_char in *.
  destruct (Z.ltb_spec c 128); [cbn [app utf8_pieces]; by byte_test|].
  destruct (Z.ltb_spec c 2048); [|destruct (Z.ltb_spec c 65536)]; cbn [app utf8_pieces]; byte_test;
    do 2 f_equal; unfold char2, char3, char4; Z.to_euclidean_division_equations; lia.
Qed.

Lemma utf8_pieces_str s r :
  Forall is_char s → utf8_pieces (as_bytes s ++ r) = (PChar <$> s) ++ utf8_pieces r.
Proof.
  induction 1 as [|c s Hc _ IH]; [done|].
  change (as_bytes (c :: s)) with (utf8_char c ++ as_bytes s).
  by rewrite <- app_assoc, utf8_pieces_char, IH.
Qed.

Lemma valid_chars_app s l : valid_chars ((PChar <$> s) ++ l) = (λ r, s ++ r) <$> valid_chars l.
Proof.
  induction s as [|c s IH]; csimpl; [by destruct (valid_chars l)|].
  rewrite IH. by destruct (valid_chars l).
Qed.

(** A text is read back from its bytes. *)
Lemma from_utf8_as_bytes s : Forall is_char s → from_utf8 (as_bytes s) = Some s.
Proof.
  intros Hs. unfold from_utf8. rewrite <- (app_nil_r (as_bytes s)), utf8_pieces_str by done.
  rewrite valid_chars_app. simpl. by rewrite app_nil_r.
Qed.

(** One character read is the encoding of a scalar value. *)
Lemma piece_char b s c l :
  Forall is_byte (b :: s) → utf8_pieces (b :: s) = PChar c :: l →
  ∃ r, b :: s = utf8_char c ++ r ∧ l = utf8_pieces r ∧ is_char c.
Proof.
  rewrite Forall_cons. intros [Hb Hs] H. unfold is_byte in *. cbn [utf8_pieces] in H.
  repeat match type of H with
  | (if ?t then _ else _) = _ => destruct t eqn:?
  | match ?s with [] => _ | _ :: _ => _ end = _ => destruct s
  end; simplify_eq;
    repeat match goal with H : Forall _ (_ :: _) |- _ => apply Forall_cons in H as [? H] end;
    (eexists; split; [|split; [reflexivity|]]).
  all: unfold char2, char3, char4, utf8_char, is_char, is_byte,
    is_first_of_2, is_first_of_3, is_first_of_4, second_of_3, second_of_4, is_cont in *.
  all: try lia.
  all: byte_test; cbn [app]; repeat (f_equal; try (Z.to_euclidean_division_equations; lia)).
Qed.

Lemma utf8_char_cons c r : ∃ b s, utf8_char c ++ r = b :: s.
Proof. unfold utf8_char. repeat case_match; by eexists _, _. Qed.

(** Bytes that are read are the bytes of the text. *)
Lemma from_utf8_inv b s :
  Forall is_byte b → from_utf8 b = Some s → as_bytes s = b ∧ Forall is_char s.
Proof.
  unfold from_utf8. remember (length b) as n eqn:Hn. assert (Hle : (length b ≤ n)%nat) by lia. clear Hn.
  revert b s Hle. induction n as [|n IH]; intros [|b0 b] s Hle Hb H;
    try (cbn in H; by simplify_eq); [simpl in Hle; lia|].
  destruct (utf8_pieces (b0 :: b)) as [|[c|k] l] eqn:E.
  - exfalso. clear H. cbn [utf8_pieces] in E. by repeat case_match; simplify_eq.
  - destruct (piece_char _ _ _ _ Hb E) as (r & Er & -> & Hc). simpl in H.
    apply fmap_Some in H as (s' & Hs' & ->). rewrite Er in Hb, Hle.
    assert (length r < length (utf8_char c ++ r))%nat.
    { destruct (utf8_char_cons c []) as (x & y & Ex). rewrite app_nil_r in Ex. rewrite Ex. simpl. rewrite length_app. lia. }
    apply Forall_app in Hb as [_ Hb].
    destruct (IH r s') as [Hr Hs]; [|done..|].
    { rewrite <- Er in *. simpl in *. lia. }
    split; [|by constructor]. rewrite Er. change (as_bytes (c :: s')) with (utf8_char c ++ as_bytes s').
    by rewrite Hr.
  - done.
Qed.
