(* ===== verification/PagePolicy.v ===== *)
(** * The declared policy of the inert page check

    [kernel/src/inert_page/policy.rs] and the tag and class names of
    [tree.rs]: every rule of the check in one constant, and its hash over every
    field. The stylesheet is [mother-page-v1.css]; SHA-256 is a parameter. *)

From S2P Require Import Prelude Evidence Hash.

Local Open Scope Z_scope.

Definition LF : Z := 10.

(** The 16 body tags. *)
Module Tag.
Inductive t :=
| Header | Main | Footer | Section | H1 | H2 | H3 | P | Address | Ul | Ol | Li | Strong | Em | Small | Br.

Definition name (tag : t) : str :=
  match tag with
  | Header => lit "header"
  | Main => lit "main"
  | Footer => lit "footer"
  | Section => lit "section"
  | H1 => lit "h1"
  | H2 => lit "h2"
  | H3 => lit "h3"
  | P => lit "p"
  | Address => lit "address"
  | Ul => lit "ul"
  | Ol => lit "ol"
  | Li => lit "li"
  | Strong => lit "strong"
  | Em => lit "em"
  | Small => lit "small"
  | Br => lit "br"
  end.
End Tag.
#[export] Instance Tag_eq_dec : EqDecision Tag.t.
Proof. solve_decision. Defined.

(** The class tokens of the stylesheet. *)
Module Class.
Inductive t := Lead | Muted | Center | Note | Plain.

Definition name (class : t) : str :=
  match class with
  | Lead => lit "lead"
  | Muted => lit "muted"
  | Center => lit "center"
  | Note => lit "note"
  | Plain => lit "plain"
  end.
End Class.
#[export] Instance Class_eq_dec : EqDecision Class.t.
Proof. solve_decision. Defined.

(** The fixed stylesheet, carried inline in every page. *)
Definition MOTHER_CSS : str :=
  lit "*{box-sizing:border-box}" ++ [LF] ++
  lit "html{-webkit-text-size-adjust:100%;text-size-adjust:100%}" ++ [LF] ++
  lit "body{margin:0;font-family:system-ui,sans-serif;font-size:1rem;line-height:1.5;color:#1d1b18;background:#fdfaf5}" ++ [LF] ++
  lit "header,main,footer{max-width:60rem;margin:0 auto;padding:1rem}" ++ [LF] ++
  lit "header{border-bottom:1px solid #e4ddd2}" ++ [LF] ++
  lit "footer{border-top:1px solid #e4ddd2;color:#5b554d}" ++ [LF] ++
  lit "section{margin:0 0 1.5rem}" ++ [LF] ++
  lit "h1,h2,h3{line-height:1.2;margin:0 0 .5rem}" ++ [LF] ++
  lit "h1{font-size:2rem}" ++ [LF] ++
  lit "h2{font-size:1.5rem}" ++ [LF] ++
  lit "h3{font-size:1.25rem}" ++ [LF] ++
  lit "p,ul,ol,address{margin:0 0 1rem}" ++ [LF] ++
  lit "ul,ol{padding-left:1.25rem}" ++ [LF] ++
  lit "address{font-style:normal}" ++ [LF] ++
  lit "h1,h2,h3,p,li,address{overflow-wrap:anywhere}" ++ [LF] ++
  lit ".lead{font-size:1.125rem}" ++ [LF] ++
  lit ".muted{color:#5b554d}" ++ [LF] ++
  lit ".center{text-align:center}" ++ [LF] ++
  lit ".note{padding:.75rem;border:1px solid #e4ddd2;border-radius:.25rem}" ++ [LF] ++
  lit ".plain{list-style:none;padding-left:0}" ++ [LF].

(** ** Every declared rule ([PolicyParams]) *)
Module Policy.
Record t := Mk {
  version : Z;
  max_page_bytes : Z;
  control_ranges : list (Z * Z);
  invisible_ranges : list (Z * Z);
  profile_ranges : list (Z * Z);
  controls_rule : str;
  lexical_priority : str;
  lexical_scan : str;
  script_tag : str;
  style_tag : str;
  head_tags : list str;
  body_tags : list Tag.t;
  event_prefix : str;
  style_attribute : str;
  url_attributes : list str;
  prologue_attributes : list str;
  body_attributes : str * str;
  declarations : list (str * RefusalCode.t);
  entities : list (Z * str);
  needles : list (str * RefusalCode.t);
  head_segments : str * str * str * str;
  epilogue : str;
  css : str;
  lang_rule : str;
  content_model : str;
  classes : list Class.t;
  id_rule : str;
  max_depth : Z;
  max_elements : Z;
  max_word_chars : Z;
  max_title_chars : Z;
  max_id_chars : Z;
  caps_rule : str;
  refusal_order : str;
  refusal_codes : list RefusalCode.t;
  flatten_text : str;
  flatten_words : str;
  spacing : str;
  canonical : str;
  matching : str;
  fc1 : str;
  fc2 : str;
  fc3 : str;
  fc4 : str;
  facts_construction : str;
  facts_name_max_chars : Z;
  facts_value_min_chars : Z;
  facts_value_max_chars : Z;
  facts_hours_min_lines : Z;
  facts_hours_max_lines : Z;
  phone_min_digits : Z;
  phone_max_digits : Z;
  phone_chars : list Z;
  phone_shape : str;
  phone_max_non_digit_run : Z;
  fc4_threshold : Z;
  fc4_separators : list Z;
  label_passed : str;
  label_refused_prefix : str;
  facts_line_template : str;
}.

Definition POLICY_V1 : t := {|
  version := 1;
  max_page_bytes := 65536;
  control_ranges := [(0, 31); (127, 159)];
  invisible_ranges := [(173, 173); (847, 847); (1564, 1564); (4447, 4448); (6158, 6158);
    (8203, 8207); (8232, 8238); (8288, 8303); (12644, 12644); (65024, 65039); (65279, 65279);
    (65440, 65440); (65529, 65531); (917504, 917631); (917760, 917999)];
  profile_ranges := [(32, 126); (161, 172); (174, 255); (256, 383); (8210, 8212); (8216, 8223);
    (8226, 8226); (8230, 8230); (8364, 8364); (8482, 8482)];
  controls_rule := lit "controls:v1:U+000A=separator-only;U+000D=carriage_return;" ++
    lit "U+FEFF-at-0=byte_order_mark;control_ranges=control_char;" ++
    lit "invisible_ranges=invisible_char;outside-profile_ranges=char_not_allowed";
  lexical_priority := lit "lexical-priority:v1:tag(script_tag)>tag(style_tag-after-first)>tag(not-allowed)>tag(" ++
    lit "case)>attr(event_prefix*)>attr(style_attribute)>attr(url_attributes)>attr(not-allowe" ++
    lit "d)>declarations(in-order;<!-not-at-0)>entities>needles(in-order);" ++
    lit "report=first-code-in-refusal_codes-at-its-first-offset";
  lexical_scan := lit "lexical-scan:v1:s1=whole-input,unless-too_large-alone;" ++
    lit "tags=html-data-state-from-every-lt-letter-or-lt-slash-letter;" ++
    lit "tag-and-dangerous-attribute-names=ascii-case-insensitive;allowed-attributes=exact;" ++
    lit "declarations,entities,needles=every-offset;needles=ascii-case-insensitive;" ++
    lit "entities=exact";
  script_tag := lit "script";
  style_tag := lit "style";
  head_tags := [lit "html"; lit "head"; lit "body"; lit "meta"; lit "title"; lit "style"];
  body_tags := [Tag.Header; Tag.Main; Tag.Footer; Tag.Section; Tag.H1; Tag.H2; Tag.H3; Tag.P;
    Tag.Address; Tag.Ul; Tag.Ol; Tag.Li; Tag.Strong; Tag.Em; Tag.Small; Tag.Br];
  event_prefix := lit "on";
  style_attribute := lit "style";
  url_attributes := [lit "href"; lit "src"; lit "srcset"; lit "action"; lit "formaction";
    lit "poster"; lit "background"; lit "cite"; lit "data"; lit "ping"; lit "manifest";
    lit "xlink:href"];
  prologue_attributes := [lit "lang"; lit "charset"; lit "name"; lit "content"];
  body_attributes := (lit "class",
    lit "id");
  declarations := [(lit "<!--", RefusalCode.Comment); (lit "<!", RefusalCode.MarkupDeclaration);
    (lit "<?", RefusalCode.ProcessingInstruction)];
  entities := [(38, lit "&amp;"); (60, lit "&lt;"); (62, lit "&gt;"); (34, lit "&quot;");
    (39, lit "&#39;")];
  needles := [(lit "://", RefusalCode.RemoteReference); (lit "url(", RefusalCode.CssUrl);
    (lit "@import", RefusalCode.CssImport); (lit "javascript:", RefusalCode.JavascriptScheme);
    (lit "data:", RefusalCode.DataScheme)];
  head_segments := (lit "<!doctype html>" ++
    [LF] ++
    js "<html lang=`",
    js "`>" ++
    [LF] ++
    lit "<head>" ++
    [LF] ++
    js "<meta charset=`utf-8`>" ++
    [LF] ++
    js "<meta name=`viewport` content=`width=device-width, initial-scale=1`>" ++
    [LF] ++
    lit "<title>",
    lit "</title>" ++
    [LF] ++
    lit "<style>" ++
    [LF],
    lit "</style>" ++
    [LF] ++
    lit "</head>" ++
    [LF] ++
    lit "<body>" ++
    [LF]);
  epilogue := lit "</body>" ++
    [LF] ++
    lit "</html>" ++
    [LF];
  css := MOTHER_CSS;
  lang_rule := lit "lang:v1:[a-z]{2}(-[A-Z]{2})?";
  content_model := lit "cm:v1:body=header?,main,footer?;main=(section|block)+;header=block+;footer=block+;" ++
    lit "section=block+;block=h1|h2|h3|p|address|ul|ol;ul=li+;ol=li+;" ++
    lit "leaf=h1|h2|h3|p|address|li;leaf=inline+;span=strong|em|small;span=inline+;" ++
    lit "inline=text|br|span;title=text;attrs=class?,id?;br=void,no-attrs";
  classes := [Class.Lead; Class.Muted; Class.Center; Class.Note; Class.Plain];
  id_rule := lit "id:v1:[a-z][a-z0-9-]*;chars<=max_id_chars;unique-per-document";
  max_depth := 8;
  max_elements := 400;
  max_word_chars := 40;
  max_title_chars := 80;
  max_id_chars := 32;
  caps_rule := lit "caps:v1:bytes<=max_page_bytes;depth<=max_depth(body-children=1,br-counts);" ++
    lit "elements-in-body<=max_elements(br-counts);word-chars<=max_word_chars;" ++
    lit "title-chars=1..max_title_chars(decoded);id-chars<=max_id_chars;" ++
    lit "chars=unicode-scalar-values";
  refusal_order := lit "refusal-order:v1:s1>s2>s3>s4;s1,s2=refusal_codes-order;s3=first-in-document-order;" ++
    lit "s4=first-differing-byte";
  refusal_codes := RefusalCode.CODES;
  flatten_text := lit "flatten-text:v1:spans-joined;br=U+0020";
  flatten_words := lit "flatten-words:v1:spans-joined;br=break;split=U+0020";
  spacing := lit "spacing:v1:leaf-flattened-text,title;no-U+000A;no-leading-space;no-trailing-space;" ++
    lit "no-double-space;no-space-next-to-br;no-br-first;no-br-last;no-br-br";
  canonical := lit "canonical:v1:no-indent;block-lf;class-then-id;entities=5;" ++
    lit "s3-superset=attr-order,raw-quotes,missing-lf";
  matching := lit "match:v1:decoded-element-text-byte-exact";
  fc1 := lit "fc1:v1:one-h1;h1=name;title=name";
  fc2 := lit "fc2:v1:each-line=text(li|p)";
  fc3 := lit "fc3:v1:text(any-element,leaf-included)=phone";
  fc4 := lit "fc4:v1:tokens(leaf,title);digits=ascii;sep=fc4_separators;phone-like>=fc4_threshold;" ++
    lit "eq=phone-digits";
  facts_construction := lit "facts-construction:v1:value-chars=facts_value_min_chars..facts_value_max_chars;" ++
    lit "name-chars<=facts_name_max_chars;" ++
    lit "hours-lines=facts_hours_min_lines..facts_hours_max_lines;s1-characters;spacing:v1;" ++
    lit "no-needle;phone=phone-shape:v1;no-phone-like-token(name,hours)";
  facts_name_max_chars := 80;
  facts_value_min_chars := 1;
  facts_value_max_chars := 120;
  facts_hours_min_lines := 1;
  facts_hours_max_lines := 7;
  phone_min_digits := 7;
  phone_max_digits := 15;
  phone_chars := [48; 49; 50; 51; 52; 53; 54; 55; 56; 57; 32; 45; 46; 40; 41; 43];
  phone_shape := lit "phone-shape:v1:chars=phone_chars;plus=single-leading;start=+|(|digit;end=digit;" ++
    lit "non-digit-run<=phone_max_non_digit_run;digits=phone_min_digits..phone_max_digits;" ++
    lit "digits=ascii";
  phone_max_non_digit_run := 2;
  fc4_threshold := 7;
  fc4_separators := [32; 45; 46; 40; 41; 47; 43; 8210; 8211; 8212];
  label_passed := lit "inert page check: passed (not rendered)";
  label_refused_prefix := lit "inert page check: refused";
  facts_line_template := lit "facts present as given: name, hours ({n} lines), phone"
|}.
End Policy.

Abbreviation POLICY_V1 := Policy.POLICY_V1.
Definition LABEL_PASSED : str := Policy.label_passed POLICY_V1.

(** ** The policy hash ([Enc], [hash_params]) *)
Module Enc.
Definition head (name : str) (kind : Z) (count : option nat) : bytes :=
  put (as_bytes name) ++ [kind] ++
  match count with Some n => to_be_bytes 8 (Z.of_nat n) | None => [] end.
Definition num (name : str) (v : Z) : bytes := head name 1 None ++ to_be_bytes 8 v.
Definition text (name : str) (v : str) : bytes := head name 2 None ++ put (as_bytes v).
Definition texts (name : str) (v : list str) : bytes :=
  head name 3 (Some (length v)) ++ (v ≫= λ s, put (as_bytes s)).
Definition ranges (name : str) (v : list (Z * Z)) : bytes :=
  head name 4 (Some (length v)) ++ (v ≫= λ r, to_be_bytes 4 r.1 ++ to_be_bytes 4 r.2).
Definition chars (name : str) (v : list Z) : bytes :=
  head name 5 (Some (length v)) ++ (v ≫= λ c, to_be_bytes 4 c).
Definition pairs (name : str) (v : list (str * str)) : bytes :=
  head name 6 (Some (length v)) ++ (v ≫= λ p, put (as_bytes p.1) ++ put (as_bytes p.2)).
Definition digest (name : str) (v : bytes) : bytes := head name 7 None ++ v.
End Enc.

Definition coded (v : list (str * RefusalCode.t)) : list (str * str) :=
  (λ p, (p.1, RefusalCode.as_str p.2)) <$> v.

Definition segments (s : str * str * str * str) : list str :=
  let '(a, b, c, d) := s in [a; b; c; d].

Definition POLICY_DOMAIN : bytes := lit "nexus.inert_page.policy.v1".

Section PolicyHash.
Context (sha2 : bytes → bytes).
Import Policy Enc.

Definition policy_preimage (p : Policy.t) : bytes :=
  put POLICY_DOMAIN ++
  num (lit "version") (version p) ++
  num (lit "max_page_bytes") (max_page_bytes p) ++
  ranges (lit "control_ranges") (control_ranges p) ++
  ranges (lit "invisible_ranges") (invisible_ranges p) ++
  ranges (lit "profile_ranges") (profile_ranges p) ++
  text (lit "controls_rule") (controls_rule p) ++
  text (lit "lexical_priority") (lexical_priority p) ++
  text (lit "lexical_scan") (lexical_scan p) ++
  text (lit "script_tag") (script_tag p) ++
  text (lit "style_tag") (style_tag p) ++
  texts (lit "head_tags") (head_tags p) ++
  texts (lit "body_tags") (Tag.name <$> body_tags p) ++
  text (lit "event_prefix") (event_prefix p) ++
  text (lit "style_attribute") (style_attribute p) ++
  texts (lit "url_attributes") (url_attributes p) ++
  texts (lit "prologue_attributes") (prologue_attributes p) ++
  texts (lit "body_attributes") [(body_attributes p).1; (body_attributes p).2] ++
  pairs (lit "declarations") (coded (declarations p)) ++
  pairs (lit "entities") ((λ e, ([e.1], e.2)) <$> entities p) ++
  pairs (lit "needles") (coded (needles p)) ++
  texts (lit "head_segments") (segments (head_segments p)) ++
  text (lit "epilogue") (epilogue p) ++
  digest (lit "css") (sha2 (as_bytes (css p))) ++
  text (lit "lang_rule") (lang_rule p) ++
  text (lit "content_model") (content_model p) ++
  texts (lit "classes") (Class.name <$> classes p) ++
  text (lit "id_rule") (id_rule p) ++
  num (lit "max_depth") (max_depth p) ++
  num (lit "max_elements") (max_elements p) ++
  num (lit "max_word_chars") (max_word_chars p) ++
  num (lit "max_title_chars") (max_title_chars p) ++
  num (lit "max_id_chars") (max_id_chars p) ++
  text (lit "caps_rule") (caps_rule p) ++
  text (lit "refusal_order") (refusal_order p) ++
  texts (lit "refusal_codes") (RefusalCode.as_str <$> refusal_codes p) ++
  text (lit "flatten_text") (flatten_text p) ++
  text (lit "flatten_words") (flatten_words p) ++
  text (lit "spacing") (spacing p) ++
  text (lit "canonical") (canonical p) ++
  text (lit "matching") (matching p) ++
  text (lit "fc1") (fc1 p) ++
  text (lit "fc2") (fc2 p) ++
  text (lit "fc3") (fc3 p) ++
  text (lit "fc4") (fc4 p) ++
  text (lit "facts_construction") (facts_construction p) ++
  num (lit "facts_name_max_chars") (facts_name_max_chars p) ++
  num (lit "facts_value_min_chars") (facts_value_min_chars p) ++
  num (lit "facts_value_max_chars") (facts_value_max_chars p) ++
  num (lit "facts_hours_min_lines") (facts_hours_min_lines p) ++
  num (lit "facts_hours_max_lines") (facts_hours_max_lines p) ++
  num (lit "phone_min_digits") (phone_min_digits p) ++
  num (lit "phone_max_digits") (phone_max_digits p) ++
  chars (lit "phone_chars") (phone_chars p) ++
  text (lit "phone_shape") (phone_shape p) ++
  num (lit "phone_max_non_digit_run") (phone_max_non_digit_run p) ++
  num (lit "fc4_threshold") (fc4_threshold p) ++
  chars (lit "fc4_separators") (fc4_separators p) ++
  text (lit "label_passed") (label_passed p) ++
  text (lit "label_refused_prefix") (label_refused_prefix p) ++
  text (lit "facts_line_template") (facts_line_template p).

Definition hash_params (p : Policy.t) : bytes := sha2 (policy_preimage p).
Definition policy_hash : bytes := hash_params POLICY_V1.
End PolicyHash.
