(* ===== verification/PageTree.v ===== *)
(** * The typed page tree and its canonical serialization

    [kernel/src/inert_page/tree.rs]: the tree, and [write_page], which appends to
    a buffer that stops growing past a limit and walks inline content with an
    explicit stack. [render] is the recursive reference: the writer agrees with it
    whenever the page fits the limit. *)

From S2P Require Import Prelude Evidence PagePolicy.

Local Open Scope Z_scope.
#[local] Arguments lit : simpl never.
#[local] Arguments js : simpl never.

Record Attrs := MkAttrs { a_class : option Class.t; a_id : option str }.
Definition Attrs_default : Attrs := MkAttrs None None.

(** Inline content; text is held decoded. A leaf block, list item or span has
    attributes and inline content. *)
Inductive Inline : Set :=
| IText (t : str)
| IBr
| IStrong (l : Leaf)
| IEm (l : Leaf)
| ISmall (l : Leaf)
with Leaf : Set :=
| MkLeaf (l_attrs : Attrs) (l_inlines : list Inline).

Definition leaf_attrs (l : Leaf) : Attrs := let 'MkLeaf a _ := l in a.
Definition leaf_inlines (l : Leaf) : list Inline := let 'MkLeaf _ i := l in i.

Record List_ := MkList { li_attrs : Attrs; li_items : list Leaf }.

Module Block.
Inductive t :=
| H1 (l : Leaf) | H2 (l : Leaf) | H3 (l : Leaf) | P (l : Leaf) | Address (l : Leaf)
| Ul (l : List_) | Ol (l : List_).
End Block.

Record Section_ := MkSection { se_attrs : Attrs; se_blocks : list Block.t }.

Module MainItem.
Inductive t := Section_ (s : Section_) | Block_ (b : Block.t).
End MainItem.

Record Region := MkRegion { re_attrs : Attrs; re_blocks : list Block.t }.
Record Main_ := MkMain { ma_attrs : Attrs; ma_items : list MainItem.t }.

Record Page := MkPage {
  lang : str;
  title : str;
  header : option Region;
  main : Main_;
  footer : option Region;
}.

(** ** Induction over inline content *)

Section InlineInd.
Context (P : Inline → Prop) (Q : list Inline → Prop).
Context (Htext : ∀ t, P (IText t)) (Hbr : P IBr).
Context (Hstrong : ∀ a l, Q l → P (IStrong (MkLeaf a l))).
Context (Hem : ∀ a l, Q l → P (IEm (MkLeaf a l))).
Context (Hsmall : ∀ a l, Q l → P (ISmall (MkLeaf a l))).
Context (Hnil : Q []) (Hcons : ∀ i l, P i → Q l → Q (i :: l)).

Fixpoint inline_ind' (i : Inline) : P i :=
  let list_ind := fix go (l : list Inline) : Q l :=
    match l with [] => Hnil | i :: l => Hcons i l (inline_ind' i) (go l) end in
  match i with
  | IText t => Htext t
  | IBr => Hbr
  | IStrong (MkLeaf a l) => Hstrong a l (list_ind l)
  | IEm (MkLeaf a l) => Hem a l (list_ind l)
  | ISmall (MkLeaf a l) => Hsmall a l (list_ind l)
  end.

Lemma inlines_ind (l : list Inline) : Q l.
Proof. induction l; auto using inline_ind'. Qed.
End InlineInd.

(** ** Equality *)

#[export] Instance Attrs_eq_dec : EqDecision Attrs.
Proof. solve_decision. Defined.

Fixpoint inline_eq_dec (x y : Inline) {struct x} : Decision (x = y) :=
  let leaf_dec (l k : Leaf) : Decision (l = k) :=
    match l, k with
    | MkLeaf a i, MkLeaf b j =>
        match decide (a = b), @list_eq_dec _ inline_eq_dec i j with
        | left H1, left H2 => left (f_equal2 MkLeaf H1 H2)
        | right H, _ => right (λ E : MkLeaf a i = MkLeaf b j, H (f_equal leaf_attrs E))
        | _, right H => right (λ E : MkLeaf a i = MkLeaf b j, H (f_equal leaf_inlines E))
        end
    end in
  ltac:(refine
    match x, y with
    | IText t, IText u => match decide (t = u) with left H => left (f_equal IText H) | right H => right _ end
    | IBr, IBr => left eq_refl
    | IStrong l, IStrong k => match leaf_dec l k with left H => left (f_equal IStrong H) | right H => right _ end
    | IEm l, IEm k => match leaf_dec l k with left H => left (f_equal IEm H) | right H => right _ end
    | ISmall l, ISmall k => match leaf_dec l k with left H => left (f_equal ISmall H) | right H => right _ end
    | _, _ => right _
    end; congruence).
#[export] Instance Inline_eq_dec : EqDecision Inline := inline_eq_dec.
#[export] Instance Leaf_eq_dec : EqDecision Leaf.
Proof. solve_decision. Defined.
#[export] Instance List_eq_dec : EqDecision List_.
Proof. solve_decision. Defined.
#[export] Instance Block_eq_dec : EqDecision Block.t.
Proof. solve_decision. Defined.
#[export] Instance Section_eq_dec : EqDecision Section_.
Proof. solve_decision. Defined.
#[export] Instance MainItem_eq_dec : EqDecision MainItem.t.
Proof. solve_decision. Defined.
#[export] Instance Region_eq_dec : EqDecision Region.
Proof. solve_decision. Defined.
#[export] Instance Main_eq_dec : EqDecision Main_.
Proof. solve_decision. Defined.
#[export] Instance Page_eq_dec : EqDecision Page.
Proof. solve_decision. Defined.

(** ** The writer *)

Record Writer := MkWriter { w_out : bytes; w_limit : Z }.

Definition raw (s : str) (w : Writer) : Writer :=
  if Z.of_nat (length (w_out w)) <=? w_limit w then MkWriter (w_out w ++ as_bytes s) (w_limit w)
  else w.

Definition entity_of (c : Z) : option str :=
  snd <$> List.find (λ p, p.1 =? c) (Policy.entities POLICY_V1).

Fixpoint text (s : str) (w : Writer) : Writer :=
  match s with
  | [] => w
  | c :: s =>
      if w_limit w <? Z.of_nat (length (w_out w)) then w
      else text s (match entity_of c with Some entity => raw entity w | None => raw [c] w end)
  end.

Definition attribute (name : str) (value : option str) (w : Writer) : Writer :=
  match value with
  | Some v => raw (js "`") (raw v (raw (js "=`") (raw name (raw (lit " ") w))))
  | None => w
  end.

Definition open_tag (tag : Tag.t) (attrs : Attrs) (w : Writer) : Writer :=
  let '(class_name, id_name) := Policy.body_attributes POLICY_V1 in
  let w := raw (Tag.name tag) (raw (lit "<") w) in
  let w := attribute class_name (Class.name <$> a_class attrs) w in
  let w := attribute id_name (a_id attrs) w in
  raw (lit ">") w.

Definition close_tag (tag : Tag.t) (w : Writer) : Writer :=
  raw (lit ">") (raw (Tag.name tag) (raw (lit "</") w)).

Definition container (tag : Tag.t) (attrs : Attrs) (children : Writer → Writer) (w : Writer) : Writer :=
  raw [LF] (close_tag tag (children (raw [LF] (open_tag tag attrs w)))).

(** The steps of the explicit stack: one per node and one per list end. *)
Fixpoint inline_steps (i : Inline) : nat :=
  let steps := fix go l := match l with [] => 1%nat | i :: l => (inline_steps i + go l)%nat end in
  match i with
  | IText _ | IBr => 1%nat
  | IStrong (MkLeaf _ l) | IEm (MkLeaf _ l) | ISmall (MkLeaf _ l) => S (steps l)
  end.
Fixpoint list_steps (l : list Inline) : nat :=
  match l with [] => 1%nat | i :: l => (inline_steps i + list_steps l)%nat end.

Definition span_of (i : Inline) : option (Tag.t * Leaf) :=
  match i with
  | IStrong s => Some (Tag.Strong, s)
  | IEm s => Some (Tag.Em, s)
  | ISmall s => Some (Tag.Small, s)
  | _ => None
  end.

Fixpoint inlines_loop (fuel : nat) (stack : list (list Inline * option Tag.t)) (w : Writer) : Writer :=
  match fuel, stack with
  | O, _ | _, [] => w
  | S fuel, ([], tag) :: stack =>
      inlines_loop fuel stack (match tag with Some t => close_tag t w | None => w end)
  | S fuel, (item :: items, tag) :: stack =>
      match item, span_of item with
      | IText t, _ => inlines_loop fuel ((items, tag) :: stack) (text t w)
      | IBr, _ => inlines_loop fuel ((items, tag) :: stack) (open_tag Tag.Br Attrs_default w)
      | _, Some (t, span) =>
          inlines_loop fuel ((leaf_inlines span, Some t) :: (items, tag) :: stack)
            (open_tag t (leaf_attrs span) w)
      | _, None => w
      end
  end.

Definition inlines (l : list Inline) (w : Writer) : Writer :=
  inlines_loop (list_steps l) [(l, None)] w.

Definition leaf (tag : Tag.t) (l : Leaf) (w : Writer) : Writer :=
  raw [LF] (close_tag tag (inlines (leaf_inlines l) (open_tag tag (leaf_attrs l) w))).

Definition list_ (tag : Tag.t) (l : List_) (w : Writer) : Writer :=
  container tag (li_attrs l) (λ w, foldl (λ w li, leaf Tag.Li li w) w (li_items l)) w.

Definition block (b : Block.t) (w : Writer) : Writer :=
  match b with
  | Block.H1 l => leaf Tag.H1 l w
  | Block.H2 l => leaf Tag.H2 l w
  | Block.H3 l => leaf Tag.H3 l w
  | Block.P l => leaf Tag.P l w
  | Block.Address l => leaf Tag.Address l w
  | Block.Ul l => list_ Tag.Ul l w
  | Block.Ol l => list_ Tag.Ol l w
  end.

Definition blocks (bs : list Block.t) (w : Writer) : Writer := foldl (λ w b, block b w) w bs.

Definition main_item (item : MainItem.t) (w : Writer) : Writer :=
  match item with
  | MainItem.Section_ s => container Tag.Section (se_attrs s) (blocks (se_blocks s)) w
  | MainItem.Block_ b => block b w
  end.

Definition region (tag : Tag.t) (r : option Region) (w : Writer) : Writer :=
  match r with
  | Some r => container tag (re_attrs r) (blocks (re_blocks r)) w
  | None => w
  end.

(** The canonical bytes of [page], stopping once more than [limit] bytes are
    written. *)
Definition write_page (page : Page) (limit : Z) : bytes :=
  let '(head, after_lang, after_title, after_css) := Policy.head_segments POLICY_V1 in
  let w := MkWriter [] limit in
  let w := raw after_lang (raw (lang page) (raw head w)) in
  let w := raw after_title (text (title page) w) in
  let w := raw after_css (raw (Policy.css POLICY_V1) w) in
  let w := region Tag.Header (header page) w in
  let w := container Tag.Main (ma_attrs (main page))
             (λ w, foldl (λ w item, main_item item w) w (ma_items (main page))) w in
  let w := region Tag.Footer (footer page) w in
  w_out (raw (Policy.epilogue POLICY_V1) w).

(** [serialize]: a buffer never reaches [usize::MAX] bytes. *)
Definition serialize (page : Page) : bytes := write_page page u64_max.

(** ** The recursive reference *)

Definition escape_char (c : Z) : str := match entity_of c with Some e => e | None => [c] end.
Definition escape (s : str) : str := s ≫= escape_char.

Definition render_attr (name : str) (value : option str) : str :=
  match value with Some v => lit " " ++ name ++ js "=`" ++ v ++ js "`" | None => [] end.
Definition render_attrs (a : Attrs) : str :=
  render_attr (lit "class") (Class.name <$> a_class a) ++ render_attr (lit "id") (a_id a).
Definition render_open (tag : Tag.t) (a : Attrs) : str :=
  lit "<" ++ Tag.name tag ++ render_attrs a ++ lit ">".
Definition render_close (tag : Tag.t) : str := lit "</" ++ Tag.name tag ++ lit ">".

Fixpoint render_inline (i : Inline) : str :=
  let render_list := fix go l := match l with [] => [] | i :: l => render_inline i ++ go l end in
  match i with
  | IText t => escape t
  | IBr => render_open Tag.Br Attrs_default
  | IStrong (MkLeaf a l) => render_open Tag.Strong a ++ render_list l ++ render_close Tag.Strong
  | IEm (MkLeaf a l) => render_open Tag.Em a ++ render_list l ++ render_close Tag.Em
  | ISmall (MkLeaf a l) => render_open Tag.Small a ++ render_list l ++ render_close Tag.Small
  end.
Definition render_inlines (l : list Inline) : str := l ≫= render_inline.

Definition render_leaf (tag : Tag.t) (l : Leaf) : str :=
  render_open tag (leaf_attrs l) ++ render_inlines (leaf_inlines l) ++ render_close tag ++ [LF].
Definition render_container (tag : Tag.t) (a : Attrs) (children : str) : str :=
  render_open tag a ++ [LF] ++ children ++ render_close tag ++ [LF].

Definition block_parts (b : Block.t) : Tag.t * (Leaf + List_) :=
  match b with
  | Block.H1 l => (Tag.H1, inl l)
  | Block.H2 l => (Tag.H2, inl l)
  | Block.H3 l => (Tag.H3, inl l)
  | Block.P l => (Tag.P, inl l)
  | Block.Address l => (Tag.Address, inl l)
  | Block.Ul l => (Tag.Ul, inr l)
  | Block.Ol l => (Tag.Ol, inr l)
  end.
Definition render_block (b : Block.t) : str :=
  match block_parts b with
  | (tag, inl l) => render_leaf tag l
  | (tag, inr l) => render_container tag (li_attrs l) (li_items l ≫= render_leaf Tag.Li)
  end.
Definition render_item (i : MainItem.t) : str :=
  match i with
  | MainItem.Section_ s =>
      render_container Tag.Section (se_attrs s) (se_blocks s ≫= render_block)
  | MainItem.Block_ b => render_block b
  end.
Definition render_region (tag : Tag.t) (r : option Region) : str :=
  match r with
  | Some r => render_container tag (re_attrs r) (re_blocks r ≫= render_block)
  | None => []
  end.
Definition render_main (m : Main_) : str :=
  render_container Tag.Main (ma_attrs m) (ma_items m ≫= render_item).

Definition render (page : Page) : str :=
  let '(head, after_lang, after_title, after_css) := Policy.head_segments POLICY_V1 in
  head ++ lang page ++ after_lang ++ escape (title page) ++ after_title ++
  Policy.css POLICY_V1 ++ after_css ++
  render_region Tag.Header (header page) ++ render_main (main page) ++
  render_region Tag.Footer (footer page) ++ Policy.epilogue POLICY_V1.

Lemma render_span a l tag i :
  span_of i = Some (tag, MkLeaf a l) →
  render_inline i = render_open tag a ++ render_inlines l ++ render_close tag.
Proof.
  assert (Hl : ∀ l, (fix go l := match l with [] => [] | i :: l => render_inline i ++ go l end) l
    = render_inlines l) by (induction l0; simpl; [done|]; by rewrite IHl0).
  destruct i as [| |[]|[]|[]]; simpl; intros; simplify_eq; by rewrite Hl.
Qed.

(** ** The writer writes the reference *)

(** The buffer holds [full], or both are past the limit. *)
Definition agrees (limit : Z) (w : Writer) (full : str) : Prop :=
  w_limit w = limit ∧
  (w_out w = as_bytes full ∨ (limit < Z.of_nat (length (w_out w)) ∧ limit < str_len full)).

Definition writes (op : Writer → Writer) (t : str) : Prop :=
  ∀ limit w full, agrees limit w full → agrees limit (op w) (full ++ t).

Lemma writes_id : writes (λ w, w) [].
Proof. intros limit w full. by rewrite app_nil_r. Qed.

Lemma writes_raw s : writes (raw s) s.
Proof.
  intros limit w full [Hl Hw]. unfold raw, agrees. rewrite str_len_app, as_bytes_app, Hl.
  pose proof (str_len_nonneg s). destruct (Z.leb_spec (Z.of_nat (length (w_out w))) limit); simpl.
  - split; [done|]. left. destruct Hw as [->|[? _]]; [done|lia].
  - split; [done|]. right. destruct Hw as [E|[? ?]]; [|lia]. unfold str_len in *. rewrite <- E. lia.
Qed.

Lemma writes_then f g a b : writes f a → writes g b → writes (λ w, g (f w)) (a ++ b).
Proof. intros Hf Hg limit w full H. rewrite app_assoc. auto. Qed.

Lemma writes_text s : writes (text s) (escape s).
Proof.
  induction s as [|c s IH]; [apply writes_id|]. intros limit w full H. cbn [text].
  destruct (Z.ltb_spec (w_limit w) (Z.of_nat (length (w_out w)))) as [Hlt|_].
  - destruct H as [Hl Hw]. split; [done|]. right. rewrite <- Hl, str_len_app.
    pose proof (str_len_nonneg (escape (c :: s))). destruct Hw as [E|[? ?]]; [|lia].
    unfold str_len in *. rewrite <- E. lia.
  - change (escape (c :: s)) with (escape_char c ++ escape s). rewrite app_assoc. apply IH.
    unfold escape_char. destruct (entity_of c); by apply writes_raw.
Qed.

Lemma writes_foldl {A} (f : A → Writer → Writer) (g : A → str) (l : list A) :
  (∀ x, x ∈ l → writes (f x) (g x)) → writes (λ w, foldl (λ w x, f x w) w l) (l ≫= g).
Proof.
  induction l as [|x l IH]; intros H; [apply writes_id|]. rewrite bind_cons. simpl.
  apply (writes_then (f x) (λ w, foldl (λ w x, f x w) w l)); [apply H; set_solver|].
  apply IH. set_solver.
Qed.

Create HintDb writer discriminated.

(** Peels a composition of writer operations from its last one. *)
Ltac writer :=
  cbv beta iota; rewrite ?app_assoc;
  repeat lazymatch goal with
  | |- writes (λ w, raw ?s w) _ => apply (writes_raw s)
  | |- writes (λ w, raw _ (@?f w)) _ => apply (writes_then f (raw _))
  | |- writes (λ w, attribute _ _ (@?f w)) _ => apply (writes_then f (attribute _ _))
  | |- writes (λ w, close_tag _ (@?f w)) _ => apply (writes_then f (close_tag _))
  | |- writes (λ w, inlines _ (@?f w)) _ => apply (writes_then f (inlines _))
  | |- writes (λ w, region _ _ (@?f w)) _ => apply (writes_then f (region _ _))
  | |- writes (λ w, container ?t ?a ?c (@?f w)) _ => apply (writes_then f (container t a c))
  | |- writes (λ w, text _ (@?f w)) _ => apply (writes_then f (text _))
  | |- _ => solve [auto with writer]
  end.
#[local] Hint Resolve writes_id writes_raw writes_text : writer.

Lemma writes_attribute name value : writes (attribute name value) (render_attr name value).
Proof. destruct value as [v|]; [|apply writes_id]. unfold attribute, render_attr. writer. Qed.
#[local] Hint Resolve writes_attribute : writer.

Lemma writes_open tag a : writes (open_tag tag a) (render_open tag a).
Proof.
  unfold render_open, render_attrs.
  change (open_tag tag a) with (λ w, raw (lit ">") (attribute (lit "id") (a_id a)
    (attribute (lit "class") (Class.name <$> a_class a) (raw (Tag.name tag) (raw (lit "<") w))))).
  writer.
Qed.

Lemma writes_close tag : writes (close_tag tag) (render_close tag).
Proof. unfold close_tag, render_close. writer. Qed.
#[local] Hint Resolve writes_open writes_close : writer.

Lemma writes_container tag a children t :
  writes children t → writes (container tag a children) (render_container tag a t).
Proof.
  intros H. unfold container, render_container. rewrite !app_assoc.
  apply (writes_then _ (raw _)); [|writer]. apply (writes_then _ (close_tag _)); [|writer].
  apply (writes_then _ children); [|done]. writer.
Qed.

(** The stack still to be walked, as text. *)
Fixpoint render_stack (stack : list (list Inline * option Tag.t)) : str :=
  match stack with
  | [] => []
  | (items, tag) :: stack =>
      render_inlines items ++ match tag with Some t => render_close t | None => [] end ++
      render_stack stack
  end.
Fixpoint stack_steps (stack : list (list Inline * option Tag.t)) : nat :=
  match stack with [] => 0%nat | (items, _) :: stack => (list_steps items + stack_steps stack)%nat end.

Lemma steps_span i tag a l :
  span_of i = Some (tag, MkLeaf a l) → inline_steps i = S (list_steps l).
Proof.
  assert (Hl : ∀ l, (fix go l := match l with [] => 1 | i :: l => inline_steps i + go l end)%nat l
    = list_steps l) by (induction l0; simpl; [done|]; by rewrite IHl0).
  destruct i as [| |[]|[]|[]]; simpl; intros; simplify_eq; by rewrite Hl.
Qed.

Lemma writes_loop fuel stack :
  (stack_steps stack ≤ fuel)%nat → writes (inlines_loop fuel stack) (render_stack stack).
Proof.
  revert stack. induction fuel as [|fuel IH]; intros stack Hf.
  { destruct stack as [|[[|[| |[]|[]|[]] l] tag] stack]; simpl in *; [apply writes_id|lia..]. }
  destruct stack as [|[[|item items] tag] stack]; simpl in Hf; [apply writes_id|..].
  - cbn [inlines_loop render_stack]. simpl.
    apply (writes_then (λ w, match tag with Some t => close_tag t w | None => w end)
      (inlines_loop fuel stack)); [|apply IH; lia].
    destruct tag; [apply writes_close|apply writes_id].
  - cbn [inlines_loop render_stack].
    change (render_inlines (item :: items)) with (render_inline item ++ render_inlines items).
    rewrite <- app_assoc.
    destruct (span_of item) as [[t [a l]]|] eqn:Es.
    + rewrite (render_span _ _ _ _ Es), <- !app_assoc. pose proof (steps_span _ _ _ _ Es).
      assert (Hw : writes (inlines_loop fuel ((l, Some t) :: (items, tag) :: stack))
        (render_stack ((l, Some t) :: (items, tag) :: stack))) by (apply IH; simpl; lia).
      pose proof (writes_then _ _ _ _ (writes_open t a) Hw) as Hww.
      destruct item; try discriminate Es; simplify_eq/=; exact Hww.
    + assert (Hw : writes (inlines_loop fuel ((items, tag) :: stack))
        (render_stack ((items, tag) :: stack))) by (apply IH; destruct item; try discriminate Es; simpl in *; lia).
      destruct item; try discriminate Es.
      * exact (writes_then _ _ _ _ (writes_text t) Hw).
      * exact (writes_then _ _ _ _ (writes_open Tag.Br Attrs_default) Hw).
Qed.

Lemma writes_inlines l : writes (inlines l) (render_inlines l).
Proof.
  pose proof (writes_loop (list_steps l) [(l, None)]) as H. simpl in H. rewrite !app_nil_r in H.
  apply H. simpl. lia.
Qed.
#[local] Hint Resolve writes_inlines : writer.

Lemma writes_leaf tag l : writes (leaf tag l) (render_leaf tag l).
Proof. unfold leaf, render_leaf. writer. Qed.

Lemma writes_list tag l :
  writes (list_ tag l) (render_container tag (li_attrs l) (li_items l ≫= render_leaf Tag.Li)).
Proof.
  exact (writes_container tag (li_attrs l) _ _
    (writes_foldl (leaf Tag.Li) (render_leaf Tag.Li) (li_items l) (λ x _, writes_leaf Tag.Li x))).
Qed.

Lemma writes_block b : writes (block b) (render_block b).
Proof.
  destruct b as [l|l|l|l|l|l|l];
    [exact (writes_leaf Tag.H1 l)|exact (writes_leaf Tag.H2 l)|exact (writes_leaf Tag.H3 l)
    |exact (writes_leaf Tag.P l)|exact (writes_leaf Tag.Address l)
    |exact (writes_list Tag.Ul l)|exact (writes_list Tag.Ol l)].
Qed.

Lemma writes_blocks bs : writes (blocks bs) (bs ≫= render_block).
Proof. exact (writes_foldl block render_block bs (λ x _, writes_block x)). Qed.

Lemma writes_item i : writes (main_item i) (render_item i).
Proof.
  destruct i as [s|b]; [|exact (writes_block b)].
  exact (writes_container Tag.Section (se_attrs s) _ _ (writes_blocks (se_blocks s))).
Qed.

Lemma writes_region tag r : writes (region tag r) (render_region tag r).
Proof.
  destruct r as [r|]; [|exact writes_id].
  exact (writes_container tag (re_attrs r) _ _ (writes_blocks (re_blocks r))).
Qed.

Lemma writes_main m :
  writes (container Tag.Main (ma_attrs m) (λ w, foldl (λ w item, main_item item w) w (ma_items m)))
    (render_main m).
Proof.
  exact (writes_container Tag.Main (ma_attrs m) _ _
    (writes_foldl main_item render_item (ma_items m) (λ x _, writes_item x))).
Qed.
#[local] Hint Resolve writes_region writes_main : writer.

(** The writer agrees with the reference: the page's canonical text where it fits
    the limit, and more than the limit's bytes where it does not. *)
Lemma write_page_spec page limit :
  0 ≤ limit →
  if str_len (render page) <=? limit then write_page page limit = as_bytes (render page)
  else limit < Z.of_nat (length (write_page page limit)).
Proof.
  intros Hl. unfold write_page, render.
  destruct (Policy.head_segments POLICY_V1) as [[[head after_lang] after_title] after_css].
  match goal with |- context [str_len ?full] => set (page_text := full) end.
  match goal with |- context [w_out ?w] => set (final := w) end.
  assert (Hw : agrees limit final ([] ++ page_text)).
  { subst final page_text.
    match goal with |- agrees _ ?w ([] ++ ?t) =>
      let op := eval pattern (MkWriter [] limit) in w in
      lazymatch op with ?op _ => enough (Hop : writes op t) by (apply Hop; by split; [|left]) end
    end. writer. }
  simpl in Hw. destruct Hw as [_ [E|[H1 H2]]].
  - rewrite E. unfold str_len. destruct (Z.leb_spec (Z.of_nat (length (as_bytes page_text))) limit); [done|lia].
  - destruct (Z.leb_spec (str_len page_text) limit); [lia|done].
Qed.

(** A page below the machine's limit is serialized as its canonical text. *)
Lemma serialize_render page : str_len (render page) ≤ u64_max → serialize page = as_bytes (render page).
Proof.
  intros H. pose proof (write_page_spec page u64_max ltac:(unfold u64_max; lia)) as Hs.
  destruct (Z.leb_spec (str_len (render page)) u64_max); [done|lia].
Qed.
