(* ===== verification/PageScan.v ===== *)
(** * Bytes, characters and lexical findings of a page

    [LexicalFindings] of [kernel/src/inert_page/mod.rs] and [scan.rs]: S1 (bytes
    and characters) and S2 (tags and attributes as an HTML tokenizer sees them;
    declarations, entities and needles at every offset) over the whole input. An
    index into the input is kept as the rest of the input with its offset. *)

From S2P Require Import Prelude Utf8 Evidence PagePolicy.

Local Open Scope Z_scope.
#[local] Arguments lit : simpl never.

(** ** Findings *)

Record LexicalFindings := MkFindings { seen : Z; first_at : list Z }.

Definition LexicalFindings_default : LexicalFindings :=
  MkFindings 0 (replicate (length RefusalCode.CODES) 0).

(** The numeric code: the index in [RefusalCode.CODES]. *)
Definition code_position (c : RefusalCode.t) : nat :=
  default 0%nat (position (λ x, bool_decide (x = c)) RefusalCode.CODES).

Definition to_u32 (n : Z) : Z := if n <=? u32_max then n else u32_max.

Definition note (code : RefusalCode.t) (offset : Z) (f : LexicalFindings) : LexicalFindings :=
  let i := code_position code in
  let offset := to_u32 offset in
  let first :=
    if negb (Z.testbit (seen f) (Z.of_nat i)) || (offset <? nth i (first_at f) 0)
    then <[i := offset]> (first_at f) else first_at f in
  MkFindings (Z.lor (seen f) (Z.shiftl 1 (Z.of_nat i))) first.

Definition found (f : LexicalFindings) (code : RefusalCode.t) : bool :=
  Z.testbit (seen f) (Z.of_nat (code_position code)).

Definition first_offset (f : LexicalFindings) (code : RefusalCode.t) : option Z :=
  if found f code then Some (nth (code_position code) (first_at f) 0) else None.

(** The codes found, in reporting order, and the finding that is reported. *)
Definition codes (f : LexicalFindings) : list RefusalCode.t :=
  filter (λ c, found f c = true) (Policy.refusal_codes POLICY_V1).

Definition first (f : LexicalFindings) : option (RefusalCode.t * Z) :=
  match codes f with
  | c :: _ => Some (c, nth (code_position c) (first_at f) 0)
  | [] => None
  end.

(** ** S1 *)

Definition in_ranges (ranges : list (Z * Z)) (c : Z) : bool :=
  existsb (λ '(lo, hi), (lo <=? c) && (c <=? hi)) ranges.

(** The code of one character at byte [at_], if it is refused. *)
Definition char_code (at_ c : Z) : option RefusalCode.t :=
  let p := POLICY_V1 in
  if c =? LF then None
  else if c =? 13 then Some RefusalCode.CarriageReturn
  else if (c =? 65279) && (at_ =? 0) then Some RefusalCode.ByteOrderMark
  else if in_ranges (Policy.control_ranges p) c then Some RefusalCode.ControlChar
  else if in_ranges (Policy.invisible_ranges p) c then Some RefusalCode.InvisibleChar
  else if negb (in_ranges (Policy.profile_ranges p) c) then Some RefusalCode.CharNotAllowed
  else None.

Fixpoint valid_chunk (at_ : Z) (s : str) (f : LexicalFindings) : LexicalFindings :=
  match s with
  | [] => f
  | c :: s =>
      valid_chunk (at_ + Z.of_nat (length (utf8_char c))) s
        (match char_code at_ c with Some code => note code at_ f | None => f end)
  end.

Fixpoint chunks (base : Z) (l : list (str * nat)) (f : LexicalFindings) : LexicalFindings :=
  match l with
  | [] => f
  | (valid, invalid) :: l =>
      let f := valid_chunk base valid f in
      let base := base + str_len valid in
      match invalid with
      | O => chunks base l f
      | S _ => chunks (base + Z.of_nat invalid) l (note RefusalCode.NotUtf8 base f)
      end
  end.

Definition characters (input : bytes) (f : LexicalFindings) : LexicalFindings :=
  chunks 0 (utf8_chunks input) f.

(** ** S2: tags and attributes *)

(** HTML's tag whitespace. *)
Definition is_space (b : Z) : bool :=
  (b =? 9) || (b =? 10) || (b =? 12) || (b =? 13) || (b =? 32).

Definition ascii_lower (b : Z) : Z := if is_ascii_uppercase b then b + 32 else b.
Definition to_ascii_lowercase (s : bytes) : bytes := ascii_lower <$> s.
Definition is_ascii_alphabetic (b : Z) : bool := is_ascii_lowercase b || is_ascii_uppercase b.

Definition allowed_tag (lower : bytes) : bool :=
  existsb (λ name, bool_decide (name = lower))
    ((Tag.name <$> Policy.body_tags POLICY_V1) ++ Policy.head_tags POLICY_V1).

Definition attribute_name (raw : bytes) (at_ : Z) (f : LexicalFindings) : LexicalFindings :=
  let p := POLICY_V1 in
  let lower := to_ascii_lowercase raw in
  if bool_decide (Policy.event_prefix p `prefix_of` lower) then note RefusalCode.EventHandler at_ f
  else if bool_decide (lower = Policy.style_attribute p) then note RefusalCode.StyleAttribute at_ f
  else if existsb (λ u, bool_decide (lower = u)) (Policy.url_attributes p)
  then note RefusalCode.UrlAttribute at_ f
  else if negb (existsb (λ a, bool_decide (raw = a))
                  ([(Policy.body_attributes p).1; (Policy.body_attributes p).2] ++
                   Policy.prologue_attributes p))
  then note RefusalCode.AttributeNotAllowed at_ f
  else f.

(** The longest prefix whose bytes satisfy [p], and the rest. *)
Fixpoint span (p : Z → bool) (s : bytes) : bytes * bytes :=
  match s with
  | [] => ([], [])
  | b :: r => if p b then let '(a, c) := span p r in (b :: a, c) else ([], s)
  end.

Definition zlen (s : bytes) : Z := Z.of_nat (length s).

(** The attributes of a tag, after its name at offset [at_] with the rest [s],
    through its [>]: the rest after the tag, with its offset. *)
Fixpoint attributes (fuel : nat) (at_ : Z) (s : bytes) (f : LexicalFindings)
    : Z * bytes * LexicalFindings :=
  match fuel with
  | O => (at_, s, f)
  | S fuel =>
      let '(blank, s) := span (λ b, is_space b || (b =? 47)) s in
      let at_ := at_ + zlen blank in
      match s with
      | [] => (at_, [], f)
      | b :: r =>
          if b =? 62 then (at_ + 1, r, f)
          else
            let '(more, s) := span (λ b, negb (is_space b) && negb (b =? 47) && negb (b =? 62) &&
                                         negb (b =? 61)) r in
            let f := attribute_name (b :: more) at_ f in
            let at_ := at_ + 1 + zlen more in
            let '(blank, s) := span is_space s in
            let at_ := at_ + zlen blank in
            match s with
            | e :: r =>
                if e =? 61 then
                  let '(blank, s) := span is_space r in
                  let at_ := at_ + 1 + zlen blank in
                  match s with
                  | [] => (at_, [], f)
                  | q :: r =>
                      if (q =? 34) || (q =? 39) then
                        let '(value, s) := span (λ b, negb (b =? q)) r in
                        let at_ := at_ + 1 + zlen value in
                        match s with
                        | _ :: s => attributes fuel (at_ + 1) s f
                        | [] => attributes fuel at_ [] f
                        end
                      else if q =? 62 then (at_ + 1, r, f)
                      else
                        let '(value, s) := span (λ b, negb (is_space b) && negb (b =? 62)) (q :: r) in
                        attributes fuel (at_ + zlen value) s f
                  end
                else attributes fuel at_ s f
            | [] => attributes fuel at_ s f
            end
      end
  end.

(** The tag that starts at a [<], if one does: whether it is an end tag, and the
    rest from its name. *)
Definition tag_start (r : bytes) : option (bool * bytes) :=
  match r with
  | c :: r' =>
      if is_ascii_alphabetic c then Some (false, r)
      else if c =? 47 then
        match r' with
        | d :: _ => if is_ascii_alphabetic d then Some (true, r') else None
        | [] => None
        end
      else None
  | [] => None
  end.

Definition tag_findings (end_tag : bool) (raw : bytes) (at_ : Z) (styles : nat) (f : LexicalFindings)
    : nat * LexicalFindings :=
  let p := POLICY_V1 in
  let lower := to_ascii_lowercase raw in
  if bool_decide (lower = Policy.script_tag p) then (styles, note RefusalCode.ScriptElement at_ f)
  else if negb (allowed_tag lower) then (styles, note RefusalCode.ElementNotAllowed at_ f)
  else
    let '(styles, f) :=
      if negb end_tag && bool_decide (lower = Policy.style_tag p) then
        (S styles, if (1 <? S styles)%nat then note RefusalCode.StyleElement at_ f else f)
      else (styles, f) in
    (styles, if bool_decide (raw ≠ lower) then note RefusalCode.TagCase at_ f else f).

Fixpoint tags (fuel : nat) (styles : nat) (at_ : Z) (s : bytes) (f : LexicalFindings)
    : LexicalFindings :=
  match fuel, s with
  | O, _ | _, [] => f
  | S fuel, b :: r =>
      if negb (b =? 60) then tags fuel styles (at_ + 1) r f
      else
        match tag_start r with
        | None => tags fuel styles (at_ + 1) r f
        | Some (end_tag, from) =>
            let '(raw, s) := span (λ b, negb (is_space b) && negb (b =? 47) && negb (b =? 62)) from in
            let '(styles, f) := tag_findings end_tag raw at_ styles f in
            let at_ := at_ + (if end_tag then 2 else 1) + zlen raw in
            let '(at_, s, f) := attributes (S (length s)) at_ s f in
            tags fuel styles at_ s f
        end
  end.

(** ** S2 at every offset *)

Definition starts_with (s p : bytes) : bool := bool_decide (p `prefix_of` s).

Definition declaration (s : bytes) (at_ : Z) (f : LexicalFindings) : LexicalFindings :=
  match List.find (λ d, starts_with s d.1) (Policy.declarations POLICY_V1) with
  | Some (_, code) =>
      if negb (bool_decide (code = RefusalCode.MarkupDeclaration) && (at_ =? 0)) then note code at_ f
      else f
  | None => f
  end.

Definition entity (s : bytes) (at_ : Z) (f : LexicalFindings) : LexicalFindings :=
  match s with
  | b :: _ =>
      if (b =? 38) && negb (existsb (λ e, starts_with s e.2) (Policy.entities POLICY_V1))
      then note RefusalCode.EntityNotAllowed at_ f else f
  | [] => f
  end.

(** [eq_ignore_ascii_case] of a needle with the input's prefix of its length. *)
Definition needle_at (s needle : bytes) : bool :=
  (length needle <=? length s)%nat &&
  bool_decide (to_ascii_lowercase (take (length needle) s) = to_ascii_lowercase needle).

Definition anywhere (s : bytes) (at_ : Z) (f : LexicalFindings) : LexicalFindings :=
  foldl (λ f n, if needle_at s n.1 then note n.2 at_ f else f)
    (entity s at_ (declaration s at_ f)) (Policy.needles POLICY_V1).

Fixpoint everywhere (at_ : Z) (s : bytes) (f : LexicalFindings) : LexicalFindings :=
  match s with
  | [] => f
  | _ :: r => everywhere (at_ + 1) r (anywhere s at_ f)
  end.

Definition scan (input : bytes) : LexicalFindings :=
  let f := LexicalFindings_default in
  if Policy.max_page_bytes POLICY_V1 <? zlen input
  then note RefusalCode.TooLarge (Policy.max_page_bytes POLICY_V1) f
  else
    let f := characters input f in
    let f := if negb (bool_decide (last input = Some LF))
             then note RefusalCode.NoFinalNewline (zlen input) f else f in
    let f := tags (S (length input)) 0 0 input f in
    everywhere 0 input f.

Definition lexical_findings (candidate : bytes) : LexicalFindings := scan candidate.
