(* ===== verification/PageParse.v ===== *)
(** * The strict parse of a page

    [kernel/src/inert_page/parse.rs] (S3): a candidate that passed S1 and S2 is
    parsed into the typed tree; the first error in document order is reported. The
    cursor is the text still to be read (it is always between characters); its byte
    offset is what was read of the whole length. Loops take fuel, which
    [PageSound.parse_sound] shows to suffice. *)

From S2P Require Import Prelude Evidence PagePolicy PageScan PageTree.

Local Open Scope Z_scope.
#[local] Arguments lit : simpl never.
#[local] Arguments js : simpl never.

Definition Fail : Type := RefusalCode.t * Z.

(** ** The parser's state and effects *)

Record Parser := MkParser {
  total : Z;
  rest : str;
  open_ : list Tag.t;
  elements : Z;
  ids : gset (list Z);
}.

Definition pos (st : Parser) : Z := total st - str_len (rest st).
Definition set_rest (r : str) (st : Parser) : Parser :=
  MkParser (total st) r (open_ st) (elements st) (ids st).
Definition set_open (o : list Tag.t) (st : Parser) : Parser :=
  MkParser (total st) (rest st) o (elements st) (ids st).
Definition set_elements (n : Z) (st : Parser) : Parser :=
  MkParser (total st) (rest st) (open_ st) n (ids st).
Definition set_ids (i : gset (list Z)) (st : Parser) : Parser :=
  MkParser (total st) (rest st) (open_ st) (elements st) i.
(** The cursor [n] characters further. *)
Definition advance (n : nat) (st : Parser) : Parser := set_rest (drop n (rest st)) st.

Inductive outcome (A : Type) :=
| Done (a : A) (st : Parser)
| Failed (f : Fail)
| OutOfFuel.
Arguments Done {A}.
Arguments Failed {A}.
Arguments OutOfFuel {A}.

Definition M (A : Type) : Type := Parser → outcome A.
Definition ret {A} (a : A) : M A := λ st, Done a st.
Definition bind {A B} (m : M A) (k : A → M B) : M B :=
  λ st, match m st with Done a st => k a st | Failed f => Failed f | OutOfFuel => OutOfFuel end.
Definition get : M Parser := λ st, Done st st.
Definition put_state (st : Parser) : M unit := λ _, Done tt st.
Definition fail {A} (code : RefusalCode.t) (at_ : Z) : M A := λ _, Failed (code, at_).
(** Fail at the cursor. *)
Definition fail_here {A} (code : RefusalCode.t) : M A := λ st, Failed (code, pos st).
Definition lift {A} (r : result A Fail) : M A :=
  λ st, match r with Ok a => Done a st | Err f => Failed f end.

Declare Scope parse_scope.
Notation "'let!' x ':=' m 'in' k" := (bind m (λ x, k))
  (at level 200, x pattern, m at level 100, k at level 200, right associativity) : parse_scope.
Notation "m ;; k" := (bind m (λ _, k)) (at level 100, k at level 200, right associativity) : parse_scope.
Local Open Scope parse_scope.

(** ** What is at the cursor *)

(** A tag name: a body tag, or any other name. *)
Inductive Name := NTag (t : Tag.t) | NOther.
#[export] Instance Name_eq_dec : EqDecision Name.
Proof. solve_decision. Defined.

Inductive Next := NStart (n : Name) | NEnd (n : Name) | NText | NEof.

Definition name_at (s : str) : Name :=
  let name := (span is_ascii_alphanumeric s).1 in
  match List.find (λ t, bool_decide (Tag.name t = name)) (Policy.body_tags POLICY_V1) with
  | Some t => NTag t
  | None => NOther
  end.

Definition peek_at (s : str) : Next :=
  match s with
  | [] => NEof
  | b :: s1 =>
      if b =? 60 then
        match s1 with
        | c :: s2 =>
            if c =? 47 then
              match s2 with
              | d :: _ => if is_ascii_alphabetic d then NEnd (name_at s2) else NText
              | [] => NText
              end
            else if is_ascii_alphabetic c then NStart (name_at s1)
            else NText
        | [] => NText
        end
      else NText
  end.
Definition peek (st : Parser) : Next := peek_at (rest st).

Definition peek_start (tag : Tag.t) (st : Parser) : bool :=
  match peek st with NStart (NTag t) => bool_decide (t = tag) | _ => false end.

Definition at_lit (l : str) (st : Parser) : bool := starts_with (rest st) l.

(** The number of equal characters at the start of both. *)
Fixpoint same (a b : str) : nat :=
  match a, b with
  | x :: a, y :: b => if x =? y then S (same a b) else 0%nat
  | _, _ => 0%nat
  end.

(** Consumes [l], or fails at the first differing byte. *)
Definition fixed (l : str) (code : RefusalCode.t) : M unit := λ st,
  let n := same l (rest st) in
  if (n <? length l)%nat then Failed (code, pos st + Z.of_nat n)
  else Done tt (advance (length l) st).

Definition optional_lf : M unit := λ st,
  match rest st with
  | b :: r => if b =? LF then Done tt (set_rest r st) else Done tt st
  | [] => Done tt st
  end.

(** Where the input ends or holds something unexpected. *)
Definition misplaced {A} : M A := λ st,
  match peek st with NEof => Failed (RefusalCode.TagUnclosed, pos st)
  | _ => Failed (RefusalCode.ContentModel, pos st) end.

(** An end tag that does not close the current element. *)
Definition foreign_end {A} (name : Name) (inline : bool) : M A := λ st,
  let code :=
    match name with
    | NTag Tag.Br => RefusalCode.VoidSyntax
    | NTag t => if negb inline && bool_decide (t ∈ open_ st) then RefusalCode.TagUnclosed
                else RefusalCode.TagMisnested
    | NOther => if negb inline then RefusalCode.TagUnclosed else RefusalCode.TagMisnested
    end in
  Failed (code, pos st).

(** ** Spacing, words and lengths of one flattened text *)

Inductive Prev := PStart | PrevChar | PSpace | PBr.
#[export] Instance Prev_eq_dec : EqDecision Prev.
Proof. solve_decision. Defined.

Record Flow := MkFlow { prev : Prev; word : Z; chars : Z }.
Definition Flow_new : Flow := MkFlow PStart 0 0.

Definition flow_char (c at_ : Z) (fl : Flow) : result Flow Fail :=
  let n := chars fl + 1 in
  if c =? LF then Err (RefusalCode.TextSpacing, at_)
  else if c =? 32 then
    if bool_decide (prev fl ≠ PrevChar) then Err (RefusalCode.TextSpacing, at_)
    else Ok (MkFlow PSpace 0 n)
  else if Policy.max_word_chars POLICY_V1 <? word fl + 1 then Err (RefusalCode.WordTooLong, at_)
  else Ok (MkFlow PrevChar (word fl + 1) n).

Definition flow_br (at_ : Z) (fl : Flow) : result Flow Fail :=
  if bool_decide (prev fl ≠ PrevChar) then Err (RefusalCode.TextSpacing, at_)
  else Ok (MkFlow PBr 0 (chars fl)).

Definition flow_end (at_ : Z) (fl : Flow) : result unit Fail :=
  match prev fl with
  | PSpace | PBr => Err (RefusalCode.TextSpacing, at_)
  | PStart | PrevChar => Ok tt
  end.

Definition is_block (t : Tag.t) : bool :=
  match t with
  | Tag.H1 | Tag.H2 | Tag.H3 | Tag.P | Tag.Address | Tag.Ul | Tag.Ol => true
  | _ => false
  end.

Definition lang_ok (v : str) : bool :=
  match v with
  | [a; b] => is_ascii_lowercase a && is_ascii_lowercase b
  | [a; b; h; c; d] =>
      (h =? 45) && is_ascii_lowercase a && is_ascii_lowercase b && is_ascii_uppercase c &&
      is_ascii_uppercase d
  | _ => false
  end.

Definition id_ok (v : str) : bool :=
  match v with
  | first :: rest =>
      is_ascii_lowercase first && (str_len v <=? Policy.max_id_chars POLICY_V1) &&
      forallb (λ b, is_ascii_lowercase b || is_ascii_digit b || (b =? 45)) rest
  | [] => false
  end.

(** ** Text *)

(** The decoded character at the cursor of a text, and what it is written as. *)
Definition entity_at (s : str) : option (Z * str) :=
  List.find (λ e, starts_with s e.2) (Policy.entities POLICY_V1).

(** Decoded text up to the next [<], through [flow]. *)
Fixpoint text_run (fuel : nat) (fl : Flow) (in_title : bool) : M (str * Flow) := λ st,
  match fuel, rest st with
  | O, _ => OutOfFuel
  | S _, [] => Done ([], fl) st
  | S fuel, b :: r =>
      if b =? 60 then Done ([], fl) st
      else
        let at_ := pos st in
        (let! (c, st') :=
           (if b =? 38 then
              match entity_at (b :: r) with
              | Some (c, e) => ret (c, advance (length e) st)
              | None => fail RefusalCode.EntityNotAllowed at_
              end
            else if b =? 62 then
              fail (if in_title then RefusalCode.TitleInvalid else RefusalCode.ContentModel) at_
            else ret (b, set_rest r st)) in
         let! fl := lift (flow_char c at_ fl) in
         if in_title && (Policy.max_title_chars POLICY_V1 <? chars fl)
         then fail RefusalCode.TitleInvalid at_
         else
           put_state st' ;;
           let! (out, fl) := text_run fuel fl in_title in
           ret (c :: out, fl)) st
  end.

Definition run_text (fl : Flow) (in_title : bool) : M (str * Flow) := λ st,
  text_run (S (length (rest st))) fl in_title st.

(** ** Tags *)

Definition enter (tag : Tag.t) : M unit := λ st,
  let n := elements st + 1 in
  if Policy.max_elements POLICY_V1 <? n then Failed (RefusalCode.TooManyElements, pos st)
  else if Policy.max_depth POLICY_V1 <=? Z.of_nat (length (open_ st))
  then Failed (RefusalCode.DepthExceeded, pos st)
  else Done tt (set_open (open_ st ++ [tag]) (set_elements n st)).

Definition leave : M unit := λ st, Done tt (set_open (take (length (open_ st) - 1) (open_ st)) st).

Definition is_name_char (b : Z) : bool :=
  negb ((b =? 32) || (b =? 61) || (b =? 62) || (b =? 47) || (b =? 10) || (b =? 34) || (b =? 39)).

(** The value of one attribute, after its name: [=], a quoted value. *)
Definition attr_value : M (Z * str) := λ st,
  if negb (at_lit (js "=`") st) then Failed (RefusalCode.AttributeSyntax, pos st)
  else
    let st := advance 2 st in
    let '(value, s) := span (λ b, negb (b =? 34)) (rest st) in
    match s with
    | _ :: s => Done (pos st, value) (set_rest s st)
    | [] => Failed (RefusalCode.AttributeSyntax, pos st)
    end.

Fixpoint attributes (fuel : nat) (attrs : Attrs) (has_class has_id : bool) : M Attrs := λ st,
  match fuel with
  | O => OutOfFuel
  | S fuel =>
      match rest st with
      | [] => Failed (RefusalCode.TagUnclosed, pos st)
      | b :: r =>
          if b =? 62 then Done attrs (set_rest r st)
          else if b =? 47 then Failed (RefusalCode.VoidSyntax, pos st)
          else if negb (b =? 32) then Failed (RefusalCode.AttributeSyntax, pos st)
          else
            let st := set_rest r st in
            let name_pos := pos st in
            let '(name, s) := span is_name_char r in
            let is_class := bool_decide (name = (Policy.body_attributes POLICY_V1).1) in
            let is_id := bool_decide (name = (Policy.body_attributes POLICY_V1).2) in
            if bool_decide (name = []) || (is_class && has_class) || (is_id && has_id)
            then Failed (RefusalCode.AttributeSyntax, name_pos)
            else if negb is_class && negb is_id
            then Failed (RefusalCode.AttributeNotAllowed, name_pos)
            else
              (let! (value_pos, value) := attr_value in
               if is_class then
                 match List.find (λ c, bool_decide (Class.name c = value)) (Policy.classes POLICY_V1) with
                 | Some class => attributes fuel (MkAttrs (Some class) (a_id attrs)) true has_id
                 | None => fail RefusalCode.ClassNotAllowed value_pos
                 end
               else if negb (id_ok value) then fail RefusalCode.IdInvalid value_pos
               else
                 let! st := get in
                 if bool_decide (value ∈ ids st) then fail RefusalCode.IdDuplicate value_pos
                 else
                   put_state (set_ids ({[value]} ∪ ids st) st) ;;
                   attributes fuel (MkAttrs (a_class attrs) (Some value)) has_class true)
                (set_rest s st)
      end
  end.

(** [<tag ATTRS>] at the cursor (a [br] is [<br>] exactly and is left at once). *)
Definition start_tag (tag : Tag.t) : M Attrs :=
  enter tag ;;
  let! st := get in
  let st := advance (1 + length (Tag.name tag)) st in
  if bool_decide (tag = Tag.Br) then
    match rest st with
    | b :: r =>
        if b =? 62 then put_state (set_rest r st) ;; leave ;; ret Attrs_default
        else fail RefusalCode.VoidSyntax (pos st)
    | [] => fail RefusalCode.VoidSyntax (pos st)
    end
  else
    put_state st ;;
    attributes (S (length (rest st))) Attrs_default false false.

(** [</tag>] at the cursor; the element is left. *)
Definition end_tag (tag : Tag.t) : M unit :=
  let! st := get in
  let st := advance (2 + length (Tag.name tag)) st in
  match rest st with
  | b :: r => if b =? 62 then put_state (set_rest r st) ;; leave
              else fail RefusalCode.AttributeSyntax (pos st)
  | [] => fail RefusalCode.AttributeSyntax (pos st)
  end.

(** ** Inline content *)

Definition span_with (t : Tag.t) (l : Leaf) : Inline :=
  match t with Tag.Strong => IStrong l | Tag.Em => IEm l | _ => ISmall l end.
Definition is_span (t : Tag.t) : bool :=
  match t with Tag.Strong | Tag.Em | Tag.Small => true | _ => false end.

(** Inline content up to [</parent>], which is left for the caller. [out] is
    what was read so far. *)
Fixpoint inlines_from (fuel : nat) (parent : Tag.t) (out : list Inline) (fl : Flow)
    : M (list Inline * Flow) := λ st,
  match fuel with
  | O => OutOfFuel
  | S fuel =>
      (match peek st with
       | NStart (NTag t) =>
           if bool_decide (t = Tag.Br) then
             let! fl := lift (flow_br (pos st) fl) in
             start_tag Tag.Br ;;
             inlines_from fuel parent (out ++ [IBr]) fl
           else if is_span t then
             let! attrs := start_tag t in
             let! (content, fl) := inlines_from fuel t [] fl in
             end_tag t ;;
             inlines_from fuel parent (out ++ [span_with t (MkLeaf attrs content)]) fl
           else fail_here RefusalCode.ContentModel
       | NStart NOther => fail_here RefusalCode.ContentModel
       | NEnd name =>
           if bool_decide (name = NTag parent) then
             if bool_decide (out = []) then fail_here RefusalCode.EmptyElement else ret (out, fl)
           else foreign_end name true
       | NText =>
           match rest st with
           | b :: _ =>
               if b =? 60 then fail_here RefusalCode.ContentModel
               else
                 let! (t, fl) := run_text fl false in
                 inlines_from fuel parent (out ++ [IText t]) fl
           | [] => fail_here RefusalCode.TagUnclosed
           end
       | NEof => fail_here RefusalCode.TagUnclosed
       end) st
  end.

Definition parse_inlines (parent : Tag.t) (fl : Flow) : M (list Inline * Flow) := λ st,
  inlines_from (S (length (rest st))) parent [] fl st.

Definition parse_leaf (t : Tag.t) : M Leaf :=
  let! attrs := start_tag t in
  let! (content, fl) := parse_inlines t Flow_new in
  let! st := get in
  lift (flow_end (pos st) fl) ;;
  end_tag t ;;
  optional_lf ;;
  ret (MkLeaf attrs content).

(** ** Blocks *)

Fixpoint list_items (fuel : nat) (t : Tag.t) (items : list Leaf) : M (list Leaf) := λ st,
  match fuel with
  | O => OutOfFuel
  | S fuel =>
      (match peek st with
       | NStart (NTag Tag.Li) =>
           let! li := parse_leaf Tag.Li in
           list_items fuel t (items ++ [li])
       | NStart _ | NText => fail_here RefusalCode.ContentModel
       | NEnd name => if bool_decide (name = NTag t) then ret items else foreign_end name false
       | NEof => fail_here RefusalCode.TagUnclosed
       end) st
  end.

Definition parse_list (t : Tag.t) : M List_ :=
  let! attrs := start_tag t in
  optional_lf ;;
  let! st := get in
  let! items := list_items (S (length (rest st))) t [] in
  if bool_decide (items = []) then fail_here RefusalCode.EmptyElement
  else
    end_tag t ;;
    optional_lf ;;
    ret (MkList attrs items).

Definition parse_block (t : Tag.t) : M Block.t :=
  match t with
  | Tag.H1 => let! l := parse_leaf t in ret (Block.H1 l)
  | Tag.H2 => let! l := parse_leaf t in ret (Block.H2 l)
  | Tag.H3 => let! l := parse_leaf t in ret (Block.H3 l)
  | Tag.P => let! l := parse_leaf t in ret (Block.P l)
  | Tag.Address => let! l := parse_leaf t in ret (Block.Address l)
  | Tag.Ul => let! l := parse_list t in ret (Block.Ul l)
  | Tag.Ol => let! l := parse_list t in ret (Block.Ol l)
  | _ => fail_here RefusalCode.ContentModel
  end.

(** The children of a container up to its end tag; sections are read by
    [section] where they are allowed. *)
Fixpoint children_from (section : option (M Section_)) (fuel : nat) (container : Tag.t)
    (items : list MainItem.t) : M (list MainItem.t) := λ st,
  match fuel with
  | O => OutOfFuel
  | S fuel =>
      (match peek st with
       | NStart (NTag t) =>
           match bool_decide (t = Tag.Section), section with
           | true, Some section =>
               let! s := section in
               children_from (Some section) fuel container (items ++ [MainItem.Section_ s])
           | _, _ =>
               if is_block t then
                 let! b := parse_block t in
                 children_from section fuel container (items ++ [MainItem.Block_ b])
               else fail_here RefusalCode.ContentModel
           end
       | NStart NOther | NText => fail_here RefusalCode.ContentModel
       | NEnd name => if bool_decide (name = NTag container) then ret items else foreign_end name false
       | NEof => fail_here RefusalCode.TagUnclosed
       end) st
  end.

(** The children of a container through its end tag. *)
Definition children (section : option (M Section_)) (container : Tag.t) : M (list MainItem.t) :=
  let! st := get in
  let! items := children_from section (S (length (rest st))) container [] in
  if bool_decide (items = []) then fail_here RefusalCode.EmptyElement
  else
    end_tag container ;;
    optional_lf ;;
    ret items.

Definition item_block (i : MainItem.t) : option Block.t :=
  match i with MainItem.Block_ b => Some b | MainItem.Section_ _ => None end.

Definition parse_blocks (container : Tag.t) : M (list Block.t) :=
  let! items := children None container in ret (omap item_block items).

Definition parse_section : M Section_ :=
  let! attrs := start_tag Tag.Section in
  optional_lf ;;
  let! blocks := parse_blocks Tag.Section in
  ret (MkSection attrs blocks).

Definition parse_region (tag : Tag.t) : M Region :=
  let! attrs := start_tag tag in
  optional_lf ;;
  let! blocks := parse_blocks tag in
  ret (MkRegion attrs blocks).

Definition parse_main : M Main_ :=
  let! attrs := start_tag Tag.Main in
  optional_lf ;;
  let! items := children (Some parse_section) Tag.Main in
  ret (MkMain attrs items).

(** ** The document *)

Definition parse_lang : M str := λ st,
  let '(v, s) := span (λ b, negb (b =? 34)) (rest st) in
  if negb (lang_ok v) then Failed (RefusalCode.LangInvalid, pos st)
  else Done v (set_rest s st).

Definition parse_title : M str :=
  let! (t, fl) := run_text Flow_new true in
  let! st := get in
  if match peek st with NStart _ => true | _ => false end || (chars fl =? 0)
  then fail_here RefusalCode.TitleInvalid
  else
    lift (flow_end (pos st) fl) ;;
    ret t.

(** What comes before the first occurrence of [needle], or everything. *)
Fixpoint before (needle hay : str) : str :=
  if starts_with hay needle then []
  else match hay with [] => [] | b :: hay => b :: before needle hay end.

(** The stylesheet: every byte up to the first [</style] must be Mother's. *)
Definition parse_css : M unit := λ st,
  let css := Policy.css POLICY_V1 in
  let region := before (lit "</" ++ Policy.style_tag POLICY_V1) (rest st) in
  if bool_decide (region ≠ css)
  then Failed (RefusalCode.CssMismatch, pos st + Z.of_nat (same region css))
  else Done tt (advance (length css) st).

Definition parse_optional_region (tag : Tag.t) : M (option Region) :=
  let! st := get in
  if peek_start tag st then let! r := parse_region tag in ret (Some r) else ret None.

Definition document : M Page :=
  let '(head, after_lang, after_title, after_css) := Policy.head_segments POLICY_V1 in
  fixed head RefusalCode.PrologueMismatch ;;
  let! lang := parse_lang in
  fixed after_lang RefusalCode.PrologueMismatch ;;
  let! title := parse_title in
  fixed after_title RefusalCode.PrologueMismatch ;;
  parse_css ;;
  fixed after_css RefusalCode.PrologueMismatch ;;
  let! header := parse_optional_region Tag.Header in
  let! st := get in
  if negb (peek_start Tag.Main st) then misplaced
  else
    let! main := parse_main in
    let! footer := parse_optional_region Tag.Footer in
    let! st := get in
    if negb (at_lit (Policy.epilogue POLICY_V1) st) then misplaced
    else
      let st := advance (length (Policy.epilogue POLICY_V1)) st in
      if bool_decide (rest st ≠ []) then fail RefusalCode.TrailingContent (pos st)
      else ret (MkPage lang title header main footer).

Definition parse_document (text : str) : outcome Page :=
  document (MkParser (str_len text) text [] 0 ∅).
