(* ===== verification/PageRules.v ===== *)
(** * The rules of a page

    The declared rules of the page format as predicates on the typed tree, and the
    spacing automaton [Flow] as a grammar: a flattened text is words of at most 40
    characters, one separator (a space or a [br]) between two words. *)

From S2P Require Import Prelude Utf8 Evidence PagePolicy PageScan PageTree PageParse.

Local Open Scope Z_scope.
#[local] Arguments lit : simpl never.
#[local] Arguments js : simpl never.

(** ** Folding inline content *)

Section Fold.
Context {A : Type} (e : A) (op : A → A → A).
Context (ftext : str → A) (fbr : A) (fspan : Attrs → A → A).

Fixpoint fold_inline (i : Inline) : A :=
  let fold_list := fix go l := match l with [] => e | i :: l => op (fold_inline i) (go l) end in
  match i with
  | IText t => ftext t
  | IBr => fbr
  | IStrong (MkLeaf a l) | IEm (MkLeaf a l) | ISmall (MkLeaf a l) => fspan a (fold_list l)
  end.
Fixpoint fold_inlines (l : list Inline) : A :=
  match l with [] => e | i :: l => op (fold_inline i) (fold_inlines l) end.

Lemma fold_span i t a l : span_of i = Some (t, MkLeaf a l) → fold_inline i = fspan a (fold_inlines l).
Proof.
  assert (Hl : ∀ l, (fix go l := match l with [] => e | i :: l => op (fold_inline i) (go l) end) l
    = fold_inlines l) by (induction l0; simpl; [done|]; by rewrite IHl0).
  destruct i as [| |[]|[]|[]]; simpl; intros; simplify_eq; by rewrite Hl.
Qed.

Lemma fold_snoc l i :
  (∀ x, op e x = x) → (∀ x, op x e = x) → (∀ x y z, op x (op y z) = op (op x y) z) →
  fold_inlines (l ++ [i]) = op (fold_inlines l) (fold_inline i).
Proof.
  intros He He' Ha. induction l as [|x l IH]; simpl; [by rewrite He, He'|]. by rewrite IH, Ha.
Qed.
End Fold.

(** The flattened text of inline content: characters, and [None] for a [br]. *)
Definition inline_items : Inline → list (option Z) :=
  fold_inline [] (++) (fmap Some) [None] (λ _ items, items).
Definition inlines_items : list Inline → list (option Z) :=
  fold_inlines [] (++) (fmap Some) [None] (λ _ items, items).

(** The number of elements, and the ids in document order. *)
Definition inlines_count : list Inline → Z := fold_inlines 0 Z.add (λ _, 0) 1 (λ _ n, 1 + n).
Definition inline_count : Inline → Z := fold_inline 0 Z.add (λ _, 0) 1 (λ _ n, 1 + n).
Definition attr_ids (a : Attrs) : list str := option_list (a_id a).
Definition inlines_ids : list Inline → list str :=
  fold_inlines [] (++) (λ _, []) [] (λ a ids, attr_ids a ++ ids).
Definition inline_ids : Inline → list str :=
  fold_inline [] (++) (λ _, []) [] (λ a ids, attr_ids a ++ ids).

Lemma span_facts i t a l :
  span_of i = Some (t, MkLeaf a l) →
  inline_items i = inlines_items l ∧ inline_count i = 1 + inlines_count l ∧
  inline_ids i = attr_ids a ++ inlines_ids l.
Proof. intros H. split_and!; exact (fold_span _ _ _ _ _ i t a l H). Qed.

(** ** Spacing *)

Definition is_word (w : str) : Prop :=
  w ≠ [] ∧ Forall (λ c, c ≠ LF ∧ c ≠ 32) w ∧ Z.of_nat (length w) ≤ Policy.max_word_chars POLICY_V1.

(** Words, with one separator between two. *)
Inductive spaced : list (option Z) → Prop :=
| spaced_word w : is_word w → spaced (Some <$> w)
| spaced_more w sep items :
    is_word w → sep = None ∨ sep = Some 32 → spaced items → spaced ((Some <$> w) ++ sep :: items).

Definition flow_step (fl : Flow) (item : option Z) : option Flow :=
  match match item with Some c => flow_char c 0 fl | None => flow_br 0 fl end with
  | Ok fl => Some fl
  | Err _ => None
  end.
Fixpoint flow_run (fl : Flow) (items : list (option Z)) : option Flow :=
  match items with
  | [] => Some fl
  | i :: items => fl ← flow_step fl i; flow_run fl items
  end.
Definition flow_ends (fl : Flow) : bool :=
  match prev fl with PStart | PrevChar => true | _ => false end.

Lemma flow_run_app fl l1 l2 : flow_run fl (l1 ++ l2) = fl ← flow_run fl l1; flow_run fl l2.
Proof.
  revert fl. induction l1 as [|i l1 IH]; intros fl; [done|].
  simpl. destruct (flow_step fl i); [apply IH|done].
Qed.

Lemma flow_chars fl items fl' :
  flow_run fl items = Some fl' → chars fl' = chars fl + Z.of_nat (length (omap id items)).
Proof.
  revert fl. induction items as [|i items IH]; intros fl H; simpl in H; [simplify_eq; simpl; lia|].
  apply bind_Some in H as (f & Hf & H). rewrite (IH _ H). unfold flow_step, flow_char, flow_br in Hf.
  destruct i as [c|]; simpl; repeat case_match; simplify_eq/=; lia.
Qed.

Lemma omap_some (t : str) : omap id (Some <$> t) = t.
Proof. induction t; csimpl; congruence. Qed.

(** A word read from the state [fl], which has [word fl] characters of it. *)
Lemma flow_word fl w fl' :
  Forall (λ c, c ≠ LF ∧ c ≠ 32) w → w ≠ [] → 0 ≤ word fl →
  flow_run fl (Some <$> w) = Some fl' ↔
  word fl + Z.of_nat (length w) ≤ Policy.max_word_chars POLICY_V1 ∧
  fl' = MkFlow PrevChar (word fl + Z.of_nat (length w)) (chars fl + Z.of_nat (length w)).
Proof.
  intros Hw Hne. revert fl. induction Hw as [|c w [Hc1 Hc2] Hw IH]; [done|]. clear Hne. intros fl Hfl.
  cbn [fmap list_fmap flow_run]. unfold flow_step at 1, flow_char.
  destruct (Z.eqb_spec c LF); [done|]. destruct (Z.eqb_spec c 32); [done|].
  destruct (Z.ltb_spec (Policy.max_word_chars POLICY_V1) (word fl + 1)) as [Hlt|Hle].
  { split; [done|]. intros [H _]. rewrite length_cons in H. lia. }
  simpl mbind. destruct w as [|d w].
  - simpl. split; [intros [= <-]; split; [simpl in *; lia|f_equal; lia]|]. intros [_ ->]. do 2 f_equal; lia.
  - rewrite IH by (simpl; done || lia). simpl. split; intros [H ->]; (split; [lia|]); f_equal; lia.
Qed.

Lemma split_word (items : list (option Z)) : ∃ w r,
  items = (Some <$> w) ++ r ∧ Forall (λ c, c ≠ LF ∧ c ≠ 32) w ∧
  (r = [] ∨ ∃ i r', r = i :: r' ∧ (i = None ∨ i = Some 32 ∨ i = Some LF)).
Proof.
  induction items as [|i items (w & r & -> & Hw & Hr)]; [exists [], []; auto|].
  destruct i as [c|]; [|exists [], (None :: (Some <$> w) ++ r); split_and!; eauto 8].
  destruct (decide (c = LF)) as [->|H1]; [exists [], (Some LF :: (Some <$> w) ++ r); split_and!; eauto 8|].
  destruct (decide (c = 32)) as [->|H2]; [exists [], (Some 32 :: (Some <$> w) ++ r); split_and!; eauto 8|].
  exists (c :: w), r. split_and!; [done|by constructor|done].
Qed.

(** A state at the start of a word. *)
Definition fresh (fl : Flow) : Prop := prev fl ≠ PrevChar ∧ word fl = 0.

Lemma fresh_sep fl i : fresh fl → i = None ∨ i = Some 32 ∨ i = Some LF → flow_step fl i = None.
Proof.
  intros [Hp _] Hi. unfold flow_step, flow_char, flow_br.
  destruct Hi as [->|[->| ->]]; simpl; by rewrite ?bool_decide_eq_true_2.
Qed.

Lemma sep_step fl fl' i :
  prev fl = PrevChar → flow_step fl i = Some fl' → i = None ∨ i = Some 32 ∨ i = Some LF →
  (i = None ∨ i = Some 32) ∧ fresh fl' ∧ flow_ends fl' = false.
Proof.
  intros Hp H Hi. unfold flow_step, flow_char, flow_br, fresh in *.
  destruct Hi as [->|[->| ->]]; simpl in *; rewrite ?Hp, ?bool_decide_eq_false_2 in H by auto;
    simplify_eq/=; auto.
Qed.

Lemma flow_spaced items : ∀ fl fl',
  fresh fl → items ≠ [] → flow_run fl items = Some fl' → flow_ends fl' = true → spaced items.
Proof.
  remember (length items) as n eqn:Hn. assert (Hle : (length items ≤ n)%nat) by lia. clear Hn.
  revert items Hle. induction n as [|n IH]; intros items Hle fl fl' Hf Hne H He; [destruct items; [done|simpl in *; lia]|].
  destruct (split_word items) as (w & r & -> & Hw & Hr). destruct w as [|c w].
  { exfalso. destruct Hr as [->|(i & r' & -> & Hi)]; [done|]. cbn [app fmap list_fmap flow_run] in H.
    by rewrite fresh_sep in H. }
  rewrite flow_run_app in H. apply bind_Some in H as (f1 & H1 & H).
  apply flow_word in H1 as [Hlen ->]; [|done|done|destruct Hf; lia].
  assert (Hword : is_word (c :: w)) by (split_and!; [done..|destruct Hf; lia]).
  destruct Hr as [->|(i & r' & -> & Hi)]; [rewrite app_nil_r; by constructor|].
  simpl in H. apply bind_Some in H as (f2 & H2 & H).
  apply sep_step in H2 as (Hsep & Hf2 & He2); [|done..]. constructor; [done..|].
  eapply IH; [|exact Hf2| |exact H|exact He].
  - rewrite length_app, length_fmap in Hle. simpl in *. lia.
  - intros ->. simpl in H. congruence.
Qed.

Lemma spaced_flow items :
  spaced items → ∀ fl, fresh fl → ∃ fl', flow_run fl items = Some fl' ∧ flow_ends fl' = true.
Proof.
  induction 1 as [w (Hne & Hw & Hlen)|w sep items (Hne & Hw & Hlen) Hsep Hs IH]; intros fl [Hp H0].
  - eexists. split; [apply flow_word; [done|done|lia|]; split; [lia|reflexivity]|done].
  - rewrite flow_run_app.
    rewrite (proj2 (flow_word fl w (MkFlow PrevChar (word fl + Z.of_nat (length w)) (chars fl + Z.of_nat (length w)))
      Hw Hne ltac:(lia))) by (split; [lia|done]).
    simpl. destruct Hsep as [->| ->]; simpl; apply IH; split; done.
Qed.

(** [Flow] accepts exactly the spaced texts. *)
Lemma flow_spec items :
  items ≠ [] →
  (∃ fl, flow_run Flow_new items = Some fl ∧ flow_ends fl = true) ↔ spaced items.
Proof.
  intros Hne. split.
  - intros (fl & H & He). by eapply flow_spaced in H.
  - intros H. by apply spaced_flow.
Qed.

(** ** The rules *)

Definition attrs_ok (a : Attrs) : Prop := ∀ v, a_id a = Some v → id_ok v = true.

Fixpoint text_apart (l : list Inline) : Prop :=
  match l with
  | IText _ :: (IText _ :: _) => False
  | _ :: l => text_apart l
  | [] => True
  end.

(** An element that is open at depth [d] (the number of elements around it). *)
Definition depth_ok (d : Z) : Prop := d < Policy.max_depth POLICY_V1.

Fixpoint inline_ok (d : Z) (i : Inline) : Prop :=
  let all := fix go l := match l with [] => True | i :: l => inline_ok (d + 1) i ∧ go l end in
  match i with
  | IText t => t ≠ [] ∧ Forall is_char t
  | IBr => depth_ok d
  | IStrong (MkLeaf a l) | IEm (MkLeaf a l) | ISmall (MkLeaf a l) =>
      depth_ok d ∧ attrs_ok a ∧ l ≠ [] ∧ text_apart l ∧ all l
  end.
Definition inlines_ok (d : Z) (l : list Inline) : Prop := Forall (inline_ok d) l.

Lemma inline_ok_span d i t a l :
  span_of i = Some (t, MkLeaf a l) →
  inline_ok d i ↔ depth_ok d ∧ attrs_ok a ∧ l ≠ [] ∧ text_apart l ∧ inlines_ok (d + 1) l.
Proof.
  assert (Hl : ∀ l, (fix go l := match l with [] => True | i :: l => inline_ok (d + 1) i ∧ go l end) l
    ↔ inlines_ok (d + 1) l).
  { unfold inlines_ok. induction l0 as [|x l0 IH]; [by rewrite Forall_nil|]. rewrite Forall_cons. tauto. }
  destruct i as [| |[]|[]|[]]; simpl; intros; simplify_eq; by rewrite Hl.
Qed.

(** A leaf block or list item at depth [d]. *)
Record leaf_ok (d : Z) (l : Leaf) : Prop := {
  lf_depth : depth_ok d;
  lf_attrs : attrs_ok (leaf_attrs l);
  lf_nonempty : leaf_inlines l ≠ [];
  lf_apart : text_apart (leaf_inlines l);
  lf_inlines : inlines_ok (d + 1) (leaf_inlines l);
  lf_spaced : spaced (inlines_items (leaf_inlines l));
}.

(** A container at depth [d] with the children [l]. *)
Definition container_ok {A} (ok : Z → A → Prop) (d : Z) (a : Attrs) (l : list A) : Prop :=
  depth_ok d ∧ attrs_ok a ∧ l ≠ [] ∧ Forall (ok (d + 1)) l.

Definition block_ok (d : Z) (b : Block.t) : Prop :=
  match (block_parts b).2 with
  | inl l => leaf_ok d l
  | inr l => container_ok leaf_ok d (li_attrs l) (li_items l)
  end.
Definition item_ok (d : Z) (i : MainItem.t) : Prop :=
  match i with
  | MainItem.Section_ s => container_ok block_ok d (se_attrs s) (se_blocks s)
  | MainItem.Block_ b => block_ok d b
  end.
Definition region_ok (r : Region) : Prop := container_ok block_ok 0 (re_attrs r) (re_blocks r).
Definition main_ok (m : Main_) : Prop := container_ok item_ok 0 (ma_attrs m) (ma_items m).

(** Elements and ids of the whole tree. *)
Definition leaf_count (l : Leaf) : Z := 1 + inlines_count (leaf_inlines l).
Definition leaf_ids (l : Leaf) : list str := attr_ids (leaf_attrs l) ++ inlines_ids (leaf_inlines l).
Definition block_count (b : Block.t) : Z :=
  match (block_parts b).2 with
  | inl l => leaf_count l
  | inr l => 1 + sum_Z (leaf_count <$> li_items l)
  end.
Definition block_ids (b : Block.t) : list str :=
  match (block_parts b).2 with
  | inl l => leaf_ids l
  | inr l => attr_ids (li_attrs l) ++ (li_items l ≫= leaf_ids)
  end.
Definition item_count (i : MainItem.t) : Z :=
  match i with
  | MainItem.Section_ s => 1 + sum_Z (block_count <$> se_blocks s)
  | MainItem.Block_ b => block_count b
  end.
Definition item_ids (i : MainItem.t) : list str :=
  match i with
  | MainItem.Section_ s => attr_ids (se_attrs s) ++ (se_blocks s ≫= block_ids)
  | MainItem.Block_ b => block_ids b
  end.
Definition region_count (r : option Region) : Z :=
  match r with Some r => 1 + sum_Z (block_count <$> re_blocks r) | None => 0 end.
Definition region_ids (r : option Region) : list str :=
  match r with Some r => attr_ids (re_attrs r) ++ (re_blocks r ≫= block_ids) | None => [] end.
Definition main_count (m : Main_) : Z := 1 + sum_Z (item_count <$> ma_items m).
Definition main_ids (m : Main_) : list str := attr_ids (ma_attrs m) ++ (ma_items m ≫= item_ids).

Definition page_count (p : Page) : Z :=
  region_count (header p) + main_count (main p) + region_count (footer p).
Definition page_ids (p : Page) : list str :=
  region_ids (header p) ++ main_ids (main p) ++ region_ids (footer p).

(** Every rule of the format on a tree. *)
Record page_ok (p : Page) : Prop := {
  po_lang : lang_ok (lang p) = true;
  po_title_chars : Forall is_char (title p);
  po_title_length : Z.of_nat (length (title p)) ≤ Policy.max_title_chars POLICY_V1;
  po_title : spaced (Some <$> title p);
  po_header : ∀ r, header p = Some r → region_ok r;
  po_main : main_ok (main p);
  po_footer : ∀ r, footer p = Some r → region_ok r;
  po_elements : page_count p ≤ Policy.max_elements POLICY_V1;
  po_ids : NoDup (page_ids p);
}.
