(* ===== verification/PageLex.v ===== *)
(** * What a page with no lexical finding is

    The findings as a record of notes, what is reported of them (the first code in
    reporting order, at its least offset), and S1 and S2 of [PageScan]: an input
    without a finding is within the size cap, is UTF-8 text of the character
    profile, ends in a line feed and holds no needle and no declaration. *)

From Stdlib Require Import ZifyBool.
From S2P Require Import Prelude Utf8 Evidence PagePolicy PageScan.

Local Open Scope Z_scope.
#[local] Arguments lit : simpl never.

(** ** Findings as notes *)

Lemma code_at c : RefusalCode.CODES !! code_position c = Some c.
Proof. by destruct c. Qed.

Lemma code_position_inj c d : code_position c = code_position d → c = d.
Proof. intros E. pose proof (code_at c) as Hc. rewrite E, code_at in Hc. congruence. Qed.

Lemma found_note c d o f : found (note c o f) d = bool_decide (c = d) || found f d.
Proof.
  unfold found, note. cbn [seen]. rewrite Z.lor_spec, Z.shiftl_1_l.
  rewrite orb_comm. f_equal. case_bool_decide as E.
  - subst d. apply Z.pow2_bits_true. lia.
  - apply Z.pow2_bits_false. intros H. apply E, code_position_inj. lia.
Qed.

(** No code found. *)
Definition quiet (f : LexicalFindings) : Prop := ∀ c, found f c = false.

Lemma quiet_default : quiet LexicalFindings_default.
Proof. by intros []. Qed.

Lemma quiet_note c o f : quiet (note c o f) → False.
Proof. intros H. specialize (H c). by rewrite found_note, bool_decide_eq_true_2 in H. Qed.

Lemma quiet_note_if (b : bool) c o f : quiet (if b then note c o f else f) ↔ b = false ∧ quiet f.
Proof. destruct b; split; [by intros ?%quiet_note|by intros []|done|by intros []]. Qed.

Lemma first_None f : first f = None ↔ quiet f.
Proof.
  unfold first, codes. split.
  - intros H c. destruct (found f c) eqn:Ec; [|done]. exfalso.
    assert (Hin : c ∈ filter (λ c, found f c = true) (Policy.refusal_codes POLICY_V1)).
    { apply list_elem_of_filter. split; [done|]. apply list_elem_of_In. by destruct c; vm_compute; tauto. }
    destruct (filter _ _); [by apply not_elem_of_nil in Hin|done].
  - intros H. destruct (filter _ _) as [|c l] eqn:E; [done|]. exfalso.
    assert (Hin : c ∈ filter (λ c, found f c = true) (Policy.refusal_codes POLICY_V1)) by (rewrite E; set_solver).
    apply list_elem_of_filter in Hin as [Hc _]. by rewrite (H c) in Hc.
Qed.

(** The reported code is the first in reporting order, and its offset the least
    noted one. *)
Lemma first_offset_note c d o f :
  length (first_at f) = length RefusalCode.CODES →
  first_offset (note c o f) d =
  if bool_decide (c = d) then
    Some (match first_offset f d with Some p => Z.min p (to_u32 o) | None => to_u32 o end)
  else first_offset f d.
Proof.
  intros Hl. unfold first_offset. rewrite found_note.
  assert (Hlt : (code_position c < length (first_at f))%nat).
  { rewrite Hl. apply lookup_lt_Some with c, code_at. }
  case_bool_decide as E; cbn [orb].
  - subst d. unfold note at 1. cbn [first_at]. fold (found f c). f_equal.
    destruct (found f c) eqn:Ef; cbn [negb orb]; unfold found in *; rewrite ?Ef; cbn [negb orb].
    + destruct (Z.ltb_spec (to_u32 o) (nth (code_position c) (first_at f) 0)) as [Hlt'|Hge].
      * rewrite nth_lookup, list_lookup_insert_eq by done. simpl. lia.
      * lia.
    + by rewrite nth_lookup, list_lookup_insert_eq.
  - destruct (found f d); [|done]. f_equal. unfold note. cbn [first_at].
    destruct (_ || _); [|done]. rewrite !nth_lookup, list_lookup_insert_ne; [done|].
    intros H. by apply E, code_position_inj.
Qed.

(** ** The notes of a scan *)

(** The findings are what the notes, in the order they are made, leave. *)
Definition notes (ns : list (RefusalCode.t * Z)) : LexicalFindings :=
  foldl (λ f n, note n.1 n.2 f) LexicalFindings_default ns.
Definition noted (f : LexicalFindings) : Prop := ∃ ns, f = notes ns.
(** The least offset noted of a code. *)
Definition least_note (ns : list (RefusalCode.t * Z)) (code : RefusalCode.t) (off : Z) : Prop :=
  (∃ o, (code, o) ∈ ns ∧ off = to_u32 o) ∧ ∀ o, (code, o) ∈ ns → off ≤ to_u32 o.

Lemma notes_snoc ns c o : notes (ns ++ [(c, o)]) = note c o (notes ns).
Proof. unfold notes. by rewrite foldl_app. Qed.
Lemma note_length c o f : length (first_at (note c o f)) = length (first_at f).
Proof. unfold note. cbn [first_at]. destruct (_ || _); [apply length_insert|done]. Qed.
Lemma notes_length ns : length (first_at (notes ns)) = length RefusalCode.CODES.
Proof.
  induction ns as [|[c o] ns IH] using rev_ind; [done|]. by rewrite notes_snoc, note_length.
Qed.
Lemma notes_found ns d : found (notes ns) d = true ↔ ∃ o, (d, o) ∈ ns.
Proof.
  induction ns as [|[c o] ns IH] using rev_ind.
  - change (notes []) with LexicalFindings_default. rewrite (quiet_default d). split; [done|]. intros [o Ho]. by apply not_elem_of_nil in Ho.
  - rewrite notes_snoc, found_note, orb_true_iff, bool_decide_eq_true, IH. set_solver.
Qed.
Lemma notes_least ns d off : first_offset (notes ns) d = Some off → least_note ns d off.
Proof.
  revert off. induction ns as [|[c o] ns IH] using rev_ind; intros off.
  { change (notes []) with LexicalFindings_default. unfold first_offset. by rewrite quiet_default. }
  rewrite notes_snoc, first_offset_note by apply notes_length. case_bool_decide as E.
  - subst d. destruct (first_offset (notes ns) c) as [p|] eqn:Ef; intros [= <-].
    + destruct (IH p eq_refl) as [(q & Hq & ->) Hle]. split.
      * destruct (Z.min_spec (to_u32 q) (to_u32 o)) as [[_ ->]|[_ ->]]; [exists q|exists o]; set_solver.
      * intros x. rewrite elem_of_app, list_elem_of_singleton. intros [Hx|[= ->]]; [specialize (Hle x Hx)|]; lia.
    + split; [exists o; set_solver|]. intros x. rewrite elem_of_app, list_elem_of_singleton. intros [Hx|[= ->]]; [|done].
      exfalso. unfold first_offset in Ef. rewrite (proj2 (notes_found ns c)) in Ef by eauto. done.
  - intros Hf. destruct (IH off Hf) as [(q & Hq & ->) Hle]. split; [exists q; set_solver|]. intros x Hx. apply Hle. set_solver.
Qed.

Lemma noted_note c o f : noted f → noted (note c o f).
Proof. intros [ns ->]. exists (ns ++ [(c, o)]). by rewrite notes_snoc. Qed.
Lemma noted_chunk at_ s f : noted f → noted (valid_chunk at_ s f).
Proof. revert at_ f. induction s as [|c s IH]; intros at_ f Hf; [done|]. apply IH. destruct (char_code at_ c); auto using noted_note. Qed.
Lemma noted_chunks base l f : noted f → noted (chunks base l f).
Proof.
  revert base f. induction l as [|[v k] l IH]; intros base f Hf; [done|]. simpl.
  destruct k; auto using noted_note, noted_chunk.
Qed.
Lemma noted_attribute raw at_ f : noted f → noted (attribute_name raw at_ f).
Proof. intros Hf. unfold attribute_name. repeat case_match; auto using noted_note. Qed.
Lemma noted_attributes fuel at_ s f : noted f → noted (attributes fuel at_ s f).2.
Proof.
  revert at_ s f. induction fuel as [|fuel IH]; intros at_ s f Hf; [done|]. cbn [attributes].
  repeat case_match; simpl; auto using noted_attribute.
Qed.
Lemma noted_tag end_tag raw at_ styles f : noted f → noted (tag_findings end_tag raw at_ styles f).2.
Proof.
  intros Hf. unfold tag_findings. destruct (bool_decide _); [by apply noted_note|].
  destruct (negb _); [by apply noted_note|]. repeat case_match; simplify_eq; simpl; auto using noted_note.
Qed.
Lemma noted_tags fuel styles at_ s f : noted f → noted (tags fuel styles at_ s f).
Proof.
  revert styles at_ s f. induction fuel as [|fuel IH]; intros styles at_ s f Hf; [done|]. destruct s as [|b r]; [done|].
  cbn [tags]. destruct (negb _); [by apply IH|]. destruct (tag_start r) as [[end_tag from]|]; [|by apply IH].
  destruct (span _ from) as [raw rest]. pose proof (noted_tag end_tag raw at_ styles f Hf) as Ht.
  destruct (tag_findings _ _ _ _ _) as [st1 f1].
  pose proof (noted_attributes (S (length rest)) (at_ + (if end_tag then 2 else 1) + zlen raw) rest f1 Ht) as Ha.
  destruct (attributes _ _ _ _) as [[at2 s2] f2]. by apply IH.
Qed.
Lemma noted_anywhere s at_ f : noted f → noted (anywhere s at_ f).
Proof.
  intros Hf. unfold anywhere. assert (H0 : noted (entity s at_ (declaration s at_ f))).
  { unfold entity, declaration. repeat case_match; auto using noted_note. }
  revert H0. generalize (entity s at_ (declaration s at_ f)). induction (Policy.needles POLICY_V1) as [|n l IH]; intros f' H'; [done|].
  simpl. apply IH. destruct (needle_at _ _); auto using noted_note.
Qed.
Lemma noted_everywhere at_ s f : noted f → noted (everywhere at_ s f).
Proof. revert at_ f. induction s as [|b s IH]; intros at_ f Hf; [done|]. by apply IH, noted_anywhere. Qed.
Lemma scan_noted input : noted (scan input).
Proof.
  assert (H0 : noted LexicalFindings_default) by by exists [].
  unfold scan. destruct (_ <? _); [by apply noted_note|]. apply noted_everywhere, noted_tags.
  destruct (negb _); [apply noted_note|]; by apply noted_chunks.
Qed.

(** The finding reported: of the codes noted the first in reporting order, at its least offset. *)
Lemma first_reported ns code off :
  first (notes ns) = Some (code, off) →
  ∃ before after, Policy.refusal_codes POLICY_V1 = before ++ code :: after ∧
    (∀ d o, (d, o) ∈ ns → d ∉ before) ∧ least_note ns code off.
Proof.
  unfold first, codes. intros E.
  assert (Hs : ∀ l, match filter (λ c, found (notes ns) c = true) l with
    | c :: _ => ∃ before after, l = before ++ c :: after ∧ found (notes ns) c = true ∧
                  ∀ d, d ∈ before → found (notes ns) d = false
    | [] => True end).
  { induction l as [|c l IH]; [done|]. rewrite filter_cons. case_decide as Hc.
    - exists [], l. split_and!; [done|done|]. by intros d ?%not_elem_of_nil.
    - destruct (filter _ l) as [|x xs]; [done|]. destruct IH as (before & after & -> & Hx & Hb).
      exists (c :: before), after. split_and!; [done|done|]. intros d [->|Hd]%elem_of_cons; [|by apply Hb].
      by destruct (found (notes ns) c). }
  specialize (Hs (Policy.refusal_codes POLICY_V1)). destruct (filter _ _) as [|c l]; [done|]. injection E as -> E.
  destruct Hs as (before & after & -> & Hc & Hb). exists before, after. split_and!; [done| |].
  - intros d o Hd Hin. specialize (Hb d Hin). rewrite (proj2 (notes_found ns d)) in Hb by eauto. done.
  - apply notes_least. unfold first_offset. by rewrite Hc, E.
Qed.

(** ** Characters *)

Definition char_allowed (c : Z) : Prop := c = LF ∨ in_ranges (Policy.profile_ranges POLICY_V1) c = true.

Lemma char_code_None at_ c : char_code at_ c = None ↔ char_allowed c.
Proof.
  unfold char_allowed, char_code. destruct (Z.eqb_spec c LF) as [->|Hlf]; [by split; auto|].
  unfold in_ranges. simpl. unfold LF in *. repeat case_match; split; intros; try done; simpl in *; try lia; right; lia.
Qed.

Lemma valid_chunk_quiet at_ s f : quiet (valid_chunk at_ s f) ↔ quiet f ∧ Forall char_allowed s.
Proof.
  revert at_ f. induction s as [|c s IH]; intros at_ f; cbn [valid_chunk]; [by split; [split|intros []]|].
  rewrite IH, Forall_cons, <- (char_code_None at_). destruct (char_code at_ c); [|tauto].
  split; [intros [?%quiet_note _]; done|by intros (_ & [=] & _)].
Qed.

Lemma chunks_quiet base l f :
  quiet (chunks base l f) ↔ quiet f ∧ Forall (λ c : str * nat, c.2 = 0%nat ∧ Forall char_allowed c.1) l.
Proof.
  revert base f. induction l as [|[v k] l IH]; intros base f; cbn [chunks]; [by split; [split|intros []]|].
  rewrite Forall_cons. destruct k; rewrite IH, ?valid_chunk_quiet; cbn [fst snd].
  - tauto.
  - split; [intros [?%quiet_note _]; done|by intros (_ & ([=] & _) & _)].
Qed.

Lemma chunks_of_valid l :
  Forall (λ c : str * nat, c.2 = 0%nat ∧ Forall char_allowed c.1) (chunks_of l) →
  (∀ n, PInvalid n ∈ l → n ≠ 0%nat) → ∃ s, valid_chars l = Some s ∧ Forall char_allowed s.
Proof.
  induction l as [|[c|n] l IH]; intros H Hn; cbn [chunks_of] in H; [exists []; by split; [|constructor]|..].
  - assert (Hl : Forall (λ c : str * nat, c.2 = 0%nat ∧ Forall char_allowed c.1) (chunks_of l) ∧ char_allowed c).
    { destruct (chunks_of l) as [|[v k] cs].
      - apply Forall_cons in H as [[_ H]%id _]. by apply Forall_cons in H as [? _].
      - apply Forall_cons in H as [[Hk Hv] H]. cbn [fst snd] in *. apply Forall_cons in Hv as [Hc Hv].
        split; [by constructor|done]. }
    destruct Hl as [Hl Hc]. destruct (IH Hl) as (s & Hs & Hall); [set_solver|].
    exists (c :: s). cbn [valid_chars]. rewrite Hs. by split; [|constructor].
  - apply Forall_cons in H as [[Hk _] _]. cbn in Hk. exfalso. apply (Hn n); set_solver.
Qed.

Lemma pieces_invalid b n : PInvalid n ∈ utf8_pieces b → n ≠ 0%nat.
Proof.
  remember (length b) as k eqn:Hk. assert (Hle : (length b ≤ k)%nat) by lia. clear Hk.
  revert b Hle. induction k as [|k IH]; intros [|b0 b] Hle H;
    try (by apply not_elem_of_nil in H); [simpl in Hle; lia|]. simpl in Hle.
  cbn [utf8_pieces] in H. repeat case_match; subst;
    try (apply elem_of_cons in H as [H|H]; [simplify_eq; done|]);
    try (by apply not_elem_of_nil in H); (eapply IH; [|exact H]); simpl in *; lia.
Qed.

(** S1 on characters: a text of allowed characters. *)
Lemma characters_quiet input f :
  quiet (characters input f) → quiet f ∧ ∃ s, from_utf8 input = Some s ∧ Forall char_allowed s.
Proof.
  unfold characters, utf8_chunks. intros [Hf Hl]%chunks_quiet. split; [done|].
  apply chunks_of_valid in Hl as (s & Hs & Hall); [by exists s|]. intros n. apply pieces_invalid.
Qed.

(** ** Tags keep what was found *)

Definition grows (f f' : LexicalFindings) : Prop := ∀ c, found f c = true → found f' c = true.
#[export] Instance grows_preorder : PreOrder grows.
Proof. split; [by intros f c|]. intros f g h H1 H2 c H. auto. Qed.

Lemma grows_refl f : grows f f.
Proof. done. Qed.
Lemma grows_note c o f : grows f (note c o f).
Proof. intros d H. by rewrite found_note, H, orb_true_r. Qed.

Lemma grows_quiet f f' : grows f f' → quiet f' → quiet f.
Proof.
  intros Hg Hq c. destruct (found f c) eqn:E; [|done]. apply Hg in E. by rewrite (Hq c) in E.
Qed.

Create HintDb findings.
#[export] Hint Resolve grows_note grows_refl : findings.

Lemma attribute_name_grows raw at_ f : grows f (attribute_name raw at_ f).
Proof. unfold attribute_name. repeat case_match; auto with findings. Qed.

Lemma attributes_grows fuel at_ s f : grows f (attributes fuel at_ s f).2.
Proof.
  revert at_ s f. induction fuel as [|fuel IH]; intros at_ s f; cbn [attributes]; [done|].
  repeat case_match; cbn [snd]; try done;
    first [etrans; [apply attribute_name_grows|apply IH] | apply attribute_name_grows].
Qed.

Lemma tag_findings_grows e raw at_ styles f : grows f (tag_findings e raw at_ styles f).2.
Proof.
  unfold tag_findings. repeat case_match; simplify_eq; cbn [snd]; auto with findings.
  etrans; apply grows_note.
Qed.

Lemma tags_grows fuel styles at_ s f : grows f (tags fuel styles at_ s f).
Proof.
  revert styles at_ s f. induction fuel as [|fuel IH]; intros styles at_ s f; [done|].
  destruct s as [|b r]; cbn [tags]; [done|]. destruct (negb _); [apply IH|].
  destruct (tag_start r) as [[e from]|]; [|apply IH]. destruct (span _ from) as [raw s].
  pose proof (tag_findings_grows e raw at_ styles f) as H1. destruct (tag_findings _ _ _ _ _) as [styles' f1].
  pose proof (attributes_grows (S (length s)) (at_ + (if e then 2 else 1) + zlen raw) s f1) as H2.
  destruct (attributes _ _ _ _) as [[at' s'] f2]. etrans; [exact H1|]. etrans; [exact H2|]. apply IH.
Qed.

(** ** At every offset *)

(** What may stand at one offset. *)
Record offset_clean (at_ : Z) (s : bytes) : Prop := {
  oc_declaration : ∀ d, d ∈ Policy.declarations POLICY_V1 → starts_with s d.1 = true →
    at_ = 0 ∧ List.find (λ d, starts_with s d.1) (Policy.declarations POLICY_V1)
              = Some (lit "<!", RefusalCode.MarkupDeclaration);
  oc_entity : ∀ r, s = 38 :: r → ∃ e, e ∈ Policy.entities POLICY_V1 ∧ starts_with s e.2 = true;
  oc_needle : ∀ n, n ∈ Policy.needles POLICY_V1 → needle_at s n.1 = false;
}.

Lemma needles_quiet s at_ ns f :
  quiet (foldl (λ f n, if needle_at s n.1 then note n.2 at_ f else f) f ns) →
  quiet f ∧ ∀ n : str * RefusalCode.t, n ∈ ns → needle_at s n.1 = false.
Proof.
  revert f. induction ns as [|n ns IH]; intros f H; simpl in H; [split; [done|set_solver]|].
  apply IH in H as [[Hn Hf]%quiet_note_if Hns]. split; [done|].
  intros m [->|Hm]%elem_of_cons; auto.
Qed.

Lemma anywhere_quiet s at_ f : quiet (anywhere s at_ f) → quiet f ∧ (s ≠ [] → offset_clean at_ s).
Proof.
  unfold anywhere. intros [Hf Hn]%needles_quiet.
  assert (He : quiet (declaration s at_ f) ∧
    ∀ r, s = 38 :: r → ∃ e, e ∈ Policy.entities POLICY_V1 ∧ starts_with s e.2 = true).
  { unfold entity in Hf. destruct s as [|b r]; [split; [done|congruence]|].
    apply quiet_note_if in Hf as [Hb Hd]. split; [done|]. intros r' [= -> ->].
    apply andb_false_iff in Hb as [Hb|Hb%negb_false_iff]; [done|].
    apply existsb_exists in Hb as (e & Hin & Hs). exists e. by split; [apply list_elem_of_In|]. }
  destruct He as [Hd He]. unfold declaration in Hd.
  destruct (List.find _ _) as [[m code]|] eqn:Ef.
  - apply quiet_note_if in Hd as [Hc%negb_false_iff Hq]. split; [done|]. intros _.
    apply andb_prop in Hc as [Hc%bool_decide_eq_true Hat%Z.eqb_eq]. subst code. split; [|done..].
    intros d Hd Hs. split; [done|]. rewrite Ef. apply List.find_some in Ef as [Hin _]. f_equal.
    vm_compute in Hin. destruct Hin as [|[|[|[]]]]; by simplify_eq.
  - split; [done|]. intros _. split; [|done..]. intros d Hin Hs. apply list_elem_of_In in Hin.
    pose proof (find_none _ _ Ef d Hin). cbn in *. congruence.
Qed.

Lemma everywhere_quiet at_ s f :
  quiet (everywhere at_ s f) →
  quiet f ∧ ∀ pre suf, s = pre ++ suf → suf ≠ [] → offset_clean (at_ + zlen pre) suf.
Proof.
  revert at_ f. induction s as [|b r IH]; intros at_ f H.
  - split; [done|]. intros pre suf E. by destruct pre, suf.
  - cbn [everywhere] in H. apply IH in H as [[Hf Hs]%anywhere_quiet Hr]. split; [done|].
    intros [|c pre] suf E Hne; simpl in E.
    + subst suf. rewrite Z.add_0_r. auto.
    + injection E as <- E. specialize (Hr _ _ E Hne). unfold zlen in *. simpl length.
      by replace (at_ + Z.of_nat (S (length pre))) with (at_ + 1 + Z.of_nat (length pre)) by lia.
Qed.

(** An input with no finding. *)
Record lex_clean (input : bytes) : Prop := {
  lc_size : zlen input ≤ Policy.max_page_bytes POLICY_V1;
  lc_text : ∃ s, from_utf8 input = Some s ∧ Forall char_allowed s;
  lc_newline : last input = Some LF;
  lc_offsets : ∀ pre suf, input = pre ++ suf → suf ≠ [] → offset_clean (zlen pre) suf;
}.

Lemma scan_clean input : first (scan input) = None → lex_clean input.
Proof.
  intros H%first_None. unfold scan in H.
  destruct (Z.ltb_spec (Policy.max_page_bytes POLICY_V1) (zlen input)); [by apply quiet_note in H|].
  apply everywhere_quiet in H as [H Ho]. apply (grows_quiet _ _ (tags_grows _ _ _ _ _)) in H.
  apply quiet_note_if in H as [Hl H]. apply negb_false_iff, bool_decide_eq_true in Hl.
  by apply characters_quiet in H as [_ Ht].
Qed.
