(* ===== verification/PageSound.v ===== *)
(** * The parse of a page ends, in a tree that meets the rules

    Soundness of [PageParse]: with the fuel each loop starts with the parse never
    runs out of fuel, and a tree it returns is within the depth, element, id,
    spacing and length rules. *)

From S2P Require Import Prelude Utf8 Evidence PagePolicy PageScan PageTree PageParse PageRules.

Local Open Scope Z_scope.
Local Open Scope parse_scope.
#[local] Arguments lit : simpl never.
#[local] Arguments js : simpl never.

(** ** Weakest preconditions *)

Definition wp {A} (m : M A) (Q : A → Parser → Prop) (st : Parser) : Prop :=
  match m st with Done a st' => Q a st' | Failed _ => True | OutOfFuel => False end.

Lemma wpp_bind {A B} (m : M A) (k : A → M B) Q st :
  wp m (λ a st, wp (k a) Q st) st → wp (bind m k) Q st.
Proof. unfold wp, bind. by destruct (m st). Qed.

Lemma wpp_mono {A} (m : M A) (Q Q' : A → Parser → Prop) st :
  wp m Q st → (∀ a st', Q a st' → Q' a st') → wp m Q' st.
Proof. unfold wp. destruct (m st); auto. Qed.

Lemma wp_ret {A} (a : A) Q st : Q a st → wp (ret a) Q st.
Proof. done. Qed.
Lemma wp_get Q st : Q st st → wp get Q st.
Proof. done. Qed.
Lemma wp_put s Q st : Q tt s → wp (put_state s) Q st.
Proof. done. Qed.
Lemma wp_fail {A} c p (Q : A → Parser → Prop) st : wp (fail c p) Q st.
Proof. done. Qed.
Lemma wp_fail_here {A} c (Q : A → Parser → Prop) st : wp (fail_here c) Q st.
Proof. done. Qed.
Lemma wp_foreign {A} n b (Q : A → Parser → Prop) st : wp (foreign_end n b) Q st.
Proof. done. Qed.
Lemma wp_misplaced {A} (Q : A → Parser → Prop) st : wp misplaced Q st.
Proof. unfold wp, misplaced. by destruct (peek st). Qed.
Lemma wp_lift {A} (r : result A Fail) (Q : A → Parser → Prop) st :
  (∀ a, r = Ok a → Q a st) → wp (lift r) Q st.
Proof. unfold wp, lift. destruct r; auto. Qed.

Create HintDb parse.
#[export] Hint Resolve wp_ret wp_get wp_put wp_fail wp_fail_here wp_foreign wp_misplaced : parse.

(** ** What a successful step did *)

Definition within (st : Parser) : Prop :=
  Forall is_char (rest st) ∧ elements st ≤ Policy.max_elements POLICY_V1.

(** From [st] to [st'], with the open elements [o], [n] more elements and the new
    ids [i]. *)
Record step (st st' : Parser) (o : list Tag.t) (n : Z) (i : list str) : Prop := {
  st_within : within st';
  st_open : open_ st' = o;
  st_shorter : (length (rest st') ≤ length (rest st))%nat;
  st_elements : elements st' = elements st + n;
  st_ids : ids st' = list_to_set i ∪ ids st;
  st_nodup : NoDup i;
  st_new : ∀ v, v ∈ i → v ∉ ids st;
}.

Lemma step_refl st : within st → step st st (open_ st) 0 [].
Proof. intros H. split; [done..|lia|set_solver|constructor|set_solver]. Qed.

Lemma step_trans st st1 st2 o1 o2 n1 n2 i1 i2 :
  step st st1 o1 n1 i1 → step st1 st2 o2 n2 i2 → step st st2 o2 (n1 + n2) (i1 ++ i2).
Proof.
  intros [W1 O1 S1 E1 I1 D1 N1] [W2 O2 S2 E2 I2 D2 N2].
  split; [done|done|lia|lia|rewrite I2, I1; set_solver| |].
  - apply NoDup_app. split_and!; [done| |done]. intros v Hv Hv2. apply N2 in Hv2. set_solver.
  - intros v [Hv|Hv]%elem_of_app; [by apply N1|]. apply N2 in Hv. set_solver.
Qed.

Lemma step_rest st r :
  within st → (length r ≤ length (rest st))%nat → Forall is_char r → step st (set_rest r st) (open_ st) 0 [].
Proof. intros [H1 H2] Hr Hc. split; simpl; [by split|done|done|lia|set_solver|constructor|set_solver]. Qed.

Lemma step_advance st n : within st → step st (advance n st) (open_ st) 0 [].
Proof.
  intros H. apply step_rest; [done|rewrite length_drop; lia|]. apply Forall_drop. apply H.
Qed.

(** Further steps that add no element and no id. *)
Lemma step_then st st1 st2 o1 o2 n i : step st st1 o1 n i → step st1 st2 o2 0 [] → step st st2 o2 n i.
Proof.
  intros H1 H2. pose proof (step_trans _ _ _ _ _ _ _ _ _ H1 H2) as H.
  by rewrite Z.add_0_r, app_nil_r in H.
Qed.

Lemma step_skip st st1 o n i b r : step st st1 o n i → rest st1 = b :: r → step st (set_rest r st1) o n i.
Proof.
  intros H E. eapply step_then; [done|]. rewrite <- (st_open _ _ _ _ _ H).
  destruct (st_within _ _ _ _ _ H) as [Hc He]. rewrite E in Hc.
  apply step_rest; [split; [by rewrite E|done]|rewrite E; simpl; lia|by inversion Hc].
Qed.

Lemma advance_shorter st n : rest st ≠ [] → (0 < n)%nat → (length (rest (advance n st)) < length (rest st))%nat.
Proof. intros H Hn. simpl. rewrite length_drop. destruct (rest st); simpl in *; [done|lia]. Qed.

(** ** Text *)

Lemma flow_char_step c p fl fl' : flow_char c p fl = Ok fl' → flow_step fl (Some c) = Some fl'.
Proof. unfold flow_step, flow_char. intros. repeat case_match; naive_solver. Qed.
Lemma flow_br_step p fl fl' : flow_br p fl = Ok fl' → flow_step fl None = Some fl'.
Proof. unfold flow_step, flow_br. intros. repeat case_match; naive_solver. Qed.

Lemma entity_at_Some s c e :
  entity_at s = Some (c, e) → (c, e) ∈ Policy.entities POLICY_V1 ∧ e `prefix_of` s.
Proof.
  intros [Hin Hp]%List.find_some. split; [by apply list_elem_of_In|]. simpl in Hp.
  unfold starts_with in Hp. by apply bool_decide_eq_true_1 in Hp.
Qed.

Lemma entities_facts : Forall (λ e : Z * str, is_char e.1 ∧ e.2 ≠ []) (Policy.entities POLICY_V1).
Proof. repeat constructor; try done; left; simpl; lia. Qed.

Definition text_post (fl : Flow) (in_title : bool) (st : Parser) (r : str * Flow) (st' : Parser) : Prop :=
  step st st' (open_ st) 0 [] ∧ Forall is_char r.1 ∧ flow_run fl (Some <$> r.1) = Some r.2 ∧
  (in_title = true → r.1 ≠ [] → chars r.2 ≤ Policy.max_title_chars POLICY_V1) ∧
  (∀ b s, rest st = b :: s → b ≠ 60 → r.1 ≠ [] ∧ (length (rest st') < length (rest st))%nat) ∧
  (rest st' = [] ∨ ∃ s, rest st' = 60 :: s).

Lemma text_run_sound fuel fl in_title st :
  (length (rest st) < fuel)%nat → within st →
  wp (text_run fuel fl in_title) (text_post fl in_title st) st.
Proof.
  revert fl st. induction fuel as [|fuel IH]; intros fl st Hf Hw; [lia|].
  unfold wp. cbn [text_run]. destruct (rest st) as [|b r] eqn:Er.
  { split_and!; [by apply step_refl|by apply Forall_nil|done|done|congruence|by left]. }
  destruct (Z.eqb_spec b 60) as [->|Hb].
  { split_and!; [by apply step_refl|by apply Forall_nil|done|done|intros; congruence|right; eauto]. }
  assert (Hc : Forall is_char (b :: r)) by (rewrite <- Er; apply Hw).
  match goal with |- match bind ?m ?k st with _ => _ end => change (wp (bind m k) (text_post fl in_title st) st) end.
  apply wpp_bind.
  apply (wpp_mono _ (λ p st0, st0 = st ∧ is_char p.1 ∧ step st p.2 (open_ st) 0 [] ∧
    (length (rest p.2) < length (rest st))%nat)).
  { destruct (b =? 38).
    - destruct (entity_at (b :: r)) as [[c e]|] eqn:Ee; [|done].
      apply entity_at_Some in Ee as [Hin _]. pose proof (proj1 (Forall_forall _ _) entities_facts _ Hin) as [Hch He].
      apply wp_ret. split_and!; [done..|by apply step_advance|]. apply advance_shorter; [congruence|].
      by destruct e; [|simpl; lia].
    - destruct (b =? 62); [done|]. apply wp_ret. apply Forall_cons in Hc as [Hc Hr]. simpl.
      split_and!; [done..| |rewrite Er; simpl; lia]. apply step_rest; [done|rewrite Er; simpl; lia|done]. }
  intros [c st1] st0 (-> & Hch & Hs1 & Hlt). simpl in *. apply wpp_bind, wp_lift. intros fl1 Hfl%flow_char_step.
  destruct (in_title && _) eqn:Et; [done|]. apply wpp_bind, wp_put, wpp_bind.
  rewrite Er in Hlt. simpl in Hlt. eapply wpp_mono; [apply IH; [lia|apply Hs1]|].
  intros [out fl2] st2 (Hs2 & Hout & Hrun & Hmax & _ & Hend). apply wp_ret. simpl in *.
  rewrite (st_open _ _ _ _ _ Hs1) in Hs2. split_and!; simpl.
  - apply (step_trans _ _ _ _ _ _ _ _ _ Hs1 Hs2).
  - by constructor.
  - by rewrite Hfl.
  - intros -> _. destruct out as [|d out]; [|by apply Hmax]. simpl in Hrun. simplify_eq.
    simpl in Et. apply Z.ltb_ge in Et. done.
  - intros _ _ _ _. split; [done|]. pose proof (st_shorter _ _ _ _ _ Hs2). rewrite Er. simpl. lia.
  - done.
Qed.

Lemma run_text_sound fl in_title st :
  within st → wp (run_text fl in_title) (text_post fl in_title st) st.
Proof. intros H. unfold run_text. apply (text_run_sound _ _ _ _); [lia|done]. Qed.

(** ** Tags *)

Lemma span_app (p : Z → bool) s : (span p s).1 ++ (span p s).2 = s.
Proof. induction s as [|b s IH]; simpl; [done|]. destruct (p b); [|done]. destruct (span p s). simpl in *. by rewrite IH. Qed.

Lemma span_rest p s : (length (span p s).2 ≤ length s)%nat ∧ (Forall is_char s → Forall is_char (span p s).2).
Proof.
  pose proof (span_app p s) as E. split; [rewrite <- E at 2; rewrite length_app; lia|].
  intros H. rewrite <- E in H. by apply Forall_app in H as [_ ?].
Qed.

Lemma attr_value_sound st :
  within st → wp attr_value (λ _ st', step st st' (open_ st) 0 [] ∧ (length (rest st') ≤ length (rest st))%nat) st.
Proof.
  intros Hw. unfold wp, attr_value. destruct (negb _); [done|].
  pose proof (span_rest (λ b, negb (b =? 34)) (rest (advance 2 st))) as [Hl Hc].
  destruct (span _ _) as [value s]. simpl in Hl, Hc. destruct s as [|q s]; [done|].
  assert (Hlen : (length s ≤ length (rest st))%nat) by (rewrite length_drop in Hl; simpl in Hl; lia).
  split; [|done]. apply (step_rest st s); [done|done|].
  apply Forall_inv_tail in Hc; [done|]. apply Forall_drop. apply Hw.
Qed.

(** The attributes of a start tag, through its [>]. *)
Lemma attributes_sound fuel attrs has_class has_id st :
  (length (rest st) < fuel)%nat → within st → attrs_ok attrs → (has_id = false → a_id attrs = None) →
  wp (attributes fuel attrs has_class has_id)
    (λ a st', attrs_ok a ∧ (length (rest st') < length (rest st))%nat ∧
      ∃ i, attr_ids a = attr_ids attrs ++ i ∧ step st st' (open_ st) 0 i) st.
Proof.
  revert attrs has_class has_id st.
  induction fuel as [|fuel IH]; intros attrs has_class has_id st Hf Hw Ha Hid; [lia|].
  unfold wp. cbn [attributes]. destruct (rest st) as [|b r] eqn:Er; [done|]. simpl in Hf.
  assert (Hc : Forall is_char r) by (destruct Hw as [Hw _]; rewrite Er in Hw; by inversion Hw).
  destruct (b =? 62).
  { split_and!; [done|simpl; lia|]. exists []. rewrite app_nil_r. split; [done|].
    apply step_rest; [done|rewrite Er; simpl; lia|done]. }
  destruct (b =? 47); [done|]. destruct (negb _); [done|].
  pose proof (span_rest is_name_char r) as [Hl Hs]. destruct (span is_name_char r) as [name s]. simpl in Hl, Hs.
  destruct (_ || _ || _) eqn:Edup; [done|]. destruct (negb _ && negb _) eqn:Eno; [done|].
  set (st1 := set_rest s (set_rest r st)).
  assert (H1 : step st st1 (open_ st) 0 [])
    by (apply (step_rest st s); [done|rewrite Er; simpl; lia|auto]).
  match goal with |- match ?m st1 with _ => _ end =>
    change (wp m (λ a st', attrs_ok a ∧ (length (rest st') < S (length r))%nat ∧
      ∃ i, attr_ids a = attr_ids attrs ++ i ∧ step st st' (open_ st) 0 i) st1) end.
  apply wpp_bind. eapply wpp_mono; [apply attr_value_sound, H1|].
  intros [value_pos value] st2 [H2 Hlen2]. simpl in Hlen2.
  pose proof (step_trans _ _ _ _ _ _ _ _ _ H1 H2) as H12. simpl in H12.
  destruct (bool_decide (name = (Policy.body_attributes POLICY_V1).1)) eqn:Ecl.
  - destruct (List.find _ _) as [class|]; [|done].
    eapply wpp_mono; [apply IH; [lia|apply H12|done|done]|]. simpl.
    intros a st3 (Hok & Hlt & i & Hi & H3). split_and!; [done|lia|]. exists i. split; [done|].
    rewrite (st_open _ _ _ _ _ H12) in H3. apply (step_trans _ _ _ _ _ _ _ _ _ H12 H3).
  - destruct (id_ok value) eqn:Eid; [|done]. apply wpp_bind, wp_get.
    destruct (bool_decide_reflect (value ∈ ids st2)) as [|Hnew]; [done|].
    apply wpp_bind, wp_put. set (st3 := set_ids _ st2).
    assert (H3 : step st2 st3 (open_ st2) 0 [value]).
    { split; simpl; [apply H12|done|lia|lia|set_solver|apply NoDup_singleton|set_solver]. }
    assert (Hnone : a_id attrs = None).
    { apply Hid. destruct has_id; [|done]. rewrite andb_true_l in Eno. apply negb_false_iff in Eno.
      rewrite Eno in Edup. rewrite !orb_true_r in Edup. done. }
    pose proof (step_trans _ _ _ _ _ _ _ _ _ H12 H3) as H123.
    eapply wpp_mono; [apply IH; [simpl; lia|apply H123| |done]|].
    { intros v [= <-]. done. }
    simpl. intros a st4 (Hok & Hlt & i & Hi & H4). split_and!; [done|simpl in Hlt; lia|].
    exists (value :: i). split; [by rewrite Hi; unfold attr_ids; rewrite Hnone|].
    pose proof (step_trans _ _ _ _ _ _ _ _ _ H123 H4) as H. simpl in H.
    by rewrite (st_open _ _ _ _ _ H12) in H.
Qed.

(** The depth of the next element. *)
Definition depth (st : Parser) : Z := Z.of_nat (length (open_ st)).

Lemma enter_sound t st :
  within st →
  wp (enter t) (λ _ st', step st st' (open_ st ++ [t]) 1 [] ∧ depth_ok (depth st) ∧ rest st' = rest st) st.
Proof.
  intros [Hc He]. unfold wp, enter.
  destruct (Z.ltb_spec (Policy.max_elements POLICY_V1) (elements st + 1)); [done|].
  destruct (Z.leb_spec (Policy.max_depth POLICY_V1) (Z.of_nat (length (open_ st)))); [done|].
  split_and!; [|done..]. split; simpl; [split; done|done|lia|lia|set_solver|constructor|set_solver].
Qed.

Lemma leave_sound o t st st0 n i :
  step st st0 (o ++ [t]) n i → wp leave (λ _ st', step st st' o n i ∧ rest st' = rest st0) st0.
Proof.
  intros [Hw Ho Hs He Hi Hd Hn]. unfold wp, leave. split; [|done]. split; try done. simpl.
  rewrite Ho, length_app, Nat.add_sub. by rewrite take_app_length.
Qed.

(** A start tag where the text begins with one. *)
Lemma start_tag_sound t st :
  within st → t ≠ Tag.Br → rest st ≠ [] →
  wp (start_tag t) (λ a st', step st st' (open_ st ++ [t]) 1 (attr_ids a) ∧ attrs_ok a ∧
    depth_ok (depth st) ∧ (length (rest st') < length (rest st))%nat) st.
Proof.
  intros Hw Ht Hne. unfold start_tag. apply wpp_bind. eapply wpp_mono; [by apply enter_sound|].
  intros _ st1 (H1 & Hd & Er). apply wpp_bind, wp_get. rewrite bool_decide_eq_false_2 by done.
  apply wpp_bind, wp_put. set (st2 := advance _ st1).
  assert (H2 : step st st2 (open_ st ++ [t]) 1 []).
  { rewrite <- (st_open _ _ _ _ _ H1). apply (step_trans _ _ _ _ _ _ _ _ _ H1 (step_advance st1 _ (st_within _ _ _ _ _ H1))). }
  eapply wpp_mono; [apply attributes_sound; [lia|apply H2|done|done]|].
  intros a st3 (Ha & Hlt & i & Hi & H3). split_and!; [|done..|].
  - simpl in Hi. subst i. rewrite (st_open _ _ _ _ _ H2) in H3. apply (step_trans _ _ _ _ _ _ _ _ _ H2 H3).
  - pose proof (st_shorter _ _ _ _ _ H2). lia.
Qed.

Lemma br_tag_sound st :
  within st → rest st ≠ [] →
  wp (start_tag Tag.Br) (λ _ st', step st st' (open_ st) 1 [] ∧ depth_ok (depth st) ∧
    (length (rest st') < length (rest st))%nat) st.
Proof.
  intros Hw Hne. unfold start_tag. apply wpp_bind. eapply wpp_mono; [by apply enter_sound|].
  intros _ st1 (H1 & Hd & Er). apply wpp_bind, wp_get. rewrite bool_decide_eq_true_2 by done.
  set (st2 := advance _ st1). destruct (rest st2) as [|b r] eqn:E2; [done|]. destruct (b =? 62); [|done].
  pose proof (st_within _ _ _ _ _ H1) as Hw1.
  pose proof (step_then _ _ _ _ _ _ _ H1 (step_advance st1 (1 + length (Tag.name Tag.Br)) Hw1)) as H2. fold st2 in H2.
  assert (Hlen : (length r < length (rest st))%nat).
  { rewrite <- Er. apply (f_equal length) in E2. revert E2. simpl. rewrite length_drop. lia. }
  assert (H3 : step st (set_rest r st2) (open_ st ++ [Tag.Br]) 1 []).
  { rewrite <- (st_open _ _ _ _ _ H1). by eapply step_skip. }
  apply wpp_bind, wp_put, wpp_bind. eapply wpp_mono; [by eapply leave_sound|].
  intros _ st3 [H Hr]. apply wp_ret. split_and!; [done..|]. by rewrite Hr.
Qed.

Lemma end_tag_sound t o st :
  within st → open_ st = o ++ [t] → wp (end_tag t) (λ _ st', step st st' o 0 []) st.
Proof.
  intros Hw Ho. unfold end_tag. apply wpp_bind, wp_get. set (st1 := advance _ st).
  destruct (rest st1) as [|b r] eqn:E1; [done|]. destruct (b =? 62); [|done].
  apply wpp_bind, wp_put. pose proof (step_advance st (2 + length (Tag.name t)) Hw) as H1. fold st1 in H1.
  assert (H2 : step st (set_rest r st1) (o ++ [t]) 0 []).
  { rewrite <- Ho. by eapply step_skip. }
  eapply wpp_mono; [by eapply leave_sound|]. by intros _ st' [H _].
Qed.

Lemma optional_lf_sound st : within st → wp optional_lf (λ _ st', step st st' (open_ st) 0 []) st.
Proof.
  intros Hw. unfold wp, optional_lf. destruct (rest st) as [|b r] eqn:Er; [by apply step_refl|].
  destruct (b =? LF); [|by apply step_refl]. eapply step_skip; [by apply step_refl|done].
Qed.

(** ** Inline content *)

Definition is_text (i : Inline) : bool := match i with IText _ => true | _ => false end.

Lemma text_apart_snoc out x :
  text_apart out → (∀ o t, out = o ++ [IText t] → is_text x = false) → text_apart (out ++ [x]).
Proof.
  induction out as [|y out IH]; intros H Hx; [by destruct x|].
  assert (H' : text_apart (out ++ [x])).
  { apply IH; [by destruct y, out as [|[]]|]. intros o t ->. by apply (Hx (y :: o) t). }
  destruct y as [t| | | |]; simpl; [|done..].
  destruct out as [|[] out]; simpl in *; try done. specialize (Hx [] t eq_refl). by destruct x.
Qed.

Definition inlines_post (st : Parser) (out : list Inline) (fl : Flow) (r : list Inline * Flow)
    (st' : Parser) : Prop :=
  ∃ new, r.1 = out ++ new ∧ r.1 ≠ [] ∧ text_apart r.1 ∧ inlines_ok (depth st) new ∧
    flow_run fl (inlines_items new) = Some r.2 ∧
    step st st' (open_ st) (inlines_count new) (inlines_ids new).

(** The item [x] was read, then the rest. *)
Lemma inlines_next m st st1 out x fl fl1 :
  step st st1 (open_ st) (inline_count x) (inline_ids x) → inline_ok (depth st) x →
  flow_run fl (inline_items x) = Some fl1 →
  wp m (inlines_post st1 (out ++ [x]) fl1) st1 → wp m (inlines_post st out fl) st1.
Proof.
  intros H1 Hx Hfl Hm. eapply wpp_mono; [exact Hm|].
  intros [r fl2] st2 (new & Hr & Hne & Hap & Hok & Hrun & H2). simpl in *. exists (x :: new).
  unfold depth in Hok. rewrite (st_open _ _ _ _ _ H1) in Hok, H2.
  split_and!; [by rewrite Hr, <- app_assoc|done..|by constructor| |].
  - change (inlines_items (x :: new)) with (inline_items x ++ inlines_items new). by rewrite flow_run_app, Hfl.
  - exact (step_trans _ _ _ _ _ _ _ _ _ H1 H2).
Qed.

Lemma span_with_of t l : is_span t = true → span_of (span_with t l) = Some (t, l).
Proof. by destruct t. Qed.

Lemma peek_nonempty st n : peek st = NStart n → rest st ≠ [].
Proof. unfold peek. by destruct (rest st). Qed.

Lemma inlines_from_sound fuel parent out fl st :
  (length (rest st) < fuel)%nat → within st → text_apart out →
  (∀ o t b s, out = o ++ [IText t] → rest st = b :: s → b = 60) →
  wp (inlines_from fuel parent out fl) (inlines_post st out fl) st.
Proof.
  revert parent out fl st.
  induction fuel as [|fuel IH]; intros parent out fl st Hf Hw Hap Hcl; [lia|].
  unfold wp. cbn [inlines_from].
  match goal with |- match ?m st with _ => _ end => change (wp m (inlines_post st out fl) st) end.
  destruct (peek st) as [[t|]|n| |] eqn:Ep; try done.
  - pose proof (peek_nonempty _ _ Ep) as Hne.
    case_bool_decide as Hbr; [|destruct (is_span t) eqn:Esp; [|done]].
    + apply wpp_bind, wp_lift. intros fl1 Hfl%flow_br_step. apply wpp_bind.
      eapply wpp_mono; [by apply br_tag_sound|]. intros _ st1 (H1 & Hd & Hlt).
      eapply (inlines_next _ _ _ _ IBr); [exact H1|exact Hd|simpl; by rewrite Hfl|].
      apply IH; [lia|apply H1|by apply text_apart_snoc|]. intros o u b s Ho _.
      by apply app_inj_2 in Ho as [_ [=]].
    + apply wpp_bind. eapply wpp_mono; [by apply start_tag_sound|]. intros a st1 (H1 & Ha & Hd & Hlt).
      apply wpp_bind. eapply wpp_mono; [apply (IH t [] fl st1); [lia|apply H1|done|]|].
      { intros [] ? ? ? [=]. }
      intros [content fl1] st2 (new & Hr & Hn & Hap1 & Hok & Hrun & H2). simpl in Hr, Hn, Hap1, Hrun. subst new.
      apply wpp_bind. eapply wpp_mono; [apply (end_tag_sound t (open_ st)); [apply H2|]|].
      { rewrite (st_open _ _ _ _ _ H2). apply H1. }
      intros ? st3 H3. pose proof (span_with_of t (MkLeaf a content) Esp) as Hsp.
      destruct (span_facts _ _ _ _ Hsp) as (Ei & Ec & Eids).
      pose proof (step_then _ _ _ _ _ _ _ (step_trans _ _ _ _ _ _ _ _ _ H1 H2) H3) as H.
      rewrite <- Ec, <- Eids in H.
      assert (Hlt3 : (length (rest st3) < length (rest st))%nat).
      { pose proof (st_shorter _ _ _ _ _ H2). pose proof (st_shorter _ _ _ _ _ H3). lia. }
      eapply inlines_next; [exact H| |rewrite Ei; exact Hrun|].
      * apply (inline_ok_span _ _ _ _ _ Hsp). split_and!; [done..|].
        unfold depth in Hok. rewrite (st_open _ _ _ _ _ H1), length_app in Hok.
        unfold depth. by rewrite <- Nat2Z.inj_add with (m := 1%nat).
      * apply IH; [lia|apply H| |].
        { apply text_apart_snoc; [done|]. intros. by destruct t. }
        intros o u b s Ho _. apply app_inj_2 in Ho as [_ Ho]; [|done]. by destruct t.
  - case_bool_decide; [|done]. case_bool_decide; [done|]. apply wp_ret. exists [].
    split_and!; simpl; [by rewrite app_nil_r|done..|constructor|done|by apply step_refl].
  - destruct (rest st) as [|b r] eqn:Er; [done|]. destruct (Z.eqb_spec b 60) as [|Hb]; [done|].
    apply wpp_bind. eapply wpp_mono; [by apply run_text_sound|].
    intros [t fl1] st1 (H1 & Hch & Hrun & _ & Hlt & Hend). simpl in Hch, Hrun.
    destruct (Hlt b r Er Hb) as [Hne Hl]. simpl in Hne.
    eapply (inlines_next _ _ _ _ (IText t)); [exact H1|done|exact Hrun|].
    rewrite Er in Hl. simpl in Hl, Hf. apply IH; [lia|apply H1| |].
    + apply text_apart_snoc; [done|]. intros o u Ho. exfalso. eauto.
    + intros o u c s _ Hc. destruct Hend as [E|[? E]]; rewrite E in Hc; congruence.
Qed.

(** Inline content that meets the rules has a text. *)
Lemma items_nonempty l : ∀ d, inlines_ok d l → l ≠ [] → inlines_items l ≠ [].
Proof.
  assert (Hspan : ∀ i t a k, span_of i = Some (t, MkLeaf a k) →
    (∀ d, inlines_ok d k → k ≠ [] → inlines_items k ≠ []) → ∀ d, inline_ok d i → inline_items i ≠ []).
  { intros i t a k Hs IH d (_ & _ & Hk & _ & Hok)%(inline_ok_span _ _ _ _ _ Hs).
    rewrite (proj1 (span_facts _ _ _ _ Hs)). eauto. }
  refine (inlines_ind (λ i, ∀ d, inline_ok d i → inline_items i ≠ [])
    (λ l, ∀ d, inlines_ok d l → l ≠ [] → inlines_items l ≠ []) _ _ _ _ _ _ _ l); try done.
  - intros t d [Ht _]. by destruct t.
  - intros a k IH. by apply (Hspan (IStrong (MkLeaf a k)) Tag.Strong a k).
  - intros a k IH. by apply (Hspan (IEm (MkLeaf a k)) Tag.Em a k).
  - intros a k IH. by apply (Hspan (ISmall (MkLeaf a k)) Tag.Small a k).
  - intros i k Hi _ d [H _]%Forall_cons _. change (inline_items i ++ inlines_items k ≠ []).
    intros [E _]%app_nil. by apply (Hi d).
Qed.

Lemma flow_end_Ok p fl u : flow_end p fl = Ok u → flow_ends fl = true.
Proof. unfold flow_end, flow_ends. by destruct (prev fl). Qed.

(** A reader of one child: it ends, in a child that meets the rules. *)
Definition reads {A} (m : M A) (ok : Z → A → Prop) (count : A → Z) (ids_of : A → list str) : Prop :=
  ∀ st, within st → rest st ≠ [] →
    wp m (λ a st', ok (depth st) a ∧ step st st' (open_ st) (count a) (ids_of a) ∧
      (length (rest st') < length (rest st))%nat) st.

Lemma parse_leaf_sound t : t ≠ Tag.Br → reads (parse_leaf t) leaf_ok leaf_count leaf_ids.
Proof.
  intros Ht st Hw Hne. unfold parse_leaf. apply wpp_bind. eapply wpp_mono; [by apply start_tag_sound|].
  intros a st1 (H1 & Ha & Hd & Hlt). apply wpp_bind.
  eapply wpp_mono; [apply inlines_from_sound; [lia|apply H1|done|]|]. { by intros []. }
  intros [content fl] st2 (new & Hr & Hn & Hap & Hok & Hrun & H2). simpl in Hr, Hn, Hap, Hrun. subst new.
  apply wpp_bind, wp_get, wpp_bind, wp_lift. intros u He%flow_end_Ok. apply wpp_bind.
  eapply wpp_mono; [apply (end_tag_sound t (open_ st)); [apply H2|]|].
  { rewrite (st_open _ _ _ _ _ H2). apply H1. }
  intros ? st3 H3. apply wpp_bind. eapply wpp_mono; [apply optional_lf_sound, H3|].
  intros ? st4 H4. rewrite (st_open _ _ _ _ _ H3) in H4. apply wp_ret.
  unfold depth in Hok. rewrite (st_open _ _ _ _ _ H1), length_app, Nat2Z.inj_add in Hok.
  split_and!.
  - split; try done. apply flow_spec; [by eapply items_nonempty|]. simpl. eauto.
  - exact (step_then _ _ _ _ _ _ _ (step_then _ _ _ _ _ _ _ (step_trans _ _ _ _ _ _ _ _ _ H1 H2) H3) H4).
  - pose proof (st_shorter _ _ _ _ _ H2). pose proof (st_shorter _ _ _ _ _ H3).
    pose proof (st_shorter _ _ _ _ _ H4). lia.
Qed.

(** ** Containers *)

(** Children were read after those already there. *)
Definition loop_post {A} (ok : Z → A → Prop) (count : A → Z) (ids_of : A → list str) (st : Parser)
    (items r : list A) (st' : Parser) : Prop :=
  ∃ new, r = items ++ new ∧ Forall (ok (depth st)) new ∧
    step st st' (open_ st) (sum_Z (count <$> new)) (new ≫= ids_of).

Section Loop.
Context {A : Type} (ok : Z → A → Prop) (count : A → Z) (ids_of : A → list str).

Lemma loop_done st items : within st → loop_post ok count ids_of st items items st.
Proof. intros H. exists []. split_and!; [by rewrite app_nil_r|done|by apply step_refl]. Qed.

Lemma loop_next (m : M (list A)) st st1 items x :
  ok (depth st) x → step st st1 (open_ st) (count x) (ids_of x) →
  wp m (loop_post ok count ids_of st1 (items ++ [x])) st1 →
  wp m (loop_post ok count ids_of st items) st1.
Proof.
  intros Hx H1 Hm. eapply wpp_mono; [exact Hm|]. intros r st2 (new & -> & Hok & H2). exists (x :: new).
  unfold depth in Hok. rewrite (st_open _ _ _ _ _ H1) in Hok, H2.
  split_and!; [by rewrite <- app_assoc|by constructor|].
  exact (step_trans _ _ _ _ _ _ _ _ _ H1 H2).
Qed.
End Loop.

Lemma list_items_sound fuel t items st :
  (length (rest st) < fuel)%nat → within st →
  wp (list_items fuel t items) (loop_post leaf_ok leaf_count leaf_ids st items) st.
Proof.
  revert items st. induction fuel as [|fuel IH]; intros items st Hf Hw; [lia|].
  unfold wp. cbn [list_items].
  match goal with |- match ?m st with _ => _ end => change (wp m (loop_post leaf_ok leaf_count leaf_ids st items) st) end.
  destruct (peek st) as [[u|]|n| |] eqn:Ep; try done.
  - pose proof (peek_nonempty _ _ Ep). destruct u; try done. apply wpp_bind.
    eapply wpp_mono; [by apply parse_leaf_sound|]. intros li st1 (Hok & H1 & Hlt).
    eapply loop_next; [done|exact H1|]. apply IH; [lia|apply H1].
  - case_bool_decide; [|done]. apply wp_ret. by apply loop_done.
Qed.

(** The end of a container: its end tag and one line feed. *)
Lemma container_end {B} t o (b : B) (st st1 : Parser) n i (Q : B → Parser → Prop) :
  step st st1 (o ++ [t]) n i →
  (∀ st', step st st' o n i → (length (rest st') ≤ length (rest st1))%nat → Q b st') →
  wp (end_tag t ;; optional_lf ;; ret b) Q st1.
Proof.
  intros H1 HQ. apply wpp_bind. eapply wpp_mono; [apply (end_tag_sound t o); apply H1|].
  intros ? st2 H2. apply wpp_bind. eapply wpp_mono; [apply optional_lf_sound, H2|].
  intros ? st3 H3. rewrite (st_open _ _ _ _ _ H2) in H3. apply wp_ret, HQ.
  - exact (step_then _ _ _ _ _ _ _ (step_then _ _ _ _ _ _ _ H1 H2) H3).
  - pose proof (st_shorter _ _ _ _ _ H2). pose proof (st_shorter _ _ _ _ _ H3). lia.
Qed.

(** The start of a container: its start tag and one line feed. *)
Lemma container_start {B} t st (k : Attrs → M B) (Q : B → Parser → Prop) :
  within st → t ≠ Tag.Br → rest st ≠ [] →
  (∀ a st1, step st st1 (open_ st ++ [t]) 1 (attr_ids a) → attrs_ok a → depth_ok (depth st) →
    (length (rest st1) < length (rest st))%nat → wp (k a) Q st1) →
  wp (let! a := start_tag t in optional_lf ;; k a) Q st.
Proof.
  intros Hw Ht Hne Hk. apply wpp_bind. eapply wpp_mono; [by apply start_tag_sound|].
  intros a st1 (H1 & Ha & Hd & Hlt). apply wpp_bind. eapply wpp_mono; [apply optional_lf_sound, H1|].
  intros ? st2 H2. rewrite (st_open _ _ _ _ _ H1) in H2. pose proof (st_shorter _ _ _ _ _ H2).
  apply Hk; [exact (step_then _ _ _ _ _ _ _ H1 H2)|done|done|lia].
Qed.

(** The children read inside a container, one element deeper. *)
Lemma loop_inside {A} (ok : Z → A → Prop) count ids_of st st1 st2 o t n i (r : list A) :
  step st st1 (o ++ [t]) n i → loop_post ok count ids_of st1 [] r st2 →
  Forall (ok (Z.of_nat (length o) + 1)) r ∧
  step st st2 (o ++ [t]) (n + sum_Z (count <$> r)) (i ++ (r ≫= ids_of)).
Proof.
  intros H1 (new & -> & Hok & H2). unfold depth in Hok.
  rewrite (st_open _ _ _ _ _ H1) in Hok, H2. rewrite length_app, Nat2Z.inj_add in Hok.
  split; [done|]. exact (step_trans _ _ _ _ _ _ _ _ _ H1 H2).
Qed.

Lemma parse_list_sound t :
  t ≠ Tag.Br →
  reads (parse_list t) (λ d l, container_ok leaf_ok d (li_attrs l) (li_items l))
    (λ l, 1 + sum_Z (leaf_count <$> li_items l)) (λ l, attr_ids (li_attrs l) ++ (li_items l ≫= leaf_ids)).
Proof.
  intros Ht st Hw Hne. apply container_start; [done..|]. intros a st1 H1 Ha Hd Hlt.
  apply wpp_bind, wp_get, wpp_bind. eapply wpp_mono; [apply list_items_sound; [lia|apply H1]|].
  intros items st2 Hl. destruct (loop_inside _ _ _ _ _ _ _ _ _ _ _ H1 Hl) as [Hok H2].
  destruct Hl as (_ & _ & _ & H3%st_shorter). case_bool_decide; [done|].
  eapply container_end; [exact H2|]. intros st4 H4 Hle. split_and!; [by split_and!|done|lia].
Qed.

Lemma wp_map {A B} (m : M A) (f : A → B) Q st :
  wp m (λ a st', Q (f a) st') st → wp (let! a := m in ret (f a)) Q st.
Proof. intros H. apply wpp_bind. eapply wpp_mono; [exact H|]. done. Qed.

Lemma parse_block_sound t : reads (parse_block t) block_ok block_count block_ids.
Proof.
  intros st Hw Hne. destruct t; try done; apply wp_map;
    (apply parse_leaf_sound || apply parse_list_sound); done.
Qed.

Definition section_ok (d : Z) (s : Section_) : Prop := item_ok d (MainItem.Section_ s).
Definition section_reads (section : option (M Section_)) : Prop :=
  ∀ m, section = Some m →
    reads m section_ok (λ s, item_count (MainItem.Section_ s)) (λ s, item_ids (MainItem.Section_ s)).

(** With no sections allowed, every child is a block. *)
Definition child_ok (section : option (M Section_)) (d : Z) (i : MainItem.t) : Prop :=
  item_ok d i ∧ (section = None → ∃ b, i = MainItem.Block_ b).

Lemma children_from_sound section fuel t items st :
  section_reads section → (length (rest st) < fuel)%nat → within st →
  wp (children_from section fuel t items) (loop_post (child_ok section) item_count item_ids st items) st.
Proof.
  intros Hs. revert items st. induction fuel as [|fuel IH]; intros items st Hf Hw; [lia|].
  unfold wp. cbn [children_from].
  match goal with |- match ?m st with _ => _ end =>
    change (wp m (loop_post (child_ok section) item_count item_ids st items) st) end.
  assert (Hblock : ∀ u, rest st ≠ [] →
    wp (let! b := parse_block u in children_from section fuel t (items ++ [MainItem.Block_ b]))
      (loop_post (child_ok section) item_count item_ids st items) st).
  { intros u Hne. apply wpp_bind. eapply wpp_mono; [by apply parse_block_sound|].
    intros b st1 (Hok & H1 & Hlt). apply (loop_next _ _ _ _ _ st1 _ (MainItem.Block_ b)); [split; [exact Hok|by eauto]|exact H1|]. apply IH; [lia|apply H1]. }
  destruct (peek st) as [[u|]|n| |] eqn:Ep; try done.
  - pose proof (peek_nonempty _ _ Ep) as Hne.
    destruct (bool_decide (u = Tag.Section)), section as [m|]; try (destruct (is_block u); by auto).
    apply wpp_bind. eapply wpp_mono; [by apply (Hs m eq_refl)|]. intros s st1 (Hok & H1 & Hlt).
    apply (loop_next _ _ _ _ _ st1 _ (MainItem.Section_ s)); [split; [exact Hok|done]|exact H1|]. apply IH; [lia|apply H1].
  - case_bool_decide; [|done]. apply wp_ret. by apply loop_done.
Qed.

Lemma children_sound section t o st st1 n i :
  section_reads section → step st st1 (o ++ [t]) n i →
  wp (children section t)
    (λ r st', r ≠ [] ∧ Forall (child_ok section (Z.of_nat (length o) + 1)) r ∧
      step st st' o (n + sum_Z (item_count <$> r)) (i ++ (r ≫= item_ids)) ∧
      (length (rest st') ≤ length (rest st1))%nat) st1.
Proof.
  intros Hs H1. unfold children. apply wpp_bind, wp_get, wpp_bind.
  eapply wpp_mono; [apply children_from_sound; [done|lia|apply H1]|].
  intros items st2 Hl. destruct (loop_inside _ _ _ _ _ _ _ _ _ _ _ H1 Hl) as [Hok H2].
  destruct Hl as (_ & _ & _ & H3%st_shorter). case_bool_decide; [done|].
  eapply container_end; [exact H2|]. intros st4 H4 Hle. split_and!; [done..|lia].
Qed.

Lemma child_blocks d r :
  Forall (child_ok None d) r →
  r = MainItem.Block_ <$> omap item_block r ∧ Forall (block_ok d) (omap item_block r).
Proof.
  induction 1 as [|i r [Hi Hb] Hr [IHe IHok]]; [by split; constructor|].
  destruct (Hb eq_refl) as [b ->]. csimpl. split; [by rewrite <- IHe|by constructor].
Qed.

(** The blocks of a section, header or footer through its end tag. *)
Lemma blocks_sound t o st st1 n i :
  step st st1 (o ++ [t]) n i →
  wp (parse_blocks t)
    (λ bs st', bs ≠ [] ∧ Forall (block_ok (Z.of_nat (length o) + 1)) bs ∧
      step st st' o (n + sum_Z (block_count <$> bs)) (i ++ (bs ≫= block_ids)) ∧
      (length (rest st') ≤ length (rest st1))%nat) st1.
Proof.
  intros H1. unfold parse_blocks. apply wpp_bind.
  eapply wpp_mono; [apply (children_sound None t o _ _ _ _ ltac:(by intros ?) H1)|].
  intros r st2 (Hne & Hok & H2 & Hle). apply wp_ret. apply child_blocks in Hok as [E Hok].
  assert (Ec : item_count <$> r = block_count <$> omap item_block r).
  { rewrite E at 1. by rewrite <- list_fmap_compose. }
  assert (Ei : r ≫= item_ids = omap item_block r ≫= block_ids).
  { rewrite E at 1. clear. induction (omap item_block r); csimpl; [done|]. by f_equal. }
  rewrite Ec, Ei in H2. split_and!; [|done..]. intros E0. by rewrite E0 in E.
Qed.

Lemma parse_section_sound : section_reads (Some parse_section).
Proof.
  intros m [= <-] st Hw Hne. apply container_start; [done..|]. intros a st1 H1 Ha Hd Hlt.
  apply wp_map. eapply wpp_mono; [eapply blocks_sound, H1|]. intros bs st2 (Hb & Hok & H2 & Hle).
  split_and!; [by split_and!|done|lia].
Qed.

Lemma parse_region_sound t st :
  t ≠ Tag.Br → within st → open_ st = [] → rest st ≠ [] →
  wp (parse_region t) (λ r st', region_ok r ∧ step st st' [] (region_count (Some r)) (region_ids (Some r))) st.
Proof.
  intros Ht Hw Ho Hne. apply container_start; [done..|]. intros a st1 H1 Ha Hd Hlt.
  unfold depth in Hd. rewrite Ho in H1, Hd. apply wp_map.
  eapply wpp_mono; [apply (blocks_sound t []), H1|]. intros bs st2 (Hb & Hok & H2 & Hle). by split_and!.
Qed.

Lemma optional_region_sound t st :
  t ≠ Tag.Br → within st → open_ st = [] →
  wp (parse_optional_region t) (λ r st', (∀ x, r = Some x → region_ok x) ∧
    step st st' [] (region_count r) (region_ids r)) st.
Proof.
  intros Ht Hw Ho. unfold parse_optional_region. apply wpp_bind, wp_get.
  destruct (peek_start t st) eqn:Ep.
  - apply wpp_bind. assert (Hne : rest st ≠ []).
    { unfold peek_start, peek in Ep. by destruct (rest st). }
    eapply wpp_mono; [by apply parse_region_sound|]. intros r st' [Hr H]. apply wp_ret. naive_solver.
  - apply wp_ret. split; [done|]. rewrite <- Ho. by apply step_refl.
Qed.

Lemma parse_main_sound st :
  within st → open_ st = [] → peek_start Tag.Main st = true →
  wp parse_main (λ m st', main_ok m ∧ step st st' [] (main_count m) (main_ids m)) st.
Proof.
  intros Hw Ho Hp. assert (Hne : rest st ≠ []) by (unfold peek_start, peek in Hp; by destruct (rest st)).
  apply container_start; [done..|]. intros a st1 H1 Ha Hd Hlt. unfold depth in Hd. rewrite Ho in H1, Hd.
  apply wp_map. eapply wpp_mono; [apply (children_sound _ Tag.Main []); [apply parse_section_sound|apply H1]|].
  intros items st2 (Hb & Hok & H2 & _). split; [|done]. split_and!; [done..|].
  eapply Forall_impl; [exact Hok|]. by intros i [Hi _].
Qed.

(** ** The document *)

Lemma fixed_sound l code st : within st → wp (fixed l code) (λ _ st', True ∧ step st st' (open_ st) 0 []) st.
Proof. intros H. unfold wp, fixed. destruct (_ <? _)%nat; [done|]. split; [done|]. by apply step_advance. Qed.

Lemma parse_lang_sound st :
  within st → wp parse_lang (λ v st', lang_ok v = true ∧ step st st' (open_ st) 0 []) st.
Proof.
  intros H. unfold wp, parse_lang.
  pose proof (span_rest (λ b, negb (b =? 34)) (rest st)) as [Hl Hc]. destruct (span _ _) as [v s].
  destruct (lang_ok v) eqn:E; [|done]. split; [done|]. apply step_rest; [done..|]. apply Hc, H.
Qed.

Lemma parse_css_sound st : within st → wp parse_css (λ _ st', True ∧ step st st' (open_ st) 0 []) st.
Proof. intros H. unfold wp, parse_css. case_bool_decide; [done|]. split; [done|]. by apply step_advance. Qed.

Definition title_ok (t : str) : Prop :=
  Forall is_char t ∧ Z.of_nat (length t) ≤ Policy.max_title_chars POLICY_V1 ∧ spaced (Some <$> t).

Lemma parse_title_sound st :
  within st → wp parse_title (λ t st', title_ok t ∧ step st st' (open_ st) 0 []) st.
Proof.
  intros Hw. unfold parse_title. apply wpp_bind. eapply wpp_mono; [by apply run_text_sound|].
  intros [t fl] st1 (H1 & Hch & Hrun & Hmax & _). simpl in *. apply wpp_bind, wp_get.
  match goal with |- wp (if ?b then _ else _) _ _ => destruct b eqn:E; [done|] end. apply orb_false_iff in E as [_ Hnz%Z.eqb_neq].
  apply wpp_bind, wp_lift. intros u He%flow_end_Ok. apply wp_ret. split; [|done].
  pose proof (flow_chars _ _ _ Hrun) as Hc. rewrite omap_some in Hc. simpl in Hc.
  assert (Ht : t ≠ []) by (intros ->; simpl in Hc; lia). split_and!; [done| |].
  - specialize (Hmax eq_refl Ht). rewrite Hc in Hmax. exact Hmax.
  - apply flow_spec; [by destruct t|eauto].
Qed.

(** An operation that only reads on, then the rest. *)
Lemma wp_on {A B} (m : M A) (k : A → M B) (P : A → Prop) (Q : B → Parser → Prop) st0 st o n i :
  step st0 st o n i → (within st → wp m (λ a st', P a ∧ step st st' (open_ st) 0 []) st) →
  (∀ a st', P a → step st0 st' o n i → wp (k a) Q st') → wp (bind m k) Q st.
Proof.
  intros H1 Hm Hk. apply wpp_bind. eapply wpp_mono; [apply Hm, H1|]. intros a st2 [Ha H2].
  rewrite (st_open _ _ _ _ _ H1) in H2. apply Hk; [done|exact (step_then _ _ _ _ _ _ _ H1 H2)].
Qed.

(** The whole parse ends; a page it returns meets the rules. *)
Lemma document_sound st :
  within st → open_ st = [] → elements st = 0 → ids st = ∅ → wp document (λ p _, page_ok p) st.
Proof.
  intros Hw Ho He Hi. pose proof (step_refl st Hw) as H0. rewrite Ho in H0. unfold document.
  destruct (Policy.head_segments POLICY_V1) as [[[head after_lang] after_title] after_css].
  eapply wp_on; [exact H0|apply fixed_sound|]. intros ? st1 _ H1.
  eapply wp_on; [exact H1|apply parse_lang_sound|]. intros lang st2 Hlang H2.
  eapply wp_on; [exact H2|apply fixed_sound|]. intros ? st3 _ H3.
  eapply wp_on; [exact H3|apply parse_title_sound|]. intros title st4 (Ht1 & Ht2 & Ht3) H4.
  eapply wp_on; [exact H4|apply fixed_sound|]. intros ? st5 _ H5.
  eapply wp_on; [exact H5|apply parse_css_sound|]. intros ? st6 _ H6.
  eapply wp_on; [exact H6|apply fixed_sound|]. intros ? st7 _ H7.
  apply wpp_bind. eapply wpp_mono; [apply optional_region_sound; [done|apply H7..]|].
  intros hd st8 [Hhd H8]. pose proof (step_trans _ _ _ _ _ _ _ _ _ H7 H8) as H78.
  apply wpp_bind, wp_get. destruct (peek_start Tag.Main st8) eqn:Ep; [|apply wp_misplaced]. simpl negb.
  apply wpp_bind. eapply wpp_mono; [apply parse_main_sound; [apply H8..|done]|]. intros mn st9 [Hmn H9].
  pose proof (step_trans _ _ _ _ _ _ _ _ _ H78 H9) as H79.
  apply wpp_bind. eapply wpp_mono; [apply optional_region_sound; [done|apply H9..]|].
  intros ft st10 [Hft H10]. pose proof (step_trans _ _ _ _ _ _ _ _ _ H79 H10) as H.
  apply wpp_bind, wp_get. destruct (at_lit _ st10); [|apply wp_misplaced]. simpl negb.
  case_bool_decide; [done|]. apply wp_ret. destruct H as [[_ Hel] _ _ Hn _ Hd _].
  split; simpl; try done.
  - unfold page_count. simpl. rewrite He in Hn. rewrite Hn in Hel. rewrite <- Hel. lia.
  - unfold page_ids. simpl. by rewrite <- app_assoc in Hd.
Qed.

Lemma parse_sound text :
  Forall is_char text →
  match parse_document text with Done p _ => page_ok p | Failed _ => True | OutOfFuel => False end.
Proof.
  intros H. apply (document_sound (MkParser (str_len text) text [] 0 ∅)); try done.
Qed.
