(* ===== verification/PageComplete.v ===== *)
(** * The parse of a page reads every tree that meets the rules

    Completeness of [PageParse]: the canonical text of a tree within the rules
    parses to that tree, with its elements counted and its ids recorded. *)

From S2P Require Import Prelude Utf8 Evidence PagePolicy PageScan PageTree PageParse PageRules.

Local Open Scope Z_scope.
Local Open Scope parse_scope.
#[local] Arguments lit : simpl never.
#[local] Arguments js : simpl never.

(** ** Room for more elements and ids *)

Definition add_ids (i : gset (list Z)) (l : list str) : gset (list Z) := list_to_set l ∪ i.

Record room (e : Z) (i : gset (list Z)) (n : Z) (l : list str) : Prop := {
  ro_elements : e + n ≤ Policy.max_elements POLICY_V1;
  ro_nodup : NoDup l;
  ro_new : ∀ v, v ∈ l → v ∉ i;
}.

Lemma add_ids_app i l1 l2 : add_ids i (l1 ++ l2) = add_ids (add_ids i l1) l2.
Proof. unfold add_ids. rewrite list_to_set_app_L. set_solver. Qed.
Lemma add_ids_nil i : add_ids i [] = i.
Proof. unfold add_ids. set_solver. Qed.

Lemma room_app e i n1 n2 l1 l2 :
  0 ≤ n2 → room e i (n1 + n2) (l1 ++ l2) → room e i n1 l1 ∧ room (e + n1) (add_ids i l1) n2 l2.
Proof.
  intros Hn [He (H1 & H12 & H2)%NoDup_app Hi]. split; split; try done.
  - etrans; [|exact He]. lia.
  - intros v Hv. apply Hi. set_solver.
  - etrans; [|exact He]. lia.
  - intros v Hv. assert (v ∉ i) by (apply Hi; set_solver). unfold add_ids.
    intros [Hv1%elem_of_list_to_set|?]%elem_of_union; [by apply (H12 v)|done].
Qed.

(** ** Text *)

Lemma flow_step_char c p fl fl' : flow_step fl (Some c) = Some fl' → flow_char c p fl = Ok fl'.
Proof. unfold flow_step, flow_char. intros. repeat case_match; naive_solver. Qed.
Lemma flow_step_br p fl fl' : flow_step fl None = Some fl' → flow_br p fl = Ok fl'.
Proof. unfold flow_step, flow_br. intros. repeat case_match; naive_solver. Qed.

Lemma entity_of_Some c e : entity_of c = Some e → (c, e) ∈ Policy.entities POLICY_V1.
Proof.
  unfold entity_of. destruct (List.find _ _) as [[d x]|] eqn:E; [|done]. intros [= <-].
  apply List.find_some in E as [Hin Hc]. simpl in Hc. apply Z.eqb_eq in Hc as ->. by apply list_elem_of_In.
Qed.

(** An entity is read back as its character. *)
Lemma entity_read r :
  Forall (λ e : Z * str, ∃ s, e.2 = 38 :: s ∧ s ≠ [] ∧ entity_at (e.2 ++ r) = Some e) (Policy.entities POLICY_V1).
Proof. repeat constructor; eexists; split_and!; reflexivity || done. Qed.

Lemma escape_char_cases c :
  (∃ e, escape_char c = e ∧ (c, e) ∈ Policy.entities POLICY_V1) ∨
  (escape_char c = [c] ∧ c ≠ 38 ∧ c ≠ 60 ∧ c ≠ 62).
Proof.
  unfold escape_char. destruct (entity_of c) as [e|] eqn:E.
  - left. exists e. split; [done|]. by apply entity_of_Some.
  - right. split; [done|]. split_and!; intros ->; done.
Qed.

(** The rest after a text: nothing, or a tag. *)
Definition tag_next (r : str) : Prop := match r with [] => True | b :: _ => b = 60 end.

Lemma text_run_complete fuel T t r o e i fl fl' in_title :
  (length (escape t ++ r) < fuel)%nat → tag_next r → flow_run fl (Some <$> t) = Some fl' →
  (in_title = true → chars fl' ≤ Policy.max_title_chars POLICY_V1) →
  text_run fuel fl in_title (MkParser T (escape t ++ r) o e i) = Done (t, fl') (MkParser T r o e i).
Proof.
  revert fl fuel. induction t as [|c t IH]; intros fl fuel Hf Hr Hrun Hmax.
  - simpl in Hrun. injection Hrun as <-. destruct fuel; [simpl in Hf; lia|]. simpl in *.
    destruct r as [|b r]; [done|]. simpl in Hr. by subst b.
  - cbn [fmap list_fmap flow_run] in Hrun. apply bind_Some in Hrun as (fl1 & Hc & Hrun).
    change (escape (c :: t)) with (escape_char c ++ escape t) in *. rewrite <- app_assoc in *.
    assert (Hch : in_title && (Policy.max_title_chars POLICY_V1 <? chars fl1) = false).
    { destruct in_title; [|done]. apply Z.ltb_ge. pose proof (flow_chars _ _ _ Hrun).
      specialize (Hmax eq_refl). lia. }
    destruct fuel as [|fuel]; [lia|].
    destruct (escape_char_cases c) as [(x & Ex & Hin)|(Ex & H1 & H2 & H3)]; rewrite Ex in *; clear Ex.
    + destruct (proj1 (Forall_forall _ _) (entity_read (escape t ++ r)) _ Hin) as (s & Hx & Hs & Hent).
      simpl in Hx. cbn [snd] in Hent. subst x. cbn [text_run rest app]. simpl in Hent.
      change (38 =? 60) with false. change (38 =? 38) with true. cbn iota.
      unfold bind at 1. rewrite Hent. cbn [ret]. unfold bind, lift. rewrite (flow_step_char _ _ _ _ Hc), Hch.
      unfold put_state, advance, set_rest. cbn [total rest open_ elements ids length drop].
      rewrite drop_app_length, IH; [done| |done..]. rewrite !length_app in *. simpl in Hf. lia.
    + cbn [text_run rest app]. destruct (Z.eqb_spec c 60); [done|]. destruct (Z.eqb_spec c 38); [done|].
      destruct (Z.eqb_spec c 62); [done|].
      unfold bind, ret, lift. rewrite (flow_step_char _ _ _ _ Hc), Hch.
      unfold put_state, set_rest. cbn [total rest open_ elements ids].
      rewrite IH; [done| |done..]. rewrite !length_app in *. simpl in Hf. lia.
Qed.

Lemma run_text_complete T t r o e i fl fl' in_title :
  tag_next r → flow_run fl (Some <$> t) = Some fl' →
  (in_title = true → chars fl' ≤ Policy.max_title_chars POLICY_V1) →
  run_text fl in_title (MkParser T (escape t ++ r) o e i) = Done (t, fl') (MkParser T r o e i).
Proof. intros. apply text_run_complete; simpl; [lia|done..]. Qed.

(** ** Tags *)

Lemma span_all (p : Z → bool) a b r :
  Forall (λ c, p c = true) a → p b = false → span p (a ++ b :: r) = (a, b :: r).
Proof.
  intros Ha Hb. induction Ha as [|c a Hc Ha IH]; simpl; [by rewrite Hb|]. by rewrite Hc, IH.
Qed.

Lemma id_ok_facts v : id_ok v = true → Forall (λ c, is_char c ∧ c ≠ 34) v.
Proof.
  destruct v as [|a v]; [done|]. unfold id_ok. intros [[Ha _]%andb_prop Hv]%andb_prop.
  assert (Hl : ∀ c, is_ascii_lowercase c || is_ascii_digit c || (c =? 45) = true → is_char c ∧ c ≠ 34).
  { unfold is_ascii_lowercase, is_ascii_digit, is_char. intros c. lia. }
  constructor; [apply Hl; by rewrite Ha|]. apply Forall_forall. intros c Hc. apply Hl.
  rewrite forallb_forall in Hv. by apply Hv, list_elem_of_In.
Qed.

Lemma class_name_facts c : Forall (λ b, is_char b ∧ b ≠ 34) (Class.name c).
Proof. destruct c; repeat constructor; done || (left; simpl; lia). Qed.

Lemma class_found c :
  List.find (λ d, bool_decide (Class.name d = Class.name c)) (Policy.classes POLICY_V1) = Some c.
Proof. by destruct c. Qed.

Lemma attr_value_complete T v r o e i :
  Forall (λ c, is_char c ∧ c ≠ 34) v →
  ∃ p, attr_value (MkParser T (js "=`" ++ v ++ js "`" ++ r) o e i) = Done (p, v) (MkParser T r o e i).
Proof.
  intros Hv. unfold attr_value, at_lit. cbn [rest].
  assert (Hp : starts_with (js "=`" ++ v ++ js "`" ++ r) (js "=`") = true).
  { apply bool_decide_eq_true_2. by exists (v ++ js "`" ++ r). }
  rewrite Hp. cbn [negb]. unfold advance. cbn [rest].
  change (drop 2 (js "=`" ++ v ++ js "`" ++ r)) with (v ++ 34 :: r).
  unfold set_rest. cbn [rest total open_ elements ids].
  rewrite span_all; [|eapply Forall_impl; [exact Hv|]; intros c [_ Hc]; simpl; by apply negb_true_iff, Z.eqb_neq|done].
  eexists. reflexivity.
Qed.

Lemma class_attr_complete fuel T a c has_id r o e i :
  attributes (S fuel) a false has_id (MkParser T (render_attr (lit "class") (Some (Class.name c)) ++ r) o e i)
  = attributes fuel (MkAttrs (Some c) (a_id a)) true has_id (MkParser T r o e i).
Proof.
  destruct (attr_value_complete T (Class.name c) r o e i (class_name_facts c)) as [p Hp].
  unfold render_attr. rewrite <- !app_assoc. cbn [attributes rest].
  change (lit " " ++ lit "class" ++ ?x) with (32 :: lit "class" ++ x).
  cbn [Z.eqb Pos.eqb negb]. unfold set_rest. cbn [rest total open_ elements ids].
  change (js "=`" ++ ?x) with (61 :: 34 :: x). rewrite span_all; [|repeat constructor|done].
  change (bool_decide (lit "class" = (Policy.body_attributes POLICY_V1).1)) with true.
  change (bool_decide (lit "class" = (Policy.body_attributes POLICY_V1).2)) with false.
  change (bool_decide (lit "class" = [])) with false. cbn [orb andb negb].
  unfold bind at 1. change (61 :: 34 :: ?x) with (js "=`" ++ x). rewrite Hp. by rewrite class_found.
Qed.

Lemma id_attr_complete fuel T a v has_class r o e i :
  id_ok v = true → v ∉ i →
  attributes (S fuel) a has_class false (MkParser T (render_attr (lit "id") (Some v) ++ r) o e i)
  = attributes fuel (MkAttrs (a_class a) (Some v)) has_class true (MkParser T r o e (add_ids i [v])).
Proof.
  intros Hv Hi. destruct (attr_value_complete T v r o e i (id_ok_facts v Hv)) as [p Hp].
  unfold render_attr. rewrite <- !app_assoc. cbn [attributes rest].
  change (lit " " ++ lit "id" ++ ?x) with (32 :: lit "id" ++ x).
  cbn [Z.eqb Pos.eqb negb]. unfold set_rest. cbn [rest total open_ elements ids].
  change (js "=`" ++ ?x) with (61 :: 34 :: x). rewrite span_all; [|repeat constructor|done].
  change (bool_decide (lit "id" = (Policy.body_attributes POLICY_V1).1)) with false.
  change (bool_decide (lit "id" = (Policy.body_attributes POLICY_V1).2)) with true.
  change (bool_decide (lit "id" = [])) with false. rewrite andb_false_r. cbn [orb andb negb].
  unfold bind at 1. change (61 :: 34 :: ?x) with (js "=`" ++ x). rewrite Hp, Hv. cbn [negb].
  unfold bind, get, put_state, set_ids. cbn [rest total open_ elements ids].
  rewrite bool_decide_eq_false_2 by done. unfold add_ids. simpl. by rewrite union_empty_r_L.
Qed.

Lemma attributes_complete fuel T a r o e i :
  (length (render_attrs a ++ lit ">" ++ r) < fuel)%nat → attrs_ok a → (∀ v, a_id a = Some v → v ∉ i) →
  attributes fuel Attrs_default false false (MkParser T (render_attrs a ++ lit ">" ++ r) o e i)
  = Done a (MkParser T r o e (add_ids i (attr_ids a))).
Proof.
  intros Hf Ha Hi. unfold render_attrs in *. rewrite <- app_assoc in *.
  assert (Hlen : ∀ name v, (1 ≤ length (render_attr name (Some v)))%nat).
  { intros. unfold render_attr. rewrite length_app. simpl. lia. }
  assert (Hend : ∀ fuel a hc hi i, attributes (S fuel) a hc hi (MkParser T (lit ">" ++ r) o e i)
    = Done a (MkParser T r o e i)) by done.
  rewrite !length_app in Hf. change (length (lit ">")) with 1%nat in Hf.
  destruct a as [[c|] [v|]]; unfold attr_ids; cbn [a_class a_id fmap option_fmap option_map option_list] in *.
  - pose proof (Hlen (lit "class") (Class.name c)). pose proof (Hlen (lit "id") v).
    destruct fuel as [|[|[|fuel]]]; [lia..|]. rewrite class_attr_complete.
    rewrite id_attr_complete; [|by apply Ha|by apply Hi]. apply Hend.
  - pose proof (Hlen (lit "class") (Class.name c)). destruct fuel as [|[|fuel]]; [lia..|].
    rewrite class_attr_complete, add_ids_nil. apply Hend.
  - pose proof (Hlen (lit "id") v). destruct fuel as [|[|fuel]]; [lia..|].
    rewrite app_nil_l. rewrite id_attr_complete; [|by apply Ha|by apply Hi]. apply Hend.
  - destruct fuel as [|fuel]; [lia|]. rewrite add_ids_nil. apply Hend.
Qed.

Lemma start_tag_complete T t a r o e i :
  t ≠ Tag.Br → attrs_ok a → depth_ok (Z.of_nat (length o)) → room e i 1 (attr_ids a) →
  start_tag t (MkParser T (render_open t a ++ r) o e i)
  = Done a (MkParser T r (o ++ [t]) (e + 1) (add_ids i (attr_ids a))).
Proof.
  intros Ht Ha Hd [He _ Hi]. unfold start_tag, bind at 1, enter. cbn [elements open_].
  rewrite (proj2 (Z.ltb_ge _ _) He), (proj2 (Z.leb_gt _ _) Hd).
  unfold bind at 1, get. rewrite bool_decide_eq_false_2 by done.
  unfold bind, put_state, set_open, set_elements, advance, set_rest. cbn [rest total open_ elements ids].
  unfold render_open. rewrite <- !app_assoc.
  assert (Hdrop : ∀ x, drop (1 + length (Tag.name t)) (lit "<" ++ Tag.name t ++ x) = x)
    by (intros x; exact (drop_app_length (Tag.name t) x)).
  rewrite Hdrop. apply attributes_complete; [lia|done|]. intros v Hv. apply Hi. unfold attr_ids. rewrite Hv. set_solver.
Qed.

Lemma br_tag_complete T r o e i :
  depth_ok (Z.of_nat (length o)) → e + 1 ≤ Policy.max_elements POLICY_V1 →
  start_tag Tag.Br (MkParser T (render_open Tag.Br Attrs_default ++ r) o e i)
  = Done Attrs_default (MkParser T r o (e + 1) i).
Proof.
  intros Hd He. unfold start_tag, bind at 1, enter. cbn [elements open_].
  rewrite (proj2 (Z.ltb_ge _ _) He), (proj2 (Z.leb_gt _ _) Hd).
  unfold bind at 1, get. rewrite bool_decide_eq_true_2 by done.
  change (render_open Tag.Br Attrs_default ++ r) with (60 :: 98 :: 114 :: 62 :: r).
  unfold bind, put_state, leave, ret, set_open, set_elements, advance, set_rest.
  cbn [rest total open_ elements ids Nat.add length drop app Tag.name].
  change (drop (1 + length (lit "br")) (60 :: 98 :: 114 :: 62 :: r)) with (62 :: r). cbn iota.
  change (62 =? 62) with true. cbn iota. rewrite length_app, Nat.add_sub. by rewrite take_app_length.
Qed.

Lemma end_tag_complete T t r o e i :
  end_tag t (MkParser T (render_close t ++ r) (o ++ [t]) e i) = Done tt (MkParser T r o e i).
Proof.
  unfold end_tag, bind at 1, get, render_close. rewrite <- !app_assoc. unfold advance. cbn [rest].
  assert (Hdrop : ∀ x, drop (2 + length (Tag.name t)) (lit "</" ++ Tag.name t ++ x) = x)
    by (intros x; exact (drop_app_length (Tag.name t) x)).
  rewrite Hdrop. unfold set_rest. cbn [rest app total open_ elements ids].
  change (lit ">" ++ r) with (62 :: r). cbn iota. change (62 =? 62) with true. cbn iota.
  unfold bind, put_state, leave, set_open. cbn [rest total open_ elements ids].
  rewrite length_app, Nat.add_sub. by rewrite take_app_length.
Qed.

(** ** What is at the cursor *)

(** A name is followed by a character that is not of a name. *)
Lemma name_at_tag t b r : is_ascii_alphanumeric b = false → name_at (Tag.name t ++ b :: r) = NTag t.
Proof.
  intros Hb. unfold name_at. rewrite span_all; [|destruct t; repeat constructor|done]. by destruct t.
Qed.

Lemma open_length t a : (1 ≤ length (render_open t a))%nat.
Proof. unfold render_open. simpl. lia. Qed.

Lemma open_next a r : ∃ b s, render_attrs a ++ lit ">" ++ r = b :: s ∧ is_ascii_alphanumeric b = false.
Proof. destruct a as [[c|] [v|]]; by eexists _, _. Qed.

Lemma peek_open t a r : peek_at (render_open t a ++ r) = NStart (NTag t).
Proof.
  destruct (open_next a r) as (b & s & E & Hb). unfold render_open. rewrite <- !app_assoc, E.
  rewrite <- (name_at_tag t b s Hb). by destruct t.
Qed.

Lemma peek_close t r : peek_at (render_close t ++ r) = NEnd (NTag t).
Proof.
  unfold render_close. rewrite <- !app_assoc. change (lit ">" ++ r) with (62 :: r).
  rewrite <- (name_at_tag t 62 r eq_refl). by destruct t.
Qed.

Lemma peek_text t r : t ≠ [] → ∃ b s, escape t ++ r = b :: s ∧ b ≠ 60 ∧ peek_at (escape t ++ r) = NText.
Proof.
  destruct t as [|c t]; [done|]. intros _.
  change (escape (c :: t)) with (escape_char c ++ escape t). rewrite <- app_assoc.
  destruct (escape_char_cases c) as [(x & -> & Hin)|(-> & H1 & H2 & H3)].
  - destruct (proj1 (Forall_forall _ _) (entity_read []) _ Hin) as (s & Hx & _).
    simpl in Hx. subst x. by eexists _, _.
  - eexists _, _. split_and!; [done..|]. simpl. by destruct (Z.eqb_spec c 60).
Qed.

(** ** Inline content *)

Lemma inlines_count_nonneg l : 0 ≤ inlines_count l.
Proof.
  refine (inlines_ind (λ i, 0 ≤ inline_count i) (λ l, 0 ≤ inlines_count l) _ _ _ _ _ _ _ l); try done.
  - intros a k IH. rewrite (proj1 (proj2 (span_facts (IStrong (MkLeaf a k)) Tag.Strong a k eq_refl))). lia.
  - intros a k IH. rewrite (proj1 (proj2 (span_facts (IEm (MkLeaf a k)) Tag.Em a k eq_refl))). lia.
  - intros a k IH. rewrite (proj1 (proj2 (span_facts (ISmall (MkLeaf a k)) Tag.Small a k eq_refl))). lia.
  - intros x k Hx Hk. change (0 ≤ inline_count x + inlines_count k). lia.
Qed.

(** The text after a text starts with a tag. *)
Lemma after_text t l parent r :
  text_apart (IText t :: l) → tag_next (render_inlines l ++ render_close parent ++ r).
Proof. intros H. destruct l as [|[u| |[]|[]|[]] l]; simpl in *; done. Qed.

Lemma text_apart_tail x l : text_apart (x :: l) → text_apart l.
Proof. destruct x, l as [|[] l]; simpl; tauto. Qed.

Lemma span_of_None i : span_of i = None → (∃ t, i = IText t) ∨ i = IBr.
Proof. destruct i; simpl; intros; simplify_eq; eauto. Qed.

Lemma span_of_facts i t l : span_of i = Some (t, l) → is_span t = true ∧ t ≠ Tag.Br ∧ span_with t l = i.
Proof. destruct i; simpl; intros; by simplify_eq. Qed.

Lemma render_inlines_cons x l s : render_inlines (x :: l) ++ s = render_inline x ++ render_inlines l ++ s.
Proof. unfold render_inlines. by rewrite bind_cons, <- app_assoc. Qed.

Lemma text_step fuel parent out fl fl1 t T s o e i :
  t ≠ [] → tag_next s → flow_run fl (Some <$> t) = Some fl1 →
  inlines_from (S fuel) parent out fl (MkParser T (escape t ++ s) o e i)
  = inlines_from fuel parent (out ++ [IText t]) fl1 (MkParser T s o e i).
Proof.
  intros Ht Hs Hrun. cbn [inlines_from]. unfold peek. cbn [rest].
  destruct (peek_text t s Ht) as (b & s' & E & Hb & ->). rewrite E.
  destruct (Z.eqb_spec b 60) as [|_]; [done|]. rewrite <- E. unfold bind.
  by rewrite (run_text_complete _ _ _ _ _ _ _ _ _ Hs Hrun).
Qed.

Lemma br_step fuel parent out fl fl1 T s o e i :
  depth_ok (Z.of_nat (length o)) → e + 1 ≤ Policy.max_elements POLICY_V1 → flow_run fl [None] = Some fl1 →
  inlines_from (S fuel) parent out fl (MkParser T (render_open Tag.Br Attrs_default ++ s) o e i)
  = inlines_from fuel parent (out ++ [IBr]) fl1 (MkParser T s o (e + 1) i).
Proof.
  intros Hd He Hrun. cbn [inlines_from]. unfold peek. cbn [rest]. rewrite peek_open.
  rewrite bool_decide_eq_true_2 by done. apply bind_Some in Hrun as (fl2 & Hfl & [= ->]).
  unfold bind, lift. rewrite (flow_step_br _ _ _ Hfl). by rewrite br_tag_complete.
Qed.

Lemma span_step fuel parent out fl fl1 t a l T s o e e' i i' :
  is_span t = true → t ≠ Tag.Br → attrs_ok a → depth_ok (Z.of_nat (length o)) → room e i 1 (attr_ids a) →
  inlines_from fuel t [] fl (MkParser T (render_inlines l ++ render_close t ++ s) (o ++ [t]) (e + 1)
    (add_ids i (attr_ids a))) = Done (l, fl1) (MkParser T (render_close t ++ s) (o ++ [t]) e' i') →
  inlines_from (S fuel) parent out fl
    (MkParser T (render_open t a ++ render_inlines l ++ render_close t ++ s) o e i)
  = inlines_from fuel parent (out ++ [span_with t (MkLeaf a l)]) fl1 (MkParser T s o e' i').
Proof.
  intros Hs Ht Ha Hd Hr Hin. cbn [inlines_from]. unfold peek. cbn [rest]. rewrite peek_open.
  rewrite bool_decide_eq_false_2, Hs by done. unfold bind.
  rewrite start_tag_complete by done. by rewrite Hin, end_tag_complete.
Qed.

Lemma inlines_complete fuel parent l out fl fl' T r o e i :
  (length (render_inlines l ++ render_close parent ++ r) < fuel)%nat →
  out ++ l ≠ [] → text_apart l → inlines_ok (Z.of_nat (length o)) l →
  flow_run fl (inlines_items l) = Some fl' → room e i (inlines_count l) (inlines_ids l) →
  inlines_from fuel parent out fl (MkParser T (render_inlines l ++ render_close parent ++ r) o e i)
  = Done (out ++ l, fl')
      (MkParser T (render_close parent ++ r) o (e + inlines_count l) (add_ids i (inlines_ids l))).
Proof.
  revert parent l out fl fl' r o e i.
  induction fuel as [|fuel IH]; intros parent l out fl fl' r o e i Hf Hne Hap Hok Hrun Hroom; [lia|].
  destruct l as [|x l].
  { cbn [inlines_from]. unfold peek. cbn [rest]. change (render_inlines [] ++ ?x) with x.
    rewrite peek_close, bool_decide_eq_true_2, bool_decide_eq_false_2 by (rewrite ?app_nil_r in *; done).
    simpl in Hrun. simplify_eq. rewrite app_nil_r. unfold ret.
    change (inlines_count []) with 0. change (inlines_ids []) with (@nil str). by rewrite add_ids_nil, Z.add_0_r. }
  rewrite render_inlines_cons in *.
  change (inlines_items (x :: l)) with (inline_items x ++ inlines_items l) in Hrun.
  change (inlines_count (x :: l)) with (inline_count x + inlines_count l) in *.
  change (inlines_ids (x :: l)) with (inline_ids x ++ inlines_ids l) in *.
  rewrite flow_run_app in Hrun. apply bind_Some in Hrun as (fl1 & Hx & Hrun).
  apply room_app in Hroom as [Hr1 Hr2]; [|apply inlines_count_nonneg].
  apply Forall_cons in Hok as [Hokx Hok]. pose proof (text_apart_tail _ _ Hap) as Hap'.
  rewrite length_app in Hf.
  assert (Hnext : (1 ≤ length (render_inline x))%nat →
    inlines_from fuel parent (out ++ [x]) fl1 (MkParser T (render_inlines l ++ render_close parent ++ r) o
      (e + inline_count x) (add_ids i (inline_ids x)))
    = Done (out ++ x :: l, fl') (MkParser T (render_close parent ++ r) o
        (e + (inline_count x + inlines_count l)) (add_ids i (inline_ids x ++ inlines_ids l)))).
  { intros Hlen. rewrite Z.add_assoc, add_ids_app.
    replace (out ++ x :: l) with ((out ++ [x]) ++ l) by by rewrite <- app_assoc.
    apply IH; [lia|by destruct out|done..]. }
  destruct (span_of x) as [[t [a k]]|] eqn:Es.
  - destruct (span_of_facts _ _ _ Es) as (Hsp & Hbr & Ex). rewrite (render_span _ _ _ _ Es) in *.
    destruct (span_facts _ _ _ _ Es) as (Et & Ec & Ei). rewrite Ec, Ei, Et in *.
    apply (inline_ok_span _ _ _ _ _ Es) in Hokx as (Hd & Ha & Hk & Hapk & Hokk).
    apply room_app in Hr1 as [Ha1 Hk1]; [|apply inlines_count_nonneg].
    rewrite <- Hnext by (pose proof (open_length t a); rewrite length_app; lia). rewrite <- !app_assoc.
    rewrite <- Ex. apply span_step; [done..|]. rewrite Z.add_assoc, add_ids_app.
    apply (IH t k [] fl fl1); try done.
    + pose proof (open_length t a). rewrite !length_app in *. lia.
    + rewrite length_app. simpl. by rewrite Nat2Z.inj_add.
  - apply span_of_None in Es as [[t ->]| ->].
    + destruct Hokx as [Ht _]. change (render_inline (IText t)) with (escape t) in *.
      rewrite <- Hnext.
      2: { destruct (peek_text t [] Ht) as (b & s & E & _). rewrite app_nil_r in E. rewrite E. simpl. lia. }
      change (inline_count (IText t)) with 0. change (inline_ids (IText t)) with (@nil str).
      rewrite add_ids_nil, Z.add_0_r. apply text_step; [done|by eapply after_text|done].
    + rewrite <- Hnext by (simpl; lia). change (inline_ids IBr) with (@nil str). rewrite add_ids_nil.
      apply br_step; [done|apply Hr1|done].
Qed.

(** ** Leaves, lists and blocks *)

(** [m] reads a child of the tree back from its canonical text. *)
Definition reads_back {A} (m : M A) (ok : Z → A → Prop) (count : A → Z) (ids_of : A → list str)
    (write : A → str) (x : A) : Prop :=
  ∀ T r o e i, ok (Z.of_nat (length o)) x → room e i (count x) (ids_of x) →
    m (MkParser T (write x ++ r) o e i)
    = Done x (MkParser T r o (e + count x) (add_ids i (ids_of x))).

Lemma flow_end_complete p fl : flow_ends fl = true → flow_end p fl = Ok tt.
Proof. unfold flow_ends, flow_end. by destruct (prev fl). Qed.

Lemma optional_lf_complete T r o e i :
  optional_lf (MkParser T ([LF] ++ r) o e i) = Done tt (MkParser T r o e i).
Proof. done. Qed.

Lemma spaced_nonempty items : spaced items → items ≠ [].
Proof. intros H. destruct H as [w (Hw & _)|w sep items (Hw & _)]; by destruct w. Qed.

Lemma parse_leaf_complete t l :
  t ≠ Tag.Br → reads_back (parse_leaf t) leaf_ok leaf_count leaf_ids (render_leaf t) l.
Proof.
  intros Ht T r o e i [Hd Ha Hne Hap Hok Hsp] Hroom. destruct l as [a l]. cbn [leaf_attrs leaf_inlines] in *.
  change (room e i (1 + inlines_count l) (attr_ids a ++ inlines_ids l)) in Hroom.
  apply room_app in Hroom as [Hr1 Hr2]; [|apply inlines_count_nonneg].
  unfold parse_leaf, render_leaf, bind. cbn [leaf_attrs leaf_inlines]. rewrite <- !app_assoc.
  rewrite start_tag_complete by done.
  apply flow_spec in Hsp as (fl & Hrun & He). 2: { by apply spaced_nonempty. }
  unfold parse_inlines. cbn [rest].
  erewrite inlines_complete; [|lia|done|done| |exact Hrun|exact Hr2].
  2: { by rewrite length_app, Nat2Z.inj_add. }
  unfold get, lift. rewrite (flow_end_complete _ _ He), end_tag_complete, optional_lf_complete.
  unfold ret, leaf_count, leaf_ids. cbn [leaf_attrs leaf_inlines]. by rewrite add_ids_app, Z.add_assoc.
Qed.


Lemma leaf_count_nonneg l : 0 ≤ leaf_count l.
Proof. pose proof (inlines_count_nonneg (leaf_inlines l)). unfold leaf_count. lia. Qed.

Lemma sum_nonneg {A} (f : A → Z) l : (∀ x, 0 ≤ f x) → 0 ≤ sum_Z (f <$> l).
Proof. intros H. apply sum_Z_nonneg, Forall_fmap, Forall_true. done. Qed.

Lemma block_count_nonneg b : 0 ≤ block_count b.
Proof.
  unfold block_count. destruct (block_parts b).2 as [l|l]; [apply leaf_count_nonneg|].
  pose proof (sum_nonneg leaf_count (li_items l) leaf_count_nonneg). lia.
Qed.

Lemma item_count_nonneg x : 0 ≤ item_count x.
Proof.
  destruct x as [s|b]; simpl; [|apply block_count_nonneg].
  pose proof (sum_nonneg block_count (se_blocks s) block_count_nonneg). lia.
Qed.

(** A loop over children: each step reads one child back, the end tag ends it. *)
Section Loop.
Context {A : Type} (loop : nat → list A → M (list A)) (t : Tag.t).
Context (ok : Z → A → Prop) (count : A → Z) (ids_of : A → list str) (write : A → str).
Context (Hcount : ∀ x, 0 ≤ count x) (Hwrite : ∀ x, (1 ≤ length (write x))%nat).
Context (Hend : ∀ fuel items T r o e i,
  loop (S fuel) items (MkParser T (render_close t ++ r) o e i) = Done items (MkParser T (render_close t ++ r) o e i)).
Context (Hnext : ∀ fuel items x T r o e i, ok (Z.of_nat (length o)) x → room e i (count x) (ids_of x) →
  loop (S fuel) items (MkParser T (write x ++ r) o e i)
  = loop fuel (items ++ [x]) (MkParser T r o (e + count x) (add_ids i (ids_of x)))).

Lemma children_loop_complete fuel l items T r o e i :
  (length ((l ≫= write) ++ render_close t ++ r) < fuel)%nat → Forall (ok (Z.of_nat (length o))) l →
  room e i (sum_Z (count <$> l)) (l ≫= ids_of) →
  loop fuel items (MkParser T ((l ≫= write) ++ render_close t ++ r) o e i)
  = Done (items ++ l) (MkParser T (render_close t ++ r) o (e + sum_Z (count <$> l)) (add_ids i (l ≫= ids_of))).
Proof.
  revert fuel items e i. induction l as [|x l IH]; intros fuel items e i Hf Hok Hroom.
  { destruct fuel; [lia|]. change ([] ≫= write) with (@nil Z). change ([] ≫= ids_of) with (@nil str).
    rewrite app_nil_l, Hend, app_nil_r, add_ids_nil.
    change (sum_Z (count <$> [])) with 0. by rewrite Z.add_0_r. }
  destruct fuel as [|fuel]; [lia|]. apply Forall_cons in Hok as [Hx Hok].
  rewrite fmap_cons, sum_Z_cons, !bind_cons in *. rewrite <- !app_assoc in *.
  apply room_app in Hroom as [Hr1 Hr2]; [|by apply sum_nonneg].
  rewrite Hnext by done. rewrite IH; [|rewrite length_app in Hf; specialize (Hwrite x); lia|done|done].
  by rewrite <- app_assoc, add_ids_app, Z.add_assoc.
Qed.
End Loop.

(** The parts of a container around its children. *)
Lemma container_complete {A B} (loop : nat → list A → M (list A)) (mk : Attrs → list A → B) `{EqDecision A} t
    ok count ids_of write a l T r o e i :
  (∀ x, 0 ≤ count x) → (∀ x, (1 ≤ length (write x))%nat) →
  (∀ fuel items T r o e i, loop (S fuel) items (MkParser T (render_close t ++ r) o e i)
    = Done items (MkParser T (render_close t ++ r) o e i)) →
  (∀ fuel items x T r o e i, ok (Z.of_nat (length o)) x → room e i (count x) (ids_of x) →
    loop (S fuel) items (MkParser T (write x ++ r) o e i)
    = loop fuel (items ++ [x]) (MkParser T r o (e + count x) (add_ids i (ids_of x)))) →
  t ≠ Tag.Br → container_ok ok (Z.of_nat (length o)) a l →
  room e i (1 + sum_Z (count <$> l)) (attr_ids a ++ (l ≫= ids_of)) →
  (let! attrs := start_tag t in
   optional_lf ;;
   let! st := get in
   let! items := loop (S (length (rest st))) [] in
   if bool_decide (items = []) then fail_here RefusalCode.EmptyElement
   else end_tag t ;; optional_lf ;; ret (mk attrs items))
    (MkParser T (render_container t a (l ≫= write) ++ r) o e i)
  = Done (mk a l) (MkParser T r o (e + (1 + sum_Z (count <$> l))) (add_ids i (attr_ids a ++ (l ≫= ids_of)))).
Proof.
  intros Hc Hw Hend Hnext Ht (Hd & Ha & Hne & Hok) Hroom.
  apply room_app in Hroom as [Hr1 Hr2]; [|by apply sum_nonneg].
  unfold render_container, bind. rewrite <- !app_assoc, start_tag_complete by done.
  rewrite optional_lf_complete. unfold get. cbn [rest].
  rewrite (children_loop_complete loop t ok count ids_of write Hc Hw Hend Hnext); [|lia| |done].
  2: { by rewrite length_app, Nat2Z.inj_add. }
  rewrite app_nil_l, bool_decide_eq_false_2 by done. rewrite end_tag_complete, optional_lf_complete.
  unfold ret. by rewrite add_ids_app, Z.add_assoc.
Qed.

Lemma render_leaf_length t l : (1 ≤ length (render_leaf t l))%nat.
Proof. unfold render_leaf. rewrite length_app. pose proof (open_length t (leaf_attrs l)). lia. Qed.
Lemma render_container_length t a s : (1 ≤ length (render_container t a s))%nat.
Proof. unfold render_container. rewrite length_app. pose proof (open_length t a). lia. Qed.
Lemma render_block_length b : (1 ≤ length (render_block b))%nat.
Proof.
  unfold render_block. destruct (block_parts b) as [t [l|l]]; [apply render_leaf_length|apply render_container_length].
Qed.
Lemma render_item_length x : (1 ≤ length (render_item x))%nat.
Proof. destruct x; [apply render_container_length|apply render_block_length]. Qed.

Definition list_ok (d : Z) (l : List_) : Prop := container_ok leaf_ok d (li_attrs l) (li_items l).
Definition list_count (l : List_) : Z := 1 + sum_Z (leaf_count <$> li_items l).
Definition list_ids (l : List_) : list str := attr_ids (li_attrs l) ++ (li_items l ≫= leaf_ids).
Definition render_list (t : Tag.t) (l : List_) : str :=
  render_container t (li_attrs l) (li_items l ≫= render_leaf Tag.Li).

Lemma parse_list_complete t l :
  t ≠ Tag.Br → reads_back (parse_list t) list_ok list_count list_ids (render_list t) l.
Proof.
  intros Ht T r o e i Hok Hroom. destruct l as [a l].
  eapply (container_complete (λ fuel, list_items fuel t) MkList);
    [apply leaf_count_nonneg|apply render_leaf_length| | |done|exact Hok|exact Hroom].
  - intros. cbn [list_items]. unfold peek. cbn [rest]. rewrite peek_close. by rewrite bool_decide_eq_true_2.
  - intros fuel items x T' r' o' e' i' Hx Hr. cbn [list_items]. unfold peek. cbn [rest].
    unfold render_leaf at 1. rewrite <- app_assoc, peek_open.
    unfold bind. by rewrite parse_leaf_complete.
Qed.

Lemma map_complete {A B} (m : M A) (f : A → B) ok count ids_of write x :
  reads_back m ok count ids_of write x → ∀ T r o e i,
  ok (Z.of_nat (length o)) x → room e i (count x) (ids_of x) →
  (let! a := m in ret (f a)) (MkParser T (write x ++ r) o e i)
  = Done (f x) (MkParser T r o (e + count x) (add_ids i (ids_of x))).
Proof. intros H T r o e i Hok Hr. unfold bind. by rewrite H. Qed.

Lemma parse_block_complete b :
  reads_back (parse_block (block_parts b).1) block_ok block_count block_ids render_block b.
Proof.
  intros T r o e i Hok Hroom. destruct b as [l|l|l|l|l|l|l];
    [apply (map_complete _ Block.H1 _ _ _ _ _ (parse_leaf_complete Tag.H1 l ltac:(done)))
    |apply (map_complete _ Block.H2 _ _ _ _ _ (parse_leaf_complete Tag.H2 l ltac:(done)))
    |apply (map_complete _ Block.H3 _ _ _ _ _ (parse_leaf_complete Tag.H3 l ltac:(done)))
    |apply (map_complete _ Block.P _ _ _ _ _ (parse_leaf_complete Tag.P l ltac:(done)))
    |apply (map_complete _ Block.Address _ _ _ _ _ (parse_leaf_complete Tag.Address l ltac:(done)))
    |apply (map_complete _ Block.Ul _ _ _ _ _ (parse_list_complete Tag.Ul l ltac:(done)))
    |apply (map_complete _ Block.Ol _ _ _ _ _ (parse_list_complete Tag.Ol l ltac:(done)))]; done.
Qed.

(** ** Sections, regions and main *)

Lemma peek_block b r : peek_at (render_block b ++ r) = NStart (NTag (block_parts b).1).
Proof.
  unfold render_block, render_leaf, render_container.
  destruct (block_parts b) as [t [l|l]]; rewrite <- app_assoc; apply peek_open.
Qed.
Lemma block_tag b : is_block (block_parts b).1 = true ∧ (block_parts b).1 ≠ Tag.Section.
Proof. by destruct b. Qed.

Lemma peek_container t a s r : peek_at (render_container t a s ++ r) = NStart (NTag t).
Proof. unfold render_container. rewrite <- app_assoc. apply peek_open. Qed.

Definition section_back (section : option (M Section_)) (s : Section_) : Prop :=
  ∃ m, section = Some m ∧
    reads_back m (λ d s, item_ok d (MainItem.Section_ s)) (λ s, item_count (MainItem.Section_ s))
      (λ s, item_ids (MainItem.Section_ s)) (λ s, render_item (MainItem.Section_ s)) s.

Definition item_back (section : option (M Section_)) (d : Z) (x : MainItem.t) : Prop :=
  item_ok d x ∧ match x with MainItem.Section_ s => section_back section s | MainItem.Block_ _ => True end.

Lemma children_end section fuel t items T r o e i :
  children_from section (S fuel) t items (MkParser T (render_close t ++ r) o e i)
  = Done items (MkParser T (render_close t ++ r) o e i).
Proof. cbn [children_from]. unfold peek. cbn [rest]. rewrite peek_close. by rewrite bool_decide_eq_true_2. Qed.

Lemma children_next section fuel t items x T r o e i :
  item_back section (Z.of_nat (length o)) x → room e i (item_count x) (item_ids x) →
  children_from section (S fuel) t items (MkParser T (render_item x ++ r) o e i)
  = children_from section fuel t (items ++ [x]) (MkParser T r o (e + item_count x) (add_ids i (item_ids x))).
Proof.
  intros [Hx Hsec] Hr. cbn [children_from]. unfold peek. cbn [rest]. destruct x as [s|b].
  - destruct Hsec as (m & -> & Hm). cbn [render_item]. rewrite peek_container, bool_decide_eq_true_2 by done.
    unfold bind. by rewrite Hm.
  - cbn [render_item]. rewrite peek_block. destruct (block_tag b) as [Hb Hs].
    rewrite bool_decide_eq_false_2 by done. rewrite Hb. unfold bind. by rewrite parse_block_complete.
Qed.

Lemma children_complete {B} section t (mk : Attrs → list MainItem.t → B) a l T r o e i :
  t ≠ Tag.Br → container_ok (item_back section) (Z.of_nat (length o)) a l →
  room e i (1 + sum_Z (item_count <$> l)) (attr_ids a ++ (l ≫= item_ids)) →
  (let! attrs := start_tag t in optional_lf ;; let! items := children section t in ret (mk attrs items))
    (MkParser T (render_container t a (l ≫= render_item) ++ r) o e i)
  = Done (mk a l) (MkParser T r o (e + (1 + sum_Z (item_count <$> l))) (add_ids i (attr_ids a ++ (l ≫= item_ids)))).
Proof.
  intros Ht Hok Hr.
  rewrite <- (container_complete (λ fuel, children_from section fuel t) mk t (item_back section) item_count item_ids
    render_item a l T r o e i item_count_nonneg render_item_length (λ fuel, children_end section fuel t)
    (λ fuel, children_next section fuel t) Ht Hok Hr).
  unfold children, bind, get. repeat case_match; unfold ret, fail_here in *; congruence.
Qed.

(** The blocks of a section or region, read as children with no sections. *)
Lemma region_complete {B} t (mk : Attrs → list Block.t → B) a bs T r o e i :
  t ≠ Tag.Br → container_ok block_ok (Z.of_nat (length o)) a bs →
  room e i (1 + sum_Z (block_count <$> bs)) (attr_ids a ++ (bs ≫= block_ids)) →
  (let! attrs := start_tag t in optional_lf ;; let! blocks := parse_blocks t in ret (mk attrs blocks))
    (MkParser T (render_container t a (bs ≫= render_block) ++ r) o e i)
  = Done (mk a bs) (MkParser T r o (e + (1 + sum_Z (block_count <$> bs))) (add_ids i (attr_ids a ++ (bs ≫= block_ids)))).
Proof.
  intros Ht (Hd & Ha & Hne & Hok) Hr. set (l := MainItem.Block_ <$> bs).
  assert (El : omap item_block l = bs) by (subst l; clear; induction bs; csimpl; congruence).
  assert (Ec : item_count <$> l = block_count <$> bs) by (subst l; by rewrite <- list_fmap_compose).
  assert (Eb : ∀ {X} (f : MainItem.t → list X) g, (∀ b, f (MainItem.Block_ b) = g b) → l ≫= f = bs ≫= g).
  { intros X f g Hfg. subst l. clear -Hfg. induction bs; csimpl; [done|]. by rewrite Hfg, IHbs. }
  rewrite <- (Eb _ item_ids block_ids), <- (Eb _ render_item render_block), <- Ec in * by done.
  pose proof (children_complete None t (λ a l, mk a (omap item_block l)) a l T r o e i Ht) as H.
  cbv beta in H. rewrite El in H. rewrite <- H; [| |done].
  - unfold parse_blocks, bind. repeat case_match; unfold ret in *; congruence.
  - split_and!; [done|done|by subst l; destruct bs|]. subst l. apply Forall_fmap.
    eapply Forall_impl; [exact Hok|]. by intros b Hb.
Qed.

Lemma parse_section_complete s : section_back (Some parse_section) s.
Proof.
  exists parse_section. split; [done|]. intros T r o e i Hok Hr. destruct s as [a bs].
  by apply (region_complete Tag.Section MkSection a bs).
Qed.

Lemma parse_main_complete m T r e i :
  main_ok m → room e i (main_count m) (main_ids m) →
  parse_main (MkParser T (render_main m ++ r) [] e i)
  = Done m (MkParser T r [] (e + main_count m) (add_ids i (main_ids m))).
Proof.
  intros (Hd & Ha & Hne & Hok) Hr. destruct m as [a l].
  apply (children_complete (Some parse_section) Tag.Main MkMain a l); [done| |done].
  split_and!; [done..|]. eapply Forall_impl; [exact Hok|]. intros [s|b] Hx; (split; [done|]); [apply parse_section_complete|done].
Qed.

Lemma optional_region_complete t x T r e i :
  t ≠ Tag.Br → (∀ y, x = Some y → region_ok y) → room e i (region_count x) (region_ids x) →
  (x = None → peek_at r ≠ NStart (NTag t)) →
  parse_optional_region t (MkParser T (render_region t x ++ r) [] e i)
  = Done x (MkParser T r [] (e + region_count x) (add_ids i (region_ids x))).
Proof.
  intros Ht Hok Hr Hp. unfold parse_optional_region, bind at 1, get, peek_start, peek. cbn [rest].
  destruct x as [[a bs]|]; cbn [render_region region_count region_ids re_attrs re_blocks].
  - rewrite peek_container, bool_decide_eq_true_2 by done. unfold bind at 1, parse_region.
    by rewrite (region_complete t MkRegion a bs T r [] e i Ht (Hok _ eq_refl) Hr).
  - rewrite app_nil_l, add_ids_nil, Z.add_0_r. specialize (Hp eq_refl).
    destruct (peek_at r) as [[u|]| | |]; try done. rewrite bool_decide_eq_false_2; [done|]. congruence.
Qed.

(** ** The document *)

Lemma same_prefix l r : same l (l ++ r) = length l.
Proof. induction l as [|x l IH]; simpl; [done|]. by rewrite Z.eqb_refl, IH. Qed.

Lemma fixed_complete l code T r o e i :
  fixed l code (MkParser T (l ++ r) o e i) = Done tt (MkParser T r o e i).
Proof.
  unfold fixed, advance, set_rest. cbn [rest total open_ elements ids].
  by rewrite same_prefix, Nat.ltb_irrefl, drop_app_length.
Qed.

Lemma lang_ok_facts v : lang_ok v = true → Forall (λ c, is_char c ∧ c ≠ 34) v.
Proof.
  intros H. assert (Hl : ∀ c, is_ascii_lowercase c = true ∨ is_ascii_uppercase c = true ∨ c = 45 →
    is_char c ∧ c ≠ 34).
  { unfold is_ascii_lowercase, is_ascii_uppercase, is_char. intros c. lia. }
  destruct v as [|a [|b [|h [|c [|d []]]]]]; try discriminate H; simpl in H.
  - apply andb_prop in H as [H1 H2]. repeat apply Forall_cons_2; [apply Hl; auto..|by constructor].
  - rewrite !andb_true_iff, Z.eqb_eq in H. repeat apply Forall_cons_2; [apply Hl; tauto..|by constructor].
Qed.

Lemma parse_lang_complete v T r o e i :
  lang_ok v = true → parse_lang (MkParser T (v ++ 34 :: r) o e i) = Done v (MkParser T (34 :: r) o e i).
Proof.
  intros Hv. unfold parse_lang. cbn [rest].
  rewrite span_all; [by rewrite Hv| |done]. eapply Forall_impl; [by apply lang_ok_facts|].
  intros c [_ Hc]. by apply negb_true_iff, Z.eqb_neq.
Qed.

Lemma parse_title_complete t T r o e i :
  spaced (Some <$> t) → Z.of_nat (length t) ≤ Policy.max_title_chars POLICY_V1 →
  tag_next r → (∀ n, peek_at r ≠ NStart n) →
  parse_title (MkParser T (escape t ++ r) o e i) = Done t (MkParser T r o e i).
Proof.
  intros Hs Hlen Hr Hp. pose proof (spaced_nonempty _ Hs) as Hne.
  apply flow_spec in Hs as (fl & Hrun & He); [|done].
  pose proof (flow_chars _ _ _ Hrun) as Hc. rewrite omap_some in Hc. change (chars Flow_new) with 0 in Hc.
  unfold parse_title, bind. rewrite (run_text_complete _ _ _ _ _ _ _ _ _ Hr Hrun) by lia.
  unfold get, peek. cbn [rest]. destruct (peek_at r) as [n| | |] eqn:Ep; [by destruct (Hp n)|..].
  all: destruct (Z.eqb_spec (chars fl) 0) as [H0|_];
    [destruct t; [done|rewrite Hc in H0; simpl in H0; lia]|].
  all: cbn [orb]; unfold lift; by rewrite flow_end_complete.
Qed.

(** Text after an occurrence does not move the first occurrence. *)
Lemma before_app needle hay r :
  needle `prefix_of` drop (length (before needle hay)) hay → before needle (hay ++ r) = before needle hay.
Proof.
  unfold starts_with in *. induction hay as [|b hay IH]; intros H.
  - assert (needle = []) as ->. { cbn in H. case_match; by apply prefix_nil_inv in H. }
    by destruct r.
  - cbn [before app] in *. unfold starts_with in *. case_bool_decide as Hp.
    + rewrite bool_decide_eq_true_2; [done|]. by apply (prefix_app_r _ (b :: hay)).
    + cbn [length drop] in H. rewrite bool_decide_eq_false_2, IH; [done|done|].
      intros [k Hk]. apply Hp. apply prefix_length in H. rewrite length_drop in H.
      exists (take (S (length hay) - length needle) k).
      apply (f_equal (take (S (length hay)))) in Hk.
      change (b :: hay ++ r) with ((b :: hay) ++ r) in Hk.
      rewrite take_app_le, take_ge in Hk by (simpl; lia). rewrite Hk at 1. rewrite take_app.
      rewrite take_ge by lia. done.
Qed.

(** The stylesheet is followed by its end tag and holds none itself. *)
Lemma parse_css_complete T r o e i :
  let '(_, _, _, after_css) := Policy.head_segments POLICY_V1 in
  parse_css (MkParser T (Policy.css POLICY_V1 ++ after_css ++ r) o e i)
  = Done tt (MkParser T (after_css ++ r) o e i).
Proof.
  destruct (Policy.head_segments POLICY_V1) as [[[head after_lang] after_title] after_css] eqn:Eh.
  unfold parse_css. cbn [rest]. rewrite app_assoc, before_app.
  2: { apply (f_equal snd) in Eh. cbn [snd] in Eh. rewrite <- Eh. apply (bool_decide_unpack _). vm_compute. exact I. }
  assert (Hb : before (lit "</" ++ Policy.style_tag POLICY_V1) (Policy.css POLICY_V1 ++ after_css)
    = Policy.css POLICY_V1).
  { apply (f_equal snd) in Eh. cbn [snd] in Eh. rewrite <- Eh. vm_compute. reflexivity. }
  rewrite Hb, bool_decide_eq_false_2 by (intros H; by apply H).
  unfold advance, set_rest. cbn [rest total open_ elements ids]. by rewrite <- app_assoc, drop_app_length.
Qed.

(** How the fixed text continues after the language and after the title. *)
Lemma head_facts :
  let '(_, after_lang, after_title, _) := Policy.head_segments POLICY_V1 in
  (∃ s, after_lang = 34 :: s) ∧ ∀ r, tag_next (after_title ++ r) ∧ ∀ n, peek_at (after_title ++ r) ≠ NStart n.
Proof. split; [eexists; reflexivity|]. done. Qed.

Lemma starts_with_app s r : starts_with (s ++ r) s = true.
Proof. apply bool_decide_eq_true_2. by exists r. Qed.

Lemma document_complete p T :
  page_ok p → ∃ st, document (MkParser T (render p) [] 0 ∅) = Done p st.
Proof.
  intros [Hlang Hch Hlen Hsp Hhd Hmn Hft Hel Hids]. destruct p as [lg tt' hd mn ft]. cbn [lang title header main footer] in *.
  assert (Hroom : room 0 ∅ (region_count hd + main_count mn + region_count ft)
    ((region_ids hd ++ main_ids mn) ++ region_ids ft)) by (rewrite <- app_assoc; split; [done|done|set_solver]).
  assert (Hn1 : 0 ≤ main_count mn).
  { unfold main_count. pose proof (sum_nonneg item_count (ma_items mn) item_count_nonneg). lia. }
  assert (Hn2 : 0 ≤ region_count ft).
  { destruct ft as [f|]; simpl; [|lia]. pose proof (sum_nonneg block_count (re_blocks f) block_count_nonneg). lia. }
  apply room_app in Hroom as [Hroom Hr3]; [|done]. apply room_app in Hroom as [Hr1 Hr2]; [|done].
  rewrite Z.add_assoc, add_ids_app in Hr3.
  pose proof head_facts as Hf. pose proof parse_css_complete as Hcss.
  unfold document, render. cbn [lang title header main footer].
  destruct (Policy.head_segments POLICY_V1) as [[[head after_lang] after_title] after_css].
  destruct Hf as [[al ->] Htitle]. unfold bind. rewrite fixed_complete.
  change ((34 :: al) ++ ?x) with (34 :: (al ++ x)). rewrite parse_lang_complete by done.
  change (34 :: al ++ ?x) with ((34 :: al) ++ x). rewrite fixed_complete.
  rewrite parse_title_complete by (done || apply Htitle). rewrite fixed_complete, Hcss, fixed_complete.
  rewrite optional_region_complete; [|done..|intros _; unfold render_main; by rewrite peek_container].
  unfold get, peek_start, peek. cbn [rest]. unfold render_main at 1. rewrite peek_container.
  rewrite bool_decide_eq_true_2 by done. cbn [negb]. fold (render_main mn).
  rewrite parse_main_complete by done. rewrite optional_region_complete; [|done..].
  unfold at_lit. cbn [rest].
  replace (starts_with (Policy.epilogue POLICY_V1) (Policy.epilogue POLICY_V1)) with true
    by (symmetry; rewrite <- (app_nil_r (Policy.epilogue POLICY_V1)) at 1; apply starts_with_app).
  cbn [negb]. unfold advance, set_rest. cbn [rest].
  rewrite drop_all, bool_decide_eq_false_2 by (intros H; by apply H). by eexists.
Qed.

Lemma parse_complete p : page_ok p → ∃ st, parse_document (render p) = Done p st.
Proof. apply document_complete. Qed.
