(* ===== verification/PageCheck.v ===== *)
(** * The inert page check

    [check], [Refusal::at] and [Page::new] of [kernel/src/inert_page]: S1 to S4 in
    order. The check accepts exactly the canonical bytes of the trees that meet the
    declared rules. *)

From S2P Require Import Prelude Utf8 Evidence PagePolicy PageTree PageScan PageParse PageRules PageLex PageSound PageComplete.

Local Open Scope Z_scope.
#[local] Arguments lit : simpl never.

Record Refusal := MkRefusal {
  r_code : RefusalCode.t;
  r_offset : Z;
  r_line : Z;
  r_column : Z;
}.

(** What follows the last line feed. *)
Definition last_line (b : bytes) : bytes :=
  reverse (span (λ x, negb (x =? LF)) (reverse b)).1.

(** Whether a byte starts a character ([b & 0xC0 != 0x80]). *)
Definition starts_char (b : Z) : bool := negb (Z.land b 192 =? 128).

(** [Refusal::at]: the line and column of an offset. *)
Definition refusal_at (code : RefusalCode.t) (input : bytes) (offset : Z) : Refusal :=
  let before := take (Z.to_nat (Z.min offset (zlen input))) input in
  let line := 1 + zlen (filter (λ b, b = LF) before) in
  let column := 1 + zlen (filter (λ b, starts_char b = true) (last_line before)) in
  MkRefusal code (to_u32 offset) (to_u32 line) (to_u32 column).

(** The full check. The last case stands for a parse that runs out of fuel, which
    none does. *)
Definition check_outcome (candidate : bytes) : option (result Page Refusal) :=
  match first (scan candidate) with
  | Some (code, offset) => Some (Err (refusal_at code candidate offset))
  | None =>
      match from_utf8 candidate with
      | None => Some (Err (refusal_at RefusalCode.NotUtf8 candidate (valid_up_to candidate)))
      | Some text =>
          match parse_document text with
          | Done page _ =>
              let canonical := serialize page in
              if bool_decide (canonical ≠ candidate)
              then Some (Err (refusal_at RefusalCode.NotCanonical candidate
                                (Z.of_nat (same canonical candidate))))
              else Some (Ok page)
          | Failed (code, at_) => Some (Err (refusal_at code candidate at_))
          | OutOfFuel => None
          end
      end
  end.

(** [Page::new] on the tree of its arguments. Past the size cap the bytes are cut
    short. *)
Definition Page_new (page : Page) : option (result Page Refusal) :=
  let bytes := write_page page (Policy.max_page_bytes POLICY_V1) in
  match check_outcome bytes with
  | Some (Ok parsed) =>
      if bool_decide (parsed ≠ page)
      then Some (Err (refusal_at RefusalCode.NotCanonical bytes 0))
      else Some (Ok page)
  | o => o
  end.

(** ** The characters of a canonical page *)

Lemma lit_chars (s : str) : forallb (λ c, (0 <=? c) && (c <? 128)) s = true → Forall is_char s.
Proof.
  rewrite forallb_forall. intros H. apply Forall_forall. intros c Hc%list_elem_of_In%H. left. lia.
Qed.

Lemma escape_chars s : Forall is_char s → Forall is_char (escape s).
Proof.
  induction 1 as [|c s Hc _ IH]; [constructor|]. apply Forall_app. split; [|done].
  destruct (escape_char_cases c) as [(e & -> & Hin)|(-> & _)]; [|by constructor].
  assert (He : Forall (λ e : Z * str, Forall is_char e.2) (Policy.entities POLICY_V1)).
  { cbn [Policy.entities POLICY_V1]. do 5 (apply Forall_cons_2; [by apply lit_chars|]). by apply Forall_nil. }
  by apply (proj1 (Forall_forall _ _) He (c, e)).
Qed.

Lemma tag_chars t : Forall is_char (Tag.name t).
Proof. by destruct t; apply lit_chars. Qed.

Lemma attr_chars name v : Forall is_char name → Forall is_char v → Forall is_char (render_attr name (Some v)).
Proof. intros Hn Hv. unfold render_attr. rewrite !Forall_app. split_and!; try done; by apply lit_chars. Qed.

Lemma open_chars t a : attrs_ok a → Forall is_char (render_open t a).
Proof.
  intros Ha. assert (Hx : ∀ v, Forall (λ c, is_char c ∧ c ≠ 34) v → Forall is_char v).
  { intros v H. eapply Forall_impl; [exact H|]. by intros c []. }
  unfold render_open, render_attrs. rewrite !Forall_app.
  split_and!; [by apply lit_chars|apply tag_chars| | |by apply lit_chars].
  - destruct (a_class a) as [c|]; [|constructor]. apply attr_chars; [by apply lit_chars|]. apply Hx, class_name_facts.
  - destruct (a_id a) as [v|] eqn:E; [|constructor]. apply attr_chars; [by apply lit_chars|]. apply Hx, id_ok_facts, Ha, E.
Qed.

Lemma close_chars t : Forall is_char (render_close t).
Proof. unfold render_close. rewrite !Forall_app. split_and!; [by apply lit_chars|apply tag_chars|by apply lit_chars]. Qed.

Lemma inlines_chars l : ∀ d, inlines_ok d l → Forall is_char (render_inlines l).
Proof.
  assert (Hspan : ∀ i t a k, span_of i = Some (t, MkLeaf a k) →
    (∀ d, inlines_ok d k → Forall is_char (render_inlines k)) → ∀ d, inline_ok d i → Forall is_char (render_inline i)).
  { intros i t a k Hs IH d (_ & Ha & _ & _ & Hok)%(inline_ok_span _ _ _ _ _ Hs).
    rewrite (render_span _ _ _ _ Hs), !Forall_app. split_and!; [by apply open_chars|by eapply IH|apply close_chars]. }
  refine (inlines_ind (λ i, ∀ d, inline_ok d i → Forall is_char (render_inline i))
    (λ l, ∀ d, inlines_ok d l → Forall is_char (render_inlines l)) _ _ _ _ _ _ _ l).
  - intros t d [_ Ht]. by apply escape_chars.
  - intros d _. by apply open_chars.
  - intros a k. by apply (Hspan (IStrong (MkLeaf a k)) Tag.Strong a k).
  - intros a k. by apply (Hspan (IEm (MkLeaf a k)) Tag.Em a k).
  - intros a k. by apply (Hspan (ISmall (MkLeaf a k)) Tag.Small a k).
  - by constructor.
  - intros i k Hi Hk d [H1 H2]%Forall_cons. apply Forall_app. eauto.
Qed.

Lemma leaf_chars d t l : leaf_ok d l → Forall is_char (render_leaf t l).
Proof.
  intros [_ Ha _ _ Hok _]. unfold render_leaf. rewrite !Forall_app.
  split_and!; [by apply open_chars|by eapply inlines_chars|apply close_chars|by apply lit_chars].
Qed.

Lemma container_chars {A} (ok : Z → A → Prop) (write : A → str) d t a l :
  (∀ d x, ok d x → Forall is_char (write x)) → container_ok ok d a l →
  Forall is_char (render_container t a (l ≫= write)).
Proof.
  intros Hw (_ & Ha & _ & Hok). unfold render_container. rewrite !Forall_app.
  split_and!; [by apply open_chars|by apply lit_chars| |apply close_chars|by apply lit_chars].
  induction Hok as [|x l Hx _ IH]; [constructor|]. apply Forall_app. eauto.
Qed.

Lemma block_chars d b : block_ok d b → Forall is_char (render_block b).
Proof.
  unfold block_ok, render_block. destruct (block_parts b) as [t [l|l]]; cbn [snd]; [apply leaf_chars|].
  apply container_chars. intros ? ?. apply leaf_chars.
Qed.

Lemma item_chars d x : item_ok d x → Forall is_char (render_item x).
Proof. destruct x as [s|b]; [apply container_chars, block_chars|apply block_chars]. Qed.

Lemma region_chars t x : (∀ y, x = Some y → region_ok y) → Forall is_char (render_region t x).
Proof. intros H. destruct x as [y|]; [|constructor]. eapply container_chars; [apply block_chars|by apply H]. Qed.

Lemma segment_chars : let '(head, after_lang, after_title, after_css) := Policy.head_segments POLICY_V1 in
  Forall is_char head ∧ Forall is_char after_lang ∧ Forall is_char after_title ∧ Forall is_char after_css.
Proof. split_and!; apply lit_chars; vm_compute; reflexivity. Qed.

Lemma render_chars p : page_ok p → Forall is_char (render p).
Proof.
  intros [Hlang Ht _ _ Hhd Hmn Hft _ _]. unfold render. pose proof segment_chars as H.
  destruct (Policy.head_segments POLICY_V1) as [[[head after_lang] after_title] after_css].
  destruct H as (H1 & H2 & H3 & H4). rewrite !Forall_app. split_and!; try done.
  - eapply Forall_impl; [by apply lang_ok_facts|]. by intros c [].
  - by apply escape_chars.
  - apply lit_chars. vm_compute. reflexivity.
  - by apply region_chars.
  - eapply container_chars; [apply item_chars|done].
  - by apply region_chars.
  - apply lit_chars. vm_compute. reflexivity.
Qed.

(** ** The check *)

(** Canonical bytes within the cap are the canonical text's. *)
Lemma serialize_small page : zlen (serialize page) ≤ Policy.max_page_bytes POLICY_V1 → serialize page = as_bytes (render page).
Proof.
  intros H. apply serialize_render. pose proof (write_page_spec page u64_max ltac:(done)) as Hs.
  destruct (Z.leb_spec (str_len (render page)) u64_max); [done|]. exfalso.
  unfold serialize, zlen in H. cbn [Policy.max_page_bytes POLICY_V1] in H. unfold u64_max in *. lia.
Qed.

(** A candidate that S1 and S2 pass is decoded; the parse of it ends. *)
Lemma clean_outcome c :
  Forall is_byte c → first (scan c) = None →
  ∃ text, as_bytes text = c ∧ Forall is_char text ∧ from_utf8 c = Some text.
Proof.
  intros Hb Hc. destruct (lc_text _ (scan_clean _ Hc)) as (s & Hs & _).
  destruct (from_utf8_inv _ _ Hb Hs). eauto.
Qed.

Lemma check_ends c : Forall is_byte c → ∃ r, check_outcome c = Some r.
Proof.
  intros Hb. unfold check_outcome. destruct (first (scan c)) as [[code off]|] eqn:Ef; [eauto|].
  destruct (clean_outcome c Hb Ef) as (text & _ & Hch & ->). pose proof (parse_sound text Hch) as Hp.
  destruct (parse_document text) as [p st|[code at_]|]; [case_bool_decide; eauto|eauto|done].
Qed.

Lemma check_sound c p :
  Forall is_byte c → check_outcome c = Some (Ok p) → page_ok p ∧ c = serialize p ∧ first (scan c) = None.
Proof.
  intros Hb. unfold check_outcome. destruct (first (scan c)) as [[code off]|] eqn:Ef; [done|].
  destruct (clean_outcome c Hb Ef) as (text & _ & Hch & ->). pose proof (parse_sound text Hch) as Hp.
  destruct (parse_document text) as [q st|[code at_]|]; [|done..].
  case_bool_decide as Hc; [done|]. intros [= ->]. auto.
Qed.

Lemma check_complete p :
  page_ok p → first (scan (serialize p)) = None → check_outcome (serialize p) = Some (Ok p).
Proof.
  intros Hok Hf. unfold check_outcome. rewrite Hf.
  pose proof (serialize_small p (lc_size _ (scan_clean _ Hf))) as Es. rewrite Es at 1.
  rewrite from_utf8_as_bytes by by apply render_chars.
  destruct (parse_complete p Hok) as [st ->]. rewrite bool_decide_eq_false_2; [done|]. intros H. by apply H.
Qed.

(** C5. The full check accepts a candidate with the tree [p] exactly when the
    candidate is the canonical serialization of [p], [p] meets every declared rule
    (nesting depth, element count, unique well-formed ids, spacing, word, title and
    language rules) and the scan of the whole input has no finding. *)
Theorem check_accepts_iff (c : bytes) (p : Page) (Hbytes : Forall is_byte c) :
  check_outcome c = Some (Ok p) ↔ page_ok p ∧ c = serialize p ∧ first (lexical_findings c) = None.
Proof.
  split; [by apply check_sound|]. intros (Hok & -> & Hf). by apply check_complete.
Qed.

(** The longest common prefix: the next byte differs. *)
Lemma same_spec a b :
  take (same a b) a = take (same a b) b ∧ (a ≠ b → a !! same a b ≠ b !! same a b).
Proof.
  revert b. induction a as [|x a IH]; intros [|y b]; try done. cbn [same]. destruct (Z.eqb_spec x y) as [->|Hne].
  - destruct (IH b) as [Ht Hd]. cbn [take]. split; [by rewrite Ht|]. intros Hab. apply Hd. congruence.
  - split; [done|]. simpl. congruence.
Qed.

(** C26. The check always ends with a verdict: no loop of the parse runs past the
    input, and the second decoding that follows S1 never refuses. A refusal names its
    cause: where the scan noted anything, the first code in reporting order that it noted,
    at the least offset it noted it; else the parse's own failure; else, of a page that
    parses, the first byte at which the candidate is not canonical. *)
Theorem check_total (c : bytes) (Hbytes : Forall is_byte c) :
  match check_outcome c with
  | Some (Ok _) => True
  | Some (Err r) =>
      (∃ ns code off before after,
        lexical_findings c = notes ns ∧ first (lexical_findings c) = Some (code, off) ∧ r = refusal_at code c off ∧
        Policy.refusal_codes POLICY_V1 = before ++ code :: after ∧ (∀ d o, (d, o) ∈ ns → d ∉ before) ∧
        least_note ns code off) ∨
      (∃ text, first (lexical_findings c) = None ∧ as_bytes text = c ∧
        ((∃ code at_, parse_document text = Failed (code, at_) ∧ r = refusal_at code c at_) ∨
         (∃ p st n, parse_document text = Done p st ∧ page_ok p ∧ serialize p ≠ c ∧
            n = same (serialize p) c ∧ take n (serialize p) = take n c ∧ serialize p !! n ≠ c !! n ∧
            r = refusal_at RefusalCode.NotCanonical c (Z.of_nat n))))
  | None => False
  end.
Proof.
  unfold check_outcome, lexical_findings. destruct (first (scan c)) as [[code off]|] eqn:Ef.
  { left. destruct (scan_noted c) as [ns Ens]. rewrite Ens in *.
    destruct (first_reported _ _ _ Ef) as (before & after & ? & ? & ?). by exists ns, code, off, before, after. }
  destruct (clean_outcome c Hbytes Ef) as (text & Et & Hch & ->). pose proof (parse_sound text Hch) as Hp.
  destruct (parse_document text) as [p st|[code at_]|] eqn:Ep; [|right; exists text; split_and!; eauto|done].
  case_bool_decide as Hc; [|done]. right. exists text. split_and!; [done..|]. right.
  destruct (same_spec (serialize p) c) as [Ht Hd]. exists p, st, (same (serialize p) c). split_and!; try done. by apply Hd.
Qed.

(** ** Pages built from parts *)

Lemma check_too_large c :
  Policy.max_page_bytes POLICY_V1 < zlen c →
  check_outcome c = Some (Err (refusal_at RefusalCode.TooLarge c (Policy.max_page_bytes POLICY_V1))).
Proof.
  intros H. unfold check_outcome, scan. by rewrite (proj2 (Z.ltb_lt _ _) H).
Qed.

Lemma as_bytes_byte s : Forall is_char s → Forall is_byte (as_bytes s).
Proof.
  induction 1 as [|c s Hc _ IH]; [constructor|]. apply Forall_app. split; [|done].
  unfold utf8_char, is_char in *. repeat case_match; repeat apply Forall_cons_2; try constructor;
    Z.to_euclidean_division_equations; lia.
Qed.

(** [Page::new] builds a page exactly when the tree meets the rules and its
    canonical bytes have no lexical finding; the page built is the tree given. *)
Theorem page_new_iff (p q : Page) (Hchars : Forall is_char (render p)) :
  Page_new p = Some (Ok q) ↔
  q = p ∧ page_ok p ∧ first (lexical_findings (as_bytes (render p))) = None.
Proof.
  unfold Page_new. pose proof (write_page_spec p (Policy.max_page_bytes POLICY_V1) ltac:(done)) as Hw.
  destruct (Z.leb_spec (str_len (render p)) (Policy.max_page_bytes POLICY_V1)) as [Hle|Hgt].
  - assert (Es : serialize p = as_bytes (render p)).
    { apply serialize_render. revert Hle. cbn [Policy.max_page_bytes POLICY_V1]. unfold u64_max. lia. }
    rewrite Hw. unfold lexical_findings. split.
    + destruct (check_outcome _) as [[r|]|] eqn:Ec; [|done..]. case_bool_decide as Hr; [done|]. intros [= <-].
      subst r. apply check_sound in Ec as (? & _ & ?); [done|by apply as_bytes_byte].
    + intros (-> & Hok & Hf). rewrite <- Es in *. rewrite check_complete by done.
      rewrite bool_decide_eq_false_2; [done|]. intros H. by apply H.
  - rewrite check_too_large by done. split; [done|]. intros (_ & _ & Hf).
    apply scan_clean in Hf as [Hs _ _ _]. unfold zlen, str_len in *. lia.
Qed.

(** An accepted page is inert: at no offset, in any letter case, does it hold a
    needle (a remote reference, [url(], [@import], [javascript:] or [data:]), a
    declaration other than the doctype or an [&] that starts no entity; every
    character is of the profile; and every byte is written by the serializer from
    the typed tree. *)
Theorem accepted_inert (c : bytes) (p : Page)
    (Hbytes : Forall is_byte c) (Hok : check_outcome c = Some (Ok p)) :
  c = as_bytes (render p) ∧ Forall char_allowed (render p) ∧
  (∀ pre suf, c = pre ++ suf → suf ≠ [] → offset_clean (zlen pre) suf).
Proof.
  apply check_sound in Hok as (Hp & E & Hf); [|done].
  pose proof (scan_clean _ Hf) as [Hs (s & Ht & Hall) _ Ho].
  assert (Es : c = as_bytes (render p)) by (rewrite E; apply serialize_small; by rewrite <- E).
  split_and!; [done| |done]. rewrite Es, from_utf8_as_bytes in Ht by by apply render_chars. congruence.
Qed.

(** ** A page *)

Module Sample.
Definition page : Page :=
  MkPage (lit "en") (lit "Bakery")
    (Some (MkRegion Attrs_default [Block.H1 (MkLeaf Attrs_default [IText (lit "Bakery")])]))
    (MkMain (MkAttrs (Some Class.Lead) (Some (lit "top")))
      [MainItem.Section_ (MkSection Attrs_default
         [Block.P (MkLeaf (MkAttrs (Some Class.Note) None)
            [IText (lit "Bread & "); IStrong (MkLeaf Attrs_default [IText (lit "rolls")]); IBr; IText (lit "daily")]);
          Block.Ul (MkList Attrs_default
            [MkLeaf Attrs_default [IText (lit "Mo 8-12")]; MkLeaf Attrs_default [IText (lit "Tu 8-12")]])]);
       MainItem.Block_ (Block.P (MkLeaf Attrs_default [IText (lit "030 123 456")]))])
    None.
Definition candidate : bytes := Eval vm_compute in serialize page.

Lemma candidate_bytes : Forall is_byte candidate.
Proof. apply (bool_decide_unpack _). vm_compute. exact I. Qed.

Lemma page_chars : Forall is_char (render page).
Proof. apply lit_chars. vm_compute. reflexivity. Qed.

Lemma candidate_accepted : check_outcome candidate = Some (Ok page).
Proof. vm_compute. reflexivity. Qed.

Lemma page_rules : page_ok page.
Proof. by apply (check_sound _ _ candidate_bytes candidate_accepted). Qed.
End Sample.

Lemma check_accepts_iff_witness :
  Forall is_byte Sample.candidate ∧
  page_ok Sample.page ∧ Sample.candidate = serialize Sample.page ∧ first (lexical_findings Sample.candidate) = None.
Proof.
  split; [exact Sample.candidate_bytes|].
  apply (check_accepts_iff Sample.candidate Sample.page Sample.candidate_bytes). exact Sample.candidate_accepted.
Defined.

Lemma check_total_witness : Forall is_byte (lit "<p>") ∧ ∃ r, check_outcome (lit "<p>") = Some (Err r).
Proof.
  assert (H : Forall is_byte (lit "<p>")) by (apply (bool_decide_unpack _); vm_compute; exact I).
  split; [exact H|]. pose proof (check_total (lit "<p>") H) as Ht.
  destruct (check_outcome (lit "<p>")) as [[p|r]|] eqn:E; [vm_compute in E; discriminate|by exists r|done].
Defined.

Lemma page_new_iff_witness : Forall is_char (render Sample.page) ∧ Page_new Sample.page = Some (Ok Sample.page).
Proof.
  split; [exact Sample.page_chars|]. apply (page_new_iff Sample.page Sample.page Sample.page_chars).
  split; [reflexivity|]. split; [exact Sample.page_rules|]. vm_compute. reflexivity.
Defined.

Lemma accepted_inert_witness :
  Forall is_byte Sample.candidate ∧ check_outcome Sample.candidate = Some (Ok Sample.page) ∧
  Forall char_allowed (render Sample.page).
Proof.
  split; [exact Sample.candidate_bytes|]. split; [exact Sample.candidate_accepted|].
  apply (accepted_inert Sample.candidate Sample.page Sample.candidate_bytes Sample.candidate_accepted).
Defined.
