(* ===== verification/PageFacts.v ===== *)
(** * The approved facts and the facts check

    [kernel/src/inert_page/facts.rs]: the facts an Owner approved, and FC-1 to FC-4
    of a page against them. A leaf is flattened by an explicit stack, with the byte
    range of each of its spans; the reference reads the text recursively. *)

From S2P Require Import Prelude Hash Utf8 Evidence PagePolicy PageScan PageTree PageRules PageCheck.

Local Open Scope Z_scope.
#[local] Arguments lit : simpl never.

(** ** The approved facts *)

Record ApprovedFacts := MkFacts {
  af_name : str;
  af_hours : list str;
  af_phone : str;
  af_hash : bytes;
}.

Definition FACTS_DOMAIN : bytes := lit "nexus.inert_page.facts.v1".

Definition within_range (lo hi n : Z) : bool := (lo <=? n) && (n <=? hi).
Definition count (v : str) : Z := Z.of_nat (length v).

(** One value: its length, characters, spacing and needles. *)
Definition value_ok (v : str) : bool :=
  let p := POLICY_V1 in
  let lower := to_ascii_lowercase v in
  within_range (Policy.facts_value_min_chars p) (Policy.facts_value_max_chars p) (count v) &&
  forallb (λ c, negb (in_ranges (Policy.control_ranges p) c) &&
                negb (in_ranges (Policy.invisible_ranges p) c) &&
                in_ranges (Policy.profile_ranges p) c) v &&
  negb (bool_decide (head v = Some 32)) &&
  negb (bool_decide (last v = Some 32)) &&
  negb (contains v (lit "  ")) &&
  negb (existsb (λ n, contains lower n.1) (Policy.needles p)).

(** The characters of a phone from the [k]-th on, after [run] non-digits in a row
    and [digits] digits; the number of digits, unless a character is refused. *)
Fixpoint phone_chars_ok (k : nat) (run digits : Z) (s : str) : option Z :=
  let p := POLICY_V1 in
  match s with
  | [] => Some digits
  | c :: s =>
      if negb (bool_decide (c ∈ Policy.phone_chars p)) || ((c =? 43) && (0 <? k)%nat) then None
      else if is_ascii_digit c then phone_chars_ok (S k) 0 (digits + 1) s
      else if Policy.phone_max_non_digit_run p <? run + 1 then None
      else phone_chars_ok (S k) (run + 1) digits s
  end.

Definition phone_shape_ok (phone : str) : bool :=
  let p := POLICY_V1 in
  match phone_chars_ok 0 0 0 phone with
  | None => false
  | Some digits =>
      match head phone with Some c => (c =? 43) || (c =? 40) || is_ascii_digit c | None => false end &&
      match last phone with Some c => is_ascii_digit c | None => false end &&
      within_range (Policy.phone_min_digits p) (Policy.phone_max_digits p) digits
  end.

(** FC-4's tokenizer: the digits so far, flushed at a character that is neither a
    digit nor a separator. *)
Definition flush (found : list str) (digits : str) : list str :=
  if Policy.fc4_threshold POLICY_V1 <=? count digits then found ++ [digits] else found.

Fixpoint tokens_from (found : list str) (digits : str) (text : str) : list str :=
  match text with
  | [] => flush found digits
  | c :: text =>
      if is_ascii_digit c then tokens_from found (digits ++ [c]) text
      else if negb (bool_decide (c ∈ Policy.fc4_separators POLICY_V1))
      then tokens_from (flush found digits) [] text
      else tokens_from found digits text
  end.
Definition phone_like_tokens (text : str) : list str := tokens_from [] [] text.

Section Facts.
Context (sha2 : bytes → bytes).

Definition facts_preimage (name : str) (hours : list str) (phone : str) : bytes :=
  put FACTS_DOMAIN ++ put (as_bytes name) ++ to_be_bytes 4 (Z.of_nat (length hours)) ++
  (hours ≫= λ line, put (as_bytes line)) ++ put (as_bytes phone).

(** [ApprovedFacts::new]. *)
Definition facts_new (name : str) (hours : list str) (phone : str) : result ApprovedFacts FactCode.t :=
  let p := POLICY_V1 in
  if negb (forallb value_ok (name :: hours ++ [phone])) ||
     (Policy.facts_name_max_chars p <? count name) ||
     negb (within_range (Policy.facts_hours_min_lines p) (Policy.facts_hours_max_lines p)
             (Z.of_nat (length hours)))
  then Err FactCode.FactsInvalid
  else if negb (phone_shape_ok phone) then Err FactCode.PhoneFormat
  else if existsb (λ v, negb (bool_decide (phone_like_tokens v = []))) (name :: hours)
  then Err FactCode.FactPhoneLike
  else Ok (MkFacts name hours phone (sha2 (facts_preimage name hours phone))).
End Facts.

(** ** Element texts *)

Definition flat_state : Type := str * list (Z * Z).

(** The end of the span [k] is where the text ends now. *)
Definition close_span (k : option nat) (st : flat_state) : flat_state :=
  match k with
  | Some k => (st.1, alter (λ r, (r.1, str_len st.1)) k st.2)
  | None => st
  end.

Fixpoint flatten_loop (fuel : nat) (stack : list (list Inline * option nat)) (st : flat_state) : flat_state :=
  match fuel, stack with
  | O, _ | _, [] => st
  | S fuel, ([], k) :: stack => flatten_loop fuel stack (close_span k st)
  | S fuel, (item :: items, k) :: stack =>
      match item with
      | IText t => flatten_loop fuel ((items, k) :: stack) (st.1 ++ t, st.2)
      | IBr => flatten_loop fuel ((items, k) :: stack) (st.1 ++ [32], st.2)
      | IStrong s | IEm s | ISmall s =>
          flatten_loop fuel ((leaf_inlines s, Some (length st.2)) :: (items, k) :: stack)
            (st.1, st.2 ++ [(str_len st.1, str_len st.1)])
      end
  end.

Definition flatten (l : Leaf) : flat_state :=
  flatten_loop (list_steps (leaf_inlines l)) [(leaf_inlines l, None)] ([], []).
Definition leaf_text (l : Leaf) : str := (flatten l).1.

(** One leaf of the page: its tag, its text and its spans' byte ranges. *)
Record LeafText := MkLeafText { lt_tag : Tag.t; lt_text : str; lt_spans : list (Z * Z) }.
Definition leaf_of (tag : Tag.t) (l : Leaf) : LeafText :=
  let '(text, spans) := flatten l in MkLeafText tag text spans.

Definition block_leaves (b : Block.t) : list LeafText :=
  match b with
  | Block.H1 l => [leaf_of Tag.H1 l]
  | Block.H2 l => [leaf_of Tag.H2 l]
  | Block.H3 l => [leaf_of Tag.H3 l]
  | Block.P l => [leaf_of Tag.P l]
  | Block.Address l => [leaf_of Tag.Address l]
  | Block.Ul l | Block.Ol l => leaf_of Tag.Li <$> li_items l
  end.
Definition region_leaves (r : option Region) : list LeafText :=
  match r with Some r => re_blocks r ≫= block_leaves | None => [] end.
Definition item_leaves (i : MainItem.t) : list LeafText :=
  match i with
  | MainItem.Section_ s => se_blocks s ≫= block_leaves
  | MainItem.Block_ b => block_leaves b
  end.
Definition leaf_texts (p : Page) : list LeafText :=
  region_leaves (header p) ++ (ma_items (main p) ≫= item_leaves) ++ region_leaves (footer p).

(** ** The facts check *)

Record FactsReport := MkReport {
  name_heading : bool;
  name_title : bool;
  hours : list bool;
  phone : bool;
  no_foreign_number : bool;
}.

(** [l.text[a..b]] as bytes. *)
Definition slice (text : str) (r : Z * Z) : bytes :=
  take (Z.to_nat (r.2 - r.1)) (drop (Z.to_nat r.1) (as_bytes text)).

(** [FactCode::HoursLineMissing]'s index: [u8::try_from] or [u8::MAX]. *)
Definition line_index (i : nat) : Z := if Z.of_nat i <=? 255 then Z.of_nat i else 255.

Definition first_error (r : FactsReport) : result unit FactCode.t :=
  if negb (name_heading r) then Err FactCode.NameNotHeading
  else if negb (name_title r) then Err FactCode.NameNotTitle
  else match position negb (hours r) with
       | Some i => Err (FactCode.HoursLineMissing (line_index i))
       | None =>
           if negb (phone r) then Err FactCode.PhoneMissing
           else if negb (no_foreign_number r) then Err FactCode.ForeignNumber
           else Ok tt
       end.

Definition phone_digits (f : ApprovedFacts) : str := filter (λ c, is_ascii_digit c = true) (af_phone f).

Definition is_line_tag (t : Tag.t) : bool := match t with Tag.Li | Tag.P => true | _ => false end.

Definition facts_report (page : Page) (f : ApprovedFacts) : FactsReport :=
  let leaves := leaf_texts page in
  {|
    name_heading :=
      match filter (λ l, lt_tag l = Tag.H1) leaves with
      | [only] => bool_decide (lt_text only = af_name f)
      | _ => false
      end;
    name_title := bool_decide (title page = af_name f);
    hours := (λ line, existsb (λ l, is_line_tag (lt_tag l) && bool_decide (lt_text l = line)) leaves)
               <$> af_hours f;
    phone := existsb (λ l, bool_decide (lt_text l = af_phone f) ||
               existsb (λ r, bool_decide (slice (lt_text l) r = as_bytes (af_phone f))) (lt_spans l)) leaves;
    no_foreign_number :=
      forallb (λ text, forallb (λ d, bool_decide (d = phone_digits f)) (phone_like_tokens text))
        (title page :: (lt_text <$> leaves))
  |}.

Definition check_facts (page : Page) (f : ApprovedFacts) : result unit FactCode.t :=
  first_error (facts_report page f).

(** ** The recursive texts *)

(** The text of inline content, and the text of each span in document order. *)
Definition joined (a b : str * list str) : str * list str := (a.1 ++ b.1, a.2 ++ b.2).
Definition inline_texts : Inline → str * list str :=
  fold_inline ([], []) joined (λ t, (t, [])) ([32], []) (λ _ r, (r.1, r.1 :: r.2)).
Definition inlines_texts : list Inline → str * list str :=
  fold_inlines ([], []) joined (λ t, (t, [])) ([32], []) (λ _ r, (r.1, r.1 :: r.2)).

(** The byte ranges of the spans when [base] bytes come before. *)
Definition joined_at (a b : Z → str * list (Z * Z)) : Z → str * list (Z * Z) :=
  λ base, ((a base).1 ++ (b (base + str_len (a base).1)).1, (a base).2 ++ (b (base + str_len (a base).1)).2).
Definition inline_flat : Inline → Z → str * list (Z * Z) :=
  fold_inline (λ _, ([], [])) joined_at (λ t _, (t, [])) (λ _, ([32], []))
    (λ _ r base, ((r base).1, (base, base + str_len (r base).1) :: (r base).2)).
Definition inlines_flat : list Inline → Z → str * list (Z * Z) :=
  fold_inlines (λ _, ([], [])) joined_at (λ t _, (t, [])) (λ _, ([32], []))
    (λ _ r base, ((r base).1, (base, base + str_len (r base).1) :: (r base).2)).

(** ** Flattening is the recursive text *)

Definition add_flat (st : flat_state) (f : Z → str * list (Z * Z)) : flat_state :=
  (st.1 ++ (f (str_len st.1)).1, st.2 ++ (f (str_len st.1)).2).

Lemma add_flat_joined st f g : add_flat st (joined_at f g) = add_flat (add_flat st f) g.
Proof. unfold add_flat, joined_at. cbn [fst snd]. by rewrite str_len_app, !app_assoc. Qed.

Definition flat_item (i : Inline) : Prop := ∀ fuel items k stack st,
  flatten_loop (inline_steps i + fuel) ((i :: items, k) :: stack) st
  = flatten_loop fuel ((items, k) :: stack) (add_flat st (inline_flat i)).
Definition flat_list (l : list Inline) : Prop := ∀ fuel k stack st,
  flatten_loop (list_steps l + fuel) ((l, k) :: stack) st
  = flatten_loop fuel stack (close_span k (add_flat st (inlines_flat l))).

Lemma flat_span i t a l : span_of i = Some (t, MkLeaf a l) → flat_list l → flat_item i.
Proof.
  intros Hs Hl fuel items k stack [text spans]. rewrite (steps_span _ _ _ _ Hs).
  assert (E : inline_flat i = λ base, ((inlines_flat l base).1,
    (base, base + str_len (inlines_flat l base).1) :: (inlines_flat l base).2)) by exact (fold_span _ _ _ _ _ _ _ _ _ Hs).
  assert (Hloop : flatten_loop (S (list_steps l) + fuel) ((i :: items, k) :: stack) (text, spans)
    = flatten_loop (list_steps l + fuel) ((l, Some (length spans)) :: (items, k) :: stack)
        (text, spans ++ [(str_len text, str_len text)])) by (destruct i; simplify_eq/=; done).
  rewrite Hloop, Hl, E. f_equal. unfold add_flat, close_span. cbn [fst snd]. f_equal.
  rewrite <- app_assoc, alter_app_r_alt, Nat.sub_diag by lia. cbn. by rewrite str_len_app.
Qed.

Lemma flatten_items l : flat_list l.
Proof.
  refine (inlines_ind flat_item flat_list _ _ _ _ _ _ _ l).
  - intros t fuel items k stack [text spans]. unfold add_flat. cbn. by rewrite app_nil_r.
  - intros fuel items k stack [text spans]. unfold add_flat. cbn. by rewrite app_nil_r.
  - intros a k. by apply (flat_span _ Tag.Strong a k).
  - intros a k. by apply (flat_span _ Tag.Em a k).
  - intros a k. by apply (flat_span _ Tag.Small a k).
  - intros fuel k stack [text spans]. unfold add_flat. cbn. by rewrite !app_nil_r.
  - intros i k Hi Hk fuel j stack st. cbn [list_steps]. rewrite <- Nat.add_assoc, Hi, Hk.
    change (inlines_flat (i :: k)) with (joined_at (inline_flat i) (inlines_flat k)). by rewrite add_flat_joined.
Qed.

Lemma flatten_flat l : flatten l = inlines_flat (leaf_inlines l) 0.
Proof.
  unfold flatten. pose proof (flatten_items (leaf_inlines l) 0%nat None [] ([], [])) as H.
  rewrite Nat.add_0_r in H. rewrite H. cbn [flatten_loop close_span]. unfold add_flat. cbn [fst snd app].
  change (str_len []) with 0. by destruct (inlines_flat (leaf_inlines l) 0).
Qed.

(** The ranges cut the spans' texts out of the text. *)
Definition cuts (f : Z → str * list (Z * Z)) (r : str * list str) : Prop :=
  ∀ pre post, (f (str_len pre)).1 = r.1 ∧
    slice (pre ++ r.1 ++ post) <$> (f (str_len pre)).2 = as_bytes <$> r.2.

Lemma slice_mid pre s post : slice (pre ++ s ++ post) (str_len pre, str_len pre + str_len s) = as_bytes s.
Proof.
  unfold slice. cbn [fst snd]. rewrite !as_bytes_app. unfold str_len. rewrite Nat2Z.id, drop_app_length.
  replace (Z.to_nat _) with (length (as_bytes s)) by lia. apply take_app_length.
Qed.

Lemma cuts_span i t a l :
  span_of i = Some (t, MkLeaf a l) → cuts (inlines_flat l) (inlines_texts l) → cuts (inline_flat i) (inline_texts i).
Proof.
  intros Hs Hl pre post. destruct (Hl pre post) as [H1 H2].
  assert (E : inline_flat i = λ base, ((inlines_flat l base).1,
    (base, base + str_len (inlines_flat l base).1) :: (inlines_flat l base).2)) by exact (fold_span _ _ _ _ _ _ _ _ _ Hs).
  assert (Er : inline_texts i = ((inlines_texts l).1, (inlines_texts l).1 :: (inlines_texts l).2))
    by exact (fold_span _ _ _ _ _ _ _ _ _ Hs).
  rewrite E, Er. cbn [fst snd]. split; [done|]. rewrite !fmap_cons, H1, H2. by rewrite slice_mid.
Qed.

Lemma cuts_inlines l : cuts (inlines_flat l) (inlines_texts l).
Proof.
  refine (inlines_ind (λ i, cuts (inline_flat i) (inline_texts i)) (λ l, cuts (inlines_flat l) (inlines_texts l))
    _ _ _ _ _ _ _ l); try done.
  - intros a k. by apply (cuts_span _ Tag.Strong a k).
  - intros a k. by apply (cuts_span _ Tag.Em a k).
  - intros a k. by apply (cuts_span _ Tag.Small a k).
  - intros i k Hi Hk pre post.
    change (inlines_flat (i :: k)) with (joined_at (inline_flat i) (inlines_flat k)).
    change (inlines_texts (i :: k)) with (joined (inline_texts i) (inlines_texts k)).
    unfold joined_at, joined. cbn [fst snd].
    destruct (Hi pre ((inlines_texts k).1 ++ post)) as [Hi1 Hi2].
    destruct (Hk (pre ++ (inline_texts i).1) post) as [Hk1 Hk2].
    rewrite str_len_app in Hk1, Hk2. rewrite <- !app_assoc in *. rewrite Hi1, Hk1. split; [done|].
    by rewrite !fmap_app, Hi2, Hk2.
Qed.

(** The element texts of a leaf: its own and its spans', in document order. *)
Definition element_texts (l : Leaf) : list str :=
  let '(text, spans) := inlines_texts (leaf_inlines l) in text :: spans.

Lemma leaf_of_spec tag l :
  lt_tag (leaf_of tag l) = tag ∧ lt_text (leaf_of tag l) = (inlines_texts (leaf_inlines l)).1 ∧
  slice (lt_text (leaf_of tag l)) <$> lt_spans (leaf_of tag l) = as_bytes <$> (inlines_texts (leaf_inlines l)).2.
Proof.
  unfold leaf_of. rewrite flatten_flat. destruct (cuts_inlines (leaf_inlines l) [] []) as [H1 H2].
  change (str_len []) with 0 in *. destruct (inlines_flat (leaf_inlines l) 0) as [text spans]. cbn [fst snd] in *.
  subst text. cbn [lt_tag lt_text lt_spans]. rewrite app_nil_r in H2. done.
Qed.

(** ** Phone-like tokens *)

Definition token_char (c : Z) : bool := is_ascii_digit c || bool_decide (c ∈ Policy.fc4_separators POLICY_V1).
Definition digits_of (s : str) : str := filter (λ c, is_ascii_digit c = true) s.

(** The maximal runs of token characters, empty ones included. *)
Fixpoint runs (t : str) : list str :=
  match t with
  | [] => [[]]
  | c :: t =>
      if token_char c then match runs t with r :: rs => (c :: r) :: rs | [] => [[c]] end
      else [] :: runs t
  end.

Definition bounded (r : list str) : list str := filter (λ d, Policy.fc4_threshold POLICY_V1 ≤ count d) r.

Lemma flush_bounded found ds : flush found ds = found ++ bounded [ds].
Proof.
  unfold flush, bounded. rewrite filter_cons.
  destruct (Z.leb_spec (Policy.fc4_threshold POLICY_V1) (count ds)) as [H|H].
  - by rewrite decide_True.
  - rewrite decide_False by (apply Z.lt_nge, H). by rewrite app_nil_r.
Qed.

Lemma runs_cons t : ∃ r rs, runs t = r :: rs.
Proof. induction t as [|c t (r & rs & E)]; simpl; [eauto|]. rewrite E. case_match; eauto. Qed.

Lemma bounded_app r s : bounded (r ++ s) = bounded r ++ bounded s.
Proof. apply filter_app. Qed.

Lemma tokens_runs found ds t :
  tokens_from found ds t =
  found ++ match runs t with
           | r :: rs => bounded ((ds ++ digits_of r) :: (digits_of <$> rs))
           | [] => []
           end.
Proof.
  revert found ds. induction t as [|c t IH]; intros found ds.
  - cbn [tokens_from runs]. rewrite flush_bounded. unfold digits_of. cbn. by rewrite app_nil_r.
  - cbn [tokens_from runs]. unfold token_char. destruct (runs_cons t) as (r & rs & E). rewrite E in *.
    destruct (is_ascii_digit c) eqn:Ed; cbn [orb].
    + rewrite IH. unfold digits_of at 3. rewrite filter_cons_True by done. by rewrite <- app_assoc.
    + case_bool_decide as Hs; cbn [negb].
      * rewrite IH. unfold digits_of at 3. by rewrite filter_cons_False by congruence.
      * rewrite IH, flush_bounded, <- app_assoc. f_equal. rewrite app_nil_l.
        change (digits_of []) with (@nil Z). rewrite app_nil_r, fmap_cons.
        by rewrite <- bounded_app.
Qed.

Lemma phone_like_runs t : phone_like_tokens t = bounded (digits_of <$> runs t).
Proof.
  unfold phone_like_tokens. rewrite tokens_runs. destruct (runs_cons t) as (r & rs & ->). done.
Qed.

(** Whether a run of [t] cannot be extended. *)
Definition maximal_run (t pre r post : str) : Prop :=
  t = pre ++ r ++ post ∧ Forall (λ c, token_char c = true) r ∧
  (∀ c, last pre = Some c → token_char c = false) ∧ (∀ c, head post = Some c → token_char c = false).

Lemma runs_head r post :
  Forall (λ c, token_char c = true) r → (∀ c, head post = Some c → token_char c = false) →
  ∃ rs, runs (r ++ post) = r :: rs.
Proof.
  intros Hr Hp. induction Hr as [|c r Hc Hr [rs IH]]; cbn [app runs].
  - destruct post as [|c post]; cbn [runs]; [eauto|]. rewrite (Hp c eq_refl). eauto.
  - rewrite Hc, IH. eauto.
Qed.

Lemma runs_tail p c r post :
  token_char c = false → Forall (λ c, token_char c = true) r → (∀ c, head post = Some c → token_char c = false) →
  r ∈ tail (runs (p ++ c :: r ++ post)).
Proof.
  intros Hc Hr Hp. induction p as [|d p IH]; cbn [app runs].
  - rewrite Hc. cbn [tail]. destruct (runs_head r post Hr Hp) as [rs ->]. set_solver.
  - destruct (runs (p ++ c :: r ++ post)) as [|x xs] eqn:E; [by apply not_elem_of_nil in IH|].
    cbn [tail] in IH. destruct (token_char d); cbn [tail]; set_solver.
Qed.

Lemma runs_maximal t r rs :
  runs t = r :: rs →
  (∃ post, maximal_run t [] r post) ∧ ∀ s, s ∈ rs → ∃ p c post, maximal_run t (p ++ [c]) s post.
Proof.
  revert r rs. induction t as [|c t IH]; intros r rs E; cbn [runs] in E.
  { injection E as <- <-. split; [exists []; by split_and!|set_solver]. }
  destruct (runs_cons t) as (r0 & rs0 & E0). rewrite E0 in E.
  destruct (IH _ _ E0) as [(post & Ht & Hr & _ & Hp) Hrs]. clear IH E0. cbn [app] in Ht.
  assert (Hmore : ∀ s, s ∈ rs0 → ∃ p d post, maximal_run (c :: t) (p ++ [d]) s post).
  { intros s Hs. destruct (Hrs s Hs) as (p & d & post' & -> & Hall & Hpre & Hpost).
    exists (c :: p), d, post'. split_and!; [done..| |done]. intros e He. apply Hpre.
    rewrite last_snoc in *. done. }
  destruct (token_char c) eqn:Ec; injection E as <- <-.
  - split; [|done]. exists post. rewrite Ht. split_and!; [done|by constructor|done..].
  - split; [exists (c :: t); split_and!; [done..|]; by intros d [= <-]|].
    intros s [->|Hs]%elem_of_cons; [|auto]. exists [], c, post. rewrite Ht. split_and!; [done..| |done]. by intros d [= <-].
Qed.

(** A phone-like token: the digits of a maximal run of digits and separators, at
    least as many as the threshold. *)
Lemma tokens_spec t d :
  d ∈ phone_like_tokens t ↔
  ∃ pre r post, maximal_run t pre r post ∧ d = digits_of r ∧ Policy.fc4_threshold POLICY_V1 ≤ count d.
Proof.
  rewrite phone_like_runs. unfold bounded. rewrite list_elem_of_filter, list_elem_of_fmap. split.
  - intros [Hd (r & -> & Hr)]. destruct (runs_cons t) as (r0 & rs & E). rewrite E in Hr.
    apply runs_maximal in E as [(post & H0) Hrs]. apply elem_of_cons in Hr as [->|Hr]; [eauto 8|].
    destruct (Hrs r Hr) as (p & c & post' & H). eauto 8.
  - intros (pre & r & post & (-> & Hr & Hpre & Hpost) & -> & Hd). split; [done|]. exists r. split; [done|].
    destruct pre as [|c pre _] using rev_ind.
    + cbn [app]. destruct (runs_head r post Hr Hpost) as [rs ->]. set_solver.
    + rewrite last_snoc in Hpre. pose proof (runs_tail pre c r post (Hpre c eq_refl) Hr Hpost) as H.
      rewrite <- app_assoc. cbn [app]. destruct (runs _); [by apply not_elem_of_nil in H|]. cbn [tail] in H. set_solver.
Qed.

(** ** The leaves of a page *)

Definition leaf_in_block (b : Block.t) : list (Tag.t * Leaf) :=
  match block_parts b with
  | (t, inl l) => [(t, l)]
  | (_, inr l) => (λ li, (Tag.Li, li)) <$> li_items l
  end.
Definition leaf_in_item (i : MainItem.t) : list (Tag.t * Leaf) :=
  match i with
  | MainItem.Section_ s => se_blocks s ≫= leaf_in_block
  | MainItem.Block_ b => leaf_in_block b
  end.
Definition leaf_in_region (r : option Region) : list (Tag.t * Leaf) :=
  match r with Some r => re_blocks r ≫= leaf_in_block | None => [] end.
(** Every leaf with its tag, in document order. *)
Definition page_leaves (p : Page) : list (Tag.t * Leaf) :=
  leaf_in_region (header p) ++ (ma_items (main p) ≫= leaf_in_item) ++ leaf_in_region (footer p).

Definition read_leaf (x : Tag.t * Leaf) : LeafText := leaf_of x.1 x.2.

Lemma bind_fmap_read {A} (f : A → list LeafText) (g : A → list (Tag.t * Leaf)) l :
  (∀ x, f x = read_leaf <$> g x) → l ≫= f = read_leaf <$> (l ≫= g).
Proof. intros H. induction l as [|x l IH]; csimpl; [done|]. by rewrite fmap_app, H, IH. Qed.

Lemma block_leaves_read b : block_leaves b = read_leaf <$> leaf_in_block b.
Proof. destruct b; cbn; try done; by rewrite <- list_fmap_compose. Qed.

Lemma leaf_texts_read p : leaf_texts p = read_leaf <$> page_leaves p.
Proof.
  assert (Hr : ∀ r, region_leaves r = read_leaf <$> leaf_in_region r).
  { intros [r|]; [|done]. apply bind_fmap_read, block_leaves_read. }
  unfold leaf_texts, page_leaves. rewrite !fmap_app, !Hr. do 2 f_equal. apply bind_fmap_read.
  intros [s|b]; [apply bind_fmap_read, block_leaves_read|apply block_leaves_read].
Qed.

(** The leaves of a page that meets the rules meet them. *)
Lemma block_leaf_ok d b t l : block_ok d b → (t, l) ∈ leaf_in_block b → ∃ d, leaf_ok d l.
Proof.
  unfold block_ok, leaf_in_block. destruct (block_parts b) as [u [k|k]]; cbn [snd].
  - intros Hk Hin. apply list_elem_of_singleton in Hin as [= -> ->]. eauto.
  - intros (_ & _ & _ & Hk) Hin. apply list_elem_of_fmap in Hin as (li & [= -> ->] & Hli).
    rewrite Forall_forall in Hk. eauto.
Qed.

Lemma blocks_leaf_ok d a bs t l :
  container_ok block_ok d a bs → (t, l) ∈ bs ≫= leaf_in_block → ∃ d, leaf_ok d l.
Proof.
  intros (_ & _ & _ & Hb) (b & Hl & Hin)%list_elem_of_bind. rewrite Forall_forall in Hb.
  by eapply block_leaf_ok; [apply Hb|].
Qed.

Lemma page_leaf_ok p t l : page_ok p → (t, l) ∈ page_leaves p → ∃ d, leaf_ok d l.
Proof.
  intros Hp Hin. assert (Hr : ∀ r, (∀ x, r = Some x → region_ok x) → (t, l) ∈ leaf_in_region r → ∃ d, leaf_ok d l).
  { intros [r|] Hr Hl; [|by apply not_elem_of_nil in Hl]. by eapply blocks_leaf_ok; [apply Hr|]. }
  unfold page_leaves in Hin. rewrite !elem_of_app in Hin.
  destruct Hin as [Hin|[Hin|Hin]]; [exact (Hr _ (po_header _ Hp) Hin)| |exact (Hr _ (po_footer _ Hp) Hin)].
  apply list_elem_of_bind in Hin as (i & Hl & Hi). destruct (po_main _ Hp) as (_ & _ & _ & Hm).
  rewrite Forall_forall in Hm. specialize (Hm i Hi).
  destruct i as [s|b]; [by eapply blocks_leaf_ok|by eapply block_leaf_ok].
Qed.

(** Element texts hold characters. *)
Definition texts_ok (r : str * list str) : Prop := is_text_str r.1 ∧ Forall is_text_str r.2.

Lemma char_scalar s : Forall is_char s → is_text_str s.
Proof. intros H. eapply Forall_impl; [exact H|]. unfold is_char, is_scalar. lia. Qed.

Lemma texts_span i t a l d :
  span_of i = Some (t, MkLeaf a l) → (∀ d, inlines_ok d l → texts_ok (inlines_texts l)) →
  inline_ok d i → texts_ok (inline_texts i).
Proof.
  intros Hs Hl (_ & _ & _ & _ & Hok)%(inline_ok_span _ _ _ _ _ Hs). destruct (Hl _ Hok) as [H1 H2].
  assert (Er : inline_texts i = ((inlines_texts l).1, (inlines_texts l).1 :: (inlines_texts l).2))
    by exact (fold_span _ _ _ _ _ _ _ _ _ Hs).
  rewrite Er. by split; [|constructor].
Qed.

Lemma inlines_texts_ok l : ∀ d, inlines_ok d l → texts_ok (inlines_texts l).
Proof.
  refine (inlines_ind (λ i, ∀ d, inline_ok d i → texts_ok (inline_texts i))
    (λ l, ∀ d, inlines_ok d l → texts_ok (inlines_texts l)) _ _ _ _ _ _ _ l).
  - intros t d [_ Ht]. split; [by apply char_scalar|constructor].
  - intros d _. split; [|constructor]. constructor; [|constructor]. unfold is_scalar. lia.
  - intros a k Hk d. by apply (texts_span _ Tag.Strong a k).
  - intros a k Hk d. by apply (texts_span _ Tag.Em a k).
  - intros a k Hk d. by apply (texts_span _ Tag.Small a k).
  - intros d _. split; constructor.
  - intros i k Hi Hk d [H1 H2]%Forall_cons. destruct (Hi d H1), (Hk d H2).
    split; apply Forall_app; done.
Qed.

(** ** What the facts check decides *)

Definition text_of (l : Leaf) : str := (inlines_texts (leaf_inlines l)).1.

(** FC-1 to FC-4 on a page. *)
Record facts_hold (p : Page) (f : ApprovedFacts) : Prop := {
  fh_heading : ∃ l, filter (λ x, x.1 = Tag.H1) (page_leaves p) = [(Tag.H1, l)] ∧ text_of l = af_name f;
  fh_title : title p = af_name f;
  fh_hours : ∀ line, line ∈ af_hours f →
    ∃ t l, (t, l) ∈ page_leaves p ∧ (t = Tag.Li ∨ t = Tag.P) ∧ text_of l = line;
  fh_phone : ∃ t l, (t, l) ∈ page_leaves p ∧ af_phone f ∈ element_texts l;
  fh_numbers : ∀ text pre r post,
    text = title p ∨ (∃ t l, (t, l) ∈ page_leaves p ∧ text = text_of l) →
    maximal_run text pre r post → Policy.fc4_threshold POLICY_V1 ≤ count (digits_of r) →
    digits_of r = phone_digits f;
}.

Lemma first_error_Ok r :
  first_error r = Ok tt ↔
  name_heading r = true ∧ name_title r = true ∧ Forall (λ b, b = true) (hours r) ∧ phone r = true ∧
  no_foreign_number r = true.
Proof.
  unfold first_error. destruct (name_heading r), (name_title r); simpl; try naive_solver.
  destruct (position negb (hours r)) as [i|] eqn:E.
  - apply position_Some in E as [(b & Hb & Hn) _]. split; [done|]. intros (_ & _ & H & _).
    rewrite Forall_lookup in H. rewrite (H _ _ Hb) in Hn. done.
  - rewrite position_None in E.
    assert (Forall (λ b, b = true) (hours r)).
    { apply Forall_forall. intros b Hb. specialize (E b Hb). by destruct b. }
    destruct (phone r), (no_foreign_number r); simpl; naive_solver.
Qed.

Lemma read_leaf_text x : lt_text (read_leaf x) = text_of x.2.
Proof. apply leaf_of_spec. Qed.
Lemma read_leaf_tag x : lt_tag (read_leaf x) = x.1.
Proof. apply leaf_of_spec. Qed.

Lemma filter_read (p : list (Tag.t * Leaf)) :
  filter (λ l, lt_tag l = Tag.H1) (read_leaf <$> p) = read_leaf <$> filter (λ x : Tag.t * Leaf, x.1 = Tag.H1) p.
Proof.
  induction p as [|x p IH]; [done|]. rewrite fmap_cons, !filter_cons, IH.
  pose proof (read_leaf_tag x) as E. case_decide as H1; case_decide as H2; try done; congruence.
Qed.

Lemma heading_spec p f :
  name_heading (facts_report p f) = true ↔
  ∃ l, filter (λ x, x.1 = Tag.H1) (page_leaves p) = [(Tag.H1, l)] ∧ text_of l = af_name f.
Proof.
  unfold facts_report. cbn [name_heading]. rewrite leaf_texts_read, filter_read.
  assert (Hall : Forall (λ x : Tag.t * Leaf, x.1 = Tag.H1) (filter (λ x, x.1 = Tag.H1) (page_leaves p))).
  { apply Forall_forall. intros x. by rewrite list_elem_of_filter; intros []. }
  destruct (filter _ _) as [|[t l] [|y ys]]; csimpl; [naive_solver| |naive_solver].
  apply Forall_cons in Hall as [Ht _]. cbn in Ht. subst t.
  rewrite bool_decide_eq_true, read_leaf_text. cbn [snd]. naive_solver.
Qed.

Lemma hours_spec p f :
  Forall (λ b, b = true) (hours (facts_report p f)) ↔
  ∀ line, line ∈ af_hours f → ∃ t l, (t, l) ∈ page_leaves p ∧ (t = Tag.Li ∨ t = Tag.P) ∧ text_of l = line.
Proof.
  unfold facts_report. cbn [hours]. rewrite Forall_fmap, Forall_forall. unfold compose.
  enough (Hline : ∀ line, existsb (λ l, is_line_tag (lt_tag l) && bool_decide (lt_text l = line)) (leaf_texts p) = true ↔
    ∃ t l, (t, l) ∈ page_leaves p ∧ (t = Tag.Li ∨ t = Tag.P) ∧ text_of l = line)
    by (split; intros H line Hl; apply Hline, H, Hl).
  intros line. rewrite existsb_exists, leaf_texts_read. split.
  - intros (x & Hin%list_elem_of_In & [Ht Hx]%andb_prop). apply list_elem_of_fmap in Hin as ([t l] & -> & Hin).
    rewrite read_leaf_tag in Ht. apply bool_decide_eq_true in Hx. rewrite read_leaf_text in Hx.
    exists t, l. split_and!; [done| |done]. destruct t; auto; done.
  - intros (t & l & Hin & Ht & <-). exists (read_leaf (t, l)). split; [apply list_elem_of_In, list_elem_of_fmap; eauto|].
    rewrite read_leaf_tag, read_leaf_text, bool_decide_eq_true_2, andb_true_r by done. by destruct Ht as [->| ->].
Qed.

Lemma phone_spec p f :
  page_ok p → is_text_str (af_phone f) →
  phone (facts_report p f) = true ↔ ∃ t l, (t, l) ∈ page_leaves p ∧ af_phone f ∈ element_texts l.
Proof.
  intros Hp Hf. unfold facts_report. cbn [phone]. rewrite existsb_exists, leaf_texts_read.
  assert (Hleaf : ∀ t l, (t, l) ∈ page_leaves p →
    (bool_decide (lt_text (read_leaf (t, l)) = af_phone f) ||
     existsb (λ r, bool_decide (slice (lt_text (read_leaf (t, l))) r = as_bytes (af_phone f))) (lt_spans (read_leaf (t, l)))
     = true ↔ af_phone f ∈ element_texts l)).
  { intros t l Hin. destruct (page_leaf_ok _ _ _ Hp Hin) as [d Hok].
    destruct (inlines_texts_ok _ _ (lf_inlines _ _ Hok)) as [H1 H2].
    destruct (leaf_of_spec t l) as (_ & Et & Es). unfold read_leaf. cbn [fst snd]. rewrite Et in *.
    unfold element_texts. destruct (inlines_texts (leaf_inlines l)) as [text spans]. cbn [fst snd] in *.
    rewrite orb_true_iff, bool_decide_eq_true, elem_of_cons, existsb_exists.
    apply Morphisms_Prop.or_iff_morphism; [done|]. split.
    - intros (r & Hr%list_elem_of_In & Hb%bool_decide_eq_true).
      assert (Hx : slice text r ∈ as_bytes <$> spans) by (rewrite <- Es; apply list_elem_of_fmap; eauto).
      apply list_elem_of_fmap in Hx as (s & Hs & Hin'). rewrite Hb in Hs.
      rewrite Forall_forall in H2. apply as_bytes_inj in Hs; [by subst|done|by apply H2].
    - intros Hin'. assert (Hx : as_bytes (af_phone f) ∈ slice text <$> lt_spans (leaf_of t l))
        by (rewrite Es; apply list_elem_of_fmap; eauto).
      apply list_elem_of_fmap in Hx as (r & Hr & Hin''). exists r. split; [by apply list_elem_of_In|].
      by apply bool_decide_eq_true. }
  split.
  - intros (x & Hin%list_elem_of_In & Hx). apply list_elem_of_fmap in Hin as ([t l] & -> & Hin).
    exists t, l. split; [done|]. by apply (Hleaf t l Hin).
  - intros (t & l & Hin & Hx). exists (read_leaf (t, l)).
    split; [apply list_elem_of_In, list_elem_of_fmap; eauto|]. by apply (Hleaf t l Hin).
Qed.

Lemma numbers_spec p f :
  no_foreign_number (facts_report p f) = true ↔
  ∀ text pre r post,
    text = title p ∨ (∃ t l, (t, l) ∈ page_leaves p ∧ text = text_of l) →
    maximal_run text pre r post → Policy.fc4_threshold POLICY_V1 ≤ count (digits_of r) →
    digits_of r = phone_digits f.
Proof.
  unfold facts_report. cbn [no_foreign_number]. rewrite forallb_forall, leaf_texts_read.
  assert (Hin : ∀ text, In text (title p :: (lt_text <$> (read_leaf <$> page_leaves p))) ↔
    text = title p ∨ (∃ t l, (t, l) ∈ page_leaves p ∧ text = text_of l)).
  { intros text. rewrite <- list_elem_of_In, elem_of_cons, <- list_fmap_compose, list_elem_of_fmap.
    apply Morphisms_Prop.or_iff_morphism; [done|]. unfold compose. split.
    - intros ([t l] & -> & Hl). exists t, l. by rewrite read_leaf_text.
    - intros (t & l & Hl & ->). exists (t, l). by rewrite read_leaf_text. }
  split.
  - intros H text pre r post Ht Hr Hc. apply Hin, H in Ht. rewrite forallb_forall in Ht.
    apply (bool_decide_eq_true (digits_of r = _)), Ht, list_elem_of_In, tokens_spec. eauto 8.
  - intros H text Ht%Hin. apply forallb_forall. intros d (pre & r & post & Hr & -> & Hc)%list_elem_of_In%tokens_spec.
    apply bool_decide_eq_true. eauto.
Qed.

(** ** The values of approved facts *)

Lemma value_chars v : value_ok v = true → is_text_str v.
Proof.
  unfold value_ok. rewrite !andb_true_iff. intros [[[[[_ H] _] _] _] _].
  rewrite forallb_forall in H. apply Forall_forall. intros c Hc%list_elem_of_In%H. clear H.
  rewrite !andb_true_iff in Hc. destruct Hc as [_ Hc]. unfold in_ranges in Hc. apply existsb_exists in Hc as ([lo hi] & Hin & Hb).
  assert (Hr : Forall (λ r : Z * Z, 0 ≤ r.1 ∧ r.2 < 1114112) (Policy.profile_ranges POLICY_V1)).
  { repeat constructor; cbn; lia. }
  rewrite Forall_forall in Hr. apply list_elem_of_In, Hr in Hin. cbn [fst snd] in Hin. unfold is_scalar. lia.
Qed.

Lemma phone_chars_all k run digits s n :
  phone_chars_ok k run digits s = Some n →
  Forall (λ c, c ∈ Policy.phone_chars POLICY_V1) s ∧ n = digits + count (digits_of s).
Proof.
  revert k run digits. induction s as [|c s IH]; intros k run digits H; cbn [phone_chars_ok] in H.
  { simplify_eq. split; [constructor|]. unfold count. simpl. lia. }
  destruct (bool_decide_reflect (c ∈ Policy.phone_chars POLICY_V1)) as [Hc|]; [|done]. cbn [negb orb] in H.
  destruct (_ && _) in H; [done|]. unfold digits_of, count. rewrite filter_cons.
  destruct (is_ascii_digit c) eqn:Ed.
  - apply IH in H as [Hs ->]. split; [by constructor|]. rewrite decide_True by done. unfold count, digits_of. simpl. lia.
  - destruct (_ <? _) in H; [done|]. apply IH in H as [Hs ->]. split; [by constructor|].
    by rewrite decide_False.
Qed.

Lemma runs_whole s : Forall (λ c, token_char c = true) s → runs s = [s].
Proof.
  induction 1 as [|c s Hc _ IH]; [done|]. cbn [runs]. by rewrite Hc, IH.
Qed.

Lemma phone_char_token : Forall (λ c, token_char c = true) (Policy.phone_chars POLICY_V1).
Proof. apply (bool_decide_unpack _). vm_compute. exact I. Qed.

Lemma phone_tokens s d : phone_shape_ok s = true → d ∈ phone_like_tokens s → d = digits_of s.
Proof.
  unfold phone_shape_ok. destruct (phone_chars_ok 0 0 0 s) as [n|] eqn:E; [|done]. intros _.
  apply phone_chars_all in E as [Hs _]. rewrite phone_like_runs, runs_whole.
  - unfold bounded. rewrite list_elem_of_filter. cbn. rewrite list_elem_of_singleton. tauto.
  - eapply Forall_impl; [exact Hs|]. intros c. cbn beta. apply (proj1 (Forall_forall _ _) phone_char_token).
Qed.

(** ** Theorems *)

(** What construction guarantees of the values. *)
Record approved (f : ApprovedFacts) : Prop := {
  ap_values : ∀ v, v ∈ af_name f :: af_phone f :: af_hours f → value_ok v = true;
  ap_name : count (af_name f) ≤ Policy.facts_name_max_chars POLICY_V1;
  ap_lines : Policy.facts_hours_min_lines POLICY_V1 ≤ Z.of_nat (length (af_hours f))
             ≤ Policy.facts_hours_max_lines POLICY_V1;
  ap_phone : phone_shape_ok (af_phone f) = true;
  ap_quiet : ∀ v, v ∈ af_name f :: af_hours f → phone_like_tokens v = [];
}.

Section Approved.
Context (sha2 : bytes → bytes).

Lemma facts_new_Ok name hours phone f :
  facts_new sha2 name hours phone = Ok f ↔
  f = MkFacts name hours phone (sha2 (facts_preimage name hours phone)) ∧ approved f.
Proof.
  unfold facts_new. cbn zeta.
  match goal with |- (if ?b then _ else _) = _ ↔ _ => destruct b eqn:E1 end.
  { split; [done|]. intros [-> [Hv Hn Hl _ _]]. exfalso. cbn [af_name af_hours af_phone] in *.
    rewrite !orb_true_iff, !negb_true_iff in E1. destruct E1 as [[E1|E1]|E1].
    - assert (forallb value_ok (name :: hours ++ [phone]) = true); [|congruence].
      apply forallb_forall. intros v Hin%list_elem_of_In. apply Hv. set_solver.
    - apply Z.ltb_lt in E1. by apply Z.lt_nge in E1.
    - unfold within_range in E1. apply andb_false_iff in E1 as [E1%Z.leb_gt|E1%Z.leb_gt];
        destruct Hl; by apply Z.lt_nge in E1. }
  rewrite !orb_false_iff, !negb_false_iff in E1. destruct E1 as [[Hv Hn%Z.ltb_ge] Hl].
  destruct (phone_shape_ok phone) eqn:E2; cbn [negb].
  2: { split; [done|]. intros [-> [_ _ _ Hp _]]. cbn in Hp. congruence. }
  destruct (existsb _ _) eqn:E3.
  { split; [done|]. intros [-> [_ _ _ _ Hq]]. exfalso. apply existsb_exists in E3 as (v & Hin%list_elem_of_In & Hb).
    apply negb_true_iff, bool_decide_eq_false in Hb. apply Hb, (Hq v Hin). }
  assert (Hap : approved (MkFacts name hours phone (sha2 (facts_preimage name hours phone)))).
  { split; cbn [af_name af_hours af_phone]; [|exact Hn| |done|].
    - intros v Hin. rewrite forallb_forall in Hv. apply Hv, list_elem_of_In. set_solver.
    - apply andb_true_iff in Hl as [?%Z.leb_le ?%Z.leb_le]. done.
    - intros v Hin%list_elem_of_In. destruct (bool_decide (phone_like_tokens v = [])) eqn:Eb;
        [by apply bool_decide_eq_true in Eb|]. exfalso.
      assert (existsb (λ v, negb (bool_decide (phone_like_tokens v = []))) (name :: hours) = true); [|congruence].
      apply existsb_exists. exists v. split; [done|]. by rewrite Eb. }
  split; [intros [= <-]; done|]. by intros [-> _].
Qed.

(** C27. FC-1 to FC-4: on a page that meets the rules, the facts check passes exactly
    when the one [h1] and the title are the approved name, each hours line is the
    whole text of a list item or paragraph, the phone is the whole text of a leaf or
    span, and every phone-like token (a maximal run of digits and separators with at
    least seven digits) of the title or a leaf has the approved phone's digits. *)
Theorem check_facts_iff name hours phone (p : Page) (f : ApprovedFacts)
    (Hfacts : facts_new sha2 name hours phone = Ok f) (Hpage : page_ok p) :
  check_facts p f = Ok tt ↔ facts_hold p f.
Proof.
  apply facts_new_Ok in Hfacts as [_ Hap].
  assert (Hphone : is_text_str (af_phone f)) by (apply value_chars, (ap_values _ Hap); set_solver).
  unfold check_facts. rewrite first_error_Ok, heading_spec, hours_spec, numbers_spec, phone_spec by done.
  unfold facts_report. cbn [name_title]. rewrite bool_decide_eq_true.
  split; [intros (? & ? & ? & ? & ?); by split|]. intros [? ? ? ? ?]. by split_and!.
Qed.

(** An approved fact never trips FC-4: every phone-like token of an approved
    name, hours line or phone has exactly the approved phone's digits. *)
Theorem approved_never_foreign name hours phone (f : ApprovedFacts)
    (Hfacts : facts_new sha2 name hours phone = Ok f) :
  ∀ v d, v ∈ af_name f :: af_phone f :: af_hours f → d ∈ phone_like_tokens v → d = phone_digits f.
Proof.
  apply facts_new_Ok in Hfacts as [_ Hap]. intros v d Hv Hd.
  destruct (decide (v = af_phone f)) as [->|Hne]; [by apply phone_tokens; [apply Hap|]|].
  rewrite (ap_quiet _ Hap v) in Hd by set_solver. by apply not_elem_of_nil in Hd.
Qed.
End Approved.

Module SampleFacts.
Definition facts : ApprovedFacts :=
  MkFacts (lit "Bakery") [lit "Mo 8-12"; lit "Tu 8-12"] (lit "030 123 456")
    (facts_preimage (lit "Bakery") [lit "Mo 8-12"; lit "Tu 8-12"] (lit "030 123 456")).

Lemma facts_built :
  facts_new (λ b, b) (lit "Bakery") [lit "Mo 8-12"; lit "Tu 8-12"] (lit "030 123 456") = Ok facts.
Proof. vm_compute. reflexivity. Qed.
End SampleFacts.

Lemma check_facts_iff_witness :
  facts_new (λ b, b) (lit "Bakery") [lit "Mo 8-12"; lit "Tu 8-12"] (lit "030 123 456") = Ok SampleFacts.facts ∧
  page_ok Sample.page ∧ facts_hold Sample.page SampleFacts.facts.
Proof.
  split; [exact SampleFacts.facts_built|]. split; [exact Sample.page_rules|].
  apply (check_facts_iff (λ b, b) _ _ _ Sample.page SampleFacts.facts SampleFacts.facts_built Sample.page_rules).
  vm_compute. reflexivity.
Defined.

Lemma approved_never_foreign_witness :
  facts_new (λ b, b) (lit "Bakery") [lit "Mo 8-12"; lit "Tu 8-12"] (lit "030 123 456") = Ok SampleFacts.facts ∧
  phone_like_tokens (af_phone SampleFacts.facts) = [phone_digits SampleFacts.facts] ∧
  ∀ d, d ∈ phone_like_tokens (af_phone SampleFacts.facts) → d = phone_digits SampleFacts.facts.
Proof.
  split; [exact SampleFacts.facts_built|]. split; [vm_compute; reflexivity|].
  intros d Hd. apply (approved_never_foreign (λ b, b) _ _ _ SampleFacts.facts SampleFacts.facts_built (af_phone SampleFacts.facts) d).
  - set_solver.
  - exact Hd.
Defined.
