(* ===== verification/PageVerdict.v ===== *)
(** * The page verdict

    [kernel/src/inert_page/verdict.rs]: which bytes were checked, under which
    policy, with which facts, and the outcome; the hash that binds them, the label
    and the facts line. The digest is the [sha2] crate's, a parameter. *)

From S2P Require Import Prelude Hash Utf8 Evidence PagePolicy PageScan PageTree PageRules PageLex PageCheck PageFacts.

Local Open Scope Z_scope.
#[local] Arguments lit : simpl never.

Inductive FactsMarker := NoFacts | Facts (hash : bytes).
#[export] Instance FactsMarker_eq_dec : EqDecision FactsMarker.
Proof. solve_decision. Defined.

Definition FactsMarker_of (facts : option ApprovedFacts) : FactsMarker :=
  match facts with Some f => Facts (af_hash f) | None => NoFacts end.

Module PageOutcome.
Inductive t := Passed | Refused (c : RefusalCode.t) | FactMissing (f : FactCode.t).

(** The outcome as bound: a [u16] code and a [u32] detail. *)
Definition code (o : t) : Z * Z :=
  match o with
  | Passed => (0, 0)
  | Refused c => (256 + Z.of_nat (code_position c), 0)
  | FactMissing f =>
      (512 + Z.of_nat (FactCode.position f),
       match f with FactCode.HoursLineMissing index => index | _ => 0 end)
  end.
End PageOutcome.
#[export] Instance PageOutcome_eq_dec : EqDecision PageOutcome.t.
Proof. solve_decision. Defined.

Record PageVerdict := MkVerdict {
  v_candidate_sha256 : bytes;
  v_policy_hash : bytes;
  v_facts : FactsMarker;
  v_outcome : PageOutcome.t;
  v_hours_lines : Z;
}.

Definition VERDICT_DOMAIN : bytes := lit "nexus.inert_page.verdict.v1".

(** [str::replace]: every occurrence from the left; [skip] characters of the last
    one are still to be dropped. *)
Fixpoint replace_from (skip : nat) (pat to s : str) : str :=
  match s with
  | [] => []
  | c :: r =>
      match skip with
      | S k => replace_from k pat to r
      | O => if starts_with s pat then to ++ replace_from (length pat - 1) pat to r
             else c :: replace_from 0 pat to r
      end
  end.
Definition replace (s pat to : str) : str := replace_from 0 pat to s.

Section Verdict.
Context (sha2 : bytes → bytes).

(** [PageVerdict::evaluate]; [None] stands for a check that does not end. *)
Definition evaluate (candidate : bytes) (facts : option ApprovedFacts) : option PageVerdict :=
  match check_outcome candidate with
  | None => None
  | Some r =>
      let outcome :=
        match r with
        | Err refusal => PageOutcome.Refused (r_code refusal)
        | Ok page =>
            match check_facts page <$> facts with
            | Some (Err code) => PageOutcome.FactMissing code
            | Some (Ok _) | None => PageOutcome.Passed
            end
        end in
      Some (MkVerdict (sha2 candidate) (policy_hash sha2) (FactsMarker_of facts) outcome
              match facts with Some f => line_index (length (af_hours f)) | None => 0 end)
  end.

Definition passed (v : PageVerdict) : bool := bool_decide (v_outcome v = PageOutcome.Passed).

Definition binding_preimage (v : PageVerdict) : bytes :=
  put VERDICT_DOMAIN ++ v_candidate_sha256 v ++ v_policy_hash v ++
  match v_facts v with NoFacts => [0] | Facts f => [1] ++ f end ++
  to_be_bytes 2 (PageOutcome.code (v_outcome v)).1 ++ to_be_bytes 4 (PageOutcome.code (v_outcome v)).2.
Definition binding_hash (v : PageVerdict) : bytes := sha2 (binding_preimage v).

Definition is_for (v : PageVerdict) (candidate policy : bytes) (facts : FactsMarker) : bool :=
  bool_decide (v_candidate_sha256 v = sha2 candidate) && bool_decide (v_policy_hash v = policy) &&
  bool_decide (v_facts v = facts).

Definition label (v : PageVerdict) : str :=
  match v_outcome v with
  | PageOutcome.Passed | PageOutcome.FactMissing _ => LABEL_PASSED
  | PageOutcome.Refused _ => Policy.label_refused_prefix POLICY_V1
  end.

Definition facts_line (v : PageVerdict) : option str :=
  match v_outcome v, v_facts v with
  | PageOutcome.Passed, Facts _ =>
      Some (replace (Policy.facts_line_template POLICY_V1) (lit "{n}") (u8_decimal (v_hours_lines v)))
  | _, _ => None
  end.

(** ** What a verdict says *)

(** C28. A verdict is truthful: it names the candidate's hash, the policy and the
    facts; it passes exactly when the candidate is an accepted page on which the
    given facts hold; the pass label is shown exactly for accepted pages, whatever
    the facts; and the facts line is shown exactly for a full pass with facts. *)
Theorem verdict_truthful (candidate : bytes) (facts : option ApprovedFacts) (Hbytes : Forall is_byte candidate) :
  ∃ v, evaluate candidate facts = Some v ∧
    is_for v candidate (policy_hash sha2) (FactsMarker_of facts) = true ∧
    (passed v = true ↔ ∃ p, check_outcome candidate = Some (Ok p) ∧
      (∀ f, facts = Some f → check_facts p f = Ok tt)) ∧
    (label v = LABEL_PASSED ↔ ∃ p, check_outcome candidate = Some (Ok p)) ∧
    (is_Some (facts_line v) ↔ passed v = true ∧ is_Some facts).
Proof.
  destruct (check_ends candidate Hbytes) as [r Hr]. unfold evaluate. rewrite Hr. eexists. split; [done|].
  split. { unfold is_for. cbn [v_candidate_sha256 v_policy_hash v_facts]. by rewrite !bool_decide_eq_true_2. }
  unfold passed, label, facts_line. cbn [v_outcome v_facts v_hours_lines].
  destruct r as [p|refusal].
  - destruct facts as [f|]; cbn [fmap option_fmap option_map FactsMarker_of].
    + destruct (check_facts p f) as [[]|code] eqn:Ef; cbn.
      * rewrite bool_decide_eq_true. split_and!; [split; [|done]|split; [|done]|]; [intros _; exists p; split; [done|by intros ? [= <-]]|eauto|].
        split; eauto.
      * split_and!; [split|split; [eauto|done]|split]; [done| |by intros []|by intros [? ?]].
        intros (q & [= <-] & Hq). specialize (Hq f eq_refl). congruence.
    + split_and!; [split; [|done]|split; [|done]|split]; [intros _; exists p; by split|eauto|by intros []|by intros [_ []]].
  - split_and!; split; try done; try (by intros (q & [=] & _)); try (by intros (q & [=])); try (by intros []).
Qed.

(** ** The binding *)

Lemma utf8_char_length c : (length (utf8_char c) ≤ 4)%nat.
Proof. unfold utf8_char. repeat case_match; simpl; lia. Qed.
Lemma as_bytes_length s : (length (as_bytes s) ≤ 4 * length s)%nat.
Proof.
  induction s as [|c s IH]; [simpl; lia|]. change (as_bytes (c :: s)) with (utf8_char c ++ as_bytes s).
  rewrite length_app. pose proof (utf8_char_length c). simpl. lia.
Qed.

Lemma value_rust_str v : value_ok v = true → rust_str v.
Proof.
  intros H. split; [by apply value_chars|]. unfold value_ok, within_range, count in H. rewrite !andb_true_iff in H.
  destruct H as [[[[[[_ H%Z.leb_le] _] _] _] _] _]. cbn in H. pose proof (as_bytes_length v). unfold u64_len. lia.
Qed.

(** The facts hash covers every approved value. *)
Lemma facts_preimage_inj f g :
  approved f → approved g →
  facts_preimage (af_name f) (af_hours f) (af_phone f) = facts_preimage (af_name g) (af_hours g) (af_phone g) →
  af_name f = af_name g ∧ af_hours f = af_hours g ∧ af_phone f = af_phone g.
Proof.
  intros Hf Hg E. unfold facts_preimage in E. apply app_inv_head in E.
  assert (Hv : ∀ h, approved h → rust_str (af_name h) ∧ rust_str (af_phone h) ∧ Forall rust_str (af_hours h)).
  { intros h Hh. split_and!; [..|apply Forall_forall; intros v ?]; apply value_rust_str, (ap_values _ Hh); set_solver. }
  destruct (Hv f Hf) as (Hn1 & Hp1 & Hh1), (Hv g Hg) as (Hn2 & Hp2 & Hh2).
  apply put_text_delimited in E as [En E]; [|done..].
  apply app_inj_1 in E as [El E]; [|by rewrite !length_to_be_bytes].
  destruct (ap_lines _ Hf) as [_ L1], (ap_lines _ Hg) as [_ L2]. cbn in L1, L2.
  apply to_be_bytes_inj in El; [|simpl; lia..].
  apply (delimited_list _ _ _ _ _ _ put_text_delimited) in E as [Eh E]; [|lia|done..].
  rewrite <- (app_nil_r (put _)), <- (app_nil_r (put (as_bytes (af_phone g)))) in E.
  by apply put_text_delimited in E as [Ep _].
Qed.

Definition outcome_typed (o : PageOutcome.t) : Prop :=
  match o with PageOutcome.FactMissing (FactCode.HoursLineMissing i) => 0 ≤ i ≤ 255 | _ => True end.

Lemma outcome_code_bounds o :
  outcome_typed o → 0 ≤ (PageOutcome.code o).1 < 65536 ∧ 0 ≤ (PageOutcome.code o).2 < 4294967296.
Proof.
  destruct o as [|c|f]; simpl; [lia| |].
  - assert (code_position c < 44)%nat by (destruct c; vm_compute; lia). lia.
  - destruct f; simpl; lia.
Qed.

Lemma outcome_code_inj o q :
  outcome_typed o → outcome_typed q → PageOutcome.code o = PageOutcome.code q → o = q.
Proof.
  assert (Hc : ∀ c, (code_position c < 44)%nat) by (intros []; vm_compute; lia).
  destruct o as [|c|f], q as [|d|g]; simpl; intros Ho Hq E; apply pair_equal_spec in E as [E1 E2]; try lia; try done.
  - f_equal. apply code_position_inj. lia.
  - pose proof (Hc c). lia.
  - pose proof (Hc d). lia.
  - destruct f, g; simpl in *; try lia; try done. by subst.
Qed.

Lemma evaluate_typed candidate facts v :
  evaluate candidate facts = Some v →
  v_candidate_sha256 v = sha2 candidate ∧ v_policy_hash v = policy_hash sha2 ∧
  v_facts v = FactsMarker_of facts ∧ outcome_typed (v_outcome v).
Proof.
  unfold evaluate. destruct (check_outcome candidate) as [r|]; [|done]. intros [= <-]. split_and!; [done..|].
  cbn [v_outcome]. destruct r as [p|]; [|done]. destruct facts as [f|]; [|done].
  cbn [fmap option_fmap option_map]. destruct (check_facts p f) as [|code] eqn:E; [done|].
  unfold check_facts, first_error in E. repeat case_match; simplify_eq; try done.
  cbn. unfold line_index. case_match; lia.
Qed.

Section Binds.
Context (Hlen : ∀ b, length (sha2 b) = 32%nat).

(** Facts that [ApprovedFacts::new] built. *)
Definition built (facts : option ApprovedFacts) : Prop :=
  ∀ f, facts = Some f → facts_new sha2 (af_name f) (af_hours f) (af_phone f) = Ok f.

(** What the hash of approved facts digests, and what a verdict's digests. *)
Definition facts_input (facts : option ApprovedFacts) : list bytes :=
  (λ f, facts_preimage (af_name f) (af_hours f) (af_phone f)) <$> option_list facts.
Definition verdict_inputs (candidate : bytes) (facts : option ApprovedFacts) (v : PageVerdict) : list bytes :=
  binding_preimage v :: candidate :: facts_input facts.

Lemma marker_inj f g :
  built f → built g → FactsMarker_of f = FactsMarker_of g →
  f = g ∨ clash_among sha2 (facts_input f) (facts_input g).
Proof.
  intros Hf Hg E. destruct f as [f|], g as [g|]; try done; [|auto]. injection E as E.
  pose proof (Hf f eq_refl) as [Ef Haf]%facts_new_Ok. pose proof (Hg g eq_refl) as [Eg Hag]%facts_new_Ok.
  rewrite Ef, Eg in E. cbn [af_hash] in E. apply clash_or_same in E as [E|?].
  2:{ right. eexists _, _. split_and!; [by left..|done]. }
  left.
  apply facts_preimage_inj in E as (En & Eh & Ep); [|done..]. rewrite Ef, Eg. by rewrite En, Eh, Ep.
Qed.

Lemma marker_bytes_inj f g r s :
  built f → built g →
  match FactsMarker_of f with NoFacts => [0] | Facts h => [1] ++ h end ++ r =
  match FactsMarker_of g with NoFacts => [0] | Facts h => [1] ++ h end ++ s →
  FactsMarker_of f = FactsMarker_of g ∧ r = s.
Proof.
  intros Hf Hg E. destruct f as [f|], g as [g|]; cbn [FactsMarker_of app] in *; try (by split; [done|congruence]); try done.
  apply (f_equal tail) in E. cbn [tail] in E.
  pose proof (Hf f eq_refl) as [Ef _]%facts_new_Ok. pose proof (Hg g eq_refl) as [Eg _]%facts_new_Ok.
  apply app_inj_1 in E as [-> ->]; [done|]. rewrite Ef, Eg. cbn [af_hash]. by rewrite !Hlen.
Qed.

(** The binding hash binds: verdicts with equal binding hashes are for the same
    candidate bytes, the same approved facts and the same outcome, or two of the
    inputs digested for them are distinct with one digest. *)
Theorem verdict_binds (c1 c2 : bytes) (f1 f2 : option ApprovedFacts) (v1 v2 : PageVerdict)
    (Hf1 : built f1) (Hf2 : built f2)
    (H1 : evaluate c1 f1 = Some v1) (H2 : evaluate c2 f2 = Some v2)
    (Heq : binding_hash v1 = binding_hash v2) :
  (c1 = c2 ∧ f1 = f2 ∧ v_outcome v1 = v_outcome v2) ∨
  clash_among sha2 (verdict_inputs c1 f1 v1) (verdict_inputs c2 f2 v2).
Proof.
  destruct (evaluate_typed _ _ _ H1) as (S1 & P1 & M1 & T1), (evaluate_typed _ _ _ H2) as (S2 & P2 & M2 & T2).
  apply clash_or_same in Heq as [E|?]; [|right; eexists _, _; split_and!; [by left..|done]]. unfold binding_preimage in E.
  apply app_inv_head in E. rewrite S1, S2, P1, P2, M1, M2 in E.
  apply app_inj_1 in E as [Ec E]; [|by rewrite !Hlen]. apply app_inv_head in E.
  apply marker_bytes_inj in E as [Em E]; [|done..].
  apply app_inj_1 in E as [E1 E2]; [|by rewrite !length_to_be_bytes].
  destruct (outcome_code_bounds _ T1) as [B1 B1'], (outcome_code_bounds _ T2) as [B2 B2'].
  apply to_be_bytes_inj in E1; [|simpl; lia..]. apply to_be_bytes_inj in E2; [|simpl; lia..].
  assert (Eo : v_outcome v1 = v_outcome v2).
  { apply outcome_code_inj; [done..|]. by apply injective_projections. }
  apply clash_or_same in Ec as [Ec|?]; [|right; eexists _, _; split_and!; [by right; left..|done]].
  apply marker_inj in Em as [?|Hcl]; [by left|right; eapply clash_among_mono, Hcl; set_solver|done..].
Qed.
End Binds.
End Verdict.

(** ** A verdict *)

Definition toy_sha (b : bytes) : bytes := take 32 (b ++ replicate 32 0).

Lemma toy_sha_length b : length (toy_sha b) = 32%nat.
Proof. unfold toy_sha. rewrite length_take, length_app, length_replicate. lia. Qed.

Definition sample_verdict (facts : option ApprovedFacts) : PageVerdict :=
  MkVerdict (toy_sha Sample.candidate) (policy_hash toy_sha) (FactsMarker_of facts) PageOutcome.Passed
    match facts with Some f => line_index (length (af_hours f)) | None => 0 end.

Lemma verdict_truthful_witness :
  Forall is_byte Sample.candidate ∧
  ∃ v, evaluate toy_sha Sample.candidate (Some SampleFacts.facts) = Some v ∧ passed v = true ∧
    facts_line v = Some (lit "facts present as given: name, hours (2 lines), phone").
Proof.
  split; [exact Sample.candidate_bytes|].
  destruct (verdict_truthful toy_sha Sample.candidate (Some SampleFacts.facts) Sample.candidate_bytes)
    as (v & Hv & _ & Hp & _). exists v. split; [exact Hv|]. split.
  - apply Hp. exists Sample.page. split; [exact Sample.candidate_accepted|].
    intros f Hf. injection Hf as <-. vm_compute. reflexivity.
  - vm_compute in Hv. injection Hv as <-. vm_compute. reflexivity.
Defined.

Lemma verdict_binds_witness :
  evaluate toy_sha Sample.candidate None = Some (sample_verdict None) ∧
  ((Sample.candidate = Sample.candidate ∧ @None ApprovedFacts = None ∧
    v_outcome (sample_verdict None) = v_outcome (sample_verdict None)) ∨
   let inputs := verdict_inputs Sample.candidate None (sample_verdict None) in
   clash_among toy_sha inputs inputs).
Proof.
  assert (H : evaluate toy_sha Sample.candidate None = Some (sample_verdict None)) by (vm_compute; reflexivity).
  split; [exact H|].
  apply (verdict_binds toy_sha toy_sha_length Sample.candidate Sample.candidate None None
    (sample_verdict None) (sample_verdict None)); [intros f Hf; discriminate|intros f Hf; discriminate|exact H|exact H|reflexivity].
Defined.
