(* ===== verification/AuthBase.v ===== *)
(** * The authority's identities, effects, errors and evidence

    [crates/nexus-governed-control/src/authority]: [ids.rs], [effect.rs], the
    error type and its reason registry of [mod.rs], and [evidence.rs]: the
    record, what of it a restricted run's record keeps ([seal], the I6
    registry), and its JSON detail. SHA-256 ([sha2]) and hexadecimal ([hex]) are
    crates: the operations of [Crates]. *)

From S2P Require Import Prelude Hash Evidence.

Local Open Scope Z_scope.
#[local] Arguments lit : simpl never.

(** ** Identities and digests ([ids.rs]) *)

Class Crates := {
  sha2 : bytes → bytes;
  hex_encode : bytes → str;
}.

(** The opaque ids are 16 bytes, a [Digest] is 32; an agent is its text. *)
Abbreviation CommitmentId := bytes (only parsing).
Abbreviation RunId := bytes (only parsing).
Abbreviation GrantId := bytes (only parsing).
Abbreviation LeaseId := bytes (only parsing).
Abbreviation Digest := bytes (only parsing).
Abbreviation AgentId := str (only parsing).

Definition AgentId_new (text : str) : option AgentId :=
  if negb (bool_decide (text = [])) && (str_len text <=? 64) &&
     forallb (λ c, is_ascii_alphanumeric c || (c =? 45) || (c =? 95)) (as_bytes text)
  then Some text else None.

Definition OWNER_SESSION : str := lit "owner-session".

Section Ids.
Context {crates : Crates}.

(** [Digest::of]: the domain and each part, with their lengths. *)
Definition digest_preimage (domain : str) (parts : list bytes) : bytes :=
  put (as_bytes domain) ++ (parts ≫= put).
Definition Digest_of (domain : str) (parts : list bytes) : Digest :=
  sha2 (digest_preimage domain parts).
Definition Digest_to_hex (d : Digest) : str := hex_encode d.
Definition Digest_short (d : Digest) : str := take 12 (Digest_to_hex d).

Definition id_display (prefix : str) (id : bytes) : str := prefix ++ lit "-" ++ hex_encode id.
Definition CommitmentId_display : CommitmentId → str := id_display (lit "cmt").
Definition RunId_display : RunId → str := id_display (lit "run").
Definition GrantId_display : GrantId → str := id_display (lit "grant").
Definition LeaseId_display : LeaseId → str := id_display (lit "lease").
End Ids.

(** ** Effects ([effect.rs]) *)

Module EffectClass.
Inductive t :=
| R0
| R1
| R2.

Definition as_str (v : t) : str :=
  match v with
  | R0 => lit "R0"
  | R1 => lit "R1"
  | R2 => lit "R2"
  end.
End EffectClass.
#[export] Instance EffectClass_eq_dec : EqDecision EffectClass.t.
Proof. solve_decision. Defined.

Definition requires_native_approval (c : EffectClass.t) : bool :=
  bool_decide (c = EffectClass.R2).

Module CapabilityKind.
Inductive t :=
| Tool
| Egress
| Browser
| Perception
| Input
| Connector
| Synthetic
| Files.

Definition as_str (v : t) : str :=
  match v with
  | Tool => lit "tool"
  | Egress => lit "egress"
  | Browser => lit "browser"
  | Perception => lit "perception"
  | Input => lit "input"
  | Connector => lit "connector"
  | Synthetic => lit "synthetic"
  | Files => lit "files"
  end.
End CapabilityKind.
#[export] Instance CapabilityKind_eq_dec : EqDecision CapabilityKind.t.
Proof. solve_decision. Defined.

(** ** Errors ([mod.rs]) *)

(** [nexus_kernel::inference::ModelError], with its codes. *)
Module ModelError.
Inductive t :=
| NotLocal
| InvalidAddress
| InvalidModelName
| CloudName
| CloudEnabled
| NotInstalled
| DigestMismatch
| RuntimeMismatch
| Remote
| ConfigMismatch
| Unavailable
| Timeout
| RequestTooLarge
| ResponseTooLarge
| Malformed
| Truncated
| ToolCalls
| ThinkingLeaked
| EmptyContent
| OverBudget
| Stopped
| Cancelled
| Late
| UnsafeDelimiter.

Definition CODES : list str :=
  [lit "not_local";
   lit "invalid_address";
   lit "invalid_model_name";
   lit "cloud_name";
   lit "cloud_enabled";
   lit "not_installed";
   lit "digest_mismatch";
   lit "runtime_mismatch";
   lit "remote";
   lit "config_mismatch";
   lit "unavailable";
   lit "timeout";
   lit "request_too_large";
   lit "response_too_large";
   lit "malformed";
   lit "truncated";
   lit "tool_calls";
   lit "thinking_leaked";
   lit "empty_content";
   lit "over_budget";
   lit "stopped";
   lit "cancelled";
   lit "late";
   lit "unsafe_delimiter"].

(** The declaration order. *)
Definition index (v : t) : nat :=
  match v with
  | NotLocal => 0
  | InvalidAddress => 1
  | InvalidModelName => 2
  | CloudName => 3
  | CloudEnabled => 4
  | NotInstalled => 5
  | DigestMismatch => 6
  | RuntimeMismatch => 7
  | Remote => 8
  | ConfigMismatch => 9
  | Unavailable => 10
  | Timeout => 11
  | RequestTooLarge => 12
  | ResponseTooLarge => 13
  | Malformed => 14
  | Truncated => 15
  | ToolCalls => 16
  | ThinkingLeaked => 17
  | EmptyContent => 18
  | OverBudget => 19
  | Stopped => 20
  | Cancelled => 21
  | Late => 22
  | UnsafeDelimiter => 23
  end%nat.
Definition code (v : t) : str := nth (index v) CODES [].
End ModelError.
#[export] Instance ModelError_eq_dec : EqDecision ModelError.t.
Proof. solve_decision. Defined.

Definition MODEL_CLASSES : list str :=
  [lit "model_not_local";
   lit "model_invalid_address";
   lit "model_invalid_model_name";
   lit "model_cloud_name";
   lit "model_cloud_enabled";
   lit "model_not_installed";
   lit "model_digest_mismatch";
   lit "model_runtime_mismatch";
   lit "model_remote";
   lit "model_config_mismatch";
   lit "model_unavailable";
   lit "model_timeout";
   lit "model_request_too_large";
   lit "model_response_too_large";
   lit "model_malformed";
   lit "model_truncated";
   lit "model_tool_calls";
   lit "model_thinking_leaked";
   lit "model_empty_content";
   lit "model_over_budget";
   lit "model_stopped";
   lit "model_cancelled";
   lit "model_late";
   lit "model_unsafe_delimiter"].

(** [inference::model_class]. *)
Definition model_class (e : ModelError.t) : str := nth (ModelError.index e) MODEL_CLASSES [].

(** What became of an end record, and the evidence of an effect that started
    ([evidence.rs]). *)
Module EndStatus.
Inductive t :=
| Recorded (seq : Z)
| Owed
| Uncertain.
End EndStatus.
#[export] Instance EndStatus_eq_dec : EqDecision EndStatus.t.
Proof. solve_decision. Defined.

Record ExecutionEvidence := MkExecutionEvidence {
  ee_start : Z;
  ee_end : EndStatus.t;
}.
#[export] Instance ExecutionEvidence_eq_dec : EqDecision ExecutionEvidence.
Proof. solve_decision. Defined.

Module AuthorityError.
Inductive t :=
| UnknownCommitment
| UnknownRun
| UnknownGrant
| UnknownLease
| WrongAgent
| WrongRun
| NotPending
| NotAuthorized
| Expired
| Stale
| GrantNotLive
| NoCoveringGrant
| RunCancelled
| RunNotActive
| EmergencyStopped
| ResumeSuperseded
| ApprovalRequired
| ApprovalNotApplicable
| ApprovalMismatch
| Declined
| TargetChanged
| ParametersChanged
| EvidenceUnavailable
| Capacity
| NotMember
| Halted
| NotAdmitted
| NoConsent
| AlreadyAdmitted
| FileExists
| ChangeTooLargeToShow
| UnsupportedMountTopology
| ModelNotRegistered
| ModelIdentityMismatch
| ModelCall (e : ModelError.t)
| RecoveryRequired
| FactsInvalid (code : str)
| FileTypeNotAllowed
| PageNotInert (code : str)
| PageFactMissing (code : str)
| Closed (why : str)
| InvalidAction (why : str)
| Unavailable (why : str)
| Ended (cause : t) (evidence : ExecutionEvidence).

Fixpoint class (e : t) : str :=
  match e with
  | UnknownCommitment => lit "unknown_commitment"
  | UnknownRun => lit "unknown_run"
  | UnknownGrant => lit "unknown_grant"
  | UnknownLease => lit "unknown_lease"
  | WrongAgent => lit "wrong_agent"
  | WrongRun => lit "wrong_run"
  | NotPending => lit "not_pending"
  | NotAuthorized => lit "not_authorized"
  | Expired => lit "expired"
  | Stale => lit "stale_policy_generation"
  | GrantNotLive => lit "grant_not_live"
  | NoCoveringGrant => lit "no_covering_grant"
  | RunCancelled => lit "run_cancelled"
  | RunNotActive => lit "run_not_active"
  | EmergencyStopped => lit "emergency_stopped"
  | ResumeSuperseded => lit "resume_superseded"
  | ApprovalRequired => lit "approval_required"
  | ApprovalNotApplicable => lit "approval_not_applicable"
  | ApprovalMismatch => lit "approval_mismatch"
  | Declined => lit "declined"
  | TargetChanged => lit "target_changed"
  | ParametersChanged => lit "parameters_changed"
  | EvidenceUnavailable => lit "evidence_unavailable"
  | Capacity => lit "capacity"
  | NotMember => lit "not_member"
  | Halted => lit "halted"
  | NotAdmitted => lit "not_admitted"
  | NoConsent => lit "no_consent"
  | AlreadyAdmitted => lit "already_admitted"
  | FileExists => lit "file_exists"
  | ChangeTooLargeToShow => lit "change_too_large_to_show"
  | UnsupportedMountTopology => lit "unsupported_mount_topology"
  | ModelNotRegistered => lit "model_not_registered"
  | ModelIdentityMismatch => lit "model_identity_mismatch"
  | ModelCall error => model_class error
  | RecoveryRequired => lit "recovery_required"
  | FactsInvalid _ => lit "facts_invalid"
  | FileTypeNotAllowed => lit "file_type_not_allowed"
  | PageNotInert _ => lit "page_not_inert"
  | PageFactMissing _ => lit "page_fact_missing"
  | Closed _ => lit "closed"
  | InvalidAction _ => lit "invalid_action"
  | Unavailable _ => lit "unavailable"
  | Ended cause _ => class cause
  end.

Fixpoint cause (e : t) : t :=
  match e with
  | Ended cause_ _ => cause cause_
  | other => other
  end.
End AuthorityError.
#[export] Instance AuthorityError_eq_dec : EqDecision AuthorityError.t.
Proof. solve_decision. Defined.
Abbreviation AuthorityError := AuthorityError.t.
Abbreviation aresult T := (result T AuthorityError).

Definition REASONS : list str :=
  [lit "confirmation_not_asked";
   lit "confirmation_awaiting";
   lit "confirmation_invalidated";
   lit "confirmation_protocol_failed";
   lit "unknown_commitment";
   lit "unknown_run";
   lit "unknown_grant";
   lit "unknown_lease";
   lit "wrong_agent";
   lit "wrong_run";
   lit "not_pending";
   lit "not_authorized";
   lit "expired";
   lit "stale_policy_generation";
   lit "grant_not_live";
   lit "no_covering_grant";
   lit "run_cancelled";
   lit "run_not_active";
   lit "emergency_stopped";
   lit "resume_superseded";
   lit "approval_required";
   lit "approval_not_applicable";
   lit "approval_mismatch";
   lit "declined";
   lit "target_changed";
   lit "parameters_changed";
   lit "evidence_unavailable";
   lit "capacity";
   lit "not_member";
   lit "halted";
   lit "door_activation_refused_halted";
   lit "grant_issue_refused_halted";
   lit "approval_refused_halted";
   lit "authorization_refused_halted";
   lit "execution_dispatch_refused_halted";
   lit "recovery_lift_refused_halted";
   lit "commitment_prepare_refused_halted";
   lit "mission_consent_refused_halted";
   lit "held_consent_refused_halted";
   lit "pending_effect_refused_halted";
   lit "closed";
   lit "invalid_action";
   lit "unavailable";
   lit "journal_failed";
   lit "recovery_required";
   lit "not_admitted";
   lit "no_consent";
   lit "already_admitted";
   lit "file_exists";
   lit "change_too_large_to_show";
   lit "unsupported_mount_topology";
   lit "model_not_registered";
   lit "model_identity_mismatch";
   lit "model_not_local";
   lit "model_invalid_address";
   lit "model_invalid_model_name";
   lit "model_cloud_name";
   lit "model_cloud_enabled";
   lit "model_not_installed";
   lit "model_digest_mismatch";
   lit "model_runtime_mismatch";
   lit "model_remote";
   lit "model_config_mismatch";
   lit "model_unavailable";
   lit "model_timeout";
   lit "model_request_too_large";
   lit "model_response_too_large";
   lit "model_malformed";
   lit "model_truncated";
   lit "model_tool_calls";
   lit "model_thinking_leaked";
   lit "model_empty_content";
   lit "model_over_budget";
   lit "model_stopped";
   lit "model_cancelled";
   lit "model_late";
   lit "model_unsafe_delimiter";
   lit "facts_invalid";
   lit "file_type_not_allowed";
   lit "page_not_inert";
   lit "page_fact_missing"].

(** ** Evidence phases and records ([evidence.rs]) *)

Module EvidencePhase.
Inductive t :=
| RunOpened
| RunCancelled
| EmergencyStop
| Resumed
| GrantIssued
| GrantDeclined
| GrantRevoked
| Prepared
| Denied
| ApprovalDeclined
| Approved
| Authorized
| Started
| Finished
| Expired
| Revoked
| LeaseIssued
| DisplayStarted
| DisplayStopped
| CredentialReleased
| KernelHalt
| MissionConsented
| MissionDeclined
| AgentDoorOpened
| AgentDoorDeclined
| MissionResumeConfirmed
| MissionResumeDeclined
| DoorHalted
| ModelRegistered
| ModelCall.

Definition as_str (v : t) : str :=
  match v with
  | RunOpened => lit "run_opened"
  | RunCancelled => lit "run_cancelled"
  | EmergencyStop => lit "emergency_stop"
  | Resumed => lit "resumed"
  | GrantIssued => lit "grant_issued"
  | GrantDeclined => lit "grant_declined"
  | GrantRevoked => lit "grant_revoked"
  | Prepared => lit "prepared"
  | Denied => lit "denied"
  | ApprovalDeclined => lit "approval_declined"
  | Approved => lit "approved"
  | Authorized => lit "authorized"
  | Started => lit "started"
  | Finished => lit "finished"
  | Expired => lit "expired"
  | Revoked => lit "revoked"
  | LeaseIssued => lit "lease_issued"
  | DisplayStarted => lit "display_started"
  | DisplayStopped => lit "display_stopped"
  | CredentialReleased => lit "credential_released"
  | KernelHalt => lit "kernel_halt"
  | MissionConsented => lit "mission_consented"
  | MissionDeclined => lit "mission_declined"
  | AgentDoorOpened => lit "agent_door_opened"
  | AgentDoorDeclined => lit "agent_door_declined"
  | MissionResumeConfirmed => lit "mission_resume_confirmed"
  | MissionResumeDeclined => lit "mission_resume_declined"
  | DoorHalted => lit "door_halted"
  | ModelRegistered => lit "model_registered"
  | ModelCall => lit "model_call"
  end.
End EvidencePhase.
#[export] Instance EvidencePhase_eq_dec : EqDecision EvidencePhase.t.
Proof. solve_decision. Defined.

Module Privacy.
Inductive t :=
| Owner
| Restricted.
End Privacy.
#[export] Instance Privacy_eq_dec : EqDecision Privacy.t.
Proof. solve_decision. Defined.

(** How a restricted record keeps the value of a registered detail key. *)
Inductive Kept :=
| Count
| Lease
| Door
| Sha256
| Mission
| Request
| Code (codes : list str).

Definition SERVICES : list str := [lit "Gmail"; lit "Outlook"; lit "Slack"; lit "Discord"].
Definition AREAS : list str := [lit "cognitive_loop"; lit "coding"; lit "model_call"].
Definition RUN_CLASSES : list str := [lit "owner"].
Definition OPERATIONS : list str := [lit "create"; lit "model_call"].
Definition INTERRUPTIONS : list str :=
  [lit "emergency_stop"; lit "cancelled"; lit "revoked"; lit "expired"; lit "commitment_expired";
   lit "write_grant_revoked"; lit "write_grant_expired"].
Definition HELD_REASONS : list str := [lit "unclean_shutdown"].
(** [inference::OUTCOMES]. *)
Definition OUTCOMES : list str := lit "ok" :: ModelError.CODES.

(** [u64]'s decimal form, its value, and [format!("{n:06}")]. *)
Fixpoint decimal_from (fuel : nat) (n : Z) (acc : str) : str :=
  match fuel with
  | O => acc
  | S f =>
      let acc := 48 + n mod 10 :: acc in
      if n / 10 =? 0 then acc else decimal_from f (n / 10) acc
  end.
Definition u64_to_string (n : Z) : str := decimal_from 20 n [].
Definition u64_value (s : str) : Z := foldl (λ v c, 10 * v + (c - 48)) 0 s.
(** [str::parse::<u64>] on a string of digits. *)
Definition parse_u64 (s : str) : option Z :=
  if u64_value s <=? u64_max then Some (u64_value s) else None.
Definition pad6 (s : str) : str := replicate (6 - length s) 48 ++ s.

Definition is_count (value : str) : bool :=
  negb (bool_decide (value = [])) && (str_len value <=? 20) &&
  forallb is_ascii_digit (as_bytes value) &&
  match parse_u64 value with
  | Some n => bool_decide (u64_to_string n = value)
  | None => false
  end.

Definition is_mission_id (text : str) : bool :=
  match strip_prefix (lit "msn-") text with
  | Some digits =>
      (6 <=? str_len digits) && (str_len digits <=? 20) &&
      forallb is_ascii_digit (as_bytes digits) &&
      match parse_u64 digits with
      | Some n => bool_decide (pad6 (u64_to_string n) = digits)
      | None => false
      end
  | None => false
  end.

(** [str::split] on one character. *)
Fixpoint split_on (sep : Z) (s : str) : list str :=
  match s with
  | [] => [[]]
  | c :: s =>
      if c =? sep then [] :: split_on sep s
      else
        match split_on sep s with
        | [] => [[c]]
        | p :: ps => (c :: p) :: ps
        end
  end.

Definition is_mission_request (text : str) : bool :=
  match split_on 47 text with
  | [mission; seq; number] => is_mission_id mission && is_count seq && is_count number
  | _ => false
  end.

Definition is_held_reason (text : str) : bool := bool_decide (text ∈ HELD_REASONS).

Definition is_lower_hex (text : str) (len : Z) : bool :=
  (str_len text =? len) &&
  forallb (λ b, is_ascii_digit b || ((97 <=? b) && (b <=? 102))) (as_bytes text).

Definition admits (kept : Kept) (value : str) : bool :=
  match kept with
  | Count => is_count value
  | Lease =>
      match strip_prefix (lit "lease-") value with
      | Some hex => is_lower_hex hex 32
      | None => false
      end
  | Door => is_lower_hex value 32
  | Sha256 => is_lower_hex value 64
  | Mission => is_mission_id value
  | Request => is_mission_request value
  | Code codes => bool_decide (value ∈ codes)
  end.

(** The I6 registry, by key. *)
Definition registry : list (str * Kept) :=
  [(lit "status", Count); (lit "bytes", Count); (lit "redirects", Count); (lit "lines", Count);
   (lit "call", Count); (lit "prompt_bytes", Count); (lit "tokens_in", Count);
   (lit "tokens_out", Count); (lit "latency_ms", Count); (lit "returned_mono_ms", Count);
   (lit "sent_mono_ms", Count); (lit "model_digest", Sha256); (lit "identity", Sha256);
   (lit "outcome", Code OUTCOMES); (lit "lease", Lease); (lit "door", Door);
   (lit "contract_hash", Sha256); (lit "summary_digest", Sha256); (lit "facts_hash", Sha256);
   (lit "mission", Mission); (lit "request", Request); (lit "held_reason", Code HELD_REASONS);
   (lit "service", Code SERVICES); (lit "reason", Code REASONS); (lit "class", Code RUN_CLASSES);
   (lit "area", Code AREAS); (lit "op", Code OPERATIONS); (lit "interrupted", Code INTERRUPTIONS)].
Definition registered (key : str) : option Kept :=
  snd <$> List.find (λ kv, bool_decide (kv.1 = key)) registry.

(** ** Text that can be shown *)

Definition MAX_FIELD : nat := 256.
Definition MAX_DETAIL : nat := 16.

(** [char::is_control] and [char::is_whitespace]. *)
Definition is_control (c : Z) : bool := (c <? 32) || ((127 <=? c) && (c <? 160)).
Definition is_whitespace (c : Z) : bool :=
  ((9 <=? c) && (c <=? 13)) || (c =? 32) || (c =? 133) || (c =? 160) || (c =? 5760) ||
  ((8192 <=? c) && (c <=? 8202)) || (c =? 8232) || (c =? 8233) || (c =? 8239) || (c =? 8287) ||
  (c =? 12288).

(** The invisible and direction-changing ranges. *)
Definition hidden_ranges : list (Z * Z) :=
  [(0x00AD, 0x00AD); (0x034F, 0x034F); (0x0600, 0x0605); (0x061C, 0x061C); (0x06DD, 0x06DD);
   (0x070F, 0x070F); (0x0890, 0x0891); (0x08E2, 0x08E2); (0x115F, 0x1160); (0x17B4, 0x17B5);
   (0x180B, 0x180F); (0x200B, 0x200F); (0x2028, 0x202E); (0x2060, 0x206F); (0x2800, 0x2800);
   (0x3164, 0x3164); (0xFE00, 0xFE0F); (0xFEFF, 0xFEFF); (0xFFA0, 0xFFA0); (0xFFF0, 0xFFFB);
   (0x110BD, 0x110BD); (0x110CD, 0x110CD); (0x13430, 0x1345F); (0x1BCA0, 0x1BCA3);
   (0x1D173, 0x1D17A); (0xE0000, 0xE0FFF)].
Definition shown (c : Z) : bool :=
  negb (is_control c) && ((c =? 32) || negb (is_whitespace c)) &&
  negb (existsb (λ r, (r.1 <=? c) && (c <=? r.2)) hidden_ranges).

Definition is_plain (text : str) : bool := (length text <=? MAX_FIELD)%nat && forallb shown text.

Definition truncated (text : str) : str :=
  if (length text <=? MAX_FIELD)%nat then text else take (MAX_FIELD - 1) text ++ [0x2026].
Definition bounded (text : str) : str :=
  truncated ((λ c, if is_control c then 32 else if shown c then c else 0xFFFD) <$> text).

(** ** The record *)

Record EvidenceRecord := MkRecord {
  er_phase : EvidencePhase.t;
  er_at_wall_ms : Z;
  er_policy_generation : Z;
  er_commitment : option str;
  er_agent : option str;
  er_run : option str;
  er_kind : option CapabilityKind.t;
  er_class : option EffectClass.t;
  er_operation : option str;
  er_target : option str;
  er_target_digest : option str;
  er_parameters_digest : option str;
  er_approval : option str;
  er_started_wall_ms : option Z;
  er_finished_wall_ms : option Z;
  er_outcome : option str;
  er_failure : option str;
  er_cancelled : bool;
  er_detail : list (str * str);
  er_privacy : Privacy.t;
  er_sealed : bool;
}.
#[export] Instance EvidenceRecord_eq_dec : EqDecision EvidenceRecord.
Proof. solve_decision. Defined.

Definition record_eta (r : EvidenceRecord) : EvidenceRecord :=
  MkRecord (er_phase r) (er_at_wall_ms r) (er_policy_generation r) (er_commitment r) (er_agent r)
    (er_run r) (er_kind r) (er_class r) (er_operation r) (er_target r) (er_target_digest r)
    (er_parameters_digest r) (er_approval r) (er_started_wall_ms r) (er_finished_wall_ms r)
    (er_outcome r) (er_failure r) (er_cancelled r) (er_detail r) (er_privacy r) (er_sealed r).
#[export] Instance upd_er_phase : Update er_phase := ltac:(update_with record_eta).
#[export] Instance upd_er_commitment : Update er_commitment := ltac:(update_with record_eta).
#[export] Instance upd_er_agent : Update er_agent := ltac:(update_with record_eta).
#[export] Instance upd_er_run : Update er_run := ltac:(update_with record_eta).
#[export] Instance upd_er_kind : Update er_kind := ltac:(update_with record_eta).
#[export] Instance upd_er_class : Update er_class := ltac:(update_with record_eta).
#[export] Instance upd_er_operation : Update er_operation := ltac:(update_with record_eta).
#[export] Instance upd_er_target : Update er_target := ltac:(update_with record_eta).
#[export] Instance upd_er_target_digest : Update er_target_digest := ltac:(update_with record_eta).
#[export] Instance upd_er_parameters : Update er_parameters_digest := ltac:(update_with record_eta).
#[export] Instance upd_er_approval : Update er_approval := ltac:(update_with record_eta).
#[export] Instance upd_er_started : Update er_started_wall_ms := ltac:(update_with record_eta).
#[export] Instance upd_er_finished : Update er_finished_wall_ms := ltac:(update_with record_eta).
#[export] Instance upd_er_outcome : Update er_outcome := ltac:(update_with record_eta).
#[export] Instance upd_er_failure : Update er_failure := ltac:(update_with record_eta).
#[export] Instance upd_er_cancelled : Update er_cancelled := ltac:(update_with record_eta).
#[export] Instance upd_er_detail : Update er_detail := ltac:(update_with record_eta).
#[export] Instance upd_er_sealed : Update er_sealed := ltac:(update_with record_eta).

Local Open Scope nexus_scope.

Definition EvidenceRecord_new (phase : EvidencePhase.t) (at_wall_ms policy_generation : Z)
    (privacy : Privacy.t) : EvidenceRecord :=
  {| er_phase := phase; er_at_wall_ms := at_wall_ms;
     er_policy_generation := policy_generation; er_commitment := None; er_agent := None;
     er_run := None; er_kind := None; er_class := None; er_operation := None; er_target := None;
     er_target_digest := None; er_parameters_digest := None; er_approval := None;
     er_started_wall_ms := None; er_finished_wall_ms := None; er_outcome := None;
     er_failure := None; er_cancelled := false; er_detail := []; er_privacy := privacy;
     er_sealed := false |}.

(** [record.detail.push]. *)
Definition push_detail (key value : str) (r : EvidenceRecord) : EvidenceRecord :=
  r <| er_detail := er_detail r ++ [(key, value)] |>.

Section Records.
Context {crates : Crates}.

Definition TEXT_DOMAIN : str := lit "nexus.evidence.text.v1".
Definition text_digest (text : str) : str :=
  Digest_to_hex (Digest_of TEXT_DOMAIN [as_bytes text]).

(** What of one detail entry a restricted record keeps. *)
Definition seal_entry (kv : str * str) : str * str :=
  if match registered kv.1 with Some kept => admits kept kv.2 | None => false end
  then kv else (kv.1 ++ lit "_sha256", text_digest kv.2).

Definition seal (r : EvidenceRecord) : EvidenceRecord :=
  let was := er_sealed r in
  let r := r <| er_sealed := true |> in
  if was || bool_decide (er_privacy r = Privacy.Owner) then r
  else r <| er_target := None |> <| er_detail := seal_entry <$> er_detail r |>.

(** The [detail] member of [to_json]: a map, the last entry of a key stays. *)
Definition json_detail (r : EvidenceRecord) : gmap str str :=
  foldl (λ m kv, <[bounded kv.1 := bounded kv.2]> m) ∅ (take MAX_DETAIL (er_detail r)).
End Records.

(** Where evidence goes: a gating record is taken with its sequence number or
    refused, an end record always has a status; the answers may depend on
    anything. [write_record] and [write_end] seal first. *)
Class EvidenceSink (S : Type) := {
  sink_record : EvidenceRecord → S → option Z * S;
  sink_record_end : EvidenceRecord → S → EndStatus.t * S;
}.

Section Sink.
Context {crates : Crates} {S : Type} {sink : EvidenceSink S}.

Definition write_record (r : EvidenceRecord) (s : S) : option Z * S := sink_record (seal r) s.
Definition write_end (r : EvidenceRecord) (s : S) : EndStatus.t * S := sink_record_end (seal r) s.
End Sink.

(** ** Decimal numbers *)

Definition digits (s : str) : Prop := Forall (λ c, is_ascii_digit c = true) s.

Lemma as_bytes_digits s : forallb is_ascii_digit (as_bytes s) = true ↔ digits s.
Proof.
  rewrite <- Is_true_true, forallb_True. unfold as_bytes, digits. rewrite Forall_bind.
  apply Forall_proper; [|done]. intros c. simpl. unfold utf8_char, is_ascii_digit.
  repeat case_match; rewrite ?Forall_cons, ?Forall_nil, ?Is_true_true, ?andb_true_iff, ?Z.leb_le;
    [naive_solver|..]; (split; [|lia]); intros [[_ H'] _]; Z.to_euclidean_division_equations; lia.
Qed.

Lemma digits_ascii s : digits s → is_ascii s.
Proof. intros H. eapply Forall_impl; [exact H|]. unfold is_ascii_digit. simpl. lia. Qed.

Lemma digits_len s : digits s → str_len s = Z.of_nat (length s).
Proof. intros H. unfold str_len. by rewrite as_bytes_ascii by by apply digits_ascii. Qed.

Lemma u64_value_app s t : u64_value (s ++ t) = foldl (λ v c, 10 * v + (c - 48)) (u64_value s) t.
Proof. apply foldl_app. Qed.

Lemma u64_value_zeros n s : u64_value (replicate n 48 ++ s) = u64_value s.
Proof.
  unfold u64_value. induction n as [|n IH]; [done|]. simpl. exact IH.
Qed.

Lemma u64_value_nonneg s : digits s → 0 ≤ u64_value s.
Proof.
  unfold digits. induction s as [|c s IH] using rev_ind; [done|].
  rewrite Forall_app, Forall_singleton, u64_value_app. intros [Hs Hc].
  apply IH in Hs. simpl. unfold is_ascii_digit in Hc. lia.
Qed.

(** The digits [decimal_from] puts before [acc]. *)
Lemma decimal_from_spec fuel n acc :
  0 ≤ n < 10 ^ Z.of_nat (S fuel) →
  ∃ ds, decimal_from (S fuel) n acc = ds ++ acc ∧ u64_value ds = n ∧ digits ds ∧
    (1 ≤ length ds ≤ S fuel)%nat.
Proof.
  revert n acc. induction fuel as [|fuel IH]; intros n acc Hn.
  - exists [48 + n mod 10]. change (10 ^ Z.of_nat 1) with 10 in Hn.
    change (decimal_from 1 n acc) with
      (if n / 10 =? 0 then 48 + n mod 10 :: acc else 48 + n mod 10 :: acc).
    destruct (n / 10 =? 0); (split; [done|]); unfold digits, u64_value, is_ascii_digit; simpl;
      rewrite Forall_singleton; Z.to_euclidean_division_equations; lia.
  - change (decimal_from (S (S fuel)) n acc) with
      (if n / 10 =? 0 then 48 + n mod 10 :: acc
       else decimal_from (S fuel) (n / 10) (48 + n mod 10 :: acc)).
    assert (Hd : is_ascii_digit (48 + n mod 10) = true)
      by (unfold is_ascii_digit; Z.to_euclidean_division_equations; lia).
    destruct (Z.eqb_spec (n / 10) 0) as [H0|H0].
    + exists [48 + n mod 10]. split; [done|]. unfold digits, u64_value. simpl.
      rewrite Forall_singleton. repeat split; try done; Z.to_euclidean_division_equations; lia.
    + destruct (IH (n / 10) (48 + n mod 10 :: acc)) as (ds & -> & Hv & Hds & Hl).
      { rewrite Nat2Z.inj_succ, Z.pow_succ_r in Hn by lia.
        split; [apply Z.div_pos; lia | apply Z.div_lt_upper_bound; lia]. }
      exists (ds ++ [48 + n mod 10]). rewrite <- app_assoc. split; [done|].
      rewrite u64_value_app, Hv, length_app. unfold digits in *.
      rewrite Forall_app, Forall_singleton. simpl.
      repeat split; try done; Z.to_euclidean_division_equations; lia.
Qed.

Lemma u64_to_string_spec n :
  0 ≤ n ≤ u64_max →
  u64_value (u64_to_string n) = n ∧ digits (u64_to_string n) ∧
  (1 ≤ length (u64_to_string n) ≤ 20)%nat.
Proof.
  intros Hn. unfold u64_to_string, u64_max in *.
  destruct (decimal_from_spec 19 n []) as (ds & -> & Hv & Hd & Hl).
  { change (10 ^ Z.of_nat 20) with 100000000000000000000. lia. }
  by rewrite app_nil_r.
Qed.

Lemma is_count_iff value :
  is_count value = true ↔ ∃ n, 0 ≤ n ≤ u64_max ∧ value = u64_to_string n.
Proof.
  unfold is_count, parse_u64. rewrite !andb_true_iff, as_bytes_digits, negb_true_iff.
  rewrite bool_decide_eq_false. split.
  - intros [[[_ _] Hd] H]. destruct (Z.leb_spec (u64_value value) u64_max); [|done].
    apply bool_decide_eq_true in H. exists (u64_value value).
    split; [|done]. split; [by apply u64_value_nonneg|lia].
  - intros (n & Hn & ->). destruct (u64_to_string_spec n Hn) as (Hv & Hd & Hl).
    rewrite digits_len, Hv by done. destruct (Z.leb_spec n u64_max); [|lia].
    rewrite bool_decide_eq_true. repeat split; try done; [|lia].
    intros E. rewrite E in Hl. simpl in Hl. lia.
Qed.

Definition mission_id (n : Z) : str := lit "msn-" ++ pad6 (u64_to_string n).

Lemma pad6_spec s : (1 ≤ length s ≤ 20)%nat → digits s →
  digits (pad6 s) ∧ u64_value (pad6 s) = u64_value s ∧ (6 ≤ length (pad6 s) ≤ 20)%nat.
Proof.
  intros Hl Hd. unfold pad6, digits in *. rewrite u64_value_zeros, length_app, length_replicate.
  split; [|split; [done|lia]]. apply Forall_app. split; [by apply Forall_replicate|done].
Qed.

Lemma is_mission_id_iff text :
  is_mission_id text = true ↔ ∃ n, 0 ≤ n ≤ u64_max ∧ text = mission_id n.
Proof.
  unfold is_mission_id, mission_id, parse_u64. split.
  - destruct (strip_prefix (lit "msn-") text) as [ds|] eqn:E; [|done].
    apply strip_prefix_Some in E as ->. rewrite !andb_true_iff, as_bytes_digits.
    intros [[_ Hd] H]. destruct (Z.leb_spec (u64_value ds) u64_max); [|done].
    apply bool_decide_eq_true in H. exists (u64_value ds). rewrite H.
    split; [|done]. split; [by apply u64_value_nonneg|lia].
  - intros (n & Hn & ->). rewrite strip_prefix_app.
    destruct (u64_to_string_spec n Hn) as (Hv & Hd & Hl).
    destruct (pad6_spec _ Hl Hd) as (Hpd & Hpv & Hpl).
    rewrite digits_len, Hpv, Hv by done. destruct (Z.leb_spec n u64_max); [|lia].
    rewrite !andb_true_iff, as_bytes_digits, bool_decide_eq_true.
    repeat split; try done; lia.
Qed.

Lemma split_on_join sep s : join [sep] (split_on sep s) = s.
Proof.
  induction s as [|c s IH]; [done|]. simpl. destruct (Z.eqb_spec c sep) as [->|].
  - destruct (split_on sep s) as [|p ps] eqn:E; [by destruct s; simpl in E; repeat case_match|].
    change (sep :: join [sep] (p :: ps) = sep :: s). by rewrite IH.
  - destruct (split_on sep s) as [|p ps]; simpl in IH |- *; [by subst|].
    destruct ps; by rewrite <- IH.
Qed.

Lemma split_on_none sep p : sep ∉ p → split_on sep p = [p].
Proof.
  induction p as [|c p IH]; [done|]. rewrite not_elem_of_cons. intros [Hc Hp]. simpl.
  destruct (Z.eqb_spec c sep); [by subst|]. by rewrite IH.
Qed.

Lemma split_on_first sep p r : sep ∉ p → split_on sep (p ++ sep :: r) = p :: split_on sep r.
Proof.
  induction p as [|c p IH]; simpl; [by rewrite Z.eqb_refl|]. rewrite not_elem_of_cons.
  intros [Hc Hp]. destruct (Z.eqb_spec c sep); [by subst|]. by rewrite IH.
Qed.

Lemma digits_no_slash s : digits s → 47 ∉ s.
Proof. unfold digits. rewrite Forall_forall. intros H Hin. by apply H in Hin. Qed.

Lemma mission_id_no_slash n : 0 ≤ n ≤ u64_max → 47 ∉ mission_id n.
Proof.
  intros Hn. destruct (u64_to_string_spec n Hn) as (_ & Hd & Hl).
  destruct (pad6_spec _ Hl Hd) as (Hp & _ & _). unfold mission_id.
  rewrite elem_of_app. intros [H|H]; [|by apply digits_no_slash in H].
  by apply (bool_decide_pack _) in H.
Qed.

Lemma is_mission_request_iff text :
  is_mission_request text = true ↔
  ∃ n seq number, 0 ≤ n ≤ u64_max ∧ 0 ≤ seq ≤ u64_max ∧ 0 ≤ number ≤ u64_max ∧
    text = mission_id n ++ [47] ++ u64_to_string seq ++ [47] ++ u64_to_string number.
Proof.
  unfold is_mission_request. split.
  - destruct (split_on 47 text) as [|m [|s [|k [|]]]] eqn:E; try done.
    rewrite !andb_true_iff, is_mission_id_iff, !is_count_iff.
    intros [[(n & Hn & ->) (a & Ha & ->)] (b & Hb & ->)]. exists n, a, b.
    split_and!; try lia. by rewrite <- (split_on_join 47 text), E.
  - intros (n & a & b & Hn & Ha & Hb & ->). cbn [app].
    destruct (u64_to_string_spec a Ha) as (_ & Hda & _).
    destruct (u64_to_string_spec b Hb) as (_ & Hdb & _).
    rewrite split_on_first by by apply mission_id_no_slash.
    rewrite split_on_first by by apply digits_no_slash.
    rewrite split_on_none by by apply digits_no_slash.
    rewrite !andb_true_iff, is_mission_id_iff, !is_count_iff. split_and!; eauto.
Qed.

(** ** What a restricted record keeps *)

Definition hex_text (n : nat) (h : str) : Prop :=
  length h = n ∧ Forall (λ b, (48 ≤ b ≤ 57) ∨ (97 ≤ b ≤ 102)) h.

(** The values a registered key keeps, by its class. *)
Definition kept_text (kept : Kept) (v : str) : Prop :=
  match kept with
  | Count => ∃ n, 0 ≤ n ≤ u64_max ∧ v = u64_to_string n
  | Lease => ∃ h, v = lit "lease-" ++ h ∧ hex_text 32 h
  | Door => hex_text 32 v
  | Sha256 => hex_text 64 v
  | Mission => ∃ n, 0 ≤ n ≤ u64_max ∧ v = mission_id n
  | Request =>
      ∃ n seq number, 0 ≤ n ≤ u64_max ∧ 0 ≤ seq ≤ u64_max ∧ 0 ≤ number ≤ u64_max ∧
        v = mission_id n ++ [47] ++ u64_to_string seq ++ [47] ++ u64_to_string number
  | Code codes => v ∈ codes
  end.

Lemma is_lower_hex_iff text n : is_lower_hex text (Z.of_nat n) = true ↔ hex_text n text.
Proof.
  unfold is_lower_hex, hex_text, str_len. rewrite andb_true_iff, Z.eqb_eq, Nat2Z.inj_iff.
  set (hexb b := is_ascii_digit b || ((97 <=? b) && (b <=? 102))).
  assert (Hb : forallb hexb (as_bytes text) = true ↔ Forall (λ b, (48 ≤ b ≤ 57) ∨ (97 ≤ b ≤ 102)) text).
  { rewrite <- Is_true_true, forallb_True. unfold as_bytes. rewrite Forall_bind.
    apply Forall_proper; [|done]. intros c. simpl.
    unfold utf8_char, hexb, is_ascii_digit.
    repeat case_match;
      rewrite ?Forall_cons, ?Forall_nil, ?Is_true_true, ?orb_true_iff, ?andb_true_iff, ?Z.leb_le;
      [naive_solver|..]; (split; [|lia]); intros [H' _]; Z.to_euclidean_division_equations; lia. }
  rewrite Hb. split; intros [Hl Hf]; (split; [|done]); rewrite as_bytes_ascii in *; try done;
    (eapply Forall_impl; [exact Hf|simpl; lia]).
Qed.

Lemma admits_iff kept v : admits kept v = true ↔ kept_text kept v.
Proof.
  destruct kept; cbn [admits kept_text].
  - apply is_count_iff.
  - destruct (strip_prefix (lit "lease-") v) as [h|] eqn:E.
    + apply strip_prefix_Some in E as ->. rewrite (is_lower_hex_iff h 32). split; [by eauto|].
      intros (h' & E & H). apply app_inv_head in E. by subst.
    + split; [done|]. intros (h & -> & _). by rewrite strip_prefix_app in E.
  - apply (is_lower_hex_iff v 32).
  - apply (is_lower_hex_iff v 64).
  - apply is_mission_id_iff.
  - apply is_mission_request_iff.
  - apply bool_decide_eq_true.
Qed.

(** Every error's class is a registered reason. *)
Lemma class_registered e : AuthorityError.class e ∈ REASONS.
Proof.
  assert (Hmem : ∀ s, existsb (λ r, bool_decide (r = s)) REASONS = true → s ∈ REASONS).
  { intros s (r & Hr & <-%bool_decide_eq_true)%existsb_exists. by apply list_elem_of_In. }
  induction e as [| | | | | | | | | | | | | | | | | | | | | | | | | | | | | | | | | |m| | | | | | | | |];
    [..|assumption]; apply Hmem; [..|destruct m| | | | | | | |]; vm_compute; reflexivity.
Qed.

Section Sealing.
Context {crates : Crates}.

(** A detail entry a restricted record may show as it is. *)
Definition kept_entry (kv : str * str) : Prop :=
  ∃ kept, registered kv.1 = Some kept ∧ kept_text kept kv.2.

Lemma seal_entry_spec kv :
  (kept_entry kv ∧ seal_entry kv = kv) ∨
  (¬ kept_entry kv ∧ seal_entry kv = (kv.1 ++ lit "_sha256", text_digest kv.2)).
Proof.
  unfold seal_entry, kept_entry. destruct (registered kv.1) as [kept|]; [|naive_solver].
  pose proof (admits_iff kept kv.2) as Hk.
  destruct (admits kept kv.2) eqn:E; [left; naive_solver|right].
  split; [|done]. intros (k & [= <-] & H). by apply Hk in H.
Qed.

(** Two records that differ only in what sealing hides. *)
Definition hides (kv1 kv2 : str * str) : Prop :=
  kv1 = kv2 ∨
  (kv1.1 = kv2.1 ∧ ¬ kept_entry kv1 ∧ ¬ kept_entry kv2 ∧ text_digest kv1.2 = text_digest kv2.2).

Lemma seal_entry_hides kv1 kv2 : hides kv1 kv2 → seal_entry kv1 = seal_entry kv2.
Proof.
  intros [->|(Hk & H1 & H2 & Hd)]; [done|].
  destruct (seal_entry_spec kv1) as [[? _]|[_ ->]]; [done|].
  destruct (seal_entry_spec kv2) as [[? _]|[_ ->]]; [done|]. by rewrite Hk, Hd.
Qed.

(** A restricted record that reaches a sink holds no target text, and each of
    its details is kept as written exactly when its key is registered and its value
    is of that key's class (a canonical number, a digest, an id, one of the codes);
    every other value is replaced by its digest. Sealing is done once, an Owner's
    record is kept as written, and records that differ only in hidden text with
    equal digests are sealed alike. *)
Theorem seal_keeps_evidence_only (r : EvidenceRecord) (Hs : er_sealed r = false) :
  seal (seal r) = seal r ∧
  (er_privacy r = Privacy.Owner → seal r = r <| er_sealed := true |>) ∧
  (er_privacy r = Privacy.Restricted →
     er_target (seal r) = None ∧
     Forall2 (λ kv kv', (kept_entry kv ∧ kv' = kv) ∨
       (¬ kept_entry kv ∧ kv' = (kv.1 ++ lit "_sha256", text_digest kv.2)))
       (er_detail r) (er_detail (seal r)) ∧
     seal r = r <| er_sealed := true |> <| er_target := None |> <| er_detail := er_detail (seal r) |> ∧
     (∀ target detail, Forall2 hides (er_detail r) detail →
       seal (r <| er_target := target |> <| er_detail := detail |>) = seal r)).
Proof.
  destruct r as [? ? ? ? ? ? ? ? ? ? ? ? ? ? ? ? ? ? detail [] sealed]; simpl in Hs; subst.
  - split_and!; done.
  - split_and!; [done..|]. intros _. split_and!; [done| |done|].
    + apply Forall2_fmap_r, Forall_Forall2_diag, Forall_forall. intros kv _. apply seal_entry_spec.
    + intros target detail' H.
      assert (E : seal_entry <$> detail = seal_entry <$> detail').
      { clear -H. cbn in H. induction H as [|kv1 kv2 l1 l2 Hh _ IH]; [done|].
        apply seal_entry_hides in Hh.
        change (seal_entry kv1 :: (seal_entry <$> l1) = seal_entry kv2 :: (seal_entry <$> l2)).
        by rewrite Hh, IH. }
      unfold seal. cbn. by rewrite E.
Qed.
End Sealing.

(** ** Samples *)

Module SampleCrates.
(** Any functions serve: a digest that keeps the first bytes, and hexadecimal. *)
Definition nibble (n : Z) : Z := if n <? 10 then 48 + n else 87 + n.
Definition crates : Crates :=
  {| sha2 := λ b, take 32 (b ++ replicate 32 0);
     hex_encode := λ b, b ≫= λ x, [nibble (x / 16); nibble (x mod 16)] |}.
(** A sink that takes every record, the latest first. *)
Definition sink : EvidenceSink (list EvidenceRecord) :=
  {| sink_record := λ r s, (Some (Z.of_nat (length s)), r :: s);
     sink_record_end := λ r s, (EndStatus.Recorded (Z.of_nat (length s)), r :: s) |}.

(** An agent's record with a code, a free text and a target. *)
Definition record : EvidenceRecord :=
  push_detail (lit "note") (lit "private") (push_detail (lit "op") (lit "create")
    (EvidenceRecord_new EvidencePhase.Started 7 1 Privacy.Restricted)) <| er_target := Some (lit "a path") |>.

Lemma seal_keeps_evidence_only_witness :
  er_target (@seal crates record) = None ∧
  er_detail (@seal crates record) =
    [(lit "op", lit "create"); (lit "note_sha256", @text_digest crates (lit "private"))].
Proof.
  split; [|vm_compute; reflexivity].
  apply (@seal_keeps_evidence_only crates record); reflexivity.
Defined.
End SampleCrates.
