(* ===== verification/AuthText.v ===== *)
(** * What the Owner is shown

    The display text of [authority/evidence.rs]
    ([crates/nexus-governed-control/src]): [escaped] makes a text plain without
    losing anything of it, [wrapped] and [quoted] break it into lines the
    confirmation window shows whole. The extended grapheme clusters of a text come
    from a crate ([unicode_segmentation]): the operation of [Graphemes]; what is
    used of it is that the clusters of a text, joined, are the text. *)

From S2P Require Import Prelude AuthBase.

Local Open Scope Z_scope.
#[local] Arguments lit : simpl never.

Definition DIALOG_COLUMNS : nat := 96.

(** [char::escape_unicode] and [char::escape_default]. *)
Fixpoint hex_from (fuel : nat) (n : Z) (acc : str) : str :=
  match fuel with
  | O => acc
  | S f =>
      let d := n mod 16 in
      let acc := (if d <? 10 then 48 + d else 87 + d) :: acc in
      if n / 16 =? 0 then acc else hex_from f (n / 16) acc
  end.
Definition hex_digits (n : Z) : str := hex_from 6 n [].
Definition escape_unicode (c : Z) : str := [92; 117; 123] ++ hex_digits c ++ [125].
Definition escape_default (c : Z) : str :=
  if c =? 9 then [92; 116]
  else if c =? 13 then [92; 114]
  else if c =? 10 then [92; 110]
  else if (c =? 39) || (c =? 34) || (c =? 92) then [92; c]
  else if (32 <=? c) && (c <=? 126) then [c]
  else escape_unicode c.

(** The character at [index] of its cluster. *)
Definition escape_char (index : nat) (c : Z) : str :=
  if c =? 92 then [92; 92]
  else if shown c && (index <? 3)%nat then [c]
  else if (c =? 34) || (c =? 39) then escape_unicode c
  else escape_default c.

Definition escape_cluster (cluster : str) : str := concat (imap escape_char cluster).

(** [slice::chunks] of a positive size. *)
Fixpoint chunks_from {A} (fuel n : nat) (l : list A) : list (list A) :=
  match fuel, l with
  | S f, _ :: _ => take n l :: chunks_from f n (drop n l)
  | _, _ => []
  end.
Definition chunks {A} (n : nat) (l : list A) : list (list A) := chunks_from (length l) n l.

Class Graphemes := {
  graphemes : str → list str;
}.
(** What the crate promises of it. *)
Class GraphemesOk (g : Graphemes) : Prop :=
  graphemes_concat : ∀ text, concat (graphemes text) = text.

Section Display.
Context {g : Graphemes}.

Definition escaped (text : str) : str := concat (escape_cluster <$> graphemes text).

(** The lines of [chars], the first [first] characters wide and the others
    [rest], after their marks. *)
Definition broken (mark more : str) (first rest : nat) (chars : str) : list str :=
  (mark ++ take first chars) :: ((λ chunk, more ++ chunk) <$> chunks rest (drop first chars)).

Definition wrapped (text : str) : list str :=
  broken [] [0x21B3; 32] DIALOG_COLUMNS (DIALOG_COLUMNS - 2) (escaped text).

Definition quoted (label text : str) : list str :=
  (label ++ [58]) ::
  (split_on 10 text ≫= λ line,
     broken [0x2502; 32] [0x2502; 0x21B3; 32] (DIALOG_COLUMNS - 2) (DIALOG_COLUMNS - 3)
       (escaped line)).

Definition hint (text : str) : str :=
  let chars := escaped text in
  if (length chars <=? 64)%nat then chars else take 63 chars ++ [0x2026].
End Display.

(** ** Reading the shown text back *)

Definition hex_value (c : Z) : option Z :=
  if (48 <=? c) && (c <=? 57) then Some (c - 48)
  else if (97 <=? c) && (c <=? 102) then Some (c - 87) else None.

(** A reader of escapes: a backslash, then itself, a letter, a quote or a
    hexadecimal number in braces. *)
Inductive Escape :=
| Plain
| Backslash
| Open
| Hex (value : Z).

Definition unescape_char (c : Z) : option Z :=
  if c =? 92 then Some 92 else if c =? 116 then Some 9 else if c =? 114 then Some 13
  else if c =? 110 then Some 10 else if c =? 39 then Some 39 else if c =? 34 then Some 34 else None.

Fixpoint unescape (mode : Escape) (s : str) : option str :=
  match s with
  | [] => match mode with Plain => Some [] | _ => None end
  | c :: s =>
      match mode with
      | Plain => if c =? 92 then unescape Backslash s else cons c <$> unescape Plain s
      | Backslash =>
          if c =? 117 then unescape Open s
          else match unescape_char c with Some d => cons d <$> unescape Plain s | None => None end
      | Open => if c =? 123 then unescape (Hex 0) s else None
      | Hex v =>
          if c =? 125 then cons v <$> unescape Plain s
          else match hex_value c with Some d => unescape (Hex (16 * v + d)) s | None => None end
      end
  end.

Definition hex_digit (c : Z) : Prop := 48 ≤ c ≤ 57 ∨ 97 ≤ c ≤ 102.

Lemma hex_digit_value d :
  0 ≤ d < 16 →
  hex_value (if d <? 10 then 48 + d else 87 + d) = Some d ∧
  hex_digit (if d <? 10 then 48 + d else 87 + d).
Proof.
  intros Hd. unfold hex_value, hex_digit. destruct (Z.ltb_spec d 10).
  - destruct (Z.leb_spec 48 (48 + d)), (Z.leb_spec (48 + d) 57); simpl; try lia. split; [f_equal|]; lia.
  - destruct (Z.leb_spec 48 (87 + d)), (Z.leb_spec (87 + d) 57); simpl; try lia.
    destruct (Z.leb_spec 97 (87 + d)), (Z.leb_spec (87 + d) 102); simpl; try lia. split; [f_equal|]; lia.
Qed.

Lemma unescape_hex_digit d v rest :
  0 ≤ d < 16 →
  unescape (Hex v) ((if d <? 10 then 48 + d else 87 + d) :: rest) = unescape (Hex (16 * v + d)) rest.
Proof.
  intros Hd. destruct (hex_digit_value d Hd) as [Hv Hh]. cbn [unescape]. rewrite Hv.
  destruct (Z.eqb_spec (if d <? 10 then 48 + d else 87 + d) 125); [|done].
  unfold hex_digit in Hh. lia.
Qed.

(** The reader of a hexadecimal number written by [hex_from]. *)
Lemma hex_from_read fuel n acc :
  0 ≤ n < 16 ^ Z.of_nat (S fuel) →
  ∃ ds, hex_from (S fuel) n acc = ds ++ acc ∧ Forall hex_digit ds ∧
    ∀ rest, unescape (Hex 0) (ds ++ rest) = unescape (Hex n) rest.
Proof.
  revert n acc. induction fuel as [|fuel IH]; intros n acc Hn.
  - change (16 ^ Z.of_nat 1) with 16 in Hn.
    exists [if n mod 16 <? 10 then 48 + n mod 16 else 87 + n mod 16].
    assert (Hm : 0 ≤ n mod 16 < 16) by (apply Z.mod_pos_bound; lia).
    split; [by cbn; destruct (n / 16 =? 0)|]. split; [apply Forall_singleton, hex_digit_value; lia|].
    intros rest. cbn [app]. rewrite unescape_hex_digit by done. by rewrite Z.mod_small.
  - assert (Hm : 0 ≤ n mod 16 < 16) by (apply Z.mod_pos_bound; lia).
    set (d := if n mod 16 <? 10 then 48 + n mod 16 else 87 + n mod 16).
    change (hex_from (S (S fuel)) n acc) with
      (if n / 16 =? 0 then d :: acc else hex_from (S fuel) (n / 16) (d :: acc)).
    destruct (Z.eqb_spec (n / 16) 0) as [H0|H0].
    + exists [d]. split; [done|]. split; [apply Forall_singleton, hex_digit_value; lia|].
      intros rest. cbn [app]. unfold d. rewrite unescape_hex_digit by done.
      do 2 f_equal. Z.to_euclidean_division_equations; lia.
    + destruct (IH (n / 16) (d :: acc)) as (ds & E & Hds & Hr).
      { rewrite Nat2Z.inj_succ, Z.pow_succ_r in Hn by lia.
        split; [apply Z.div_pos; lia | apply Z.div_lt_upper_bound; lia]. }
      exists (ds ++ [d]). rewrite E, <- app_assoc. split; [done|].
      split; [apply Forall_app; split; [done|apply Forall_singleton, hex_digit_value; lia]|].
      intros rest. rewrite <- app_assoc, Hr. cbn [app]. unfold d. rewrite unescape_hex_digit by done.
      do 2 f_equal. Z.to_euclidean_division_equations; lia.
Qed.

Lemma unescape_unicode c rest :
  is_scalar c → unescape Plain (escape_unicode c ++ rest) = cons c <$> unescape Plain rest.
Proof.
  intros Hc. unfold escape_unicode, hex_digits.
  destruct (hex_from_read 5 c []) as (ds & E & _ & Hr).
  { unfold is_scalar in Hc. change (16 ^ Z.of_nat 6) with 16777216. lia. }
  rewrite E, app_nil_r, <- !app_assoc. cbn. exact (Hr _).
Qed.

Lemma unescape_escape_char index c rest :
  is_scalar c → unescape Plain (escape_char index c ++ rest) = cons c <$> unescape Plain rest.
Proof.
  intros Hc. unfold escape_char. destruct (Z.eqb_spec c 92) as [->|H92]; [done|].
  destruct (shown c && _).
  { cbn. by destruct (Z.eqb_spec c 92). }
  destruct ((c =? 34) || (c =? 39)) eqn:Hq; [by apply unescape_unicode|].
  unfold escape_default. destruct (Z.eqb_spec c 9) as [->|]; [done|].
  destruct (Z.eqb_spec c 13) as [->|]; [done|]. destruct (Z.eqb_spec c 10) as [->|]; [done|].
  destruct ((c =? 39) || (c =? 34) || (c =? 92)) eqn:Hq2; [lia|].
  destruct (_ && _); [|by apply unescape_unicode]. cbn. by destruct (Z.eqb_spec c 92).
Qed.

Lemma unescape_cluster cluster index rest :
  is_text_str cluster →
  unescape Plain (concat (imap (λ i, escape_char (index + i)) cluster) ++ rest) =
  app cluster <$> unescape Plain rest.
Proof.
  intros H. revert index. induction H as [|c cluster Hc _ IH]; intros index.
  { simpl. by destruct (unescape Plain rest). }
  rewrite imap_cons. cbn [concat]. rewrite <- app_assoc, unescape_escape_char by done.
  unfold compose. rewrite (imap_ext _ (λ i, escape_char (S index + i)))
    by (intros; f_equal; lia). rewrite IH. by destruct (unescape Plain rest).
Qed.

(** ** Lines *)

Lemma chunks_from_spec {A} fuel n (l : list A) :
  (0 < n)%nat → (length l ≤ fuel)%nat →
  concat (chunks_from fuel n l) = l ∧ Forall (λ x, length x ≤ n)%nat (chunks_from fuel n l).
Proof.
  intros Hn. revert l. induction fuel as [|fuel IH]; intros l Hl.
  - destruct l; simpl in *; [done|lia].
  - destruct l as [|a l]; [done|]. cbn [chunks_from]. destruct (IH (drop n (a :: l))) as [IH1 IH2].
    { rewrite length_drop. cbn in *. lia. }
    split; [cbn [concat]; by rewrite IH1, take_drop|].
    constructor; [rewrite length_take; lia|done].
Qed.

Lemma chunks_spec {A} n (l : list A) :
  (0 < n)%nat → concat (chunks n l) = l ∧ Forall (λ x, length x ≤ n)%nat (chunks n l).
Proof. intros Hn. by apply chunks_from_spec. Qed.

(** The characters of broken lines, without their marks. *)
Definition unbroken (mark more : nat) (lines : list str) : str :=
  match lines with
  | [] => []
  | l :: ls => drop mark l ++ concat (drop more <$> ls)
  end.

Lemma unbroken_broken mark more first rest chars :
  (0 < rest)%nat →
  unbroken (length mark) (length more) (broken mark more first rest chars) = chars.
Proof.
  intros Hr. unfold unbroken, broken. rewrite drop_app_length. rewrite <- list_fmap_compose.
  replace ((drop (length more) ∘ λ chunk, more ++ chunk) <$> chunks rest (drop first chars))
    with (chunks rest (drop first chars)).
  - by rewrite (proj1 (chunks_spec rest (drop first chars) Hr)), take_drop.
  - symmetry. rewrite <- (list_fmap_id (chunks rest (drop first chars))) at 2.
    apply list_fmap_ext. intros i x _. simpl. apply drop_app_length.
Qed.

Lemma broken_lines mark more first rest chars :
  (0 < rest)%nat → Forall shown chars → Forall shown mark → Forall shown more →
  Forall (λ l, Forall shown l ∧ length l ≤ length mark + first ∨
               Forall shown l ∧ length l ≤ length more + rest)%nat
    (broken mark more first rest chars).
Proof.
  intros Hr Hc Hm Hmo. unfold broken. constructor.
  - left. split; [apply Forall_app; split; [done|by apply Forall_take]|].
    rewrite length_app, length_take. lia.
  - apply Forall_fmap. destruct (chunks_spec rest (drop first chars) Hr) as [Hcat Hlen].
    assert (Hs : Forall (Forall shown) (chunks rest (drop first chars))).
    { apply Forall_concat. rewrite Hcat. by apply Forall_drop. }
    rewrite Forall_forall in *. intros x Hx. right. simpl. rewrite length_app.
    split; [apply Forall_app; split; [done|by apply Hs]|]. specialize (Hlen x Hx). lia.
Qed.

(** Printable ASCII is shown as itself. *)
Lemma shown_printable c : 32 ≤ c ≤ 126 → shown c.
Proof.
  intros Hc. assert (H : forallb shown (seqZ 32 95) = true) by (vm_compute; reflexivity).
  apply Is_true_true. rewrite <- Is_true_true, forallb_True, Forall_forall in H.
  apply Is_true_true, H, elem_of_seqZ. lia.
Qed.

Lemma escape_unicode_shown c : is_scalar c → Forall shown (escape_unicode c).
Proof.
  intros Hc. unfold escape_unicode, hex_digits. destruct (hex_from_read 5 c []) as (ds & -> & Hds & _).
  { unfold is_scalar in Hc. change (16 ^ Z.of_nat 6) with 16777216. lia. }
  rewrite app_nil_r. rewrite !Forall_app. split; [|split].
  - repeat constructor; apply shown_printable; lia.
  - eapply Forall_impl; [exact Hds|]. unfold hex_digit. intros. apply shown_printable. lia.
  - repeat constructor; apply shown_printable; lia.
Qed.

Lemma shown_pair a b : shown a → 32 ≤ b ≤ 126 → Forall shown [a; b].
Proof. intros Ha Hb%shown_printable. by apply Forall_cons; split; [|apply Forall_singleton]. Qed.

Lemma escape_char_shown index c : is_scalar c → Forall shown (escape_char index c).
Proof.
  intros Hc. unfold escape_char, escape_default.
  assert (H92 : shown 92) by (apply shown_printable; lia).
  destruct (c =? 92); [by apply shown_pair|].
  destruct (shown c && _) eqn:Hs.
  { apply andb_true_iff in Hs as [Hs _]. constructor; [by apply Is_true_true|constructor]. }
  destruct ((c =? 34) || (c =? 39)); [by apply escape_unicode_shown|].
  destruct (c =? 9); [apply shown_pair; [done|lia]|].
  destruct (c =? 13); [apply shown_pair; [done|lia]|].
  destruct (c =? 10); [apply shown_pair; [done|lia]|].
  clear Hs. destruct (_ || _ || _) eqn:Hq; [apply shown_pair; [done|lia]|].
  destruct (_ && _) eqn:Hp; [|by apply escape_unicode_shown].
  apply Forall_singleton, shown_printable. lia.
Qed.

Section Shown.
Context {g : Graphemes} {gok : GraphemesOk g}.

Lemma clusters_text text : is_text_str text → Forall is_text_str (graphemes text).
Proof. intros H. apply Forall_concat. by rewrite graphemes_concat. Qed.

Lemma escaped_reads text rest :
  is_text_str text → unescape Plain (escaped text ++ rest) = app text <$> unescape Plain rest.
Proof.
  intros H. unfold escaped. rewrite <- (graphemes_concat text) at 2.
  induction (clusters_text text H) as [|cluster clusters Hc _ IH].
  { simpl. by destruct (unescape Plain rest). }
  csimpl. rewrite <- app_assoc. unfold escape_cluster at 1.
  rewrite (unescape_cluster cluster 0) by done. rewrite IH.
  destruct (unescape Plain rest); [|done]. simpl. by rewrite <- app_assoc.
Qed.

Lemma escaped_roundtrip text : is_text_str text → unescape Plain (escaped text) = Some text.
Proof.
  intros H. rewrite <- (app_nil_r (escaped text)), escaped_reads by done. simpl. by rewrite app_nil_r.
Qed.

Lemma escaped_inj t1 t2 : is_text_str t1 → is_text_str t2 → escaped t1 = escaped t2 → t1 = t2.
Proof.
  intros H1 H2 E. apply (f_equal (unescape Plain)) in E.
  rewrite !escaped_roundtrip in E by done. congruence.
Qed.

Lemma escaped_shown text : is_text_str text → Forall shown (escaped text).
Proof.
  intros H. unfold escaped. apply Forall_concat, Forall_fmap. eapply Forall_impl; [by apply clusters_text|].
  intros cluster Hc. simpl. unfold escape_cluster. apply Forall_concat, Forall_lookup_2.
  intros i x. rewrite list_lookup_imap. intros (c & Hx & ->)%fmap_Some.
  apply escape_char_shown. by eapply Forall_lookup_1.
Qed.

(** The lines of quoted text without their marks: a continuation belongs to the
    line before it. *)
Fixpoint unquote (lines : list str) : str * list str :=
  match lines with
  | [] => ([], [])
  | l :: ls =>
      let '(more, done) := unquote ls in
      match l with
      | 0x2502 :: 0x21B3 :: 32 :: t => (t ++ more, done)
      | 0x2502 :: 32 :: t => ([], (t ++ more) :: done)
      | _ => (more, done)
      end
  end.

Lemma unquote_broken first rest chars ls done :
  (0 < rest)%nat → unquote ls = ([], done) →
  unquote (broken [0x2502; 32] [0x2502; 0x21B3; 32] first rest chars ++ ls) = ([], chars :: done).
Proof.
  intros Hr Hls. unfold broken. cbn [app]. rewrite <- (take_drop first chars) at 3.
  destruct (chunks_spec rest (drop first chars) Hr) as [Hcat _]. rewrite <- Hcat at 2.
  assert (H : ∀ cs, unquote (((λ chunk, [0x2502; 0x21B3; 32] ++ chunk) <$> cs) ++ ls) =
    (concat cs, done)).
  { induction cs as [|x cs IH]; [exact Hls|].
    change (unquote ((0x2502 :: 0x21B3 :: 32 :: x) ::
      ((λ chunk, [0x2502; 0x21B3; 32] ++ chunk) <$> cs) ++ ls) = (x ++ concat cs, done)).
    cbn [unquote]. by rewrite IH. }
  cbn [unquote]. by rewrite H.
Qed.

Lemma unquote_quoted lines :
  unquote (lines ≫= λ line,
    broken [0x2502; 32] [0x2502; 0x21B3; 32] (DIALOG_COLUMNS - 2) (DIALOG_COLUMNS - 3) (escaped line)) =
  ([], escaped <$> lines).
Proof.
  induction lines as [|l lines IH]; [done|]. csimpl. apply unquote_broken; [unfold DIALOG_COLUMNS; lia|done].
Qed.

Lemma split_on_text sep s : is_text_str s → Forall is_text_str (split_on sep s).
Proof.
  unfold is_text_str. induction s as [|c s IH]; intros H; [by apply Forall_singleton|].
  apply Forall_cons in H as [Hc Hs]. specialize (IH Hs). cbn [split_on].
  destruct (c =? sep); [by apply Forall_cons|].
  destruct (split_on sep s) as [|p ps]; [by apply Forall_singleton, Forall_singleton|].
  apply Forall_cons in IH as [Hp Hps]. apply Forall_cons. split; [by apply Forall_cons|done].
Qed.

Lemma broken_plain mark more first rest text :
  (0 < rest)%nat → (length mark + first ≤ DIALOG_COLUMNS)%nat →
  (length more + rest ≤ DIALOG_COLUMNS)%nat → Forall shown mark → Forall shown more →
  is_text_str text →
  Forall (λ l, is_plain l ∧ length l ≤ DIALOG_COLUMNS)%nat (broken mark more first rest (escaped text)).
Proof.
  intros Hr H1 H2 Hm Hmo Ht. eapply Forall_impl.
  - apply broken_lines; [done|by apply escaped_shown|done|done].
  - intros l Hl. assert (Hs : Forall shown l ∧ (length l ≤ DIALOG_COLUMNS)%nat)
      by (destruct Hl as [[? ?]|[? ?]]; split; [done|lia|done|lia]).
    destruct Hs as [Hs Hlen]. split; [|done]. unfold is_plain. apply Is_true_true, andb_true_iff.
    split; [apply Nat.leb_le; unfold MAX_FIELD, DIALOG_COLUMNS in *; lia|].
    by rewrite <- Is_true_true, forallb_True.
Qed.

(** What the Owner is shown is the text: every line is plain and fits the
    window, nothing of the text is cut, and the lines determine it: what is shown
    reads back as exactly the text, and two texts that are shown alike, wrapped or
    quoted under any label, are equal. *)
Theorem text_shown_whole (text : str) (Htext : is_text_str text) :
  Forall (λ l, is_plain l ∧ length l ≤ DIALOG_COLUMNS)%nat (wrapped text) ∧
  unescape Plain (unbroken 0 2 (wrapped text)) = Some text ∧
  (∀ label, ∃ body, quoted label text = (label ++ [58]) :: body ∧
     Forall (λ l, is_plain l ∧ (length l ≤ DIALOG_COLUMNS)%nat ∧ head l = Some 0x2502) body ∧
     unquote body = ([], escaped <$> split_on 10 text)) ∧
  (∀ text' label label', is_text_str text' →
     wrapped text = wrapped text' ∨ quoted label text = quoted label' text' → text = text').
Proof.
  assert (Hmark : Forall shown [0x2502; 32; 0x21B3]) by (apply (bool_decide_unpack _); vm_compute; exact I).
  apply Forall_cons in Hmark as [Hbar Hmark]. apply Forall_cons in Hmark as [Hsp Harrow].
  apply Forall_singleton in Harrow.
  assert (Hw : ∀ t, unbroken 0 2 (wrapped t) = escaped t)
    by (intros t; apply (unbroken_broken [] [0x21B3; 32]); unfold DIALOG_COLUMNS; lia).
  assert (Hq : ∀ label t, ∃ body, quoted label t = (label ++ [58]) :: body ∧
    unquote body = ([], escaped <$> split_on 10 t)) by (intros; eexists; split; [done|apply unquote_quoted]).
  split_and!.
  - apply broken_plain; unfold DIALOG_COLUMNS; cbn [length]; try lia; try done;
      rewrite ?Forall_cons, ?Forall_nil; done.
  - rewrite Hw. by apply escaped_roundtrip.
  - intros label. eexists. split; [done|]. split; [|apply unquote_quoted].
    apply Forall_bind, Forall_forall. intros line Hline.
    assert (Hl : is_text_str line) by (pose proof (split_on_text 10 text Htext) as Hs; rewrite Forall_forall in Hs; auto).
    assert (Hb : Forall (λ l, is_plain l ∧ length l ≤ DIALOG_COLUMNS)%nat
      (broken [0x2502; 32] [0x2502; 0x21B3; 32] (DIALOG_COLUMNS - 2) (DIALOG_COLUMNS - 3) (escaped line)))
      by (apply broken_plain; unfold DIALOG_COLUMNS; cbn [length]; try lia; try done; rewrite ?Forall_cons, ?Forall_nil; done).
    unfold compose. apply Forall_forall. rewrite Forall_forall in Hb. intros l Hin.
    destruct (Hb l Hin) as [H1 H2]. split; [done|]. split; [done|].
    unfold broken in Hin. apply elem_of_cons in Hin as [->|(x & -> & _)%list_elem_of_fmap]; done.
  - intros text' label label' Ht' [E|E].
    + apply escaped_inj; [done|done|]. by rewrite <- !Hw, E.
    + destruct (Hq label text) as (b1 & E1 & U1). destruct (Hq label' text') as (b2 & E2 & U2).
      rewrite E1, E2 in E. injection E as _ ->. rewrite U1 in U2. injection U2 as U2.
      rewrite <- (split_on_join 10 text), <- (split_on_join 10 text'). f_equal.
      assert (Hinj : ∀ l1 l2, Forall is_text_str l1 → Forall is_text_str l2 →
        escaped <$> l1 = escaped <$> l2 → l1 = l2).
      { clear -gok. intros l1 l2 H1. revert l2. induction H1 as [|a l1 Ha _ IH]; intros [|b l2] H2 E;
          csimpl in E; try done. apply Forall_cons in H2 as [Hb H2]. injection E as E1 E2.
        f_equal; [by apply escaped_inj|by apply IH]. }
      by apply Hinj; [apply split_on_text..|].
Qed.
End Shown.

(** One character per cluster. *)
#[local] Instance single_graphemes : Graphemes := {| graphemes := λ text, (λ c, [c]) <$> text |}.
#[local] Instance single_graphemes_ok : GraphemesOk single_graphemes.
Proof.
  intros text. cbn. induction text as [|c text IH]; [done|]. csimpl. by rewrite IH.
Qed.

Lemma text_shown_whole_witness :
  unescape Plain (unbroken 0 2 (wrapped [97; 92; 10; 0x202E; 98])) = Some [97; 92; 10; 0x202E; 98].
Proof.
  apply (text_shown_whole [97; 92; 10; 0x202E; 98]).
  apply (bool_decide_unpack _). vm_compute. exact I.
Defined.
