(* ===== verification/HaltCell.v ===== *)
(** * The halt cell and the session word

    [authority/file_session.rs] and the word, the requests and the ingress of
    [host_session.rs] (with [begin_shutdown], [finish] and the seal of
    [host_session/close.rs]), in [crates/nexus-governed-control/src]. A cell is
    one 64-bit word shared by everything that may be denied through it: the low
    24 bits hold the first cause with its tag, the emergency history and the
    session's flags; the high 40 bits count ingresses. The writers are
    compare-and-exchange loops, so each acts in one step on the value it
    replaces. A host's request carries the word it was accepted at and admits
    only while the cell still holds it. *)

From S2P Require Import Prelude AuthBase.

Local Open Scope Z_scope.
Local Open Scope nexus_scope.

(** ** The word *)

Definition EMERGENCY : Z := 0x80.
Definition CAUSE : Z := 0x07.
Definition CLOSING : Z := 0x08.
Definition FAILED : Z := 0x10.
Definition SEALED : Z := 0x20.
Definition READY : Z := 0x40.
Definition EPOCH_STEP : Z := 0x1000000.
(** [!(EPOCH_STEP - 1)]. *)
Definition EPOCH_MASK : Z := u64_max - (EPOCH_STEP - 1).

(** [word & bits != 0]. *)
Definition has (word bits : Z) : bool := negb (Z.land word bits =? 0).

Module HaltCause.
Inductive t :=
| Stop
| Emergency
| TimeBudget
| Fence.

Definition code (c : t) : Z :=
  match c with Stop => 1 | Emergency => 2 | TimeBudget => 3 | Fence => 4 end.
Definition of_word (word : Z) : option t :=
  match Z.land word CAUSE with
  | 1 => Some Stop
  | 2 => Some Emergency
  | 3 => Some TimeBudget
  | 4 => Some Fence
  | _ => None
  end.
End HaltCause.
#[export] Instance HaltCause_eq_dec : EqDecision HaltCause.t.
Proof. solve_decision. Defined.

Module HaltTag.
Inductive t :=
| OwnerStop
| EmergencyStop
| TimeBudget
| DoorHalted
| Client (cause : HaltCause.t) (reason : Z).

Definition builtin (cause : HaltCause.t) : t :=
  match cause with
  | HaltCause.Stop => OwnerStop
  | HaltCause.Emergency => EmergencyStop
  | HaltCause.TimeBudget => TimeBudget
  | HaltCause.Fence => DoorHalted
  end.

Definition cause_tag (v : t) : HaltCause.t * Z :=
  match v with
  | OwnerStop => (HaltCause.Stop, u16_max)
  | EmergencyStop => (HaltCause.Emergency, u16_max - 1)
  | TimeBudget => (HaltCause.TimeBudget, u16_max - 2)
  | DoorHalted => (HaltCause.Fence, u16_max - 3)
  | Client cause reason => (cause, reason)
  end.
Definition bits (v : t) : Z :=
  let '(cause, tag) := cause_tag v in
  Z.lor (HaltCause.code cause) (Z.shiftl tag 8).
End HaltTag.

(** ** Sessions and requests ([host_session.rs]) *)

Module ScopeKind.
Inductive t :=
| Bootstrap
| Work
| Restoration
| CloseCleanup.
End ScopeKind.
#[export] Instance ScopeKind_eq_dec : EqDecision ScopeKind.t.
Proof. solve_decision. Defined.

Record MissionDeadlines := MkMissionDeadlines {
  md_clock : nat;
  md_mono : Z;
  md_wall : Z;
}.

(** [core] names the session's core, whose cell has the same name. Instants are
    nanoseconds. [admitted] is the count of [outcome::RequestFacts]. *)
Record RequestScope := MkScope {
  rs_core : nat;
  rs_request : Z;
  rs_snapshot : Z;
  rs_deadline : Z;
  rs_kind : ScopeKind.t;
  rs_next_step : Z;
  rs_admitted : Z;
  rs_mission_deadlines : option MissionDeadlines;
}.

Record CloseIdentity := MkCloseIdentity {
  ci_sequence : Z;
  ci_generation : Z;
  ci_deadline : Z;
}.

Record Core := MkCore {
  co_sequence : Z;
  co_pending_context : Z;
  co_undo_context : Z;
  co_close : option CloseIdentity;
  co_shutdown_nanos : Z;
  co_created : Z;
  co_stops_next : Z;
  co_stops_overflowed : bool;
}.

(** A cell's name, and how this handle of it admits. *)
Inductive CellMode :=
| Legacy
| Host (scope : option nat).
#[export] Instance CellMode_eq_dec : EqDecision CellMode.
Proof. solve_decision. Defined.
Record HaltCell := MkCell {
  hc_id : nat;
  hc_mode : CellMode;
}.
#[export] Instance HaltCell_eq_dec : EqDecision HaltCell.
Proof. solve_decision. Defined.

(** The words, the requests, the cores alive, and the clocks as they are read. *)
Record Cells := MkCells {
  words : gmap nat Z;
  scopes : gmap nat RequestScope;
  cores : gmap nat Core;
  instant : Z;
  clocks : gmap nat (Z * Z);
}.

Definition scope_eta (s : RequestScope) : RequestScope :=
  MkScope (rs_core s) (rs_request s) (rs_snapshot s) (rs_deadline s) (rs_kind s) (rs_next_step s)
    (rs_admitted s) (rs_mission_deadlines s).
#[export] Instance upd_rs_next_step : Update rs_next_step := ltac:(update_with scope_eta).
#[export] Instance upd_rs_admitted : Update rs_admitted := ltac:(update_with scope_eta).
#[export] Instance upd_rs_mission_deadlines : Update rs_mission_deadlines :=
  ltac:(update_with scope_eta).
Definition core_eta (c : Core) : Core :=
  MkCore (co_sequence c) (co_pending_context c) (co_undo_context c) (co_close c)
    (co_shutdown_nanos c) (co_created c) (co_stops_next c) (co_stops_overflowed c).
#[export] Instance upd_co_sequence : Update co_sequence := ltac:(update_with core_eta).
#[export] Instance upd_co_close : Update co_close := ltac:(update_with core_eta).
#[export] Instance upd_co_shutdown : Update co_shutdown_nanos := ltac:(update_with core_eta).
#[export] Instance upd_co_stops_next : Update co_stops_next := ltac:(update_with core_eta).
#[export] Instance upd_co_overflowed : Update co_stops_overflowed := ltac:(update_with core_eta).
Definition cells_eta (c : Cells) : Cells :=
  MkCells (words c) (scopes c) (cores c) (instant c) (clocks c).
#[export] Instance upd_words : Update words := ltac:(update_with cells_eta).
#[export] Instance upd_scopes : Update scopes := ltac:(update_with cells_eta).
#[export] Instance upd_cores : Update cores := ltac:(update_with cells_eta).

Definition session_word (id : nat) (c : Cells) : Z := default 0 (words c !! id).
Definition set_word (id : nat) (w : Z) (c : Cells) : Cells :=
  c <| words := <[id := w]> (words c) |>.
Definition host (cell : HaltCell) : bool :=
  match hc_mode cell with Host _ => true | Legacy => false end.
(** [Arc::ptr_eq] of the words. *)
Definition same (a b : HaltCell) : bool := (hc_id a =? hc_id b)%nat.

(** [HaltCell::update]: the exact comparison, and the latch. *)
Definition session_compare (id : nat) (old new : Z) (c : Cells) : result unit Z * Cells :=
  if session_word id c =? old then (Ok tt, set_word id new c)
  else (Err (session_word id c), c).

Definition latch_word (is_host : bool) (bits : Z) (emergency : bool) (old : Z) : option Z :=
  if is_host && has old SEALED then None
  else
    let epoch :=
      if is_host && negb emergency then Z.land old EPOCH_MASK
      else Z.land (saturating_add u64_max (Z.land old EPOCH_MASK) EPOCH_STEP) EPOCH_MASK in
    Some (Z.lor (Z.lor (Z.lor epoch (Z.land old (EPOCH_STEP - 1)))
                  (if emergency then EMERGENCY else 0))
            (if Z.land old CAUSE =? 0 then bits else 0)).
Definition latch (cell : HaltCell) (intent : HaltTag.t) (emergency : bool) (c : Cells) : Cells :=
  match latch_word (host cell) (HaltTag.bits intent) emergency (session_word (hc_id cell) c) with
  | Some new => set_word (hc_id cell) new c
  | None => c
  end.
Definition engage_tagged (cell : HaltCell) (intent : HaltTag.t) : Cells → Cells :=
  latch cell intent false.
Definition engage (cell : HaltCell) : Cells → Cells := engage_tagged cell HaltTag.OwnerStop.
Definition engage_with (cell : HaltCell) (cause : HaltCause.t) : Cells → Cells :=
  engage_tagged cell (HaltTag.builtin cause).
Definition engage_reason (cell : HaltCell) (cause : HaltCause.t) (reason : option Z)
    : Cells → Cells :=
  engage_tagged cell
    match reason with Some r => HaltTag.Client cause r | None => HaltTag.builtin cause end.
Definition engage_emergency (cell : HaltCell) : Cells → Cells :=
  latch cell HaltTag.EmergencyStop true.

(** ** A request's life *)

Definition deadlines_live (c : Cells) (d : MissionDeadlines) : bool :=
  let '(mono, wall) := default (0, 0) (clocks c !! md_clock d) in (mono <? md_mono d) && (wall <? md_wall d).

Definition eligible (c : Cells) (s : RequestScope) : bool :=
  let invalid :=
    bool_decide (cores c !! rs_core s = None) || (rs_deadline s <=? instant c) ||
    match rs_mission_deadlines s with Some d => negb (deadlines_live c d) | None => false end ||
    has (rs_snapshot s) (Z.lor FAILED (Z.lor SEALED EMERGENCY)) ||
    match rs_kind s with
    | ScopeKind.Bootstrap => has (rs_snapshot s) (Z.lor READY (Z.lor CLOSING 7))
    | ScopeKind.Work =>
        negb (Z.land (rs_snapshot s) (Z.lor READY (Z.lor CLOSING 7)) =? READY)
    | ScopeKind.Restoration => negb (Z.land (rs_snapshot s) (Z.lor READY CLOSING) =? READY)
    | ScopeKind.CloseCleanup =>
        negb (Z.land (rs_snapshot s) (Z.lor READY CLOSING) =? Z.lor READY CLOSING)
    end in
  negb invalid.

Definition scope_live (c : Cells) (s : RequestScope) (word : Z) : bool :=
  match rs_kind s with
  | ScopeKind.CloseCleanup =>
      (Z.land word EPOCH_MASK =? Z.land (rs_snapshot s) EPOCH_MASK) &&
      (Z.land word (Z.lor CLOSING (Z.lor FAILED (Z.lor SEALED EMERGENCY))) =? CLOSING)
  | _ => word =? rs_snapshot s
  end && eligible c s.

(** [begin_shutdown]: the first trigger's deadline, never refreshed. *)
Definition begin_shutdown (core : Core) (accepted : Z) : Core * Z :=
  let nanos := Z.min (accepted - co_created core) (u64_max - 3000000000) + 3000000000 in
  let first := if co_shutdown_nanos core =? 0 then nanos else co_shutdown_nanos core in
  (core <| co_shutdown_nanos := first |>, co_created core + first).

(** [OnceLock::get_or_init]. *)
Definition close_or (core : Core) (close : CloseIdentity) : Core * CloseIdentity :=
  match co_close core with
  | Some first => (core, first)
  | None => (core <| co_close := Some close |>, close)
  end.

(** [SessionIngress::fail] on the core [id]. *)
Definition ingress_fail (id : nat) (c : Cells) : Cells :=
  match cores c !! id with
  | None => c
  | Some core =>
      let old := session_word id c in
      if has old SEALED then c
      else
        let '(core, deadline) := begin_shutdown core (instant c) in
        if has old FAILED then c <| cores := <[id := core]> (cores c) |>
        else
          let '(core, _) :=
            close_or core (MkCloseIdentity (co_sequence core) (old / EPOCH_STEP) deadline) in
          set_word id (Z.lor old FAILED) (c <| cores := <[id := core]> (cores c) |>)
  end.

(** [RequestScope::fail] and [HaltCell::fail_session]. *)
Definition fail_session (cell : HaltCell) (c : Cells) : Cells :=
  match hc_mode cell with
  | Host (Some s) =>
      match scopes c !! s with Some scope => ingress_fail (rs_core scope) c | None => c end
  | _ => c
  end.

(** [RequestScope::admit] on the scope named [s], through a cell named [id]. *)
Definition scope_admit (s : nat) (scope : RequestScope) (id : nat) (c : Cells)
    : aresult unit * Cells :=
  if negb (eligible c scope) then (Err AuthorityError.Halted, c)
  else
    match checked_add u64_max (rs_next_step scope) 1 with
    | None => (Err AuthorityError.Capacity, ingress_fail (rs_core scope) c)
    | Some next =>
        let scope := scope <| rs_next_step := next |> in
        let c := c <| scopes := <[s := scope]> (scopes c) |> in
        let current := session_word id c in
        let cleanup := bool_decide (rs_kind scope = ScopeKind.CloseCleanup) in
        if cleanup && negb (scope_live c scope current) then (Err AuthorityError.Halted, c)
        else if negb (current =? (if cleanup then current else rs_snapshot scope))
        then (Err AuthorityError.Halted, c)
        else
          let scope := scope <| rs_admitted := rs_admitted scope + 1 |> in
          (Ok tt, c <| scopes := <[s := scope]> (scopes c) |>)
    end.

Definition is_engaged (c : Cells) (cell : HaltCell) : bool :=
  let word := session_word (hc_id cell) c in
  match hc_mode cell with
  | Host (Some s) =>
      match scopes c !! s with Some scope => negb (scope_live c scope word) | None => true end
  | _ =>
      bool_decide (is_Some (HaltCause.of_word word)) ||
      (host cell && has word (Z.lor CLOSING (Z.lor FAILED (Z.lor SEALED EMERGENCY))))
  end.

(** [HaltCell::admit], [check_halt] and [admit_host]. *)
Definition cell_admit (cell : HaltCell) (c : Cells) : aresult unit * Cells :=
  match hc_mode cell with
  | Legacy => if is_engaged c cell then (Err AuthorityError.Halted, c) else (Ok tt, c)
  | Host None => (Err AuthorityError.Halted, c)
  | Host (Some s) =>
      match scopes c !! s with
      | Some scope => scope_admit s scope (hc_id cell) c
      | None => (Err AuthorityError.Halted, c)
      end
  end.
Definition check_halt (cell : option HaltCell) (c : Cells) : aresult unit * Cells :=
  match cell with Some cell => cell_admit cell c | None => (Ok tt, c) end.
Definition admit_host (cell : option HaltCell) (c : Cells) : aresult unit * Cells :=
  match cell with
  | Some cell => if host cell then cell_admit cell c else (Ok tt, c)
  | None => (Ok tt, c)
  end.

Definition ingress_epoch (c : Cells) (cell : HaltCell) : Z :=
  session_word (hc_id cell) c / EPOCH_STEP.
(** The cause and the tag, of one reading; a tag is not zero. *)
Definition reason (c : Cells) (cell : HaltCell) : option (HaltCause.t * option Z) :=
  let value := session_word (hc_id cell) c in
  (λ cause, (cause, let tag := Z.land (Z.shiftr value 8) u16_max in
                    if tag =? 0 then None else Some tag)) <$> HaltCause.of_word value.

(** [RequestScope::recovery] and [HaltCell::admit_recovery] on the cell itself. *)
Definition recovery (close_allowed : bool) (s : RequestScope) : bool :=
  bool_decide (rs_kind s = ScopeKind.Restoration) ||
  (close_allowed && bool_decide (rs_kind s = ScopeKind.CloseCleanup)).
Definition admit_recovery (cell : HaltCell) (request : option HaltCell) (close_allowed : bool)
    (c : Cells) : aresult unit * Cells :=
  match request with
  | None => (Err AuthorityError.Halted, c)
  | Some request =>
      if negb (same cell request) then (Err AuthorityError.Halted, c)
      else
        match hc_mode request with
        | Host (Some s) =>
            match scopes c !! s with
            | Some scope =>
                if recovery close_allowed scope then cell_admit request c
                else (Err AuthorityError.Halted, c)
            | None => (Err AuthorityError.Halted, c)
            end
        | _ => (Err AuthorityError.Halted, c)
        end
  end.

(** ** Recovery requests of the Owner *)

Record RecoveryCheck := MkRecoveryCheck {
  rc_cell : option HaltCell;
  rc_snapshot : Z;
}.
Definition recovery_check (r : RecoveryCheck) (c : Cells) : aresult unit * Cells :=
  match rc_cell r with
  | Some cell =>
      if host cell then admit_recovery cell (Some cell) true c
      else if (Z.land (rc_snapshot r) EPOCH_MASK =? EPOCH_MASK) ||
              negb (session_word (hc_id cell) c =? rc_snapshot r)
      then (Err AuthorityError.Halted, c)
      else (Ok tt, c)
  | None => (Ok tt, c)
  end.
Definition recovery_take (cell : option HaltCell) (c : Cells) : aresult RecoveryCheck * Cells :=
  let check := MkRecoveryCheck cell
    match cell with Some cell => session_word (hc_id cell) c | None => 0 end in
  let '(r, c) := recovery_check check c in (map_ok (λ _, check) r, c).

(** ** The ingress *)

Module SessionError.
Inductive t :=
| Unavailable
| Restricted
| SessionEnded
| NoTarget
| Sequence
| Exhausted
| Backend (class : str).
End SessionError.
#[export] Instance SessionError_eq_dec : EqDecision SessionError.t.
Proof. solve_decision. Defined.

Module SessionState.
Inductive t :=
| Bootstrap
| Normal
| Emergency
| Failed
| ClosingNormal
| ClosingRestricted
| SealedFinalizing
| ClosedClean
| ClosedUnclean.
End SessionState.
#[export] Instance SessionState_eq_dec : EqDecision SessionState.t.
Proof. solve_decision. Defined.

Definition session_state (word : Z) : SessionState.t :=
  if has word SEALED then
    if negb (has word READY) then SessionState.SealedFinalizing
    else if has word FAILED then SessionState.ClosedUnclean
    else SessionState.ClosedClean
  else if has word CLOSING then
    if negb (has word (Z.lor EMERGENCY FAILED)) then SessionState.ClosingNormal
    else SessionState.ClosingRestricted
  else if has word FAILED then SessionState.Failed
  else if has word EMERGENCY then SessionState.Emergency
  else if has word READY then SessionState.Normal
  else SessionState.Bootstrap.

Module CommandKind.
Inductive t :=
| Run
| Approve
| Undo
| Cleanup
| Detail
| Status
| Evidence
| Quit
| Lift.
End CommandKind.
#[export] Instance CommandKind_eq_dec : EqDecision CommandKind.t.
Proof. solve_decision. Defined.

Record IngressEvent := MkIngressEvent {
  ie_index : Z;
  ie_generation : Z;
}.

(** [Stops::register]: one of 256 receipt slots. *)
Definition STOP_CAPACITY : Z := 256.
Definition stops_register (id : nat) (generation : Z) (c : Cells)
    : result IngressEvent SessionError.t * Cells :=
  match cores c !! id with
  | None => (Err SessionError.Exhausted, c)
  | Some core =>
      if co_stops_next core <? STOP_CAPACITY
      then (Ok (MkIngressEvent (co_stops_next core) generation),
            c <| cores := <[id := core <| co_stops_next := co_stops_next core + 1 |>]> (cores c) |>)
      else (Err SessionError.Exhausted,
            ingress_fail id
              (c <| cores := <[id := core <| co_stops_overflowed := true |>]> (cores c) |>))
  end.

(** [SessionIngress::emergency]: the value its loop writes, and the call. *)
Definition emergency_word (old : Z) : Z :=
  let cause := if Z.land old 7 =? 0 then Z.lor 2 (Z.shiftl (u16_max - 1) 8) else 0 in
  Z.lor (Z.lor (old + EPOCH_STEP) EMERGENCY) cause.
Definition ingress_emergency (id : nat) (c : Cells) : result IngressEvent SessionError.t * Cells :=
  let old := session_word id c in
  if has old SEALED then (Err SessionError.SessionEnded, c)
  else if Z.land old EPOCH_MASK =? EPOCH_MASK then (Err SessionError.Exhausted, ingress_fail id c)
  else
    let next := emergency_word old in
    stops_register id (next / EPOCH_STEP) (set_word id next c).

(** A request as it was accepted. *)
Record SessionRequest := MkSessionRequest {
  sr_kind : CommandKind.t;
  sr_sequence : Z;
  sr_snapshot : Z;
  sr_target : Z;
  sr_deadline : Z;
  sr_close : option Z;
  sr_scope : RequestScope;
}.

Definition SECOND : Z := 1000000000.
Definition new_scope (id : nat) (request snapshot deadline : Z) (kind : ScopeKind.t)
    : RequestScope :=
  MkScope id request snapshot deadline kind 0 0 None.

(** [SessionIngress::accept] at the instant [accepted], with the word [snapshot]
    read at its start; the rest sees the session as it is by then. *)
Definition accept (id : nat) (kind : CommandKind.t) (sequence accepted snapshot : Z) (c : Cells)
    : result SessionRequest SessionError.t * Cells :=
  match cores c !! id with
  | None => (Err SessionError.Unavailable, c)
  | Some core =>
      if has snapshot SEALED then (Err SessionError.SessionEnded, c)
      else if sequence =? u64_max then (Err SessionError.Exhausted, ingress_fail id c)
      else if negb (co_sequence core <? sequence) then (Err SessionError.Sequence, c)
      else
        let core := core <| co_sequence := sequence |> in
        let c := c <| cores := <[id := core]> (cores c) |> in
        if bool_decide (kind = CommandKind.Lift) then (Err SessionError.Unavailable, c)
        else
          let target :=
            match kind with
            | CommandKind.Approve => co_pending_context core
            | CommandKind.Undo => co_undo_context core
            | _ => 0
            end in
          if bool_decide (kind = CommandKind.Quit) then
            let '(core, deadline) := begin_shutdown core accepted in
            let '(core, close) :=
              close_or core (MkCloseIdentity sequence (snapshot / EPOCH_STEP) deadline) in
            let c := c <| cores := <[id := core]> (cores c) |> in
            let current := session_word id c in
            if has current SEALED then (Err SessionError.SessionEnded, c)
            else
              let c := if has current CLOSING then c
                       else set_word id (Z.lor current CLOSING) c in
              (Ok (MkSessionRequest kind sequence snapshot 0 (ci_deadline close)
                     (Some (ci_sequence close))
                     (new_scope id sequence (Z.lor snapshot CLOSING) (ci_deadline close)
                        ScopeKind.CloseCleanup)), c)
          else if negb (bool_decide (kind = CommandKind.Status ∨ kind = CommandKind.Evidence)) &&
                  has snapshot (Z.lor CLOSING (Z.lor FAILED EMERGENCY))
          then (Err SessionError.Restricted, c)
          else if bool_decide (kind = CommandKind.Approve ∨ kind = CommandKind.Undo) &&
                  (target =? 0)
          then (Err SessionError.NoTarget, c)
          else
            let seconds :=
              if bool_decide (kind = CommandKind.Run ∨ kind = CommandKind.Approve)
              then 300 else 120 in
            let deadline := accepted + seconds * SECOND in
            let scope_kind :=
              if bool_decide (kind = CommandKind.Undo ∨ kind = CommandKind.Cleanup)
              then ScopeKind.Restoration else ScopeKind.Work in
            (Ok (MkSessionRequest kind sequence snapshot target deadline None
                   (new_scope id sequence snapshot deadline scope_kind)), c)
  end.

(** [finish_bootstrap]'s write, the seal of [seal_close] and [close.rs]'s
    [finish], once their callers' checks passed. *)
Definition bootstrap_word (old : Z) : option Z := if old =? 0 then Some READY else None.
Definition seal_word (old : Z) : option Z :=
  if has old (Z.lor FAILED SEALED) then None
  else Some (Z.land (Z.lor old SEALED) (u64_max - READY)).
Definition finish_word (success : bool) (old : Z) : Z :=
  Z.lor (Z.lor (Z.lor old SEALED) READY) (if success then 0 else FAILED).

(** [narrow_mission_deadlines] on the scope named [s]. *)
Definition narrow_mission_deadlines (s : nat) (clock : nat) (mono wall : Z) (c : Cells)
    : result unit SessionError.t * Cells :=
  match scopes c !! s with
  | None => (Err SessionError.Restricted, c)
  | Some scope =>
      let limits :=
        match rs_mission_deadlines scope with
        | Some limits => limits
        | None => MkMissionDeadlines clock mono wall
        end in
      if negb (md_clock limits =? clock)%nat then (Err SessionError.Restricted, c)
      else
        let limits :=
          MkMissionDeadlines clock (Z.min (md_mono limits) mono) (Z.min (md_wall limits) wall) in
        (Ok tt, c <| scopes := <[s := scope <| rs_mission_deadlines := Some limits |>]>
                                 (scopes c) |>)
  end.

(** ** One File session for the broker's lifetime *)

Module FileSessionError.
Inductive t :=
| Reopened
| EmergencyHistory
| AlreadySelected
| WrongOwner
| Poisoned
| Capacity.
End FileSessionError.
#[export] Instance FileSessionError_eq_dec : EqDecision FileSessionError.t.
Proof. solve_decision. Defined.

(** A door's group. *)
Abbreviation GroupId := Z (only parsing).

Record History := MkHistory {
  h_original : option GroupId;
  h_ports : Z;
  h_attachments : Z;
  h_selected : bool;
}.
Definition history_new : History := MkHistory None 0 0 false.
Record FilePort := MkFilePort {
  fp_group : GroupId;
  fp_number : Z;
  fp_request : option HaltCell;
}.
Record FileAttachment := MkFileAttachment {
  fa_group : GroupId;
  fa_port : Z;
  fa_number : Z;
  fa_request : option HaltCell;
}.

(** [FileSessions] over its cell [state]; a port or an attachment here is one of
    these sessions (handles of others are refused by their address). *)
Section FileSessions.
Variable state : HaltCell.

Definition fresh (c : Cells) : result unit FileSessionError.t :=
  if has (session_word (hc_id state) c) EMERGENCY then Err FileSessionError.EmergencyHistory
  else if is_engaged c state then Err FileSessionError.Reopened
  else Ok tt.

(** A host's request admits, or names the error. *)
Definition admit_request (request : option HaltCell) (c : Cells)
    : result unit FileSessionError.t * Cells :=
  match request with
  | None => (Err FileSessionError.WrongOwner, c)
  | Some request =>
      let '(r, c) := cell_admit request c in
      (map_err (λ _, FileSessionError.EmergencyHistory) r, c)
  end.

Definition port (group : GroupId) (request : option HaltCell) (h : History) (c : Cells)
    : result FilePort FileSessionError.t * History * Cells :=
  if h_selected h then (Err FileSessionError.Reopened, h, engage_tagged state HaltTag.DoorHalted c)
  else
    match checked_add u64_max (h_ports h) 1 with
    | None => (Err FileSessionError.Capacity, h, c)
    | Some number =>
        let '(admitted, c) :=
          if host state then
            match request with
            | Some r => if same state r then admit_request request c
                        else (Err FileSessionError.WrongOwner, c)
            | None => (Err FileSessionError.WrongOwner, c)
            end
          else (Ok tt, c) in
        match admitted with
        | Err e => (Err e, h, c)
        | Ok _ =>
            (Ok (MkFilePort group number request),
             MkHistory (match h_original h with Some g => Some g | None => Some group end)
               number (h_attachments h) (h_selected h), c)
        end
    end.

Definition attach (p : FilePort) (h : History) (c : Cells)
    : result FileAttachment FileSessionError.t * History * Cells :=
  if h_selected h then (Err FileSessionError.Reopened, h, engage_tagged state HaltTag.DoorHalted c)
  else
    match checked_add u64_max (h_attachments h) 1 with
    | None => (Err FileSessionError.Capacity, h, c)
    | Some number =>
        let '(admitted, c) :=
          if host state then admit_request (fp_request p) c else (Ok tt, c) in
        match admitted with
        | Err e => (Err e, h, c)
        | Ok _ =>
            (Ok (MkFileAttachment (fp_group p) (fp_number p) number (fp_request p)),
             MkHistory (h_original h) (h_ports h) number (h_selected h), c)
        end
    end.

Definition validate (h : History) (a : FileAttachment) (group : GroupId)
    : result unit FileSessionError.t :=
  if negb (fa_group a =? group) || negb (bool_decide (h_original h = Some group))
  then Err FileSessionError.WrongOwner
  else if negb (h_ports h =? 1) || negb (fa_port a =? 1) || negb (h_attachments h =? 1) ||
          negb (fa_number a =? 1)
  then Err FileSessionError.Reopened
  else Ok tt.

(** The cell a claim or a later look hands out. *)
Definition session_handle (a : FileAttachment) : result HaltCell FileSessionError.t :=
  if host state then ok_or (fa_request a) FileSessionError.WrongOwner else Ok state.

Definition claim (a : FileAttachment) (group : GroupId) (h : History) (c : Cells)
    : result HaltCell FileSessionError.t * History * Cells :=
  match validate h a group with
  | Err e => (Err e, h, c)
  | Ok _ =>
      if h_selected h then (Err FileSessionError.AlreadySelected, h, c)
      else
        match fresh c with
        | Err e => (Err e, h, c)
        | Ok _ =>
            let '(admitted, c) :=
              if host state then admit_request (fa_request a) c else (Ok tt, c) in
            match admitted with
            | Err e => (Err e, h, c)
            | Ok _ =>
                let h := MkHistory (h_original h) (h_ports h) (h_attachments h) true in
                (let? _ := fresh c in session_handle a, h, c)
            end
        end
  end.

Definition cell_of (a : FileAttachment) (group : GroupId) (h : History) (c : Cells)
    : result HaltCell FileSessionError.t * Cells :=
  match validate h a group with
  | Err e => (Err e, c)
  | Ok _ =>
      if negb (h_selected h) then (Err FileSessionError.WrongOwner, c)
      else
        match fresh c with
        | Err e => (Err e, c)
        | Ok _ =>
            if host state then
              let '(r, c) := admit_request (fa_request a) c in
              (let? _ := r in session_handle a, c)
            else (Ok state, c)
        end
  end.
End FileSessions.

(** ** The writers as steps *)

Definition tag_ok (t : HaltTag.t) : Prop :=
  match t with HaltTag.Client _ reason => 1 ≤ reason ≤ u16_max | _ => True end.

(** A write of a legacy cell is a latch; a host's session also has its ingress, its
    bootstrap and its close. *)
Inductive word_step (is_host : bool) : Z → Z → Prop :=
| step_latch tag emergency w w' :
    tag_ok tag → latch_word is_host (HaltTag.bits tag) emergency w = Some w' →
    word_step is_host w w'
| step_emergency w :
    is_host = true → has w SEALED = false → Z.land w EPOCH_MASK ≠ EPOCH_MASK →
    word_step is_host w (emergency_word w)
| step_fail w : is_host = true → has w SEALED = false → word_step is_host w (Z.lor w FAILED)
| step_quit w : is_host = true → has w SEALED = false → word_step is_host w (Z.lor w CLOSING)
| step_bootstrap w w' : is_host = true → bootstrap_word w = Some w' → word_step is_host w w'
| step_seal w w' : is_host = true → seal_word w = Some w' → word_step is_host w w'
| step_finish success w : is_host = true → word_step is_host w (finish_word success w).

(** ** Words by parts

    A word is [epoch * 2^24 + tag * 2^8 + flags]; the first three flags are the
    cause, which is zero only when the tag is. *)

Definition epoch_of (w : Z) : Z := w / 16777216.
Definition tag_of (w : Z) : Z := (w / 256) mod 65536.
Definition flags_of (w : Z) : Z := w mod 256.
Definition cause_of (w : Z) : Z := Z.land w CAUSE.
Definition pack (e t b : Z) : Z := (e * 65536 + t) * 256 + b.
Definition parts_ok (e t b : Z) : Prop :=
  0 ≤ e < 2 ^ 40 ∧ 0 ≤ t < 65536 ∧ 0 ≤ b < 256 ∧
  Z.land b 7 ≤ 4 ∧ (Z.land b 7 = 0 → t = 0).
Definition word_wf (w : Z) : Prop := ∃ e t b, w = pack e t b ∧ parts_ok e t b.

Lemma pack_parts e t b :
  0 ≤ t < 65536 → 0 ≤ b < 256 →
  epoch_of (pack e t b) = e ∧ tag_of (pack e t b) = t ∧ flags_of (pack e t b) = b.
Proof.
  unfold epoch_of, tag_of, flags_of, pack. intros Ht Hb.
  split_and!; Z.to_euclidean_division_equations; lia.
Qed.

Lemma pack_land e t b k : 0 ≤ b < 256 → 0 ≤ k < 256 → Z.land (pack e t b) k = Z.land b k.
Proof.
  intros Hb Hk. unfold pack. change k with (0 * 2 ^ 8 + k) at 1. change 256 with (2 ^ 8).
  rewrite split_land by (change (2 ^ 8) with 256; lia). by rewrite Z.land_0_r.
Qed.

Lemma pack_lor e t b k : 0 ≤ b < 256 → 0 ≤ k < 256 → Z.lor (pack e t b) k = pack e t (Z.lor b k).
Proof.
  intros Hb Hk. unfold pack. change k with (0 * 2 ^ 8 + k) at 1. change 256 with (2 ^ 8).
  rewrite split_lor by (change (2 ^ 8) with 256; lia). by rewrite Z.lor_0_r.
Qed.

Lemma pack_has e t b k : 0 ≤ b < 256 → 0 ≤ k < 256 → has (pack e t b) k = has b k.
Proof. intros. unfold has. by rewrite pack_land. Qed.

(** A fact of all flag bytes, by evaluation. *)
Lemma byte_all (P : Z → bool) : forallb P (seqZ 0 256) = true → ∀ b, 0 ≤ b < 256 → P b = true.
Proof.
  intros H b Hb. rewrite <- Is_true_true in H. rewrite forallb_True, Forall_forall in H.
  apply Is_true_true, H, elem_of_seqZ. lia.
Qed.
Ltac by_bytes b :=
  revert b; apply (byte_all (λ b, _)); vm_compute; reflexivity.

Lemma pack_24 e t b : pack e t b = e * 2 ^ 24 + (t * 256 + b).
Proof. unfold pack. change (2 ^ 24) with 16777216. lia. Qed.

Lemma pack_epoch e t b : parts_ok e t b → Z.land (pack e t b) EPOCH_MASK = pack e 0 0.
Proof.
  intros (He & Ht & Hb & _). rewrite !pack_24.
  change EPOCH_MASK with ((2 ^ 40 - 1) * 2 ^ 24 + 0).
  rewrite split_land, Z.land_0_r by (change (2 ^ 24) with 16777216; lia).
  replace (2 ^ 40 - 1) with (Z.ones 40) by done.
  rewrite Z.land_ones, Z.mod_small by lia. lia.
Qed.

Lemma pack_low e t b : parts_ok e t b → Z.land (pack e t b) (EPOCH_STEP - 1) = pack 0 t b.
Proof.
  intros (He & Ht & Hb & _). rewrite !pack_24. change (EPOCH_STEP - 1) with (Z.ones 24).
  rewrite Z.land_ones, Z.add_comm, Z.mod_add by done.
  rewrite Z.mod_small by (change (2 ^ 24) with 16777216; lia). lia.
Qed.

Lemma pack_join e t b : 0 ≤ t < 65536 → 0 ≤ b < 256 → Z.lor (pack e 0 0) (pack 0 t b) = pack e t b.
Proof.
  intros Ht Hb. rewrite !pack_24. replace (0 * 256 + 0) with 0 by lia.
  rewrite split_lor by (change (2 ^ 24) with 16777216; lia). by rewrite Z.lor_0_r, Z.lor_0_l.
Qed.

Lemma pack_tag e t b tg c :
  0 ≤ b < 256 → 0 ≤ c < 256 → 0 ≤ tg < 65536 → t = 0 →
  Z.lor (pack e t b) (pack 0 tg c) = pack e tg (Z.lor b c).
Proof.
  intros Hb Hc Htg ->. unfold pack. change 256 with (2 ^ 8).
  rewrite split_lor by (change (2 ^ 8) with 256; lia). change 65536 with (2 ^ 16).
  replace (0 * 2 ^ 16 + tg) with (0 * 2 ^ 16 + (0 + tg)) by lia.
  rewrite (split_lor 16 e 0 0 (0 + tg)) by (change (2 ^ 16) with 65536; lia).
  by rewrite Z.lor_0_r, Z.lor_0_l.
Qed.

Lemma tag_bits tag : HaltTag.bits tag =
  pack 0 (HaltTag.cause_tag tag).2 (HaltCause.code (HaltTag.cause_tag tag).1).
Proof.
  unfold HaltTag.bits, pack. destruct (HaltTag.cause_tag tag) as [cause tg]. simpl.
  rewrite Z.shiftl_mul_pow2 by lia. rewrite Z.lor_comm.
  replace (tg * 2 ^ 8) with (tg * 2 ^ 8 + 0) by lia.
  change (HaltCause.code cause) with (0 * 2 ^ 8 + HaltCause.code cause) at 1.
  rewrite split_lor by (destruct cause; simpl; lia). by rewrite Z.lor_0_r, Z.lor_0_l.
Qed.

Lemma tag_range tag : tag_ok tag →
  0 ≤ (HaltTag.cause_tag tag).2 < 65536 ∧ 1 ≤ HaltCause.code (HaltTag.cause_tag tag).1 ≤ 4.
Proof.
  destruct tag as [| | | |cause r]; simpl; unfold u16_max; [lia..|]. destruct cause; simpl; lia.
Qed.

(** What a latch does to the parts. *)
Definition latched_epoch (is_host emergency : bool) (e : Z) : Z :=
  if is_host && negb emergency then e else Z.min (e + 1) (2 ^ 40 - 1).

Lemma latch_parts is_host tag emergency e t b w' :
  parts_ok e t b → tag_ok tag →
  latch_word is_host (HaltTag.bits tag) emergency (pack e t b) = Some w' →
  (is_host = true → has b SEALED = false) ∧
  w' = pack (latched_epoch is_host emergency e)
         (if Z.land b 7 =? 0 then (HaltTag.cause_tag tag).2 else t)
         (Z.lor (Z.lor b (if emergency then 128 else 0))
            (if Z.land b 7 =? 0 then HaltCause.code (HaltTag.cause_tag tag).1 else 0)).
Proof.
  intros Hok Htag. pose proof (tag_range tag Htag) as [Htg Hcode].
  pose proof Hok as (He & Ht & Hb & H4 & H0). unfold latch_word, latched_epoch.
  rewrite pack_has by (done || unfold SEALED; lia).
  destruct (is_host && has b SEALED) eqn:Hs; [done|].
  rewrite pack_epoch, pack_low by done. rewrite pack_land by (done || unfold CAUSE; lia).
  change CAUSE with 7. intros [= <-]. split; [intros ->; done|].
  assert (Hep : Z.land (saturating_add u64_max (pack e 0 0) EPOCH_STEP) EPOCH_MASK =
    pack (Z.min (e + 1) (2 ^ 40 - 1)) 0 0).
  { unfold saturating_add. destruct (Z.le_gt_cases (e + 1) (2 ^ 40 - 1)).
    - rewrite !Z.min_r, Z.min_l by (unfold pack, EPOCH_STEP, u64_max in *; lia).
      replace (pack e 0 0 + EPOCH_STEP) with (pack (e + 1) 0 0) by (unfold pack, EPOCH_STEP; lia).
      apply pack_epoch. do 3 (split; [lia|]). vm_compute. split; congruence.
    - assert (e = 2 ^ 40 - 1) as -> by lia. done. }
  rewrite Hep.
  assert (Hem : 0 ≤ (if emergency then 128 else 0) < 256) by (destruct emergency; lia).
  pose proof (lor_bound 8 b (if emergency then 128 else 0)) as Hlb.
  change (2 ^ 8) with 256 in Hlb. specialize (Hlb ltac:(lia) Hb Hem).
  replace (if emergency then EMERGENCY else 0) with (if emergency then 128 else 0) by done.
  assert (Hpk : ∀ E, Z.lor (pack E 0 0) (pack 0 t b) = pack E t b) by (intros; by apply pack_join).
  destruct (is_host && negb emergency); rewrite Hpk, pack_lor by done;
    (destruct (Z.eqb_spec (Z.land b 7) 0) as [Hz|Hz]; [|by rewrite !Z.lor_0_r]);
    rewrite tag_bits; (apply pack_tag; [done|lia|done|by apply H0]).
Qed.

(** ** The order of words *)

(** Before readiness, ready, sealed, closed. *)
Definition phase_of (w : Z) : Z := 2 * Z.b2z (has w SEALED) + Z.b2z (has w READY).

Record word_le (w w' : Z) : Prop := {
  le_epoch : epoch_of w ≤ epoch_of w';
  le_phase : phase_of w ≤ phase_of w';
  le_emergency : has w EMERGENCY = true → has w' EMERGENCY = true;
  le_closing : has w CLOSING = true → has w' CLOSING = true;
  le_failed : has w FAILED = true → has w' FAILED = true;
  le_cause : cause_of w ≠ 0 → cause_of w' = cause_of w ∧ tag_of w' = tag_of w;
}.

#[export] Instance word_le_preorder : PreOrder word_le.
Proof.
  split.
  - intros w. by constructor; try split.
  - intros w1 w2 w3 [E1 P1 M1 C1 F1 K1] [E2 P2 M2 C2 F2 K2]. constructor; [lia|lia|auto..|].
    intros H. destruct (K1 H) as [Ka Kb]. rewrite <- Ka in H. destruct (K2 H) as [Kc Kd].
    split; congruence.
Qed.

(** The order on the flags. *)
Definition flags_le (b b' : Z) : bool :=
  (phase_of b <=? phase_of b') && implb (has b EMERGENCY) (has b' EMERGENCY) &&
  implb (has b CLOSING) (has b' CLOSING) && implb (has b FAILED) (has b' FAILED) &&
  ((Z.land b 7 =? 0) || (Z.land b' 7 =? Z.land b 7)).

Lemma pack_phase e t b : 0 ≤ b < 256 → phase_of (pack e t b) = phase_of b.
Proof. intros Hb. unfold phase_of. by rewrite !pack_has by (done || unfold SEALED, READY; lia). Qed.

Lemma pack_le e t b e' t' b' :
  parts_ok e t b → parts_ok e' t' b' → e ≤ e' → flags_le b b' = true →
  (Z.land b 7 ≠ 0 → t' = t) → word_le (pack e t b) (pack e' t' b').
Proof.
  intros (_ & Ht & Hb & _) (_ & Ht' & Hb' & _) He Hf Htag.
  unfold flags_le in Hf. rewrite !andb_true_iff, !implb_true_iff, orb_true_iff in Hf.
  destruct Hf as [[[[Hp Hem] Hcl] Hfa] Hc].
  destruct (pack_parts e t b Ht Hb) as (Ee & Et & _).
  destruct (pack_parts e' t' b' Ht' Hb') as (Ee' & Et' & _).
  constructor; rewrite ?Ee, ?Ee', ?Et, ?Et', ?pack_phase by done;
    rewrite ?pack_has by (done || unfold EMERGENCY, CLOSING, FAILED; lia); try done; [lia|].
  unfold cause_of. rewrite !pack_land by (done || unfold CAUSE; lia). change CAUSE with 7.
  intros Hne. split; [lia|auto].
Qed.

Lemma flags_antisym b b' :
  0 ≤ b < 256 → 0 ≤ b' < 256 → flags_le b b' = true → flags_le b' b = true →
  Z.land b' 7 = Z.land b 7 → b = b'.
Proof.
  assert (Hparts : ∀ b, 0 ≤ b < 256 →
    (b =? Z.land b 7 + 8 * Z.b2z (has b CLOSING) + 16 * Z.b2z (has b FAILED) +
      32 * Z.b2z (has b SEALED) + 64 * Z.b2z (has b READY) + 128 * Z.b2z (has b EMERGENCY)) = true)
    by (apply byte_all; vm_compute; reflexivity).
  intros Hb Hb' H1 H2 Hc. pose proof (Hparts b Hb) as P1. pose proof (Hparts b' Hb') as P2.
  unfold flags_le, phase_of in H1, H2. rewrite Hc in P2.
  destruct (has b CLOSING), (has b' CLOSING), (has b FAILED), (has b' FAILED); try done;
    destruct (has b EMERGENCY), (has b' EMERGENCY); try done;
    destruct (has b SEALED), (has b' SEALED), (has b READY), (has b' READY); simpl in *; lia.
Qed.

Lemma word_le_flags e t b e' t' b' :
  parts_ok e t b → parts_ok e' t' b' → word_le (pack e t b) (pack e' t' b') →
  e ≤ e' ∧ flags_le b b' = true ∧ (Z.land b 7 ≠ 0 → t' = t).
Proof.
  intros (_ & Ht & Hb & _) (_ & Ht' & Hb' & _) [He Hp Hem Hcl Hfa Hc].
  destruct (pack_parts e t b Ht Hb) as (Ee & Et & _).
  destruct (pack_parts e' t' b' Ht' Hb') as (Ee' & Et' & _).
  rewrite ?Ee, ?Ee', ?Et, ?Et', ?pack_phase in * by done. unfold cause_of in Hc.
  rewrite ?pack_has in * by (done || unfold EMERGENCY, CLOSING, FAILED; lia).
  rewrite !pack_land in Hc by (done || unfold CAUSE; lia). change CAUSE with 7 in Hc.
  split; [lia|]. split; [|intros H; by apply Hc].
  unfold flags_le. rewrite !andb_true_iff, !implb_true_iff, orb_true_iff.
  split_and!; try done; [lia|]. destruct (Z.eqb_spec (Z.land b 7) 0) as [|Hne]; [by left|].
  right. apply Z.eqb_eq. by apply Hc.
Qed.

Lemma word_le_antisym w w' : word_wf w → word_wf w' → word_le w w' → word_le w' w → w = w'.
Proof.
  intros (e & t & b & -> & Hok) (e' & t' & b' & -> & Hok') H1 H2.
  destruct (word_le_flags _ _ _ _ _ _ Hok Hok' H1) as (E1 & F1 & T1).
  destruct (word_le_flags _ _ _ _ _ _ Hok' Hok H2) as (E2 & F2 & T2).
  assert (e = e') as <- by lia. destruct Hok as (_ & _ & Hb & _ & Z1), Hok' as (_ & _ & Hb' & _ & Z2).
  assert (Hc : Z.land b' 7 = Z.land b 7).
  { unfold flags_le in F1, F2. rewrite !andb_true_iff, orb_true_iff in F1, F2. lia. }
  rewrite <- (flags_antisym b b' Hb Hb' F1 F2 Hc). f_equal.
  destruct (Z.eq_dec (Z.land b 7) 0) as [E|E]; [rewrite Z1, Z2; congruence|]. symmetry. auto.
Qed.

(** ** Every write moves forward *)

Lemma lor_byte b k : 0 ≤ b < 256 → 0 ≤ k < 256 → 0 ≤ Z.lor b k < 256.
Proof. change 256 with (2 ^ 8). intros. by apply lor_bound. Qed.

(** A write that only sets flags. *)
Lemma step_flags e t b k :
  parts_ok e t b → 0 ≤ k < 256 → Z.land k 7 = 0 → flags_le b (Z.lor b k) = true →
  word_le (pack e t b) (Z.lor (pack e t b) k) ∧ word_wf (Z.lor (pack e t b) k).
Proof.
  intros Hok Hk Hk7 Hle. pose proof Hok as (He & Ht & Hb & H4 & H0).
  rewrite pack_lor by done.
  assert (Hok' : parts_ok e t (Z.lor b k)).
  { split; [lia|]. split; [lia|]. split; [by apply lor_byte|].
    by rewrite Z.land_lor_distr_l, Hk7, Z.lor_0_r. }
  split; [by apply pack_le|]. by exists e, t, (Z.lor b k).
Qed.

Lemma cause_flags_le b c em :
  0 ≤ b < 256 → Z.land b 7 = 0 → c ∈ [1; 2; 3; 4] → em ∈ [0; 128] →
  flags_le b (Z.lor (Z.lor b em) c) = true ∧ 1 ≤ Z.land (Z.lor (Z.lor b em) c) 7 ≤ 4.
Proof.
  intros Hb H0 Hc Hem.
  assert (H : (negb (Z.land b 7 =? 0) || forallb (λ c, forallb (λ em,
    flags_le b (Z.lor (Z.lor b em) c) && (1 <=? Z.land (Z.lor (Z.lor b em) c) 7) &&
    (Z.land (Z.lor (Z.lor b em) c) 7 <=? 4)) [0; 128]) [1; 2; 3; 4]) = true)
    by (revert b Hb H0; intros b Hb _; revert b Hb; apply byte_all; vm_compute; reflexivity).
  rewrite H0 in H. change (negb (0 =? 0) || ?x) with x in H.
  rewrite <- Is_true_true, forallb_True, Forall_forall in H. apply H in Hc.
  rewrite forallb_True, Forall_forall in Hc. apply Hc in Hem.
  rewrite Is_true_true, !andb_true_iff in Hem. split; [apply Hem|lia].
Qed.

Lemma code_elem c : HaltCause.code c ∈ [1; 2; 3; 4].
Proof. destruct c; set_solver. Qed.
Lemma emergency_elem (em : bool) : (if em then 128 else 0) ∈ [0; 128].
Proof. destruct em; set_solver. Qed.

Lemma step_latch_forward is_host tag emergency e t b w' :
  parts_ok e t b → tag_ok tag →
  latch_word is_host (HaltTag.bits tag) emergency (pack e t b) = Some w' →
  word_le (pack e t b) w' ∧ word_wf w'.
Proof.
  intros Hok Htag Hl. destruct (latch_parts _ _ _ _ _ _ _ Hok Htag Hl) as [_ ->].
  pose proof Hok as (He & Ht & Hb & H4 & H0). destruct (tag_range tag Htag) as [Htg _].
  assert (Hep : e ≤ latched_epoch is_host emergency e < 2 ^ 40)
    by (unfold latched_epoch; destruct (is_host && negb emergency); lia).
  destruct (Z.eqb_spec (Z.land b 7) 0) as [Hz|Hz].
  - destruct (cause_flags_le b _ _ Hb Hz (code_elem (HaltTag.cause_tag tag).1)
      (emergency_elem emergency)) as [Hf Hne].
    match goal with |- word_le _ (pack ?E ?T ?B) ∧ _ => assert (Hok' : parts_ok E T B) end.
    { split; [lia|]. split; [done|]. split; [|lia].
      apply lor_byte; [apply lor_byte; [done|by destruct emergency]|].
      destruct (HaltTag.cause_tag tag).1; simpl; lia. }
    split; [apply pack_le; auto; lia|]. by eexists _, _, _.
  - rewrite Z.lor_0_r.
    assert (Hf : flags_le b (Z.lor b (if emergency then 128 else 0)) = true)
      by (destruct emergency; clear -Hb; revert b Hb; apply byte_all; vm_compute; reflexivity).
    match goal with |- word_le _ (pack ?E ?T ?B) ∧ _ => assert (Hok' : parts_ok E T B) end.
    { split; [lia|]. split; [done|]. split; [apply lor_byte; [lia|by destruct emergency]|].
      rewrite Z.land_lor_distr_l. replace (Z.land (if emergency then 128 else 0) 7) with 0
        by by destruct emergency. by rewrite Z.lor_0_r. }
    split; [apply pack_le; auto; lia|]. by eexists _, _, _.
Qed.

(** The session's emergency is a host's emergency latch whose epoch can still
    grow. *)
Lemma emergency_latch e t b :
  parts_ok e t b → has b SEALED = false → e ≠ 2 ^ 40 - 1 →
  latch_word true (HaltTag.bits HaltTag.EmergencyStop) true (pack e t b) =
  Some (emergency_word (pack e t b)).
Proof.
  intros Hok Hs Hne. pose proof Hok as (He & Ht & Hb & H4 & H0).
  destruct (latch_word true (HaltTag.bits HaltTag.EmergencyStop) true (pack e t b)) as [w'|] eqn:E.
  - apply latch_parts in E as [_ ->]; [|done|done]. f_equal. unfold emergency_word.
    rewrite pack_land by (done || lia).
    replace (pack e t b + EPOCH_STEP) with (pack (e + 1) t b) by (unfold pack, EPOCH_STEP; lia).
    rewrite pack_lor by (done || unfold EMERGENCY; lia). unfold latched_epoch. simpl.
    rewrite Z.min_l by lia. pose proof (lor_byte b 128 Hb ltac:(lia)).
    change (Z.lor 2 (Z.shiftl (u16_max - 1) 8)) with (pack 0 (u16_max - 1) 2).
    destruct (Z.eqb_spec (Z.land b 7) 0) as [Hz|Hz].
    + symmetry. apply pack_tag; [done|lia|unfold u16_max; lia|auto].
    + by rewrite !Z.lor_0_r.
  - exfalso. unfold latch_word in E. rewrite pack_has in E by (done || unfold SEALED; lia).
    rewrite Hs in E. done.
Qed.

Lemma word_step_forward is_host w w' :
  word_wf w → word_step is_host w w' → word_le w w' ∧ word_wf w'.
Proof.
  intros (e & t & b & -> & Hok) Hstep. pose proof Hok as (He & Ht & Hb & H4 & H0).
  inversion Hstep as [tag em ? ? Htag Hl|? _ Hs Hm|? _ Hs|? _ Hs|? ? _ Hw|? ? _ Hw|success ? _]; subst.
  - by eapply step_latch_forward.
  - rewrite pack_epoch in Hm by done. change EPOCH_MASK with (pack (2 ^ 40 - 1) 0 0) in Hm.
    rewrite pack_has in Hs by (done || unfold SEALED; lia).
    eapply (step_latch_forward true HaltTag.EmergencyStop true); [done|done|].
    apply emergency_latch; [done|done|]. intros ->. done.
  - apply step_flags; [done|unfold FAILED; lia|done|].
    clear -Hb. revert b Hb. apply byte_all. vm_compute. reflexivity.
  - apply step_flags; [done|unfold CLOSING; lia|done|].
    clear -Hb. revert b Hb. apply byte_all. vm_compute. reflexivity.
  - unfold bootstrap_word in Hw. destruct (Z.eqb_spec (pack e t b) 0) as [E|]; [|done].
    injection Hw as <-. assert (e = 0) as -> by (unfold pack in E; lia).
    assert (t = 0) as -> by (unfold pack in E; lia). assert (b = 0) as -> by (unfold pack in E; lia).
    change READY with (pack 0 0 64). split; [by apply pack_le|]. by exists 0, 0, 64.
  - unfold seal_word in Hw. rewrite pack_has in Hw by (done || simpl; lia).
    destruct (has b (Z.lor FAILED SEALED)) eqn:Hfs; [done|]. injection Hw as <-.
    rewrite pack_lor by (done || unfold SEALED; lia).
    pose proof (lor_byte b SEALED Hb ltac:(unfold SEALED; lia)) as Hbs.
    assert (E : Z.land (pack e t (Z.lor b SEALED)) (u64_max - READY) =
      pack e t (Z.land (Z.lor b SEALED) 191)).
    { unfold pack. change 256 with (2 ^ 8). change (u64_max - READY) with (Z.ones 56 * 2 ^ 8 + 191).
      rewrite split_land by (change (2 ^ 8) with 256; lia).
      rewrite Z.land_ones, Z.mod_small by (change (2 ^ 56) with (2 ^ 40 * 65536); lia). done. }
    rewrite E.
    assert (Hf : (has b (Z.lor FAILED SEALED) || flags_le b (Z.land (Z.lor b SEALED) 191) &&
      (Z.land (Z.land (Z.lor b SEALED) 191) 7 =? Z.land b 7)) = true)
      by (clear -Hb; revert b Hb; apply byte_all; vm_compute; reflexivity).
    rewrite Hfs in Hf. rewrite orb_false_l, andb_true_iff, Z.eqb_eq in Hf. destruct Hf as [Hf H7].
    assert (Hok' : parts_ok e t (Z.land (Z.lor b SEALED) 191)).
    { split; [lia|]. split; [lia|]. split; [apply (land_bound 8); [lia|exact Hbs]|].
      rewrite H7. done. }
    split; [apply pack_le; auto; lia|]. by eexists _, _, _.
  - unfold finish_word. rewrite <- !Z.lor_assoc.
    destruct success; (apply step_flags; [done|vm_compute; split; congruence|done|]);
      clear -Hb; revert b Hb; apply byte_all; vm_compute; reflexivity.
Qed.

Lemma word_steps_forward is_host w w' :
  word_wf w → rtc (word_step is_host) w w' → word_le w w' ∧ word_wf w'.
Proof.
  intros Hw H. induction H as [w|w w1 w2 H1 _ IH]; [done|].
  apply word_step_forward in H1 as [Hle Hw1]; [|done]. destruct (IH Hw1) as [Hle2 ?].
  split; [by etrans|done].
Qed.

(** A word never returns to a value it left. *)
Lemma word_never_returns is_host s w w' :
  word_wf s → rtc (word_step is_host) s w → rtc (word_step is_host) w w' → w' = s → w = s.
Proof.
  intros Hs H1 H2 ->. destruct (word_steps_forward _ _ _ Hs H1) as [L1 Hw].
  destruct (word_steps_forward _ _ _ Hw H2) as [L2 _]. symmetry. by apply word_le_antisym.
Qed.

(** ** What an admission means *)

Lemma scope_admit_ok s scope id c :
  (scope_admit s scope id c).1 = Ok tt ↔
  scope_live c scope (session_word id c) = true ∧ rs_next_step scope + 1 ≤ u64_max.
Proof.
  assert (He : ∀ sc k, eligible (c <| scopes := sc |>) (scope <| rs_next_step := k |>) =
    eligible c scope) by done.
  assert (Hw : ∀ sc, session_word id (c <| scopes := sc |>) = session_word id c) by done.
  unfold scope_admit, scope_live, checked_add.
  destruct (eligible c scope) eqn:E; cbn [negb]; [|rewrite andb_false_r; naive_solver].
  destruct (Z.leb_spec (rs_next_step scope + 1) u64_max); [|cbn; naive_solver lia].
  cbv zeta. rewrite !Hw, ?He, ?E, ?andb_true_r.
  change (rs_kind (scope <| rs_next_step := _ |>)) with (rs_kind scope).
  change (rs_snapshot (scope <| rs_next_step := _ |>)) with (rs_snapshot scope).
  set (scopes1 := <[s := _]> (scopes c)). set (scopes2 := <[s := _]> (scopes _)).
  destruct (rs_kind scope); (rewrite bool_decide_false by done) || (rewrite bool_decide_true by done);
    rewrite ?Z.eqb_refl; cbn [andb negb];
    match goal with
    | |- context [session_word id c =? rs_snapshot scope] =>
        destruct (session_word id c =? rs_snapshot scope)
    | |- context [negb ?b] => destruct b
    end; simpl; split; try done; by intros [].
Qed.

(** The flags of a live request's word. *)
Lemma eligible_flags c s :
  eligible c s = true →
  instant c < rs_deadline s ∧ has (rs_snapshot s) (Z.lor FAILED (Z.lor SEALED EMERGENCY)) = false ∧
  match rs_kind s with
  | ScopeKind.Bootstrap => has (rs_snapshot s) (Z.lor READY (Z.lor CLOSING 7)) = false
  | ScopeKind.Work => Z.land (rs_snapshot s) (Z.lor READY (Z.lor CLOSING 7)) = READY
  | ScopeKind.Restoration => Z.land (rs_snapshot s) (Z.lor READY CLOSING) = READY
  | ScopeKind.CloseCleanup => Z.land (rs_snapshot s) (Z.lor READY CLOSING) = Z.lor READY CLOSING
  end.
Proof.
  unfold eligible. rewrite negb_true_iff, !orb_false_iff. intros [[[[_ Hd] _] Hf] Hk].
  split; [lia|]. split; [done|]. destruct (rs_kind s); [done|..];
    rewrite negb_false_iff, Z.eqb_eq in Hk; done.
Qed.

(** The session state of a word is that of its flags. *)
Lemma pack_state e t b : 0 ≤ b < 256 → session_state (pack e t b) = session_state b.
Proof.
  intros Hb. unfold session_state. rewrite !pack_has by (done || vm_compute; split; congruence). done.
Qed.

Lemma normal_state w :
  word_wf w → has w (Z.lor FAILED (Z.lor SEALED EMERGENCY)) = false →
  Z.land w (Z.lor READY CLOSING) = READY → session_state w = SessionState.Normal.
Proof.
  intros (e & t & b & -> & _ & _ & Hb & _).
  rewrite pack_has, pack_land, pack_state by (done || vm_compute; split; congruence).
  intros H1 H2. apply (f_equal negb) in H1. apply Z.eqb_eq in H2.
  assert (H : (has b (Z.lor FAILED (Z.lor SEALED EMERGENCY)) ||
    negb (Z.land b (Z.lor READY CLOSING) =? READY) ||
    bool_decide (session_state b = SessionState.Normal)) = true)
    by (clear -Hb; revert b Hb; apply byte_all; vm_compute; reflexivity).
  rewrite H2 in H. destruct (has b _); [done|]. by apply bool_decide_eq_true in H.
Qed.

Lemma closing_state w :
  word_wf w → Z.land w (Z.lor CLOSING (Z.lor FAILED (Z.lor SEALED EMERGENCY))) = CLOSING →
  session_state w = SessionState.ClosingNormal ∧ has w EMERGENCY = false ∧ has w FAILED = false ∧
  has w SEALED = false.
Proof.
  intros (e & t & b & -> & _ & _ & Hb & _).
  rewrite pack_land, pack_state by (done || vm_compute; split; congruence).
  rewrite !pack_has by (done || vm_compute; split; congruence).
  intros H2. apply Z.eqb_eq in H2.
  assert (H : (negb (Z.land b (Z.lor CLOSING (Z.lor FAILED (Z.lor SEALED EMERGENCY))) =? CLOSING) ||
    (bool_decide (session_state b = SessionState.ClosingNormal) && negb (has b EMERGENCY) &&
     negb (has b FAILED) && negb (has b SEALED))) = true)
    by (clear -Hb; revert b Hb; apply byte_all; vm_compute; reflexivity).
  rewrite H2 in H. cbn [negb orb] in H. rewrite !andb_true_iff, !negb_true_iff in H.
  destruct H as [[[H%bool_decide_eq_true ?] ?] ?]. done.
Qed.

Lemma work_lands w :
  word_wf w → Z.land w (Z.lor READY (Z.lor CLOSING 7)) = READY → Z.land w (Z.lor READY CLOSING) = READY.
Proof.
  intros (e & t & b & -> & _ & _ & Hb & _).
  rewrite !pack_land by (done || vm_compute; split; congruence). intros H%Z.eqb_eq.
  assert (H' : (negb (Z.land b (Z.lor READY (Z.lor CLOSING 7)) =? READY) ||
    (Z.land b (Z.lor READY CLOSING) =? READY)) = true)
    by (clear -Hb; revert b Hb; apply byte_all; vm_compute; reflexivity).
  rewrite H in H'. by apply Z.eqb_eq in H'.
Qed.

(** A stored request that is the accepted one, after any of its steps. *)
Definition same_request (a b : RequestScope) : Prop :=
  rs_snapshot a = rs_snapshot b ∧ rs_deadline a = rs_deadline b ∧ rs_kind a = rs_kind b.

(** What [accept] answers. *)
Lemma accept_scope id kind sequence accepted snapshot c r c' :
  accept id kind sequence accepted snapshot c = (Ok r, c') →
  kind ≠ CommandKind.Lift ∧ has snapshot SEALED = false ∧
  (∃ core, cores c !! id = Some core ∧ co_sequence core < sequence) ∧
  (∃ core', cores c' !! id = Some core' ∧ co_sequence core' = sequence) ∧
  sr_deadline r = rs_deadline (sr_scope r) ∧
  if bool_decide (kind = CommandKind.Quit)
  then rs_kind (sr_scope r) = ScopeKind.CloseCleanup ∧
       rs_snapshot (sr_scope r) = Z.lor snapshot CLOSING ∧ has (session_word id c') SEALED = false
  else rs_snapshot (sr_scope r) = snapshot ∧
       (rs_kind (sr_scope r) = ScopeKind.Work ∨ rs_kind (sr_scope r) = ScopeKind.Restoration).
Proof.
  unfold accept. intros H. destruct (cores c !! id) as [core|] eqn:Hc; [|done].
  destruct (has snapshot SEALED) eqn:Hs; [done|]. destruct (sequence =? u64_max); [done|].
  destruct (Z.ltb_spec (co_sequence core) sequence) as [Hq|]; [|done].
  cbn [negb] in H. case_bool_decide as Hl; [done|]. split; [done|]. split; [done|].
  split; [by eauto|]. clear Hl Hc. destruct (bool_decide_reflect (kind = CommandKind.Quit)) as [->|Hk].
  - unfold begin_shutdown, close_or in H. cbn in H.
    repeat case_match; simplify_eq; cbn; unfold session_word in *; cbn in *;
      rewrite ?lookup_insert_eq in *; (split; [by eauto|]);
      split_and!; try done.
    all: cbn [default from_option Datatypes.id]; unfold has in *; rewrite Z.land_lor_distr_l;
      change (Z.land CLOSING SEALED) with 0; by rewrite Z.lor_0_r.
  - repeat case_match; simplify_eq; cbn; rewrite ?lookup_insert_eq; (split; [by eauto|]);
      split_and!; try done; by case_bool_decide; [right|left].
Qed.

(** A request of the session lives in one word: it admits only before its
    deadline and, unless it is a close, only while the session is in its normal
    state with the very word it was accepted at, unchanged since then by any ingress,
    failure, close or seal; a close admits only in an unrestricted closing session
    without a stop since. Commands are accepted in strictly increasing sequence. *)
Theorem request_lifetime id kind sequence accepted snapshot c r c1 s cell c2 scope
    (Haccept : accept id kind sequence accepted snapshot c = (Ok r, c1))
    (Hwf : word_wf snapshot) (Hwf2 : word_wf (session_word id c2))
    (Hpath : kind ≠ CommandKind.Quit → rtc (word_step true) snapshot (session_word id c2))
    (Hcell : cell = MkCell id (Host (Some s)))
    (Hscope : scopes c2 !! s = Some scope) (Hsame : same_request scope (sr_scope r))
    (Hadmit : (cell_admit cell c2).1 = Ok tt) :
  (∃ core, cores c !! id = Some core ∧ co_sequence core < sequence) ∧
  (∃ core, cores c1 !! id = Some core ∧ co_sequence core = sequence) ∧
  instant c2 < sr_deadline r ∧
  (kind ≠ CommandKind.Quit →
     session_state snapshot = SessionState.Normal ∧
     ∀ u, rtc (word_step true) snapshot u → rtc (word_step true) u (session_word id c2) →
       u = snapshot) ∧
  (kind = CommandKind.Quit →
     session_state (session_word id c2) = SessionState.ClosingNormal ∧
     epoch_of (session_word id c2) = epoch_of snapshot).
Proof.
  destruct (accept_scope _ _ _ _ _ _ _ _ Haccept) as (Hlift & Hsealed & Hs1 & Hs2 & Hd & Hk).
  subst cell. unfold cell_admit in Hadmit. cbn [hc_mode hc_id] in Hadmit. rewrite Hscope in Hadmit.
  apply scope_admit_ok in Hadmit as [Hlive _]. destruct Hsame as (Es & Ed & Ek).
  unfold scope_live in Hlive. apply andb_true_iff in Hlive as [Hw He].
  destruct (eligible_flags _ _ He) as (Ht & Hf & Hkind). rewrite Ek in Hw, Hkind. rewrite Es in Hw, Hf, Hkind.
  split; [done|]. split; [done|]. split; [congruence|]. split.
  - intros Hq. rewrite bool_decide_false in Hk by done. destruct Hk as [Hsn Hkk].
    rewrite Hsn in Hw, Hf, Hkind.
    assert (Hcur : session_word id c2 = snapshot)
      by (destruct Hkk as [Hkk|Hkk]; rewrite Hkk in Hw; lia).
    split.
    + apply normal_state; [done|done|]. destruct Hkk as [Hkk|Hkk]; rewrite Hkk in Hkind; [|done].
      by apply work_lands.
    + intros u H1 H2. eapply word_never_returns; eauto.
  - intros ->. rewrite bool_decide_true in Hk by done. destruct Hk as (Hkk & Hsn & _).
    rewrite Hkk in Hw. apply andb_true_iff in Hw as [He1 Hc1].
    split; [apply closing_state; [done|lia]|]. apply Z.eqb_eq in He1. rewrite Hsn in He1.
    clear -He1 Hwf Hwf2. destruct Hwf as (e & t & b & -> & Hok).
    destruct Hwf2 as (e' & t' & b' & E & Hok'). rewrite E in *.
    pose proof Hok as (_ & Ht & Hb & H4 & H0). pose proof Hok' as (_ & Ht' & Hb' & _).
    rewrite pack_lor in He1 by (done || unfold CLOSING; lia).
    assert (Hok1 : parts_ok e t (Z.lor b CLOSING)).
    { split; [apply Hok|]. split; [done|]. split; [apply lor_byte; [lia|unfold CLOSING; lia]|].
      rewrite Z.land_lor_distr_l. change (Z.land CLOSING 7) with 0. by rewrite Z.lor_0_r. }
    rewrite !pack_epoch in He1 by done.
    destruct (pack_parts e t b Ht Hb) as (-> & _). destruct (pack_parts e' t' b' Ht' Hb') as (-> & _).
    unfold pack in He1. lia.
Qed.

(** ** Denials are final *)

Lemma reason_parts c cell :
  reason c cell = (λ cause, (cause, let tag := tag_of (session_word (hc_id cell) c) in
                                    if tag =? 0 then None else Some tag)) <$>
                  HaltCause.of_word (session_word (hc_id cell) c).
Proof.
  unfold reason, tag_of. rewrite Z.shiftr_div_pow2 by lia. change u16_max with (Z.ones 16).
  by rewrite Z.land_ones by lia.
Qed.

Lemma of_word_cause w w' : cause_of w' = cause_of w → HaltCause.of_word w' = HaltCause.of_word w.
Proof. unfold HaltCause.of_word, cause_of. by intros ->. Qed.

Lemma of_word_some w : 1 ≤ cause_of w ≤ 4 → is_Some (HaltCause.of_word w).
Proof.
  unfold HaltCause.of_word, cause_of. intros H.
  assert (Hc : Z.land w CAUSE = 1 ∨ Z.land w CAUSE = 2 ∨ Z.land w CAUSE = 3 ∨ Z.land w CAUSE = 4) by lia.
  by destruct Hc as [-> |[-> |[-> | ->]]].
Qed.

Lemma of_word_nonzero w : is_Some (HaltCause.of_word w) → cause_of w ≠ 0.
Proof. unfold HaltCause.of_word, cause_of. intros [x H] E. by rewrite E in H. Qed.

Lemma has_lor w a b : has w (Z.lor a b) = has w a || has w b.
Proof.
  unfold has. rewrite Z.land_lor_distr_r.
  destruct (Z.eqb_spec (Z.land w a) 0) as [E1|E1], (Z.eqb_spec (Z.land w b) 0) as [E2|E2];
    destruct (Z.eqb_spec (Z.lor (Z.land w a) (Z.land w b)) 0) as [E|E]; try done.
  - by rewrite E1, E2 in E.
  - by apply Z.lor_eq_0_iff in E as [? ?].
  - by apply Z.lor_eq_0_iff in E as [? ?].
  - by apply Z.lor_eq_0_iff in E as [? ?].
Qed.

(** A denial is final: whatever is written to a cell afterwards, an engaged
    cell stays engaged with the same first cause and tag, the emergency history and
    the failed, closing and sealed flags are never cleared, and the count of
    ingresses never falls. *)
Theorem engaged_final c c' cell
    (Hwf : word_wf (session_word (hc_id cell) c))
    (Hpath : rtc (word_step (host cell)) (session_word (hc_id cell) c)
               (session_word (hc_id cell) c'))
    (Hmode : hc_mode cell = Legacy ∨ hc_mode cell = Host None) :
  (is_engaged c cell = true → is_engaged c' cell = true) ∧
  (∀ why, reason c cell = Some why → reason c' cell = Some why) ∧
  (∀ flag, flag ∈ [EMERGENCY; CLOSING; FAILED; SEALED] →
     has (session_word (hc_id cell) c) flag = true →
     has (session_word (hc_id cell) c') flag = true) ∧
  ingress_epoch c cell ≤ ingress_epoch c' cell.
Proof.
  destruct (word_steps_forward _ _ _ Hwf Hpath) as [[He Hp Hem Hcl Hfa Hc] _].
  assert (Hse : has (session_word (hc_id cell) c) SEALED = true →
    has (session_word (hc_id cell) c') SEALED = true).
  { unfold phase_of in Hp. destruct (has _ SEALED), (has _ SEALED); try done.
    destruct (has _ READY), (has _ READY); simpl in Hp; lia. }
  assert (Hflags : ∀ flag, flag ∈ [EMERGENCY; CLOSING; FAILED; SEALED] →
    has (session_word (hc_id cell) c) flag = true → has (session_word (hc_id cell) c') flag = true)
    by (intros flag; rewrite !elem_of_cons, elem_of_nil; naive_solver).
  assert (Hof : ∀ x, HaltCause.of_word (session_word (hc_id cell) c) = Some x →
    HaltCause.of_word (session_word (hc_id cell) c') = Some x ∧
    tag_of (session_word (hc_id cell) c') = tag_of (session_word (hc_id cell) c)).
  { intros x Hx. destruct Hc as [Hc1 Hc2]; [by apply of_word_nonzero; eauto|].
    by rewrite (of_word_cause _ _ Hc1). }
  split; [|split; [|split; [done|exact He]]].
  - assert (Hmatch : ∀ c, is_engaged c cell =
      bool_decide (is_Some (HaltCause.of_word (session_word (hc_id cell) c))) ||
      (host cell && has (session_word (hc_id cell) c) (Z.lor CLOSING (Z.lor FAILED (Z.lor SEALED EMERGENCY)))))
      by (intros; unfold is_engaged; by destruct Hmode as [-> | ->]).
    rewrite !Hmatch, !orb_true_iff, !andb_true_iff, !bool_decide_eq_true, !has_lor, !orb_true_iff.
    intros [[x Hx]|[Hh Hf]]; [left; exists x; by apply Hof|right]. split; [done|].
    destruct Hf as [H|[H|[H|H]]]; auto.
  - intros why. rewrite !reason_parts.
    destruct (HaltCause.of_word (session_word (hc_id cell) c)) as [x|]; [|done].
    destruct (Hof x eq_refl) as [-> ->]. done.
Qed.

Lemma legacy_step_epoch w w' :
  word_wf w → word_step false w w' → epoch_of w' = Z.min (epoch_of w + 1) (2 ^ 40 - 1).
Proof.
  intros (e & t & b & -> & Hok) Hstep.
  inversion Hstep as [tag em ? ? Htag Hl| | | | | |]; subst; try done.
  destruct (latch_parts _ _ _ _ _ _ _ Hok Htag Hl) as [_ E].
  destruct (step_latch_forward _ _ _ _ _ _ _ Hok Htag Hl) as [_ (e' & t' & b' & E' & Hok')].
  pose proof Hok as (_ & Ht & Hb & _). pose proof Hok' as (_ & Ht' & Hb' & _).
  destruct (pack_parts e t b Ht Hb) as (-> & _). rewrite E'.
  destruct (pack_parts e' t' b' Ht' Hb') as (-> & _). rewrite E' in E. unfold pack in E.
  unfold latched_epoch in E. simpl in E. destruct (tag_range tag Htag) as [Htg Hcode].
  
  match type of E with _ = (_ * _ + ?t1) * _ + ?b1 => set (T := t1) in E; set (B := b1) in E end.
  assert (0 ≤ T < 65536) by (unfold T; by case_match). assert (0 ≤ B < 256).
  { unfold B. apply lor_byte; [apply lor_byte; [lia|by destruct em]|]. case_match; lia. }
  lia.
Qed.

(** An Owner's recovery request does not survive an ingress: once another
    engagement of the cell came after the request was taken, its check refuses. *)
Theorem recovery_no_ingress cell c check c' n
    (Hlegacy : hc_mode cell = Legacy) (Hwf : word_wf (session_word (hc_id cell) c))
    (Htake : recovery_take (Some cell) c = (Ok check, c))
    (Hpath : nsteps (word_step false) n (session_word (hc_id cell) c)
               (session_word (hc_id cell) c'))
    (Hcheck : (recovery_check check c').1 = Ok tt) :
  n = 0%nat.
Proof.
  assert (Hh : host cell = false) by (unfold host; by rewrite Hlegacy).
  unfold recovery_take, recovery_check in *. cbn [rc_cell rc_snapshot] in Htake. rewrite Hh in Htake.
  destruct (Z.land (session_word (hc_id cell) c) EPOCH_MASK =? EPOCH_MASK) eqn:Hsat; [done|].
  rewrite Z.eqb_refl in Htake. injection Htake as <-. cbn [rc_cell rc_snapshot] in Hcheck. rewrite Hh, Hsat in Hcheck.
  cbn [orb] in Hcheck.
  destruct (Z.eqb_spec (session_word (hc_id cell) c') (session_word (hc_id cell) c)) as [E|]; [|done].
  inversion Hpath as [|m w w1 w2 H1 H2]; [done|]. subst. exfalso.
  destruct (word_step_forward _ _ _ Hwf H1) as [_ Hw1].
  apply legacy_step_epoch in H1; [|done]. apply rtc_nsteps_2 in H2.
  destruct (word_steps_forward _ _ _ Hw1 H2) as [[He _ _ _ _ _] _]. rewrite E, H1 in He.
  destruct Hwf as (e & t & b & Ew & Hok). rewrite Ew in *. rewrite pack_epoch in Hsat by done.
  pose proof Hok as (Hb1 & Ht & Hb & _). destruct (pack_parts e t b Ht Hb) as (Ee & _).
  rewrite Ee in He. assert (e = 2 ^ 40 - 1) as -> by lia. done.
Qed.

(** ** One File session *)

(** Any calls on the sessions' history, with any change of the cells between
    them; the list holds the attachments whose claim succeeded. *)
Inductive sessions_run (state : HaltCell) : History → list FileAttachment → Prop :=
| run_new : sessions_run state history_new []
| run_port group request h c r h' c' claims :
    sessions_run state h claims → port state group request h c = (r, h', c') →
    sessions_run state h' claims
| run_attach p h c r h' c' claims :
    sessions_run state h claims → attach state p h c = (r, h', c') →
    sessions_run state h' claims
| run_claim a group h c r h' c' claims :
    sessions_run state h claims → claim state a group h c = (r, h', c') →
    sessions_run state h' (match r with Ok _ => claims ++ [a] | Err _ => claims end).

Lemma attachment_validate_ok h a group :
  validate h a group = Ok tt →
  fa_group a = group ∧ h_original h = Some group ∧ h_ports h = 1 ∧ h_attachments h = 1 ∧
  fa_port a = 1 ∧ fa_number a = 1.
Proof.
  unfold validate. intros H. repeat case_match; try done.
  rewrite !orb_false_iff, !negb_false_iff, ?bool_decide_eq_true in *. split_and!; try lia; naive_solver.
Qed.

(** What was selected stays so, with the counts of its moment. *)
Lemma port_history state group request h c r h' c' :
  port state group request h c = (r, h', c') →
  (h_selected h = true → h' = h ∧ ∀ p, r ≠ Ok p) ∧ h_selected h' = h_selected h.
Proof.
  unfold port. destruct (h_selected h) eqn:Hs; [intros; simplify_eq; naive_solver|].
  intros H. repeat case_match; simplify_eq; naive_solver.
Qed.
Lemma attach_history state p h c r h' c' :
  attach state p h c = (r, h', c') →
  (h_selected h = true → h' = h ∧ ∀ a, r ≠ Ok a) ∧ h_selected h' = h_selected h.
Proof.
  unfold attach. destruct (h_selected h) eqn:Hs; [intros; simplify_eq; naive_solver|].
  intros H. repeat case_match; simplify_eq; naive_solver.
Qed.
Lemma claim_history state a group h c r h' c' :
  claim state a group h c = (r, h', c') →
  (h_selected h = true → h' = h ∧ ∀ cell, r ≠ Ok cell) ∧
  (∀ cell, r = Ok cell →
     validate h a group = Ok tt ∧ h_selected h = false ∧
     h' = MkHistory (h_original h) (h_ports h) (h_attachments h) true ∧
     (∀ c0, fresh state c0 = Ok tt → is_engaged c0 state = false) ∧
     session_handle state a = Ok cell ∧ fresh state c' = Ok tt).
Proof.
  unfold claim. destruct (validate h a group) as [[]|] eqn:Hv; [|intros; simplify_eq; naive_solver].
  destruct (h_selected h) eqn:Hs; [intros; simplify_eq; naive_solver|].
  destruct (fresh state c) as [[]|] eqn:Hf; [|intros; simplify_eq; naive_solver].
  destruct (if host state then _ else _) as [[[]|e] c1]; intros ?; simplify_eq; [|naive_solver].
  split; [done|]. intros cell [[] [Hf2 Hh]]%and_then_ok. split_and!; try done.
  intros c0. unfold fresh. repeat case_match; done.
Qed.

(** A latch leaves a cause. *)
Lemma latch_engages is_host tag emergency w w' :
  word_wf w → tag_ok tag → latch_word is_host (HaltTag.bits tag) emergency w = Some w' →
  is_Some (HaltCause.of_word w').
Proof.
  intros (e & t & b & -> & Hok) Htag Hl. apply of_word_some.
  destruct (latch_parts _ _ _ _ _ _ _ Hok Htag Hl) as [_ ->].
  pose proof Hok as (_ & _ & Hb & H4 & _). destruct (tag_range tag Htag) as [_ Hcode].
  assert (Hem : 0 ≤ (if emergency then 128 else 0) < 256) by (by destruct emergency).
  unfold cause_of. rewrite pack_land; [|apply lor_byte; [by apply lor_byte|destruct (_ =? _); lia]|by vm_compute].
  change CAUSE with 7. destruct (Z.eqb_spec (Z.land b 7) 0) as [Hz|Hz].
  - apply cause_flags_le; [done|done|apply code_elem|apply emergency_elem].
  - rewrite Z.lor_0_r, Z.land_lor_distr_l.
    replace (Z.land (if emergency then 128 else 0) 7) with 0 by by destruct emergency.
    rewrite Z.lor_0_r. pose proof (Z.land_nonneg b 7). lia.
Qed.

Lemma door_halted_engages state c :
  hc_mode state = Legacy → word_wf (session_word (hc_id state) c) →
  is_engaged (engage_tagged state HaltTag.DoorHalted c) state = true.
Proof.
  intros Hm Hwf. unfold engage_tagged, latch.
  destruct (latch_word (host state) _ false _) as [w'|] eqn:Hl.
  - apply latch_engages in Hl; [|done|done]. unfold is_engaged. rewrite Hm.
    unfold session_word. cbn [words set_word update upd_words]. rewrite lookup_insert_eq.
    cbn [default from_option Datatypes.id]. by rewrite bool_decide_true.
  - exfalso. unfold latch_word in Hl. assert (Hh : host state = false) by (unfold host; by rewrite Hm).
    by rewrite Hh in Hl.
Qed.

(** A broker has at most one File session: over any calls, at most one claim of
    a session succeeds, and only for the one attachment of the one port ever issued
    before it, by the door that port was issued to, on a cell not engaged. From then
    on no port is issued and nothing attaches: an attempt engages a legacy cell for
    good. *)
Theorem file_session_once state h claims (Hrun : sessions_run state h claims) :
  (claims = [] ∨
   ∃ a, claims = [a] ∧ h_selected h = true ∧ h_ports h = 1 ∧ h_attachments h = 1 ∧
     h_original h = Some (fa_group a) ∧ fa_port a = 1 ∧ fa_number a = 1) ∧
  (h_selected h = true → ∀ group request p a c,
     (port state group request h c).1.1 = Err FileSessionError.Reopened ∧
     (attach state p h c).1.1 = Err FileSessionError.Reopened ∧
     (∀ cell, (claim state a group h c).1.1 ≠ Ok cell) ∧
     (hc_mode state = Legacy → word_wf (session_word (hc_id state) c) →
        is_engaged (port state group request h c).2 state = true ∧
        is_engaged (attach state p h c).2 state = true)).
Proof.
  split.
  - induction Hrun as [|group request h c r h' c' claims _ IH H|p h c r h' c' claims _ IH H|
      a group h c r h' c' claims _ IH H]; [by left|..].
    + destruct (port_history _ _ _ _ _ _ _ _ H) as [Hs _].
      destruct IH as [->|(a & -> & Hsel & IH)]; [by left|right].
      destruct (Hs Hsel) as [-> _]. by exists a.
    + destruct (attach_history _ _ _ _ _ _ _ H) as [Hs _].
      destruct IH as [->|(a & -> & Hsel & IH)]; [by left|right].
      destruct (Hs Hsel) as [-> _]. by exists a.
    + destruct (claim_history _ _ _ _ _ _ _ _ H) as [Hs Hok].
      destruct IH as [->|(a' & -> & Hsel & IH)].
      * destruct r as [cell|]; [right|by left].
        destruct (Hok cell eq_refl) as (Hv & _ & -> & _). apply attachment_validate_ok in Hv. simpl.
        exists a. naive_solver.
      * destruct (Hs Hsel) as [-> Hne]. destruct r as [cell|]; [by destruct (Hne cell)|].
        right. by exists a'.
  - intros Hsel group request p a c. unfold port, attach. rewrite Hsel. cbn.
    split; [done|]. split; [done|]. split.
    + intros cell. destruct (claim state a group h c) as [[r h'] c'] eqn:H.
      destruct (claim_history _ _ _ _ _ _ _ _ H) as [Hs _]. by apply Hs.
    + intros Hm Hwf. split; by apply door_halted_engages.
Qed.

(** ** A session, for the examples *)

Module SampleSession.
Definition core : Core := MkCore 0 0 0 None 0 0 0 false.
(** A ready session at its fifth nanosecond. *)
Definition ready : Cells := MkCells {[0%nat := READY]} ∅ {[0%nat := core]} 5 ∅.
Definition run_scope : RequestScope :=
  new_scope 0 1 READY (10 + 300 * SECOND) ScopeKind.Work.
Definition running : Cells := ready <| scopes := {[7%nat := run_scope]} |>.
(** A legacy cell and the same cell once stopped. *)
Definition legacy : HaltCell := MkCell 3 Legacy.
Definition idle : Cells := MkCells ∅ ∅ ∅ 0 ∅.
Definition stopped : Cells := engage_emergency legacy idle.
End SampleSession.

Lemma ready_wf : word_wf READY.
Proof. exists 0, 0, 64. split; [done|]. vm_compute. intuition congruence. Qed.
Lemma zero_wf : word_wf 0.
Proof. exists 0, 0, 0. split; [done|]. vm_compute. intuition congruence. Qed.

Lemma request_lifetime_witness :
  5 < 10 + 300 * SECOND ∧ session_state READY = SessionState.Normal.
Proof.
  destruct (request_lifetime 0 CommandKind.Run 1 10 READY SampleSession.ready _ _ 7
    (MkCell 0 (Host (Some 7%nat))) SampleSession.running SampleSession.run_scope eq_refl ready_wf
    ready_wf) as (_ & _ & H1 & H2 & _).
  - intros _. apply rtc_refl.
  - reflexivity.
  - reflexivity.
  - vm_compute. intuition congruence.
  - vm_compute. reflexivity.
  - split; [exact H1|]. apply H2. discriminate.
Defined.

Lemma engaged_final_witness :
  is_engaged (engage SampleSession.legacy SampleSession.stopped) SampleSession.legacy = true.
Proof.
  apply (engaged_final SampleSession.stopped (engage SampleSession.legacy SampleSession.stopped)
    SampleSession.legacy).
  - exists 1, 65534, 130. split; [vm_compute; reflexivity|]. vm_compute. intuition congruence.
  - apply rtc_once. eapply (step_latch _ HaltTag.OwnerStop false); [exact I|vm_compute; reflexivity].
  - left. reflexivity.
  - vm_compute. reflexivity.
Defined.

Lemma recovery_no_ingress_witness : 0%nat = 0%nat.
Proof.
  apply (recovery_no_ingress SampleSession.legacy SampleSession.idle
    (MkRecoveryCheck (Some SampleSession.legacy) 0) SampleSession.idle).
  - reflexivity.
  - exact zero_wf.
  - vm_compute. reflexivity.
  - constructor.
  - vm_compute. reflexivity.
Defined.

Lemma file_session_once_witness :
  (port SampleSession.legacy 4 None (MkHistory (Some 4) 1 1 true) SampleSession.idle).1.1 =
  Err FileSessionError.Reopened.
Proof.
  assert (Hrun : sessions_run SampleSession.legacy (MkHistory (Some 4) 1 1 true)
    [MkFileAttachment 4 1 1 None]).
  { eapply (run_claim SampleSession.legacy (MkFileAttachment 4 1 1 None) 4
      (MkHistory (Some 4) 1 1 false) SampleSession.idle (Ok SampleSession.legacy) _ _ []);
      [|vm_compute; reflexivity].
    eapply (run_attach SampleSession.legacy (MkFilePort 4 1 None) (MkHistory (Some 4) 1 0 false)
      SampleSession.idle); [|vm_compute; reflexivity].
    eapply (run_port SampleSession.legacy 4 None history_new SampleSession.idle);
      [constructor|vm_compute; reflexivity]. }
  exact (proj1 (proj2 (file_session_once _ _ _ Hrun) eq_refl 4 None (MkFilePort 4 1 None)
    (MkFileAttachment 4 1 1 None) SampleSession.idle)).
Defined.
