(* ===== verification/AuthGrants.v ===== *)
(** * The Owner's grants

    [authority/policy.rs] of [crates/nexus-governed-control/src]: the policy
    generation, what a grant allows and how it is described, and the store of
    grants. A grant is created only after the Owner confirmed exactly the lines
    that describe it; room for it is held while its issue is recorded, with no lock
    held, so other calls may come in between ([others]). *)

From S2P Require Import Prelude AuthBase AuthText HaltCell.

Local Open Scope Z_scope.
Local Open Scope nexus_scope.
#[local] Arguments lit : simpl never.

(** ** Scopes *)

Module GrantScope.
Inductive t :=
| Tool (tool executable : str) (identity : Digest)
| Egress (scheme host : str) (port : Z) (methods : list str) (allow_private : bool)
| Browser (origins : list str) (downloads : bool) (executable : str) (identity : Digest)
| Perception (display : str)
| Input (display : str) (max_steps : Z) (session_r1 : bool)
| Connector (connector account : str) (operations : list str)
| Synthetic
| Files (workspace root : str) (identity : Digest).

Definition kind (s : t) : CapabilityKind.t :=
  match s with
  | Tool _ _ _ => CapabilityKind.Tool
  | Egress _ _ _ _ _ => CapabilityKind.Egress
  | Browser _ _ _ _ => CapabilityKind.Browser
  | Perception _ => CapabilityKind.Perception
  | Input _ _ _ => CapabilityKind.Input
  | Connector _ _ _ => CapabilityKind.Connector
  | Synthetic => CapabilityKind.Synthetic
  | Files _ _ _ => CapabilityKind.Files
  end.
End GrantScope.
#[export] Instance GrantScope_eq_dec : EqDecision GrantScope.t.
Proof. solve_decision. Defined.

Section Describe.
Context {crates : Crates} {g : Graphemes}.

(** The lines the Owner reads; a backtick stands for a double quote ([js]). *)
Definition describe (s : GrantScope.t) : list str :=
  match s with
  | GrantScope.Tool tool executable identity =>
      [js "Run the tool `" ++ tool ++ js "`";
       lit "Executable: " ++ executable ++ lit " (identity " ++ Digest_short identity ++ lit ")"]
  | GrantScope.Egress scheme host port methods allow_private =>
      [lit "Network requests to " ++ scheme ++ lit "://" ++ host ++ lit ":" ++ u64_to_string port;
       lit "Methods: " ++ join (lit ", ") methods;
       if allow_private then lit "Private, local or loopback addresses: allowed"
       else lit "Private, local or loopback addresses: refused"]
  | GrantScope.Browser origins downloads executable identity =>
      [lit "Browser sessions limited to: " ++ join (lit ", ") origins;
       lit "Downloads: " ++ (if downloads then lit "kept inside the session, deleted when it ends"
                             else lit "refused");
       lit "Browser: " ++ executable ++ lit " (identity " ++ Digest_short identity ++ lit ")"]
  | GrantScope.Perception display =>
      [lit "Observe the isolated agent display " ++ display]
  | GrantScope.Input display max_steps session_r1 =>
      [lit "Mouse and keyboard on the isolated agent display " ++ display;
       lit "At most " ++ u64_to_string max_steps ++ lit " steps";
       if session_r1 then lit "Clicks, drags and keys: without asking you each time (R1)"
       else lit "Every click, drag and key: asks for your approval (R2)";
       lit "Pointer moves and scrolls: never ask you (R1)"]
  | GrantScope.Connector connector account operations =>
      [js "Connector `" ++ connector ++ js "` (your label `" ++ account ++
         js "`), with its one stored credential";
       lit "Operations: " ++ join (lit ", ") operations]
  | GrantScope.Synthetic =>
      [lit "Synthetic test receipts only: Nexus performs no external effect";
       lit "Usable only by your own commands, never by an agent";
       lit "Each receipt also needs your approval in a separate Nexus approval window";
       lit "A receipt is never evidence that a real-world action happened"]
  | GrantScope.Files workspace root _ =>
      [lit "Create new text files in the workspace folder:"] ++ wrapped root ++
      [lit "Workspace id: " ++ workspace;
       lit "Each file: new (never replacing anything), at the folder's top level, at most 8 KiB and 150 lines of text";
       lit "Never: replace, delete or rename a file, or make a folder";
       lit "Each file also needs your approval of its complete content"]
  end.

End Describe.

(** ** Grants *)

Record Grant := MkGrant {
  gr_id : GrantId;
  gr_scope : GrantScope.t;
  gr_created_wall_ms : Z;
  gr_expires_ms : Z;
  gr_expires_wall_ms : Z;
  gr_revoked : bool;
}.
Definition grant_live (gr : Grant) (monotonic_ms wall_ms : Z) : bool :=
  negb (gr_revoked gr) && (monotonic_ms <? gr_expires_ms gr) && (wall_ms <? gr_expires_wall_ms gr).

Record Grants := MkGrants {
  g_map : gmap GrantId Grant;
  g_reserved : Z;
}.
Definition grants_new : Grants := MkGrants ∅ 0.
Definition g_len (gs : Grants) : Z := Z.of_nat (size (g_map gs)).

(** Durations are nanoseconds. *)
Definition MAX_GRANT_TTL : Z := 24 * 3600 * SECOND.
Definition as_millis (d : Z) : Z := d / 1000000.
Definition as_secs (d : Z) : Z := d / SECOND.
Definition GRANT_CAPACITY : Z := 1024.

(** The first hold of a request: room for one grant. *)
Definition room_take (now wall : Z) (gs : Grants) : aresult Grants :=
  let gs :=
    if GRANT_CAPACITY <=? g_len gs + g_reserved gs
    then MkGrants (filter (λ kv, grant_live kv.2 now wall = true) (g_map gs)) (g_reserved gs)
    else gs in
  if GRANT_CAPACITY <=? g_len gs + g_reserved gs then Err AuthorityError.Capacity
  else Ok (MkGrants (g_map gs) (g_reserved gs + 1)).

(** [Room::drop] of a held room: [saturating_sub]. *)
Definition room_drop (gs : Grants) : Grants :=
  MkGrants (g_map gs) (Z.max 0 (g_reserved gs - 1)).

(** [Room::fill]; refused, the room is dropped still held. *)
Definition room_fill (grant : Grant) (halt : option HaltCell) (gs : Grants) (c : Cells)
    : aresult unit * Grants * Cells :=
  let '(admitted, c) := check_halt halt c in
  match admitted with
  | Err e => (Err e, room_drop gs, c)
  | Ok _ =>
      (Ok tt, MkGrants (<[gr_id grant := grant]> (g_map gs)) (Z.max 0 (g_reserved gs - 1)), c)
  end.

Definition live_at (id : GrantId) (monotonic_ms wall_ms : Z) (gs : Grants) : option Grant :=
  gr ← g_map gs !! id; if grant_live gr monotonic_ms wall_ms then Some gr else None.
Definition expired_at (id : GrantId) (monotonic_ms wall_ms : Z) (gs : Grants) : bool :=
  match g_map gs !! id with
  | Some gr =>
      negb (gr_revoked gr) &&
      ((gr_expires_ms gr <=? monotonic_ms) || (gr_expires_wall_ms gr <=? wall_ms))
  | None => false
  end.
(** [live_of], before it is sorted for display. *)
Definition live_of (kind : CapabilityKind.t) (now wall : Z) (gs : Grants) : list Grant :=
  filter (λ gr, GrantScope.kind (gr_scope gr) = kind ∧ grant_live gr now wall = true)
    ((map_to_list (g_map gs)).*2).

(** The store with what its calls read and write: the policy generation, the
    cells, the sink and the two clocks. *)
Record GrantWorld {S : Type} := MkGrantWorld {
  gw_grants : Grants;
  gw_generation : Z;
  gw_cells : Cells;
  gw_sink : S;
  gw_mono : Z;
  gw_wall : Z;
}.
Arguments GrantWorld : clear implicits.
Definition grant_world_eta {S} (w : GrantWorld S) : GrantWorld S :=
  MkGrantWorld S (gw_grants w) (gw_generation w) (gw_cells w) (gw_sink w) (gw_mono w) (gw_wall w).
#[export] Instance upd_gw_grants {S} : Update (@gw_grants S) := ltac:(update_with (@grant_world_eta S)).
#[export] Instance upd_gw_generation {S} : Update (@gw_generation S) :=
  ltac:(update_with (@grant_world_eta S)).
#[export] Instance upd_gw_cells {S} : Update (@gw_cells S) := ltac:(update_with (@grant_world_eta S)).
#[export] Instance upd_gw_sink {S} : Update (@gw_sink S) := ltac:(update_with (@grant_world_eta S)).
#[export] Instance upd_gw_mono {S} : Update (@gw_mono S) := ltac:(update_with (@grant_world_eta S)).
#[export] Instance upd_gw_wall {S} : Update (@gw_wall S) := ltac:(update_with (@grant_world_eta S)).

(** [PolicyGeneration::bump]: an atomic counter wraps at its width. *)
Definition bump (generation : Z) : Z := (generation + 1) mod 2 ^ 64.

(** ** Confirmations ([approval.rs]) *)

Module ConfirmationAnswer.
Inductive t :=
| NotAsked
| Awaiting
| Declined
| Affirmative
| Invalidated
| ProtocolFailed.

(** The error and what the refusal's record says of it. *)
Definition refusal (a : t) (r : EvidenceRecord) : option (AuthorityError * EvidenceRecord) :=
  let unavailable (reason : str) :=
    Some (AuthorityError.Unavailable reason,
          push_detail (lit "reason") reason (r <| er_failure := Some (lit "unavailable") |>)) in
  match a with
  | Affirmative => None
  | Declined => Some (AuthorityError.Declined, r)
  | NotAsked => unavailable (lit "confirmation_not_asked")
  | Awaiting => unavailable (lit "confirmation_awaiting")
  | Invalidated => unavailable (lit "confirmation_invalidated")
  | ProtocolFailed => unavailable (lit "confirmation_protocol_failed")
  end.
End ConfirmationAnswer.
#[export] Instance ConfirmationAnswer_eq_dec : EqDecision ConfirmationAnswer.t.
Proof. solve_decision. Defined.

Record GrantConfirmation := MkGrantConfirmation {
  gc_kind : CapabilityKind.t;
  gc_lines : list str;
  gc_expires_in_secs : Z;
}.

(** ** Asking for a grant, and revoking one *)

Section Store.
Context {crates : Crates} {g : Graphemes} {S : Type} {sink : EvidenceSink S}.
Implicit Types w : GrantWorld S.

(** Every line of the scope in pieces a field holds, numbered. *)
Definition scope_pieces (s : GrantScope.t) : list str :=
  take (MAX_DETAIL - 1) (describe s ≫= chunks (MAX_FIELD - 16)).
Definition record_of (phase : EvidencePhase.t) (id : option GrantId) (s : GrantScope.t)
    (w : GrantWorld S) : EvidenceRecord :=
  let r := EvidenceRecord_new phase (gw_wall w) (gw_generation w) Privacy.Owner in
  let r := r <| er_kind := Some (GrantScope.kind s) |> <| er_target := head (describe s) |> in
  let r := match id with Some id => push_detail (lit "grant") (GrantId_display id) r | None => r end in
  foldl (λ r ip, push_detail (lit "scope." ++ u64_to_string (Z.of_nat ip.1 + 1)) ip.2 r) r
    (imap pair (scope_pieces s)).

(** [record] and [record_end]. *)
Definition grant_record (phase : EvidencePhase.t) (id : option GrantId) (s : GrantScope.t) w
    : aresult unit * GrantWorld S :=
  let '(seq, k) := write_record (record_of phase id s w) (gw_sink w) in
  (match seq with Some _ => Ok tt | None => Err AuthorityError.EvidenceUnavailable end,
   w <| gw_sink := k |>).
Definition grant_record_end (r : EvidenceRecord) w : GrantWorld S :=
  w <| gw_sink := (write_end r (gw_sink w)).2 |>.
Definition grant_check_halt (halt : option HaltCell) w : aresult unit * GrantWorld S :=
  let '(r, c) := check_halt halt (gw_cells w) in (r, w <| gw_cells := c |>).
(** A held room dropped. *)
Definition grant_room_drop w : GrantWorld S := w <| gw_grants := room_drop (gw_grants w) |>.

Definition grant_confirmation (s : GrantScope.t) (ttl : Z) : GrantConfirmation :=
  MkGrantConfirmation (GrantScope.kind s) (describe s) (as_secs ttl).
Definition grant_made (id : GrantId) (s : GrantScope.t) (ttl now wall : Z) : Grant :=
  let ttl_ms := Z.min u64_max (as_millis ttl) in
  MkGrant id s wall (saturating_add u64_max now ttl_ms) (saturating_add u64_max wall ttl_ms) false.

(** What follows the Owner's yes: the room, the record, the grant. [others] is what
    other threads do before each access. *)
Definition grant_issue (s : GrantScope.t) (ttl : Z) (halt : option HaltCell) (id : GrantId)
    (others : nat → GrantWorld S → GrantWorld S) w : aresult GrantId * GrantWorld S :=
  let now := gw_mono w in
  let w := others 4%nat w in
  let wall := gw_wall w in
  let grant := grant_made id s ttl now wall in
  let w := others 5%nat w in
  match room_take now wall (gw_grants w) with
  | Err e => (Err e, w)
  | Ok gs =>
      let w := others 6%nat (w <| gw_grants := gs |>) in
      let '(r, w) := grant_check_halt halt w in
      match r with
      | Err e => (Err e, grant_room_drop (others 7%nat w))
      | Ok _ =>
          let '(r, w) := grant_record EvidencePhase.GrantIssued (Some id) s (others 8%nat w) in
          match r with
          | Err e => (Err e, grant_room_drop (others 9%nat w))
          | Ok _ =>
              let w := others 10%nat w in
              let '(r, gs, c) := room_fill grant halt (gw_grants w) (gw_cells w) in
              let w := w <| gw_grants := gs |> <| gw_cells := c |> in
              match r with
              | Ok _ => (Ok id, w)
              | Err e =>
                  let w := others 11%nat w in
                  let r := record_of EvidencePhase.GrantDeclined (Some id) s w in
                  let r := push_detail (lit "reason") (lit "grant_issue_refused_halted")
                             (r <| er_failure := Some (AuthorityError.class e) |>) in
                  (Err e, grant_record_end r (others 12%nat w))
              end
          end
      end
  end.

Definition request_with_halt (s : GrantScope.t) (ttl : Z)
    (confirm_grant_answer : GrantConfirmation → ConfirmationAnswer.t) (halt : option HaltCell)
    (id : GrantId) (others : nat → GrantWorld S → GrantWorld S) w
    : aresult GrantId * GrantWorld S :=
  let '(r, w) := grant_check_halt halt w in
  match r with
  | Err e => (Err e, w)
  | Ok _ =>
      let ttl := Z.min ttl MAX_GRANT_TTL in
      if negb (forallb is_plain (describe s))
      then (Err (AuthorityError.InvalidAction (lit "grant text is not plain")), w)
      else
        let '(r, w) := grant_check_halt halt (others 0%nat w) in
        match r with
        | Err e => (Err e, w)
        | Ok _ =>
            let answer := confirm_grant_answer (grant_confirmation s ttl) in
            let w := others 1%nat w in
            match ConfirmationAnswer.refusal answer (record_of EvidencePhase.GrantDeclined None s w) with
            | Some (e, refusal) => (Err e, grant_record_end refusal (others 2%nat w))
            | None => grant_issue s ttl halt id others (others 3%nat w)
            end
        end
  end.

(** [grant.revoked = true], through [get_mut]. *)
Definition mark_revoked (id : GrantId) (gr : Grant) (gs : Grants) : Grants :=
  MkGrants (<[id := MkGrant (gr_id gr) (gr_scope gr) (gr_created_wall_ms gr) (gr_expires_ms gr)
                      (gr_expires_wall_ms gr) true]> (g_map gs)) (g_reserved gs).
Definition revoke (id : GrantId) (others : nat → GrantWorld S → GrantWorld S) w
    : aresult unit * GrantWorld S :=
  match g_map (gw_grants w) !! id with
  | None => (Err AuthorityError.UnknownGrant, w)
  | Some gr =>
      let w := others 0%nat (w <| gw_grants := mark_revoked id gr (gw_grants w) |>) in
      let w := others 1%nat (w <| gw_generation := bump (gw_generation w) |>) in
      (Ok tt, grant_record_end (record_of EvidencePhase.GrantRevoked (Some id) (gr_scope gr) w)
                (others 2%nat w))
  end.
End Store.

(** [try_live_at]: a held or poisoned store refuses, each by its name. *)
Module GrantObservation.
Inductive t :=
| Contended
| Poisoned.
End GrantObservation.
Module Lock.
Inductive t :=
| Free
| Held
| Broken.
End Lock.
Definition try_live_at (lock : Lock.t) (id : GrantId) (mono_ms wall_ms : Z) (gs : Grants)
    : result (option GrantScope.t) GrantObservation.t :=
  match lock with
  | Lock.Held => Err GrantObservation.Contended
  | Lock.Broken => Err GrantObservation.Poisoned
  | Lock.Free => Ok (gr_scope <$> live_at id mono_ms wall_ms gs)
  end.

(** ** The store under every interleaving

    The store and the calls that hold room in it: [gy_held] the grants whose issue is
    being recorded, [gy_used] every id drawn so far ([GrantId::fresh] never draws one
    twice). *)

Record GrantSys {S : Type} := MkGrantSys {
  gy_world : GrantWorld S;
  gy_held : list Grant;
  gy_used : gset GrantId;
}.
Arguments GrantSys : clear implicits.
Arguments MkGrantSys {S}.

Section Interleaving.
Context {crates : Crates} {g : Graphemes} {S : Type} {sink : EvidenceSink S}.
Implicit Types (w : GrantWorld S) (s : GrantSys S).

(** One hold of the store's lock, or a change of what is around the store: the
    monotonic clock does not go back, the wall clock may be set. *)
Inductive gstep : GrantSys S → GrantSys S → Prop :=
| gs_around w w' held used :
    gw_grants w' = gw_grants w → gw_mono w ≤ gw_mono w' →
    gstep (MkGrantSys w held used) (MkGrantSys w' held used)
| gs_take w held used id scope ttl now wall gs :
    id ∉ used → now ≤ gw_mono w → room_take now wall (gw_grants w) = Ok gs →
    gstep (MkGrantSys w held used)
      (MkGrantSys (w <| gw_grants := gs |>)
         (grant_made id scope (Z.min ttl MAX_GRANT_TTL) now wall :: held) ({[id]} ∪ used))
| gs_drop w gr held held' used :
    held ≡ₚ gr :: held' →
    gstep (MkGrantSys w held used) (MkGrantSys (grant_room_drop w) held' used)
| gs_fill w gr held held' used halt gs c :
    held ≡ₚ gr :: held' → room_fill gr halt (gw_grants w) (gw_cells w) = (Ok tt, gs, c) →
    gstep (MkGrantSys w held used)
      (MkGrantSys (w <| gw_grants := gs |> <| gw_cells := c |>) held' used)
| gs_revoke w held used id gr :
    g_map (gw_grants w) !! id = Some gr →
    gstep (MkGrantSys w held used)
      (MkGrantSys (w <| gw_grants := mark_revoked id gr (gw_grants w) |>) held used).

Definition DAY_MS : Z := 24 * 3600 * 1000.

(** Rooms are counted exactly; a grant kept or on its way has its own id, drawn once,
    and at most a day left. *)
Record gsys_ok (s : GrantSys S) : Prop := {
  gok_room : g_reserved (gw_grants (gy_world s)) = Z.of_nat (length (gy_held s));
  gok_capacity : g_len (gw_grants (gy_world s)) + g_reserved (gw_grants (gy_world s)) ≤ GRANT_CAPACITY;
  gok_ids : map_Forall (λ id gr, gr_id gr = id) (g_map (gw_grants (gy_world s)));
  gok_held : NoDup (gr_id <$> gy_held s);
  gok_fresh : ∀ gr, gr ∈ gy_held s → gr_id gr ∈ gy_used s ∧
                g_map (gw_grants (gy_world s)) !! gr_id gr = None;
  gok_used : ∀ id, is_Some (g_map (gw_grants (gy_world s)) !! id) → id ∈ gy_used s;
  gok_day : ∀ gr, gr ∈ gy_held s ∨ (∃ id, g_map (gw_grants (gy_world s)) !! id = Some gr) →
              gr_expires_ms gr ≤ gw_mono (gy_world s) + DAY_MS ∧
              gr_expires_wall_ms gr ≤ gr_created_wall_ms gr + DAY_MS;
}.

Lemma room_take_spec now wall gs gs' :
  room_take now wall gs = Ok gs' →
  ∃ m, g_map gs' = m ∧ m ⊆ g_map gs ∧ g_reserved gs' = g_reserved gs + 1 ∧
    Z.of_nat (size m) + g_reserved gs < GRANT_CAPACITY ∧
    (∀ id gr, g_map gs !! id = Some gr → m !! id = None → grant_live gr now wall = false).
Proof.
  unfold room_take. set (gs1 := if GRANT_CAPACITY <=? _ then _ else gs).
  assert (H1 : g_map gs1 ⊆ g_map gs ∧ g_reserved gs1 = g_reserved gs ∧
    ∀ id gr, g_map gs !! id = Some gr → g_map gs1 !! id = None → grant_live gr now wall = false).
  { subst gs1. destruct (_ <=? _); [|split_and!; [done..|congruence]].
    split_and!; [apply map_filter_subseteq|done|]. simpl. intros id gr Hg.
    rewrite map_lookup_filter_None. intros [?|H]; [congruence|].
    apply H in Hg. simpl in Hg. by destruct (grant_live gr now wall). }
  clearbody gs1. destruct H1 as (Hm & Hr & Hl).
  destruct (Z.leb_spec GRANT_CAPACITY (g_len gs1 + g_reserved gs1)); [done|].
  intros [= <-]. exists (g_map gs1). simpl. unfold g_len in *. rewrite <- Hr. split_and!; done || lia.
Qed.

Lemma grant_made_day id scope ttl now wall :
  gr_expires_ms (grant_made id scope (Z.min ttl MAX_GRANT_TTL) now wall) ≤ now + DAY_MS ∧
  gr_expires_wall_ms (grant_made id scope (Z.min ttl MAX_GRANT_TTL) now wall) ≤ wall + DAY_MS.
Proof.
  unfold grant_made, saturating_add, as_millis, MAX_GRANT_TTL, SECOND, DAY_MS. simpl.
  assert (Z.min ttl (24 * 3600 * 1000000000) / 1000000 ≤ 24 * 3600 * 1000)
    by (apply Z.div_le_upper_bound; lia).
  lia.
Qed.

Lemma room_fill_ok gr halt gs c gs' c' :
  room_fill gr halt gs c = (Ok tt, gs', c') →
  gs' = MkGrants (<[gr_id gr := gr]> (g_map gs)) (Z.max 0 (g_reserved gs - 1)).
Proof.
  unfold room_fill. destruct (check_halt halt c) as [[[]|] ?]; [|done]. by intros [= <- _].
Qed.

Lemma take_ok w held used id scope ttl now wall gs :
  id ∉ used → now ≤ gw_mono w → room_take now wall (gw_grants w) = Ok gs →
  gsys_ok (MkGrantSys w held used) →
  gsys_ok (MkGrantSys (w <| gw_grants := gs |>)
    (grant_made id scope (Z.min ttl MAX_GRANT_TTL) now wall :: held) ({[id]} ∪ used)).
Proof.
  intros Hid Hnow Ht [Hr Hc Hi Hh Hf Hu Hd]. simpl in *.
  apply room_take_spec in Ht as (m & Hm & Hsub & Hr' & Hs & _).
  pose proof (grant_made_day id scope ttl now wall) as Hday.
  assert (Hsome : ∀ i gr, g_map gs !! i = Some gr → g_map (gw_grants w) !! i = Some gr)
    by (intros i gr; rewrite Hm; intros E; exact (lookup_weaken _ _ _ _ E Hsub)).
  assert (Hnone : ∀ i, g_map (gw_grants w) !! i = None → g_map gs !! i = None).
  { intros i E. destruct (g_map gs !! i) eqn:E'; [|done]. apply Hsome in E'. congruence. }
  split; simpl; unfold g_len in *; rewrite ?Hm; try lia.
  - intros i gr' Hg. apply Hi, Hsome. by rewrite Hm.
  - rewrite NoDup_cons. split; [|done]. simpl.
    intros (gr & Hgr & Hin)%list_elem_of_fmap. apply Hf in Hin as [Hin _]. by rewrite <- Hgr in Hin.
  - intros gr' [->|Hin]%elem_of_cons; simpl; rewrite <- Hm.
    + split; [set_solver|]. apply Hnone, eq_None_not_Some. intros ?%Hu. done.
    + apply Hf in Hin as [? ?]. split; [set_solver|by apply Hnone].
  - intros i [gr' Hg]. rewrite <- Hm in Hg. apply Hsome in Hg. assert (i ∈ used) by eauto. set_solver.
  - intros gr' [[->|Hin]%elem_of_cons|[i Hg]]; [simpl in *; lia|apply Hd; by left|].
    apply Hd. right. exists i. apply Hsome. by rewrite Hm.
Qed.

Lemma drop_ok w gr held held' used :
  held ≡ₚ gr :: held' → gsys_ok (MkGrantSys w held used) →
  gsys_ok (MkGrantSys (grant_room_drop w) held' used).
Proof.
  intros Hp [Hr Hc Hi Hh Hf Hu Hd]. simpl in *. rewrite Hp in Hr. rewrite Hp, fmap_cons, NoDup_cons in Hh.
  assert (Hin : ∀ x, x ∈ held' → x ∈ held) by (intros x; rewrite Hp; set_solver).
  split; simpl in *; unfold g_len in *; simpl; try done; try lia; [naive_solver|auto|].
  intros x [?|?]; apply Hd; auto.
Qed.

Lemma fill_ok w gr held held' used halt gs c :
  held ≡ₚ gr :: held' → room_fill gr halt (gw_grants w) (gw_cells w) = (Ok tt, gs, c) →
  gsys_ok (MkGrantSys w held used) →
  gsys_ok (MkGrantSys (w <| gw_grants := gs |> <| gw_cells := c |>) held' used).
Proof.
  intros Hp ->%room_fill_ok [Hr Hc Hi Hh Hf Hu Hd]. simpl in *. rewrite Hp in Hr.
  rewrite Hp, fmap_cons, NoDup_cons in Hh. destruct Hh as [Hn Hh].
  assert (Hin : ∀ x, x ∈ held' → x ∈ held) by (intros x; rewrite Hp; set_solver).
  destruct (Hf gr) as [Hgu Hgn]; [rewrite Hp; set_solver|].
  split; simpl in *; unfold g_len in *; simpl; rewrite ?map_size_insert_None; try done; try lia.
  - by apply map_Forall_insert_2.
  - intros gr' Hgr. destruct (Hf gr' (Hin _ Hgr)) as [? ?]. split; [done|].
    rewrite lookup_insert_ne; [done|]. intros E. apply Hn. rewrite E. by apply list_elem_of_fmap_2.
  - intros i Hi'. destruct (decide (i = gr_id gr)) as [->|]; [done|].
    rewrite lookup_insert_ne in Hi' by done. by apply Hu.
  - intros gr' [Hgr|[i Hg]]; apply Hd; [auto|].
    apply lookup_insert_Some in Hg as [[_ <-]|[_ ?]]; [left; rewrite Hp; set_solver|eauto].
Qed.

Lemma revoke_ok w held used id gr :
  g_map (gw_grants w) !! id = Some gr → gsys_ok (MkGrantSys w held used) →
  gsys_ok (MkGrantSys (w <| gw_grants := mark_revoked id gr (gw_grants w) |>) held used).
Proof.
  intros Hg [Hr Hc Hi Hh Hf Hu Hd]. simpl in *. unfold mark_revoked.
  split; simpl in *; unfold g_len in *; simpl; rewrite ?map_size_insert_Some by eauto; try done.
  - apply map_Forall_insert_2; [|done]. exact (Hi _ _ Hg).
  - intros gr' Hin. destruct (Hf _ Hin) as [? Hn]. split; [done|].
    rewrite lookup_insert_ne; [done|]. intros ->. congruence.
  - intros i. rewrite lookup_insert_is_Some'. intros [<-|?]; eauto.
  - intros gr' [Hin|[i [[_ <-]|[_ ?]]%lookup_insert_Some]]; [auto| |eauto]. simpl.
    apply (Hd gr). eauto.
Qed.

Lemma gstep_ok s s' : gstep s s' → gsys_ok s → gsys_ok s'.
Proof.
  intros [w w' held used Hg Hm| | | |];
    [|by apply take_ok|by eapply drop_ok|by eapply fill_ok|by eapply revoke_ok].
  intros [Hr Hc Hi Hh Hf Hu Hd]. simpl in *.
  split; simpl; rewrite ?Hg; try done. intros gr Hgr. apply Hd in Hgr. lia.
Qed.

Lemma gsteps_ok s s' : rtc gstep s s' → gsys_ok s → gsys_ok s'.
Proof. induction 1; eauto using gstep_ok. Qed.

(** The empty store. *)
Lemma gsys_new_ok w : gw_grants w = grants_new → gsys_ok (MkGrantSys w [] ∅).
Proof.
  intros E. split; simpl; rewrite ?E; simpl; try done; [constructor|set_solver|by intros id [? ?]|].
  intros gr [?|[? ?]]; [set_solver|done].
Qed.

(** Nothing may live again: drawn, on its way to no room, and ended if kept. *)
Definition ended (id : GrantId) (s : GrantSys S) : Prop :=
  id ∈ gy_used s ∧ (∀ gr, gr ∈ gy_held s → gr_id gr ≠ id) ∧
  (∀ gr, g_map (gw_grants (gy_world s)) !! id = Some gr →
     gr_revoked gr = true ∨ gr_expires_ms gr ≤ gw_mono (gy_world s)).

Lemma gstep_ended id s s' : gstep s s' → ended id s → ended id s'.
Proof.
  intros Hstep (Hu & Hh & He).
  destruct Hstep as [w w' held used Hg Hm|w held used id' scope ttl now wall gs Hid Hnow Ht
    |w gr held held' used Hp|w gr held held' used halt gs c Hp Hfill|w held used id' gr Hg];
    unfold ended; simpl in *; split_and!; try done.
  - rewrite Hg. intros gr E. destruct (He _ E); [by left|right; lia].
  - set_solver.
  - intros gr [->|Hin]%elem_of_cons; [simpl; set_solver|by apply Hh].
  - apply room_take_spec in Ht as (m & Hm & Hsub & _). rewrite Hm. intros gr E.
    apply He. exact (lookup_weaken _ _ _ _ E Hsub).
  - intros gr' Hin. apply Hh. rewrite Hp. set_solver.
  - intros gr' Hin. apply Hh. rewrite Hp. set_solver.
  - apply room_fill_ok in Hfill as ->. simpl. intros gr'. rewrite lookup_insert_ne; [by apply He|].
    apply Hh. rewrite Hp. set_solver.
  - intros gr' [[-> <-]|[_ ?]]%lookup_insert_Some; [by left|by apply He].
Qed.

Lemma gsteps_ended id s s' : rtc gstep s s' → ended id s → ended id s'.
Proof. induction 1; eauto using gstep_ended. Qed.

(** A grant that has ended never allows anything again: once it is revoked, or the
    monotonic clock has reached its expiry, no later state of the store has it live,
    whatever the wall clock is set to and whichever requests, refusals, revocations and
    prunings come in between, at any interleaving of their lock holds. *)
Theorem grant_end_is_final s s' id gr wall
    (Hok : gsys_ok s) (Hg : g_map (gw_grants (gy_world s)) !! id = Some gr)
    (Hend : gr_revoked gr = true ∨ gr_expires_ms gr ≤ gw_mono (gy_world s))
    (Hrun : rtc gstep s s') :
  live_at id (gw_mono (gy_world s')) wall (gw_grants (gy_world s')) = None.
Proof.
  assert (ended id s) as (_ & _ & He)%(gsteps_ended _ _ _ Hrun).
  { split_and!; [apply (gok_used _ Hok); eauto| |naive_solver].
    intros gr' Hin <-. apply (gok_fresh _ Hok) in Hin as [_ ?]. congruence. }
  unfold live_at. destruct (g_map (gw_grants (gy_world s')) !! id) as [gr'|] eqn:E'; simpl; [|done].
  destruct (He _ eq_refl) as [E|E]; unfold grant_live; [by rewrite E|].
  destruct (Z.ltb_spec (gw_mono (gy_world s')) (gr_expires_ms gr')); [lia|].
  by destruct (gr_revoked gr').
Qed.

(** ** A request is such a run

    The call draws [id]; whatever the other threads do between its accesses are steps of
    the store that leave its room alone. *)
Definition leaves (id : GrantId) (f : GrantWorld S → GrantWorld S) : Prop :=
  ∀ w held used, ∃ held' used',
    rtc gstep (MkGrantSys w held used) (MkGrantSys (f w) held' used') ∧
    (id ∉ used → id ∉ used') ∧
    (∀ gr, gr_id gr = id → gr ∈ held → gr ∈ held').

(** Where the call is: its id not drawn; its room held; no grant made, nor any on its
    way; or its grant made. *)
Inductive Place :=
| Undrawn
| InRoom (gr : Grant)
| NoGrant
| Made.
Definition absent (id : GrantId) (s : GrantSys S) : Prop :=
  id ∈ gy_used s ∧ (∀ gr, gr ∈ gy_held s → gr_id gr ≠ id) ∧
  g_map (gw_grants (gy_world s)) !! id = None.
Definition at_place (id : GrantId) (p : Place) (s : GrantSys S) : Prop :=
  match p with
  | Undrawn => id ∉ gy_used s
  | InRoom gr => gr_id gr = id ∧ gr ∈ gy_held s
  | NoGrant => id ∉ gy_used s ∨ absent id s
  | Made => True
  end.
Definition run (id : GrantId) (p : Place) w (p' : Place) w' : Prop :=
  ∀ held used, gsys_ok (MkGrantSys w held used) → at_place id p (MkGrantSys w held used) →
  ∃ held' used', rtc gstep (MkGrantSys w held used) (MkGrantSys w' held' used') ∧
    at_place id p' (MkGrantSys w' held' used').

Lemma gstep_absent id s s' : gstep s s' → absent id s → absent id s'.
Proof.
  intros Hstep (Hu & Hh & Hm).
  destruct (gstep_ended id s s' Hstep) as (Hu' & Hh' & _); [split_and!; [done..|congruence]|].
  split_and!; try done. destruct Hstep as [w w' held used Hg _|w held used id' scope ttl now wall gs _ _ Ht
    | |w gr held held' used halt gs c Hp Hfill|w held used id' gr Hg]; simpl in *; try done.
  - by rewrite Hg.
  - apply room_take_spec in Ht as (m & <- & Hsub & _).
    destruct (g_map gs !! id) as [gr|] eqn:E; [|done].
    rewrite (lookup_weaken _ _ _ _ E Hsub) in Hm. done.
  - apply room_fill_ok in Hfill as ->. simpl. rewrite lookup_insert_ne; [done|].
    apply Hh. rewrite Hp. set_solver.
  - rewrite lookup_insert_ne; [done|]. intros ->. congruence.
Qed.

Lemma gsteps_absent id s s' : rtc gstep s s' → absent id s → absent id s'.
Proof. induction 1; eauto using gstep_absent. Qed.

Lemma run_trans id p1 w1 p2 w2 p3 w3 : run id p1 w1 p2 w2 → run id p2 w2 p3 w3 → run id p1 w1 p3 w3.
Proof.
  intros H1 H2 held used Hok Hp. destruct (H1 _ _ Hok Hp) as (held' & used' & Hs & Hp').
  destruct (H2 _ _ (gsteps_ok _ _ Hs Hok) Hp') as (held'' & used'' & Hs' & Hp'').
  exists held'', used''. split; [by etrans|done].
Qed.

Lemma run_others id p f w : leaves id f → run id p w p (f w).
Proof.
  intros Hf held used _ Hp. destruct (Hf w held used) as (held' & used' & Hs & Hu & Hh).
  exists held', used'. split; [done|]. destruct p; simpl in *; [naive_solver..| |done].
  destruct Hp; [by left; auto|right; by eapply gsteps_absent].
Qed.

Lemma run_around id p w w' :
  gw_grants w' = gw_grants w → gw_mono w' = gw_mono w → run id p w p w'.
Proof.
  intros Hg Hm held used _ Hp. exists held, used.
  assert (Hstep : gstep (MkGrantSys w held used) (MkGrantSys w' held used)) by (apply gs_around; [done|lia]).
  split; [by apply rtc_once|]. destruct p; simpl in *; try done.
  destruct Hp; [by left|right; by eapply gstep_absent].
Qed.

Lemma run_undrawn id w w' : run id Undrawn w Undrawn w' → run id Undrawn w NoGrant w'.
Proof.
  intros H held used Hok Hp. destruct (H _ _ Hok Hp) as (held' & used' & Hs & Hp').
  exists held', used'. split; [done|by left].
Qed.

Lemma run_take id w scope ttl now wall gs :
  now ≤ gw_mono w → room_take now wall (gw_grants w) = Ok gs →
  run id Undrawn w (InRoom (grant_made id scope (Z.min ttl MAX_GRANT_TTL) now wall))
    (w <| gw_grants := gs |>).
Proof.
  intros Hn Ht held used _ Hp. eexists _, _. split; [by apply rtc_once, gs_take|].
  split; [done|]. apply elem_of_cons. by left.
Qed.

Lemma run_drop id gr w : run id (InRoom gr) w NoGrant (grant_room_drop w).
Proof.
  intros held used [_ _ _ Hh Hf _ _] [Hid Hin]. simpl in *.
  destruct (Hf _ Hin) as [Hu Hm]. apply elem_of_Permutation in Hin as (held' & Hp).
  exists held', used. split; [by eapply rtc_once, gs_drop|]. right. rewrite <- Hid.
  split_and!; simpl; [done| |done]. rewrite Hp, fmap_cons, NoDup_cons in Hh. destruct Hh as [Hn _].
  intros gr' Hgr E. apply Hn. rewrite <- E. by apply list_elem_of_fmap_2.
Qed.

Lemma room_fill_err gr halt gs c e gs' c' :
  room_fill gr halt gs c = (Err e, gs', c') → gs' = room_drop gs.
Proof. unfold room_fill. destruct (check_halt halt c) as [[|] ?]; [done|]. by intros [= _ <- _]. Qed.

Lemma run_fill id gr w halt r gs c :
  room_fill gr halt (gw_grants w) (gw_cells w) = (r, gs, c) →
  run id (InRoom gr) w (match r with Ok _ => Made | Err _ => NoGrant end)
    (w <| gw_grants := gs |> <| gw_cells := c |>).
Proof.
  destruct r as [[]|e]; intros Hf.
  - intros held used _ [Hid (held' & Hp)%elem_of_Permutation].
    eexists _, _. split; [by eapply rtc_once, gs_fill|done].
  - apply room_fill_err in Hf as ->. eapply run_trans; [apply run_drop|by apply run_around].
Qed.

Lemma leaves_mono id f w : leaves id f → gw_mono w ≤ gw_mono (f w).
Proof.
  intros H. destruct (H w [] ∅) as (held & used & Hs & _).
  change (gw_mono (gy_world (MkGrantSys w [] ∅)) ≤ gw_mono (gy_world (MkGrantSys (f w) held used))).
  induction Hs as [|s1 s2 s3 Hstep _ IH]; [done|]. etrans; [|exact IH].
  destruct Hstep; simpl; done || lia.
Qed.

Section Request.
Context (id : GrantId) (others : nat → GrantWorld S → GrantWorld S).
Context (Hothers : ∀ k, leaves id (others k)).

(** Where a call that answered [r] is. *)
Definition answered {A} (r : aresult A) : Place :=
  match r with Ok _ => Made | Err _ => NoGrant end.

(** The call's worlds, one access after another. *)
Ltac around w := eapply (run_trans _ _ _ _ w); [by apply run_around|].
Ltac meanwhile k := eapply run_trans; [apply (run_others _ _ (others k)), Hothers|].

Lemma grant_issue_run scope ttl halt w r w' :
  grant_issue scope (Z.min ttl MAX_GRANT_TTL) halt id others w = (r, w') →
  run id Undrawn w (answered r) w'.
Proof.
  unfold grant_issue. pose proof (leaves_mono _ _ w (Hothers 4)) as H4.
  pose proof (leaves_mono _ _ (others 4%nat w) (Hothers 5)) as H5.
  intros E. meanwhile 4%nat. meanwhile 5%nat. revert E.
  destruct (room_take _ _ _) as [gs|e] eqn:Ht; [|intros [= <- <-]; by apply run_undrawn, run_around].
  intros E. eapply run_trans; [apply run_take; [|exact Ht]; lia|]. meanwhile 6%nat. revert E.
  set (wr := others 6%nat _). unfold grant_check_halt.
  destruct (check_halt halt (gw_cells wr)) as [[[]|e] c]; intros E; around (wr <| gw_cells := c |>);
    [meanwhile 8%nat|injection E as <- <-; meanwhile 7%nat; apply run_drop].
  revert E. set (w8 := others 8%nat _). unfold grant_record.
  destruct (write_record _ _) as [seq k]. intros E. around (w8 <| gw_sink := k |>).
  destruct seq as [seq|]; [meanwhile 10%nat|injection E as <- <-; meanwhile 9%nat; apply run_drop].
  revert E. set (w10 := others 10%nat _).
  destruct (room_fill _ _ _ _) as [[r' gs'] c'] eqn:Hf. intros E.
  eapply run_trans; [by eapply run_fill|].
  destruct r' as [[]|e]; injection E as <- <-; [by apply run_around|].
  meanwhile 11%nat. meanwhile 12%nat. by apply run_around.
Qed.

Lemma request_run scope ttl answer halt w r w' :
  request_with_halt scope ttl answer halt id others w = (r, w') → run id Undrawn w (answered r) w'.
Proof.
  unfold request_with_halt, grant_check_halt.
  destruct (check_halt halt (gw_cells w)) as [[[]|e] c]; intros E; around (w <| gw_cells := c |>);
    [|injection E as <- <-; by apply run_undrawn, run_around].
  destruct (negb _); [injection E as <- <-; by apply run_undrawn, run_around|]. meanwhile 0%nat.
  revert E. set (w0 := others 0%nat _).
  destruct (check_halt halt (gw_cells w0)) as [[[]|e] c']; intros E; around (w0 <| gw_cells := c' |>);
    [meanwhile 1%nat|injection E as <- <-; by apply run_undrawn, run_around]. revert E.
  destruct (ConfirmationAnswer.refusal _ _) as [[e rec]|]; intros E.
  - injection E as <- <-. meanwhile 2%nat. by apply run_undrawn, run_around.
  - meanwhile 3%nat. by eapply grant_issue_run.
Qed.

(** A request the store answered with a grant: what was confirmed, recorded and kept. *)
Definition as_confirmed (scope : GrantScope.t) (ttl : Z)
    (answer : GrantConfirmation → ConfirmationAnswer.t) w' : Prop :=
  let ttl := Z.min ttl MAX_GRANT_TTL in
  Forall (λ l, is_plain l = true) (describe scope) ∧
  answer (grant_confirmation scope ttl) = ConfirmationAnswer.Affirmative ∧
  (∃ wr seq, (write_record (record_of EvidencePhase.GrantIssued (Some id) scope wr) (gw_sink wr)).1 = Some seq) ∧
  ∃ now wall, g_map (gw_grants w') !! id = Some (grant_made id scope ttl now wall).

Lemma grant_issue_ok scope ttl halt w id' w' :
  grant_issue scope ttl halt id others w = (Ok id', w') →
  id' = id ∧
  (∃ wr seq, (write_record (record_of EvidencePhase.GrantIssued (Some id) scope wr) (gw_sink wr)).1 = Some seq) ∧
  ∃ now wall, g_map (gw_grants w') !! id = Some (grant_made id scope ttl now wall).
Proof.
  unfold grant_issue. destruct (room_take _ _ _) as [gs|]; [|done].
  destruct (grant_check_halt _ _) as [[[]|] w1]; [|done].
  destruct (grant_record _ _ _ _) as [[[]|] w2] eqn:Er; [|done].
  destruct (room_fill _ _ _ _) as [[[[]|] gs2] c2] eqn:Ef; [|done].
  intros [= <- <-]. split; [done|]. split.
  - unfold grant_record in Er. destruct (write_record _ _) as [seq k] eqn:Ew. simplify_eq.
    destruct seq as [seq|]; [|done]. eexists _, seq. by rewrite Ew.
  - apply room_fill_ok in Ef as ->. eexists _, _. simpl. apply lookup_insert_eq.
Qed.

(** A request for a grant, with any other requests and revocations between its
    accesses, keeps the store within its capacity with every room counted, and answers
    with a grant only when the Owner affirmed exactly the lines and duration of that
    grant, every line plain, and the issue was recorded first; the grant kept is the one
    described, for at most a day. Refused or failed at any point, it leaves no grant. *)
Theorem grant_request scope ttl answer halt w held used r w'
    (Hok : gsys_ok (MkGrantSys w held used)) (Hid : id ∉ used)
    (Hreq : request_with_halt scope ttl answer halt id others w = (r, w')) :
  (∃ held' used', rtc gstep (MkGrantSys w held used) (MkGrantSys w' held' used') ∧
     gsys_ok (MkGrantSys w' held' used')) ∧
  g_len (gw_grants w') + g_reserved (gw_grants w') ≤ GRANT_CAPACITY ∧
  match r with
  | Ok id' => id' = id ∧ as_confirmed scope ttl answer w'
  | Err _ => g_map (gw_grants w') !! id = None
  end.
Proof.
  destruct (request_run _ _ _ _ _ _ _ Hreq _ _ Hok Hid) as (held' & used' & Hs & Hp).
  pose proof (gsteps_ok _ _ Hs Hok) as Hok'. split_and!; [by eauto|exact (gok_capacity _ Hok')|].
  destruct r as [id'|e].
  - revert Hreq. unfold request_with_halt, as_confirmed.
    destruct (grant_check_halt halt w) as [[[]|] w1]; [|done].
    destruct (forallb is_plain (describe scope)) eqn:Hl; [|done]. simpl.
    destruct (grant_check_halt halt _) as [[[]|] w2]; [|done].
    destruct (answer _); simpl; try done. intros (? & ? & ?)%grant_issue_ok. split_and!; try done.
    by apply List.Forall_forall, List.forallb_forall.
  - simpl in Hp. destruct Hp as [Hp|(_ & _ & Hp)]; [|done]. apply eq_None_not_Some.
    intros ?%(gok_used _ Hok'). done.
Qed.
End Request.
End Interleaving.

(** ** Samples *)

Module SampleGrants.
Import SampleCrates.
#[local] Existing Instance single_graphemes.
#[local] Existing Instance crates.
#[local] Existing Instance sink.

Definition scope : GrantScope.t := GrantScope.Perception (lit "agent-1").
Definition world : GrantWorld (list EvidenceRecord) :=
  MkGrantWorld _ grants_new 1 (MkCells ∅ ∅ ∅ 0 ∅) [] 5 7.
Definition yes (_ : GrantConfirmation) : ConfirmationAnswer.t := ConfirmationAnswer.Affirmative.
Definition alone (_ : nat) (w : GrantWorld (list EvidenceRecord)) : GrantWorld (list EvidenceRecord) := w.
Definition granted := request_with_halt scope (90000 * SECOND) yes None [9] alone world.

Lemma alone_leaves k : leaves [9] (alone k).
Proof. intros w held used. exists held, used. split; [apply rtc_refl|]. auto. Qed.

Lemma world_ok : gsys_ok (MkGrantSys world [] ∅).
Proof. by apply gsys_new_ok. Qed.

Lemma grant_request_witness :
  granted.1 = Ok [9] ∧
  g_map (gw_grants granted.2) !! [9] = Some (grant_made [9] scope MAX_GRANT_TTL 5 7) ∧
  g_len (gw_grants granted.2) + g_reserved (gw_grants granted.2) ≤ GRANT_CAPACITY.
Proof.
  assert (E : granted = (Ok [9], granted.2)) by (vm_compute; reflexivity).
  split; [by rewrite E|]. split; [vm_compute; reflexivity|].
  exact (proj1 (proj2 (grant_request [9] alone alone_leaves scope (90000 * SECOND) yes None world []
    ∅ (Ok [9]) granted.2 world_ok (not_elem_of_empty _) E))).
Defined.

(** The granted store a day later, and a step after. *)
Definition later : GrantWorld (list EvidenceRecord) := granted.2 <| gw_mono := 5 + DAY_MS |>.

Lemma later_ok : ∃ held used, gsys_ok (MkGrantSys later held used).
Proof.
  assert (E : granted = (Ok [9], granted.2)) by (vm_compute; reflexivity).
  destruct (request_run [9] alone alone_leaves scope (90000 * SECOND) yes None world _ _ E [] ∅
    world_ok (not_elem_of_empty _)) as (held & used & Hs & _).
  exists held, used. eapply gstep_ok; [|exact (gsteps_ok _ _ Hs world_ok)].
  apply gs_around; vm_compute; congruence.
Qed.

Lemma grant_end_is_final_witness :
  is_Some (live_at [9] 5 7 (gw_grants granted.2)) ∧
  live_at [9] (gw_mono later) 7 (gw_grants later) = None.
Proof.
  split; [vm_compute; eauto|]. destruct later_ok as (held & used & Hok).
  apply (grant_end_is_final (MkGrantSys later held used) (MkGrantSys later held used) [9]
    (grant_made [9] scope MAX_GRANT_TTL 5 7) 7 Hok).
  - vm_compute. reflexivity.
  - right. vm_compute. congruence.
  - apply rtc_refl.
Defined.
End SampleGrants.
