(* ===== verification/AuthHalt.v ===== *)
(** * The door halt's records

    [authority/halt.rs] of [crates/nexus-governed-control/src]: the end records of the
    transitions one call made ([RecordBatch]), written once no lock is held, and the
    broker's counters ([HaltCounters]). The counters are atomics that several batches
    share: [HaltSys] holds them with the batches alive. *)

From S2P Require Import Prelude AuthBase.

Local Open Scope Z_scope.
Local Open Scope nexus_scope.

(** [HaltRecords], the counters' snapshot; a [u64] wraps. *)
Record HaltRecords := MkHaltRecords {
  hr_pending : Z;
  hr_recorded : Z;
  hr_owed : Z;
  hr_uncertain : Z;
  hr_lost : Z;
}.
Definition halt_counters_new : HaltRecords := MkHaltRecords 0 0 0 0 0.
Definition wrap (n : Z) : Z := n mod 2 ^ 64.

(** [leave]: one pending record leaves for a counter, the one of what
    its end record came to. *)
Definition leave (to : EndStatus.t) (h : HaltRecords) : HaltRecords :=
  let p := wrap (hr_pending h - 1) in
  match to with
  | EndStatus.Recorded _ =>
      MkHaltRecords p (wrap (hr_recorded h + 1)) (hr_owed h) (hr_uncertain h) (hr_lost h)
  | EndStatus.Owed =>
      MkHaltRecords p (hr_recorded h) (wrap (hr_owed h + 1)) (hr_uncertain h) (hr_lost h)
  | EndStatus.Uncertain =>
      MkHaltRecords p (hr_recorded h) (hr_owed h) (wrap (hr_uncertain h + 1)) (hr_lost h)
  end.

Record BatchOutcome := MkBatchOutcome {
  bo_recorded : Z;
  bo_owed : Z;
  bo_uncertain : Z;
}.
Definition outcome_add (to : EndStatus.t) (o : BatchOutcome) : BatchOutcome :=
  match to with
  | EndStatus.Recorded _ => MkBatchOutcome (bo_recorded o + 1) (bo_owed o) (bo_uncertain o)
  | EndStatus.Owed => MkBatchOutcome (bo_recorded o) (bo_owed o + 1) (bo_uncertain o)
  | EndStatus.Uncertain => MkBatchOutcome (bo_recorded o) (bo_owed o) (bo_uncertain o + 1)
  end.

Record RecordBatch := MkBatch {
  rb_records : list EvidenceRecord;
  rb_in_flight : bool;
}.
Definition batch_new : RecordBatch := MkBatch [] false.
Definition batch_push (r : EvidenceRecord) (b : RecordBatch) (h : HaltRecords)
    : RecordBatch * HaltRecords :=
  (MkBatch (rb_records b ++ [r]) (rb_in_flight b),
   MkHaltRecords (wrap (hr_pending h + 1)) (hr_recorded h) (hr_owed h) (hr_uncertain h) (hr_lost h)).

(** [Drop]: the record whose write unwound is uncertain, the rest are lost. *)
Definition batch_drop (b : RecordBatch) (h : HaltRecords) : HaltRecords :=
  let n := Z.of_nat (length (rb_records b)) in
  let '(h, n) :=
    if rb_in_flight b && (0 <? n) then (leave EndStatus.Uncertain h, n - 1) else (h, n) in
  MkHaltRecords (wrap (hr_pending h - n)) (hr_recorded h) (hr_owed h) (hr_uncertain h)
    (wrap (hr_lost h + n)).

Section Write.
Context {crates : Crates} {S : Type} {sink : EvidenceSink S}.
(** Whether a sink's write unwinds (a projection may panic after its commit). *)
Context (unwinds : EvidenceRecord → S → bool).

(** [write], its loop over the queue; the batch is dropped when it returns, and with the
    record in flight when a write unwinds ([None]). *)
Fixpoint batch_write_from (records : list EvidenceRecord) (o : BatchOutcome) (h : HaltRecords) (s : S)
    : option BatchOutcome * HaltRecords * S :=
  match records with
  | [] => (Some o, batch_drop (MkBatch [] false) h, s)
  | r :: rest =>
      let '(status, s') := write_end r s in
      if unwinds r s then (None, batch_drop (MkBatch (r :: rest) true) h, s')
      else batch_write_from rest (outcome_add status o) (leave status h) s'
  end.
Definition batch_write (b : RecordBatch) : HaltRecords → S → option BatchOutcome * HaltRecords * S :=
  batch_write_from (rb_records b) (MkBatchOutcome 0 0 0).
End Write.

(** ** Batches side by side *)

Record HaltSys := MkHaltSys {
  hs_counters : HaltRecords;
  hs_batches : gmap nat RecordBatch;
}.

(** One access of one batch's owner to the shared counters, [n] records pushed so far; a
    batch ends by [batch_drop], after the last record of a write or before. *)
Inductive hrun : Z → HaltSys → Prop :=
| hr_start : hrun 0 (MkHaltSys halt_counters_new ∅)
| hr_new n h m i : hrun n (MkHaltSys h m) → m !! i = None →
    hrun n (MkHaltSys h (<[i := batch_new]> m))
| hr_push n h m i b r b' h' : hrun n (MkHaltSys h m) →
    m !! i = Some b → batch_push r b h = (b', h') →
    hrun (n + 1) (MkHaltSys h' (<[i := b']> m))
| hr_flight n h m i b : hrun n (MkHaltSys h m) → m !! i = Some b →
    hrun n (MkHaltSys h (<[i := MkBatch (rb_records b) true]> m))
| hr_leave n h m i r rest to : hrun n (MkHaltSys h m) →
    m !! i = Some (MkBatch (r :: rest) true) →
    hrun n (MkHaltSys (leave to h) (<[i := MkBatch rest false]> m))
| hr_drop n h m i b : hrun n (MkHaltSys h m) → m !! i = Some b →
    hrun n (MkHaltSys (batch_drop b h) (delete i m)).

(** The records the batches alive hold, and those counted out. *)
Definition batch_len (b : RecordBatch) : Z := Z.of_nat (length (rb_records b)).
Definition waiting (m : gmap nat RecordBatch) : Z :=
  map_fold (λ _ b n, batch_len b + n) 0 m.
Definition counted (h : HaltRecords) : Z :=
  hr_recorded h + hr_owed h + hr_uncertain h + hr_lost h.

Lemma waiting_insert m i b :
  m !! i = None → waiting (<[i := b]> m) = batch_len b + waiting m.
Proof. intros. unfold waiting. rewrite map_fold_insert_L; [done|intros; lia|done]. Qed.

Lemma waiting_delete m i b : m !! i = Some b → waiting m = batch_len b + waiting (delete i m).
Proof.
  intros Hi. rewrite <- (insert_delete_id m i b) at 1 by done.
  apply waiting_insert, lookup_delete_eq.
Qed.

Lemma waiting_replace m i b b' :
  m !! i = Some b → waiting (<[i := b']> m) = waiting m - batch_len b + batch_len b'.
Proof.
  intros Hi. rewrite (waiting_delete m i b Hi), <- insert_delete_eq, waiting_insert; [lia|].
  apply lookup_delete_eq.
Qed.

Lemma waiting_nonneg m : 0 ≤ waiting m.
Proof.
  induction m as [|i b m Hi IH] using map_ind; [done|].
  rewrite waiting_insert by done. unfold batch_len. lia.
Qed.

Lemma wrap_small n : 0 ≤ n < 2 ^ 64 → wrap n = n.
Proof. apply Z.mod_small. Qed.

(** No counter has wrapped, and [n] records are waiting or counted. *)
Record accounted (n w : Z) (h : HaltRecords) : Prop := {
  ac_pending : hr_pending h = w;
  ac_counted : counted h = n - w;
  ac_recorded : 0 ≤ hr_recorded h;
  ac_owed : 0 ≤ hr_owed h;
  ac_uncertain : 0 ≤ hr_uncertain h;
  ac_lost : 0 ≤ hr_lost h;
}.

Lemma leave_accounted n w to h :
  n < 2 ^ 64 → 1 ≤ w → accounted n w h → accounted n (w - 1) (leave to h).
Proof.
  intros Hn Hw [Hp Hc ? ? ? ?]. unfold counted in Hc.
  destruct to; split; unfold counted; simpl; rewrite ?wrap_small; lia.
Qed.

Lemma drop_accounted n w b h :
  n < 2 ^ 64 → 0 ≤ w → accounted n (batch_len b + w) h → accounted n w (batch_drop b h).
Proof.
  intros Hn Hw Ha. unfold batch_drop. unfold batch_len in Ha.
  assert (∃ k h', (if rb_in_flight b && (0 <? Z.of_nat (length (rb_records b)))
    then (leave EndStatus.Uncertain h, Z.of_nat (length (rb_records b)) - 1)
    else (h, Z.of_nat (length (rb_records b)))) = (h', k) ∧ 0 ≤ k ∧ accounted n (k + w) h')
    as (k & h' & -> & Hk & [Hp Hc ? ? ? ?]).
  { destruct (rb_in_flight b && _) eqn:E; [|eauto with lia]. eexists _, _. split; [done|]. split; [lia|].
    eapply leave_accounted in Ha; [|done|lia].
    replace (Z.of_nat (length (rb_records b)) - 1 + w) with (Z.of_nat (length (rb_records b)) + w - 1) by lia.
    exact Ha. }
  unfold counted in Hc. split; unfold counted; simpl; rewrite ?wrap_small; lia.
Qed.

Lemma hrun_nonneg n s : hrun n s → 0 ≤ n.
Proof. induction 1; lia. Qed.

Lemma hrun_accounted n s :
  hrun n s → n < 2 ^ 64 → accounted n (waiting (hs_batches s)) (hs_counters s).
Proof.
  intros Hrun Hn. induction Hrun as [|n h m i Hr IH Hi|n h m i b r b' h' Hr IH Hi Hp|n h m i b Hr IH Hi
    |n h m i r rest to Hr IH Hi|n h m i b Hr IH Hi]; simpl in *.
  - by split.
  - rewrite waiting_insert by done. by apply IH.
  - specialize (IH ltac:(lia)). destruct IH as [Hpe Hc ? ? ? ?]. unfold counted in Hc.
    pose proof (waiting_nonneg m). injection Hp as <- <-. rewrite (waiting_replace _ _ b) by done.
    unfold batch_len. simpl. rewrite length_app. simpl.
    split; unfold counted; simpl; rewrite ?wrap_small; lia.
  - rewrite (waiting_replace _ _ b) by done. unfold batch_len. simpl.
    replace (_ - _ + _) with (waiting m) by lia. by apply IH.
  - pose proof (waiting_nonneg (delete i m)). rewrite (waiting_replace _ _ _ _ Hi).
    specialize (IH Hn). rewrite (waiting_delete _ _ _ Hi) in IH |- *. unfold batch_len in *. simpl in *.
    apply (leave_accounted _ _ to) in IH; [|lia..].
    replace (_ - _ + _) with (Z.of_nat (Datatypes.S (length rest)) + waiting (delete i m) - 1) by lia. done.
  - specialize (IH Hn). rewrite (waiting_delete _ _ _ Hi) in IH.
    apply drop_accounted; [done|apply waiting_nonneg|done].
Qed.

(** Every record pushed into a halt batch is accounted for exactly once: at every
    point of any interleaving of batches, the pending counter is the number of records
    the batches still hold, and every other record pushed is in exactly one of recorded,
    owed, uncertain and lost; when no batch is left nothing is pending. *)
Theorem halt_records_accounted n s (Hrun : hrun n s) (Hn : n < 2 ^ 64) :
  hr_pending (hs_counters s) = waiting (hs_batches s) ∧
  counted (hs_counters s) + waiting (hs_batches s) = n ∧
  (hs_batches s = ∅ → hr_pending (hs_counters s) = 0 ∧ counted (hs_counters s) = n).
Proof.
  destruct (hrun_accounted _ _ Hrun Hn) as [Hp Hc _ _ _ _]. split_and!; [done|lia|]. intros E. rewrite E in *.
  change (waiting ∅) with 0 in *. lia.
Qed.

(** ** Writing a batch is such a run *)

Section WriteRun.
Context {crates : Crates} {S : Type} {sink : EvidenceSink S}.
Context (unwinds : EvidenceRecord → S → bool).

Definition outcome_sum (o : BatchOutcome) : Z := bo_recorded o + bo_owed o + bo_uncertain o.

Lemma outcome_add_sum to o : outcome_sum (outcome_add to o) = outcome_sum o + 1.
Proof. destruct to; unfold outcome_sum; simpl; lia. Qed.

Lemma write_from_run n records flag o h s m i o' h' s' :
  hrun n (MkHaltSys h m) → m !! i = Some (MkBatch records flag) →
  batch_write_from unwinds records o h s = (o', h', s') →
  hrun n (MkHaltSys h' (delete i m)) ∧
  (∀ oc, o' = Some oc → outcome_sum oc = outcome_sum o + Z.of_nat (length records) ∧
     s' = foldl (λ s r, (write_end r s).2) s records).
Proof.
  revert flag o h s m. induction records as [|r rest IH]; intros flag o h s m Hr Hi.
  - intros [= <- <- <-]. split; [|by intros oc [= <-]; simpl; split; [lia|]].
    replace (batch_drop (MkBatch [] false) h) with (batch_drop (MkBatch [] flag) h) by by destruct flag.
    by apply hr_drop.
  - simpl. pose proof (hr_flight _ _ _ _ _ Hr Hi) as Hf. simpl in Hf.
    destruct (write_end r s) as [status s1] eqn:Ew. simpl. destruct (unwinds r s).
    + intros [= <- <- <-]. split; [|done]. rewrite <- (delete_insert_eq m i (MkBatch (r :: rest) true)).
      apply hr_drop; [done|apply lookup_insert_eq].
    + intros E. pose proof (hr_leave _ _ _ _ _ _ status Hf (lookup_insert_eq _ _ _)) as Hl.
      eapply IH in E; [|exact Hl|apply lookup_insert_eq].
      rewrite !delete_insert_eq in E. destruct E as [E1 E2]. split; [done|].
      intros oc Ho. destruct (E2 _ Ho) as [Hs ->]. rewrite outcome_add_sum in Hs. split; [lia|done].
Qed.

(** A batch written leaves nothing behind: every record reached the sink in the
    order it was pushed and the outcome counts each of them; if a write unwinds, the
    record in flight is uncertain and the rest are lost, and the counters account for
    all of them (it is a run of the shared counters). *)
Theorem batch_write_accounts n h m i b s o h' s'
    (Hrun : hrun n (MkHaltSys h m)) (Hi : m !! i = Some b)
    (Hw : batch_write unwinds b h s = (o, h', s')) (Hn : n < 2 ^ 64) :
  hrun n (MkHaltSys h' (delete i m)) ∧
  hr_pending h' = hr_pending h - batch_len b ∧
  counted h' = counted h + batch_len b ∧
  (∀ oc, o = Some oc →
     outcome_sum oc = batch_len b ∧ s' = foldl (λ s r, (write_end r s).2) s (rb_records b)).
Proof.
  destruct b as [records flag]. destruct (write_from_run _ _ _ _ _ _ _ _ _ _ _ Hrun Hi Hw) as [Hr' Ho].
  split; [done|].
  assert (Hc : ∀ s, hrun n s → accounted n (waiting (hs_batches s)) (hs_counters s))
    by (intros; by apply hrun_accounted).
  destruct (Hc _ Hrun) as [Hp1 Hc1 _ _ _ _], (Hc _ Hr') as [Hp2 Hc2 _ _ _ _]. simpl in *.
  rewrite (waiting_delete _ _ _ Hi) in Hp1, Hc1. split_and!; [lia|lia|exact Ho].
Qed.
End WriteRun.

(** ** Samples *)

Module SampleHalt.
Import SampleCrates.
#[local] Existing Instance crates.
#[local] Existing Instance sink.

Definition two : RecordBatch := MkBatch [record; record] false.
Definition pushed : HaltRecords := MkHaltRecords 2 0 0 0 0.
(** The second write unwinds. *)
Definition second (_ : EvidenceRecord) (s : list EvidenceRecord) : bool := negb (bool_decide (s = [])).

Lemma pushed_run : hrun 2 (MkHaltSys pushed {[0%nat := two]}).
Proof.
  assert (H0 : hrun 0 (MkHaltSys halt_counters_new {[0%nat := batch_new]})) by (apply hr_new; [constructor|done]).
  eapply (hr_push _ _ _ 0 _ record) in H0; [|done|reflexivity]. rewrite insert_singleton in H0.
  eapply (hr_push _ _ _ 0 _ record) in H0; [|done|reflexivity]. rewrite insert_singleton in H0. exact H0.
Qed.

Lemma halt_records_accounted_witness : hr_pending pushed = waiting {[0%nat := two]}.
Proof. apply (halt_records_accounted 2 (MkHaltSys pushed {[0%nat := two]}) pushed_run). lia. Defined.

Lemma batch_write_accounts_witness :
  (batch_write second two pushed []).1 = (None, MkHaltRecords 0 1 0 1 0) ∧
  counted (batch_write second two pushed []).1.2 = 2.
Proof.
  split; [vm_compute; reflexivity|].
  apply (batch_write_accounts second 2 pushed {[0%nat := two]} 0 two [] None
    (batch_write second two pushed []).1.2 (batch_write second two pushed []).2 pushed_run);
    [reflexivity|vm_compute; reflexivity|lia].
Defined.
End SampleHalt.
