(* ===== verification/AuthRuns.v ===== *)
(** * Runs, doors and the Owner's yeses

    [authority/run.rs] of [crates/nexus-governed-control/src]: the registry of runs and
    of the agent doors' groups. Each definition is one hold of the runs lock. A run's
    cancellation flag and a door's halt flag are shared with whoever observes them
    ([CancelToken], [CallTicket]) and outlive their entries: they are kept by name, next
    to the tables. A door's core is held weakly: [rw_cores] are the cores alive. A lock
    taken by [expect] panics when it is poisoned ([None]). *)

From S2P Require Import Prelude PageFacts AuthBase AuthText HaltCell AuthGrants AuthHalt.

Local Open Scope Z_scope.
Local Open Scope nexus_scope.
#[local] Arguments lit : simpl never.

#[export] Instance ApprovedFacts_eq_dec : EqDecision ApprovedFacts.
Proof. solve_decision. Defined.

(** ** Data *)

Module RunOrigin.
Inductive t :=
| Command (modalities : list str)
| AgentGoal.
End RunOrigin.
#[export] Instance RunOrigin_eq_dec : EqDecision RunOrigin.t.
Proof. solve_decision. Defined.

Module RunClass.
Inductive t :=
| Owner
| Agent.

Definition privacy (c : t) : Privacy.t :=
  match c with Owner => Privacy.Owner | Agent => Privacy.Restricted end.
End RunClass.
#[export] Instance RunClass_eq_dec : EqDecision RunClass.t.
Proof. solve_decision. Defined.

Record RunView := MkRunView {
  rv_id : RunId;
  rv_agent : AgentId;
  rv_origin : RunOrigin.t;
  rv_opened_wall_ms : Z;
  rv_cancelled : bool;
  rv_finished : bool;
}.

Module ConsentKind.
Inductive t :=
| Mission
| Resume.

Definition as_str (k : t) : str :=
  match k with Mission => lit "mission consent" | Resume => lit "held-mission resume" end.
End ConsentKind.
#[export] Instance ConsentKind_eq_dec : EqDecision ConsentKind.t.
Proof. solve_decision. Defined.

Record Life := MkLife {
  lf_stop_epoch : Z;
  lf_halted : bool;
  lf_closed : bool;
}.
#[export] Instance Life_eq_dec : EqDecision Life.
Proof. solve_decision. Defined.

Record Consent := MkConsent {
  cn_contract_hash : str;
  cn_request : str;
  cn_evidence_seq : Z;
  cn_kind : ConsentKind.t;
  cn_at_wall_ms : Z;
  cn_life : Life;
  cn_page_facts : option ApprovedFacts;
}.
#[export] Instance Consent_eq_dec : EqDecision Consent.
Proof. solve_decision. Defined.

Record AdmittedWorkspace := MkAdmittedWorkspace {
  aw_id : str;
  aw_identity : Digest;
}.
#[export] Instance AdmittedWorkspace_eq_dec : EqDecision AdmittedWorkspace.
Proof. solve_decision. Defined.

Record FilesAdmission := MkFilesAdmission {
  fa_contract_hash : str;
  fa_request : str;
  fa_evidence_seq : Z;
  fa_kind : ConsentKind.t;
  fa_consented_wall_ms : Z;
  fa_workspace : AdmittedWorkspace;
  fa_page_facts : option ApprovedFacts;
}.
#[export] Instance FilesAdmission_eq_dec : EqDecision FilesAdmission.
Proof. solve_decision. Defined.

Record InferenceAdmission := MkInferenceAdmission {
  ia_contract_hash : str;
  ia_request : str;
  ia_evidence_seq : Z;
  ia_kind : ConsentKind.t;
  ia_consented_wall_ms : Z;
  ia_identity : bytes;
}.
#[export] Instance InferenceAdmission_eq_dec : EqDecision InferenceAdmission.
Proof. solve_decision. Defined.

Record RunEntry := MkRunEntry {
  re_view : RunView;
  re_class : RunClass.t;
  re_privacy : Privacy.t;
  re_file_cell : option HaltCell;
  re_groups : list GroupId;
  re_opened_by : option GroupId;
  re_retained : Z;
  re_files_admission : option FilesAdmission;
  re_inference_admission : option InferenceAdmission;
  re_model_attempts : Z;
  re_model_pins : gset Z;
}.

Record DoorEntry := MkDoorEntry {
  de_life : nat;
  de_agent : AgentId;
  de_active : bool;
  de_halted : bool;
  de_file_cell : option HaltCell;
  de_members : gset RunId;
  de_consents : list Consent;
  de_pending_consents : Z;
}.

(** [governed/door.rs]: what a door's core says of itself. *)
Record DoorCore := MkDoorCore {
  dc_group : GroupId;
  dc_agent : AgentId;
  dc_session_cell : option HaltCell;
  dc_id : str;
}.

(** The registry, with the flags it shares, the door cores alive and the cells. *)
Record RunWorld := MkRunWorld {
  rw_runs : gmap RunId RunEntry;
  rw_doors : gmap GroupId DoorEntry;
  rw_poisoned : bool;
  rw_next_group : Z;
  rw_stopped : bool;
  rw_cancelled_by_stop : Z;
  rw_closed : bool;
  rw_stop_number : Z;
  rw_exhausted : bool;
  rw_last_lifted : Z;
  rw_flags : gmap RunId bool;
  rw_halt_flags : gmap GroupId bool;
  rw_cores : gmap nat DoorCore;
  rw_cells : Cells;
}.

Definition view_eta (v : RunView) : RunView :=
  MkRunView (rv_id v) (rv_agent v) (rv_origin v) (rv_opened_wall_ms v) (rv_cancelled v) (rv_finished v).
#[export] Instance upd_rv_cancelled : Update rv_cancelled := ltac:(update_with view_eta).
#[export] Instance upd_rv_finished : Update rv_finished := ltac:(update_with view_eta).
Definition entry_eta (e : RunEntry) : RunEntry :=
  MkRunEntry (re_view e) (re_class e) (re_privacy e) (re_file_cell e) (re_groups e) (re_opened_by e)
    (re_retained e) (re_files_admission e) (re_inference_admission e) (re_model_attempts e)
    (re_model_pins e).
#[export] Instance upd_re_view : Update re_view := ltac:(update_with entry_eta).
#[export] Instance upd_re_groups : Update re_groups := ltac:(update_with entry_eta).
#[export] Instance upd_re_retained : Update re_retained := ltac:(update_with entry_eta).
#[export] Instance upd_re_files : Update re_files_admission := ltac:(update_with entry_eta).
#[export] Instance upd_re_inference : Update re_inference_admission := ltac:(update_with entry_eta).
#[export] Instance upd_re_attempts : Update re_model_attempts := ltac:(update_with entry_eta).
#[export] Instance upd_re_pins : Update re_model_pins := ltac:(update_with entry_eta).
Definition door_eta (d : DoorEntry) : DoorEntry :=
  MkDoorEntry (de_life d) (de_agent d) (de_active d) (de_halted d) (de_file_cell d) (de_members d)
    (de_consents d) (de_pending_consents d).
#[export] Instance upd_de_active : Update de_active := ltac:(update_with door_eta).
#[export] Instance upd_de_halted : Update de_halted := ltac:(update_with door_eta).
#[export] Instance upd_de_file_cell : Update de_file_cell := ltac:(update_with door_eta).
#[export] Instance upd_de_members : Update de_members := ltac:(update_with door_eta).
#[export] Instance upd_de_consents : Update de_consents := ltac:(update_with door_eta).
#[export] Instance upd_de_pending : Update de_pending_consents := ltac:(update_with door_eta).
Definition run_world_eta (w : RunWorld) : RunWorld :=
  MkRunWorld (rw_runs w) (rw_doors w) (rw_poisoned w) (rw_next_group w) (rw_stopped w)
    (rw_cancelled_by_stop w) (rw_closed w) (rw_stop_number w) (rw_exhausted w) (rw_last_lifted w)
    (rw_flags w) (rw_halt_flags w) (rw_cores w) (rw_cells w).
#[export] Instance upd_rw_runs : Update rw_runs := ltac:(update_with run_world_eta).
#[export] Instance upd_rw_doors : Update rw_doors := ltac:(update_with run_world_eta).
#[export] Instance upd_rw_poisoned : Update rw_poisoned := ltac:(update_with run_world_eta).
#[export] Instance upd_rw_next_group : Update rw_next_group := ltac:(update_with run_world_eta).
#[export] Instance upd_rw_stopped : Update rw_stopped := ltac:(update_with run_world_eta).
#[export] Instance upd_rw_cancelled : Update rw_cancelled_by_stop := ltac:(update_with run_world_eta).
#[export] Instance upd_rw_closed : Update rw_closed := ltac:(update_with run_world_eta).
#[export] Instance upd_rw_stop_number : Update rw_stop_number := ltac:(update_with run_world_eta).
#[export] Instance upd_rw_exhausted : Update rw_exhausted := ltac:(update_with run_world_eta).
#[export] Instance upd_rw_last_lifted : Update rw_last_lifted := ltac:(update_with run_world_eta).
#[export] Instance upd_rw_flags : Update rw_flags := ltac:(update_with run_world_eta).
#[export] Instance upd_rw_halt_flags : Update rw_halt_flags := ltac:(update_with run_world_eta).
#[export] Instance upd_rw_cores : Update rw_cores := ltac:(update_with run_world_eta).
#[export] Instance upd_rw_cells : Update rw_cells := ltac:(update_with run_world_eta).

(** [RunRegistry::default]. *)
Definition registry_new (c : Cells) : RunWorld :=
  MkRunWorld ∅ ∅ false 0 false 0 false 0 false 0 ∅ ∅ ∅ c.

Definition MAX_CONSENTS : nat := 64.
Definition MAX_LIVE_DOORS : nat := 64.
Definition MAX_GROUPS_PER_RUN : nat := 8.
Definition RUN_CAPACITY : nat := 4096.
(** [inference::MAX_MODEL_ATTEMPTS]. *)
Definition MAX_MODEL_ATTEMPTS : Z := 8.
Definition UNREADABLE : AuthorityError := AuthorityError.Unavailable (lit "the broker cannot read its runs").
Definition QUITTING : AuthorityError := AuthorityError.Closed (lit "the desktop is quitting").

(** ** Reading the tables *)

Section Reading.
Implicit Types w : RunWorld.

Definition engaged w (cell : option HaltCell) : bool :=
  match cell with Some cell => is_engaged (rw_cells w) cell | None => false end.
Definition flag w (run : RunId) : bool := default false (rw_flags w !! run).
Definition alive w (d : DoorEntry) : bool := bool_decide (is_Some (rw_cores w !! de_life d)).
(** [check_halt], [admit_host] and [cell_admit] of a cell, in this world. *)
Definition at_cells {A} (f : Cells → A * Cells) w : A * RunWorld :=
  let '(r, c) := f (rw_cells w) in (r, w <| rw_cells := c |>).

Definition entry_ended w (e : RunEntry) : bool :=
  rv_cancelled (re_view e) || flag w (rv_id (re_view e)).
Definition in_halted_group w (e : RunEntry) : bool :=
  existsb (λ g, match rw_doors w !! g with Some d => de_halted d | None => false end) (re_groups e).

Definition host_cell (cell : option HaltCell) : bool :=
  match cell with Some c => host c | None => false end.
Definition same_cell (a b : option HaltCell) : bool :=
  match a, b with Some a, Some b => same a b | _, _ => false end.

Definition request_cell (original request : option HaltCell) : aresult (option HaltCell) :=
  match request with
  | None => Ok original
  | Some r =>
      if host_cell original && same_cell original (Some r) && host r then Ok (Some r)
      else Err AuthorityError.Halted
  end.

Definition consent_binds (a : FilesAdmission) (stop_epoch : Z) (c : Consent) : bool :=
  bool_decide (cn_contract_hash c = fa_contract_hash a) && bool_decide (cn_request c = fa_request a) &&
  (cn_evidence_seq c =? fa_evidence_seq a) && bool_decide (cn_page_facts c = fa_page_facts a) &&
  (lf_stop_epoch (cn_life c) =? stop_epoch) && negb (lf_halted (cn_life c)) &&
  negb (lf_closed (cn_life c)).

Definition host_prerequisites w (e : RunEntry) : aresult unit :=
  if negb (host_cell (re_file_cell e)) then Ok tt
  else
    let? group := ok_or (re_opened_by e) AuthorityError.NotMember in
    let? door := ok_or (rw_doors w !! group) AuthorityError.NotMember in
    if negb (de_active door) || negb (alive w door) || de_halted door ||
       negb (bool_decide (de_agent door = rv_agent (re_view e))) ||
       negb (bool_decide (rv_id (re_view e) ∈ de_members door)) ||
       negb (bool_decide (group ∈ re_groups e))
    then Err AuthorityError.NotMember
    else
      match re_files_admission e with
      | Some a =>
          if existsb (consent_binds a (rw_stop_number w)) (de_consents door) then Ok tt
          else Err AuthorityError.NoConsent
      | None => Ok tt
      end.

(** [live_door] and [live_member]. *)
Definition live_door w (group : GroupId) (agent : AgentId) : aresult DoorEntry :=
  match rw_doors w !! group with
  | Some d =>
      if de_halted d || engaged w (de_file_cell d) then Err AuthorityError.Halted
      else if de_active d && alive w d && bool_decide (de_agent d = agent) then Ok d
      else Err AuthorityError.NotMember
  | None => Err AuthorityError.NotMember
  end.

Definition door_cell w (group : GroupId) : option HaltCell := rw_doors w !! group ≫= de_file_cell.

Definition live_member w (e : RunEntry) (agent : AgentId) (group : GroupId) : aresult unit :=
  if negb (bool_decide (rv_agent (re_view e) = agent)) then Err AuthorityError.WrongAgent
  else if negb (bool_decide (re_class e = RunClass.Agent)) then Err AuthorityError.WrongRun
  else if negb (bool_decide (group ∈ re_groups e)) then Err AuthorityError.NotMember
  else if bool_decide (is_Some (door_cell w group)) && negb (same_cell (re_file_cell e) (door_cell w group))
  then Err AuthorityError.NotMember
  else if engaged w (re_file_cell e) || in_halted_group w e then Err AuthorityError.Halted
  else if rv_finished (re_view e) then Err AuthorityError.RunNotActive
  else if entry_ended w e then Err AuthorityError.RunCancelled
  else Ok tt.

(** ** Tokens *)

Record CancelToken := MkCancelToken {
  ct_flag : RunId;
  ct_cell : option HaltCell;
}.
Definition is_cancelled w (t : CancelToken) : bool := flag w (ct_flag t) || engaged w (ct_cell t).
Definition token_admit_host (t : CancelToken) w : aresult unit * RunWorld :=
  match ct_cell t with
  | Some cell =>
      if host cell then
        if flag w (ct_flag t) then (Err AuthorityError.RunCancelled, w)
        else at_cells (cell_admit cell) w
      else if is_engaged (rw_cells w) cell then (Err AuthorityError.Halted, w) else (Ok tt, w)
  | None => (Ok tt, w)
  end.
Definition abandon_host (t : CancelToken) w : bool * RunWorld :=
  match ct_cell t with
  | Some cell =>
      if host cell
      then (true, w <| rw_flags := <[ct_flag t := true]> (rw_flags w) |>
                    <| rw_cells := fail_session cell (rw_cells w) |>)
      else (false, w)
  | None => (false, w)
  end.
End Reading.

(** ** Keeping the tables *)

Section Keeping.
Implicit Types w : RunWorld.

(** [prune_doors]: the groups of doors that are gone, one after the other. *)
Definition forget_group (group : GroupId) (e : RunEntry) : RunEntry :=
  e <| re_groups := filter (λ g, g ≠ group) (re_groups e) |>.
Definition remove_door w (group : GroupId) : RunWorld :=
  match rw_doors w !! group with
  | Some d =>
      w <| rw_doors := delete group (rw_doors w) |>
        <| rw_runs := map_imap (λ run e, Some (if bool_decide (run ∈ de_members d)
                                               then forget_group group e else e)) (rw_runs w) |>
  | None => w
  end.
Definition gone w : list GroupId :=
  fst <$> filter (λ kd, alive w kd.2 = false) (map_to_list (rw_doors w)).
Definition prune_doors w : RunWorld := foldl remove_door w (gone w).

(** [prune_ended]: every ended run nothing pins. *)
Definition prunable (e : RunEntry) : bool :=
  (rv_cancelled (re_view e) || rv_finished (re_view e)) && (re_retained e =? 0) &&
  bool_decide (re_model_pins e = ∅) &&
  negb (bool_decide (is_Some (re_file_cell e)) && bool_decide (is_Some (re_files_admission e))).
Definition leave_group (run : RunId) (doors : gmap GroupId DoorEntry) (group : GroupId)
    : gmap GroupId DoorEntry :=
  alter (λ d, d <| de_members := de_members d ∖ {[run]} |>) group doors.
Definition remove_run w (run : RunId) : RunWorld :=
  match rw_runs w !! run with
  | Some e =>
      w <| rw_runs := delete run (rw_runs w) |>
        <| rw_doors := foldl (leave_group run) (rw_doors w) (re_groups e) |>
  | None => w
  end.
Definition ended_runs w : list RunId :=
  fst <$> filter (λ ke, prunable ke.2 = true) (map_to_list (rw_runs w)).
Definition prune_ended w : RunWorld := foldl remove_run w (ended_runs w).

(** ** Runs *)

Definition new_entry (id : RunId) (agent : AgentId) (origin : RunOrigin.t) (class : RunClass.t)
    (now_wall_ms : Z) (group : option GroupId) (file_cell : option HaltCell) : RunEntry :=
  MkRunEntry (MkRunView id agent origin now_wall_ms false false) class (RunClass.privacy class)
    file_cell (option_list group) group 0 None None 0 ∅.

(** The door a run opens in. *)
Definition opens_in w (agent : AgentId) (file_cell : option HaltCell) (group : GroupId) : aresult unit :=
  match rw_doors w !! group with
  | Some d =>
      if de_halted d || engaged w (de_file_cell d) then Err AuthorityError.Halted
      else if de_active d && alive w d then
        if match de_file_cell d, file_cell with
           | None, None => true
           | Some a, Some b => same a b && negb (is_engaged (rw_cells w) a)
           | _, _ => false
           end
        then if bool_decide (de_agent d = agent) then Ok tt else Err AuthorityError.WrongAgent
        else Err AuthorityError.Halted
      else Err AuthorityError.NotMember
  | None => Err AuthorityError.NotMember
  end.

(** [id] is [RunId::fresh()]. *)
Definition open_with_cell (id : RunId) (agent : AgentId) (origin : RunOrigin.t) (class : RunClass.t)
    (now_wall_ms : Z) (group : option GroupId) (file_cell : option HaltCell) w
    : aresult RunId * RunWorld :=
  let entry := new_entry id agent origin class now_wall_ms group file_cell in
  if rw_poisoned w then (Err UNREADABLE, w)
  else if engaged w file_cell then (Err AuthorityError.Halted, w)
  else if rw_stopped w then (Err AuthorityError.EmergencyStopped, w)
  else if rw_closed w then (Err QUITTING, w)
  else
    match match group with Some g => opens_in w agent file_cell g | None => Ok tt end with
    | Err e => (Err e, w)
    | Ok _ =>
        let w := if (RUN_CAPACITY <=? size (rw_runs w))%nat then prune_ended w else w in
        if (RUN_CAPACITY <=? size (rw_runs w))%nat then (Err AuthorityError.Capacity, w)
        else
          let '(r, w) := at_cells (check_halt file_cell) w in
          match r with
          | Err e => (Err e, w)
          | Ok _ =>
              let doors :=
                match group with
                | Some g => alter (λ d, d <| de_members := {[id]} ∪ de_members d |>) g (rw_doors w)
                | None => rw_doors w
                end in
              (Ok id, w <| rw_runs := <[id := entry]> (rw_runs w) |> <| rw_doors := doors |>
                        <| rw_flags := <[id := false]> (rw_flags w) |>)
          end
    end.

(** ** Doors *)

(** [fetch_add] of an [AtomicU64]. *)
Definition next_group w : GroupId * RunWorld :=
  (rw_next_group w, w <| rw_next_group := (rw_next_group w + 1) mod 2 ^ 64 |>).

Definition reserve_door (group : GroupId) (agent : AgentId) (life : nat) w
    : option (aresult unit * RunWorld) :=
  if rw_poisoned w then None
  else
    let w := prune_doors w in
    if (MAX_LIVE_DOORS <=? size (rw_doors w))%nat then Some (Err AuthorityError.Capacity, w)
    else
      Some (Ok tt,
            w <| rw_doors := <[group := MkDoorEntry life agent false false None ∅ [] 0]> (rw_doors w) |>
              <| rw_halt_flags := <[group := false]> (rw_halt_flags w) |>).

Definition activate_door_with_halt (group : GroupId) (halt : option HaltCell) w
    : option (aresult unit * RunWorld) :=
  let gone : aresult unit :=
    Err (AuthorityError.Unavailable (lit "the door's reservation is gone")) in
  if rw_poisoned w then None
  else
    match rw_doors w !! group with
    | Some d =>
        if alive w d then
          let '(r, w) := at_cells (check_halt halt) w in
          match r with
          | Err e => Some (Err e, w)
          | Ok _ =>
              let d := d <| de_file_cell := halt |> <| de_active := true |> in
              Some (Ok tt, w <| rw_doors := <[group := d]> (rw_doors w) |>)
          end
        else Some (gone, w)
    | None => Some (gone, w)
    end.

Definition live_doors w : nat :=
  length (filter (λ kd, (de_active kd.2 && alive w kd.2) = true) (map_to_list (rw_doors w))).

Definition check_member w (run : RunId) (agent : AgentId) (group : GroupId) (halted_too : bool)
    : aresult unit :=
  if rw_poisoned w then Err UNREADABLE
  else if negb halted_too && match rw_doors w !! group with Some d => de_halted d | None => false end
  then Err AuthorityError.Halted
  else
    let? e := ok_or (rw_runs w !! run) AuthorityError.UnknownRun in
    if negb (bool_decide (rv_agent (re_view e) = agent)) then Err AuthorityError.WrongAgent
    else if negb (bool_decide (re_class e = RunClass.Agent)) then Err AuthorityError.WrongRun
    else if negb (bool_decide (group ∈ re_groups e)) then Err AuthorityError.NotMember
    else if negb halted_too && bool_decide (is_Some (door_cell w group)) &&
            negb (same_cell (re_file_cell e) (door_cell w group))
    then Err AuthorityError.NotMember
    else if negb halted_too && engaged w (re_file_cell e) then Err AuthorityError.Halted
    else Ok tt.

Definition attach_file_cell (group : GroupId) (cell : HaltCell) w : aresult unit * RunWorld :=
  if rw_poisoned w then (Err UNREADABLE, w)
  else
    match rw_doors w !! group with
    | None => (Err AuthorityError.NotMember, w)
    | Some d =>
        if bool_decide (is_Some (de_file_cell d)) && negb (same_cell (de_file_cell d) (Some cell))
        then (Err AuthorityError.Halted, w)
        else
          let '(r, w) := at_cells (check_halt (Some cell)) w in
          match r with
          | Err e => (Err e, w)
          | Ok _ => (Ok tt, w <| rw_doors := <[group := d <| de_file_cell := Some cell |>]> (rw_doors w) |>)
          end
    end.

Definition try_door_halted w (group : GroupId) : aresult bool :=
  if rw_poisoned w then Err UNREADABLE
  else
    let? d := ok_or (rw_doors w !! group) AuthorityError.NotMember in
    Ok (de_halted d || engaged w (de_file_cell d)).

Definition try_is_member w (run : RunId) (group : GroupId) : aresult bool :=
  if rw_poisoned w then Err UNREADABLE
  else Ok match rw_runs w !! run with Some e => bool_decide (group ∈ re_groups e) | None => false end.

Definition join (run : RunId) (agent : AgentId) (group : GroupId) w : option (aresult unit * RunWorld) :=
  if rw_poisoned w then None
  else Some
    match live_door w group agent with
    | Err e => (Err e, w)
    | Ok door =>
        let session_cell := de_file_cell door in
        let origin_ok : aresult unit :=
          if bool_decide (is_Some session_cell) then
            let? e := ok_or (rw_runs w !! run) AuthorityError.UnknownRun in
            if negb (bool_decide (re_opened_by e = Some group)) || negb (same_cell (re_file_cell e) session_cell)
            then Err AuthorityError.NotMember else Ok tt
          else Ok tt in
        match origin_ok with
        | Err e => (Err e, w)
        | Ok _ =>
            let w := prune_doors w in
            match rw_runs w !! run with
            | None => (Err AuthorityError.UnknownRun, w)
            | Some e =>
                if negb (bool_decide (rv_agent (re_view e) = agent)) then (Err AuthorityError.WrongAgent, w)
                else if negb (bool_decide (re_class e = RunClass.Agent)) then (Err AuthorityError.WrongRun, w)
                else if rv_finished (re_view e) then (Err AuthorityError.RunNotActive, w)
                else if entry_ended w e then (Err AuthorityError.RunCancelled, w)
                else if bool_decide (group ∈ re_groups e) then (Ok tt, w)
                else if bool_decide (is_Some (re_file_cell e)) then (Err AuthorityError.NotMember, w)
                else if (MAX_GROUPS_PER_RUN <=? length (re_groups e))%nat then (Err AuthorityError.Capacity, w)
                else
                  let '(r, w) := at_cells (check_halt session_cell) w in
                  match r with
                  | Err e => (Err e, w)
                  | Ok _ =>
                      (Ok tt, w <| rw_runs := <[run := e <| re_groups := re_groups e ++ [group] |>]> (rw_runs w) |>
                                <| rw_doors := alter (λ d, d <| de_members := {[run]} ∪ de_members d |>)
                                                 group (rw_doors w) |>)
                  end
            end
        end
    end.

Definition session_cell w (run : RunId) : aresult (option HaltCell) :=
  if rw_poisoned w then Err UNREADABLE
  else let? e := ok_or (rw_runs w !! run) AuthorityError.Halted in Ok (re_file_cell e).
Definition session_halted w (run : RunId) : bool :=
  match session_cell w run with Ok cell => engaged w cell | Err _ => true end.

Definition admit_file_request (run : RunId) (request : option HaltCell) w : aresult unit * RunWorld :=
  if rw_poisoned w then (Err AuthorityError.Halted, w)
  else
    match rw_runs w !! run with
    | None => (Err AuthorityError.Halted, w)
    | Some e =>
        match host_prerequisites w e with
        | Err e => (Err e, w)
        | Ok _ =>
            if bool_decide (is_Some (re_file_cell e)) &&
               (rv_cancelled (re_view e) || rv_finished (re_view e) || flag w (rv_id (re_view e)) ||
                in_halted_group w e || rw_stopped w || rw_closed w)
            then (Err AuthorityError.Halted, w)
            else
              match request_cell (re_file_cell e) request with
              | Err e => (Err e, w)
              | Ok cell => at_cells (check_halt cell) w
              end
        end
    end.

(** [recovery_boundary], before the memory-only [lift] it lets through. *)
Definition recovery_boundary (recovery : RecoveryCheck) w : aresult unit * RunWorld :=
  if rw_poisoned w then (Err AuthorityError.Halted, w) else at_cells (recovery_check recovery) w.

Definition check_request_retaining (run : RunId) (agent : AgentId) (retain : bool)
    (request : option HaltCell) w : aresult (CancelToken * option GroupId) * RunWorld :=
  if rw_poisoned w then (Err UNREADABLE, w)
  else if rw_stopped w then (Err AuthorityError.EmergencyStopped, w)
  else
    match rw_runs w !! run with
    | None => (Err AuthorityError.UnknownRun, w)
    | Some e =>
        if negb (bool_decide (rv_agent (re_view e) = agent)) then (Err AuthorityError.WrongAgent, w)
        else
          match request_cell (re_file_cell e) request with
          | Err e => (Err e, w)
          | Ok cell =>
              match host_prerequisites w e with
              | Err e => (Err e, w)
              | Ok _ =>
                  if engaged w cell || in_halted_group w e then (Err AuthorityError.Halted, w)
                  else if rv_finished (re_view e) then (Err AuthorityError.RunNotActive, w)
                  else if entry_ended w e then (Err AuthorityError.RunCancelled, w)
                  else
                    let owner := re_opened_by e in
                    let token := MkCancelToken (rv_id (re_view e)) cell in
                    if negb retain then (Ok (token, owner), w)
                    else if negb (bool_decide (is_Some owner)) then (Err AuthorityError.NotMember, w)
                    else
                      match checked_add u64_max (re_retained e) 1 with
                      | None => (Err AuthorityError.Capacity, w)
                      | Some retained =>
                          let '(r, w) := token_admit_host token w in
                          match r with
                          | Err e => (Err e, w)
                          | Ok _ =>
                              (Ok (token, owner),
                               w <| rw_runs := <[run := e <| re_retained := retained |>]> (rw_runs w) |>)
                          end
                      end
              end
          end
    end.

Definition release (run : RunId) w : aresult unit * RunWorld :=
  if rw_poisoned w then (Err UNREADABLE, w)
  else
    match rw_runs w !! run with
    | None => (Err AuthorityError.UnknownRun, w)
    | Some e =>
        match checked_sub (re_retained e) 1 with
        | None => (Err (AuthorityError.Unavailable (lit "the run has no retained obligation")), w)
        | Some n => (Ok tt, w <| rw_runs := <[run := e <| re_retained := n |>]> (rw_runs w) |>)
        end
    end.
End Keeping.

(** ** Ending runs *)

(** [HaltReason] ([halt.rs]), as its record says it. *)
Definition JOURNAL_FAILED : str := lit "journal_failed".

(** The order of a [BTreeSet] of ids. *)
Fixpoint bytes_leb (a b : bytes) : bool :=
  match a, b with
  | [], _ => true
  | _ :: _, [] => false
  | x :: a, y :: b => (x <? y) || ((x =? y) && bytes_leb a b)
  end.
Definition bytes_le (a b : bytes) : Prop := bytes_leb a b = true.
#[export] Instance bytes_le_dec : RelDecision bytes_le.
Proof. intros a b. unfold bytes_le. apply _. Defined.
Definition in_order (ids : gset RunId) : list RunId := merge_sort bytes_le (elements ids).

Section Ending.
Context {crates : Crates}.
Implicit Types w : RunWorld.

Definition was_active (e : RunEntry) : bool :=
  negb (rv_cancelled (re_view e)) && negb (rv_finished (re_view e)).
Definition cancel_view (e : RunEntry) : RunEntry :=
  e <| re_view := re_view e <| rv_cancelled := true |> |>.
(** The entry's cancellation, and its flag's. *)
Definition cancel_entry (run : RunId) (e : RunEntry) w : RunWorld :=
  w <| rw_runs := <[run := cancel_view e]> (rw_runs w) |>
    <| rw_flags := <[rv_id (re_view e) := true]> (rw_flags w) |>.

(** A batch with the counters it is counted in. *)
Abbreviation Batch := (RecordBatch * HaltRecords)%type (only parsing).
Definition push (r : EvidenceRecord) (b : Batch) : Batch := batch_push r b.1 b.2.

Definition cancelled_record (e : RunEntry) (wall_ms generation : Z) : EvidenceRecord :=
  EvidenceRecord_new EvidencePhase.RunCancelled wall_ms generation (re_privacy e)
    <| er_run := Some (RunId_display (rv_id (re_view e))) |>
    <| er_agent := Some (rv_agent (re_view e)) |> <| er_cancelled := true |>.

Definition cancel_one (wall_ms generation : Z) (bw : Batch * RunWorld) (run : RunId) : Batch * RunWorld :=
  match rw_runs bw.2 !! run with
  | Some e =>
      (if was_active e then push (cancelled_record e wall_ms generation) bw.1 else bw.1,
       cancel_entry run e bw.2)
  | None => bw
  end.

Definition door_halted_record (door : str) (agent : AgentId) (wall_ms generation : Z) : EvidenceRecord :=
  push_detail (lit "reason") JOURNAL_FAILED (push_detail (lit "door") door
    (EvidenceRecord_new EvidencePhase.DoorHalted wall_ms generation Privacy.Restricted
       <| er_agent := Some agent |> <| er_cancelled := true |>)).

(** Taken even if poisoned. The snapshot of the members, and whether this call set the
    flag. *)
Definition halt_group (group : GroupId) (door : str) (agent : AgentId) (wall_ms generation : Z)
    (b : Batch) w : (gset RunId * bool) * Batch * RunWorld :=
  match rw_doors w !! group with
  | None => ((∅, false), b, w)
  | Some d =>
      let newly := negb (de_halted d) in
      let w := w <| rw_doors := <[group := d <| de_consents := [] |> <| de_halted := true |>]> (rw_doors w) |> in
      let w := if newly then w <| rw_halt_flags := <[group := true]> (rw_halt_flags w) |> else w in
      let b := if newly then push (door_halted_record door agent wall_ms generation) b else b in
      let '(b, w) := foldl (cancel_one wall_ms generation) (b, w) (in_order (de_members d)) in
      ((de_members d, newly), b, w)
  end.

Definition cancel_into (run : RunId) (wall_ms generation : Z) (b : Batch) w : Batch * RunWorld :=
  cancel_one wall_ms generation (b, w) run.

Definition cancel (run : RunId) w : option (bool * RunWorld) :=
  if rw_poisoned w then None
  else Some
    match rw_runs w !! run with
    | Some e => (was_active e, cancel_entry run e w)
    | None => (false, w)
    end.

Definition close w : option RunWorld :=
  if rw_poisoned w then None else Some (w <| rw_closed := true |>).

Definition finish (run : RunId) w : option RunWorld :=
  if rw_poisoned w then None
  else Some
    match rw_runs w !! run with
    | Some e =>
        if was_active e
        then w <| rw_runs := <[run := e <| re_view := re_view e <| rv_finished := true |> |>]> (rw_runs w) |>
               <| rw_flags := <[rv_id (re_view e) := true]> (rw_flags w) |>
        else w
    | None => w
    end.
End Ending.

(** ** The emergency stop and its lift *)

Module PreviousStop.
Inductive t :=
| First
| Lifted
| NotLifted.

Definition as_str (p : t) : str :=
  match p with First => lit "none" | Lifted => lit "yes" | NotLifted => lit "no" end.
End PreviousStop.
#[export] Instance PreviousStop_eq_dec : EqDecision PreviousStop.t.
Proof. solve_decision. Defined.

Record Stop := MkStop {
  st_cancelled : Z;
  st_number : Z;
  st_exhausted : bool;
  st_previous : PreviousStop.t;
}.
Record StopToLift := MkStopToLift {
  sl_number : Z;
  sl_cancelled : Z;
}.
Module Lift.
Inductive t :=
| Lifted
| AlreadyLifted.
End Lift.
#[export] Instance Lift_eq_dec : EqDecision Lift.t.
Proof. solve_decision. Defined.
Module Refusal.
Inductive t :=
| Halted
| Superseded
| Exhausted
| TooLate
| Unavailable.
End Refusal.
#[export] Instance Refusal_eq_dec : EqDecision Refusal.t.
Proof. solve_decision. Defined.

Section Stopping.
Implicit Types w : RunWorld.

Definition usize_max : Z := u64_max.
Definition active_runs w : Z :=
  Z.of_nat (length (filter (λ ke, was_active ke.2 = true) (map_to_list (rw_runs w)))).
Definition ids_of (runs : gmap RunId RunEntry) : list RunId := (λ ke, rv_id (re_view ke.2)) <$> map_to_list runs.

(** Taken even if poisoned. *)
Definition stop_all w : Stop * RunWorld :=
  let current := rw_stop_number w in
  let previous :=
    if current =? 0 then PreviousStop.First
    else if rw_exhausted w || negb (rw_last_lifted w =? current) then PreviousStop.NotLifted
    else PreviousStop.Lifted in
  let '(number, exhausted, w) :=
    match checked_add u64_max current 1 with
    | Some next => (next, false, w <| rw_stop_number := next |>)
    | None => (current, true, w <| rw_exhausted := true |>)
    end in
  let cancelled := Z.min usize_max (active_runs w) in
  let w :=
    w <| rw_stopped := true |>
      <| rw_doors := (λ d, d <| de_consents := [] |>) <$> rw_doors w |>
      <| rw_runs := cancel_view <$> rw_runs w |>
      <| rw_flags := foldl (λ m id, <[id := true]> m) (rw_flags w) (ids_of (rw_runs w)) |>
      <| rw_cancelled_by_stop := saturating_add usize_max (rw_cancelled_by_stop w) cancelled |> in
  (MkStop cancelled number exhausted previous, w).

Definition stop_to_lift w : result (option StopToLift) Refusal.t :=
  if rw_poisoned w then Err Refusal.Unavailable
  else if rw_closed w then Err Refusal.TooLate
  else if negb (rw_stopped w) then Ok None
  else if rw_exhausted w then Err Refusal.Exhausted
  else Ok (Some (MkStopToLift (rw_stop_number w) (rw_cancelled_by_stop w))).

Definition check_lift w (number : Z) : result Lift.t Refusal.t :=
  if rw_poisoned w then Err Refusal.Unavailable
  else if rw_closed w then Err Refusal.TooLate
  else if rw_exhausted w then Err Refusal.Exhausted
  else if negb (rw_stop_number w =? number) then Err Refusal.Superseded
  else if negb (rw_stopped w) then Ok Lift.AlreadyLifted
  else Ok Lift.Lifted.

(** What a lift changes. *)
Definition lifted (number : Z) w : RunWorld :=
  w <| rw_stopped := false |> <| rw_last_lifted := number |> <| rw_cancelled_by_stop := 0 |>.
Definition lift (number : Z) w : result Lift.t Refusal.t * RunWorld :=
  match check_lift w number with
  | Ok Lift.Lifted => (Ok Lift.Lifted, lifted number w)
  | r => (r, w)
  end.
Definition lift_with_recovery (number : Z) (recovery : RecoveryCheck) w
    : result Lift.t Refusal.t * RunWorld :=
  match check_lift w number with
  | Ok Lift.Lifted =>
      let '(r, w) := at_cells (recovery_check recovery) w in
      match r with
      | Ok _ => (Ok Lift.Lifted, lifted number w)
      | Err _ => (Err Refusal.Halted, w)
      end
  | r => (r, w)
  end.
End Stopping.

(** ** The Owner's yeses and what they admit *)

Record ConsentSlot := MkConsentSlot {
  cs_group : GroupId;
  cs_life : Life;
  cs_cell : option HaltCell;
}.
Record CallTicket := MkCallTicket {
  tk_token : CancelToken;
  tk_door : GroupId;
}.
Definition door_halted (w : RunWorld) (t : CallTicket) : bool :=
  default false (rw_halt_flags w !! tk_door t).

Section Admitting.
Implicit Types w : RunWorld.

Definition life_now w : Life := MkLife (rw_stop_number w) false false.

Definition consent_slot (group : GroupId) (agent : AgentId) w : aresult ConsentSlot * RunWorld :=
  if rw_poisoned w then (Err UNREADABLE, w)
  else if rw_stopped w then (Err AuthorityError.EmergencyStopped, w)
  else if rw_closed w then (Err QUITTING, w)
  else
    match live_door w group agent with
    | Err e => (Err e, w)
    | Ok d =>
        if Z.of_nat MAX_CONSENTS <=? saturating_add usize_max (Z.of_nat (length (de_consents d))) (de_pending_consents d)
        then (Err AuthorityError.Capacity, w)
        else
          let '(r, w) := at_cells (admit_host (de_file_cell d)) w in
          match r with
          | Err e => (Err e, w)
          | Ok _ =>
              let d' := d <| de_pending_consents := de_pending_consents d + 1 |> in
              (Ok (MkConsentSlot group (life_now w) (de_file_cell d)),
               w <| rw_doors := <[group := d']> (rw_doors w) |>)
          end
    end.

(** A slot given back. *)
Definition give_back (group : GroupId) w : RunWorld :=
  w <| rw_doors := alter (λ d, d <| de_pending_consents := Z.max 0 (de_pending_consents d - 1) |>)
                     group (rw_doors w) |>.

(** Dropped unfilled; a poisoned lock keeps the slot and fails the session. *)
Definition slot_drop (s : ConsentSlot) w : RunWorld :=
  if rw_poisoned w then
    match cs_cell s with
    | Some cell => w <| rw_cells := fail_session cell (rw_cells w) |>
    | None => w
    end
  else give_back (cs_group s) w.

(** [fill]; on a poisoned lock the slot is dropped still held. *)
Definition slot_fill (s : ConsentSlot) (contract_hash request : str) (evidence_seq : Z)
    (kind : ConsentKind.t) (at_wall_ms : Z) (page_facts : option ApprovedFacts) w
    : aresult unit * RunWorld :=
  if rw_poisoned w then (Err UNREADABLE, slot_drop s w)
  else
    let w := give_back (cs_group s) w in
    if rw_stopped w then (Err AuthorityError.EmergencyStopped, w)
    else if rw_closed w then (Err QUITTING, w)
    else
      match rw_doors w !! cs_group s with
      | None => (Err AuthorityError.NotMember, w)
      | Some d =>
          if de_halted d || engaged w (de_file_cell d) then (Err AuthorityError.Halted, w)
          else if negb (de_active d && alive w d) then (Err AuthorityError.NotMember, w)
          else if negb (rw_stop_number w =? lf_stop_epoch (cs_life s)) then (Err AuthorityError.EmergencyStopped, w)
          else if (MAX_CONSENTS <=? length (de_consents d))%nat then (Err AuthorityError.Capacity, w)
          else
            let consent := MkConsent contract_hash request evidence_seq kind at_wall_ms (cs_life s) page_facts in
            let '(r, w) := at_cells (admit_host (de_file_cell d)) w in
            match r with
            | Err e => (Err e, w)
            | Ok _ =>
                (Ok tt, w <| rw_doors := <[cs_group s := d <| de_consents := de_consents d ++ [consent] |>]>
                                           (rw_doors w) |>)
            end
      end.

(** The yes the Owner gave, all those to the same hash and request agreeing. *)
Definition agreed_consent w (d : DoorEntry) (contract_hash request : str) : option Consent :=
  match filter (λ c, cn_life c = life_now w ∧ cn_contract_hash c = contract_hash ∧ cn_request c = request)
          (de_consents d) with
  | first :: others =>
      if forallb (λ c, bool_decide (cn_page_facts c = cn_page_facts first)) others then Some first else None
  | [] => None
  end.

Definition admissible w (run : RunId) (agent : AgentId) (group : GroupId) (contract_hash request : str)
    : aresult Consent :=
  if rw_stopped w then Err AuthorityError.EmergencyStopped
  else if rw_closed w then Err QUITTING
  else
    let? d := live_door w group agent in
    let? e := ok_or (rw_runs w !! run) AuthorityError.UnknownRun in
    let? _ := live_member w e agent group in
    ok_or (agreed_consent w d contract_hash request) AuthorityError.NoConsent.

Definition same_files (a b : FilesAdmission) : bool :=
  bool_decide (fa_contract_hash a = fa_contract_hash b) && bool_decide (fa_request a = fa_request b) &&
  bool_decide (fa_workspace a = fa_workspace b) && bool_decide (fa_page_facts a = fa_page_facts b).

Definition admit_files (run : RunId) (agent : AgentId) (group : GroupId) (contract_hash request : str)
    (workspace : AdmittedWorkspace) w : aresult FilesAdmission * RunWorld :=
  if rw_poisoned w then (Err UNREADABLE, w)
  else
    match admissible w run agent group contract_hash request, rw_runs w !! run with
    | Err e, _ => (Err e, w)
    | Ok _, None => (Err AuthorityError.UnknownRun, w)
    | Ok c, Some e =>
        if engaged w (re_file_cell e) then (Err AuthorityError.Halted, w)
        else
          let a := MkFilesAdmission (cn_contract_hash c) (cn_request c) (cn_evidence_seq c) (cn_kind c)
                     (cn_at_wall_ms c) workspace (cn_page_facts c) in
          match re_files_admission e with
          | Some bound => (if same_files bound a then Ok bound else Err AuthorityError.AlreadyAdmitted, w)
          | None =>
              let '(r, w) := at_cells (admit_host (re_file_cell e)) w in
              match r with
              | Err e => (Err e, w)
              | Ok _ => (Ok a, w <| rw_runs := <[run := e <| re_files_admission := Some a |>]> (rw_runs w) |>)
              end
          end
    end.

Definition inference_of (c : Consent) (identity : bytes) : InferenceAdmission :=
  MkInferenceAdmission (cn_contract_hash c) (cn_request c) (cn_evidence_seq c) (cn_kind c)
    (cn_at_wall_ms c) identity.
Definition same_inference (a b : InferenceAdmission) : bool :=
  bool_decide (ia_contract_hash a = ia_contract_hash b) && bool_decide (ia_request a = ia_request b) &&
  bool_decide (ia_identity a = ia_identity b).

Definition admit_inference (run : RunId) (agent : AgentId) (group : GroupId) (contract_hash request : str)
    (identity : bytes) w : aresult InferenceAdmission * RunWorld :=
  if rw_poisoned w then (Err UNREADABLE, w)
  else
    match admissible w run agent group contract_hash request, rw_runs w !! run with
    | Err e, _ => (Err e, w)
    | Ok _, None => (Err AuthorityError.UnknownRun, w)
    | Ok c, Some e =>
        if engaged w (re_file_cell e) then (Err AuthorityError.Halted, w)
        else
          let a := inference_of c identity in
          match re_inference_admission e with
          | Some bound => (if same_inference bound a then Ok bound else Err AuthorityError.AlreadyAdmitted, w)
          | None => (Ok a, w <| rw_runs := <[run := e <| re_inference_admission := Some a |>]> (rw_runs w) |>)
          end
    end.

Definition admit_model_call (run : RunId) (agent : AgentId) (group : GroupId) (identity : bytes) w
    : aresult CallTicket * RunWorld :=
  let admitted : aresult RunEntry :=
    if rw_poisoned w then Err UNREADABLE
    else if rw_stopped w then Err AuthorityError.EmergencyStopped
    else if rw_closed w then Err QUITTING
    else
      let? _ := live_door w group agent in
      let? e := ok_or (rw_runs w !! run) AuthorityError.UnknownRun in
      let? _ := live_member w e agent group in
      let? a := ok_or (re_inference_admission e) AuthorityError.NotAdmitted in
      if negb (bool_decide (ia_identity a = identity)) then Err AuthorityError.ModelIdentityMismatch
      else if MAX_MODEL_ATTEMPTS <=? re_model_attempts e
      then Err (AuthorityError.ModelCall ModelError.OverBudget)
      else if engaged w (re_file_cell e) then Err AuthorityError.Halted
      else Ok e in
  match admitted with
  | Err e => (Err e, w)
  | Ok e =>
      (Ok (MkCallTicket (MkCancelToken (rv_id (re_view e)) (re_file_cell e)) group),
       w <| rw_runs := <[run := e <| re_model_attempts := re_model_attempts e + 1 |>]> (rw_runs w) |>)
  end.

Definition files_admission w (run : RunId) : option FilesAdmission :=
  if rw_poisoned w then None else rw_runs w !! run ≫= re_files_admission.
Definition privacy w (run : RunId) : Privacy.t :=
  if rw_poisoned w then Privacy.Restricted
  else match rw_runs w !! run with Some e => re_privacy e | None => Privacy.Restricted end.
End Admitting.

(** ** A session's model calls *)

Record SessionAttempt := MkSessionAttempt {
  sa_run : RunId;
  sa_agent : AgentId;
  sa_group : GroupId;
  sa_admission : InferenceAdmission;
  sa_ordinal : Z;
  sa_door : str;
  sa_cell : HaltCell;
}.
(** A door's retained File grant and the clocks read before any hold, with the grant
    store as it is found. *)
Record OriginalGrant := MkOriginalGrant {
  og_lock : Lock.t;
  og_grants : Grants;
  og_grant : GrantId;
  og_mono : Z;
  og_wall : Z;
}.

(** A [try_lock] of the runs: free unless another thread holds it. *)
Definition try_runs (w : RunWorld) (contended : bool) : Lock.t :=
  if rw_poisoned w then Lock.Broken else if contended then Lock.Held else Lock.Free.

Section Sessions.
Implicit Types w : RunWorld.

Definition fail_cell (cell : HaltCell) w : RunWorld :=
  w <| rw_cells := fail_session cell (rw_cells w) |>.

Definition grant_covers (files : FilesAdmission) (scope : option GrantScope.t) : bool :=
  match scope with
  | Some (GrantScope.Files workspace _ identity) =>
      bool_decide (workspace = aw_id (fa_workspace files)) &&
      bool_decide (identity = aw_identity (fa_workspace files))
  | _ => false
  end.
(** [OriginalGrant::live]; a poisoned store fails the session of [cell]. *)
Definition grant_hold (g : OriginalGrant) (files : FilesAdmission) (cell : HaltCell) w
    : aresult unit * RunWorld :=
  match try_live_at (og_lock g) (og_grant g) (og_mono g) (og_wall g) (og_grants g) with
  | Err e =>
      (Err (AuthorityError.Unavailable (lit "model grant hold unavailable")),
       match e with GrantObservation.Poisoned => fail_cell cell w | GrantObservation.Contended => w end)
  | Ok scope => (if grant_covers files scope then Ok tt else Err AuthorityError.GrantNotLive, w)
  end.

(** [AgentDoor::retained_identity] ([governed/door.rs]). *)
Definition retained_identity w (life : nat) (group : GroupId) (agent : AgentId) (original : HaltCell)
    : option str :=
  core ← rw_cores w !! life;
  if (dc_group core =? group) && bool_decide (dc_agent core = agent) &&
     same_cell (dc_session_cell core) (Some original)
  then Some (dc_id core) else None.

Definition same_yes (a : InferenceAdmission) (f : FilesAdmission) : bool :=
  bool_decide (ia_contract_hash a = fa_contract_hash f) && bool_decide (ia_request a = fa_request f) &&
  (ia_evidence_seq a =? fa_evidence_seq f) && bool_decide (ia_kind a = fa_kind f) &&
  (ia_consented_wall_ms a =? fa_consented_wall_ms f).

(** What an attempt needs of the tables: the door's id, the run, its cell and its two
    admissions. *)
Definition attempt_ready w (run : RunId) (agent : AgentId) (group : GroupId) (identity : bytes)
    (original : HaltCell) : aresult (str * RunEntry * HaltCell * FilesAdmission * InferenceAdmission) :=
  if rw_stopped w then Err AuthorityError.EmergencyStopped
  else if rw_closed w then Err QUITTING
  else
    let? d := live_door w group agent in
    let? door := ok_or (retained_identity w (de_life d) group agent original) AuthorityError.NotMember in
    let? e := ok_or (rw_runs w !! run) AuthorityError.UnknownRun in
    let? _ := live_member w e agent group in
    let? _ := host_prerequisites w e in
    let? cell := ok_or (re_file_cell e ≫= λ c, if host c && same c original then Some c else None)
                   AuthorityError.NotMember in
    if negb (bool_decide (re_opened_by e = Some group)) then Err AuthorityError.NotMember
    else
      let? files := ok_or (re_files_admission e) AuthorityError.NotAdmitted in
      let? a := ok_or (re_inference_admission e) AuthorityError.NotAdmitted in
      if negb (bool_decide (ia_identity a = identity)) then Err AuthorityError.ModelIdentityMismatch
      else if negb (same_yes a files) then Err AuthorityError.NoConsent
      else if MAX_MODEL_ATTEMPTS <=? re_model_attempts e
      then Err (AuthorityError.ModelCall ModelError.OverBudget)
      else Ok (door, e, cell, files, a).

(** [revoked] is what the invocation's observer reads. *)
Definition admit_session_attempt (contended : bool) (run : RunId) (agent : AgentId) (group : GroupId)
    (identity : bytes) (original : HaltCell) (grant : OriginalGrant) (revoked : bool) w
    : aresult SessionAttempt * RunWorld :=
  let unavailable : aresult SessionAttempt :=
    Err (AuthorityError.Unavailable (lit "model run hold unavailable")) in
  match try_runs w contended with
  | Lock.Broken => (unavailable, fail_cell original w)
  | Lock.Held => (unavailable, w)
  | Lock.Free =>
      match attempt_ready w run agent group identity original with
      | Err e => (Err e, w)
      | Ok (door, e, cell, files, a) =>
          match checked_add u32_max (re_model_attempts e) 1 with
          | None => (Err AuthorityError.Capacity, w)
          | Some ordinal =>
              let '(r, w) := grant_hold grant files cell w in
              match r with
              | Err e => (Err e, w)
              | Ok _ =>
                  if revoked then (Err AuthorityError.Halted, w)
                  else
                    let '(r, w) := at_cells (cell_admit cell) w in
                    match r with
                    | Err e => (Err e, w)
                    | Ok _ =>
                        let e := e <| re_model_attempts := ordinal |>
                                   <| re_model_pins := {[ordinal]} ∪ re_model_pins e |> in
                        (Ok (MkSessionAttempt run agent group a ordinal door cell),
                         w <| rw_runs := <[run := e]> (rw_runs w) |>)
                    end
              end
          end
      end
  end.

(** [settle_session_attempt], once its hold is taken ([held] says whether it was before
    the deadline); [same_registry] is the ticket's own registry. *)
Definition settle_session_attempt (same_registry held : bool) (t : SessionAttempt) w
    : aresult unit * RunWorld :=
  if negb same_registry then (Err AuthorityError.WrongRun, w)
  else if rw_poisoned w || negb held
  then (Err (AuthorityError.Unavailable (lit "settlement hold unavailable")), w)
  else
    match rw_runs w !! sa_run t with
    | None => (Err AuthorityError.UnknownRun, w)
    | Some e =>
        if negb (bool_decide (rv_agent (re_view e) = sa_agent t)) ||
           negb (bool_decide (re_opened_by e = Some (sa_group t))) ||
           negb (bool_decide (re_inference_admission e = Some (sa_admission t))) ||
           negb (same_cell (re_file_cell e) (Some (sa_cell t))) ||
           negb (bool_decide (sa_ordinal t ∈ re_model_pins e))
        then (Err AuthorityError.WrongRun, w)
        else
          (Ok tt, w <| rw_runs := <[sa_run t := e <| re_model_pins := re_model_pins e ∖ {[sa_ordinal t]} |>]>
                                    (rw_runs w) |>)
    end.

Record SessionBinding := MkSessionBinding {
  sb_run : RunId;
  sb_agent : AgentId;
  sb_group : GroupId;
  sb_contract_hash : str;
  sb_request : str;
  sb_identity : bytes;
  sb_original : HaltCell;
  sb_q_run : option RunId;
  sb_grant : OriginalGrant;
}.

(** The consent's exact File association. *)
Definition same_consent (c : Consent) (f : FilesAdmission) : bool :=
  bool_decide (cn_contract_hash c = fa_contract_hash f) && bool_decide (cn_request c = fa_request f) &&
  (cn_evidence_seq c =? fa_evidence_seq f) && bool_decide (cn_kind c = fa_kind f) &&
  (cn_at_wall_ms c =? fa_consented_wall_ms f) && bool_decide (cn_page_facts c = fa_page_facts f).

(** The tables' part, to the run's File admission and the agreed yes. *)
Definition binding_ready w (b : SessionBinding) : aresult (RunEntry * FilesAdmission * option Consent) :=
  if rw_stopped w then Err AuthorityError.EmergencyStopped
  else if rw_closed w then Err QUITTING
  else
    let? d := live_door w (sb_group b) (sb_agent b) in
    let? e := ok_or (rw_runs w !! sb_run b) AuthorityError.UnknownRun in
    if negb (bool_decide (rv_agent (re_view e) = sb_agent b)) then Err AuthorityError.WrongAgent
    else if negb (bool_decide (re_class e = RunClass.Agent)) then Err AuthorityError.WrongRun
    else if engaged w (re_file_cell e) || in_halted_group w e then Err AuthorityError.Halted
    else if rv_finished (re_view e) then Err AuthorityError.RunNotActive
    else if entry_ended w e then Err AuthorityError.RunCancelled
    else
      let s := host_cell (re_file_cell e) && same_cell (re_file_cell e) (Some (sb_original b)) in
      let dd := bool_decide (sb_run b ∈ de_members d) && bool_decide (sb_group b ∈ re_groups e) in
      let r := bool_decide (re_opened_by e = Some (sb_group b)) in
      let cell := negb (bool_decide (is_Some (de_file_cell d))) || same_cell (re_file_cell e) (de_file_cell d) in
      let id := bool_decide (rv_id (re_view e) = sb_run b) in
      if negb s || negb dd || negb r || negb cell || negb id then Err AuthorityError.NotMember
      else
        let? files := ok_or (re_files_admission e) AuthorityError.NotAdmitted in
        if negb (bool_decide (sb_q_run b = Some (sb_run b))) then Err AuthorityError.NotMember
        else Ok (e, files, agreed_consent w d (sb_contract_hash b) (sb_request b)).

(** Whether the binding is new; refused when another is installed, or the yes is not the
    File admission's. *)
Definition binding_fresh (b : SessionBinding) (e : RunEntry) (files : FilesAdmission) (c : Consent)
    : aresult bool :=
  let? fresh :=
    match re_inference_admission e with
    | Some bound =>
        if same_inference bound (inference_of c (sb_identity b)) then Ok false
        else Err AuthorityError.AlreadyAdmitted
    | None => Ok true
    end in
  if same_consent c files then Ok fresh else Err AuthorityError.NoConsent.

Definition admit_session_inference (contended : bool) (b : SessionBinding) w : aresult unit * RunWorld :=
  let unavailable : aresult unit := Err (AuthorityError.Unavailable (lit "model run hold unavailable")) in
  match try_runs w contended with
  | Lock.Broken => (unavailable, fail_cell (sb_original b) w)
  | Lock.Held => (unavailable, w)
  | Lock.Free =>
      match binding_ready w b with
      | Err e => (Err e, w)
      | Ok (e, files, consent) =>
          let '(r, w) := grant_hold (sb_grant b) files (sb_original b) w in
          match r with
          | Err e => (Err e, w)
          | Ok _ =>
              match let? c := ok_or consent AuthorityError.NoConsent in
                    let? fresh := binding_fresh b e files c in Ok (c, fresh) with
              | Err e => (Err e, w)
              | Ok (c, fresh) =>
                  let '(r, w) := at_cells (cell_admit (sb_original b)) w in
                  match r with
                  | Err e => (Err e, w)
                  | Ok _ =>
                      (Ok tt,
                       if fresh : bool
                       then w <| rw_runs := <[sb_run b := e <| re_inference_admission :=
                                     Some (inference_of c (sb_identity b)) |>]> (rw_runs w) |>
                       else w)
                  end
              end
          end
      end
  end.
End Sessions.
