(* ===== verification/AuthRunsInv.v ===== *)
(** * The registry's invariant

    What every reachable state of the registry of [AuthRuns] satisfies: membership read
    from the runs and from the doors agrees, the capacities hold, an ended run's flag is
    set, a halted door and a stop leave nothing active and no yes cached, and every
    cached yes was given in the current lifetime. *)

From S2P Require Import Prelude PageFacts AuthBase AuthText HaltCell AuthGrants AuthHalt AuthRuns.

Local Open Scope Z_scope.
Local Open Scope nexus_scope.
#[local] Arguments lit : simpl never.

(** ** The invariant *)

Record entry_ok (w : RunWorld) (id : RunId) (e : RunEntry) : Prop := {
  eo_id : rv_id (re_view e) = id;
  eo_flag : is_Some (rw_flags w !! id) ∧ (was_active e = false → flag w id = true);
  eo_groups : ∀ g, g ∈ re_groups e → ∃ d, rw_doors w !! g = Some d ∧ id ∈ de_members d;
  eo_nodup : NoDup (re_groups e);
  eo_len : (length (re_groups e) ≤ MAX_GROUPS_PER_RUN)%nat;
  eo_privacy : re_privacy e = RunClass.privacy (re_class e);
  eo_retained : 0 ≤ re_retained e;
  eo_attempts : 0 ≤ re_model_attempts e ≤ MAX_MODEL_ATTEMPTS;
  eo_pins : ∀ p, p ∈ re_model_pins e → 1 ≤ p ≤ re_model_attempts e;
  eo_stopped : rw_stopped w = true → was_active e = false;
}.

Record door_ok (w : RunWorld) (g : GroupId) (d : DoorEntry) : Prop := {
  do_members : ∀ run, run ∈ de_members d → ∃ e, rw_runs w !! run = Some e ∧ g ∈ re_groups e ∧
    rv_agent (re_view e) = de_agent d ∧ (de_halted d = true → was_active e = false);
  do_len : (length (de_consents d) ≤ MAX_CONSENTS)%nat;
  do_life : ∀ c, c ∈ de_consents d → cn_life c = life_now w;
  do_pending : 0 ≤ de_pending_consents d;
  do_flag : rw_halt_flags w !! g = Some (de_halted d);
  do_halted : de_halted d = true → de_consents d = [];
  do_stopped : rw_stopped w = true → de_consents d = [];
}.

Record numbers_ok (w : RunWorld) : Prop := {
  no_range : 0 ≤ rw_last_lifted w ≤ rw_stop_number w ∧ rw_stop_number w ≤ u64_max;
  no_running : rw_stopped w = false → rw_last_lifted w = rw_stop_number w;
  no_stopped : rw_stopped w = true → rw_exhausted w = false → rw_last_lifted w < rw_stop_number w;
  no_exhausted : rw_exhausted w = true → rw_stopped w = true ∧ rw_stop_number w = u64_max;
}.

Record reg_ok (w : RunWorld) : Prop := {
  ro_runs : ∀ id e, rw_runs w !! id = Some e → entry_ok w id e;
  ro_doors : ∀ g d, rw_doors w !! g = Some d → door_ok w g d;
  ro_capacity : (size (rw_runs w) ≤ RUN_CAPACITY)%nat;
  ro_live : (size (rw_doors w) ≤ MAX_LIVE_DOORS)%nat;
  ro_numbers : numbers_ok w;
}.

(** ** What a hold changes *)

(** The rest of the registry, which most holds leave. *)
Definition same_rest (w w' : RunWorld) : Prop :=
  rw_stopped w' = rw_stopped w ∧ rw_stop_number w' = rw_stop_number w ∧
  rw_exhausted w' = rw_exhausted w ∧ rw_last_lifted w' = rw_last_lifted w.

Lemma numbers_same w w' : same_rest w w' → numbers_ok w → numbers_ok w'.
Proof. intros (E1 & E2 & E3 & E4) []. split; rewrite ?E1, ?E2, ?E3, ?E4; auto. Qed.

Lemma flag_insert w run b r :
  flag (w <| rw_flags := <[run := b]> (rw_flags w) |>) r = if bool_decide (r = run) then b else flag w r.
Proof.
  unfold flag. simpl. case_bool_decide as E; [subst; by rewrite lookup_insert_eq|].
  by rewrite lookup_insert_ne by done.
Qed.

(** Nothing of the tables, the flags or the stop changed. *)
Definition same_tables (w w' : RunWorld) : Prop :=
  rw_runs w' = rw_runs w ∧ rw_doors w' = rw_doors w ∧ rw_flags w' = rw_flags w ∧
  rw_halt_flags w' = rw_halt_flags w ∧ same_rest w w'.

Lemma same_tables_ok w w' : same_tables w w' → reg_ok w → reg_ok w'.
Proof.
  intros (E1 & E2 & E3 & E4 & Hrest) [Hr Hd Hc Hl Hn]. pose proof Hrest as (E5 & E6 & _ & _).
  split; rewrite ?E1, ?E2; try done; [| |by eapply numbers_same].
  - intros id e He. destruct (Hr _ _ He). split; rewrite ?E2, ?E3, ?E5; auto.
    unfold flag in *. by rewrite E3.
  - intros g d Hg. destruct (Hd _ _ Hg). split; rewrite ?E1, ?E4, ?E5; auto.
    unfold life_now in *. by rewrite E6.
Qed.

(** One entry replaced by one with the same view, class and groups. *)
Definition same_run (e e' : RunEntry) : Prop :=
  re_view e' = re_view e ∧ re_class e' = re_class e ∧ re_privacy e' = re_privacy e ∧
  re_groups e' = re_groups e.

Lemma replace_entry_ok w run e e' :
  rw_runs w !! run = Some e → same_run e e' →
  (0 ≤ re_retained e → 0 ≤ re_retained e') →
  0 ≤ re_model_attempts e' ≤ MAX_MODEL_ATTEMPTS →
  (∀ p, p ∈ re_model_pins e' → 1 ≤ p ≤ re_model_attempts e') →
  reg_ok w → reg_ok (w <| rw_runs := <[run := e']> (rw_runs w) |>).
Proof.
  intros He (Ev & Ec & Ep & Eg) Hret Hatt Hpins [Hr Hd Hc Hl Hn].
  assert (Ea : was_active e' = was_active e) by (unfold was_active; by rewrite Ev).
  split; simpl; try done.
  - intros id e1 [[<- <-]|[Hne He1]]%lookup_insert_Some.
    + destruct (Hr _ _ He) as [Hi Hf Hg Hnd Hlen Hp Hre _ _ Hs].
      split; simpl; rewrite ?Ev, ?Ec, ?Ep, ?Eg, ?Ea; auto.
    + destruct (Hr _ _ He1). by split.
  - intros g d Hg. destruct (Hd _ _ Hg) as [Hm ? ? ? ? ? ?]. split; simpl; auto. intros r Hin.
    destruct (Hm _ Hin) as (e1 & He1 & Hge & Hag & Hh). destruct (decide (r = run)) as [->|].
    + exists e'. rewrite lookup_insert_eq, Ev, Eg, Ea. simplify_eq. auto.
    + exists e1. rewrite lookup_insert_ne by done. auto.
  - by rewrite map_size_insert_Some by eauto.
  - by apply (numbers_same w).
Qed.

(** One door replaced by one with the same agent, members and halt. *)
Lemma replace_door_ok w g d d' :
  rw_doors w !! g = Some d →
  de_agent d' = de_agent d → de_members d' = de_members d → de_halted d' = de_halted d →
  (length (de_consents d') ≤ MAX_CONSENTS)%nat →
  (∀ c, c ∈ de_consents d' → cn_life c = life_now w) →
  (0 ≤ de_pending_consents d → 0 ≤ de_pending_consents d') →
  (de_halted d = true ∨ rw_stopped w = true → de_consents d = [] → de_consents d' = []) →
  reg_ok w → reg_ok (w <| rw_doors := <[g := d']> (rw_doors w) |>).
Proof.
  intros Hg Ea Em Eh Hlen Hlife Hp He [Hr Hd Hc Hl Hn].
  split; simpl; try done.
  - intros id e H. destruct (Hr _ _ H) as [? ? Hgs ? ? ? ? ? ? ?]. split; simpl; auto.
    intros g' Hin. destruct (Hgs _ Hin) as (d1 & Hd1 & Hm). destruct (decide (g' = g)) as [->|].
    + exists d'. rewrite lookup_insert_eq, Em. simplify_eq. auto.
    + exists d1. by rewrite lookup_insert_ne by done.
  - intros g' d1 [[<- <-]|[Hne H]]%lookup_insert_Some.
    + destruct (Hd _ _ Hg) as [Hm ? ? ? ? Hha Hst]. split; simpl; rewrite ?Ea, ?Em, ?Eh; auto.
    + destruct (Hd _ _ H). by split.
  - by rewrite map_size_insert_Some by eauto.
  - by apply (numbers_same w).
Qed.

(** A run's view ends, with its flag. *)
Lemma end_entry_ok w run e v :
  rw_runs w !! run = Some e → rv_id v = rv_id (re_view e) → rv_agent v = rv_agent (re_view e) →
  rv_cancelled v || rv_finished v = true →
  reg_ok w →
  reg_ok (w <| rw_runs := <[run := e <| re_view := v |>]> (rw_runs w) |>
            <| rw_flags := <[rv_id (re_view e) := true]> (rw_flags w) |>).
Proof.
  intros He Evi Eva Hend [Hr Hd Hc Hl Hn].
  assert (Hid : rv_id (re_view e) = run) by by apply (eo_id _ _ _ (Hr _ _ He)).
  assert (Hina : was_active (e <| re_view := v |>) = false).
  { unfold was_active. simpl. by destruct (rv_cancelled v), (rv_finished v). }
  rewrite Hid. split; simpl; try done.
  - intros id e1 [[<- <-]|[Hne He1]]%lookup_insert_Some.
    + destruct (Hr _ _ He) as [_ _ Hg Hnd Hlen Hp Hre Hat Hpi _].
      split; simpl; auto; [by rewrite Evi|]. rewrite lookup_insert_eq. split; [by eauto|].
      unfold flag. simpl. by rewrite lookup_insert_eq.
    + destruct (Hr _ _ He1) as [? [? Hf] ? ? ? ? ? ? ? ?]. split; simpl; auto.
      unfold flag. simpl. rewrite lookup_insert_ne by done. split; auto.
  - intros g d Hg. destruct (Hd _ _ Hg) as [Hm ? ? ? ? ? ?]. split; simpl; auto. intros r Hin.
    destruct (Hm _ Hin) as (e1 & He1 & Hge & Hag & Hh). destruct (decide (r = run)) as [->|].
    + exists (e <| re_view := v |>). rewrite lookup_insert_eq. simplify_eq. simpl. rewrite Eva. auto.
    + exists e1. rewrite lookup_insert_ne by done. auto.
  - by rewrite map_size_insert_Some by eauto.
  - by apply (numbers_same w).
Qed.

(** A door gone. *)
Lemma imap_size {A} (f : RunId → A → A) (m : gmap RunId A) :
  size (map_imap (λ k x, Some (f k x)) m) = size m.
Proof.
  rewrite <- !size_dom. f_equal. apply set_eq. intros k. rewrite !elem_of_dom, map_lookup_imap.
  destruct (m !! k); simpl; split; intros [? ?]; eauto; done.
Qed.

Lemma filter_all {A} (P : A → Prop) `{!∀ x, Decision (P x)} (l : list A) :
  (∀ x, x ∈ l → P x) → filter P l = l.
Proof.
  induction l as [|x l IH]; intros Hl; [done|]. rewrite filter_cons_True by (apply Hl; set_solver).
  f_equal. apply IH. set_solver.
Qed.

Lemma with_groups_ok w w' id e gs :
  entry_ok w id e → rw_flags w' = rw_flags w → rw_stopped w' = rw_stopped w →
  (∀ g, g ∈ gs → ∃ d, rw_doors w' !! g = Some d ∧ id ∈ de_members d) → NoDup gs →
  (length gs ≤ MAX_GROUPS_PER_RUN)%nat → entry_ok w' id (e <| re_groups := gs |>).
Proof.
  intros [Hi Hf Hg Hnd Hlen Hp Hre Ha Hpi Hs] Ef Es Hgs Hn Hl.
  split; simpl; rewrite ?Ef, ?Es; auto. unfold flag. rewrite Ef. auto.
Qed.

Lemma remove_door_look w g d id e :
  reg_ok w → rw_doors w !! g = Some d → rw_runs w !! id = Some e →
  rw_runs (remove_door w g) !! id = Some (forget_group g e).
Proof.
  intros Hok Hg He. unfold remove_door. rewrite Hg. simpl. rewrite map_lookup_imap, He. simpl.
  case_bool_decide as Hin; [done|]. f_equal. unfold forget_group. rewrite filter_all; [by destruct e|].
  intros g' Hg' ->. destruct (eo_groups _ _ _ (ro_runs _ Hok _ _ He) _ Hg') as (d1 & Hd1 & Hm). congruence.
Qed.

Lemma remove_door_ok w g : reg_ok w → reg_ok (remove_door w g).
Proof.
  intros Hok. pose proof Hok as [Hr Hd Hc Hl Hn].
  destruct (rw_doors w !! g) as [d|] eqn:Hg; [|unfold remove_door; by rewrite Hg].
  assert (Hdoors : rw_doors (remove_door w g) = delete g (rw_doors w)) by (unfold remove_door; by rewrite Hg).
  assert (Hruns : rw_runs (remove_door w g) = map_imap (λ run e, Some (if bool_decide (run ∈ de_members d)
    then forget_group g e else e)) (rw_runs w)) by (unfold remove_door; by rewrite Hg).
  assert (Hrest : rw_flags (remove_door w g) = rw_flags w ∧ rw_halt_flags (remove_door w g) = rw_halt_flags w ∧
    same_rest w (remove_door w g)) by (unfold remove_door; by rewrite Hg).
  destruct Hrest as (Ef & Eh & Hrest). pose proof Hrest as (Es & En & _ & _).
  split; rewrite ?Hdoors; [| |by rewrite Hruns, imap_size| |by eapply numbers_same].
  - intros id e' He'. destruct (rw_runs w !! id) as [e|] eqn:He.
    2: { rewrite Hruns, map_lookup_imap, He in He'. done. }
    rewrite (remove_door_look _ _ _ _ _ Hok Hg He) in He'. injection He' as <-.
    pose proof (Hr _ _ He) as Heo. eapply with_groups_ok; try done.
    + intros g' (Hne & Hin)%list_elem_of_filter. rewrite Hdoors, lookup_delete_ne by done.
      by apply (eo_groups _ _ _ Heo).
    + apply NoDup_filter, Heo.
    + etrans; [apply length_filter|apply Heo].
  - intros g' d' (Hne & Hd')%lookup_delete_Some. destruct (Hd _ _ Hd') as [Hm ? ? ? ? ? ?].
    split; rewrite ?Eh, ?Es; auto; [|unfold life_now in *; by rewrite En]. intros run Hin.
    destruct (Hm _ Hin) as (e & He & Hge & Hag & Hh). exists (forget_group g e).
    rewrite (remove_door_look _ _ _ _ _ Hok Hg He). simpl. split_and!; try done.
    by apply list_elem_of_filter.
  - rewrite map_size_delete_Some by eauto. lia.
Qed.

Lemma prune_doors_ok w : reg_ok w → reg_ok (prune_doors w).
Proof.
  unfold prune_doors. generalize (gone w). intros l. revert w.
  induction l as [|g l IH]; intros w Hok; [done|]. apply IH. by apply remove_door_ok.
Qed.

(** An ended run dropped, and it from its groups. *)
Lemma leave_groups_look run gs doors g :
  foldl (leave_group run) doors gs !! g =
  (λ d, if bool_decide (g ∈ gs) then d <| de_members := de_members d ∖ {[run]} |> else d) <$> doors !! g.
Proof.
  revert doors. induction gs as [|g' gs IH]; intros doors; simpl; [by destruct (doors !! g)|].
  rewrite IH. unfold leave_group. destruct (decide (g = g')) as [->|Hne].
  - rewrite lookup_alter_eq. destruct (doors !! g') as [d|]; [|done]. simpl. f_equal.
    rewrite (bool_decide_eq_true_2 (g' ∈ g' :: gs)) by set_solver.
    case_bool_decide; [|done]. unfold update, upd_de_members. simpl. f_equal. set_solver.
  - rewrite lookup_alter_ne by done. destruct (doors !! g); [|done]. simpl. f_equal.
    assert (bool_decide (g ∈ g' :: gs) = bool_decide (g ∈ gs)) as ->; [|done].
    apply bool_decide_ext. set_solver.
Qed.

Lemma remove_run_ok w run : reg_ok w → reg_ok (remove_run w run).
Proof.
  intros Hok. pose proof Hok as [Hr Hd Hc Hl Hn]. unfold remove_run.
  destruct (rw_runs w !! run) as [e|] eqn:He; [|done].
  split; simpl; [| |rewrite map_size_delete_Some by eauto; lia| |by apply (numbers_same w)].
  - intros id e' (Hne & He')%lookup_delete_Some. destruct (Hr _ _ He') as [? ? Hgs ? ? ? ? ? ? ?].
    split; simpl; auto. intros g Hg. destruct (Hgs _ Hg) as (d & Hdg & Hm). rewrite leave_groups_look, Hdg.
    simpl. eexists. split; [done|]. case_bool_decide; [|done]. simpl. set_solver.
  - intros g d'. rewrite leave_groups_look. destruct (rw_doors w !! g) as [d|] eqn:Hg; [|done].
    intros [= <-]. destruct (Hd _ _ Hg) as [Hm ? ? ? ? ? ?].
    assert (Hkeep : ∀ r, r ∈ de_members d → r ≠ run → ∃ e0, delete run (rw_runs w) !! r = Some e0 ∧
      g ∈ re_groups e0 ∧ rv_agent (re_view e0) = de_agent d ∧ (de_halted d = true → was_active e0 = false)).
    { intros r Hin Hne. destruct (Hm _ Hin) as (e0 & ? & ?). exists e0. by rewrite lookup_delete_ne. }
    case_bool_decide as Hin; split; simpl; auto.
    + intros r Hri. apply Hkeep; set_solver.
    + intros r Hri. apply Hkeep; [done|]. intros ->. destruct (Hm _ Hri) as (e0 & He0 & Hg0 & _).
      simplify_eq. done.
  - assert (dom (foldl (leave_group run) (rw_doors w) (re_groups e)) = dom (rw_doors w)) as E.
    { apply set_eq. intros g. rewrite !elem_of_dom, leave_groups_look. by rewrite fmap_is_Some. }
    by rewrite <- size_dom, E, size_dom.
Qed.

Lemma prune_ended_ok w : reg_ok w → reg_ok (prune_ended w).
Proof.
  unfold prune_ended. generalize (ended_runs w). intros l. revert w.
  induction l as [|r l IH]; intros w Hok; [done|]. apply IH. by apply remove_run_ok.
Qed.

(** ** Cells and prunings *)

Lemma at_cells_same {A} (f : Cells → A * Cells) w r w' : at_cells f w = (r, w') → same_tables w w'.
Proof. unfold at_cells. destruct (f (rw_cells w)). by intros [= _ <-]. Qed.

Definition same_door (d d' : DoorEntry) : Prop :=
  de_life d' = de_life d ∧ de_agent d' = de_agent d ∧ de_active d' = de_active d ∧
  de_halted d' = de_halted d ∧ de_file_cell d' = de_file_cell d ∧ de_consents d' = de_consents d.

Lemma same_rest_refl w : same_rest w w.
Proof. done. Qed.
Lemma same_rest_trans w1 w2 w3 : same_rest w1 w2 → same_rest w2 w3 → same_rest w1 w3.
Proof. unfold same_rest. intuition congruence. Qed.

(** What a pruning leaves: the flags, the stop, the cores, each kept run or door as it
    was. *)
Record prunes (w w' : RunWorld) : Prop := {
  pr_rest : same_rest w w';
  pr_flags : rw_flags w' = rw_flags w;
  pr_halt_flags : rw_halt_flags w' = rw_halt_flags w;
  pr_cores : rw_cores w' = rw_cores w;
  pr_cells : rw_cells w' = rw_cells w;
  pr_closed : rw_closed w' = rw_closed w;
  pr_poisoned : rw_poisoned w' = rw_poisoned w;
}.

Lemma prunes_refl w : prunes w w.
Proof. by split. Qed.
Lemma prunes_trans w1 w2 w3 : prunes w1 w2 → prunes w2 w3 → prunes w1 w3.
Proof. intros [] []. split; [by eapply same_rest_trans|congruence..]. Qed.

Lemma foldl_prunes {A} (f : RunWorld → A → RunWorld) l w :
  (∀ w a, prunes w (f w a)) → prunes w (foldl f w l).
Proof.
  intros Hf. revert w. induction l as [|a l IH]; intros w; [apply prunes_refl|].
  eapply prunes_trans; [apply Hf|apply IH].
Qed.

Lemma prune_doors_prunes w : prunes w (prune_doors w).
Proof. apply foldl_prunes. intros w' g. unfold remove_door. case_match; by split. Qed.
Lemma prune_ended_prunes w : prunes w (prune_ended w).
Proof. apply foldl_prunes. intros w' g. unfold remove_run. case_match; by split. Qed.

Lemma prune_ended_door w g d :
  rw_doors w !! g = Some d → ∃ d', rw_doors (prune_ended w) !! g = Some d' ∧ same_door d d'.
Proof.
  unfold prune_ended. generalize (ended_runs w). intros l. revert w d.
  induction l as [|r l IH]; intros w d Hg; [by exists d|]. simpl.
  assert (∃ d1, rw_doors (remove_run w r) !! g = Some d1 ∧ same_door d d1) as (d1 & Hd1 & Hs1).
  { unfold remove_run. destruct (rw_runs w !! r) as [e|]; [|by exists d]. simpl.
    rewrite leave_groups_look, Hg. simpl. eexists. split; [done|]. by case_bool_decide. }
  destruct (IH _ _ Hd1) as (d2 & Hd2 & Hs2). exists d2. split; [done|].
  unfold same_door in *. intuition congruence.
Qed.

Lemma remove_doors_keep l w g : g ∉ l → rw_doors (foldl remove_door w l) !! g = rw_doors w !! g.
Proof.
  revert w. induction l as [|g' l IH]; intros w Hg; [done|]. apply not_elem_of_cons in Hg as [Hne Hg].
  simpl. rewrite IH by done. unfold remove_door. case_match; [|done]. simpl. by rewrite lookup_delete_ne.
Qed.

Lemma gone_spec w g : g ∈ gone w ↔ ∃ d, rw_doors w !! g = Some d ∧ alive w d = false.
Proof.
  unfold gone. rewrite list_elem_of_fmap. split.
  - intros ([g' d] & -> & (Ha & Hin)%list_elem_of_filter). exists d. by apply elem_of_map_to_list in Hin.
  - intros (d & Hg & Ha). exists (g, d). split; [done|]. apply list_elem_of_filter.
    split; [done|]. by apply elem_of_map_to_list.
Qed.

Lemma prune_doors_keep w g d :
  rw_doors w !! g = Some d → alive w d = true → rw_doors (prune_doors w) !! g = Some d.
Proof.
  intros Hg Ha. unfold prune_doors. rewrite remove_doors_keep; [done|].
  rewrite gone_spec. intros (d' & Hd' & Ha'). congruence.
Qed.

(** ** A run opens, a run joins a door, a door is reserved *)

Lemma insert_run_ok w id e :
  reg_ok w → rw_flags w !! id = None → (size (rw_runs w) < RUN_CAPACITY)%nat → rw_stopped w = false →
  rv_id (re_view e) = id → re_groups e = [] → re_privacy e = RunClass.privacy (re_class e) →
  re_retained e = 0 → re_model_attempts e = 0 → re_model_pins e = ∅ → was_active e = true →
  reg_ok (w <| rw_runs := <[id := e]> (rw_runs w) |> <| rw_flags := <[id := false]> (rw_flags w) |>).
Proof.
  intros [Hr Hd Hc Hl Hn] Hfresh Hsize Hs Hid Hg Hp Hre Ha Hpi Hact.
  assert (Hnew : rw_runs w !! id = None).
  { destruct (rw_runs w !! id) eqn:E; [|done]. destruct (eo_flag _ _ _ (Hr _ _ E)) as [[? ?] _]. congruence. }
  split; simpl; [| |rewrite map_size_insert_None by done; lia|done|by apply (numbers_same w)].
  - intros i e' [[<- <-]|[Hne He']]%lookup_insert_Some.
    + split; simpl; rewrite ?Hg, ?Hre, ?Ha, ?Hpi, ?Hact; try done; try set_solver.
      * rewrite lookup_insert_eq. split; [by eauto|done].
      * apply NoDup_nil_2.
      * unfold MAX_GROUPS_PER_RUN. simpl. lia.
    + destruct (Hr _ _ He') as [? [? ?] ? ? ? ? ? ? ? ?]. split; simpl; auto. unfold flag in *. simpl.
      by rewrite lookup_insert_ne.
  - intros g d Hgd. destruct (Hd _ _ Hgd) as [Hm ? ? ? ? ? ?]. split; simpl; auto. intros run Hin.
    destruct (Hm _ Hin) as (e' & He' & ?). exists e'. rewrite lookup_insert_ne by congruence. auto.
Qed.

Lemma add_group_ok w run e g d :
  reg_ok w → rw_runs w !! run = Some e → rw_doors w !! g = Some d → g ∉ re_groups e →
  (length (re_groups e) < MAX_GROUPS_PER_RUN)%nat → de_halted d = false →
  rv_agent (re_view e) = de_agent d →
  reg_ok (w <| rw_runs := <[run := e <| re_groups := re_groups e ++ [g] |>]> (rw_runs w) |>
            <| rw_doors := alter (λ d, d <| de_members := {[run]} ∪ de_members d |>) g (rw_doors w) |>).
Proof.
  intros [Hr Hd Hc Hl Hn] He Hg Hnin Hlen Hh Hag.
  assert (Halt : ∀ g' d', rw_doors w !! g' = Some d' →
    ∃ d1, alter (λ d, d <| de_members := {[run]} ∪ de_members d |>) g (rw_doors w) !! g' = Some d1 ∧
      de_members d' ⊆ de_members d1 ∧ (g' = g → run ∈ de_members d1)).
  { intros g' d' Hd'. destruct (decide (g' = g)) as [->|].
    - rewrite lookup_alter_eq, Hd'. eexists. split; [done|]. simpl. set_solver.
    - rewrite lookup_alter_ne by done. exists d'. by split. }
  split; simpl; [| |by rewrite map_size_insert_Some by eauto| |by apply (numbers_same w)].
  - intros id e' [[<- <-]|[Hne He']]%lookup_insert_Some.
    + pose proof (Hr _ _ He) as Heo. eapply with_groups_ok; try done.
      * intros g' [Hin| ->%list_elem_of_singleton]%elem_of_app.
        -- destruct (eo_groups _ _ _ Heo _ Hin) as (d' & Hd' & Hm).
           destruct (Halt _ _ Hd') as (d1 & ? & Hsub & _). exists d1. split; [done|]. by apply Hsub.
        -- destruct (Halt _ _ Hg) as (d1 & ? & _ & Hin). exists d1. auto.
      * apply NoDup_app. split_and!; [apply Heo|set_solver|apply NoDup_singleton].
      * rewrite length_app. simpl. lia.
    + destruct (Hr _ _ He') as [? ? Hgs ? ? ? ? ? ? ?]. split; simpl; auto. intros g' Hin.
      destruct (Hgs _ Hin) as (d' & Hd' & Hm). destruct (Halt _ _ Hd') as (d1 & ? & Hsub & _).
      exists d1. split; [done|]. by apply Hsub.
  - intros g' d'. rewrite lookup_alter_Some. intros Hcase.
    assert (Hkeep : ∀ g0 d0 r, rw_doors w !! g0 = Some d0 → r ∈ de_members d0 →
      ∃ e0, <[run := e <| re_groups := re_groups e ++ [g] |>]> (rw_runs w) !! r = Some e0 ∧
        g0 ∈ re_groups e0 ∧ rv_agent (re_view e0) = de_agent d0 ∧ (de_halted d0 = true → was_active e0 = false)).
    { intros g0 d0 r Hd0 Hin. destruct (do_members _ _ _ (Hd _ _ Hd0) _ Hin) as (e0 & He0 & Hg0 & ?).
      destruct (decide (r = run)) as [->|]; [|exists e0; by rewrite lookup_insert_ne].
      simplify_eq. eexists. rewrite lookup_insert_eq. split; [done|]. simpl. split; [set_solver|done]. }
    destruct Hcase as [(<- & d0 & Hd0 & ->)|[Hne Hd0]].
    + simplify_eq. destruct (Hd _ _ Hg). split; simpl; auto.
      intros r [->%elem_of_singleton|Hin]%elem_of_union; [|by eapply Hkeep].
      eexists. rewrite lookup_insert_eq. split; [done|]. simpl. split_and!; [set_solver|done|congruence].
    + destruct (Hd _ _ Hd0). split; simpl; eauto.
  - assert (dom (alter (λ d, d <| de_members := {[run]} ∪ de_members d |>) g (rw_doors w)) = dom (rw_doors w))
      as E by apply dom_alter_L.
    by rewrite <- size_dom, E, size_dom.
Qed.

(** ** Every hold keeps the invariant *)

(** A step through the cells, then the case of its answer. *)
Ltac through_cells :=
  let Hc := fresh "Hc" in
  destruct (at_cells _ _) as [[?|?] ?] eqn:Hc; apply at_cells_same in Hc;
  pose proof Hc as (?Hruns & ?Hdoors & _);
  match goal with H : reg_ok _ |- _ => apply (same_tables_ok _ _ Hc) in H as ?Hok end.

Section Holds.
Context {crates : Crates}.
Implicit Types w : RunWorld.

Lemma open_ok id agent origin class now group cell w r w' :
  rw_flags w !! id = None → open_with_cell id agent origin class now group cell w = (r, w') →
  reg_ok w → reg_ok w'.
Proof.
  intros Hfresh Ho Hok. revert Ho. unfold open_with_cell.
  destruct (rw_poisoned w); [by intros [= _ <-]|]. destruct (engaged w cell); [by intros [= _ <-]|].
  destruct (rw_stopped w) eqn:Hst; [by intros [= _ <-]|]. destruct (rw_closed w); [by intros [= _ <-]|].
  destruct (match group with Some g => opens_in w agent cell g | None => Ok tt end) eqn:Hin;
    [|by intros [= _ <-]].
  set (w1 := if (RUN_CAPACITY <=? _)%nat then prune_ended w else w).
  assert (H1 : reg_ok w1 ∧ prunes w w1 ∧ ∀ g d, rw_doors w !! g = Some d →
    ∃ d', rw_doors w1 !! g = Some d' ∧ same_door d d').
  { subst w1. destruct (_ <=? _)%nat.
    - split_and!; [by apply prune_ended_ok|apply prune_ended_prunes|apply prune_ended_door].
    - split_and!; [done|apply prunes_refl|]. intros g d Hg. by exists d. }
  destruct H1 as (Hok1 & Hp1 & Hd1). clearbody w1.
  destruct (Nat.leb_spec RUN_CAPACITY (size (rw_runs w1))); [by intros [= _ <-]|].
  destruct (at_cells _ _) as [[[]|] w2] eqn:Hc; apply at_cells_same in Hc;
    apply (same_tables_ok _ _ Hc) in Hok1 as Hok2; [|by intros [= _ <-]].
  destruct Hc as (Er & Ed & Ef & Eh & Es & _). intros [= _ <-].
  assert (Hfresh2 : rw_flags w2 !! id = None) by by rewrite Ef, (pr_flags _ _ Hp1).
  assert (Hst2 : rw_stopped w2 = false).
  { destruct (pr_rest _ _ Hp1) as (E & _). by rewrite Es, E. }
  destruct group as [g|]; simpl in *.
  - set (e0 := new_entry id agent origin class now (Some g) cell <| re_groups := [] |>).
    assert (Hok3 : reg_ok (w2 <| rw_runs := <[id := e0]> (rw_runs w2) |> <| rw_flags := <[id := false]> (rw_flags w2) |>))
      by (apply insert_run_ok; rewrite ?Er; done).
    unfold opens_in in Hin. destruct (rw_doors w !! g) as [d|] eqn:Hg; [|done].
    destruct (de_halted d) eqn:Hh; [done|]. simpl in Hin.
    destruct (engaged w (de_file_cell d)), (de_active d && alive w d); try done.
    destruct (match de_file_cell d, cell with None, None => true | _, _ => _ end); [|done].
    case_bool_decide as Ha; [|done]. destruct (Hd1 _ _ Hg) as (d' & Hd' & Hsd).
    destruct Hsd as (_ & Ha' & _ & Hh' & _). rewrite <- Ed in Hd'.
    eapply (add_group_ok _ id e0 g d') in Hok3; simpl.
    + simpl in Hok3. rewrite insert_insert_eq in Hok3. exact Hok3.
    + apply lookup_insert_eq.
    + done.
    + set_solver.
    + unfold MAX_GROUPS_PER_RUN. lia.
    + congruence.
    + congruence.
  - eapply same_tables_ok; [|apply (insert_run_ok w2 id (new_entry id agent origin class now None cell));
      rewrite ?Er; done]. done.
Qed.

Lemma reserve_ok group agent life w r w' :
  rw_halt_flags w !! group = None → reserve_door group agent life w = Some (r, w') → reg_ok w → reg_ok w'.
Proof.
  intros Hfresh Hr Hok. revert Hr. unfold reserve_door. destruct (rw_poisoned w); [done|].
  pose proof (prune_doors_prunes w) as Hp. apply prune_doors_ok in Hok.
  set (w1 := prune_doors w) in *. clearbody w1.
  destruct (Nat.leb_spec MAX_LIVE_DOORS (size (rw_doors w1))); intros [= _ <-]; [done|].
  destruct Hok as [Hr Hd Hc Hl Hn].
  assert (Hnew : rw_doors w1 !! group = None).
  { destruct (rw_doors w1 !! group) eqn:E; [|done]. pose proof (do_flag _ _ _ (Hd _ _ E)) as Hf.
    rewrite (pr_halt_flags _ _ Hp) in Hf. congruence. }
  split; simpl; [| |done|rewrite map_size_insert_None by done; lia|by apply (numbers_same w1)].
  - intros id e He. destruct (Hr _ _ He) as [? ? Hgs ? ? ? ? ? ? ?]. split; simpl; auto.
    intros g Hg. destruct (Hgs _ Hg) as (d & Hdg & ?). exists d. rewrite lookup_insert_ne by congruence. auto.
  - intros g d [[<- <-]|[Hne Hg]]%lookup_insert_Some.
    + split; simpl; try done; try set_solver.
      * unfold MAX_CONSENTS. lia.
      * by rewrite lookup_insert_eq.
    + destruct (Hd _ _ Hg). split; simpl; rewrite ?lookup_insert_ne by done; auto.
Qed.

Lemma activate_ok group halt w r w' :
  activate_door_with_halt group halt w = Some (r, w') → reg_ok w → reg_ok w'.
Proof.
  intros Ha Hok. revert Ha. unfold activate_door_with_halt. destruct (rw_poisoned w); [done|].
  destruct (rw_doors w !! group) as [d|] eqn:Hg; [|by intros [= _ <-]].
  destruct (alive w d); [|by intros [= _ <-]].
  through_cells; intros [= _ <-]; [|done]. rewrite <- Hdoors in Hg.
  destruct (ro_doors _ Hok0 _ _ Hg). by eapply replace_door_ok.
Qed.

Lemma attach_ok group cell w r w' : attach_file_cell group cell w = (r, w') → reg_ok w → reg_ok w'.
Proof.
  intros Ha Hok. revert Ha. unfold attach_file_cell. destruct (rw_poisoned w); [by intros [= _ <-]|].
  destruct (rw_doors w !! group) as [d|] eqn:Hg; [|by intros [= _ <-]].
  destruct (_ && _); [by intros [= _ <-]|].
  through_cells; intros [= _ <-]; [|done]. rewrite <- Hdoors in Hg.
  destruct (ro_doors _ Hok0 _ _ Hg). by eapply replace_door_ok.
Qed.

Lemma live_door_ok w group agent d :
  live_door w group agent = Ok d →
  rw_doors w !! group = Some d ∧ de_halted d = false ∧ engaged w (de_file_cell d) = false ∧
  de_active d = true ∧ alive w d = true ∧ de_agent d = agent.
Proof.
  unfold live_door. destruct (rw_doors w !! group) as [d0|]; [|done].
  destruct (de_halted d0) eqn:?, (engaged w (de_file_cell d0)) eqn:?, (de_active d0) eqn:?,
    (alive w d0) eqn:?; simpl; try done. case_bool_decide; [|done]. by intros [= <-].
Qed.

Lemma join_ok run agent group w r w' : join run agent group w = Some (r, w') → reg_ok w → reg_ok w'.
Proof.
  intros Hj Hok. revert Hj. unfold join. destruct (rw_poisoned w); [done|]. intros [= Hj]. revert Hj.
  destruct (live_door w group agent) as [d|] eqn:Hd; [|by intros [= _ <-]].
  apply live_door_ok in Hd as (Hg & Hh & _ & _ & Hal & Hag).
  match goal with |- context [match ?x with Ok _ => _ | Err _ => _ end] => destruct x end; [|by intros [= _ <-]].
  apply (prune_doors_keep _ _ _ Hg) in Hal. apply prune_doors_ok in Hok.
  set (w1 := prune_doors w) in *. clearbody w1.
  destruct (rw_runs w1 !! run) as [e|] eqn:He; [|by intros [= _ <-]].
  case_bool_decide as Ea; [|by intros [= _ <-]]. case_bool_decide; [|by intros [= _ <-]]. simpl.
  destruct (rv_finished (re_view e)); [by intros [= _ <-]|]. destruct (entry_ended w1 e); [by intros [= _ <-]|].
  case_bool_decide as Hin; [by intros [= _ <-]|]. case_bool_decide; [by intros [= _ <-]|].
  destruct (Nat.leb_spec MAX_GROUPS_PER_RUN (length (re_groups e))); [by intros [= _ <-]|].
  through_cells; intros [= _ <-]; [|done]. rewrite <- Hruns in He. rewrite <- Hdoors in Hal.
  eapply add_group_ok; try done. congruence.
Qed.

Lemma check_request_ok run agent retain request w r w' :
  check_request_retaining run agent retain request w = (r, w') → reg_ok w → reg_ok w'.
Proof.
  intros Hj Hok. revert Hj. unfold check_request_retaining.
  repeat match goal with |- context [if ?b then _ else _] => destruct b eqn:?; [by intros [= _ <-]|] end.
  destruct (rw_runs w !! run) as [e|] eqn:He; [|by intros [= _ <-]].
  destruct (negb _); [by intros [= _ <-]|].
  destruct (request_cell _ _); [|by intros [= _ <-]]. destruct (host_prerequisites _ _); [|by intros [= _ <-]].
  destruct (_ || _); [by intros [= _ <-]|]. destruct (rv_finished _); [by intros [= _ <-]|].
  destruct (entry_ended _ _); [by intros [= _ <-]|]. destruct (negb retain); [by intros [= _ <-]|].
  destruct (negb _); [by intros [= _ <-]|].
  destruct (checked_add _ _ _) as [n|] eqn:Hn; [|by intros [= _ <-]].
  destruct (token_admit_host _ w) as [r1 w1] eqn:Ht.
  assert (Hs : same_tables w w1).
  { revert Ht. unfold token_admit_host. simpl. repeat case_match; intros Ht; try (injection Ht as _ <-; done).
    by apply at_cells_same in Ht. }
  apply (same_tables_ok _ _ Hs) in Hok as Hok1. destruct Hs as (Hruns & _).
  destruct r1; intros [= _ <-]; [|done]. rewrite <- Hruns in He. pose proof (ro_runs _ Hok1 _ _ He) as [].
  eapply replace_entry_ok; try done. simpl. intros _. unfold checked_add in Hn. case_match; [|done]. simplify_eq. lia.
Qed.

Lemma release_ok run w r w' : release run w = (r, w') → reg_ok w → reg_ok w'.
Proof.
  intros Hj Hok. revert Hj. unfold release. destruct (rw_poisoned w); [by intros [= _ <-]|].
  destruct (rw_runs w !! run) as [e|] eqn:He; [|by intros [= _ <-]].
  destruct (checked_sub _ _) as [n|] eqn:Hn; intros [= _ <-]; [|done]. pose proof (ro_runs _ Hok _ _ He) as [].
  eapply replace_entry_ok; try done. simpl. intros _. unfold checked_sub in Hn. case_match; [|done]. simplify_eq. lia.
Qed.

Lemma cancel_entry_ok w run e : rw_runs w !! run = Some e → reg_ok w → reg_ok (cancel_entry run e w).
Proof. intros He. by apply end_entry_ok. Qed.

Lemma cancel_one_ok wall gen b w run : reg_ok w → reg_ok (cancel_one wall gen (b, w) run).2.
Proof.
  intros Hok. unfold cancel_one. simpl. destruct (rw_runs w !! run) as [e|] eqn:He; [|done].
  by apply cancel_entry_ok.
Qed.

Lemma finish_ok run w w' : finish run w = Some w' → reg_ok w → reg_ok w'.
Proof.
  intros Hf Hok. revert Hf. unfold finish. destruct (rw_poisoned w); [done|]. intros [= <-].
  destruct (rw_runs w !! run) as [e|] eqn:He; [|done]. destruct (was_active e); [|done].
  apply end_entry_ok; simpl; try done. by rewrite orb_true_r.
Qed.

Lemma cancel_ok run w b w' : cancel run w = Some (b, w') → reg_ok w → reg_ok w'.
Proof.
  intros Hf Hok. revert Hf. unfold cancel. destruct (rw_poisoned w); [done|].
  destruct (rw_runs w !! run) as [e|] eqn:He; intros [= _ <-]; [|done]. by apply cancel_entry_ok.
Qed.

Lemma abandon_ok t w b w' : abandon_host t w = (b, w') → reg_ok w → reg_ok w'.
Proof.
  unfold abandon_host. destruct (ct_cell t) as [cell|]; [|by intros [= _ <-]].
  destruct (host cell); intros [= _ <-]; [|done]. intros [Hr Hd Hc Hl Hn].
  split; simpl; [| |done..|by apply (numbers_same w)].
  - intros id e He. destruct (Hr _ _ He) as [? [? Hf] ? ? ? ? ? ? ? ?]. split; simpl; auto.
    unfold flag in *. simpl. destruct (decide (id = ct_flag t)) as [->|].
    + rewrite lookup_insert_eq. by split; [eauto|].
    + by rewrite lookup_insert_ne.
  - intros g d Hg. by destruct (Hd _ _ Hg).
Qed.

(** *** A halt *)

Lemma cancel_view_inactive e : was_active (cancel_view e) = false.
Proof. done. Qed.

Definition ended_in (w : RunWorld) (r : RunId) : Prop :=
  ∀ e, rw_runs w !! r = Some e → was_active e = false.

Lemma cancel_one_ends wall gen bw run r :
  ended_in bw.2 r ∨ r = run → ended_in (cancel_one wall gen bw run).2 r.
Proof.
  unfold ended_in, cancel_one. destruct bw as [b w]. simpl.
  destruct (rw_runs w !! run) as [e0|] eqn:E; simpl; [|naive_solver].
  intros H e [[<- <-]|[Hne He]]%lookup_insert_Some; [done|]. naive_solver.
Qed.

Lemma cancel_all_ends wall gen l bw r :
  ended_in bw.2 r ∨ r ∈ l → ended_in (foldl (cancel_one wall gen) bw l).2 r.
Proof.
  revert bw. induction l as [|run l IH]; intros bw H; simpl; [destruct H; [done|set_solver]|].
  apply IH. destruct H as [H|[->|H]%elem_of_cons]; [left|left|by right]; apply cancel_one_ends; auto.
Qed.

Lemma cancel_all_ok wall gen l b w : reg_ok w → reg_ok (foldl (cancel_one wall gen) (b, w) l).2.
Proof.
  revert b w. induction l as [|run l IH]; intros b w Hok; [done|]. simpl.
  apply (cancel_one_ok wall gen b w run) in Hok. destruct (cancel_one wall gen (b, w) run). by apply IH.
Qed.

(** Cancelling touches the runs and their flags only. *)
Lemma cancel_all_frame wall gen l b w D H :
  foldl (cancel_one wall gen) (b, w <| rw_doors := D |> <| rw_halt_flags := H |>) l =
  let bw := foldl (cancel_one wall gen) (b, w) l in
  (bw.1, bw.2 <| rw_doors := D |> <| rw_halt_flags := H |>).
Proof.
  revert b w. induction l as [|run l IH]; intros b w; [done|]. simpl.
  assert (cancel_one wall gen (b, w <| rw_doors := D |> <| rw_halt_flags := H |>) run =
    ((cancel_one wall gen (b, w) run).1,
     (cancel_one wall gen (b, w) run).2 <| rw_doors := D |> <| rw_halt_flags := H |>)) as ->.
  { unfold cancel_one. simpl. by destruct (rw_runs w !! run). }
  rewrite IH. by destruct (cancel_one wall gen (b, w) run).
Qed.

Lemma cancel_all_tables wall gen l b w :
  let w' := (foldl (cancel_one wall gen) (b, w) l).2 in
  rw_doors w' = rw_doors w ∧ rw_halt_flags w' = rw_halt_flags w ∧ same_rest w w'.
Proof.
  revert b w. induction l as [|run l IH]; intros b w; [done|]. simpl.
  assert (H : let w1 := (cancel_one wall gen (b, w) run).2 in
    rw_doors w1 = rw_doors w ∧ rw_halt_flags w1 = rw_halt_flags w ∧ same_rest w w1)
    by (unfold cancel_one; simpl; by destruct (rw_runs w !! run)).
  destruct (cancel_one wall gen (b, w) run) as [b1 w1]. simpl in *.
  destruct (IH b1 w1) as (-> & -> & ?), H as (-> & -> & ?). split_and!; [done..|by eapply same_rest_trans].
Qed.

Lemma halt_door_ok w g d :
  reg_ok w → rw_doors w !! g = Some d → (∀ r, r ∈ de_members d → ended_in w r) →
  reg_ok (w <| rw_doors := <[g := d <| de_consents := [] |> <| de_halted := true |>]> (rw_doors w) |>
            <| rw_halt_flags := <[g := true]> (rw_halt_flags w) |>).
Proof.
  intros [Hr Hd Hc Hl Hn] Hg Hm. split; simpl; [| |done|by rewrite map_size_insert_Some by eauto|by apply (numbers_same w)].
  - intros id e He. destruct (Hr _ _ He) as [? ? Hgs ? ? ? ? ? ? ?]. split; simpl; auto.
    intros g' Hin. destruct (Hgs _ Hin) as (d1 & Hd1 & Hmem). destruct (decide (g' = g)) as [->|].
    + exists (d <| de_consents := [] |> <| de_halted := true |>). rewrite lookup_insert_eq. simplify_eq. by split.
    + exists d1. by rewrite lookup_insert_ne.
  - intros g' d1 [[<- <-]|[Hne Hd1]]%lookup_insert_Some.
    + destruct (Hd _ _ Hg) as [Hmem ? ? ? ? ? ?]. split; simpl; rewrite ?lookup_insert_eq; try done.
      * intros r Hin. destruct (Hmem _ Hin) as (e & He & Hge & Hag & _). exists e. split_and!; try done.
        intros _. by apply (Hm r).
      * unfold MAX_CONSENTS. lia.
      * intros c Hin. by apply elem_of_nil in Hin.
    + destruct (Hd _ _ Hd1). split; simpl; rewrite ?lookup_insert_ne by done; auto.
Qed.

(** What a halt does to the registry. *)
Lemma halt_group_world group door agent wall gen b w d :
  reg_ok w → rw_doors w !! group = Some d →
  let bw := foldl (cancel_one wall gen)
    (if de_halted d then b else push (door_halted_record door agent wall gen) b, w) (in_order (de_members d)) in
  halt_group group door agent wall gen b w =
  ((de_members d, negb (de_halted d)), bw.1,
   bw.2 <| rw_doors := <[group := d <| de_consents := [] |> <| de_halted := true |>]> (rw_doors w) |>
        <| rw_halt_flags := <[group := true]> (rw_halt_flags w) |>).
Proof.
  intros Hok Hg. unfold halt_group. rewrite Hg. destruct (de_halted d) eqn:Hh; simpl.
  - assert (Hf : rw_halt_flags w = <[group := true]> (rw_halt_flags w)).
    { symmetry. apply insert_id. by rewrite (do_flag _ _ _ (ro_doors _ Hok _ _ Hg)), Hh. }
    set (D := <[group := _]> (rw_doors w)).
    assert (w <| rw_doors := D |> = w <| rw_doors := D |> <| rw_halt_flags := <[group := true]> (rw_halt_flags w) |>)
      as -> by (rewrite <- Hf; by destruct w).
    rewrite cancel_all_frame. by destruct (foldl _ _ _).
  - set (b1 := push _ b). set (D := <[group := _]> (rw_doors w)).
    change (rw_halt_flags (w <| rw_doors := D |>)) with (rw_halt_flags w).
    rewrite cancel_all_frame. by destruct (foldl _ _ _).
Qed.

Lemma in_order_elem r s : r ∈ in_order s ↔ r ∈ s.
Proof. unfold in_order. by rewrite merge_sort_Permutation, elem_of_elements. Qed.

Lemma halt_group_ok group door agent wall gen b w x b' w' :
  halt_group group door agent wall gen b w = (x, b', w') → reg_ok w → reg_ok w'.
Proof.
  intros Hh Hok. destruct (rw_doors w !! group) as [d|] eqn:Hg.
  - rewrite (halt_group_world _ _ _ _ _ _ _ _ Hok Hg) in Hh. injection Hh as _ _ <-.
    set (b0 := if de_halted d then b else _).
    pose proof (cancel_all_tables wall gen (in_order (de_members d)) b0 w) as (Ed & Eh & _).
    pose proof (cancel_all_ok wall gen (in_order (de_members d)) b0 w Hok) as Hok1.
    assert (He : ∀ r, r ∈ de_members d → ended_in (foldl (cancel_one wall gen) (b0, w) (in_order (de_members d))).2 r).
    { intros r Hr. apply cancel_all_ends. right. by apply in_order_elem. }
    set (w1 := (foldl _ _ _).2) in *. clearbody w1. simpl in *.
    rewrite <- Ed, <- Eh. apply halt_door_ok; try done. by rewrite Ed.
  - unfold halt_group in Hh. rewrite Hg in Hh. by injection Hh as _ _ <-.
Qed.

(** *** A stop and its lift *)

Lemma set_all_look (ids : list RunId) (m : gmap RunId bool) (r : RunId) :
  foldl (λ m id, <[id := true]> m) m ids !! r = if bool_decide (r ∈ ids) then Some true else m !! r.
Proof.
  revert m. induction ids as [|i ids IH]; intros m; simpl; [done|]. rewrite IH.
  destruct (decide (r ∈ ids)) as [Hin|Hin].
  - rewrite !bool_decide_eq_true_2 by set_solver. done.
  - rewrite (bool_decide_eq_false_2 (r ∈ ids)) by done. destruct (decide (r = i)) as [->|Hne].
    + rewrite bool_decide_eq_true_2 by set_solver. apply lookup_insert_eq.
    + rewrite bool_decide_eq_false_2 by set_solver. by apply lookup_insert_ne.
Qed.

Lemma ids_of_elem w r : reg_ok w → r ∈ ids_of (rw_runs w) ↔ is_Some (rw_runs w !! r).
Proof.
  intros Hok. unfold ids_of. rewrite list_elem_of_fmap. split.
  - intros ([k e] & -> & Hin%elem_of_map_to_list). simpl. rewrite (eo_id _ _ _ (ro_runs _ Hok _ _ Hin)). eauto.
  - intros [e He]. exists (r, e). simpl. rewrite (eo_id _ _ _ (ro_runs _ Hok _ _ He)).
    split; [done|]. by apply elem_of_map_to_list.
Qed.

(** The world a stop leaves, by its tables. *)
Lemma stop_all_tables w s w' : stop_all w = (s, w') →
  rw_stopped w' = true ∧ rw_last_lifted w' = rw_last_lifted w ∧ rw_closed w' = rw_closed w ∧
  rw_runs w' = cancel_view <$> rw_runs w ∧
  rw_doors w' = (λ d, d <| de_consents := [] |>) <$> rw_doors w ∧
  rw_flags w' = foldl (λ m id, <[id := true]> m) (rw_flags w) (ids_of (rw_runs w)) ∧
  rw_halt_flags w' = rw_halt_flags w ∧ st_number s = rw_stop_number w' ∧
  ((rw_stop_number w < u64_max ∧ rw_stop_number w' = rw_stop_number w + 1 ∧ rw_exhausted w' = rw_exhausted w) ∨
   (u64_max ≤ rw_stop_number w ∧ rw_stop_number w' = rw_stop_number w ∧ rw_exhausted w' = true)).
Proof.
  unfold stop_all, checked_add. destruct (Z.leb_spec (rw_stop_number w + 1) u64_max); intros [= <- <-];
    split_and!; try done; [left|right]; split_and!; try done; lia.
Qed.

Lemma stop_ok w s w' : stop_all w = (s, w') → reg_ok w → reg_ok w'.
Proof.
  intros Hs Hok. apply stop_all_tables in Hs as (Es & El & _ & Er & Ed & Ef & Eh & _ & Hnum).
  pose proof (ids_of_elem w) as Hids. pose proof Hok as [Hr Hd Hc Hl [Hn1 Hn2 Hn3 Hn4]].
  split; rewrite ?Er, ?Ed, ?map_size_fmap; try done.
  - intros id e'. rewrite lookup_fmap. destruct (rw_runs w !! id) as [e|] eqn:He; [|done]. intros [= <-].
    assert (Hfl : rw_flags w' !! id = Some true).
    { rewrite Ef, set_all_look, bool_decide_eq_true_2; [done|]. apply Hids; eauto. }
    destruct (Hr _ _ He) as [? ? Hg ? ? ? ? ? ? ?]. split; simpl; auto.
    + unfold flag. rewrite Hfl. split; [by eauto|done].
    + intros g Hin. destruct (Hg _ Hin) as (d & Hdg & Hm). rewrite Ed, lookup_fmap, Hdg. simpl. eauto.
  - intros g d'. rewrite lookup_fmap. destruct (rw_doors w !! g) as [d|] eqn:Hg; [|done]. intros [= <-].
    destruct (Hd _ _ Hg) as [Hm ? ? ? ? Hh ?]. split; simpl; rewrite ?Eh; auto.
    + intros r Hin. destruct (Hm _ Hin) as (e & He & Hge & Hag & _). exists (cancel_view e).
      rewrite Er, lookup_fmap, He. by split_and!.
    + lia.
    + intros c Hin. by apply elem_of_nil in Hin.
  - split; rewrite ?Es, ?El; [|done|..]; destruct Hnum as [(? & En & Ex)|(? & En & Ex)]; rewrite ?En, ?Ex;
      try done; try lia.
Qed.

Lemma lifted_ok w n : reg_ok w → check_lift w n = Ok Lift.Lifted → reg_ok (lifted n w).
Proof.
  intros [Hr Hd Hc Hl [Hn1 Hn2 Hn3 Hn4]]. unfold check_lift. destruct (rw_poisoned w), (rw_closed w); try done.
  destruct (rw_exhausted w) eqn:Hx; [done|]. destruct (Z.eqb_spec (rw_stop_number w) n) as [<-|]; [|done].
  intros _. split; simpl; try done.
  - intros id e He. destruct (Hr _ _ He). by split.
  - intros g d Hg. destruct (Hd _ _ Hg). by split.
  - split; simpl; try done; [lia|congruence].
Qed.

Lemma check_lift_cells w w' n : same_tables w w' → rw_poisoned w' = rw_poisoned w → rw_closed w' = rw_closed w →
  check_lift w' n = check_lift w n.
Proof. intros (_ & _ & _ & _ & E1 & E2 & E3 & _) Ep Ec. unfold check_lift. by rewrite E1, E2, E3, Ep, Ec. Qed.

Lemma lift_ok n w r w' : lift n w = (r, w') → reg_ok w → reg_ok w'.
Proof.
  unfold lift. destruct (check_lift w n) as [[]|] eqn:E; intros [= _ <-]; try done. intros. by apply lifted_ok.
Qed.

Lemma lift_with_recovery_ok n rc w r w' : lift_with_recovery n rc w = (r, w') → reg_ok w → reg_ok w'.
Proof.
  intros Hl Hok. revert Hl. unfold lift_with_recovery.
  destruct (check_lift w n) as [[]|] eqn:E; try (by intros [= _ <-]).
  unfold at_cells. destruct (recovery_check rc (rw_cells w)) as [[[]|] c]; intros [= _ <-];
    assert (same_tables w (w <| rw_cells := c |>)) as Hs by done; apply (same_tables_ok _ _ Hs) in Hok; [|done].
  apply lifted_ok; [done|]. by rewrite <- E.
Qed.

(** *** Consents and admissions *)

Lemma consent_slot_ok group agent w r w' : consent_slot group agent w = (r, w') → reg_ok w → reg_ok w'.
Proof.
  intros Hj Hok. revert Hj. unfold consent_slot.
  destruct (rw_poisoned w); [by intros [= _ <-]|]. destruct (rw_stopped w); [by intros [= _ <-]|].
  destruct (rw_closed w); [by intros [= _ <-]|].
  destruct (live_door w group agent) as [d|] eqn:Hd; [|by intros [= _ <-]]. apply live_door_ok in Hd as (Hg & _).
  destruct (_ <=? _); [by intros [= _ <-]|].
  through_cells; intros [= _ <-]; [|done]. rewrite <- Hdoors in Hg.
  destruct (ro_doors _ Hok0 _ _ Hg). eapply replace_door_ok; try done. simpl. lia.
Qed.

Lemma alter_some {A} (f : A → A) (m : gmap GroupId A) g d :
  m !! g = Some d → alter f g m = <[g := f d]> m.
Proof.
  intros Hg. apply map_eq. intros i. destruct (decide (i = g)) as [->|].
  - by rewrite lookup_alter_eq, lookup_insert_eq, Hg.
  - by rewrite lookup_alter_ne, lookup_insert_ne.
Qed.

Lemma give_back_ok g w : reg_ok w → reg_ok (give_back g w).
Proof.
  intros Hok. unfold give_back. destruct (rw_doors w !! g) as [d|] eqn:Hg.
  - rewrite (alter_some _ _ _ _ Hg).
    destruct (ro_doors _ Hok _ _ Hg). eapply replace_door_ok; try done. simpl. lia.
  - rewrite alter_id; [by apply (same_tables_ok w)|]. intros d Hd. congruence.
Qed.

Lemma slot_drop_ok s w : reg_ok w → reg_ok (slot_drop s w).
Proof.
  intros Hok. unfold slot_drop. destruct (rw_poisoned w); [|by apply give_back_ok].
  destruct (cs_cell s); [|done]. by apply (same_tables_ok w).
Qed.

Lemma slot_fill_ok s ch rq seq kind wall facts w r w' :
  lf_halted (cs_life s) = false → lf_closed (cs_life s) = false →
  slot_fill s ch rq seq kind wall facts w = (r, w') → reg_ok w → reg_ok w'.
Proof.
  intros Hh Hc Hj Hok. revert Hj. unfold slot_fill.
  destruct (rw_poisoned w); [intros [= _ <-]; by apply slot_drop_ok|]. apply (give_back_ok (cs_group s)) in Hok.
  set (w1 := give_back (cs_group s) w) in *. clearbody w1.
  destruct (rw_stopped w1) eqn:Hst; [by intros [= _ <-]|]. destruct (rw_closed w1); [by intros [= _ <-]|].
  destruct (rw_doors w1 !! cs_group s) as [d|] eqn:Hg; [|by intros [= _ <-]].
  destruct (de_halted d) eqn:Hha; [by intros [= _ <-]|]. simpl. destruct (engaged _ _); [by intros [= _ <-]|].
  destruct (negb _); [by intros [= _ <-]|].
  destruct (Z.eqb_spec (rw_stop_number w1) (lf_stop_epoch (cs_life s))) as [En|]; [|by intros [= _ <-]]. simpl.
  destruct (Nat.leb_spec MAX_CONSENTS (length (de_consents d))); [by intros [= _ <-]|].
  through_cells; intros [= _ <-]; [|done]. rewrite <- Hdoors in Hg.
  destruct Hc0 as (_ & _ & _ & _ & Es & En' & _).
  destruct (ro_doors _ Hok0 _ _ Hg) as [_ Hlen Hlife _ _ _ _]. eapply replace_door_ok; simpl; try done.
  - rewrite length_app. simpl. lia.
  - intros c [Hin| ->%list_elem_of_singleton]%elem_of_app; [by apply Hlife|]. simpl.
    unfold life_now. rewrite En', En. destruct (cs_life s); simpl in *. by subst.
  - rewrite Es, Hha, Hst. by intros [|].
Qed.

Lemma admit_files_ok run agent group ch rq ws w r w' :
  admit_files run agent group ch rq ws w = (r, w') → reg_ok w → reg_ok w'.
Proof.
  intros Hj Hok. revert Hj. unfold admit_files. destruct (rw_poisoned w); [by intros [= _ <-]|].
  destruct (admissible _ _ _ _ _ _); [|by intros [= _ <-]].
  destruct (rw_runs w !! run) as [e|] eqn:He; [|by intros [= _ <-]]. destruct (engaged _ _); [by intros [= _ <-]|].
  destruct (re_files_admission e); [by intros [= _ <-]|].
  through_cells; intros [= _ <-]; [|done]. rewrite <- Hruns in He.
  pose proof (ro_runs _ Hok0 _ _ He) as []. by eapply replace_entry_ok.
Qed.

Lemma admit_inference_ok run agent group ch rq identity w r w' :
  admit_inference run agent group ch rq identity w = (r, w') → reg_ok w → reg_ok w'.
Proof.
  intros Hj Hok. revert Hj. unfold admit_inference. destruct (rw_poisoned w); [by intros [= _ <-]|].
  destruct (admissible _ _ _ _ _ _); [|by intros [= _ <-]].
  destruct (rw_runs w !! run) as [e|] eqn:He; [|by intros [= _ <-]]. destruct (engaged _ _); [by intros [= _ <-]|].
  destruct (re_inference_admission e); [by intros [= _ <-]|]. intros [= _ <-].
  pose proof (ro_runs _ Hok _ _ He) as []. by eapply replace_entry_ok.
Qed.

(** What an admitted model call has checked. *)
Lemma admit_model_call_spec run agent group identity w r w' :
  admit_model_call run agent group identity w = (r, w') →
  (∃ x, r = Err x ∧ w' = w) ∨
  (∃ d e a, r = Ok (MkCallTicket (MkCancelToken (rv_id (re_view e)) (re_file_cell e)) group) ∧
     rw_stopped w = false ∧ rw_closed w = false ∧ live_door w group agent = Ok d ∧
     rw_runs w !! run = Some e ∧ live_member w e agent group = Ok tt ∧
     re_inference_admission e = Some a ∧ ia_identity a = identity ∧ re_model_attempts e < MAX_MODEL_ATTEMPTS ∧
     w' = w <| rw_runs := <[run := e <| re_model_attempts := re_model_attempts e + 1 |>]> (rw_runs w) |>).
Proof.
  unfold admit_model_call. destruct (rw_poisoned w); [by intros [= <- <-]; left; eauto|].
  destruct (rw_stopped w); [by intros [= <- <-]; left; eauto|].
  destruct (rw_closed w); [by intros [= <- <-]; left; eauto|].
  destruct (live_door w group agent) as [d|x]; [|by intros [= <- <-]; left; eauto]. simpl.
  destruct (rw_runs w !! run) as [e|] eqn:He; [|by intros [= <- <-]; left; eauto]. simpl.
  destruct (live_member w e agent group) as [[]|] eqn:Hl; [|by intros [= <- <-]; left; eauto]. simpl.
  destruct (re_inference_admission e) as [a|] eqn:Ha; [|by intros [= <- <-]; left; eauto]. simpl.
  case_bool_decide; [|by intros [= <- <-]; left; eauto]. simpl.
  destruct (Z.leb_spec MAX_MODEL_ATTEMPTS (re_model_attempts e)); [by intros [= <- <-]; left; eauto|].
  destruct (engaged _ _); [by intros [= <- <-]; left; eauto|]. intros [= <- <-]. right.
  exists d, e, a. by split_and!.
Qed.

Lemma admit_model_call_ok run agent group identity w r w' :
  admit_model_call run agent group identity w = (r, w') → reg_ok w → reg_ok w'.
Proof.
  intros [(? & _ & ->)|(d & e & a & _ & _ & _ & _ & He & _ & _ & _ & Hlt & ->)]%admit_model_call_spec Hok; [done|].
  destruct (ro_runs _ Hok _ _ He) as [? ? ? ? ? ? ? ? Hp ?]. eapply replace_entry_ok; simpl; try done; [lia|].
  intros p Hin. apply Hp in Hin. lia.
Qed.

Lemma grant_hold_same g files cell w r w' : grant_hold g files cell w = (r, w') → same_tables w w'.
Proof. unfold grant_hold. destruct (try_live_at _ _ _ _ _) as [|[]]; by intros [= _ <-]. Qed.

Lemma attempt_ready_spec w run agent group identity original door e cell files a :
  attempt_ready w run agent group identity original = Ok (door, e, cell, files, a) →
  rw_stopped w = false ∧ rw_closed w = false ∧
  (∃ d, live_door w group agent = Ok d ∧ retained_identity w (de_life d) group agent original = Some door) ∧
  rw_runs w !! run = Some e ∧ live_member w e agent group = Ok tt ∧ host_prerequisites w e = Ok tt ∧
  re_file_cell e = Some cell ∧ host cell = true ∧ same cell original = true ∧ re_opened_by e = Some group ∧
  re_files_admission e = Some files ∧ re_inference_admission e = Some a ∧ ia_identity a = identity ∧
  same_yes a files = true ∧ re_model_attempts e < MAX_MODEL_ATTEMPTS.
Proof.
  unfold attempt_ready. destruct (rw_stopped w), (rw_closed w); try done.
  destruct (live_door w group agent) as [d|] eqn:Hd; [|done]. simpl.
  destruct (retained_identity _ _ _ _ _) as [dr|] eqn:Hri; [|done]. simpl.
  destruct (rw_runs w !! run) as [e0|] eqn:He; [|done]. simpl.
  destruct (live_member w e0 agent group) as [[]|] eqn:Hl; [|done]. simpl.
  destruct (host_prerequisites w e0) as [[]|] eqn:Hh; [|done]. simpl.
  destruct (re_file_cell e0) as [c|] eqn:Hcell; [|done]. simpl.
  destruct (host c) eqn:Hhc, (same c original) eqn:Hsc; try done. simpl.
  case_bool_decide as Ho; [|done]. simpl. destruct (re_files_admission e0) as [f|] eqn:Hf; [|done]. simpl.
  destruct (re_inference_admission e0) as [a0|] eqn:Ha; [|done]. simpl. case_bool_decide; [|done]. simpl.
  destruct (same_yes a0 f) eqn:Hy; [|done]. simpl.
  destruct (Z.leb_spec MAX_MODEL_ATTEMPTS (re_model_attempts e0)); [done|].
  intros [= <- <- <- <- <-]. split_and!; try done. by exists d.
Qed.

(** What an admitted session attempt has checked, and what it changes. *)
Lemma attempt_spec contended run agent group identity original grant revoked w r w' :
  admit_session_attempt contended run agent group identity original grant revoked w = (r, w') →
  (∃ x, r = Err x ∧ same_tables w w') ∨
  (∃ door e cell files a w1,
     attempt_ready w run agent group identity original = Ok (door, e, cell, files, a) ∧
     r = Ok (MkSessionAttempt run agent group a (re_model_attempts e + 1) door cell) ∧
     (grant_hold grant files cell w).1 = Ok tt ∧ revoked = false ∧
     (cell_admit cell (rw_cells w)).1 = Ok tt ∧ same_tables w w1 ∧
     w' = w1 <| rw_runs := <[run := e <| re_model_attempts := re_model_attempts e + 1 |>
            <| re_model_pins := {[re_model_attempts e + 1]} ∪ re_model_pins e |>]> (rw_runs w) |>).
Proof.
  unfold admit_session_attempt. destruct (try_runs w contended);
    [|by intros [= <- <-]; left; by eexists..].
  destruct (attempt_ready _ _ _ _ _ _) as [[[[[door e] cell] files] a]|] eqn:Hr;
    [|by intros [= <- <-]; left; by eexists].
  destruct (checked_add _ _ _) as [n|] eqn:Hn; [|by intros [= <- <-]; left; by eexists].
  assert (n = re_model_attempts e + 1) as -> by (unfold checked_add in Hn; case_match; congruence).
  destruct (grant_hold grant files cell w) as [[[]|] w1] eqn:Hg; apply grant_hold_same in Hg as Hs;
    [|by intros [= <- <-]; left; by eexists].
  destruct revoked; [by intros [= <- <-]; left; by eexists|].
  assert (w1 = w) as ->.
  { unfold grant_hold in Hg. destruct (try_live_at _ _ _ _ _) as [|[]]; by simplify_eq. }
  destruct (at_cells (cell_admit cell) w) as [[[]|] w2] eqn:Ha; apply at_cells_same in Ha as Hs2;
    intros [= <- <-]; [right|left; by eexists]. exists door, e, cell, files, a, w2. split_and!; try done.
  - by rewrite Hg.
  - unfold at_cells in Ha. destruct (cell_admit cell (rw_cells w)). by injection Ha as -> _.
  - destruct Hs2 as (-> & _). done.
Qed.

Lemma attempt_ok contended run agent group identity original grant revoked w r w' :
  admit_session_attempt contended run agent group identity original grant revoked w = (r, w') →
  reg_ok w → reg_ok w'.
Proof.
  intros [(? & _ & Hs)|(door & e & cell & files & a & w1 & Hr & _ & _ & _ & _ & Hs & ->)]%attempt_spec Hok;
    [by eapply same_tables_ok|].
  apply attempt_ready_spec in Hr as (_ & _ & _ & He & _ & _ & _ & _ & _ & _ & _ & _ & _ & _ & Hlt).
  destruct (ro_runs _ Hok _ _ He) as [? ? ? ? ? ? ? ? Hp ?].
  apply (same_tables_ok _ _ Hs) in Hok. destruct Hs as (Er & _). rewrite <- Er. rewrite <- Er in He.
  eapply replace_entry_ok; simpl; try done; [lia|].
  intros p [->%elem_of_singleton|Hin%Hp]%elem_of_union; lia.
Qed.

Lemma settle_ok same held t w r w' : settle_session_attempt same held t w = (r, w') → reg_ok w → reg_ok w'.
Proof.
  intros Hj Hok. revert Hj. unfold settle_session_attempt. destruct (negb same); [by intros [= _ <-]|].
  destruct (_ || negb held); [by intros [= _ <-]|].
  destruct (rw_runs w !! sa_run t) as [e|] eqn:He; [|by intros [= _ <-]].
  destruct (_ || _); intros [= _ <-]; [done|]. destruct (ro_runs _ Hok _ _ He) as [? ? ? ? ? ? ? ? Hp ?].
  eapply replace_entry_ok; simpl; try done. intros p Hin. apply Hp. set_solver.
Qed.

Lemma binding_ready_spec w b e files consent :
  binding_ready w b = Ok (e, files, consent) →
  ∃ d, rw_stopped w = false ∧ rw_closed w = false ∧ live_door w (sb_group b) (sb_agent b) = Ok d ∧
    rw_runs w !! sb_run b = Some e ∧ rv_agent (re_view e) = sb_agent b ∧ re_class e = RunClass.Agent ∧
    rv_finished (re_view e) = false ∧ entry_ended w e = false ∧
    host_cell (re_file_cell e) = true ∧ same_cell (re_file_cell e) (Some (sb_original b)) = true ∧
    re_opened_by e = Some (sb_group b) ∧ re_files_admission e = Some files ∧
    consent = agreed_consent w d (sb_contract_hash b) (sb_request b).
Proof.
  unfold binding_ready. destruct (rw_stopped w), (rw_closed w); try done.
  destruct (live_door w _ _) as [d|] eqn:Hd; [|done]. simpl.
  destruct (rw_runs w !! sb_run b) as [e0|] eqn:He; [|done]. simpl.
  case_bool_decide; [|done]. case_bool_decide; [|done]. simpl.
  destruct (_ || in_halted_group w e0); [done|]. destruct (rv_finished (re_view e0)) eqn:Hf; [done|].
  destruct (entry_ended w e0) eqn:Hen; [done|].
  destruct (host_cell (re_file_cell e0)) eqn:?, (same_cell (re_file_cell e0) (Some (sb_original b))) eqn:?; try done.
  simpl. destruct (_ && _); [|done]. simpl. case_bool_decide; [|done]. simpl.
  destruct (_ || same_cell _ _); [|done]. simpl. case_bool_decide; [|done]. simpl.
  destruct (re_files_admission e0) as [f|] eqn:Hfa; [|done]. simpl. case_bool_decide; [|done]. simpl.
  intros [= <- <- <-]. exists d. by split_and!.
Qed.

Lemma binding_ok contended b w r w' :
  admit_session_inference contended b w = (r, w') → reg_ok w → reg_ok w'.
Proof.
  intros Hj Hok. revert Hj. unfold admit_session_inference.
  destruct (try_runs w contended); [|intros [= _ <-]; by apply (same_tables_ok w)..].
  destruct (binding_ready w b) as [[[e files] consent]|] eqn:Hr; [|by intros [= _ <-]].
  destruct (grant_hold _ _ _ w) as [[[]|] w1] eqn:Hg; apply grant_hold_same in Hg as Hs;
    apply (same_tables_ok _ _ Hs) in Hok as Hok1; [|by intros [= _ <-]].
  match goal with |- context [match ?x with Ok _ => _ | Err _ => _ end] => destruct x as [[c []]|] end;
    [| |by intros [= _ <-]]; through_cells; intros [= _ <-]; try done.
  apply binding_ready_spec in Hr as (d & _ & _ & _ & He & _).
  destruct (ro_runs _ Hok _ _ He). destruct Hs as (Er & _). rewrite <- Er, <- Hruns in He.
  by eapply replace_entry_ok.
Qed.
End Holds.
