(* ===== verification/AuthRunsProps.v ===== *)
(** * What the registry promises over time

    Every hold of the runs lock as a step ([rstep]), and what holds of every run of
    steps: the invariant of [AuthRunsInv], ended runs that never act again, stops that
    only their own number lifts, bindings that never change and bounded model calls. *)

From S2P Require Import Prelude PageFacts AuthBase AuthText HaltCell AuthGrants AuthHalt AuthRuns AuthRunsInv.

Local Open Scope Z_scope.
Local Open Scope nexus_scope.
#[local] Arguments lit : simpl never.

(** ** Steps *)

Section Steps.
Context {crates : Crates}.
Implicit Types w : RunWorld.

(** A run's and a group's id are drawn once. The cells, the doors' cores and the lock's
    poison change around the registry. *)
Inductive rstep : RunWorld → RunWorld → Prop :=
| rs_open id agent origin class now group cell w r w' :
    rw_flags w !! id = None → open_with_cell id agent origin class now group cell w = (r, w') → rstep w w'
| rs_next_group w : rstep w (next_group w).2
| rs_reserve group agent life w r w' :
    rw_halt_flags w !! group = None → reserve_door group agent life w = Some (r, w') → rstep w w'
| rs_activate group halt w r w' : activate_door_with_halt group halt w = Some (r, w') → rstep w w'
| rs_attach group cell w r w' : attach_file_cell group cell w = (r, w') → rstep w w'
| rs_join run agent group w r w' : join run agent group w = Some (r, w') → rstep w w'
| rs_file_request run request w r w' : admit_file_request run request w = (r, w') → rstep w w'
| rs_recovery rc w r w' : recovery_boundary rc w = (r, w') → rstep w w'
| rs_check run agent retain request w r w' :
    check_request_retaining run agent retain request w = (r, w') → rstep w w'
| rs_release run w r w' : release run w = (r, w') → rstep w w'
| rs_halt group door agent wall gen b w x b' w' :
    halt_group group door agent wall gen b w = (x, b', w') → rstep w w'
| rs_cancel_into run wall gen b w : rstep w (cancel_into run wall gen b w).2
| rs_cancel run w b w' : cancel run w = Some (b, w') → rstep w w'
| rs_close w w' : close w = Some w' → rstep w w'
| rs_finish run w w' : finish run w = Some w' → rstep w w'
| rs_abandon t w b w' : abandon_host t w = (b, w') → rstep w w'
| rs_stop w s w' : stop_all w = (s, w') → rstep w w'
| rs_lift n w r w' : lift n w = (r, w') → rstep w w'
| rs_lift_recovery n rc w r w' : lift_with_recovery n rc w = (r, w') → rstep w w'
| rs_slot group agent w r w' : consent_slot group agent w = (r, w') → rstep w w'
| rs_drop s w : rstep w (slot_drop s w)
| rs_fill group epoch cell ch rq seq kind wall facts w r w' :
    slot_fill (MkConsentSlot group (MkLife epoch false false) cell) ch rq seq kind wall facts w = (r, w') →
    rstep w w'
| rs_files run agent group ch rq ws w r w' : admit_files run agent group ch rq ws w = (r, w') → rstep w w'
| rs_inference run agent group ch rq identity w r w' :
    admit_inference run agent group ch rq identity w = (r, w') → rstep w w'
| rs_call run agent group identity w r w' : admit_model_call run agent group identity w = (r, w') → rstep w w'
| rs_attempt contended run agent group identity original grant revoked w r w' :
    admit_session_attempt contended run agent group identity original grant revoked w = (r, w') → rstep w w'
| rs_settle same held t w r w' : settle_session_attempt same held t w = (r, w') → rstep w w'
| rs_binding contended b w r w' : admit_session_inference contended b w = (r, w') → rstep w w'
| rs_around cells cores poisoned w :
    rstep w (w <| rw_cells := cells |> <| rw_cores := cores |> <| rw_poisoned := poisoned |>).

Lemma file_request_same run request w r w' : admit_file_request run request w = (r, w') → same_tables w w'.
Proof.
  unfold admit_file_request. repeat case_match; intros E; try (by injection E as _ <-). by apply at_cells_same in E.
Qed.

Lemma rstep_ok w w' : rstep w w' → reg_ok w → reg_ok w'.
Proof.
  destruct 1; eauto using open_ok, reserve_ok, activate_ok, attach_ok, join_ok, check_request_ok, release_ok,
    halt_group_ok, cancel_one_ok, cancel_ok, finish_ok, abandon_ok, stop_ok, lift_ok, lift_with_recovery_ok,
    consent_slot_ok, slot_drop_ok, admit_files_ok, admit_inference_ok, admit_model_call_ok, attempt_ok,
    settle_ok, binding_ok.
  - by apply same_tables_ok.
  - by eapply same_tables_ok, file_request_same.
  - unfold recovery_boundary in *. case_match; [by simplify_eq|]. by eapply same_tables_ok, at_cells_same.
  - unfold close in *. case_match; simplify_eq. by apply same_tables_ok.
  - eapply slot_fill_ok; [| |eassumption]; done.
  - by apply same_tables_ok.
Qed.

Lemma rsteps_ok w w' : rtc rstep w w' → reg_ok w → reg_ok w'.
Proof. induction 1; eauto using rstep_ok. Qed.

Lemma registry_new_ok c : reg_ok (registry_new c).
Proof.
  split; [done|done|apply Nat.le_0_l|apply Nat.le_0_l|].
  by split.
Qed.

(** ** What only grows *)

(** A run still kept is the run it was: its bindings, its attempts and its end stay. *)
Record kept (e e' : RunEntry) : Prop := {
  kp_id : rv_id (re_view e') = rv_id (re_view e);
  kp_agent : rv_agent (re_view e') = rv_agent (re_view e);
  kp_class : re_class e' = re_class e;
  kp_privacy : re_privacy e' = re_privacy e;
  kp_opened : re_opened_by e' = re_opened_by e;
  kp_cell : re_file_cell e' = re_file_cell e;
  kp_ended : was_active e = false → was_active e' = false;
  kp_files : ∀ a, re_files_admission e = Some a → re_files_admission e' = Some a;
  kp_inference : ∀ a, re_inference_admission e = Some a → re_inference_admission e' = Some a;
  kp_attempts : re_model_attempts e ≤ re_model_attempts e';
  kp_pins : ∀ p, p ∈ re_model_pins e' → p ∈ re_model_pins e ∨ re_model_attempts e < p;
}.

Record later (w w' : RunWorld) : Prop := {
  lt_flags : ∀ id, rw_flags w !! id = Some true → rw_flags w' !! id = Some true;
  lt_drawn : ∀ id, is_Some (rw_flags w !! id) → is_Some (rw_flags w' !! id);
  lt_gone : ∀ id, is_Some (rw_flags w !! id) → rw_runs w !! id = None → rw_runs w' !! id = None;
  lt_kept : ∀ id e e', rw_runs w !! id = Some e → rw_runs w' !! id = Some e' → kept e e';
  lt_halted : ∀ g, rw_halt_flags w !! g = Some true → rw_halt_flags w' !! g = Some true;
  lt_closed : rw_closed w = true → rw_closed w' = true;
  lt_number : rw_stop_number w ≤ rw_stop_number w';
  lt_last : rw_last_lifted w ≤ rw_last_lifted w';
  lt_lifted : rw_stopped w = true → rw_stopped w' = false → rw_stop_number w ≤ rw_last_lifted w';
}.

Lemma kept_refl e : kept e e.
Proof. split; auto; lia. Qed.

Lemma kept_trans e1 e2 e3 : kept e1 e2 → kept e2 e3 → kept e1 e3.
Proof.
  intros [? ? ? ? ? ? ? ? ? ? Hp1] [? ? ? ? ? ? ? ? ? ? Hp2]. split; try congruence; auto; try lia.
  intros p [Hp|?]%Hp2; [auto|right; lia].
Qed.

Lemma later_refl w : later w w.
Proof. split; auto; try lia; try congruence. intros; simplify_eq; apply kept_refl. Qed.

Lemma later_trans w1 w2 w3 : reg_ok w1 → later w1 w2 → later w2 w3 → later w1 w3.
Proof.
  intros Hok [Hf1 Hd1 Hg1 Hk1 Hh1 Hc1 Hn1 Hl1 Hx1] [Hf2 Hd2 Hg2 Hk2 Hh2 Hc2 Hn2 Hl2 Hx2].
  split; auto; try lia.
  - intros id e e' He He'. destruct (rw_runs w2 !! id) as [e2|] eqn:E2.
    + eapply kept_trans; [by eapply Hk1|by eapply Hk2].
    + destruct (eo_flag _ _ _ (ro_runs _ Hok _ _ He)) as [Hs _]. apply Hd1 in Hs.
      rewrite (Hg2 _ Hs E2) in He'. done.
Qed.

(** The runs, the flags and the stop unchanged, whatever of the doors. *)
Lemma later_doors w w' :
  rw_runs w' = rw_runs w → rw_flags w' = rw_flags w → rw_halt_flags w' = rw_halt_flags w →
  rw_closed w' = rw_closed w → same_rest w w' → later w w'.
Proof.
  intros Er Ef Eh Ec (Es & En & _ & El).
  split; rewrite ?Er, ?Ef, ?Eh, ?En, ?El, ?Ec; auto; try lia; try congruence.
  intros; simplify_eq; apply kept_refl.
Qed.

Lemma later_tables w w' : same_tables w w' → rw_closed w' = rw_closed w → later w w'.
Proof. intros (? & _ & ? & ? & ?) ?. by apply later_doors. Qed.

Lemma later_cells {A} (f : Cells → A * Cells) w r w' : at_cells f w = (r, w') → later w w'.
Proof.
  intros E. apply later_tables; [by eapply at_cells_same|]. unfold at_cells in E.
  destruct (f (rw_cells w)). by injection E as _ <-.
Qed.

Lemma later_entry w run e e' :
  rw_runs w !! run = Some e → kept e e' → later w (w <| rw_runs := <[run := e']> (rw_runs w) |>).
Proof.
  intros He Hk. split; simpl; auto; try lia; try congruence.
  - intros id _ Hn. rewrite lookup_insert_ne; [done|]. intros ->. congruence.
  - intros id e1 e2 He1 [[<- <-]|[_ ?]]%lookup_insert_Some; simplify_eq; [done|apply kept_refl].
Qed.

Lemma later_flag w run : later w (w <| rw_flags := <[run := true]> (rw_flags w) |>).
Proof.
  split; simpl; auto; try lia; try congruence.
  - intros id Hf. destruct (decide (id = run)) as [->|]; [apply lookup_insert_eq|by rewrite lookup_insert_ne].
  - intros id Hf. destruct (decide (id = run)) as [->|]; [rewrite lookup_insert_eq; eauto|by rewrite lookup_insert_ne].
  - intros; simplify_eq; apply kept_refl.
Qed.

Lemma kept_view e v :
  rv_id v = rv_id (re_view e) → rv_agent v = rv_agent (re_view e) →
  (was_active e = false → rv_cancelled v || rv_finished v = true) → kept e (e <| re_view := v |>).
Proof.
  intros ? ? Hv. split; simpl; auto; try lia. intros Ha%Hv. unfold was_active. simpl.
  by destruct (rv_cancelled v), (rv_finished v).
Qed.

(** A run ended. *)
Lemma later_end w run e v :
  reg_ok w → rw_runs w !! run = Some e → kept e (e <| re_view := v |>) →
  later w (w <| rw_runs := <[run := e <| re_view := v |>]> (rw_runs w) |>
             <| rw_flags := <[rv_id (re_view e) := true]> (rw_flags w) |>).
Proof.
  intros Hok He Hk. eapply later_trans; [done|by eapply later_entry|].
  exact (later_flag (w <| rw_runs := <[run := e <| re_view := v |>]> (rw_runs w) |>) (rv_id (re_view e))).
Qed.

(** ** Every step is later *)

Lemma later_remove_door w g : reg_ok w → later w (remove_door w g).
Proof.
  intros Hok. unfold remove_door. destruct (rw_doors w !! g) as [d|]; [|apply later_refl].
  split; simpl; auto; try lia.
  - intros id _ Hn. by rewrite map_lookup_imap, Hn.
  - intros id e e' He. rewrite map_lookup_imap, He. simpl. intros [= <-].
    case_bool_decide; [|apply kept_refl]. split; simpl; auto; lia.
Qed.

Lemma later_remove_run w r : reg_ok w → later w (remove_run w r).
Proof.
  intros Hok. unfold remove_run. destruct (rw_runs w !! r) as [e|] eqn:He; [|apply later_refl].
  split; simpl; auto; try lia.
  - intros id _ Hn. destruct (decide (id = r)) as [->|]; [apply lookup_delete_eq|by rewrite lookup_delete_ne].
  - intros id e1 e2 He1 (_ & He2)%lookup_delete_Some. simplify_eq. apply kept_refl.
Qed.

Lemma later_foldl {A} (f : RunWorld → A → RunWorld) l w :
  (∀ w a, reg_ok w → reg_ok (f w a)) → (∀ w a, reg_ok w → later w (f w a)) →
  reg_ok w → later w (foldl f w l).
Proof.
  intros Hk Hf. revert w. induction l as [|a l IH]; intros w Hok; [apply later_refl|]. simpl.
  eapply later_trans; [done|by apply Hf|by apply IH, Hk].
Qed.

Lemma later_prune_doors w : reg_ok w → later w (prune_doors w).
Proof. apply later_foldl; [apply remove_door_ok|apply later_remove_door]. Qed.
Lemma later_prune_ended w : reg_ok w → later w (prune_ended w).
Proof. apply later_foldl; [apply remove_run_ok|apply later_remove_run]. Qed.

Lemma later_insert w id e :
  reg_ok w → rw_flags w !! id = None →
  later w (w <| rw_runs := <[id := e]> (rw_runs w) |> <| rw_flags := <[id := false]> (rw_flags w) |>).
Proof.
  intros Hok Hf.
  assert (Hr : rw_runs w !! id = None).
  { destruct (rw_runs w !! id) eqn:E; [|done]. destruct (eo_flag _ _ _ (ro_runs _ Hok _ _ E)) as [[? ?] _]. congruence. }
  split; simpl; auto; try lia.
  - intros i Hi. rewrite lookup_insert_ne by congruence. done.
  - intros i Hi. destruct (decide (i = id)) as [->|]; [rewrite lookup_insert_eq; eauto|by rewrite lookup_insert_ne].
  - intros i [? Hi] Hn. rewrite lookup_insert_ne by congruence. done.
  - intros i e1 e2 He1. rewrite lookup_insert_ne by congruence. intros; simplify_eq. apply kept_refl.
Qed.

Lemma later_open id agent origin class now group cell w r w' :
  reg_ok w → rw_flags w !! id = None →
  open_with_cell id agent origin class now group cell w = (r, w') → later w w'.
Proof.
  intros Hok Hf. unfold open_with_cell. destruct (rw_poisoned w), (engaged w cell), (rw_stopped w), (rw_closed w);
    try (intros [= _ <-]; apply later_refl).
  match goal with |- context [match ?x with Ok _ => _ | Err _ => _ end = _] => destruct x end;
    [|intros [= _ <-]; apply later_refl].
  set (w1 := if (_ <=? _)%nat then prune_ended w else w).
  assert (H1 : later w w1 ∧ rw_flags w1 !! id = None ∧ reg_ok w1).
  { subst w1. destruct (_ <=? _)%nat; [|split; [apply later_refl|done]]. split; [by apply later_prune_ended|].
    split; [by rewrite (pr_flags _ _ (prune_ended_prunes w))|by apply prune_ended_ok]. }
  destruct H1 as (H1 & Hf1 & Hok1). clearbody w1. destruct (_ <=? _)%nat; [by intros [= _ <-]|].
  destruct (at_cells _ _) as [[?|?] w2] eqn:Hc; apply later_cells in Hc as Hl;
    intros [= _ <-]; (eapply later_trans; [done|exact H1|]); [|done].
  apply at_cells_same in Hc. apply (same_tables_ok _ _ Hc) in Hok1 as Hok2.
  eapply later_trans; [done|exact Hl|]. destruct Hc as (_ & _ & Ef & _).
  eapply later_trans; [done|apply (later_insert w2 id (new_entry id agent origin class now group cell)); congruence|].
  by apply later_doors.
Qed.

(** An early return, a step through the cells. *)
Ltac returns := intros [= _ <-]; apply later_refl.
Ltac at_cells_later :=
  let Hc := fresh "Hc" in let w := fresh "w" in let Hs := fresh "Hs" in
  destruct (at_cells _ _) as [[?|?] w] eqn:Hc; apply later_cells in Hc as ?Hl;
  apply at_cells_same in Hc as Hs;
  (assert (reg_ok w) by (eapply same_tables_ok; [exact Hs|eassumption]));
  (intros [= _ <-] || intros [= <-]);
  match goal with Hl : later _ w |- _ => eapply later_trans; [eassumption|exact Hl|] end;
  [|apply later_refl].

Lemma later_reserve group agent life w r w' :
  reg_ok w → rw_halt_flags w !! group = None → reserve_door group agent life w = Some (r, w') → later w w'.
Proof.
  intros Hok Hf. unfold reserve_door. destruct (rw_poisoned w); [done|].
  pose proof (later_prune_doors w Hok) as Hl. pose proof (prune_doors_prunes w) as Hp.
  set (w1 := prune_doors w) in *. clearbody w1.
  destruct (_ <=? _)%nat; intros [= _ <-]; [done|]. eapply later_trans; [done|exact Hl|].
  split; simpl; auto; try lia; [intros; simplify_eq; apply kept_refl|]. intros g Hg.
  rewrite lookup_insert_ne; [done|]. intros ->. rewrite (pr_halt_flags _ _ Hp) in Hg. congruence.
Qed.

Lemma later_activate group halt w r w' :
  reg_ok w → activate_door_with_halt group halt w = Some (r, w') → later w w'.
Proof.
  intros Hok. unfold activate_door_with_halt. destruct (rw_poisoned w); [done|].
  destruct (rw_doors w !! group) as [d|]; [|returns]. destruct (alive w d); [|returns].
  at_cells_later. by apply later_doors.
Qed.

Lemma later_attach group cell w r w' : reg_ok w → attach_file_cell group cell w = (r, w') → later w w'.
Proof.
  intros Hok. unfold attach_file_cell. destruct (rw_poisoned w); [returns|].
  destruct (rw_doors w !! group) as [d|]; [|returns]. destruct (_ && _); [returns|].
  at_cells_later. by apply later_doors.
Qed.

Lemma kept_groups e gs : kept e (e <| re_groups := gs |>).
Proof. split; simpl; auto; lia. Qed.

Lemma later_join run agent group w r w' : reg_ok w → join run agent group w = Some (r, w') → later w w'.
Proof.
  intros Hok. unfold join. destruct (rw_poisoned w); [done|]. intros [= Hj]. revert Hj.
  destruct (live_door w group agent) as [d|]; [|returns].
  match goal with |- context [match ?x with Ok _ => _ | Err _ => _ end] => destruct x end; [|returns].
  pose proof (later_prune_doors w Hok) as Hl. apply prune_doors_ok in Hok as Hok1.
  intros Hj. eapply later_trans; [done|exact Hl|]. revert Hj. set (w1 := prune_doors w) in *. clearbody w1.
  destruct (rw_runs w1 !! run) as [e|] eqn:He; [|returns].
  do 3 (destruct (_ : bool); [returns|]).
  destruct (entry_ended w1 e); [returns|]. case_bool_decide; [returns|]. case_bool_decide; [returns|].
  destruct (_ <=? _)%nat; [returns|]. at_cells_later. destruct Hs as (Er & _).
  rewrite <- Er in He.
  eapply later_trans; [done|by eapply later_entry, kept_groups|].
  by apply later_doors.
Qed.

Lemma kept_retained e n : kept e (e <| re_retained := n |>).
Proof. split; simpl; auto; lia. Qed.

Lemma later_check run agent retain request w r w' :
  reg_ok w → check_request_retaining run agent retain request w = (r, w') → later w w'.
Proof.
  intros Hok. unfold check_request_retaining. destruct (rw_poisoned w); [returns|]. destruct (rw_stopped w); [returns|].
  destruct (rw_runs w !! run) as [e|] eqn:He; [|returns]. destruct (negb _); [returns|].
  destruct (request_cell _ _); [|returns]. destruct (host_prerequisites _ _); [|returns].
  destruct (_ || _); [returns|]. destruct (rv_finished _); [returns|]. destruct (entry_ended _ _); [returns|].
  destruct (negb retain); [returns|]. destruct (negb _); [returns|]. destruct (checked_add _ _ _); [|returns].
  destruct (token_admit_host _ w) as [r1 w1] eqn:Ht.
  assert (Hs : same_tables w w1 ∧ rw_closed w1 = rw_closed w).
  { revert Ht. unfold token_admit_host, at_cells. simpl. repeat case_match; by intros [= _ <-]. }
  destruct Hs as [Hs Hcl]. pose proof (later_tables _ _ Hs Hcl) as Hl. apply (same_tables_ok _ _ Hs) in Hok as Hok1.
  destruct r1; intros [= _ <-]; [|done]. eapply later_trans; [done|exact Hl|].
  destruct Hs as (Er & _). rewrite <- Er in He. by eapply later_entry, kept_retained.
Qed.

Lemma later_release run w r w' : release run w = (r, w') → later w w'.
Proof.
  unfold release. destruct (rw_poisoned w); [returns|]. destruct (rw_runs w !! run) as [e|] eqn:He; [|returns].
  destruct (checked_sub _ _); intros [= _ <-]; [|apply later_refl]. by eapply later_entry, kept_retained.
Qed.

Lemma later_cancel_entry w run e : reg_ok w → rw_runs w !! run = Some e → later w (cancel_entry run e w).
Proof. intros Hok He. apply (later_end w run e); try done. by apply kept_view. Qed.

Lemma later_cancel_one wall gen b w run : reg_ok w → later w (cancel_one wall gen (b, w) run).2.
Proof.
  intros Hok. unfold cancel_one. simpl. destruct (rw_runs w !! run) eqn:He; [|apply later_refl].
  by apply later_cancel_entry.
Qed.

Lemma later_cancel_all wall gen l b w : reg_ok w → later w (foldl (cancel_one wall gen) (b, w) l).2.
Proof.
  revert b w. induction l as [|run l IH]; intros b w Hok; [apply later_refl|]. simpl.
  pose proof (later_cancel_one wall gen b w run Hok) as Hl. apply (cancel_one_ok wall gen b w run) in Hok as Hok1.
  destruct (cancel_one wall gen (b, w) run). eapply later_trans; [done|exact Hl|by apply IH].
Qed.

Lemma later_halt group door agent wall gen b w x b' w' :
  reg_ok w → halt_group group door agent wall gen b w = (x, b', w') → later w w'.
Proof.
  intros Hok Hh. destruct (rw_doors w !! group) as [d|] eqn:Hg.
  - rewrite (halt_group_world _ _ _ _ _ _ _ _ Hok Hg) in Hh. injection Hh as _ _ <-.
    set (b0 := if de_halted d then b else _).
    eapply later_trans; [done|apply (later_cancel_all wall gen (in_order (de_members d)) b0 w Hok)|].
    pose proof (cancel_all_tables wall gen (in_order (de_members d)) b0 w) as (_ & Eh & _).
    set (w1 := (foldl _ _ _).2) in *. clearbody w1. simpl in *.
    split; simpl; auto; try lia; try congruence; [intros; simplify_eq; apply kept_refl|].
    intros g. rewrite Eh. intros Hg'. destruct (decide (g = group)) as [->|];
      [apply lookup_insert_eq|by rewrite lookup_insert_ne].
  - unfold halt_group in Hh. rewrite Hg in Hh. injection Hh as _ _ <-. apply later_refl.
Qed.

Lemma later_cancel run w b w' : reg_ok w → cancel run w = Some (b, w') → later w w'.
Proof.
  intros Hok. unfold cancel. destruct (rw_poisoned w); [done|].
  destruct (rw_runs w !! run) eqn:He; intros [= _ <-]; [by apply later_cancel_entry|apply later_refl].
Qed.

Lemma later_finish run w w' : reg_ok w → finish run w = Some w' → later w w'.
Proof.
  intros Hok. unfold finish. destruct (rw_poisoned w); [done|]. intros [= <-].
  destruct (rw_runs w !! run) eqn:He; [|apply later_refl]. destruct (was_active _) eqn:Ha; [|apply later_refl].
  apply later_end; try done. apply kept_view; [done..|]. congruence.
Qed.

Lemma later_abandon t w b w' : reg_ok w → abandon_host t w = (b, w') → later w w'.
Proof.
  intros Hok. unfold abandon_host. destruct (ct_cell t); [|returns]. destruct (host _); [|returns]. intros [= _ <-].
  eapply later_trans; [done|apply (later_flag w (ct_flag t))|]. by apply later_doors.
Qed.

Lemma later_stop w s w' : reg_ok w → stop_all w = (s, w') → later w w'.
Proof.
  intros Hok Hs. apply stop_all_tables in Hs as (Es & El & Ec & Er & Ed & Ef & Eh & _ & Hnum).
  split; rewrite ?Er, ?Ef, ?Eh, ?El, ?Ec; auto; try lia; try congruence.
  - intros id Hf. rewrite set_all_look. by case_bool_decide.
  - intros id Hf. rewrite set_all_look. case_bool_decide; eauto.
  - intros id _ Hn. by rewrite lookup_fmap, Hn.
  - intros id e e' He. rewrite lookup_fmap, He. intros [= <-]. by apply kept_view.
Qed.

Lemma later_lifted n w : reg_ok w → check_lift w n = Ok Lift.Lifted → later w (lifted n w).
Proof.
  intros Hok. unfold check_lift. destruct (rw_poisoned w), (rw_closed w), (rw_exhausted w); try done.
  destruct (Z.eqb_spec (rw_stop_number w) n) as [<-|]; [|done]. intros _.
  destruct (ro_numbers _ Hok) as [? ? ? ?]. split; simpl; auto; try lia. intros; simplify_eq; apply kept_refl.
Qed.

Lemma later_lift n w r w' : reg_ok w → lift n w = (r, w') → later w w'.
Proof.
  intros Hok. unfold lift. destruct (check_lift w n) as [[]|] eqn:E; try returns. intros [= _ <-].
  by apply later_lifted.
Qed.

Lemma later_lift_recovery n rc w r w' : reg_ok w → lift_with_recovery n rc w = (r, w') → later w w'.
Proof.
  intros Hok. unfold lift_with_recovery. destruct (check_lift w n) as [[]|] eqn:E; try returns.
  at_cells_later. apply later_lifted; [done|]. rewrite <- E. apply check_lift_cells; [done|..];
    unfold at_cells in Hc; destruct (recovery_check rc (rw_cells w)); by simplify_eq.
Qed.

Lemma later_slot group agent w r w' : reg_ok w → consent_slot group agent w = (r, w') → later w w'.
Proof.
  intros Hok. unfold consent_slot. do 3 (destruct (_ : bool); [returns|]).
  destruct (live_door w group agent); [|returns]. destruct (_ <=? _); [returns|].
  at_cells_later. by apply later_doors.
Qed.

Lemma later_drop s w : later w (slot_drop s w).
Proof.
  unfold slot_drop, give_back. destruct (rw_poisoned w); [|by apply later_doors].
  destruct (cs_cell s); [by apply later_doors|apply later_refl].
Qed.

Lemma later_fill s ch rq seq kind wall facts w r w' :
  reg_ok w → slot_fill s ch rq seq kind wall facts w = (r, w') → later w w'.
Proof.
  intros Hok. unfold slot_fill. destruct (rw_poisoned w); [intros [= _ <-]; apply later_drop|].
  intros Hj. eapply (later_trans _ (give_back (cs_group s) w)); [done|by apply later_doors|].
  apply (give_back_ok (cs_group s)) in Hok. revert Hj. set (w1 := give_back _ w) in *. clearbody w1.
  destruct (rw_stopped w1); [returns|]. destruct (rw_closed w1); [returns|].
  destruct (rw_doors w1 !! cs_group s); [|returns]. destruct (_ || _); [returns|].
  destruct (negb _); [returns|]. destruct (negb _); [returns|]. destruct (_ <=? _)%nat; [returns|].
  at_cells_later. by apply later_doors.
Qed.

Lemma later_files run agent group ch rq ws w r w' :
  reg_ok w → admit_files run agent group ch rq ws w = (r, w') → later w w'.
Proof.
  intros Hok. unfold admit_files. destruct (rw_poisoned w); [returns|].
  destruct (admissible _ _ _ _ _ _); [|returns]. destruct (rw_runs w !! run) as [e|] eqn:He; [|returns].
  destruct (engaged _ _); [returns|]. destruct (re_files_admission e) eqn:Hf; [returns|].
  at_cells_later. destruct Hs as (Er & _). rewrite <- Er in He. eapply later_entry; [done|].
  split; simpl; auto; try lia. congruence.
Qed.

Lemma later_inference run agent group ch rq identity w r w' :
  reg_ok w → admit_inference run agent group ch rq identity w = (r, w') → later w w'.
Proof.
  intros Hok. unfold admit_inference. destruct (rw_poisoned w); [returns|].
  destruct (admissible _ _ _ _ _ _); [|returns]. destruct (rw_runs w !! run) as [e|] eqn:He; [|returns].
  destruct (engaged _ _); [returns|]. destruct (re_inference_admission e) eqn:Hf; [returns|].
  intros [= _ <-]. eapply later_entry; [done|]. split; simpl; auto; try lia. congruence.
Qed.

Lemma later_call run agent group identity w r w' :
  admit_model_call run agent group identity w = (r, w') → later w w'.
Proof.
  intros [(? & _ & ->)|(d & e & a & _ & _ & _ & _ & He & _ & _ & _ & Hlt & ->)]%admit_model_call_spec;
    [apply later_refl|]. eapply later_entry; [done|]. split; simpl; auto; lia.
Qed.

Lemma later_attempt contended run agent group identity original grant revoked w r w' :
  reg_ok w → admit_session_attempt contended run agent group identity original grant revoked w = (r, w') →
  later w w'.
Proof.
  intros Hok Ha.
  assert (Hcl : rw_closed w' = rw_closed w).
  { revert Ha. unfold admit_session_attempt, grant_hold, at_cells. repeat case_match; intros; by simplify_eq. }
  apply attempt_spec in Ha as [(? & _ & Hs)|(door & e & cell & files & a & w1 & Hr & _ & _ & _ & _ & Hs & ->)];
    [by apply later_tables|].
  apply attempt_ready_spec in Hr as (_ & _ & _ & He & _ & _ & _ & _ & _ & _ & _ & _ & _ & _ & Hlt).
  eapply later_trans; [done|by apply later_tables|]. destruct Hs as (Er & _). rewrite <- Er in He |- *.
  eapply later_entry; [done|]. split; simpl; auto; try lia.
  intros p [->%elem_of_singleton|Hin]%elem_of_union; [right; lia|by left].
Qed.

Lemma later_settle same held t w r w' : settle_session_attempt same held t w = (r, w') → later w w'.
Proof.
  unfold settle_session_attempt. destruct (negb same); [returns|]. destruct (_ || negb held); [returns|].
  destruct (rw_runs w !! sa_run t) as [e|] eqn:He; [|returns]. destruct (_ || _); [returns|]. intros [= _ <-].
  eapply later_entry; [done|]. split; simpl; auto; try lia. set_solver.
Qed.

Lemma later_binding contended b w r w' :
  reg_ok w → admit_session_inference contended b w = (r, w') → later w w'.
Proof.
  intros Hok. unfold admit_session_inference.
  destruct (try_runs w contended); [|intros [= _ <-]; by apply later_doors..].
  destruct (binding_ready w b) as [[[e files] consent]|] eqn:Hr; [|returns].
  destruct (grant_hold _ _ _ w) as [r1 w1] eqn:Hg. apply grant_hold_same in Hg as Hs.
  assert (Hcl : rw_closed w1 = rw_closed w).
  { revert Hg. unfold grant_hold. destruct (try_live_at _ _ _ _ _) as [|[]]; by intros [= _ <-]. }
  pose proof (later_tables _ _ Hs Hcl) as Hl. apply (same_tables_ok _ _ Hs) in Hok as Hok1.
  intros Hj. eapply later_trans; [done|exact Hl|]. revert Hj. destruct r1; [|returns].
  destruct consent as [c|]; [|returns]. simpl. destruct (binding_fresh b e files c) as [fresh|] eqn:Hb; [|returns]. simpl.
  apply binding_ready_spec in Hr as (d & _ & _ & _ & He & _).
  at_cells_later. destruct fresh; [|apply later_refl].
  destruct Hs as (Er & _), Hs0 as (Er0 & _). rewrite <- Er, <- Er0 in He. eapply later_entry; [done|].
  split; simpl; auto; try lia. intros a Ha. unfold binding_fresh in Hb. rewrite Ha in Hb.
  destruct (same_inference _ _); simpl in Hb; [|done]. by destruct (same_consent c files).
Qed.

Lemma rstep_later w w' : reg_ok w → rstep w w' → later w w'.
Proof.
  intros Hok. destruct 1; eauto using later_open, later_reserve, later_activate, later_attach, later_join,
    later_check, later_release, later_halt, later_cancel, later_finish, later_abandon, later_stop, later_lift,
    later_lift_recovery, later_slot, later_drop, later_fill, later_files, later_inference, later_call,
    later_attempt, later_settle, later_binding, later_cancel_one.
  - by apply later_doors.
  - apply later_tables; [by eapply file_request_same|]. revert H. unfold admit_file_request, at_cells.
    repeat case_match; intros; by simplify_eq.
  - revert H. unfold recovery_boundary. case_match; [returns|]. apply later_cells.
  - revert H. unfold close. case_match; [done|]. intros [= <-]. split; simpl; auto; try lia.
    intros; simplify_eq; apply kept_refl.
  - by apply later_doors.
Qed.

Lemma rsteps_later w w' : reg_ok w → rtc rstep w w' → later w w'.
Proof.
  intros Hok Hs. induction Hs as [|w1 w2 w3 Hstep Hs IH]; [apply later_refl|].
  eapply later_trans; [done|by apply rstep_later|]. apply IH. by eapply rstep_ok.
Qed.

(** ** Ended runs *)

(** Nothing of the run is admitted in [w]. *)
Record refused (w : RunWorld) (run : RunId) : Prop := {
  rf_token : ∀ cell, is_cancelled w (MkCancelToken run cell) = true;
  rf_check : ∀ agent retain request t w', check_request_retaining run agent retain request w ≠ (Ok t, w');
  rf_join : ∀ agent group w', join run agent group w ≠ Some (Ok tt, w');
  rf_files : ∀ agent group ch rq ws a w', admit_files run agent group ch rq ws w ≠ (Ok a, w');
  rf_inference : ∀ agent group ch rq identity a w',
    admit_inference run agent group ch rq identity w ≠ (Ok a, w');
  rf_call : ∀ agent group identity t w', admit_model_call run agent group identity w ≠ (Ok t, w');
  rf_attempt : ∀ contended agent group identity original grant revoked t w',
    admit_session_attempt contended run agent group identity original grant revoked w ≠ (Ok t, w');
  rf_binding : ∀ contended b w', sb_run b = run → admit_session_inference contended b w ≠ (Ok tt, w');
}.

Lemma live_member_flag w e agent group : live_member w e agent group = Ok tt → flag w (rv_id (re_view e)) = false.
Proof.
  unfold live_member, entry_ended. destruct (flag w (rv_id (re_view e))); [|done].
  rewrite orb_true_r. by repeat case_match.
Qed.

Lemma admissible_ok w run agent group ch rq c :
  admissible w run agent group ch rq = Ok c →
  ∃ d e, rw_stopped w = false ∧ rw_closed w = false ∧ live_door w group agent = Ok d ∧
    rw_runs w !! run = Some e ∧ live_member w e agent group = Ok tt ∧ agreed_consent w d ch rq = Some c.
Proof.
  unfold admissible. destruct (rw_stopped w), (rw_closed w); try done.
  destruct (live_door w group agent) as [d|]; [|done]. simpl.
  destruct (rw_runs w !! run) as [e|] eqn:He; [|done]. simpl.
  destruct (live_member w e agent group) as [[]|] eqn:Hl; [|done]. simpl.
  destruct (agreed_consent w d ch rq) eqn:Hc; [|done]. simpl. intros [= <-]. by exists d, e.
Qed.

Lemma flagged_refused w run : reg_ok w → flag w run = true → refused w run.
Proof.
  intros Hok Hf.
  assert (Hid : ∀ e, rw_runs w !! run = Some e → flag w (rv_id (re_view e)) = true).
  { intros e He. by rewrite (eo_id _ _ _ (ro_runs _ Hok _ _ He)). }
  assert (Hlm : ∀ e agent group, rw_runs w !! run = Some e → live_member w e agent group ≠ Ok tt).
  { intros e agent group He Hl%live_member_flag. rewrite Hid in Hl by done. done. }
  assert (Had : ∀ agent group ch rq c, admissible w run agent group ch rq ≠ Ok c).
  { intros agent group ch rq c (d & e & _ & _ & _ & He & Hl & _)%admissible_ok. by eapply Hlm. }
  split.
  - intros cell. unfold is_cancelled. simpl. by rewrite Hf.
  - intros agent retain request t w'. unfold check_request_retaining.
    destruct (rw_poisoned w), (rw_stopped w); try done.
    destruct (rw_runs w !! run) as [e|] eqn:He; [|done]. unfold entry_ended. rewrite (Hid e) by done.
    rewrite orb_true_r. destruct (negb _); [done|]. destruct (request_cell _ _); [|done].
    destruct (host_prerequisites _ _); [|done]. destruct (_ || _); [done|]. by destruct (rv_finished _).
  - intros agent group w'. unfold join. destruct (rw_poisoned w); [done|].
    destruct (live_door w group agent) as [d|] eqn:Hd; [|done].
    match goal with |- context [match ?x with Ok _ => _ | Err _ => _ end] => destruct x end; [|done].
    destruct (rw_runs (prune_doors w) !! run) as [e|] eqn:He; [|done].
    apply (prune_doors_ok _) in Hok as Hok1. unfold entry_ended, flag.
    rewrite (eo_id _ _ _ (ro_runs _ Hok1 _ _ He)), (pr_flags _ _ (prune_doors_prunes w)).
    fold (flag w run). rewrite Hf, orb_true_r. destruct (negb _); [done|]. destruct (negb _); [done|]. by destruct (rv_finished _).
  - intros agent group ch rq ws a w'. unfold admit_files. destruct (rw_poisoned w); [done|].
    destruct (admissible _ _ _ _ _ _) eqn:E; [by apply Had in E|done].
  - intros agent group ch rq identity a w'. unfold admit_inference. destruct (rw_poisoned w); [done|].
    destruct (admissible _ _ _ _ _ _) eqn:E; [by apply Had in E|done].
  - intros agent group identity t w' [(? & ? & _)|(d & e & a & _ & _ & _ & _ & He & Hl & _)]%admit_model_call_spec;
      [done|]. by eapply Hlm.
  - intros contended agent group identity original grant revoked t w'
      [(? & ? & _)|(door & e & cell & files & a & w1 & Hr & _)]%attempt_spec; [done|].
    apply attempt_ready_spec in Hr as (_ & _ & _ & He & Hl & _). by eapply Hlm.
  - intros contended b w' <-. unfold admit_session_inference. destruct (try_runs w contended); [|done..].
    destruct (binding_ready w b) as [[[e files] consent]|] eqn:Hr; [|done].
    apply binding_ready_spec in Hr as (d & _ & _ & _ & He & _ & _ & _ & Hen & _). unfold entry_ended in Hen.
    rewrite (Hid e He), orb_true_r in Hen. done.
Qed.

(** A run that was cancelled, finished, stopped or abandoned never acts again: from
    then on, whatever the registry does, its token reads cancelled and no check, join,
    admission for Files or inference, model call or session attempt of it succeeds. *)
Theorem ended_run_is_final w w' run
    (Hok : reg_ok w) (Hend : flag w run = true) (Hrun : rtc rstep w w') :
  refused w' run.
Proof.
  apply flagged_refused; [by eapply rsteps_ok|]. unfold flag in *.
  destruct (rw_flags w !! run) as [[]|] eqn:E; try done.
  by rewrite (lt_flags _ _ (rsteps_later _ _ Hok Hrun) _ E).
Qed.

(** ** Stops *)

(** What a registry that is stopped refuses. *)
Record stop_refuses (w : RunWorld) : Prop := {
  sr_open : ∀ id agent origin class now group cell r w', open_with_cell id agent origin class now group cell w ≠ (Ok r, w');
  sr_check : ∀ run agent retain request t w', check_request_retaining run agent retain request w ≠ (Ok t, w');
  sr_slot : ∀ group agent s w', consent_slot group agent w ≠ (Ok s, w');
  sr_fill : ∀ s ch rq seq kind wall facts w', slot_fill s ch rq seq kind wall facts w ≠ (Ok tt, w');
  sr_files : ∀ run agent group ch rq ws a w', admit_files run agent group ch rq ws w ≠ (Ok a, w');
  sr_inference : ∀ run agent group ch rq identity a w',
    admit_inference run agent group ch rq identity w ≠ (Ok a, w');
  sr_call : ∀ run agent group identity t w', admit_model_call run agent group identity w ≠ (Ok t, w');
  sr_attempt : ∀ contended run agent group identity original grant revoked t w',
    admit_session_attempt contended run agent group identity original grant revoked w ≠ (Ok t, w');
  sr_binding : ∀ contended b w', admit_session_inference contended b w ≠ (Ok tt, w');
}.

Lemma stopped_refuses w : rw_stopped w = true → stop_refuses w.
Proof.
  intros Hs. split.
  - intros. unfold open_with_cell. rewrite Hs. by destruct (rw_poisoned w), (engaged w cell).
  - intros. unfold check_request_retaining. rewrite Hs. by destruct (rw_poisoned w).
  - intros. unfold consent_slot. rewrite Hs. by destruct (rw_poisoned w).
  - intros. unfold slot_fill. destruct (rw_poisoned w); [done|]. simpl. by rewrite Hs.
  - intros. unfold admit_files, admissible. rewrite Hs. by destruct (rw_poisoned w).
  - intros. unfold admit_inference, admissible. rewrite Hs. by destruct (rw_poisoned w).
  - intros. unfold admit_model_call. rewrite Hs. by destruct (rw_poisoned w).
  - intros. unfold admit_session_attempt, attempt_ready. rewrite Hs. by destruct (try_runs w contended).
  - intros. unfold admit_session_inference, binding_ready. rewrite Hs. by destruct (try_runs w contended).
Qed.

(** C9. An emergency stop holds until a resume names it: in every later state the registry
    either is still stopped, and refuses every run, check, yes, admission and call, or was
    lifted by a resume of that stop's number or of a later one; and every run known at the
    stop stays refused for good, lifted or not. A yes cached at any door later was given
    after that stop. *)
Theorem stop_holds_until_lifted w s w1 w2
    (Hok : reg_ok w) (Hstop : stop_all w = (s, w1)) (Hrun : rtc rstep w1 w2) :
  (rw_stopped w2 = true → stop_refuses w2) ∧
  (rw_stopped w2 = false → st_number s ≤ rw_last_lifted w2) ∧
  (∀ run, is_Some (rw_runs w !! run) → refused w2 run) ∧
  (∀ g d c, rw_doors w2 !! g = Some d → c ∈ de_consents d → st_number s ≤ lf_stop_epoch (cn_life c)).
Proof.
  apply (stop_ok _ _ _ Hstop) in Hok as Hok1. pose proof (ids_of_elem w) as Hids.
  apply stop_all_tables in Hstop as (Es & _ & _ & _ & _ & Ef & _ & En & _).
  pose proof (rsteps_later _ _ Hok1 Hrun) as Hl. apply (rsteps_ok _ _ Hrun) in Hok1 as Hok2. split_and!.
  - apply stopped_refuses.
  - intros H. rewrite En. by apply (lt_lifted _ _ Hl).
  - intros run Hr. apply flagged_refused; [done|]. unfold flag. rewrite (lt_flags _ _ Hl run); [done|].
    rewrite Ef, set_all_look, bool_decide_eq_true_2; [done|]. by apply Hids.
  - intros g d c Hg Hc. rewrite (do_life _ _ _ (ro_doors _ Hok2 _ _ Hg) _ Hc). simpl. rewrite En. apply Hl.
Qed.

(** Every state the registry reaches is consistent: a run lists a door exactly when
    the door lists the run (and their agents agree), at most 4096 runs, 64 doors, 8 doors
    per run, 64 yeses per door and 8 model calls per run are kept, an ended run's flag is
    set, a halted door has no active member and no yes, a stop leaves no active run and no
    yes, and every cached yes was given in the current lifetime. *)
Theorem registry_consistent c w (Hrun : rtc rstep (registry_new c) w) : reg_ok w.
Proof. eapply rsteps_ok; [done|apply registry_new_ok]. Qed.

(** ** Admissions *)

(** A yes of the Owner's at the door, in the current lifetime, that every other yes to
    the same contract and request agrees with. *)
Record owner_yes (w : RunWorld) (d : DoorEntry) (ch rq : str) (c : Consent) : Prop := {
  oy_cached : c ∈ de_consents d;
  oy_life : cn_life c = life_now w;
  oy_contract : cn_contract_hash c = ch;
  oy_request : cn_request c = rq;
  oy_agreed : ∀ c', c' ∈ de_consents d → cn_life c' = life_now w → cn_contract_hash c' = ch →
                cn_request c' = rq → cn_page_facts c' = cn_page_facts c;
}.

Lemma agreed_consent_yes w d ch rq c : agreed_consent w d ch rq = Some c → owner_yes w d ch rq c.
Proof.
  unfold agreed_consent. destruct (filter _ (de_consents d)) as [|first others] eqn:E; [done|].
  destruct (forallb _ others) eqn:Hall; [|done]. intros [= ->].
  assert (Hin : ∀ c', c' ∈ c :: others ↔ (cn_life c' = life_now w ∧ cn_contract_hash c' = ch ∧ cn_request c' = rq) ∧
    c' ∈ de_consents d) by (intros c'; rewrite <- E; by rewrite list_elem_of_filter).
  destruct (proj1 (Hin c)) as [(? & ? & ?) ?]; [set_solver|]. split; try done.
  intros c' Hc Hl Hch Hrq. assert (c' ∈ c :: others) as [->|Hc']%elem_of_cons by (apply Hin; auto); [done|].
  rewrite forallb_forall in Hall. apply list_elem_of_In in Hc'. specialize (Hall _ Hc').
  by apply bool_decide_eq_true in Hall.
Qed.

(** An active run of [agent], a member of the door it came through. *)
Record active_member (w : RunWorld) (run : RunId) (e : RunEntry) (agent : AgentId) (group : GroupId)
    (d : DoorEntry) : Prop := {
  am_entry : rw_runs w !! run = Some e;
  am_door : rw_doors w !! group = Some d;
  am_issued : de_active d = true ∧ de_halted d = false ∧ alive w d = true;
  am_agents : de_agent d = agent ∧ rv_agent (re_view e) = agent ∧ re_class e = RunClass.Agent;
  am_member : group ∈ re_groups e ∧ run ∈ de_members d;
  am_active : was_active e = true ∧ flag w run = false;
}.

Lemma live_member_ok w e agent group :
  live_member w e agent group = Ok tt →
  rv_agent (re_view e) = agent ∧ re_class e = RunClass.Agent ∧ group ∈ re_groups e ∧
  rv_finished (re_view e) = false ∧ entry_ended w e = false.
Proof.
  unfold live_member. case_bool_decide; [|done]. case_bool_decide; [|done]. case_bool_decide; [|done]. simpl.
  destruct (_ && _); [done|]. destruct (_ || _); [done|]. destruct (rv_finished _); [done|].
  by destruct (entry_ended w e).
Qed.

Lemma live_active w run e agent group d :
  reg_ok w → live_door w group agent = Ok d → rw_runs w !! run = Some e → live_member w e agent group = Ok tt →
  active_member w run e agent group d.
Proof.
  intros Hok (Hg & Hh & _ & Hac & Hal & Hag)%live_door_ok He (Ha & Hc & Hgr & Hfi & Hen)%live_member_ok.
  apply orb_false_iff in Hen as [Hca Hfl]. pose proof (ro_runs _ Hok _ _ He) as Heo.
  rewrite (eo_id _ _ _ Heo) in Hfl. destruct (eo_groups _ _ _ Heo _ Hgr) as (d' & Hd' & Hm).
  split; try done; [simplify_eq; done|]. unfold was_active. by rewrite Hca, Hfi.
Qed.

(** A run is admitted for Files only on a yes of the Owner's: while nothing is stopped
    or quitting, to an active run of the door's own agent that the door lists, for exactly
    the contract and request of a yes cached at that door in its current lifetime, with the
    facts every such yes agrees on. The binding is installed once: whatever comes later,
    the run while it is kept has this admission and no other. *)
Theorem files_admission_rests_on_yes w run agent group ch rq ws a w1 w2
    (Hok : reg_ok w) (Hadmit : admit_files run agent group ch rq ws w = (Ok a, w1)) (Hrun : rtc rstep w1 w2) :
  rw_stopped w = false ∧ rw_closed w = false ∧
  (∃ e d c, active_member w run e agent group d ∧ owner_yes w d ch rq c ∧
     fa_contract_hash a = ch ∧ fa_request a = rq ∧ fa_workspace a = ws ∧ fa_page_facts a = cn_page_facts c) ∧
  (∀ e, rw_runs w2 !! run = Some e → re_files_admission e = Some a).
Proof.
  apply (admit_files_ok _ _ _ _ _ _ _ _ _ Hadmit) in Hok as Hok1.
  pose proof (rsteps_later _ _ Hok1 Hrun) as Hl. revert Hadmit. unfold admit_files.
  destruct (rw_poisoned w); [done|]. destruct (admissible _ _ _ _ _ _) as [c|] eqn:Had; [|done].
  apply admissible_ok in Had as (d & e & Hst & Hcl & Hd & He & Hm & Hc). rewrite He.
  pose proof (live_active _ _ _ _ _ _ Hok Hd He Hm) as Hact. apply agreed_consent_yes in Hc as Hyes.
  assert (Hkeep : ∀ e1, rw_runs w1 !! run = Some e1 → re_files_admission e1 = Some a →
    ∀ e2, rw_runs w2 !! run = Some e2 → re_files_admission e2 = Some a)
    by (intros e1 He1 Ha e2 He2; by apply (kp_files _ _ (lt_kept _ _ Hl _ _ _ He1 He2))).
  assert (Hyes' : cn_contract_hash c = ch ∧ cn_request c = rq) by (destruct Hyes; auto). destruct Hyes' as [Hch Hrq].
  destruct (engaged _ _); [done|]. destruct (re_files_admission e) as [bound|] eqn:Hb.
  - destruct (same_files _ _) eqn:Hs; [|done]. intros [= -> <-]. split; [done|]. split; [done|].
    split; [|by eapply Hkeep]. unfold same_files in Hs. simpl in Hs.
    apply andb_true_iff in Hs as [[[?%bool_decide_eq_true ?%bool_decide_eq_true]%andb_true_iff
      ?%bool_decide_eq_true]%andb_true_iff ?%bool_decide_eq_true].
    exists e, d, c. split_and!; congruence || done.
  - destruct (at_cells _ _) as [[|] w'] eqn:Hce; [|done]. intros [= <- <-]. split; [done|]. split; [done|]. split.
    + exists e, d, c. by split_and!.
    + eapply Hkeep; [apply lookup_insert_eq|done].
Qed.

(** ** Model calls *)

(** A session's model call is counted and owned exactly once: an admitted attempt gets
    the next ordinal of its run, at most the eighth, pinned to it; while that pin is out the
    run is not pruned; and once the attempt is settled no later settlement of it succeeds,
    whatever happened in between. *)
Theorem session_attempt_once contended run agent group identity original grant revoked w t w1 w2 h w3 w4
    same held r w5
    (Hok : reg_ok w)
    (Hadmit : admit_session_attempt contended run agent group identity original grant revoked w = (Ok t, w1))
    (Hrun : rtc rstep w1 w2) (Hsettle : settle_session_attempt true h t w2 = (Ok tt, w3))
    (Hrun' : rtc rstep w3 w4) (Hagain : settle_session_attempt same held t w4 = (r, w5)) :
  1 ≤ sa_ordinal t ≤ MAX_MODEL_ATTEMPTS ∧
  (∃ e, rw_runs w !! run = Some e ∧ sa_ordinal t = re_model_attempts e + 1 ∧ sa_ordinal t ∉ re_model_pins e) ∧
  (∃ e, rw_runs w2 !! run = Some e ∧ sa_ordinal t ∈ re_model_pins e ∧ prunable e = false) ∧
  r ≠ Ok tt.
Proof.
  apply (attempt_ok _ _ _ _ _ _ _ _ _ _ _ Hadmit) in Hok as Hok1.
  apply attempt_spec in Hadmit as [(? & ? & _)|(door & e & cell & files & a & w' & Hr & Ht & _ & _ & _ & _ & Hw1)];
    [done|]. injection Ht as ->. simpl.
  apply attempt_ready_spec in Hr as (_ & _ & _ & He & _ & _ & _ & _ & _ & _ & _ & _ & _ & _ & Hlt).
  pose proof (ro_runs _ Hok _ _ He) as Heo. split; [destruct (eo_attempts _ _ _ Heo); lia|]. split.
  { exists e. split_and!; [done..|]. intros Hin. apply (eo_pins _ _ _ Heo) in Hin. lia. }
  pose proof (rsteps_ok _ _ Hrun Hok1) as Hok2. pose proof (settle_ok _ _ _ _ _ _ Hsettle Hok2) as Hok3.
  pose proof (rsteps_ok _ _ Hrun' Hok3) as Hok4. pose proof (rsteps_later _ _ Hok3 Hrun') as Hl3.
  revert Hsettle. unfold settle_session_attempt. simpl. destruct (rw_poisoned w2 || negb h); [done|].
  destruct (rw_runs w2 !! run) as [e2|] eqn:He2; [|done]. destruct (_ || _) eqn:Hb; [done|]. intros [= <-].
  assert (Hpin : re_model_attempts e + 1 ∈ re_model_pins e2).
  { apply orb_false_iff in Hb as [_ Hb]. by apply negb_false_iff, bool_decide_eq_true in Hb. }
  split.
  { exists e2. split_and!; [done..|]. unfold prunable. destruct (_ && (re_retained e2 =? 0)); [|done]. simpl.
    rewrite bool_decide_eq_false_2; [done|]. set_solver. }
  clear Hb. revert Hagain. unfold settle_session_attempt. simpl. destruct (negb same); [by intros [= <- _]|].
  destruct (rw_poisoned w4 || negb held); [by intros [= <- _]|].
  destruct (rw_runs w4 !! run) as [e4|] eqn:He4; [|by intros [= <- _]].
  destruct (_ || _) eqn:Hb4; [by intros [= <- _]|]. exfalso.
  apply orb_false_iff in Hb4 as [_ Hb4]. apply negb_false_iff, bool_decide_eq_true in Hb4.
  assert (He3 := lookup_insert_eq (rw_runs w2) run (e2 <| re_model_pins := re_model_pins e2 ∖ {[re_model_attempts e + 1]} |>)).
  destruct (kp_pins _ _ (lt_kept _ _ Hl3 _ _ _ He3 He4) _ Hb4) as [Hin|Hgt]; simpl in *; [set_solver|].
  apply (eo_pins _ _ _ (ro_runs _ Hok2 _ _ He2)) in Hpin. lia.
Qed.

(** ** Halted doors *)

(** The record the cancellation of [run] owes, if it ends it. *)
Definition owed_record (w : RunWorld) (wall gen : Z) (run : RunId) : option EvidenceRecord :=
  e ← rw_runs w !! run; if was_active e then Some (cancelled_record e wall gen) else None.

Lemma cancel_all_records wall gen l b w :
  NoDup l →
  rb_records (foldl (cancel_one wall gen) (b, w) l).1.1 = rb_records b.1 ++ omap (owed_record w wall gen) l.
Proof.
  revert b w. induction l as [|run l IH]; intros b w Hnd; csimpl; [by rewrite app_nil_r|].
  apply NoDup_cons in Hnd as [Hrun Hnd].
  assert (Hrest : ∀ w', (∀ r, r ≠ run → rw_runs w' !! r = rw_runs w !! r) →
    omap (owed_record w' wall gen) l = omap (owed_record w wall gen) l).
  { intros w' Hw'. clear IH Hnd. induction l as [|r l IHl]; [done|]. apply not_elem_of_cons in Hrun as [Hne Hrun].
    csimpl. rewrite IHl by done. unfold owed_record. by rewrite Hw'. }
  unfold cancel_one at 2, owed_record at 1. csimpl. destruct (rw_runs w !! run) as [e|]; simpl; [|by apply IH].
  rewrite IH, Hrest by (done || (intros r Hne; simpl; by apply lookup_insert_ne)).
  destruct (was_active e); [|done]. simpl. by rewrite <- app_assoc.
Qed.

(** Halting a door ends it for good. The call records exactly the transitions it made,
    in order: the door's halt if this call set it, then one cancellation for each of its
    members still active; in every later state none of those members is admitted to
    anything, and the door while it is kept stays halted, holds no yes of the Owner's and
    opens no run. *)
Theorem halted_door_is_final w group d door agent wall gen b members newly b' w1 w2
    (Hok : reg_ok w) (Hdoor : rw_doors w !! group = Some d)
    (Hhalt : halt_group group door agent wall gen b w = ((members, newly), b', w1))
    (Hrun : rtc rstep w1 w2) :
  members = de_members d ∧ newly = negb (de_halted d) ∧
  rb_records b'.1 = rb_records b.1 ++
    (if newly then [door_halted_record door agent wall gen] else []) ++
    omap (owed_record w wall gen) (in_order members) ∧
  (∀ run, run ∈ members → refused w2 run) ∧
  (∀ d2, rw_doors w2 !! group = Some d2 → de_halted d2 = true ∧ de_consents d2 = []) ∧
  (∀ id agent origin class now cell r w3, open_with_cell id agent origin class now (Some group) cell w2 ≠ (Ok r, w3)).
Proof.
  apply (halt_group_ok _ _ _ _ _ _ _ _ _ _ Hhalt) in Hok as Hok1.
  pose proof (rsteps_ok _ _ Hrun Hok1) as Hok2. pose proof (rsteps_later _ _ Hok1 Hrun) as Hl.
  rewrite (halt_group_world _ _ _ _ _ _ _ _ Hok Hdoor) in Hhalt. injection Hhalt as <- <- <- Hw1.
  assert (Hhd : ∀ d2, rw_doors w2 !! group = Some d2 → de_halted d2 = true).
  { intros d2 Hd2. pose proof (do_flag _ _ _ (ro_doors _ Hok2 _ _ Hd2)) as Hf.
    rewrite (lt_halted _ _ Hl group) in Hf; [congruence|]. subst w1. apply lookup_insert_eq. }
  split_and!; [done|done| | | |].
  - rewrite cancel_all_records; [by destruct (de_halted d); simpl; rewrite <- ?app_assoc|].
    unfold in_order. rewrite merge_sort_Permutation. apply NoDup_elements.
  - intros run Hin. destruct (do_members _ _ _ (ro_doors _ Hok _ _ Hdoor) _ Hin) as (e & He & _).
    apply flagged_refused; [done|]. unfold flag. rewrite (lt_flags _ _ Hl run); [done|].
    set (b0 := if de_halted d then b else _) in *.
    pose proof (later_cancel_all wall gen (in_order (de_members d)) b0 w Hok) as Hlc.
    pose proof (cancel_all_ok wall gen (in_order (de_members d)) b0 w Hok) as Hokc.
    assert (Hend := cancel_all_ends wall gen (in_order (de_members d)) (b0, w) run
      (or_intror (proj2 (in_order_elem _ _) Hin))).
    assert (Hm : is_Some (rw_runs w1 !! run)).
    { assert (Hd1 : ∃ d1, rw_doors w1 !! group = Some d1 ∧ de_members d1 = de_members d).
      { subst w1. eexists. split; [apply lookup_insert_eq|done]. }
      destruct Hd1 as (d1 & Hd1 & Em). rewrite <- Em in Hin.
      destruct (do_members _ _ _ (ro_doors _ Hok1 _ _ Hd1) _ Hin) as (e1 & He1 & _). eauto. }
    destruct Hm as [e1 He1]. destruct (eo_flag _ _ _ (ro_runs _ Hok1 _ _ He1)) as [[fl Hfl] Hset].
    assert (Ha : was_active e1 = false) by (apply (Hend e1); by subst w1).
    specialize (Hset Ha). unfold flag in Hset. rewrite Hfl in Hset. simpl in Hset. by subst.
  - intros d2 Hd2. split; [by apply Hhd|]. apply (do_halted _ _ _ (ro_doors _ Hok2 _ _ Hd2)). by apply Hhd.
  - intros id ag origin class now cell r w3. unfold open_with_cell, opens_in.
    destruct (rw_poisoned w2), (engaged w2 cell), (rw_stopped w2), (rw_closed w2); try done.
    destruct (rw_doors w2 !! group) as [d2|] eqn:Hd2; [|done]. by rewrite (Hhd d2).
Qed.
End Steps.

(** ** Samples *)

Module SampleRegistry.
#[local] Existing Instance SampleCrates.crates.

(** A door of the agent [a], its session's cell, a run, a yes, its admissions and one
    model call of it. *)
Definition cell : HaltCell := MkCell 0 (Host (Some 7%nat)).
Definition core : DoorCore := MkDoorCore 0 (lit "a") (Some cell) (lit "door").
Definition agent : AgentId := lit "a".
Definition workspace : AdmittedWorkspace := MkAdmittedWorkspace (lit "w") [5].
Definition store : Grants :=
  MkGrants {[ [3] := MkGrant [3] (GrantScope.Files (lit "w") (lit "/w") [5]) 0 100 100 false ]} 0.
Definition grant : OriginalGrant := MkOriginalGrant Lock.Free store [3] 5 5.

Definition second {A} (o : option (A * RunWorld)) (w : RunWorld) : RunWorld :=
  match o with Some (_, w) => w | None => w end.

Definition w0 : RunWorld := registry_new SampleSession.running.
Definition w1 : RunWorld := w0 <| rw_cells := rw_cells w0 |> <| rw_cores := {[1%nat := core]} |> <| rw_poisoned := false |>.
Definition w2 : RunWorld := second (reserve_door 0 agent 1 w1) w1.
Definition w3 : RunWorld := second (activate_door_with_halt 0 (Some cell) w2) w2.
Definition w4 : RunWorld := (open_with_cell [1] agent RunOrigin.AgentGoal RunClass.Agent 9 (Some 0) (Some cell) w3).2.
Definition w5 : RunWorld := (consent_slot 0 agent w4).2.
Definition slot : ConsentSlot := MkConsentSlot 0 (MkLife 0 false false) (Some cell).
Definition w6 : RunWorld := (slot_fill slot (lit "h") (lit "q") 4 ConsentKind.Mission 8 None w5).2.
Definition files : FilesAdmission :=
  MkFilesAdmission (lit "h") (lit "q") 4 ConsentKind.Mission 8 workspace None.
Definition w7 : RunWorld := (admit_files [1] agent 0 (lit "h") (lit "q") workspace w6).2.
Definition w8 : RunWorld := (admit_inference [1] agent 0 (lit "h") (lit "q") [6] w7).2.
Definition w9 : RunWorld := (admit_session_attempt false [1] agent 0 [6] cell grant false w8).2.
Definition ticket : SessionAttempt :=
  MkSessionAttempt [1] agent 0 (MkInferenceAdmission (lit "h") (lit "q") 4 ConsentKind.Mission 8 [6]) 1 (lit "door") cell.
Definition w10 : RunWorld := (settle_session_attempt true true ticket w9).2.

Lemma pair_eq {A B} (p : A * B) a : p.1 = a → p = (a, p.2).
Proof. intros <-. by destruct p. Qed.

Lemma runs_to_open : rtc rstep w0 w4.
Proof.
  eapply rtc_l; [apply (rs_around (rw_cells w0) {[1%nat := core]} false w0)|].
  apply (rtc_l _ _ w2); [apply (rs_reserve 0 agent 1 w1 (Ok tt) w2); vm_compute; reflexivity|].
  apply (rtc_l _ _ w3); [apply (rs_activate 0 (Some cell) w2 (Ok tt) w3); vm_compute; reflexivity|].
  apply rtc_once. unfold w4. eapply (rs_open [1]); [vm_compute; reflexivity|]. apply surjective_pairing.
Qed.
Lemma runs_to_attempt : rtc rstep w4 w8.
Proof.
  apply (rtc_l _ _ w5); [unfold w5; eapply (rs_slot 0 agent w4); apply surjective_pairing|].
  apply (rtc_l _ _ w6); [unfold w6, slot; eapply (rs_fill 0 0 (Some cell)); apply surjective_pairing|].
  apply (rtc_l _ _ w7); [unfold w7; eapply rs_files; apply surjective_pairing|].
  apply rtc_once. unfold w8. eapply rs_inference; apply surjective_pairing.
Qed.

Lemma w4_ok : reg_ok w4.
Proof. eapply rsteps_ok; [apply runs_to_open|apply registry_new_ok]. Qed.
Lemma w8_ok : reg_ok w8.
Proof. eapply rsteps_ok; [apply runs_to_attempt|apply w4_ok]. Qed.

Lemma registry_consistent_witness : (size (rw_runs w4) ≤ RUN_CAPACITY)%nat ∧ size (rw_runs w4) = 1%nat.
Proof.
  split; [|vm_compute; reflexivity].
  exact (ro_capacity _ (registry_consistent SampleSession.running w4 runs_to_open)).
Defined.

(** The run finished. *)
Definition done_world : RunWorld := default w8 (finish [1] w8).
Lemma done_ok : reg_ok done_world.
Proof. apply (finish_ok [1] w8); [vm_compute; reflexivity|apply w8_ok]. Qed.

Lemma ended_run_is_final_witness :
  flag w8 [1] = false ∧ ∀ t w', admit_model_call [1] agent 0 [6] done_world ≠ (Ok t, w').
Proof.
  split; [vm_compute; reflexivity|].
  apply (rf_call _ _ (ended_run_is_final done_world done_world [1] done_ok
    ltac:(vm_compute; reflexivity) (rtc_refl _ _))).
Defined.

Definition stopped_world : RunWorld := (stop_all w8).2.
Lemma stop_holds_until_lifted_witness :
  stop_refuses stopped_world ∧ refused stopped_world [1].
Proof.
  destruct (stop_holds_until_lifted w8 (stop_all w8).1 stopped_world stopped_world w8_ok
    (surjective_pairing _) (rtc_refl _ _)) as (H1 & _ & H2 & _).
  split; [apply H1; vm_compute; reflexivity|apply H2; vm_compute; eauto].
Defined.

Lemma w6_ok : reg_ok w6.
Proof.
  eapply rsteps_ok; [|apply w4_ok].
  apply (rtc_l _ _ w5); [unfold w5; eapply (rs_slot 0 agent w4); apply surjective_pairing|].
  apply rtc_once. unfold w6, slot. eapply (rs_fill 0 0 (Some cell)); apply surjective_pairing.
Qed.
Lemma files_admitted : admit_files [1] agent 0 (lit "h") (lit "q") workspace w6 = (Ok files, w7).
Proof. unfold w7. apply pair_eq. vm_compute. reflexivity. Qed.
Lemma attempt_admitted : admit_session_attempt false [1] agent 0 [6] cell grant false w8 = (Ok ticket, w9).
Proof. unfold w9. apply pair_eq. vm_compute. reflexivity. Qed.
Lemma attempt_settled : settle_session_attempt true true ticket w9 = (Ok tt, w10).
Proof. unfold w10. apply pair_eq. vm_compute. reflexivity. Qed.

Lemma files_admission_rests_on_yes_witness :
  ∃ e d c, active_member w6 [1] e agent 0 d ∧ owner_yes w6 d (lit "h") (lit "q") c ∧ fa_workspace files = workspace.
Proof.
  destruct (files_admission_rests_on_yes w6 [1] agent 0 (lit "h") (lit "q") workspace files w7 w7 w6_ok
    files_admitted (rtc_refl _ _)) as (_ & _ & (e & d & c & H1 & H2 & _ & _ & H3 & _) & _).
  exists e, d, c. exact (conj H1 (conj H2 H3)).
Defined.

Lemma session_attempt_once_witness :
  sa_ordinal ticket = 1 ∧ (settle_session_attempt true true ticket w10).1 ≠ Ok tt.
Proof.
  split; [reflexivity|].
  exact (proj2 (proj2 (proj2 (session_attempt_once false [1] agent 0 [6] cell grant false w8 ticket w9 w9 true
    w10 w10 true true _ _ w8_ok attempt_admitted (rtc_refl _ _) attempt_settled (rtc_refl _ _)
    (surjective_pairing (settle_session_attempt true true ticket w10)))))).
Defined.

Definition halted := halt_group 0 (lit "door") agent 8 1 (batch_new, halt_counters_new) w8.
Lemma halted_door_is_final_witness :
  length (rb_records halted.1.2.1) = 2%nat ∧ refused halted.2 [1].
Proof.
  split; [vm_compute; reflexivity|].
  destruct (rw_doors w8 !! 0) as [d|] eqn:Hd; [|vm_compute in Hd; discriminate].
  destruct (halted_door_is_final w8 0 d (lit "door") agent 8 1 (batch_new, halt_counters_new) halted.1.1.1
    halted.1.1.2 halted.1.2 halted.2 halted.2 w8_ok Hd) as (_ & _ & _ & H & _).
  - unfold halted. by destruct (halt_group _ _ _ _ _ _ _) as [[[] ] ].
  - apply rtc_refl.
  - apply H. apply (bool_decide_unpack _). vm_compute. exact I.
Defined.
End SampleRegistry.
