(* ===== verification/AuthCommit.v ===== *)
(** * The action commitment

    [authority/commitment.rs] of [crates/nexus-governed-control/src]: the record every
    governed effect passes through. A call is a sequence of holds of the commitments
    lock with nothing held in between; each hold is a definition here, and each call
    composes its holds with whatever other threads do meanwhile ([others]). The clocks
    are read before a hold ([Now]), and what its transitions owe once the lock is
    released is its [Deferred]. Iterating a [HashMap] is in the order of its keys'
    enumeration here. *)

From S2P Require Import Prelude Hash AuthBase AuthText HaltCell AuthGrants AuthHalt AuthRuns.

Local Open Scope Z_scope.
Local Open Scope nexus_scope.
#[local] Arguments lit : simpl never.

(** ** Data *)

Record TargetIdentity := MkTarget {
  ti_display : str;
  ti_digest : Digest;
}.
#[export] Instance TargetIdentity_eq_dec : EqDecision TargetIdentity.
Proof. solve_decision. Defined.

Record PreparedAction := MkPreparedAction {
  pa_kind : CapabilityKind.t;
  pa_class : EffectClass.t;
  pa_operation : str;
  pa_target : TargetIdentity;
  pa_parameters : Digest;
  pa_grants : list GrantId;
  pa_leases : list LeaseId;
  pa_summary : list str;
}.
#[export] Instance PreparedAction_eq_dec : EqDecision PreparedAction.
Proof. solve_decision. Defined.

Module CommitmentState.
Inductive t :=
| Prepared
| Authorized
| Executing
| Succeeded
| Failed
| Cancelled
| Denied
| Expired
| Revoked.

Definition as_str (v : t) : str :=
  match v with
  | Prepared => lit "prepared"
  | Authorized => lit "authorized"
  | Executing => lit "executing"
  | Succeeded => lit "succeeded"
  | Failed => lit "failed"
  | Cancelled => lit "cancelled"
  | Denied => lit "denied"
  | Expired => lit "expired"
  | Revoked => lit "revoked"
  end.

Definition is_final (v : t) : bool :=
  match v with Prepared | Authorized | Executing => false | _ => true end.
End CommitmentState.
#[export] Instance CommitmentState_eq_dec : EqDecision CommitmentState.t.
Proof. solve_decision. Defined.

(** [matches!(state, Prepared | Authorized)]. *)
Definition unconsumed (s : CommitmentState.t) : bool :=
  match s with CommitmentState.Prepared | CommitmentState.Authorized => true | _ => false end.

Module FailureClass.
Inductive t :=
| Actuator
| TargetChanged
| Timeout
| Bounds
| Transport
| Unavailable
| Abandoned
| Refused
| Uncertain.

Definition as_str (v : t) : str :=
  match v with
  | Actuator => lit "actuator"
  | TargetChanged => lit "target_changed"
  | Timeout => lit "timeout"
  | Bounds => lit "bounds"
  | Transport => lit "transport"
  | Unavailable => lit "unavailable"
  | Abandoned => lit "abandoned"
  | Refused => lit "refused"
  | Uncertain => lit "uncertain"
  end.
End FailureClass.
#[export] Instance FailureClass_eq_dec : EqDecision FailureClass.t.
Proof. solve_decision. Defined.

Module Outcome.
Inductive t :=
| Succeeded (meta : list (str * str))
| Failed (class : FailureClass.t) (detail : str)
| Cancelled (detail : option str).
End Outcome.

Module PublicationClass.
Inductive t :=
| Published (recovery_required : bool) (interrupted : list str)
| ConfirmedNotPublished
| Pending
| Uncertain.
End PublicationClass.
#[export] Instance PublicationClass_eq_dec : EqDecision PublicationClass.t.
Proof. solve_decision. Defined.

Definition NOT_HANDED_OFF : Z := 0.
Definition HANDED_OFF : Z := 1.
Definition PROVEN_NOT_PUBLISHED : Z := 2.
Definition MAX_SUMMARY_LINES : nat := 192.
Definition MAX_COMMITMENT_TTL : Z := 15 * 60 * SECOND.
Definition CAPACITY : Z := 4096.

Module Transition.
Inductive t :=
| Approve
| Authorize
| Start.

Definition as_str (v : t) : str :=
  match v with
  | Approve => lit "approval"
  | Authorize => lit "authorization"
  | Start => lit "start"
  end.
End Transition.
#[export] Instance Transition_eq_dec : EqDecision Transition.t.
Proof. solve_decision. Defined.

Record Reservation := MkReservation {
  rz_token : Z;
  rz_transition : Transition.t;
}.
#[export] Instance Reservation_eq_dec : EqDecision Reservation.
Proof. solve_decision. Defined.

Record Entry := MkEntry {
  ce_request : option HaltCell;
  ce_agent : AgentId;
  ce_run : RunId;
  ce_privacy : Privacy.t;
  ce_prepared : PreparedAction;
  ce_generation : Z;
  ce_deadline_ms : Z;
  ce_created_wall_ms : Z;
  ce_expires_wall_ms : Z;
  ce_salted : Digest;
  ce_binding : Digest;
  ce_state : CommitmentState.t;
  ce_approval : option Digest;
  ce_reserved : option Reservation;
  ce_interrupted : list str;
  ce_recovery_required : bool;
  ce_finished_started : bool;
  ce_failure : option FailureClass.t;
  ce_handoff : Z;
  ce_pinned : bool;
  ce_pin_owner : option GroupId;
}.
Definition centry_eta (e : Entry) : Entry :=
  MkEntry (ce_request e) (ce_agent e) (ce_run e) (ce_privacy e) (ce_prepared e) (ce_generation e)
    (ce_deadline_ms e) (ce_created_wall_ms e) (ce_expires_wall_ms e) (ce_salted e) (ce_binding e)
    (ce_state e) (ce_approval e) (ce_reserved e) (ce_interrupted e) (ce_recovery_required e)
    (ce_finished_started e) (ce_failure e) (ce_handoff e) (ce_pinned e) (ce_pin_owner e).
#[export] Instance upd_ce_request : Update ce_request := ltac:(update_with centry_eta).
#[export] Instance upd_ce_state : Update ce_state := ltac:(update_with centry_eta).
#[export] Instance upd_ce_approval : Update ce_approval := ltac:(update_with centry_eta).
#[export] Instance upd_ce_reserved : Update ce_reserved := ltac:(update_with centry_eta).
#[export] Instance upd_ce_interrupted : Update ce_interrupted := ltac:(update_with centry_eta).
#[export] Instance upd_ce_recovery : Update ce_recovery_required := ltac:(update_with centry_eta).
#[export] Instance upd_ce_finished : Update ce_finished_started := ltac:(update_with centry_eta).
#[export] Instance upd_ce_failure : Update ce_failure := ltac:(update_with centry_eta).
#[export] Instance upd_ce_handoff : Update ce_handoff := ltac:(update_with centry_eta).
#[export] Instance upd_ce_pinned : Update ce_pinned := ltac:(update_with centry_eta).
#[export] Instance upd_ce_pin_owner : Update ce_pin_owner := ltac:(update_with centry_eta).

(** [Entry::publication]. *)
Definition publication (e : Entry) : PublicationClass.t :=
  match ce_state e with
  | CommitmentState.Prepared | CommitmentState.Authorized | CommitmentState.Executing =>
      PublicationClass.Pending
  | CommitmentState.Succeeded => PublicationClass.Published (ce_recovery_required e) (ce_interrupted e)
  | CommitmentState.Denied | CommitmentState.Expired | CommitmentState.Revoked =>
      PublicationClass.ConfirmedNotPublished
  | CommitmentState.Failed | CommitmentState.Cancelled =>
      if negb (ce_finished_started e) then PublicationClass.ConfirmedNotPublished
      else if bool_decide (ce_failure e = Some FailureClass.Uncertain) then PublicationClass.Uncertain
      else if bool_decide (pa_kind (ce_prepared e) = CapabilityKind.Files) && negb (ce_handoff e =? HANDED_OFF)
      then PublicationClass.ConfirmedNotPublished
      else PublicationClass.Uncertain
  end.

Definition reserved_by (e : Entry) (token : Z) : bool :=
  match ce_reserved e with Some r => rz_token r =? token | None => false end.

Record CommitmentView := MkCommitmentView {
  cv_id : CommitmentId;
  cv_agent : AgentId;
  cv_run : RunId;
  cv_kind : CapabilityKind.t;
  cv_class : EffectClass.t;
  cv_operation : str;
  cv_target : str;
  cv_summary : list str;
  cv_state : CommitmentState.t;
  cv_requires_approval : bool;
  cv_created_wall_ms : Z;
  cv_expires_wall_ms : Z;
  cv_binding_short : str;
}.

Record Now := MkNow {
  nw_mono : Z;
  nw_wall : Z;
}.
Record Deferred := MkDeferred {
  df_records : list EvidenceRecord;
  df_leases : list LeaseId;
}.
Definition nothing_owed : Deferred := MkDeferred [] [].
(** [Owes]: a record and leases as soon as they exist. *)
Definition owe (r : EvidenceRecord) (leases : list LeaseId) (d : Deferred) : Deferred :=
  MkDeferred (df_records d ++ [r]) (df_leases d ++ leases).

(** [R2Approval] and [ActionConfirmation] ([approval.rs]). *)
Record R2Approval := MkR2Approval {
  ra_commitment : CommitmentId;
  ra_binding : Digest;
}.
#[export] Instance R2Approval_eq_dec : EqDecision R2Approval.
Proof. solve_decision. Defined.
Record ActionConfirmation := MkActionConfirmation {
  ac_commitment : str;
  ac_class : EffectClass.t;
  ac_kind : CapabilityKind.t;
  ac_operation : str;
  ac_target : str;
  ac_agent : str;
  ac_run : str;
  ac_summary : list str;
  ac_expires_in_secs : Z;
  ac_binding_short : str;
}.

(** [Inner]: the commitments with the registries, the generation, the sink, the clocks
    and the lease ends asked for (in order). *)
Record CommitWorld {S : Type} := MkCommitWorld {
  cw_entries : gmap CommitmentId Entry;
  cw_poisoned : bool;
  cw_preparations : Z;
  cw_transitions : Z;
  cw_generation : Z;
  cw_grants : Grants;
  cw_runs : RunWorld;
  cw_sink : S;
  cw_mono : Z;
  cw_wall : Z;
  cw_lease_ends : list LeaseId;
}.
Arguments CommitWorld : clear implicits.
Definition commit_world_eta {S} (w : CommitWorld S) : CommitWorld S :=
  MkCommitWorld S (cw_entries w) (cw_poisoned w) (cw_preparations w) (cw_transitions w) (cw_generation w)
    (cw_grants w) (cw_runs w) (cw_sink w) (cw_mono w) (cw_wall w) (cw_lease_ends w).
#[export] Instance upd_cw_entries {S} : Update (@cw_entries S) := ltac:(update_with (@commit_world_eta S)).
#[export] Instance upd_cw_preparations {S} : Update (@cw_preparations S) := ltac:(update_with (@commit_world_eta S)).
#[export] Instance upd_cw_transitions {S} : Update (@cw_transitions S) := ltac:(update_with (@commit_world_eta S)).
#[export] Instance upd_cw_generation {S} : Update (@cw_generation S) := ltac:(update_with (@commit_world_eta S)).
#[export] Instance upd_cw_grants {S} : Update (@cw_grants S) := ltac:(update_with (@commit_world_eta S)).
#[export] Instance upd_cw_runs {S} : Update (@cw_runs S) := ltac:(update_with (@commit_world_eta S)).
#[export] Instance upd_cw_sink {S} : Update (@cw_sink S) := ltac:(update_with (@commit_world_eta S)).
#[export] Instance upd_cw_leases {S} : Update (@cw_lease_ends S) := ltac:(update_with (@commit_world_eta S)).

(** ** Bindings *)

Section Bindings.
Context {crates : Crates}.

Definition sorted_ids (ids : list bytes) : list bytes := merge_sort bytes_le ids.
Definition BINDING_DOMAIN : str := lit "nexus.p3.commitment.binding.v1".
Definition PARAMETERS_DOMAIN : str := lit "nexus.p3.commitment.parameters.v1".
Definition binding_parts (id : CommitmentId) (agent : AgentId) (run : RunId) (p : PreparedAction)
    (salted : Digest) (generation deadline_ms : Z) : list bytes :=
  [id; as_bytes agent; run; as_bytes (CapabilityKind.as_str (pa_kind p));
   as_bytes (EffectClass.as_str (pa_class p)); as_bytes (pa_operation p); ti_digest (pa_target p); salted;
   concat (sorted_ids (pa_grants p)); concat (sorted_ids (pa_leases p));
   to_be_bytes 8 generation; to_be_bytes 8 deadline_ms].
Definition binding_of (id : CommitmentId) (agent : AgentId) (run : RunId) (p : PreparedAction)
    (salted : Digest) (generation deadline_ms : Z) : Digest :=
  Digest_of BINDING_DOMAIN (binding_parts id agent run p salted generation deadline_ms).
Definition salt (nonce : bytes) (parameters : Digest) : Digest :=
  Digest_of PARAMETERS_DOMAIN [nonce; parameters].

Definition cview (id : CommitmentId) (e : Entry) : CommitmentView :=
  let p := ce_prepared e in
  MkCommitmentView id (ce_agent e) (ce_run e) (pa_kind p) (pa_class p) (pa_operation p)
    (ti_display (pa_target p)) (pa_summary p) (ce_state e) (requires_native_approval (pa_class p))
    (ce_created_wall_ms e) (ce_expires_wall_ms e) (Digest_short (ce_binding e)).
End Bindings.

(** ** What every transition does *)

Section Holds.
Context {crates : Crates} {S : Type} {sink : EvidenceSink S}.
Implicit Types w : CommitWorld S.

Definition now_of w : Now := MkNow (cw_mono w) (cw_wall w).

Definition base_record (phase : EvidencePhase.t) (id : CommitmentId) (e : Entry) (now : Now) w : EvidenceRecord :=
  let p := ce_prepared e in
  EvidenceRecord_new phase (nw_wall now) (cw_generation w) (ce_privacy e)
    <| er_commitment := Some (CommitmentId_display id) |> <| er_agent := Some (ce_agent e) |>
    <| er_run := Some (RunId_display (ce_run e)) |> <| er_kind := Some (pa_kind p) |>
    <| er_class := Some (pa_class p) |> <| er_operation := Some (pa_operation p) |>
    <| er_target := Some (bounded (ti_display (pa_target p))) |>
    <| er_target_digest := Some (Digest_to_hex (ti_digest (pa_target p))) |>
    <| er_parameters_digest := Some (Digest_to_hex (ce_salted e)) |>
    <| er_approval := Digest_short <$> ce_approval e |>.

Definition write_gating (r : EvidenceRecord) w : aresult Z * CommitWorld S :=
  let '(seq, k) := write_record r (cw_sink w) in
  (ok_or seq AuthorityError.EvidenceUnavailable, w <| cw_sink := k |>).

(** [write_ends]: every record; the status of the last. *)
Definition write_ends (records : list EvidenceRecord) w : option EndStatus.t * CommitWorld S :=
  foldl (λ sw r, let '(status, k) := write_end r (cw_sink sw.2) in (Some status, sw.2 <| cw_sink := k |>))
    (None, w) records.
Definition write_ends_observed (records : list EvidenceRecord) w : BatchOutcome * CommitWorld S :=
  foldl (λ ow r, let '(status, k) := write_end r (cw_sink ow.2) in
                 (outcome_add status ow.1, ow.2 <| cw_sink := k |>))
    (MkBatchOutcome 0 0 0, w) records.
Definition end_leases (leases : list LeaseId) w : CommitWorld S :=
  w <| cw_lease_ends := cw_lease_ends w ++ leases |>.
Definition flush (d : Deferred) w : option EndStatus.t * CommitWorld S :=
  write_ends (df_records d) (end_leases (df_leases d) w).

(** [reserve]: [fetch_add] wraps. *)
Definition reserve (e : Entry) (t : Transition.t) w : Z * Entry * CommitWorld S :=
  let token := (cw_transitions w + 1) mod 2 ^ 64 in
  (token, e <| ce_reserved := Some (MkReservation token t) |>, w <| cw_transitions := token |>).

(** [runs.check]: it changes nothing. *)
Definition run_check (run : RunId) (agent : AgentId) (request : option HaltCell) w
    : aresult (CancelToken * option GroupId) :=
  (check_request_retaining run agent false request (cw_runs w)).1.

Definition ended_why (e : Entry) (otherwise : AuthorityError) w : AuthorityError :=
  match ce_state e with
  | CommitmentState.Revoked =>
      match run_check (ce_run e) (ce_agent e) None w with
      | Err error => error
      | Ok _ => AuthorityError.Stale
      end
  | CommitmentState.Expired => AuthorityError.Expired
  | _ => otherwise
  end.

(** [end_entry]: the entry ended, and what that owes. *)
Definition end_entry (id : CommitmentId) (state : CommitmentState.t) (phase : EvidencePhase.t) (now : Now)
    (adjust : EvidenceRecord → EvidenceRecord) w (e : Entry) (d : Deferred) : Entry * Deferred :=
  let interrupted := ce_reserved e in
  let e := e <| ce_state := state |> <| ce_reserved := None |> in
  let r := base_record phase id e now w in
  let r := match interrupted with
           | Some z => push_detail (lit "interrupted") (Transition.as_str (rz_transition z)) r
           | None => r
           end in
  (e, owe (adjust r) (pa_leases (ce_prepared e)) d).

Definition route (t : Transition.t) : str :=
  match t with
  | Transition.Approve => lit "approval_refused_halted"
  | Transition.Authorize => lit "authorization_refused_halted"
  | Transition.Start => lit "execution_dispatch_refused_halted"
  end.
(** The adjustment of an end refused by a halted session. *)
Definition halted_because (reason : str) (r : EvidenceRecord) : EvidenceRecord :=
  push_detail (lit "reason") reason
    (r <| er_failure := Some (lit "halted") |> <| er_cancelled := true |>).
Definition is_cancellation (e : AuthorityError) : bool :=
  match e with
  | AuthorityError.RunCancelled | AuthorityError.EmergencyStopped | AuthorityError.Halted => true
  | _ => false
  end.

Definition end_unconsumed (id : CommitmentId) (state : CommitmentState.t) (reason : AuthorityError)
    (now : Now) w (e : Entry) (d : Deferred) : Entry * Deferred :=
  let phase :=
    if bool_decide (state = CommitmentState.Expired) then EvidencePhase.Expired else EvidencePhase.Revoked in
  let named :=
    if bool_decide (reason = AuthorityError.Halted) && session_halted (cw_runs w) (ce_run e)
    then (λ z, route (rz_transition z)) <$> ce_reserved e else None in
  end_entry id state phase now
    (λ r,
      let r := match named with Some why => push_detail (lit "reason") why r | None => r end in
      r <| er_failure := Some (AuthorityError.class reason) |> <| er_cancelled := is_cancellation reason |>)
    w e d.

(** What ends a commitment that is asked to go on, besides its run. *)
Definition lapsed (e : Entry) (now : Now) w : option (CommitmentState.t * AuthorityError) :=
  if (ce_deadline_ms e <=? nw_mono now) || (ce_expires_wall_ms e <=? nw_wall now)
  then Some (CommitmentState.Expired, AuthorityError.Expired)
  else if negb (cw_generation w =? ce_generation e) then Some (CommitmentState.Revoked, AuthorityError.Stale)
  else if existsb (λ g, bool_decide (live_at g (nw_mono now) (nw_wall now) (cw_grants w) = None))
            (pa_grants (ce_prepared e))
  then Some (CommitmentState.Revoked, AuthorityError.GrantNotLive)
  else None.

Definition live_check (id : CommitmentId) (agent : AgentId) (run : RunId) (now : Now) w (e : Entry)
    (d : Deferred) : aresult CancelToken * Entry * Deferred :=
  if negb (bool_decide (ce_agent e = agent)) then (Err AuthorityError.WrongAgent, e, d)
  else if negb (bool_decide (ce_run e = run)) then (Err AuthorityError.WrongRun, e, d)
  else
    match run_check run agent (ce_request e) w with
    | Err error =>
        let '(e, d) := end_unconsumed id CommitmentState.Revoked error now w e d in (Err error, e, d)
    | Ok (token, _) =>
        match lapsed e now w with
        | Some (state, error) =>
            let '(e, d) := end_unconsumed id state error now w e d in (Err error, e, d)
        | None => (Ok token, e, d)
        end
    end.

(** A hold that reads one entry, and puts it back. *)
Definition put_entry (id : CommitmentId) (e : Entry) w : CommitWorld S :=
  w <| cw_entries := <[id := e]> (cw_entries w) |>.

(** ** Completing a transition *)

Definition complete {T} (id : CommitmentId) (token : Z) (expected : CommitmentState.t) (agent : AgentId)
    (run : RunId) (finalize : Entry → CancelToken → Entry * T) (now : Now) w
    : aresult T * Deferred * CommitWorld S :=
  match cw_entries w !! id with
  | None => (Err AuthorityError.UnknownCommitment, nothing_owed, w)
  | Some e =>
      if negb (reserved_by e token) || negb (bool_decide (ce_state e = expected))
      then (Err (ended_why e AuthorityError.NotPending w), nothing_owed, w)
      else
        let '(live, e1, d) := live_check id agent run now w e nothing_owed in
        match live with
        | Err error => (Err error, d, put_entry id (e1 <| ce_reserved := None |>) w)
        | Ok cancel =>
            let '(admitted, rw) := token_admit_host cancel (cw_runs w) in
            let w := w <| cw_runs := rw |> in
            match admitted with
            | Err _ =>
                let why := match ce_reserved e1 with Some z => route (rz_transition z) | None => [] end in
                let '(e2, d) :=
                  end_entry id CommitmentState.Revoked EvidencePhase.Revoked now (halted_because why) w e1 d in
                (Err AuthorityError.Halted, d, put_entry id e2 w)
            | Ok _ =>
                let '(e2, t) := finalize (e1 <| ce_reserved := None |>) cancel in
                (Ok t, d, put_entry id e2 w)
            end
        end
  end.

(** [Reserved::drop]: withdrawn if it still holds the commitment. *)
Definition reserved_drop (id : CommitmentId) (token : Z) (cell : option HaltCell) w : CommitWorld S :=
  if cw_poisoned w then
    match cell with
    | Some c => w <| cw_runs := fail_cell c (cw_runs w) |>
    | None => w
    end
  else
    match cw_entries w !! id with
    | Some e => if reserved_by e token then put_entry id (e <| ce_reserved := None |>) w else w
    | None => w
    end.

(** ** Preparing *)

(** Ended entries not pinned are pruned when the room is gone. *)
Definition has_room w : bool := Z.of_nat (size (cw_entries w)) + cw_preparations w <? CAPACITY.
Definition make_room w : CommitWorld S :=
  if has_room w then w
  else w <| cw_entries := filter (λ kv, (negb (CommitmentState.is_final (ce_state kv.2)) || ce_pinned kv.2) = true)
                            (cw_entries w) |>.

Definition reserve_preparation (cell : HaltCell) w : aresult HaltCell * CommitWorld S :=
  if cw_poisoned w then (Err AuthorityError.Halted, w)
  else
    let w := make_room w in
    if negb (has_room w) then (Err AuthorityError.Capacity, w)
    else
      let '(r, rw) := at_cells (cell_admit cell) (cw_runs w) in
      let w := w <| cw_runs := rw |> in
      match r with
      | Err e => (Err e, w)
      | Ok _ => (Ok cell, w <| cw_preparations := cw_preparations w + 1 |>)
      end.

(** [PreparationSlot::drop] of a held slot. *)
Definition slot_release (cell : HaltCell) w : CommitWorld S :=
  if cw_poisoned w then w <| cw_runs := fail_cell cell (cw_runs w) |>
  else w <| cw_preparations := cw_preparations w - 1 |>.

Definition grant_refusal (p : PreparedAction) (g : GrantId) w : option AuthorityError :=
  match live_at g (cw_mono w) (cw_wall w) (cw_grants w) with
  | None => Some AuthorityError.GrantNotLive
  | Some gr =>
      if bool_decide (GrantScope.kind (gr_scope gr) = pa_kind p) then None
      else Some AuthorityError.NoCoveringGrant
  end.

(** The grants an action relies on, one after the other. *)
Fixpoint grants_checked (others : nat → CommitWorld S → CommitWorld S) (n : nat) (p : PreparedAction)
    (grants : list GrantId) w : option AuthorityError * CommitWorld S :=
  match grants with
  | [] => (None, w)
  | g :: grants =>
      match grant_refusal p g w with
      | Some error => (Some error, w)
      | None => grants_checked others (1 + n) p grants (others n w)
      end
  end.
(** What cannot be shown to the Owner whole. *)
Definition unshowable (p : PreparedAction) : option AuthorityError :=
  if (MAX_SUMMARY_LINES <? length (pa_summary p))%nat
  then Some (AuthorityError.InvalidAction (lit "too much to show the owner in full"))
  else if negb (is_plain (ti_display (pa_target p)) && forallb is_plain (pa_summary p))
  then Some (AuthorityError.InvalidAction (lit "display text is not plain"))
  else None.

(** The entry made, with its id, its nonce and its clocks. *)
Definition new_commitment (id : CommitmentId) (nonce : bytes) (agent : AgentId) (run : RunId)
    (p : PreparedAction) (ttl : Z) (privacy : Privacy.t) (now : Now) w : Entry :=
  let ttl_ms := Z.min u64_max (as_millis (Z.min ttl MAX_COMMITMENT_TTL)) in
  let deadline_ms := saturating_add u64_max (nw_mono now) ttl_ms in
  let salted := salt nonce (pa_parameters p) in
  MkEntry None agent run privacy p (cw_generation w) deadline_ms (nw_wall now)
    (saturating_add u64_max (nw_wall now) ttl_ms) salted
    (binding_of id agent run p salted (cw_generation w) deadline_ms)
    CommitmentState.Prepared None None [] false false None NOT_HANDED_OFF false None.

Definition prepared_record (id : CommitmentId) (e : Entry) (now : Now) w : EvidenceRecord :=
  foldl (λ r l, push_detail (lit "lease") (LeaseId_display l) r)
    (base_record EvidencePhase.Prepared id e now w) (take 4 (pa_leases (ce_prepared e))).

(** The hold that inserts it: the slot given back, room made, the run checked again and
    retained for Files. *)
Definition insert_commitment (id : CommitmentId) (e : Entry) (slot : option HaltCell) (now : Now) w
    : option AuthorityError * Deferred * CommitWorld S :=
  let w := match slot with Some _ => w <| cw_preparations := cw_preparations w - 1 |> | None => w end in
  let w := make_room w in
  let files := bool_decide (pa_kind (ce_prepared e) = CapabilityKind.Files) in
  let '(retained, rw) :=
    if negb (has_room w) then (Err AuthorityError.Capacity, cw_runs w)
    else check_request_retaining (ce_run e) (ce_agent e) files slot (cw_runs w) in
  let w := w <| cw_runs := rw |> in
  match retained with
  | Err error =>
      let '(_, d) :=
        if bool_decide (error = AuthorityError.Halted) && session_halted (cw_runs w) (ce_run e)
        then end_entry id CommitmentState.Revoked EvidencePhase.Revoked now
               (halted_because (lit "commitment_prepare_refused_halted")) w e nothing_owed
        else end_unconsumed id CommitmentState.Revoked error now w e nothing_owed in
      (Some error, d, w)
  | Ok (_, owner) =>
      (None, nothing_owed, put_entry id (e <| ce_pinned := files |> <| ce_pin_owner := owner |>) w)
  end.

(** ** Approving, authorizing, starting: the first halves *)

(** What the Owner is asked, read under the lock ([approval_request]). *)
Definition approval_request (id : CommitmentId) (agent : AgentId) (run : RunId) (now : Now) w
    : aresult (ActionConfirmation * Digest) * Deferred * CommitWorld S :=
  match cw_entries w !! id with
  | None => (Err AuthorityError.UnknownCommitment, nothing_owed, w)
  | Some e =>
      if negb (bool_decide (ce_state e = CommitmentState.Prepared)) || bool_decide (is_Some (ce_reserved e))
      then (Err AuthorityError.NotPending, nothing_owed, w)
      else
        let '(live, e, d) := live_check id agent run now w e nothing_owed in
        let w := put_entry id e w in
        match live with
        | Err error => (Err error, d, w)
        | Ok _ =>
            let p := ce_prepared e in
            if negb (requires_native_approval (pa_class p)) then (Err AuthorityError.ApprovalNotApplicable, d, w)
            else
              (Ok (MkActionConfirmation (CommitmentId_display id) (pa_class p) (pa_kind p) (pa_operation p)
                     (bounded (ti_display (pa_target p))) (ce_agent e) (RunId_display (ce_run e))
                     (bounded <$> pa_summary p) (Z.max 0 (ce_deadline_ms e - nw_mono now) / 1000)
                     (Digest_short (ce_binding e)),
                   ce_binding e), d, w)
        end
  end.

(** A host session's last check before the dialog; what it owes is written only when it
    refuses. *)
Definition session_confirmation_handoff (id : CommitmentId) (agent : AgentId) (run : RunId)
    (binding : Digest) (now : Now) w : aresult unit * Deferred * CommitWorld S :=
  match cw_entries w !! id with
  | None => (Err AuthorityError.UnknownCommitment, nothing_owed, w)
  | Some e =>
      if negb (bool_decide (is_Some (ce_request e))) then (Ok tt, nothing_owed, w)
      else if negb (bool_decide (ce_binding e = binding)) ||
              negb (bool_decide (ce_state e = CommitmentState.Prepared)) || bool_decide (is_Some (ce_reserved e))
      then (Err AuthorityError.NotPending, nothing_owed, w)
      else
        let '(live, e, d) := live_check id agent run now w e nothing_owed in
        let w := put_entry id e w in
        match live with
        | Err error => (Err error, d, w)
        | Ok cancel =>
            let '(r, rw) := token_admit_host cancel (cw_runs w) in (r, d, w <| cw_runs := rw |>)
        end
  end.

(** The hold after the dialog: declined, it ends; confirmed, it is reserved. *)
Definition approval_answer (id : CommitmentId) (agent : AgentId) (run : RunId) (binding : Digest)
    (confirmed : bool) (now : Now) w
    : aresult (Z * EvidenceRecord * option HaltCell) * Deferred * CommitWorld S :=
  match cw_entries w !! id with
  | None => (Err AuthorityError.UnknownCommitment, nothing_owed, w)
  | Some e =>
      if negb (bool_decide (ce_state e = CommitmentState.Prepared)) ||
         negb (bool_decide (ce_binding e = binding)) || bool_decide (is_Some (ce_reserved e))
      then (Err AuthorityError.NotPending, nothing_owed, w)
      else
        let '(live, e, d) := live_check id agent run now w e nothing_owed in
        match live with
        | Err error => (Err error, d, put_entry id e w)
        | Ok _ =>
            if negb confirmed then
              let '(e, d) :=
                end_entry id CommitmentState.Denied EvidencePhase.ApprovalDeclined now (λ r, r) w e d in
              (Err AuthorityError.Declined, d, put_entry id e w)
            else
              let '(token, e, w) := reserve e Transition.Approve w in
              let r := base_record EvidencePhase.Approved id e now w <| er_approval := Some (Digest_short binding) |> in
              (Ok (token, r, ce_request e), d, put_entry id e w)
        end
  end.

Definition authorization (id : CommitmentId) (agent : AgentId) (run : RunId) (approval : option R2Approval)
    (now : Now) w : aresult (Z * option Digest * EvidenceRecord * option HaltCell) * Deferred * CommitWorld S :=
  match cw_entries w !! id with
  | None => (Err AuthorityError.UnknownCommitment, nothing_owed, w)
  | Some e =>
      if negb (bool_decide (ce_state e = CommitmentState.Prepared)) || bool_decide (is_Some (ce_reserved e))
      then (Err AuthorityError.NotPending, nothing_owed, w)
      else
        let '(live, e, d) := live_check id agent run now w e nothing_owed in
        let approved : aresult (option Digest) :=
          let? _ := live in
          match requires_native_approval (pa_class (ce_prepared e)), approval with
          | true, None => Err AuthorityError.ApprovalRequired
          | false, Some _ => Err AuthorityError.ApprovalNotApplicable
          | true, Some a =>
              if bool_decide (ra_commitment a = id) && bool_decide (ra_binding a = ce_binding e)
              then Ok (Some (ra_binding a)) else Err AuthorityError.ApprovalMismatch
          | false, None => Ok None
          end in
        match approved with
        | Err error => (Err error, d, put_entry id e w)
        | Ok approved =>
            let '(token, e, w) := reserve e Transition.Authorize w in
            let r := base_record EvidencePhase.Authorized id e now w
                       <| er_approval := Digest_short <$> (match approved with Some a => Some a | None => ce_approval e end) |> in
            (Ok (token, approved, r, ce_request e), d, put_entry id e w)
        end
  end.

Definition start (id : CommitmentId) (agent : AgentId) (run : RunId) (revalidated parameters : Digest)
    (now : Now) w : aresult (Z * EvidenceRecord * option HaltCell) * Deferred * CommitWorld S :=
  match cw_entries w !! id with
  | None => (Err AuthorityError.UnknownCommitment, nothing_owed, w)
  | Some e =>
      if negb (bool_decide (ce_state e = CommitmentState.Authorized)) || bool_decide (is_Some (ce_reserved e))
      then (Err (ended_why e AuthorityError.NotAuthorized w), nothing_owed, w)
      else
        let '(live, e, d) := live_check id agent run now w e nothing_owed in
        match live with
        | Err error => (Err error, d, put_entry id e w)
        | Ok _ =>
            let changed :=
              if negb (bool_decide (ti_digest (pa_target (ce_prepared e)) = revalidated))
              then Some AuthorityError.TargetChanged
              else if negb (bool_decide (pa_parameters (ce_prepared e) = parameters))
              then Some AuthorityError.ParametersChanged else None in
            match changed with
            | Some error =>
                let '(e, d) :=
                  end_entry id CommitmentState.Failed EvidencePhase.Finished now
                    (λ r, push_detail (lit "reason") (AuthorityError.class error)
                       (r <| er_outcome := Some (lit "failed") |>
                          <| er_failure := Some (FailureClass.as_str FailureClass.TargetChanged) |>)) w e d in
                (Err error, d, put_entry id e w)
            | None =>
                let '(token, e, w) := reserve e Transition.Start w in
                let r := base_record EvidencePhase.Started id e now w <| er_started_wall_ms := Some (nw_wall now) |> in
                (Ok (token, r, ce_request e), d, put_entry id e w)
            end
        end
  end.

(** What the second halves finalize. *)
Definition approve_final (e : Entry) (_ : CancelToken) : Entry * unit := (e, tt).
Definition authorize_final (approved : option Digest) (e : Entry) (_ : CancelToken) : Entry * unit :=
  (e <| ce_approval := match approved with Some a => Some a | None => ce_approval e end |>
     <| ce_state := CommitmentState.Authorized |>, tt).
Definition start_final (e : Entry) (cancel : CancelToken) : Entry * CancelToken :=
  (e <| ce_state := CommitmentState.Executing |>, cancel).

(** ** Ending *)

(** The state, and how the record says it. *)
Definition outcome_state (o : Outcome.t) : CommitmentState.t * str * option str :=
  match o with
  | Outcome.Succeeded _ => (CommitmentState.Succeeded, lit "succeeded", None)
  | Outcome.Failed FailureClass.Uncertain _ =>
      (CommitmentState.Failed, lit "uncertain", Some (FailureClass.as_str FailureClass.Uncertain))
  | Outcome.Failed class _ => (CommitmentState.Failed, lit "failed", Some (FailureClass.as_str class))
  | Outcome.Cancelled _ => (CommitmentState.Cancelled, lit "cancelled", None)
  end.
(** What a success reported in its first sixteen entries. *)
Definition reports (meta : list (str * str)) (key value : str) : bool :=
  existsb (λ kv, bool_decide (kv.1 = key) && bool_decide (kv.2 = value)) (take 16 meta).
Definition finish_entry (o : Outcome.t) (handoff : Z) (e : Entry) : Entry :=
  let e := e <| ce_finished_started := true |> <| ce_handoff := handoff |>
             <| ce_failure := match o with Outcome.Failed class _ => Some class | _ => None end |> in
  match o with
  | Outcome.Succeeded meta =>
      e <| ce_recovery_required := reports meta (lit "reason") (lit "recovery_required") |>
        <| ce_interrupted := filter (λ code, reports meta (lit "interrupted") code = true) INTERRUPTIONS |>
  | _ => e
  end.
Definition finish_record (o : Outcome.t) (started_wall_ms : Z) (cancelled : bool) (now : Now)
    (r : EvidenceRecord) : EvidenceRecord :=
  let '(_, outcome, failure) := outcome_state o in
  let r := r <| er_started_wall_ms := Some started_wall_ms |> <| er_finished_wall_ms := Some (nw_wall now) |>
             <| er_outcome := Some outcome |> <| er_failure := failure |>
             <| er_cancelled := cancelled || match o with Outcome.Cancelled _ => true | _ => false end |> in
  match o with
  | Outcome.Succeeded meta => r <| er_detail := (λ kv, (bounded kv.1, bounded kv.2)) <$> take 16 meta |>
  | Outcome.Failed _ detail => push_detail (lit "detail") (bounded detail) r
  | Outcome.Cancelled (Some detail) => push_detail (lit "detail") (bounded detail) r
  | Outcome.Cancelled None => r
  end.

(** [None]: the status is uncertain, and nothing changed. *)
Definition finish_hold (id : CommitmentId) (started_wall_ms : Z) (o : Outcome.t) (cancelled : bool)
    (handoff : Z) (now : Now) w : option Deferred * CommitWorld S :=
  match cw_entries w !! id with
  | Some e =>
      if bool_decide (ce_state e = CommitmentState.Executing) then
        let '(state, _, _) := outcome_state o in
        let '(e, d) :=
          end_entry id state EvidencePhase.Finished now (finish_record o started_wall_ms cancelled now) w
            (finish_entry o handoff e) nothing_owed in
        (Some d, put_entry id e w)
      else (None, w)
  | None => (None, w)
  end.

(** [fail_unstarted] and [deny]: an unconsumed entry of the agent's own run ends. *)
Definition own_unconsumed (id : CommitmentId) (agent : AgentId) (run : RunId) w : aresult Entry :=
  let? e := ok_or (cw_entries w !! id) AuthorityError.UnknownCommitment in
  if negb (bool_decide (ce_agent e = agent)) then Err AuthorityError.WrongAgent
  else if negb (bool_decide (ce_run e = run)) then Err AuthorityError.WrongRun
  else if negb (unconsumed (ce_state e)) then Err AuthorityError.NotPending
  else Ok e.
Definition unstarted_class (reason : AuthorityError) : FailureClass.t :=
  match reason with
  | AuthorityError.TargetChanged | AuthorityError.ParametersChanged => FailureClass.TargetChanged
  | AuthorityError.Unavailable _ => FailureClass.Unavailable
  | _ => FailureClass.Refused
  end.
Definition fail_unstarted (id : CommitmentId) (agent : AgentId) (run : RunId) (reason : AuthorityError)
    (now : Now) w : aresult unit * Deferred * CommitWorld S :=
  match own_unconsumed id agent run w with
  | Err error => (Err error, nothing_owed, w)
  | Ok e =>
      let '(e, d) :=
        end_entry id CommitmentState.Failed EvidencePhase.Finished now
          (λ r, push_detail (lit "reason") (AuthorityError.class reason)
             (r <| er_outcome := Some (lit "failed") |>
                <| er_failure := Some (FailureClass.as_str (unstarted_class reason)) |>)) w e nothing_owed in
      (Ok tt, d, put_entry id e w)
  end.
Definition deny (id : CommitmentId) (agent : AgentId) (run : RunId) (now : Now) w
    : aresult unit * Deferred * CommitWorld S :=
  match own_unconsumed id agent run w with
  | Err error => (Err error, nothing_owed, w)
  | Ok e =>
      let '(e, d) :=
        end_entry id CommitmentState.Denied EvidencePhase.Denied now (λ r, r) w e nothing_owed in
      (Ok tt, d, put_entry id e w)
  end.

(** One entry of the loops of [revoke_run] and [revoke_where_in]. *)
Definition revoke_one (pick : RunId → bool) (reason : AuthorityError) (now : Now)
    (wd : CommitWorld S * Deferred) (id : CommitmentId) : CommitWorld S * Deferred :=
  match cw_entries wd.1 !! id with
  | Some e =>
      if pick (ce_run e) && unconsumed (ce_state e) then
        let '(e, d) := end_unconsumed id CommitmentState.Revoked reason now wd.1 e wd.2 in
        (put_entry id e wd.1, d)
      else wd
  | None => wd
  end.
Definition entry_ids w : list CommitmentId := fst <$> map_to_list (cw_entries w).
Definition revoke_where_in (pick : RunId → bool) (reason : AuthorityError) (now : Now) w
    : CommitWorld S * Deferred :=
  foldl (revoke_one pick reason now) (w, nothing_owed) (entry_ids w).
Definition revoke_run (run : RunId) (reason : AuthorityError) : Now → CommitWorld S → CommitWorld S * Deferred :=
  revoke_where_in (λ r, bool_decide (r = run)) reason.
Definition revoke_all : Now → CommitWorld S → CommitWorld S * Deferred :=
  revoke_where_in (λ _, true) AuthorityError.EmergencyStopped.
Definition revoke_runs (runs : gset RunId) (reason : AuthorityError)
    : Now → CommitWorld S → CommitWorld S * Deferred :=
  revoke_where_in (λ r, bool_decide (r ∈ runs)) reason.

(** [sweep]: every unconsumed entry that can no longer start; how many ended. *)
Definition sweep_one (now : Now) (wdn : CommitWorld S * Deferred * Z) (id : CommitmentId)
    : CommitWorld S * Deferred * Z :=
  let '(w, d, n) := wdn in
  match cw_entries w !! id with
  | Some e =>
      if unconsumed (ce_state e) then
        let '(live, e, d) := live_check id (ce_agent e) (ce_run e) now w e d in
        (put_entry id e w, d, match live with Ok _ => n | Err _ => n + 1 end)
      else (w, d, n)
  | None => (w, d, n)
  end.
Definition sweep (now : Now) w : CommitWorld S * Deferred * Z :=
  foldl (sweep_one now) (w, nothing_owed, 0) (entry_ids w).

Definition refuse_pending_install (id : CommitmentId) (now : Now) w : CommitWorld S * Deferred :=
  match cw_entries w !! id with
  | Some e =>
      if negb (CommitmentState.is_final (ce_state e)) then
        let '(e, d) :=
          end_entry id CommitmentState.Revoked EvidencePhase.Revoked now
            (halted_because (lit "pending_effect_refused_halted")) w e nothing_owed in
        (put_entry id e w, d)
      else (w, nothing_owed)
  | None => (w, nothing_owed)
  end.

(** ** Acknowledgements, session requests, reads *)

Definition UNREADABLE_RECORDS : AuthorityError :=
  AuthorityError.Unavailable (lit "the broker cannot read its records").

Definition ack (id : CommitmentId) (agent : AgentId) (owner : GroupId) w : aresult unit * CommitWorld S :=
  if cw_poisoned w then (Err UNREADABLE_RECORDS, w)
  else
    match cw_entries w !! id with
    | None => (Ok tt, w)
    | Some e =>
        if negb (bool_decide (ce_agent e = agent)) then (Err AuthorityError.WrongAgent, w)
        else if negb (bool_decide (ce_pin_owner e = Some owner)) then (Err AuthorityError.NotMember, w)
        else if negb (ce_pinned e) then (Ok tt, w)
        else
          match publication e with
          | PublicationClass.Pending | PublicationClass.Uncertain =>
              (Err (AuthorityError.Unavailable (lit "the commitment's outcome is not conclusive")), w)
          | PublicationClass.Published _ _ | PublicationClass.ConfirmedNotPublished =>
              let '(r, rw) := release (ce_run e) (cw_runs w) in
              let w := w <| cw_runs := rw |> in
              match r with
              | Err error => (Err error, w)
              | Ok _ => (Ok tt, put_entry id (e <| ce_pinned := false |>) w)
              end
          end
    end.

Definition bind_session_request (id : CommitmentId) (agent : AgentId) (run : RunId) (request : HaltCell) w
    : aresult unit * CommitWorld S :=
  if cw_poisoned w then (Err AuthorityError.Halted, w)
  else
    match cw_entries w !! id with
    | None => (Err AuthorityError.UnknownCommitment, w)
    | Some e =>
        if negb (bool_decide (ce_agent e = agent)) || negb (bool_decide (ce_run e = run)) ||
           negb (ce_pinned e) || bool_decide (is_Some (ce_request e)) ||
           negb (bool_decide (ce_state e = CommitmentState.Prepared)) || bool_decide (is_Some (ce_reserved e))
        then (Err AuthorityError.NotPending, w)
        else
          match run_check run agent (Some request) w with
          | Err error => (Err error, w)
          | Ok (cancel, _) =>
              let '(r, rw) := token_admit_host cancel (cw_runs w) in
              let w := w <| cw_runs := rw |> in
              match r with
              | Err error => (Err error, w)
              | Ok _ => (Ok tt, put_entry id (e <| ce_request := Some request |>) w)
              end
          end
    end.

Definition session_request (id : CommitmentId) (run : RunId) w : aresult HaltCell :=
  if cw_poisoned w then Err AuthorityError.Halted
  else
    let? e := ok_or (cw_entries w !! id) AuthorityError.UnknownCommitment in
    if negb (bool_decide (ce_run e = run)) || negb (ce_pinned e) then Err AuthorityError.WrongRun
    else if CommitmentState.is_final (ce_state e) || negb (ce_generation e =? cw_generation w) ||
            existsb (λ g, bool_decide (live_at g (cw_mono w) (cw_wall w) (cw_grants w) = None))
              (pa_grants (ce_prepared e))
    then Err AuthorityError.Stale
    else ok_or (ce_request e) AuthorityError.NotAdmitted.

Definition is_unconsumed (id : CommitmentId) w : bool :=
  match cw_entries w !! id with Some e => unconsumed (ce_state e) | None => false end.

Definition publication_of (id : CommitmentId) w : aresult (option (CommitmentView * PublicationClass.t)) :=
  if cw_poisoned w then Err UNREADABLE_RECORDS
  else Ok ((λ e, (cview id e, publication e)) <$> cw_entries w !! id).

Definition lapse (id : CommitmentId) (now : Now) w : option str :=
  match cw_entries w !! id with
  | None => Some (lit "the action is no longer known")
  | Some e =>
      if negb (bool_decide (ce_state e = CommitmentState.Executing))
      then Some (lit "the action is no longer executing")
      else if negb (forallb (λ g, bool_decide (is_Some (live_at g (nw_mono now) (nw_wall now) (cw_grants w))))
                      (pa_grants (ce_prepared e)))
      then Some (lit "its grant was revoked or expired")
      else if negb (cw_generation w =? ce_generation e)
      then Some (lit "the policy changed (a grant was revoked or every run was stopped)")
      else None
  end.
Definition still_authorized (id : CommitmentId) (now : Now) w : bool := negb (bool_decide (is_Some (lapse id now w))).

Definition expired (id : CommitmentId) (now : Now) w : bool :=
  match cw_entries w !! id with
  | None => true
  | Some e => (ce_deadline_ms e <=? nw_mono now) || (ce_expires_wall_ms e <=? nw_wall now)
  end.
Definition grant_expired (id : CommitmentId) (now : Now) w : bool :=
  match cw_entries w !! id with
  | None => false
  | Some e => existsb (λ g, expired_at g (nw_mono now) (nw_wall now) (cw_grants w)) (pa_grants (ce_prepared e))
  end.
Definition prepared_for (id : CommitmentId) w : option PreparedAction :=
  e ← cw_entries w !! id;
  if bool_decide (ce_state e = CommitmentState.Executing) then Some (ce_prepared e) else None.

(** ** The calls

    A call's holds, with what other threads do before each access ([others]). A hold of a
    poisoned lock panics ([None]): what the call holds is then dropped. *)

Definition held {A} (f : Now → CommitWorld S → aresult A * Deferred * CommitWorld S)
    (others : nat → CommitWorld S → CommitWorld S) (n : nat) w : option (aresult A) * CommitWorld S :=
  let now := now_of w in
  let w := others n w in
  if cw_poisoned w then (None, w)
  else
    let '(r, d, w) := f now w in
    (Some r, (flush d (others (1 + n)%nat w)).2).

(** What follows a reservation: the record, the second half, and the reservation dropped. *)
Definition transition {T} (id : CommitmentId) (token : Z) (record : EvidenceRecord) (cell : option HaltCell)
    (expected : CommitmentState.t) (agent : AgentId) (run : RunId) (finalize : Entry → CancelToken → Entry * T)
    (others : nat → CommitWorld S → CommitWorld S) (n : nat) w : option (aresult (Z * T)) * CommitWorld S :=
  let '(seq, w) := write_gating record (others n w) in
  match seq with
  | Err error => (Some (Err error), reserved_drop id token cell (others (1 + n)%nat w))
  | Ok seq =>
      let '(done, w) := held (complete id token expected agent run finalize) others (2 + n)%nat w in
      (map_ok (λ t, (seq, t)) <$> done, reserved_drop id token cell (others (4 + n)%nat w))
  end.

(** [prepare_leased] with the id and the nonce the system gives ([None]: no randomness). *)
Definition slot_drop_held (slot : option HaltCell) w : CommitWorld S :=
  match slot with Some cell => slot_release cell w | None => w end.
Definition record_preparation (id : CommitmentId) (e : Entry) (slot : option HaltCell) (now : Now)
    (others : nat → CommitWorld S → CommitWorld S) w : option (aresult CommitmentView) * CommitWorld S :=
  let '(seq, w) := write_gating (prepared_record id e now w) (others 6%nat w) in
  match seq with
  | Err error => (Some (Err error), slot_drop_held slot (others 7%nat w))
  | Ok _ =>
      let now := now_of (others 7%nat w) in
      let w := others 8%nat (others 7%nat w) in
      if cw_poisoned w then (None, slot_drop_held slot (others 9%nat w))
      else
        let '(refused, d, w) := insert_commitment id e slot now w in
        let '(_, w) := flush d (others 10%nat w) in
        (Some match refused with Some error => Err error | None => Ok (cview id e) end, w)
  end.
Definition prepare_leased (id : CommitmentId) (nonce : option bytes) (agent : AgentId) (run : RunId)
    (p : PreparedAction) (ttl : Z) (slot : option HaltCell) (others : nat → CommitWorld S → CommitWorld S) w
    : option (aresult CommitmentView) * CommitWorld S :=
  let refuse (error : AuthorityError) w : option (aresult CommitmentView) * CommitWorld S :=
    (Some (Err error), slot_drop_held slot w) in
  match run_check run agent slot w with
  | Err error => refuse error (others 0%nat w)
  | Ok _ =>
      let w := others 0%nat w in
      let privacy := AuthRuns.privacy (cw_runs w) run in
      let w := others 1%nat w in
      match pa_grants p with
      | [] => refuse AuthorityError.NoCoveringGrant w
      | grants =>
          let '(refused, w) := grants_checked others 11 p grants w in
          let w := others 2%nat w in
          match (match refused with Some error => Some error | None => unshowable p end), nonce with
          | Some error, _ => refuse error w
          | None, None => refuse (AuthorityError.Unavailable (lit "no randomness for a commitment")) w
          | None, Some nonce =>
              let now := now_of w in
              let w := others 3%nat w in
              record_preparation id (new_commitment id nonce agent run p ttl privacy now w) slot now others w
          end
      end
  end.
(** [prepare] and [prepare_reserved] (of a slot of this registry): refused, the leases end. *)
Definition prepare (id : CommitmentId) (nonce : option bytes) (agent : AgentId) (run : RunId)
    (p : PreparedAction) (ttl : Z) (slot : option HaltCell) (others : nat → CommitWorld S → CommitWorld S) w
    : option (aresult CommitmentView) * CommitWorld S :=
  let '(r, w) := prepare_leased id nonce agent run p ttl slot others w in
  match r with
  | Some (Err _) => (r, end_leases (pa_leases p) (others 4%nat w))
  | _ => (r, w)
  end.

Definition request_approval (id : CommitmentId) (agent : AgentId) (run : RunId)
    (confirm_action : ActionConfirmation → bool) (others : nat → CommitWorld S → CommitWorld S) w
    : option (aresult R2Approval) * CommitWorld S :=
  let '(asked, w) := held (approval_request id agent run) others 0 w in
  match asked with
  | None => (None, w)
  | Some (Err error) => (Some (Err error), w)
  | Some (Ok (request, binding)) =>
      let '(ready, w) := held (session_confirmation_handoff id agent run binding) others 2 w in
      match ready with
      | None => (None, w)
      | Some (Err error) => (Some (Err error), w)
      | Some (Ok _) =>
          let confirmed := confirm_action request in
          let '(answered, w) := held (approval_answer id agent run binding confirmed) others 5 (others 4%nat w) in
          match answered with
          | None => (None, w)
          | Some (Err error) => (Some (Err error), w)
          | Some (Ok (token, record, cell)) =>
              let '(done, w) :=
                transition id token record cell CommitmentState.Prepared agent run approve_final others 7 w in
              (map_ok (λ _, MkR2Approval id binding) <$> done, w)
          end
      end
  end.

Definition authorize (id : CommitmentId) (agent : AgentId) (run : RunId) (approval : option R2Approval)
    (others : nat → CommitWorld S → CommitWorld S) w : option (aresult unit) * CommitWorld S :=
  let '(reserved, w) := held (authorization id agent run approval) others 0 w in
  match reserved with
  | None => (None, w)
  | Some (Err error) => (Some (Err error), w)
  | Some (Ok (token, approved, record, cell)) =>
      let '(done, w) :=
        transition id token record cell CommitmentState.Prepared agent run (authorize_final approved) others 2 w in
      (map_ok (λ _, tt) <$> done, w)
  end.

Record ExecutionGuard := MkGuard {
  eg_id : CommitmentId;
  eg_cancel : CancelToken;
  eg_started_wall_ms : Z;
  eg_start : Z;
  eg_handoff : Z;
}.
Definition begin (id : CommitmentId) (agent : AgentId) (run : RunId) (revalidated parameters : Digest)
    (others : nat → CommitWorld S → CommitWorld S) w : option (aresult ExecutionGuard) * CommitWorld S :=
  let first now w :=
    let '(r, d, w) := start id agent run revalidated parameters now w in
    (map_ok (λ x, (x, nw_wall now)) r, d, w) in
  let '(reserved, w) := held first others 0 w in
  match reserved with
  | None => (None, w)
  | Some (Err error) => (Some (Err error), w)
  | Some (Ok (token, record, cell, started_wall_ms)) =>
      let '(done, w) :=
        transition id token record cell CommitmentState.Authorized agent run start_final others 2 w in
      (map_ok (λ st, MkGuard id st.2 started_wall_ms st.1 NOT_HANDED_OFF) <$> done, w)
  end.

(** The guard: [handing_off], [proven_not_published], [liveness], [finish] and [Drop]. *)
Definition handing_off (g : ExecutionGuard) : ExecutionGuard :=
  MkGuard (eg_id g) (eg_cancel g) (eg_started_wall_ms g) (eg_start g) HANDED_OFF.
Definition proven_not_published (g : ExecutionGuard) : ExecutionGuard :=
  MkGuard (eg_id g) (eg_cancel g) (eg_started_wall_ms g) (eg_start g) PROVEN_NOT_PUBLISHED.
Definition liveness (g : ExecutionGuard) (now : Now) w : bool :=
  negb (is_cancelled (cw_runs w) (eg_cancel g)) && still_authorized (eg_id g) now w.

(** [CommitmentRegistry::finish]: [None] when its hold panics. *)
Definition finish_call (id : CommitmentId) (started_wall_ms : Z) (o : Outcome.t) (cancelled : bool)
    (handoff : Z) (others : nat → CommitWorld S → CommitWorld S) w : option EndStatus.t * CommitWorld S :=
  let now := now_of w in
  let w := others 0%nat w in
  if cw_poisoned w then (None, w)
  else
    let '(d, w) := finish_hold id started_wall_ms o cancelled handoff now w in
    match d with
    | None => (Some EndStatus.Uncertain, w)
    | Some d =>
        let '(status, w) := flush d (others 1%nat w) in
        (Some (default EndStatus.Uncertain status), w)
    end.
(** A host's finish that panics leaves the guard unfinished: it is abandoned. *)
Definition guard_finish (g : ExecutionGuard) (o : Outcome.t) (others : nat → CommitWorld S → CommitWorld S) w
    : option EndStatus.t * CommitWorld S :=
  let cancelled := is_cancelled (cw_runs w) (eg_cancel g) in
  let '(status, w) :=
    finish_call (eg_id g) (eg_started_wall_ms g) o cancelled (eg_handoff g) others (others 2%nat w) in
  match status with
  | Some status => (Some status, w)
  | None => (None, w <| cw_runs := (abandon_host (eg_cancel g) (cw_runs w)).2 |>)
  end.
Definition ABANDONED : Outcome.t :=
  Outcome.Failed FailureClass.Abandoned (lit "the execution ended without a result").
Definition guard_drop (g : ExecutionGuard) (others : nat → CommitWorld S → CommitWorld S) w
    : option EndStatus.t * CommitWorld S :=
  let '(abandoned, rw) := abandon_host (eg_cancel g) (cw_runs w) in
  let w := w <| cw_runs := rw |> in
  if abandoned then (None, w)
  else
    let cancelled := is_cancelled (cw_runs w) (eg_cancel g) in
    finish_call (eg_id g) (eg_started_wall_ms g) ABANDONED cancelled (eg_handoff g) others (others 2%nat w).
End Holds.
