(* ===== verification/AuthCommitInv.v ===== *)
(** * What a hold of the commitments does

    For every hold of [AuthCommit]: which entries it changes and how, and that what it
    owes is exactly one end record, with the leases, of every commitment it ended. *)

From S2P Require Import Prelude Hash AuthBase AuthText HaltCell AuthGrants AuthHalt AuthRuns AuthRunsInv AuthCommit.

Local Open Scope Z_scope.
Local Open Scope nexus_scope.
#[local] Arguments lit : simpl never.

(** ** How an entry changes *)

(** What a commitment is made with. *)
Record same_made (e e' : Entry) : Prop := {
  sm_agent : ce_agent e' = ce_agent e;
  sm_run : ce_run e' = ce_run e;
  sm_privacy : ce_privacy e' = ce_privacy e;
  sm_prepared : ce_prepared e' = ce_prepared e;
  sm_generation : ce_generation e' = ce_generation e;
  sm_deadline : ce_deadline_ms e' = ce_deadline_ms e;
  sm_created : ce_created_wall_ms e' = ce_created_wall_ms e;
  sm_expires : ce_expires_wall_ms e' = ce_expires_wall_ms e;
  sm_salted : ce_salted e' = ce_salted e;
  sm_binding : ce_binding e' = ce_binding e;
}.
(** What its publication class reads. *)
Record same_outcome (e e' : Entry) : Prop := {
  so_interrupted : ce_interrupted e' = ce_interrupted e;
  so_recovery : ce_recovery_required e' = ce_recovery_required e;
  so_finished : ce_finished_started e' = ce_finished_started e;
  so_failure : ce_failure e' = ce_failure e;
  so_handoff : ce_handoff e' = ce_handoff e;
}.
#[export] Instance same_made_preorder : PreOrder same_made.
Proof. split; [by split|]. intros e1 e2 e3 [] []. split; congruence. Qed.
#[export] Instance same_outcome_preorder : PreOrder same_outcome.
Proof. split; [by split|]. intros e1 e2 e3 [] []. split; congruence. Qed.

Definition same_pin (e e' : Entry) : Prop :=
  ce_pinned e' = ce_pinned e ∧ ce_pin_owner e' = ce_pin_owner e.

(** An entry whose state stays; only its reservation, its request or its pin changes. *)
Record stays (e e' : Entry) : Prop := {
  st_made : same_made e e';
  st_outcome : same_outcome e e';
  st_state : ce_state e' = ce_state e;
  st_approval : ce_approval e' = ce_approval e;
}.

Definition END_PHASES : list EvidencePhase.t :=
  [EvidencePhase.Finished; EvidencePhase.Denied; EvidencePhase.ApprovalDeclined; EvidencePhase.Expired;
   EvidencePhase.Revoked].

Section Records.
Context {crates : Crates}.

(** The record of the end of the commitment [id], made as [e]. *)
Record end_record (id : CommitmentId) (e : Entry) (r : EvidenceRecord) : Prop := {
  en_phase : er_phase r ∈ END_PHASES;
  en_commitment : er_commitment r = Some (CommitmentId_display id);
  en_agent : er_agent r = Some (ce_agent e);
  en_run : er_run r = Some (RunId_display (ce_run e));
  en_privacy : er_privacy r = ce_privacy e;
  en_target : er_target_digest r = Some (Digest_to_hex (ti_digest (pa_target (ce_prepared e))));
  en_parameters : er_parameters_digest r = Some (Digest_to_hex (ce_salted e));
}.

(** How an entry reads once its guard has reported [o], the effect handed off or not as [h] says. *)
Record finished_as (o : Outcome.t) (h : Z) (e : Entry) : Prop := {
  fa_started : ce_finished_started e = true;
  fa_handoff : ce_handoff e = h;
  fa_state : ce_state e = match o with
                          | Outcome.Succeeded _ => CommitmentState.Succeeded
                          | Outcome.Failed _ _ => CommitmentState.Failed
                          | Outcome.Cancelled _ => CommitmentState.Cancelled
                          end;
  fa_failure : ce_failure e = match o with Outcome.Failed class _ => Some class | _ => None end;
  fa_success : ∀ meta, o = Outcome.Succeeded meta →
    ce_recovery_required e = bool_decide ((lit "reason", lit "recovery_required") ∈ take 16 meta) ∧
    ce_interrupted e = filter (λ code, (lit "interrupted", code) ∈ take 16 meta) INTERRUPTIONS;
}.
(** What an end leaves of the outcome: a guard's report ([Some]) sets it, any other end leaves it. *)
Definition outcome_by (fin : option (Outcome.t * Z)) (e e' : Entry) : Prop :=
  match fin with
  | Some (o, h) => ce_state e = CommitmentState.Executing ∧ finished_as o h e'
  | None => same_outcome e e' ∧ ce_state e' ∉ [CommitmentState.Succeeded; CommitmentState.Cancelled] ∧
            (ce_state e = CommitmentState.Executing → ce_state e' = CommitmentState.Revoked)
  end.
(** An entry that ended, and the record owed. *)
Record ends_by (fin : option (Outcome.t * Z)) (id : CommitmentId) (e e' : Entry) (r : EvidenceRecord) : Prop := {
  ed_made : same_made e e';
  ed_open : CommitmentState.is_final (ce_state e) = false;
  ed_final : CommitmentState.is_final (ce_state e') = true;
  ed_reserved : ce_reserved e' = None;
  ed_approval : ce_approval e' = ce_approval e;
  ed_pin : same_pin e e';
  ed_record : end_record id e r;
  ed_outcome : outcome_by fin e e';
}.

Definition leases_of (e : Entry) : list LeaseId := pa_leases (ce_prepared e).
(** One entry's part of a hold. *)
Definition entry_step (fin : option (Outcome.t * Z)) (id : CommitmentId) (e e' : Entry) (d d' : Deferred) : Prop :=
  (stays e e' ∧ same_pin e e' ∧ d' = d) ∨ (∃ r, ends_by fin id e e' r ∧ d' = owe r (leases_of e) d).

Lemma stays_refl e : stays e e.
Proof. by split. Qed.

Lemma entry_step_refl fin id e d : entry_step fin id e e d d.
Proof. left. split; [apply stays_refl|]. by split. Qed.

(** What a hold owes, over the whole table. *)
Definition accounts (fin : option (Outcome.t * Z)) (m m' : gmap CommitmentId Entry) (d : Deferred) : Prop :=
  ∃ ended : list (CommitmentId * EvidenceRecord),
    NoDup ended.*1 ∧ df_records d = ended.*2 ∧
    df_leases d = (ended.*1 ≫= λ id, from_option leases_of [] (m !! id)) ∧
    ∀ id,
      match m !! id, m' !! id with
      | Some e, Some e' =>
          (id ∉ ended.*1 ∧ stays e e' ∧ same_pin e e') ∨ (∃ r, (id, r) ∈ ended ∧ ends_by fin id e e' r)
      | None, None => id ∉ ended.*1
      | _, _ => False
      end.

Lemma accounts_refl fin m : accounts fin m m nothing_owed.
Proof.
  exists []. repeat split; try constructor. intros id. destruct (m !! id); [|set_solver].
  left. split; [set_solver|]. split; [apply stays_refl|by split].
Qed.

Lemma accounts_one fin m id e e' d :
  m !! id = Some e → entry_step fin id e e' nothing_owed d → accounts fin m (<[id := e']> m) d.
Proof.
  intros He [(Hs & Hp & ->)|(r & Hr & ->)].
  - exists []. repeat split; try constructor. intros k. destruct (decide (k = id)) as [->|Hk].
    + rewrite lookup_insert_eq, He. left. split; [set_solver|by split].
    + rewrite lookup_insert_ne by done. destruct (m !! k); [|set_solver].
      left. split; [set_solver|]. split; [apply stays_refl|by split].
  - exists [(id, r)]. repeat split; simpl.
    + apply NoDup_singleton.
    + by rewrite He, app_nil_r.
    + intros k. destruct (decide (k = id)) as [->|Hk].
      * rewrite lookup_insert_eq, He. right. exists r. split; [set_solver|done].
      * rewrite lookup_insert_ne by done. destruct (m !! k); [|set_solver].
        left. split; [set_solver|]. split; [apply stays_refl|by split].
Qed.

(** One more entry, untouched so far. *)
Lemma accounts_step fin m m' d id e e' d' :
  accounts fin m m' d → m !! id = Some e → m' !! id = Some e → CommitmentState.is_final (ce_state e) = false →
  entry_step fin id e e' d d' → accounts fin m (<[id := e']> m') d'.
Proof.
  intros (ended & Hnd & Hrec & Hlease & Hids) He He' Hopen Hstep.
  assert (Hnot : id ∉ ended.*1).
  { specialize (Hids id). rewrite He, He' in Hids. destruct Hids as [[? _]|(r & _ & [])]; [done|congruence]. }
  destruct Hstep as [(Hs & Hp & ->)|(r & Hr & ->)].
  - exists ended. repeat split; try done. intros k. specialize (Hids k).
    destruct (decide (k = id)) as [->|Hk]; [|by rewrite lookup_insert_ne].
    rewrite lookup_insert_eq, He. left. done.
  - exists (ended ++ [(id, r)]). rewrite !fmap_app. simpl. repeat split.
    + apply NoDup_app. split; [done|]. split; [set_solver|apply NoDup_singleton].
    + by rewrite Hrec.
    + rewrite bind_app, Hlease. simpl. by rewrite He, app_nil_r.
    + intros k. specialize (Hids k). destruct (decide (k = id)) as [->|Hk].
      * rewrite lookup_insert_eq, He. right. exists r. split; [set_solver|done].
      * rewrite lookup_insert_ne by done. destruct (m !! k) as [ek|], (m' !! k) as [ek'|]; try done.
        -- destruct Hids as [[? ?]|(r' & ? & ?)]; [left; split; [set_solver|done]|right; exists r'; set_solver].
        -- set_solver.
Qed.
End Records.

(** ** Ending one entry *)

Lemma unconsumed_open s : unconsumed s = true → CommitmentState.is_final s = false.
Proof. by destruct s. Qed.

Section Ends.
Context {crates : Crates} {S : Type} {sink : EvidenceSink S}.
Implicit Types w : CommitWorld S.

(** What an end's adjustment leaves of its record. *)
Record same_identity (r r' : EvidenceRecord) : Prop := {
  si_phase : er_phase r' = er_phase r;
  si_commitment : er_commitment r' = er_commitment r;
  si_agent : er_agent r' = er_agent r;
  si_run : er_run r' = er_run r;
  si_privacy : er_privacy r' = er_privacy r;
  si_target : er_target_digest r' = er_target_digest r;
  si_parameters : er_parameters_digest r' = er_parameters_digest r;
}.

#[local] Instance same_identity_preorder : PreOrder same_identity.
Proof. split; [by split|]. intros r1 r2 r3 [] []. split; congruence. Qed.

Lemma push_identity k v r : same_identity r (push_detail k v r).
Proof. split; reflexivity. Qed.

Lemma base_record_end phase id e0 e now w r :
  phase ∈ END_PHASES → same_made e0 e → same_identity (base_record phase id e now w) r → end_record id e0 r.
Proof. intros Hp [] []. split; simpl in *; congruence. Qed.

Lemma end_entry_ends fin id state phase now adjust w e0 e d e' d' :
  CommitmentState.is_final (ce_state e0) = false → CommitmentState.is_final state = true →
  phase ∈ END_PHASES → (∀ r, same_identity r (adjust r)) →
  same_made e0 e → ce_approval e = ce_approval e0 → same_pin e0 e →
  outcome_by fin e0 (e <| ce_state := state |> <| ce_reserved := None |>) →
  end_entry id state phase now adjust w e d = (e', d') →
  ∃ r, ends_by fin id e0 e' r ∧ d' = owe r (leases_of e0) d.
Proof.
  intros Hopen Hfinal Hphase Hadjust Hmade Happ Hpin Hout E. unfold end_entry in E. simplify_eq.
  eexists. split; [|unfold leases_of; simpl; by rewrite (sm_prepared _ _ Hmade)].
  split; try done.
  - destruct Hmade. by split.
  - eapply (base_record_end _ _ _ (e <| ce_state := state |> <| ce_reserved := None |>) now w); [done| |].
    + destruct Hmade. by split.
    + etrans; [|apply Hadjust]. destruct (ce_reserved e); [apply push_identity|reflexivity].
Qed.

Lemma end_unconsumed_ends id state reason now w e d e' d' :
  unconsumed (ce_state e) = true →
  state ∈ [CommitmentState.Expired; CommitmentState.Revoked] →
  end_unconsumed id state reason now w e d = (e', d') → ∃ r, ends_by None id e e' r ∧ d' = owe r (leases_of e) d.
Proof.
  intros Hun Hstate E. unfold end_unconsumed in E. pose proof (unconsumed_open _ Hun).
  eapply end_entry_ends in E; try done.
  - set_unfold in Hstate. by destruct Hstate as [->|[->|]].
  - unfold END_PHASES. rewrite !elem_of_cons. case_bool_decide; tauto.
  - intros r. repeat case_match; split; reflexivity.
  - split; [done|]. split; [simpl; set_unfold in Hstate; destruct Hstate as [->|[->|]]; set_solver|].
    intros E0. by rewrite E0 in Hun.
Qed.

(** An end that leaves the outcome. *)
Definition EARLY : list (CommitmentState.t * EvidencePhase.t) :=
  [(CommitmentState.Failed, EvidencePhase.Finished); (CommitmentState.Denied, EvidencePhase.Denied);
   (CommitmentState.Denied, EvidencePhase.ApprovalDeclined); (CommitmentState.Revoked, EvidencePhase.Revoked)].
Lemma early_end id state phase now adjust w e d e' d' :
  CommitmentState.is_final (ce_state e) = false → bool_decide ((state, phase) ∈ EARLY) = true →
  (ce_state e = CommitmentState.Executing → state = CommitmentState.Revoked) →
  (∀ r, same_identity r (adjust r)) →
  end_entry id state phase now adjust w e d = (e', d') → ∃ r, ends_by None id e e' r ∧ d' = owe r (leases_of e) d.
Proof.
  intros Hopen Hin Hex Hadj E. apply bool_decide_eq_true in Hin. unfold EARLY in Hin.
  rewrite !elem_of_cons, elem_of_nil in Hin.
  eapply end_entry_ends; try exact E; try done.
  - naive_solver.
  - unfold END_PHASES. rewrite !elem_of_cons. naive_solver.
  - split; [done|]. split; [|done]. simpl. rewrite !elem_of_cons, elem_of_nil. naive_solver.
Qed.

#[local] Opaque end_unconsumed.
Lemma live_check_spec id agent run now w e d r e' d' :
  unconsumed (ce_state e) = true → live_check id agent run now w e d = (r, e', d') →
  match r with
  | Ok cancel =>
      e' = e ∧ d' = d ∧ ce_agent e = agent ∧ ce_run e = run ∧ lapsed e now w = None ∧
      ∃ owner, run_check run agent (ce_request e) w = Ok (cancel, owner)
  | Err _ => entry_step None id e e' d d'
  end.
Proof.
  intros Hun. unfold live_check.
  case_bool_decide as Ha; simpl; [|intros [= <- <- <-]; apply entry_step_refl].
  case_bool_decide as Hr; simpl; [|intros [= <- <- <-]; apply entry_step_refl].
  destruct (run_check run agent (ce_request e) w) as [[cancel owner]|error] eqn:Ec.
  - destruct (lapsed e now w) as [[state error]|] eqn:El.
    + destruct (end_unconsumed id state error now w e d) as [e1 d1] eqn:Eu. intros [= <- <- <-].
      right. eapply end_unconsumed_ends; [done| |exact Eu].
      unfold lapsed in El. repeat case_match; simplify_eq; rewrite !elem_of_cons; tauto.
    + intros [= <- <- <-]. eauto 10.
  - destruct (end_unconsumed id _ error now w e d) as [e1 d1] eqn:Eu. intros [= <- <- <-].
    right. eapply end_unconsumed_ends; [done| |exact Eu]. rewrite !elem_of_cons. tauto.
Qed.
End Ends.

(** ** The holds *)

Definition retained_of (rw : RunWorld) (run : RunId) : Z := from_option re_retained 0 (rw_runs rw !! run).

Section Holds.
Context {crates : Crates} {S : Type} {sink : EvidenceSink S}.
Implicit Types w : CommitWorld S.

(** What the holds of the entries leave alone. *)
Record frame w w' : Prop := {
  fr_poisoned : cw_poisoned w' = cw_poisoned w;
  fr_preparations : cw_preparations w' = cw_preparations w;
  fr_generation : cw_generation w' = cw_generation w;
  fr_grants : cw_grants w' = cw_grants w;
  fr_sink : cw_sink w' = cw_sink w;
  fr_mono : cw_mono w' = cw_mono w;
  fr_wall : cw_wall w' = cw_wall w;
  fr_leases : cw_lease_ends w' = cw_lease_ends w;
  fr_retained : ∀ run, retained_of (cw_runs w') run = retained_of (cw_runs w) run;
}.
Record hold_by (fin : option (Outcome.t * Z)) w (d : Deferred) w' : Prop := {
  ho_frame : frame w w';
  ho_accounts : accounts fin (cw_entries w) (cw_entries w') d;
}.

#[local] Notation hold_ok := (hold_by None).
Lemma frame_refl w : frame w w.
Proof. by split. Qed.
Lemma hold_ok_refl w : hold_ok w nothing_owed w.
Proof. split; [apply frame_refl|apply accounts_refl]. Qed.

Lemma frame_runs w rw : same_tables (cw_runs w) rw → frame w (w <| cw_runs := rw |>).
Proof. intros (E & _). split; try done. intros run. unfold retained_of. simpl. by rewrite E. Qed.
Lemma frame_put w id e w' : frame w w' → frame w (put_entry id e w').
Proof. intros []. by split. Qed.

Lemma put_ok fin w w' id e e' d :
  cw_entries w !! id = Some e → entry_step fin id e e' nothing_owed d → frame w w' → cw_entries w' = cw_entries w →
  hold_by fin w d (put_entry id e' w').
Proof.
  intros He Hs Hf E. split; [by apply frame_put|]. simpl. rewrite E. by eapply accounts_one.
Qed.

Lemma token_admit_same t rw r rw' : token_admit_host t rw = (r, rw') → same_tables rw rw'.
Proof.
  unfold token_admit_host. destruct (ct_cell t) as [cell|]; [|by intros [= _ <-]].
  destruct (host cell); [|by destruct (is_engaged _ _); intros [= _ <-]].
  destruct (flag rw _); [by intros [= _ <-]|]. apply at_cells_same.
Qed.

(** A reservation made or withdrawn. *)
Lemma reserve_step fin id e z : entry_step fin id e (e <| ce_reserved := z |>) nothing_owed nothing_owed.
Proof. left. repeat split. Qed.
Lemma frame_reserve w n : frame w (w <| cw_transitions := n |>).
Proof. by split. Qed.

Lemma entry_step_withdrawn id e e' d d' :
  CommitmentState.is_final (ce_state e) = false →
  entry_step None id e e' d d' → entry_step None id e (e' <| ce_reserved := None |>) d d'.
Proof.
  intros Hopen [([] & [] & ->)|(r & [] & ->)].
  - left. split; [|by split]. split; [by destruct st_made0; split|by destruct st_outcome0; split|done|done].
  - right. exists r. split; [|done]. split; try done.
    + by destruct ed_made0; split.
    + destruct ed_outcome0 as ([] & ? & ?). split; [by split|done].
Qed.

#[local] Opaque end_entry end_unconsumed live_check.

(** The guards of the holds: an entry in the state asked for. *)
Lemma guard_state e s (rest : bool) :
  negb (bool_decide (ce_state e = s)) || rest = false → ce_state e = s ∧ rest = false.
Proof. case_bool_decide; simpl; [by intros ->|done]. Qed.

Lemma complete_spec {T} id token expected agent run (finalize : Entry → CancelToken → Entry * T) now w r d w' :
  unconsumed expected = true → complete id token expected agent run finalize now w = (r, d, w') →
  match r with
  | Ok t =>
      ∃ e cancel owner rw,
        cw_entries w !! id = Some e ∧ reserved_by e token = true ∧ ce_state e = expected ∧
        ce_agent e = agent ∧ ce_run e = run ∧ run_check run agent (ce_request e) w = Ok (cancel, owner) ∧
        lapsed e now w = None ∧ token_admit_host cancel (cw_runs w) = (Ok tt, rw) ∧ d = nothing_owed ∧
        w' = put_entry id (finalize (e <| ce_reserved := None |>) cancel).1 (w <| cw_runs := rw |>) ∧
        t = (finalize (e <| ce_reserved := None |>) cancel).2
  | Err _ => hold_ok w d w'
  end.
Proof.
  intros Hun. unfold complete. destruct (cw_entries w !! id) as [e|] eqn:He; [|intros [= <- <- <-]; apply hold_ok_refl].
  destruct (negb _ || _) eqn:Eg; [intros [= <- <- <-]; apply hold_ok_refl|].
  apply orb_false_elim in Eg as [Ht%negb_false_iff Hs%negb_false_iff%bool_decide_eq_true].
  assert (Hun' : unconsumed (ce_state e) = true) by by rewrite Hs.
  pose proof (unconsumed_open _ Hun') as Hopen.
  destruct (live_check id agent run now w e nothing_owed) as [[live e1] d1] eqn:El.
  apply live_check_spec in El; [|done]. destruct live as [cancel|error].
  - destruct El as (-> & -> & Ha & Hr & Hl & owner & Hc).
    destruct (token_admit_host cancel (cw_runs w)) as [[[]|error] rw] eqn:Et.
    + destruct (finalize _ _) as [e2 t] eqn:Ef. intros [= <- <- <-].
      exists e, cancel, owner, rw. rewrite Ef. done.
    + destruct (end_entry _ _ _ _ _ _ _ _) as [e2 d2] eqn:Ee. intros [= <- <- <-].
      eapply put_ok; [done| |apply frame_runs; by eapply token_admit_same|done].
      right. eapply early_end; [done| | | |exact Ee]; [done|intros E; by rewrite E in Hun'|]. split; reflexivity.
  - intros [= <- <- <-]. eapply put_ok; [done| |apply frame_refl|done]. by apply entry_step_withdrawn.
Qed.

Lemma reserved_drop_ok id token cell w :
  cw_poisoned w = false → hold_ok w nothing_owed (reserved_drop id token cell w).
Proof.
  intros Hp. unfold reserved_drop. rewrite Hp. destruct (cw_entries w !! id) as [e|] eqn:He; [|apply hold_ok_refl].
  destruct (reserved_by e token); [|apply hold_ok_refl].
  eapply put_ok; [done|apply reserve_step|apply frame_refl|done].
Qed.

(** The holds that reserve a transition. *)
Lemma approval_answer_ok id agent run binding confirmed now w r d w' :
  approval_answer id agent run binding confirmed now w = (r, d, w') →
  hold_ok w d w' ∧
  ∀ x, r = Ok x → confirmed = true ∧ ∃ e, cw_entries w !! id = Some e ∧ ce_binding e = binding ∧
                  ce_agent e = agent ∧ ce_run e = run.
Proof.
  unfold approval_answer. destruct (cw_entries w !! id) as [e|] eqn:He; [|intros [= <- <- <-]; split; [apply hold_ok_refl|done]].
  destruct (_ || _ || _) eqn:Eg; [intros [= <- <- <-]; split; [apply hold_ok_refl|done]|].
  apply orb_false_elim in Eg as [[Hs%negb_false_iff%bool_decide_eq_true Hb%negb_false_iff%bool_decide_eq_true]%orb_false_elim _].
  assert (Hun' : unconsumed (ce_state e) = true) by by rewrite Hs.
  pose proof (unconsumed_open _ Hun') as Hopen.
  destruct (live_check id agent run now w e nothing_owed) as [[live e1] d1] eqn:El.
  apply live_check_spec in El; [|done]. destruct live as [cancel|error].
  - destruct El as (-> & -> & Ha & Hr & Hl & owner & Hc). destruct confirmed; simpl.
    + intros [= <- <- <-]. split; [|eauto 10].
      eapply put_ok; [done|apply reserve_step|apply frame_reserve|done].
    + destruct (end_entry _ _ _ _ _ _ _ _) as [e2 d2] eqn:Ee. intros [= <- <- <-]. split; [|done].
      eapply put_ok; [done| |apply frame_refl|done].
      right. eapply early_end; [done| | | |exact Ee]; [done|intros E; by rewrite E in Hun'|]. split; reflexivity.
  - intros [= <- <- <-]. split; [|done]. eapply put_ok; [done|done|apply frame_refl|done].
Qed.
(** A hold that leaves everything. *)
Ltac unchanged := intros [= <- <- <-]; split; [apply hold_ok_refl|done].
(** The live check of the entry [e] found at [id]. *)
Ltac checked id agent run now w e :=
  let live := fresh "live" in let e1 := fresh "e1" in let d1 := fresh "d1" in let El := fresh "El" in
  destruct (live_check id agent run now w e nothing_owed) as [[live e1] d1] eqn:El;
  apply live_check_spec in El; [destruct live as [cancel|error]; [destruct El as (-> & -> & Ha & Hr & Hl & owner & Hc)|]|].

Lemma approval_request_ok id agent run now w r d w' :
  approval_request id agent run now w = (r, d, w') →
  hold_ok w d w' ∧
  ∀ request binding, r = Ok (request, binding) →
    ∃ e secs, cw_entries w !! id = Some e ∧ requires_native_approval (pa_class (ce_prepared e)) = true ∧
      binding = ce_binding e ∧
      request = MkActionConfirmation (CommitmentId_display id) (pa_class (ce_prepared e)) (pa_kind (ce_prepared e))
        (pa_operation (ce_prepared e)) (bounded (ti_display (pa_target (ce_prepared e)))) (ce_agent e)
        (RunId_display (ce_run e)) (bounded <$> pa_summary (ce_prepared e)) secs (Digest_short (ce_binding e)).
Proof.
  unfold approval_request. destruct (cw_entries w !! id) as [e|] eqn:He; [|unchanged].
  destruct (negb _ || _) eqn:Eg; [unchanged|]. apply guard_state in Eg as [Hs _].
  checked id agent run now w e; [| |by rewrite Hs].
  - assert (hold_ok w nothing_owed (put_entry id e w)).
    { eapply put_ok; [done|apply entry_step_refl|apply frame_refl|done]. }
    destruct (requires_native_approval _) eqn:Hreq; simpl; intros [= <- <- <-]; (split; [done|]); [|done].
    intros ? ? [= <- <-]. eauto 10.
  - intros [= <- <- <-]. split; [|done]. eapply put_ok; [done|done|apply frame_refl|done].
Qed.

Lemma handoff_ok id agent run binding now w r d w' :
  session_confirmation_handoff id agent run binding now w = (r, d, w') → hold_ok w d w'.
Proof.
  unfold session_confirmation_handoff. destruct (cw_entries w !! id) as [e|] eqn:He; [|intros [= <- <- <-]; apply hold_ok_refl].
  destruct (negb _); [intros [= <- <- <-]; apply hold_ok_refl|].
  destruct (_ || _ || _) eqn:Eg; [intros [= <- <- <-]; apply hold_ok_refl|].
  apply orb_false_elim in Eg as [[_ Hs%negb_false_iff%bool_decide_eq_true]%orb_false_elim _].
  checked id agent run now w e; [| |by rewrite Hs].
  - destruct (token_admit_host _ _) as [r1 rw] eqn:Et. intros [= <- <- <-].
    change (put_entry id e w <| cw_runs := rw |>) with (put_entry id e (w <| cw_runs := rw |>)).
    eapply put_ok; [done|apply entry_step_refl|apply frame_runs; by eapply token_admit_same|done].
  - intros [= <- <- <-]. eapply put_ok; [done|done|apply frame_refl|done].
Qed.

(** The approval an authorization goes by. *)
Lemma authorization_ok id agent run approval now w r d w' :
  authorization id agent run approval now w = (r, d, w') →
  hold_ok w d w' ∧
  ∀ token approved record cell, r = Ok (token, approved, record, cell) →
    ∃ e, cw_entries w !! id = Some e ∧ ce_agent e = agent ∧ ce_run e = run ∧
      if requires_native_approval (pa_class (ce_prepared e))
      then approval = Some (MkR2Approval id (ce_binding e)) ∧ approved = Some (ce_binding e)
      else approval = None ∧ approved = None.
Proof.
  unfold authorization. destruct (cw_entries w !! id) as [e|] eqn:He; [|unchanged].
  destruct (negb _ || _) eqn:Eg; [unchanged|]. apply guard_state in Eg as [Hs _].
  checked id agent run now w e; [| |by rewrite Hs].
  - assert (hold_ok w nothing_owed (put_entry id e w)).
    { eapply put_ok; [done|apply entry_step_refl|apply frame_refl|done]. }
    assert (∀ n z, hold_ok w nothing_owed (put_entry id (e <| ce_reserved := Some z |>) (w <| cw_transitions := n |>))).
    { intros n z. eapply put_ok; [done|apply reserve_step|apply frame_reserve|done]. }
    simpl. destruct (requires_native_approval _) eqn:Hreq; destruct approval as [[c b]|]; simpl;
      try (intros [= <- <- <-]; split; [done|naive_solver]).
    + destruct (bool_decide _ && _) eqn:Em; simpl; intros [= <- <- <-]; (split; [done|]); [|naive_solver].
      apply andb_true_iff in Em as [->%bool_decide_eq_true ->%bool_decide_eq_true].
      intros ? ? ? ? [= <- <- <- <-]. exists e. rewrite Hreq. done.
    + intros [= <- <- <-]. split; [done|]. intros ? ? ? ? [= <- <- <- <-]. exists e. rewrite Hreq. done.
  - intros [= <- <- <-]. split; [|done]. eapply put_ok; [done|done|apply frame_refl|done].
Qed.

Lemma early_end_ok id state phase now adjust w e e' d :
  cw_entries w !! id = Some e → CommitmentState.is_final (ce_state e) = false →
  bool_decide ((state, phase) ∈ EARLY) = true →
  (ce_state e = CommitmentState.Executing → state = CommitmentState.Revoked) → (∀ r, same_identity r (adjust r)) →
  end_entry id state phase now adjust w e nothing_owed = (e', d) → hold_ok w d (put_entry id e' w).
Proof.
  intros He Hopen Hin Hex Hadj E. eapply put_ok; [done| |apply frame_refl|done]. right. by eapply early_end.
Qed.

Lemma start_ok id agent run revalidated parameters now w r d w' :
  start id agent run revalidated parameters now w = (r, d, w') →
  hold_ok w d w' ∧
  ∀ token record cell, r = Ok (token, record, cell) →
    ∃ e n, cw_entries w !! id = Some e ∧ ce_agent e = agent ∧ ce_run e = run ∧
      ti_digest (pa_target (ce_prepared e)) = revalidated ∧ pa_parameters (ce_prepared e) = parameters ∧
      record = base_record EvidencePhase.Started id (e <| ce_reserved := Some (MkReservation token Transition.Start) |>)
                 now (w <| cw_transitions := n |>) <| er_started_wall_ms := Some (nw_wall now) |>.
Proof.
  unfold start. destruct (cw_entries w !! id) as [e|] eqn:He; [|unchanged].
  destruct (negb _ || _) eqn:Eg; [unchanged|]. apply guard_state in Eg as [Hs _].
  checked id agent run now w e; [| |by rewrite Hs].
  - case_bool_decide as Ht; simpl; [case_bool_decide as Hpar; simpl|].
    + intros [= <- <- <-]. split; [|intros ? ? ? [= <- <- <-]; eauto 10].
      eapply put_ok; [done|apply reserve_step|apply frame_reserve|done].
    + destruct (end_entry _ _ _ _ _ _ _ _) as [e2 d2] eqn:Ee. intros [= <- <- <-]. split; [|done].
      eapply early_end_ok; [done|by rewrite Hs| | | |exact Ee]; [done|intros E; by rewrite E in Hs|]. split; reflexivity.
    + destruct (end_entry _ _ _ _ _ _ _ _) as [e2 d2] eqn:Ee. intros [= <- <- <-]. split; [|done].
      eapply early_end_ok; [done|by rewrite Hs| | | |exact Ee]; [done|intros E; by rewrite E in Hs|]. split; reflexivity.
  - intros [= <- <- <-]. split; [|done]. eapply put_ok; [done|done|apply frame_refl|done].
Qed.
(** The holds that end commitments. *)
Lemma finish_record_identity o started cancelled now r : same_identity r (finish_record o started cancelled now r).
Proof. unfold finish_record. destruct o as [meta|[] detail|[detail|]]; split; reflexivity. Qed.
Lemma finish_entry_made o handoff e : same_made e (finish_entry o handoff e).
Proof. destruct o; split; reflexivity. Qed.

Lemma reports_elem meta key value : reports meta key value = bool_decide ((key, value) ∈ take 16 meta).
Proof.
  unfold reports. induction (take 16 meta) as [|[k v] l IH]; [done|]. simpl. rewrite IH.
  do 4 case_bool_decide; try done; set_solver.
Qed.
Lemma finish_entry_finished o handoff e :
  finished_as o handoff (finish_entry o handoff e <| ce_state := (outcome_state o).1.1 |> <| ce_reserved := None |>).
Proof.
  destruct o as [meta|[] detail|detail]; split; try done. intros ? [= <-]. simpl. rewrite reports_elem. split; [done|].
  apply list_filter_iff. intros code. by rewrite reports_elem, bool_decide_eq_true.
Qed.
Lemma finish_hold_ok id started o cancelled handoff now w d w' :
  finish_hold id started o cancelled handoff now w = (d, w') →
  match d with
  | None => w' = w
  | Some d =>
      hold_by (Some (o, handoff)) w d w' ∧
      ∃ e e', cw_entries w !! id = Some e ∧ ce_state e = CommitmentState.Executing ∧
        w' = put_entry id e' w ∧ finished_as o handoff e'
  end.
Proof.
  unfold finish_hold. destruct (cw_entries w !! id) as [e|] eqn:He; [|by intros [= <- <-]].
  case_bool_decide as Hs; [|by intros [= <- <-]]. pose proof (finish_entry_finished o handoff e) as Hfin.
  destruct (outcome_state o) as [[state oc] failure] eqn:Eo.
  destruct (end_entry _ _ _ _ _ _ _ _) as [e2 d2] eqn:Ee. intros [= <- <-].
  assert (e2 = finish_entry o handoff e <| ce_state := state |> <| ce_reserved := None |>) as E2.
  { Transparent end_entry. unfold end_entry in Ee. by injection Ee as <- <-. }
  split; [|exists e, e2; by rewrite E2].
  eapply put_ok; [done| |apply frame_refl|done]. right.
  eapply end_entry_ends in Ee; [exact Ee| | | | | | | |].
  - by rewrite Hs.
  - destruct o as [meta|[] detail|detail]; by simplify_eq/=.
  - unfold END_PHASES. rewrite !elem_of_cons. tauto.
  - intros r. apply finish_record_identity.
  - apply finish_entry_made.
  - by destruct o.
  - by destruct o.
  - by split.
Qed.
#[local] Opaque end_entry.

Lemma own_unconsumed_spec id agent run w e :
  own_unconsumed id agent run w = Ok e → cw_entries w !! id = Some e ∧ unconsumed (ce_state e) = true.
Proof.
  unfold own_unconsumed. destruct (cw_entries w !! id) as [e'|]; [|done]. simpl.
  case_bool_decide; [|done]. case_bool_decide; [|done]. simpl.
  destruct (unconsumed _) eqn:Hun; [|done]. by intros [= <-].
Qed.

Lemma fail_unstarted_ok id agent run reason now w r d w' :
  fail_unstarted id agent run reason now w = (r, d, w') → hold_ok w d w'.
Proof.
  unfold fail_unstarted. destruct (own_unconsumed id agent run w) as [e|error] eqn:Eo; [|intros [= <- <- <-]; apply hold_ok_refl].
  apply own_unconsumed_spec in Eo as [He Hun]. pose proof (unconsumed_open _ Hun).
  destruct (end_entry _ _ _ _ _ _ _ _) as [e2 d2] eqn:Ee. intros [= <- <- <-].
  eapply early_end_ok; [done|done| | | |exact Ee]; [done|intros E; by rewrite E in Hun|]. split; reflexivity.
Qed.

Lemma deny_ok id agent run now w r d w' : deny id agent run now w = (r, d, w') → hold_ok w d w'.
Proof.
  unfold deny. destruct (own_unconsumed id agent run w) as [e|error] eqn:Eo; [|intros [= <- <- <-]; apply hold_ok_refl].
  apply own_unconsumed_spec in Eo as [He Hun]. pose proof (unconsumed_open _ Hun).
  destruct (end_entry _ _ _ _ _ _ _ _) as [e2 d2] eqn:Ee. intros [= <- <- <-].
  eapply early_end_ok; [done|done| | | |exact Ee]; [done|intros E; by rewrite E in Hun|]. split; reflexivity.
Qed.

Lemma refuse_pending_ok id now w w' d : refuse_pending_install id now w = (w', d) → hold_ok w d w'.
Proof.
  unfold refuse_pending_install. destruct (cw_entries w !! id) as [e|] eqn:He; [|intros [= <- <-]; apply hold_ok_refl].
  destruct (CommitmentState.is_final _) eqn:Hopen; simpl; [intros [= <- <-]; apply hold_ok_refl|].
  destruct (end_entry _ _ _ _ _ _ _ _) as [e2 d2] eqn:Ee. intros [= <- <-].
  eapply early_end_ok; [done|done| | | |exact Ee]; [done|done|]. split; reflexivity.
Qed.

Lemma bind_request_ok id agent run request w r w' :
  bind_session_request id agent run request w = (r, w') → hold_ok w nothing_owed w'.
Proof.
  unfold bind_session_request. destruct (cw_poisoned w); [intros [= <- <-]; apply hold_ok_refl|].
  destruct (cw_entries w !! id) as [e|] eqn:He; [|intros [= <- <-]; apply hold_ok_refl].
  destruct (_ || _); [intros [= <- <-]; apply hold_ok_refl|].
  destruct (run_check _ _ _ _) as [[cancel owner]|]; [|intros [= <- <-]; apply hold_ok_refl].
  destruct (token_admit_host cancel (cw_runs w)) as [[[]|] rw] eqn:Et; apply token_admit_same in Et; intros [= <- <-].
  - eapply put_ok; [done| |by apply frame_runs|done]. left. repeat split.
  - split; [by apply frame_runs|apply accounts_refl].
Qed.

(** The loops over the table: every entry once. *)
Lemma loop_accounts (step : CommitWorld S * Deferred → CommitmentId → CommitWorld S * Deferred) w0 :
  (∀ w d id w' d',
     frame w0 w → step (w, d) id = (w', d') →
     (w' = w ∧ d' = d) ∨
     ∃ e e', cw_entries w !! id = Some e ∧ CommitmentState.is_final (ce_state e) = false ∧
       w' = put_entry id e' w ∧ entry_step None id e e' d d') →
  ∀ ids w d w' d',
    NoDup ids → frame w0 w → accounts None (cw_entries w0) (cw_entries w) d →
    (∀ id, id ∈ ids → cw_entries w !! id = cw_entries w0 !! id) →
    foldl step (w, d) ids = (w', d') → frame w0 w' ∧ accounts None (cw_entries w0) (cw_entries w') d'.
Proof.
  intros Hstep ids. induction ids as [|id ids IH]; intros w d w' d' Hnd Hf Ha Hsame E; simpl in E.
  { by simplify_eq. }
  apply NoDup_cons in Hnd as [Hid Hnd]. destruct (step (w, d) id) as [w1 d1] eqn:E1.
  apply Hstep in E1; [|done]. destruct E1 as [[-> ->]|(e & e' & He & Hopen & -> & Hes)].
  - eapply IH; [done|done|done| |exact E]. intros k Hk. apply Hsame. by right.
  - eapply IH; [done|by apply frame_put| | |exact E].
    + simpl. eapply accounts_step; [done| |done|done|done].
      rewrite <- He. symmetry. apply Hsame. by left.
    + intros k Hk. simpl. rewrite lookup_insert_ne by (intros ->; done). apply Hsame. by right.
Qed.

Lemma entry_ids_nodup w : NoDup (entry_ids w).
Proof. apply NoDup_fst_map_to_list. Qed.

Lemma revoke_where_ok pick reason now w w' d : revoke_where_in pick reason now w = (w', d) → hold_ok w d w'.
Proof.
  unfold revoke_where_in. intros E. eapply loop_accounts in E;
    [destruct E; by split| |apply entry_ids_nodup|apply frame_refl|apply accounts_refl|done].
  clear E. intros w1 d1 id w2 d2 Hf E. unfold revoke_one in E. simpl in E.
  destruct (cw_entries w1 !! id) as [e|] eqn:He; [|left; by simplify_eq].
  destruct (_ && _) eqn:Eg; [|left; by simplify_eq]. apply andb_true_iff in Eg as [_ Hun]. pose proof (unconsumed_open _ Hun).
  destruct (end_unconsumed _ _ _ _ _ _ _) as [e' d'] eqn:Eu. simplify_eq. right. exists e, e'.
  repeat split; try done. right. eapply end_unconsumed_ends; [done| |exact Eu]. rewrite !elem_of_cons. tauto.
Qed.

(** [sweep] as a loop without its count. *)
Lemma sweep_count now ids w d n :
  (foldl (sweep_one now) (w, d, n) ids).1 =
  foldl (λ wd id, (sweep_one now (wd, 0) id).1) (w, d) ids.
Proof.
  revert w d n. induction ids as [|id ids IH]; intros w d n; [done|].
  change (foldl _ _ (id :: ids)) with (foldl (sweep_one now) (sweep_one now (w, d, n) id) ids) at 1.
  destruct (sweep_one now (w, d, n) id) as [[w1 d1] n1] eqn:E. rewrite IH. simpl. f_equal.
  assert ((sweep_one now (w, d, n) id).1 = (sweep_one now (w, d, 0) id).1) as E0.
  { simpl. repeat case_match; by simplify_eq. }
  rewrite E in E0. exact E0.
Qed.

Lemma sweep_ok now w w' d n : sweep now w = (w', d, n) → hold_ok w d w'.
Proof.
  unfold sweep. intros E. assert (E' := sweep_count now (entry_ids w) w nothing_owed 0). rewrite E in E'. simpl in E'.
  symmetry in E'. eapply loop_accounts in E';
    [destruct E'; by split| |apply entry_ids_nodup|apply frame_refl|apply accounts_refl|done].
  clear E E'. intros w1 d1 id w2 d2 Hf E. simpl in E.
  destruct (cw_entries w1 !! id) as [e|] eqn:He; [|left; by simplify_eq/=].
  destruct (unconsumed (ce_state e)) eqn:Hun; [|left; by simplify_eq/=]. pose proof (unconsumed_open _ Hun).
  destruct (live_check _ _ _ _ _ _ _) as [[live e'] d'] eqn:El. simplify_eq/=. right. exists e, e'.
  repeat split; try done. apply live_check_spec in El; [|done]. destruct live; [|done].
  destruct El as (-> & -> & _). apply entry_step_refl.
Qed.
(** ** Room, preparations and pins *)

(** Only ended entries nothing pins leave the table. *)
Definition pruned (m m' : gmap CommitmentId Entry) : Prop :=
  m' ⊆ m ∧ ∀ id e, m !! id = Some e → m' !! id = None → CommitmentState.is_final (ce_state e) = true ∧ ce_pinned e = false.
Lemma pruned_refl m : pruned m m.
Proof. split; [done|]. congruence. Qed.

Lemma make_room_spec w :
  pruned (cw_entries w) (cw_entries (make_room w)) ∧ frame w (make_room w) ∧
  make_room w = w <| cw_entries := cw_entries (make_room w) |>.
Proof.
  unfold make_room. destruct (has_room w).
  { split; [apply pruned_refl|]. split; [apply frame_refl|by destruct w]. }
  split; [|split; [by split|done]]. simpl. split; [apply map_filter_subseteq|].
  intros id e He Hn. rewrite map_lookup_filter_None in Hn. destruct Hn as [?|Hn]; [congruence|].
  specialize (Hn _ He). simpl in Hn. destruct (CommitmentState.is_final _), (ce_pinned e); naive_solver.
Qed.

Lemma pruned_size m m' : pruned m m' → (size m' ≤ size m)%nat.
Proof. intros [Hs _]. by apply map_subseteq_size. Qed.

Lemma at_cells_retained {A} (f : Cells → A * Cells) rw r rw' run :
  at_cells f rw = (r, rw') → retained_of rw' run = retained_of rw run.
Proof. intros (E & _)%at_cells_same. unfold retained_of. by rewrite E. Qed.

Lemma reserve_preparation_ok cell w r w' :
  reserve_preparation cell w = (r, w') →
  pruned (cw_entries w) (cw_entries w') ∧ (∀ run, retained_of (cw_runs w') run = retained_of (cw_runs w) run) ∧
  cw_poisoned w' = cw_poisoned w ∧ cw_mono w' = cw_mono w ∧
  match r with
  | Ok _ => cw_preparations w' = cw_preparations w + 1 ∧ Z.of_nat (size (cw_entries w')) + cw_preparations w' ≤ CAPACITY
  | Err _ => cw_preparations w' = cw_preparations w
  end.
Proof.
  unfold reserve_preparation. destruct (cw_poisoned w) eqn:Hp; [intros [= <- <-]; split; [apply pruned_refl|done]|].
  destruct (make_room_spec w) as (Hpr & [? ? ? ? ? ? ? ? Hret] & _).
  destruct (has_room (make_room w)) eqn:Hroom; simpl; [|intros [= <- <-]; split_and!; try done; congruence].
  destruct (at_cells (cell_admit cell) _) as [[[]|error] rw] eqn:Ec; intros [= <- <-]; simpl; split_and!; try done;
    try congruence; try (intros run; rewrite (at_cells_retained _ _ _ _ _ Ec); apply Hret).
  unfold has_room in Hroom. lia.
Qed.

Lemma slot_release_ok cell w :
  cw_entries (slot_release cell w) = cw_entries w ∧
  (∀ run, retained_of (cw_runs (slot_release cell w)) run = retained_of (cw_runs w) run) ∧
  cw_poisoned (slot_release cell w) = cw_poisoned w ∧ cw_mono (slot_release cell w) = cw_mono w ∧
  cw_preparations (slot_release cell w) = if cw_poisoned w then cw_preparations w else cw_preparations w - 1.
Proof. unfold slot_release. destruct (cw_poisoned w) eqn:E; simpl; rewrite ?E; done. Qed.

(** The retained counts move only with an admitted pin. *)
Lemma check_retaining_retained run agent retain request rw r rw' :
  check_request_retaining run agent retain request rw = (r, rw') →
  ∀ k, retained_of rw' k =
       retained_of rw k + (if retain && match r with Ok _ => bool_decide (k = run) | Err _ => false end then 1 else 0).
Proof.
  unfold check_request_retaining.
  assert (Hsame : ∀ k, retained_of rw k = retained_of rw k + (if retain && false then 1 else 0)).
  { intros. rewrite andb_false_r. lia. }
  destruct (rw_poisoned rw); [intros [= <- <-]; apply Hsame|].
  destruct (rw_stopped rw); [intros [= <- <-]; apply Hsame|].
  destruct (rw_runs rw !! run) as [e|] eqn:He; [|intros [= <- <-]; apply Hsame].
  destruct (negb _); [intros [= <- <-]; apply Hsame|].
  destruct (request_cell _ _); [|intros [= <- <-]; apply Hsame].
  destruct (host_prerequisites _ _); [|intros [= <- <-]; apply Hsame].
  destruct (_ || _); [intros [= <- <-]; apply Hsame|].
  destruct (rv_finished _); [intros [= <- <-]; apply Hsame|].
  destruct (entry_ended _ _); [intros [= <- <-]; apply Hsame|].
  destruct retain; simpl; [|intros [= <- <-] k; simpl; lia].
  case_bool_decide; simpl; [|intros [= <- <-] k; lia].
  unfold checked_add. destruct (_ <=? _) eqn:Hle; [|intros [= <- <-] k; lia].
  destruct (token_admit_host _ rw) as [[[]|error] rw1] eqn:Et; pose proof (token_admit_same _ _ _ _ Et) as (E & _);
    intros [= <- <-] k; unfold retained_of; simpl; rewrite E; [|lia].
  destruct (decide (k = run)) as [->|Hk].
  - rewrite lookup_insert_eq, He. simpl. rewrite bool_decide_true by done. done.
  - rewrite lookup_insert_ne by done. rewrite bool_decide_false by done. lia.
Qed.
Definition is_files (e : Entry) : bool := bool_decide (pa_kind (ce_prepared e) = CapabilityKind.Files).
Definition slot_count (slot : option HaltCell) : Z := match slot with Some _ => 1 | None => 0 end.
(** The entry as it goes into the table. *)
Definition pinned_as (e : Entry) (owner : option GroupId) : Entry :=
  e <| ce_pinned := is_files e |> <| ce_pin_owner := owner |>.

Lemma insert_commitment_ok id e slot now w refused d w' :
  unconsumed (ce_state e) = true → insert_commitment id e slot now w = (refused, d, w') →
  ∃ m, pruned (cw_entries w) m ∧ cw_preparations w' = cw_preparations w - slot_count slot ∧
    cw_poisoned w' = cw_poisoned w ∧ cw_mono w' = cw_mono w ∧
    (∀ run, retained_of (cw_runs w') run =
            retained_of (cw_runs w) run +
            (if is_files e && match refused with None => bool_decide (run = ce_run e) | Some _ => false end then 1 else 0)) ∧
    match refused with
    | None =>
        d = nothing_owed ∧ Z.of_nat (size m) + cw_preparations w' < CAPACITY ∧
        ∃ owner, cw_entries w' = <[id := pinned_as e owner]> m
    | Some _ => cw_entries w' = m ∧ ∃ e' r, ends_by None id e e' r ∧ d = owe r (leases_of e) nothing_owed
    end.
Proof.
  intros Hopen. unfold insert_commitment.
  set (w1 := match slot with Some _ => _ | None => _ end).
  assert (Hw1 : cw_entries w1 = cw_entries w ∧ cw_preparations w1 = cw_preparations w - slot_count slot ∧
    cw_poisoned w1 = cw_poisoned w ∧ cw_mono w1 = cw_mono w ∧ cw_runs w1 = cw_runs w).
  { unfold w1. destruct slot; simpl; repeat split; lia. }
  clearbody w1. destruct Hw1 as (E1 & E2 & E3 & E4 & E5).
  destruct (make_room_spec w1) as (Hpr & [F1 F2 _ _ _ F6 _ _ F9] & _). rewrite E1 in Hpr.
  fold (is_files e). change (bool_decide (pa_kind (ce_prepared e) = CapabilityKind.Files)) with (is_files e).
  destruct (if negb (has_room (make_room w1)) then _ else _) as [retained rw] eqn:Er.
  assert (Hret : ∀ k, retained_of rw k = retained_of (cw_runs w) k +
    (if is_files e && match retained with Ok _ => bool_decide (k = ce_run e) | Err _ => false end then 1 else 0)).
  { intros k. rewrite <- E5, <- F9. destruct (has_room (make_room w1)); simpl in Er.
    - by apply (check_retaining_retained _ _ _ _ _ _ _ Er).
    - injection Er as <- <-. rewrite andb_false_r. lia. }
  destruct retained as [[cancel owner]|error].
  - intros [= <- <- <-]. exists (cw_entries (make_room w1)). simpl. split_and!; try done; try congruence; try lia.
    + destruct (has_room (make_room w1)) eqn:Hroom; simpl in Er; [|congruence].
      unfold has_room in Hroom. lia.
    + exists owner. done.
  - destruct (if bool_decide (error = AuthorityError.Halted) && _ then _ else _) as [e2 d2] eqn:Ee. intros [= <- <- <-].
    exists (cw_entries (make_room w1)). simpl. split_and!; try done; try congruence; try lia.
    assert (∃ r, ends_by None id e e2 r ∧ d2 = owe r (leases_of e) nothing_owed) as (r & ? & ?); [|by exists e2, r].
    destruct (bool_decide (error = AuthorityError.Halted) && _).
    + eapply early_end; [by apply unconsumed_open| | | |exact Ee]; [done|done|]. split; reflexivity.
    + eapply end_unconsumed_ends; [done| |exact Ee]. rewrite !elem_of_cons. tauto.
Qed.

Lemma conclusive_final e :
  publication e ≠ PublicationClass.Pending → CommitmentState.is_final (ce_state e) = true.
Proof. unfold publication. by destruct (ce_state e). Qed.

(** An acknowledgement drops the pin of a conclusive commitment, and its run's count. *)
Lemma ack_ok id agent owner w r w' :
  ack id agent owner w = (r, w') →
  w' = w ∨
  ∃ e rw, r = Ok tt ∧ cw_entries w !! id = Some e ∧ ce_pinned e = true ∧
    CommitmentState.is_final (ce_state e) = true ∧ publication e ≠ PublicationClass.Uncertain ∧
    w' = put_entry id (e <| ce_pinned := false |>) (w <| cw_runs := rw |>) ∧
    ∀ k, retained_of rw k = retained_of (cw_runs w) k - (if bool_decide (k = ce_run e) then 1 else 0).
Proof.
  unfold ack. destruct (cw_poisoned w); [intros [= <- <-]; by left|].
  destruct (cw_entries w !! id) as [e|] eqn:He; [|intros [= <- <-]; by left].
  destruct (negb (bool_decide (ce_agent e = agent))); [intros [= <- <-]; by left|].
  destruct (negb (bool_decide (ce_pin_owner e = _))); [intros [= <- <-]; by left|].
  destruct (ce_pinned e) eqn:Hp; simpl; [|intros [= <- <-]; by left].
  assert (Hrel : publication e ≠ PublicationClass.Pending → publication e ≠ PublicationClass.Uncertain →
    (let '(r0, rw) := release (ce_run e) (cw_runs w) in
     match r0 with
     | Err error => (Err error, w <| cw_runs := rw |>)
     | Ok _ => (Ok tt, put_entry id (e <| ce_pinned := false |>) (w <| cw_runs := rw |>))
     end) = (r, w') →
    w' = w ∨
    ∃ e0 rw, r = Ok tt ∧ Some e = Some e0 ∧ ce_pinned e0 = true ∧
      CommitmentState.is_final (ce_state e0) = true ∧ publication e0 ≠ PublicationClass.Uncertain ∧
      w' = put_entry id (e0 <| ce_pinned := false |>) (w <| cw_runs := rw |>) ∧
      ∀ k, retained_of rw k = retained_of (cw_runs w) k - (if bool_decide (k = ce_run e0) then 1 else 0)).
  { intros Hnp Hnu. unfold release. destruct (rw_poisoned _).
    { intros [= <- <-]. left. by destruct w. }
    destruct (rw_runs (cw_runs w) !! ce_run e) as [re|] eqn:Hre; [|intros [= <- <-]; left; by destruct w].
    unfold checked_sub. destruct (_ <=? _) eqn:Hle; [|intros [= <- <-]; left; by destruct w].
    intros [= <- <-]. right. eexists e, _. split_and!; try done; [by apply conclusive_final|].
    intros k. unfold retained_of. simpl. destruct (decide (k = ce_run e)) as [->|Hk].
    - rewrite lookup_insert_eq, Hre, bool_decide_true by done. done.
    - rewrite lookup_insert_ne, bool_decide_false by done. lia. }
  destruct (publication e) eqn:Ep; try (intros [= <- <-]; by left); by apply Hrel.
Qed.
End Holds.
Notation hold_ok := (hold_by None).
