(* ===== verification/AuthCommitProps.v ===== *)
(** * What the commitments promise over time

    Every hold of the commitments lock, and every change of what is around it, as a step
    ([cstep]) of a system that also remembers what was made, asked, confirmed, written
    and begun. What the threads keep between their holds only grows here, so any
    interleaving of any number of calls is a run of steps. *)

From S2P Require Import Prelude Hash AuthBase AuthText HaltCell AuthGrants AuthHalt AuthRuns AuthRunsInv AuthCommit AuthCommitInv.

Local Open Scope Z_scope.
Local Open Scope nexus_scope.
#[local] Arguments lit : simpl never.

(** ** The system *)

(** What a call keeps between its reservation and its end. *)
Record Flight := MkFlight {
  fl_id : CommitmentId;
  fl_token : Z;
  fl_transition : Transition.t;
  fl_approved : option Digest;
  fl_agent : AgentId;
  fl_run : RunId;
  fl_revalidated : Digest;
  fl_parameters : Digest;
  fl_record : EvidenceRecord;
}.
(** A start: the entry and the world it started in, the clocks read, its record. *)
Record Beginning {S : Type} := MkBeginning {
  bg_id : CommitmentId;
  bg_entry : Entry;
  bg_flight : Flight;
  bg_now : Now;
  bg_world : CommitWorld S;
}.
Arguments Beginning : clear implicits.
Arguments MkBeginning {S}.
(** A question to the Owner: the commitment, what was shown, the binding. *)
Record Question := MkQuestion {
  qu_id : CommitmentId;
  qu_request : ActionConfirmation;
  qu_binding : Digest;
}.

(** A guard's report: the commitment, its outcome, and whether the effect was handed off. *)
Record Report := MkReport {
  rp_id : CommitmentId;
  rp_outcome : Outcome.t;
  rp_handoff : Z;
}.

Record CSys {S : Type} := MkCSys {
  cy_world : CommitWorld S;
  cy_made : gmap CommitmentId Entry;
  cy_slots : list HaltCell;
  cy_asked : list Question;
  cy_confirmed : list Question;
  cy_approvals : list R2Approval;
  cy_flights : list Flight;
  cy_written : list EvidenceRecord;
  cy_begun : list (Beginning S);
  cy_finished : list Report;
}.
Arguments CSys : clear implicits.
Definition csys_eta {S} (s : CSys S) : CSys S :=
  MkCSys S (cy_world s) (cy_made s) (cy_slots s) (cy_asked s) (cy_confirmed s) (cy_approvals s) (cy_flights s)
    (cy_written s) (cy_begun s) (cy_finished s).
#[export] Instance upd_cy_world {S} : Update (@cy_world S) := ltac:(update_with (@csys_eta S)).
#[export] Instance upd_cy_made {S} : Update (@cy_made S) := ltac:(update_with (@csys_eta S)).
#[export] Instance upd_cy_slots {S} : Update (@cy_slots S) := ltac:(update_with (@csys_eta S)).
#[export] Instance upd_cy_asked {S} : Update (@cy_asked S) := ltac:(update_with (@csys_eta S)).
#[export] Instance upd_cy_confirmed {S} : Update (@cy_confirmed S) := ltac:(update_with (@csys_eta S)).
#[export] Instance upd_cy_approvals {S} : Update (@cy_approvals S) := ltac:(update_with (@csys_eta S)).
#[export] Instance upd_cy_flights {S} : Update (@cy_flights S) := ltac:(update_with (@csys_eta S)).
#[export] Instance upd_cy_written {S} : Update (@cy_written S) := ltac:(update_with (@csys_eta S)).
#[export] Instance upd_cy_begun {S} : Update (@cy_begun S) := ltac:(update_with (@csys_eta S)).
#[export] Instance upd_cy_finished {S} : Update (@cy_finished S) := ltac:(update_with (@csys_eta S)).

Section Steps.
Context {crates : Crates} {S : Type} {sink : EvidenceSink S}.
Implicit Types (w : CommitWorld S) (s : CSys S).

(** What changes around the entries: the other registries, the sink, the clocks, the
    lease ends, the lock's poison. The monotonic clock does not go back; the retained
    counts of the runs are moved by the commitments alone. *)
Record around w w' : Prop := {
  ar_entries : cw_entries w' = cw_entries w;
  ar_preparations : cw_preparations w' = cw_preparations w;
  ar_transitions : cw_transitions w' = cw_transitions w;
  ar_poisoned : cw_poisoned w = true → cw_poisoned w' = true;
  ar_mono : cw_mono w ≤ cw_mono w';
  ar_retained : ∀ run, retained_of (cw_runs w') run = retained_of (cw_runs w) run;
}.

(** A list that grows when the hold went through. *)
Definition grown {A B} (r : aresult A) (f : A → B) (l : list B) : list B :=
  match r with Ok a => f a :: l | Err _ => l end.

Definition approve_flight (id : CommitmentId) (agent : AgentId) (run : RunId) (binding : Digest)
    (x : Z * EvidenceRecord * option HaltCell) : Flight :=
  MkFlight id x.1.1 Transition.Approve (Some binding) agent run [] [] x.1.2.
Definition authorize_flight (id : CommitmentId) (agent : AgentId) (run : RunId)
    (x : Z * option Digest * EvidenceRecord * option HaltCell) : Flight :=
  MkFlight id x.1.1.1 Transition.Authorize x.1.1.2 agent run [] [] x.1.2.
Definition start_flight (id : CommitmentId) (agent : AgentId) (run : RunId) (revalidated parameters : Digest)
    (x : Z * EvidenceRecord * option HaltCell) : Flight :=
  MkFlight id x.1.1 Transition.Start None agent run revalidated parameters x.1.2.

Definition begun_with {A} (r : aresult A) (f : Flight) (now : Now) w (l : list (Beginning S)) : list (Beginning S) :=
  match r, cw_entries w !! fl_id f with
  | Ok _, Some e => MkBeginning (fl_id f) e f now w :: l
  | _, _ => l
  end.

(** The reports taken: a hold that owes nothing to anyone took none. *)
Definition taken (d : option Deferred) (p : Report) (l : list Report) : list Report :=
  match d with Some _ => p :: l | None => l end.

(** A hold, with what it owes. *)
Inductive cstep : CSys S → Deferred → CSys S → Prop :=
| ct_around s w' : around (cy_world s) w' → cstep s nothing_owed (s <| cy_world := w' |>)
| ct_written s r seq w' :
    write_gating r (cy_world s) = (Ok seq, w') →
    cstep s nothing_owed (s <| cy_world := w' |> <| cy_written := r :: cy_written s |>)
| ct_slot s cell r w' :
    reserve_preparation cell (cy_world s) = (r, w') →
    cstep s nothing_owed (s <| cy_world := w' |> <| cy_slots := grown r (λ c, c) (cy_slots s) |>)
| ct_unslot s cell slots :
    cy_slots s ≡ₚ cell :: slots →
    cstep s nothing_owed (s <| cy_world := slot_release cell (cy_world s) |> <| cy_slots := slots |>)
| ct_insert s id nonce agent run p ttl privacy now0 w0 w1 slot slots now refused d w' :
    cy_made s !! id = None → pa_grants p ≠ [] → unshowable p = None →
    prepared_record id (new_commitment id nonce agent run p ttl privacy now0 w0) now0 w1 ∈ cy_written s →
    cy_slots s ≡ₚ option_list slot ++ slots →
    insert_commitment id (new_commitment id nonce agent run p ttl privacy now0 w0) slot now (cy_world s) =
      (refused, d, w') →
    cstep s d (s <| cy_world := w' |> <| cy_slots := slots |>
                 <| cy_made := <[id := new_commitment id nonce agent run p ttl privacy now0 w0]> (cy_made s) |>)
| ct_ask s id agent run now r d w' :
    approval_request id agent run now (cy_world s) = (r, d, w') →
    cstep s d (s <| cy_world := w' |>
                 <| cy_asked := grown r (λ x, MkQuestion id x.1 x.2) (cy_asked s) |>)
| ct_handoff s id agent run binding now r d w' :
    session_confirmation_handoff id agent run binding now (cy_world s) = (r, d, w') →
    cstep s d (s <| cy_world := w' |>)
| ct_answer s q agent run (confirmed : bool) now r d w' :
    q ∈ cy_asked s →
    approval_answer (qu_id q) agent run (qu_binding q) confirmed now (cy_world s) = (r, d, w') →
    cstep s d (s <| cy_world := w' |>
                 <| cy_confirmed := if confirmed then q :: cy_confirmed s else cy_confirmed s |>
                 <| cy_flights := grown r (approve_flight (qu_id q) agent run (qu_binding q)) (cy_flights s) |>)
| ct_authorize s id agent run approval now r d w' :
    (∀ a, approval = Some a → a ∈ cy_approvals s) →
    authorization id agent run approval now (cy_world s) = (r, d, w') →
    cstep s d (s <| cy_world := w' |> <| cy_flights := grown r (authorize_flight id agent run) (cy_flights s) |>)
| ct_start s id agent run revalidated parameters now r d w' :
    start id agent run revalidated parameters now (cy_world s) = (r, d, w') →
    cstep s d (s <| cy_world := w' |>
                 <| cy_flights := grown r (start_flight id agent run revalidated parameters) (cy_flights s) |>)
| ct_approved s f binding now r d w' :
    f ∈ cy_flights s → fl_transition f = Transition.Approve → fl_approved f = Some binding →
    fl_record f ∈ cy_written s →
    complete (fl_id f) (fl_token f) CommitmentState.Prepared (fl_agent f) (fl_run f) approve_final now
      (cy_world s) = (r, d, w') →
    cstep s d (s <| cy_world := w' |>
                 <| cy_approvals := grown r (λ _, MkR2Approval (fl_id f) binding) (cy_approvals s) |>)
| ct_authorized s f now r d w' :
    f ∈ cy_flights s → fl_transition f = Transition.Authorize → fl_record f ∈ cy_written s →
    complete (fl_id f) (fl_token f) CommitmentState.Prepared (fl_agent f) (fl_run f)
      (authorize_final (fl_approved f)) now (cy_world s) = (r, d, w') →
    cstep s d (s <| cy_world := w' |>)
| ct_begun s f now r d w' :
    f ∈ cy_flights s → fl_transition f = Transition.Start → fl_record f ∈ cy_written s →
    complete (fl_id f) (fl_token f) CommitmentState.Authorized (fl_agent f) (fl_run f) start_final now
      (cy_world s) = (r, d, w') →
    cstep s d (s <| cy_world := w' |> <| cy_begun := begun_with r f now (cy_world s) (cy_begun s) |>)
| ct_drop s id token cell : cstep s nothing_owed (s <| cy_world := reserved_drop id token cell (cy_world s) |>)
| ct_finish s id started o cancelled handoff now d w' :
    finish_hold id started o cancelled handoff now (cy_world s) = (d, w') →
    cstep s (default nothing_owed d)
      (s <| cy_world := w' |> <| cy_finished := taken d (MkReport id o handoff) (cy_finished s) |>)
| ct_fail s id agent run reason now r d w' :
    fail_unstarted id agent run reason now (cy_world s) = (r, d, w') → cstep s d (s <| cy_world := w' |>)
| ct_deny s id agent run now r d w' :
    deny id agent run now (cy_world s) = (r, d, w') → cstep s d (s <| cy_world := w' |>)
| ct_revoke s pick reason now w' d :
    revoke_where_in pick reason now (cy_world s) = (w', d) → cstep s d (s <| cy_world := w' |>)
| ct_sweep s now w' d n : sweep now (cy_world s) = (w', d, n) → cstep s d (s <| cy_world := w' |>)
| ct_refuse s id now w' d :
    refuse_pending_install id now (cy_world s) = (w', d) → cstep s d (s <| cy_world := w' |>)
| ct_ack s id agent owner r w' :
    ack id agent owner (cy_world s) = (r, w') → cstep s nothing_owed (s <| cy_world := w' |>)
| ct_bind s id agent run request r w' :
    bind_session_request id agent run request (cy_world s) = (r, w') →
    cstep s nothing_owed (s <| cy_world := w' |>).

Definition csteps : CSys S → CSys S → Prop := rtc (λ s s', ∃ d, cstep s d s').

(** The registry as it is made, over runs nothing has pinned yet. *)
Record fresh_sys s : Prop := {
  fy_entries : cw_entries (cy_world s) = ∅;
  fy_preparations : cw_preparations (cy_world s) = 0;
  fy_retained : ∀ run, retained_of (cw_runs (cy_world s)) run = 0;
  fy_made : cy_made s = ∅;
  fy_slots : cy_slots s = [];
  fy_asked : cy_asked s = [];
  fy_confirmed : cy_confirmed s = [];
  fy_approvals : cy_approvals s = [];
  fy_flights : cy_flights s = [];
  fy_begun : cy_begun s = [];
  fy_finished : cy_finished s = [];
}.
(** ** The invariant *)

(** The Owner's yes to the commitment [id] as it was made. *)
Definition yes s (id : CommitmentId) (binding : Digest) : Prop :=
  ∃ q, q ∈ cy_confirmed s ∧ qu_id q = id ∧ qu_binding q = binding.
Definition needs_yes (e : Entry) : bool := requires_native_approval (pa_class (ce_prepared e)).

(** What the Owner is shown of a commitment. *)
Definition confirmation_of (id : CommitmentId) (e : Entry) (secs : Z) : ActionConfirmation :=
  let p := ce_prepared e in
  MkActionConfirmation (CommitmentId_display id) (pa_class p) (pa_kind p) (pa_operation p)
    (ti_display (pa_target p)) (ce_agent e) (RunId_display (ce_run e)) (pa_summary p) secs
    (Digest_short (ce_binding e)).

Record flight_ok s (f : Flight) (e : Entry) : Prop := {
  fo_agent : fl_agent f = ce_agent e;
  fo_run : fl_run f = ce_run e;
  fo_approve : fl_transition f = Transition.Approve → yes s (fl_id f) (ce_binding e) ∧ fl_approved f = Some (ce_binding e);
  fo_authorize : fl_transition f = Transition.Authorize →
    if needs_yes e then yes s (fl_id f) (ce_binding e) ∧ fl_approved f = Some (ce_binding e)
    else fl_approved f = None;
  fo_start : fl_transition f = Transition.Start →
    fl_revalidated f = ti_digest (pa_target (ce_prepared e)) ∧ fl_parameters f = pa_parameters (ce_prepared e) ∧
    er_phase (fl_record f) = EvidencePhase.Started ∧
    er_commitment (fl_record f) = Some (CommitmentId_display (fl_id f)) ∧
    er_target_digest (fl_record f) = Some (Digest_to_hex (ti_digest (pa_target (ce_prepared e)))) ∧
    er_parameters_digest (fl_record f) = Some (Digest_to_hex (ce_salted e));
}.

(** Everything that covered a start, in the hold that made it. *)
Record begun_ok s (b : Beginning S) : Prop := {
  bo_made : ∃ e0, cy_made s !! bg_id b = Some e0 ∧ same_made e0 (bg_entry b) ∧ flight_ok s (bg_flight b) e0;
  bo_flight : bg_flight b ∈ cy_flights s ∧ fl_id (bg_flight b) = bg_id b ∧ fl_transition (bg_flight b) = Transition.Start;
  bo_state : ce_state (bg_entry b) = CommitmentState.Authorized;
  bo_written : fl_record (bg_flight b) ∈ cy_written s;
  bo_run : ∃ cancel owner,
    run_check (ce_run (bg_entry b)) (ce_agent (bg_entry b)) (ce_request (bg_entry b)) (bg_world b) = Ok (cancel, owner);
  bo_covered : lapsed (bg_entry b) (bg_now b) (bg_world b) = None;
  bo_yes : needs_yes (bg_entry b) = true → yes s (bg_id b) (ce_binding (bg_entry b));
}.

(** What the calls keep, and what was asked and written. *)
Record ghosts_ok s : Prop := {
  go_made : ∀ id e, cy_made s !! id = Some e →
    unshowable (ce_prepared e) = None ∧ pa_grants (ce_prepared e) ≠ [] ∧
    ce_binding e = binding_of id (ce_agent e) (ce_run e) (ce_prepared e) (ce_salted e) (ce_generation e) (ce_deadline_ms e);
  go_asked : ∀ q, q ∈ cy_asked s → ∃ e secs, cy_made s !! qu_id q = Some e ∧ needs_yes e = true ∧
    qu_binding q = ce_binding e ∧ qu_request q = confirmation_of (qu_id q) e secs;
  go_confirmed : ∀ q, q ∈ cy_confirmed s → q ∈ cy_asked s;
  go_approvals : ∀ a, a ∈ cy_approvals s → ∃ e, cy_made s !! ra_commitment a = Some e ∧
    ra_binding a = ce_binding e ∧ yes s (ra_commitment a) (ce_binding e);
  go_flights : ∀ f, f ∈ cy_flights s → ∃ e, cy_made s !! fl_id f = Some e ∧ flight_ok s f e;
  go_once : NoDup (bg_id <$> cy_begun s);
  go_begun : ∀ b, b ∈ cy_begun s → begun_ok s b;
  go_finished : ∀ p, p ∈ cy_finished s → is_Some (cy_made s !! rp_id p);
  go_reported : NoDup (rp_id <$> cy_finished s);
}.

Definition started s (id : CommitmentId) : Prop := ∃ b, b ∈ cy_begun s ∧ bg_id b = id.
Definition pins (m : gmap CommitmentId Entry) (run : RunId) : gset CommitmentId :=
  dom (filter (λ kv, ce_pinned kv.2 = true ∧ ce_run kv.2 = run) m).

(** What the table holds of it. *)
Record entry_inv s (id : CommitmentId) (e : Entry) : Prop := {
  ei_made : ∃ e0, cy_made s !! id = Some e0 ∧ same_made e0 e;
  ei_yes : ce_state e ∈ [CommitmentState.Authorized; CommitmentState.Executing] → needs_yes e = true →
           yes s id (ce_binding e) ∧ ce_approval e = Some (ce_binding e);
  ei_once : started s id → unconsumed (ce_state e) = false;
  ei_started : ce_state e ∈ [CommitmentState.Executing; CommitmentState.Succeeded; CommitmentState.Cancelled] ∨
               ce_finished_started e = true → started s id;
  ei_unstarted : CommitmentState.is_final (ce_state e) = true →
                 ce_finished_started e = false ∨ ce_state e ∈ [CommitmentState.Denied; CommitmentState.Expired] →
                 ce_state e ≠ CommitmentState.Revoked → ¬ started s id;
  ei_finished : ∀ p, p ∈ cy_finished s → rp_id p = id → finished_as (rp_outcome p) (rp_handoff p) e;
  ei_reported : ce_finished_started e = true → ∃ p, p ∈ cy_finished s ∧ rp_id p = id;
}.
Record tables_ok s : Prop := {
  to_entries : ∀ id e, cw_entries (cy_world s) !! id = Some e → entry_inv s id e;
  to_capacity : Z.of_nat (size (cw_entries (cy_world s))) + cw_preparations (cy_world s) ≤ CAPACITY;
  to_slots : Z.of_nat (length (cy_slots s)) ≤ cw_preparations (cy_world s);
  to_pins : ∀ run, retained_of (cw_runs (cy_world s)) run = Z.of_nat (size (pins (cw_entries (cy_world s)) run));
}.
Definition csys_ok s : Prop := ghosts_ok s ∧ tables_ok s.

(** *** A hold that only stays and ends *)

Lemma accounts_lookup fin m m' d id e' :
  accounts fin m m' d → m' !! id = Some e' →
  ∃ e, m !! id = Some e ∧ same_pin e e' ∧ (stays e e' ∨ ∃ r, ends_by fin id e e' r).
Proof.
  intros (ended & _ & _ & _ & H) He'. specialize (H id). rewrite He' in H. destruct (m !! id) as [e|]; [|done].
  exists e. split; [done|]. destruct H as [(_ & ? & ?)|(r & _ & Hr)]; [auto|]. split; [apply Hr|eauto].
Qed.
Lemma accounts_dom fin m m' d : accounts fin m m' d → dom m' = dom m.
Proof.
  intros (ended & _ & _ & _ & H). apply set_eq. intros id. rewrite !elem_of_dom. specialize (H id).
  destruct (m !! id), (m' !! id); try done; split; intros []; by eexists.
Qed.
Lemma accounts_pins fin m m' d run : accounts fin m m' d → pins m' run = pins m run.
Proof.
  intros Ha. apply set_eq. intros id. unfold pins. rewrite !elem_of_dom. unfold is_Some.
  setoid_rewrite map_lookup_filter_Some. simpl. destruct Ha as (ended & _ & _ & _ & H). specialize (H id).
  assert (∀ e e', stays e e' ∧ same_pin e e' ∨ (∃ r, ends_by fin id e e' r) →
    ce_pinned e' = ce_pinned e ∧ ce_run e' = ce_run e) as Hp.
  { intros e e' [[[[]] []]|(r & [[] ? ? ? ? [] ?])]; done. }
  split; intros (e & He & Hpin).
  - rewrite He in H. destruct (m !! id) as [e0|] eqn:E0; [|done]. exists e0. split; [done|].
    destruct (Hp e0 e) as [<- <-]; [|done]. destruct H as [(_ & ? & ?)|(r & _ & ?)]; eauto.
  - rewrite He in H. destruct (m' !! id) as [e0|] eqn:E0; [|done]. exists e0. split; [done|].
    destruct (Hp e e0) as [-> ->]; [|done]. destruct H as [(_ & ? & ?)|(r & _ & ?)]; eauto.
Qed.

Lemma finished_stays o h e e' : same_outcome e e' → ce_state e' = ce_state e → finished_as o h e → finished_as o h e'.
Proof.
  intros [] Es [? ? ? ? Hs]. split; try congruence. intros meta Em. destruct (Hs meta Em). split; congruence.
Qed.
Lemma entry_inv_stays s id e e' : stays e e' → entry_inv s id e → entry_inv s id e'.
Proof.
  intros [Hm Hsame Hs Ha] [(e0 & He0 & Hm0) Hy Ho Hst Hun Hfi Hrp]. pose proof Hsame as [? ? Hf ? ?]. split.
  - exists e0. split; [done|]. by etrans.
  - unfold needs_yes. rewrite Hs, Ha, (sm_prepared _ _ Hm), (sm_binding _ _ Hm). done.
  - by rewrite Hs.
  - rewrite Hs, Hf. done.
  - by rewrite Hs, Hf.
  - intros p Hp Eid. by eapply finished_stays, Hfi.
  - by rewrite Hf.
Qed.
(** Only what has not ended has not been reported. *)
Lemma open_unreported s id e p :
  entry_inv s id e → CommitmentState.is_final (ce_state e) = false → p ∈ cy_finished s → rp_id p ≠ id.
Proof.
  intros Hi Ho Hp Eid. destruct (ei_finished _ _ _ Hi p Hp Eid) as [_ _ Es _ _]. rewrite Es in Ho. by destruct (rp_outcome p).
Qed.
Lemma entry_inv_ends s id e e' r : ends_by None id e e' r → entry_inv s id e → entry_inv s id e'.
Proof.
  intros [Hm Hopen Hfin _ Ha _ _ Hout] Hi. pose proof Hi as [(e0 & He0 & Hm0) Hy Ho Hst Hun Hfi Hrp].
  destruct Hout as ([_ _ Hf _ _] & Hno & Hex). split.
  - exists e0. split; [done|]. by etrans.
  - intros Hin _. exfalso. rewrite !elem_of_cons, elem_of_nil in Hin. destruct (ce_state e'); naive_solver.
  - intros _. by destruct (ce_state e').
  - intros Hin. apply Hst. rewrite !elem_of_cons, elem_of_nil in *.
    rewrite Hf in Hin.
    destruct Hin as [Hin|?]; [|tauto]. destruct Hin as [E|Hin]; [rewrite E in Hfin; done|]. exfalso. by apply Hno.
  - intros _ _ Hr Hs. specialize (Ho Hs). destruct (ce_state e) eqn:Es; try done. by apply Hr, Hex.
  - intros p Hp Eid. exfalso. by eapply open_unreported.
  - by rewrite Hf.
Qed.
(** *** What only grows *)

Record grows s s' : Prop := {
  gr_made : cy_made s ⊆ cy_made s';
  gr_asked : ∀ q, q ∈ cy_asked s → q ∈ cy_asked s';
  gr_confirmed : ∀ q, q ∈ cy_confirmed s → q ∈ cy_confirmed s';
  gr_approvals : ∀ a, a ∈ cy_approvals s → a ∈ cy_approvals s';
  gr_flights : ∀ f, f ∈ cy_flights s → f ∈ cy_flights s';
  gr_written : ∀ r, r ∈ cy_written s → r ∈ cy_written s';
  gr_begun : ∀ b, b ∈ cy_begun s → b ∈ cy_begun s';
  gr_finished : ∀ p, p ∈ cy_finished s → p ∈ cy_finished s';
}.
#[local] Instance grows_preorder : PreOrder grows.
Proof.
  split; [by split|]. intros s1 s2 s3 [] []. split; eauto. by etrans.
Qed.

Lemma made_grows s s' id e : grows s s' → cy_made s !! id = Some e → cy_made s' !! id = Some e.
Proof. intros [Hm _ _ _ _ _ _ _] He. by eapply lookup_weaken. Qed.
Lemma yes_grows s s' id b : grows s s' → yes s id b → yes s' id b.
Proof. intros [] (q & ? & ?). exists q. eauto. Qed.
Lemma flight_grows s s' f e : grows s s' → flight_ok s f e → flight_ok s' f e.
Proof.
  intros Hg [? ? Hap Hau Hs]. split; try done.
  - intros E. destruct (Hap E). eauto using yes_grows.
  - intros E. specialize (Hau E). destruct (needs_yes e); [|done]. destruct Hau. eauto using yes_grows.
Qed.
Lemma begun_grows s s' b : grows s s' → begun_ok s b → begun_ok s' b.
Proof.
  intros Hg [(e0 & ? & ? & ?) (? & ? & ?) ? ? ? ? ?]. split; try done; try (by apply Hg);
    eauto 10 using made_grows, flight_grows, yes_grows.
  split_and!; try done. by apply Hg.
Qed.
Lemma entry_grows s s' id e :
  grows s s' → (started s' id → started s id) → (∀ p, p ∈ cy_finished s' → rp_id p = id → p ∈ cy_finished s) →
  entry_inv s id e → entry_inv s' id e.
Proof.
  intros Hg Hst Hfs [(e0 & ? & ?) Hy Ho Hs Hun Hfi Hrp]. split.
  - eauto using made_grows.
  - intros H1 H2. destruct (Hy H1 H2). eauto using yes_grows.
  - auto.
  - intros Hin. destruct (Hs Hin) as (b & ? & ?). exists b. split; [by apply Hg|done].
  - intros H1 H2 H3 H4. by apply Hun, Hst.
  - eauto.
  - intros H1. destruct (Hrp H1) as (p & ? & ?). exists p. split; [by apply Hg|done].
Qed.

(** New members, each with its fact, on an otherwise grown system. *)
Lemma ghosts_grow s s' :
  grows s s' → cy_made s' = cy_made s → cy_begun s' = cy_begun s → cy_finished s' = cy_finished s →
  (∀ q, q ∈ cy_asked s' → q ∈ cy_asked s ∨ ∃ e secs, cy_made s !! qu_id q = Some e ∧ needs_yes e = true ∧
     qu_binding q = ce_binding e ∧ qu_request q = confirmation_of (qu_id q) e secs) →
  (∀ q, q ∈ cy_confirmed s' → q ∈ cy_confirmed s ∨ q ∈ cy_asked s) →
  (∀ a, a ∈ cy_approvals s' → a ∈ cy_approvals s ∨ ∃ e, cy_made s !! ra_commitment a = Some e ∧
     ra_binding a = ce_binding e ∧ yes s (ra_commitment a) (ce_binding e)) →
  (∀ f, f ∈ cy_flights s' → f ∈ cy_flights s ∨ ∃ e, cy_made s !! fl_id f = Some e ∧ flight_ok s' f e) →
  ghosts_ok s → ghosts_ok s'.
Proof.
  intros Hg Em Eb Ef Hq Hc Ha Hf [Gm Ga Gc Gp Gf Go Gb Gfi Gr]. split; rewrite ?Em, ?Eb, ?Ef; try done.
  - intros q [?|?]%Hq; auto.
  - intros q [?|?]%Hc; apply Hg; auto.
  - intros a [(e & ? & ? & ?)%Gp|(e & ? & ? & ?)]%Ha; eauto 10 using yes_grows.
  - intros f [(e & ? & ?)%Gf|?]%Hf; eauto using flight_grows.
  - intros b Hb. eauto using begun_grows.
Qed.

Lemma started_same s s' id : cy_begun s' = cy_begun s → started s' id → started s id.
Proof. intros E. unfold started. by rewrite E. Qed.

(** The table under grown ghosts, its world held. *)
Lemma tables_grow s s' :
  grows s s' → cy_world s' = cy_world s → cy_slots s' = cy_slots s → cy_begun s' = cy_begun s →
  cy_finished s' = cy_finished s → tables_ok s → tables_ok s'.
Proof.
  intros Hg Ew Es Eb Ef [Hen Hcap Hsl Hpin]. split; rewrite ?Ew, ?Es; try done.
  intros id e He. eapply entry_grows; [done|by apply started_same|by rewrite Ef|]. by apply Hen.
Qed.
Lemma grows_world s w' : grows s (s <| cy_world := w' |>).
Proof. by split. Qed.

Lemma tables_hold s w' d :
  hold_ok (cy_world s) d w' → tables_ok s → tables_ok (s <| cy_world := w' |>).
Proof.
  intros [[_ Hprep _ _ _ _ _ _ Hret] Ha] [Hen Hcap Hsl Hpin]. split; simpl.
  - intros id e' He'. destruct (accounts_lookup _ _ _ _ _ _ Ha He') as (e & He & _ & [Hs|[r Hr]]).
    + eapply entry_grows; [apply grows_world|done|done|]. by eapply entry_inv_stays, Hen.
    + eapply entry_grows; [apply grows_world|done|done|]. by eapply entry_inv_ends, Hen.
  - rewrite Hprep, <- size_dom, (accounts_dom _ _ _ _ Ha), size_dom. done.
  - by rewrite Hprep.
  - intros run. by rewrite Hret, Hpin, (accounts_pins _ _ _ _ _ Ha).
Qed.

Lemma csys_hold s w' d : hold_ok (cy_world s) d w' → csys_ok s → csys_ok (s <| cy_world := w' |>).
Proof.
  intros Hh [Hg Ht]. split; [|by eapply tables_hold].
  eapply ghosts_grow; [apply grows_world|..]; simpl; auto.
Qed.

Lemma csys_grow s s' :
  grows s s' → cy_world s' = cy_world s → cy_slots s' = cy_slots s → cy_begun s' = cy_begun s →
  cy_finished s' = cy_finished s → ghosts_ok s' → csys_ok s → csys_ok s'.
Proof. intros ? ? ? ? ? ? [_ Ht]. split; [done|]. by eapply tables_grow. Qed.

(** A plain text is shown as it is. *)
Lemma plain_bounded t : is_plain t = true → bounded t = t.
Proof.
  unfold is_plain, bounded. intros [Hlen Hs]%andb_true_iff.
  assert (E : (λ c, if is_control c then 32 else if shown c then c else 0xFFFD) <$> t = t).
  { clear Hlen. induction t as [|c t IH]; [done|]. simpl in Hs. apply andb_true_iff in Hs as [Hc Hs].
    simpl. f_equal; [|by apply IH]. rewrite Hc. unfold shown in Hc. destruct (is_control c); [done|done]. }
  rewrite E. unfold truncated. by rewrite Hlen.
Qed.
Lemma shown_whole p :
  unshowable p = None → bounded (ti_display (pa_target p)) = ti_display (pa_target p) ∧ bounded <$> pa_summary p = pa_summary p.
Proof.
  unfold unshowable. destruct (_ <? _)%nat; [done|]. destruct (negb _) eqn:E; [done|]. intros _.
  apply negb_false_iff, andb_true_iff in E as [E1 E2]. split; [by apply plain_bounded|].
  induction (pa_summary p) as [|l ls IH]; [done|]. simpl in *. apply andb_true_iff in E2 as [? ?].
  f_equal; [by apply plain_bounded|by apply IH].
Qed.

Lemma grown_elem {A B} (r : aresult A) (f : A → B) l x : x ∈ grown r f l → x ∈ l ∨ ∃ a, r = Ok a ∧ x = f a.
Proof. destruct r; simpl; rewrite ?elem_of_cons; naive_solver. Qed.
Lemma grown_sub {A B} (r : aresult A) (f : A → B) l x : x ∈ l → x ∈ grown r f l.
Proof. destruct r; simpl; rewrite ?elem_of_cons; auto. Qed.

Lemma ask_ok s id agent run now r d w' :
  approval_request id agent run now (cy_world s) = (r, d, w') → csys_ok s →
  csys_ok (s <| cy_world := w' |> <| cy_asked := grown r (λ x, MkQuestion id x.1 x.2) (cy_asked s) |>).
Proof.
  intros E Hok. apply approval_request_ok in E as [Hh Hr]. pose proof Hok as [Hg Ht].
  apply (csys_hold _ _ _ Hh) in Hok as Hok'. pose proof Hok' as [Hg' _].
  assert (Hgr : grows (s <| cy_world := w' |>)
    (s <| cy_world := w' |> <| cy_asked := grown r (λ x, MkQuestion id x.1 x.2) (cy_asked s) |>)).
  { split; simpl; auto. intros; by apply grown_sub. }
  eapply csys_grow; [exact Hgr|done|done|done|done| |exact Hok'].
  eapply ghosts_grow; [exact Hgr|done|done|done|..|exact Hg']; simpl; auto.
  intros q [?|([request binding] & -> & ->)]%grown_elem; [by left|right]. simpl.
  destruct (Hr _ _ eq_refl) as (e & secs & He & Hreq & -> & ->).
  destruct (ei_made _ _ _ (to_entries _ Ht _ _ He)) as (e0 & He0 & Hm). exists e0, secs. split; [done|].
  destruct (go_made _ Hg _ _ He0) as (Hshow & _). destruct (shown_whole _ Hshow) as [Et Es].
  unfold needs_yes, confirmation_of. destruct Hm. split_and!; try congruence.
Qed.

Lemma answer_ok s q agent run (confirmed : bool) now r d w' :
  q ∈ cy_asked s → approval_answer (qu_id q) agent run (qu_binding q) confirmed now (cy_world s) = (r, d, w') →
  csys_ok s →
  csys_ok (s <| cy_world := w' |>
             <| cy_confirmed := if confirmed then q :: cy_confirmed s else cy_confirmed s |>
             <| cy_flights := grown r (approve_flight (qu_id q) agent run (qu_binding q)) (cy_flights s) |>).
Proof.
  intros Hq E Hok. apply approval_answer_ok in E as [Hh Hr]. pose proof Hok as [Hg Ht].
  apply (csys_hold _ _ _ Hh) in Hok as Hok'. pose proof Hok' as [Hg' _].
  assert (Hgr : grows (s <| cy_world := w' |>) (s <| cy_world := w' |>
             <| cy_confirmed := if confirmed then q :: cy_confirmed s else cy_confirmed s |>
             <| cy_flights := grown r (approve_flight (qu_id q) agent run (qu_binding q)) (cy_flights s) |>)).
  { split; simpl; auto; [|intros; by apply grown_sub]. intros. destruct confirmed; [by right|done]. }
  eapply csys_grow; [exact Hgr|done|done|done|done| |exact Hok'].
  eapply ghosts_grow; [exact Hgr|done|done|done|..|exact Hg']; simpl; auto.
  - intros q'. destruct confirmed; rewrite ?elem_of_cons; naive_solver.
  - intros f [?|([[token record] cell] & -> & ->)]%grown_elem; [by left|right]. simpl.
    destruct (Hr _ eq_refl) as (-> & e & He & Hb & <- & <-).
    destruct (ei_made _ _ _ (to_entries _ Ht _ _ He)) as (e0 & He0 & Hm). exists e0. split; [done|].
    destruct Hm. split; simpl; try congruence; try done.
    intros _. split; [|congruence]. exists q. simpl. split; [by left|]. split; [done|congruence].
Qed.

Lemma authorize_ok s id agent run approval now r d w' :
  (∀ a, approval = Some a → a ∈ cy_approvals s) → authorization id agent run approval now (cy_world s) = (r, d, w') →
  csys_ok s →
  csys_ok (s <| cy_world := w' |> <| cy_flights := grown r (authorize_flight id agent run) (cy_flights s) |>).
Proof.
  intros Ha E Hok. apply authorization_ok in E as [Hh Hr]. pose proof Hok as [Hg Ht].
  apply (csys_hold _ _ _ Hh) in Hok as Hok'. pose proof Hok' as [Hg' _].
  assert (Hgr : grows (s <| cy_world := w' |>) (s <| cy_world := w' |>
             <| cy_flights := grown r (authorize_flight id agent run) (cy_flights s) |>)).
  { split; simpl; auto. intros; by apply grown_sub. }
  eapply csys_grow; [exact Hgr|done|done|done|done| |exact Hok'].
  eapply ghosts_grow; [exact Hgr|done|done|done|..|exact Hg']; simpl; auto.
  intros f [?|([[[token approved] record] cell] & -> & ->)]%grown_elem; [by left|right]. simpl.
  destruct (Hr _ _ _ _ eq_refl) as (e & He & <- & <- & Happ).
  destruct (ei_made _ _ _ (to_entries _ Ht _ _ He)) as (e0 & He0 & Hm). exists e0. split; [done|].
  rewrite (sm_prepared _ _ Hm) in Happ.
  destruct Hm. split; simpl; try congruence; try done. intros _. unfold needs_yes. destruct (requires_native_approval _).
  - destruct Happ as [Hap ->]. split; [|congruence].
    destruct (go_approvals _ Hg _ (Ha _ Hap)) as (e1 & He1 & _ & q & ? & ? & ?). simpl in *. simplify_eq.
    exists q. done.
  - by destruct Happ.
Qed.

Lemma start_flight_ok s id agent run revalidated parameters now r d w' :
  start id agent run revalidated parameters now (cy_world s) = (r, d, w') → csys_ok s →
  csys_ok (s <| cy_world := w' |>
             <| cy_flights := grown r (start_flight id agent run revalidated parameters) (cy_flights s) |>).
Proof.
  intros E Hok. apply start_ok in E as [Hh Hr]. pose proof Hok as [Hg Ht].
  apply (csys_hold _ _ _ Hh) in Hok as Hok'. pose proof Hok' as [Hg' _].
  assert (Hgr : grows (s <| cy_world := w' |>) (s <| cy_world := w' |>
             <| cy_flights := grown r (start_flight id agent run revalidated parameters) (cy_flights s) |>)).
  { split; simpl; auto. intros; by apply grown_sub. }
  eapply csys_grow; [exact Hgr|done|done|done|done| |exact Hok'].
  eapply ghosts_grow; [exact Hgr|done|done|done|..|exact Hg']; simpl; auto.
  intros f [?|([[token record] cell] & -> & ->)]%grown_elem; [by left|right]. simpl.
  destruct (Hr _ _ _ eq_refl) as (e & n & He & <- & <- & <- & <- & ->).
  destruct (ei_made _ _ _ (to_entries _ Ht _ _ He)) as (e0 & He0 & Hm). exists e0. split; [done|].
  destruct Hm. split; simpl; try congruence; try done. intros _. split_and!; congruence.
Qed.
(** *** The second halves *)

Lemma pins_put m id e e' run :
  m !! id = Some e → same_pin e e' → ce_run e' = ce_run e → pins (<[id := e']> m) run = pins m run.
Proof.
  intros He [Hp _] Hr. apply set_eq. intros k. unfold pins. rewrite !elem_of_dom. unfold is_Some.
  setoid_rewrite map_lookup_filter_Some. simpl. destruct (decide (k = id)) as [->|Hk].
  - rewrite lookup_insert_eq, He. split; intros (x & [= <-] & ?); eexists; (split; [done|]); by rewrite ?Hp, ?Hr in *.
  - by rewrite lookup_insert_ne.
Qed.

Lemma tables_put s s' id e e' rw :
  tables_ok s → grows s s' → cy_world s' = put_entry id e' (cy_world s <| cw_runs := rw |>) →
  same_tables (cw_runs (cy_world s)) rw → cy_slots s' = cy_slots s →
  cw_entries (cy_world s) !! id = Some e → same_made e e' → same_pin e e' →
  (∀ k, k ≠ id → started s' k → started s k) → (∀ p, p ∈ cy_finished s' → rp_id p ≠ id → p ∈ cy_finished s) →
  entry_inv s' id e' → tables_ok s'.
Proof.
  intros [Hen Hcap Hsl Hpin] Hg Ew Hrw Es He Hm Hp Hst Hfs Hi. split; rewrite ?Ew, ?Es; simpl.
  - intros k ek. rewrite lookup_insert_Some. intros [[<- <-]|[Hk Hek]]; [done|].
    eapply entry_grows; [done|by apply Hst| |by apply Hen]. intros p Hpf <-. by apply Hfs.
  - by rewrite map_size_insert_Some by eauto.
  - done.
  - intros run. destruct (frame_runs (cy_world s) rw Hrw) as [_ _ _ _ _ _ _ _ Hret].
    simpl in Hret. rewrite Hret, Hpin. rewrite (pins_put _ _ e) by (done || apply Hm). done.
Qed.

Lemma complete_approve_ok id token agent run now w r d w' :
  complete id token CommitmentState.Prepared agent run approve_final now w = (r, d, w') →
  hold_ok w d w' ∧ ∀ x, r = Ok x → is_Some (cw_entries w !! id).
Proof.
  intros E. apply complete_spec in E; [|done]. destruct r as [[]|]; [|by split].
  destruct E as (e & cancel & owner & rw & He & _ & _ & _ & _ & _ & _ & Hrw & -> & -> & _).
  split; [|by eexists]. eapply put_ok; [done|apply reserve_step|apply frame_runs; by eapply token_admit_same|done].
Qed.

Lemma approved_ok s f binding now r d w' :
  f ∈ cy_flights s → fl_transition f = Transition.Approve → fl_approved f = Some binding →
  complete (fl_id f) (fl_token f) CommitmentState.Prepared (fl_agent f) (fl_run f) approve_final now
    (cy_world s) = (r, d, w') →
  csys_ok s →
  csys_ok (s <| cy_world := w' |>
             <| cy_approvals := grown r (λ _, MkR2Approval (fl_id f) binding) (cy_approvals s) |>).
Proof.
  intros Hf Ht Hb E Hok. apply complete_approve_ok in E as [Hh _]. pose proof Hok as [Hg _].
  apply (csys_hold _ _ _ Hh) in Hok as Hok'. pose proof Hok' as [Hg' _].
  assert (Hgr : grows (s <| cy_world := w' |>) (s <| cy_world := w' |>
             <| cy_approvals := grown r (λ _, MkR2Approval (fl_id f) binding) (cy_approvals s) |>)).
  { split; simpl; auto. intros; by apply grown_sub. }
  eapply csys_grow; [exact Hgr|done|done|done|done| |exact Hok'].
  eapply ghosts_grow; [exact Hgr|done|done|done|..|exact Hg']; simpl; auto.
  intros a [?|(x & -> & ->)]%grown_elem; [by left|right]. simpl.
  destruct (go_flights _ Hg _ Hf) as (e & He & [_ _ Hap _ _]). destruct (Hap Ht) as [Hy Hb'].
  exists e. split; [done|]. split; [congruence|done].
Qed.

Lemma authorized_ok s f now r d w' :
  f ∈ cy_flights s → fl_transition f = Transition.Authorize →
  complete (fl_id f) (fl_token f) CommitmentState.Prepared (fl_agent f) (fl_run f)
    (authorize_final (fl_approved f)) now (cy_world s) = (r, d, w') →
  csys_ok s → csys_ok (s <| cy_world := w' |>).
Proof.
  intros Hf Ht E Hok. apply complete_spec in E; [|done]. destruct r as [[]|error]; [|by eapply csys_hold].
  destruct E as (e & cancel & owner & rw & He & _ & Hst & _ & _ & _ & _ & Hrw & -> & -> & _).
  pose proof Hok as [Hg Hta]. pose proof (to_entries _ Hta _ _ He) as Hi.
  pose proof Hi as [(e0 & He0 & Hm) _ Hon Hsta _ _ Hrp].
  destruct (go_flights _ Hg _ Hf) as (e1 & He1 & [_ _ _ Hau _]). simplify_eq. specialize (Hau Ht).
  split; [eapply ghosts_grow; [apply grows_world|..]; simpl; auto|].
  eapply tables_put; [done|apply grows_world|done|by eapply token_admit_same|done|done|..]; simpl; [by split|by split|done|done|].
  split; simpl.
  - exists e0. split; [done|]. by destruct Hm; split.
  - intros _ Hn. unfold needs_yes in Hn, Hau. simpl in Hn. rewrite (sm_prepared _ _ Hm) in Hn. rewrite Hn in Hau.
    destruct Hau as [Hy ->]. rewrite (sm_binding _ _ Hm). done.
  - intros Hs. exfalso. destruct Hs as (b & Hb1 & Hb2).
    assert (unconsumed (ce_state e) = false) as Hu by (apply Hon; by exists b). by rewrite Hst in Hu.
  - intros Hs. destruct Hsta as (b & Hb1 & Hb2); [|by exists b].
    rewrite !elem_of_cons, elem_of_nil in Hs. right. naive_solver.
  - done.
  - intros p Hp Eid. exfalso. eapply open_unreported; [exact Hi|by rewrite Hst|done|done].
  - done.
Qed.

Lemma begun_step_ok s f now r d w' :
  f ∈ cy_flights s → fl_transition f = Transition.Start → fl_record f ∈ cy_written s →
  complete (fl_id f) (fl_token f) CommitmentState.Authorized (fl_agent f) (fl_run f) start_final now
    (cy_world s) = (r, d, w') →
  csys_ok s → csys_ok (s <| cy_world := w' |> <| cy_begun := begun_with r f now (cy_world s) (cy_begun s) |>).
Proof.
  intros Hf Ht Hw E Hok. apply complete_spec in E; [|done]. destruct r as [t|error].
  2: { apply (csys_hold _ _ _ E) in Hok. destruct s. exact Hok. }
  destruct E as (e & cancel & owner & rw & He & _ & Hst & Ha & Hr & Hc & Hl & Hrw & -> & -> & _).
  unfold begun_with. rewrite He. pose proof Hok as [Hg Hta].
  pose proof (to_entries _ Hta _ _ He) as Hi. pose proof Hi as [(e0 & He0 & Hm) Hy Hon Hsta _ _ Hrp].
  destruct (go_flights _ Hg _ Hf) as (e1 & He1 & Hfo). simplify_eq.
  set (b := MkBeginning (fl_id f) e f now (cy_world s)).
  set (s' := s <| cy_world := _ |> <| cy_begun := _ |>).
  assert (Hgr : grows s s') by (split; simpl; auto; intros; by right).
  assert (Hb : begun_ok s' b).
  { split; simpl; try done.
    - exists e0. split; [done|]. split; [done|]. by eapply flight_grows.
    - rewrite Hr, Ha. by eexists _, _.
    - intros Hn. eapply yes_grows; [exact Hgr|]. apply Hy; [|done]. rewrite Hst. by left. }
  split.
  - destruct Hg as [Gm Ga Gc Gp Gf Go Gb Gfi Gr]. split; simpl; try done.
    + intros g Hgin. destruct (Gf g Hgin) as (x & ? & ?). eauto using flight_grows.
    + apply NoDup_cons. split; [|done]. intros (b' & Hb1 & Hb2)%list_elem_of_fmap.
      assert (unconsumed (ce_state e) = false) as Hu by (apply Hon; by exists b'). by rewrite Hst in Hu.
    + intros b'. rewrite elem_of_cons. intros [->|Hb']; [done|]. by eapply begun_grows, Gb.
  - eapply tables_put; [done|exact Hgr|done|by eapply token_admit_same|done|done|..]; simpl; [by split|by split| |done|].
    + intros k Hk (b' & Hb1 & Hb2). simpl in Hb1. rewrite elem_of_cons in Hb1.
      destruct Hb1 as [->|Hb1]; [done|by exists b'].
    + assert (started s' (fl_id f)) by (exists b; split; [by left|done]). split; simpl; try done.
      * exists e0. split; [done|]. by destruct Hm; split.
      * intros _ Hn. destruct Hy as [Hy1 Hy2]; [rewrite Hst; by left|done|].
        split; [by eapply yes_grows|done].
      * intros p Hp Eid. exfalso. eapply open_unreported; [exact Hi|by rewrite Hst|done|done].
Qed.
(** *** Room, pins and what is around *)

Lemma pins_pruned m m' run : pruned m m' → pins m' run = pins m run.
Proof.
  intros [Hsub Hout]. apply set_eq. intros id. unfold pins. rewrite !elem_of_dom. unfold is_Some.
  setoid_rewrite map_lookup_filter_Some. simpl. split; intros (e & He & Hp & Hr).
  - exists e. split; [by eapply lookup_weaken|done].
  - exists e. split; [|done]. destruct (m' !! id) as [e'|] eqn:E'.
    + rewrite <- He. symmetry. by eapply lookup_weaken.
    + destruct (Hout _ _ He E') as [_ Hf]. congruence.
Qed.

(** The table pruned, its world otherwise moved. *)
Lemma tables_pruned s s' :
  grows s s' → (∀ id, started s' id → started s id) → cy_finished s' = cy_finished s →
  pruned (cw_entries (cy_world s)) (cw_entries (cy_world s')) →
  (∀ run, retained_of (cw_runs (cy_world s')) run = retained_of (cw_runs (cy_world s)) run) →
  Z.of_nat (size (cw_entries (cy_world s'))) + cw_preparations (cy_world s') ≤ CAPACITY →
  Z.of_nat (length (cy_slots s')) ≤ cw_preparations (cy_world s') →
  tables_ok s → tables_ok s'.
Proof.
  intros Hg Hst Hfs Hpr Hret Hcap Hsl [Hen _ _ Hpin]. split; try done.
  - intros id e He. eapply entry_grows; [done|by apply Hst|by rewrite Hfs|]. apply Hen. by eapply lookup_weaken, Hpr.
  - intros run. by rewrite Hret, Hpin, (pins_pruned _ _ _ Hpr).
Qed.

Lemma around_ok s w' : around (cy_world s) w' → csys_ok s → csys_ok (s <| cy_world := w' |>).
Proof.
  intros [He Hp _ _ _ Hr] [Hg Ht]. split; [eapply ghosts_grow; [apply grows_world|..]; simpl; auto|].
  pose proof Ht as [_ Hcap Hsl _].
  eapply tables_pruned; [apply grows_world|done|done|..|exact Ht]; simpl; rewrite ?He, ?Hp; try done. apply pruned_refl.
Qed.

Lemma gating_around r w x w' : write_gating r w = (x, w') → around w w'.
Proof. unfold write_gating. destruct (write_record r (cw_sink w)). intros [= _ <-]. by split. Qed.

Lemma written_ok s r seq w' :
  write_gating r (cy_world s) = (Ok seq, w') → csys_ok s →
  csys_ok (s <| cy_world := w' |> <| cy_written := r :: cy_written s |>).
Proof.
  intros E Hok. apply gating_around in E. apply (around_ok _ _ E) in Hok as Hok'. pose proof Hok' as [Hg' _].
  assert (Hgr : grows (s <| cy_world := w' |>) (s <| cy_world := w' |> <| cy_written := r :: cy_written s |>)).
  { split; simpl; auto. intros; by right. }
  eapply csys_grow; [exact Hgr|done|done|done|done| |exact Hok'].
  eapply ghosts_grow; [exact Hgr|done|done|done|..|exact Hg']; simpl; auto.
Qed.

(** Slots taken and given back: the ghosts other than the slots stay. *)
Lemma slots_ok s w' slots :
  pruned (cw_entries (cy_world s)) (cw_entries w') →
  (∀ run, retained_of (cw_runs w') run = retained_of (cw_runs (cy_world s)) run) →
  Z.of_nat (size (cw_entries w')) + cw_preparations w' ≤ CAPACITY →
  Z.of_nat (length slots) ≤ cw_preparations w' →
  csys_ok s → csys_ok (s <| cy_world := w' |> <| cy_slots := slots |>).
Proof.
  intros ? ? ? ? [Hg Ht]. assert (Hgr : grows s (s <| cy_world := w' |> <| cy_slots := slots |>)) by by split.
  split; [eapply ghosts_grow; [exact Hgr|..]; simpl; auto|]. by eapply tables_pruned.
Qed.

Lemma slot_ok s cell r w' :
  reserve_preparation cell (cy_world s) = (r, w') → csys_ok s →
  csys_ok (s <| cy_world := w' |> <| cy_slots := grown r (λ c, c) (cy_slots s) |>).
Proof.
  intros E Hok. apply reserve_preparation_ok in E as (Hpr & Hret & _ & _ & Hr). pose proof Hok as [_ [_ Hcap Hsl _]].
  apply slots_ok; try done; destruct r; simpl in *.
  - lia.
  - rewrite Hr. pose proof (pruned_size _ _ Hpr). lia.
  - lia.
  - lia.
Qed.

Lemma unslot_ok s cell slots :
  cy_slots s ≡ₚ cell :: slots → csys_ok s →
  csys_ok (s <| cy_world := slot_release cell (cy_world s) |> <| cy_slots := slots |>).
Proof.
  intros Hp Hok. pose proof Hok as [_ [_ Hcap Hsl _]].
  destruct (slot_release_ok cell (cy_world s)) as (Ee & Er & _ & _ & Ep).
  apply slots_ok; try done; rewrite ?Ee, ?Ep.
  - apply pruned_refl.
  - destruct (cw_poisoned _); lia.
  - apply Permutation_length in Hp. simpl in Hp. destruct (cw_poisoned _); lia.
Qed.
Lemma pins_insert m id e run :
  m !! id = None →
  pins (<[id := e]> m) run = if ce_pinned e && bool_decide (ce_run e = run) then {[id]} ∪ pins m run else pins m run.
Proof.
  intros Hn. unfold pins. destruct (ce_pinned e) eqn:Ep; simpl; [case_bool_decide as Er|].
  - rewrite map_filter_insert_True by done. by rewrite dom_insert_L.
  - rewrite map_filter_insert_False by naive_solver. by rewrite delete_id.
  - rewrite map_filter_insert_False by (simpl; rewrite Ep; naive_solver). by rewrite delete_id.
Qed.
Lemma pins_not m id run : m !! id = None → id ∉ pins m run.
Proof. intros Hn. unfold pins. rewrite elem_of_dom. intros [e He]. apply map_lookup_filter_Some in He. naive_solver. Qed.

(** A commitment made: not known before, so not begun before. *)
Lemma unmade_new s id : csys_ok s → cy_made s !! id = None → cw_entries (cy_world s) !! id = None ∧ ¬ started s id.
Proof.
  intros [Hg Ht] Hn. split.
  - destruct (cw_entries (cy_world s) !! id) as [e|] eqn:E; [|done].
    destruct (ei_made _ _ _ (to_entries _ Ht _ _ E)) as (e0 & ? & _). congruence.
  - intros (b & Hb & <-). destruct (bo_made _ _ (go_begun _ Hg _ Hb)) as (e0 & ? & _). congruence.
Qed.

Lemma made_grows_ok s id e w' slots :
  cy_made s !! id = None → unshowable (ce_prepared e) = None → pa_grants (ce_prepared e) ≠ [] →
  ce_binding e = binding_of id (ce_agent e) (ce_run e) (ce_prepared e) (ce_salted e) (ce_generation e) (ce_deadline_ms e) →
  let s' := s <| cy_world := w' |> <| cy_slots := slots |> <| cy_made := <[id := e]> (cy_made s) |> in
  ghosts_ok s → grows s s' ∧ ghosts_ok s'.
Proof.
  intros Hn Hu Hgr Hb s' Hg. assert (Hgrows : grows s s').
  { split; simpl; auto. by apply insert_subseteq. }
  split; [done|]. destruct Hg as [Gm Ga Gc Gp Gf Go Gb Gfi Gr]. split; simpl; try done.
  - intros k ek [[<- <-]|[_ Hk]]%lookup_insert_Some; [done|by apply Gm].
  - intros q Hq. destruct (Ga q Hq) as (x & secs & ? & ?). exists x, secs. split; [|done]. by eapply (made_grows s s').
  - intros a Ha. destruct (Gp a Ha) as (x & ? & ? & ?). exists x. split; [by eapply (made_grows s s')|done].
  - intros f Hf. destruct (Gf f Hf) as (x & ? & ?). exists x. split; [by eapply (made_grows s s')|by eapply flight_grows].
  - intros b Hbg. by eapply begun_grows, Gb.
  - intros p Hp. destruct (Gfi p Hp) as [x Hx]. exists x. by eapply (made_grows s s').
Qed.

Lemma insert_ok s id nonce agent run p ttl privacy now0 w0 slot slots now refused d w' :
  cy_made s !! id = None → pa_grants p ≠ [] → unshowable p = None → cy_slots s ≡ₚ option_list slot ++ slots →
  let e := new_commitment id nonce agent run p ttl privacy now0 w0 in
  insert_commitment id e slot now (cy_world s) = (refused, d, w') → csys_ok s →
  csys_ok (s <| cy_world := w' |> <| cy_slots := slots |> <| cy_made := <[id := e]> (cy_made s) |>).
Proof.
  intros Hn Hgr Hu Hs e E Hok. destruct (unmade_new _ _ Hok Hn) as [Hne Hns]. pose proof Hok as [Hg Ht].
  apply insert_commitment_ok in E as (m & Hpr & Hprep & _ & _ & Hret & Hcase); [|done].
  destruct (made_grows_ok s id e w' slots Hn Hu Hgr eq_refl Hg) as [Hgrows Hg'].
  pose proof Ht as [Hen Hcap Hsl Hpin]. pose proof (pruned_size _ _ Hpr) as Hsize.
  assert (Hlen : Z.of_nat (length slots) ≤ cw_preparations w').
  { apply Permutation_length in Hs. rewrite length_app in Hs. rewrite Hprep. destruct slot; simpl in *; lia. }
  split; [done|]. destruct refused as [error|].
  - destruct Hcase as [<- _]. eapply tables_pruned; [exact Hgrows|done|done|done| | | |exact Ht]; simpl; try done.
    + intros k. rewrite Hret. rewrite andb_false_r. lia.
    + rewrite Hprep. destruct slot; simpl; lia.
  - destruct Hcase as (_ & Hroom & owner & Hent).
    assert (Hnm : m !! id = None).
    { destruct (m !! id) as [x|] eqn:Em; [|done]. destruct Hpr as [Hsub _].
      pose proof (lookup_weaken _ _ _ _ Em Hsub). congruence. }
    split; simpl; try done.
    + intros k ek. rewrite Hent, lookup_insert_Some. intros [[<- <-]|[Hk Hek]].
      * split; simpl.
        -- exists e. rewrite lookup_insert_eq. split; [done|by split].
        -- rewrite !elem_of_cons, elem_of_nil. naive_solver.
        -- intros (b & Hb1 & Hb2). exfalso. apply Hns. by exists b.
        -- rewrite !elem_of_cons, elem_of_nil. naive_solver.
        -- done.
        -- intros rp Hp Eid. exfalso. destruct (go_finished _ Hg rp Hp) as [x Hx]. congruence.
        -- done.
      * eapply entry_grows; [exact Hgrows|done|done|]. apply Hen. by eapply lookup_weaken, Hpr.
    + rewrite Hent, map_size_insert_None by done. lia.
    + intros k. rewrite Hret, Hpin, Hent, pins_insert by done. simpl.
      rewrite <- (pins_pruned _ _ k Hpr). unfold is_files. simpl.
      rewrite (bool_decide_ext (run = k) (k = run)) by naive_solver.
      destruct (_ && _); [|lia]. rewrite size_union by (apply disjoint_singleton_l; by apply pins_not).
      rewrite size_singleton. lia.
Qed.

Lemma ack_step_ok s id agent owner r w' :
  ack id agent owner (cy_world s) = (r, w') → csys_ok s → csys_ok (s <| cy_world := w' |>).
Proof.
  intros [->|(e & rw & _ & He & Hp & Hf & _ & -> & Hret)]%ack_ok Hok; [by destruct s|].
  destruct Hok as [Hg Ht]. split; [eapply ghosts_grow; [apply grows_world|..]; simpl; auto|].
  pose proof Ht as [Hen Hcap Hsl Hpin]. split; simpl; try done.
  - intros k ek [[<- <-]|[Hk Hek]]%lookup_insert_Some.
    + eapply entry_grows; [apply grows_world|done|done|]. eapply entry_inv_stays; [|by apply Hen]. repeat split.
    + eapply entry_grows; [apply grows_world|done|done|by apply Hen].
  - by rewrite map_size_insert_Some by eauto.
  - intros run. rewrite Hret, Hpin. clear -He Hp.
    rewrite <- (insert_delete_id _ _ _ He) at 1. rewrite <- (insert_delete_eq (cw_entries (cy_world s)) id).
    rewrite !pins_insert by apply lookup_delete_eq. simpl. rewrite Hp. simpl.
    rewrite (bool_decide_ext (ce_run e = run) (run = ce_run e)) by naive_solver.
    case_bool_decide; [|lia].
    rewrite size_union by (apply disjoint_singleton_l; apply pins_not, lookup_delete_eq). rewrite size_singleton. lia.
Qed.
Lemma drop_step_ok s id token cell :
  csys_ok s → csys_ok (s <| cy_world := reserved_drop id token cell (cy_world s) |>).
Proof.
  intros Hok. destruct (cw_poisoned (cy_world s)) eqn:Hp; [|by eapply csys_hold; [apply reserved_drop_ok|]].
  unfold reserved_drop. rewrite Hp. destruct cell as [c|]; [|by destruct s].
  apply around_ok; [|done]. by split.
Qed.

(** A report taken: the entry reads as reported, and this is its first report. *)
Lemma finish_step_ok s id t0 o cancelled handoff now d w' :
  finish_hold id t0 o cancelled handoff now (cy_world s) = (d, w') → csys_ok s →
  csys_ok (s <| cy_world := w' |> <| cy_finished := taken d (MkReport id o handoff) (cy_finished s) |>).
Proof.
  intros E Hok. apply finish_hold_ok in E. destruct d as [d|]; [|subst; by destruct s].
  destruct E as [[Hf Ha] (e & e' & He & Hs & -> & Hfin)]. pose proof Hok as [Hg Ht].
  pose proof (to_entries _ Ht _ _ He) as Hi. pose proof Hi as [(e0 & He0 & Hm) Hy Hon Hsta Hun Hfi Hrp].
  assert (Hopen : CommitmentState.is_final (ce_state e) = false) by by rewrite Hs.
  set (s' := s <| cy_world := _ |> <| cy_finished := _ |>).
  assert (Hgr : grows s s') by (split; simpl; auto; intros; by right).
  destruct (accounts_lookup _ _ _ _ id e' Ha) as (x & Hx & Hpin & Hse); [apply lookup_insert_eq|].
  assert (x = e) as -> by congruence.
  assert (Hm' : same_made e e').
  { destruct Hse as [[]|(r & [])]; done. }
  assert (Hst : started s id) by (apply Hsta; left; rewrite Hs; by left).
  split.
  - destruct Hg as [Gm Ga Gc Gp Gf Go Gb Gfi Gr]. split; simpl; try done.
    + intros g Hgin. destruct (Gf g Hgin) as (y & ? & ?). eauto using flight_grows.
    + intros b Hb. by eapply begun_grows, Gb.
    + intros p. rewrite elem_of_cons. intros [->|Hp]; [by eexists|by apply Gfi].
    + apply NoDup_cons. split; [|done]. intros (p & Ep & Hp)%list_elem_of_fmap.
      by eapply open_unreported.
  - destruct Ht as [Hen Hcap Hsl Hpins]. split; simpl; try done.
    + intros k ek [[<- <-]|[Hk Hek]]%lookup_insert_Some.
      2: { eapply entry_grows; [exact Hgr|done| |by apply Hen]. simpl. intros p. rewrite elem_of_cons. intros [->|?]; done. }
      pose proof Hfin as [Hfs _ Hst' _ _]. split; simpl.
      * exists e0. split; [done|]. by etrans.
      * rewrite Hst', !elem_of_cons, elem_of_nil. destruct o; naive_solver.
      * intros _. rewrite Hst'. by destruct o.
      * done.
      * intros _ [?|Hin]; [congruence|]. exfalso. rewrite Hst', !elem_of_cons, elem_of_nil in Hin. destruct o; naive_solver.
      * intros p. rewrite elem_of_cons. intros [->|Hp] Eid; [done|]. exfalso. by eapply open_unreported.
      * intros _. eexists. split; [by left|done].
    + by rewrite map_size_insert_Some by eauto.
    + intros run. by rewrite Hpins, (pins_put _ _ e) by (done || apply Hm').
Qed.

Lemma cstep_ok s d s' : cstep s d s' → csys_ok s → csys_ok s'.
Proof.
  destruct 1; eauto using around_ok, written_ok, slot_ok, unslot_ok, insert_ok, ask_ok, answer_ok, authorize_ok,
    start_flight_ok, approved_ok, authorized_ok, begun_step_ok, drop_step_ok, ack_step_ok, csys_hold, handoff_ok,
    finish_step_ok, fail_unstarted_ok, deny_ok, revoke_where_ok, sweep_ok, refuse_pending_ok, bind_request_ok.
Qed.

Lemma cstep_grows s d s' : cstep s d s' → grows s s'.
Proof.
  destruct 1; split; simpl; auto; try (intros; by right); try (intros; by apply grown_sub).
  - by apply insert_subseteq.
  - intros q' Hq. destruct confirmed; [by right|done].
  - intros b Hb. unfold begun_with. destruct r, (cw_entries (cy_world s) !! fl_id f); simpl; try done. by right.
  - intros p Hp. destruct d; [by right|done].
Qed.

Lemma csteps_ok s s' : csteps s s' → csys_ok s → csys_ok s'.
Proof. induction 1 as [|s1 s2 s3 [d Hd] _ IH]; [done|]. intros Hok. by eapply IH, cstep_ok. Qed.
Lemma csteps_grow s s' : csteps s s' → grows s s'.
Proof. induction 1 as [|s1 s2 s3 [d Hd] _ IH]; [done|]. etrans; [by eapply cstep_grows|done]. Qed.

Lemma fresh_ok s : fresh_sys s → csys_ok s.
Proof.
  intros [E1 E2 E3 E4 E5 E6 E7 E8 E9 E10 E11]. split; split; rewrite ?E1, ?E2, ?E4, ?E5, ?E6, ?E7, ?E8, ?E9, ?E10, ?E11;
    try (by intros ? ? ?%lookup_empty_Some); try (by intros ? ?%elem_of_nil); try done; try constructor.
Qed.
End Steps.
