(* ===== verification/AuthCommitSafety.v ===== *)
(** * Commitments: the safety theorems

    What [AuthCommitProps]'s invariant gives: an effect starts at most once and covered,
    a commitment only moves forward, every end is owed one record and its leases, the
    publication class is what its guard reported, the pins are the runs' retained counts. *)

From S2P Require Import Prelude Hash AuthBase AuthText HaltCell AuthGrants AuthHalt AuthRuns AuthRunsInv AuthRunsProps AuthCommit AuthCommitInv AuthCommitProps.

Local Open Scope Z_scope.
Local Open Scope nexus_scope.
#[local] Arguments lit : simpl never.

Section Safety.
Context {crates : Crates} {S : Type} {sink : EvidenceSink S}.
Implicit Types (w : CommitWorld S) (s : CSys S).

(** ** Starts *)

(** What stood behind a start, in the hold that made it. *)
Record covered s (b : Beginning S) : Prop := {
  cv_recorded : ∃ r, r ∈ cy_written s ∧ er_phase r = EvidencePhase.Started ∧
    er_commitment r = Some (CommitmentId_display (bg_id b)) ∧
    er_target_digest r = Some (Digest_to_hex (ti_digest (pa_target (ce_prepared (bg_entry b))))) ∧
    er_parameters_digest r = Some (Digest_to_hex (ce_salted (bg_entry b)));
  cv_revalidated : fl_revalidated (bg_flight b) = ti_digest (pa_target (ce_prepared (bg_entry b))) ∧
    fl_parameters (bg_flight b) = pa_parameters (ce_prepared (bg_entry b));
  cv_running : ∃ cancel owner,
    run_check (ce_run (bg_entry b)) (ce_agent (bg_entry b)) (ce_request (bg_entry b)) (bg_world b) = Ok (cancel, owner);
  cv_in_time : nw_mono (bg_now b) < ce_deadline_ms (bg_entry b) ∧ nw_wall (bg_now b) < ce_expires_wall_ms (bg_entry b);
  cv_policy : cw_generation (bg_world b) = ce_generation (bg_entry b);
  cv_grants : pa_grants (ce_prepared (bg_entry b)) ≠ [] ∧
    ∀ g, g ∈ pa_grants (ce_prepared (bg_entry b)) →
      is_Some (live_at g (nw_mono (bg_now b)) (nw_wall (bg_now b)) (cw_grants (bg_world b)));
  cv_owner : requires_native_approval (pa_class (ce_prepared (bg_entry b))) = true →
    ∃ q secs, q ∈ cy_confirmed s ∧ qu_id q = bg_id b ∧ qu_binding q = ce_binding (bg_entry b) ∧
      qu_request q = confirmation_of (bg_id b) (bg_entry b) secs;
}.

Lemma lapsed_none e now w :
  lapsed e now w = None →
  nw_mono now < ce_deadline_ms e ∧ nw_wall now < ce_expires_wall_ms e ∧ cw_generation w = ce_generation e ∧
  ∀ g, g ∈ pa_grants (ce_prepared e) → is_Some (live_at g (nw_mono now) (nw_wall now) (cw_grants w)).
Proof.
  unfold lapsed. destruct (_ || _) eqn:E1; [done|]. destruct (negb _) eqn:E2; [done|].
  destruct (existsb _ _) eqn:E3; [done|]. intros _. split_and!; [lia|lia|lia|].
  intros g Hg. destruct (live_at _ _ _ _) eqn:El; [by eexists|]. exfalso.
  apply not_true_iff_false in E3. apply E3, existsb_exists. exists g. split; [by apply list_elem_of_In|].
  by rewrite bool_decide_true.
Qed.

Lemma confirmation_made id e0 e secs : same_made e0 e → confirmation_of id e secs = confirmation_of id e0 secs.
Proof. intros []. unfold confirmation_of. congruence. Qed.

Lemma begun_covered s b : csys_ok s → b ∈ cy_begun s → covered s b.
Proof.
  intros [Hg Ht] Hb. destruct (go_begun _ Hg _ Hb) as [(e0 & He0 & Hm & [_ _ _ _ Hst]) (_ & Eid & Htr) Hs Hw Hr Hl Hy].
  destruct (Hst Htr) as (E1 & E2 & E3 & E4 & E5 & E6). destruct (lapsed_none _ _ _ Hl) as (? & ? & ? & Hgr).
  destruct (go_made _ Hg _ _ He0) as (_ & Hne & _). pose proof Hm as [_ _ _ Ep _ _ _ _ Esalt Eb]. split; try done.
  - exists (fl_record (bg_flight b)). rewrite Ep, Esalt, <- Eid. split_and!; done.
  - by rewrite Ep.
  - by rewrite Ep in *.
  - intros Hn. destruct (Hy Hn) as (q & Hq & Eq & Hqb).
    destruct (go_asked _ Hg q (go_confirmed _ Hg _ Hq)) as (e1 & secs & He1 & _ & _ & Hreq).
    rewrite Eq in He1, Hreq. assert (e1 = e0) as -> by congruence.
    exists q, secs. by rewrite (confirmation_made _ _ _ _ Hm).
Qed.

(** C1. In every run of the commitments, whatever the calls and however they interleave,
    an effect starts at most once, and only covered: its start was recorded before, for
    exactly its target and its parameters, both revalidated; its run was active, its
    deadlines ahead on both clocks, the policy generation the one it was made under and
    every grant it relies on live in the hold that started it; and if its class needs
    the Owner, the Owner said yes to a dialog that showed its whole target and summary,
    bound to this very commitment. *)
Theorem effect_starts_once_covered s0 s :
  fresh_sys s0 → csteps s0 s →
  NoDup (bg_id <$> cy_begun s) ∧ ∀ b, b ∈ cy_begun s → covered s b.
Proof.
  intros H0 Hs. assert (Hok : csys_ok s) by (eapply csteps_ok, fresh_ok; done).
  split; [apply Hok|]. intros b. by apply begun_covered.
Qed.

(** ** A commitment's life *)

Definition rank (s : CommitmentState.t) : Z :=
  match s with
  | CommitmentState.Prepared => 0
  | CommitmentState.Authorized => 1
  | CommitmentState.Executing => 2
  | _ => 3
  end.
Record forward (e e' : Entry) : Prop := {
  fw_made : same_made e e';
  fw_rank : rank (ce_state e) ≤ rank (ce_state e');
  fw_final : CommitmentState.is_final (ce_state e) = true → ce_state e' = ce_state e ∧ same_outcome e e';
  fw_approval : ∀ a, ce_approval e = Some a → ce_state e ≠ CommitmentState.Prepared → ce_approval e' = Some a;
}.
#[local] Instance forward_preorder : PreOrder forward.
Proof.
  split; [intros e; split; auto; try lia; done|]. intros e1 e2 e3 [M1 R1 F1 A1] [M2 R2 F2 A2]. split.
  - by etrans.
  - lia.
  - intros H1. destruct (F1 H1) as [E1 O1]. rewrite <- E1 in H1. destruct (F2 H1) as [E2 O2].
    split; [congruence|by etrans].
  - intros a Ha Hn. apply A2; [by apply A1|]. intros E. rewrite E in R1. destruct (ce_state e1); simpl in R1; try lia; done.
Qed.

Lemma stays_forward e e' : stays e e' → forward e e'.
Proof. intros [Hm Ho Hs Ha]. split; rewrite ?Hs, ?Ha; auto. lia. Qed.
Lemma ends_forward fin id e e' r : ends_by fin id e e' r → forward e e'.
Proof.
  intros [Hm Hopen Hf _ Ha _ _ _]. split; [done| |congruence|by rewrite Ha].
  destruct (ce_state e), (ce_state e'); simpl in *; try done; lia.
Qed.

Lemma hold_forward fin w d w' id e' :
  hold_by fin w d w' → cw_entries w' !! id = Some e' → ∃ e, cw_entries w !! id = Some e ∧ forward e e'.
Proof.
  intros [_ Ha] He'. destruct (accounts_lookup _ _ _ _ _ _ Ha He') as (e & He & _ & [Hs|[r Hr]]);
    exists e; eauto using stays_forward, ends_forward.
Qed.

(** ** Kinds of steps *)

(** A step holds the table, prunes it, moves one entry forward, or makes one. *)
Inductive step_kind s (d : Deferred) s' : Prop :=
| sk_hold fin : hold_by fin (cy_world s) d (cy_world s') → cy_made s' = cy_made s → step_kind s d s'
| sk_prune :
    d = nothing_owed → pruned (cw_entries (cy_world s)) (cw_entries (cy_world s')) → cy_made s' = cy_made s →
    step_kind s d s'
| sk_forward id e e' rw :
    d = nothing_owed → cw_entries (cy_world s) !! id = Some e → forward e e' →
    (CommitmentState.is_final (ce_state e') = true → CommitmentState.is_final (ce_state e) = true) →
    cy_world s' = put_entry id e' (cy_world s <| cw_runs := rw |>) → cy_made s' = cy_made s → step_kind s d s'
| sk_make id e slot now refused :
    cy_made s !! id = None → ce_state e = CommitmentState.Prepared →
    insert_commitment id e slot now (cy_world s) = (refused, d, cy_world s') →
    cy_made s' = <[id := e]> (cy_made s) → step_kind s d s'.

Lemma same_entries_kind s s' :
  cw_entries (cy_world s') = cw_entries (cy_world s) → cy_made s' = cy_made s → step_kind s nothing_owed s'.
Proof. intros E Em. apply sk_prune; [done| |done]. rewrite E. apply pruned_refl. Qed.

Lemma complete_kind {T} s s' id token expected agent run (fin : Entry → CancelToken → Entry * T) now r d :
  unconsumed expected = true →
  (∀ e c, ce_state e = expected → forward e (fin e c).1 ∧ CommitmentState.is_final (ce_state (fin e c).1) = false) →
  cy_made s' = cy_made s →
  complete id token expected agent run fin now (cy_world s) = (r, d, cy_world s') → step_kind s d s'.
Proof.
  intros Hun Hfin Em E. apply complete_spec in E; [|done]. destruct r; [|by eapply sk_hold].
  destruct E as (e & cancel & owner & rw & He & _ & Hs & _ & _ & _ & _ & _ & -> & E & _).
  destruct (Hfin (e <| ce_reserved := None |>) cancel) as [Hf Ho]; [exact Hs|].
  apply (sk_forward _ _ _ id e (fin (e <| ce_reserved := None |>) cancel).1 rw); try done; [|by rewrite Ho].
  etrans; [|exact Hf]. apply stays_forward. repeat split.
Qed.

Lemma cstep_kind s d s' : cstep s d s' → step_kind s d s'.
Proof.
  destruct 1 as [s w' Ha|s r seq w' E|s cell r w' E|s cell slots Hp|s id nonce agent run p ttl privacy now0 w0 w1 slot slots now refused d w' Hn _ _ _ _ E|
    s id agent run now r d w' E|s id agent run b now r d w' E|s q agent run confirmed now r d w' _ E|
    s id agent run approval now r d w' _ E|s id agent run rv pm now r d w' E|s f b now r d w' _ _ _ _ E|
    s f now r d w' _ _ _ E|s f now r d w' _ _ _ E|s id token cell|s id started o cancelled handoff now d w' E|
    s id agent run reason now r d w' E|s id agent run now r d w' E|s pick reason now w' d E|s now w' d n E|
    s id now w' d E|s id agent owner r w' E|s id agent run request r w' E].
  - apply same_entries_kind; [apply Ha|done].
  - apply same_entries_kind; [by eapply gating_around, E|done].
  - apply reserve_preparation_ok in E as [Hpr _]. by apply sk_prune.
  - apply same_entries_kind; [apply slot_release_ok|done].
  - by eapply sk_make; [done| |exact E|].
  - eapply sk_hold; [apply (approval_request_ok _ _ _ _ _ _ _ _ E)|done].
  - eapply sk_hold; [eapply handoff_ok, E|done].
  - eapply sk_hold; [apply (approval_answer_ok _ _ _ _ _ _ _ _ _ _ E)|done].
  - eapply sk_hold; [apply (authorization_ok _ _ _ _ _ _ _ _ _ E)|done].
  - eapply sk_hold; [apply (start_ok _ _ _ _ _ _ _ _ _ _ E)|done].
  - eapply sk_hold; [apply (complete_approve_ok _ _ _ _ _ _ _ _ _ E)|done].
  - eapply complete_kind; [| |done|exact E]; [done|]. intros e c Hs. split; [|done]. split; simpl; rewrite ?Hs; done.
  - eapply complete_kind; [| |done|exact E]; [done|]. intros e c Hs. split; [|done]. split; simpl; rewrite ?Hs; done.
  - destruct (cw_poisoned (cy_world s)) eqn:Hp; [|eapply sk_hold; [by apply reserved_drop_ok|done]].
    apply same_entries_kind; [|done]. unfold reserved_drop. simpl. rewrite Hp. by destruct cell.
  - apply finish_hold_ok in E. destruct d; [eapply sk_hold; [apply E|done]|]. subst. by apply same_entries_kind.
  - eapply sk_hold; [eapply fail_unstarted_ok, E|done].
  - eapply sk_hold; [eapply deny_ok, E|done].
  - eapply sk_hold; [eapply revoke_where_ok, E|done].
  - eapply sk_hold; [eapply sweep_ok, E|done].
  - eapply sk_hold; [eapply refuse_pending_ok, E|done].
  - apply ack_ok in E as [->|(e & rw & _ & He & _ & _ & _ & -> & _)]; [by apply same_entries_kind|].
    by apply (sk_forward _ _ _ id e (e <| ce_pinned := false |>) rw).
  - eapply sk_hold; [eapply bind_request_ok, E|done].
Qed.

(** What was known before a step came from an entry it moved forward. *)
Lemma cstep_forward s d s' id e' :
  cstep s d s' → cw_entries (cy_world s') !! id = Some e' → is_Some (cy_made s !! id) →
  ∃ e, cw_entries (cy_world s) !! id = Some e ∧ forward e e'.
Proof.
  intros [fin Hh _|_ [Hsub _] _|k ek ek' rw _ Hek Hf _ Ew _|k ek slot now refused Hn Hek E _]%cstep_kind He' Hm.
  - by eapply hold_forward.
  - exists e'. split; [by eapply lookup_weaken|done].
  - rewrite Ew in He'. simpl in He'. apply lookup_insert_Some in He' as [[<- <-]|[_ He']]; [eauto|]. by exists e'.
  - apply insert_commitment_ok in E as (m & [Hsub _] & _ & _ & _ & _ & Hc); [|by rewrite Hek].
    exists e'. split; [|done]. eapply lookup_weaken, Hsub. destruct refused.
    + destruct Hc as [<- _]. done.
    + destruct Hc as (_ & _ & owner & Em). rewrite Em in He'.
      apply lookup_insert_Some in He' as [[<- _]|[_ ?]]; [destruct Hm; congruence|done].
Qed.

Lemma csteps_forward s s' id e' :
  csteps s s' → csys_ok s → cw_entries (cy_world s') !! id = Some e' → is_Some (cy_made s !! id) →
  ∃ e, cw_entries (cy_world s) !! id = Some e ∧ forward e e'.
Proof.
  intros Hs Hok He'. revert e' He'. induction Hs as [|s1 s2 s3 [d Hd] Hs IH]; intros e' He' Hm; [by exists e'|].
  destruct (IH (cstep_ok _ _ _ Hd Hok) e' He') as (e2 & He2 & Hf2).
  { destruct Hm as [x Hx]. exists x. by eapply made_grows, Hx; eapply cstep_grows. }
  destruct (cstep_forward _ _ _ _ _ Hd He2 Hm) as (e & He & Hf). exists e. split; [done|by etrans].
Qed.

Lemma forward_publication e e' :
  forward e e' → CommitmentState.is_final (ce_state e) = true → publication e' = publication e.
Proof.
  intros [[] _ Hf _] H. destruct (Hf H) as [Es [Ei Er Ef Efl Eh]]. unfold publication.
  rewrite Es, Ei, Er, Ef, Efl, Eh, sm_prepared. done.
Qed.

(** C11. A commitment only moves forward, from Prepared to Authorized to Executing to an
    end: between any two moments, whatever happens meanwhile, what it was made with (its
    agent, run, action, deadlines and binding) is unchanged, its state never goes back,
    an ended one keeps its state and its publication class, and one no longer kept never
    comes back. *)
Theorem commitment_life s0 s s' id :
  fresh_sys s0 → csteps s0 s → csteps s s' → is_Some (cy_made s !! id) →
  match cw_entries (cy_world s) !! id, cw_entries (cy_world s') !! id with
  | Some e, Some e' =>
      same_made e e' ∧ rank (ce_state e) ≤ rank (ce_state e') ∧
      (CommitmentState.is_final (ce_state e) = true → ce_state e' = ce_state e ∧ publication e' = publication e)
  | None, Some _ => False
  | _, None => True
  end.
Proof.
  intros H0 Hs Hs' Hm. assert (Hok : csys_ok s) by (eapply csteps_ok, fresh_ok; done).
  destruct (cw_entries (cy_world s') !! id) as [e'|] eqn:He'; [|by destruct (cw_entries (cy_world s) !! id)].
  destruct (csteps_forward _ _ _ _ Hs' Hok He' Hm) as (e & He & Hf). rewrite He. pose proof Hf as [? ? Hfin _].
  split_and!; try done. intros Hfi. split; [by apply Hfin|by apply forward_publication].
Qed.

(** ** Ends *)

Definition live s (id : CommitmentId) : Prop :=
  ∃ e, cw_entries (cy_world s) !! id = Some e ∧ CommitmentState.is_final (ce_state e) = false.
(** The commitments a step ends: live before, or made by it, and not live after. *)
Definition ends_now s s' (id : CommitmentId) : Prop :=
  (live s id ∨ (cy_made s !! id = None ∧ is_Some (cy_made s' !! id))) ∧ ¬ live s' id.
Definition owes_ends s s' (d : Deferred) : Prop :=
  ∃ ended : list (CommitmentId * EvidenceRecord),
    NoDup ended.*1 ∧ df_records d = ended.*2 ∧
    df_leases d = (ended.*1 ≫= λ id, from_option leases_of [] (cy_made s' !! id)) ∧
    (∀ id, id ∈ ended.*1 ↔ ends_now s s' id) ∧
    (∀ id r, (id, r) ∈ ended → ∃ e, cy_made s' !! id = Some e ∧ end_record id e r).

Lemma end_record_made id e0 e r : same_made e0 e → end_record id e r → end_record id e0 r.
Proof. intros [] []. split; congruence. Qed.

Lemma bind_ext_in {A B} (f g : A → list B) l : (∀ x, x ∈ l → f x = g x) → l ≫= f = l ≫= g.
Proof. induction l; intros Hfg; [done|]. csimpl. rewrite Hfg by left. f_equal. apply IHl. intros. apply Hfg. by right. Qed.

Lemma accounts_owes fin s s' d :
  csys_ok s → cy_made s' = cy_made s → accounts fin (cw_entries (cy_world s)) (cw_entries (cy_world s')) d →
  owes_ends s s' d.
Proof.
  intros [Hg Ht] Em (ended & Hnd & Hrec & Hls & Hids).
  assert (Hmade : ∀ id e, cw_entries (cy_world s) !! id = Some e → ∃ e0, cy_made s !! id = Some e0 ∧ same_made e0 e).
  { intros id e He. apply (to_entries _ Ht _ _ He). }
  assert (Hin : ∀ id, id ∈ ended.*1 → ∃ e e' r, (id, r) ∈ ended ∧ cw_entries (cy_world s) !! id = Some e ∧
    cw_entries (cy_world s') !! id = Some e' ∧ ends_by fin id e e' r).
  { intros id Hid. specialize (Hids id). destruct (cw_entries (cy_world s) !! id) as [e|], (cw_entries (cy_world s') !! id) as [e'|];
      try done. destruct Hids as [[? _]|(r & ? & ?)]; [done|]. eauto 10. }
  assert (Hsnd : ∀ id r r', (id, r) ∈ ended → (id, r') ∈ ended → r = r').
  { intros id r r' H1 H2. apply list_elem_of_lookup in H1 as [i Hi], H2 as [j Hj].
    assert (i = j) as ->; [|congruence]. eapply NoDup_lookup; [done|..]; rewrite list_lookup_fmap, ?Hi, ?Hj; done. }
  exists ended. split_and!; [done|done| | |].
  - rewrite Hls, Em. apply bind_ext_in. intros id Hid. destruct (Hin _ Hid) as (e & e' & r & _ & He & _).
    destruct (Hmade _ _ He) as (e0 & He0 & Hm). rewrite He, He0. simpl. unfold leases_of. by rewrite (sm_prepared _ _ Hm).
  - intros id. split.
    + intros Hid. destruct (Hin _ Hid) as (e & e' & r & _ & He & He' & [_ Ho Hf _ _ _ _ _]).
      split; [left; by exists e|]. intros (x & Hx & Hxo). congruence.
    + intros [[(e & He & Ho)|[Hn Hs]] Hnl]; [|rewrite Em in Hs; destruct Hs; congruence].
      specialize (Hids id). rewrite He in Hids. destruct (cw_entries (cy_world s') !! id) as [e'|] eqn:He'; [|done].
      destruct Hids as [(_ & [_ _ Hst _] & _)|(r & Hr & _)]; [|apply list_elem_of_fmap; by exists (id, r)].
      exfalso. apply Hnl. exists e'. by rewrite Hst.
  - intros id r Hr. assert (Hid : id ∈ ended.*1) by (apply list_elem_of_fmap; by exists (id, r)).
    destruct (Hin _ Hid) as (e & e' & r' & Hr' & He & _ & [_ _ _ _ _ _ Hrd _]). destruct (Hmade _ _ He) as (e0 & He0 & Hm).
    rewrite Em. exists e0. split; [done|]. rewrite (Hsnd _ _ _ Hr Hr'). by eapply end_record_made.
Qed.
(** A step that ends nothing. *)
Lemma quiet_owes s s' :
  (∀ id, live s id ∨ (cy_made s !! id = None ∧ is_Some (cy_made s' !! id)) → live s' id) →
  owes_ends s s' nothing_owed.
Proof.
  intros Hl. exists []. split_and!; try done; [constructor| |intros ? ? ?%elem_of_nil; done].
  intros id. rewrite elem_of_nil. split; [done|]. intros [H1 H2]. by apply H2, Hl.
Qed.
Lemma same_made_quiet s s' :
  cy_made s' = cy_made s → (∀ id, live s id → live s' id) → owes_ends s s' nothing_owed.
Proof. intros Em Hl. apply quiet_owes. rewrite Em. intros id [?|[? []]]; [auto|congruence]. Qed.

Lemma live_pruned s s' id :
  pruned (cw_entries (cy_world s)) (cw_entries (cy_world s')) → live s id → live s' id.
Proof.
  intros [Hsub Hout] (e & He & Ho). exists e. split; [|done].
  destruct (cw_entries (cy_world s') !! id) as [e'|] eqn:He'.
  - rewrite <- He. symmetry. by eapply lookup_weaken.
  - destruct (Hout _ _ He He') as [? _]. congruence.
Qed.
Lemma live_put s s' id e e' rw k :
  cy_world s' = put_entry id e' (cy_world s <| cw_runs := rw |>) → cw_entries (cy_world s) !! id = Some e →
  (CommitmentState.is_final (ce_state e) = false → CommitmentState.is_final (ce_state e') = false) →
  live s k → live s' k.
Proof.
  intros Ew He Ho (x & Hx & Hxo). unfold live. rewrite Ew. simpl. destruct (decide (k = id)) as [->|Hk].
  - exists e'. rewrite lookup_insert_eq. simplify_eq. auto.
  - exists x. by rewrite lookup_insert_ne.
Qed.

Lemma insert_owes s s' id e slot now refused d w' :
  unconsumed (ce_state e) = true → csys_ok s → cy_made s !! id = None →
  insert_commitment id e slot now (cy_world s) = (refused, d, w') →
  cy_world s' = w' → cy_made s' = <[id := e]> (cy_made s) → owes_ends s s' d.
Proof.
  intros Hun Hok Hn E Ew Em. destruct (unmade_new _ _ Hok Hn) as [Hne _].
  apply insert_commitment_ok in E as (m & Hpr & _ & _ & _ & _ & Hc); [|done].
  assert (Hold : ∀ k, is_Some (cy_made s' !! k) → cy_made s !! k = None → k = id).
  { intros k [x Hx] Hk. rewrite Em in Hx. apply lookup_insert_Some in Hx as [[-> _]|[_ ?]]; congruence. }
  destruct refused as [error|].
  - destruct Hc as (Eent & e' & r & [_ _ _ _ _ _ Hrd _] & ->).
    assert (Hpr' : pruned (cw_entries (cy_world s)) (cw_entries (cy_world s'))) by by rewrite Ew, Eent.
    assert (Hnl : ¬ live s' id).
    { intros (x & Hx & _). destruct Hpr' as [Hsub _]. pose proof (lookup_weaken _ _ _ _ Hx Hsub). congruence. }
    exists [(id, r)]. simpl. split_and!; [apply NoDup_singleton|done|by rewrite Em, lookup_insert_eq, app_nil_r| |].
    + intros k. rewrite elem_of_cons, elem_of_nil. split.
      * intros [->|[]]. split; [|done]. right. rewrite Em, lookup_insert_eq. split; [done|by eexists].
      * intros [[Hl|[Hk Hs]] Hnk]; [|left; by apply Hold]. exfalso. by apply Hnk, (live_pruned s).
    + intros k r'. rewrite elem_of_cons, elem_of_nil. intros [[= -> ->]|[]]. exists e.
      by rewrite Em, lookup_insert_eq.
  - destruct Hc as (-> & _ & owner & Eent). apply quiet_owes. intros k Hk. unfold live. rewrite Ew, Eent.
    destruct (decide (k = id)) as [->|Hne'].
    + exists (pinned_as e owner). rewrite lookup_insert_eq. split; [done|]. by apply unconsumed_open.
    + destruct Hk as [(x & Hx & Hxo)|[Hk1 Hk2]]; [|by destruct Hne'; apply Hold].
      exists x. rewrite lookup_insert_ne by done. split; [|done]. destruct (m !! k) as [y|] eqn:Ey.
      * rewrite <- Hx. destruct Hpr as [Hsub _]. symmetry. by eapply lookup_weaken.
      * destruct Hpr as [_ Hout]. destruct (Hout _ _ Hx Ey) as [? _]. congruence.
Qed.

(** C6. Every end is accounted for where it happens: in any reachable state, a step owes
    exactly one end record for each commitment it ends (those that were live, and one
    refused as it is made), each record names that commitment with its agent, run, privacy
    class, target and parameters, and it owes exactly those commitments' leases; a step
    that ends nothing owes nothing. *)
Theorem every_end_owed s0 s d s' : fresh_sys s0 → csteps s0 s → cstep s d s' → owes_ends s s' d.
Proof.
  intros H0 Hs Hd. assert (Hok : csys_ok s) by (eapply csteps_ok, fresh_ok; done).
  destruct (cstep_kind _ _ _ Hd) as [fin [_ Ha] Em| -> Hpr Em|id e e' rw -> He _ Ho Ew Em|id e slot now refused Hn Hst E Em].
  - by eapply accounts_owes.
  - apply same_made_quiet; [done|]. intros id. by apply live_pruned.
  - apply same_made_quiet; [done|]. intros k. eapply live_put; [exact Ew|exact He|].
    destruct (CommitmentState.is_final (ce_state e')); [|done]. by rewrite Ho.
  - eapply insert_owes; [|done|done|exact E|done|done]. by rewrite Hst.
Qed.
(** ** Publication *)

(** What a guard's report makes of an effect: a success is published, with what it reported
    of recovery and interruption; any other outcome is confirmed not published of a file
    effect alone, not handed off and without an uncertain failure. *)
Definition class_reported (kind : CapabilityKind.t) (o : Outcome.t) (handoff : Z) : PublicationClass.t :=
  let undone :=
    if decide (kind = CapabilityKind.Files ∧ handoff ≠ HANDED_OFF)
    then PublicationClass.ConfirmedNotPublished else PublicationClass.Uncertain in
  match o with
  | Outcome.Succeeded meta =>
      PublicationClass.Published
        (bool_decide ((lit "reason", lit "recovery_required") ∈ take 16 meta))
        (filter (λ code, (lit "interrupted", code) ∈ take 16 meta) INTERRUPTIONS)
  | Outcome.Failed FailureClass.Uncertain _ => PublicationClass.Uncertain
  | Outcome.Failed _ _ => undone
  | Outcome.Cancelled _ => undone
  end.
Lemma undone_class {A} kind h (a b : A) :
  (if bool_decide (kind = CapabilityKind.Files) && negb (h =? HANDED_OFF) then a else b) =
  (if decide (kind = CapabilityKind.Files ∧ h ≠ HANDED_OFF) then a else b).
Proof. destruct (Z.eqb_spec h HANDED_OFF), (decide (kind = CapabilityKind.Files)); repeat case_decide; case_bool_decide; naive_solver. Qed.
Lemma publication_finished o h e :
  finished_as o h e → publication e = class_reported (pa_kind (ce_prepared e)) o h.
Proof.
  intros [Hf Hh Hs Hfa Hsu]. unfold publication, class_reported. rewrite Hs. destruct o as [meta|class detail|detail].
  - destruct (Hsu meta eq_refl) as [-> ->]. done.
  - rewrite Hf, Hfa, Hh. destruct class; [..|done]; apply undone_class.
  - rewrite Hf, Hfa, Hh. apply undone_class.
Qed.

(** C10. The publication class is exactly what was reported. A guard's report of a
    commitment is taken at most once, and while the commitment is kept: it reads Pending
    exactly while it has not ended; once its guard reported, it has started and ended, and
    it reads Published, with the reported recovery and interruptions, exactly of a success;
    of the other outcomes it reads ConfirmedNotPublished exactly for a file effect that was
    not handed off and did not fail uncertainly, and Uncertain for the rest; and one that
    ended without a report reads ConfirmedNotPublished, which is then true of every effect
    that never started: a started one ends so only when the Host revoked it while it
    executed. *)
Theorem publication_truthful s0 s id e :
  fresh_sys s0 → csteps s0 s → cw_entries (cy_world s) !! id = Some e →
  NoDup (rp_id <$> cy_finished s) ∧
  (publication e = PublicationClass.Pending ↔ CommitmentState.is_final (ce_state e) = false) ∧
  (∀ p, p ∈ cy_finished s → rp_id p = id →
     started s id ∧ CommitmentState.is_final (ce_state e) = true ∧
     publication e = class_reported (pa_kind (ce_prepared e)) (rp_outcome p) (rp_handoff p)) ∧
  (CommitmentState.is_final (ce_state e) = true → (∀ p, p ∈ cy_finished s → rp_id p ≠ id) →
     publication e = PublicationClass.ConfirmedNotPublished ∧
     (started s id → ce_state e = CommitmentState.Revoked)).
Proof.
  intros H0 Hs He. assert (Hok : csys_ok s) by (eapply csteps_ok, fresh_ok; done).
  destruct Hok as [Hg Ht]. destruct (to_entries _ Ht _ _ He) as [_ _ _ Hst Hun Hfi Hrp]. split_and!.
  - apply Hg.
  - unfold publication. destruct (ce_state e); simpl; try done; repeat case_match; done.
  - intros p Hp Eid. specialize (Hfi p Hp Eid). split_and!; [|by destruct Hfi as [_ _ -> _ _]; destruct (rp_outcome p)|by apply publication_finished].
    apply Hst. right. apply Hfi.
  - intros Hfinal Hno. assert (Hf : ce_finished_started e = false).
    { destruct (ce_finished_started e); [|done]. destruct (Hrp eq_refl) as (p & Hp & Eid). by destruct (Hno p Hp). }
    split.
    + unfold publication. rewrite Hf. destruct (ce_state e) eqn:Es; try done. exfalso.
      apply Hun; [done|by left|done|]. apply Hst. left. right. by left.
    + intros Hstart. destruct (decide (ce_state e = CommitmentState.Revoked)) as [?|Hne]; [done|].
      by destruct (Hun Hfinal (or_introl Hf) Hne).
Qed.
(** ** Pins *)

Lemma pins_elem m run id : id ∈ pins m run ↔ ∃ e, m !! id = Some e ∧ ce_pinned e = true ∧ ce_run e = run.
Proof.
  unfold pins. rewrite elem_of_dom. unfold is_Some. setoid_rewrite map_lookup_filter_Some. done.
Qed.
Lemma release_counted run rw n :
  rw_poisoned rw = false → retained_of rw run = n → 0 < n → ∃ rw', release run rw = (Ok tt, rw') ∧ retained_of rw' run = n - 1.
Proof.
  intros Hp Hr Hn. unfold release, retained_of, checked_sub in *. rewrite Hp.
  destruct (rw_runs rw !! run) as [e|]; simpl in Hr; [|lia].
  destruct (1 <=? re_retained e) eqn:E; [|lia]. eexists. split; [reflexivity|]. simpl. rewrite lookup_insert_eq. simpl. lia.
Qed.

(** C29. The pins are the runs' retained counts: in any reachable state a run's count is
    exactly the number of kept commitments that pin it, so a pinned commitment's run is
    never pruned from the run registry; the table and its preparations stay within
    [CAPACITY]; and, with both locks readable, the owner's acknowledgement of a pinned
    commitment whose outcome is conclusive always succeeds, unpins it and takes exactly
    one from its run's count. *)
Theorem pins_retained s0 s :
  fresh_sys s0 → csteps s0 s →
  Z.of_nat (size (cw_entries (cy_world s))) + cw_preparations (cy_world s) ≤ CAPACITY ∧
  (∀ run, retained_of (cw_runs (cy_world s)) run = Z.of_nat (size (pins (cw_entries (cy_world s)) run))) ∧
  (∀ id e, cw_entries (cy_world s) !! id = Some e → ce_pinned e = true →
     (∃ re, rw_runs (cw_runs (cy_world s)) !! ce_run e = Some re ∧ prunable re = false) ∧
     ∀ owner, cw_poisoned (cy_world s) = false → rw_poisoned (cw_runs (cy_world s)) = false →
       ce_pin_owner e = Some owner → CommitmentState.is_final (ce_state e) = true →
       publication e ≠ PublicationClass.Uncertain →
       ∃ w', ack id (ce_agent e) owner (cy_world s) = (Ok tt, w') ∧
         cw_entries w' = <[id := e <| ce_pinned := false |>]> (cw_entries (cy_world s)) ∧
         retained_of (cw_runs w') (ce_run e) = retained_of (cw_runs (cy_world s)) (ce_run e) - 1).
Proof.
  intros H0 Hs. assert (Hok : csys_ok s) by (eapply csteps_ok, fresh_ok; done). destruct Hok as [_ [Hen Hcap _ Hpin]].
  split_and!; [done|done|]. intros id e He Hp.
  assert (Hpos : 0 < retained_of (cw_runs (cy_world s)) (ce_run e)).
  { rewrite Hpin. assert (id ∈ pins (cw_entries (cy_world s)) (ce_run e)) as Hin by (apply pins_elem; eauto).
    destruct (size (pins _ _)) eqn:Ez; [|lia]. apply size_empty_inv in Ez. set_solver. }
  split.
  - unfold retained_of in Hpos. destruct (rw_runs _ !! ce_run e) as [re|]; simpl in Hpos; [|lia]. exists re.
    split; [done|]. unfold prunable. replace (re_retained re =? 0) with false by lia. by rewrite andb_false_r.
  - intros owner Hpo Hrp Hown Hfin Hunc.
    destruct (release_counted (ce_run e) (cw_runs (cy_world s)) _ Hrp eq_refl Hpos) as (rw' & Er & Ec).
    unfold ack. rewrite Hpo, He, Hown, !bool_decide_true by done. simpl. rewrite Hp. simpl. rewrite Er.
    destruct (publication e) eqn:Ep; try done.
    all: try (eexists; split_and!; [reflexivity|reflexivity|exact Ec]).
    exfalso. unfold publication in Ep. destruct (ce_state e); try done; simpl in *; repeat case_match; done.
Qed.
(** ** Leases in the audit chain *)

Lemma pushed_details key (f : LeaseId → str) ls r :
  er_detail (foldl (λ r l, push_detail key (f l) r) r ls) = er_detail r ++ ((λ l, (key, f l)) <$> ls).
Proof.
  revert r. induction ls as [|l ls IH]; intros r; [by rewrite app_nil_r|]. csimpl. rewrite IH. simpl. by rewrite <- app_assoc.
Qed.
Lemma one_key_map {A} (k : str) (f : A → str) (l : list A) (x : A) (m : gmap str str) :
  foldl (λ m kv, <[bounded kv.1 := bounded kv.2]> m) m ((λ a, (k, f a)) <$> (l ++ [x])) = <[bounded k := bounded (f x)]> m.
Proof.
  revert m. induction l as [|a l IH]; intros m; [done|]. csimpl. rewrite IH. by rewrite insert_insert_eq.
Qed.

(** A Prepared record names up to four leases, one detail entry each under the same key;
    its JSON keeps the last of them alone. *)
Lemma prepared_json_one_lease id e now w ls l :
  take 4 (pa_leases (ce_prepared e)) = ls ++ [l] →
  json_detail (prepared_record id e now w) = {[bounded (lit "lease") := bounded (LeaseId_display l)]}.
Proof.
  intros E. unfold json_detail, prepared_record. rewrite pushed_details, E. simpl er_detail. rewrite app_nil_l.
  rewrite take_ge.
  - apply one_key_map.
  - rewrite length_fmap, <- E, length_take. unfold MAX_DETAIL. lia.
Qed.
End Safety.

(** ** A run of one commitment *)

Module SampleCommit.
#[local] Existing Instance SampleCrates.crates.
#[local] Existing Instance SampleCrates.sink.

(** An R2 file action of the sample run: made, asked, confirmed, authorized, started,
    finished and acknowledged, each record written in between. *)
Definition id : CommitmentId := [9].
Definition agent : AgentId := lit "a".
Definition run : RunId := [1].
Definition action : PreparedAction :=
  MkPreparedAction CapabilityKind.Files EffectClass.R2 (lit "create") (MkTarget (lit "notes") [1]) [2] [[3]] [[4]]
    [lit "creates notes"].
Definition now : Now := MkNow 5 7.
Definition world : CommitWorld (list EvidenceRecord) :=
  MkCommitWorld _ ∅ false 0 0 0 SampleRegistry.store SampleRegistry.w8 [] 5 7 [].
Definition entry : Entry := new_commitment id [7] agent run action (60 * SECOND) Privacy.Restricted now world.

Notation Sys := (CSys (list EvidenceRecord)).
Definition s0 : Sys := MkCSys _ world ∅ [] [] [] [] [] [] [] [].
(** The record written, then the hold it gates. *)
Definition wrote (r : EvidenceRecord) (s : Sys) : Sys :=
  s <| cy_world := (write_gating r (cy_world s)).2 |> <| cy_written := r :: cy_written s |>.
Definition s1 : Sys := wrote (prepared_record id entry now world) s0.
Definition inserted := insert_commitment id entry None now (cy_world s1).
Definition s2 : Sys :=
  s1 <| cy_world := inserted.2 |> <| cy_slots := [] |> <| cy_made := <[id := entry]> (cy_made s1) |>.
Definition asked := approval_request id agent run now (cy_world s2).
Definition s3 : Sys :=
  s2 <| cy_world := asked.2 |> <| cy_asked := grown asked.1.1 (λ x, MkQuestion id x.1 x.2) (cy_asked s2) |>.
Definition question : Question := MkQuestion id (confirmation_of id entry 60) (ce_binding entry).
Definition answered := approval_answer id agent run (ce_binding entry) true now (cy_world s3).
Definition s4 : Sys :=
  s3 <| cy_world := answered.2 |> <| cy_confirmed := question :: cy_confirmed s3 |>
     <| cy_flights := grown answered.1.1 (approve_flight id agent run (ce_binding entry)) (cy_flights s3) |>.
Definition no_flight : Flight :=
  MkFlight [] 0 Transition.Approve None [] [] [] [] (EvidenceRecord_new EvidencePhase.Started 0 0 Privacy.Restricted).
Definition flight (s : Sys) : Flight := default no_flight (head (cy_flights s)).
Definition s5 : Sys := wrote (fl_record (flight s4)) s4.
Definition completed {A} (expected : CommitmentState.t) (final : Entry → CancelToken → Entry * A)
    (s : Sys) : aresult A * Deferred * CommitWorld (list EvidenceRecord) :=
  let f := flight s in complete (fl_id f) (fl_token f) expected (fl_agent f) (fl_run f) final now (cy_world s).
Definition approved := completed CommitmentState.Prepared approve_final s5.
Definition approval : R2Approval := MkR2Approval (fl_id (flight s5)) (ce_binding entry).
Definition s6 : Sys :=
  s5 <| cy_world := approved.2 |> <| cy_approvals := grown approved.1.1 (λ _, approval) (cy_approvals s5) |>.
Definition authorizing := authorization id agent run (Some approval) now (cy_world s6).
Definition s7 : Sys :=
  s6 <| cy_world := authorizing.2 |>
     <| cy_flights := grown authorizing.1.1 (authorize_flight id agent run) (cy_flights s6) |>.
Definition s8 : Sys := wrote (fl_record (flight s7)) s7.
Definition authorized := completed CommitmentState.Prepared (authorize_final (fl_approved (flight s8))) s8.
Definition s9 : Sys := s8 <| cy_world := authorized.2 |>.
Definition starting := start id agent run [1] [2] now (cy_world s9).
Definition s10 : Sys :=
  s9 <| cy_world := starting.2 |>
     <| cy_flights := grown starting.1.1 (start_flight id agent run [1] [2]) (cy_flights s9) |>.
Definition s11 : Sys := wrote (fl_record (flight s10)) s10.
Definition begun := completed CommitmentState.Authorized start_final s11.
Definition s12 : Sys :=
  s11 <| cy_world := begun.2 |> <| cy_begun := begun_with begun.1.1 (flight s11) now (cy_world s11) (cy_begun s11) |>.
Definition finishing :=
  finish_hold id 7 (Outcome.Succeeded []) false HANDED_OFF now (cy_world s12).
Definition s13 : Sys :=
  s12 <| cy_world := finishing.2 |>
      <| cy_finished := taken finishing.1 (MkReport id (Outcome.Succeeded []) HANDED_OFF) (cy_finished s12) |>.
Lemma triple_eq {A B C} (x : A * B * C) : x = (x.1.1, x.1.2, x.2).
Proof. by destruct x as [[]]. Qed.
Lemma wrote_step r s : (∃ seq, (write_gating r (cy_world s)).1 = Ok seq) → cstep s nothing_owed (wrote r s).
Proof. intros [seq E]. unfold wrote. eapply ct_written. rewrite <- E. apply surjective_pairing. Qed.
Lemma flight_in s f : head (cy_flights s) = Some f → flight s ∈ cy_flights s.
Proof. unfold flight. destruct (cy_flights s); [discriminate|]. intros _. apply list_elem_of_here. Qed.

Lemma flight_written s :
  fl_record (flight (wrote (fl_record (flight s)) s)) ∈ cy_written (wrote (fl_record (flight s)) s).
Proof. apply list_elem_of_here. Qed.

Lemma fresh0 : fresh_sys s0.
Proof.
  split; try reflexivity. intros r. change (cw_runs (cy_world s0)) with SampleRegistry.w8. unfold retained_of.
  destruct (decide (r = run)) as [->|Hr]; [vm_compute; reflexivity|].
  assert (dom (rw_runs SampleRegistry.w8) = {[run]}) as Hd by (apply (bool_decide_unpack _); vm_compute; exact I).
  destruct (rw_runs SampleRegistry.w8 !! r) eqn:E; [|reflexivity]. apply elem_of_dom_2 in E.
  rewrite Hd, elem_of_singleton in E. by destruct Hr.
Qed.
Lemma commit_step2 : cstep s1 inserted.1.2 s2.
Proof.
  apply (ct_insert s1 id [7] agent run action (60 * SECOND) Privacy.Restricted now world world None [] now
    inserted.1.1 inserted.1.2 inserted.2);
    [vm_compute; reflexivity|discriminate|vm_compute; reflexivity|apply list_elem_of_here|reflexivity|apply triple_eq].
Qed.
Lemma commit_step4 : cstep s3 answered.1.2 s4.
Proof.
  unfold s4. apply (ct_answer s3 question agent run true now); [|apply triple_eq].
  assert (cy_asked s3 = [question]) as -> by (vm_compute; reflexivity). left.
Qed.
Lemma commit_step6 : cstep s5 approved.1.2 s6.
Proof.
  unfold s6. apply (ct_approved s5 (flight s5) (ce_binding entry) now approved.1.1 approved.1.2 approved.2);
    [|vm_compute; reflexivity|vm_compute; reflexivity|exact (flight_written s4)|unfold approved, completed; generalize (flight s5); intros; apply triple_eq].
  eapply flight_in. vm_compute. reflexivity.
Qed.
Lemma commit_step7 : cstep s6 authorizing.1.2 s7.
Proof.
  unfold s7. apply (ct_authorize s6 id agent run (Some approval) now); [|apply triple_eq].
  intros a [= <-]. assert (cy_approvals s6 = [approval]) as -> by (vm_compute; reflexivity). left.
Qed.
Lemma commit_step9 : cstep s8 authorized.1.2 s9.
Proof.
  unfold s9. apply (ct_authorized s8 (flight s8) now authorized.1.1 authorized.1.2 authorized.2);
    [|vm_compute; reflexivity|exact (flight_written s7)|unfold authorized, completed; generalize (flight s8); intros; apply triple_eq].
  eapply flight_in. vm_compute. reflexivity.
Qed.
Lemma commit_step12 : cstep s11 begun.1.2 s12.
Proof.
  unfold s12. apply (ct_begun s11 (flight s11) now begun.1.1 begun.1.2 begun.2);
    [|vm_compute; reflexivity|exact (flight_written s10)|unfold begun, completed; generalize (flight s11); intros; apply triple_eq].
  eapply flight_in. vm_compute. reflexivity.
Qed.
Lemma commit_step13 : cstep s12 (default nothing_owed finishing.1) s13.
Proof.
  apply (ct_finish s12 id 7 (Outcome.Succeeded []) false HANDED_OFF now finishing.1 finishing.2).
  unfold finishing. apply surjective_pairing.
Qed.

Lemma step_of s d s' t : cstep s d s' → csteps s' t → csteps s t.
Proof. intros H. apply rtc_l. by exists d. Qed.
Lemma wrote_of s r t : (∃ seq, (write_gating r (cy_world s)).1 = Ok seq) → csteps (wrote r s) t → csteps s t.
Proof. intros H. by eapply step_of, wrote_step. Qed.
Ltac written := eexists; vm_compute; reflexivity.

Lemma to_made : csteps s0 s2.
Proof. eapply wrote_of; [written|]. eapply step_of; [exact commit_step2|]. apply rtc_refl. Qed.
Lemma to_authorized : csteps s2 s9.
Proof.
  eapply (step_of s2 _ s3); [unfold s3; apply (ct_ask s2 id agent run now); unfold asked; apply triple_eq|].
  eapply step_of; [exact commit_step4|]. eapply wrote_of; [written|]. eapply step_of; [exact commit_step6|].
  eapply step_of; [exact commit_step7|]. eapply wrote_of; [written|]. eapply step_of; [exact commit_step9|]. apply rtc_refl.
Qed.
Lemma to_begun : csteps s9 s12.
Proof.
  eapply (step_of s9 _ s10); [unfold s10; apply (ct_start s9 id agent run [1] [2] now); unfold starting; apply triple_eq|].
  eapply wrote_of; [written|]. eapply step_of; [exact commit_step12|]. apply rtc_refl.
Qed.
Lemma s2_s12 : csteps s2 s12.
Proof. etrans; [exact to_authorized|exact to_begun]. Qed.
Lemma s0_s12 : csteps s0 s12.
Proof. etrans; [exact to_made|exact s2_s12]. Qed.
Lemma s0_s13 : csteps s0 s13.
Proof. etrans; [exact s0_s12|]. eapply step_of; [exact commit_step13|]. apply rtc_refl. Qed.
Lemma fmap_of {A B} (f : A → B) o b : f <$> o = Some b → ∃ a, o = Some a ∧ f a = b.
Proof. destruct o; [|done]. intros [= <-]. eauto. Qed.

#[local] Opaque s2 s12 s13 finishing.
Lemma effect_starts_once_covered_witness : (bg_id <$> cy_begun s12) = [id] ∧ ∃ b, b ∈ cy_begun s12 ∧ covered s12 b.
Proof.
  assert (bg_id <$> cy_begun s12 = [id]) as E by (vm_compute; reflexivity). split; [exact E|].
  destruct (effect_starts_once_covered s0 s12 fresh0 s0_s12) as [_ H].
  destruct (cy_begun s12) as [|b bs]; [discriminate E|]. exists b. split; [|apply H]; apply list_elem_of_here.
Defined.

Lemma made_state : ce_state <$> cw_entries (cy_world s2) !! id = Some CommitmentState.Prepared.
Proof. vm_compute. reflexivity. Qed.
Lemma begun_state : ce_state <$> cw_entries (cy_world s12) !! id = Some CommitmentState.Executing.
Proof. vm_compute. reflexivity. Qed.
Lemma made_known : is_Some (cy_made s2 !! id).
Proof. apply (bool_decide_unpack _). vm_compute. exact I. Qed.
Lemma commitment_life_witness :
  ∃ e e', cw_entries (cy_world s2) !! id = Some e ∧ cw_entries (cy_world s12) !! id = Some e' ∧ same_made e e' ∧
    rank (ce_state e) ≤ rank (ce_state e').
Proof.
  pose proof (commitment_life s0 s2 s12 id fresh0 to_made s2_s12 made_known) as H.
  destruct (fmap_of _ _ _ made_state) as (e & E & _), (fmap_of _ _ _ begun_state) as (e' & E' & _).
  rewrite E, E' in H. exists e, e'. split; [exact E|]. split; [exact E'|]. split; apply H.
Defined.

Lemma every_end_owed_witness :
  length (df_records (default nothing_owed finishing.1)) = 1%nat ∧
  owes_ends s12 s13 (default nothing_owed finishing.1).
Proof.
  split; [vm_compute; reflexivity|].
  exact (every_end_owed s0 s12 (default nothing_owed finishing.1) s13 fresh0 s0_s12 commit_step13).
Defined.

Lemma finished_class :
  publication <$> cw_entries (cy_world s13) !! id = Some (PublicationClass.Published false []).
Proof. vm_compute. reflexivity. Qed.
Lemma publication_truthful_witness :
  ∃ e, cw_entries (cy_world s13) !! id = Some e ∧ started s13 id ∧
    publication e = class_reported (pa_kind (ce_prepared e)) (Outcome.Succeeded []) HANDED_OFF.
Proof.
  destruct (fmap_of _ _ _ finished_class) as (e & E & Ep). exists e. split; [exact E|].
  destruct (publication_truthful s0 s13 id e fresh0 s0_s13 E) as (_ & _ & H & _).
  assert (cy_finished s13 = [MkReport id (Outcome.Succeeded []) HANDED_OFF]) as Ef by (vm_compute; reflexivity).
  rewrite Ef in H. destruct (H _ (list_elem_of_here _ _) eq_refl) as (H1 & _ & H2). split; [exact H1|exact H2].
Defined.

Lemma pins_retained_witness :
  retained_of (cw_runs (cy_world s13)) run = 1 ∧ (ack id agent 0 (cy_world s13)).1 = Ok tt ∧
  retained_of (cw_runs (cy_world s13)) run = Z.of_nat (size (pins (cw_entries (cy_world s13)) run)).
Proof.
  split; [vm_compute; reflexivity|]. split; [vm_compute; reflexivity|].
  apply (pins_retained s0 s13 fresh0 s0_s13).
Defined.
End SampleCommit.
