(* ===== verification/AuthCommitBinding.v ===== *)
(** * Commitments: what a binding covers

    The Owner's yes names a commitment by its binding ([binding_of]); here the binding
    determines the action: two commitments with the same binding are the same action, or
    the inputs hashed for the two are distinct with one digest. The target's display and
    the summary are not hashed; a registry makes one commitment a binding, so they are its
    own too. *)

From S2P Require Import Prelude Hash AuthBase AuthText HaltCell AuthGrants AuthHalt AuthRuns AuthCommit AuthCommitInv AuthCommitProps.

Local Open Scope Z_scope.
Local Open Scope nexus_scope.
#[local] Arguments lit : simpl never.

(** ** Typing *)

(** The sizes Rust's types give: 16-byte ids and nonces, 32-byte digests, [u64]s. *)
Definition is_id (b : bytes) : Prop := length b = 16%nat.
Definition is_digest (b : bytes) : Prop := length b = 32%nat.
Record made_typed (id : CommitmentId) (nonce : bytes) (e : Entry) : Prop := {
  mt_id : is_id id;
  mt_run : is_id (ce_run e);
  mt_nonce : is_id nonce;
  mt_agent : rust_str (ce_agent e);
  mt_operation : rust_str (pa_operation (ce_prepared e));
  mt_target : is_digest (ti_digest (pa_target (ce_prepared e)));
  mt_parameters : is_digest (pa_parameters (ce_prepared e));
  mt_grants : Forall is_id (pa_grants (ce_prepared e)) ∧ u64_len (16 * length (pa_grants (ce_prepared e)));
  mt_leases : Forall is_id (pa_leases (ce_prepared e)) ∧ u64_len (16 * length (pa_leases (ce_prepared e)));
  mt_generation : rust_u 64 (ce_generation e);
  mt_deadline : rust_u 64 (ce_deadline_ms e);
}.

(** The same action: what the Owner decides about, grants and leases as sets. *)
Record same_action (e1 e2 : Entry) : Prop := {
  sa_agent : ce_agent e1 = ce_agent e2;
  sa_run : ce_run e1 = ce_run e2;
  sa_kind : pa_kind (ce_prepared e1) = pa_kind (ce_prepared e2);
  sa_class : pa_class (ce_prepared e1) = pa_class (ce_prepared e2);
  sa_operation : pa_operation (ce_prepared e1) = pa_operation (ce_prepared e2);
  sa_target : ti_digest (pa_target (ce_prepared e1)) = ti_digest (pa_target (ce_prepared e2));
  sa_parameters : pa_parameters (ce_prepared e1) = pa_parameters (ce_prepared e2);
  sa_grants : pa_grants (ce_prepared e1) ≡ₚ pa_grants (ce_prepared e2);
  sa_leases : pa_leases (ce_prepared e1) ≡ₚ pa_leases (ce_prepared e2);
  sa_generation : ce_generation e1 = ce_generation e2;
  sa_deadline : ce_deadline_ms e1 = ce_deadline_ms e2;
}.

(** ** Delimiting *)

Lemma parts_inj ps1 ps2 :
  length ps1 = length ps2 → Forall (λ b, u64_len (length b)) ps1 → Forall (λ b, u64_len (length b)) ps2 →
  ps1 ≫= put = ps2 ≫= put → ps1 = ps2.
Proof.
  intros Hl H1 H2 E. eapply (delimited_list _ put ps1 ps2 [] []); [apply put_delimited|done..|]. by rewrite E.
Qed.

Lemma concat_ids_inj ids1 ids2 :
  Forall is_id ids1 → Forall is_id ids2 → concat ids1 = concat ids2 → ids1 = ids2.
Proof.
  intros H1. revert ids2. induction H1 as [|i1 ids1 Hi1 _ IH]; intros ids2 H2 E; destruct H2 as [|i2 ids2 Hi2 H2]; try done.
  - apply (f_equal length) in E. simpl in E. rewrite length_app in E. unfold is_id in *. simpl in E. lia.
  - apply (f_equal length) in E. simpl in E. rewrite length_app in E. unfold is_id in *. simpl in E. lia.
  - simpl in E. unfold is_id in *. apply app_inj_1 in E as [-> E]; [|lia]. f_equal. by apply IH.
Qed.
Lemma length_concat_ids ids : Forall is_id ids → length (concat ids) = (16 * length ids)%nat.
Proof. induction 1 as [|i ids Hi _ IH]; [done|]. simpl. rewrite length_app, IH, Hi. lia. Qed.

Lemma sorted_ids_perm ids : sorted_ids ids ≡ₚ ids.
Proof. apply merge_sort_Permutation. Qed.
Lemma sorted_ids_typed ids : Forall is_id ids → Forall is_id (sorted_ids ids).
Proof. by rewrite sorted_ids_perm. Qed.
#[local] Instance bytes_le_trans : Transitive bytes_le.
Proof.
  unfold bytes_le. intros a. induction a as [|x a IH]; intros [|y b] [|z c]; simpl; try done.
  destruct (Z.ltb_spec x y), (Z.eqb_spec x y), (Z.ltb_spec y z), (Z.eqb_spec y z), (Z.ltb_spec x z), (Z.eqb_spec x z);
    simpl; try done; try lia. apply IH.
Qed.
#[local] Instance bytes_le_total : Total bytes_le.
Proof.
  unfold bytes_le. intros a. induction a as [|x a IH]; intros [|y b]; simpl; auto.
  destruct (Z.ltb_spec x y), (Z.eqb_spec x y), (Z.ltb_spec y x), (Z.eqb_spec y x); simpl; auto; try lia.
Qed.
#[local] Instance bytes_le_anti : AntiSymm (=) bytes_le.
Proof.
  unfold bytes_le. intros a. induction a as [|x a IH]; intros [|y b]; simpl; try done.
  destruct (Z.ltb_spec x y), (Z.eqb_spec x y), (Z.ltb_spec y x), (Z.eqb_spec y x); simpl; try done; try lia.
  intros. subst. f_equal. by apply IH.
Qed.
Lemma sorted_ids_set ids1 ids2 : ids1 ≡ₚ ids2 → sorted_ids ids1 = sorted_ids ids2.
Proof.
  intros E. apply (StronglySorted_unique bytes_le); try apply (StronglySorted_merge_sort _).
  by rewrite !sorted_ids_perm.
Qed.
Lemma sorted_ids_inj ids1 ids2 :
  Forall is_id ids1 → Forall is_id ids2 → concat (sorted_ids ids1) = concat (sorted_ids ids2) → ids1 ≡ₚ ids2.
Proof.
  intros H1 H2 E. apply concat_ids_inj in E; [|by apply sorted_ids_typed..].
  rewrite <- (sorted_ids_perm ids1), E. apply sorted_ids_perm.
Qed.
Lemma sorted_ids_len ids :
  Forall is_id ids ∧ u64_len (16 * length ids) → u64_len (length (concat (sorted_ids ids))).
Proof. intros [H Hl]. rewrite length_concat_ids, (sorted_ids_perm ids) by by apply sorted_ids_typed. done. Qed.

Lemma kind_code_inj k1 k2 : CapabilityKind.as_str k1 = CapabilityKind.as_str k2 → k1 = k2.
Proof. destruct k1, k2; intros E; try reflexivity; vm_compute in E; discriminate. Qed.
Lemma class_code_inj c1 c2 : EffectClass.as_str c1 = EffectClass.as_str c2 → c1 = c2.
Proof. destruct c1, c2; intros E; try reflexivity; vm_compute in E; discriminate. Qed.
Lemma kind_code_typed k : rust_str (CapabilityKind.as_str k).
Proof. destruct k; apply closed_rust_str; vm_compute; reflexivity. Qed.
Lemma class_code_typed c : rust_str (EffectClass.as_str c).
Proof. destruct c; apply closed_rust_str; vm_compute; reflexivity. Qed.

Section Binding.
Context {crates : Crates}.

(** Equal digests have equal parts, or their preimages collide. *)
Lemma digest_of_inj domain ps1 ps2 :
  length ps1 = length ps2 → Forall (λ b, u64_len (length b)) ps1 → Forall (λ b, u64_len (length b)) ps2 →
  Digest_of domain ps1 = Digest_of domain ps2 →
  ps1 = ps2 ∨ clash sha2 (digest_preimage domain ps1) (digest_preimage domain ps2).
Proof.
  intros Hl H1 H2 [Ep|?]%clash_or_same; [left|by right]. apply app_inv_head in Ep. by apply parts_inj.
Qed.

(** The id comes first: it is fixed by the digest whatever the rest is. *)
Lemma digest_of_first domain id1 id2 ps1 ps2 :
  u64_len (length id1) → u64_len (length id2) → Digest_of domain (id1 :: ps1) = Digest_of domain (id2 :: ps2) →
  id1 = id2 ∨ clash sha2 (digest_preimage domain (id1 :: ps1)) (digest_preimage domain (id2 :: ps2)).
Proof.
  intros H1 H2 [Ep|?]%clash_or_same; [left|by right]. apply app_inv_head in Ep. by apply put_delimited in Ep as [? _].
Qed.

Lemma u64_id b : is_id b → u64_len (length b).
Proof. intros ->. done. Qed.
Lemma u64_digest b : is_digest b → u64_len (length b).
Proof. intros ->. done. Qed.
Lemma u64_be n : u64_len (length (to_be_bytes 8 n)).
Proof. by rewrite length_to_be_bytes. Qed.

Lemma binding_parts_typed id nonce e :
  made_typed id nonce e → is_digest (ce_salted e) →
  Forall (λ b, u64_len (length b))
    (binding_parts id (ce_agent e) (ce_run e) (ce_prepared e) (ce_salted e) (ce_generation e) (ce_deadline_ms e)).
Proof.
  intros [] Hs. repeat constructor; auto using u64_id, u64_digest, u64_be, sorted_ids_len;
    try apply kind_code_typed; try apply class_code_typed; by apply mt_agent0 || apply mt_operation0.
Qed.

Lemma to_be_bytes_u64_inj x y : rust_u 64 x → rust_u 64 y → to_be_bytes 8 x = to_be_bytes 8 y → x = y.
Proof. unfold rust_u. intros Hx Hy E. apply to_be_bytes_inj in E; [done|simpl; lia..]. Qed.
Lemma text_inj s1 s2 : rust_str s1 → rust_str s2 → as_bytes s1 = as_bytes s2 → s1 = s2.
Proof. intros [] [] E. by apply as_bytes_inj in E. Qed.
End Binding.

Lemma binding_parts_inj id1 agent1 run1 p1 salted1 gen1 dl1 id2 agent2 run2 p2 salted2 gen2 dl2 :
  binding_parts id1 agent1 run1 p1 salted1 gen1 dl1 = binding_parts id2 agent2 run2 p2 salted2 gen2 dl2 →
  id1 = id2 ∧ as_bytes agent1 = as_bytes agent2 ∧ run1 = run2 ∧
  as_bytes (CapabilityKind.as_str (pa_kind p1)) = as_bytes (CapabilityKind.as_str (pa_kind p2)) ∧
  as_bytes (EffectClass.as_str (pa_class p1)) = as_bytes (EffectClass.as_str (pa_class p2)) ∧
  as_bytes (pa_operation p1) = as_bytes (pa_operation p2) ∧ ti_digest (pa_target p1) = ti_digest (pa_target p2) ∧
  salted1 = salted2 ∧ concat (sorted_ids (pa_grants p1)) = concat (sorted_ids (pa_grants p2)) ∧
  concat (sorted_ids (pa_leases p1)) = concat (sorted_ids (pa_leases p2)) ∧
  to_be_bytes 8 gen1 = to_be_bytes 8 gen2 ∧ to_be_bytes 8 dl1 = to_be_bytes 8 dl2.
Proof.
  unfold binding_parts. generalize (to_be_bytes 8 gen1), (to_be_bytes 8 gen2), (to_be_bytes 8 dl1), (to_be_bytes 8 dl2).
  intros. by simplify_eq.
Qed.

Section Covers.
Context {crates : Crates} {S : Type}.
Implicit Types w : CommitWorld S.

(** What is hashed for the binding of a commitment and for its salted parameters. *)
Definition binding_input (id : CommitmentId) (e : Entry) : bytes :=
  digest_preimage BINDING_DOMAIN
    (binding_parts id (ce_agent e) (ce_run e) (ce_prepared e) (ce_salted e) (ce_generation e) (ce_deadline_ms e)).
Definition salt_input (nonce : bytes) (e : Entry) : bytes :=
  digest_preimage PARAMETERS_DOMAIN [nonce; pa_parameters (ce_prepared e)].

(** The same id, nonce and action give the same binding, whatever is displayed of it. *)
Lemma binding_same id nonce agent1 run1 p1 ttl1 privacy1 now1 w1 agent2 run2 p2 ttl2 privacy2 now2 w2 :
  let e1 := new_commitment id nonce agent1 run1 p1 ttl1 privacy1 now1 w1 in
  let e2 := new_commitment id nonce agent2 run2 p2 ttl2 privacy2 now2 w2 in
  same_action e1 e2 → ce_binding e1 = ce_binding e2.
Proof.
  intros e1 e2 [Ha Hr Hk Hc Ho Ht Hp Hg%sorted_ids_set Hl%sorted_ids_set Hgen Hd]. simpl in *.
  unfold binding_of, binding_parts. by rewrite Ha, Hr, Hk, Hc, Ho, Ht, Hp, Hg, Hl, Hgen, Hd.
Qed.

(** Two commitments a registry made under one binding are one, or their bindings clash. *)
Lemma binding_made {sink : EvidenceSink S} (s0 s : CSys S) id1 e1 id2 e2 :
  fresh_sys s0 → csteps s0 s → cy_made s !! id1 = Some e1 → cy_made s !! id2 = Some e2 → is_id id1 → is_id id2 →
  ce_binding e1 = ce_binding e2 → (id1 = id2 ∧ e1 = e2) ∨ clash sha2 (binding_input id1 e1) (binding_input id2 e2).
Proof.
  intros H0 Hs H1 H2 Hi1 Hi2 E. assert (csys_ok s) as [Hg _] by (eapply csteps_ok, fresh_ok; done).
  destruct (go_made _ Hg _ _ H1) as (_ & _ & E1), (go_made _ Hg _ _ H2) as (_ & _ & E2). rewrite E1, E2 in E.
  apply digest_of_first in E as [->|?]; [left|by right|by apply u64_id..]. by simplify_eq.
Qed.

(** C12. The binding covers the whole action: two commitments, whenever and however made,
    with the same binding have the same id, nonce, agent, run, capability kind, effect
    class, operation, target digest, parameters, grants, leases, policy generation and
    deadline, unless what is hashed for the two bindings, or for the two parameters,
    differs and collides in SHA-256; and it covers nothing else: with these equal, the
    grants and leases as sets, the bindings are equal whatever target display and summary
    go with them. Among the commitments one registry ever makes, though, two under the same
    binding are the same commitment, display and summary included, or their bindings
    collide. *)
Theorem binding_covers {sink : EvidenceSink S}
    id1 nonce1 agent1 run1 p1 ttl1 privacy1 now1 w1 id2 nonce2 agent2 run2 p2 ttl2 privacy2 now2 w2 :
  (∀ b, is_digest (sha2 b)) →
  let e1 := new_commitment id1 nonce1 agent1 run1 p1 ttl1 privacy1 now1 w1 in
  let e2 := new_commitment id2 nonce2 agent2 run2 p2 ttl2 privacy2 now2 w2 in
  made_typed id1 nonce1 e1 → made_typed id2 nonce2 e2 →
  (ce_binding e1 = ce_binding e2 →
     (id1 = id2 ∧ nonce1 = nonce2 ∧ same_action e1 e2) ∨
     clash sha2 (binding_input id1 e1) (binding_input id2 e2) ∨
     clash sha2 (salt_input nonce1 e1) (salt_input nonce2 e2)) ∧
  (id1 = id2 ∧ nonce1 = nonce2 ∧ same_action e1 e2 → ce_binding e1 = ce_binding e2) ∧
  (∀ s0 s : CSys S, fresh_sys s0 → csteps s0 s → cy_made s !! id1 = Some e1 → cy_made s !! id2 = Some e2 →
     ce_binding e1 = ce_binding e2 → (id1 = id2 ∧ e1 = e2) ∨ clash sha2 (binding_input id1 e1) (binding_input id2 e2)).
Proof.
  intros Hd e1 e2 H1 H2. pose proof H1 as []. pose proof H2 as [].
  split_and!; [|by intros (<- & <- & H); apply binding_same|by eauto using binding_made].
  intros E. apply digest_of_inj in E as [E|?]; [|by right; left|done|..];
    [|exact (binding_parts_typed _ _ e1 H1 (Hd _))|exact (binding_parts_typed _ _ e2 H2 (Hd _))].
  apply binding_parts_inj in E as (Eid & Ea & Er & Ek & Ec & Eo & Et & Es & Eg & El & Egen & Edl).
  apply digest_of_inj in Es as [Es|?]; [|by right; right|done|by repeat constructor; auto using u64_id, u64_digest..].
  injection Es as En Ep. left. split_and!; [done|done|].
  split; eauto using kind_code_inj, class_code_inj, text_inj, kind_code_typed, class_code_typed, to_be_bytes_u64_inj.
  - by apply sorted_ids_inj; [apply mt_grants0|apply mt_grants1|].
  - by apply sorted_ids_inj; [apply mt_leases0|apply mt_leases1|].
Qed.
End Covers.

Module SampleBinding.
#[local] Existing Instance SampleCrates.crates.
#[local] Existing Instance SampleCrates.sink.

(** The same action, its grants in another order and its summary another. *)
Definition action (grants : list GrantId) (summary : list str) : PreparedAction :=
  MkPreparedAction CapabilityKind.Files EffectClass.R1 (lit "create") (MkTarget (lit "notes") (replicate 32 1))
    (replicate 32 2) grants [] summary.
Definition world : CommitWorld (list EvidenceRecord) :=
  MkCommitWorld _ ∅ false 0 0 3 grants_new (registry_new SampleSession.running) [] 5 7 [].
Definition made (grants : list GrantId) (summary : list str) : Entry :=
  new_commitment (replicate 16 6) (replicate 16 7) (lit "a") (replicate 16 8) (action grants summary) 90
    Privacy.Restricted (MkNow 5 7) world.

Lemma made_ok grants summary :
  Forall is_id grants → u64_len (16 * length grants) → made_typed (replicate 16 6) (replicate 16 7) (made grants summary).
Proof. intros Hg Hl. split; try done; apply closed_rust_str; vm_compute; reflexivity. Qed.

(** Other words for the same action: the binding is the same. *)
Lemma binding_covers_witness :
  let e1 := made [replicate 16 3; replicate 16 4] [] in
  let e2 := made [replicate 16 4; replicate 16 3] [lit "shown"] in
  ce_binding e1 = ce_binding e2 ∧
  (same_action e1 e2 ∨ clash sha2 (binding_input (replicate 16 6) e1) (binding_input (replicate 16 6) e2) ∨
   clash sha2 (salt_input (replicate 16 7) e1) (salt_input (replicate 16 7) e2)).
Proof.
  destruct (binding_covers (replicate 16 6) (replicate 16 7) (lit "a") (replicate 16 8)
    (action [replicate 16 3; replicate 16 4] []) 90 Privacy.Restricted (MkNow 5 7) world
    (replicate 16 6) (replicate 16 7) (lit "a") (replicate 16 8)
    (action [replicate 16 4; replicate 16 3] [lit "shown"]) 90 Privacy.Restricted (MkNow 5 7) world) as (H & Hback & _).
  - exact toy_digest_length.
  - apply made_ok; [repeat constructor|done].
  - apply made_ok; [repeat constructor|done].
  - assert (E : ce_binding (made [replicate 16 3; replicate 16 4] []) =
      ce_binding (made [replicate 16 4; replicate 16 3] [lit "shown"])).
    { apply Hback. split; [reflexivity|]. split; [reflexivity|]. split; try reflexivity. apply Permutation_swap. }
    split; [exact E|]. destruct (H E) as [(_ & _ & Hs)|Hc]; [left; exact Hs|right; exact Hc].
Defined.
End SampleBinding.
