(* ===== verification/AuthCommitCalls.v ===== *)
(** * Commitments: the calls are runs of steps

    The theorems on the commitments speak of runs of steps ([AuthCommitProps.cstep]);
    here the calls of the registry and of the execution guard ([AuthCommit]: [prepare],
    [request_approval], [authorize], [begin], [finish], a guard's [Drop] and the ends
    asked for) are such runs, whatever the other threads do between their holds, and a
    call that answers has made the steps its answer speaks of. *)

From S2P Require Import Prelude Hash AuthBase AuthText HaltCell AuthGrants AuthHalt AuthRuns AuthRunsInv AuthRunsProps AuthCommit AuthCommitInv AuthCommitProps AuthCommitSafety.

Local Open Scope Z_scope.
Local Open Scope nexus_scope.
#[local] Arguments lit : simpl never.

Section Calls.
Context {crates : Crates} {S : Type} {sink : EvidenceSink S}.
Implicit Types (w : CommitWorld S) (s : CSys S).

(** What the other threads do at each point of a call that started in [s0]: steps, which
    leave the call what it owns. *)
Definition rely s0 (owns : CSys S → Prop) (others : nat → CommitWorld S → CommitWorld S) : Prop :=
  ∀ n s, csteps s0 s → ∃ s', csteps s s' ∧ (owns s → owns s') ∧ cy_world s' = others n (cy_world s).

(** A call, among any such threads, is a run of steps that ends in the call's own world
    with what its answer promises. *)
Definition refines {R} s0 (owns : CSys S → Prop)
    (call : (nat → CommitWorld S → CommitWorld S) → CommitWorld S → option R * CommitWorld S)
    (promise : R → CSys S → Prop) : Prop :=
  ∀ others r w', rely s0 owns others → owns s0 → call others (cy_world s0) = (r, w') →
    ∃ s', csteps s0 s' ∧ cy_world s' = w' ∧ ∀ x, r = Some x → promise x s'.

(** ** Steps of the calls *)

Lemma once s d s' : cstep s d s' → csteps s s'.
Proof. intros H. apply rtc_once. by exists d. Qed.

Lemma write_ends_around records w : around w (write_ends records w).2.
Proof.
  unfold write_ends. assert (Hind : ∀ status w1, around w w1 → around w (foldl (λ sw r,
    let '(status, k) := write_end r (cw_sink sw.2) in (Some status, sw.2 <| cw_sink := k |>)) (status, w1) records).2);
    [|by apply Hind].
  induction records as [|r records IH]; intros status w1 Ha; [done|]. simpl. destruct (write_end _ _) as [st k].
  apply IH. destruct Ha. by split.
Qed.
Lemma flush_around d w : around w (flush d w).2.
Proof. unfold flush. pose proof (write_ends_around (df_records d) (end_leases (df_leases d) w)) as []. by split. Qed.
Lemma world_step s w' : around (cy_world s) w' → csteps s (s <| cy_world := w' |>).
Proof. intros H. by eapply once, ct_around. Qed.

Section Call.
Variables (s0 : CSys S) (owns : CSys S → Prop) (others : nat → CommitWorld S → CommitWorld S).
Hypothesis Hrely : rely s0 owns others.

(** The moment of a call: a system its own run has reached. *)
Lemma interfered n s : csteps s0 s → ∃ s', csteps s0 s' ∧ csteps s s' ∧ (owns s → owns s') ∧ cy_world s' = others n (cy_world s).
Proof. intros H. destruct (Hrely n s H) as (s' & ? & ? & ?). exists s'. split_and!; try done. by etrans. Qed.

(** A hold with what follows it. *)
Lemma held_run {A} (f : Now → CommitWorld S → aresult A * Deferred * CommitWorld S) (Q : aresult A → CSys S → Prop) n s r w' :
  csteps s0 s →
  (∀ now s1 x d w1, csteps s s1 → f now (cy_world s1) = (x, d, w1) → ∃ s2, cstep s1 d s2 ∧ cy_world s2 = w1 ∧ Q x s2) →
  (∀ x s1 s2, csteps s1 s2 → Q x s1 → Q x s2) →
  held f others n (cy_world s) = (r, w') →
  ∃ s', csteps s0 s' ∧ csteps s s' ∧ cy_world s' = w' ∧ ∀ x, r = Some x → Q x s'.
Proof.
  intros H0 Hf HQ. unfold held. destruct (interfered n s H0) as (s1 & H1 & H1' & _ & E1). rewrite <- E1.
  destruct (cw_poisoned (cy_world s1)); [intros [= <- <-]; by exists s1|].
  destruct (f _ _) as [[x d] w1] eqn:Ef. intros [= <- <-].
  destruct (Hf _ _ _ _ _ H1' Ef) as (s2 & H2%once & <- & HQ2).
  assert (H02 : csteps s0 s2) by by etrans.
  destruct (interfered (1 + n) s2 H02) as (s3 & H3 & H3' & _ & E3). cbn [Nat.add] in E3. rewrite <- E3.
  pose proof (world_step s3 _ (flush_around d _)) as H4. eexists. split; [by etrans|].
  split; [by etrans; [exact H1'|]; etrans; [exact H2|]; etrans|]. split; [done|].
  intros y [= <-]. eapply HQ; [exact H4|]. by eapply HQ.
Qed.

(** The record and the second half after a reservation. *)
Lemma transition_run {T} id token record cell expected agent run (finalize : Entry → CancelToken → Entry * T)
    (Q : CSys S → Prop) n s r w' :
  csteps s0 s →
  (∀ now s1 x d w1, csteps s s1 → record ∈ cy_written s1 →
     complete id token expected agent run finalize now (cy_world s1) = (x, d, w1) →
     ∃ s2, cstep s1 d s2 ∧ cy_world s2 = w1 ∧ ∀ t, x = Ok t → Q s2) →
  (∀ s1 s2, csteps s1 s2 → Q s1 → Q s2) →
  transition id token record cell expected agent run finalize others n (cy_world s) = (r, w') →
  ∃ s', csteps s0 s' ∧ cy_world s' = w' ∧ ∀ x, r = Some (Ok x) → Q s'.
Proof.
  intros H0 Hc HQ. unfold transition. destruct (interfered n s H0) as (s1 & H1 & H1' & _ & E1). rewrite <- E1.
  destruct (write_gating record (cy_world s1)) as [[seq|error] w1] eqn:Ew.
  - set (s2 := s1 <| cy_world := w1 |> <| cy_written := record :: cy_written s1 |>).
    assert (H2 : csteps s1 s2) by by eapply once, ct_written.
    destruct (held _ _ _ _) as [done w2] eqn:Eh. intros [= <- <-].
    apply (held_run _ (λ x s', ∀ t, x = Ok t → Q s') (2 + n) s2) in Eh as (s3 & H3 & H3' & <- & HQ3).
    + destruct (interfered (4 + n) s3 H3) as (s4 & H4 & H4' & _ & E4). cbn [Nat.add] in E4. rewrite <- E4.
      eexists. split; [etrans; [exact H4|by eapply once, (ct_drop s4 id token cell)]|]. split; [done|].
      intros [seq' t]. destruct done as [[x|]|]; [|done..]. intros [= <- <-].
      eapply HQ; [by eapply once, (ct_drop s4 id token cell)|]. eapply HQ; [exact H4'|]. by eapply HQ3.
    + by etrans.
    + intros now s3 x d w3 H3 Ex. eapply Hc; [by etrans; [exact H1'|]; etrans| |exact Ex].
      apply (gr_written _ _ (csteps_grow _ _ H3)). simpl. by left.
    + intros x s3 s4 H4 Hx t Et. eapply HQ; [exact H4|by eapply Hx].
  - intros [= <- <-]. assert (H2 : csteps s1 (s1 <| cy_world := w1 |>)) by by eapply world_step, gating_around.
    assert (H12 := transitivity H1 H2). destruct (interfered (1 + n) _ H12) as (s3 & H3 & H3' & _ & E3). simpl in E3. rewrite <- E3.
    eexists. split; [etrans; [exact H3|by eapply once, (ct_drop s3 id token cell)]|]. by split.
Qed.

(** ** The calls *)

Lemma ask_run id agent run n s r w' :
  csteps s0 s → held (approval_request id agent run) others n (cy_world s) = (r, w') →
  ∃ s', csteps s0 s' ∧ csteps s s' ∧ cy_world s' = w' ∧
    ∀ x, r = Some x → ∀ request binding, x = Ok (request, binding) → MkQuestion id request binding ∈ cy_asked s'.
Proof.
  intros H0 E. eapply (held_run _ (λ x s', ∀ request binding, x = Ok (request, binding) →
    MkQuestion id request binding ∈ cy_asked s')); [exact H0| | |exact E].
  - intros now s1 x d w1 _ Ef. eexists. split; [by eapply ct_ask|]. split; [done|]. intros request binding ->. by left.
  - intros x s1 s2 H12 Hx request binding Ex. apply (gr_asked _ _ (csteps_grow _ _ H12)). eauto.
Qed.
Lemma handoff_run id agent run binding n s r w' :
  csteps s0 s → held (session_confirmation_handoff id agent run binding) others n (cy_world s) = (r, w') →
  ∃ s', csteps s0 s' ∧ csteps s s' ∧ cy_world s' = w'.
Proof.
  intros H0 E. eapply (held_run _ (λ _ _, True)) in E as (s' & ? & ? & ? & _); [by exists s'|done| |done].
  intros now s1 x d w1 _ Ef. eexists. split; [by eapply ct_handoff|done].
Qed.
Lemma answer_run q agent run confirmed n s r w' :
  csteps s0 s → q ∈ cy_asked s →
  held (approval_answer (qu_id q) agent run (qu_binding q) confirmed) others n (cy_world s) = (r, w') →
  ∃ s', csteps s0 s' ∧ csteps s s' ∧ cy_world s' = w' ∧
    ∀ x, r = Some x → ∀ y, x = Ok y → approve_flight (qu_id q) agent run (qu_binding q) y ∈ cy_flights s'.
Proof.
  intros H0 Hq E. eapply (held_run _ (λ x s', ∀ y, x = Ok y →
    approve_flight (qu_id q) agent run (qu_binding q) y ∈ cy_flights s')); [exact H0| | |exact E].
  - intros now s1 x d w1 H1 Ef. eexists. split; [eapply ct_answer; [|exact Ef]|].
    + by apply (gr_asked _ _ (csteps_grow _ _ H1)).
    + split; [done|]. intros y ->. by left.
  - intros x s1 s2 H12 Hx y Ey. apply (gr_flights _ _ (csteps_grow _ _ H12)). eauto.
Qed.

(** [request_approval]: its approval was given. *)
Lemma request_approval_run id agent run confirm_action r w' :
  request_approval id agent run confirm_action others (cy_world s0) = (r, w') →
  ∃ s', csteps s0 s' ∧ cy_world s' = w' ∧ ∀ a, r = Some (Ok a) → ra_commitment a = id ∧ a ∈ cy_approvals s'.
Proof.
  unfold request_approval. destruct (held (approval_request _ _ _) _ _ _) as [asked w1] eqn:E1.
  apply ask_run in E1 as (s1 & H1 & _ & <- & Hq); [|done].
  destruct asked as [[[request binding]|error]|]; [|intros [= <- <-]; by exists s1..].
  specialize (Hq _ eq_refl _ _ eq_refl).
  destruct (held (session_confirmation_handoff _ _ _ _) _ _ _) as [ready w2] eqn:E2.
  apply handoff_run in E2 as (s2 & H2 & H12 & <-); [|done].
  destruct ready as [[u|error]|]; [|intros [= <- <-]; by exists s2..].
  destruct (interfered 4 s2 H2) as (s3 & H3 & H23 & _ & E3). rewrite <- E3.
  destruct (held (approval_answer _ _ _ _ _) _ _ _) as [answered w4] eqn:E4.
  apply (answer_run (MkQuestion id request binding)) in E4 as (s4 & H4 & H34 & <- & Hf); [|done|].
  2: { apply (gr_asked _ _ (csteps_grow _ _ H23)), (gr_asked _ _ (csteps_grow _ _ H12)). done. }
  destruct answered as [[[[token record] cell]|error]|]; [|intros [= <- <-]; by exists s4..].
  specialize (Hf _ eq_refl _ eq_refl). simpl in Hf.
  destruct (transition _ _ _ _ _ _ _ _ _ _ _) as [done w5] eqn:E5. intros [= <- <-].
  apply (transition_run _ _ _ _ _ _ _ _ (λ s', MkR2Approval id binding ∈ cy_approvals s') 7 s4) in E5 as (s5 & H5 & <- & Ha).
  - exists s5. split_and!; [done|done|]. intros a. destruct done as [[x|]|]; [|done..]. intros [= <-].
    split; [done|]. by eapply Ha.
  - done.
  - intros now s5 x d w6 H45 Hw Ec. eexists. split.
    + eapply (ct_approved s5 (approve_flight id agent run binding (token, record, cell)) binding);
        [|done|done|exact Hw|exact Ec]. by apply (gr_flights _ _ (csteps_grow _ _ H45)).
    + split; [done|]. intros t ->. by left.
  - intros s5 s6 H56. apply (gr_approvals _ _ (csteps_grow _ _ H56)).
Qed.

Lemma authorization_run id agent run approval n s r w' :
  csteps s0 s → (∀ a, approval = Some a → a ∈ cy_approvals s) →
  held (authorization id agent run approval) others n (cy_world s) = (r, w') →
  ∃ s', csteps s0 s' ∧ csteps s s' ∧ cy_world s' = w' ∧
    ∀ x, r = Some x → ∀ y, x = Ok y → authorize_flight id agent run y ∈ cy_flights s'.
Proof.
  intros H0 Ha E. eapply (held_run _ (λ x s', ∀ y, x = Ok y →
    authorize_flight id agent run y ∈ cy_flights s')); [exact H0| | |exact E].
  - intros now s1 x d w1 H1 Ef. eexists. split; [eapply ct_authorize; [|exact Ef]|].
    + intros a Ea. by apply (gr_approvals _ _ (csteps_grow _ _ H1)), Ha.
    + split; [done|]. intros y ->. by left.
  - intros x s1 s2 H12 Hx y Ey. apply (gr_flights _ _ (csteps_grow _ _ H12)). eauto.
Qed.

(** A moment at which the commitment was Authorized. *)
Definition was_authorized id s : Prop :=
  ∃ s1 e, csteps s0 s1 ∧ csteps s1 s ∧ cw_entries (cy_world s1) !! id = Some e ∧ ce_state e = CommitmentState.Authorized.

(** [authorize], with no approval or one that was given. *)
Lemma authorize_run id agent run approval r w' :
  (∀ a, approval = Some a → a ∈ cy_approvals s0) → authorize id agent run approval others (cy_world s0) = (r, w') →
  ∃ s', csteps s0 s' ∧ cy_world s' = w' ∧ (r = Some (Ok tt) → was_authorized id s').
Proof.
  intros Ha. unfold authorize. destruct (held (authorization _ _ _ _) _ _ _) as [reserved w1] eqn:E1.
  apply authorization_run in E1 as (s1 & H1 & _ & <- & Hf); [|done|done].
  destruct reserved as [[[[[token approved] record] cell]|error]|]; [|intros [= <- <-]; by exists s1..].
  specialize (Hf _ eq_refl _ eq_refl). set (f := authorize_flight id agent run (token, approved, record, cell)) in *.
  destruct (transition _ _ _ _ _ _ _ _ _ _ _) as [done w2] eqn:E2. intros [= <- <-].
  apply (transition_run _ _ _ _ _ _ _ _ (was_authorized id) 2 s1) in E2 as (s2 & H2 & <- & HQ).
  - exists s2. split_and!; [done|done|]. destruct done as [[x|]|]; [|done..]. intros _. by eapply HQ.
  - done.
  - intros now s2 x d w3 H12 Hw Ec. assert (f ∈ cy_flights s2) by by apply (gr_flights _ _ (csteps_grow _ _ H12)).
    assert (Hstep : cstep s2 d (s2 <| cy_world := w3 |>)) by by eapply (ct_authorized s2 f).
    eexists. split; [exact Hstep|]. split; [done|]. intros t ->. apply complete_spec in Ec; [|done].
    destruct Ec as (e & cancel & owner & rw & _ & _ & _ & _ & _ & _ & _ & _ & _ & -> & _).
    eexists _, _. split; [|split; [apply rtc_refl|split; [apply lookup_insert_eq|done]]].
    etrans; [exact H1|]. etrans; [exact H12|]. by eapply once.
  - intros s2 s3 H23 (s4 & e & ? & ? & ? & ?). exists s4, e. split_and!; try done. by etrans.
Qed.

(** [begin]: the effect was begun, its start written before. *)
Definition began id agent run revalidated parameters s : Prop :=
  ∃ b, b ∈ cy_begun s ∧ bg_id b = id ∧ fl_agent (bg_flight b) = agent ∧ fl_run (bg_flight b) = run ∧
    fl_revalidated (bg_flight b) = revalidated ∧ fl_parameters (bg_flight b) = parameters ∧
    fl_record (bg_flight b) ∈ cy_written s.
Lemma start_run id agent run revalidated parameters n s r w' :
  csteps s0 s →
  held (λ now w, let '(r, d, w) := start id agent run revalidated parameters now w in
                 (map_ok (λ x, (x, nw_wall now)) r, d, w)) others n (cy_world s) = (r, w') →
  ∃ s', csteps s0 s' ∧ csteps s s' ∧ cy_world s' = w' ∧
    ∀ x, r = Some x → ∀ y wall, x = Ok (y, wall) → start_flight id agent run revalidated parameters y ∈ cy_flights s'.
Proof.
  intros H0 E. eapply (held_run _ (λ x s', ∀ y wall, x = Ok (y, wall) →
    start_flight id agent run revalidated parameters y ∈ cy_flights s')); [exact H0| | |exact E].
  - intros now s1 x d w1 H1 Ef. simpl in Ef. destruct (start _ _ _ _ _ _ (cy_world s1)) as [[x1 d1] w2] eqn:Es. simplify_eq.
    eexists. split; [by eapply ct_start|]. split; [done|]. intros y wall Ey. destruct x1; simplify_eq/=. by left.
  - intros x s1 s2 H12 Hx y wall Ey. apply (gr_flights _ _ (csteps_grow _ _ H12)). eauto.
Qed.
Lemma begin_run id agent run revalidated parameters r w' :
  begin id agent run revalidated parameters others (cy_world s0) = (r, w') →
  ∃ s', csteps s0 s' ∧ cy_world s' = w' ∧
    ∀ g, r = Some (Ok g) → eg_id g = id ∧ eg_handoff g = NOT_HANDED_OFF ∧ began id agent run revalidated parameters s'.
Proof.
  unfold begin. destruct (held _ _ _ _) as [reserved w1] eqn:E1.
  apply start_run in E1 as (s1 & H1 & _ & <- & Hf); [|done].
  destruct reserved as [[[[[token record] cell] wall]|error]|]; [|intros [= <- <-]; by exists s1..].
  specialize (Hf _ eq_refl _ _ eq_refl). set (f := start_flight _ _ _ _ _ _) in *.
  destruct (transition _ _ _ _ _ _ _ _ _ _ _) as [done w2] eqn:E2. intros [= <- <-].
  apply (transition_run _ _ _ _ _ _ _ _ (began id agent run revalidated parameters) 2 s1) in E2 as (s2 & H2 & <- & HQ).
  - exists s2. split_and!; [done|done|]. intros g. destruct done as [[x|]|]; [|done..]. intros [= <-].
    split_and!; [done|done|by eapply HQ].
  - done.
  - intros now s2 x d w3 H12 Hw Ec. assert (f ∈ cy_flights s2) by by apply (gr_flights _ _ (csteps_grow _ _ H12)).
    eexists. split; [by eapply (ct_begun s2 f)|]. split; [done|]. intros t ->. apply complete_spec in Ec; [|done].
    destruct Ec as (e & cancel & owner & rw & He & _). unfold began, begun_with. simpl. rewrite He.
    eexists. split; [by left|]. by split_and!.
  - intros s2 s3 H23 (b & Hb & Hid & Ha & Hr & Hrv & Hpm & Hw). exists b.
    pose proof (csteps_grow _ _ H23) as []. split_and!; eauto.
Qed.

(** [finish]: a status other than Uncertain means the report was taken. *)
Lemma finish_run id wall o cancelled handoff s r w' :
  csteps s0 s → finish_call id wall o cancelled handoff others (cy_world s) = (r, w') →
  ∃ s', csteps s0 s' ∧ csteps s s' ∧ cy_world s' = w' ∧
    ∀ status, r = Some status → status ≠ EndStatus.Uncertain → MkReport id o handoff ∈ cy_finished s'.
Proof.
  intros H0. unfold finish_call. destruct (interfered 0 s H0) as (s1 & H1 & H1' & _ & E1). rewrite <- E1.
  destruct (cw_poisoned (cy_world s1)); [intros [= <- <-]; by exists s1|].
  destruct (finish_hold _ _ _ _ _ _ _) as [d w1] eqn:Ef. apply ct_finish, once in Ef.
  destruct d as [d|]; [|intros [= <- <-]; eexists; split; [by etrans|]; split; [by etrans|]; split; [done|]; by intros ? [= <-]].
  set (s2 := s1 <| cy_world := w1 |> <| cy_finished := _ |>) in Ef. assert (H2 := transitivity H1 Ef).
  destruct (interfered 1 s2 H2) as (s3 & H3 & H23 & _ & E3). simpl in E3. rewrite <- E3.
  destruct (flush d (cy_world s3)) as [status w4] eqn:E4. intros [= <- <-].
  assert (H4 : csteps s3 (s3 <| cy_world := w4 |>)).
  { apply world_step. pose proof (flush_around d (cy_world s3)) as Ha. by rewrite E4 in Ha. }
  eexists. split; [by etrans|]. split; [by etrans; [exact H1'|]; etrans; [exact Ef|]; etrans|]. split; [done|].
  intros st _ _. simpl. apply (gr_finished _ _ (csteps_grow _ _ H23)). by left.
Qed.

(** Giving a host up moves no run. *)
Lemma abandon_around t w : around w (w <| cw_runs := (abandon_host t (cw_runs w)).2 |>).
Proof.
  split; try done. simpl. intros run. unfold abandon_host, retained_of. destruct (ct_cell t); [|done].
  by destruct (host _).
Qed.
Lemma guard_finish_run g o r w' :
  guard_finish g o others (cy_world s0) = (r, w') →
  ∃ s', csteps s0 s' ∧ cy_world s' = w' ∧
    ∀ status, r = Some status → status ≠ EndStatus.Uncertain → MkReport (eg_id g) o (eg_handoff g) ∈ cy_finished s'.
Proof.
  unfold guard_finish. destruct (interfered 2 s0 (rtc_refl _ _)) as (s1 & H1 & _ & _ & E1). rewrite <- E1.
  destruct (finish_call _ _ _ _ _ _ _) as [status w2] eqn:E2. apply finish_run in E2 as (s2 & H2 & _ & <- & Hr); [|done].
  destruct status as [status|]; intros [= <- <-]; [by exists s2|].
  eexists. split; [etrans; [exact H2|apply world_step, abandon_around]|done].
Qed.
Lemma guard_drop_run g r w' :
  guard_drop g others (cy_world s0) = (r, w') →
  ∃ s', csteps s0 s' ∧ cy_world s' = w' ∧
    ∀ status, r = Some status → status ≠ EndStatus.Uncertain → MkReport (eg_id g) ABANDONED (eg_handoff g) ∈ cy_finished s'.
Proof.
  unfold guard_drop. pose proof (world_step s0 _ (abandon_around (eg_cancel g) _)) as H1.
  destruct (abandon_host _ _) as [[] rw]; simpl in H1; [intros [= <- <-]; by eexists|].
  destruct (interfered 2 _ H1) as (s2 & H2 & _ & _ & E2). simpl in E2. rewrite <- E2.
  intros E3. apply finish_run in E3 as (s3 & H3 & _ & <- & Hr); [|done]. by exists s3.
Qed.
End Call.

(** ** Preparing *)

(** What a preparation owns until its commitment is inserted: the fresh id, and its slot. *)
Definition prepares (id : CommitmentId) (slot : option HaltCell) s : Prop :=
  cy_made s !! id = None ∧ ∀ c, slot = Some c → c ∈ cy_slots s.

Section Prepare.
Variables (s0 : CSys S) (id : CommitmentId) (slot : option HaltCell) (others : nat → CommitWorld S → CommitWorld S).
Hypothesis Hrely : rely s0 (prepares id slot) others.

(** A moment before the insertion. *)
Definition preparing s : Prop := csteps s0 s ∧ prepares id slot s.
Lemma prepare_other n s : preparing s → ∃ s', preparing s' ∧ csteps s s' ∧ cy_world s' = others n (cy_world s).
Proof.
  intros [H Ho]. destruct (interfered _ _ _ Hrely n s H) as (s' & ? & ? & Hk & ?). exists s'. by split_and!; try split; try apply Hk.
Qed.

Lemma drop_run s : preparing s → ∃ s', csteps s0 s' ∧ cy_world s' = slot_drop_held slot (cy_world s).
Proof.
  intros [H [_ Ho]]. unfold slot_drop_held. destruct slot as [c|] eqn:Es; [|by exists s].
  destruct (elem_of_Permutation (cy_slots s) c) as [Hp _]. destruct (Hp (Ho c eq_refl)) as [slots Hs].
  eexists. split; [etrans; [exact H|by eapply once, ct_unslot]|done].
Qed.

Lemma grants_run p grants n s refused w' :
  preparing s → grants_checked others n p grants (cy_world s) = (refused, w') → ∃ s', preparing s' ∧ cy_world s' = w'.
Proof.
  revert n s. induction grants as [|g grants IH]; intros n s Hs; simpl; [intros [= <- <-]; eauto|].
  destruct (grant_refusal p g (cy_world s)); [intros [= <- <-]; eauto|].
  destruct (prepare_other n s Hs) as (s1 & H1 & _ & <-). by apply IH.
Qed.

(** The commitment the call makes, the first record and the insertion. *)
Lemma insert_run nonce agent run p ttl privacy now0 w0 s now refused d w' :
  preparing s → pa_grants p ≠ [] → unshowable p = None →
  let e := new_commitment id nonce agent run p ttl privacy now0 w0 in
  prepared_record id e now0 w0 ∈ cy_written s → insert_commitment id e slot now (cy_world s) = (refused, d, w') →
  ∃ s', csteps s0 s' ∧ cy_world s' = w' ∧ cy_made s' !! id = Some e.
Proof.
  intros [H [Hn Ho]] Hg Hu e Hw E. assert (∃ slots, cy_slots s ≡ₚ option_list slot ++ slots) as [slots Hs].
  { destruct slot as [c|]; [|by exists (cy_slots s)]. by apply elem_of_Permutation, Ho. }
  eexists. split; [etrans; [exact H|by eapply once, ct_insert]|]. split; [done|]. simpl. apply lookup_insert_eq.
Qed.
Lemma record_run nonce agent run p ttl privacy now s r w' :
  preparing s → pa_grants p ≠ [] → unshowable p = None →
  let e := new_commitment id nonce agent run p ttl privacy now (cy_world s) in
  record_preparation id e slot now others (cy_world s) = (r, w') →
  ∃ s', csteps s0 s' ∧ cy_world s' = w' ∧
    ∀ view, r = Some (Ok view) → view = cview id e ∧ cy_made s' !! id = Some e.
Proof.
  intros Hs Hg Hu e. unfold record_preparation. destruct (prepare_other 6 s Hs) as (s1 & H1 & _ & <-).
  destruct (write_gating _ (cy_world s1)) as [[seq|error] w2] eqn:Ew.
  - set (s2 := s1 <| cy_world := w2 |> <| cy_written := prepared_record id e now (cy_world s) :: cy_written s1 |>).
    assert (H2 : preparing s2).
    { destruct H1 as [? []]. split; [etrans; [done|by eapply once, ct_written]|done]. }
    change w2 with (cy_world s2). destruct (prepare_other 7 s2 H2) as (s3 & H3 & H23 & <-).
    destruct (prepare_other 8 s3 H3) as (s4 & H4 & H34 & <-).
    destruct (cw_poisoned (cy_world s4)).
    { destruct (prepare_other 9 s4 H4) as (s5 & H5 & _ & <-). intros [= <- <-].
      destruct (drop_run s5 H5) as (s6 & ? & ?). by exists s6. }
    destruct (insert_commitment _ _ _ _ _) as [[refused d] w5] eqn:Ei.
    eapply insert_run in Ei as (s5 & H5 & <- & Hm); [|done..|].
    2: { apply (gr_written _ _ (csteps_grow _ _ H34)), (gr_written _ _ (csteps_grow _ _ H23)). by left. }
    destruct (interfered _ _ _ Hrely 10 s5 H5) as (s6 & H6 & H56 & _ & <-).
    destruct (flush d (cy_world s6)) as [st w7] eqn:E7. intros [= <- <-].
    exists (s6 <| cy_world := w7 |>). split_and!; [|done|].
    + etrans; [exact H6|]. apply world_step. pose proof (flush_around d (cy_world s6)) as Ha. by rewrite E7 in Ha.
    + intros view. destruct refused; [done|]. intros [= <-]. split; [done|]. simpl.
      by eapply made_grows, Hm; apply csteps_grow.
  - assert (H2 : preparing (s1 <| cy_world := w2 |>)).
    { destruct H1 as [? []]. split; [etrans; [done|by eapply world_step, gating_around]|done]. }
    destruct (prepare_other 7 _ H2) as (s3 & H3 & _ & E3). simpl in E3. rewrite <- E3. intros [= <- <-].
    destruct (drop_run s3 H3) as (s4 & ? & ?). by exists s4.
Qed.

(** [prepare] and [prepare_reserved]: what is answered was made. *)
Definition prepared_as nonce agent run p (view : CommitmentView) s : Prop :=
  ∃ n ttl privacy now w,
    let e := new_commitment id n agent run p ttl privacy now w in
    nonce = Some n ∧ view = cview id e ∧ cy_made s !! id = Some e ∧ pa_grants p ≠ [] ∧ unshowable p = None.
Lemma prepare_leased_run nonce agent run p ttl r w' :
  prepares id slot s0 → prepare_leased id nonce agent run p ttl slot others (cy_world s0) = (r, w') →
  ∃ s', csteps s0 s' ∧ cy_world s' = w' ∧ ∀ view, r = Some (Ok view) → prepared_as nonce agent run p view s'.
Proof.
  intros Ho. assert (H0 : preparing s0) by by split. unfold prepare_leased.
  destruct (prepare_other 0 s0 H0) as (s1 & H1 & _ & <-).
  assert (Hrefuse : ∀ s error, preparing s → (Some (Err error), slot_drop_held slot (cy_world s)) = (r, w') →
    ∃ s', csteps s0 s' ∧ cy_world s' = w' ∧ ∀ view, r = Some (Ok view) → prepared_as nonce agent run p view s').
  { intros s error Hs [= <- <-]. destruct (drop_run s Hs) as (s' & ? & ?). by exists s'. }
  destruct (run_check _ _ _ _); [|by apply Hrefuse].
  destruct (prepare_other 1 s1 H1) as (s2 & H2 & _ & <-).
  destruct (pa_grants p) as [|g gs] eqn:Eg; [by apply Hrefuse|].
  destruct (grants_checked _ _ _ _ _) as [refused w3] eqn:E3. apply grants_run in E3 as (s3 & H3 & <-); [|done].
  destruct (prepare_other 2 s3 H3) as (s4 & H4 & _ & <-).
  destruct refused; [by apply Hrefuse|]. destruct (unshowable p) eqn:Eu; [by apply Hrefuse|].
  destruct nonce as [nonce|]; [|by apply Hrefuse].
  destruct (prepare_other 3 s4 H4) as (s5 & H5 & _ & <-). intros E6.
  apply record_run in E6 as (s6 & H6 & <- & Hv); [|done|by rewrite Eg|done].
  exists s6. split_and!; [done|done|]. intros view Er. destruct (Hv view Er) as [-> Hm].
  eexists _, _, _, _, _. split_and!; [done|done|exact Hm|by rewrite Eg|done].
Qed.
Lemma prepare_run nonce agent run p ttl r w' :
  prepares id slot s0 → prepare id nonce agent run p ttl slot others (cy_world s0) = (r, w') →
  ∃ s', csteps s0 s' ∧ cy_world s' = w' ∧ ∀ view, r = Some (Ok view) → prepared_as nonce agent run p view s'.
Proof.
  intros Ho. unfold prepare. destruct (prepare_leased _ _ _ _ _ _ _ _ _) as [r1 w1] eqn:E1.
  apply prepare_leased_run in E1 as (s1 & H1 & <- & Hv); [|done].
  destruct r1 as [[view|error]|]; [intros [= <- <-]; by exists s1| |intros [= <- <-]; by exists s1].
  destruct (interfered _ _ _ Hrely 4 s1 H1) as (s2 & H2 & _ & _ & <-). intros [= <- <-].
  exists (s2 <| cy_world := end_leases (pa_leases p) (cy_world s2) |>).
  split; [etrans; [exact H2|apply world_step; by split]|]. by split.
Qed.
End Prepare.

(** ** The refinement *)

(** A hold of its own: [deny] and [fail_unstarted]. *)
Lemma denied_run s0 others id agent run r w' :
  rely s0 (λ _, True) others → held (deny id agent run) others 0 (cy_world s0) = (r, w') →
  ∃ s', csteps s0 s' ∧ cy_world s' = w'.
Proof.
  intros Hr E. eapply (held_run s0 _ _ Hr _ (λ _ _, True)) in E as (s' & ? & _ & ? & _); [by exists s'|done| |done].
  intros now s1 x d w1 _ Ef. eexists. split; [by eapply ct_deny|done].
Qed.
Lemma failed_run s0 others id agent run reason r w' :
  rely s0 (λ _, True) others → held (fail_unstarted id agent run reason) others 0 (cy_world s0) = (r, w') →
  ∃ s', csteps s0 s' ∧ cy_world s' = w'.
Proof.
  intros Hr E. eapply (held_run s0 _ _ Hr _ (λ _ _, True)) in E as (s' & ? & _ & ? & _); [by exists s'|done| |done].
  intros now s1 x d w1 _ Ef. eexists. split; [by eapply ct_fail|done].
Qed.

(** What an answer promises, when it is a success. *)
Definition on_ok {A} (P : A → CSys S → Prop) (x : aresult A) s : Prop := ∀ a, x = Ok a → P a s.
(** The approval a call answers: given, and of the Owner's yes to that commitment as made. *)
Definition approved_for s0 (id : CommitmentId) (a : R2Approval) s : Prop :=
  ra_commitment a = id ∧ a ∈ cy_approvals s ∧
  ∀ root, fresh_sys root → csteps root s0 →
    ∃ e, cy_made s !! id = Some e ∧ ra_binding a = ce_binding e ∧ yes s id (ce_binding e).
(** A taken report: of what the guard says, unless the status is uncertain. *)
Definition on_report (p : Report) (status : EndStatus.t) s : Prop := status ≠ EndStatus.Uncertain → p ∈ cy_finished s.
(** The effect begun for this call's guard, covered if the registry started fresh. *)
Definition begun_for s0 id agent run revalidated parameters (g : ExecutionGuard) s : Prop :=
  eg_id g = id ∧ eg_handoff g = NOT_HANDED_OFF ∧ began id agent run revalidated parameters s ∧
  ∀ root, fresh_sys root → csteps root s0 → ∃ b, b ∈ cy_begun s ∧ bg_id b = id ∧ covered s b.

End Calls.

(** ** The sample's start, by its call *)

Module SampleCalls.
#[local] Existing Instance SampleCrates.crates.
#[local] Existing Instance SampleCrates.sink.
Import SampleCommit.

(** Other threads that sweep the registry before every access. *)
Definition sweeping (_ : nat) (w : CommitWorld (list EvidenceRecord)) : CommitWorld (list EvidenceRecord) :=
  (sweep now w).1.1.
Lemma sweeping_rely s owns : (∀ s s' : Sys, owns s → cy_made s' = cy_made s → cy_slots s' = cy_slots s → owns s') →
  rely s owns sweeping.
Proof.
  intros Hown n t _. unfold sweeping. destruct (sweep now (cy_world t)) as [[w d] k] eqn:E.
  exists (t <| cy_world := w |>). split; [eapply once, ct_sweep; exact E|]. split; [|reflexivity].
  intros Ho. apply (Hown t); [exact Ho|reflexivity|reflexivity].
Qed.

Definition call := begin id agent run [1] [2] sweeping (cy_world s9).
Lemma call_answers : ∃ g, call.1 = Some (Ok g) ∧ eg_id g = id.
Proof. eexists. split; [vm_compute; reflexivity|vm_compute; reflexivity]. Qed.
Lemma call_runs : begin id agent run [1] [2] sweeping (cy_world s9) = (call.1, call.2).
Proof. unfold call. generalize (begin id agent run [1] [2] sweeping (cy_world s9)). intros []. reflexivity. Qed.
#[local] Opaque call s9 begin.
End SampleCalls.
