(* ===== verification/KernelMerkle.v ===== *)
(** * Kernel: hexadecimal and Merkle trees of the audit archive

    [kernel/src/audit/retention.rs]: the module's own [hex] functions, the Merkle root of
    a segment's event hashes, inclusion proofs and their check. SHA-256 is a parameter.
    A slice of a string at a byte that is not a character boundary panics: [None]. *)

From S2P Require Import Prelude Hash.

Local Open Scope Z_scope.
Local Open Scope nexus_scope.
#[local] Arguments lit : simpl never.

(** ** Hexadecimal ([mod hex]) *)

Definition hex_digit (n : Z) : Z := if n <? 10 then 48 + n else 87 + n.
(** [format!("{b:02x}")] of each byte. *)
Definition encode (bs : bytes) : str := bs ≫= λ b, [hex_digit (b / 16); hex_digit (b mod 16)].

(** [char::to_digit(16)], and [u8::from_str_radix(_, 16)] of two bytes: a sign is accepted. *)
Definition digit_value (c : Z) : option Z :=
  if is_ascii_digit c then Some (c - 48)
  else if (97 <=? c) && (c <=? 102) then Some (c - 87)
  else if (65 <=? c) && (c <=? 70) then Some (c - 55)
  else None.
Definition from_str_radix (a b : Z) : option Z :=
  if a =? 43 then digit_value b
  else match digit_value a, digit_value b with Some x, Some y => Some (16 * x + y) | _, _ => None end.

(** Not a character boundary: a continuation byte of UTF-8. *)
Definition continuation (b : Z) : bool := (128 <=? b) && (b <? 192).
(** The bytes from an even offset, which is a boundary. *)
Fixpoint decode_pairs (bs : bytes) : option (result bytes unit) :=
  match bs with
  | a :: b :: rest =>
      if match rest with c :: _ => continuation c | [] => false end then None
      else
        match from_str_radix a b with
        | None => Some (Err tt)
        | Some v => map_ok (cons v) <$> decode_pairs rest
        end
  | _ => Some (Ok [])
  end.
Definition decode (hex_str : str) : option (result bytes unit) :=
  if Z.odd (str_len hex_str) then Some (Err tt) else decode_pairs (as_bytes hex_str).

Record MerkleProofNode := MkProofNode {
  mp_hash : str;
  mp_is_left_sibling : bool;
}.
#[export] Instance MerkleProofNode_eq_dec : EqDecision MerkleProofNode.
Proof. solve_decision. Defined.

Section Merkle.
Context (sha256 : bytes → bytes).

Definition hex_to_bytes (hex_str : str) : option bytes :=
  match decode hex_str with
  | None => None
  | Some (Ok bs) => Some bs
  | Some (Err _) => Some (sha256 (as_bytes hex_str))
  end.

(** ** Roots *)

(** One level up: neighbours hashed together, the last of an odd level with itself. *)
Fixpoint next_level (level : list bytes) : list bytes :=
  match level with
  | a :: b :: rest => sha256 (a ++ b) :: next_level rest
  | [a] => [sha256 (a ++ a)]
  | [] => []
  end.
(** The loop [while level.len() > 1], with the number of rounds left. *)
Fixpoint climb_levels (fuel : nat) (level : list bytes) : list bytes :=
  match fuel, level with
  | S fuel, _ :: _ :: _ => climb_levels fuel (next_level level)
  | _, _ => level
  end.
Definition merkle_root (event_hashes : list str) : option (option str) :=
  match event_hashes with
  | [] => Some None
  | _ =>
      match mapM hex_to_bytes event_hashes with
      | None => None
      | Some level => (λ root, Some (encode root)) <$> head (climb_levels (length level) level)
      end
  end.

(** ** Proofs *)

(** An odd level is padded with a copy of its last node. *)
Definition pad_even (level : list bytes) : list bytes :=
  if Nat.odd (length level) then level ++ [default [] (last level)] else level.
Definition sibling (idx : nat) : nat := if Nat.even idx then S idx else pred idx.
(** The loop of [merkle_proof]; [level[sibling_idx]] is in range or panics. *)
Fixpoint proof_levels (fuel : nat) (level : list bytes) (idx : nat) : option (list MerkleProofNode) :=
  match fuel, level with
  | S fuel, _ :: _ :: _ =>
      let level := pad_even level in
      match level !! sibling idx with
      | None => None
      | Some node =>
          cons (MkProofNode (encode node) (negb (Nat.even idx))) <$>
            proof_levels fuel (next_level level) (Nat.div2 idx)
      end
  | _, _ => Some []
  end.
Definition merkle_proof (event_hashes : list str) (index : nat) : option (option (list MerkleProofNode)) :=
  if (length event_hashes <=? index)%nat || bool_decide (event_hashes = []) then Some None
  else
    match mapM hex_to_bytes event_hashes with
    | None => None
    | Some level => Some <$> proof_levels (length level) level index
    end.

Fixpoint verify_from (current : bytes) (proof : list MerkleProofNode) : option bytes :=
  match proof with
  | [] => Some current
  | node :: proof =>
      match hex_to_bytes (mp_hash node) with
      | None => None
      | Some sib =>
          verify_from (sha256 (if mp_is_left_sibling node then sib ++ current else current ++ sib)) proof
      end
  end.
Definition verify_merkle_proof (leaf_hash : str) (proof : list MerkleProofNode) (expected_root : str) : option bool :=
  match hex_to_bytes leaf_hash with
  | None => None
  | Some leaf => (λ root, bool_decide (encode root = expected_root)) <$> verify_from leaf proof
  end.
End Merkle.

(** ** Hexadecimal is faithful *)

Definition is_bytes (bs : bytes) : Prop := Forall (λ b, 0 ≤ b < 256) bs.
Definition digest_bytes (bs : bytes) : Prop := length bs = 32%nat ∧ is_bytes bs.
(** A hash as [format!("{digest:x}")] writes it. *)
Definition digest_text (h : str) : Prop := ∃ d, digest_bytes d ∧ h = encode d.

Lemma merkle_digit_value n : 0 ≤ n < 16 → digit_value (hex_digit n) = Some n ∧ 48 ≤ hex_digit n < 128.
Proof.
  intros Hn. unfold hex_digit, digit_value, is_ascii_digit. destruct (n <? 10) eqn:E.
  - replace ((48 <=? 48 + n) && (48 + n <=? 57)) with true by lia. split; [f_equal|]; lia.
  - replace ((48 <=? 87 + n) && (87 + n <=? 57)) with false by lia.
    replace ((97 <=? 87 + n) && (87 + n <=? 102)) with true by lia. split; [f_equal|]; lia.
Qed.
Lemma nibbles b : 0 ≤ b < 256 → 0 ≤ b / 16 < 16 ∧ 0 ≤ b mod 16 < 16 ∧ b = 16 * (b / 16) + b mod 16.
Proof. intros. Z.to_euclidean_division_equations. lia. Qed.

Lemma encode_cons b bs : encode (b :: bs) = hex_digit (b / 16) :: hex_digit (b mod 16) :: encode bs.
Proof. done. Qed.
Lemma encode_ascii bs : is_bytes bs → is_ascii (encode bs).
Proof.
  induction 1 as [|b bs Hb _ IH]; [constructor|]. destruct (nibbles b Hb) as (H1 & H2 & _).
  rewrite encode_cons. apply merkle_digit_value in H1 as [_ ?], H2 as [_ ?]. repeat constructor; [lia|lia|lia|lia|done].
Qed.
Lemma length_encode bs : length (encode bs) = (2 * length bs)%nat.
Proof. induction bs as [|b bs IH]; [done|]. rewrite encode_cons. simpl. rewrite IH. lia. Qed.
Lemma decode_pairs_encode bs : is_bytes bs → decode_pairs (encode bs) = Some (Ok bs).
Proof.
  induction 1 as [|b bs Hb Hbs IH]; [done|]. rewrite encode_cons. cbn [decode_pairs].
  destruct (nibbles b Hb) as (H1 & H2 & E). apply merkle_digit_value in H1 as [V1 R1], H2 as [V2 R2].
  assert (match encode bs with c :: _ => continuation c | [] => false end = false) as ->.
  { pose proof (encode_ascii _ Hbs) as Ha. destruct (encode bs) as [|c]; [done|]. apply Forall_cons in Ha as [? _].
    unfold continuation. lia. }
  unfold from_str_radix. rewrite V1, V2. replace (hex_digit (b / 16) =? 43) with false by lia.
  rewrite IH. simpl. by rewrite <- E.
Qed.
Lemma hex_roundtrip sha256 bs : is_bytes bs → hex_to_bytes sha256 (encode bs) = Some bs.
Proof.
  intros H. unfold hex_to_bytes, decode, str_len. rewrite as_bytes_ascii by by apply encode_ascii.
  rewrite length_encode. replace (Z.odd (Z.of_nat (2 * length bs))) with false.
  - by rewrite decode_pairs_encode.
  - symmetry. rewrite Nat2Z.inj_mul. by rewrite Z.odd_mul.
Qed.
Lemma encode_inj bs1 bs2 : is_bytes bs1 → is_bytes bs2 → encode bs1 = encode bs2 → bs1 = bs2.
Proof. intros H1 H2 E. apply (f_equal (hex_to_bytes id)) in E. rewrite !hex_roundtrip in E by done. by simplify_eq. Qed.

(** ** Levels *)

(** Induction two elements at a time. *)
Lemma list_ind2 {A} (P : list A → Prop) :
  P [] → (∀ a, P [a]) → (∀ a b l, P l → P (a :: b :: l)) → ∀ l, P l.
Proof. intros H0 H1 H2. fix go 1. intros [|a [|b l]]; [done|apply H1|apply H2, go]. Qed.

Section Levels.
Context (sha256 : bytes → bytes) (Hsha : ∀ b, digest_bytes (sha256 b)).

Lemma next_level_length level : length (next_level sha256 level) = Nat.div2 (S (length level)).
Proof.
  induction level as [| |a b rest IH] using list_ind2; [done|done|]. cbn [next_level length]. rewrite IH. done.
Qed.
Lemma next_level_digests level : Forall digest_bytes (next_level sha256 level).
Proof. induction level as [| |a b rest IH] using list_ind2; cbn [next_level]; repeat constructor; try apply Hsha; done. Qed.

Lemma next_level_pad level : next_level sha256 (pad_even level) = next_level sha256 level.
Proof.
  unfold pad_even. induction level as [|a|a b rest IH] using list_ind2; [done|done|].
  cbn [length Nat.odd Nat.even negb]. change (Nat.odd (S (S (length rest)))) with (Nat.odd (length rest)).
  destruct (Nat.odd (length rest)) eqn:E; [|done]. destruct rest as [|c rest]; [done|].
  change (last (a :: b :: c :: rest)) with (last (c :: rest)).
  cbn [app next_level]. f_equal. exact IH.
Qed.

(** A node with its neighbour, and the two of them one level up. *)
Lemma neighbours level idx leaf :
  (2 ≤ length level)%nat → level !! idx = Some leaf →
  ∃ node, pad_even level !! sibling idx = Some node ∧ (node ∈ level) ∧
    next_level sha256 level !! Nat.div2 idx =
      Some (sha256 (if negb (Nat.even idx) then node ++ leaf else leaf ++ node)).
Proof.
  revert idx. unfold pad_even.
  induction level as [|a|a b rest IH] using list_ind2; intros idx Hl Hi; [simpl in Hl; lia|simpl in Hl; lia|].
  change (Nat.odd (length (a :: b :: rest))) with (Nat.odd (length rest)).
  destruct idx as [|[|idx]].
  - exists b. simpl in Hi. injection Hi as ->. split; [by destruct (Nat.odd _)|]. split; [set_solver|done].
  - exists a. simpl in Hi. injection Hi as ->. split; [by destruct (Nat.odd _)|]. split; [set_solver|done].
  - change (rest !! idx = Some leaf) in Hi.
    assert (Hsib : sibling (S (S idx)) = S (S (sibling idx))).
    { unfold sibling. change (Nat.even (S (S idx))) with (Nat.even idx). destruct (Nat.even idx) eqn:E; [done|]. by destruct idx. }
    destruct rest as [|c rest]; [done|]. destruct rest as [|d rest].
    + destruct idx; [|done]. injection Hi as ->. exists leaf. split; [done|]. split; [set_solver|done].
    + destruct (IH idx) as (node & Hn & Hin & Hup); [simpl; lia|done|]. exists node.
      rewrite Hsib. change (Nat.even (S (S idx))) with (Nat.even idx). split; [|split; [set_solver|exact Hup]].
      change (last (a :: b :: c :: d :: rest)) with (last (c :: d :: rest)).
      destruct (Nat.odd (length (c :: d :: rest))); exact Hn.
Qed.

Lemma div2_lt n : (2 ≤ n)%nat → (Nat.div2 (S n) < n)%nat.
Proof. intros H. pose proof (Nat.div2_odd (S n)). destruct (Nat.odd (S n)); simpl in *; lia. Qed.

(** The proof of a leaf climbs to the root. *)
Lemma proof_climbs fuel level idx leaf :
  (length level ≤ fuel)%nat → Forall digest_bytes level → level !! idx = Some leaf →
  ∃ proof root, proof_levels sha256 fuel level idx = Some proof ∧ climb_levels sha256 fuel level = [root] ∧
    digest_bytes root ∧ verify_from sha256 leaf proof = Some root.
Proof.
  revert level idx leaf. induction fuel as [|fuel IH]; intros level idx leaf Hf Hd Hi.
  - destruct level; [done|simpl in Hf; lia].
  - destruct level as [|a [|b rest]]; [done| |].
    + destruct idx; [|done]. simpl in Hi. injection Hi as ->. apply Forall_cons in Hd as [Hd _].
      exists [], leaf. done.
    + set (level := a :: b :: rest) in *. assert (Hlen : (2 ≤ length level)%nat) by (simpl; lia).
      destruct (neighbours level idx leaf Hlen Hi) as (node & Hn & Hin & Hup).
      edestruct (IH (next_level sha256 level) (Nat.div2 idx)) as (proof & root & Hp & Hc & Hr & Hv);
        [|apply next_level_digests|exact Hup|].
      { rewrite next_level_length. pose proof (div2_lt (length level) Hlen). lia. }
      exists (MkProofNode (encode node) (negb (Nat.even idx)) :: proof), root.
      split; [|split; [done|split; [done|]]].
      * cbn [proof_levels]. subst level. cbv zeta. rewrite Hn, next_level_pad, Hp. done.
      * cbn [verify_from mp_hash mp_is_left_sibling]. rewrite hex_roundtrip.
        -- exact Hv.
        -- rewrite Forall_forall in Hd. by apply Hd.
Qed.

(** What is hashed from one level to the next, up to the root, and along a proof. *)
Fixpoint level_inputs (level : list bytes) : list bytes :=
  match level with
  | [] => []
  | [a] => [a ++ a]
  | a :: b :: rest => (a ++ b) :: level_inputs rest
  end.
Fixpoint climb_inputs (fuel : nat) (level : list bytes) : list bytes :=
  match fuel, level with
  | S fuel, _ :: _ :: _ => level_inputs level ++ climb_inputs fuel (next_level sha256 level)
  | _, _ => []
  end.
Fixpoint proof_inputs (leaf : bytes) (proof : list MerkleProofNode) : list bytes :=
  match proof with
  | [] => []
  | n :: proof =>
      match hex_to_bytes sha256 (mp_hash n) with
      | None => []
      | Some sib =>
          let x := if mp_is_left_sibling n then sib ++ leaf else leaf ++ sib in
          x :: proof_inputs (sha256 x) proof
      end
  end.

(** A node one level up is the hash of two nodes below. *)
Lemma parent level x :
  x ∈ next_level sha256 level → ∃ a b, a ∈ level ∧ b ∈ level ∧ a ++ b ∈ level_inputs level ∧ x = sha256 (a ++ b).
Proof.
  induction level as [|a|a b rest IH] using list_ind2; cbn [next_level level_inputs].
  - by intros ?%elem_of_nil.
  - intros ->%list_elem_of_singleton. exists a, a. split_and!; [set_solver..|done].
  - intros [->|Hin]%elem_of_cons; [exists a, b; split_and!; [set_solver..|done]|].
    destruct (IH Hin) as (c & d & ? & ? & ? & ->). exists c, d. split_and!; [set_solver..|done].
Qed.

(** What climbs to the root as high as a real proof is a leaf. *)
Lemma climb_sound fuel level idx p0 leaf proof root :
  (length level ≤ fuel)%nat → Forall digest_bytes level → digest_bytes leaf →
  proof_levels sha256 fuel level idx = Some p0 → length proof = length p0 →
  climb_levels sha256 fuel level = [root] → verify_from sha256 leaf proof = Some root →
  leaf ∈ level ∨ clash_among sha256 (climb_inputs fuel level) (proof_inputs leaf proof).
Proof.
  revert level idx p0 leaf proof. induction fuel as [|fuel IH]; intros level idx p0 leaf proof Hf Hd Hleaf Hp Hl Hc Hv.
  - destruct level; [done|simpl in Hf; lia].
  - destruct level as [|a [|b rest]]; [done| |].
    + simpl in Hp, Hc. simplify_eq/=. destruct proof; [|done]. simpl in Hv. simplify_eq. left. set_solver.
    + set (level := a :: b :: rest) in *. assert (Hlen : (2 ≤ length level)%nat) by (simpl; lia).
      cbn [proof_levels climb_levels] in Hp, Hc. cbv zeta in Hp. destruct (pad_even level !! _) as [node|]; [|done].
      rewrite next_level_pad in Hp. destruct (proof_levels sha256 fuel _ _) as [p1|] eqn:Hp1; simplify_eq/=.
      destruct proof as [|n proof]; [done|]. cbn [proof_inputs]. simpl in Hl, Hv.
      destruct (hex_to_bytes sha256 (mp_hash n)) as [sib|]; [|done]. cbv zeta.
      assert (Hshort : (length (next_level sha256 level) ≤ fuel)%nat)
        by (rewrite next_level_length; pose proof (div2_lt (length level) Hlen); simpl in *; lia).
      destruct (IH (next_level sha256 level) _ _ _ _ Hshort (next_level_digests _) (Hsha _) Hp1 (eq_add_S _ _ Hl) Hc Hv)
        as [Hin|Hcl]; [|right; eapply clash_among_mono, Hcl; [subst level; cbn [climb_inputs]|]; set_solver].
      apply parent in Hin as (x & y & Hx & Hy & Hxy & [E|Hcl]%clash_or_same).
      2:{ right. exists (x ++ y). eexists. split; [|split; [apply elem_of_cons; left; reflexivity|]].
          - change (x ++ y ∈ level_inputs level ++ climb_inputs fuel (next_level sha256 level)). set_solver.
          - destruct Hcl as [Hne Heq]. by split. }
      left.
      rewrite Forall_forall in Hd. destruct (Hd _ Hx) as [Lx _], (Hd _ Hy) as [Ly _], Hleaf as [Ll _].
      destruct (mp_is_left_sibling n).
      * assert (length sib = length x) by (apply (f_equal length) in E; rewrite !length_app in E; lia).
        by apply app_inj_1 in E as [_ ->].
      * apply app_inj_1 in E as [-> _]; [done|lia].
Qed.

(** Two levels of the same size with the same level above. *)
Lemma next_level_binds l1 l2 :
  length l1 = length l2 → Forall digest_bytes l1 → Forall digest_bytes l2 →
  next_level sha256 l1 = next_level sha256 l2 → l1 = l2 ∨ clash_among sha256 (level_inputs l1) (level_inputs l2).
Proof.
  revert l2. induction l1 as [|a|a b rest IH] using list_ind2; intros l2 Hl H1 H2 E.
  - left. by destruct l2.
  - destruct l2 as [|c [|]]; try done. simpl in E. injection E as [E|?]%clash_or_same; [left|right; eexists _, _; split_and!; [by left..|done]].
    apply Forall_cons in H1 as [[L1 _] _], H2 as [[L2 _] _]. apply app_inj_1 in E as [-> _]; [done|lia].
  - destruct l2 as [|c [|d rest2]]; try done. cbn [next_level] in E. injection E as E E2.
    apply clash_or_same in E as [E|?]; [|right; eexists _, _; split_and!; [by left..|done]].
    apply Forall_cons in H1 as [[L1 _] H1], H2 as [[L2 _] H2]. apply Forall_cons in H1 as [_ H1], H2 as [_ H2].
    apply app_inj_1 in E as [-> ->]; [|lia]. 
    apply IH in E2 as [->|Hcl]; [by left| |simpl in Hl; lia|done|done].
    right. eapply clash_among_mono, Hcl; cbn [level_inputs]; set_solver.
Qed.
Lemma climb_binds fuel l1 l2 :
  length l1 = length l2 → Forall digest_bytes l1 → Forall digest_bytes l2 →
  climb_levels sha256 fuel l1 = climb_levels sha256 fuel l2 →
  l1 = l2 ∨ clash_among sha256 (climb_inputs fuel l1) (climb_inputs fuel l2).
Proof.
  revert l1 l2. induction fuel as [|fuel IH]; intros l1 l2 Hl H1 H2 E; [by left|].
  destruct l1 as [|a [|b rest]], l2 as [|c [|d rest2]]; try done; [by left|simpl in E; by left|].
  cbn [climb_levels] in E. cbn [climb_inputs].
  apply IH in E as [E|Hcl]; [|right; eapply clash_among_mono, Hcl; set_solver|by rewrite !next_level_length, Hl|apply next_level_digests..].
  apply next_level_binds in E as [->|Hcl]; [by left|right; eapply clash_among_mono, Hcl; set_solver|done..].
Qed.
End Levels.

(** ** Roots and proofs *)

Section Proofs.
Context (sha256 : bytes → bytes).

Lemma digest_levels hashes :
  Forall digest_text hashes →
  ∃ level, mapM (hex_to_bytes sha256) hashes = Some level ∧ Forall digest_bytes level ∧ hashes = encode <$> level.
Proof.
  induction 1 as [|h hashes (d & Hd & ->) _ (level & E & Hl & ->)]; [by exists []|].
  exists (d :: level). simpl. rewrite hex_roundtrip by apply Hd. simpl. rewrite E. split_and!; [done|by constructor|done].
Qed.

(** What is hashed for the root of a segment, and along a proof from a leaf. *)
Definition root_inputs (hashes : list str) : list bytes :=
  from_option (λ level, climb_inputs sha256 (length level) level) [] (mapM (hex_to_bytes sha256) hashes).
Definition path_inputs (leaf : str) (proof : list MerkleProofNode) : list bytes :=
  from_option (λ b, proof_inputs sha256 b proof) [] (hex_to_bytes sha256 leaf).

(** C37. Merkle proofs are complete and sound. For a segment of well-formed event hashes
    and any index in it, the root and the proof exist, and the event's hash checks against
    the root with that proof. Whatever well-formed hash checks against the root with any
    proof as long as a real one is the hash of an event of the segment, and any segment
    of as many events with that root has the same hashes, unless two different inputs
    hashed on the way, one by each side, collide in SHA-256. *)
Theorem merkle_proofs hashes index h :
  (∀ b, digest_bytes (sha256 b)) → Forall digest_text hashes → hashes !! index = Some h →
  ∃ root proof, merkle_root sha256 hashes = Some (Some root) ∧
    merkle_proof sha256 hashes index = Some (Some proof) ∧
    verify_merkle_proof sha256 h proof root = Some true ∧
    (∀ leaf proof', digest_text leaf → length proof' = length proof →
       verify_merkle_proof sha256 leaf proof' root = Some true → 
       leaf ∈ hashes ∨ clash_among sha256 (root_inputs hashes) (path_inputs leaf proof')) ∧
    (∀ hashes', length hashes' = length hashes → Forall digest_text hashes' →
       merkle_root sha256 hashes' = Some (Some root) → 
       hashes' = hashes ∨ clash_among sha256 (root_inputs hashes') (root_inputs hashes)).
Proof.
  intros Hsha Hh Hi. destruct (digest_levels hashes Hh) as (level & E & Hl & ->).
  rewrite list_lookup_fmap in Hi. destruct (level !! index) as [leaf|] eqn:Hx; simplify_eq/=.
  destruct (proof_climbs sha256 Hsha (length level) level index leaf) as (proof & root & Hp & Hc & Hr & Hv); [done..|].
  assert (Hne : level ≠ []) by by intros ->.
  assert (Hroot : merkle_root sha256 (encode <$> level) = Some (Some (encode root))).
  { unfold merkle_root. rewrite E, Hc. by destruct level. }
  exists (encode root), proof. split_and!; [done| | |intros leaf' proof' (d & Hd & ->) Hlen|intros hashes' Hlen Hd Hroot'].
  - unfold merkle_proof. rewrite E, Hp, length_fmap, bool_decide_false by by destruct level.
    apply lookup_lt_Some in Hx. rewrite (proj2 (Nat.leb_gt _ _)) by done. done.
  - unfold verify_merkle_proof. rewrite Forall_forall in Hl.
    rewrite hex_roundtrip, Hv by (apply Hl; by eapply list_elem_of_lookup_2). simpl. by rewrite bool_decide_true.
  - unfold verify_merkle_proof. rewrite hex_roundtrip by apply Hd.
    destruct (verify_from sha256 d proof') as [r|] eqn:Hr'; [|done]. simpl. intros [= Heq%bool_decide_eq_true].
    assert (is_bytes r) as Hrb.
    { destruct proof' as [|n proof']; [by simplify_eq/=; apply Hd|]. simpl in Hr'.
      destruct (hex_to_bytes _ _) as [sib|]; [|done]. revert Hr'.
      generalize (if mp_is_left_sibling n then sib ++ d else d ++ sib). clear -Hsha. intros x.
      revert x. induction proof' as [|m proof' IH]; intros x Hr'; simpl in Hr'; [simplify_eq; apply Hsha|].
      destruct (hex_to_bytes _ _); [by eapply IH|done]. }
    apply encode_inj in Heq as ->; [|done|apply Hr].
    destruct (climb_sound sha256 Hsha (length level) level index proof d proof' root) as [Hin|?]; try done; [left|right].
    + apply list_elem_of_fmap. eauto.
    + unfold root_inputs, path_inputs. rewrite E, hex_roundtrip by apply Hd. done.
  - destruct (digest_levels hashes' Hd) as (level' & E' & Hl' & ->). rewrite !length_fmap in Hlen.
    destruct (climb_binds sha256 Hsha (length level) level' level) as [->|?]; [done..| |by left|].
    2:{ right. unfold root_inputs. rewrite E, E'. simpl. by rewrite Hlen. }
    unfold merkle_root in Hroot'. rewrite E', Hlen in Hroot'. destruct (lookup_lt_is_Some_2 level' index) as [x Hx'];
      [rewrite Hlen; by eapply lookup_lt_Some|].
    destruct (proof_climbs sha256 Hsha (length level) level' index x) as (_ & root' & _ & Hc' & Hr'' & _); [lia|done|done|].
    rewrite Hc, Hc'. rewrite Hc' in Hroot'. destruct level'; [done|]. simpl in Hroot'. simplify_eq.
    f_equal. apply encode_inj; [apply Hr''|apply Hr|done].
Qed.

(** The root does not tell a segment of odd length from the same with its last event
    twice, and a proof one shorter is accepted for an inner node: neither is an event. *)
Lemma merkle_root_repeats (level : list bytes) (x : bytes) :
  Nat.even (length level) = true → next_level sha256 (level ++ [x]) = next_level sha256 (level ++ [x; x]).
Proof.
  induction level as [|a|a b rest IH] using list_ind2; intros He; [done|done|]. cbn [app next_level]. by rewrite IH.
Qed.
Lemma inner_node_accepted (a b : bytes) :
  (∀ y, digest_bytes (sha256 y)) → digest_bytes a → digest_bytes b →
  ∃ root, merkle_root sha256 [encode a; encode b] = Some (Some root) ∧ verify_merkle_proof sha256 root [] root = Some true.
Proof.
  intros Hsha Ha Hb. exists (encode (sha256 (a ++ b))). split.
  - unfold merkle_root. simpl. rewrite !hex_roundtrip by (apply Ha || apply Hb). done.
  - unfold verify_merkle_proof. rewrite hex_roundtrip by apply Hsha. simpl. by rewrite bool_decide_true.
Qed.
End Proofs.

Module SampleMerkle.
Definition leaf (n : Z) : bytes := replicate 32 n.
Definition hashes : list str := encode <$> [leaf 1; leaf 2; leaf 3].
(** A stand-in for SHA-256: the first bytes, padded. *)
Definition toy (b : bytes) : bytes := (λ x, x mod 256) <$> toy_digest b.
Lemma toy_ok b : digest_bytes (toy b).
Proof.
  unfold toy. split; [by rewrite length_fmap, toy_digest_length|]. apply Forall_fmap, Forall_true. intros x. apply Z.mod_pos_bound. lia.
Qed.
Lemma leaf_ok n : 0 ≤ n < 256 → digest_text (encode (leaf n)).
Proof. intros Hn. exists (leaf n). split; [|done]. split; [done|]. by apply Forall_replicate. Qed.

Lemma merkle_proofs_witness :
  ∃ root proof, merkle_root toy hashes = Some (Some root) ∧ merkle_proof toy hashes 2 = Some (Some proof) ∧
    length proof = 2%nat ∧ verify_merkle_proof toy (encode (leaf 3)) proof root = Some true.
Proof.
  destruct (merkle_proofs toy hashes 2 (encode (leaf 3)) toy_ok) as (root & proof & H1 & H2 & H3 & _).
  - repeat constructor; apply leaf_ok; lia.
  - reflexivity.
  - exists root, proof. split; [exact H1|]. split; [exact H2|]. split; [|exact H3].
    vm_compute in H2. by simplify_eq.
Defined.
End SampleMerkle.
