(* ===== verification/KernelAudit.v ===== *)
(** * Kernel: the audit trail

    [kernel/src/audit/mod.rs] and [kernel/src/audit/retention.rs]: hash-chained events,
    the optional batcher that seals batches for a distributed audit, and the optional
    retention buffer that archives old events to disk with Merkle roots. SHA-256, the
    serialization of an event ([serde_json::to_vec]) and the display of a [Uuid] are
    parameters, as are the files of the archive (their JSON and compression included);
    the clock is read through a function of the reading's number, event ids are drawn by
    the caller. A panic is [None]. *)

From Stdlib Require Import SpecFloat.
From S2P Require Import Prelude Hash AuthBase KernelMerkle.

Local Open Scope Z_scope.
Local Open Scope nexus_scope.
#[local] Arguments lit : simpl never.

(** ** Events *)

(** [serde_json::Value]; an [f64] is a [spec_float]. *)
Inductive Value :=
| JNull
| JBool (b : bool)
| JInt (n : Z)
| JFloat (f : spec_float)
| JStr (s : str)
| JArr (l : list Value)
| JObj (entries : list (str * Value)).

Abbreviation Uuid := bytes (only parsing).
Definition nil_uuid : Uuid := replicate 16 0.

Module AuditError.
Inductive t :=
| BatcherPoisoned
| SerializationFailed.
End AuditError.
#[export] Instance AuditError_eq_dec : EqDecision AuditError.t.
Proof. solve_decision. Defined.

Module EventType.
Inductive t :=
| StateChange
| ToolCall
| LlmCall
| Error
| UserAction.
End EventType.
#[export] Instance EventType_eq_dec : EqDecision EventType.t.
Proof. solve_decision. Defined.

Definition GENESIS_HASH : str := replicate 64 48.

Record AuditEvent := MkAuditEvent {
  ae_event_id : Uuid;
  ae_timestamp : Z;
  ae_agent_id : Uuid;
  ae_event_type : EventType.t;
  ae_payload : Value;
  ae_previous_hash : str;
  ae_hash : str;
}.

(** The data of an event under its hash. *)
Record CanonicalEventData := MkCanonical {
  cd_event_id : str;
  cd_timestamp : Z;
  cd_agent_id : str;
  cd_event_type : EventType.t;
  cd_payload : Value;
}.

Class AuditCrates := {
  ac_sha256 : bytes → bytes;
  ac_to_vec : CanonicalEventData → option bytes;
  ac_uuid_string : Uuid → str;
}.

Section Hashing.
Context {crates : AuditCrates}.

Definition compute_hash (event_id : Uuid) (timestamp : Z) (agent_id : Uuid) (event_type : EventType.t)
    (payload : Value) (previous_hash : str) : result str AuditError.t :=
  match ac_to_vec (MkCanonical (ac_uuid_string event_id) timestamp (ac_uuid_string agent_id) event_type payload) with
  | None => Err AuditError.SerializationFailed
  | Some serialized => Ok (encode (ac_sha256 (as_bytes previous_hash ++ serialized)))
  end.
Definition event_hash (e : AuditEvent) : result str AuditError.t :=
  compute_hash (ae_event_id e) (ae_timestamp e) (ae_agent_id e) (ae_event_type e) (ae_payload e) (ae_previous_hash e).

(** [verify_event_chain], which is also the loop of [verify_integrity]. *)
Fixpoint verify_event_chain (expected_previous : str) (events : list AuditEvent) : bool :=
  match events with
  | [] => true
  | e :: events =>
      if negb (bool_decide (ae_previous_hash e = expected_previous)) then false
      else
        match event_hash e with
        | Err _ => false
        | Ok expected_hash =>
            if negb (bool_decide (ae_hash e = expected_hash)) then false
            else verify_event_chain (ae_hash e) events
        end
  end.
End Hashing.

(** ** The batcher *)

Record BatcherConfig := MkBatcherConfig {
  bc_max_events : Z;
  bc_max_age_secs : Z;
}.
Definition default_batcher : BatcherConfig := MkBatcherConfig 50 10.

(** [BlockBatcherState] over a sink of state [T], and the poison of its mutex. *)
Record BlockBatcher {T : Type} := MkBatcher {
  bb_config : BatcherConfig;
  bb_pending : list AuditEvent;
  bb_batch_start : Z;
  bb_sink : T;
  bb_sealed_count : Z;
  bb_poisoned : bool;
}.
Arguments BlockBatcher : clear implicits.
Definition batcher_eta {T} (b : BlockBatcher T) : BlockBatcher T :=
  MkBatcher T (bb_config b) (bb_pending b) (bb_batch_start b) (bb_sink b) (bb_sealed_count b) (bb_poisoned b).
#[export] Instance upd_bb_pending {T} : Update (@bb_pending T) := ltac:(update_with (@batcher_eta T)).
#[export] Instance upd_bb_batch_start {T} : Update (@bb_batch_start T) := ltac:(update_with (@batcher_eta T)).
#[export] Instance upd_bb_sink {T} : Update (@bb_sink T) := ltac:(update_with (@batcher_eta T)).
#[export] Instance upd_bb_sealed_count {T} : Update (@bb_sealed_count T) := ltac:(update_with (@batcher_eta T)).

(** [BlockBatchSink]: a batch is sealed. *)
Class BlockBatchSink (T : Type) := seal_batch : list AuditEvent → T → T.

Section Batcher.
Context {T : Type} {bsink : BlockBatchSink T}.
Implicit Types b : BlockBatcher T.

Definition batcher_new (config : BatcherConfig) (s : T) : BlockBatcher T := MkBatcher T config [] 0 s 0 false.

Definition seal_pending b : BlockBatcher T :=
  b <| bb_pending := [] |> <| bb_sink := seal_batch (bb_pending b) (bb_sink b) |>
    <| bb_sealed_count := bb_sealed_count b + 1 |>.
Definition maybe_seal (now : Z) b : BlockBatcher T :=
  if (bc_max_events (bb_config b) <=? Z.of_nat (length (bb_pending b))) ||
     (negb (bool_decide (length (bb_pending b) = 0%nat)) &&
      (bc_max_age_secs (bb_config b) <=? Z.max 0 (now - bb_batch_start b)))
  then seal_pending b else b.
Definition batcher_push (e : AuditEvent) (now1 now2 : Z) b : BlockBatcher T :=
  let b := if bool_decide (length (bb_pending b) = 0%nat) then b <| bb_batch_start := now1 |> else b in
  maybe_seal now2 (b <| bb_pending := bb_pending b ++ [e] |>).
Definition batcher_flush b : BlockBatcher T :=
  if bool_decide (length (bb_pending b) = 0%nat) then b else seal_pending b.
End Batcher.

(** ** The archive *)

Module ArchiveError.
Inductive t :=
| IoError (what : str)
| DeserializationError (what : str)
| IntegrityError (what : str).
End ArchiveError.

Record RetentionConfig := MkRetentionConfig {
  rc_max_live_events : Z;
  rc_segment_size : Z;
  rc_archive_dir : str;
}.
(** A file of the archive: its directory and its name. *)
Abbreviation ArchivePath := (str * str)%type (only parsing).
Record ArchivedSegment := MkSegment {
  sg_segment_id : Z;
  sg_event_count : Z;
  sg_merkle_root : str;
  sg_first_event_hash : str;
  sg_last_event_hash : str;
  sg_chain_link_hash : str;
  sg_first_timestamp : Z;
  sg_last_timestamp : Z;
  sg_archive_path : ArchivePath;
}.
Record RetentionBuffer := MkRetention {
  rb_live : list AuditEvent;
  rb_segments : list ArchivedSegment;
  rb_next_segment_id : Z;
  rb_config : RetentionConfig;
  rb_total_event_count : Z;
}.
Definition retention_eta (b : RetentionBuffer) : RetentionBuffer :=
  MkRetention (rb_live b) (rb_segments b) (rb_next_segment_id b) (rb_config b) (rb_total_event_count b).
#[export] Instance upd_rb_live : Update rb_live := ltac:(update_with retention_eta).
#[export] Instance upd_rb_segments : Update rb_segments := ltac:(update_with retention_eta).
#[export] Instance upd_rb_next : Update rb_next_segment_id := ltac:(update_with retention_eta).
#[export] Instance upd_rb_total : Update rb_total_event_count := ltac:(update_with retention_eta).

(** The files: events written (serialized, compressed, closed) or not, a segment's
    metadata written or not, events read back. *)
Class ArchiveFiles (D : Type) := {
  store_events : ArchivePath → list AuditEvent → D → bool * D;
  store_meta : ArchivePath → ArchivedSegment → D → bool * D;
  load_events : ArchivePath → D → result (list AuditEvent) ArchiveError.t;
}.

Definition segment_file (id : Z) : str := lit "segment_" ++ pad6 (u64_to_string id) ++ lit ".json.gz".
Definition meta_file (id : Z) : str := lit "segment_" ++ pad6 (u64_to_string id) ++ lit ".meta.json".

Section Archive.
Context {crates : AuditCrates} {D : Type} {files : ArchiveFiles D}.
Implicit Types (b : RetentionBuffer) (d : D).

Definition retention_new (config : RetentionConfig) : RetentionBuffer := MkRetention [] [] 0 config 0.
Definition record_append b : RetentionBuffer := b <| rb_total_event_count := rb_total_event_count b + 1 |>.

(** The metadata of a segment that is not empty. *)
Definition segment_of (dir : str) (segment_id : Z) (root : str) (first last : AuditEvent) (count : nat)
    : ArchivedSegment :=
  MkSegment segment_id (Z.of_nat count) root (ae_hash first) (ae_hash last) (ae_previous_hash first)
    (ae_timestamp first) (ae_timestamp last) (dir, segment_file segment_id).
Definition IO : ArchiveError.t := ArchiveError.IoError (lit "archive").

(** [write_segment]; the messages of the errors are left out. *)
Definition write_segment (segment_events : list AuditEvent) b d
    : option (result unit ArchiveError.t) * RetentionBuffer * D :=
  match segment_events, last segment_events with
  | first :: _, Some lst =>
      match merkle_root ac_sha256 (ae_hash <$> segment_events) with
      | None => (None, b, d)
      | Some root =>
          let root := default GENESIS_HASH root in
          let segment_id := rb_next_segment_id b in
          let b := b <| rb_next_segment_id := segment_id + 1 |> in
          let dir := rc_archive_dir (rb_config b) in
          let '(stored, d) := store_events (dir, segment_file segment_id) segment_events d in
          if negb stored then (Some (Err IO), b, d)
          else
            let meta := segment_of dir segment_id root first lst (length segment_events) in
            let '(stored, d) := store_meta (dir, meta_file segment_id) meta d in
            if negb stored then (Some (Err IO), b, d)
            else (Some (Ok tt), b <| rb_segments := rb_segments b ++ [meta] |>, d)
      end
  | _, _ => (Some (Ok tt), b, d)
  end.

(** [archive_from_vec]: the oldest events leave the vector, then are written. *)
Definition archive_from_vec (events : list AuditEvent) b d
    : option (result unit ArchiveError.t) * list AuditEvent * RetentionBuffer * D :=
  let seg_size := Z.min (rc_segment_size (rb_config b)) (Z.of_nat (length events)) in
  if seg_size =? 0 then (Some (Ok tt), events, b, d)
  else
    let n := Z.to_nat seg_size in
    let '(r, b, d) := write_segment (take n events) b d in
    (r, drop n events, b, d).

(** [push] on the buffer's own events, with [archive_oldest_segment]. *)
Definition archive_oldest_segment b d : option (result unit ArchiveError.t) * RetentionBuffer * D :=
  let '(r, live, b, d) := archive_from_vec (rb_live b) b d in (r, b <| rb_live := live |>, d).
Definition retention_push (e : AuditEvent) b d : option (result unit ArchiveError.t) * RetentionBuffer * D :=
  let b := b <| rb_live := rb_live b ++ [e] |> <| rb_total_event_count := rb_total_event_count b + 1 |> in
  if rc_max_live_events (rb_config b) <? Z.of_nat (length (rb_live b)) then archive_oldest_segment b d
  else (Some (Ok tt), b, d).

Definition archived_count b : Z := sum_Z (sg_event_count <$> rb_segments b).
Definition last_archived b : str :=
  match last (rb_segments b) with Some s => sg_last_event_hash s | None => GENESIS_HASH end.
Definition verify_live_chain b : bool := verify_event_chain (last_archived b) (rb_live b).

Fixpoint load_segments (segments : list ArchivedSegment) d : result (list AuditEvent) ArchiveError.t :=
  match segments with
  | [] => Ok []
  | s :: segments =>
      let? events := load_events (sg_archive_path s) d in
      let? rest := load_segments segments d in
      Ok (events ++ rest)
  end.
Definition load_all_archived b d : result (list AuditEvent) ArchiveError.t := load_segments (rb_segments b) d.

(** [verify_merkle] of a segment, and of all. *)
Definition merkle_matches (s : ArchivedSegment) (events : list AuditEvent) : option bool :=
  (λ root, bool_decide (root = Some (sg_merkle_root s))) <$> merkle_root ac_sha256 (ae_hash <$> events).
Definition verify_merkle (s : ArchivedSegment) d : option (result bool ArchiveError.t) :=
  match load_events (sg_archive_path s) d with
  | Err e => Some (Err e)
  | Ok events => Ok <$> merkle_matches s events
  end.
Fixpoint verify_roots (segments : list ArchivedSegment) d : option (result bool ArchiveError.t) :=
  match segments with
  | [] => Some (Ok true)
  | s :: segments =>
      match verify_merkle s d with
      | Some (Ok true) => verify_roots segments d
      | r => r
      end
  end.

(** The whole chain: [verify_full_chain] and [verify_full_integrity]. *)
Fixpoint verify_segments (expected_previous : str) (segments : list ArchivedSegment) (live : list AuditEvent) d
    : option (result bool ArchiveError.t) :=
  match segments with
  | [] => Some (Ok (verify_event_chain expected_previous live))
  | s :: segments =>
      if negb (bool_decide (sg_chain_link_hash s = expected_previous)) then Some (Ok false)
      else
        match load_events (sg_archive_path s) d with
        | Err e => Some (Err e)
        | Ok events =>
            if negb (verify_event_chain expected_previous events) then Some (Ok false)
            else
              match merkle_matches s events with
              | None => None
              | Some false => Some (Ok false)
              | Some true => verify_segments (sg_last_event_hash s) segments live d
              end
        end
  end.
Definition verify_full_chain b d : option (result bool ArchiveError.t) :=
  verify_segments GENESIS_HASH (rb_segments b) (rb_live b) d.
End Archive.

(** ** The trail *)

Record AuditTrail {T : Type} := MkTrail {
  at_events : list AuditEvent;
  at_batcher : option (BlockBatcher T);
  at_retention : option RetentionBuffer;
}.
Arguments AuditTrail : clear implicits.
Definition trail_eta {T} (t : AuditTrail T) : AuditTrail T := MkTrail T (at_events t) (at_batcher t) (at_retention t).
#[export] Instance upd_at_events {T} : Update (@at_events T) := ltac:(update_with (@trail_eta T)).
#[export] Instance upd_at_batcher {T} : Update (@at_batcher T) := ltac:(update_with (@trail_eta T)).
#[export] Instance upd_at_retention {T} : Update (@at_retention T) := ltac:(update_with (@trail_eta T)).

Section Trail.
Context {crates : AuditCrates} {T : Type} {bsink : BlockBatchSink T} {D : Type} {files : ArchiveFiles D}.
Implicit Types (t : AuditTrail T) (d : D).

Definition trail_new : AuditTrail T := MkTrail T [] None None.
(** The count starts at the events already kept. *)
Definition enable_retention (config : RetentionConfig) t : AuditTrail T :=
  t <| at_retention := Some (Nat.iter (length (at_events t)) record_append (retention_new config)) |>.
Definition enable_distributed_audit (config : BatcherConfig) (s : T) t : AuditTrail T :=
  t <| at_batcher := Some (batcher_new config s) |>.
Definition flush_batcher t : result unit AuditError.t * AuditTrail T :=
  match at_batcher t with
  | None => (Ok tt, t)
  | Some b => if bb_poisoned b then (Err AuditError.BatcherPoisoned, t)
              else (Ok tt, t <| at_batcher := Some (batcher_flush b) |>)
  end.

(** A poisoned batcher counts as none. *)
Definition sealed_batch_count t : Z :=
  match at_batcher t with Some b => if bb_poisoned b then 0 else bb_sealed_count b | None => 0 end.
Definition pending_batch_count t : Z :=
  match at_batcher t with Some b => if bb_poisoned b then 0 else Z.of_nat (length (bb_pending b)) | None => 0 end.

(** The hash the next event chains from. *)
Definition chain_start t : str := match at_retention t with Some b => last_archived b | None => GENESIS_HASH end.
Definition previous_hash t : str := match last (at_events t) with Some e => ae_hash e | None => chain_start t end.

(** The event kept, and old ones archived. *)
Definition keep_event (e : AuditEvent) t d : option (result unit AuditError.t) * AuditTrail T * D :=
  let events := at_events t ++ [e] in
  match at_retention t with
  | None => (Some (Ok tt), t <| at_events := events |>, d)
  | Some b =>
      let b := record_append b in
      if rc_max_live_events (rb_config b) <? Z.of_nat (length events) then
        let '(r, events, b, d) := archive_from_vec events b d in
        (map_err (λ _, AuditError.SerializationFailed) <$> r, t <| at_events := events |> <| at_retention := Some b |>, d)
      else (Some (Ok tt), t <| at_events := events |> <| at_retention := Some b |>, d)
  end.
(** The event given to the batcher, whose clock readings are the second and third. *)
Definition batch_event (e : AuditEvent) (clock : nat → Z) t : result unit AuditError.t * AuditTrail T :=
  match at_batcher t with
  | None => (Ok tt, t)
  | Some b =>
      if bb_poisoned b then (Err AuditError.BatcherPoisoned, t)
      else (Ok tt, t <| at_batcher := Some (batcher_push e (clock 1%nat) (clock 2%nat) b) |>)
  end.

Definition append_event (event_id : Uuid) (clock : nat → Z) (agent_id : Uuid) (event_type : EventType.t)
    (payload : Value) t d : option (result Uuid AuditError.t) * AuditTrail T * D :=
  match compute_hash event_id (clock 0%nat) agent_id event_type payload (previous_hash t) with
  | Err error => (Some (Err error), t, d)
  | Ok hash =>
      let e := MkAuditEvent event_id (clock 0%nat) agent_id event_type payload (previous_hash t) hash in
      let '(r, t, d) := keep_event e t d in
      match r with
      | None => (None, t, d)
      | Some (Err error) => (Some (Err error), t, d)
      | Some (Ok _) =>
          let '(r, t) := batch_event e clock t in (Some (map_ok (λ _, event_id) r), t, d)
      end
  end.

Definition verify_integrity t : bool := verify_event_chain (chain_start t) (at_events t).
Definition verify_full_integrity t d : option (result bool ArchiveError.t) :=
  match at_retention t with
  | Some b => verify_segments GENESIS_HASH (rb_segments b) (at_events t) d
  | None => Some (Ok (verify_integrity t))
  end.
Definition load_archived_events t d : result (list AuditEvent) ArchiveError.t :=
  match at_retention t with Some b => load_all_archived b d | None => Ok [] end.
Definition total_event_count t : Z :=
  match at_retention t with Some b => rb_total_event_count b | None => Z.of_nat (length (at_events t)) end.
End Trail.

(** ** Clients of the trail *)

(** [json!] of an object: a [BTreeMap], so its keys are in order. *)
Fixpoint str_leb (a b : str) : bool :=
  match a, b with
  | [], _ => true
  | _ :: _, [] => false
  | x :: a, y :: b => (x <? y) || ((x =? y) && str_leb a b)
  end.
Fixpoint insert_entry (kv : str * Value) (l : list (str * Value)) : list (str * Value) :=
  match l with
  | [] => [kv]
  | e :: l => if str_leb kv.1 e.1 then kv :: e :: l else e :: insert_entry kv l
  end.
Definition object (entries : list (str * Value)) : Value := JObj (foldr insert_entry [] entries).

(** The values [serde_json] has: integers of 64 bits, finite floats, text, keys in order. *)
Definition text_ok (s : str) : bool := forallb (λ c, (0 <=? c) && (c <? 1114112)) s.
Fixpoint keys_ordered (l : list str) : bool :=
  match l with
  | x :: (y :: _) as l' => str_leb x y && negb (bool_decide (x = y)) && keys_ordered l'
  | _ => true
  end.
Fixpoint value_ok (v : Value) : bool :=
  match v with
  | JNull | JBool _ => true
  | JInt n => (-9223372036854775808 <=? n) && (n <=? u64_max)
  | JFloat f =>
      match f with S754_zero _ => true | S754_finite _ m e => SpecFloat.bounded 53 1024 m e | _ => false end
  | JStr s => text_ok s
  | JArr l => forallb value_ok l
  | JObj entries => forallb (λ kv, text_ok kv.1 && value_ok kv.2) entries && keys_ordered entries.*1
  end.

(** [AuditWriter]: an append that gives the event's id, refuses, or panics; and the live
    window. *)
Class AuditWriter (A : Type) := {
  append_audit : Uuid → EventType.t → Value → A → option (result Uuid AuditError.t * A);
  live_events : A → list AuditEvent;
}.

(** The trail with its files, the ids that will be drawn and the clock's readings. *)
Record AuditWorld {T D : Type} := MkAuditWorld {
  aw_trail : AuditTrail T;
  aw_disk : D;
  aw_ids : nat → Uuid;
  aw_clock : nat → Z;
  aw_appends : nat;
}.
Arguments AuditWorld : clear implicits.

#[export] Instance trail_writer {crates : AuditCrates} {T : Type} {bsink : BlockBatchSink T} {D : Type}
    {files : ArchiveFiles D} : AuditWriter (AuditWorld T D) := {
  append_audit agent_id event_type payload w :=
    let n := aw_appends w in
    let '(r, t, d) :=
      append_event (aw_ids w n) (λ i, aw_clock w (3 * n + i)%nat) agent_id event_type payload (aw_trail w) (aw_disk w) in
    match r with
    | None => None
    | Some r => Some (r, MkAuditWorld T D t d (aw_ids w) (aw_clock w) (S n))
    end;
  live_events w := at_events (aw_trail w);
}.
