(* ===== verification/KernelAuditProps.v ===== *)
(** * Kernel: what the audit trail promises

    Whatever is appended, batched and archived, the chain verifies from the genesis hash
    through every archived segment, nothing is lost and the hashes bind every event; and
    what a failed archival loses. *)

From S2P Require Import Prelude Hash AuthBase KernelMerkle KernelAudit.

Local Open Scope Z_scope.
Local Open Scope nexus_scope.
#[local] Arguments lit : simpl never.

(** ** What is relied on *)

(** SHA-256 gives 32 bytes; what is serialized determines the data of an event; an id's
    display determines the id. *)
Definition event_ok (e : AuditEvent) : Prop := 0 ≤ ae_timestamp e ≤ u64_max ∧ value_ok (ae_payload e) = true.
Definition canonical `{AuditCrates} (e : AuditEvent) : CanonicalEventData :=
  MkCanonical (ac_uuid_string (ae_event_id e)) (ae_timestamp e) (ac_uuid_string (ae_agent_id e)) (ae_event_type e) (ae_payload e).
Record audit_laws `{AuditCrates} : Prop := {
  al_sha : ∀ b, digest_bytes (ac_sha256 b);
  al_json : ∀ e1 e2 s, event_ok e1 → event_ok e2 →
    ac_to_vec (canonical e1) = Some s → ac_to_vec (canonical e2) = Some s → canonical e1 = canonical e2;
  al_uuid : ∀ u v, ac_uuid_string u = ac_uuid_string v → u = v;
}.
(** A file stored reads back, and no other file changes. *)
Record archive_laws `{ArchiveFiles D} : Prop := {
  al_store : ∀ p evs d ok d', store_events p evs d = (ok, d') →
    (ok = true → load_events p d' = Ok evs) ∧ ∀ q, q ≠ p → load_events q d' = load_events q d;
  al_meta : ∀ p m d ok d', store_meta p m d = (ok, d') → ∀ q, q ≠ p → load_events q d' = load_events q d;
}.

(** ** Chains *)

Section Chains.
Context {crates : AuditCrates} (Hlaws : audit_laws).

Definition end_hash (start : str) (events : list AuditEvent) : str := from_option ae_hash start (last events).

Lemma end_hash_app start l1 l2 : end_hash start (l1 ++ l2) = end_hash (end_hash start l1) l2.
Proof. unfold end_hash. rewrite last_app. by destruct (last l2). Qed.
Lemma chain_app start l1 l2 :
  verify_event_chain start (l1 ++ l2) = verify_event_chain start l1 && verify_event_chain (end_hash start l1) l2.
Proof.
  revert start. induction l1 as [|e l1 IH]; intros start; [done|]. cbn [app verify_event_chain].
  destruct (negb (bool_decide (ae_previous_hash e = start))); [done|]. destruct (event_hash e) as [h|]; [|done].
  destruct (negb (bool_decide (ae_hash e = h))); [done|]. rewrite IH. do 2 f_equal.
  symmetry. exact (end_hash_app start [e] l1).
Qed.
Lemma chain_event start e :
  verify_event_chain start [e] = true ↔ ae_previous_hash e = start ∧ event_hash e = Ok (ae_hash e).
Proof.
  cbn [verify_event_chain]. case_bool_decide as Hp; simpl; [|naive_solver]. destruct (event_hash e) as [h|]; [|naive_solver].
  case_bool_decide as Hh; simpl; naive_solver.
Qed.

(** The previous hash of an event of a chain is 64 ASCII characters. *)
Definition hash_text (h : str) : Prop := h = GENESIS_HASH ∨ digest_text h.
Lemma digest_text_plain h : digest_text h → as_bytes h = h ∧ length h = 64%nat.
Proof.
  intros (d & [Hl Hb] & ->). rewrite length_encode, Hl. split; [|done]. by apply as_bytes_ascii, encode_ascii.
Qed.
Lemma hash_text_plain h : hash_text h → as_bytes h = h ∧ length h = 64%nat.
Proof. intros [->|H]; [split; vm_compute; reflexivity|by apply digest_text_plain]. Qed.
Lemma event_hash_text e h : event_hash e = Ok h → digest_text h.
Proof.
  unfold event_hash, compute_hash. destruct (ac_to_vec _); [|done]. intros [= <-]. eexists. split; [apply Hlaws|done].
Qed.
Lemma chain_hashes start events : verify_event_chain start events = true → Forall (λ e, digest_text (ae_hash e)) events.
Proof.
  revert start. induction events as [|e events IH]; intros start Hc; [constructor|].
  change (e :: events) with ([e] ++ events) in Hc. rewrite chain_app, andb_true_iff in Hc.
  destruct Hc as [[_ He%event_hash_text]%chain_event Hc]. constructor; [done|by eapply IH].
Qed.
Lemma chain_end start events : hash_text start → verify_event_chain start events = true → hash_text (end_hash start events).
Proof.
  intros Hs Hc%chain_hashes. unfold end_hash. destruct (last events) as [e|] eqn:El; [|done].
  apply last_Some in El as [l ->]. apply Forall_app in Hc as [_ Hc]. apply Forall_cons in Hc as [Hc _]. right. exact Hc.
Qed.

(** What is hashed for an event. *)
Definition event_input (e : AuditEvent) : bytes :=
  as_bytes (ae_previous_hash e) ++ default [] (ac_to_vec (canonical e)).
(** What a hash says of an event. *)
Lemma event_hash_binds e1 e2 :
  event_ok e1 → event_ok e2 →
  hash_text (ae_previous_hash e1) → hash_text (ae_previous_hash e2) →
  event_hash e1 = Ok (ae_hash e1) → event_hash e2 = Ok (ae_hash e2) → ae_hash e1 = ae_hash e2 →
  e1 = e2 ∨ clash ac_sha256 (event_input e1) (event_input e2).
Proof.
  unfold event_input. intros O1 O2 [P1 L1]%hash_text_plain [P2 L2]%hash_text_plain H1 H2 Eh.
  unfold event_hash, compute_hash in H1, H2. fold (canonical e1) in H1. fold (canonical e2) in H2.
  destruct (ac_to_vec (canonical e1)) as [s1|] eqn:S1; [|done]. destruct (ac_to_vec (canonical e2)) as [s2|] eqn:S2; [|done].
  injection H1 as H1. injection H2 as H2. rewrite <- H1, <- H2, P1, P2 in Eh. rewrite P1, P2. simpl.
  apply encode_inj, clash_or_same in Eh as [E|?]; [|by right|apply Hlaws|apply Hlaws].
  left. apply app_inj_1 in E as [Ep Es]; [|lia]. subst s2.
  pose proof (al_json Hlaws _ _ _ O1 O2 S1 S2) as E. injection E as Ei Et Ea Ety Epl.
  apply (al_uuid Hlaws) in Ei, Ea. destruct e1, e2; simpl in *. congruence.
Qed.

Lemma chains_bind start l1 l2 :
  hash_text start → Forall event_ok l1 → Forall event_ok l2 → length l1 = length l2 →
  verify_event_chain start l1 = true → verify_event_chain start l2 = true →
  end_hash start l1 = end_hash start l2 → l1 = l2 ∨ clash_among ac_sha256 (event_input <$> l1) (event_input <$> l2).
Proof.
  intros Hs. revert l2. induction l1 as [|e1 l1 IH] using rev_ind; intros l2 F1 F2 Hl H1 H2 E.
  - destruct l2; [by left|done].
  - destruct l2 as [|e2 l2 _] using rev_ind; [rewrite length_app in Hl; simpl in Hl; lia|].
    apply Forall_app in F1 as [F1 [O1 _]%Forall_cons], F2 as [F2 [O2 _]%Forall_cons].
    rewrite !length_app in Hl. rewrite chain_app, andb_true_iff in H1, H2. destruct H1 as [H1 [P1 C1]%chain_event].
    destruct H2 as [H2 [P2 C2]%chain_event]. rewrite !end_hash_app in E. unfold end_hash at 1 3 in E. simpl in E.
    rewrite !fmap_app.
    destruct (event_hash_binds e1 e2) as [->|?]; [done|done|by rewrite P1; apply chain_end|by rewrite P2; apply chain_end|done..| |].
    2:{ right. exists (event_input e1), (event_input e2). set_solver. }
    destruct (IH l2) as [->|Hcl]; [done|done|simpl in Hl; lia|done|done|congruence|by left|right].
    eapply clash_among_mono, Hcl; set_solver.
Qed.

(** C36. The trail is tamper-evident: two trails of as many events that both verify from
    the genesis hash and end in the same hash are the same events in every field, unless
    what is hashed for an event of one and for an event of the other differ and collide
    in SHA-256. *)
Theorem audit_chain_binds l1 l2 :
  Forall event_ok l1 → Forall event_ok l2 →
  length l1 = length l2 → verify_event_chain GENESIS_HASH l1 = true → verify_event_chain GENESIS_HASH l2 = true →
  end_hash GENESIS_HASH l1 = end_hash GENESIS_HASH l2 →
  l1 = l2 ∨ clash_among ac_sha256 (event_input <$> l1) (event_input <$> l2).
Proof. apply chains_bind. by left. Qed.
End Chains.

(** ** Files of the archive *)

Lemma pad6_inj a b :
  0 ≤ a ≤ u64_max → 0 ≤ b ≤ u64_max → pad6 (u64_to_string a) = pad6 (u64_to_string b) → a = b.
Proof.
  intros Ha Hb E. destruct (u64_to_string_spec a Ha) as (Va & Da & La), (u64_to_string_spec b Hb) as (Vb & Db & Lb).
  apply pad6_spec in La as (_ & Pa & _), Lb as (_ & Pb & _); [|done..]. congruence.
Qed.
Lemma segment_file_inj a b : 0 ≤ a ≤ u64_max → 0 ≤ b ≤ u64_max → segment_file a = segment_file b → a = b.
Proof. intros Ha Hb E. apply app_inv_head, app_inv_tail in E. by apply pad6_inj. Qed.
Lemma segment_not_meta a b : segment_file a ≠ meta_file b.
Proof.
  intros E. apply (f_equal last) in E. unfold segment_file, meta_file in E. rewrite !app_assoc, !last_app in E. vm_compute in E. done.
Qed.

#[local] Opaque segment_file meta_file.

(** ** A trail and its archive *)

Section Trails.
Context {crates : AuditCrates} {T : Type} {bsink : BlockBatchSink T} {D : Type} {files : ArchiveFiles D}.
Context (Hlaws : audit_laws) (Hfiles : archive_laws).
Implicit Types (t : AuditTrail T) (d : D) (b : RetentionBuffer).

(** A segment and the events it stands for. *)
Record stored d (s : ArchivedSegment) (events : list AuditEvent) : Prop := {
  sd_first : ∃ e rest, events = e :: rest ∧ sg_chain_link_hash s = ae_previous_hash e;
  sd_last : ∃ e, last events = Some e ∧ sg_last_event_hash s = ae_hash e;
  sd_load : load_events (sg_archive_path s) d = Ok events;
  sd_root : merkle_root ac_sha256 (ae_hash <$> events) = Some (Some (sg_merkle_root s));
}.
Record archived (all : list AuditEvent) (live : list AuditEvent) b d (groups : list (list AuditEvent)) : Prop := {
  ar_all : all = concat groups ++ live;
  ar_stored : Forall2 (stored d) (rb_segments b) groups;
  ar_paths : sg_archive_path <$> rb_segments b =
    (λ i, (rc_archive_dir (rb_config b), segment_file (Z.of_nat i))) <$> seq 0 (length groups);
  ar_next : rb_next_segment_id b = Z.of_nat (length groups);
  ar_total : rb_total_event_count b = Z.of_nat (length all);
}.
Definition trail_inv (all : list AuditEvent) t d : Prop :=
  verify_event_chain GENESIS_HASH all = true ∧
  match at_retention t with
  | None => all = at_events t
  | Some b => ∃ groups, archived all (at_events t) b d groups
  end.

Lemma stored_end d s events start : stored d s events → end_hash start events = sg_last_event_hash s.
Proof. intros [_ (e & El & ->) _ _]. unfold end_hash. by rewrite El. Qed.
Lemma archived_end segments d groups start :
  Forall2 (stored d) segments groups →
  end_hash start (concat groups) = match last segments with Some s => sg_last_event_hash s | None => start end.
Proof.
  intros H. revert start. induction H as [|s events segments groups Hs _ IH]; intros start; [done|].
  cbn [concat]. rewrite end_hash_app, (stored_end _ _ _ _ Hs), IH. destruct segments as [|s' segments]; [done|].
  destruct (last (s' :: segments)) eqn:E; [|by apply last_None in E]. by rewrite (last_cons s (s' :: segments)), E.
Qed.
Lemma archived_start all t d : trail_inv all t d → ∃ old, all = old ++ at_events t ∧ chain_start t = end_hash GENESIS_HASH old.
Proof.
  intros [_ H]. unfold chain_start. destruct (at_retention t) as [b|]; [|by exists []].
  destruct H as (groups & [-> Hst _ _ _]). exists (concat groups). split; [done|]. unfold last_archived.
  by rewrite (archived_end _ _ _ GENESIS_HASH Hst).
Qed.
Lemma previous_is_end all t d : trail_inv all t d → previous_hash t = end_hash GENESIS_HASH all.
Proof.
  intros H. destruct (archived_start _ _ _ H) as (old & -> & E). rewrite end_hash_app. unfold previous_hash.
  rewrite E. generalize (end_hash GENESIS_HASH old). intros h. unfold end_hash. by destruct (last (at_events t)).
Qed.
Lemma inv_verifies all t d : trail_inv all t d → verify_integrity t = true.
Proof.
  intros H. destruct (archived_start _ _ _ H) as (old & Eall & E). destruct H as [Hc _].
  rewrite Eall, chain_app, andb_true_iff in Hc. unfold verify_integrity. rewrite E. by destruct Hc.
Qed.

Lemma segments_verify start segments groups live d :
  Forall2 (stored d) segments groups → verify_event_chain start (concat groups ++ live) = true →
  verify_segments start segments live d = Some (Ok true).
Proof.
  intros H. revert start. induction H as [|s events segments groups Hs _ IH]; intros start Hc.
  - cbn [verify_segments]. simpl in Hc. by rewrite Hc.
  - cbn [concat] in Hc. rewrite <- app_assoc, chain_app, andb_true_iff in Hc. destruct Hc as [He Hc].
    rewrite (stored_end _ _ _ _ Hs) in Hc. pose proof Hs as [(e & rest & Ee & El) _ Hload Hroot]. cbn [verify_segments].
    assert (sg_chain_link_hash s = start) as ->.
    { rewrite El. subst events. change (e :: rest) with ([e] ++ rest) in He.
      rewrite chain_app, andb_true_iff in He. destruct He as [[? _]%chain_event _]. done. }
    rewrite bool_decide_true by done. simpl. rewrite Hload, He. simpl. unfold merkle_matches. rewrite Hroot. simpl.
    rewrite bool_decide_true by done. by apply IH.
Qed.
Lemma inv_verifies_full all t d : trail_inv all t d → verify_full_integrity t d = Some (Ok true).
Proof.
  intros H. pose proof (inv_verifies _ _ _ H) as Hv. unfold verify_full_integrity. destruct H as [Hc H].
  destruct (at_retention t) as [b|]; [|by rewrite Hv]. destruct H as (groups & [-> Hst _ _ _]). by eapply segments_verify.
Qed.
Lemma segments_load segments groups d :
  Forall2 (stored d) segments groups → load_segments segments d = Ok (concat groups).
Proof. induction 1 as [|s events segments groups Hs _ IH]; [done|]. cbn [load_segments]. rewrite (sd_load _ _ _ Hs), IH. done. Qed.
Lemma inv_loads all t d : trail_inv all t d → ∃ old, load_archived_events t d = Ok old ∧ all = old ++ at_events t.
Proof.
  intros [_ H]. unfold load_archived_events. destruct (at_retention t) as [b|]; [|by exists []].
  destruct H as (groups & [-> Hst _ _ _]). exists (concat groups). split; [|done]. by apply segments_load.
Qed.
Lemma inv_total all t d : trail_inv all t d → total_event_count t = Z.of_nat (length all).
Proof.
  intros [_ H]. unfold total_event_count. destruct (at_retention t) as [b|]; [|by rewrite H]. by destruct H as (groups & []).
Qed.

(** *** Archiving *)

Lemma root_exists events :
  events ≠ [] → Forall (λ e, digest_text (ae_hash e)) events →
  ∃ root, merkle_root ac_sha256 (ae_hash <$> events) = Some (Some root).
Proof.
  intros Hne Hd. destruct (digest_levels ac_sha256 (ae_hash <$> events)) as (level & E & Hl & Eh); [by apply Forall_fmap|].
  destruct level as [|x level]; [by destruct events|].
  destruct (proof_climbs ac_sha256 (al_sha Hlaws) (length (x :: level)) (x :: level) 0 x) as (_ & root & _ & Hc & _); [done..|].
  exists (encode root). unfold merkle_root. destruct events; [done|]. rewrite E, Hc. done.
Qed.
Lemma stored_same d d' s events :
  load_events (sg_archive_path s) d' = load_events (sg_archive_path s) d → stored d s events → stored d' s events.
Proof. intros E []. split; try done. by rewrite E. Qed.

Lemma groups_bound all live b d groups : archived all live b d groups → (length groups ≤ length all)%nat.
Proof.
  intros [-> Hst _ _ _]. rewrite length_app. induction Hst as [|s events segments groups Hs _ IH]; [simpl; lia|].
  cbn [concat length]. rewrite length_app. destruct (sd_first _ _ _ Hs) as (? & ? & -> & _). simpl. lia.
Qed.

(** A fresh file leaves the segments as they are. *)
Lemma fresh_file segments groups dir d d' :
  Z.of_nat (length groups) ≤ u64_max → Forall2 (stored d) segments groups →
  sg_archive_path <$> segments = (λ i, (dir, segment_file (Z.of_nat i))) <$> seq 0 (length groups) →
  (∀ q, q ≠ (dir, segment_file (Z.of_nat (length groups))) → q ≠ (dir, meta_file (Z.of_nat (length groups))) →
     load_events q d' = load_events q d) →
  Forall2 (stored d') segments groups.
Proof.
  intros Hb Hst Hp Hq. apply Forall2_same_length_lookup_2; [by eapply Forall2_length|].
  intros i s events Hs He. assert (stored d s events) as Hsd by (eapply Forall2_lookup_lr in Hst; done).
  apply (stored_same d); [|done]. apply (f_equal (.!! i)) in Hp. rewrite !list_lookup_fmap, Hs in Hp.
  apply lookup_lt_Some in He as Hlt. rewrite lookup_seq_lt in Hp by done. simpl in Hp. injection Hp as ->.
  apply Hq; intros E%(f_equal snd); [|exact (segment_not_meta _ _ E)].
  change (segment_file (Z.of_nat i) = segment_file (Z.of_nat (length groups))) in E.
  apply segment_file_inj in E; clear -Hb Hlt E; lia.
Qed.

Lemma write_segment_ok events b d groups all live r b' d' :
  events ≠ [] → Forall (λ e, digest_text (ae_hash e)) events → Z.of_nat (length groups) ≤ u64_max →
  archived all (events ++ live) b d groups → write_segment events b d = (r, b', d') →
  (r = Some (Ok tt) ∧ archived all live b' d' (groups ++ [events])) ∨
  (r = Some (Err IO) ∧ rb_segments b' = rb_segments b ∧ rb_total_event_count b' = rb_total_event_count b ∧
   Forall2 (stored d') (rb_segments b') groups).
Proof.
  intros Hne Hd Hb [Ha Hst Hp Hn Ht] E. unfold write_segment in E. destruct events as [|first rest] eqn:Eev; [done|].
  rewrite <- Eev in *. destruct (last events) as [lst|] eqn:El; [|apply last_None in El; congruence].
  destruct (root_exists events) as [root Hroot]; [done|done|]. rewrite Hroot in E.
  destruct (store_events _ _ d) as [ok1 d1] eqn:E1. pose proof (al_store Hfiles _ _ _ _ _ E1) as [Hl1 Ho1].
  simpl in E1, Hl1, Ho1. rewrite Hn in E1, Hl1, Ho1.
  destruct ok1; simpl in E.
  - destruct (store_meta _ _ d1) as [ok2 d2] eqn:E2. pose proof (al_meta Hfiles _ _ _ _ _ E2) as Ho2. simpl in Ho2.
    rewrite Hn in Ho2.
    assert (Forall2 (stored d2) (rb_segments b) groups) as Hst2.
    { eapply fresh_file; [done|exact Hst|exact Hp|]. intros q Hq1 Hq2. rewrite Ho2, Ho1 by done. done. }
    destruct ok2; simpl in E; simplify_eq; [left|by right].
    split; [done|]. split; simpl; try done.
    + rewrite concat_app. simpl. by rewrite app_nil_r, <- app_assoc.
    + apply Forall2_app; [done|]. constructor; [|constructor]. split; simpl.
      * by eexists _, _.
      * eauto.
      * rewrite Hn, Ho2 by (intros Ex%(f_equal snd); exact (segment_not_meta _ _ Ex)). by apply Hl1.
      * done.
    + rewrite fmap_app, length_app, seq_app, fmap_app, Hp. simpl. by rewrite Hn.
    + rewrite length_app. simpl. lia.
  - simplify_eq. right. split; [done|]. split; [done|]. split; [done|]. simpl.
    eapply fresh_file; [done|exact Hst|exact Hp|]. intros q Hq1 _. by apply Ho1.
Qed.

(** What a failed archival does: the oldest events left the memory and are in no file. *)
Record lost (e : AuditEvent) t t' d d' : Prop := {
  ls_dropped : ∃ n, (0 < n)%nat ∧ at_events t' = drop n (at_events t ++ [e]);
  ls_archive : load_archived_events t' d' = load_archived_events t d;
  ls_start : chain_start t' = chain_start t;
  ls_total : total_event_count t' = total_event_count t + 1;
}.

Lemma chain_snoc all e :
  verify_event_chain GENESIS_HASH all = true → ae_previous_hash e = end_hash GENESIS_HASH all →
  event_hash e = Ok (ae_hash e) → verify_event_chain GENESIS_HASH (all ++ [e]) = true.
Proof. intros Hc Hp He. rewrite chain_app, Hc. by apply chain_event. Qed.

Lemma archived_snoc all live b d groups e :
  archived all live b d groups → archived (all ++ [e]) (live ++ [e]) (record_append b) d groups.
Proof.
  intros [-> Hst Hp Hn Ht]. split; simpl; try done; [by rewrite app_assoc|].
  rewrite Ht, !length_app. simpl. lia.
Qed.

Lemma keep_event_ok e all t d r t' d' :
  trail_inv all t d → Z.of_nat (length all) < u64_max → ae_previous_hash e = end_hash GENESIS_HASH all →
  event_hash e = Ok (ae_hash e) → keep_event e t d = (r, t', d') →
  at_batcher t' = at_batcher t ∧
  ((r = Some (Ok tt) ∧ trail_inv (all ++ [e]) t' d') ∨
   (r = Some (Err AuditError.SerializationFailed) ∧ lost e t t' d d')).
Proof.
  intros [Hc H] Hlen Hp He E. pose proof (chain_snoc _ _ Hc Hp He) as Hc'. unfold keep_event in E.
  destruct (at_retention t) as [b|] eqn:Er.
  2:{ simplify_eq. split; [done|]. left. split; [done|]. split; [done|]. simpl. by rewrite Er. }
  destruct H as (groups & Ha). pose proof (groups_bound _ _ _ _ _ Ha) as Hg.
  pose proof (archived_snoc _ _ _ _ _ e Ha) as Ha'. set (b1 := record_append b) in *.
  destruct (_ <? _); [|simplify_eq; split; [done|]; left; split; [done|]; split; [done|]; simpl; by exists groups].
  set (events := at_events t ++ [e]) in *. unfold archive_from_vec in E.
  destruct (_ =? 0) eqn:Ez; [simplify_eq; split; [done|]; left; split; [done|]; split; [done|]; simpl; by exists groups|].
  set (n := Z.to_nat _) in E. destruct (decide (n = 0%nat)) as [E0|Hn].
  { rewrite E0 in E. simpl in E. simplify_eq. split; [done|]. left. split; [done|]. split; [done|]. simpl. by exists groups. }
  destruct (write_segment _ b1 d) as [[r1 b2] d2] eqn:Ew. simplify_eq. split; [done|].
  assert (Hne : take n events ≠ []) by (subst events; destruct n; [done|]; by destruct (at_events t)).
  pose proof (chain_hashes Hlaws _ _ Hc') as Hd. rewrite (ar_all _ _ _ _ _ Ha'), Forall_app in Hd. destruct Hd as [_ Hd].
  apply (write_segment_ok _ _ _ groups (all ++ [e]) (drop n events)) in Ew; [|done|by apply Forall_take|lia|by rewrite take_drop].
  destruct Ew as [[-> Hok]|(-> & Es & Ec & Hst)]; [left|right]; (split; [done|]).
  - split; [done|]. simpl. by eexists.
  - split; simpl.
    + exists n. split; [lia|done].
    + unfold load_archived_events. simpl. rewrite Er. unfold load_all_archived.
      rewrite (segments_load _ _ _ Hst). by rewrite (segments_load _ _ _ (ar_stored _ _ _ _ _ Ha)).
    + unfold chain_start. simpl. rewrite Er. unfold last_archived. by rewrite Es.
    + unfold total_event_count. simpl. by rewrite Er, Ec.
Qed.

(** *** Histories *)

(** The event an append makes, unless it cannot be serialized. *)
Definition appended (event_id : Uuid) (clock : nat → Z) (agent_id : Uuid) (event_type : EventType.t) (payload : Value) t
    : option AuditEvent :=
  match compute_hash event_id (clock 0%nat) agent_id event_type payload (previous_hash t) with
  | Ok hash => Some (MkAuditEvent event_id (clock 0%nat) agent_id event_type payload (previous_hash t) hash)
  | Err _ => None
  end.

(** A trail, its files, every event ever kept, and the batcher's first sink with every
    event given to it since. *)
Record ASys := MkASys {
  as_trail : AuditTrail T;
  as_disk : D;
  as_all : list AuditEvent;
  as_batched : option (T * list AuditEvent);
}.
(** Appends whose archival, if any, succeeds; retention turned on once; a batcher
    attached, flushed, or poisoned by a thread that panicked with its lock. *)
Inductive astep : ASys → ASys → Prop :=
| as_append event_id clock agent_id event_type payload s r t' d' e :
    append_event event_id clock agent_id event_type payload (as_trail s) (as_disk s) = (Some r, t', d') →
    appended event_id clock agent_id event_type payload (as_trail s) = Some e →
    r ≠ Err AuditError.SerializationFailed → Z.of_nat (length (as_all s)) < u64_max →
    astep s (MkASys t' d' (as_all s ++ [e]) ((λ x, (x.1, x.2 ++ [e])) <$> as_batched s))
| as_unserializable event_id clock agent_id event_type payload s r t' d' :
    append_event event_id clock agent_id event_type payload (as_trail s) (as_disk s) = (Some r, t', d') →
    appended event_id clock agent_id event_type payload (as_trail s) = None →
    astep s (MkASys t' d' (as_all s) (as_batched s))
| as_retention config s :
    at_retention (as_trail s) = None →
    astep s (MkASys (enable_retention config (as_trail s)) (as_disk s) (as_all s) (as_batched s))
| as_batcher config sink0 s :
    astep s (MkASys (enable_distributed_audit config sink0 (as_trail s)) (as_disk s) (as_all s) (Some (sink0, [])))
| as_flush s :
    astep s (MkASys (flush_batcher (as_trail s)).2 (as_disk s) (as_all s) (as_batched s))
| as_poison (q : BlockBatcher T) s :
    bb_poisoned q = true →
    astep s (MkASys (as_trail s <| at_batcher := Some q |>) (as_disk s) (as_all s) None).

(** Every event given to the batcher, in order: sealed in batches, then pending. *)
Definition batched_ok (q : BlockBatcher T) (sink0 : T) (since : list AuditEvent) : Prop :=
  ∃ batches, bb_sink q = foldl (λ s x, seal_batch x s) sink0 batches ∧
    concat batches ++ bb_pending q = since ∧ bb_sealed_count q = Z.of_nat (length batches).
Record asys_ok s : Prop := {
  ao_inv : trail_inv (as_all s) (as_trail s) (as_disk s);
  ao_batched : ∀ sink0 since, as_batched s = Some (sink0, since) →
    ∃ q, at_batcher (as_trail s) = Some q ∧ bb_poisoned q = false ∧ batched_ok q sink0 since;
}.

Lemma batched_seal (q : BlockBatcher T) sink0 since : batched_ok q sink0 since → batched_ok (seal_pending q) sink0 since.
Proof.
  intros (batches & Es & Ec & En). exists (batches ++ [bb_pending q]). simpl.
  rewrite foldl_app, concat_app, length_app. simpl. rewrite Es, !app_nil_r. split_and!; [done|done|lia].
Qed.
Lemma batched_push e now1 now2 (q : BlockBatcher T) sink0 since :
  batched_ok q sink0 since → batched_ok (batcher_push e now1 now2 q) sink0 (since ++ [e]).
Proof.
  intros (batches & Es & Ec & En). unfold batcher_push.
  set (q1 := if bool_decide _ then q <| bb_batch_start := now1 |> else q).
  assert (batched_ok (q1 <| bb_pending := bb_pending q1 ++ [e] |>) sink0 (since ++ [e])) as H.
  { exists batches. subst q1. destruct (bool_decide _); simpl; rewrite app_assoc, Ec; done. }
  unfold maybe_seal. destruct (_ || _); [by apply batched_seal|done].
Qed.
Lemma push_unpoisoned e now1 now2 (q : BlockBatcher T) : bb_poisoned (batcher_push e now1 now2 q) = bb_poisoned q.
Proof. unfold batcher_push, maybe_seal. by destruct (bool_decide (length (bb_pending q) = _)), (_ || _). Qed.

(** An append, whatever it meets. *)
Lemma append_cases event_id clock agent_id event_type payload all t d r t' d' :
  trail_inv all t d → Z.of_nat (length all) < u64_max →
  append_event event_id clock agent_id event_type payload t d = (r, t', d') →
  match appended event_id clock agent_id event_type payload t with
  | None => r = Some (Err AuditError.SerializationFailed) ∧ t' = t ∧ d' = d
  | Some e =>
      (r = Some (Err AuditError.SerializationFailed) ∧ lost e t t' d d' ∧ at_batcher t' = at_batcher t) ∨
      (trail_inv (all ++ [e]) t' d' ∧
       match at_batcher t with
       | None => r = Some (Ok event_id) ∧ at_batcher t' = None
       | Some q =>
           if bb_poisoned q then r = Some (Err AuditError.BatcherPoisoned) ∧ at_batcher t' = Some q
           else r = Some (Ok event_id) ∧ at_batcher t' = Some (batcher_push e (clock 1%nat) (clock 2%nat) q)
       end)
  end.
Proof.
  intros Hi Hlen E. unfold append_event in E. unfold appended.
  destruct (compute_hash _ _ _ _ _ _) as [h|err] eqn:Eh; simplify_eq.
  2:{ unfold compute_hash in Eh. destruct (ac_to_vec _); simplify_eq. done. }
  set (e := MkAuditEvent _ _ _ _ _ _ _) in *.
  destruct (keep_event _ t d) as [[rk tk] dk] eqn:Ek.
  apply (keep_event_ok _ all) in Ek as [Hb Hk]; [|done|done|simpl; by apply previous_is_end with d|done].
  destruct Hk as [[-> Hinv]|[-> Hl]]; [right|left; by simplify_eq].
  unfold batch_event in E. rewrite Hb in E. destruct (at_batcher t) as [q|]; [|by simplify_eq].
  destruct (bb_poisoned q); simplify_eq; (split; [|done]); done.
Qed.
Lemma inv_same all t t' d :
  at_retention t' = at_retention t → at_events t' = at_events t → trail_inv all t d → trail_inv all t' d.
Proof. unfold trail_inv. by intros -> ->. Qed.
Lemma record_appends n b :
  Nat.iter n record_append b = b <| rb_total_event_count := rb_total_event_count b + Z.of_nat n |>.
Proof.
  induction n as [|n IH]; [destruct b as [l s nx c tot]; cbv -[Z.add]; by rewrite Z.add_0_r|].
  rewrite Nat.iter_succ, IH. destruct b as [l s nx c tot]. unfold record_append. cbv -[Z.add Z.of_nat]. rewrite Nat2Z.inj_succ. f_equal. unfold Z.succ. lia.
Qed.

Lemma astep_ok s s' : asys_ok s → astep s s' → asys_ok s'.
Proof.
  intros [Hi Hb] Hs. destruct Hs as [event_id clock agent_id event_type payload s r t' d' e E Ea Hr Hlen
    |event_id clock agent_id event_type payload s r t' d' E Ea|config s Hn|config sink0 s|s|q s Hq]; simpl in *.
  - pose proof (append_cases _ _ _ _ _ _ _ _ _ _ _ Hi Hlen E) as H. rewrite Ea in H.
    destruct H as [[[= ->] _]|[Hi' H]]; [done|]. split; [done|]. simpl. intros sink0 since Es.
    apply fmap_Some in Es as ([s0 si] & Es & [= -> ->]). destruct (Hb _ _ Es) as (q & Eq & Hp & Hok).
    rewrite Eq, Hp in H. destruct H as [_ ->]. eexists. rewrite push_unpoisoned. split; [done|]. split; [done|].
    by apply batched_push.
  - unfold appended in Ea. unfold append_event in E. destruct (compute_hash _ _ _ _ _ _); simplify_eq. done.
  - split; [|done]. simpl. destruct Hi as [Hc H]. rewrite Hn in H. split; [done|]. simpl. exists [].
    rewrite record_appends. split; simpl; try done. by rewrite H.
  - split; [by apply (inv_same _ (as_trail s))|]. simpl. intros s0 since [= -> <-]. eexists. split; [done|]. split; [done|].
    by exists [].
  - unfold flush_batcher. destruct (at_batcher (as_trail s)) as [q|] eqn:Eq; [|split; simpl; [done|by rewrite Eq]].
    destruct (bb_poisoned q) eqn:Ep; [split; simpl; [done|by rewrite Eq]|].
    split; [by apply (inv_same _ (as_trail s))|]. simpl. intros s0 since Es. destruct (Hb _ _ Es) as (q' & [= <-] & _ & Hok).
    eexists. split; [done|]. unfold batcher_flush. destruct (bool_decide _); [done|]. split; [done|by apply batched_seal].
  - split; [by apply (inv_same _ (as_trail s))|done].
Qed.

(** What holds of a trail whose invariant holds. *)
Record trail_promise s : Prop := {
  tp_live : verify_integrity (as_trail s) = true;
  tp_full : verify_full_integrity (as_trail s) (as_disk s) = Some (Ok true);
  tp_all : ∃ old, load_archived_events (as_trail s) (as_disk s) = Ok old ∧ old ++ at_events (as_trail s) = as_all s;
  tp_count : total_event_count (as_trail s) = Z.of_nat (length (as_all s));
  tp_batches : ∀ sink0 since, as_batched s = Some (sink0, since) →
    ∃ q batches, at_batcher (as_trail s) = Some q ∧ bb_sink q = foldl (λ s x, seal_batch x s) sink0 batches ∧
      concat batches ++ bb_pending q = since ∧ sealed_batch_count (as_trail s) = Z.of_nat (length batches);
  tp_append : ∀ event_id clock agent_id event_type payload, Z.of_nat (length (as_all s)) < u64_max →
    (append_event event_id clock agent_id event_type payload (as_trail s) (as_disk s)).1.1 ≠ None;
}.

Lemma promise_of_inv s : asys_ok s → trail_promise s.
Proof.
  intros [Hi Hb]. split.
  - by eapply inv_verifies.
  - by eapply inv_verifies_full.
  - destruct (inv_loads _ _ _ Hi) as (old & ? & ->). by exists old.
  - by eapply inv_total.
  - intros sink0 since Es. destruct (Hb _ _ Es) as (q & Eq & Hp & batches & ? & ? & En). exists q, batches.
    split; [done|]. split; [done|]. split; [done|]. unfold sealed_batch_count. by rewrite Eq, Hp.
  - intros event_id clock agent_id event_type payload Hlen. destruct (append_event _ _ _ _ _ _ _) as [[r t'] d'] eqn:E.
    pose proof (append_cases _ _ _ _ _ _ _ _ _ _ _ Hi Hlen E) as H. simpl. destruct (appended _ _ _ _ _ _).
    + destruct H as [[-> _]|[_ H]]; [done|]. destruct (at_batcher (as_trail s)) as [q|]; [destruct (bb_poisoned q)|];
        destruct H as [-> _]; done.
    + by destruct H as [-> _].
Qed.
Lemma reachable_ok d0 s : rtc astep (MkASys trail_new d0 [] None) s → asys_ok s.
Proof.
  intros H. cut (asys_ok (MkASys trail_new d0 [] None)); [|split; [by split|done]].
  induction H as [|? ? ? Hs _ IH]; [done|]. intros Hok. apply IH. by eapply astep_ok.
Qed.

(** C8. Whatever is appended to a trail, with retention turned on at any moment, batchers
    attached, flushed and poisoned, and archivals that succeed: the live window verifies,
    the whole chain verifies from the genesis hash through every archived segment and its
    Merkle root, the segments read back from disk followed by the live events are all the
    events ever kept, in order, their number is the trail's count, the batcher's sink has
    received every event since it was attached, in order, but those pending, and no append
    panics. *)
Theorem audit_trail_complete d0 s : rtc astep (MkASys trail_new d0 [] None) s → trail_promise s.
Proof. intros H. by eapply promise_of_inv, reachable_ok. Qed.

(** C35. An append whose archival fails loses events: the oldest of the live window, already
    out of memory, are in no segment of the archive, while the count still has them; the
    next [verify_integrity] accepts what is left only when nothing is left or the hash of
    the last event lost is the very hash the chain starts from. *)
Theorem archive_failure_loses d0 s event_id clock agent_id event_type payload e t' d' :
  rtc astep (MkASys trail_new d0 [] None) s → Z.of_nat (length (as_all s)) < u64_max →
  appended event_id clock agent_id event_type payload (as_trail s) = Some e →
  append_event event_id clock agent_id event_type payload (as_trail s) (as_disk s) =
    (Some (Err AuditError.SerializationFailed), t', d') →
  ∃ old dropped, (0 < length dropped)%nat ∧ load_archived_events t' d' = Ok old ∧
    as_all s ++ [e] = old ++ dropped ++ at_events t' ∧ total_event_count t' = Z.of_nat (length (as_all s)) + 1 ∧
    (verify_integrity t' = true → at_events t' = [] ∨ end_hash GENESIS_HASH (old ++ dropped) = chain_start t').
Proof.
  intros Hr Hlen Ea E. apply reachable_ok in Hr as [Hi _]. pose proof (append_cases _ _ _ _ _ _ _ _ _ _ _ Hi Hlen E) as H.
  rewrite Ea in H. destruct H as [(_ & [(n & Hn & En) Hl Hst Ht] & _)|[_ H]].
  2:{ exfalso. destruct (at_batcher (as_trail s)) as [q|]; [destruct (bb_poisoned q)|]; by destruct H. }
  destruct (inv_loads _ _ _ Hi) as (old & Eo & Eall). exists old, (take n (at_events (as_trail s) ++ [e])).
  assert (Esplit : as_all s ++ [e] = old ++ take n (at_events (as_trail s) ++ [e]) ++ at_events t')
    by (by rewrite En, take_drop, Eall, app_assoc).
  split; [rewrite length_take, length_app; simpl; lia|]. split; [by rewrite Hl|]. split; [done|].
  split; [by rewrite Ht, (inv_total _ _ _ Hi)|]. intros Hv. destruct (at_events t') as [|x rest] eqn:Ex; [by left|right].
  unfold verify_integrity in Hv. rewrite Ex in Hv. change (x :: rest) with ([x] ++ rest) in Hv.
  rewrite chain_app, andb_true_iff in Hv. destruct Hv as [[<- _]%chain_event _].
  assert (Hc : verify_event_chain GENESIS_HASH (as_all s ++ [e]) = true).
  { destruct Hi as [Hc Hm]. apply chain_snoc; [done|..];
      unfold appended in Ea; destruct (compute_hash _ _ _ _ _ _) eqn:Eh; simplify_eq; [|done].
    by apply previous_is_end with (as_disk s). }
  rewrite Esplit, app_assoc, chain_app, andb_true_iff in Hc. destruct Hc as [_ Hc].
  change (x :: rest) with ([x] ++ rest) in Hc. rewrite chain_app, andb_true_iff in Hc.
  destruct Hc as [[Hp _]%chain_event _]. done.
Qed.
End Trails.

(** ** A small trail *)

Module SampleTrail.
Definition small_sha (b : bytes) : bytes := replicate 32 (foldl (λ a x, (a * 31 + x) mod 256) 7 b).
Definition type_tag (y : EventType.t) : Z :=
  match y with
  | EventType.StateChange => 0
  | EventType.ToolCall => 1
  | EventType.LlmCall => 2
  | EventType.Error => 3
  | EventType.UserAction => 4
  end.
(** A serializer of events whose payload is an integer. *)
Definition small_json (x : CanonicalEventData) : option bytes :=
  match cd_payload x with
  | JInt n => Some ([cd_timestamp x; type_tag (cd_event_type x); n; Z.of_nat (length (cd_event_id x))] ++
                    cd_event_id x ++ cd_agent_id x)
  | _ => None
  end.
#[export] Instance small_crates : AuditCrates :=
  { ac_sha256 := small_sha; ac_to_vec := small_json; ac_uuid_string u := u }.
Lemma small_laws : audit_laws.
Proof.
  split; [|intros e1 e2 s _ _; generalize (canonical e1) (canonical e2); intros x y Ex Ey|done].
  - intros b. split; [done|]. apply Forall_replicate. cbn [ac_sha256 small_crates].
    destruct b as [|x b _] using rev_ind; [simpl; lia|]. rewrite foldl_app. apply Z.mod_pos_bound. lia.
  - cbn [ac_to_vec small_crates] in Ex, Ey. unfold small_json in Ex, Ey. destruct x as [i1 t1 a1 y1 p1], y as [i2 t2 a2 y2 p2].
    simpl in Ex, Ey. destruct p1; try done. destruct p2; try done. injection Ex as <-. injection Ey as Et Ey En El E.
    apply app_inj_1 in E as [-> ->]; [|lia]. subst. destruct y1, y2; done.
Qed.

(** Files that can be made to fail. *)
Record Disk := MkDisk {
  dk_writable : bool;
  dk_files : gmap (str * str) (list AuditEvent);
}.
#[export] Instance small_files : ArchiveFiles Disk := {
  store_events p evs d := if dk_writable d then (true, MkDisk true (<[p := evs]> (dk_files d))) else (false, d);
  store_meta p m d := (dk_writable d, d);
  load_events p d := match dk_files d !! p with Some evs => Ok evs | None => Err (ArchiveError.IoError (lit "none")) end;
}.
Lemma small_archive : archive_laws.
Proof.
  split; simpl.
  - intros p evs d ok d' E. destruct (dk_writable d); simplify_eq; simpl; [|done]. rewrite lookup_insert_eq. split; [done|].
    intros q Hq. by rewrite lookup_insert_ne.
  - intros p m d ok d' E q _. by simplify_eq.
Qed.
Abbreviation Batches := (list (list AuditEvent)) (only parsing).
(** A sink that keeps its batches. *)
#[export] Instance small_sink : BlockBatchSink Batches := λ batch s, s ++ [batch].

Definition put (n : Z) (s : ASys (T := Batches) (D := Disk)) :=
  append_event (replicate 16 n) (λ i, 100 + n + Z.of_nat i) nil_uuid EventType.ToolCall (JInt n) (as_trail s) (as_disk s).
Definition made (n : Z) (s : ASys (T := Batches) (D := Disk)) : option AuditEvent :=
  appended (replicate 16 n) (λ i, 100 + n + Z.of_nat i) nil_uuid EventType.ToolCall (JInt n) (as_trail s).
Definition after_put (n : Z) (s : ASys (T := Batches) (D := Disk)) : ASys (T := Batches) (D := Disk) :=
  let '(_, t, d) := put n s in
  match made n s with
  | Some e => MkASys t d (as_all s ++ [e]) ((λ x, (x.1, x.2 ++ [e])) <$> as_batched s)
  | None => s
  end.
Definition put_ok (n : Z) (s : ASys (T := Batches) (D := Disk)) : bool :=
  match (put n s).1.1, made n s with
  | Some (Ok _), Some _ => Z.of_nat (length (as_all s)) <? u64_max
  | _, _ => false
  end.
Lemma put_steps n s : put_ok n s = true → astep s (after_put n s).
Proof.
  unfold put_ok, after_put. destruct (put n s) as [[r t] d] eqn:E. simpl. destruct r as [[u|]|]; [|done|done].
  destruct (made n s) as [e|] eqn:Em; [|done]. intros Hl%Z.ltb_lt. by eapply as_append.
Qed.

Definition start : ASys (T := Batches) (D := Disk) := MkASys (trail_new (T := Batches)) (MkDisk true ∅) [] None.
Definition retained : ASys (T := Batches) (D := Disk) :=
  MkASys (enable_retention (MkRetentionConfig 2 2 (lit "archive")) (as_trail start)) (as_disk start) [] None.
Definition batching : ASys (T := Batches) (D := Disk) :=
  MkASys (enable_distributed_audit (MkBatcherConfig 2 60) [] (as_trail retained)) (as_disk start) [] (Some ([], [])).
Definition after_three : ASys (T := Batches) (D := Disk) := after_put 3 (after_put 2 (after_put 1 batching)).
Lemma three_reached : rtc astep start after_three.
Proof.
  eapply rtc_l; [by apply (as_retention (MkRetentionConfig 2 2 (lit "archive")) start)|].
  eapply rtc_l; [apply (as_batcher (MkBatcherConfig 2 60) [] retained)|].
  eapply rtc_l; [apply (put_steps 1); vm_compute; reflexivity|].
  eapply rtc_l; [apply (put_steps 2); vm_compute; reflexivity|].
  eapply rtc_l; [apply (put_steps 3); vm_compute; reflexivity|]. apply rtc_refl.
Qed.
Lemma archived_of_three :
  length (at_events (as_trail after_three)) = 1%nat ∧
  map_ok length (load_archived_events (as_trail after_three) (as_disk after_three)) = Ok 2%nat ∧
  sealed_batch_count (as_trail after_three) = 1 ∧ pending_batch_count (as_trail after_three) = 1.
Proof. split_and!; vm_compute; reflexivity. Qed.

Lemma audit_trail_complete_witness : trail_promise after_three.
Proof. exact (audit_trail_complete small_laws small_archive (MkDisk true ∅) after_three three_reached). Defined.

(** The next archival fails. *)
Definition unwritable : ASys (T := Batches) (D := Disk) :=
  MkASys (as_trail retained) (MkDisk false ∅) [] None.
Definition full : ASys (T := Batches) (D := Disk) := after_put 2 (after_put 1 unwritable).
Definition failed := put 3 full.
Lemma full_reached : rtc astep (MkASys trail_new (MkDisk false ∅) [] None) full.
Proof.
  eapply rtc_l; [by apply (as_retention (MkRetentionConfig 2 2 (lit "archive")) (MkASys trail_new (MkDisk false ∅) [] None))|].
  eapply rtc_l; [apply (put_steps 1); vm_compute; reflexivity|].
  eapply rtc_l; [apply (put_steps 2); vm_compute; reflexivity|]. apply rtc_refl.
Qed.
Lemma archive_failure_loses_witness :
  length (at_events failed.1.2) = 1%nat ∧ verify_integrity failed.1.2 = false ∧
  ∃ old dropped, (0 < length dropped)%nat ∧ load_archived_events failed.1.2 failed.2 = Ok old ∧
    total_event_count failed.1.2 = 3 ∧ length (old ++ dropped ++ at_events failed.1.2) = 3%nat.
Proof.
  destruct (made 3 full) as [e|] eqn:Em; [|vm_compute in Em; discriminate].
  destruct (archive_failure_loses small_laws small_archive (MkDisk false ∅) full (replicate 16 3) (λ i, 100 + 3 + Z.of_nat i)
    nil_uuid EventType.ToolCall (JInt 3) e failed.1.2 failed.2 full_reached) as (old & dropped & Hd & Hl & Ha & Ht & _).
  - vm_compute. reflexivity.
  - exact Em.
  - vm_compute. reflexivity.
  - split; [vm_compute; reflexivity|]. split; [vm_compute; reflexivity|]. exists old, dropped.
    split; [exact Hd|]. split; [exact Hl|]. split; [vm_compute; reflexivity|]. rewrite <- Ha, length_app. vm_compute. reflexivity.
Defined.

(** Two events whose hashes collide. *)
Definition one (n : Z) : list AuditEvent := as_all (after_put n start).
Definition other : list AuditEvent :=
  (λ e, MkAuditEvent (ae_event_id e) (ae_timestamp e) (ae_agent_id e) (ae_event_type e) (JInt 257)
          (ae_previous_hash e) (ae_hash e)) <$> one 1.
Lemma audit_chain_binds_witness :
  length other = 1%nat ∧ ae_payload <$> one 1 = [JInt 1] ∧ ae_payload <$> other = [JInt 257] ∧
  (one 1 = other ∨ clash_among ac_sha256 (event_input <$> one 1) (event_input <$> other)).
Proof.
  split; [vm_compute; reflexivity|]. split; [vm_compute; reflexivity|]. split; [vm_compute; reflexivity|].
  apply (audit_chain_binds small_laws);
    [repeat constructor; vm_compute; discriminate|repeat constructor; vm_compute; discriminate|vm_compute; reflexivity..].
Defined.
End SampleTrail.
