(* ===== verification/KernelPolicy.v ===== *)
(** * Kernel: autonomy levels, approval tiers and the policy engine

    [kernel/src/policy_engine/engine.rs], the levels and the guard of
    [kernel/src/autonomy.rs] and the tiers of [kernel/src/consent.rs]. Policies are matched
    in priority order; the guard asks the engine, compares levels and lowers the agent's
    level when it asks for too much, through any [AuditWriter]. Reading policy files is not
    modelled: the list of policies is given. *)

From S2P Require Import Prelude Hash AuthBase KernelAudit.

Local Open Scope Z_scope.
Local Open Scope nexus_scope.
#[local] Arguments lit : simpl never.

(** ** Levels and tiers *)

Module AutonomyLevel.
Inductive t := L0 | L1 | L2 | L3 | L4 | L5 | L6.
Definition rank (v : t) : Z :=
  match v with L0 => 0 | L1 => 1 | L2 => 2 | L3 => 3 | L4 => 4 | L5 => 5 | L6 => 6 end.
Definition as_str (v : t) : str :=
  match v with
  | L0 => lit "L0"
  | L1 => lit "L1"
  | L2 => lit "L2"
  | L3 => lit "L3"
  | L4 => lit "L4"
  | L5 => lit "L5"
  | L6 => lit "L6"
  end.
Definition from_numeric (value : Z) : option t :=
  match value with
  | 0 => Some L0
  | 1 => Some L1
  | 2 => Some L2
  | 3 => Some L3
  | 4 => Some L4
  | 5 => Some L5
  | 6 => Some L6
  | _ => None
  end.
Definition from_manifest (value : option Z) : t :=
  match value ≫= from_numeric with Some level => level | None => L0 end.
Definition previous (v : t) : t :=
  match v with L0 => L0 | L1 => L0 | L2 => L1 | L3 => L2 | L4 => L3 | L5 => L4 | L6 => L5 end.
(** Derived [Ord]. *)
Definition leb (a b : t) : bool := rank a <=? rank b.
Definition min (a b : t) : t := if leb a b then a else b.
End AutonomyLevel.
#[export] Instance AutonomyLevel_eq_dec : EqDecision AutonomyLevel.t.
Proof. solve_decision. Defined.
Abbreviation AutonomyLevel := AutonomyLevel.t.

(** [str::trim] and [to_ascii_uppercase]. *)
Fixpoint trim_start (s : str) : str :=
  match s with
  | [] => []
  | c :: rest => if is_whitespace c then trim_start rest else s
  end.
Definition trim (s : str) : str := reverse (trim_start (reverse (trim_start s))).
Definition to_ascii_uppercase (s : str) : str := (λ c, if is_ascii_lowercase c then c - 32 else c) <$> s.
Definition level_from_str (value : str) : option AutonomyLevel :=
  let v := to_ascii_uppercase (trim value) in
  if decide (v ∈ [lit "L0"; lit "0"]) then Some AutonomyLevel.L0
  else if decide (v ∈ [lit "L1"; lit "1"]) then Some AutonomyLevel.L1
  else if decide (v ∈ [lit "L2"; lit "2"]) then Some AutonomyLevel.L2
  else if decide (v ∈ [lit "L3"; lit "3"]) then Some AutonomyLevel.L3
  else if decide (v ∈ [lit "L4"; lit "4"]) then Some AutonomyLevel.L4
  else if decide (v ∈ [lit "L5"; lit "5"]) then Some AutonomyLevel.L5
  else if decide (v ∈ [lit "L6"; lit "6"]) then Some AutonomyLevel.L6
  else None.

Module HitlTier.
Inductive t := Tier0 | Tier1 | Tier2 | Tier3.
Definition rank (v : t) : Z := match v with Tier0 => 0 | Tier1 => 1 | Tier2 => 2 | Tier3 => 3 end.
Definition as_str (v : t) : str :=
  match v with
  | Tier0 => lit "tier0"
  | Tier1 => lit "tier1"
  | Tier2 => lit "tier2"
  | Tier3 => lit "tier3"
  end.
Definition approvals_required (auto_approve_tier1 : bool) (v : t) : nat :=
  match v with
  | Tier0 => 0
  | Tier1 => if auto_approve_tier1 then 0 else 1
  | Tier2 => 1
  | Tier3 => 2
  end.
Definition leb (a b : t) : bool := rank a <=? rank b.
End HitlTier.
#[export] Instance HitlTier_eq_dec : EqDecision HitlTier.t.
Proof. solve_decision. Defined.
Abbreviation HitlTier := HitlTier.t.

(** ** Policies *)

Module PolicyEffect.
Inductive t := Allow | Deny.
End PolicyEffect.
#[export] Instance PolicyEffect_eq_dec : EqDecision PolicyEffect.t.
Proof. solve_decision. Defined.

Record PolicyConditions := MkConditions {
  pc_min_autonomy_level : option Z;
  pc_max_fuel_cost : option Z;
  pc_required_approvers : option Z;
  pc_time_window : option str;
}.
#[export] Instance PolicyConditions_eq_dec : EqDecision PolicyConditions.
Proof. solve_decision. Defined.
Record Policy := MkPolicy {
  po_policy_id : str;
  po_description : str;
  po_effect : PolicyEffect.t;
  po_principal : str;
  po_action : str;
  po_resource : str;
  po_priority : Z;
  po_conditions : PolicyConditions;
}.
#[export] Instance Policy_eq_dec : EqDecision Policy.
Proof. solve_decision. Defined.
Record EvaluationContext := MkContext {
  ec_autonomy_level : AutonomyLevel;
  ec_fuel_cost : option Z;
}.
Definition default_context : EvaluationContext := MkContext AutonomyLevel.L0 None.

Module PolicyDecision.
Inductive t :=
| Allow
| Deny (reason : str)
| RequireApproval (tier : HitlTier).
End PolicyDecision.
Abbreviation PolicyDecision := PolicyDecision.t.

(** [strip_suffix] and [starts_with]. *)
Definition strip_suffix (suffix s : str) : option str :=
  let n := (length s - length suffix)%nat in
  if bool_decide (s = take n s ++ suffix) then Some (take n s) else None.
Definition starts_with (prefix s : str) : bool := bool_decide (prefix `prefix_of` s).

Definition pattern_matches (pattern value : str) : bool :=
  if bool_decide (pattern = lit "*") then true
  else
    match strip_suffix (lit ".*") pattern with
    | Some prefix => bool_decide (value = prefix) || starts_with (prefix ++ lit ".") value
    | None => bool_decide (pattern = value)
    end.
Definition autonomy_level_from_u8 (v : Z) : AutonomyLevel := default AutonomyLevel.L6 (AutonomyLevel.from_numeric v).

(** [sort_policies]: priority, then [Deny] first; the sort is stable. *)
Definition policy_leb (a b : Policy) : bool :=
  (po_priority a <? po_priority b) ||
  ((po_priority a =? po_priority b) &&
   (bool_decide (po_effect a = PolicyEffect.Deny) || negb (bool_decide (po_effect b = PolicyEffect.Deny)))).
Fixpoint insert_policy (p : Policy) (l : list Policy) : list Policy :=
  match l with
  | [] => [p]
  | q :: l => if policy_leb p q then p :: q :: l else q :: insert_policy p l
  end.
Definition sort_policies (l : list Policy) : list Policy := foldr insert_policy [] l.
(** [PolicyEngine::with_policies], and a load whose files parse to the list. *)
Definition with_policies (policies : list Policy) : list Policy := sort_policies policies.
Definition has_policies (engine : list Policy) : bool := negb (bool_decide (length engine = 0%nat)).

Definition conditions_met (p : Policy) (context : EvaluationContext) : bool :=
  let level_met :=
    match pc_min_autonomy_level (po_conditions p) with
    | Some min => negb (AutonomyLevel.rank (ec_autonomy_level context) <? AutonomyLevel.rank (autonomy_level_from_u8 min))
    | None => true
    end in
  if negb level_met then false
  else
    match pc_max_fuel_cost (po_conditions p), ec_fuel_cost context with
    | Some max_fuel, Some cost => negb (max_fuel <? cost)
    | _, _ => true
    end.
Definition matches (principal action resource : str) (context : EvaluationContext) (p : Policy) : bool :=
  pattern_matches (po_principal p) principal && pattern_matches (po_action p) action &&
  pattern_matches (po_resource p) resource && conditions_met p context.

Definition deny_reason (p : Policy) : str :=
  match po_description p with
  | [] => lit "denied by policy '" ++ po_policy_id p ++ lit "'"
  | _ => po_description p
  end.
Definition DEFAULT_DENY : str := lit "no matching policy (default deny)".
Definition allow_decision (found_allow : option Policy) : PolicyDecision :=
  match found_allow with
  | Some p =>
      match pc_required_approvers (po_conditions p) with
      | Some 0 => PolicyDecision.RequireApproval HitlTier.Tier0
      | Some 1 => PolicyDecision.RequireApproval HitlTier.Tier1
      | Some 2 => PolicyDecision.RequireApproval HitlTier.Tier2
      | Some _ => PolicyDecision.RequireApproval HitlTier.Tier3
      | None => PolicyDecision.Allow
      end
  | None => PolicyDecision.Deny DEFAULT_DENY
  end.
(** The loop of [evaluate]. *)
Fixpoint evaluate_from (found_allow : option Policy) (principal action resource : str) (context : EvaluationContext)
    (policies : list Policy) : PolicyDecision :=
  match policies with
  | [] => allow_decision found_allow
  | p :: policies =>
      if negb (matches principal action resource context p)
      then evaluate_from found_allow principal action resource context policies
      else
        match po_effect p with
        | PolicyEffect.Deny => PolicyDecision.Deny (deny_reason p)
        | PolicyEffect.Allow =>
            let found_allow := match found_allow with None => Some p | _ => found_allow end in
            evaluate_from found_allow principal action resource context policies
        end
  end.
Definition evaluate (engine : list Policy) (principal action resource : str) (context : EvaluationContext)
    : PolicyDecision :=
  evaluate_from None principal action resource context engine.

(** ** The guard *)

Module AutonomyError.
Inductive t := Denied (required current : AutonomyLevel) (action : str) (downgraded_to : option AutonomyLevel).
End AutonomyError.
Record AutonomyPolicyHooks := MkHooks {
  ah_tool_call_min : AutonomyLevel;
  ah_multi_agent_min : AutonomyLevel;
  ah_self_modification_min : AutonomyLevel;
  ah_distributed_min : AutonomyLevel;
}.
Definition default_hooks : AutonomyPolicyHooks :=
  MkHooks AutonomyLevel.L1 AutonomyLevel.L2 AutonomyLevel.L4 AutonomyLevel.L5.
Record AutonomyGuard := MkGuard {
  ag_level : AutonomyLevel;
  ag_hooks : AutonomyPolicyHooks;
}.
Definition guard_new (level : AutonomyLevel) : AutonomyGuard := MkGuard level default_hooks.

Section Guard.
Context {crates : AuditCrates} {A : Type} {audit : AuditWriter A}.
Implicit Types (g : AutonomyGuard) (a : A).

(** A refused audit event is printed and forgotten. *)
Definition downgrade (actor_id : Uuid) (new_level : AutonomyLevel) (action reason : str) g a
    : option (AutonomyGuard * A) :=
  let prev := ag_level g in
  let g := MkGuard (AutonomyLevel.min new_level prev) (ag_hooks g) in
  match append_audit actor_id EventType.StateChange
      (object [(lit "event", JStr (lit "autonomy.level_changed")); (lit "action", JStr action);
               (lit "previous_level", JStr (AutonomyLevel.as_str prev));
               (lit "new_level", JStr (AutonomyLevel.as_str (ag_level g))); (lit "reason", JStr reason)]) a with
  | None => None
  | Some (_, a) => Some (g, a)
  end.

Definition require_level (actor_id : Uuid) (required : AutonomyLevel) (action : str) g a
    : option (result unit AutonomyError.t * AutonomyGuard * A) :=
  if AutonomyLevel.leb required (ag_level g) then Some (Ok tt, g, a)
  else
    let current := ag_level g in
    let reason := lit "action '" ++ action ++ lit "' requires " ++ AutonomyLevel.as_str required ++
      lit " while current level is " ++ AutonomyLevel.as_str current in
    match downgrade actor_id (AutonomyLevel.previous current) action reason g a with
    | None => None
    | Some (g, a) => Some (Err (AutonomyError.Denied required current action (Some (ag_level g))), g, a)
    end.

Definition require_tool_call actor_id g a := require_level actor_id (ah_tool_call_min (ag_hooks g)) (lit "tool_call") g a.
Definition require_multi_agent actor_id g a :=
  require_level actor_id (ah_multi_agent_min (ag_hooks g)) (lit "multi_agent") g a.
Definition require_self_modification actor_id g a :=
  require_level actor_id (ah_self_modification_min (ag_hooks g)) (lit "self_modification") g a.
Definition require_distributed actor_id g a :=
  require_level actor_id (ah_distributed_min (ag_hooks g)) (lit "distributed") g a.
Definition require_self_evolution actor_id g a := require_level actor_id AutonomyLevel.L4 (lit "self_evolution") g a.
Definition require_agent_creation actor_id g a := require_level actor_id AutonomyLevel.L4 (lit "agent_creation") g a.
Definition require_governance_modification actor_id g a :=
  require_level actor_id AutonomyLevel.L5 (lit "governance_modification") g a.
Definition require_sovereign_action actor_id g a := require_level actor_id AutonomyLevel.L5 (lit "sovereign_action") g a.
Definition require_cognitive_modification actor_id g a :=
  require_level actor_id AutonomyLevel.L6 (lit "cognitive_modification") g a.
Definition require_multi_model_orchestration actor_id g a :=
  require_level actor_id AutonomyLevel.L6 (lit "multi_model_orchestration") g a.
Definition require_algorithm_selection actor_id g a :=
  require_level actor_id AutonomyLevel.L6 (lit "algorithm_selection") g a.
Definition require_ecosystem_design actor_id g a := require_level actor_id AutonomyLevel.L6 (lit "ecosystem_design") g a.

(** The level the policy engine asks for. *)
Definition bumped (v : AutonomyLevel) : AutonomyLevel :=
  match v with
  | AutonomyLevel.L0 => AutonomyLevel.L1
  | AutonomyLevel.L1 => AutonomyLevel.L2
  | AutonomyLevel.L2 => AutonomyLevel.L3
  | AutonomyLevel.L3 => AutonomyLevel.L4
  | AutonomyLevel.L4 => AutonomyLevel.L5
  | AutonomyLevel.L5 | AutonomyLevel.L6 => AutonomyLevel.L6
  end.
Definition effective_level (actor_id : Uuid) (default_required : AutonomyLevel) (action : str)
    (policy_engine : option (list Policy)) g : AutonomyLevel :=
  match policy_engine with
  | Some engine =>
      if has_policies engine then
        match evaluate engine (ac_uuid_string actor_id) action (lit "*") (MkContext (ag_level g) None) with
        | PolicyDecision.Deny _ => AutonomyLevel.L5
        | PolicyDecision.Allow => default_required
        | PolicyDecision.RequireApproval _ => bumped default_required
        end
      else default_required
  | None => default_required
  end.
Definition require_level_with_policy (actor_id : Uuid) (default_required : AutonomyLevel) (action : str)
    (policy_engine : option (list Policy)) g a : option (result unit AutonomyError.t * AutonomyGuard * A) :=
  require_level actor_id (effective_level actor_id default_required action policy_engine g) action g a.
End Guard.

(** ** Evaluation *)

(** Of policies in the order they were loaded, the first of the least priority. *)
Definition first_least (l : list Policy) : option Policy :=
  foldr (λ p acc, match acc with
                  | Some q => if po_priority p <=? po_priority q then Some p else Some q
                  | None => Some p
                  end) None l.

Lemma policy_leb_trans a b c : policy_leb a b = true → policy_leb b c = true → policy_leb a c = true.
Proof. unfold policy_leb. repeat case_bool_decide; simpl; rewrite ?andb_true_r, ?andb_false_r, ?orb_false_r; lia. Qed.
Lemma policy_leb_total a b : policy_leb a b = false → policy_leb b a = true.
Proof. unfold policy_leb. repeat case_bool_decide; simpl; rewrite ?andb_true_r, ?andb_false_r, ?orb_false_r; lia. Qed.

Inductive policies_sorted : list Policy → Prop :=
| ps_nil : policies_sorted []
| ps_cons p l : Forall (λ q, policy_leb p q = true) l → policies_sorted l → policies_sorted (p :: l).

Lemma elem_of_insert p q l : q ∈ insert_policy p l ↔ q = p ∨ q ∈ l.
Proof. induction l as [|r l IH]; simpl; [set_solver|]. destruct (policy_leb p r); set_solver. Qed.
Lemma insert_sorted p l : policies_sorted l → policies_sorted (insert_policy p l).
Proof.
  induction 1 as [|q l Hq Hl IH]; simpl; [repeat constructor|]. destruct (policy_leb p q) eqn:E.
  - constructor; [|by constructor]. constructor; [done|]. eapply Forall_impl; [exact Hq|]. intros r Hr. by eapply policy_leb_trans.
  - constructor; [|done]. apply Forall_forall. intros r [->|Hr]%elem_of_insert; [by apply policy_leb_total|].
    rewrite Forall_forall in Hq. by apply Hq.
Qed.
Lemma sort_sorted l : policies_sorted (sort_policies l).
Proof. induction l as [|p l IH]; [constructor|]. by apply insert_sorted. Qed.

(** Filtering a sorted list and sorting a filtered one. *)
Lemma insert_first p l : Forall (λ q, policy_leb p q = true) l → insert_policy p l = p :: l.
Proof. destruct 1 as [|q l H _]; [done|]. simpl. by rewrite H. Qed.
Lemma filter_insert (P : Policy → Prop) `{!∀ p, Decision (P p)} p l :
  policies_sorted l → filter P (insert_policy p l) = if decide (P p) then insert_policy p (filter P l) else filter P l.
Proof.
  induction 1 as [|q l Hq Hl IH]; [done|]. cbn [insert_policy]. destruct (policy_leb p q) eqn:E.
  - rewrite filter_cons. destruct (decide (P p)); [|done]. symmetry. apply insert_first.
    apply Forall_forall. intros r [_ [->|Hr]%elem_of_cons]%list_elem_of_filter; [done|].
    rewrite Forall_forall in Hq. by eapply policy_leb_trans, Hq.
  - rewrite filter_cons, IH, filter_cons. destruct (decide (P q)), (decide (P p)); try done. simpl. by rewrite E.
Qed.
Lemma filter_sort (P : Policy → Prop) `{!∀ p, Decision (P p)} l :
  filter P (sort_policies l) = sort_policies (filter P l).
Proof.
  induction l as [|p l IH]; [done|]. cbn [sort_policies foldr]. fold (sort_policies l).
  rewrite filter_insert, filter_cons, IH by apply sort_sorted. by destruct (decide (P p)).
Qed.
Lemma head_sort effect l :
  Forall (λ p, po_effect p = effect) l → head (sort_policies l) = first_least l.
Proof.
  induction 1 as [|p l Hp Hl IH]; [done|]. cbn [sort_policies foldr first_least]. fold (sort_policies l) (first_least l).
  rewrite <- IH. assert (Hin : ∀ q, q ∈ sort_policies l → po_effect q = effect).
  { clear -Hl. induction Hl as [|r l Hr _ IH]; [set_solver|]. intros q [->|H]%elem_of_insert; auto. }
  destruct (sort_policies l) as [|q s]; [done|]. cbn [insert_policy head]. specialize (Hin q ltac:(by left)).
  assert (policy_leb p q = (po_priority p <=? po_priority q)) as ->; [|by destruct (_ <=? _)].
  unfold policy_leb. rewrite Hp, Hin. destruct (bool_decide _); simpl; lia.
Qed.

Definition matching (principal action resource : str) (context : EvaluationContext) (effect : PolicyEffect.t)
    (l : list Policy) : list Policy :=
  filter (λ p, matches principal action resource context p = true ∧ po_effect p = effect) l.

Lemma evaluate_from_spec found principal action resource context l :
  evaluate_from found principal action resource context l =
  match head (matching principal action resource context PolicyEffect.Deny l) with
  | Some p => PolicyDecision.Deny (deny_reason p)
  | None =>
      allow_decision match found with
                     | Some p => Some p
                     | None => head (matching principal action resource context PolicyEffect.Allow l)
                     end
  end.
Proof.
  revert found. unfold matching. induction l as [|p l IH]; intros found; [by destruct found|].
  cbn [evaluate_from]. rewrite !filter_cons. destruct (matches principal action resource context p) eqn:Em; simpl.
  - destruct (po_effect p) eqn:Ee.
    + rewrite decide_False by naive_solver. rewrite decide_True by done. rewrite IH. by destruct found.
    + rewrite decide_True by done. done.
  - apply IH.
Qed.

(** C33. Evaluation is what the documentation says, whatever order the files were loaded
    in: a matching [Deny] of any priority denies, and the reason is that of the first
    loaded among those of the least priority; with none, the first loaded among the
    matching [Allow] policies of the least priority decides; with no match the action is
    denied. *)
Theorem policy_evaluation l principal action resource context :
  evaluate (with_policies l) principal action resource context =
  match first_least (matching principal action resource context PolicyEffect.Deny l) with
  | Some p => PolicyDecision.Deny (deny_reason p)
  | None => allow_decision (first_least (matching principal action resource context PolicyEffect.Allow l))
  end.
Proof.
  unfold evaluate, with_policies. rewrite evaluate_from_spec. unfold matching. rewrite !filter_sort.
  assert (Hall : ∀ e, Forall (λ p, po_effect p = e) (matching principal action resource context e l)).
  { intros e. apply Forall_forall. by intros p [[_ ?] _]%list_elem_of_filter. }
  fold (matching principal action resource context PolicyEffect.Deny l) (matching principal action resource context PolicyEffect.Allow l).
  by rewrite !(head_sort _ _ (Hall _)).
Qed.

(** ** Levels *)

Lemma level_leb_refl v : AutonomyLevel.leb v v = true.
Proof. by destruct v. Qed.
Lemma rank_inj v w : AutonomyLevel.rank v = AutonomyLevel.rank w → v = w.
Proof. by destruct v, w. Qed.
Lemma previous_below v : AutonomyLevel.min (AutonomyLevel.previous v) v = AutonomyLevel.previous v.
Proof. by destruct v. Qed.
Lemma previous_rank v : AutonomyLevel.rank (AutonomyLevel.previous v) = Z.max 0 (AutonomyLevel.rank v - 1).
Proof. by destruct v. Qed.

Section Levels.
Context {crates : AuditCrates} {A : Type} {audit : AuditWriter A}.
Implicit Types (g : AutonomyGuard) (a : A).

(** What the audit trail is told when a request is refused. *)
Definition violation (action : str) (required current : AutonomyLevel) : Value :=
  object [(lit "event", JStr (lit "autonomy.level_changed")); (lit "action", JStr action);
          (lit "previous_level", JStr (AutonomyLevel.as_str current));
          (lit "new_level", JStr (AutonomyLevel.as_str (AutonomyLevel.previous current)));
          (lit "reason", JStr (lit "action '" ++ action ++ lit "' requires " ++ AutonomyLevel.as_str required ++
             lit " while current level is " ++ AutonomyLevel.as_str current))].

(** The requests of the guard, with the level each needs. *)
Inductive request :=
| RToolCall | RMultiAgent | RSelfModification | RDistributed | RSelfEvolution | RAgentCreation
| RGovernance | RSovereign | RCognitive | RMultiModel | RAlgorithm | REcosystem
| RPolicy (default_required : AutonomyLevel) (action : str) (engine : option (list Policy)).
Definition ask (actor_id : Uuid) (r : request) g a : option (result unit AutonomyError.t * AutonomyGuard * A) :=
  match r with
  | RToolCall => require_tool_call actor_id g a
  | RMultiAgent => require_multi_agent actor_id g a
  | RSelfModification => require_self_modification actor_id g a
  | RDistributed => require_distributed actor_id g a
  | RSelfEvolution => require_self_evolution actor_id g a
  | RAgentCreation => require_agent_creation actor_id g a
  | RGovernance => require_governance_modification actor_id g a
  | RSovereign => require_sovereign_action actor_id g a
  | RCognitive => require_cognitive_modification actor_id g a
  | RMultiModel => require_multi_model_orchestration actor_id g a
  | RAlgorithm => require_algorithm_selection actor_id g a
  | REcosystem => require_ecosystem_design actor_id g a
  | RPolicy default_required action engine => require_level_with_policy actor_id default_required action engine g a
  end.
Definition needs (actor_id : Uuid) (r : request) g : AutonomyLevel :=
  match r with
  | RToolCall => ah_tool_call_min (ag_hooks g)
  | RMultiAgent => ah_multi_agent_min (ag_hooks g)
  | RSelfModification => ah_self_modification_min (ag_hooks g)
  | RDistributed => ah_distributed_min (ag_hooks g)
  | RSelfEvolution | RAgentCreation => AutonomyLevel.L4
  | RGovernance | RSovereign => AutonomyLevel.L5
  | RCognitive | RMultiModel | RAlgorithm | REcosystem => AutonomyLevel.L6
  | RPolicy default_required action engine => effective_level actor_id default_required action engine g
  end.

Lemma require_level_cases actor_id required action g a o :
  require_level actor_id required action g a = o →
  (AutonomyLevel.rank required ≤ AutonomyLevel.rank (ag_level g) ∧ o = Some (Ok tt, g, a)) ∨
  (AutonomyLevel.rank (ag_level g) < AutonomyLevel.rank required ∧
   o = match append_audit actor_id EventType.StateChange (violation action required (ag_level g)) a with
       | None => None
       | Some (_, a') =>
           Some (Err (AutonomyError.Denied required (ag_level g) action (Some (AutonomyLevel.previous (ag_level g)))),
                 MkGuard (AutonomyLevel.previous (ag_level g)) (ag_hooks g), a')
       end).
Proof.
  intros <-. unfold require_level. destruct (AutonomyLevel.leb required (ag_level g)) eqn:E; [left|right].
  - apply Z.leb_le in E. done.
  - apply Z.leb_gt in E. split; [done|]. unfold downgrade. cbn [ag_level]. rewrite previous_below.
    fold (violation action required (ag_level g)). by destruct (append_audit _ _ _ _) as [[? ?]|].
Qed.
Lemma ask_is_require actor_id r g a : ∃ action, ask actor_id r g a = require_level actor_id (needs actor_id r g) action g a.
Proof. destruct r; eexists; reflexivity. Qed.

(** Any sequence of requests by any actors, and downgrades by the kernel. *)
Inductive gstep : AutonomyGuard * A → AutonomyGuard * A → Prop :=
| gs_ask actor_id r g a res g' a' : ask actor_id r g a = Some (res, g', a') → gstep (g, a) (g', a')
| gs_downgrade actor_id level action reason g a g' a' :
    downgrade actor_id level action reason g a = Some (g', a') → gstep (g, a) (g', a').

Lemma ask_falls actor_id r g a res g' a' :
  ask actor_id r g a = Some (res, g', a') →
  AutonomyLevel.rank (ag_level g') ≤ AutonomyLevel.rank (ag_level g) ∧ ag_hooks g' = ag_hooks g.
Proof.
  destruct (ask_is_require actor_id r g a) as [action ->]. intros E.
  apply require_level_cases in E as [[_ [= -> -> ->]]|[_ E]]; [done|].
  destruct (append_audit _ _ _ _) as [[? ?]|]; [|done]. injection E as _ -> _. simpl. rewrite previous_rank.
  split; [|done]. destruct (ag_level g); simpl; lia.
Qed.
Lemma downgrade_falls actor_id level action reason g a g' a' :
  downgrade actor_id level action reason g a = Some (g', a') →
  AutonomyLevel.rank (ag_level g') ≤ AutonomyLevel.rank (ag_level g) ∧ ag_hooks g' = ag_hooks g.
Proof.
  unfold downgrade. destruct (append_audit _ _ _ _) as [[? ?]|]; [|done]. intros [= <- _]. simpl. split; [|done].
  unfold AutonomyLevel.min. destruct (AutonomyLevel.leb level (ag_level g)) eqn:E; [by apply Z.leb_le in E|done].
Qed.

Lemma gsteps_fall x y :
  rtc gstep x y → AutonomyLevel.rank (ag_level y.1) ≤ AutonomyLevel.rank (ag_level x.1) ∧ ag_hooks y.1 = ag_hooks x.1.
Proof.
  induction 1 as [|x x' y Hs _ [IH1 IH2]]; [done|]. rewrite IH2. enough (AutonomyLevel.rank (ag_level x'.1) ≤
    AutonomyLevel.rank (ag_level x.1) ∧ ag_hooks x'.1 = ag_hooks x.1) by (split; [lia|tauto]).
  destruct Hs; simpl; eauto using ask_falls, downgrade_falls.
Qed.

(** The guard's level only falls: after any requests and downgrades it is at most
    what it was and the hooks are unchanged; a request granted then is one whose level was
    reached and leaves guard and trail as they were; a request refused lowers the level by
    one step, says so in the error and appends the violation to the trail. *)
Theorem autonomy_only_falls g0 a0 g a actor_id r o :
  rtc gstep (g0, a0) (g, a) → ask actor_id r g a = o →
  AutonomyLevel.rank (ag_level g) ≤ AutonomyLevel.rank (ag_level g0) ∧ ag_hooks g = ag_hooks g0 ∧
  ((AutonomyLevel.rank (needs actor_id r g) ≤ AutonomyLevel.rank (ag_level g) ∧ o = Some (Ok tt, g, a)) ∨
   (AutonomyLevel.rank (ag_level g) < AutonomyLevel.rank (needs actor_id r g) ∧
    ∃ action, o =
      match append_audit actor_id EventType.StateChange (violation action (needs actor_id r g) (ag_level g)) a with
      | None => None
      | Some (_, a') =>
          Some (Err (AutonomyError.Denied (needs actor_id r g) (ag_level g) action
                       (Some (AutonomyLevel.previous (ag_level g)))),
                MkGuard (AutonomyLevel.previous (ag_level g)) (ag_hooks g), a')
      end)).
Proof.
  intros Hr Ho. apply gsteps_fall in Hr as [Hl Hh]. split; [exact Hl|]. split; [exact Hh|].
  destruct (ask_is_require actor_id r g a) as [action Ea]. rewrite Ea in Ho.
  apply require_level_cases in Ho as [?|[? ?]]; [by left|right]. eauto.
Qed.

(** What a policy asks of the guard. With no policies, or one that allows, the guard
    asks for the default level; with one that requires approval, for one level more, L6 at
    most. One that denies asks for L5, whatever the default: an agent at L5 or L6 passes,
    also where the default is L6. *)
Lemma policy_level actor_id default_required action engine g a :
  let allowed := require_level_with_policy actor_id default_required action engine g a = Some (Ok tt, g, a) in
  match engine with
  | Some engine =>
      match evaluate engine (ac_uuid_string actor_id) action (lit "*") (MkContext (ag_level g) None) with
      | PolicyDecision.Allow => allowed ↔ AutonomyLevel.rank default_required ≤ AutonomyLevel.rank (ag_level g)
      | PolicyDecision.RequireApproval _ =>
          allowed ↔ Z.min 6 (AutonomyLevel.rank default_required + 1) ≤ AutonomyLevel.rank (ag_level g)
      | PolicyDecision.Deny _ =>
          if has_policies engine then allowed ↔ AutonomyLevel.rank AutonomyLevel.L5 ≤ AutonomyLevel.rank (ag_level g)
          else allowed ↔ AutonomyLevel.rank default_required ≤ AutonomyLevel.rank (ag_level g)
      end
  | None => allowed ↔ AutonomyLevel.rank default_required ≤ AutonomyLevel.rank (ag_level g)
  end.
Proof.
  assert (Hiff : ∀ v, require_level actor_id v action g a = Some (Ok tt, g, a) ↔
    AutonomyLevel.rank v ≤ AutonomyLevel.rank (ag_level g)).
  { intros v. destruct (require_level_cases actor_id v action g a _ eq_refl) as [[? ->]|[? ->]]; [done|].
    split; [|lia]. by destruct (append_audit _ _ _ _) as [[? ?]|]. }
  unfold require_level_with_policy, effective_level. simpl. destruct engine as [engine|]; [|apply Hiff].
  destruct engine as [|p engine]; [apply Hiff|]. change (has_policies (p :: engine)) with true. cbn iota.
  destruct (evaluate _ _ _ _ _); rewrite Hiff; [done..|]. by destruct default_required.
Qed.
End Levels.

Module SampleGuard.
(** A writer that keeps the payloads. *)
#[export] Instance writer : AuditWriter (list Value) :=
  { append_audit agent_id event_type payload a := Some (Ok agent_id, a ++ [payload]); live_events _ := [] }.
#[export] Instance uuids : AuditCrates :=
  { ac_sha256 b := b; ac_to_vec _ := None; ac_uuid_string u := u }.
Definition at_l3 : AutonomyGuard := guard_new AutonomyLevel.L3.
Definition at_l2 : AutonomyGuard := guard_new AutonomyLevel.L2.
Definition told : list Value := [violation (lit "self_modification") AutonomyLevel.L4 AutonomyLevel.L3].

Lemma autonomy_only_falls_witness :
  ask nil_uuid RSelfModification at_l3 [] =
    Some (Err (AutonomyError.Denied AutonomyLevel.L4 AutonomyLevel.L3 (lit "self_modification") (Some AutonomyLevel.L2)), at_l2, told) ∧
  AutonomyLevel.rank (ag_level at_l2) ≤ AutonomyLevel.rank (ag_level at_l3) ∧
  ask nil_uuid RMultiAgent at_l2 told = Some (Ok tt, at_l2, told).
Proof.
  assert (E : ask nil_uuid RSelfModification at_l3 [] =
    Some (Err (AutonomyError.Denied AutonomyLevel.L4 AutonomyLevel.L3 (lit "self_modification") (Some AutonomyLevel.L2)), at_l2, told))
    by (vm_compute; reflexivity).
  split; [exact E|].
  destruct (autonomy_only_falls at_l3 [] at_l2 told nil_uuid RMultiAgent (ask nil_uuid RMultiAgent at_l2 told)) as (H & _ & Ho).
  - apply rtc_once. exact (gs_ask nil_uuid RSelfModification at_l3 [] _ at_l2 told E).
  - reflexivity.
  - split; [exact H|]. destruct Ho as [[_ Ho]|[Hlt _]]; [exact Ho|]. vm_compute in Hlt. discriminate.
Defined.
End SampleGuard.
