(* ===== verification/KernelConsent.v ===== *)
(** * Kernel: consent

    [kernel/src/consent.rs]: the governed operations with their approval tiers, the queue
    of approval requests with its fingerprints, and the runtime that lets an operation
    happen once its tier is satisfied. The audit trail is any [AuditWriter]; SHA-256,
    [serde_json] on values and [Uuid::parse_str] are parameters, the queue's file (JSON
    included) is one too, and a signer, drawn anew for every decision, is an argument. A
    panic is [None]. *)

From S2P Require Import Prelude Hash AuthBase KernelMerkle KernelAudit KernelPolicy.

Local Open Scope Z_scope.
Local Open Scope nexus_scope.
#[local] Arguments lit : simpl never.

(** ** Operations and their tiers *)

Module GovernedOperation.
Inductive t :=
| ToolCall
| TerminalCommand
| SocialPostPublish
| SelfMutationApply
| MultiAgentOrchestrate
| DistributedEnable
| TimeMachineUndo
| SelfEvolution
| AgentLifecycleManage
| GovernancePolicyModify
| EcosystemFuelAllocate
| SovereignPromotion
| TranscendentCreation
| A2aDelegation
| McpExternalToolCall
| IntegrationSend.

Definition ALL : list t :=
  [ToolCall; TerminalCommand; SocialPostPublish; SelfMutationApply; MultiAgentOrchestrate; DistributedEnable;
   TimeMachineUndo; SelfEvolution; AgentLifecycleManage; GovernancePolicyModify; EcosystemFuelAllocate;
   SovereignPromotion; TranscendentCreation; A2aDelegation; McpExternalToolCall; IntegrationSend].
Definition as_str (v : t) : str :=
  match v with
  | ToolCall => lit "tool_call"
  | TerminalCommand => lit "terminal_command"
  | SocialPostPublish => lit "social_post_publish"
  | SelfMutationApply => lit "self_mutation_apply"
  | MultiAgentOrchestrate => lit "multi_agent_orchestrate"
  | DistributedEnable => lit "distributed_enable"
  | TimeMachineUndo => lit "time_machine_undo"
  | SelfEvolution => lit "self_evolution"
  | AgentLifecycleManage => lit "agent_lifecycle_manage"
  | GovernancePolicyModify => lit "governance_policy_modify"
  | EcosystemFuelAllocate => lit "ecosystem_fuel_allocate"
  | SovereignPromotion => lit "sovereign_promotion"
  | TranscendentCreation => lit "transcendent_creation"
  | A2aDelegation => lit "a2a_delegation"
  | McpExternalToolCall => lit "mcp_external_tool_call"
  | IntegrationSend => lit "integration_send"
  end.
Definition display_label (v : t) : str :=
  match v with
  | ToolCall => lit "Tool call"
  | TerminalCommand => lit "Terminal command"
  | SocialPostPublish => lit "Social post publish"
  | SelfMutationApply => lit "Self-mutation apply"
  | MultiAgentOrchestrate => lit "Multi-agent orchestration"
  | DistributedEnable => lit "Distributed enable"
  | TimeMachineUndo => lit "Time Machine undo"
  | SelfEvolution => lit "Self-evolution"
  | AgentLifecycleManage => lit "Agent lifecycle management"
  | GovernancePolicyModify => lit "Governance policy modification"
  | EcosystemFuelAllocate => lit "Ecosystem fuel allocation"
  | SovereignPromotion => lit "Sovereign promotion (L5)"
  | TranscendentCreation => lit "Transcendent creation (L6)"
  | A2aDelegation => lit "A2A delegation to external agent"
  | McpExternalToolCall => lit "External MCP tool call"
  | IntegrationSend => lit "Integration send (Slack/email/etc.)"
  end.
(** Derived [Debug]. *)
Definition debug (v : t) : str :=
  match v with
  | ToolCall => lit "ToolCall"
  | TerminalCommand => lit "TerminalCommand"
  | SocialPostPublish => lit "SocialPostPublish"
  | SelfMutationApply => lit "SelfMutationApply"
  | MultiAgentOrchestrate => lit "MultiAgentOrchestrate"
  | DistributedEnable => lit "DistributedEnable"
  | TimeMachineUndo => lit "TimeMachineUndo"
  | SelfEvolution => lit "SelfEvolution"
  | AgentLifecycleManage => lit "AgentLifecycleManage"
  | GovernancePolicyModify => lit "GovernancePolicyModify"
  | EcosystemFuelAllocate => lit "EcosystemFuelAllocate"
  | SovereignPromotion => lit "SovereignPromotion"
  | TranscendentCreation => lit "TranscendentCreation"
  | A2aDelegation => lit "A2aDelegation"
  | McpExternalToolCall => lit "McpExternalToolCall"
  | IntegrationSend => lit "IntegrationSend"
  end.
Definition from_policy_key (value : str) : option t := find (λ v, bool_decide (as_str v = value)) ALL.
End GovernedOperation.
Abbreviation GovernedOperation := GovernedOperation.t.
#[export] Instance GovernedOperation_eq_dec : EqDecision GovernedOperation.
Proof. solve_decision. Defined.

Record OperationConsentPolicy := MkOpPolicy {
  op_required_tier : HitlTier;
  op_allowed_approvers : list str;
}.
(** [sort] and [dedup] of strings. *)
Fixpoint insert_str (s : str) (l : list str) : list str :=
  match l with
  | [] => [s]
  | x :: l => if str_leb s x then s :: x :: l else x :: insert_str s l
  end.
Fixpoint dedup (l : list str) : list str :=
  match l with
  | x :: (y :: _) as l' => if bool_decide (x = y) then dedup l' else x :: dedup l'
  | _ => l
  end.
Definition normalized (p : OperationConsentPolicy) : OperationConsentPolicy :=
  MkOpPolicy (op_required_tier p) (dedup (foldr insert_str [] (op_allowed_approvers p))).

(** [ConsentPolicyEngine]: its map has a policy for each operation or none. *)
Definition ConsentPolicyEngine := GovernedOperation → option OperationConsentPolicy.
Definition insert_policy_for (operation : GovernedOperation) (p : OperationConsentPolicy) (e : ConsentPolicyEngine)
    : ConsentPolicyEngine :=
  λ o, if decide (o = operation) then Some p else e o.
Definition default_tier (operation : GovernedOperation) : HitlTier :=
  match operation with
  | GovernedOperation.ToolCall => HitlTier.Tier1
  | GovernedOperation.TerminalCommand => HitlTier.Tier2
  | GovernedOperation.SocialPostPublish => HitlTier.Tier2
  | GovernedOperation.SelfMutationApply => HitlTier.Tier3
  | GovernedOperation.MultiAgentOrchestrate => HitlTier.Tier2
  | GovernedOperation.DistributedEnable => HitlTier.Tier3
  | GovernedOperation.TimeMachineUndo => HitlTier.Tier1
  | GovernedOperation.SelfEvolution => HitlTier.Tier2
  | GovernedOperation.AgentLifecycleManage => HitlTier.Tier2
  | GovernedOperation.GovernancePolicyModify => HitlTier.Tier3
  | GovernedOperation.EcosystemFuelAllocate => HitlTier.Tier2
  | GovernedOperation.SovereignPromotion => HitlTier.Tier3
  | GovernedOperation.TranscendentCreation => HitlTier.Tier3
  | GovernedOperation.A2aDelegation => HitlTier.Tier2
  | GovernedOperation.McpExternalToolCall => HitlTier.Tier2
  | GovernedOperation.IntegrationSend => HitlTier.Tier1
  end.
Definition default_engine : ConsentPolicyEngine := λ operation, Some (MkOpPolicy (default_tier operation) []).

Definition required_tier (operation : GovernedOperation) (e : ConsentPolicyEngine) : HitlTier :=
  match e operation with Some p => op_required_tier p | None => HitlTier.Tier2 end.
Definition allowed_approvers (operation : GovernedOperation) (e : ConsentPolicyEngine) : list str :=
  match e operation with Some p => op_allowed_approvers p | None => [] end.
Definition set_policy (operation : GovernedOperation) (tier : HitlTier) (approvers : list str) (e : ConsentPolicyEngine)
    : ConsentPolicyEngine :=
  insert_policy_for operation (normalized (MkOpPolicy tier approvers)) e.

(** [load], from the parsed file: an unknown operation refuses the file. *)
Record RawOperationPolicy := MkRawPolicy {
  ro_required_tier : option HitlTier;
  ro_allowed_approvers : list str;
}.
Fixpoint load_operations (operations : list (str * RawOperationPolicy)) (e : ConsentPolicyEngine)
    : result ConsentPolicyEngine str :=
  match operations with
  | [] => Ok e
  | (key, raw) :: operations =>
      match GovernedOperation.from_policy_key key with
      | None => Err (lit "unknown governed operation '" ++ key ++ lit "' in consent policy")
      | Some operation =>
          let current := default (MkOpPolicy HitlTier.Tier2 []) (e operation) in
          load_operations operations
            (insert_policy_for operation
              (normalized (MkOpPolicy (default (op_required_tier current) (ro_required_tier raw))
                 (match ro_allowed_approvers raw with [] => op_allowed_approvers current | l => l end))) e)
      end
  end.
Definition engine_load (operations : list (str * RawOperationPolicy)) : result ConsentPolicyEngine str :=
  load_operations operations default_engine.

(** ** Requests and records *)

Module RiskLevel.
Inductive t := Low | Medium | High | Critical.
Definition from_operation_tier (operation : GovernedOperation) (tier : HitlTier) : t :=
  match operation, tier with
  | _, HitlTier.Tier3 => Critical
  | GovernedOperation.SelfMutationApply, _ | GovernedOperation.DistributedEnable, _ => Critical
  | _, HitlTier.Tier2 => High
  | GovernedOperation.TerminalCommand, _ | GovernedOperation.SocialPostPublish, _
  | GovernedOperation.MultiAgentOrchestrate, _ => Medium
  | _, _ => Low
  end.
End RiskLevel.

Record ApprovalRequest := MkRequest {
  ar_id : str;
  ar_operation : GovernedOperation;
  ar_agent_id : str;
  ar_payload_hash : str;
  ar_requested_by : str;
  ar_required_tier : HitlTier;
  ar_created_seq : Z;
  ar_display_summary : str;
  ar_display_args : list (str * str);
  ar_risk_level : RiskLevel.t;
  ar_raw_view : str;
  ar_min_review_seconds : option Z;
}.
(** A slice of [n] bytes, which panics inside a character. *)
Fixpoint slice_to (n : Z) (s : str) : option str :=
  if n <=? 0 then Some []
  else
    match s with
    | [] => None
    | c :: s =>
        let k := Z.of_nat (length (utf8_char c)) in
        if n <? k then None else cons c <$> slice_to (n - k) s
    end.
Definition from_operation (id : str) (operation : GovernedOperation) (agent_id payload_hash requested_by : str)
    (tier : HitlTier) (created_seq : Z) : option ApprovalRequest :=
  match slice_to (Z.min 8 (str_len agent_id)) agent_id with
  | None => None
  | Some short =>
      Some (MkRequest id operation agent_id payload_hash requested_by tier created_seq
        (GovernedOperation.display_label operation ++ lit " (agent " ++ short ++ lit ")")
        [(lit "operation", GovernedOperation.as_str operation); (lit "agent_id", agent_id);
         (lit "tier", HitlTier.as_str tier); (lit "payload_hash", payload_hash)]
        (RiskLevel.from_operation_tier operation tier)
        (lit "operation=" ++ GovernedOperation.debug operation ++ lit " agent_id=" ++ agent_id ++
         lit " requested_by=" ++ requested_by ++ lit " tier=" ++ HitlTier.as_str tier ++
         lit " payload_hash=" ++ payload_hash)
        match operation with GovernedOperation.TranscendentCreation => Some 60 | _ => None end)
  end.

Module ApprovalVerdict.
Inductive t := Approve | Deny.
Definition debug (v : t) : str := match v with Approve => lit "Approve" | Deny => lit "Deny" end.
End ApprovalVerdict.
Record ApprovalDecision := MkDecision {
  ad_id : str;
  ad_approver_id : str;
  ad_decision : ApprovalVerdict.t;
  ad_signature : option str;
  ad_decision_seq : Z;
}.
Module ConsentError.
Inductive t :=
| ApprovalRequired (request_id : str) (operation : GovernedOperation) (tier : HitlTier)
| RequestDenied (request_id : str)
| RequestNotFound (request_id : str)
| DuplicateApprover (request_id approver_id : str)
| ApproverNotAllowed (request_id approver_id : str)
| SelfApprovalRejected (request_id approver_id : str)
| QueueStorage
| PolicyDenied (reason : str)
| AuditFailed (error : AuditError.t)
| TimedOut (request_id : str) (timeout_secs : Z)
| NoApproversConfigured (request_id : str)
| PayloadIntegrityFailed (request_id : str).
End ConsentError.
Abbreviation ConsentError := ConsentError.t.

(** A [BTreeSet] of strings is its ordered list. *)
Definition set_insert (s : str) (l : list str) : list str := if bool_decide (s ∈ l) then l else insert_str s l.
Record ApprovalRecord := MkRecord {
  rc_request : ApprovalRequest;
  rc_approvals : list str;
  rc_denials : list str;
  rc_decisions : list ApprovalDecision;
  rc_executed : bool;
  rc_fingerprint : str;
  rc_created_at_unix : Z;
}.
Definition record_eta (r : ApprovalRecord) : ApprovalRecord :=
  MkRecord (rc_request r) (rc_approvals r) (rc_denials r) (rc_decisions r) (rc_executed r) (rc_fingerprint r)
    (rc_created_at_unix r).
#[export] Instance upd_rc_approvals : Update rc_approvals := ltac:(update_with record_eta).
#[export] Instance upd_rc_denials : Update rc_denials := ltac:(update_with record_eta).
#[export] Instance upd_rc_decisions : Update rc_decisions := ltac:(update_with record_eta).
#[export] Instance upd_rc_executed : Update rc_executed := ltac:(update_with record_eta).

Record ApprovalQueue := MkQueue {
  q_records : gmap str ApprovalRecord;
  q_fingerprint_index : gmap str str;
  q_storage_path : option str;
  q_auto_approve_tier1 : bool;
  q_approval_timeout_secs : Z;
}.
Definition queue_eta (q : ApprovalQueue) : ApprovalQueue :=
  MkQueue (q_records q) (q_fingerprint_index q) (q_storage_path q) (q_auto_approve_tier1 q) (q_approval_timeout_secs q).
#[export] Instance upd_q_records : Update q_records := ltac:(update_with queue_eta).
#[export] Instance upd_q_index : Update q_fingerprint_index := ltac:(update_with queue_eta).
#[export] Instance upd_q_path : Update q_storage_path := ltac:(update_with queue_eta).
Definition in_memory : ApprovalQueue := MkQueue ∅ ∅ None true 86400.

(** The records in the order of their ids. *)
Fixpoint insert_record (kv : str * ApprovalRecord) (l : list (str * ApprovalRecord)) : list (str * ApprovalRecord) :=
  match l with
  | [] => [kv]
  | x :: l => if str_leb kv.1 x.1 then kv :: x :: l else x :: insert_record kv l
  end.
Definition record_values (q : ApprovalQueue) : list ApprovalRecord :=
  (foldr insert_record [] (map_to_list (q_records q))).*2.
Definition pending_requests (q : ApprovalQueue) : list ApprovalRequest :=
  rc_request <$> filter (λ r, rc_executed r = false) (record_values q).

Module ApprovalState.
Inductive t := Pending | Approved | Denied.
End ApprovalState.

(** What is read from a stored queue: nothing there, unreadable, or its records. *)
Class QueueFiles (F : Type) := {
  save_queue : str → list ApprovalRecord → F → bool * F;
  load_queue : str → F → option (result (list ApprovalRecord) unit);
}.
Class ConsentCrates := {
  cc_value_to_vec : Value → option bytes;
  cc_parse_uuid : str → option Uuid;
}.

(** The queue, the trail and the queue's file. *)
Record ConsentWorld {A F : Type} := MkConsentWorld {
  cw_queue : ApprovalQueue;
  cw_audit : A;
  cw_files : F;
}.
Arguments ConsentWorld : clear implicits.
Definition world_eta {A F} (w : ConsentWorld A F) : ConsentWorld A F :=
  MkConsentWorld A F (cw_queue w) (cw_audit w) (cw_files w).
#[export] Instance upd_cw_queue {A F} : Update (@cw_queue A F) := ltac:(update_with (@world_eta A F)).
#[export] Instance upd_cw_audit {A F} : Update (@cw_audit A F) := ltac:(update_with (@world_eta A F)).
#[export] Instance upd_cw_files {A F} : Update (@cw_files A F) := ltac:(update_with (@world_eta A F)).

(** Steps that may fail or panic, with [?] between them. *)
Definition M {A F : Type} (X : Type) : Type := ConsentWorld A F → option (result X ConsentError * ConsentWorld A F).
Definition mbind_m {A F X Y : Type} (m : @M A F X) (k : X → @M A F Y) : @M A F Y :=
  λ w, match m w with
       | None => None
       | Some (Err e, w) => Some (Err e, w)
       | Some (Ok x, w) => k x w
       end.
Definition ret_m {A F X : Type} (x : X) : @M A F X := λ w, Some (Ok x, w).
Definition err_m {A F X : Type} (e : ConsentError) : @M A F X := λ w, Some (Err e, w).
Notation "'let!' x ':=' m 'in' k" := (mbind_m m (λ x, k))
  (at level 200, x pattern, m at level 100, k at level 200) : nexus_scope.

Section Consent.
Context {crates : AuditCrates} {consent : ConsentCrates} {A : Type} {audit : AuditWriter A} {F : Type} {files : QueueFiles F}.
Implicit Types (w : ConsentWorld A F) (q : ApprovalQueue).

(** ** Hashes *)

Definition hash_payload (payload : bytes) : str := encode (ac_sha256 payload).
Definition fingerprint_value (operation : GovernedOperation) (agent_id payload_hash requested_by : str) (tier : HitlTier)
    : Value :=
  object [(lit "operation", JStr (GovernedOperation.as_str operation)); (lit "agent_id", JStr agent_id);
          (lit "payload_hash", JStr payload_hash); (lit "requested_by", JStr requested_by);
          (lit "required_tier", JStr (HitlTier.as_str tier))].
Definition compute_fingerprint (operation : GovernedOperation) (agent_id : Uuid) (payload_hash requested_by : str)
    (tier : HitlTier) : str :=
  encode (ac_sha256 (default [] (cc_value_to_vec
    (fingerprint_value operation (ac_uuid_string agent_id) payload_hash requested_by tier)))).
Definition derive_request_id (created_seq : Z) (operation : GovernedOperation) (agent_id : Uuid)
    (payload_hash requested_by : str) (tier : HitlTier) : str :=
  lit "req-" ++ encode (ac_sha256 (default [] (cc_value_to_vec
    (object [(lit "created_seq", JInt created_seq); (lit "operation", JStr (GovernedOperation.as_str operation));
             (lit "agent_id", JStr (ac_uuid_string agent_id)); (lit "payload_hash", JStr payload_hash);
             (lit "requested_by", JStr requested_by); (lit "required_tier", JStr (HitlTier.as_str tier))])))).
Definition next_audit_sequence (a : A) : Z := Z.of_nat (length (live_events a)) + 1.
Definition parse_or_nil_uuid (raw : str) : Uuid := default nil_uuid (cc_parse_uuid raw).

(** ** Audit and storage *)

Definition append (agent_id : Uuid) (event_type : EventType.t) (payload : Value) : M unit := λ w,
  match append_audit agent_id event_type payload (cw_audit w) with
  | None => None
  | Some (Ok _, a) => Some (Ok tt, w <| cw_audit := a |>)
  | Some (Err e, a) => Some (Err (ConsentError.AuditFailed e), w <| cw_audit := a |>)
  end.
Definition consent_event (event : str) (r : ApprovalRequest) (approver_ids : list str) (decision_result : str) : Value :=
  object [(lit "event", JStr event); (lit "request_id", JStr (ar_id r));
          (lit "operation", JStr (GovernedOperation.as_str (ar_operation r)));
          (lit "required_tier", JStr (HitlTier.as_str (ar_required_tier r)));
          (lit "payload_hash", JStr (ar_payload_hash r)); (lit "approver_ids", JArr (JStr <$> approver_ids));
          (lit "decision_result", JStr decision_result)].
Definition append_requested_event (r : ApprovalRequest) : M unit :=
  append (parse_or_nil_uuid (ar_agent_id r)) EventType.UserAction (consent_event (lit "consent.requested") r [] (lit "pending")).
Definition append_decision_event (r : ApprovalRequest) (d : ApprovalDecision) : M unit :=
  let '(event, decided) :=
    match ad_decision d with
    | ApprovalVerdict.Approve => (lit "consent.approved", lit "approved")
    | ApprovalVerdict.Deny => (lit "consent.denied", lit "denied")
    end in
  append (parse_or_nil_uuid (ar_agent_id r)) EventType.UserAction (consent_event event r [ad_approver_id d] decided).
Definition append_executed_event (r : ApprovalRequest) (approver_ids : list str) : M unit :=
  append (parse_or_nil_uuid (ar_agent_id r)) EventType.StateChange
    (consent_event (lit "consent.executed") r approver_ids (lit "executed")).
Definition persist : M unit := λ w,
  match q_storage_path (cw_queue w) with
  | None => Some (Ok tt, w)
  | Some path =>
      let '(saved, f) := save_queue path (record_values (cw_queue w)) (cw_files w) in
      Some (if saved then Ok tt else Err ConsentError.QueueStorage, w <| cw_files := f |>)
  end.
(** [file_backed]: later records win over earlier ones. *)
Definition restore (q : ApprovalQueue) (r : ApprovalRecord) : ApprovalQueue :=
  let q := if rc_executed r then q
           else q <| q_fingerprint_index := <[rc_fingerprint r := ar_id (rc_request r)]> (q_fingerprint_index q) |> in
  q <| q_records := <[ar_id (rc_request r) := r]> (q_records q) |>.
Definition file_backed (path : str) (f : F) : result ApprovalQueue ConsentError :=
  match load_queue path f with
  | None => Ok (in_memory <| q_storage_path := Some path |>)
  | Some (Err _) => Err ConsentError.QueueStorage
  | Some (Ok records) => Ok (foldl restore (in_memory <| q_storage_path := Some path |>) records)
  end.

(** ** The queue *)

Definition put_record (id : str) (r : ApprovalRecord) w : ConsentWorld A F :=
  w <| cw_queue := cw_queue w <| q_records := <[id := r]> (q_records (cw_queue w)) |> |>.
Definition put_index (index : gmap str str) w : ConsentWorld A F :=
  w <| cw_queue := cw_queue w <| q_fingerprint_index := index |> |>.

Definition request_or_get (operation : GovernedOperation) (agent_id : Uuid) (payload_hash requested_by : str)
    (tier : HitlTier) (now_unix : Z) : M ApprovalRequest := λ w,
  let fingerprint := compute_fingerprint operation agent_id payload_hash requested_by tier in
  let q := cw_queue w in
  match q_fingerprint_index q !! fingerprint ≫= (q_records q !!.) with
  | Some r => Some (Ok (rc_request r), w)
  | None =>
      let created_seq := next_audit_sequence (cw_audit w) in
      let request_id := derive_request_id created_seq operation agent_id payload_hash requested_by tier in
      match from_operation request_id operation (ac_uuid_string agent_id) payload_hash requested_by tier created_seq with
      | None => None
      | Some request =>
          let w := put_record request_id (MkRecord request [] [] [] false fingerprint now_unix) w in
          let w := put_index (<[fingerprint := request_id]> (q_fingerprint_index q)) w in
          (let! _ := append_requested_event request in
           let! _ := persist in
           ret_m request) w
      end
  end.

(** The signature over the hash of a decision at [Tier2] or above. *)
Definition decision_digest (request_id approver_id : str) (decision : ApprovalVerdict.t) (tier : HitlTier) : bytes :=
  ac_sha256 (as_bytes (request_id ++ lit ":" ++ approver_id ++ lit ":" ++ ApprovalVerdict.debug decision ++ lit ":" ++
    HitlTier.as_str tier)).
Definition submit_decision (request_id approver_id : str) (decision : ApprovalVerdict.t) (allowed : list str)
    (sign : bytes → option bytes) : M ApprovalDecision := λ w,
  match q_records (cw_queue w) !! request_id with
  | None => Some (Err (ConsentError.RequestNotFound request_id), w)
  | Some r =>
      if bool_decide (approver_id = ar_requested_by (rc_request r))
      then Some (Err (ConsentError.SelfApprovalRejected request_id approver_id), w)
      else if bool_decide (length allowed = 0%nat) then Some (Err (ConsentError.NoApproversConfigured request_id), w)
      else if negb (bool_decide (approver_id ∈ allowed))
      then Some (Err (ConsentError.ApproverNotAllowed request_id approver_id), w)
      else if bool_decide (approver_id ∈ rc_approvals r) || bool_decide (approver_id ∈ rc_denials r)
      then Some (Err (ConsentError.DuplicateApprover request_id approver_id), w)
      else
        let r := match decision with
                 | ApprovalVerdict.Approve => r <| rc_approvals := set_insert approver_id (rc_approvals r) |>
                 | ApprovalVerdict.Deny => r <| rc_denials := set_insert approver_id (rc_denials r) |>
                 end in
        let tier := ar_required_tier (rc_request r) in
        let signature :=
          if HitlTier.leb HitlTier.Tier2 tier
          then encode <$> sign (decision_digest request_id approver_id decision tier) else None in
        let event := MkDecision request_id approver_id decision signature (next_audit_sequence (cw_audit w)) in
        let r := r <| rc_decisions := rc_decisions r ++ [event] |> in
        (let! _ := append_decision_event (rc_request r) event in
         let! _ := persist in
         ret_m event) (put_record request_id r w)
  end.

Definition record_state (r : ApprovalRecord) (now : Z) q : ApprovalState.t :=
  if negb (bool_decide (length (rc_denials r) = 0%nat)) then ApprovalState.Denied
  else if negb (rc_executed r) && (0 <? q_approval_timeout_secs q) && (0 <? rc_created_at_unix r) &&
          (q_approval_timeout_secs q <? Z.max 0 (now - rc_created_at_unix r))
  then ApprovalState.Denied
  else
    let required := HitlTier.approvals_required (q_auto_approve_tier1 q) (ar_required_tier (rc_request r)) in
    if bool_decide (required = 0%nat) || (required <=? length (rc_approvals r))%nat then ApprovalState.Approved
    else ApprovalState.Pending.
Definition approval_state (request_id : str) (now : Z) q : result ApprovalState.t ConsentError :=
  match q_records q !! request_id with
  | None => Err (ConsentError.RequestNotFound request_id)
  | Some r => Ok (record_state r now q)
  end.

Definition mark_executed (request_id : str) (now : Z) : M unit := λ w,
  let q := cw_queue w in
  match q_records q !! request_id with
  | None => Some (Err (ConsentError.RequestNotFound request_id), w)
  | Some r =>
      match record_state r now q with
      | ApprovalState.Denied => Some (Err (ConsentError.RequestDenied request_id), w)
      | _ =>
          if rc_executed r then Some (Ok tt, w)
          else
            let required := HitlTier.approvals_required (q_auto_approve_tier1 q) (ar_required_tier (rc_request r)) in
            if (0 <? required)%nat && (length (rc_approvals r) <? required)%nat
            then Some (Err (ConsentError.ApprovalRequired request_id (ar_operation (rc_request r))
                              (ar_required_tier (rc_request r))), w)
            else
              let w := put_record request_id (r <| rc_executed := true |>) w in
              let w := put_index (delete (rc_fingerprint r) (q_fingerprint_index q)) w in
              (let! _ := append_executed_event (rc_request r) (rc_approvals r) in
               let! _ := persist in
               ret_m tt) w
      end
  end.

(** ** The runtime *)

Record ConsentRuntime := MkRuntime {
  cr_policy_engine : ConsentPolicyEngine;
  cr_requester_id : str;
  cr_cedar_engine : option (list Policy);
}.
(** [ConsentRuntime::from_manifest] gives the default engine and an empty queue. *)
Definition from_manifest (consent_policy_path requester_id : option str) (default_requester : str)
    : result (ConsentRuntime * ApprovalQueue) unit :=
  match consent_policy_path with
  | Some _ => Err tt
  | None =>
      let requester :=
        match trim <$> requester_id with
        | Some (c :: s) => c :: s
        | _ => default_requester
        end in
      Ok (MkRuntime default_engine requester None, in_memory)
  end.
Definition set_cedar_engine (engine : list Policy) (rt : ConsentRuntime) : ConsentRuntime :=
  MkRuntime (cr_policy_engine rt) (cr_requester_id rt) (Some engine).

Definition of_result {X} (r : result X ConsentError) : M X := λ w, Some (r, w).
(** The readings of the clock: the request's creation, its state, its execution. *)
Definition enforce_with_tier (rt : ConsentRuntime) (operation : GovernedOperation) (agent_id : Uuid) (payload : bytes)
    (tier : HitlTier) (clock : nat → Z) : M unit :=
  match tier with
  | HitlTier.Tier0 => ret_m tt
  | _ =>
      let payload_hash := hash_payload payload in
      let! request := request_or_get operation agent_id payload_hash (cr_requester_id rt) tier (clock 0%nat) in
      if negb (bool_decide (ar_payload_hash request = payload_hash))
      then err_m (ConsentError.PayloadIntegrityFailed (ar_id request))
      else
        match tier with
        | HitlTier.Tier1 => mark_executed (ar_id request) (clock 2%nat)
        | HitlTier.Tier0 => ret_m tt
        | _ => λ w,
            (let! state := of_result (approval_state (ar_id request) (clock 1%nat) (cw_queue w)) in
             match state with
             | ApprovalState.Approved => mark_executed (ar_id request) (clock 2%nat)
             | ApprovalState.Denied => err_m (ConsentError.RequestDenied (ar_id request))
             | ApprovalState.Pending => err_m (ConsentError.ApprovalRequired (ar_id request) operation tier)
             end) w
        end
  end.

Definition critical (operation : GovernedOperation) : bool :=
  match operation with
  | GovernedOperation.SovereignPromotion | GovernedOperation.TranscendentCreation
  | GovernedOperation.GovernancePolicyModify | GovernedOperation.SelfMutationApply
  | GovernedOperation.AgentLifecycleManage => true
  | _ => false
  end.
Definition enforce_operation (rt : ConsentRuntime) (operation : GovernedOperation) (agent_id : Uuid) (payload : bytes)
    (clock : nat → Z) : M unit :=
  let default_tier := required_tier operation (cr_policy_engine rt) in
  if critical operation then enforce_with_tier rt operation agent_id payload HitlTier.Tier3 clock
  else
    match cr_cedar_engine rt with
    | Some cedar =>
        if has_policies cedar then
          match evaluate cedar (ac_uuid_string agent_id) (GovernedOperation.as_str operation) (lit "*") default_context with
          | PolicyDecision.Allow =>
              if HitlTier.leb HitlTier.Tier2 default_tier then
                let! _ := append agent_id EventType.StateChange
                  (object [(lit "event", JStr (lit "consent.cedar_allow_blocked"));
                           (lit "operation", JStr (GovernedOperation.as_str operation));
                           (lit "decision", JStr (lit "allow"));
                           (lit "default_tier", JStr (HitlTier.as_str default_tier));
                           (lit "reason", JStr (lit "cedar_allow_cannot_override_tier2_plus"))]) in
                enforce_with_tier rt operation agent_id payload default_tier clock
              else
                let! _ := append agent_id EventType.StateChange
                  (object [(lit "event", JStr (lit "consent.cedar_allow"));
                           (lit "operation", JStr (GovernedOperation.as_str operation));
                           (lit "decision", JStr (lit "allow"));
                           (lit "effective_tier", JStr (lit "tier0"))]) in
                ret_m tt
          | PolicyDecision.Deny reason => err_m (ConsentError.PolicyDenied reason)
          | PolicyDecision.RequireApproval tier => enforce_with_tier rt operation agent_id payload tier clock
          end
        else enforce_with_tier rt operation agent_id payload default_tier clock
    | None => enforce_with_tier rt operation agent_id payload default_tier clock
    end.

Definition decide_request (rt : ConsentRuntime) (request_id approver_id : str) (decision : ApprovalVerdict.t)
    (sign : bytes → option bytes) : M unit := λ w,
  match q_records (cw_queue w) !! request_id with
  | None => Some (Err (ConsentError.RequestNotFound request_id), w)
  | Some r =>
      (let! _ := submit_decision request_id approver_id decision
          (allowed_approvers (ar_operation (rc_request r)) (cr_policy_engine rt)) sign in
       ret_m tt) w
  end.
Definition approve (rt : ConsentRuntime) (request_id approver_id : str) (sign : bytes → option bytes) : M unit :=
  decide_request rt request_id approver_id ApprovalVerdict.Approve sign.
Definition deny (rt : ConsentRuntime) (request_id approver_id : str) (sign : bytes → option bytes) : M unit :=
  decide_request rt request_id approver_id ApprovalVerdict.Deny sign.
End Consent.
