(* ===== verification/KernelConsentProps.v ===== *)
(** * Kernel: what consent promises

    Nothing at a tier that needs approvals happens without them, an approval is spent
    once, a denial is final, and a queue read back from its file is the queue that was
    saved. *)

From S2P Require Import Prelude Hash AuthBase KernelMerkle KernelAudit KernelPolicy KernelConsent.

Local Open Scope Z_scope.
Local Open Scope nexus_scope.
#[local] Arguments lit : simpl never.

(** ** What is relied on *)

(** SHA-256 gives 32 bytes; objects of strings are all serialized, differently; the
    display of an id is text. *)
Definition flat (l : list (str * str)) : Value := JObj ((λ kv, (kv.1, JStr kv.2)) <$> l).
Record consent_laws {crates : AuditCrates} {consent : ConsentCrates} : Prop := {
  cl_sha : ∀ b, digest_bytes (ac_sha256 b);
  cl_json : ∀ l, value_ok (flat l) = true → is_Some (cc_value_to_vec (flat l));
  cl_inj : ∀ l1 l2 b, value_ok (flat l1) = true → value_ok (flat l2) = true →
    cc_value_to_vec (flat l1) = Some b → cc_value_to_vec (flat l2) = Some b → l1 = l2;
  cl_uuid : ∀ u, text_ok (ac_uuid_string u) = true;
}.

Section Queue.
Context {crates : AuditCrates} {consent : ConsentCrates} {A : Type} {audit : AuditWriter A} {F : Type} {files : QueueFiles F}.
Context (Hlaws : consent_laws).
Implicit Types (w : ConsentWorld A F) (q : ApprovalQueue) (r : ApprovalRecord).

(** ** What each operation does to the queue *)

(** Audit and storage leave it alone. *)
Definition keeps {X} (m : M X) : Prop := ∀ w (o : result X ConsentError) w', m w = Some (o, w') → cw_queue w' = cw_queue w.
Lemma append_keeps agent_id event_type payload : keeps (append agent_id event_type payload).
Proof. intros w o w'. unfold append. destruct (append_audit _ _ _ _) as [[[]]|]; intros; by simplify_eq. Qed.
Lemma persist_keeps : keeps persist.
Proof. intros w o w'. unfold persist. repeat case_match; intros; by simplify_eq. Qed.
Lemma told_keeps {X} (m : M unit) (x : X) w o w' :
  keeps m → (let! _ := m in let! _ := persist in ret_m x) w = Some (o, w') →
  cw_queue w' = cw_queue w ∧ ∀ y, o = Ok y → y = x.
Proof.
  intros Hm E. unfold mbind_m in E. destruct (m w) as [[[u|e] w1]|] eqn:Em; [|simplify_eq|done].
  - destruct (persist w1) as [[[v|e] w2]|] eqn:Ep; [| |done].
    + unfold ret_m in E. simplify_eq. split; [|by intros y [= ->]]. by rewrite (persist_keeps _ _ _ Ep), (Hm _ _ _ Em).
    + simplify_eq. split; [|done]. by rewrite (persist_keeps _ _ _ Ep), (Hm _ _ _ Em).
  - split; [|done]. by apply Hm in Em.
Qed.
Lemma requested_keeps x : keeps (append_requested_event x).
Proof. apply append_keeps. Qed.
Lemma decision_keeps x d : keeps (append_decision_event x d).
Proof. unfold append_decision_event. destruct (ad_decision d); apply append_keeps. Qed.
Lemma executed_keeps x ids : keeps (append_executed_event x ids).
Proof. apply append_keeps. Qed.

(** The queue after a request is made, decided or executed. *)
Definition with_request (fp : str) (request : ApprovalRequest) (now : Z) q : ApprovalQueue :=
  q <| q_records := <[ar_id request := MkRecord request [] [] [] false fp now]> (q_records q) |>
    <| q_fingerprint_index := <[fp := ar_id request]> (q_fingerprint_index q) |>.
Definition with_record (id : str) r q : ApprovalQueue := q <| q_records := <[id := r]> (q_records q) |>.
Definition with_executed (id : str) r q : ApprovalQueue :=
  q <| q_records := <[id := r <| rc_executed := true |>]> (q_records q) |>
    <| q_fingerprint_index := delete (rc_fingerprint r) (q_fingerprint_index q) |>.
Definition required q (tier : HitlTier) : nat := HitlTier.approvals_required (q_auto_approve_tier1 q) tier.

Lemma from_operation_fields id operation agent_id payload_hash requested_by tier seq request :
  from_operation id operation agent_id payload_hash requested_by tier seq = Some request →
  ar_id request = id ∧ ar_operation request = operation ∧ ar_agent_id request = agent_id ∧
  ar_payload_hash request = payload_hash ∧ ar_requested_by request = requested_by ∧ ar_required_tier request = tier.
Proof. unfold from_operation. destruct (slice_to _ _); [|done]. by intros [= <-]. Qed.

Lemma request_cases operation agent_id payload_hash requested_by tier now w o w' :
  request_or_get operation agent_id payload_hash requested_by tier now w = Some (o, w') →
  let fp := compute_fingerprint operation agent_id payload_hash requested_by tier in
  let q := cw_queue w in
  (∃ id r, q_fingerprint_index q !! fp = Some id ∧ q_records q !! id = Some r ∧ o = Ok (rc_request r) ∧ w' = w) ∨
  (q_fingerprint_index q !! fp ≫= (q_records q !!.) = None ∧
   ∃ request seq, from_operation (derive_request_id (next_audit_sequence (cw_audit w)) operation agent_id payload_hash
       requested_by tier) operation (ac_uuid_string agent_id) payload_hash requested_by tier seq = Some request ∧
     cw_queue w' = with_request fp request now q ∧ (∀ y, o = Ok y → y = request)).
Proof.
  intros E fp q. unfold request_or_get in E. fold fp q in E. destruct (q_fingerprint_index q !! fp ≫= _) as [r|] eqn:Er.
  - left. apply bind_Some in Er as (id & ? & ?). simplify_eq. by exists id, r.
  - right. split; [done|]. destruct (from_operation _ _ _ _ _ _ _) as [request|] eqn:Ef; [|done].
    exists request, (next_audit_sequence (cw_audit w)). split; [done|].
    apply told_keeps in E as [Eq Eo]; [|apply requested_keeps]. split; [|done].
    apply from_operation_fields in Ef as [Ei _]. rewrite Eq. unfold with_request. rewrite Ei. done.
Qed.

Lemma submit_cases request_id approver_id decision allowed sign w o w' :
  submit_decision request_id approver_id decision allowed sign w = Some (o, w') →
  cw_queue w' = cw_queue w ∨
  ∃ r d, q_records (cw_queue w) !! request_id = Some r ∧ approver_id ≠ ar_requested_by (rc_request r) ∧
    approver_id ∈ allowed ∧ approver_id ∉ rc_approvals r ∧ approver_id ∉ rc_denials r ∧
    cw_queue w' = with_record request_id
      (match decision with
       | ApprovalVerdict.Approve => r <| rc_approvals := set_insert approver_id (rc_approvals r) |>
       | ApprovalVerdict.Deny => r <| rc_denials := set_insert approver_id (rc_denials r) |>
       end <| rc_decisions := rc_decisions r ++ [d] |>) (cw_queue w).
Proof.
  unfold submit_decision. destruct (q_records (cw_queue w) !! request_id) as [r|] eqn:Er; [|intros; left; by simplify_eq].
  case_bool_decide as Hs; [intros; left; by simplify_eq|]. case_bool_decide; [intros; left; by simplify_eq|].
  case_bool_decide as Ha; simpl; [|intros; left; by simplify_eq].
  case_bool_decide as H1; simpl; [intros; left; by simplify_eq|].
  case_bool_decide as H2; simpl; [intros; left; by simplify_eq|].
  intros E. right. apply told_keeps in E as [Eq _]; [|apply decision_keeps]. exists r. eexists. split; [done|].
  split; [done|]. split; [done|]. split; [done|]. split; [done|]. rewrite Eq. by destruct decision.
Qed.

Lemma record_state_approved r now q :
  record_state r now q ≠ ApprovalState.Denied → rc_denials r = [].
Proof. unfold record_state. case_bool_decide as H; simpl; [|done]. intros _. by apply nil_length_inv. Qed.

Lemma mark_cases request_id now w o w' :
  mark_executed request_id now w = Some (o, w') →
  (cw_queue w' = cw_queue w ∧
   ((∃ e, o = Err e) ∨ ∃ r, q_records (cw_queue w) !! request_id = Some r ∧ rc_executed r = true)) ∨
  ∃ r, q_records (cw_queue w) !! request_id = Some r ∧ rc_executed r = false ∧ rc_denials r = [] ∧
    (required (cw_queue w) (ar_required_tier (rc_request r)) ≤ length (rc_approvals r))%nat ∧
    cw_queue w' = with_executed request_id r (cw_queue w).
Proof.
  unfold mark_executed. destruct (q_records (cw_queue w) !! request_id) as [r|] eqn:Er; [|intros; left; simplify_eq; eauto].
  destruct (record_state r now (cw_queue w)) eqn:Es; [| |intros; left; simplify_eq; eauto].
  all: assert (Hd : rc_denials r = []) by (eapply record_state_approved; by rewrite Es).
  all: destruct (rc_executed r) eqn:Ex; [intros; left; simplify_eq; eauto|].
  all: fold (required (cw_queue w) (ar_required_tier (rc_request r))).
  all: destruct (_ && _) eqn:Eb; [intros; left; simplify_eq; eauto|]; intros E; right.
  all: apply told_keeps in E as [Eq _]; [|apply executed_keeps]; exists r; split_and!; try done.
  all: apply andb_false_iff in Eb as [Eb%Nat.ltb_ge|Eb%Nat.ltb_ge]; lia.
Qed.
(** ** The queue's invariant *)

(** What is hashed for the fingerprint of a request. *)
Definition request_input (x : ApprovalRequest) : bytes :=
  default [] (cc_value_to_vec (fingerprint_value (ar_operation x) (ar_agent_id x) (ar_payload_hash x)
    (ar_requested_by x) (ar_required_tier x))).
Definition request_text (x : ApprovalRequest) : Prop :=
  text_ok (ar_agent_id x) = true ∧ text_ok (ar_payload_hash x) = true ∧ text_ok (ar_requested_by x) = true.
Record record_ok (id : str) r : Prop := {
  ro_id : ar_id (rc_request r) = id;
  ro_fingerprint : rc_fingerprint r = encode (ac_sha256 (request_input (rc_request r)));
  ro_text : request_text (rc_request r);
  ro_distinct : NoDup (rc_approvals r);
  ro_self : ar_requested_by (rc_request r) ∉ rc_approvals r;
}.
Record queue_ok q : Prop := {
  qo_records : ∀ id r, q_records q !! id = Some r → record_ok id r;
  qo_index : ∀ fp id, q_fingerprint_index q !! fp = Some id →
    ∃ r, q_records q !! id = Some r ∧ rc_fingerprint r = fp ∧ rc_executed r = false;
  qo_indexed : ∀ id r, q_records q !! id = Some r → rc_executed r = false →
    q_fingerprint_index q !! rc_fingerprint r = Some id;
}.
Lemma queue_new path auto timeout : queue_ok (MkQueue ∅ ∅ path auto timeout).
Proof. split; simpl; intros ?? E; by rewrite lookup_empty in E. Qed.

Lemma index_record q fp id : queue_ok q → q_fingerprint_index q !! fp = Some id → is_Some (q_records q !! id).
Proof. intros [_ Hi _] E. destruct (Hi _ _ E) as (r & -> & _). eauto. Qed.
Lemma not_indexed q fp :
  queue_ok q → q_fingerprint_index q !! fp ≫= (q_records q !!.) = None → q_fingerprint_index q !! fp = None.
Proof.
  intros Hq E. destruct (q_fingerprint_index q !! fp) as [id|] eqn:Ei; [|done].
  destruct (index_record _ _ _ Hq Ei) as [r Er]. simpl in E. congruence.
Qed.

(** No other request has the id a new one gets. *)
Definition id_free (id fp : str) q : Prop := ∀ r, q_records q !! id = Some r → rc_fingerprint r = fp.

Lemma with_request_ok q fp request now :
  queue_ok q → id_free (ar_id request) fp q → q_fingerprint_index q !! fp = None →
  fp = encode (ac_sha256 (request_input request)) → request_text request → queue_ok (with_request fp request now q).
Proof.
  intros [Hr Hi Hx] Hfree Hn Efp Htext. split; simpl.
  - intros id r. destruct (decide (id = ar_id request)) as [->|Hne].
    + rewrite lookup_insert_eq. intros [= <-]. split; simpl; try done; [constructor|apply not_elem_of_nil].
    + rewrite lookup_insert_ne by done. apply Hr.
  - intros fp' id. destruct (decide (fp' = fp)) as [->|Hne].
    + rewrite lookup_insert_eq. intros [= <-]. rewrite lookup_insert_eq. eauto.
    + rewrite lookup_insert_ne by done. intros Ei. destruct (Hi _ _ Ei) as (r & Er & Ef & Ee).
      rewrite lookup_insert_ne; [by exists r|]. intros <-. apply Hne. rewrite <- Ef. by apply Hfree.
  - intros id r. destruct (decide (id = ar_id request)) as [->|Hne].
    + rewrite lookup_insert_eq. intros [= <-] _. simpl. by rewrite lookup_insert_eq.
    + rewrite lookup_insert_ne by done. intros Er Ee. rewrite lookup_insert_ne; [by apply Hx|].
      intros E. rewrite E in Hn. by rewrite (Hx _ _ Er Ee) in Hn.
Qed.
Lemma with_record_ok q id r r' :
  queue_ok q → q_records q !! id = Some r → rc_request r' = rc_request r → rc_fingerprint r' = rc_fingerprint r →
  rc_executed r' = rc_executed r → NoDup (rc_approvals r') → ar_requested_by (rc_request r) ∉ rc_approvals r' →
  queue_ok (with_record id r' q).
Proof.
  intros [Hr Hi Hx] Er Eq Ef Ee Hnd Hs. split; simpl.
  - intros id' r0. destruct (decide (id' = id)) as [->|Hne].
    + rewrite lookup_insert_eq. intros [= <-]. destruct (Hr _ _ Er). split; [by rewrite Eq|by rewrite Ef, Eq|by rewrite Eq|done|by rewrite Eq].
    + rewrite lookup_insert_ne by done. apply Hr.
  - intros fp id' Ei. destruct (Hi _ _ Ei) as (r0 & E0 & Ef0 & Ee0). destruct (decide (id' = id)) as [->|Hne].
    + rewrite lookup_insert_eq. exists r'. simplify_eq. split; [done|]. split; [done|congruence].
    + rewrite lookup_insert_ne by done. eauto.
  - intros id' r0. destruct (decide (id' = id)) as [->|Hne].
    + rewrite lookup_insert_eq. intros [= <-] E0. rewrite Ef. apply Hx; [done|congruence].
    + rewrite lookup_insert_ne by done. apply Hx.
Qed.
Lemma with_executed_ok q id r :
  queue_ok q → q_records q !! id = Some r → rc_executed r = false → queue_ok (with_executed id r q).
Proof.
  intros [Hr Hi Hx] Er Ee. pose proof (Hx _ _ Er Ee) as Eidx. split; simpl.
  - intros id' r0. destruct (decide (id' = id)) as [->|Hne].
    + rewrite lookup_insert_eq. intros [= <-]. destruct (Hr _ _ Er). by split.
    + rewrite lookup_insert_ne by done. apply Hr.
  - intros fp id' [Hne Ei]%lookup_delete_Some. destruct (Hi _ _ Ei) as (r0 & E0 & Ef0 & Ee0).
    rewrite lookup_insert_ne; [by exists r0|]. intros <-. simplify_eq.
  - intros id' r0. destruct (decide (id' = id)) as [->|Hne].
    + rewrite lookup_insert_eq. by intros [= <-].
    + rewrite lookup_insert_ne by done. intros E0 Ee0. rewrite lookup_delete_ne; [by apply Hx|].
      intros E. pose proof (Hx _ _ E0 Ee0) as E'. rewrite <- E, Eidx in E'. congruence.
Qed.

Lemma elem_of_insert_str x s l : x ∈ insert_str s l ↔ x = s ∨ x ∈ l.
Proof. induction l as [|y l IH]; simpl; [set_solver|]. destruct (str_leb s y); set_solver. Qed.
Lemma insert_str_NoDup s l : s ∉ l → NoDup l → NoDup (insert_str s l).
Proof.
  intros Hs. induction 1 as [|y l Hy Hl IH]; simpl; [by apply NoDup_singleton|]. apply not_elem_of_cons in Hs as [Hsy Hs].
  destruct (str_leb s y).
  - constructor; [set_solver|]. by constructor.
  - constructor; [|by apply IH]. rewrite elem_of_insert_str. naive_solver.
Qed.
Lemma length_insert_str s l : length (insert_str s l) = S (length l).
Proof. induction l as [|y l IH]; simpl; [done|]. destruct (str_leb s y); simpl; [done|]. by rewrite IH. Qed.
Lemma set_insert_new s l : s ∉ l → set_insert s l = insert_str s l.
Proof. intros H. unfold set_insert. by rewrite bool_decide_false. Qed.
(** ** Enforcement *)

(** The tier an operation is held to: [None] when a policy denies it. *)
Definition gate_tier (rt : ConsentRuntime) (operation : GovernedOperation) (agent_id : Uuid) : option HitlTier :=
  let usual := required_tier operation (cr_policy_engine rt) in
  if critical operation then Some HitlTier.Tier3
  else
    match cr_cedar_engine rt with
    | Some cedar =>
        if has_policies cedar then
          match evaluate cedar (ac_uuid_string agent_id) (GovernedOperation.as_str operation) (lit "*") default_context with
          | PolicyDecision.Allow => Some (if HitlTier.leb HitlTier.Tier2 usual then usual else HitlTier.Tier0)
          | PolicyDecision.Deny _ => None
          | PolicyDecision.RequireApproval tier => Some tier
          end
        else Some usual
    | None => Some usual
    end.

Lemma after_append {X} agent_id event_type payload (k : M X) w o w' :
  (let! _ := append agent_id event_type payload in k) w = Some (o, w') →
  (∃ e, o = Err e ∧ cw_queue w' = cw_queue w) ∨ ∃ w1, cw_queue w1 = cw_queue w ∧ k w1 = Some (o, w').
Proof.
  unfold mbind_m. destruct (append _ _ _ w) as [[[u|e] w1]|] eqn:E; [| |done]; apply append_keeps in E; intros H.
  - right. eauto.
  - left. simplify_eq. eauto.
Qed.
Lemma enforce_gate rt operation agent_id payload clock w o w' :
  enforce_operation rt operation agent_id payload clock w = Some (o, w') →
  ((∃ e, o = Err e) ∧ cw_queue w' = cw_queue w) ∨
  (gate_tier rt operation agent_id = Some HitlTier.Tier0 ∧ cw_queue w' = cw_queue w) ∨
  ∃ tier w1, gate_tier rt operation agent_id = Some tier ∧ tier ≠ HitlTier.Tier0 ∧ cw_queue w1 = cw_queue w ∧
    enforce_with_tier rt operation agent_id payload tier clock w1 = Some (o, w').
Proof.
  assert (Ht : ∀ tier w1, gate_tier rt operation agent_id = Some tier → cw_queue w1 = cw_queue w →
    enforce_with_tier rt operation agent_id payload tier clock w1 = Some (o, w') →
    (gate_tier rt operation agent_id = Some HitlTier.Tier0 ∧ cw_queue w' = cw_queue w) ∨
    ∃ tier w1, gate_tier rt operation agent_id = Some tier ∧ tier ≠ HitlTier.Tier0 ∧ cw_queue w1 = cw_queue w ∧
      enforce_with_tier rt operation agent_id payload tier clock w1 = Some (o, w')).
  { intros tier w1 Hg Hq E. destruct (decide (tier = HitlTier.Tier0)) as [->|Hne]; [left|right; eauto 10].
    unfold enforce_with_tier, ret_m in E. simplify_eq. done. }
  unfold enforce_operation. unfold gate_tier in *. destruct (critical operation); [intros E; right; by eapply Ht|].
  destruct (cr_cedar_engine rt) as [cedar|]; [|intros E; right; by eapply Ht].
  destruct (has_policies cedar); [|intros E; right; by eapply Ht].
  destruct (evaluate _ _ _ _ _).
  - destruct (HitlTier.leb _ _); intros [(e & ? & ?)|(w1 & Hq & E)]%after_append; [left; eauto|right; by eapply Ht|left; eauto|].
    right. left. unfold ret_m in E. by simplify_eq.
  - unfold err_m. intros. left. simplify_eq. eauto.
  - intros E. right. by eapply Ht.
Qed.

(** The request an enforcement finds or makes. *)
Record asked (fp : str) q q1 (id : str) r : Prop := {
  ak_index : q_fingerprint_index q1 !! fp = Some id;
  ak_record : q_records q1 !! id = Some r;
  ak_made : q1 = q ∨ q_fingerprint_index q !! fp = None ∧ rc_approvals r = [] ∧
    ∃ now, q1 = with_request fp (rc_request r) now q;
  ak_ok : queue_ok q1;
}.
Definition ids_free (operation : GovernedOperation) (agent_id : Uuid) (payload_hash requested_by : str) (tier : HitlTier) q
    : Prop :=
  ∀ seq, id_free (derive_request_id seq operation agent_id payload_hash requested_by tier)
           (compute_fingerprint operation agent_id payload_hash requested_by tier) q.

Lemma text_of_encode b : digest_bytes b → text_ok (encode b) = true.
Proof.
  intros [_ Hb]. apply forallb_forall. intros c Hc. apply list_elem_of_In in Hc. pose proof (encode_ascii _ Hb) as Ha.
  unfold is_ascii in Ha. rewrite Forall_forall in Ha. specialize (Ha c Hc). lia.
Qed.
Lemma request_asked operation agent_id payload_hash requested_by tier now w o w' :
  text_ok payload_hash = true → text_ok requested_by = true →
  queue_ok (cw_queue w) → ids_free operation agent_id payload_hash requested_by tier (cw_queue w) →
  request_or_get operation agent_id payload_hash requested_by tier now w = Some (o, w') →
  ∃ id r, asked (compute_fingerprint operation agent_id payload_hash requested_by tier) (cw_queue w) (cw_queue w') id r ∧
    ∀ y, o = Ok y → y = rc_request r.
Proof.
  intros Hpt Hbt Hq Hfree E. apply request_cases in E as [(id & r & Ei & Er & -> & ->)|(Hn & x & seq & Ex & Eq & Eo)].
  - exists id, r. split; [|by intros y [= <-]]. split; [done|done|by left|done].
  - apply not_indexed in Hn; [|done]. pose proof (from_operation_fields _ _ _ _ _ _ _ _ Ex) as (Hi & Ho & Ha & Hp & Hb & Ht).
    set (fp := compute_fingerprint _ _ _ _ _) in *. exists (ar_id x), (MkRecord x [] [] [] false fp now). split; [|done].
    rewrite Eq. split; simpl; rewrite ?lookup_insert_eq; [done|done|eauto|].
    apply with_request_ok; [done| |done|..]; [rewrite Hi; by apply Hfree| |].
    + unfold request_input. rewrite Ho, Ha, Hp, Hb, Ht. done.
    + split; [rewrite Ha; apply Hlaws|by rewrite Hp, Hb].
Qed.

Lemma enforce_cases rt operation agent_id payload tier clock w o w' :
  text_ok (cr_requester_id rt) = true → tier ≠ HitlTier.Tier0 → queue_ok (cw_queue w) →
  ids_free operation agent_id (hash_payload payload) (cr_requester_id rt) tier (cw_queue w) →
  enforce_with_tier rt operation agent_id payload tier clock w = Some (o, w') →
  ∃ q1 id r, asked (compute_fingerprint operation agent_id (hash_payload payload) (cr_requester_id rt) tier)
      (cw_queue w) q1 id r ∧
    (((∃ e, o = Err e) ∧ cw_queue w' = q1) ∨
     (rc_denials r = [] ∧ (required q1 (ar_required_tier (rc_request r)) ≤ length (rc_approvals r))%nat ∧
      ar_payload_hash (rc_request r) = hash_payload payload ∧ cw_queue w' = with_executed id r q1)).
Proof.
  intros Hbt Ht Hq Hfree E. unfold enforce_with_tier in E.
  assert (E' : ∃ o1 w1, request_or_get operation agent_id (hash_payload payload) (cr_requester_id rt) tier (clock 0%nat) w =
      Some (o1, w1) ∧
    (((∃ e, o = Err e) ∧ w' = w1) ∨ ∃ x, o1 = Ok x ∧ ar_payload_hash x = hash_payload payload ∧
       mark_executed (ar_id x) (clock 2%nat) w1 = Some (o, w'))).
  { destruct tier; [done| | |]; unfold mbind_m in E;
      (destruct (request_or_get _ _ _ _ _ _ w) as [[[x|e] w1]|] eqn:Er; [| |done];
       [|simplify_eq; eexists _, _; split; [done|left; eauto]]); (eexists _, _; split; [done|]);
      (case_bool_decide as Hp; simpl in E; [|unfold err_m in E; simplify_eq; left; eauto]).
    1: right; eauto.
    all: unfold of_result, approval_state in E; destruct (q_records (cw_queue w1) !! ar_id x) as [r|];
      [|simplify_eq; left; eauto]; destruct (record_state r _ _); unfold err_m in E; simplify_eq;
      first [left; by eauto|right; by eauto]. }
  destruct E' as (o1 & w1 & Er & Hcase). destruct (request_asked _ _ _ _ _ _ _ _ _ (text_of_encode _ (cl_sha Hlaws _)) Hbt Hq Hfree Er) as (id & r & Hak & Ho1).
  exists (cw_queue w1), id, r. split; [done|]. destruct Hcase as [[He ->]|(x & -> & Hp & E')]; [by left|].
  rewrite (Ho1 x eq_refl) in Hp, E'. destruct Hak as [Hi Hr _ Hok]. rewrite (ro_id _ _ (qo_records _ Hok _ _ Hr)) in E'.
  destruct (qo_index _ Hok _ _ Hi) as (r0 & Er0 & _ & Hx0). assert (r0 = r) as -> by congruence.
  apply mark_cases in E' as [[Hq' [He|(r1 & Er1 & Hx1)]]|(r1 & Er1 & _ & Hd & Hreq & Hq')]; [by left|congruence|].
  right. assert (r1 = r) as -> by congruence. done.
Qed.
(** ** Histories *)

(** The approvals the open request of a fingerprint holds. *)
Definition held (fp : str) q : nat :=
  match q_fingerprint_index q !! fp ≫= (q_records q !!.) with Some r => length (rc_approvals r) | None => 0 end.

(** A runtime and its world, every [approve] by someone the policy then allowed for a
    request of someone else, as fingerprint, request and approver, and every operation let
    through, with the approvals its request held. *)
Record CState := MkCState {
  cs_rt : ConsentRuntime;
  cs_w : ConsentWorld A F;
  cs_marks : list (str * str * str);
  cs_spent : list (str * nat);
}.
Definition fingerprint_of (s : CState) (operation : GovernedOperation) (agent_id : Uuid) (payload : bytes) (tier : HitlTier)
    : str :=
  compute_fingerprint operation agent_id (hash_payload payload) (cr_requester_id (cs_rt s)) tier.
Definition approval_mark (rt : ConsentRuntime) (request_id approver_id : str) q : list (str * str * str) :=
  match q_records q !! request_id with
  | Some r =>
      if bool_decide (approver_id ∈ allowed_approvers (ar_operation (rc_request r)) (cr_policy_engine rt)) &&
         negb (bool_decide (approver_id = ar_requested_by (rc_request r)))
      then [(rc_fingerprint r, request_id, approver_id)] else []
  | None => []
  end.
Definition spent_by (s : CState) (operation : GovernedOperation) (agent_id : Uuid) (payload : bytes) (o : result unit ConsentError)
    : list (str * nat) :=
  match o, gate_tier (cs_rt s) operation agent_id with
  | Ok _, Some tier =>
      if decide (tier = HitlTier.Tier0) then []
      else let fp := fingerprint_of s operation agent_id payload tier in [(fp, held fp (cw_queue (cs_w s)))]
  | _, _ => []
  end.

(** What happens to them: operations asked for, decisions, policies changed, other users of
    the trail. A new request never takes the id of another. *)
Inductive cstep : CState → CState → Prop :=
| cs_enforce operation agent_id payload clock o w' s :
    (∀ tier, gate_tier (cs_rt s) operation agent_id = Some tier →
       ids_free operation agent_id (hash_payload payload) (cr_requester_id (cs_rt s)) tier (cw_queue (cs_w s))) →
    enforce_operation (cs_rt s) operation agent_id payload clock (cs_w s) = Some (o, w') →
    cstep s (MkCState (cs_rt s) w' (cs_marks s) (cs_spent s ++ spent_by s operation agent_id payload o))
| cs_approve request_id approver_id sign o w' s :
    approve (cs_rt s) request_id approver_id sign (cs_w s) = Some (o, w') →
    cstep s (MkCState (cs_rt s) w' (cs_marks s ++ approval_mark (cs_rt s) request_id approver_id (cw_queue (cs_w s))) (cs_spent s))
| cs_deny request_id approver_id sign o w' s :
    deny (cs_rt s) request_id approver_id sign (cs_w s) = Some (o, w') →
    cstep s (MkCState (cs_rt s) w' (cs_marks s) (cs_spent s))
| cs_policy engine cedar s :
    cstep s (MkCState (MkRuntime engine (cr_requester_id (cs_rt s)) cedar) (cs_w s) (cs_marks s) (cs_spent s))
| cs_elsewhere a f s :
    cstep s (MkCState (cs_rt s) (MkConsentWorld A F (cw_queue (cs_w s)) a f) (cs_marks s) (cs_spent s)).

Definition marked (fp : str) (marks : list (str * str * str)) : nat := length (filter (λ m, m.1.1 = fp) marks).
Definition spent_on (fp : str) (spent : list (str * nat)) : nat := sum_list (filter (λ x, x.1 = fp) spent).*2.
Record cstate_ok (s : CState) : Prop := {
  so_text : text_ok (cr_requester_id (cs_rt s)) = true;
  so_queue : queue_ok (cw_queue (cs_w s));
  so_marks : ∀ id r approver, q_records (cw_queue (cs_w s)) !! id = Some r → approver ∈ rc_approvals r →
    (rc_fingerprint r, id, approver) ∈ cs_marks s;
  so_spent : ∀ fp, (spent_on fp (cs_spent s) + held fp (cw_queue (cs_w s)) ≤ marked fp (cs_marks s))%nat;
}.

Lemma spent_app fp l1 l2 : spent_on fp (l1 ++ l2) = (spent_on fp l1 + spent_on fp l2)%nat.
Proof. unfold spent_on. by rewrite filter_app, fmap_app, sum_list_with_app. Qed.
Lemma marked_app fp l1 l2 : marked fp (l1 ++ l2) = (marked fp l1 + marked fp l2)%nat.
Proof. unfold marked. by rewrite filter_app, length_app. Qed.

(** An enforcement, seen from the queue. *)
Lemma enforce_step rt operation agent_id payload clock w o w' :
  text_ok (cr_requester_id rt) = true → queue_ok (cw_queue w) →
  (∀ tier, gate_tier rt operation agent_id = Some tier →
     ids_free operation agent_id (hash_payload payload) (cr_requester_id rt) tier (cw_queue w)) →
  enforce_operation rt operation agent_id payload clock w = Some (o, w') →
  ((∃ e, o = Err e) ∧ cw_queue w' = cw_queue w) ∨
  (gate_tier rt operation agent_id = Some HitlTier.Tier0 ∧ cw_queue w' = cw_queue w) ∨
  ∃ tier q1 id r, gate_tier rt operation agent_id = Some tier ∧ tier ≠ HitlTier.Tier0 ∧
    asked (compute_fingerprint operation agent_id (hash_payload payload) (cr_requester_id rt) tier) (cw_queue w) q1 id r ∧
    (((∃ e, o = Err e) ∧ cw_queue w' = q1) ∨
     (rc_denials r = [] ∧ (required q1 (ar_required_tier (rc_request r)) ≤ length (rc_approvals r))%nat ∧
      ar_payload_hash (rc_request r) = hash_payload payload ∧ cw_queue w' = with_executed id r q1)).
Proof.
  intros Hbt Hq Hfree E. apply enforce_gate in E as [?|[?|(tier & w1 & Hg & Ht & Eq & E)]]; [by left|by right; left|right; right].
  rewrite <- Eq in *. destruct (enforce_cases _ _ _ _ _ _ _ _ _ Hbt Ht Hq (Hfree tier Hg) E) as (q1 & id & r & ? & ?).
  by exists tier, q1, id, r.
Qed.
Lemma asked_held fp q q1 id r fp' : asked fp q q1 id r → held fp' q1 = held fp' q ∧ held fp q = length (rc_approvals r).
Proof.
  intros [Hi Hr [->|(Hn & Ha & now & ->)] Hok].
  - split; [done|]. unfold held. by rewrite Hi; simpl; rewrite Hr.
  - unfold held. rewrite Hn, Ha. split; [|done]. simpl. destruct (decide (fp' = fp)) as [->|Hne].
    + rewrite lookup_insert_eq, Hn. simpl. by rewrite lookup_insert_eq.
    + rewrite lookup_insert_ne by done. destruct (q_fingerprint_index q !! fp') as [id'|] eqn:Ei; [|done]. simpl.
      destruct (decide (id' = ar_id (rc_request r))) as [->|Hid]; [|by rewrite lookup_insert_ne].
      exfalso. assert (q_fingerprint_index (with_request fp (rc_request r) now q) !! fp' = Some (ar_id (rc_request r))) as E
        by (simpl; by rewrite lookup_insert_ne).
      destruct (qo_index _ Hok _ _ E) as (r' & Er' & Ef' & _). simpl in Er'. rewrite lookup_insert_eq in Er'. simplify_eq.
Qed.
Lemma executed_held q id r fp :
  queue_ok q → q_records q !! id = Some r → rc_executed r = false →
  held fp (with_executed id r q) = if decide (fp = rc_fingerprint r) then 0%nat else held fp q.
Proof.
  intros Hq Hr Hx. unfold held. simpl. destruct (decide (fp = rc_fingerprint r)) as [->|Hne].
  - by rewrite lookup_delete_eq.
  - rewrite lookup_delete_ne by done. destruct (q_fingerprint_index q !! fp) as [id'|] eqn:Ei; [|done]. simpl.
    rewrite lookup_insert_ne; [done|]. intros <-. destruct (qo_index _ Hq _ _ Ei) as (r' & Er' & Ef' & _). simplify_eq.
Qed.
(** A decision, seen from the queue. *)
Lemma decide_step rt request_id approver_id decision sign w o w' :
  decide_request rt request_id approver_id decision sign w = Some (o, w') →
  cw_queue w' = cw_queue w ∨
  ∃ r d, q_records (cw_queue w) !! request_id = Some r ∧
    approval_mark rt request_id approver_id (cw_queue w) = [(rc_fingerprint r, request_id, approver_id)] ∧
    approver_id ≠ ar_requested_by (rc_request r) ∧ approver_id ∉ rc_approvals r ∧
    cw_queue w' = with_record request_id
      (match decision with
       | ApprovalVerdict.Approve => r <| rc_approvals := insert_str approver_id (rc_approvals r) |>
       | ApprovalVerdict.Deny => r <| rc_denials := insert_str approver_id (rc_denials r) |>
       end <| rc_decisions := rc_decisions r ++ [d] |>) (cw_queue w).
Proof.
  unfold decide_request, approval_mark. destruct (q_records (cw_queue w) !! request_id) as [r|] eqn:Er; [|left; by simplify_eq].
  unfold mbind_m. intros E. destruct (submit_decision _ _ _ _ _ w) as [[o1 w1]|] eqn:Es; [|done].
  assert (cw_queue w' = cw_queue w1) as -> by (destruct o1; unfold ret_m in E; by simplify_eq). clear E.
  apply submit_cases in Es as [?|(r' & d & Er' & Hs & Ha & H1 & H2 & Eq)]; [by left|right].
  assert (r' = r) as -> by congruence. exists r, d. rewrite !bool_decide_true, bool_decide_false by done.
  rewrite !set_insert_new in Eq by done. done.
Qed.
Lemma record_held q id r r' fp :
  queue_ok q → q_records q !! id = Some r → rc_executed r' = rc_executed r →
  held fp (with_record id r' q) =
    (if decide (fp = rc_fingerprint r ∧ rc_executed r = false) then length (rc_approvals r') else held fp q) .
Proof.
  intros Hq Hr Hx. unfold held. simpl. destruct (decide _) as [[-> Hf]|Hn].
  - rewrite (qo_indexed _ Hq _ _ Hr Hf). simpl. by rewrite lookup_insert_eq.
  - destruct (q_fingerprint_index q !! fp) as [id'|] eqn:Ei; [|done]. simpl. rewrite lookup_insert_ne; [done|].
    intros <-. apply Hn. destruct (qo_index _ Hq _ _ Ei) as (r0 & Er & ? & ?). by simplify_eq.
Qed.
Lemma spent_one fp fp' n : spent_on fp [(fp', n)] = if decide (fp' = fp) then n else 0%nat.
Proof. unfold spent_on. rewrite filter_cons. simpl. destruct (decide (fp' = fp)); simpl; lia. Qed.
Lemma marked_one fp fp' id approver : marked fp [(fp', id, approver)] = if decide (fp' = fp) then 1%nat else 0%nat.
Proof. unfold marked. rewrite filter_cons. simpl. by destruct (decide (fp' = fp)). Qed.

Lemma asked_marks fp q q1 id r (marks : list (str * str * str)) :
  asked fp q q1 id r →
  (∀ id r approver, q_records q !! id = Some r → approver ∈ rc_approvals r → (rc_fingerprint r, id, approver) ∈ marks) →
  ∀ id r approver, q_records q1 !! id = Some r → approver ∈ rc_approvals r → (rc_fingerprint r, id, approver) ∈ marks.
Proof.
  intros [_ Hr [->|(_ & _ & now & ->)] _] Hm; [done|]. intros id' r' approver. simpl.
  destruct (decide (id' = ar_id (rc_request r))) as [->|Hne]; [rewrite lookup_insert_eq|rewrite lookup_insert_ne by done; by apply Hm].
  intros [= <-]. simpl. by intros ?%elem_of_nil.
Qed.

Lemma enforced_ok s operation agent_id payload clock o w' :
  cstate_ok s →
  (∀ tier, gate_tier (cs_rt s) operation agent_id = Some tier →
     ids_free operation agent_id (hash_payload payload) (cr_requester_id (cs_rt s)) tier (cw_queue (cs_w s))) →
  enforce_operation (cs_rt s) operation agent_id payload clock (cs_w s) = Some (o, w') →
  cstate_ok (MkCState (cs_rt s) w' (cs_marks s) (cs_spent s ++ spent_by s operation agent_id payload o)).
Proof.
  intros [Hbt Hq Hm Hs] Hfree E. apply enforce_step in E; [|done|done|done].
  destruct E as [[[e ->] Eq]|[[Hg Eq]|(tier & q1 & id & r & Hg & Ht & Hak & Hcase)]].
  - split; simpl; rewrite ?Eq, ?app_nil_r; done.
  - unfold spent_by. rewrite Hg. rewrite decide_True by done. destruct o; split; simpl; rewrite ?Eq, ?app_nil_r; done.
  - pose proof (ak_ok _ _ _ _ _ Hak) as Hq1. pose proof (ak_record _ _ _ _ _ Hak) as Hr.
    destruct (qo_index _ Hq1 _ _ (ak_index _ _ _ _ _ Hak)) as (r0 & Er0 & Efp & Hx). assert (r0 = r) as -> by congruence. clear Er0.
    pose proof (asked_marks _ _ _ _ _ _ Hak Hm) as Hm1. destruct Hcase as [[[e ->] Eq]|(Hd & Hreq & Hp & Eq)].
    + split; simpl; rewrite ?Eq; [done|done|done|]. intros fp. rewrite app_nil_r. destruct (asked_held _ _ _ _ _ fp Hak) as [-> _]. done.
    + split; simpl; rewrite ?Eq; [done|by apply with_executed_ok| |].
      * intros id' r' approver. simpl. destruct (decide (id' = id)) as [->|Hne].
        -- rewrite lookup_insert_eq. intros [= <-]. simpl. by apply Hm1.
        -- rewrite lookup_insert_ne by done. by apply Hm1.
      * intros fp. rewrite spent_app, executed_held by done. destruct (asked_held _ _ _ _ _ fp Hak) as [-> Hheld].
        specialize (Hs fp). assert (spent_on fp (spent_by s operation agent_id payload o) ≤
          if decide (fp = rc_fingerprint r) then held fp (cw_queue (cs_w s)) else 0)%nat as Hsp;
          [|destruct (decide (fp = rc_fingerprint r)); simpl in Hs; lia].
        unfold spent_by. rewrite Hg. destruct o; [|unfold spent_on; simpl; lia]. rewrite decide_False by done.
        rewrite spent_one. unfold fingerprint_of. rewrite <- Efp. destruct (decide (rc_fingerprint r = fp)) as [->|Hne]; [|lia].
        by rewrite decide_True.
Qed.
Lemma consent_approved_ok s request_id approver_id sign o w' :
  cstate_ok s → approve (cs_rt s) request_id approver_id sign (cs_w s) = Some (o, w') →
  cstate_ok (MkCState (cs_rt s) w' (cs_marks s ++ approval_mark (cs_rt s) request_id approver_id (cw_queue (cs_w s))) (cs_spent s)).
Proof.
  intros [Hbt Hq Hm Hs] E. apply decide_step in E as [Eq|(r & d & Hr & -> & Hself & Hnew & Eq)].
  - split; simpl; rewrite ?Eq; [done|done|intros; apply elem_of_app; left; by apply Hm|].
    intros fp. rewrite marked_app. specialize (Hs fp). lia.
  - destruct (qo_records _ Hq _ _ Hr) as [_ _ _ Hnd Hrself]. split; simpl; rewrite ?Eq.
    + done.
    + eapply with_record_ok; [done|exact Hr|done..| |]; simpl; [by apply insert_str_NoDup|].
      rewrite elem_of_insert_str. intros [?|?]; congruence.
    + intros id' r' approver. simpl. rewrite elem_of_app. destruct (decide (id' = request_id)) as [->|Hne].
      * rewrite lookup_insert_eq. intros [= <-]. simpl. rewrite elem_of_insert_str. intros [->|Hin]; [right; by left|left; by apply Hm].
      * rewrite lookup_insert_ne by done. intros. left. by apply Hm.
    + intros fp. rewrite marked_app, marked_one. erewrite record_held; [|done|done|done]. specialize (Hs fp).
      destruct (decide (fp = rc_fingerprint r ∧ _)) as [[-> Hx]|Hn]; [|destruct (decide _); lia].
      simpl. rewrite decide_True, length_insert_str by done. unfold held in Hs. rewrite (qo_indexed _ Hq _ _ Hr Hx) in Hs.
      simpl in Hs. rewrite Hr in Hs. lia.
Qed.
Lemma denied_ok s request_id approver_id sign o w' :
  cstate_ok s → deny (cs_rt s) request_id approver_id sign (cs_w s) = Some (o, w') →
  cstate_ok (MkCState (cs_rt s) w' (cs_marks s) (cs_spent s)).
Proof.
  intros [Hbt Hq Hm Hs] E. apply decide_step in E as [Eq|(r & d & Hr & _ & _ & _ & Eq)].
  - split; simpl; rewrite ?Eq; done.
  - destruct (qo_records _ Hq _ _ Hr) as [_ _ _ Hnd Hrself]. split; simpl; rewrite ?Eq.
    + done.
    + by eapply with_record_ok; [done|exact Hr|..].
    + intros id' r' approver. simpl. destruct (decide (id' = request_id)) as [->|Hne].
      * rewrite lookup_insert_eq. intros [= <-]. simpl. by apply Hm.
      * rewrite lookup_insert_ne by done. by apply Hm.
    + intros fp. erewrite record_held; [|done|done|done]. specialize (Hs fp).
      destruct (decide (fp = rc_fingerprint r ∧ _)) as [[-> Hx]|Hn]; [|done]. unfold held in Hs.
      rewrite (qo_indexed _ Hq _ _ Hr Hx) in Hs. simpl in *. rewrite Hr in Hs. done.
Qed.
Lemma consent_step_ok s s' : cstate_ok s → cstep s s' → cstate_ok s'.
Proof.
  intros Hok Hs. destruct Hs; [by eapply enforced_ok|by eapply consent_approved_ok|by eapply denied_ok|by destruct Hok|by destruct Hok].
Qed.

(** A runtime just made: any policies, an empty queue in memory or on a file. *)
Definition fresh_state (s : CState) : Prop :=
  text_ok (cr_requester_id (cs_rt s)) = true ∧ q_records (cw_queue (cs_w s)) = ∅ ∧ q_fingerprint_index (cw_queue (cs_w s)) = ∅ ∧ cs_marks s = [] ∧ cs_spent s = [].
Lemma consent_fresh_ok s : fresh_state s → cstate_ok s.
Proof.
  intros (Ht & Hr & Hi & Hm & Hs). destruct s as [rt [[records index path auto timeout] a f] marks spent]. simpl in *. subst.
  split; simpl; [done|apply queue_new|intros ??? E; by rewrite lookup_empty in E|]. intros fp. unfold held. simpl. by rewrite lookup_empty.
Qed.
Lemma consent_reachable s0 s : fresh_state s0 → rtc cstep s0 s → cstate_ok s.
Proof. intros Hf%consent_fresh_ok H. induction H as [|? ? ? Hst _ IH]; [done|]. apply IH. by eapply consent_step_ok. Qed.
(** ** What holds *)

Definition same_request (x : ApprovalRequest) (operation : GovernedOperation) (agent_id : Uuid) (payload_hash requested_by : str)
    (tier : HitlTier) : Prop :=
  ar_operation x = operation ∧ ar_agent_id x = ac_uuid_string agent_id ∧ ar_payload_hash x = payload_hash ∧
  ar_requested_by x = requested_by ∧ ar_required_tier x = tier.
Definition fingerprint_input (operation : GovernedOperation) (agent_id : Uuid) (payload_hash requested_by : str) (tier : HitlTier)
    : bytes :=
  default [] (cc_value_to_vec (fingerprint_value operation (ac_uuid_string agent_id) payload_hash requested_by tier)).

Lemma operation_code_inj o1 o2 : GovernedOperation.as_str o1 = GovernedOperation.as_str o2 → o1 = o2.
Proof. destruct o1, o2; intros E; try reflexivity; vm_compute in E; discriminate. Qed.
Lemma tier_code_inj t1 t2 : HitlTier.as_str t1 = HitlTier.as_str t2 → t1 = t2.
Proof. destruct t1, t2; intros E; try reflexivity; vm_compute in E; discriminate. Qed.
Lemma fingerprint_fields o1 a1 p1 b1 t1 :
  fingerprint_value o1 a1 p1 b1 t1 =
  flat [(lit "agent_id", a1); (lit "operation", GovernedOperation.as_str o1); (lit "payload_hash", p1);
        (lit "requested_by", b1); (lit "required_tier", HitlTier.as_str t1)].
Proof.
  unfold fingerprint_value. generalize (GovernedOperation.as_str o1) (HitlTier.as_str t1). intros. vm_compute. reflexivity.
Qed.
Lemma fingerprint_text o a p b t :
  text_ok a = true → text_ok p = true → text_ok b = true → value_ok (fingerprint_value o a p b t) = true.
Proof.
  intros Ha Hp Hb. rewrite fingerprint_fields. unfold flat. cbn [fmap list_fmap value_ok forallb fst snd]. rewrite Ha, Hp, Hb.
  assert (text_ok (GovernedOperation.as_str o) = true) as -> by (destruct o; vm_compute; reflexivity).
  assert (text_ok (HitlTier.as_str t) = true) as -> by (destruct t; vm_compute; reflexivity).
  vm_compute. reflexivity.
Qed.

Lemma fingerprint_binds x operation agent_id payload_hash requested_by tier :
  request_text x → text_ok payload_hash = true → text_ok requested_by = true →
  encode (ac_sha256 (request_input x)) = compute_fingerprint operation agent_id payload_hash requested_by tier →
  same_request x operation agent_id payload_hash requested_by tier ∨
  clash ac_sha256 (request_input x) (fingerprint_input operation agent_id payload_hash requested_by tier).
Proof.
  intros (Ha & Hp & Hb) Hp' Hb' E. apply encode_inj, clash_or_same in E as [E|?]; [left|by right|apply Hlaws..].
  unfold request_input in E. pose proof (fingerprint_text (ar_operation x) _ _ _ (ar_required_tier x) Ha Hp Hb) as V1.
  pose proof (fingerprint_text operation _ _ _ tier (cl_uuid Hlaws agent_id) Hp' Hb') as V2.
  rewrite !fingerprint_fields in *.
  destruct (cl_json Hlaws _ V1) as [b1 E1], (cl_json Hlaws _ V2) as [b2 E2]. rewrite E1, E2 in E. simpl in E. subst b2.
  pose proof (cl_inj Hlaws _ _ _ V1 V2 E1 E2) as Ev. injection Ev as Ea Eo Ep Eb Et.
  split_and!; [by apply operation_code_inj|done..|by apply tier_code_inj].
Qed.

(** C7. The gate. In any history of a consent runtime, with policies changed at will, an
    operation let through was held to a tier, [Tier3] for the critical ones whatever the
    policies say. Above [Tier0] its request is marked executed, leaves the index and was
    denied by nobody; its approvals, as many as the tier needs or more, are by different
    people, none of them the requester, and each made [approve] while the policy allowed
    them; and the request is for this operation, agent, payload, requester and tier, unless
    what is hashed for the two fingerprints differs and collides in SHA-256. *)
Theorem consent_gate s0 s operation agent_id payload clock w' :
  fresh_state s0 → rtc cstep s0 s →
  (∀ tier, gate_tier (cs_rt s) operation agent_id = Some tier →
     ids_free operation agent_id (hash_payload payload) (cr_requester_id (cs_rt s)) tier (cw_queue (cs_w s))) →
  enforce_operation (cs_rt s) operation agent_id payload clock (cs_w s) = Some (Ok tt, w') →
  ∃ tier, gate_tier (cs_rt s) operation agent_id = Some tier ∧ (critical operation = true → tier = HitlTier.Tier3) ∧
    (tier ≠ HitlTier.Tier0 →
     let fp := fingerprint_of s operation agent_id payload tier in
     q_fingerprint_index (cw_queue w') !! fp = None ∧
     ∃ id r, q_records (cw_queue w') !! id = Some r ∧ rc_executed r = true ∧ rc_denials r = [] ∧
       NoDup (rc_approvals r) ∧ ar_requested_by (rc_request r) ∉ rc_approvals r ∧
       (∀ approver, approver ∈ rc_approvals r → (fp, id, approver) ∈ cs_marks s) ∧
       (same_request (rc_request r) operation agent_id (hash_payload payload) (cr_requester_id (cs_rt s)) tier ∧
        (required (cw_queue w') tier ≤ length (rc_approvals r))%nat ∨
        clash ac_sha256 (request_input (rc_request r))
          (fingerprint_input operation agent_id (hash_payload payload) (cr_requester_id (cs_rt s)) tier))).
Proof.
  intros Hf Hr Hfree E. pose proof (consent_reachable _ _ Hf Hr) as [Hbt Hq Hm _].
  assert (Hcrit : ∀ tier, gate_tier (cs_rt s) operation agent_id = Some tier → critical operation = true → tier = HitlTier.Tier3)
    by (unfold gate_tier; intros tier Hg Hc; rewrite Hc in Hg; by simplify_eq).
  apply enforce_step in E as [[[e [=]] _]|[[Hg Eq]|(tier & q1 & id & r & Hg & Ht & Hak & Hcase)]]; [| |done..].
  { exists HitlTier.Tier0. split; [done|]. split; [by apply Hcrit|done]. }
  exists tier. split; [done|]. split; [by apply Hcrit|]. intros _ fp. destruct Hcase as [[[e [=]] _]|(Hd & Hreq & Hp & Eq)].
  pose proof (ak_ok _ _ _ _ _ Hak) as Hq1. pose proof (ak_record _ _ _ _ _ Hak) as Hrec.
  destruct (qo_index _ Hq1 _ _ (ak_index _ _ _ _ _ Hak)) as (r0 & Er0 & Efp & Hx). assert (r0 = r) as -> by congruence.
  destruct (qo_records _ Hq1 _ _ Hrec) as [_ Hfp Htext Hnd Hself]. rewrite Eq. split; [simpl; by rewrite Efp, lookup_delete_eq|].
  exists id, (r <| rc_executed := true |>). split; [simpl; by rewrite lookup_insert_eq|]. simpl.
  split; [done|]. split; [done|]. split; [done|]. split; [done|]. split.
  { intros approver Hin. unfold fp, fingerprint_of. rewrite <- Efp. exact (asked_marks _ _ _ _ _ _ Hak Hm _ _ _ Hrec Hin). }
  destruct (fingerprint_binds (rc_request r) operation agent_id (hash_payload payload) (cr_requester_id (cs_rt s)) tier)
    as [Hsame|Hcl]; [done|apply text_of_encode, Hlaws|done|by rewrite <- Hfp, Efp|left|by right].
  split; [done|]. destruct Hsame as (_ & _ & _ & _ & <-). exact Hreq.
Qed.

(** C30. Approvals are spent once. For any fingerprint, the approvals that operations let
    through were counted with, together with those the open request holds, are no more
    than the [approve] calls allowed approvers made for its requests. *)
Theorem approvals_spent_once s0 s fp :
  fresh_state s0 → rtc cstep s0 s →
  (spent_on fp (cs_spent s) + held fp (cw_queue (cs_w s)) ≤ marked fp (cs_marks s))%nat.
Proof. intros Hf Hr. by apply (consent_reachable _ _ Hf Hr). Qed.

(** *** Denials *)

Record denied_request (fp id : str) q : Prop := {
  dr_index : q_fingerprint_index q !! fp = Some id;
  dr_record : ∃ r, q_records q !! id = Some r ∧ rc_denials r ≠ [];
}.
Lemma insert_str_nonempty x l : insert_str x l ≠ [].
Proof. destruct l; simpl; [done|]. by destruct (str_leb x l). Qed.
Lemma denied_asked fp id q fp' q1 id' r :
  queue_ok q → denied_request fp id q → asked fp' q q1 id' r → denied_request fp id q1 ∧ (fp' = fp → id' = id ∧ q1 = q).
Proof.
  intros Hq [Hi (r0 & Hr0 & Hd)] Hak. pose proof Hak as [Hi' Hr' [->|(Hn & _ & now & ->)] Hok].
  - split; [by split; eauto|]. intros ->. split; congruence.
  - assert (Hne : fp ≠ fp') by congruence. split; [|congruence]. assert (Hidx : q_fingerprint_index (with_request fp' (rc_request r) now q) !! fp = Some id)
      by (simpl; by rewrite lookup_insert_ne). split; [done|]. exists r0. split; [|done]. simpl.
    rewrite lookup_insert_ne; [done|]. intros <-. destruct (qo_index _ Hok _ _ Hidx) as (r1 & Hr1 & Ef1 & _).
    simpl in Hr1. rewrite lookup_insert_eq in Hr1. by simplify_eq.
Qed.
Lemma denied_record fp id q id' r r' :
  denied_request fp id q → q_records q !! id' = Some r → (rc_denials r ≠ [] → rc_denials r' ≠ []) →
  denied_request fp id (with_record id' r' q).
Proof.
  intros [Hi (r0 & Hr0 & Hd)] Hr Hmono. split; [done|]. simpl. destruct (decide (id = id')) as [->|Hne].
  - rewrite lookup_insert_eq. exists r'. split; [done|]. apply Hmono. congruence.
  - rewrite lookup_insert_ne by done. eauto.
Qed.
Lemma denied_step fp id s s' :
  cstate_ok s → cstep s s' → denied_request fp id (cw_queue (cs_w s)) → denied_request fp id (cw_queue (cs_w s')).
Proof.
  intros [Hbt Hq _ _] Hs Hden.
  destruct Hs as [operation agent_id payload clock o w' s Hfree E|request_id approver_id sign o w' s E
    |request_id approver_id sign o w' s E|engine cedar s|a f s]; simpl in *; try done.
  - apply enforce_step in E as [[_ ->]|[[_ ->]|(tier & q1 & id' & r & _ & _ & Hak & Hcase)]]; [done..| |done|done|done].
    destruct (denied_asked _ _ _ _ _ _ _ Hq Hden Hak) as [Hden1 Hsame].
    destruct Hcase as [[_ ->]|(Hd & _ & _ & ->)]; [done|]. pose proof (ak_ok _ _ _ _ _ Hak) as Hq1.
    pose proof (ak_record _ _ _ _ _ Hak) as Hrec. destruct (qo_index _ Hq1 _ _ (ak_index _ _ _ _ _ Hak)) as (r1 & Er1 & Efp & Hx).
    assert (r1 = r) as -> by congruence. destruct Hden1 as [Hi (r0 & Hr0 & Hd0)].
    assert (Hid : id' ≠ id) by (intros ->; congruence). split; simpl.
    + rewrite lookup_delete_ne; [done|]. intros <-. pose proof (qo_indexed _ Hq1 _ _ Hrec Hx). congruence.
    + rewrite lookup_insert_ne by done. eauto.
  - apply decide_step in E as [->|(r & d & Hr & _ & _ & _ & ->)]; [done|]. by eapply denied_record.
  - apply decide_step in E as [->|(r & d & Hr & _ & _ & _ & ->)]; [done|]. eapply denied_record; [done|done|].
    intros _. simpl. apply insert_str_nonempty.
Qed.

(** C31. A denial is final. Once somebody denied the open request of an operation, the
    same operation for the same agent, payload, requester and tier is never let through
    again, whatever is approved, asked for or changed after. *)
Theorem denial_is_final s0 s s' id operation agent_id payload tier clock w' :
  fresh_state s0 → rtc cstep s0 s → rtc cstep s s' →
  denied_request (fingerprint_of s' operation agent_id payload tier) id (cw_queue (cs_w s)) →
  gate_tier (cs_rt s') operation agent_id = Some tier → tier ≠ HitlTier.Tier0 →
  ids_free operation agent_id (hash_payload payload) (cr_requester_id (cs_rt s')) tier (cw_queue (cs_w s')) →
  enforce_operation (cs_rt s') operation agent_id payload clock (cs_w s') ≠ Some (Ok tt, w').
Proof.
  intros Hf Hr Hr' Hden Hg Ht Hfree E. pose proof (consent_reachable _ _ Hf Hr) as Hok.
  assert (Hok' : cstate_ok s') by (apply (consent_reachable s0); [done|by etrans]).
  set (fp := fingerprint_of s' operation agent_id payload tier) in *.
  assert (Hden' : denied_request fp id (cw_queue (cs_w s'))).
  { clearbody fp. clear -Hok Hr' Hden Hlaws. induction Hr' as [|x y z Hs _ IH]; [done|].
    apply IH; [by eapply denied_step|by eapply consent_step_ok]. }
  destruct Hok' as [Hbt Hq _ _].
  apply enforce_step in E as [[[e [=]] _]|[[Hg' _]|(tier' & q1 & id' & r & Hg' & _ & Hak & Hcase)]]; [congruence| |done|done|].
  2:{ intros tier' Hg'. by assert (tier' = tier) as -> by congruence. }
  assert (tier' = tier) as -> by congruence. destruct Hcase as [[[e [=]] _]|(Hd & _)].
  destruct (denied_asked _ _ _ _ _ _ _ Hq Hden' Hak) as [_ Hsame]. destruct (Hsame eq_refl) as [-> ->].
  destruct Hden' as [_ (r0 & Hr0 & Hd0)]. rewrite (ak_record _ _ _ _ _ Hak) in Hr0. congruence.
Qed.
(** *** Restarts *)

Lemma insert_record_perm kv l : insert_record kv l ≡ₚ kv :: l.
Proof. induction l as [|x l IH]; simpl; [done|]. destruct (str_leb kv.1 x.1); [done|]. rewrite IH. apply Permutation_swap. Qed.
Lemma sorted_records_perm l : foldr insert_record [] l ≡ₚ l.
Proof. induction l as [|x l IH]; simpl; [done|]. by rewrite insert_record_perm, IH. Qed.
Lemma elem_of_record_values q r : r ∈ record_values q ↔ ∃ id, q_records q !! id = Some r.
Proof.
  unfold record_values. rewrite list_elem_of_fmap. split.
  - intros ([id r'] & -> & Hin). rewrite sorted_records_perm in Hin. exists id. by apply elem_of_map_to_list in Hin.
  - intros [id Hr]. exists (id, r). split; [done|]. rewrite sorted_records_perm. by apply elem_of_map_to_list.
Qed.
Lemma record_values_ids q : queue_ok q → NoDup ((λ r, ar_id (rc_request r)) <$> record_values q).
Proof.
  intros Hq. assert ((λ r, ar_id (rc_request r)) <$> record_values q = (foldr insert_record [] (map_to_list (q_records q))).*1) as ->.
  { unfold record_values. rewrite <- list_fmap_compose. apply list_fmap_ext. intros i [id r] Hin. simpl.
    apply list_elem_of_lookup_2 in Hin. rewrite sorted_records_perm in Hin. apply elem_of_map_to_list in Hin.
    by apply (qo_records _ Hq). }
  rewrite sorted_records_perm. apply NoDup_fst_map_to_list.
Qed.

Lemma restore_records l q0 r :
  NoDup ((λ r, ar_id (rc_request r)) <$> l) → r ∈ l → q_records (foldl restore q0 l) !! ar_id (rc_request r) = Some r.
Proof.
  induction l as [|x l IH] using rev_ind; [set_solver|]. rewrite fmap_app, foldl_app. intros (Hnd & Hdis & _)%NoDup_app Hin.
  cbn [foldl]. assert (Hq : ∀ q, q_records (restore q x) = <[ar_id (rc_request x) := x]> (q_records q)) by (intros q; unfold restore; by destruct (rc_executed x)).
  rewrite Hq. apply elem_of_app in Hin as [Hin|Hin]; [|apply list_elem_of_singleton in Hin as ->; by rewrite lookup_insert_eq].
  rewrite lookup_insert_ne; [by apply IH|]. intros E. apply (Hdis (ar_id (rc_request r))); [|rewrite <- E; by left].
  apply list_elem_of_fmap. eauto.
Qed.
Lemma restore_other l q0 id :
  (∀ r, r ∈ l → ar_id (rc_request r) ≠ id) → q_records (foldl restore q0 l) !! id = q_records q0 !! id.
Proof.
  revert q0. induction l as [|x l IH]; intros q0 H; [done|]. simpl. rewrite IH by set_solver.
  unfold restore. destruct (rc_executed x); simpl; rewrite lookup_insert_ne; set_solver.
Qed.
Lemma restore_index l q0 fp :
  q_fingerprint_index (foldl restore q0 l) !! fp =
  match last (filter (λ r, rc_executed r = false ∧ rc_fingerprint r = fp) l) with
  | Some r => Some (ar_id (rc_request r))
  | None => q_fingerprint_index q0 !! fp
  end.
Proof.
  induction l as [|x l IH] using rev_ind; [done|]. rewrite foldl_app, filter_app, last_app, filter_cons. cbn [foldl].
  assert (Hq : ∀ q, q_fingerprint_index (restore q x) = if rc_executed x then q_fingerprint_index q
    else <[rc_fingerprint x := ar_id (rc_request x)]> (q_fingerprint_index q)) by (intros q; unfold restore; by destruct (rc_executed x)).
  rewrite Hq. case_decide as Hd; [destruct Hd as [-> <-]; by rewrite lookup_insert_eq|]. rewrite filter_nil. cbn [last]. rewrite <- IH.
  destruct (rc_executed x); [done|]. rewrite lookup_insert_ne; [done|]. naive_solver.
Qed.

(** A stored queue reads back. *)
Definition queue_laws : Prop :=
  ∀ path records f f', save_queue path records f = (true, f') → load_queue path f' = Some (Ok records).

Lemma restored q path :
  queue_ok q → ∃ q', foldl restore (in_memory <| q_storage_path := Some path |>) (record_values q) = q' ∧
    q_records q' = q_records q ∧ q_fingerprint_index q' = q_fingerprint_index q.
Proof.
  intros Hq. eexists. split; [done|]. split; apply map_eq; [intros id|intros fp].
  - destruct (q_records q !! id) as [r|] eqn:Er.
    + rewrite <- (ro_id _ _ (qo_records _ Hq _ _ Er)). apply restore_records; [by apply record_values_ids|].
      apply elem_of_record_values. eauto.
    + rewrite restore_other; [done|]. intros r [id' Hr]%elem_of_record_values E.
      rewrite (ro_id _ _ (qo_records _ Hq _ _ Hr)) in E. congruence.
  - rewrite restore_index. destruct (last _) as [r|] eqn:El.
    + apply last_Some_elem_of in El. apply list_elem_of_filter in El as [[Hx <-] [id Hr]%elem_of_record_values].
      rewrite (qo_indexed _ Hq _ _ Hr Hx). by rewrite (ro_id _ _ (qo_records _ Hq _ _ Hr)).
    + apply last_None in El. simpl. rewrite lookup_empty. destruct (q_fingerprint_index q !! fp) as [id|] eqn:Ei; [|done].
      destruct (qo_index _ Hq _ _ Ei) as (r & Hr & Ef & Hx).
      assert (Hin : r ∈ filter (λ r, rc_executed r = false ∧ rc_fingerprint r = fp) (record_values q)).
      { apply list_elem_of_filter. split; [done|]. apply elem_of_record_values. eauto. }
      rewrite El in Hin. by apply elem_of_nil in Hin.
Qed.

Lemma persist_saves w w' path :
  queue_laws → q_storage_path (cw_queue w) = Some path → persist w = Some (Ok tt, w') →
  load_queue path (cw_files w') = Some (Ok (record_values (cw_queue w))) ∧ cw_queue w' = cw_queue w.
Proof.
  intros Hl Hp. unfold persist. rewrite Hp. destruct (save_queue _ _ _) as [[] f'] eqn:Es; intros E; simplify_eq.
  by apply Hl in Es.
Qed.
Lemma told_saves {X} (m : M unit) (x y : X) w w' path :
  queue_laws → keeps m → q_storage_path (cw_queue w) = Some path →
  (let! _ := m in let! _ := persist in ret_m x) w = Some (Ok y, w') →
  load_queue path (cw_files w') = Some (Ok (record_values (cw_queue w'))).
Proof.
  intros Hl Hm Hp E. unfold mbind_m in E. destruct (m w) as [[[u|e] w1]|] eqn:Em; [|done|done]. apply Hm in Em.
  destruct (persist w1) as [[[[]|e] w2]|] eqn:Ep; [|done|done]. unfold ret_m in E. simplify_eq.
  apply (persist_saves _ _ path) in Ep as [? Eq]; [|done|by rewrite Em]. by rewrite Eq.
Qed.

(** C32. Decisions survive a restart. When an approval or a denial of a queue kept in a
    file is acknowledged, the queue read back from the file has the same records, their
    approvals and denials included, and the same open requests. *)
Theorem decisions_durable s0 s request_id approver_id decision sign path w' :
  fresh_state s0 → rtc cstep s0 s → queue_laws → q_storage_path (cw_queue (cs_w s)) = Some path →
  decide_request (cs_rt s) request_id approver_id decision sign (cs_w s) = Some (Ok tt, w') →
  ∃ q', file_backed path (cw_files w') = Ok q' ∧ q_records q' = q_records (cw_queue w') ∧
    q_fingerprint_index q' = q_fingerprint_index (cw_queue w') ∧
    ∃ r, q_records q' !! request_id = Some r ∧
      approver_id ∈ match decision with ApprovalVerdict.Approve => rc_approvals r | ApprovalVerdict.Deny => rc_denials r end.
Proof.
  intros Hf Hr Hl Hp E. pose proof (consent_reachable _ _ Hf Hr) as Hok. pose proof (so_queue _ Hok) as Hq.
  assert (Hq' : queue_ok (cw_queue w')).
  { destruct decision; [apply consent_approved_ok in E|apply denied_ok in E]; try done; by destruct E. }
  assert (Hsaved : load_queue path (cw_files w') = Some (Ok (record_values (cw_queue w'))) ∧
    ∃ r, q_records (cw_queue w') !! request_id = Some r ∧
      approver_id ∈ match decision with ApprovalVerdict.Approve => rc_approvals r | ApprovalVerdict.Deny => rc_denials r end).
  { unfold decide_request in E. destruct (q_records (cw_queue (cs_w s)) !! request_id) as [r|] eqn:Er; [|done].
    unfold mbind_m in E. destruct (submit_decision _ _ _ _ _ (cs_w s)) as [[[d|e] w1]|] eqn:Es; [|done|done].
    unfold ret_m in E. simplify_eq. unfold submit_decision in Es. rewrite Er in Es. repeat case_bool_decide; try done. simpl in Es.
    pose proof (told_keeps _ _ _ _ _ (decision_keeps _ _) Es) as [Eq _].
    split; [by eapply told_saves; [done|apply decision_keeps| |exact Es]|].
    rewrite Eq. simpl. rewrite lookup_insert_eq. eexists. split; [done|]. destruct decision; simpl; rewrite set_insert_new by done;
      apply elem_of_insert_str; by left. }
  destruct Hsaved as [Hload Hin]. destruct (restored (cw_queue w') path Hq') as (q' & Eq' & Hrec & Hidx). exists q'.
  split; [unfold file_backed; rewrite Hload; by rewrite Eq'|]. split; [done|]. split; [done|]. by rewrite Hrec.
Qed.
End Queue.

(** ** A small runtime *)

Module SampleConsent.
#[local] Existing Instance SampleGuard.writer.
#[export] Instance crates : AuditCrates :=
  { ac_sha256 := SampleMerkle.toy; ac_to_vec _ := None; ac_uuid_string u := (λ c, c mod 128) <$> u }.
(** Objects of strings, with the lengths of keys and strings. *)
Definition flat_bytes (kv : str * Value) : bytes :=
  match kv.2 with
  | JStr s => Z.of_nat (length kv.1) :: kv.1 ++ Z.of_nat (length s) :: s
  | _ => []
  end.
#[export] Instance consent : ConsentCrates :=
  { cc_value_to_vec v := match v with JObj l => Some (l ≫= flat_bytes) | _ => None end; cc_parse_uuid _ := None }.
Lemma flat_inj (l1 l2 : list (str * str)) :
  ((λ kv, (kv.1, JStr kv.2)) <$> l1) ≫= flat_bytes = ((λ kv, (kv.1, JStr kv.2)) <$> l2) ≫= flat_bytes → l1 = l2.
Proof.
  revert l2. induction l1 as [|[k1 s1] l1 IH]; intros [|[k2 s2] l2] E; [done|done|done|].
  rewrite !fmap_cons, !bind_cons in E. unfold flat_bytes at 1 3 in E. cbn [fst snd app] in E. injection E as El E.
  rewrite <- !app_assoc in E. apply app_inj_1 in E as [-> E]; [|lia]. cbn [app] in E. injection E as Es E.
  apply app_inj_1 in E as [-> E]; [|lia]. f_equal. by apply IH.
Qed.
Lemma laws : consent_laws.
Proof.
  split; [exact SampleMerkle.toy_ok| | |].
  - intros l _. eexists. reflexivity.
  - intros l1 l2 b _ _ E1 E2. simpl in E1, E2. simplify_eq. by apply flat_inj.
  - intros u. apply forallb_forall. intros c Hc. apply list_elem_of_In, list_elem_of_fmap in Hc as (x & -> & _).
    pose proof (Z.mod_pos_bound x 128). lia.
Qed.
#[export] Instance files : QueueFiles (list ApprovalRecord) :=
  { save_queue _ l _ := (true, l); load_queue _ f := Some (Ok f) }.
Lemma file_laws : queue_laws.
Proof. intros path l f f' E. simpl in *. by simplify_eq. Qed.

Abbreviation State := (CState (A := list Value) (F := list ApprovalRecord)).
Definition runtime : ConsentRuntime :=
  MkRuntime (set_policy GovernedOperation.TerminalCommand HitlTier.Tier2 [lit "alice"; lit "bob"] default_engine)
    (lit "agent") None.
Definition start : State :=
  MkCState runtime (MkConsentWorld _ _ (in_memory <| q_storage_path := Some (lit "queue") |>) [] []) [] [].
Definition payload : bytes := [1; 2; 3].
Definition clock (n : nat) : Z := 1000.
Definition run (s : State) :=
  enforce_operation (cs_rt s) GovernedOperation.TerminalCommand nil_uuid payload clock (cs_w s).
Definition nobody (b : bytes) : option bytes := None.

Lemma start_fresh : fresh_state start.
Proof. split; [vm_compute; reflexivity|done]. Qed.
(** All records of a queue have the fingerprint. *)
Definition only (fp : str) (q : ApprovalQueue) : bool :=
  forallb (λ kv : str * ApprovalRecord, bool_decide (rc_fingerprint kv.2 = fp)) (map_to_list (q_records q)).
Lemma only_free (s : State) tier :
  only (fingerprint_of s GovernedOperation.TerminalCommand nil_uuid payload tier) (cw_queue (cs_w s)) = true →
  ids_free GovernedOperation.TerminalCommand nil_uuid (hash_payload payload) (cr_requester_id (cs_rt s)) tier (cw_queue (cs_w s)).
Proof.
  intros H seq r Hr. unfold only in H. rewrite forallb_forall in H.
  apply elem_of_map_to_list, list_elem_of_In, H in Hr. by apply bool_decide_eq_true in Hr.
Qed.
Lemma run_free (s : State) :
  gate_tier (cs_rt s) GovernedOperation.TerminalCommand nil_uuid = Some HitlTier.Tier2 →
  only (fingerprint_of s GovernedOperation.TerminalCommand nil_uuid payload HitlTier.Tier2) (cw_queue (cs_w s)) = true →
  ∀ tier, gate_tier (cs_rt s) GovernedOperation.TerminalCommand nil_uuid = Some tier →
    ids_free GovernedOperation.TerminalCommand nil_uuid (hash_payload payload) (cr_requester_id (cs_rt s)) tier (cw_queue (cs_w s)).
Proof. intros Hg Ho tier Hg'. assert (tier = HitlTier.Tier2) as -> by congruence. by apply only_free. Qed.

Definition world_of {X} (o : option (X * ConsentWorld (list Value) (list ApprovalRecord))) (s : State) :=
  match o with Some (_, w) => w | None => cs_w s end.
Definition outcome_of {X} (o : option (result X ConsentError * ConsentWorld (list Value) (list ApprovalRecord)))
    : result unit ConsentError :=
  match o with Some (Ok _, _) => Ok tt | Some (Err e, _) => Err e | None => Err ConsentError.QueueStorage end.
Definition after_run (s : State) : State :=
  MkCState (cs_rt s) (world_of (run s) s) (cs_marks s)
    (cs_spent s ++ spent_by s GovernedOperation.TerminalCommand nil_uuid payload (outcome_of (run s))).
Definition after_approve (id approver : str) (s : State) : State :=
  MkCState (cs_rt s) (world_of (approve (cs_rt s) id approver nobody (cs_w s)) s)
    (cs_marks s ++ approval_mark (cs_rt s) id approver (cw_queue (cs_w s))) (cs_spent s).
Definition after_deny (id approver : str) (s : State) : State :=
  MkCState (cs_rt s) (world_of (deny (cs_rt s) id approver nobody (cs_w s)) s) (cs_marks s) (cs_spent s).
Lemma run_steps (s : State) :
  gate_tier (cs_rt s) GovernedOperation.TerminalCommand nil_uuid = Some HitlTier.Tier2 →
  only (fingerprint_of s GovernedOperation.TerminalCommand nil_uuid payload HitlTier.Tier2) (cw_queue (cs_w s)) = true →
  bool_decide (is_Some (fst <$> run s)) = true → cstep s (after_run s).
Proof.
  intros Hg Ho Hs%bool_decide_eq_true. apply (cs_enforce GovernedOperation.TerminalCommand nil_uuid payload clock); [by apply run_free|].
  fold (run s). destruct (run s) as [[[[]|e] w]|]; [done|done|by destruct Hs].
Qed.
Lemma approve_steps (s : State) id approver :
  bool_decide (is_Some (fst <$> approve (cs_rt s) id approver nobody (cs_w s))) = true → cstep s (after_approve id approver s).
Proof.
  intros Hs%bool_decide_eq_true. apply (cs_approve id approver nobody (outcome_of (approve (cs_rt s) id approver nobody (cs_w s)))).
  destruct (approve _ _ _ _ _) as [[[[]|e] w]|]; [done|done|by destruct Hs].
Qed.
Lemma deny_steps (s : State) id approver :
  bool_decide (is_Some (fst <$> deny (cs_rt s) id approver nobody (cs_w s))) = true → cstep s (after_deny id approver s).
Proof.
  intros Hs%bool_decide_eq_true. apply (cs_deny id approver nobody (outcome_of (deny (cs_rt s) id approver nobody (cs_w s)))).
  destruct (deny _ _ _ _ _) as [[[[]|e] w]|]; [done|done|by destruct Hs].
Qed.

Definition waiting : State := after_run start.
Definition request_id : str := match outcome_of (run start) with Err (ConsentError.ApprovalRequired id _ _) => id | _ => [] end.
Definition approved : State := after_approve request_id (lit "alice") waiting.
Definition refused : State := after_deny request_id (lit "bob") waiting.
Lemma waiting_reached : rtc cstep start waiting.
Proof. apply rtc_once, run_steps; vm_compute; reflexivity. Qed.
Lemma approved_reached : rtc cstep start approved.
Proof. eapply rtc_r; [exact waiting_reached|]. apply approve_steps. vm_compute. reflexivity. Qed.

Lemma consent_gate_witness :
  (∃ id, outcome_of (run waiting) = Err (ConsentError.ApprovalRequired id GovernedOperation.TerminalCommand HitlTier.Tier2)) ∧
  outcome_of (run approved) = Ok tt ∧
  ∃ tier, gate_tier (cs_rt approved) GovernedOperation.TerminalCommand nil_uuid = Some tier ∧
    let fp := fingerprint_of approved GovernedOperation.TerminalCommand nil_uuid payload tier in
    ∃ id r, q_records (cw_queue (world_of (run approved) approved)) !! id = Some r ∧ rc_executed r = true ∧
      ∀ approver, approver ∈ rc_approvals r → (fp, id, approver) ∈ cs_marks approved.
Proof.
  split; [eexists; vm_compute; reflexivity|]. split; [vm_compute; reflexivity|].
  destruct (consent_gate laws start approved GovernedOperation.TerminalCommand nil_uuid payload clock
    (world_of (run approved) approved) start_fresh approved_reached) as (tier & Hg & _ & H).
  - apply run_free; vm_compute; reflexivity.
  - vm_compute. reflexivity.
  - exists tier. split; [exact Hg|]. destruct H as (_ & id & r & Hr & Hx & _ & _ & _ & Hm & _).
    + intros ->. vm_compute in Hg. discriminate.
    + exists id, r. split; [exact Hr|]. split; [exact Hx|exact Hm].
Defined.

Definition done : State := after_run approved.
Lemma done_reached : rtc cstep start done.
Proof. eapply rtc_r; [exact approved_reached|]. apply run_steps; vm_compute; reflexivity. Qed.
Definition fp : str := fingerprint_of start GovernedOperation.TerminalCommand nil_uuid payload HitlTier.Tier2.
Lemma approvals_spent_once_witness :
  spent_on fp (cs_spent done) = 1%nat ∧ marked fp (cs_marks done) = 1%nat ∧
  (spent_on fp (cs_spent done) + held fp (cw_queue (cs_w done)) ≤ marked fp (cs_marks done))%nat.
Proof.
  split; [vm_compute; reflexivity|]. split; [vm_compute; reflexivity|].
  exact (approvals_spent_once laws start done fp start_fresh done_reached).
Defined.

(** Denied by one, then approved by the other. *)
Lemma refused_reached : rtc cstep start refused.
Proof. eapply rtc_r; [exact waiting_reached|]. apply deny_steps. vm_compute. reflexivity. Qed.
Definition too_late : State := after_approve request_id (lit "alice") refused.
Lemma denial_is_final_witness :
  outcome_of (run too_late) = Err (ConsentError.RequestDenied request_id) ∧
  ∀ w', run too_late ≠ Some (Ok tt, w').
Proof.
  split; [vm_compute; reflexivity|]. intros w'.
  apply (denial_is_final laws start refused too_late request_id GovernedOperation.TerminalCommand nil_uuid payload HitlTier.Tier2
    clock w' start_fresh refused_reached).
  - apply rtc_once, approve_steps. vm_compute. reflexivity.
  - split; [vm_compute; reflexivity|]. eexists. split; [vm_compute; reflexivity|]. vm_compute. discriminate.
  - vm_compute. reflexivity.
  - discriminate.
  - apply only_free. vm_compute. reflexivity.
Defined.

Lemma decisions_durable_witness :
  ∃ q', file_backed (lit "queue") (cw_files (cs_w approved)) = Ok q' ∧
    ∃ r, q_records q' !! request_id = Some r ∧ lit "alice" ∈ rc_approvals r.
Proof.
  destruct (decisions_durable laws start waiting request_id (lit "alice") ApprovalVerdict.Approve nobody (lit "queue") (cs_w approved)
    start_fresh waiting_reached file_laws) as (q' & Hq & _ & _ & r & Hr & Hin).
  - vm_compute. reflexivity.
  - vm_compute. reflexivity.
  - exists q'. split; [exact Hq|]. exists r. split; [exact Hr|exact Hin].
Defined.
End SampleConsent.
