(* ===== verification/KernelFuel.v ===== *)
(** * Kernel: fuel

    [kernel/src/fuel_hardening.rs]: the monthly budget with its alerts, the cost of model
    calls, the anomaly detector, the fuel ledger of an agent, which audits every spend and
    halts on an anomaly or past the cap, and the fuel context with its reservations. All
    integers are [u64] with the saturation the code uses; a plain addition that would
    overflow is [None]. The audit trail is any [AuditWriter]. *)

From S2P Require Import Prelude Hash AuthBase KernelMerkle KernelAudit KernelPolicy.

Local Open Scope Z_scope.
Local Open Scope nexus_scope.
#[local] Arguments lit : simpl never.

(** ** Budget *)

Definition ALERT_THRESHOLDS : list Z := [70; 100; 120].
Definition BudgetPeriodId := str.
Definition period_new (raw : str) : BudgetPeriodId :=
  match trim raw with [] => lit "period.default" | trimmed => trimmed end.

Definition u64_add (a b : Z) : Z := saturating_add u64_max a b.
Definition u64_mul (a b : Z) : Z := Z.min u64_max (a * b).
Definition percent_ceiling (value percent : Z) : Z := u64_add (u64_mul value percent) 99 / 100.

Record MonthlyBudget := MkBudget {
  mb_cap_units : Z;
  mb_spent_units : Z;
  mb_period : BudgetPeriodId;
  mb_alerts_emitted : list Z;
}.
Definition budget_new (cap_units : Z) (period : BudgetPeriodId) : MonthlyBudget := MkBudget (Z.max cap_units 1) 0 period [].
Definition budget_set_period (period : BudgetPeriodId) (b : MonthlyBudget) : bool * MonthlyBudget :=
  if bool_decide (mb_period b = period) then (false, b) else (true, MkBudget (mb_cap_units b) 0 period []).
(** The loop over the thresholds: those emitted, and those crossed now. *)
Fixpoint cross (thresholds : list Z) (cap spent : Z) (emitted crossed : list Z) : list Z * list Z :=
  match thresholds with
  | [] => (emitted, crossed)
  | t :: thresholds =>
      if bool_decide (t ∈ emitted) then cross thresholds cap spent emitted crossed
      else if percent_ceiling cap t <=? spent then cross thresholds cap spent (emitted ++ [t]) (crossed ++ [t])
      else cross thresholds cap spent emitted crossed
  end.
Definition record_spend (units : Z) (b : MonthlyBudget) : list Z * MonthlyBudget :=
  let spent := u64_add (mb_spent_units b) units in
  let '(emitted, crossed) := cross ALERT_THRESHOLDS (mb_cap_units b) spent (mb_alerts_emitted b) [] in
  (crossed, MkBudget (mb_cap_units b) spent (mb_period b) emitted).
Definition exceeds_cap (b : MonthlyBudget) : bool := mb_cap_units b <? mb_spent_units b.

(** ** Costs *)

Record ModelCost := MkCost {
  mc_input : Z;
  mc_output : Z;
}.
Definition FuelToTokenModel := gmap str ModelCost.
Definition with_defaults : FuelToTokenModel :=
  <[lit "ollama/llama3" := MkCost 0 0]> (<[lit "claude-sonnet-4-5" := MkCost 3000 15000]>
    (<[lit "deepseek-chat" := MkCost 140 280]> (<[lit "mock-1" := MkCost 0 0]> ∅))).
Definition round_up_per_1000 (tokens cost_per_1k : Z) : Z :=
  if (tokens =? 0) || (cost_per_1k =? 0) then 0 else u64_add (u64_mul tokens cost_per_1k) 999 / 1000.
Definition simulate_cost_units (cost : ModelCost) (input_tokens output_tokens : Z) : Z :=
  u64_add (round_up_per_1000 input_tokens (mc_input cost)) (round_up_per_1000 output_tokens (mc_output cost)).
Definition simulate_cost (models : FuelToTokenModel) (model : str) (input_tokens output_tokens : Z) : Z :=
  match models !! model with Some cost => simulate_cost_units cost input_tokens output_tokens | None => 0 end.
Definition simulate_cost_with_fallback (models : FuelToTokenModel) (model : str) (input_tokens output_tokens : Z)
    (fallback : ModelCost) : Z :=
  simulate_cost_units (default fallback (models !! model)) input_tokens output_tokens.

(** ** Anomalies *)

Module AnomalyKind.
Inductive t := Spike | Slope.
Definition as_json (v : t) : Value := JStr match v with Spike => lit "Spike" | Slope => lit "Slope" end.
End AnomalyKind.
Record AnomalyEvent := MkAnomaly {
  an_kind : AnomalyKind.t;
  an_cost_units : Z;
  an_baseline_cost_per_call : Z;
  an_spike_factor_x100 : Z;
  an_window_total_units : Z;
  an_window_calls : Z;
}.
Definition anomaly_json (e : AnomalyEvent) : Value :=
  object [(lit "kind", AnomalyKind.as_json (an_kind e)); (lit "cost_units", JInt (an_cost_units e));
          (lit "baseline_cost_per_call", JInt (an_baseline_cost_per_call e));
          (lit "spike_factor_x100", JInt (an_spike_factor_x100 e));
          (lit "window_total_units", JInt (an_window_total_units e)); (lit "window_calls", JInt (an_window_calls e))].
Record BurnAnomalyDetector := MkDetector {
  bd_baseline_cost_per_call : Z;
  bd_spike_factor_x100 : Z;
  bd_slope_threshold : Z;
  bd_window_calls : Z;
  bd_history : list Z;
}.
Definition detector_new (baseline spike slope window : Z) : BurnAnomalyDetector := MkDetector baseline spike slope window [].
Definition default_detector : BurnAnomalyDetector := detector_new 100 500 1200 4.
(** The newest observations, as many as the window has. *)
Definition slide (window : Z) (history : list Z) : list Z := drop (length history - Z.to_nat window) history.
Definition observe (cost_units : Z) (d : BurnAnomalyDetector) : option AnomalyEvent * BurnAnomalyDetector :=
  let history := slide (bd_window_calls d) (bd_history d ++ [cost_units]) in
  let baseline := bd_baseline_cost_per_call d in
  let factor := bd_spike_factor_x100 d in
  let d := MkDetector baseline factor (bd_slope_threshold d) (bd_window_calls d) history in
  let window_total := foldl u64_add 0 history in
  let event kind := MkAnomaly kind cost_units baseline factor window_total (Z.of_nat (length history)) in
  if (0 <? baseline) && (0 <? factor) && (u64_mul baseline factor <=? u64_mul cost_units 100)
  then (Some (event AnomalyKind.Spike), d)
  else if (0 <? bd_window_calls d) && (Z.of_nat (length history) =? bd_window_calls d) &&
          (bd_slope_threshold d <=? window_total)
  then (Some (event AnomalyKind.Slope), d)
  else (None, d).
Definition update_baseline (actual_cost : Z) (d : BurnAnomalyDetector) : BurnAnomalyDetector :=
  let baseline := bd_baseline_cost_per_call d in
  let with_baseline b :=
    MkDetector b (bd_spike_factor_x100 d) (bd_slope_threshold d) (bd_window_calls d) (bd_history d) in
  if baseline =? 0 then with_baseline actual_cost
  else
    let n := Z.min (Z.max (Z.of_nat (length (bd_history d))) 1) 20 in
    if baseline <=? actual_cost then with_baseline (baseline + (actual_cost - baseline) / n)
    else with_baseline (baseline - (baseline - actual_cost) / n).

(** ** The ledger of an agent *)

Module FuelViolation.
Inductive t := OverMonthlyCap | AnomalyDetected | ProviderTokenMismatch.
Definition as_json (v : t) : Value :=
  JStr match v with
       | OverMonthlyCap => lit "OverMonthlyCap"
       | AnomalyDetected => lit "AnomalyDetected"
       | ProviderTokenMismatch => lit "ProviderTokenMismatch"
       end.
End FuelViolation.
Record ModelSpend := MkSpend {
  ms_model : str;
  ms_input_tokens : Z;
  ms_output_tokens : Z;
  ms_spent_units : Z;
  ms_calls : Z;
}.
Record FuelAuditReport := MkReport {
  fr_agent_id : Uuid;
  fr_period : BudgetPeriodId;
  fr_cap_units : Z;
  fr_spent_units : Z;
  fr_anomalies : list AnomalyEvent;
  fr_halts : Z;
  fr_model_breakdown : list ModelSpend;
}.
Record AgentFuelLedger := MkFuelLedger {
  fl_budget : MonthlyBudget;
  fl_detector : BurnAnomalyDetector;
  fl_anomalies : list AnomalyEvent;
  fl_halts : Z;
  fl_model_breakdown : gmap str ModelSpend;
}.
Definition ledger_new (period : BudgetPeriodId) (cap_units : Z) (d : BurnAnomalyDetector) : AgentFuelLedger :=
  MkFuelLedger (budget_new cap_units period) d [] 0 ∅.
Definition from_report (report : FuelAuditReport) : AgentFuelLedger :=
  let cap := Z.max (fr_cap_units report) 1 in
  MkFuelLedger
    (MkBudget cap (fr_spent_units report) (fr_period report)
       (filter (λ t, (percent_ceiling cap t <=? fr_spent_units report) = true) ALERT_THRESHOLDS))
    default_detector (fr_anomalies report) (fr_halts report)
    (foldl (λ m e, <[ms_model e := e]> m) ∅ (fr_model_breakdown report)).
Definition halts_next (halts : Z) : Z := saturating_add u32_max halts 1.

(** The breakdown, ordered by model. *)
Fixpoint insert_spend (e : ModelSpend) (l : list ModelSpend) : list ModelSpend :=
  match l with
  | [] => [e]
  | x :: l => if str_leb (ms_model e) (ms_model x) then e :: x :: l else x :: insert_spend e l
  end.
Definition snapshot (agent_id : Uuid) (l : AgentFuelLedger) : FuelAuditReport :=
  MkReport agent_id (mb_period (fl_budget l)) (mb_cap_units (fl_budget l)) (mb_spent_units (fl_budget l))
    (fl_anomalies l) (fl_halts l) (foldr insert_spend [] (map_to_list (fl_model_breakdown l)).*2).

Section Ledger.
Context {crates : AuditCrates} {A : Type} {audit : AuditWriter A}.
Implicit Types (l : AgentFuelLedger) (a : A).

Definition to_le_bytes (n : Z) : bytes := reverse (to_be_bytes 8 n).
Definition hash_evidence (agent_id : Uuid) (period model_or_reason : str) (primary secondary : Z) : str :=
  encode (ac_sha256 (as_bytes (ac_uuid_string agent_id) ++ as_bytes period ++ as_bytes model_or_reason ++
    to_le_bytes primary ++ to_le_bytes secondary)).
(** A failed append is printed and forgotten. *)
Definition note (agent_id : Uuid) (event_type : EventType.t) (entries : list (str * Value)) a : option A :=
  snd <$> append_audit agent_id event_type (object entries) a.
Fixpoint note_all (agent_id : Uuid) (notes : list (EventType.t * list (str * Value))) a : option A :=
  match notes with
  | [] => Some a
  | (event_type, entries) :: notes => note agent_id event_type entries a ≫= note_all agent_id notes
  end.

Definition set_period (agent_id : Uuid) (period : BudgetPeriodId) l a : option (bool * AgentFuelLedger * A) :=
  let previous := mb_period (fl_budget l) in
  let '(changed, b) := budget_set_period period (fl_budget l) in
  if changed then
    (λ a, (true, MkFuelLedger b (fl_detector l) [] 0 ∅, a)) <$>
      note agent_id EventType.StateChange
        [(lit "event_kind", JStr (lit "fuel.period_set")); (lit "agent_id", JStr (ac_uuid_string agent_id));
         (lit "previous_period", JStr previous); (lit "period", JStr period); (lit "cap_units", JInt (mb_cap_units b));
         (lit "spent_units", JInt (mb_spent_units b))] a
  else Some (false, MkFuelLedger b (fl_detector l) (fl_anomalies l) (fl_halts l) (fl_model_breakdown l), a).
Definition set_cap_units (agent_id : Uuid) (cap_units : Z) l a : option (AgentFuelLedger * A) :=
  let b := MkBudget (Z.max cap_units 1) (mb_spent_units (fl_budget l)) (mb_period (fl_budget l)) (mb_alerts_emitted (fl_budget l)) in
  (λ a, (MkFuelLedger b (fl_detector l) (fl_anomalies l) (fl_halts l) (fl_model_breakdown l), a)) <$>
    note agent_id EventType.UserAction
      [(lit "event_kind", JStr (lit "fuel.period_set")); (lit "agent_id", JStr (ac_uuid_string agent_id));
       (lit "period", JStr (mb_period b)); (lit "cap_units", JInt (mb_cap_units b));
       (lit "spent_units", JInt (mb_spent_units b))] a.

Definition spend_entry (model : str) (input_tokens output_tokens cost_units : Z) (m : gmap str ModelSpend) : gmap str ModelSpend :=
  let e := default (MkSpend model 0 0 0 0) (m !! model) in
  <[model := MkSpend (ms_model e) (u64_add (ms_input_tokens e) input_tokens) (u64_add (ms_output_tokens e) output_tokens)
               (u64_add (ms_spent_units e) cost_units) (u64_add (ms_calls e) 1)]> m.
Definition spend_fields (agent_id : Uuid) (b : MonthlyBudget) (model : str) (cost_units : Z) : list (str * Value) :=
  [(lit "agent_id", JStr (ac_uuid_string agent_id)); (lit "period", JStr (mb_period b)); (lit "model", JStr model);
   (lit "cost_units", JInt cost_units); (lit "spent_units", JInt (mb_spent_units b)); (lit "cap_units", JInt (mb_cap_units b))].
Definition record_llm_spend (agent_id : Uuid) (model : str) (input_tokens output_tokens cost_units : Z) l a
    : option (result unit FuelViolation.t * AgentFuelLedger * A) :=
  let '(crossed, b) := record_spend cost_units (fl_budget l) in
  let breakdown := spend_entry model input_tokens output_tokens cost_units (fl_model_breakdown l) in
  let evidence := (lit "evidence_hash",
    JStr (hash_evidence agent_id (mb_period b) model cost_units (mb_spent_units b))) in
  let spend_note := (EventType.LlmCall,
    (lit "event_kind", JStr (lit "fuel.spend_recorded")) :: (lit "input_tokens", JInt input_tokens) ::
    (lit "output_tokens", JInt output_tokens) :: spend_fields agent_id b model cost_units) in
  let alert t := (EventType.UserAction,
    [(lit "event_kind", JStr (lit "fuel.alert_threshold_crossed")); (lit "agent_id", JStr (ac_uuid_string agent_id));
     (lit "period", JStr (mb_period b)); (lit "threshold_percent", JInt t);
     (lit "spent_units", JInt (mb_spent_units b)); (lit "cap_units", JInt (mb_cap_units b))]) in
  match note_all agent_id (spend_note :: (alert <$> crossed)) a with
  | None => None
  | Some a =>
      let '(anomaly, d) := observe cost_units (fl_detector l) in
      match anomaly with
      | Some e =>
          (λ a, (Err FuelViolation.AnomalyDetected,
                 MkFuelLedger b d (fl_anomalies l ++ [e]) (halts_next (fl_halts l)) breakdown, a)) <$>
            note agent_id EventType.Error
              ((lit "event_kind", JStr (lit "fuel.anomaly_detected")) :: (lit "anomaly", anomaly_json e) :: evidence ::
               spend_fields agent_id b model cost_units) a
      | None =>
          if exceeds_cap b then
            (λ a, (Err FuelViolation.OverMonthlyCap, MkFuelLedger b d (fl_anomalies l) (halts_next (fl_halts l)) breakdown, a)) <$>
              note agent_id EventType.Error
                ((lit "event_kind", JStr (lit "fuel.exhausted_halt")) ::
                 (lit "violation", JStr (lit "OverMonthlyCap")) :: evidence :: spend_fields agent_id b model cost_units) a
          else Some (Ok tt, MkFuelLedger b d (fl_anomalies l) (fl_halts l) breakdown, a)
      end
  end.
Definition register_violation (agent_id : Uuid) (violation : FuelViolation.t) (reason : str) l a : option (AgentFuelLedger * A) :=
  let b := fl_budget l in
  let kind :=
    match violation with
    | FuelViolation.AnomalyDetected => lit "fuel.anomaly_detected"
    | FuelViolation.OverMonthlyCap | FuelViolation.ProviderTokenMismatch => lit "fuel.exhausted_halt"
    end in
  (λ a, (MkFuelLedger b (fl_detector l) (fl_anomalies l) (halts_next (fl_halts l)) (fl_model_breakdown l), a)) <$>
    note agent_id EventType.Error
      [(lit "event_kind", JStr kind); (lit "agent_id", JStr (ac_uuid_string agent_id)); (lit "period", JStr (mb_period b));
       (lit "reason", JStr reason); (lit "spent_units", JInt (mb_spent_units b)); (lit "cap_units", JInt (mb_cap_units b));
       (lit "violation", FuelViolation.as_json violation);
       (lit "evidence_hash", JStr (hash_evidence agent_id (mb_period b) reason (mb_spent_units b) (mb_cap_units b)))] a.
End Ledger.

(** ** The context *)

(** [FuelContext]: the fuel under its lock; every operation holds it. *)
Record FuelReservation := MkReservation {
  re_amount : Z;
  re_committed : bool;
}.
Definition deduct_fuel (amount remaining : Z) : result unit unit * Z :=
  if remaining <? amount then (Err tt, remaining) else (Ok tt, remaining - amount).
Definition reserve_fuel (amount remaining : Z) : result FuelReservation unit * Z :=
  if remaining <? amount then (Err tt, remaining) else (Ok (MkReservation amount false), remaining - amount).
(** [Drop], which also ends [commit] and [cancel]. *)
Definition reservation_drop (r : FuelReservation) (remaining : Z) : option Z :=
  if re_committed r then Some remaining else checked_add u64_max remaining (re_amount r).
Definition commit (r : FuelReservation) (remaining : Z) : option Z :=
  reservation_drop (MkReservation (re_amount r) true) remaining.
Definition cancel (r : FuelReservation) (remaining : Z) : option Z :=
  if re_committed r then reservation_drop r remaining
  else checked_add u64_max remaining (re_amount r) ≫= reservation_drop (MkReservation (re_amount r) true).

(** ** Accounts *)

Record Spend := MkOneSpend {
  sp_model : str;
  sp_input : Z;
  sp_output : Z;
  sp_cost : Z;
}.
Definition spend_typed (s : Spend) : Prop :=
  0 ≤ sp_input s ≤ u32_max ∧ 0 ≤ sp_output s ≤ u32_max ∧ 0 ≤ sp_cost s ≤ u64_max.
(** A total, kept at the greatest [u64]. *)
Definition total (f : Spend → Z) (hist : list Spend) : Z := Z.min u64_max (sum_Z (f <$> hist)).
Definition of_model (model : str) (hist : list Spend) : list Spend := filter (λ s, sp_model s = model) hist.

Lemma sum_snoc (f : Spend → Z) hist s : sum_Z (f <$> (hist ++ [s])) = sum_Z (f <$> hist) + f s.
Proof. rewrite fmap_app. unfold sum_Z. rewrite foldr_app. generalize (f <$> hist). intros l. simpl. induction l as [|x l IH]; simpl; [lia|]. rewrite IH. lia. Qed.
Lemma total_snoc (f : Spend → Z) hist s : 0 ≤ f s → total f (hist ++ [s]) = u64_add (total f hist) (f s).
Proof. intros Hs. unfold total, u64_add, saturating_add. rewrite sum_snoc. unfold u64_max. lia. Qed.
Lemma of_model_snoc model hist s :
  of_model model (hist ++ [s]) = if decide (sp_model s = model) then of_model model hist ++ [s] else of_model model hist.
Proof.
  unfold of_model. rewrite filter_app, filter_cons, filter_nil. destruct (decide _); [done|]. by rewrite app_nil_r.
Qed.

Definition spend_of (model : str) (hist : list Spend) : ModelSpend :=
  MkSpend model (total sp_input hist) (total sp_output hist) (total sp_cost hist) (total (λ _, 1) hist).
(** What a ledger says of the spends of its period. *)
Record ledger_ok (hist : list Spend) (l : AgentFuelLedger) : Prop := {
  lo_cap : 1 ≤ mb_cap_units (fl_budget l);
  lo_spent : mb_spent_units (fl_budget l) = total sp_cost hist;
  lo_breakdown : ∀ model, fl_model_breakdown l !! model =
    match of_model model hist with [] => None | spends => Some (spend_of model spends) end;
  lo_alerts : NoDup (mb_alerts_emitted (fl_budget l)) ∧ mb_alerts_emitted (fl_budget l) ⊆ ALERT_THRESHOLDS;
}.

Lemma spend_entry_ok model input output cost hist m :
  let s := MkOneSpend model input output cost in
  spend_typed s →
  (∀ k, m !! k = match of_model k hist with [] => None | spends => Some (spend_of k spends) end) →
  ∀ k, spend_entry model input output cost m !! k =
    match of_model k (hist ++ [s]) with [] => None | spends => Some (spend_of k spends) end.
Proof.
  intros s (Hi & Ho & Hc) Hm k. rewrite of_model_snoc. unfold spend_entry. simpl. destruct (decide (model = k)) as [<-|Hne].
  - rewrite lookup_insert_eq, (Hm model). destruct (of_model model hist) as [|x rest] eqn:E.
    + simpl. unfold spend_of, u64_add, saturating_add, total, u64_max in *. simpl in *. do 2 f_equal; lia.
    + change ((x :: rest) ++ [s]) with (x :: (rest ++ [s])). cbn [default from_option id ms_model]. unfold spend_of at 6.
      f_equal. unfold spend_of. simpl ms_input_tokens. simpl ms_output_tokens. simpl ms_spent_units. simpl ms_calls.
      change (x :: rest ++ [s]) with ((x :: rest) ++ [s]). by rewrite !total_snoc by (simpl in *; lia).
  - by rewrite lookup_insert_ne.
Qed.

Lemma filter_same {B} (P Q : B → Prop) `{!∀ x, Decision (P x), !∀ x, Decision (Q x)} (l : list B) :
  (∀ x, x ∈ l → P x ↔ Q x) → filter P l = filter Q l.
Proof.
  induction l as [|x l IH]; intros Hiff; [done|]. rewrite !filter_cons, IH by set_solver.
  pose proof (Hiff x ltac:(by left)). repeat case_decide; naive_solver.
Qed.
(** The thresholds crossed at an amount, each told once. *)
Lemma cross_spec thresholds cap spent emitted crossed :
  NoDup thresholds →
  let new := filter (λ t, t ∉ emitted ∧ (percent_ceiling cap t <=? spent) = true) thresholds in
  cross thresholds cap spent emitted crossed = (emitted ++ new, crossed ++ new).
Proof.
  intros Hnd. revert emitted crossed. induction Hnd as [|t ts Ht Hnd IH]; intros emitted crossed; simpl; [by rewrite !app_nil_r|].
  rewrite filter_cons. case_bool_decide as Hin.
  - rewrite decide_False by naive_solver. apply IH.
  - destruct (percent_ceiling cap t <=? spent) eqn:E.
    + rewrite decide_True by done. rewrite IH. rewrite <- !app_assoc.
      assert (filter (λ t0, t0 ∉ emitted ++ [t] ∧ (percent_ceiling cap t0 <=? spent) = true) ts =
              filter (λ t0, t0 ∉ emitted ∧ (percent_ceiling cap t0 <=? spent) = true) ts) as ->; [|done].
      apply filter_same. intros x Hx. rewrite not_elem_of_app. set_solver.
    + rewrite decide_False by naive_solver. apply IH.
Qed.

Section Accounts.
Context {crates : AuditCrates} {A : Type} {audit : AuditWriter A}.

(** The spends of the period, the ledger and the trail, as they go. *)
Inductive fstep : list Spend * AgentFuelLedger * A → list Spend * AgentFuelLedger * A → Prop :=
| fs_spend agent_id s hist l a r l' a' :
    spend_typed s →
    record_llm_spend agent_id (sp_model s) (sp_input s) (sp_output s) (sp_cost s) l a = Some (r, l', a') →
    fstep (hist, l, a) (hist ++ [s], l', a')
| fs_period agent_id period hist l a changed l' a' :
    set_period agent_id period l a = Some (changed, l', a') →
    fstep (hist, l, a) (if (changed : bool) then [] else hist, l', a')
| fs_cap agent_id cap hist l a l' a' :
    set_cap_units agent_id cap l a = Some (l', a') → fstep (hist, l, a) (hist, l', a')
| fs_violation agent_id violation reason hist l a l' a' :
    register_violation agent_id violation reason l a = Some (l', a') → fstep (hist, l, a) (hist, l', a')
| fs_elsewhere hist l a a' : fstep (hist, l, a) (hist, l, a').

(** The verdict on a spend. *)
Definition spend_verdict (s : Spend) (hist : list Spend) (l : AgentFuelLedger) : result unit FuelViolation.t :=
  match (observe (sp_cost s) (fl_detector l)).1 with
  | Some _ => Err FuelViolation.AnomalyDetected
  | None => if mb_cap_units (fl_budget l) <? total sp_cost (hist ++ [s]) then Err FuelViolation.OverMonthlyCap else Ok tt
  end.
(** The thresholds a spend is the first of its period to reach. *)
Definition newly_reached (s : Spend) (hist : list Spend) (l : AgentFuelLedger) : list Z :=
  filter (λ t, t ∉ mb_alerts_emitted (fl_budget l) ∧
               (percent_ceiling (mb_cap_units (fl_budget l)) t <=? total sp_cost (hist ++ [s])) = true) ALERT_THRESHOLDS.
(** What the trail is told of a spend, of a threshold reached, and of a refusal. *)
Definition spend_told (agent_id : Uuid) (s : Spend) (period : BudgetPeriodId) (cap spent : Z) : EventType.t * list (str * Value) :=
  (EventType.LlmCall,
   [(lit "event_kind", JStr (lit "fuel.spend_recorded")); (lit "input_tokens", JInt (sp_input s));
    (lit "output_tokens", JInt (sp_output s)); (lit "agent_id", JStr (ac_uuid_string agent_id)); (lit "period", JStr period);
    (lit "model", JStr (sp_model s)); (lit "cost_units", JInt (sp_cost s)); (lit "spent_units", JInt spent);
    (lit "cap_units", JInt cap)]).
Definition threshold_told (agent_id : Uuid) (period : BudgetPeriodId) (cap spent t : Z) : EventType.t * list (str * Value) :=
  (EventType.UserAction,
   [(lit "event_kind", JStr (lit "fuel.alert_threshold_crossed")); (lit "agent_id", JStr (ac_uuid_string agent_id));
    (lit "period", JStr period); (lit "threshold_percent", JInt t); (lit "spent_units", JInt spent);
    (lit "cap_units", JInt cap)]).
Definition refusal_told (r : result unit FuelViolation.t) (notes : list (EventType.t * list (str * Value))) : Prop :=
  match r with
  | Ok _ => notes = []
  | Err violation => ∃ entries, notes = [(EventType.Error, entries)] ∧
      (lit "event_kind", JStr match violation with
                              | FuelViolation.AnomalyDetected => lit "fuel.anomaly_detected"
                              | _ => lit "fuel.exhausted_halt"
                              end) ∈ entries
  end.
(** The spend, each threshold newly reached, once and in order, and the refusal, if any. *)
Definition told (agent_id : Uuid) (s : Spend) (hist : list Spend) (l : AgentFuelLedger) (r : result unit FuelViolation.t) (a a' : A) : Prop :=
  let period := mb_period (fl_budget l) in
  let cap := mb_cap_units (fl_budget l) in
  let spent := total sp_cost (hist ++ [s]) in
  ∃ refusal, refusal_told r refusal ∧
    note_all agent_id (spend_told agent_id s period cap spent ::
      (threshold_told agent_id period cap spent <$> newly_reached s hist l) ++ refusal) a = Some a'.

Lemma note_all_app agent_id xs ys a : note_all agent_id (xs ++ ys) a = note_all agent_id xs a ≫= note_all agent_id ys.
Proof.
  revert a. induction xs as [|[ty es] xs IH]; intros a; [done|]. simpl. destruct (note agent_id ty es a) as [a1|]; [|done].
  simpl. apply IH.
Qed.
Lemma note_all_one agent_id ty es a : note_all agent_id [(ty, es)] a = note agent_id ty es a.
Proof. simpl. by destruct (note agent_id ty es a). Qed.

Lemma spend_cases agent_id s hist l a r l' a' :
  spend_typed s → ledger_ok hist l →
  record_llm_spend agent_id (sp_model s) (sp_input s) (sp_output s) (sp_cost s) l a = Some (r, l', a') →
  r = spend_verdict s hist l ∧ ledger_ok (hist ++ [s]) l' ∧
  mb_cap_units (fl_budget l') = mb_cap_units (fl_budget l) ∧
  mb_alerts_emitted (fl_budget l') = mb_alerts_emitted (fl_budget l) ++ newly_reached s hist l ∧
  fl_halts l' = match r with Ok _ => fl_halts l | Err _ => halts_next (fl_halts l) end ∧
  told agent_id s hist l r a a'.
Proof.
  intros Ht [Hcap Hspent Hbr [Hnd Hsub]] E. unfold record_llm_spend, record_spend in E.
  assert (Hall : NoDup ALERT_THRESHOLDS) by (apply (bool_decide_unpack _); vm_compute; reflexivity).
  rewrite cross_spec in E by exact Hall. rewrite Hspent, <- total_snoc in E by (destruct Ht as (_ & _ & ?); lia).
  fold (newly_reached s hist l) in E. set (new := newly_reached s hist l) in *. cbn [app] in E.
  destruct (note_all _ _ a) as [a1|] eqn:En; [|done]. unfold spend_verdict.
  assert (Htold : ∀ r refusal, refusal_told r refusal → note_all agent_id refusal a1 = Some a' → told agent_id s hist l r a a').
  { intros r0 refusal Hr0 E0. exists refusal. split; [done|]. rewrite app_comm_cons, note_all_app.
    transitivity (Some a1 ≫= note_all agent_id refusal); [|done]. f_equal. exact En. }
  assert (Hok : ∀ d an h, ledger_ok (hist ++ [s]) (MkFuelLedger (MkBudget (mb_cap_units (fl_budget l)) (total sp_cost (hist ++ [s]))
    (mb_period (fl_budget l)) (mb_alerts_emitted (fl_budget l) ++ new)) d an h
    (spend_entry (sp_model s) (sp_input s) (sp_output s) (sp_cost s) (fl_model_breakdown l)))).
  { intros d an h. split; simpl; [done|done| |].
    - intros model. destruct s as [m i o c]. by apply spend_entry_ok.
    - split.
      + apply NoDup_app. split; [done|]. split; [|by apply NoDup_filter]. intros t Hin [[Hn _] _]%list_elem_of_filter. done.
      + intros t [?|[_ ?]%list_elem_of_filter]%elem_of_app; [by apply Hsub|done]. }
  destruct (observe (sp_cost s) (fl_detector l)) as [[e|] d] eqn:Eo; cbn [fst].
  - apply fmap_Some in E as (a2 & E2 & [= -> -> ->]). split_and!; try done.
    eapply Htold; [|by rewrite note_all_one]. eexists. split; [done|]. left.
  - unfold exceeds_cap in E. simpl in E. destruct (_ <? _) eqn:Ec.
    + apply fmap_Some in E as (a2 & E2 & [= -> -> ->]). split_and!; try done.
      eapply Htold; [|by rewrite note_all_one]. eexists. split; [done|]. left.
    + injection E as <- <- <-. split_and!; try done. by eapply (Htold (Ok tt) []).
Qed.
Lemma fstep_ok hist l a hist' l' a' : ledger_ok hist l → fstep (hist, l, a) (hist', l', a') → ledger_ok hist' l'.
Proof.
  intros Hok Hs. inversion Hs; subst; clear Hs;
    try match goal with H : _ = Some _ |- _ => rename H into E end.
  - by eapply spend_cases.
  - destruct Hok as [Hcap Hspent Hbr Hal]. unfold set_period, budget_set_period in *. case_bool_decide.
    + simplify_eq. by split.
    + apply fmap_Some in E as (a2 & _ & [= -> -> ->]). split; simpl; [done|done|done|].
      split; [constructor|apply list_subseteq_nil].
  - destruct Hok as [Hcap Hspent Hbr Hal]. unfold set_cap_units in *. apply fmap_Some in E as (a2 & _ & [= -> ->]).
    split; simpl; [lia|done..].
  - destruct Hok as [Hcap Hspent Hbr Hal]. unfold register_violation in *. apply fmap_Some in E as (a2 & _ & [= -> ->]).
    split; simpl; done.
  - done.
Qed.
Lemma fsteps_ok x y : rtc fstep x y → ledger_ok x.1.1 x.1.2 → ledger_ok y.1.1 y.1.2.
Proof.
  induction 1 as [|[[h1 l1] a1] [[h2 l2] a2] z Hs _ IH]; [done|]. intros Hok. apply IH. by eapply fstep_ok.
Qed.
Lemma ledger_new_ok period cap d : ledger_ok [] (ledger_new period cap d).
Proof.
  split; simpl; [lia|done|intros model; by rewrite lookup_empty|]. split; [constructor|apply list_subseteq_nil].
Qed.

(** C38. The fuel of an agent is accounted for. After any spends, changes of period and of
    cap and reported violations, the units spent are the sum of the costs of the period,
    each model's line has the sums and the number of its calls, and no alert threshold is
    noted twice. The next spend is accepted exactly when the detector sees no anomaly and
    the sum with it stays within the cap, is counted either way, notes exactly the
    thresholds not noted before that the sum now reaches, and counts a halt when it is
    refused. What the trail is given for it is exactly: one record of the spend with the
    new sum, one alert for each of those thresholds, in order, and, when refused, one
    record of the refusal. *)
Theorem fuel_accounts period cap d a0 hist l a agent_id s r l' a' :
  rtc fstep ([], ledger_new period cap d, a0) (hist, l, a) → spend_typed s →
  record_llm_spend agent_id (sp_model s) (sp_input s) (sp_output s) (sp_cost s) l a = Some (r, l', a') →
  ledger_ok hist l ∧ r = spend_verdict s hist l ∧ ledger_ok (hist ++ [s]) l' ∧
  mb_alerts_emitted (fl_budget l') = mb_alerts_emitted (fl_budget l) ++ newly_reached s hist l ∧
  fl_halts l' = match r with Ok _ => fl_halts l | Err _ => halts_next (fl_halts l) end ∧
  told agent_id s hist l r a a'.
Proof.
  intros Hr Ht E. assert (Hok : ledger_ok hist l) by exact (fsteps_ok _ _ Hr (ledger_new_ok period cap d)).
  destruct (spend_cases _ _ _ _ _ _ _ _ Ht Hok E) as (? & ? & _ & ? & ? & ?). done.
Qed.
End Accounts.

(** ** Reservations *)

(** The fuel left, the reservations open and what was used up; any thread may act. *)
Record FuelState := MkFuelState {
  fx_remaining : Z;
  fx_open : list FuelReservation;
  fx_used : Z;
}.
Inductive xstep : FuelState → FuelState → Prop :=
| xs_deduct amount s remaining :
    0 ≤ amount → deduct_fuel amount (fx_remaining s) = (Ok tt, remaining) →
    xstep s (MkFuelState remaining (fx_open s) (fx_used s + amount))
| xs_reserve amount s r remaining :
    0 ≤ amount → reserve_fuel amount (fx_remaining s) = (Ok r, remaining) →
    xstep s (MkFuelState remaining (fx_open s ++ [r]) (fx_used s))
| xs_commit before r after s remaining :
    fx_open s = before ++ r :: after → commit r (fx_remaining s) = Some remaining →
    xstep s (MkFuelState remaining (before ++ after) (fx_used s + re_amount r))
| xs_cancel before r after s remaining :
    fx_open s = before ++ r :: after → cancel r (fx_remaining s) = Some remaining →
    xstep s (MkFuelState remaining (before ++ after) (fx_used s))
| xs_drop before r after s remaining :
    fx_open s = before ++ r :: after → reservation_drop r (fx_remaining s) = Some remaining →
    xstep s (MkFuelState remaining (before ++ after) (fx_used s)).

Definition reserved (l : list FuelReservation) : Z := foldr (λ r n, re_amount r + n) 0 l.
Record fuel_ok (initial : Z) (s : FuelState) : Prop := {
  fo_sum : fx_remaining s + reserved (fx_open s) + fx_used s = initial;
  fo_left : 0 ≤ fx_remaining s;
  fo_used : 0 ≤ fx_used s;
  fo_open : Forall (λ r, 0 ≤ re_amount r ∧ re_committed r = false) (fx_open s);
}.
Lemma reserved_app l1 l2 : reserved (l1 ++ l2) = reserved l1 + reserved l2.
Proof. unfold reserved. induction l1 as [|r l1 IH]; simpl; lia. Qed.
Lemma reserved_nonneg l : Forall (λ r, 0 ≤ re_amount r ∧ re_committed r = false) l → 0 ≤ reserved l.
Proof. unfold reserved. induction 1 as [|r l [? _] _ IH]; simpl; lia. Qed.

(** A reservation given back never overflows. *)
Lemma give_back initial s before r after :
  initial ≤ u64_max → fuel_ok initial s → fx_open s = before ++ r :: after →
  re_committed r = false ∧ 0 ≤ re_amount r ∧
  checked_add u64_max (fx_remaining s) (re_amount r) = Some (fx_remaining s + re_amount r).
Proof.
  intros Hi [Hs Hl Hu Ho] E. rewrite E in Hs, Ho. apply Forall_app in Ho as [H1 H2]. apply Forall_cons in H2 as [[Ha Hc] H2].
  split; [done|]. split; [done|]. rewrite reserved_app in Hs. change (reserved (r :: after)) with (re_amount r + reserved after) in Hs.
  pose proof (reserved_nonneg _ H1). pose proof (reserved_nonneg _ H2). unfold checked_add. destruct (_ <=? _) eqn:El; [done|lia].
Qed.
Lemma closed_ok initial s before r after remaining used :
  fuel_ok initial s → fx_open s = before ++ r :: after → 0 ≤ remaining → 0 ≤ used →
  remaining + used = fx_remaining s + fx_used s + re_amount r → fuel_ok initial (MkFuelState remaining (before ++ after) used).
Proof.
  intros [Hs Hl Hu Ho] E Hr Hu' Hsum. rewrite E in Hs, Ho. apply Forall_app in Ho as [H1 H2]. apply Forall_cons in H2 as [_ H2].
  rewrite reserved_app in Hs. change (reserved (r :: after)) with (re_amount r + reserved after) in Hs.
  split; simpl; [rewrite reserved_app; lia|done|done|by apply Forall_app].
Qed.
Lemma xstep_ok initial s s' : initial ≤ u64_max → fuel_ok initial s → xstep s s' → fuel_ok initial s'.
Proof.
  intros Hi Hok Hs. destruct Hs as [amount s remaining Ha E|amount s r remaining Ha E|before r after s remaining Eo E
    |before r after s remaining Eo E|before r after s remaining Eo E].
  - unfold deduct_fuel in E. destruct (_ <? _) eqn:El; simplify_eq. destruct Hok as [Hs Hl Hu Ho]. split; simpl; [lia|lia|lia|done].
  - unfold reserve_fuel in E. destruct (_ <? _) eqn:El; simplify_eq. destruct Hok as [Hs Hl Hu Ho].
    split; simpl; [rewrite reserved_app; simpl; lia|lia|lia|]. apply Forall_app. split; [done|]. by constructor.
  - destruct (give_back _ _ _ _ _ Hi Hok Eo) as (Hc & Ha & _). unfold commit, reservation_drop in E. simpl in E. simplify_eq.
    pose proof Hok as []. eapply closed_ok; [done|done|lia..].
  - destruct (give_back _ _ _ _ _ Hi Hok Eo) as (Hc & Ha & Eb). unfold cancel in E. rewrite Hc, Eb in E. simpl in E. unfold reservation_drop in E. simpl in E. simplify_eq.
    pose proof Hok as []. eapply closed_ok; [done|done|lia..].
  - destruct (give_back _ _ _ _ _ Hi Hok Eo) as (Hc & Ha & Eb). unfold reservation_drop in E. rewrite Hc, Eb in E. simplify_eq.
    pose proof Hok as []. eapply closed_ok; [done|done|lia..].
Qed.

(** C39. Fuel is conserved. Whatever threads deduct, reserve, commit, cancel and drop, the
    fuel left, the fuel reserved and the fuel used add up to what there was, so no more
    than that is ever used; the addition that gives a reservation back never overflows;
    and committing, cancelling or dropping an open reservation succeeds, the last two
    giving back exactly its amount. *)
Theorem fuel_conserved initial s :
  0 ≤ initial ≤ u64_max → rtc xstep (MkFuelState initial [] 0) s →
  fx_remaining s + reserved (fx_open s) + fx_used s = initial ∧ 0 ≤ fx_remaining s ∧ 0 ≤ fx_used s ≤ initial ∧
  ∀ before r after, fx_open s = before ++ r :: after →
    commit r (fx_remaining s) = Some (fx_remaining s) ∧
    cancel r (fx_remaining s) = Some (fx_remaining s + re_amount r) ∧
    reservation_drop r (fx_remaining s) = Some (fx_remaining s + re_amount r).
Proof.
  intros [Hi0 Hi] Hr. assert (Hok : fuel_ok initial s).
  { assert (H0 : fuel_ok initial (MkFuelState initial [] 0)) by (split; simpl; [lia..|constructor]).
    induction Hr as [|? ? ? Hs _ IH]; [done|]. apply IH. by eapply xstep_ok. }
  pose proof Hok as [Hs Hl Hu Ho]. pose proof (reserved_nonneg _ Ho). split; [done|]. split; [done|]. split; [lia|].
  intros before r after E. destruct (give_back _ _ _ _ _ Hi Hok E) as (Hc & Ha & Eb).
  unfold commit, cancel, reservation_drop. rewrite Hc, Eb. done.
Qed.

Module SampleFuel.
#[local] Existing Instances SampleGuard.writer SampleGuard.uuids.
Definition spend (n : Z) : Spend := MkOneSpend (lit "mock-1") 10 10 n.
Definition ledger : AgentFuelLedger := ledger_new (lit "2026-03") 1000 (detector_new 0 0 u64_max 4).
Definition after (n : Z) (l : AgentFuelLedger) (a : list Value) :=
  match record_llm_spend nil_uuid (lit "mock-1") 10 10 n l a with Some (_, l, a) => (l, a) | None => (l, a) end.
Lemma spend_is_typed n : 0 ≤ n ≤ u64_max → spend_typed (spend n).
Proof. intros H. split_and!; done || (simpl; unfold u32_max; lia). Qed.
Lemma steps n hist l a :
  0 ≤ n ≤ u64_max → is_Some (record_llm_spend nil_uuid (lit "mock-1") 10 10 n l a) →
  fstep (hist, l, a) (hist ++ [spend n], (after n l a).1, (after n l a).2).
Proof.
  intros Hn [[[r l'] a'] E]. unfold after. rewrite E. eapply (fs_spend nil_uuid (spend n)); [by apply spend_is_typed|exact E].
Qed.
Definition l1 : AgentFuelLedger := (after 700 ledger []).1.
Definition a1 : list Value := (after 700 ledger []).2.

Lemma fuel_accounts_witness :
  mb_alerts_emitted (fl_budget l1) = [70] ∧
  spend_verdict (spend 301) [spend 700] l1 = Err FuelViolation.OverMonthlyCap ∧
  ∃ r l' a', record_llm_spend nil_uuid (lit "mock-1") 10 10 301 l1 a1 = Some (r, l', a') ∧
    r = spend_verdict (spend 301) [spend 700] l1 ∧ mb_spent_units (fl_budget l') = 1001 ∧
    mb_alerts_emitted (fl_budget l') = [70; 100] ∧ newly_reached (spend 301) [spend 700] l1 = [100] ∧
    told nil_uuid (spend 301) [spend 700] l1 r a1 a'.
Proof.
  split; [vm_compute; reflexivity|]. split; [vm_compute; reflexivity|].
  destruct (record_llm_spend nil_uuid (lit "mock-1") 10 10 301 l1 a1) as [[[r l'] a']|] eqn:E; [|vm_compute in E; discriminate].
  exists r, l', a'. split; [reflexivity|].
  destruct (fuel_accounts (lit "2026-03") 1000 (detector_new 0 0 u64_max 4) [] [spend 700] l1 a1 nil_uuid (spend 301) r l' a')
    as (_ & Hr & Hok & Ha & _ & Ht).
  - apply rtc_once. apply (steps 700 [] ledger []); [unfold u64_max; lia|]. eexists. vm_compute. reflexivity.
  - apply spend_is_typed. unfold u64_max. lia.
  - exact E.
  - split; [exact Hr|]. split; [rewrite (lo_spent _ _ Hok); vm_compute; reflexivity|]. split; [rewrite Ha; vm_compute; reflexivity|].
    split; [vm_compute; reflexivity|exact Ht].
Defined.

Lemma fuel_conserved_witness :
  let s := MkFuelState 40 [MkReservation 10 false] 50 in
  fx_remaining s + reserved (fx_open s) + fx_used s = 100 ∧ cancel (MkReservation 10 false) 40 = Some 50.
Proof.
  destruct (fuel_conserved 100 (MkFuelState 40 [MkReservation 10 false] 50)) as (H & _ & _ & Hc).
  - unfold u64_max. lia.
  - eapply rtc_l; [apply (xs_deduct 50); [lia|vm_compute; reflexivity]|].
    eapply rtc_l; [apply (xs_reserve 10); [lia|vm_compute; reflexivity]|]. apply rtc_refl.
  - split; [exact H|]. destruct (Hc [] (MkReservation 10 false) [] eq_refl) as (_ & Hcan & _). exact Hcan.
Defined.
End SampleFuel.
