(* ===== verification/KernelGates.v ===== *)
(** * Kernel: kill gates

    [kernel/src/kill_gates.rs]: a gate per subsystem that a metric freezes or halts, and
    that only an operator at tier 3 opens again, with escalation levels. Metrics and
    thresholds are [f64], compared as IEEE 754 does; how Rust prints one is a parameter, and
    so is the order in which a [HashMap] is visited. The audit trail is any [AuditWriter]. *)

From Stdlib Require Import SpecFloat.
From S2P Require Import Prelude Hash AuthBase KernelAudit KernelPolicy KernelFuel.

Local Open Scope Z_scope.
Local Open Scope nexus_scope.
#[local] Arguments lit : simpl never.

(** ** Floats *)

Abbreviation f64 := spec_float (only parsing).
Definition f64_ge (a b : f64) : bool :=
  match SFcompare a b with Some Gt | Some Eq => true | _ => false end.
Definition f64_gt (a b : f64) : bool := match SFcompare a b with Some Gt => true | _ => false end.
Definition ZERO : f64 := S754_zero false.
Definition INFINITY : f64 := S754_infinity false.
Definition f64_1 : f64 := S754_finite false 4503599627370496 (-52).
Definition f64_2 : f64 := S754_finite false 4503599627370496 (-51).
Definition f64_5 : f64 := S754_finite false 5629499534213120 (-50).
(** [json!] of a float that is not finite is null. *)
Definition json_f64 (f : f64) : Value :=
  match f with S754_zero _ | S754_finite _ _ _ => JFloat f | _ => JNull end.

(** ** Gates *)

Module KpiKind.
Inductive t :=
| GovernanceOverhead
| LlmLatency
| AuditChainIntegrity
| FuelBurnRate
| AgentErrorRate
| BudgetCompliance
| BanRate
| ReplayMismatch
| Divergence
| QuorumInvariant.
End KpiKind.
#[export] Instance KpiKind_eq_dec : EqDecision KpiKind.t.
Proof. solve_decision. Defined.

Record KillGateConfig := MkGateConfig {
  kc_screen_poster_freeze : f64;
  kc_screen_poster_halt : f64;
  kc_mutation_freeze : f64;
  kc_mutation_halt : f64;
  kc_cluster_freeze : f64;
  kc_cluster_halt : f64;
  kc_bft_freeze : f64;
  kc_bft_halt : f64;
}.
Definition default_config : KillGateConfig :=
  MkGateConfig f64_2 f64_5 f64_1 INFINITY f64_1 INFINITY INFINITY f64_1.
Record KillGate := MkGate {
  kg_subsystem : str;
  kg_metric_kind : KpiKind.t;
  kg_freeze_threshold : f64;
  kg_halt_threshold : f64;
  kg_frozen : bool;
  kg_halted : bool;
}.
Definition gate_eta (g : KillGate) : KillGate :=
  MkGate (kg_subsystem g) (kg_metric_kind g) (kg_freeze_threshold g) (kg_halt_threshold g) (kg_frozen g) (kg_halted g).
#[export] Instance upd_kg_frozen : Update kg_frozen := ltac:(update_with gate_eta).
#[export] Instance upd_kg_halted : Update kg_halted := ltac:(update_with gate_eta).

Module GateStatus.
Inductive t := Open | Frozen | Halted.
Definition as_str (v : t) : str := match v with Open => lit "open" | Frozen => lit "frozen" | Halted => lit "halted" end.
End GateStatus.
#[export] Instance GateStatus_eq_dec : EqDecision GateStatus.t.
Proof. solve_decision. Defined.
Module EscalationLevel.
Inductive t := Warn | Degrade | Freeze | Halt | Incident.
Definition next (v : t) : t :=
  match v with
  | Warn => Degrade
  | Degrade => Freeze
  | Freeze => Halt
  | Halt => Incident
  | Incident => Incident
  end.
Definition as_str (v : t) : str :=
  match v with
  | Warn => lit "warn"
  | Degrade => lit "degrade"
  | Freeze => lit "freeze"
  | Halt => lit "halt"
  | Incident => lit "incident"
  end.
End EscalationLevel.
#[export] Instance EscalationLevel_eq_dec : EqDecision EscalationLevel.t.
Proof. solve_decision. Defined.
Module KillGateError.
Inductive t := UnknownSubsystem (subsystem : str) | Tier3Required.
End KillGateError.

Record KillGateRegistry := MkGates {
  kr_gates : gmap str KillGate;
  kr_escalation_levels : gmap str EscalationLevel.t;
}.
Definition from_config (config : KillGateConfig) : KillGateRegistry :=
  MkGates
    (<[lit "screen_poster" := MkGate (lit "screen_poster") KpiKind.BanRate
         (kc_screen_poster_freeze config) (kc_screen_poster_halt config) false false]>
    (<[lit "mutation" := MkGate (lit "mutation") KpiKind.ReplayMismatch
         (kc_mutation_freeze config) (kc_mutation_halt config) false false]>
    (<[lit "cluster" := MkGate (lit "cluster") KpiKind.Divergence
         (kc_cluster_freeze config) (kc_cluster_halt config) false false]>
    (<[lit "bft" := MkGate (lit "bft") KpiKind.QuorumInvariant
         (kc_bft_freeze config) (kc_bft_halt config) false false]> ∅))))
    ∅.
Definition status_of (g : KillGate) : GateStatus.t :=
  if kg_halted g then GateStatus.Halted else if kg_frozen g then GateStatus.Frozen else GateStatus.Open.
Definition gate_status (subsystem : str) (k : KillGateRegistry) : option GateStatus.t := status_of <$> kr_gates k !! subsystem.

Section Gates.
Context {crates : AuditCrates} {A : Type} {audit : AuditWriter A} (show_f64 : f64 → str).
Implicit Types (k : KillGateRegistry) (a : A).

(** ** Escalation *)

Definition level_of (subsystem : str) k : EscalationLevel.t :=
  default EscalationLevel.Warn (kr_escalation_levels k !! subsystem).
Definition escalate_once (subsystem : str) (agent_id : Uuid) k a : option (EscalationLevel.t * KillGateRegistry * A) :=
  let current := level_of subsystem k in
  let next := EscalationLevel.next current in
  let k := MkGates (kr_gates k) (<[subsystem := next]> (kr_escalation_levels k)) in
  let told := (EventType.UserAction,
    [(lit "event_kind", JStr (lit "killgate.escalated")); (lit "subsystem", JStr subsystem);
     (lit "from_level", JStr (EscalationLevel.as_str current)); (lit "to_level", JStr (EscalationLevel.as_str next))]) in
  let sent := (EventType.UserAction,
    [(lit "event_kind", JStr (lit "killgate.notification_sent")); (lit "subsystem", JStr subsystem);
     (lit "via", JStr (lit "messaging_bridge"))]) in
  (λ a, (next, k, a)) <$>
    note_all agent_id (told :: if decide (next = EscalationLevel.Incident) then [sent] else []) a.
(** The loop of [escalate_to]; there are five levels. *)
Fixpoint escalate_from (fuel : nat) (subsystem : str) (target : EscalationLevel.t) (agent_id : Uuid) k a
    : option (KillGateRegistry * A) :=
  match fuel with
  | O => None
  | S fuel =>
      if decide (level_of subsystem k = target) then Some (k, a)
      else
        match escalate_once subsystem agent_id k a with
        | None => None
        | Some (next, k, a) =>
            if decide (next = EscalationLevel.Incident) then Some (k, a)
            else if decide (next = target) then Some (k, a)
            else escalate_from fuel subsystem target agent_id k a
        end
  end.
Definition escalate_to (subsystem : str) (target : EscalationLevel.t) (agent_id : Uuid) k a : option (KillGateRegistry * A) :=
  escalate_from 5 subsystem target agent_id k a.
Definition escalate (subsystem : str) (agent_id : Uuid) k a
    : option (result EscalationLevel.t KillGateError.t * KillGateRegistry * A) :=
  match kr_gates k !! subsystem with
  | None => Some (Err (KillGateError.UnknownSubsystem subsystem), k, a)
  | Some _ =>
      match escalate_once subsystem agent_id k a with
      | None => None
      | Some (next, k, a) => Some (Ok next, k, a)
      end
  end.

(** ** Metrics *)

Definition put_gate (subsystem : str) (g : KillGate) k : KillGateRegistry :=
  MkGates (<[subsystem := g]> (kr_gates k)) (kr_escalation_levels k).
(** A gate whose state changes is told of, then escalated. *)
Definition change_gate (subsystem : str) (g : KillGate) (event_type : EventType.t) (entries : list (str * Value))
    (target : EscalationLevel.t) (agent_id : Uuid) k a : option (KillGateRegistry * A) :=
  note agent_id event_type entries a ≫= escalate_to subsystem target agent_id (put_gate subsystem g k).
Definition check_gate (subsystem : str) (metric_value : f64) (agent_id : Uuid) k a
    : option (GateStatus.t * KillGateRegistry * A) :=
  match kr_gates k !! subsystem with
  | None => Some (GateStatus.Open, k, a)
  | Some g =>
      let status := status_of g in
      let moved :=
        if negb (kg_halted g) && f64_ge metric_value (kg_halt_threshold g) then
          pair GateStatus.Halted <$>
            change_gate subsystem (g <| kg_halted := true |> <| kg_frozen := true |>) EventType.Error
              [(lit "event_kind", JStr (lit "killgate.halted")); (lit "subsystem", JStr subsystem);
               (lit "reason", JStr (lit "metric " ++ show_f64 metric_value ++ lit " exceeded halt threshold " ++
                  show_f64 (kg_halt_threshold g)))] EscalationLevel.Incident agent_id k a
        else if negb (kg_frozen g) && f64_ge metric_value (kg_freeze_threshold g) then
          pair GateStatus.Frozen <$>
            change_gate subsystem (g <| kg_frozen := true |>) EventType.UserAction
              [(lit "event_kind", JStr (lit "killgate.frozen")); (lit "subsystem", JStr subsystem);
               (lit "reason", JStr (lit "metric " ++ show_f64 metric_value ++ lit " exceeded freeze threshold " ++
                  show_f64 (kg_freeze_threshold g))); (lit "by", JStr (lit "auto"))]
              EscalationLevel.Freeze agent_id k a
        else if f64_gt metric_value ZERO && bool_decide (status = GateStatus.Open) then
          (λ x, (status, (x.1.2, x.2))) <$> escalate_once subsystem agent_id k a
        else Some (status, (k, a)) in
      match moved with
      | None => None
      | Some (status, (k, a)) =>
          (λ a, (status, k, a)) <$>
            note agent_id EventType.StateChange
              [(lit "event_kind", JStr (lit "killgate.checked")); (lit "subsystem", JStr subsystem);
               (lit "metric", json_f64 metric_value); (lit "status", JStr (GateStatus.as_str status))] a
      end
  end.
(** The subsystems of a metric, in the order the map is visited. *)
Fixpoint check_each (subsystems : list str) (metric_value : f64) (agent_id : Uuid) k a
    : option (list (str * GateStatus.t) * KillGateRegistry * A) :=
  match subsystems with
  | [] => Some ([], k, a)
  | s :: subsystems =>
      match check_gate s metric_value agent_id k a with
      | None => None
      | Some (status, k, a) =>
          match check_each subsystems metric_value agent_id k a with
          | None => None
          | Some (results, k, a) => Some ((s, status) :: results, k, a)
          end
      end
  end.
Definition check_metric (order : list (str * KillGate) → list (str * KillGate)) (kind : KpiKind.t) (metric_value : f64)
    (agent_id : Uuid) k a : option (list (str * GateStatus.t) * KillGateRegistry * A) :=
  check_each (filter (λ x, kg_metric_kind x.2 = kind) (order (map_to_list (kr_gates k)))).*1 metric_value agent_id k a.

(** ** Operators *)

Definition manual_freeze (subsystem operator_id : str) (agent_id : Uuid) k a
    : option (result GateStatus.t KillGateError.t * KillGateRegistry * A) :=
  match kr_gates k !! subsystem with
  | None => Some (Err (KillGateError.UnknownSubsystem subsystem), k, a)
  | Some g =>
      (λ x, (Ok GateStatus.Frozen, x.1, x.2)) <$>
        change_gate subsystem (g <| kg_frozen := true |>) EventType.UserAction
          [(lit "event_kind", JStr (lit "killgate.frozen")); (lit "subsystem", JStr subsystem);
           (lit "reason", JStr (lit "manual freeze")); (lit "by", JStr operator_id)] EscalationLevel.Freeze agent_id k a
  end.
Definition manual_halt (subsystem operator_id : str) (agent_id : Uuid) k a
    : option (result GateStatus.t KillGateError.t * KillGateRegistry * A) :=
  match kr_gates k !! subsystem with
  | None => Some (Err (KillGateError.UnknownSubsystem subsystem), k, a)
  | Some g =>
      (λ x, (Ok GateStatus.Halted, x.1, x.2)) <$>
        change_gate subsystem (g <| kg_halted := true |> <| kg_frozen := true |>) EventType.Error
          [(lit "event_kind", JStr (lit "killgate.halted")); (lit "subsystem", JStr subsystem);
           (lit "reason", JStr (lit "manual halt by " ++ operator_id))] EscalationLevel.Incident agent_id k a
  end.
Definition manual_unfreeze (subsystem operator_id : str) (hitl_tier : Z) (agent_id : Uuid) k a
    : option (result GateStatus.t KillGateError.t * KillGateRegistry * A) :=
  if hitl_tier <? 3 then Some (Err KillGateError.Tier3Required, k, a)
  else
    match kr_gates k !! subsystem with
    | None => Some (Err (KillGateError.UnknownSubsystem subsystem), k, a)
    | Some g =>
        let k := put_gate subsystem (g <| kg_frozen := false |> <| kg_halted := false |>) k in
        let k := MkGates (kr_gates k) (delete subsystem (kr_escalation_levels k)) in
        (λ a, (Ok GateStatus.Open, k, a)) <$>
          note agent_id EventType.UserAction
            [(lit "event_kind", JStr (lit "killgate.unfrozen")); (lit "subsystem", JStr subsystem);
             (lit "operator_id", JStr operator_id); (lit "hitl_tier", JInt hitl_tier)] a
    end.
End Gates.

(** ** What gates promise *)

Section Promises.
Context {crates : AuditCrates} {A : Type} {audit : AuditWriter A} (show_f64 : f64 → str).
Implicit Types (k : KillGateRegistry) (a : A).

(** Escalation leaves the gates alone. *)
Lemma once_gates subsystem agent_id k a next k' a' :
  escalate_once subsystem agent_id k a = Some (next, k', a') → kr_gates k' = kr_gates k.
Proof. intros (x & _ & [= -> -> ->])%fmap_Some. done. Qed.
Lemma escalate_gates fuel subsystem target agent_id k a k' a' :
  escalate_from fuel subsystem target agent_id k a = Some (k', a') → kr_gates k' = kr_gates k.
Proof.
  revert k a. induction fuel as [|fuel IH]; intros k a E; [done|]. cbn [escalate_from] in E.
  case_decide; [by simplify_eq|]. destruct (escalate_once _ _ _ _) as [[[next k1] a1]|] eqn:E1; [|done].
  apply once_gates in E1. repeat case_decide; simplify_eq; [done..|]. by rewrite <- E1; eapply IH.
Qed.
Lemma change_gates subsystem g event_type entries target agent_id k a k' a' :
  change_gate subsystem g event_type entries target agent_id k a = Some (k', a') →
  kr_gates k' = <[subsystem := g]> (kr_gates k).
Proof. intros (a1 & _ & E)%bind_Some. by apply escalate_gates in E. Qed.

(** Where the trail's appends return, so does everything here. *)
Definition appends : Prop := ∀ agent_id event_type payload a, is_Some (append_audit agent_id event_type payload a).
Lemma note_total agent_id event_type entries a : appends → is_Some (note agent_id event_type entries a).
Proof. intros Ht. unfold note. destruct (Ht agent_id event_type (object entries) a) as [x ->]. by eexists. Qed.
Lemma note_all_total agent_id notes a : appends → is_Some (note_all agent_id notes a).
Proof.
  intros Ht. revert a. induction notes as [|[y e] notes IH]; intros a; simpl; [by eexists|].
  destruct (note_total agent_id y e a Ht) as [a1 ->]. apply IH.
Qed.
Lemma once_total subsystem agent_id k a : appends → ∃ k' a', escalate_once subsystem agent_id k a =
  Some (EscalationLevel.next (level_of subsystem k), k', a') ∧ level_of subsystem k' = EscalationLevel.next (level_of subsystem k).
Proof.
  intros Ht. unfold escalate_once. cbv zeta.
  match goal with |- context [note_all _ ?l a] => destruct (note_all_total agent_id l a Ht) as [a1 ->] end.
  cbn [fmap option_fmap option_map]. eexists _, _. split; [reflexivity|]. unfold level_of. simpl. by rewrite lookup_insert_eq.
Qed.
(** How many levels are above. *)
Definition above (v : EscalationLevel.t) : nat :=
  match v with
  | EscalationLevel.Warn => 4
  | EscalationLevel.Degrade => 3
  | EscalationLevel.Freeze => 2
  | EscalationLevel.Halt => 1
  | EscalationLevel.Incident => 0
  end.
Lemma escalate_from_total fuel subsystem target agent_id k a :
  appends → (above (level_of subsystem k) < fuel)%nat → is_Some (escalate_from fuel subsystem target agent_id k a).
Proof.
  intros Ht. revert k a. induction fuel as [|fuel IH]; intros k a Hf; [lia|]. cbn [escalate_from].
  case_decide; [by eexists|]. destruct (once_total subsystem agent_id k a Ht) as (k1 & a1 & -> & El).
  case_decide as Hinc; [by eexists|]. case_decide; [by eexists|]. apply IH. rewrite El.
  destruct (level_of subsystem k); simpl in *; try lia; done.
Qed.
Lemma change_total subsystem g event_type entries target agent_id k a :
  appends → is_Some (change_gate subsystem g event_type entries target agent_id k a).
Proof.
  intros Ht. unfold change_gate. destruct (note_total agent_id event_type entries a Ht) as [a1 ->]. simpl.
  apply escalate_from_total; [done|]. destruct (level_of _ _); simpl; lia.
Qed.
Lemma check_gate_total subsystem metric agent_id k a : appends → is_Some (check_gate show_f64 subsystem metric agent_id k a).
Proof.
  intros Ht. unfold check_gate. destruct (kr_gates k !! subsystem) as [g|]; [|by eexists].
  assert (Hn : ∀ (x : option (GateStatus.t * (KillGateRegistry * A))) f, is_Some x →
    is_Some (match x with None => None | Some (status, (k, a)) => (λ a, (status, k, a)) <$> note agent_id EventType.StateChange (f status) a end)).
  { intros x f [[status [k1 a1]] ->]. destruct (note_total agent_id EventType.StateChange (f status) a1 Ht) as [a2 ->]. by eexists. }
  cbv zeta. apply (Hn _ (λ status, [(lit "event_kind", JStr (lit "killgate.checked")); (lit "subsystem", JStr subsystem);
    (lit "metric", json_f64 metric); (lit "status", JStr (GateStatus.as_str status))])).
  destruct (_ && _); [apply fmap_is_Some, change_total, Ht|]. destruct (_ && _); [apply fmap_is_Some, change_total, Ht|].
  destruct (_ && _); [|by eexists]. destruct (once_total subsystem agent_id k a Ht) as (k1 & a1 & -> & _). by eexists.
Qed.

(** A halted gate is frozen too. *)
Definition gates_ok k : Prop := ∀ s g, kr_gates k !! s = Some g → kg_halted g = true → kg_frozen g = true.

(** The verdict of a metric on a gate. *)
Definition gate_verdict (metric : f64) (g : KillGate) : GateStatus.t :=
  if kg_halted g || f64_ge metric (kg_halt_threshold g) then GateStatus.Halted
  else if kg_frozen g || f64_ge metric (kg_freeze_threshold g) then GateStatus.Frozen
  else GateStatus.Open.
Definition checked_gate (metric : f64) (g : KillGate) : KillGate :=
  match gate_verdict metric g with
  | GateStatus.Halted => g <| kg_halted := true |> <| kg_frozen := true |>
  | GateStatus.Frozen => g <| kg_frozen := true |>
  | GateStatus.Open => g
  end.
Lemma checked_same metric g : (kg_halted g = true → kg_frozen g = true) → status_of (checked_gate metric g) = gate_verdict metric g.
Proof.
  intros Hg. unfold checked_gate, gate_verdict, status_of. destruct g as [n y f h fz ht]; simpl in *.
  destruct ht, fz; simpl; try done; destruct (f64_ge metric h), (f64_ge metric f); done.
Qed.
Lemma check_cases subsystem metric agent_id k a status k' a' :
  gates_ok k → check_gate show_f64 subsystem metric agent_id k a = Some (status, k', a') →
  match kr_gates k !! subsystem with
  | None => status = GateStatus.Open ∧ kr_gates k' = kr_gates k
  | Some g => status = gate_verdict metric g ∧ kr_gates k' = <[subsystem := checked_gate metric g]> (kr_gates k)
  end.
Proof.
  intros Hok. unfold check_gate. destruct (kr_gates k !! subsystem) as [g|] eqn:Eg; [|intros; by simplify_eq].
  specialize (Hok _ _ Eg). intros E. destruct (if negb (kg_halted g) && _ then _ else _) as [[st [k1 a1]]|] eqn:Em; [|done].
  apply fmap_Some in E as (a2 & _ & [= -> -> ->]).
  assert (Hg : g = checked_gate metric g → kr_gates k1 = kr_gates k → kr_gates k1 = <[subsystem := checked_gate metric g]> (kr_gates k))
    by (intros <- ->; by rewrite insert_id).
  unfold checked_gate, gate_verdict in *. destruct g as [n y f h fz ht]. simpl in *. unfold status_of in Em. simpl in Em.
  destruct ht; simpl in *.
  - rewrite (Hok eq_refl) in *. simpl in *. rewrite andb_false_r in Em. injection Em as <- <- <-. by split; [|apply Hg].
  - destruct (f64_ge metric h); simpl in *; [apply fmap_Some in Em as ([k2 a3] & E%change_gates & [= -> -> ->]); done|].
    destruct fz; simpl in *; [rewrite andb_false_r in Em; injection Em as <- <- <-; by split; [|apply Hg]|].
    destruct (f64_ge metric f); simpl in *; [apply fmap_Some in Em as ([k2 a3] & E%change_gates & [= -> -> ->]); done|].
    destruct (_ && _); [|injection Em as <- <- <-; by split; [|apply Hg]].
    apply fmap_Some in Em as ([[l k2] a3] & E%once_gates & [= -> -> ->]). by split; [|apply Hg].
Qed.
(** Anything done to the gates; the subsystems an operator opened are noted. *)
Inductive kstep : option str → KillGateRegistry * A → KillGateRegistry * A → Prop :=
| ks_check subsystem metric agent_id k a status k' a' :
    check_gate show_f64 subsystem metric agent_id k a = Some (status, k', a') → kstep None (k, a) (k', a')
| ks_freeze subsystem operator_id agent_id k a o k' a' :
    manual_freeze subsystem operator_id agent_id k a = Some (o, k', a') → kstep None (k, a) (k', a')
| ks_halt subsystem operator_id agent_id k a o k' a' :
    manual_halt subsystem operator_id agent_id k a = Some (o, k', a') → kstep None (k, a) (k', a')
| ks_escalate subsystem agent_id k a o k' a' :
    escalate subsystem agent_id k a = Some (o, k', a') → kstep None (k, a) (k', a')
| ks_unfreeze subsystem operator_id tier agent_id k a o k' a' :
    manual_unfreeze subsystem operator_id tier agent_id k a = Some (o, k', a') →
    kstep (if 3 <=? tier then Some subsystem else None) (k, a) (k', a')
| ks_elsewhere k a a' : kstep None (k, a) (k, a').
Inductive ksteps : list str → KillGateRegistry * A → KillGateRegistry * A → Prop :=
| ks_nil x : ksteps [] x x
| ks_cons o us x y z : kstep o x y → ksteps us y z → ksteps (option_list o ++ us) x z.

(** The gates after a step: one gate moved, if any. *)
Lemma kstep_cases o x y :
  gates_ok x.1 → kstep o x y →
  kr_gates y.1 = kr_gates x.1 ∨
  ∃ s g g', kr_gates x.1 !! s = Some g ∧ kr_gates y.1 = <[s := g']> (kr_gates x.1) ∧
    (kg_halted g' = true → kg_frozen g' = true) ∧
    (o = Some s ∨ (kg_frozen g = true → kg_frozen g' = true) ∧ (kg_halted g = true → kg_halted g' = true)).
Proof.
  intros Hok Hs. destruct Hs as [s m ag k a st k' a' E|s op ag k a r k' a' E|s op ag k a r k' a' E|s ag k a r k' a' E
    |s op tier ag k a r k' a' E|k a a']; simpl in *.
  - apply check_cases in E; [|done]. destruct (kr_gates k !! s) as [g|] eqn:Eg; [|left; by destruct E].
    right. exists s, g, (checked_gate m g). destruct E as [_ ->]. specialize (Hok _ _ Eg). split; [done|]. split; [done|].
    unfold checked_gate, gate_verdict. destruct g as [n y f h fz ht]. simpl in *.
    destruct ht, fz; simpl; try (by split; [|right]); destruct (f64_ge m h), (f64_ge m f); simpl; by split; [|right].
  - unfold manual_freeze in E. destruct (kr_gates k !! s) as [g|] eqn:Eg; [|left; by simplify_eq].
    apply fmap_Some in E as ([k1 a1] & E%change_gates & [= -> -> ->]). right. exists s, g, (g <| kg_frozen := true |>).
    split; [done|]. split; [done|]. split; [done|]. right. by split.
  - unfold manual_halt in E. destruct (kr_gates k !! s) as [g|] eqn:Eg; [|left; by simplify_eq].
    apply fmap_Some in E as ([k1 a1] & E%change_gates & [= -> -> ->]). right.
    exists s, g, (g <| kg_halted := true |> <| kg_frozen := true |>). split; [done|]. split; [done|]. split; [done|]. right. by split.
  - unfold escalate in E. destruct (kr_gates k !! s); [|left; by simplify_eq].
    destruct (escalate_once _ _ _ _) as [[[l k1] a1]|] eqn:E1; [|done]. apply once_gates in E1. left. by simplify_eq.
  - unfold manual_unfreeze in E. destruct (tier <? 3) eqn:Et; [left; by simplify_eq|].
    destruct (kr_gates k !! s) as [g|] eqn:Eg; [|left; by simplify_eq]. apply fmap_Some in E as (a1 & _ & [= -> -> ->]). right.
    exists s, g, (g <| kg_frozen := false |> <| kg_halted := false |>). split; [done|]. split; [done|]. split; [done|]. left.
    destruct (3 <=? tier) eqn:E3; [done|lia].
  - by left.
Qed.
Lemma kstep_ok o x y : gates_ok x.1 → kstep o x y → gates_ok y.1.
Proof.
  intros Hok Hs. destruct (kstep_cases _ _ _ Hok Hs) as [Eq|(s & g & g' & Eg & Eq & Hg & _)]; intros s0 g0; rewrite Eq; [apply Hok|].
  destruct (decide (s0 = s)) as [->|Hne]; [rewrite lookup_insert_eq; by intros [= <-]|]. rewrite lookup_insert_ne by done. apply Hok.
Qed.
Lemma kstep_sticks o x y s g :
  gates_ok x.1 → kstep o x y → o ≠ Some s → kr_gates x.1 !! s = Some g →
  ∃ g', kr_gates y.1 !! s = Some g' ∧ (kg_frozen g = true → kg_frozen g' = true) ∧ (kg_halted g = true → kg_halted g' = true).
Proof.
  intros Hok Hs Ho Eg. destruct (kstep_cases _ _ _ Hok Hs) as [Eq|(s0 & g0 & g' & Eg0 & Eq & _ & Hcase)]; rewrite Eq; [by exists g|].
  destruct (decide (s = s0)) as [->|Hne]; [|rewrite lookup_insert_ne by done; by exists g].
  rewrite lookup_insert_eq. exists g'. assert (g0 = g) as -> by congruence. by destruct Hcase.
Qed.
Lemma ksteps_stick us x y s g :
  ksteps us x y → gates_ok x.1 → s ∉ us → kr_gates x.1 !! s = Some g →
  ∃ g', kr_gates y.1 !! s = Some g' ∧ (kg_frozen g = true → kg_frozen g' = true) ∧ (kg_halted g = true → kg_halted g' = true).
Proof.
  intros Hs. revert g. induction Hs as [|o us x y z Hs _ IH]; intros g Hok Hn Eg; [by exists g|].
  apply not_elem_of_app in Hn as [Hn1 Hn2].
  assert (Ho : o ≠ Some s) by (intros ->; apply Hn1; by left).
  destruct (kstep_sticks _ _ _ _ _ Hok Hs Ho Eg) as (g1 & E1 & H1 & H2).
  destruct (IH g1) as (g2 & E2 & H3 & H4); [by eapply kstep_ok|done|done|]. exists g2. naive_solver.
Qed.
Lemma ksteps_ok us x y : ksteps us x y → gates_ok x.1 → gates_ok y.1.
Proof. induction 1 as [|o us x y z Hs _ IH]; intros Hok; [done|]. apply IH. by eapply kstep_ok. Qed.
Lemma from_config_ok config : gates_ok (from_config config).
Proof.
  intros s g. unfold from_config. simpl. intros E. repeat (apply lookup_insert_Some in E as [[_ <-]|[_ E]]; [done|]).
  by rewrite lookup_empty in E.
Qed.

(** C40. Gates hold. Whatever metrics are checked and operators do, a gate that is frozen or
    halted stays so as long as no operator at tier 3 or above opens it. A check of a
    metric answers [Halted] exactly when the gate was halted or the metric reaches its
    halt threshold, else [Frozen] exactly when it was frozen or the metric reaches its
    freeze threshold; the gate's status then is the answer; and the check returns whenever
    the trail's appends do. *)
Theorem gates_hold config a0 us0 k a us k' a' s g metric agent_id :
  ksteps us0 (from_config config, a0) (k, a) → ksteps us (k, a) (k', a') → s ∉ us → kr_gates k !! s = Some g →
  ∃ g', kr_gates k' !! s = Some g' ∧ (kg_frozen g = true → kg_frozen g' = true) ∧ (kg_halted g = true → kg_halted g' = true) ∧
    (∀ status k2 a2, check_gate show_f64 s metric agent_id k' a' = Some (status, k2, a2) →
       status = gate_verdict metric g' ∧ gate_status s k2 = Some status) ∧
    (appends → ∃ status k2 a2, check_gate show_f64 s metric agent_id k' a' = Some (status, k2, a2)).
Proof.
  intros H0 H1 Hn Eg. pose proof (ksteps_ok _ _ _ H0 (from_config_ok config)) as Hok. simpl in Hok.
  pose proof (ksteps_ok _ _ _ H1 Hok) as Hok'. simpl in Hok'.
  destruct (ksteps_stick _ _ _ _ _ H1 Hok Hn Eg) as (g' & Eg' & Hf & Hh). simpl in Eg'. exists g'. split_and!; try done.
  - intros status k2 a2 E. apply check_cases in E; [|done]. rewrite Eg' in E. destruct E as [-> Ek]. split; [done|].
    unfold gate_status. rewrite Ek, lookup_insert_eq. simpl. f_equal. apply checked_same. by apply (Hok' s).
  - intros Ha. destruct (check_gate_total s metric agent_id k' a' Ha) as [[[status k2] a2] E]. eauto.
Qed.
End Promises.

Module SampleGates.
#[local] Existing Instances SampleGuard.writer SampleGuard.uuids.
Definition show (f : f64) : str := [].
Definition gates : KillGateRegistry := from_config default_config.
(** The poster's gate frozen by a metric of 2, then left alone by a metric of 1. *)
Definition after (o : option (GateStatus.t * KillGateRegistry * list Value)) : KillGateRegistry * list Value :=
  match o with Some (_, k, a) => (k, a) | None => (gates, []) end.
Definition frozen : KillGateRegistry * list Value := after (check_gate show (lit "screen_poster") f64_2 nil_uuid gates []).
Definition later : KillGateRegistry * list Value := after (check_gate show (lit "screen_poster") f64_1 nil_uuid frozen.1 frozen.2).
Lemma step s m k a :
  is_Some (check_gate show s m nil_uuid k a) →
  kstep show None (k, a) ((after (check_gate show s m nil_uuid k a)).1, (after (check_gate show s m nil_uuid k a)).2).
Proof. intros [[[st k1] a1] E]. rewrite E. simpl. eapply ks_check. exact E. Qed.

Lemma gates_hold_witness :
  gate_status (lit "screen_poster") frozen.1 = Some GateStatus.Frozen ∧
  ∃ status k2 a2, check_gate show (lit "screen_poster") ZERO nil_uuid later.1 later.2 = Some (status, k2, a2) ∧
    status = GateStatus.Frozen ∧ gate_status (lit "screen_poster") k2 = Some status.
Proof.
  split; [vm_compute; reflexivity|].
  destruct (check_gate show (lit "screen_poster") ZERO nil_uuid later.1 later.2) as [[[status k2] a2]|] eqn:E; [|vm_compute in E; discriminate].
  destruct (kr_gates frozen.1 !! lit "screen_poster") as [g|] eqn:Eg; [|vm_compute in Eg; discriminate].
  destruct (gates_hold show default_config [] [] frozen.1 frozen.2 [] later.1 later.2 (lit "screen_poster") g ZERO nil_uuid)
    as (g' & _ & _ & _ & Hs & _).
  - apply (ks_cons _ None [] _ (frozen.1, frozen.2)); [|apply ks_nil]. apply (step (lit "screen_poster") f64_2). eexists. vm_compute. reflexivity.
  - apply (ks_cons _ None [] _ (later.1, later.2)); [|apply ks_nil]. apply (step (lit "screen_poster") f64_1). eexists. vm_compute. reflexivity.
  - apply not_elem_of_nil.
  - exact Eg.
  - exists status, k2, a2. split; [reflexivity|]. split; [|exact (proj2 (Hs status k2 a2 E))].
    assert (E' : fst <$> (fst <$> check_gate show (lit "screen_poster") ZERO nil_uuid later.1 later.2) = Some GateStatus.Frozen)
      by (vm_compute; reflexivity).
    rewrite E in E'. injection E' as ->. reflexivity.
Defined.
End SampleGates.
